(* ===== verification/_CoqProject ===== *)
-Q . S2P
Prelude.v
protect.v
pagemap.v
vad.v
arena.v
region.v
mem.v
mem_access.v
mem_ops.v
mem_safe.v
mem_demo.v
engine.v
guest_heap.v
heap_coherent.v
path.v
volume.v
regs.v
regs_safe.v
sync_obj.v
insn.v
exec.v
exec_string.v
exec_sse.v
exec_one.v
iced_cpu.v
exec_wf.v
exec_safe.v
step_safe.v
exec_demo.v
engine_safe.v
word_spec.v
arith_spec.v
string_spec.v
rep_live.v
jit_block.v
jit_mem.v
jit_stub.v
jit_crt.v
exception.v
lsda.v
msvc_eh.v
msvc_spec.v
unwind_spec.v
lsda_spec.v
utf.v
encoding.v
dispatch_table.v
fake_va.v
guest_string.v
guest_string_spec.v
pe.v
pe_spec.v
cpu.v
dll_loader.v
dll_spec.v
hostfs.v
files.v
thread.v
win32.v
k32_sync.v
k32_thread.v
k32_memory.v
k32_misc.v
k32_info.v
k32_string.v
k32_dispatch.v
win32_spec.v
k32_misc_spec.v
k32_file.v
k32_path.v
file_spec.v
seh.v
seh_spec.v
user32.v
user32_spec.v
guest_stubs.v
session.v
session_spec.v
win32_demo.v
file_demo.v
