(* ===== verification/Prelude.v ===== *)
(** * WIE: a verification library

    WIE (src/) runs 64-bit Windows programs in user space.  A CPU engine
    (crates/wie-cpu) executes the guest's code against a software MMU; an import is
    an address in a window of guest memory at which the engine stops or where a
    short answer is planted; the session (crates/wie-runtime) finds out what a stop
    means and calls a handler of the Windows API (crates/wie-winapi); the images are
    read by crates/wie-pe.  This library models the interpreter, the memory, what the
    JIT does around the code it generates, the loader, the session's loop and the
    handlers that keep state, and proves what they promise each other and the guest.

    ** Parts and files

    Guest memory (crates/wie-cpu/src/mem):
    - [protect], [pagemap], [vad], [arena], [region]: protections (protect.rs); page
      states as runs (pagemap.rs), specified by the function [view]; reservations
      (vad.rs), by the ownership function [find]; the host mappings that store the
      bytes (backend.rs, arena.rs, mmap_arena.rs) over an explicit [Host]; the named
      ranges (region.rs).
    - [mem] (mod.rs): [GuestMemory], one definition per method over the five.
      [mem_access], [mem_ops], [mem_safe]: its invariant [gm_wf] and its theorems;
      [mem_demo]: concrete memories.

    The interpreter (crates/wie-cpu/src):
    - [engine] (lib.rs): [CpuMem], the two memory methods of the CpuEngine trait, its
      laws [CpuMemLaws], and the vocabulary of buffers ([holds], [accessible]);
      [cpu]: mapping and registers.  Clients are proved against the laws.
    - [regs] (regs.rs), [insn] (what is used of the decoder), [exec],
      [exec_string], [exec_sse], [exec_one] (exec.rs), [iced_cpu] (iced_cpu.rs): one
      instruction, one step, one run up to a stop.
    - [exec_wf], [exec_safe], [step_safe], [engine_safe]: safety of all of it;
      [word_spec], [arith_spec], [regs_safe], [string_spec], [rep_live]: what the
      instructions compute; [exec_demo]: a concrete decoder, programs.

    The JIT (crates/wie-cpu/src/jit):
    - [jit_block] (block.rs): which instructions a block has, and the plan of its
      accesses to the stack.
    - [jit_mem] (lower.rs): the caches of pages and the pins behind the loads and
      stores of compiled blocks.
    - [jit_stub] (trampolines.rs, lower.rs): the host functions that stand for the
      shortest bodies, and the tables from a block to the next.
    - [jit_crt] (fast_api.rs): malloc, free, memcpy and other calls made in place.

    Images and tables:
    - [pe], [pe_spec] (wie-pe/src/lib.rs): identity, map plan, imports, loading.
    - [dll_loader], [dll_spec] (dll_loader.rs): exports, relocation, loading; the end
      of [dll_spec] is a concrete DLL.
    - [exception], [lsda] (exception.rs), [msvc_eh] (msvc_eh.rs): unwind tables,
      landing pads, C++ tables; [unwind_spec], [lsda_spec], [msvc_spec].
    - [dispatch_table], [fake_va]: API ids and names, the addresses they have.

    Handlers of the Windows API (crates/wie-winapi/src):
    - [guest_heap], [heap_coherent] (guest_heap.rs): the process heap, on
      the host and shared with an allocator in the guest.
    - [path], [volume] (vfs/path.rs, volume.rs, bottle.rs), [utf],
      [encoding] (vfs/encoding.rs), [guest_string], [guest_string_spec]
      (guest_memory.rs, guest_string.rs): names and texts.
    - [sync_obj] (sync_obj.rs), [thread] (thread.rs): kernel objects,
      waits, thread-local storage.
    - [win32] (lib.rs): the process state [WinApiState], the monad of handlers [H] and
      their outcome: a return to the guest, or a signal to the runtime.
      [k32_sync], [k32_thread], [k32_memory], [k32_misc], [k32_info], [k32_string],
      [k32_dispatch] (kernel32.rs), [seh] (seh.rs); [win32_spec], [k32_misc_spec],
      [seh_spec].
    - [hostfs] (vfs/backend.rs), [files], [k32_file] (guest_io_host.rs), [k32_path]
      (kernel32.rs), [file_spec]: files, on a state that extends that of [win32].
    - [user32], [user32_spec] (user32.rs): messages, classes and windows, on the
      state [UserState] next to that of [win32].

    The runtime (crates/wie-runtime/src):
    - [guest_stubs] (guest_stubs.rs, hooks.rs): the planted answers and the tables
      that lead from an import to an address and back.
    - [session] (session.rs, guest_callback.rs, mt_runtime.rs): the loop, window
      procedures called for a handler, worker threads; [session_spec].
    - [win32_demo], [file_demo]: the interpreter with a concrete memory, host and
      process, on which the theorems about handlers and session are instantiated.

    ** Correspondence of state and operations

    Definitions keep the names of the code; a method that clashes with another has a
    prefix ([gm_], [va_], [r_], [event_], ...) or its file's name.  A loop body is a
    definition of its own ([..._step], [..._body]).  A Rust integer is a [Z] in its
    range; the wrapping, saturating and checked operations are those of this file,
    and unchecked arithmetic wraps as in a release build.  Fallible code is in [res]:
    a value, a [CpuError], or [Abort] when the process itself would stop (a host
    fault, a panic) or a loop would outlast its bound.  Text is a list of bytes
    where the code cuts bytes, a list of characters where it converts.  Addresses
    printed into error texts are left out.  An object behind an [Arc] is an index
    into the store [arcs].

    ** Theorems

    - Memory: every reachable memory is well formed and the next request completes
      ([reachable_safe]); the Virtual* calls against page view, ownership and bytes
      on success and failure ([virtual_alloc_spec], [virtual_free_spec],
      [virtual_protect_spec]); writes ([gm_write_spec]); host pointers alias what
      they stand for ([host_span_sound]).
      The pages the host lets the emulator access may be fewer than the guest's: with
      WIE_MPROTECT on, the default, the host's protections follow the guest's but can
      be stale ([stale_host_protection_faults]).  What needs the host to grant an
      access says so: [gm_write_spec] has both cases, and [host_grants] (the host lets
      the emulator do what the guest may do; true with WIE_MPROTECT=0, kept by every
      access, and true of a concrete mirrored memory, [mirrored_host_grants]) is a part of the invariant under which the theorems on the interpreter
      and the JIT hold ([mem_ok], [mem_inv]).
    - Interpreter: no step of any program kills the emulator ([step_safe]) and a run
      ends with its budget ([run_until_stop_spec]); division is exact or an error
      ([wide_div_exact]); REP STOS comes to its end ([rep_stos_completes]).
    - JIT: a block is the code the interpreter would run ([block_is_code]); its plan
      covers its accesses to the stack ([stack_plan_covers]); whatever the caches
      hold, the helpers behind its loads and stores do what the interpreter does
      ([jit_load_reads], [jit_store_writes]; the paths the generated code takes
      without them are not modelled); a stub does what its instructions do when they
      are of the forms it reads right ([micro_stub_is_block]); its malloc and free are the allocator of the process
      heap ([crt_heap_refines]).
    - Images: relocation ([relocations_spec]), the table of modules
      ([load_dll_modules]), the two loaders agree ([load_direct_is_image]), exports
      ([exports_sound]).
    - Exceptions: unwinding inverts the prologue ([unwind_inverts_prologue]); the
      search finds the innermost handler ([search_innermost],
      [find_msvc_catch_spec]); its plan is run step by step
      ([exception_runs_plan]).
    - Processes: [tls_refinement], [cs_mutex], [interlocked_handlers],
      [fls_mirror]; every modelled KERNEL32 call keeps the calling convention
      ([calls_keep_convention]).
    - Heap: where a block comes from and when there is none ([alloc_spec]), [alloc_coherent_refines], [free_coherent_refines].
    - Files, with or without the guest's own table of open files, which sessions have:
      [write_file_refines], [read_file_refines], [read_past_end_fails]; also
      [open_follows_plan], [guest_path_confined].
    - Windows: the queue of messages, what each call does to it by its arguments and
      what the caller gets ([message_queue_fifo]), the way of a message to
      its window ([message_reaches_window]), the tables of classes and windows
      ([window_procedures_registered]).
    - Session: whatever the program does, a run ends, or the primary thread is in
      a wait that nobody has ended yet ([session_comes_to_an_end]);
      window procedures are called and return as Windows has it
      ([window_procedure_called]); an import's address leads back to it
      ([import_resolves]); the host takes over exactly where no code is planted
      ([stubs_planted]); [last_error_published]; a worker that ends is seen to end
      ([worker_end_is_seen]).
    The files hold further theorems on components (page runs, reservations, arenas,
    wildcards, code pages, waits, LEB128, unwinding of chained infos, ...).  Where
    the code does not do what it means to, a lemma next to the component shows it on
    a concrete run, among them [stale_host_protection_faults],
    [split_header_overlaps], [save_without_frame_register], [inner_catch_all_loses],
    [post_to_window_refused], [stale_last_error], [early_write_keeps_plan] and
    [long_move_misread].

    ** Bounds and fuel

    A loop whose recursion is not structural runs [iter_until] or [loopM] with a binary
    [positive] budget, at least one more than the work left: pages of a scan, bytes
    of a copy, candidates of a search, backtracks of a wildcard ([glob_fuel]),
    instructions of a run.  Running out is [Abort NoFuel]; the theorems exclude it on
    every input that satisfies the invariant.  The walk of chained unwind infos
    takes the depth of the native stack as its bound.  The loop of the session takes
    a number of turns and of parks; [session_comes_to_an_end] says how many turns are
    enough.  A wait without a timeout is made in slices of 50 ms and may last for ever:
    the model looks at a number of slices and says [StillWaiting] when none was
    answered; more slices only replace that outcome.  A worker thread may run for ever;
    [worker_loop] is its first turns.

    ** Parameters

    Code that is not under src/ is a parameter: [HostOS] (mmap, mprotect, madvise,
    sysconf), [HostFs] (std::fs), [HostConsole], [IcedRegister], [IcedInstruction]
    (iced_x86), [NanChoice] (which NaN Rust's arithmetic gives), [PE_parse] (goblin),
    [fs_read], [is_file]; classes [...Laws] state what is documented of them, and the
    demo files give instances.  So are the environment (WIE_STRING_BULK, WIE_MPROTECT,
    WIE_MT, WIE_MT_MAX_THREADS), the clock, the order in which a HashMap is traversed
    ([values]), closures passed in (the import resolver, the reader of the
    exception search), and what other threads do: [env] between the sections of a
    poll, [meanwhile] while the primary thread holds no lock, [wait_for] in one
    wait with a timeout on the host, [thread_starts].  The session reaches handlers through the
    class [Dispatch] and the engine through [GuestRun].  A condition variable is
    modelled by what it allows, any wake-up at any time; host threads by the order
    of their critical sections.  The host does not run out of memory.

    ** Not modelled

    - The code the JIT generates (most of jit/lower.rs) is Cranelift IR, whose meaning
      is that of a third-party compiler; the cache of compiled blocks, its
      invalidation and the run loop over it (jit/mod.rs); the helpers of strings and
      floats (jit/lower.rs).
    - The in-guest heap, file and MBWC helpers (guest_heap_accel.rs, guest_io.rs,
      guest_mbwc.rs, guest_rewire.rs) emit machine code: its meaning needs an x86
      decoder, which is a parameter here.
    - The construction of a session (the layout, the environment block, argv, page
      protections of the sections), its profile and journal, and the text of its
      diagnostics.
    - Module and resource calls of KERNEL32 (LoadLibrary, GetProcAddress,
      FindResource), and the handlers of the other libraries (GDI32, ADVAPI32, UCRT,
      OLE32, OLEAUT32, SHELL32, COMCTL32, COMDLG32, D3D9, UXTHEME, WINMM, the Mingw
      runtime): mostly fixed answers.
    - The idle policy (environment and clock), the creation of a bottle's folders,
      tracing, and the command line: input and output. *)

From Stdlib Require Export Ascii.
From stdpp Require Export base numbers gmap list strings pretty sorting fin_maps.
Global Open Scope Z_scope.

(** ** Machine integers

    A Rust [u64]/[usize] (64-bit target) is a [Z] kept in [0, 2^64); the
    wrapping, saturating and checked operations are written out. *)

Abbreviation u8 := Z (only parsing).
Abbreviation u16 := Z (only parsing).
Abbreviation u32 := Z (only parsing).
Abbreviation u64 := Z (only parsing).
Abbreviation usize := Z (only parsing).

Abbreviation u64_lim := 18446744073709551616 (only parsing).
Abbreviation u32_lim := 4294967296 (only parsing).

Definition in_u64 (x : Z) : Prop := 0 ≤ x < u64_lim.
#[global] Instance in_u64_dec x : Decision (in_u64 x) := ltac:(unfold in_u64; apply _).

(** A literal is in range by evaluation: [in_u64_lit eq_refl]. *)
Lemma in_u64_lit {x} : bool_decide (in_u64 x) = true → in_u64 x.
Proof. apply bool_decide_eq_true_1. Qed.
Arguments in_u64_lit {x} & _.

Definition wrap64 (x : Z) : u64 := x mod u64_lim.
Definition sat_add (a b : u64) : u64 := Z.min (a + b) (u64_lim - 1).
Definition sat_sub (a b : u64) : u64 := Z.max (a - b) 0.
Definition sat_mul (a b : u64) : u64 := Z.min (a * b) (u64_lim - 1).
Definition checked_add (a b : u64) : option u64 :=
  if decide (a + b < u64_lim) then Some (a + b) else None.
Definition checked_sub (a b : u64) : option u64 :=
  if decide (b ≤ a) then Some (a - b) else None.
Definition is_multiple_of (a b : u64) : bool := bool_decide (a mod b = 0).

Lemma checked_add_Some a b c : checked_add a b = Some c ↔ c = a + b ∧ a + b < u64_lim.
Proof. unfold checked_add. case_decide; split; [intros [= <-]; lia|by intros [-> _]|done|lia]. Qed.

Lemma checked_add_None a b : checked_add a b = None ↔ u64_lim ≤ a + b.
Proof. unfold checked_add. case_decide; split; [done|lia|lia|done]. Qed.

Lemma sat_sub_le a b : b ≤ a → sat_sub a b = a - b.
Proof. unfold sat_sub. lia. Qed.

Lemma sat_add_lt a b : a + b < u64_lim → sat_add a b = a + b.
Proof. unfold sat_add. lia. Qed.

Lemma sat_mul_lt a b : a * b < u64_lim → sat_mul a b = a * b.
Proof. unfold sat_mul. lia. Qed.

Lemma shiftr_12 x : Z.shiftr x 12 = x / 4096.
Proof. by rewrite Z.shiftr_div_pow2 by lia. Qed.

Lemma div_4096_bounds x : x / 4096 * 4096 ≤ x < x / 4096 * 4096 + 4096.
Proof. pose proof (Z.div_mod x 4096). pose proof (Z.mod_pos_bound x 4096). lia. Qed.

Lemma land_4095 x : Z.land x 4095 = x mod 4096.
Proof. change 4095 with (Z.ones 12). by rewrite Z.land_ones by lia. Qed.

(** A multiple of the page size, and the two directions of the quotient. *)
Lemma div_mul_aligned x n : 0 < n → x mod n = 0 → x / n * n = x.
Proof. intros. pose proof (Z.div_mod x n). lia. Qed.

(** ** Outcomes

    [Ok]/[Err] are the two constructors of the code's [Result<_, CpuError>].
    [Abort] is what the type does not show: the host faults on a protected
    page, or (never, by the totality theorems) a loop of the model exceeds
    its fuel. *)

Inductive CpuError : Type := Message (text : string).
#[global] Instance CpuError_eq_dec : EqDecision CpuError.
Proof. solve_decision. Defined.

Inductive abort : Type := NoFuel | HostFault | Panic.
#[global] Instance abort_eq_dec : EqDecision abort.
Proof. solve_decision. Defined.

Inductive res (A : Type) : Type :=
  | Ok (a : A)
  | Err (e : CpuError)
  | Abort (w : abort).
Arguments Ok {A} a.
Arguments Err {A} e.
Arguments Abort {A} w.

#[global] Instance res_eq_dec `{EqDecision A} : EqDecision (res A).
Proof. solve_decision. Defined.

#[global] Instance res_ret : MRet res := λ A, Ok.
#[global] Instance res_bind : MBind res := λ A B f m,
  match m with Ok a => f a | Err e => Err e | Abort w => Abort w end.

Definition is_ok {A} (r : res A) : bool := match r with Ok _ => true | _ => false end.

(** [Option::ok_or_else]. *)
Definition ok_or {A} (o : option A) (e : CpuError) : res A :=
  match o with Some a => Ok a | None => Err e end.

(** State and error: a [&mut self] method returning [Result].  The state an
    early return leaves behind is kept, as in the code. *)
Definition M (S A : Type) : Type := S → S * res A.

#[global] Instance M_ret S : MRet (M S) := λ A a s, (s, Ok a).
#[global] Instance M_bind S : MBind (M S) := λ A B f m s,
  match m s with
  | (s', Ok a) => f a s'
  | (s', Err e) => (s', Err e)
  | (s', Abort w) => (s', Abort w)
  end.

Definition lift {S A} (r : res A) : M S A := λ s, (s, r).
Definition get {S} : M S S := λ s, (s, Ok s).
Definition put {S} (s : S) : M S unit := λ _, (s, Ok tt).
Definition modify {S} (f : S → S) : M S unit := λ s, (f s, Ok tt).
Definition fail {S A} (e : CpuError) : M S A := λ s, (s, Err e).

(** Run a method of a component [C] stored in the field [proj] of [S]. *)
Definition zoom {S C A} (proj : S → C) (upd : C → S → S) (m : M C A) : M S A :=
  λ s, let '(c, r) := m (proj s) in (upd c s, r).

(** ** Loops

    A Rust [while]/[loop] is a step function [S → S + R] ([inl]: next
    iteration, [inr]: leave the loop) run for at most [p] iterations.  The
    fuel is binary, so a generous bound costs nothing to evaluate. *)

Fixpoint iter_until {S R} (p : positive) (step : S → S + R) (s : S) : S + R :=
  match p with
  | xH => step s
  | xO p' =>
      match iter_until p' step s with
      | inl s' => iter_until p' step s'
      | inr r => inr r
      end
  | xI p' =>
      match step s with
      | inl s1 =>
          match iter_until p' step s1 with
          | inl s2 => iter_until p' step s2
          | inr r => inr r
          end
      | inr r => inr r
      end
  end.

Definition run_loop {S R} (p : positive) (step : S → S + res R) (s : S) : res R :=
  match iter_until p step s with inr r => r | inl _ => Abort NoFuel end.

Fixpoint iter_nat {S R} (n : nat) (step : S → S + R) (s : S) : S + R :=
  match n with
  | O => inl s
  | Datatypes.S n' =>
      match step s with inl s' => iter_nat n' step s' | inr r => inr r end
  end.

Lemma iter_nat_add {S R} (step : S → S + R) n m s :
  iter_nat (n + m) step s =
  match iter_nat n step s with inl s' => iter_nat m step s' | inr r => inr r end.
Proof. revert s; induction n as [|n IH]; intros s; simpl; [done|]. by destruct (step s). Qed.

Lemma iter_until_nat {S R} (step : S → S + R) p s :
  iter_until p step s = iter_nat (Pos.to_nat p) step s.
Proof.
  revert s; induction p as [p IH|p IH|]; intros s.
  - rewrite Pos2Nat.inj_xI. cbn [iter_until iter_nat]. destruct (step s) as [s1|]; [|done].
    replace (2 * Pos.to_nat p)%nat with (Pos.to_nat p + Pos.to_nat p)%nat by lia.
    rewrite iter_nat_add, IH. destruct (iter_nat _ _ _); [by rewrite IH|done].
  - rewrite Pos2Nat.inj_xO. cbn [iter_until].
    replace (2 * Pos.to_nat p)%nat with (Pos.to_nat p + Pos.to_nat p)%nat by lia.
    rewrite iter_nat_add, IH. destruct (iter_nat _ _ _); [by rewrite IH|done].
  - change (Pos.to_nat 1) with 1%nat. cbn [iter_until iter_nat]. by destruct (step s).
Qed.

(** The total-correctness rule of every loop: an invariant [I], a variant
    [μ] that each iteration decreases, and enough fuel. *)
Lemma iter_until_rule {S R} (step : S → S + R) (I : S → Prop) (Q : R → Prop) (μ : S → Z) p s :
  (∀ s, I s → match step s with
              | inl s' => I s' ∧ 0 ≤ μ s' < μ s
              | inr r => Q r
              end) →
  I s → 0 ≤ μ s < Zpos p →
  ∃ r, iter_until p step s = inr r ∧ Q r.
Proof.
  intros Hstep HI Hμ. rewrite iter_until_nat.
  assert (Hn : 0 ≤ μ s < Z.of_nat (Pos.to_nat p)) by lia.
  clear Hμ. revert s HI Hn. generalize (Pos.to_nat p) as n.
  induction n as [|n IH]; intros s HI Hn; [lia|].
  cbn [iter_nat]. specialize (Hstep s HI). destruct (step s) as [s'|r]; [|eauto].
  destruct Hstep as [HI' ?]. apply IH; [done|lia].
Qed.

Lemma run_loop_rule {S R} (step : S → S + res R) (I : S → Prop) (Q : res R → Prop)
    (μ : S → Z) p s :
  (∀ s, I s → match step s with
              | inl s' => I s' ∧ 0 ≤ μ s' < μ s
              | inr r => Q r
              end) →
  I s → 0 ≤ μ s < Zpos p →
  Q (run_loop p step s).
Proof.
  intros Hs HI Hμ. unfold run_loop.
  destruct (iter_until_rule step I Q μ p s Hs HI Hμ) as (r & -> & HQ). done.
Qed.

(** A loop in the body of a [&mut self] method: each iteration may change the
    state, return early with [?], go on ([inl]) or leave the loop ([inr]). *)
Definition loopM_step {S X A} (body : X → M S (X + A)) (xs : X * S) : X * S + S * res A :=
  match body xs.1 xs.2 with
  | (s', Ok (inl x')) => inl (x', s')
  | (s', Ok (inr a)) => inr (s', Ok a)
  | (s', Err e) => inr (s', Err e)
  | (s', Abort w) => inr (s', Abort w)
  end.

Definition loopM {S X A} (p : positive) (body : X → M S (X + A)) (x : X) : M S A := λ s,
  match iter_until p (loopM_step body) (x, s) with
  | inr r => r
  | inl (_, s') => (s', Abort NoFuel)
  end.

Lemma loopM_rule {S X A} (body : X → M S (X + A)) (I : X → S → Prop) (Q : S → res A → Prop)
    (μ : X → Z) p x s :
  (∀ x s, I x s → match body x s with
                  | (s', Ok (inl x')) => I x' s' ∧ 0 ≤ μ x' < μ x
                  | (s', Ok (inr a)) => Q s' (Ok a)
                  | (s', Err e) => Q s' (Err e)
                  | (s', Abort w) => Q s' (Abort w)
                  end) →
  I x s → 0 ≤ μ x < Zpos p →
  Q (loopM p body x s).1 (loopM p body x s).2.
Proof.
  intros Hb HI Hμ. unfold loopM.
  destruct (iter_until_rule (loopM_step body) (λ xs, I xs.1 xs.2) (λ r, Q r.1 r.2)
              (λ xs, μ xs.1) p (x, s)) as ([s' r] & -> & HQ); [|done..].
  clear HI Hμ x s. intros [x s] HI. unfold loopM_step. simpl in *. specialize (Hb x s HI).
  destruct (body x s) as [s' [[x'|a]|e|w]]; done.
Qed.

(** Fuel for a loop whose variant is at most [n]. *)
Definition fuel_of (n : Z) : positive := Z.to_pos (n + 1).

Lemma fuel_of_spec n : 0 ≤ n → n < Zpos (fuel_of n).
Proof. unfold fuel_of. lia. Qed.

(** ** Text of error messages: [{}] and [{:#x}] *)

Definition digit (n : Z) : ascii :=
  if decide (n < 10) then ascii_of_nat (Z.to_nat (48 + n)) else ascii_of_nat (Z.to_nat (87 + n)).

Fixpoint digits (base : Z) (fuel : nat) (n : Z) (acc : string) : string :=
  match fuel with
  | O => acc
  | Datatypes.S f =>
      let acc' := String (digit (n mod base)) acc in
      if decide (n / base = 0) then acc' else digits base f (n / base) acc'
  end.

(** 64 bits need at most 20 decimal and 16 hexadecimal digits. *)
Definition fmt_dec (n : Z) : string := digits 10 20 n "".
Definition fmt_hex (n : Z) : string := "0x" +:+ digits 16 16 n "".

(** [str::parse::<u32>] on the digits of a string: each digit is checked. *)
Definition digit_val (c : ascii) : option Z :=
  let k := Z.of_nat (nat_of_ascii c) in
  if decide (48 ≤ k ≤ 57) then Some (k - 48) else None.

Fixpoint parse_digits (lim acc : Z) (s : string) : option Z :=
  match s with
  | EmptyString => Some acc
  | String c s' =>
      match digit_val c with
      | Some d => if decide (acc * 10 + d < lim) then parse_digits lim (acc * 10 + d) s' else None
      | None => None
      end
  end.

Definition parse_u32 (s : string) : option Z :=
  match s with
  | EmptyString => None
  | String "+" EmptyString => None
  | String "+" s' => parse_digits u32_lim 0 s'
  | _ => parse_digits u32_lim 0 s
  end.

(** [str::strip_prefix] and [str::split_once]. *)
Fixpoint strip_prefix (p s : string) : option string :=
  match p, s with
  | EmptyString, _ => Some s
  | String a p', String b s' => if decide (a = b) then strip_prefix p' s' else None
  | _, _ => None
  end.

Fixpoint split_once (c : ascii) (s : string) : option (string * string) :=
  match s with
  | EmptyString => None
  | String a s' =>
      if decide (a = c) then Some ("", s')
      else '(x, y) ← split_once c s'; Some (String a x, y)
  end.

Lemma digit_dec_cases d : 0 ≤ d < 10 →
  digit d ∈ ["0"; "1"; "2"; "3"; "4"; "5"; "6"; "7"; "8"; "9"]%char ∧ digit_val (digit d) = Some d.
Proof.
  intros Hd. assert (∃ k, (k < 10)%nat ∧ d = Z.of_nat k) as (k & Hk & ->)
    by (exists (Z.to_nat d); lia).
  do 10 (destruct k as [|k]; [split; [set_solver|reflexivity]|]). lia.
Qed.

Lemma parse_digits_fmt lim fuel n s :
  0 ≤ n < lim → n < 10 ^ Z.of_nat fuel → (0 < fuel)%nat →
  parse_digits lim 0 (digits 10 fuel n s) = parse_digits lim n s.
Proof.
  revert n s. induction fuel as [|f IH]; intros n s Hn Hlim Hf; [lia|]. cbn [digits].
  pose proof (Z.div_mod n 10 ltac:(lia)) as Hdm. pose proof (Z.mod_pos_bound n 10 ltac:(lia)).
  assert (Hstep : parse_digits lim (n / 10) (String (digit (n mod 10)) s) = parse_digits lim n s).
  { cbn [parse_digits]. rewrite (proj2 (digit_dec_cases (n mod 10) ltac:(lia))).
    by replace (n / 10 * 10 + n mod 10) with n by lia; rewrite decide_True by lia. }
  case_decide as Hz; [by rewrite <- Hz, Hstep|].
  rewrite Nat2Z.inj_succ, Z.pow_succ_r in Hlim by lia.
  assert (0 < n / 10) by (pose proof (Z.div_pos n 10); lia).
  destruct f as [|f']; [change (10 ^ Z.of_nat 0) with 1 in Hlim; lia|].
  rewrite IH, Hstep by lia. done.
Qed.

Lemma split_once_digits c fuel n s :
  c ∉ ["0"; "1"; "2"; "3"; "4"; "5"; "6"; "7"; "8"; "9"]%char → 0 ≤ n →
  ∀ a r, split_once c s = Some (a, r) → split_once c (digits 10 fuel n s) = Some (digits 10 fuel n a, r).
Proof.
  intros Hc Hn. revert n s Hn. induction fuel as [|f IH]; intros n s Hn a r Hs; [done|].
  cbn [digits]. pose proof (Z.mod_pos_bound n 10 ltac:(lia)) as Hm.
  assert (Hs' : split_once c (String (digit (n mod 10)) s) = Some (String (digit (n mod 10)) a, r)).
  { cbn [split_once]. rewrite decide_False, Hs; [done|].
    intros <-. by apply Hc, digit_dec_cases. }
  case_decide; [done|]. apply IH; [apply Z.div_pos; lia|done].
Qed.

Lemma digits_app base fuel n a b : digits base fuel n a +:+ b = digits base fuel n (a +:+ b).
Proof. revert n a. induction fuel as [|f IH]; intros n a; [done|]. cbn [digits]. by case_decide. Qed.

Lemma digits_head fuel n s :
  ∃ d s', 0 ≤ d < 10 ∧ digits 10 (Datatypes.S fuel) n s = String (digit d) s'.
Proof.
  revert n s. induction fuel as [|f IH]; intros n s.
  - exists (n mod 10), s. split; [apply Z.mod_pos_bound; lia|]. cbn. by case_decide.
  - cbn [digits]. case_decide.
    + exists (n mod 10), s. split; [apply Z.mod_pos_bound; lia|done].
    + apply IH.
Qed.

(** A formatted [u32] parses back. *)
Lemma parse_u32_fmt_dec n : 0 ≤ n < u32_lim → parse_u32 (fmt_dec n) = Some n.
Proof.
  intros Hn. assert (parse_u32 (fmt_dec n) = parse_digits u32_lim 0 (fmt_dec n)) as ->.
  { unfold fmt_dec. destruct (digits_head 19 n "") as (d & s & Hd & ->).
    destruct (digit_dec_cases d Hd) as [Hin _].
    set_unfold in Hin. destruct_or! Hin; by rewrite Hin. }
  unfold fmt_dec. rewrite parse_digits_fmt by (done || lia). done.
Qed.

(** [u8::to_ascii_lowercase], [str::eq_ignore_ascii_case]. *)
Definition ascii_lower (c : ascii) : ascii :=
  let n := nat_of_ascii c in
  if decide (65 ≤ n ≤ 90)%nat then ascii_of_nat (n + 32) else c.

Fixpoint string_lower (s : string) : string :=
  match s with EmptyString => EmptyString | String c s' => String (ascii_lower c) (string_lower s') end.

Definition eq_ignore_ascii_case (a b : string) : bool := bool_decide (string_lower a = string_lower b).

(** ** Sorting by key: [sort_by_key] is stable *)

Fixpoint insert_by {A} (le : A → A → bool) (x : A) (l : list A) : list A :=
  match l with
  | [] => [x]
  | y :: l' => if le x y then x :: y :: l' else y :: insert_by le x l'
  end.
Definition stable_sort {A} (le : A → A → bool) (l : list A) : list A := foldr (insert_by le) [] l.

Lemma insert_by_Permutation {A} (le : A → A → bool) x l : insert_by le x l ≡ₚ x :: l.
Proof. induction l as [|y l IH]; simpl; [done|]. case_match; [done|]. rewrite IH. apply Permutation_swap. Qed.

Lemma stable_sort_Permutation {A} (le : A → A → bool) l : stable_sort le l ≡ₚ l.
Proof. induction l as [|x l IH]; [done|]. cbn [stable_sort foldr]. by rewrite insert_by_Permutation, IH. Qed.

(** ** Little-endian bytes ([to_le_bytes]/[from_le_bytes]) *)

Fixpoint le_bytes (n : nat) (v : Z) : list u8 :=
  match n with
  | O => []
  | Datatypes.S n' => v mod 256 :: le_bytes n' (v / 256)
  end.

Fixpoint le_val (bs : list u8) : Z :=
  match bs with
  | [] => 0
  | b :: bs' => b + 256 * le_val bs'
  end.

Definition is_byte (b : Z) : Prop := 0 ≤ b < 256.
#[global] Instance is_byte_dec b : Decision (is_byte b) := ltac:(unfold is_byte; apply _).

Lemma length_le_bytes n v : length (le_bytes n v) = n.
Proof. revert v; induction n; intros; simpl; auto. Qed.

Lemma le_bytes_byte n v : Forall is_byte (le_bytes n v).
Proof.
  revert v; induction n; intros; simpl; constructor; auto.
  apply Z.mod_pos_bound; lia.
Qed.

Lemma le_val_le_bytes n v : le_val (le_bytes n v) = v mod 256 ^ Z.of_nat n.
Proof.
  revert v; induction n as [|n IH]; intros v; simpl le_bytes; simpl le_val.
  - by rewrite Z.mod_1_r.
  - rewrite IH, Nat2Z.inj_succ, Z.pow_succ_r by lia.
    by rewrite Z.rem_mul_r by lia.
Qed.

Lemma le_bytes_le_val bs : Forall is_byte bs → le_bytes (length bs) (le_val bs) = bs.
Proof.
  induction 1 as [|b bs Hb _ IH]; simpl; [done|]. unfold is_byte in Hb.
  replace (b + 256 * le_val bs) with (le_val bs * 256 + b) by lia.
  rewrite Z.div_add_l, (Z.div_small b), Z.add_0_r by lia.
  rewrite (Z.add_comm _ b), Z.mod_add, Z.mod_small by lia. by rewrite IH.
Qed.

Lemma le_val_bound bs : Forall is_byte bs → 0 ≤ le_val bs < 256 ^ Z.of_nat (length bs).
Proof.
  intros Hb. rewrite <- (le_bytes_le_val bs Hb) at 1 2. rewrite le_val_le_bytes.
  apply Z.mod_pos_bound, Z.pow_pos_nonneg; lia.
Qed.

(** Pairwise relations do not depend on the order of the list. *)
Lemma ForallOrdPairs_Permutation {A} (R : A → A → Prop) `{!Symmetric R} l k :
  k ≡ₚ l → ForallOrdPairs R l → ForallOrdPairs R k.
Proof.
  intros Hp. symmetry in Hp. induction Hp as [|x l k Hp IH|x y l|l m k H1 IH1 H2 IH2]; intros H; [done| | |auto].
  - inversion_clear H. constructor; [by rewrite <- Hp|auto].
  - inversion_clear H as [|? ? Hx H']. inversion_clear H' as [|? ? Hy Hl].
    apply Forall_cons in Hx as [Hxy Hx]. repeat constructor; auto.
Qed.

Lemma ForallOrdPairs_app_cross {A} (R : A → A → Prop) l k x y :
  ForallOrdPairs R (l ++ k) → x ∈ l → y ∈ k → R x y.
Proof.
  induction l as [|z l IH]; intros H Hx Hy; [by apply elem_of_nil in Hx|].
  simpl in H. inversion_clear H as [|? ? Hz Hl]. apply elem_of_cons in Hx as [->|Hx]; [|auto].
  rewrite Forall_forall in Hz. apply Hz, elem_of_app. by right.
Qed.

(** ** [BTreeMap<u64, V>]: the ordered queries the code makes *)

Section BTree.
Context {V : Type}.
Implicit Types (m : gmap Z V) (i j k : Z).

(** Greatest key satisfying a test, by folding over the entries. *)
Definition max_key_step (P : Z → bool) (k : Z) (_ : V) (acc : option Z) : option Z :=
  if P k then Some (match acc with Some a => Z.max a k | None => k end) else acc.

Definition max_key (P : Z → bool) (m : gmap Z V) : option Z :=
  map_fold (max_key_step P) None m.

(** [m.range(..=k).next_back()] and [m.range(..k).next_back()]. *)
Definition range_to_incl_back (m : gmap Z V) (k : Z) : option (Z * V) :=
  j ← max_key (λ j, bool_decide (j ≤ k)) m; v ← m !! j; Some (j, v).
Definition range_to_back (m : gmap Z V) (k : Z) : option (Z * V) :=
  j ← max_key (λ j, bool_decide (j < k)) m; v ← m !! j; Some (j, v).

(** Keys of [m.range(a..b)], and the removal of a list of keys. *)
Definition range_keys (m : gmap Z V) (a b : Z) : list Z :=
  filter (λ k, a ≤ k < b) (map_to_list m).*1.
Definition remove_keys (ks : list Z) (m : gmap Z V) : gmap Z V := foldr delete m ks.

(** [m.values()]: the values in ascending key order. *)
Definition entry_le (x y : Z * V) : Prop := x.1 ≤ y.1.
#[global] Instance entry_le_dec x y : Decision (entry_le x y) := ltac:(unfold entry_le; apply _).
Definition btree_entries (m : gmap Z V) : list (Z * V) := merge_sort entry_le (map_to_list m).
Definition btree_values (m : gmap Z V) : list V := (btree_entries m).*2.

Lemma max_key_spec P m :
  match max_key P m with
  | Some k => is_Some (m !! k) ∧ P k ∧ ∀ j, is_Some (m !! j) → P j → j ≤ k
  | None => ∀ j, is_Some (m !! j) → ¬ P j
  end.
Proof.
  unfold max_key.
  apply (map_fold_weak_ind (λ acc m, match acc with
    | Some k => is_Some (m !! k) ∧ P k ∧ ∀ j, is_Some (m !! j) → P j → j ≤ k
    | None => ∀ j, is_Some (m !! j) → ¬ P j
    end)); [intros j [? Hj]; by rewrite lookup_empty in Hj|].
  intros i x m' acc Hi Hacc. unfold max_key_step.
  destruct (P i) eqn:HP; destruct acc as [k|].
  - destruct Hacc as (Hk & HPk & Hmax). split_and!.
    + destruct (Z.max_spec k i) as [[? ->]|[? ->]]; rewrite lookup_insert_is_Some; auto.
      destruct (decide (i = k)); auto.
    + destruct (Z.max_spec k i) as [[? ->]|[? ->]]; [by rewrite HP|done].
    + intros j [->|[_ Hj]]%lookup_insert_is_Some HPj; [lia|]. specialize (Hmax j Hj HPj). lia.
  - split_and!; [rewrite lookup_insert_is_Some; auto|by rewrite HP|].
    intros j [->|[_ Hj]]%lookup_insert_is_Some HPj; [lia|]. by destruct (Hacc j Hj).
  - destruct Hacc as (Hk & HPk & Hmax). split_and!; [|done|].
    + rewrite lookup_insert_is_Some. destruct (decide (i = k)); auto.
    + intros j [->|[_ Hj]]%lookup_insert_is_Some HPj; [by rewrite HP in HPj|]. auto.
  - intros j [->|[_ Hj]]%lookup_insert_is_Some; [intros HPj; by rewrite HP in HPj|auto].
Qed.

Lemma range_to_incl_back_spec m k :
  match range_to_incl_back m k with
  | Some (i, v) => m !! i = Some v ∧ i ≤ k ∧ ∀ j, is_Some (m !! j) → j ≤ k → j ≤ i
  | None => ∀ j, is_Some (m !! j) → k < j
  end.
Proof.
  unfold range_to_incl_back. pose proof (max_key_spec (λ j, bool_decide (j ≤ k)) m) as H.
  destruct (max_key _ m) as [i|]; simpl.
  - destruct H as ([v Hv] & Hi%bool_decide_unpack & Hmax). rewrite Hv. simpl.
    split_and!; [done..|]. intros j Hj Hle. apply Hmax; [done|by apply bool_decide_pack].
  - intros j Hj. specialize (H j Hj). rewrite bool_decide_spec in H. lia.
Qed.

Lemma range_to_back_spec m k :
  match range_to_back m k with
  | Some (i, v) => m !! i = Some v ∧ i < k ∧ ∀ j, is_Some (m !! j) → j < k → j ≤ i
  | None => ∀ j, is_Some (m !! j) → k ≤ j
  end.
Proof.
  unfold range_to_back. pose proof (max_key_spec (λ j, bool_decide (j < k)) m) as H.
  destruct (max_key _ m) as [i|]; simpl.
  - destruct H as ([v Hv] & Hi%bool_decide_unpack & Hmax). rewrite Hv. simpl.
    split_and!; [done..|]. intros j Hj Hle. apply Hmax; [done|by apply bool_decide_pack].
  - intros j Hj. specialize (H j Hj). rewrite bool_decide_spec in H. lia.
Qed.

Lemma elem_of_range_keys m a b k :
  k ∈ range_keys m a b ↔ is_Some (m !! k) ∧ a ≤ k < b.
Proof.
  unfold range_keys. rewrite list_elem_of_filter, list_elem_of_fmap. split.
  - intros [? ([? v] & -> & Hin)]. apply elem_of_map_to_list in Hin. eauto.
  - intros [[v Hv] ?]. split; [done|]. exists (k, v). by rewrite elem_of_map_to_list.
Qed.

Lemma lookup_remove_keys ks m i :
  remove_keys ks m !! i = if decide (i ∈ ks) then None else m !! i.
Proof.
  unfold remove_keys. induction ks as [|k ks IH]; [done|]. cbn [foldr].
  destruct (decide (i = k)) as [->|].
  - rewrite lookup_delete_eq, decide_True; [done|by left].
  - rewrite lookup_delete_ne, IH by done. apply decide_ext.
    rewrite elem_of_cons. naive_solver.
Qed.

Lemma lookup_remove_range m a b i :
  remove_keys (range_keys m a b) m !! i = if decide (a ≤ i < b) then None else m !! i.
Proof.
  rewrite lookup_remove_keys. destruct (m !! i) as [v|] eqn:E; [|by repeat case_decide].
  apply decide_ext. rewrite elem_of_range_keys, E. split; [tauto|eauto].
Qed.

Lemma elem_of_btree_entries m k v : (k, v) ∈ btree_entries m ↔ m !! k = Some v.
Proof. unfold btree_entries. by rewrite merge_sort_Permutation, elem_of_map_to_list. Qed.

Lemma btree_entries_sorted m : StronglySorted entry_le (btree_entries m).
Proof.
  apply StronglySorted_merge_sort; unfold entry_le; [intros ???; lia|intros ??; lia].
Qed.
End BTree.

(** ** Sorted vectors of disjoint intervals

    Both the VAD table and the arena set are a [Vec] sorted by start, where an
    insertion is refused when it overlaps and is placed before the first
    element that starts later. *)

Definition vec_insert {A} (pos : nat) (x : A) (l : list A) : list A := take pos l ++ x :: drop pos l.

(** [iter().position(p)]. *)
Definition position {A} (p : A → bool) (l : list A) : option nat := fst <$> list_find p l.

Lemma list_find_find {A} (p : A → bool) l i x :
  list_find p l = Some (i, x) → find p l = Some x.
Proof.
  revert i. induction l as [|y l IH]; intros i; simpl; [done|].
  destruct (p y) eqn:E; simpl; [by intros [= <- <-]|].
  destruct (list_find p l) as [[j z]|]; [|done]. intros [= <- <-]. eauto.
Qed.

Lemma find_none_iff {A} (p : A → bool) l :
  (∀ x, x ∈ l → p x = false) → find p l = None.
Proof.
  induction l as [|y l IH]; intros H; simpl; [done|].
  rewrite H by left. apply IH. intros x Hx. apply H. by right.
Qed.

Section Intervals.
Context {A : Type} (lo hi : A → Z).
Implicit Types (l : list A) (x y : A).

Definition ivl_overlaps (a b : Z) l : bool :=
  existsb (λ n, bool_decide (lo n < b) && bool_decide (a < hi n)) l.

Definition ivl_insert x l : list A :=
  vec_insert (default (length l) (position (λ n, bool_decide (lo x < lo n)) l)) x l.

Definition ivl_contains (v : Z) x : bool := bool_decide (lo x ≤ v) && bool_decide (v < hi x).

Record ivl_wf l : Prop := {
  ivl_sorted : StronglySorted (λ x y, hi x ≤ lo y) l;
  ivl_nonempty : Forall (λ x, lo x < hi x) l;
}.

Lemma ivl_contains_spec v x : ivl_contains v x = true ↔ lo x ≤ v < hi x.
Proof. unfold ivl_contains. by rewrite andb_true_iff, !bool_decide_eq_true. Qed.

Lemma ivl_overlaps_false a b l :
  ivl_overlaps a b l = false ↔ ∀ n, n ∈ l → hi n ≤ a ∨ b ≤ lo n.
Proof.
  unfold ivl_overlaps. rewrite <- not_true_iff_false, existsb_exists. split.
  - intros H n Hn. destruct (decide (hi n ≤ a)); [by left|]. right.
    destruct (decide (b ≤ lo n)); [done|]. destruct H. exists n. rewrite <- list_elem_of_In.
    rewrite andb_true_iff, !bool_decide_eq_true. split; [done|lia].
  - intros H (n & Hn%list_elem_of_In & Hb). rewrite andb_true_iff, !bool_decide_eq_true in Hb.
    specialize (H n Hn). lia.
Qed.

(** Walking the list: insertion before the first later start. *)
Lemma ivl_insert_cons x y l :
  ivl_insert x (y :: l) = if decide (lo x < lo y) then x :: y :: l else y :: ivl_insert x l.
Proof.
  unfold ivl_insert, position. simpl. destruct (decide (lo x < lo y)).
  - rewrite decide_True by (by apply bool_decide_pack). done.
  - rewrite decide_False by (by rewrite bool_decide_spec).
    destruct (list_find _ l) as [[i z]|]; done.
Qed.

Lemma ivl_insert_Permutation x l : ivl_insert x l ≡ₚ x :: l.
Proof.
  induction l as [|y l IH]; [done|]. rewrite ivl_insert_cons. case_decide; [done|].
  rewrite IH. apply Permutation_swap.
Qed.

Lemma ivl_wf_insert x l :
  ivl_wf l → lo x < hi x → ivl_overlaps (lo x) (hi x) l = false → ivl_wf (ivl_insert x l).
Proof.
  intros [Hs Hne] Hx Hno. rewrite ivl_overlaps_false in Hno. split.
  2:{ rewrite (ivl_insert_Permutation x l). by constructor. }
  induction Hs as [|y l Hs IH Hall]; [repeat constructor|].
  rewrite ivl_insert_cons. apply Forall_cons in Hne as [Hy Hne].
  assert (Hxy : hi y ≤ lo x ∨ hi x ≤ lo y) by (apply Hno; left).
  case_decide.
  - assert (hi x ≤ lo y) by lia. constructor; [by constructor|]. constructor; [done|].
    rewrite Forall_forall in Hall, Hne. apply Forall_forall. intros z Hz.
    specialize (Hall z Hz). specialize (Hne z Hz). lia.
  - constructor; [apply IH; [done|]; intros n Hn; apply Hno; by right|].
    rewrite (ivl_insert_Permutation x l). constructor; [lia|done].
Qed.

Lemma ivl_wf_cons_inv x l :
  ivl_wf (x :: l) → ivl_wf l ∧ lo x < hi x ∧ ∀ y, y ∈ l → hi x ≤ lo y ∧ lo y < hi y.
Proof.
  intros [Hs Hn]. apply StronglySorted_inv in Hs as [Hs Hall].
  apply Forall_cons in Hn as [Hx Hn]. split; [by split|]. split; [done|].
  intros y Hy. rewrite Forall_forall in Hall, Hn. auto.
Qed.

(** The element containing an address is unique, and the scan finds it. *)
Lemma ivl_find_Some l v x :
  ivl_wf l → find (ivl_contains v) l = Some x ↔ x ∈ l ∧ lo x ≤ v < hi x.
Proof.
  induction l as [|y l IH]; intros Hwf; simpl; [split; [done|by intros [[]%elem_of_nil _]]|].
  apply ivl_wf_cons_inv in Hwf as (Hwf & Hy & Hall).
  destruct (ivl_contains v y) eqn:E.
  - apply ivl_contains_spec in E. split.
    + intros [= <-]. split; [by left|done].
    + intros [[->|Hin]%elem_of_cons Hv]; [done|]. specialize (Hall x Hin). lia.
  - rewrite IH by done. rewrite elem_of_cons. split; [naive_solver|].
    intros [[->|Hin] Hv]; [|done]. apply ivl_contains_spec in Hv. congruence.
Qed.

Lemma ivl_wf_sublist l k : sublist k l → ivl_wf l → ivl_wf k.
Proof.
  intros Hsub. induction Hsub as [|x k l Hsub IH|x k l Hsub IH]; intros Hwf; [done| |].
  - apply ivl_wf_cons_inv in Hwf as (Hwf & Hx & Hall). destruct (IH Hwf) as [Hs Hn]. split.
    + constructor; [done|]. apply Forall_forall. intros y Hy. apply Hall.
      by eapply elem_of_submseteq, sublist_submseteq.
    + by constructor.
  - apply IH. by apply ivl_wf_cons_inv in Hwf as [? _].
Qed.

(** Two members that share an address are the same one. *)
Lemma ivl_unique l v x y :
  ivl_wf l → x ∈ l → y ∈ l → lo x ≤ v < hi x → lo y ≤ v < hi y → x = y.
Proof.
  intros Hwf Hx Hy Hvx Hvy. assert (find (ivl_contains v) l = Some x) by (by apply ivl_find_Some).
  assert (find (ivl_contains v) l = Some y) by (by apply ivl_find_Some). congruence.
Qed.

Lemma ivl_lookup_lt l i j x y :
  ivl_wf l → l !! i = Some x → l !! j = Some y → (i < j)%nat → hi x ≤ lo y.
Proof.
  revert i j. induction l as [|z l IH]; intros [|i] [|j] Hwf Hi Hj Hlt; try done; try lia;
    apply ivl_wf_cons_inv in Hwf as (Hwf & Hz & Hall); simpl in *.
  - simplify_eq. apply Hall. by eapply list_elem_of_lookup_2.
  - apply (IH i j); [done..|lia].
Qed.

Lemma ivl_lookup_nonempty l i x : ivl_wf l → l !! i = Some x → lo x < hi x.
Proof. intros [_ Hn] Hi. by eapply Forall_lookup_1 in Hn. Qed.

(** Removing the element at index [i] makes exactly its interval unowned. *)
Lemma ivl_find_delete l i x v :
  ivl_wf l → l !! i = Some x →
  find (ivl_contains v) (delete i l) =
    if decide (lo x ≤ v < hi x) then None else find (ivl_contains v) l.
Proof.
  intros Hwf Hi. assert (Hwf' : ivl_wf (delete i l)).
  { eapply ivl_wf_sublist; [apply sublist_delete|done]. }
  assert (Hp : ∀ z, z ∈ l ↔ z = x ∨ z ∈ delete i l).
  { intros z. rewrite <- elem_of_cons. by rewrite <- (delete_Permutation l i x Hi). }
  apply option_eq. intros y.
  rewrite ivl_find_Some by done.
  assert (Hndup : y = x → lo x ≤ v < hi x → y ∉ delete i l).
  { intros -> Hv Hin. revert Hi Hwf Hin. clear. revert i.
    induction l as [|z l IH]; intros [|i] Hi Hwf Hin; try done; simpl in *.
    - simplify_eq. apply ivl_wf_cons_inv in Hwf as (_ & ? & Hall). specialize (Hall x Hin). lia.
    - apply ivl_wf_cons_inv in Hwf as (Hwf & ? & Hall).
      apply elem_of_cons in Hin as [->|Hin]; [|by eapply IH].
      assert (z ∈ l) by (by eapply list_elem_of_lookup_2). specialize (Hall z ltac:(done)). lia. }
  case_decide as Hv.
  - split; [|done]. intros [Hin Hvy].
    assert (y = x) by (apply (ivl_unique l v); try done; apply Hp; auto).
    by destruct Hndup.
  - rewrite ivl_find_Some by done. rewrite Hp. split; [tauto|].
    intros [[->|?] ?]; [lia|done].
Qed.

Lemma ivl_find_insert l x v :
  ivl_wf l → lo x < hi x → ivl_overlaps (lo x) (hi x) l = false →
  find (ivl_contains v) (ivl_insert x l) =
    if decide (lo x ≤ v < hi x) then Some x else find (ivl_contains v) l.
Proof.
  intros Hwf Hx Hno. pose proof (ivl_wf_insert x l Hwf Hx Hno) as Hwf'.
  apply option_eq. intros y. rewrite ivl_find_Some, (ivl_insert_Permutation x l), elem_of_cons by done.
  rewrite ivl_overlaps_false in Hno. case_decide as Hv.
  - split; [|intros [= <-]; auto]. intros [[->|Hy] Hvy]; [done|]. specialize (Hno y Hy). lia.
  - rewrite ivl_find_Some by done. split; [|tauto]. intros [[->|?] ?]; [lia|done].
Qed.
End Intervals.
