(* ===== verification/protect.v ===== *)
(** * Page protections (crates/wie-cpu/src/mem/protect.rs)

    The [PAGE_*] constants, the software access checks and the two
    conversions between Windows protections and r/w/x bits. *)

From S2P Require Import Prelude.

Definition PAGE_NOACCESS : u32 := 0x01.
Definition PAGE_READONLY : u32 := 0x02.
Definition PAGE_READWRITE : u32 := 0x04.
Definition PAGE_EXECUTE : u32 := 0x10.
Definition PAGE_EXECUTE_READ : u32 := 0x20.
Definition PAGE_EXECUTE_READWRITE : u32 := 0x40.

(** [wie_cpu::perm]: Unicorn-style r/w/x bits. *)
Definition perm_READ : u32 := 1.
Definition perm_WRITE : u32 := 2.
Definition perm_EXEC : u32 := 4.
Definition perm_ALL : u32 := Z.lor (Z.lor perm_READ perm_WRITE) perm_EXEC.

Inductive AccessKind : Type := Read | Write | Execute.
#[global] Instance AccessKind_eq_dec : EqDecision AccessKind.
Proof. solve_decision. Defined.

(** [matches!(x, a | b | ...)] on integer patterns. *)
Definition matches (x : Z) (pats : list Z) : bool := bool_decide (x ∈ pats).

Definition allows_read (protect : u32) : bool :=
  matches protect [PAGE_READONLY; PAGE_READWRITE; PAGE_EXECUTE_READ; PAGE_EXECUTE_READWRITE].

Definition allows_write (protect : u32) : bool :=
  matches protect [PAGE_READWRITE; PAGE_EXECUTE_READWRITE].

Definition allows_execute (protect : u32) : bool :=
  matches protect [PAGE_EXECUTE; PAGE_EXECUTE_READ; PAGE_EXECUTE_READWRITE].

Definition allows (protect : u32) (kind : AccessKind) : bool :=
  match kind with
  | Read => allows_read protect
  | Write => allows_write protect
  | Execute => allows_execute protect
  end.

Definition page_protect_from_rwx (rwx : u32) : u32 :=
  let r := bool_decide (Z.land rwx perm_READ ≠ 0) in
  let w := bool_decide (Z.land rwx perm_WRITE ≠ 0) in
  let x := bool_decide (Z.land rwx perm_EXEC ≠ 0) in
  match r, w, x with
  | _, true, true => PAGE_EXECUTE_READWRITE
  | true, false, true => PAGE_EXECUTE_READ
  | _, true, false => PAGE_READWRITE
  | true, false, false => PAGE_READONLY
  | false, false, true => PAGE_EXECUTE
  | false, false, false => PAGE_NOACCESS
  end.

Definition rwx_from_page_protect (protect : u32) : u32 :=
  let bits := 0 in
  let bits := if allows_read protect then Z.lor bits perm_READ else bits in
  let bits := if allows_write protect then Z.lor bits perm_WRITE else bits in
  if allows_execute protect then Z.lor bits perm_EXEC else bits.

Definition is_supported_protect (value : u32) : bool :=
  matches value [PAGE_NOACCESS; PAGE_READONLY; PAGE_READWRITE;
                 PAGE_EXECUTE; PAGE_EXECUTE_READ; PAGE_EXECUTE_READWRITE].

(** ** Lemmas *)

Lemma matches_spec x l : matches x l = true ↔ x ∈ l.
Proof. unfold matches. by rewrite bool_decide_eq_true. Qed.

(** Case analysis on a supported protection. *)
Lemma is_supported_cases p :
  is_supported_protect p = true →
  p = 1 ∨ p = 2 ∨ p = 4 ∨ p = 16 ∨ p = 32 ∨ p = 64.
Proof.
  unfold is_supported_protect. rewrite matches_spec, !elem_of_cons, elem_of_nil.
  unfold PAGE_NOACCESS, PAGE_READONLY, PAGE_READWRITE, PAGE_EXECUTE, PAGE_EXECUTE_READ,
    PAGE_EXECUTE_READWRITE. tauto.
Qed.

(** Only the six constants grant anything. *)
Lemma allows_supported p k : allows p k = true → is_supported_protect p = true.
Proof.
  destruct k; simpl; unfold allows_read, allows_write, allows_execute, is_supported_protect;
    rewrite !matches_spec, !elem_of_cons; tauto.
Qed.

Lemma page_protect_from_rwx_supported rwx : is_supported_protect (page_protect_from_rwx rwx) = true.
Proof. unfold page_protect_from_rwx. by repeat case_bool_decide. Qed.

(** The two conversions are inverse on every protection the emulator
    supports: converting a [PAGE_*] constant to r/w/x bits and back is the
    identity, and the bits say exactly which accesses are allowed. *)
Theorem protect_rwx_roundtrip p :
  is_supported_protect p = true →
  page_protect_from_rwx (rwx_from_page_protect p) = p ∧
  (∀ k, allows p k = bool_decide
     (Z.land (rwx_from_page_protect p)
        (match k with Read => perm_READ | Write => perm_WRITE | Execute => perm_EXEC end) ≠ 0)).
Proof.
  intros Hp. destruct (is_supported_cases p Hp) as [->|[->|[->|[->|[->| ->]]]]];
    (split; [reflexivity|intros []; reflexivity]).
Qed.

Lemma protect_rwx_roundtrip_witness :
  is_supported_protect PAGE_EXECUTE_READ = true ∧
  page_protect_from_rwx (rwx_from_page_protect PAGE_EXECUTE_READ) = PAGE_EXECUTE_READ.
Proof.
  split; [reflexivity|].
  exact (proj1 (protect_rwx_roundtrip PAGE_EXECUTE_READ eq_refl)).
Defined.

(** The bits granted are never fewer than the bits asked for. *)
Lemma page_protect_from_rwx_grants rwx k :
  Z.land rwx (match k with Read => perm_READ | Write => perm_WRITE | Execute => perm_EXEC end) ≠ 0 →
  allows (page_protect_from_rwx rwx) k = true.
Proof.
  unfold page_protect_from_rwx. intros H.
  destruct k; simpl in *; repeat case_bool_decide; done.
Qed.

(** The header comment of [page_protect_from_rwx] lists 6 as "rw-" mapping to
    [PAGE_READWRITE]; with the constants of [perm], 6 is write+execute. *)
Lemma page_protect_from_rwx_6 : page_protect_from_rwx 6 = PAGE_EXECUTE_READWRITE.
Proof. reflexivity. Qed.
