(* ===== verification/pagemap.v ===== *)
(** * Sparse run-length page map (crates/wie-cpu/src/mem/pagemap.rs)

    [runs] is the [BTreeMap] from start page to run, [cache] the one-entry
    lookup cache.  The abstract specification is [view]: the function from
    page keys to their state and protection. *)

From S2P Require Import Prelude protect.

Definition PAGE_SIZE : u64 := 0x1000.
Definition PAGE_SHIFT : u32 := 12.

Inductive PageState : Type := Free | Reserved | Committed.
#[global] Instance PageState_eq_dec : EqDecision PageState.
Proof. solve_decision. Defined.

Record PageRun := mkPageRun {
  pr_start_page : u64;
  pr_end_page : u64;
  pr_state : PageState;
  pr_protect : u32;
}.
#[global] Instance PageRun_eq_dec : EqDecision PageRun.
Proof. solve_decision. Defined.

Definition page_count (r : PageRun) : u64 := sat_sub (pr_end_page r) (pr_start_page r).
Definition start_va (r : PageRun) : u64 := sat_mul (pr_start_page r) PAGE_SIZE.
Definition end_va (r : PageRun) : u64 := sat_mul (pr_end_page r) PAGE_SIZE.

(** [RunCache]: a validity bit and a copy of the cached run. *)
Record RunCache := mkRunCache { rc_valid : bool; rc_run : PageRun }.
Definition RunCache_default : RunCache := mkRunCache false (mkPageRun 0 0 Free 0).

Record PageMap := mkPageMap { runs : gmap Z PageRun; cache : RunCache }.

Definition access_denied (va : u64) (kind : AccessKind) (why : string) : CpuError :=
  let op := match kind with
            | Read => "mem_read"
            | Write => "mem_write"
            | Execute => "instruction fetch"
            end in
  Message (op +:+ " " +:+ why +:+ " " +:+ fmt_hex va).

Module PageMap.

Definition new : PageMap := mkPageMap ∅ RunCache_default.

Definition set_runs (f : gmap Z PageRun → gmap Z PageRun) (m : PageMap) : PageMap :=
  mkPageMap (f (runs m)) (cache m).

Definition bump_cache (m : PageMap) : PageMap := mkPageMap (runs m) RunCache_default.

(** The search part of [lookup], after a cache miss. *)
Definition run_at (rs : gmap Z PageRun) (page_key : u64) : option PageRun :=
  '(_, run) ← range_to_incl_back rs page_key;
  if decide (page_key < pr_end_page run) then Some run else None.

Definition lookup (m : PageMap) (page_key : u64) : option PageRun :=
  let c := rc_run (cache m) in
  if rc_valid (cache m) && bool_decide (pr_start_page c ≤ page_key)
     && bool_decide (page_key < pr_end_page c)
  then Some c
  else run_at (runs m) page_key.

Definition fill_cache (run : PageRun) (m : PageMap) : PageMap :=
  mkPageMap (runs m) (mkRunCache true run).

(** Body of the [while page <= last_page] loop of [check_access]. *)
Definition check_access_step (va : u64) (kind : AccessKind) (last_page : u64)
    (s : u64 * PageMap) : (u64 * PageMap) + (PageMap * res unit) :=
  let '(page, m) := s in
  if decide (page ≤ last_page) then
    match lookup m page with
    | None => inr (m, Err (access_denied va kind "unmapped"))
    | Some run =>
        if decide (pr_state run ≠ Committed)
        then inr (m, Err (access_denied va kind "not committed"))
        else if negb (allows (pr_protect run) kind)
        then inr (m, Err (access_denied va kind "permission denied"))
        else
          let m := fill_cache run m in
          let next := pr_end_page run in
          if decide (next ≤ page)
          then inr (m, Err (Message "pagemap corrupt run"))
          else inl (next, m)
    end
  else inr (m, Ok tt).

Definition check_access (va : u64) (len : usize) (kind : AccessKind) : M PageMap unit := λ m,
  if decide (len = 0) then (m, Ok tt)
  else
    match checked_add va len with
    | None => (m, Err (Message ("access overflow at " +:+ fmt_hex va +:+ "+" +:+ fmt_hex len)))
    | Some end_ =>
        let page := Z.shiftr va PAGE_SHIFT in
        let last_page := Z.shiftr (sat_sub end_ 1) PAGE_SHIFT in
        match iter_until (fuel_of (last_page + 1 - page))
                (check_access_step va kind last_page) (page, m) with
        | inr r => r
        | inl (_, m') => (m', Abort NoFuel)
        end
    end.

(** Split a run at [page] so that [page] is a run start or outside all runs. *)
Definition split_at (page : u64) (m : PageMap) : PageMap :=
  match lookup m page with
  | None => m
  | Some run =>
      if decide (pr_start_page run = page) then m
      else
        let left_ := mkPageRun (pr_start_page run) page (pr_state run) (pr_protect run) in
        let right_ := mkPageRun page (pr_end_page run) (pr_state run) (pr_protect run) in
        set_runs (λ rs, <[pr_start_page right_ := right_]>
                        (<[pr_start_page left_ := left_]> (delete (pr_start_page run) rs))) m
  end.

Definition lookup_exact_end (m : PageMap) (page : u64) : option PageRun :=
  '(start, run) ← range_to_back (runs m) page;
  if decide (pr_end_page run = page ∧ pr_start_page run = start) then Some run else None.

(** Merge with the left neighbour if homogeneous. *)
Definition merge_left (start_page : u64) (nr : PageRun) (m : PageMap) : PageRun * PageMap :=
  if decide (0 < start_page) then
    match lookup_exact_end m start_page with
    | Some left_ =>
        if decide (pr_state left_ = pr_state nr ∧ pr_protect left_ = pr_protect nr)
        then (mkPageRun (pr_start_page left_) (pr_end_page nr) (pr_state nr) (pr_protect nr),
              set_runs (delete (pr_start_page left_)) m)
        else (nr, m)
    | None => (nr, m)
    end
  else (nr, m).

(** Merge with the right neighbour. *)
Definition merge_right (end_page : u64) (nr : PageRun) (m : PageMap) : PageRun * PageMap :=
  match runs m !! end_page with
  | Some right_ =>
      if decide (pr_state right_ = pr_state nr ∧ pr_protect right_ = pr_protect nr)
      then (mkPageRun (pr_start_page nr) (pr_end_page right_) (pr_state nr) (pr_protect nr),
            set_runs (delete end_page) m)
      else (nr, m)
  | None => (nr, m)
  end.

Definition set_page_range (start_page end_page : u64) (state : PageState) (protect : u32)
    (m : PageMap) : PageMap :=
  if decide (end_page ≤ start_page) then m
  else
    let m := bump_cache m in
    let m := split_at start_page m in
    let m := split_at end_page m in
    let m := set_runs (λ rs, remove_keys (range_keys rs start_page end_page) rs) m in
    if decide (state = Free) then m
    else
      let new_run := mkPageRun start_page end_page state protect in
      let '(new_run, m) := merge_left start_page new_run m in
      let '(new_run, m) := merge_right end_page new_run m in
      set_runs (<[pr_start_page new_run := new_run]>) m.

Definition set_range (address : u64) (size : usize) (state : PageState) (protect : u32)
    : M PageMap unit := λ m,
  if decide (size = 0) then (m, Ok tt)
  else if negb (is_multiple_of address PAGE_SIZE)
  then (m, Err (Message ("pagemap set_range address " +:+ fmt_hex address +:+ " not page-aligned")))
  else if negb (is_multiple_of size PAGE_SIZE)
  then (m, Err (Message ("pagemap set_range size " +:+ fmt_hex size +:+ " not page-aligned")))
  else
    match checked_add address size with
    | None => (m, Err (Message ("pagemap overflow at " +:+ fmt_hex address +:+ "+" +:+ fmt_hex size)))
    | Some end_ =>
        (set_page_range (Z.shiftr address PAGE_SHIFT) (Z.shiftr end_ PAGE_SHIFT) state protect m,
         Ok tt)
    end.

Definition query_run (m : PageMap) (va : u64) : option PageRun :=
  lookup m (Z.shiftr va PAGE_SHIFT).

(** [iter_runs]: the stored runs in VA order. *)
Definition iter_runs (m : PageMap) : list PageRun := btree_values (runs m).

Definition run_count (m : PageMap) : nat := base.size (runs m).

(** ** Well-formedness and the abstract view *)

Definition run_ok (i : Z) (r : PageRun) : Prop :=
  pr_start_page r = i ∧ 0 ≤ i < pr_end_page r ∧ pr_end_page r < 4503599627370496 ∧ pr_state r ≠ Free.

Record runs_wf (rs : gmap Z PageRun) : Prop := {
  wf_run : ∀ i r, rs !! i = Some r → run_ok i r;
  wf_disjoint : ∀ i j ri rj, rs !! i = Some ri → rs !! j = Some rj → i < j → pr_end_page ri ≤ j;
}.

Definition cache_ok (m : PageMap) : Prop :=
  rc_valid (cache m) = true → runs m !! pr_start_page (rc_run (cache m)) = Some (rc_run (cache m)).

Record wf (m : PageMap) : Prop := { wf_runs : runs_wf (runs m); wf_cache : cache_ok m }.

Definition view_runs (rs : gmap Z PageRun) (page : Z) : option (PageState * u32) :=
  (λ r, (pr_state r, pr_protect r)) <$> run_at rs page.
Definition view (m : PageMap) (page : Z) : option (PageState * u32) := view_runs (runs m) page.

(** The representation is maximally merged: no run continues the page before it. *)
Definition coalesced (rs : gmap Z PageRun) : Prop :=
  ∀ i, is_Some (rs !! i) → view_runs rs (i - 1) ≠ view_runs rs i.

(** The reference access check: the pages in order, one at a time. *)
Definition page_verdict (va : u64) (kind : AccessKind) (v : option (PageState * u32)) : res unit :=
  match v with
  | None => Err (access_denied va kind "unmapped")
  | Some (st, pr) =>
      if decide (st ≠ Committed) then Err (access_denied va kind "not committed")
      else if allows pr kind then Ok tt
      else Err (access_denied va kind "permission denied")
  end.

Fixpoint check_pages (f : Z → option (PageState * u32)) (va : u64) (kind : AccessKind)
    (pages : list Z) : res unit :=
  match pages with
  | [] => Ok tt
  | p :: ps =>
      match page_verdict va kind (f p) with
      | Ok _ => check_pages f va kind ps
      | e => e
      end
  end.

(** ** Lookups *)

Lemma run_at_spec rs p r :
  runs_wf rs →
  run_at rs p = Some r ↔ rs !! pr_start_page r = Some r ∧ pr_start_page r ≤ p < pr_end_page r.
Proof.
  intros Hwf. unfold run_at. pose proof (range_to_incl_back_spec rs p) as Hspec.
  destruct (range_to_incl_back rs p) as [[i v]|]; simpl.
  - destruct Hspec as (Hi & Hle & Hmax). pose proof (wf_run _ Hwf i v Hi) as (Hs & Hb & _).
    destruct (decide (p < pr_end_page v)).
    + split; [intros [= <-]; by rewrite Hs|]. intros [Hr ?].
      assert (pr_start_page r ≤ i) by (apply Hmax; [by rewrite Hr|lia]).
      destruct (decide (pr_start_page r = i)) as [<-|]; [congruence|].
      pose proof (wf_disjoint _ Hwf _ _ _ _ Hr Hi). lia.
    + split; [done|]. intros [Hr ?].
      assert (pr_start_page r ≤ i) by (apply Hmax; [by rewrite Hr|lia]).
      destruct (decide (pr_start_page r = i)) as [<-|]; [simplify_eq; lia|].
      pose proof (wf_disjoint _ Hwf _ _ _ _ Hr Hi). lia.
  - split; [done|]. intros [Hr ?].
    assert (p < pr_start_page r) by (apply Hspec; by rewrite Hr). lia.
Qed.

Lemma run_at_None rs p :
  runs_wf rs →
  run_at rs p = None ↔ ∀ i r, rs !! i = Some r → ¬ (i ≤ p < pr_end_page r).
Proof.
  intros Hwf. rewrite eq_None_not_Some. split.
  - intros Hn i r Hr Hp. apply Hn. exists r. rewrite run_at_spec by done.
    pose proof (wf_run _ Hwf i r Hr) as (-> & _). done.
  - intros Hn [r [Hr Hp]%run_at_spec]; [|done]. by apply (Hn _ _ Hr).
Qed.

(** Two entries are the same entry or apart. *)
Lemma runs_apart_cases rs i j ri rj :
  runs_wf rs → rs !! i = Some ri → rs !! j = Some rj →
  (i = j ∧ ri = rj) ∨ (i < j ∧ pr_end_page ri ≤ j) ∨ (j < i ∧ pr_end_page rj ≤ i).
Proof.
  intros Hwf Hi Hj. destruct (Z.lt_total i j) as [?|[->|?]].
  - right; left; split; [done|]. by eapply (wf_disjoint _ Hwf).
  - left; split; [done|congruence].
  - right; right; split; [done|]. by eapply (wf_disjoint _ Hwf).
Qed.

Ltac runs_apart Hwf Hi Hj :=
  let H1 := fresh "Hrun" in let H2 := fresh "Hrun" in
  pose proof (wf_run _ Hwf _ _ Hi) as (? & H1 & _); pose proof (wf_run _ Hwf _ _ Hj) as (? & H2 & _);
  
  let H3 := fresh "Hij" in let H4 := fresh "Hrr" in
  destruct (runs_apart_cases _ _ _ _ _ Hwf Hi Hj) as [[H3 H4]|[[H3 H4]|[H3 H4]]].

(** The cache never changes the answer of [lookup]. *)
Lemma lookup_run_at m p : wf m → lookup m p = run_at (runs m) p.
Proof.
  intros [Hwf Hc]. unfold lookup.
  destruct (rc_valid (cache m)) eqn:Hv; [|done]. specialize (Hc Hv). simpl.
  repeat case_bool_decide; try done. simpl. symmetry. by apply run_at_spec.
Qed.

Lemma view_runs_Some rs p st pr :
  runs_wf rs →
  view_runs rs p = Some (st, pr) ↔
  ∃ r, rs !! pr_start_page r = Some r ∧ pr_start_page r ≤ p < pr_end_page r ∧
       pr_state r = st ∧ pr_protect r = pr.
Proof.
  intros Hwf. unfold view_runs. rewrite fmap_Some. split.
  - intros (r & [? ?]%run_at_spec & [= -> ->]); [|done]. eauto 6.
  - intros (r & ? & ? & <- & <-). exists r. split; [by apply run_at_spec|done].
Qed.

Lemma view_not_free rs p st pr : runs_wf rs → view_runs rs p = Some (st, pr) → st ≠ Free.
Proof.
  intros Hwf (r & Hr & _ & <- & _)%view_runs_Some; [|done].
  by pose proof (wf_run _ Hwf _ _ Hr) as (_ & _ & _ & ?).
Qed.

(** ** Well-formedness under deletion and insertion *)

Lemma runs_wf_empty : runs_wf ∅.
Proof. split; intros *; by rewrite lookup_empty. Qed.

Lemma runs_wf_subseteq rs rs' : runs_wf rs → rs' ⊆ rs → runs_wf rs'.
Proof.
  intros Hwf Hsub. split.
  - intros i r Hr. eapply wf_run, lookup_weaken; eauto.
  - intros i j ri rj Hi Hj. eapply wf_disjoint; eauto using lookup_weaken.
Qed.

Lemma runs_wf_delete i rs : runs_wf rs → runs_wf (delete i rs).
Proof. intros. eapply runs_wf_subseteq; [done|apply delete_subseteq]. Qed.

Lemma runs_wf_remove_keys ks rs : runs_wf rs → runs_wf (remove_keys ks rs).
Proof. intros. unfold remove_keys. induction ks; simpl; auto using runs_wf_delete. Qed.

(** No run other than the one stored at [pr_start_page r] meets [r]. *)
Definition room_for (rs : gmap Z PageRun) (r : PageRun) : Prop :=
  ∀ j rj, rs !! j = Some rj → j ≠ pr_start_page r →
    pr_end_page rj ≤ pr_start_page r ∨ pr_end_page r ≤ j.

Lemma runs_wf_insert rs r :
  runs_wf rs → run_ok (pr_start_page r) r → room_for rs r →
  runs_wf (<[pr_start_page r := r]> rs).
Proof.
  intros Hwf Hr Hroom. split.
  - intros i r' [[<- <-]|[_ H]]%lookup_insert_Some; [done|by apply (wf_run _ Hwf)].
  - intros i j ri rj [[<- <-]|[Hi Hri]]%lookup_insert_Some
                      [[<- <-]|[Hj Hrj]]%lookup_insert_Some Hlt; try lia.
    + destruct (Hroom _ _ Hrj) as [?|?]; [done| |done].
      pose proof (wf_run _ Hwf _ _ Hrj) as (_ & ? & _). lia.
    + destruct (Hroom _ _ Hri) as [?|?]; [done..|].
      destruct Hr as (_ & ? & _). pose proof (wf_run _ Hwf _ _ Hri) as (_ & ? & _). lia.
    + eapply wf_disjoint; eauto.
Qed.

(** ** The view under deletion and insertion *)

Lemma run_at_delete rs i r p :
  runs_wf rs → rs !! i = Some r →
  run_at (delete i rs) p = if decide (i ≤ p < pr_end_page r) then None else run_at rs p.
Proof.
  intros Hwf Hi. pose proof (wf_run _ Hwf _ _ Hi) as (Hs & _).
  apply option_eq. intros r'. rewrite run_at_spec by by apply runs_wf_delete.
  case_decide as Hp.
  - split; [|done]. rewrite lookup_delete_Some. intros ((Hne & Hr') & Hp').
    destruct (Z.lt_total i (pr_start_page r')) as [?|[?|?]]; [|done|].
    + pose proof (wf_disjoint _ Hwf _ _ _ _ Hi Hr'). lia.
    + pose proof (wf_disjoint _ Hwf _ _ _ _ Hr' Hi). lia.
  - rewrite run_at_spec, lookup_delete_Some by done. split; [tauto|]. intros [Hr' Hp'].
    split_and!; try done; try lia. intros ->. simplify_eq. lia.
Qed.

Lemma run_at_insert rs r p :
  runs_wf rs → run_ok (pr_start_page r) r → room_for rs r → rs !! pr_start_page r = None →
  run_at (<[pr_start_page r := r]> rs) p =
    if decide (pr_start_page r ≤ p < pr_end_page r) then Some r else run_at rs p.
Proof.
  intros Hwf Hr Hroom Hnone. apply option_eq. intros r'.
  rewrite run_at_spec by by apply runs_wf_insert. rewrite lookup_insert_Some.
  case_decide as Hp.
  - split; [|intros [= <-]; auto]. intros [[[_ ->]|[Hne Hr']] Hp']; [done|].
    destruct (Hroom _ _ Hr') as [?|?]; [done| |]; lia.
  - rewrite run_at_spec by done. split.
    + by intros [[[_ ->]|[Hne Hr']] Hp'].
    + intros [Hr' Hp']. split; [right|done]. split; [|done]. intros Heq.
      rewrite <- Heq in Hr'. congruence.
Qed.

Lemma view_delete rs i r p :
  runs_wf rs → rs !! i = Some r →
  view_runs (delete i rs) p = if decide (i ≤ p < pr_end_page r) then None else view_runs rs p.
Proof. intros. unfold view_runs. erewrite run_at_delete by done. by case_decide. Qed.

Lemma view_insert rs r p :
  runs_wf rs → run_ok (pr_start_page r) r → room_for rs r → rs !! pr_start_page r = None →
  view_runs (<[pr_start_page r := r]> rs) p =
    if decide (pr_start_page r ≤ p < pr_end_page r)
    then Some (pr_state r, pr_protect r) else view_runs rs p.
Proof. intros. unfold view_runs. rewrite run_at_insert by done. by case_decide. Qed.

(** ** The access check *)

Lemma check_pages_skip f va kind l a b :
  a ≤ b → (∀ p, a ≤ p < b → page_verdict va kind (f p) = Ok tt) →
  check_pages f va kind (seqZ a (l - a)) = check_pages f va kind (seqZ b (l - b)).
Proof.
  intros Hab. remember (Z.to_nat (b - a)) as n eqn:Hn.
  revert a Hab Hn; induction n as [|n IH]; intros a Hab Hn Hok.
  - by replace a with b by lia.
  - destruct (decide (a < l)).
    + rewrite (seqZ_cons a) by lia. cbn [check_pages]. rewrite Hok by lia.
      replace (Z.pred (l - a)) with (l - Z.succ a) by lia. apply IH; [lia..|].
      intros p ?. apply Hok. lia.
    + by rewrite !seqZ_nil by lia.
Qed.

Lemma check_access_step_spec va kind last m0 page m :
  wf m → runs m = runs m0 →
  match check_access_step va kind last (page, m) with
  | inl (page', m') =>
      wf m' ∧ runs m' = runs m0 ∧ page ≤ last ∧ page < page' ∧
      check_pages (view m0) va kind (seqZ page (last + 1 - page)) =
      check_pages (view m0) va kind (seqZ page' (last + 1 - page'))
  | inr (m', r) =>
      wf m' ∧ runs m' = runs m0 ∧
      r = check_pages (view m0) va kind (seqZ page (last + 1 - page))
  end.
Proof.
  intros Hwf Hr. pose proof (wf_runs _ Hwf) as Hwr. unfold check_access_step.
  destruct (decide (page ≤ last)); [|by rewrite seqZ_nil by lia].
  rewrite lookup_run_at by done. rewrite Hr in Hwr |- *.
  assert (Hv : view m0 page = (λ r, (pr_state r, pr_protect r)) <$> run_at (runs m0) page) by done.
  destruct (run_at (runs m0) page) as [run|] eqn:Hrun; simpl in Hv.
  2:{ rewrite seqZ_cons by lia. simpl. by rewrite Hv. }
  assert (Hrun' := Hrun). apply run_at_spec in Hrun' as [Hin Hp]; [|done].
  assert (Hcons := seqZ_cons page (last + 1 - page) ltac:(lia)).
  destruct (decide (pr_state run ≠ Committed)) as [Hst|Hst].
  { rewrite Hcons. simpl. rewrite Hv. simpl. by rewrite decide_True. }
  destruct (allows (pr_protect run) kind) eqn:Ha; simpl.
  2:{ rewrite Hcons. simpl. rewrite Hv. simpl. by rewrite decide_False, Ha. }
  rewrite decide_False by lia. split_and!; [|done|done|lia|].
  - split; [by rewrite <- Hr in Hwr|]. intros _. simpl. by rewrite Hr.
  - apply check_pages_skip; [lia|]. intros p ?.
    replace (view m0 p) with (Some (pr_state run, pr_protect run)).
    + simpl. by rewrite decide_False, Ha.
    + symmetry. apply view_runs_Some; [done|]. exists run. split_and!; done || lia.
Qed.

Lemma check_access_holds m va len kind :
  wf m → in_u64 va → in_u64 len →
  ∃ m', wf m' ∧ runs m' = runs m ∧
    check_access va len kind m =
      (m', if decide (len = 0) then Ok tt
           else if decide (va + len < u64_lim)
           then check_pages (view m) va kind
                  (seqZ (va / 4096) ((va + len - 1) / 4096 + 1 - va / 4096))
           else Err (Message ("access overflow at " +:+ fmt_hex va +:+ "+" +:+ fmt_hex len))).
Proof.
  intros Hwf Hva Hlen. unfold check_access, in_u64 in *.
  case_decide; [by exists m|]. unfold checked_add.
  case_decide; [|by exists m]. unfold PAGE_SHIFT. rewrite !shiftr_12, sat_sub_le by lia.
  assert (va / 4096 ≤ (va + len - 1) / 4096) by (apply Z.div_le_mono; lia).
  set (first := va / 4096) in *. set (last := (va + len - 1) / 4096) in *.
  edestruct (iter_until_rule (check_access_step va kind last)
    (λ '(page, m'), wf m' ∧ runs m' = runs m ∧
       check_pages (view m) va kind (seqZ first (last + 1 - first)) =
       check_pages (view m) va kind (seqZ page (last + 1 - page)))
    (λ '(m', r), wf m' ∧ runs m' = runs m ∧
       r = check_pages (view m) va kind (seqZ first (last + 1 - first)))
    (λ '(page, _), Z.max 0 (last + 1 - page)) (fuel_of (last + 1 - first)) (first, m))
    as ([m' r] & -> & Hm' & Hr & ->); [|done| |by exists m'].
  - intros [page m1] (Hwf1 & Hr1 & Hc). pose proof (check_access_step_spec va kind last m page m1 Hwf1 Hr1) as Hs.
    destruct (check_access_step va kind last (page, m1)) as [[page' m2]|[m2 r]].
    + destruct Hs as (? & ? & ? & ? & ?). split_and!; [done..|congruence|lia|lia].
    + destruct Hs as (? & ? & ->). by rewrite Hc.
  - split; [lia|]. pose proof (fuel_of_spec (last + 1 - first)). lia.
Qed.

(** The run-at-a-time access check with its cache returns exactly
    what checking every page of [va, va+len) in order returns: success, or
    the error of the first offending page (unmapped, not committed, denied).
    It always terminates and changes no run, only the cache. *)
Theorem check_access_spec m va len kind :
  wf m → in_u64 va → in_u64 len →
  ∃ m', wf m' ∧ runs m' = runs m ∧
    check_access va len kind m =
      (m', if decide (len = 0) then Ok tt
           else if decide (va + len < u64_lim)
           then check_pages (view m) va kind
                  (seqZ (va / 4096) ((va + len - 1) / 4096 + 1 - va / 4096))
           else Err (Message ("access overflow at " +:+ fmt_hex va +:+ "+" +:+ fmt_hex len))).
Proof. apply check_access_holds. Qed.

(** ** Splitting, removing and inserting *)

Definition boundary (rs : gmap Z PageRun) (p : Z) : Prop :=
  ∀ i r, rs !! i = Some r → ¬ (i < p < pr_end_page r).

(** The pieces of a split run, and the map after the split. *)
Definition cut_left (r : PageRun) (p : Z) : PageRun :=
  mkPageRun (pr_start_page r) p (pr_state r) (pr_protect r).
Definition cut_right (r : PageRun) (p : Z) : PageRun :=
  mkPageRun p (pr_end_page r) (pr_state r) (pr_protect r).
Definition split_runs (rs : gmap Z PageRun) (r : PageRun) (p : Z) : gmap Z PageRun :=
  <[p := cut_right r p]> (<[pr_start_page r := cut_left r p]> (delete (pr_start_page r) rs)).

Lemma split_at_runs m p :
  rc_valid (cache m) = false →
  runs (split_at p m) =
    match run_at (runs m) p with
    | None => runs m
    | Some r => if decide (pr_start_page r = p) then runs m else split_runs (runs m) r p
    end ∧ cache (split_at p m) = cache m.
Proof.
  intros Hc. unfold split_at, lookup. rewrite Hc. simpl.
  destruct (run_at (runs m) p); [|done]. by case_decide.
Qed.

Section Split.
Context (rs : gmap Z PageRun) (r : PageRun) (p : Z).
Hypotheses (Hwf : runs_wf rs) (Hr : rs !! pr_start_page r = Some r).
Hypothesis (Hp : pr_start_page r < p < pr_end_page r).

Lemma split_entries i r' :
  split_runs rs r p !! i = Some r' ↔
  (i = p ∧ r' = cut_right r p) ∨ (i = pr_start_page r ∧ r' = cut_left r p) ∨
  (i ≠ pr_start_page r ∧ rs !! i = Some r').
Proof using All.
  unfold split_runs. rewrite !lookup_insert_Some, lookup_delete_Some. split; [naive_solver|].
  intros [[-> ->]|[[-> ->]|[Hne Hi]]]; [by left|right; split; [lia|by left]|].
  right. split; [|right; naive_solver]. intros <-. runs_apart Hwf Hr Hi; lia.
Qed.

Lemma split_wf : runs_wf (split_runs rs r p).
Proof using All.
  pose proof (wf_run _ Hwf _ _ Hr) as (_ & ? & ? & ?). split.
  - intros i r' [[-> ->]|[[-> ->]|[? Hi]]]%split_entries; [..|by apply (wf_run _ Hwf)];
      unfold run_ok; simpl; split_and!; done || lia.
  - intros i j ri rj [[-> ->]|[[-> ->]|[? Hi]]]%split_entries
      [[-> ->]|[[-> ->]|[? Hj]]]%split_entries Hlt; simpl; try lia;
      try (runs_apart Hwf Hr Hj; lia); try (runs_apart Hwf Hr Hi; lia).
    by apply (wf_disjoint _ Hwf i j ri rj).
Qed.

Lemma split_view q : view_runs (split_runs rs r p) q = view_runs rs q.
Proof using All.
  pose proof split_wf. apply option_eq. intros [st pr]. rewrite !view_runs_Some by done. split.
  - intros (r' & [[Hs ->]|[[Hs ->]|[? Hi]]]%split_entries & Hq & Hst & Hpr);
      simpl in *; [exists r; split_and!; done || lia..|eauto 6].
  - intros (r' & Hi & Hq & Hst & Hpr). runs_apart Hwf Hr Hi; [|exists r'; rewrite split_entries;
      (split_and!; [right; right; split; [lia|done]|lia|lia|done|done])..].
    rewrite <- Hrr in *. destruct (decide (q < p)); [exists (cut_left r p)|exists (cut_right r p)];
      rewrite split_entries; simpl; split_and!; auto with lia.
Qed.

Lemma split_boundary q :
  (q = p ∨ boundary rs q) → boundary (split_runs rs r p) q.
Proof using All.
  intros Hq i r' [[-> ->]|[[-> ->]|[? Hi]]]%split_entries ?; simpl in *.
  - destruct Hq as [->|Hq]; [lia|]. apply (Hq _ _ Hr). lia.
  - destruct Hq as [->|Hq]; [lia|]. apply (Hq _ _ Hr). lia.
  - destruct Hq as [->|Hq]; [|by apply (Hq _ _ Hi)]. runs_apart Hwf Hr Hi; lia.
Qed.
End Split.

Lemma split_at_spec m p :
  runs_wf (runs m) → rc_valid (cache m) = false →
  let m' := split_at p m in
  runs_wf (runs m') ∧ rc_valid (cache m') = false ∧
  (∀ q, view m' q = view m q) ∧
  (∀ q, q = p ∨ boundary (runs m) q → boundary (runs m') q) ∧
  (∀ i, is_Some (runs m' !! i) → is_Some (runs m !! i) ∨ i = p).
Proof.
  intros Hwf Hc. destruct (split_at_runs m p Hc) as [Hr Hc']. cbv zeta.
  unfold view. rewrite Hr, Hc'. clear Hr Hc'.
  destruct (run_at (runs m) p) as [r|] eqn:Hat.
  - apply run_at_spec in Hat as [Hin Hp]; [|done]. case_decide as Hs.
    + split_and!; try done; [|by left]. intros q [->|Hq] i r' Hi ?; [|by eapply Hq].
      runs_apart Hwf Hin Hi; lia.
    + assert (pr_start_page r < p < pr_end_page r) by lia.
      split_and!; auto using split_wf, split_view, split_boundary.
      intros i [r' [[-> _]|[[-> _]|[_ Hi]]]%split_entries]; eauto.
  - rewrite run_at_None in Hat by done. split_and!; try done; [|by left].
    intros q [->|Hq] i r Hi ?; [apply (Hat i r Hi); lia|by eapply Hq].
Qed.

(** No run meets [a, b). *)
Definition cleared (rs : gmap Z PageRun) (a b : Z) : Prop :=
  ∀ i r, rs !! i = Some r → pr_end_page r ≤ a ∨ b ≤ i.

Lemma remove_range_spec rs a b :
  runs_wf rs → boundary rs a → boundary rs b → a < b →
  let rs' := remove_keys (range_keys rs a b) rs in
  runs_wf rs' ∧ cleared rs' a b ∧
  (∀ q, view_runs rs' q = if decide (a ≤ q < b) then None else view_runs rs q) ∧
  (∀ i, is_Some (rs' !! i) → is_Some (rs !! i)).
Proof.
  intros Hwf Ha Hb Hab rs'. assert (Hwf' : runs_wf rs') by by apply runs_wf_remove_keys.
  assert (Hent : ∀ i r, rs' !! i = Some r ↔ ¬ (a ≤ i < b) ∧ rs !! i = Some r).
  { intros i r. unfold rs'. rewrite lookup_remove_range. case_decide; naive_solver. }
  assert (Hcl : cleared rs' a b).
  { intros i r [Hi Hr]%Hent. pose proof (wf_run _ Hwf _ _ Hr) as (_ & ? & _).
    specialize (Ha _ _ Hr). specialize (Hb _ _ Hr). lia. }
  split_and!; [done..| |intros i [r [_ Hr]%Hent]; eauto].
  intros q. apply option_eq. intros [st pr]. rewrite view_runs_Some by done. case_decide as Hq.
  - split; [|done]. intros (r & Hr & ? & _). destruct (Hcl _ _ Hr); lia.
  - rewrite view_runs_Some by done. split.
    + intros (r & [_ Hr]%Hent & ?). eauto.
    + intros (r & Hr & Hqr & ?). exists r. rewrite Hent. split_and!; try done || lia || tauto.
      intros ?. specialize (Hb _ _ Hr). lia.
Qed.

(** What the map shows once the pending run [nr] is inserted. *)
Definition pending_view (rs : gmap Z PageRun) (nr : PageRun) (q : Z) : option (PageState * u32) :=
  if decide (pr_start_page nr ≤ q < pr_end_page nr)
  then Some (pr_state nr, pr_protect nr) else view_runs rs q.

Record pending (rs : gmap Z PageRun) (nr : PageRun) : Prop := {
  pend_wf : runs_wf rs;
  pend_ok : run_ok (pr_start_page nr) nr;
  pend_cleared : cleared rs (pr_start_page nr) (pr_end_page nr);
}.

Lemma pending_insert rs nr :
  pending rs nr →
  runs_wf (<[pr_start_page nr := nr]> rs) ∧
  (∀ q, view_runs (<[pr_start_page nr := nr]> rs) q = pending_view rs nr q).
Proof.
  intros [Hwf Hok Hcl]. assert (Hroom : room_for rs nr) by (intros j rj Hj _; by apply Hcl).
  split; [by apply runs_wf_insert|]. intros q. apply view_insert; try done.
  destruct (rs !! pr_start_page nr) as [r|] eqn:E; [|done].
  pose proof (wf_run _ Hwf _ _ E) as (_ & ? & _). destruct Hok as (_ & ? & _).
  destruct (Hcl _ _ E); lia.
Qed.

Lemma lookup_exact_end_spec m p r :
  runs_wf (runs m) →
  lookup_exact_end m p = Some r ↔ runs m !! pr_start_page r = Some r ∧ pr_end_page r = p.
Proof.
  intros Hwf. unfold lookup_exact_end. pose proof (range_to_back_spec (runs m) p) as Hs.
  destruct (range_to_back (runs m) p) as [[i v]|]; simpl.
  - destruct Hs as (Hi & Hlt & Hmax). pose proof (wf_run _ Hwf _ _ Hi) as (Hst & ? & _).
    case_decide as Hd.
    + split; [intros [= <-]; rewrite Hst; tauto|]. intros [Hr He].
      runs_apart Hwf Hi Hr; [congruence|lia|lia].
    + split; [done|]. intros [Hr He]. runs_apart Hwf Hi Hr; [subst; tauto|..].
      * assert (pr_start_page r ≤ i) by (apply Hmax; [by rewrite Hr|lia]). lia.
      * lia.
  - split; [done|]. intros [Hr He]. pose proof (wf_run _ Hwf _ _ Hr) as (_ & ? & _).
    assert (p ≤ pr_start_page r) by (apply Hs; by rewrite Hr). lia.
Qed.

Lemma merge_left_spec m nr nr' m' :
  pending (runs m) nr → merge_left (pr_start_page nr) nr m = (nr', m') →
  pending (runs m') nr' ∧ pr_end_page nr' = pr_end_page nr ∧
  pr_state nr' = pr_state nr ∧ pr_protect nr' = pr_protect nr ∧
  (∀ q, pending_view (runs m') nr' q = pending_view (runs m) nr q) ∧
  (∀ i, is_Some (runs m' !! i) → is_Some (runs m !! i)) ∧
  (pr_start_page nr' = pr_start_page nr ∧
     view m (pr_start_page nr - 1) ≠ Some (pr_state nr, pr_protect nr)
   ∨ pr_start_page nr' < pr_start_page nr ∧ is_Some (runs m !! pr_start_page nr') ∧
     view m (pr_start_page nr') = Some (pr_state nr, pr_protect nr)).
Proof.
  intros [Hwf Hok Hcl] Hm. unfold merge_left in Hm.
  assert (Hneg : (∀ l, lookup_exact_end m (pr_start_page nr) = Some l →
            (pr_state l, pr_protect l) ≠ (pr_state nr, pr_protect nr)) →
          view m (pr_start_page nr - 1) ≠ Some (pr_state nr, pr_protect nr)).
  { intros Hno (l & Hl & Hq & Hst & Hpr)%view_runs_Some; [|done].
    eapply (Hno l); [|congruence]. apply lookup_exact_end_spec; [done|]. split; [done|].
    destruct Hok as (_ & ? & _). destruct (Hcl _ _ Hl); lia. }
  case_decide as Hpos; [destruct (lookup_exact_end m (pr_start_page nr)) as [l|] eqn:El;
    [case_decide as Hd|]|]; simplify_eq.
  2:{ split_and!; try done. left; split; [done|]. apply Hneg. intros l' [= <-]. naive_solver. }
  2:{ split_and!; try done. left; split; [done|]. by apply Hneg. }
  2:{ split_and!; try done. left; split; [done|]. apply Hneg.
      intros l (Hl & He)%lookup_exact_end_spec; [|done].
      pose proof (wf_run _ Hwf _ _ Hl) as (_ & ? & _). lia. }
  apply lookup_exact_end_spec in El as [Hl He]; [|done]. destruct Hd as [Hst Hpr].
  pose proof (wf_run _ Hwf _ _ Hl) as (_ & Hb & _). destruct Hok as (_ & Hb' & Hlim & Hfree).
  split_and!; simpl; try done.
  - split; simpl; [by apply runs_wf_delete|unfold run_ok; simpl; split_and!; done || lia|].
    intros i r [? Hi]%lookup_delete_Some. destruct (Hcl _ _ Hi); [|by right].
    runs_apart Hwf Hl Hi; [congruence|lia|lia].
  - intros q. unfold pending_view. simpl. rewrite (view_delete _ _ l) by done.
    repeat case_decide; try done; try lia. symmetry. apply view_runs_Some; [done|].
    exists l. split_and!; done || lia.
  - intros i [r [? Hi]%lookup_delete_Some]. eauto.
  - right. split_and!; [lia|by rewrite Hl|]. apply view_runs_Some; [done|].
    exists l. split_and!; done || lia.
Qed.

Lemma merge_right_spec m nr nr' m' :
  pending (runs m) nr → merge_right (pr_end_page nr) nr m = (nr', m') →
  pending (runs m') nr' ∧ pr_start_page nr' = pr_start_page nr ∧
  pr_state nr' = pr_state nr ∧ pr_protect nr' = pr_protect nr ∧
  (∀ q, pending_view (runs m') nr' q = pending_view (runs m) nr q) ∧
  (∀ i, is_Some (runs m' !! i) → is_Some (runs m !! i) ∧
     (i = pr_end_page nr → view m i ≠ Some (pr_state nr, pr_protect nr))).
Proof.
  intros [Hwf Hok Hcl] Hm. unfold merge_right in Hm.
  assert (Hneg : ∀ r, runs m !! pr_end_page nr = Some r →
    view m (pr_end_page nr) = Some (pr_state r, pr_protect r)).
  { intros r Hr. pose proof (wf_run _ Hwf _ _ Hr) as (Hs & ? & _).
    apply view_runs_Some; [done|]. exists r. rewrite Hs. split_and!; done || lia. }
  destruct (runs m !! pr_end_page nr) as [r|] eqn:Er; [case_decide as Hd|]; simplify_eq.
  2:{ split_and!; try done. intros i Hi. split; [done|]. intros ->.
      rewrite (Hneg r eq_refl). naive_solver. }
  2:{ split_and!; try done. intros i Hi. split; [done|]. intros ->. rewrite Er in Hi. by destruct Hi. }
  destruct Hd as [Hst Hpr]. destruct Hok as (_ & Hb' & Hlim & Hfree).
  pose proof (wf_run _ Hwf _ _ Er) as (Hsr & Hb & ? & _).
  split_and!; simpl; try done.
  - split; simpl; [by apply runs_wf_delete|unfold run_ok; simpl; split_and!; done || lia|].
    intros i r' [? Hi]%lookup_delete_Some. destruct (Hcl _ _ Hi); [by left|].
    runs_apart Hwf Er Hi; [congruence|lia|lia].
  - intros q. unfold pending_view. simpl. rewrite (view_delete _ _ r) by done.
    repeat case_decide; try done; try lia. symmetry. apply view_runs_Some; [done|].
    exists r. rewrite Hsr. split_and!; done || lia.
  - intros i [r' [? Hi]%lookup_delete_Some]. split; [eauto|congruence].
Qed.

(** ** [set_page_range] *)

(** The map after the splits and the removal of the covered runs. *)
Definition cleared_map (a b : Z) (m : PageMap) : PageMap :=
  set_runs (λ rs, remove_keys (range_keys rs a b) rs) (split_at b (split_at a (bump_cache m))).

Lemma cleared_map_spec m a b :
  runs_wf (runs m) → a < b →
  let m' := cleared_map a b m in
  runs_wf (runs m') ∧ cache_ok m' ∧ cleared (runs m') a b ∧
  (∀ q, view m' q = if decide (a ≤ q < b) then None else view m q) ∧
  (∀ i, is_Some (runs m' !! i) → (is_Some (runs m !! i) ∨ i = b) ∧ ¬ a ≤ i < b).
Proof.
  intros Hwf Hab m'.
  destruct (split_at_spec (bump_cache m) a Hwf eq_refl) as (Hwf1 & Hc1 & Hv1 & Hb1 & Hs1).
  destruct (split_at_spec _ b Hwf1 Hc1) as (Hwf2 & Hc2 & Hv2 & Hb2 & Hs2).
  destruct (remove_range_spec _ a b Hwf2) as (Hwf3 & Hcl & Hv3 & Hs3); [auto..|done|].
  split_and!; [done| |done| |].
  - unfold cache_ok, m', cleared_map. simpl. congruence.
  - intros q. unfold view, m', cleared_map. simpl. rewrite Hv3. case_decide; [done|].
    transitivity (view (split_at a (bump_cache m)) q); [apply Hv2|apply Hv1].
  - intros i Hi. assert (Hn : ¬ a ≤ i < b).
    { destruct Hi as [r Hr]. pose proof (wf_run _ Hwf3 _ _ Hr) as (_ & ? & _).
      destruct (Hcl _ _ Hr); lia. }
    split; [|done]. apply Hs3, Hs2 in Hi as [Hi| ->]; [|by right].
    apply Hs1 in Hi as [Hi| ->]; [by left|lia].
Qed.

Definition requested (a b : Z) (st : PageState) (pr : u32) (old : option (PageState * u32))
    (q : Z) : option (PageState * u32) :=
  if decide (a ≤ q < b) then (if decide (st = Free) then None else Some (st, pr)) else old.

Lemma set_page_range_unfold m a b st pr :
  a < b →
  set_page_range a b st pr m =
    let m1 := cleared_map a b m in
    if decide (st = Free) then m1
    else let '(nr, m2) := merge_left a (mkPageRun a b st pr) m1 in
         let '(nr, m3) := merge_right b nr m2 in
         set_runs (<[pr_start_page nr := nr]>) m3.
Proof. intros. unfold set_page_range. by rewrite decide_False by lia. Qed.

Lemma merge_left_cache a nr m : cache (merge_left a nr m).2 = cache m.
Proof. unfold merge_left. by repeat (case_match || case_decide). Qed.
Lemma merge_right_cache b nr m : cache (merge_right b nr m).2 = cache m.
Proof. unfold merge_right. by repeat (case_match || case_decide). Qed.

Lemma cleared_map_cache a b m : runs_wf (runs m) → rc_valid (cache (cleared_map a b m)) = false.
Proof.
  intros Hwf. destruct (split_at_spec (bump_cache m) a Hwf eq_refl) as (Hwf1 & Hc1 & _).
  by destruct (split_at_spec _ b Hwf1 Hc1) as (_ & Hc2 & _).
Qed.

(** The merges and the insertion, from the cleared map: the view and where runs start. *)
Lemma set_page_range_spec m a b st pr :
  runs_wf (runs m) → 0 ≤ a < b → b < 4503599627370496 →
  let m' := set_page_range a b st pr m in
  wf m' ∧ (∀ q, view m' q = requested a b st pr (view m q) q) ∧
  (∀ i, is_Some (runs m' !! i) →
     (is_Some (runs m !! i) ∧ ¬ a ≤ i ≤ b) ∨
     (i = a ∧ st ≠ Free ∧ view m (a - 1) ≠ Some (st, pr)) ∨
     (i = b ∧ (st ≠ Free → view m b ≠ Some (st, pr)))).
Proof.
  intros Hwf Hab Hlim m'. unfold m'. rewrite set_page_range_unfold by lia. cbv zeta.
  destruct (cleared_map_spec m a b Hwf ltac:(lia)) as (Hwf1 & Hc1 & Hcl & Hv1 & Hs1).
  pose proof (cleared_map_cache a b m Hwf) as Hcv.
  set (m1 := cleared_map a b m) in *. clearbody m1. unfold requested.
  destruct (decide (st = Free)) as [->|Hst].
  { split_and!; [by split| |].
    - intros q. rewrite Hv1. by case_decide.
    - intros i Hi. destruct (Hs1 i Hi) as [[?| ->] ?]; [|by right; right].
      destruct (decide (i = b)); [by right; right|left; split; [done|lia]]. }
  assert (Hp0 : pending (runs m1) (mkPageRun a b st pr)).
  { split; simpl; [done| |done]. unfold run_ok; simpl; split_and!; done || lia. }
  destruct (merge_left a (mkPageRun a b st pr) m1) as [nr m2] eqn:Hml.
  destruct (merge_left_spec _ _ _ _ Hp0 Hml) as (Hp2 & He2 & Hst2 & Hpr2 & Hv2 & Hs2 & Hleft).
  simpl in *. destruct (merge_right b nr m2) as [nr3 m3] eqn:Hmr. rewrite <- He2 in Hmr.
  destruct (merge_right_spec _ _ _ _ Hp2 Hmr) as (Hp3 & He3 & Hst3 & Hpr3 & Hv3 & Hs3).
  destruct (pending_insert _ _ Hp3) as [Hwf4 Hv4].
  pose proof (merge_left_cache a (mkPageRun a b st pr) m1) as Hcl2. rewrite Hml in Hcl2.
  pose proof (merge_right_cache (pr_end_page nr) nr m2) as Hcr. rewrite Hmr in Hcr. simpl in *.
  assert (Hvb : view m2 b = view m b).
  { specialize (Hv2 b). unfold pending_view in Hv2. simpl in Hv2.
    rewrite !decide_False in Hv2 by lia. unfold view. rewrite Hv2.
    change (view m1 b = view m b). by rewrite Hv1, decide_False by lia. }
  split_and!.
  - split; [done|]. unfold cache_ok. simpl. rewrite Hcr, Hcl2, Hcv. done.
  - intros q. unfold view. simpl. rewrite Hv4, Hv3, Hv2. unfold pending_view. simpl.
    case_decide; [done|]. change (view_runs (runs m1) q) with (view m1 q). rewrite Hv1.
    by rewrite decide_False.
  - rewrite !Hv1 in Hleft. intros i Hi. apply lookup_insert_is_Some' in Hi as [<-|Hi].
    + rewrite He3. destruct Hleft as [[-> Hn]|(Hlt & Hi & _)].
      * right; left. rewrite decide_False in Hn by lia. done.
      * left. apply Hs1 in Hi as [[Hi|Hi] ?]; [split; [done|lia]|lia].
    + destruct (Hs3 _ Hi) as [Hi2 Hne]. destruct (Hs1 _ (Hs2 _ Hi2)) as [Hi1 ?].
      destruct (decide (i = b)) as [->|]; [|left; split; [naive_solver|lia]].
      right; right. split; [done|]. intros _. rewrite <- Hvb.
      rewrite Hst2, Hpr2 in Hne. apply Hne. lia.
Qed.

Lemma pagemap_wf_new : wf new.
Proof. split; [apply runs_wf_empty|done]. Qed.

Lemma view_new p : view new p = None.
Proof. reflexivity. Qed.

Lemma coalesced_new : coalesced (runs new).
Proof. intros i [r Hr]. done. Qed.

Definition aligned (x : Z) : Prop := x mod 4096 = 0.

Lemma is_multiple_of_page x : is_multiple_of x PAGE_SIZE = true ↔ aligned x.
Proof. unfold is_multiple_of, aligned, PAGE_SIZE. by rewrite bool_decide_eq_true. Qed.

Lemma aligned_div x : aligned x → x / 4096 * 4096 = x.
Proof. intros. apply div_mul_aligned; [lia|done]. Qed.

Lemma set_page_range_coalesced m a b st pr :
  runs_wf (runs m) → 0 ≤ a < b → b < 4503599627370496 →
  coalesced (runs m) → coalesced (runs (set_page_range a b st pr m)).
Proof.
  intros Hwf Hab Hlim Hco i Hi. destruct (set_page_range_spec m a b st pr Hwf Hab Hlim) as (_ & Hv & Hs).
  specialize (Hs i Hi). unfold view in Hv. rewrite !Hv. unfold requested.
  destruct Hs as [[Hi0 ?]|[(-> & Hst & Hn)|(-> & Hn)]].
  - rewrite !decide_False by lia. by apply Hco.
  - rewrite decide_False, decide_True, decide_False by (done || lia). done.
  - rewrite (decide_True (P := a ≤ b - 1 < b)), (decide_False (P := a ≤ b < b)) by lia.
    assert (Hb : view_runs (runs (set_page_range a b st pr m)) b = view m b).
    { rewrite Hv. unfold requested. by rewrite decide_False by lia. }
    case_decide as Hst; [|naive_solver]. intros Heq.
    destruct Hi as [r Hr]. destruct (set_page_range_spec m a b st pr Hwf Hab Hlim) as (Hw & _).
    pose proof (wf_run _ (wf_runs _ Hw) _ _ Hr) as (? & ? & _).
    assert (view_runs (runs (set_page_range a b st pr m)) b = Some (pr_state r, pr_protect r)) as Hr'.
    { apply view_runs_Some; [by apply wf_runs|]. exists r. subst. split_and!; try done; lia. }
    unfold view in Hb. congruence.
Qed.

Lemma set_range_holds m address size st pr :
  wf m → in_u64 address → in_u64 size →
  let '(m', r) := set_range address size st pr m in
  if decide (size = 0) then m' = m ∧ r = Ok tt
  else if decide (aligned address ∧ aligned size ∧ address + size < u64_lim) then
    r = Ok tt ∧ wf m' ∧ (coalesced (runs m) → coalesced (runs m')) ∧
    ∀ q, view m' q =
      requested (address / 4096) ((address + size) / 4096) st pr (view m q) q
  else m' = m ∧ is_ok r = false.
Proof.
  intros Hwf Ha Hsz. unfold set_range, in_u64 in *. case_decide as Hz; [done|].
  destruct (is_multiple_of address PAGE_SIZE) eqn:Ea; simpl.
  2:{ rewrite decide_False; [done|]. intros [H _]. apply is_multiple_of_page in H. congruence. }
  destruct (is_multiple_of size PAGE_SIZE) eqn:Es; simpl.
  2:{ rewrite decide_False; [done|]. intros (_ & H & _). apply is_multiple_of_page in H. congruence. }
  apply is_multiple_of_page in Ea, Es. unfold checked_add.
  destruct (decide (address + size < u64_lim)) as [Hlt|Hge]; [|by rewrite decide_False by tauto].
  rewrite decide_True by done. unfold PAGE_SHIFT. rewrite !shiftr_12.
  assert (0 ≤ address / 4096 < (address + size) / 4096 ∧ (address + size) / 4096 < 4503599627370496).
  { pose proof (aligned_div _ Ea). pose proof (aligned_div _ Es).
    assert ((address + size) / 4096 = address / 4096 + size / 4096).
    { replace (address + size) with (address + size / 4096 * 4096) by lia. by rewrite Z.div_add by lia. }
    lia. }
  destruct (set_page_range_spec m (address / 4096) ((address + size) / 4096) st pr (wf_runs _ Hwf))
    as (? & ? & _); [lia..|].
  split_and!; try done. intros. apply set_page_range_coalesced; [by apply wf_runs|lia..|done].
Qed.

(** [set_range] refines pointwise update of the page view: on page-aligned
    arguments that do not wrap it succeeds, keeps the run map well formed and
    its cache coherent, gives exactly the pages of [address, address+size) the
    new state and protection (or frees them) and leaves every other page as it
    was; other arguments fail and change nothing. *)
Theorem set_range_spec m address size st pr :
  wf m → in_u64 address → in_u64 size →
  let '(m', r) := set_range address size st pr m in
  if decide (size = 0) then m' = m ∧ r = Ok tt
  else if decide (aligned address ∧ aligned size ∧ address + size < u64_lim) then
    r = Ok tt ∧ wf m' ∧ (coalesced (runs m) → coalesced (runs m')) ∧
    ∀ q, view m' q =
      requested (address / 4096) ((address + size) / 4096) st pr (view m q) q
  else m' = m ∧ is_ok r = false.
Proof. apply set_range_holds. Qed.

(** Of two runs that start at the same page of the same view, the one of the
    coalesced map is at least as long. *)
Lemma coalesced_end_le rs rs' i x y :
  runs_wf rs → runs_wf rs' → coalesced rs → (∀ q, view_runs rs q = view_runs rs' q) →
  rs !! i = Some x → rs' !! i = Some y →
  (pr_state x, pr_protect x) = (pr_state y, pr_protect y) → pr_end_page y ≤ pr_end_page x.
Proof.
  intros Hw Hw' Hc Hv Hx Hy Heq. destruct (decide (pr_end_page y ≤ pr_end_page x)); [done|].
  pose proof (wf_run _ Hw _ _ Hx) as (Hsx & ? & _). pose proof (wf_run _ Hw' _ _ Hy) as (Hsy & ? & _).
  assert (He : view_runs rs (pr_end_page x) = Some (pr_state x, pr_protect x)).
  { rewrite Hv, Heq. apply view_runs_Some; [done|]. exists y. rewrite Hsy. split_and!; done || lia. }
  assert (Hp : view_runs rs (pr_end_page x - 1) = Some (pr_state x, pr_protect x)).
  { apply view_runs_Some; [done|]. exists x. rewrite Hsx. split_and!; done || lia. }
  apply view_runs_Some in He as (z & Hz & Hbz & Hz1 & Hz2); [|done]. exfalso.
  assert (pr_start_page z = pr_end_page x) as Hzs by (runs_apart Hw Hx Hz; subst; lia).
  apply (Hc (pr_end_page x)); [rewrite <- Hzs; eauto|].
  rewrite Hp. symmetry. apply view_runs_Some; [done|]. eauto 6.
Qed.

(** The page view determines a coalesced run map. *)
Lemma coalesced_entry rs1 rs2 i r :
  runs_wf rs1 → runs_wf rs2 → coalesced rs1 → coalesced rs2 →
  (∀ q, view_runs rs1 q = view_runs rs2 q) → rs1 !! i = Some r → rs2 !! i = Some r.
Proof.
  intros Hw1 Hw2 Hc1 Hc2 Hv Hi. pose proof (wf_run _ Hw1 _ _ Hi) as (Hs1 & Hb1 & _).
  assert (Hat : view_runs rs1 i = Some (pr_state r, pr_protect r)).
  { apply view_runs_Some; [done|]. exists r. rewrite Hs1. split_and!; done || lia. }
  assert (Hat2 := Hat). rewrite Hv in Hat2.
  apply view_runs_Some in Hat2 as (r2 & Hr2 & Hb2 & Hst2 & Hpr2); [|done].
  (* both runs start at [i] *)
  assert (Hs2 : pr_start_page r2 = i).
  { destruct (decide (pr_start_page r2 = i)) as [|]; [done|]. exfalso.
    apply (Hc1 i); [eauto|]. rewrite Hat, Hv. apply view_runs_Some; [done|].
    exists r2. split_and!; done || lia. }
  rewrite Hs2 in Hr2. rewrite Hr2. f_equal. destruct r as [s1 e1 st1 pr1], r2 as [s2 e2 st2 pr2].
  simpl in *. subst. f_equal.
  pose proof (coalesced_end_le _ _ _ _ _ Hw1 Hw2 Hc1 Hv Hi Hr2 eq_refl).
  pose proof (coalesced_end_le _ _ _ _ _ Hw2 Hw1 Hc2 (λ q, eq_sym (Hv q)) Hr2 Hi eq_refl).
  simpl in *. lia.
Qed.

(** Splitting and merging keep one canonical representation: any two
    well-formed, maximally merged page maps (which [set_range] preserves from
    the empty map on) whose views agree store exactly the same runs, however
    they were built. *)
Theorem view_determines_runs m1 m2 :
  wf m1 → wf m2 → coalesced (runs m1) → coalesced (runs m2) →
  (∀ q, view m1 q = view m2 q) → runs m1 = runs m2.
Proof.
  intros [Hw1 _] [Hw2 _] Hc1 Hc2 Hv. apply map_eq. intros i. apply option_eq. intros r.
  split; intros Hr; [by apply (coalesced_entry (runs m1))|].
  apply (coalesced_entry (runs m2)); try done. intros q. symmetry. apply Hv.
Qed.

(** ** A concrete map for the witnesses *)

Definition sample : PageMap := set_page_range 2 4 Committed PAGE_READWRITE new.

Lemma sample_wf : wf sample.
Proof. apply (set_page_range_spec new 2 4 Committed PAGE_READWRITE (wf_runs _ pagemap_wf_new)); lia. Qed.

Lemma sample_coalesced : coalesced (runs sample).
Proof. apply set_page_range_coalesced; [apply pagemap_wf_new|lia..|apply coalesced_new]. Qed.

Lemma check_access_spec_witness :
  ∃ m', wf m' ∧ runs m' = runs sample ∧
    check_access 0x2ff8 8 Write sample = (m', Ok tt).
Proof.
  destruct (check_access_spec sample 0x2ff8 8 Write sample_wf) as (m' & ? & ? & Hc);
    [vm_compute; split; congruence..|].
  exists m'. split; [done|]. split; [done|]. rewrite Hc. f_equal.
Defined.

Lemma set_range_spec_witness :
  let '(m', r) := set_range 0x3000 0x2000 Free 0 sample in
  r = Ok tt ∧ wf m' ∧ view m' 2 = Some (Committed, PAGE_READWRITE) ∧ view m' 3 = None.
Proof.
  pose proof (set_range_spec sample 0x3000 0x2000 Free 0 sample_wf
    ltac:(unfold in_u64; lia) ltac:(unfold in_u64; lia)) as H.
  destruct (set_range 0x3000 0x2000 Free 0 sample) as [m' r].
  destruct H as (Hr & Hw & _ & Hv). split; [done|]. split; [done|]. rewrite !Hv. done.
Defined.

(** Two pages set one by one store the same single run as both at once. *)
Lemma view_determines_runs_witness :
  let two := set_page_range 3 4 Committed PAGE_READWRITE
               (set_page_range 2 3 Committed PAGE_READWRITE new) in
  runs two = runs sample.
Proof.
  pose proof (set_page_range_spec new 2 3 Committed PAGE_READWRITE (wf_runs _ pagemap_wf_new)
    ltac:(lia) ltac:(lia)) as (Hw1 & Hv1 & _).
  pose proof (set_page_range_spec _ 3 4 Committed PAGE_READWRITE (wf_runs _ Hw1)
    ltac:(lia) ltac:(lia)) as (Hw2 & Hv2 & _).
  pose proof (set_page_range_spec new 2 4 Committed PAGE_READWRITE (wf_runs _ pagemap_wf_new)
    ltac:(lia) ltac:(lia)) as (_ & Hv & _).
  apply view_determines_runs; [done|apply sample_wf| |apply sample_coalesced|].
  - apply set_page_range_coalesced; [apply Hw1|lia..|].
    apply set_page_range_coalesced; [apply pagemap_wf_new|lia..|apply coalesced_new].
  - intros q. unfold sample. rewrite Hv2, Hv1, Hv. unfold requested. repeat case_decide; done || lia.
Defined.

End PageMap.
