(* ===== verification/vad.v ===== *)
(** * Virtual address descriptors (crates/wie-cpu/src/mem/vad.rs)

    [VadTable] is the vector of reservations sorted by base.  Its
    specification is the ownership function [find]: which reservation, if any,
    an address belongs to. *)

From S2P Require Import Prelude protect pagemap.

Definition GUEST_ALLOC_GRANULARITY : u64 := 0x10000.
Definition FREE_VA_SEARCH_START : u64 := 0x0000000100000000.
Definition FREE_VA_SEARCH_END : u64 := 0x0000700000000000.

Definition MEM_COMMIT : u32 := 0x1000.
Definition MEM_RESERVE : u32 := 0x2000.
Definition MEM_DECOMMIT : u32 := 0x4000.
Definition MEM_RELEASE : u32 := 0x8000.
Definition MEM_FREE : u32 := 0x10000.
Definition MEM_PRIVATE : u32 := 0x20000.
Definition MEM_IMAGE : u32 := 0x1000000.

Inductive MemType : Type := Private | Image.
#[global] Instance MemType_eq_dec : EqDecision MemType.
Proof. solve_decision. Defined.

Definition win32 (t : MemType) : u32 :=
  match t with Private => MEM_PRIVATE | Image => MEM_IMAGE end.

Record VadNode := mkVadNode {
  allocation_base : u64;
  vn_size : u64;
  allocation_protect : u32;
  mem_type : MemType;
  owns_host : bool;
}.
#[global] Instance VadNode_eq_dec : EqDecision VadNode.
Proof. solve_decision. Defined.

Definition vn_end (n : VadNode) : u64 := sat_add (allocation_base n) (vn_size n).

Definition contains (n : VadNode) (va : u64) : bool :=
  bool_decide (allocation_base n ≤ va) && bool_decide (va < vn_end n).

Definition contains_range (n : VadNode) (addr len : u64) : bool :=
  if decide (len = 0) then contains n addr
  else match checked_add addr len with
       | None => false
       | Some e => bool_decide (allocation_base n ≤ addr) && bool_decide (e ≤ vn_end n)
       end.

Definition ERROR_INVALID_ADDRESS : u32 := 487.
Definition ERROR_INVALID_PARAMETER : u32 := 87.
Definition ERROR_NOT_ENOUGH_MEMORY : u32 := 8.

(** A Win32 error code carried in the message. *)
Definition va_error (code : u32) (msg : string) : CpuError :=
  Message ("win32(" +:+ fmt_dec code +:+ "): " +:+ msg).

Definition win32_from_cpu_error (err : CpuError) : option u32 :=
  let '(Message s) := err in
  rest ← strip_prefix "win32(" s;
  '(num, _) ← split_once ")" rest;
  parse_u32 num.

Definition align_down (x gran : u64) : u64 :=
  if decide (gran = 0) then x else x / gran * gran.

Definition align_up (x gran : u64) : u64 :=
  if decide (gran = 0) then x
  else let rem := x mod gran in
       if decide (rem = 0) then x else sat_add x (sat_sub gran rem).

Module VadTable.

Abbreviation VadTable := (list VadNode).

Definition new : VadTable := [].

Definition find (t : VadTable) (va : u64) : option VadNode :=
  List.find (λ n, contains n va) t.

Definition find_base (t : VadTable) (base : u64) : option VadNode :=
  List.find (λ n, bool_decide (allocation_base n = base)) t.

Definition insert (node : VadNode) : M VadTable unit := λ t,
  if decide (vn_size node = 0) then (t, Err (Message "VAD size 0"))
  else
    let base := allocation_base node in
    let end_ := vn_end node in
    if existsb (λ n, bool_decide (allocation_base n < end_) && bool_decide (base < vn_end n)) t
    then (t, Err (Message ("win32(" +:+ fmt_dec ERROR_INVALID_ADDRESS +:+ "): VAD overlap at "
                           +:+ fmt_hex base)))
    else
      let pos := default (length t) (position (λ n, bool_decide (base < allocation_base n)) t) in
      (vec_insert pos node t, Ok tt).

Definition remove_base (base : u64) (t : VadTable) : VadTable * option VadNode :=
  match position (λ n, bool_decide (allocation_base n = base)) t with
  | None => (t, None)
  | Some i => (delete i t, t !! i)
  end.

Definition overlaps (t : VadTable) (base size : u64) : bool :=
  let end_ := sat_add base size in
  existsb (λ n, bool_decide (allocation_base n < end_) && bool_decide (base < vn_end n)) t.

(** The page loop of [region_is_free]. *)
Definition region_pages_step (is_page_busy : u64 → bool) (last page : u64) : u64 + res bool :=
  if decide (page < last) then
    if is_page_busy page then inr (Ok false) else inl (sat_add page 1)
  else inr (Ok true).

Definition region_is_free (t : VadTable) (base size : u64) (is_page_busy : u64 → bool) : res bool :=
  if overlaps t base size then Ok false
  else
    let end_ := sat_add base size in
    let page := Z.shiftr base PAGE_SHIFT in
    let last := Z.shiftr end_ PAGE_SHIFT in
    run_loop (fuel_of (Z.max 0 (last - page))) (region_pages_step is_page_busy last) page.

(** Where the search goes when [addr] is not free. *)
Definition next_candidate (t : VadTable) (addr size : u64) : u64 :=
  match List.find (λ n, bool_decide (allocation_base n < sat_add addr size)
                        && bool_decide (addr < vn_end n)) t with
  | Some blocker =>
      let next := align_up (vn_end blocker) GUEST_ALLOC_GRANULARITY in
      if decide (next ≤ addr) then sat_add addr GUEST_ALLOC_GRANULARITY else next
  | None => sat_add addr GUEST_ALLOC_GRANULARITY
  end.

Definition find_free_step (t : VadTable) (size : u64) (is_page_busy : u64 → bool) (addr : u64)
    : u64 + res (option u64) :=
  if decide (sat_add addr size ≤ FREE_VA_SEARCH_END) then
    match region_is_free t addr size is_page_busy with
    | Ok true => inr (Ok (Some addr))
    | Ok false => inl (next_candidate t addr size)
    | Err e => inr (Err e)
    | Abort w => inr (Abort w)
    end
  else inr (Ok None).

Definition find_free_region (t : VadTable) (size : u64) (is_page_busy : u64 → bool)
    : res (option u64) :=
  if decide (size = 0) then Ok None
  else if negb (is_multiple_of size GUEST_ALLOC_GRANULARITY) then Ok None
  else run_loop (fuel_of (FREE_VA_SEARCH_END + 1 - FREE_VA_SEARCH_START))
         (find_free_step t size is_page_busy) FREE_VA_SEARCH_START.

(** ** Specification *)

(** A reservation that does not reach the end of the address space. *)
Definition node_ok (n : VadNode) : Prop :=
  0 ≤ allocation_base n ∧ 0 < vn_size n ∧ allocation_base n + vn_size n < u64_lim.

Record wf (t : VadTable) : Prop := {
  wf_nodes : Forall node_ok t;
  wf_ivl : ivl_wf allocation_base vn_end t;
}.

(** [addr] can host [size] bytes: aligned, inside the search window, owned by
    no reservation, no page of it busy. *)
Definition hole (t : VadTable) (size : u64) (is_page_busy : u64 → bool) (addr : u64) : Prop :=
  addr mod GUEST_ALLOC_GRANULARITY = 0 ∧ FREE_VA_SEARCH_START ≤ addr ∧
  addr + size ≤ FREE_VA_SEARCH_END ∧
  (∀ va, addr ≤ va < addr + size → find t va = None) ∧
  (∀ p, addr / 4096 ≤ p < (addr + size) / 4096 → is_page_busy p = false).

(** ** Lemmas *)

Lemma vn_end_ok n : node_ok n → vn_end n = allocation_base n + vn_size n.
Proof. intros (? & ? & ?). unfold vn_end. rewrite sat_add_lt; lia. Qed.

Lemma contains_spec n va : contains n va = true ↔ allocation_base n ≤ va < vn_end n.
Proof. apply ivl_contains_spec. Qed.

Lemma find_spec t va n :
  wf t → find t va = Some n ↔ n ∈ t ∧ allocation_base n ≤ va < vn_end n.
Proof. intros Hwf. apply ivl_find_Some, Hwf. Qed.

Lemma find_None t va :
  find t va = None ↔ ∀ n, n ∈ t → ¬ (allocation_base n ≤ va < vn_end n).
Proof.
  unfold find. split.
  - intros H n Hn%list_elem_of_In Hc%contains_spec. by rewrite (List.find_none _ _ H n Hn) in Hc.
  - intros H. destruct (List.find _ t) as [n|] eqn:E; [|done].
    apply List.find_some in E as [Hn%list_elem_of_In Hc%contains_spec]. by destruct (H n).
Qed.

Lemma vad_wf_new : wf new.
Proof. repeat constructor. Qed.

Lemma overlaps_false t base size :
  wf t → 0 < size → base + size < u64_lim →
  overlaps t base size = false ↔ ∀ va, base ≤ va < base + size → find t va = None.
Proof.
  intros Hwf Hs Hlim. unfold overlaps. rewrite sat_add_lt by lia.
  change (ivl_overlaps allocation_base vn_end base (base + size) t = false ↔
    ∀ va, base ≤ va < base + size → find t va = None).
  rewrite ivl_overlaps_false. setoid_rewrite find_None. split.
  - intros H va Hva n Hn. specialize (H n Hn). lia.
  - intros H n Hn. pose proof (ivl_nonempty _ _ _ (wf_ivl _ Hwf)) as Hne.
    rewrite Forall_forall in Hne. specialize (Hne n Hn).
    destruct (decide (vn_end n ≤ base)); [by left|]. right.
    destruct (decide (base + size ≤ allocation_base n)); [done|].
    destruct (H (Z.max base (allocation_base n)) ltac:(lia) n Hn). lia.
Qed.

(** The error of an overlapping insertion. *)
Definition overlap_error (base : u64) : CpuError :=
  Message ("win32(" +:+ fmt_dec ERROR_INVALID_ADDRESS +:+ "): VAD overlap at " +:+ fmt_hex base).

Lemma vad_insert_holds t n :
  wf t → 0 ≤ allocation_base n → 0 ≤ vn_size n → allocation_base n + vn_size n < u64_lim →
  let '(t', r) := insert n t in
  if decide (vn_size n = 0) then t' = t ∧ r = Err (Message "VAD size 0")
  else
    (r = Ok tt ∧ wf t' ∧ (∀ va, contains n va = true → find t va = None) ∧
     (∀ va, find t' va = if contains n va then Some n else find t va)) ∨
    (r = Err (overlap_error (allocation_base n)) ∧ t' = t ∧
     ∃ va, contains n va = true ∧ is_Some (find t va)).
Proof.
  intros Hwf Hb Hs Hlim. unfold insert. case_decide; [done|].
  assert (Hok : node_ok n) by (unfold node_ok; lia). pose proof (vn_end_ok n Hok) as He.
  pose proof (overlaps_false t (allocation_base n) (vn_size n) Hwf ltac:(lia) Hlim) as Hov.
  unfold overlaps in Hov. rewrite sat_add_lt, <- He in Hov by lia.
  destruct (existsb _ t) eqn:E.
  - right. split_and!; [done..|]. apply existsb_exists in E as (m & Hm%list_elem_of_In & Hc).
    rewrite andb_true_iff, !bool_decide_eq_true in Hc.
    pose proof (ivl_nonempty _ _ _ (wf_ivl _ Hwf)) as Hne. rewrite Forall_forall in Hne.
    specialize (Hne m Hm). exists (Z.max (allocation_base m) (allocation_base n)).
    rewrite contains_spec. split; [lia|]. exists m. apply find_spec; [done|]. split; [done|lia].
  - left. destruct Hov as [Hov _]. specialize (Hov eq_refl).
    destruct Hok as (? & ? & ?). destruct Hwf as [Hn Hi]. split_and!; [done| | |].
    + split; [|by apply ivl_wf_insert; [|lia|]].
      change (Forall node_ok (ivl_insert allocation_base n t)).
      rewrite ivl_insert_Permutation. constructor; [done|done].
    + intros va Hva%contains_spec. apply Hov. lia.
    + intros va. transitivity (if decide (allocation_base n ≤ va < vn_end n) then Some n else find t va).
      * apply ivl_find_insert; [done|lia|done].
      * destruct (contains n va) eqn:Hc; [apply contains_spec in Hc; by rewrite decide_True|].
        rewrite decide_False; [done|]. intros Hc'. apply contains_spec in Hc'. congruence.
Qed.

(** [insert] adds a reservation to the ownership map or changes nothing:
    it succeeds exactly when the size is non-zero and no address of the new
    range is owned, then owns exactly that range (every other address keeps
    its owner) and keeps the table sorted and disjoint. *)
Theorem vad_insert_spec t n :
  wf t → 0 ≤ allocation_base n → 0 ≤ vn_size n → allocation_base n + vn_size n < u64_lim →
  let '(t', r) := insert n t in
  if decide (vn_size n = 0) then t' = t ∧ r = Err (Message "VAD size 0")
  else
    (r = Ok tt ∧ wf t' ∧ (∀ va, contains n va = true → find t va = None) ∧
     (∀ va, find t' va = if contains n va then Some n else find t va)) ∨
    (r = Err (overlap_error (allocation_base n)) ∧ t' = t ∧
     ∃ va, contains n va = true ∧ is_Some (find t va)).
Proof. apply vad_insert_holds. Qed.

Definition sample_node : VadNode := mkVadNode 0x100000000 0x10000 4 Private true.

Lemma vad_insert_spec_witness :
  let '(t', r) := insert sample_node new in
  (r = Ok tt ∧ wf t' ∧ (∀ va, contains sample_node va = true → find new va = None) ∧
   (∀ va, find t' va = if contains sample_node va then Some sample_node else find new va)) ∨
  (r = Err (overlap_error 0x100000000) ∧ t' = new ∧
   ∃ va, contains sample_node va = true ∧ is_Some (find new va)).
Proof.
  apply (vad_insert_spec new sample_node vad_wf_new); [by vm_compute..|reflexivity].
Defined.

Lemma vad_remove_base_holds t base :
  wf t →
  let '(t', r) := remove_base base t in
  wf t' ∧
  match r with
  | Some n => allocation_base n = base ∧ find t base = Some n ∧
      ∀ va, find t' va = if contains n va then None else find t va
  | None => t' = t ∧ find_base t base = None
  end.
Proof.
  intros Hwf. unfold remove_base, position.
  destruct (list_find _ t) as [[i n]|] eqn:E; simpl.
  - apply list_find_Some in E as (Hi & Hb%bool_decide_unpack & _). rewrite Hi.
    destruct Hwf as [Hn Hv].
    assert (Hne : allocation_base n < vn_end n).
    { pose proof (ivl_nonempty _ _ _ Hv) as Hne. rewrite Forall_forall in Hne.
      eapply Hne, list_elem_of_lookup_2, Hi. }
    split_and!; [split|done| |].
    + by apply Forall_delete.
    + eapply ivl_wf_sublist; [apply sublist_delete|done].
    + apply find_spec; [done|]. split; [by eapply list_elem_of_lookup_2|lia].
    + intros va. transitivity (if decide (allocation_base n ≤ va < vn_end n) then None else find t va).
      * by apply ivl_find_delete.
      * destruct (contains n va) eqn:Hc; [apply contains_spec in Hc; by rewrite decide_True|].
        rewrite decide_False; [done|]. intros Hc'. apply contains_spec in Hc'. congruence.
  - apply list_find_None in E. split_and!; [done..|]. unfold find_base.
    destruct (List.find _ t) as [n|] eqn:Ef; [|done].
    apply List.find_some in Ef as [Hn%list_elem_of_In Hb]. rewrite Forall_forall in E.
    exfalso. apply (E n Hn). by apply Is_true_true.
Qed.

(** [remove_base] returns the reservation with that base, if any, and
    unowns exactly its range; with no such reservation it changes nothing. *)
Theorem vad_remove_base_spec t base :
  wf t →
  let '(t', r) := remove_base base t in
  wf t' ∧
  match r with
  | Some n => allocation_base n = base ∧ find t base = Some n ∧
      ∀ va, find t' va = if contains n va then None else find t va
  | None => t' = t ∧ find_base t base = None
  end.
Proof. apply vad_remove_base_holds. Qed.

Lemma vad_remove_base_spec_witness :
  let '(t', r) := remove_base 0x100000000 [sample_node] in
  wf t' ∧ r = Some sample_node ∧ find t' 0x100000000 = None.
Proof.
  assert (Hwf : wf [sample_node]).
  { split; [repeat constructor; simpl; lia|]. split; repeat constructor. }
  pose proof (vad_remove_base_spec [sample_node] 0x100000000 Hwf) as H.
  change (remove_base 0x100000000 [sample_node]) with (@nil VadNode, Some sample_node) in *.
  simpl in H. destruct H as (Hw & _). split; [done|]. split; reflexivity.
Defined.

(** ** The free-region search *)

Lemma align_up_spec x g :
  0 < g → 0 ≤ x → x + g ≤ u64_lim →
  x ≤ align_up x g < x + g ∧ align_up x g mod g = 0.
Proof.
  intros Hg Hx Hlim. unfold align_up. rewrite decide_False by lia.
  pose proof (Z.mod_pos_bound x g Hg) as Hm. pose proof (Z.div_mod x g ltac:(lia)) as Hd.
  case_decide as Hz; [lia|]. rewrite sat_sub_le by lia.
  rewrite sat_add_lt by lia. split; [lia|].
  replace (x + (g - x mod g)) with ((x / g + 1) * g) by lia. apply Z.mod_mul. lia.
Qed.

(** Nothing aligned lies strictly between [x] and [align_up x g]. *)
Lemma align_up_least x g y :
  0 < g → 0 ≤ x → x ≤ y → y mod g = 0 → align_up x g ≤ y.
Proof.
  intros Hg Hx Hxy Hy. unfold align_up. rewrite decide_False by lia.
  pose proof (Z.mod_pos_bound x g Hg) as Hm. pose proof (Z.div_mod x g ltac:(lia)) as Hd.
  pose proof (Z.div_mod y g ltac:(lia)) as Hdy. case_decide as Hz; [lia|].
  unfold sat_add, sat_sub. assert (x / g < y / g); [|nia].
  assert (x / g ≤ y / g) by (apply Z.div_le_mono; lia).
  destruct (decide (x / g = y / g)) as [Heq|]; [|lia]. rewrite Heq in Hd. lia.
Qed.

Lemma region_is_free_spec t base size busy :
  wf t → 0 ≤ base → 0 < size → base + size < u64_lim →
  ∃ b, region_is_free t base size busy = Ok b ∧
    (b = true ↔ (∀ va, base ≤ va < base + size → find t va = None) ∧
                (∀ p, base / 4096 ≤ p < (base + size) / 4096 → busy p = false)).
Proof.
  intros Hwf Hb Hs Hlim. unfold region_is_free.
  pose proof (overlaps_false t base size Hwf Hs Hlim) as Hov.
  destruct (overlaps t base size) eqn:E.
  { exists false. split; [done|]. split; [done|]. intros [Hf _]. apply Hov in Hf. done. }
  rewrite sat_add_lt by lia. unfold PAGE_SHIFT. rewrite !shiftr_12.
  set (first := base / 4096). set (last := (base + size) / 4096).
  assert (last < u64_lim) by (apply Z.div_lt_upper_bound; lia).
  assert (0 ≤ first) by (apply Z.div_pos; lia).
  apply (run_loop_rule _ (λ page, first ≤ page ∧ (page ≤ last ∨ page = first) ∧
           ∀ p, first ≤ p < page → busy p = false)
           (λ r, ∃ b, r = Ok b ∧ (b = true ↔ _)) (λ page, Z.max 0 (last - page))).
  - intros page (Hge & Hle & Hall). unfold region_pages_step. case_decide as Hlt.
    + destruct (busy page) eqn:Hbusy.
      * exists false. split; [done|]. split; [done|]. intros [_ H2]. rewrite H2 in Hbusy; [done|lia].
      * rewrite sat_add_lt by lia. split_and!; [lia|lia| |lia|lia].
        intros p Hp. destruct (decide (p = page)) as [->|]; [done|]. apply Hall. lia.
    + exists true. split; [done|]. split; [|done]. intros _. split; [by apply Hov|].
      intros p Hp. apply Hall. lia.
  - split_and!; [lia|auto|lia].
  - split; [lia|]. apply fuel_of_spec. lia.
Qed.

(** A hole lies on one side of every reservation. *)
Lemma hole_avoids t size busy a n :
  wf t → n ∈ t → 0 < size → hole t size busy a → vn_end n ≤ a ∨ a + size ≤ allocation_base n.
Proof.
  intros Hwf Hn Hs (_ & _ & _ & Hf & _).
  pose proof (ivl_nonempty _ _ _ (wf_ivl _ Hwf)) as Hne. rewrite Forall_forall in Hne.
  specialize (Hne n Hn). specialize (Hf (Z.max a (allocation_base n))).
  rewrite find_None in Hf. destruct (decide (vn_end n ≤ a)); [by left|].
  destruct (decide (a + size ≤ allocation_base n)); [by right|].
  exfalso. eapply Hf; [|done|]; lia.
Qed.

(** The next candidate is later and skips no hole. *)
Lemma next_candidate_spec t size busy addr :
  wf t → addr mod GUEST_ALLOC_GRANULARITY = 0 → FREE_VA_SEARCH_START ≤ addr → 0 < size →
  addr + size ≤ FREE_VA_SEARCH_END → ¬ hole t size busy addr →
  let addr' := next_candidate t addr size in
  addr < addr' ∧ (addr' mod GUEST_ALLOC_GRANULARITY = 0 ∨ FREE_VA_SEARCH_END < addr') ∧
  ∀ a, hole t size busy a → a < addr' → a < addr.
Proof.
  unfold next_candidate, GUEST_ALLOC_GRANULARITY, FREE_VA_SEARCH_START, FREE_VA_SEARCH_END.
  intros Hwf Hal Hst Hs Hlim Hno. rewrite sat_add_lt by lia.
  assert (Hstep : ∀ a, hole t size busy a → a < addr + 0x10000 → a < addr).
  { intros a Hh Ha. destruct (decide (a < addr)); [done|]. exfalso.
    pose proof Hh as (Hm & _). unfold GUEST_ALLOC_GRANULARITY in Hm.
    assert (a = addr) as ->; [|done].
    pose proof (Z.div_mod a 0x10000 ltac:(lia)). pose proof (Z.div_mod addr 0x10000 ltac:(lia)). lia. }
  assert (Hmod : (addr + 0x10000) mod 0x10000 = 0).
  { rewrite <- Zplus_mod_idemp_l, Hal. done. }
  rewrite sat_add_lt by lia.
  destruct (List.find _ t) as [n|] eqn:E; [|split_and!; [lia|auto|done]].
  apply List.find_some in E as [Hn%list_elem_of_In Hc].
  rewrite andb_true_iff, !bool_decide_eq_true in Hc.
  case_decide as Hnx; [split_and!; [lia|auto|done]|].
  destruct (decide (vn_end n + 0x10000 ≤ u64_lim)) as [Hsm|Hbig].
  2:{ assert (vn_end n ≤ align_up (vn_end n) 0x10000).
      { unfold align_up. rewrite decide_False by lia. case_decide; [lia|]. unfold sat_add, sat_sub.
        pose proof (wf_nodes _ Hwf) as Hall. rewrite Forall_forall in Hall.
        pose proof (vn_end_ok n (Hall n Hn)). destruct (Hall n Hn) as (? & ? & ?).
        pose proof (Z.mod_pos_bound (vn_end n) 65536). lia. }
      split_and!; [lia|right; lia|]. intros a Hh Ha.
      destruct (decide (a < addr)); [done|]. exfalso. pose proof Hh as (_ & _ & ? & _).
      unfold FREE_VA_SEARCH_END in *. destruct (hole_avoids t size busy a n); try done; lia. }
  destruct (align_up_spec (vn_end n) 0x10000) as [? ?]; [lia..|].
  split_and!; [lia|auto|]. intros a Hh Ha. pose proof Hh as (Hm & _).
  destruct (decide (a < addr)); [done|]. exfalso.
  assert (a < vn_end n).
  { destruct (decide (a < vn_end n)); [done|]. unfold GUEST_ALLOC_GRANULARITY in Hm.
    pose proof (align_up_least (vn_end n) 0x10000 a ltac:(lia) ltac:(lia) ltac:(lia) Hm). lia. }
  destruct (hole_avoids t size busy a n); try done; lia.
Qed.

Lemma find_free_region_holds t size busy :
  wf t → in_u64 size →
  ∃ r, find_free_region t size busy = Ok r ∧
    match r with
    | Some a => 0 < size ∧ size mod GUEST_ALLOC_GRANULARITY = 0 ∧ hole t size busy a ∧
                ∀ a', hole t size busy a' → a ≤ a'
    | None => size = 0 ∨ size mod GUEST_ALLOC_GRANULARITY ≠ 0 ∨ ∀ a, ¬ hole t size busy a
    end.
Proof.
  intros Hwf [Hs0 Hs]. unfold find_free_region. case_decide as Hz; [exists None; auto|].
  unfold is_multiple_of. case_bool_decide as Hm; simpl; [|exists None; auto].
  unfold FREE_VA_SEARCH_START, FREE_VA_SEARCH_END.
  apply (run_loop_rule _ (λ addr, FREE_VA_SEARCH_START ≤ addr ∧
           (addr mod GUEST_ALLOC_GRANULARITY = 0 ∨ FREE_VA_SEARCH_END < addr) ∧
           ∀ a, hole t size busy a → addr ≤ a)
           (λ r, ∃ o, r = Ok o ∧ _) (λ addr, Z.max 0 (FREE_VA_SEARCH_END + 1 - addr))).
  2:{ unfold FREE_VA_SEARCH_START. split_and!; [lia|by left|]. by intros a (_ & ? & _). }
  2:{ unfold FREE_VA_SEARCH_END. split; [lia|]. done. }
  intros addr (Hst & Hal & Hmin). unfold find_free_step.
  assert (Hsat : sat_add addr size ≤ FREE_VA_SEARCH_END ↔ addr + size ≤ FREE_VA_SEARCH_END).
  { unfold sat_add, FREE_VA_SEARCH_END. lia. }
  destruct (decide (sat_add addr size ≤ FREE_VA_SEARCH_END)) as [Hle|Hgt]; rewrite Hsat in *.
  - assert (addr mod GUEST_ALLOC_GRANULARITY = 0) as Hal' by (destruct Hal; [done|lia]).
    destruct (region_is_free_spec t addr size busy Hwf) as (b & -> & Hb);
      [unfold FREE_VA_SEARCH_START, FREE_VA_SEARCH_END in *; lia..|].
    assert (Hiff : b = true ↔ hole t size busy addr) by (unfold hole; tauto).
    destruct b.
    + exists (Some addr). split; [done|]. split_and!; try done; [lia|by apply Hiff].
    + destruct (next_candidate_spec t size busy addr) as (? & ? & Hskip); try done; [lia| |].
      { intros Hh. apply Hiff in Hh. done. }
      split_and!; [lia|done| |lia|lia]. intros a Ha.
      destruct (decide (next_candidate t addr size ≤ a)); [done|].
      pose proof (Hskip a Ha ltac:(lia)). specialize (Hmin a Ha). lia.
  - exists None. split; [done|]. right; right. intros a Ha. pose proof (Hmin a Ha).
    destruct Ha as (_ & _ & ? & _). lia.
Qed.

(** The upward search with its jumps past reservations is a complete
    first-fit: it terminates, the address it returns is the lowest
    64-KiB-aligned hole of the search window, and it answers [None] only when
    the window has no hole (or the size is not a positive multiple of 64 KiB). *)
Theorem find_free_region_spec t size busy :
  wf t → in_u64 size →
  ∃ r, find_free_region t size busy = Ok r ∧
    match r with
    | Some a => 0 < size ∧ size mod GUEST_ALLOC_GRANULARITY = 0 ∧ hole t size busy a ∧
                ∀ a', hole t size busy a' → a ≤ a'
    | None => size = 0 ∨ size mod GUEST_ALLOC_GRANULARITY ≠ 0 ∨ ∀ a, ¬ hole t size busy a
    end.
Proof. apply find_free_region_holds. Qed.

(** The reservation at the start of the window is skipped. *)
Lemma find_free_region_spec_witness :
  find_free_region [sample_node] 0x20000 (λ _, false) = Ok (Some 0x100010000) ∧
  ∀ a', hole [sample_node] 0x20000 (λ _, false) a' → 0x100010000 ≤ a'.
Proof.
  assert (Hwf : wf [sample_node]).
  { split; [repeat constructor; simpl; lia|]. split; repeat constructor. }
  destruct (find_free_region_spec [sample_node] 0x20000 (λ _, false) Hwf) as (r & Hr & Hspec);
    [by vm_compute|].
  assert (He : find_free_region [sample_node] 0x20000 (λ _, false) = Ok (Some 0x100010000))
    by (vm_compute; reflexivity).
  rewrite He in Hr. injection Hr as <-. split; [done|]. apply Hspec.
Defined.

End VadTable.

(** ** Error codes *)

(** A Win32 error code survives being carried in the message text:
    [win32_from_cpu_error] reads back from [va_error] the code that was put
    in, whatever the message. *)
Theorem win32_error_roundtrip code msg :
  0 ≤ code < u32_lim → win32_from_cpu_error (va_error code msg) = Some code.
Proof.
  intros Hc. unfold va_error, win32_from_cpu_error.
  change (strip_prefix "win32(" _) with (Some (fmt_dec code +:+ "): " +:+ msg)).
  unfold fmt_dec. rewrite digits_app. change ("" +:+ ?x) with x. cbn [mbind option_bind].
  rewrite (split_once_digits ")"%char 20 code ("): " +:+ msg) ltac:(set_solver) (proj1 Hc)
    "" (": " +:+ msg) eq_refl).
  by apply parse_u32_fmt_dec.
Qed.

Lemma win32_error_roundtrip_witness :
  win32_from_cpu_error (va_error ERROR_INVALID_ADDRESS "no free VA (gap)") = Some 487.
Proof. apply (win32_error_roundtrip ERROR_INVALID_ADDRESS). unfold ERROR_INVALID_ADDRESS. lia. Defined.
