(* ===== verification/arena.v ===== *)
(** * Host arenas (mem/backend.rs, mem/arena.rs, mem/mmap_arena.rs)

    The host side is explicit: [Host] is the emulator process' own memory, the
    bytes and the protection of every mapped 4-KiB unit, and each arena only
    holds a host pointer into it.  [mmap], [mprotect] and [sysconf] are libc's:
    the class [HostOS] is what the code calls, [HostOSLaws] what it relies on. *)

From S2P Require Import Prelude protect pagemap.

Definition PAGE_SIZE_USIZE : usize := 0x1000.

(** ** The host process *)

Definition PROT_READ : Z := 1.
Definition PROT_WRITE : Z := 2.

(** Bytes never stored are the zeros of a demand-zero page; a unit absent from
    [h_prot] is not mapped. *)
Record Host := mkHost { h_bytes : gmap Z u8; h_prot : gmap Z Z }.

Definition Host_empty : Host := mkHost ∅ ∅.

Class HostOS := {
  os_mmap : Host → usize → option Z;               (** address chosen, or [MAP_FAILED] *)
  os_mprotect_ok : Host → Z → usize → Z → bool;    (** return code 0 *)
  os_sysconf_pagesize : Z;
}.

Definition units (p size : Z) : list Z := seqZ (p / 4096) (size / 4096).

(** mmap(2): the new mapping lies at a non-null page-aligned address, is
    entirely unmapped before, and stays below the end of the address space. *)
Class HostOSLaws (os : HostOS) : Prop := {
  mmap_fresh h size p : os_mmap h size = Some p → 0 < size →
    0 < p ∧ p mod 4096 = 0 ∧ p + size < u64_lim ∧
    (∀ u, u ∈ units p size → h_prot h !! u = None);
  (* a host page is a whole number of 4-KiB units *)
  pagesize_units : os_sysconf_pagesize mod 4096 = 0;
}.

Definition set_units (us : list Z) (prot : Z) (m : gmap Z Z) : gmap Z Z :=
  foldr (λ u, <[u := prot]>) m us.

Definition clear_bytes (p size : Z) (m : gmap Z u8) : gmap Z u8 :=
  filter (λ kv, ¬ (p ≤ kv.1 < p + size)) m.

(** The effects of a successful mmap, munmap and mprotect. *)
Definition host_map (p size : Z) (h : Host) : Host :=
  mkHost (clear_bytes p size (h_bytes h)) (set_units (units p size) (Z.lor PROT_READ PROT_WRITE) (h_prot h)).
Definition host_unmap (p size : Z) (h : Host) : Host :=
  mkHost (h_bytes h) (foldr delete (h_prot h) (units p size)).
Definition host_protect (p size prot : Z) (h : Host) : Host :=
  mkHost (h_bytes h) (set_units (units p size) prot (h_prot h)).

Definition host_byte (h : Host) (p : Z) : u8 := default 0 (h_bytes h !! p).

Definition unit_allows (h : Host) (bit : Z) (p : Z) : bool :=
  match h_prot h !! (p / 4096) with
  | Some prot => bool_decide (Z.land prot bit ≠ 0)
  | None => false
  end.

Fixpoint get_bytes (h : Host) (p : Z) (n : nat) : list u8 :=
  match n with O => [] | S n' => host_byte h p :: get_bytes h (p + 1) n' end.
Fixpoint put_bytes (p : Z) (bs : list u8) (m : gmap Z u8) : gmap Z u8 :=
  match bs with [] => m | b :: bs' => <[p := b]> (put_bytes (p + 1) bs' m) end.

(** A host load or store of a run of bytes: the process dies when a unit it
    touches does not allow the access. *)
Definition host_load (p : Z) (n : nat) (h : Host) : res (list u8) :=
  if forallb (unit_allows h PROT_READ) (seqZ p (Z.of_nat n)) then Ok (get_bytes h p n)
  else Abort HostFault.
Definition host_store (p : Z) (bs : list u8) : M Host unit := λ h,
  if forallb (unit_allows h PROT_WRITE) (seqZ p (Z.of_nat (length bs)))
  then (mkHost (put_bytes p bs (h_bytes h)) (h_prot h), Ok tt)
  else (h, Abort HostFault).

(** ** backend.rs *)

Definition check_map_args (address : u64) (size : usize) : res (u64 * u64) :=
  if decide (size = 0) then Ok (address, address)
  else if negb (is_multiple_of address PAGE_SIZE)
  then Err (Message ("mem_map address " +:+ fmt_hex address +:+ " not page-aligned"))
  else if negb (is_multiple_of size PAGE_SIZE)
  then Err (Message ("mem_map size " +:+ fmt_hex size +:+ " not page-aligned"))
  else match checked_add address size with
       | Some end_ => Ok (address, end_)
       | None => Err (Message ("mem_map overflow at " +:+ fmt_hex address +:+ "+" +:+ fmt_hex size))
       end.

(** ** arena.rs *)

Record MmapArena := mkArena {
  guest_base : u64;
  a_size : usize;
  host : Z;
  perms : u32;
}.
#[global] Instance MmapArena_eq_dec : EqDecision MmapArena.
Proof. solve_decision. Defined.

Definition set_perms (p : u32) (a : MmapArena) : MmapArena :=
  mkArena (guest_base a) (a_size a) (host a) p.

Definition guest_end (a : MmapArena) : u64 := sat_add (guest_base a) (a_size a).

Definition contains_va (a : MmapArena) (va : u64) : bool :=
  bool_decide (guest_base a ≤ va) && bool_decide (va < guest_end a).

Definition is_exact_range (a : MmapArena) (address : u64) (size : usize) : bool :=
  bool_decide (guest_base a = address) && bool_decide (a_size a = size).

Definition arena_page_data_ptr (a : MmapArena) (pkey : u64) : option Z :=
  let va := sat_mul pkey PAGE_SIZE in
  if bool_decide (host a = 0) || negb (contains_va a va) then None
  else
    let off := sat_sub va (guest_base a) in
    if decide (a_size a ≤ off) then None else Some (host a + off).

(** The arenas together with the host process they live in. *)
Record ArenaSet := mkArenaSet { arenas : list MmapArena; os_state : Host }.

Definition on_host {A} (m : M Host A) : M ArenaSet A :=
  zoom os_state (λ h s, mkArenaSet (arenas s) h) m.

Definition ArenaSet_new (h : Host) : ArenaSet := mkArenaSet [] h.

(** One iteration of the binary search; [inr] carries the final [lo]. *)
Definition candidate_step (l : list MmapArena) (va : u64) (s : nat * nat) : nat * nat + res nat :=
  let '(lo, hi) := s in
  if decide (lo < hi)%nat then
    let mid := (lo + (hi - lo) / 2)%nat in
    match l !! mid with
    | None => inr (Ok lo)
    | Some a => if decide (guest_base a ≤ va) then inl (mid + 1, hi)%nat else inl (lo, mid)
    end
  else inr (Ok lo).

Definition candidate_index (l : list MmapArena) (va : u64) : option nat :=
  match l with
  | [] => None
  | _ =>
      match run_loop (fuel_of (Z.of_nat (length l))) (candidate_step l va) (O, length l) with
      | Ok (S i) => Some i
      | _ => None
      end
  end.

Definition find_va (l : list MmapArena) (va : u64) : option MmapArena :=
  i ← candidate_index l va;
  a ← l !! i;
  if contains_va a va then Some a else None.

(** [find_va_mut]: the arena's index, through which the caller updates it. *)
Definition find_va_mut (l : list MmapArena) (va : u64) : option (nat * MmapArena) :=
  i ← candidate_index l va;
  a ← l !! i;
  if contains_va a va then Some (i, a) else None.

Definition any_overlap (l : list MmapArena) (address end_ : u64) : bool :=
  existsb (λ a, bool_decide (guest_base a < end_) && bool_decide (address < guest_end a)) l.

Definition find_exact (l : list MmapArena) (address : u64) (size : usize) : option nat :=
  position (λ a, is_exact_range a address size) l.

Definition insert (arena : MmapArena) : M ArenaSet unit := λ s,
  let base := guest_base arena in
  let end_ := guest_end arena in
  if any_overlap (arenas s) base end_ then
    (* the rejected arena is dropped: munmap *)
    (mkArenaSet (arenas s) (host_unmap (host arena) (a_size arena) (os_state s)),
     Err (Message ("mmap arena overlap at " +:+ fmt_hex base +:+ "+" +:+ fmt_hex (a_size arena))))
  else
    let pos := default (length (arenas s))
                 (position (λ a, bool_decide (base < guest_base a)) (arenas s)) in
    (mkArenaSet (vec_insert pos arena (arenas s)) (os_state s), Ok tt).

Definition page_data_ptr (l : list MmapArena) (pkey : u64) : option Z :=
  a ← find_va l (sat_mul pkey PAGE_SIZE); arena_page_data_ptr a pkey.

Definition arena_host_base_for_va (l : list MmapArena) (va : u64) : option u64 :=
  a ← find_va l va; if decide (host a = 0) then None else Some (host a).

Definition arena_guest_base_for_va (l : list MmapArena) (va : u64) : option u64 :=
  guest_base <$> find_va l va.

Definition write_ptr (l : list MmapArena) (address : u64) : option Z :=
  a ← find_va l address;
  if decide (host a = 0) then None
  else
    let off := sat_sub address (guest_base a) in
    if decide (a_size a ≤ off) then None else Some (host a + off).

(** [buf[offset .. offset+len].copy_from_slice(src)]. *)
Definition splice (offset : nat) (src buf : list u8) : list u8 :=
  take offset buf ++ src ++ drop (offset + length src) buf.

Definition unmapped (op : string) (va : u64) : CpuError :=
  Message (op +:+ " unmapped " +:+ fmt_hex va).

(** Bytes until the end of the page, of the arena, or of the request. *)
Definition chunk_len (a : MmapArena) (va : u64) (remaining : Z) : Z :=
  let page_off := Z.land va (PAGE_SIZE - 1) in
  let arena_off := sat_sub va (guest_base a) in
  let room_in_page := sat_sub PAGE_SIZE_USIZE page_off in
  let room_in_arena := sat_sub (a_size a) arena_off in
  Z.min (Z.min room_in_page room_in_arena) remaining.

Definition read_body (s : ArenaSet) (x : Z * u64) : M (list u8) (Z * u64 + unit) := λ buf,
  let '(offset, va) := x in
  if decide (offset < Z.of_nat (length buf)) then
    match find_va (arenas s) va with
    | None => (buf, Err (unmapped "mem_read" va))
    | Some arena =>
        let arena_off := sat_sub va (guest_base arena) in
        let remaining := sat_sub (Z.of_nat (length buf)) offset in
        let chunk := chunk_len arena va remaining in
        if decide (chunk = 0) then (buf, Err (unmapped "mem_read" va))
        else if decide (a_size arena < sat_add arena_off chunk)
        then (buf, Err (Message "mem_read arena OOB"))
        else if decide (Z.of_nat (length buf) < sat_add offset chunk)
        then (buf, Err (Message "mem_read slice OOB"))
        else match host_load (host arena + arena_off) (Z.to_nat chunk) (os_state s) with
             | Ok src =>
                 (splice (Z.to_nat offset) src buf,
                  Ok (inl (sat_add offset chunk, sat_add va chunk)))
             | Err e => (buf, Err e)
             | Abort w => (buf, Abort w)
             end
    end
  else (buf, Ok (inr tt)).

(** [read]: fills the caller's buffer, page by page. *)
Definition read (s : ArenaSet) (address : u64) : M (list u8) unit := λ buf,
  match buf with
  | [] => (buf, Ok tt)
  | _ => loopM (fuel_of (Z.of_nat (length buf))) (read_body s) (0, address) buf
  end.

Definition write_body (bytes : list u8) (x : Z * u64) : M ArenaSet (Z * u64 + unit) := λ s,
  let '(offset, va) := x in
  if decide (offset < Z.of_nat (length bytes)) then
    match i ← candidate_index (arenas s) va; arenas s !! i with
    | None => (s, Err (unmapped "mem_write" va))
    | Some arena =>
        if negb (contains_va arena va) then (s, Err (unmapped "mem_write" va))
        else
          let arena_off := sat_sub va (guest_base arena) in
          let remaining := sat_sub (Z.of_nat (length bytes)) offset in
          let chunk := chunk_len arena va remaining in
          if decide (chunk = 0) then (s, Err (unmapped "mem_write" va))
          else if decide (Z.of_nat (length bytes) < sat_add offset chunk)
          then (s, Err (Message "mem_write slice OOB"))
          else if decide (a_size arena < sat_add arena_off chunk)
          then (s, Err (Message "mem_write arena OOB"))
          else
            let src := take (Z.to_nat chunk) (drop (Z.to_nat offset) bytes) in
            (_ ← on_host (host_store (host arena + arena_off) src);
             mret (inl (sat_add offset chunk, sat_add va chunk))) s
    end
  else (s, Ok (inr tt)).

Definition write (address : u64) (bytes : list u8) : M ArenaSet unit :=
  match bytes with
  | [] => mret tt
  | _ => loopM (fuel_of (Z.of_nat (length bytes))) (write_body bytes) (0, address)
  end.

(** One page of the first pass of [map_range]. *)
Definition map_perms_body (end_ : u64) (p : u32) (page_va : u64) : M ArenaSet (u64 + unit) := λ s,
  if decide (page_va < end_) then
    let s' := match find_va_mut (arenas s) page_va with
              | Some (i, _) => mkArenaSet (alter (set_perms p) i (arenas s)) (os_state s)
              | None => s
              end in
    (s', Ok (inl (sat_add page_va PAGE_SIZE)))
  else (s, Ok (inr tt)).

Definition unmap_exact (address : u64) (size : usize) (s : ArenaSet) : ArenaSet :=
  match position (λ a, is_exact_range a address size) (arenas s) with
  | None => s
  | Some i =>
      match arenas s !! i with
      | None => s
      | Some a => mkArenaSet (delete i (arenas s)) (host_unmap (host a) (a_size a) (os_state s))
      end
  end.

(** One page of [discard_range]: the result of the write is dropped. *)
Definition discard_body (size : usize) (x : Z * u64) : M ArenaSet (Z * u64 + unit) := λ s,
  let '(offset, va) := x in
  if decide (offset < size) then
    let remaining := sat_sub size offset in
    let page_off := Z.land va (PAGE_SIZE - 1) in
    let zeros_len := Z.min size PAGE_SIZE_USIZE in
    let chunk := Z.min (Z.min remaining (sat_sub PAGE_SIZE_USIZE page_off)) zeros_len in
    if decide (chunk = 0) then (s, Ok (inr tt))
    else
      match write va (replicate (Z.to_nat chunk) 0) s with
      | (s', Abort w) => (s', Abort w)
      | (s', _) => (s', Ok (inl (sat_add offset chunk, sat_add va chunk)))
      end
  else (s, Ok (inr tt)).

Definition discard_range (address : u64) (size : usize) : M ArenaSet unit :=
  if decide (size = 0) then mret tt
  else loopM (fuel_of size) (discard_body size) (0, address).

Section WithOS.
Context {os : HostOS}.

Definition host_page_size : usize :=
  if decide (0 < os_sysconf_pagesize) then os_sysconf_pagesize else 0x1000.

Definition map_new (base : u64) (size : usize) (p : u32) : M Host MmapArena := λ h,
  if decide (size = 0) then (h, Err (Message "mmap arena size 0"))
  else match os_mmap h size with
       | None => (h, Err (Message ("mmap arena failed for guest " +:+ fmt_hex base +:+ "+" +:+ fmt_hex size)))
       | Some ptr => (host_map ptr size h, Ok (mkArena base size ptr p))
       end.

(** Close a run of unmapped pages as a new arena. *)
Definition map_run (start stop : u64) (p : u32) : M ArenaSet unit :=
  let run_size := sat_sub stop start in
  if decide (0 < run_size) then
    arena ← on_host (map_new start run_size p);
    insert arena
  else mret tt.

(** One page of the second pass of [map_range]. *)
Definition map_second_body (end_ : u64) (p : u32) (x : u64 * option u64)
    : M ArenaSet (u64 * option u64 + option u64) := λ s,
  let '(page_va, run_start) := x in
  if decide (page_va < end_) then
    let next := sat_add page_va PAGE_SIZE in
    match find_va (arenas s) page_va, run_start with
    | Some _, Some start => (_ ← map_run start page_va p; mret (inl (next, None))) s
    | Some _, None => (s, Ok (inl (next, None)))
    | None, None => (s, Ok (inl (next, Some page_va)))
    | None, Some _ => (s, Ok (inl (next, run_start)))
    end
  else (s, Ok (inr run_start)).

Definition map_range (address end_ : u64) (size : usize) (p : u32) : M ArenaSet unit := λ s,
  if decide (address = end_) then (s, Ok tt)
  else match find_exact (arenas s) address size with
  | Some i => (mkArenaSet (alter (set_perms p) i (arenas s)) (os_state s), Ok tt)
  | None =>
      (_ ← loopM (fuel_of (Z.max 0 (end_ - address))) (map_perms_body end_ p) address;
       run_start ← loopM (fuel_of (Z.max 0 (end_ - address))) (map_second_body end_ p) (address, None);
       match run_start with
       | Some start => map_run start end_ p
       | None => mret tt
       end) s
  end.

(** [mprotect_guest_range]: [true] is [Ok(())]. *)
Definition mprotect_guest_range (address : u64) (size : usize) (prot : Z) (s : ArenaSet)
    : ArenaSet * bool :=
  if decide (size = 0) then (s, true)
  else match find_va (arenas s) address with
  | None => (s, true)
  | Some arena =>
      let end_ := sat_add address size in
      if decide (guest_end arena < end_ ∨ address < guest_base arena) then (s, true)
      else if decide (host arena = 0) then (s, true)
      else
        let off := sat_sub address (guest_base arena) in
        let host_ps := host_page_size in
        if bool_decide (host_ps = 0) || negb (is_multiple_of off host_ps)
           || negb (is_multiple_of size host_ps) then (s, true)
        else if decide (a_size arena < sat_add off size) then (s, true)
        else if os_mprotect_ok (os_state s) (host arena + off) size prot
        then (mkArenaSet (arenas s) (host_protect (host arena + off) size prot (os_state s)), true)
        else (s, false)
  end.

(** [MmapArenaBackend::map]. *)
Definition backend_map (address : u64) (size : usize) (p : u32) : M ArenaSet unit :=
  '(address, end_) ← lift (check_map_args address size);
  map_range address end_ size p.

End WithOS.

(** [GuestMemBackend::fetch_into]: shrink the request until a read succeeds. *)
Definition fetch_body (s : ArenaSet) (address : u64) (len : Z) : M (list u8) (Z + Z) := λ out,
  if decide (0 < len) then
    match read s address (take (Z.to_nat len) out) with
    | (dst, Ok _) => (splice 0 dst out, Ok (inr len))
    | (dst, Abort w) => (splice 0 dst out, Abort w)
    | (dst, Err _) => (splice 0 dst out, Ok (inl (sat_sub len 1)))
    end
  else (out, Err (Message ("instruction fetch unmapped " +:+ fmt_hex address))).

Definition fetch_into (s : ArenaSet) (address : u64) : M (list u8) usize := λ out,
  let want := Z.min (Z.of_nat (length out)) 15 in
  if decide (want = 0) then (out, Ok 0)
  else loopM (fuel_of want) (fetch_body s address) want out.

(** ** Specification: translation and guest bytes *)

Definition arena_ok (a : MmapArena) : Prop :=
  0 ≤ guest_base a ∧ guest_base a mod 4096 = 0 ∧ 0 < a_size a ∧ a_size a mod 4096 = 0 ∧
  guest_base a + a_size a < u64_lim ∧ 0 < host a ∧ host a mod 4096 = 0 ∧ host a + a_size a < u64_lim.

(** Soft translation: the host address of a guest address. *)
Definition tr (l : list MmapArena) (va : Z) : option Z :=
  (λ a, host a + (va - guest_base a)) <$> find (λ a, contains_va a va) l.

(** The guest byte at an address, [None] when no arena backs it. *)
Definition byte_at (s : ArenaSet) (va : Z) : option u8 := host_byte (os_state s) <$> tr (arenas s) va.

Record wf (s : ArenaSet) : Prop := {
  wf_arena : Forall arena_ok (arenas s);
  wf_ivl : ivl_wf guest_base guest_end (arenas s);
  wf_inj : ∀ x y p, tr (arenas s) x = Some p → tr (arenas s) y = Some p → x = y;
  wf_mapped : ∀ x p, tr (arenas s) x = Some p → is_Some (h_prot (os_state s) !! (p / 4096));
}.

(** The longest prefix of [va, va+n) that is backed, one byte at a time. *)
Fixpoint prefix_bytes (f : Z → option u8) (va : Z) (n : nat) : list u8 :=
  match n with
  | O => []
  | S n' => match f va with Some b => b :: prefix_bytes f (va + 1) n' | None => [] end
  end.

(** The host protections of the backed bytes of [va, va+n) allow an access. *)
Definition host_allows (s : ArenaSet) (bit va n : Z) : Prop :=
  ∀ x p, va ≤ x < va + n → tr (arenas s) x = Some p → unit_allows (os_state s) bit p = true.

(** ** Lookup *)

Lemma contains_va_spec a va : contains_va a va = true ↔ guest_base a ≤ va < guest_end a.
Proof. apply ivl_contains_spec. Qed.

Lemma guest_end_ok a : arena_ok a → guest_end a = guest_base a + a_size a.
Proof. intros (? & ? & ? & ? & ? & _). unfold guest_end. by rewrite sat_add_lt by lia. Qed.

Lemma candidate_loop l va :
  ivl_wf guest_base guest_end l →
  ∃ lo, run_loop (fuel_of (Z.of_nat (length l))) (candidate_step l va) (O, length l) = Ok lo ∧
    (lo ≤ length l)%nat ∧
    (∀ i a, l !! i = Some a → (i < lo)%nat → guest_base a ≤ va) ∧
    (∀ i a, l !! i = Some a → (lo ≤ i)%nat → va < guest_base a).
Proof.
  intros Hwf.
  set (Inv := λ s : nat * nat, (s.1 ≤ s.2 ≤ length l)%nat ∧
    (∀ i a, l !! i = Some a → (i < s.1)%nat → guest_base a ≤ va) ∧
    (∀ i a, l !! i = Some a → (s.2 ≤ i)%nat → va < guest_base a)).
  apply (run_loop_rule _ Inv (λ r, ∃ lo, r = Ok lo ∧ _)
           (λ s, Z.of_nat s.2 - Z.of_nat s.1)).
  - intros [lo hi] (Hb & Hlo & Hhi). unfold candidate_step. cbn [fst snd] in *.
    case_decide as Hlt; [|exists lo; split_and!; try done; [lia|]; intros; eapply Hhi; [done|lia]].
    set (mid := (lo + (hi - lo) / 2)%nat).
    assert (Hm : (lo ≤ mid < hi)%nat).
    { unfold mid. pose proof (Nat.div_lt (hi - lo) 2). lia. }
    destruct (l !! mid) as [a|] eqn:Ea; [|apply lookup_ge_None in Ea; lia].
    case_decide as Hc; (split; [|cbn [fst snd]; lia]); unfold Inv; cbn [fst snd]; split_and!; try done; try lia.
    + intros i b Hi Hle. destruct (decide (i < mid)%nat).
      * pose proof (ivl_lookup_lt _ _ _ i mid _ _ Hwf Hi Ea ltac:(done)).
        pose proof (ivl_lookup_nonempty _ _ _ i _ Hwf Hi). lia.
      * by replace i with mid in Hi by lia; simplify_eq.
    + intros i b Hi Hle. destruct (decide (mid < i)%nat).
      * pose proof (ivl_lookup_lt _ _ _ mid i _ _ Hwf Ea Hi ltac:(done)).
        pose proof (ivl_lookup_nonempty _ _ _ mid _ Hwf Ea). lia.
      * replace i with mid in Hi by lia. simplify_eq. lia.
  - unfold Inv; simpl. split_and!; try lia. intros i a Hi Hle. apply lookup_lt_Some in Hi. lia.
  - simpl. split; [lia|]. rewrite Z.sub_0_r. apply fuel_of_spec. lia.
Qed.

Lemma find_va_linear_holds l va :
  ivl_wf guest_base guest_end l →
  find_va l va = find (λ a, contains_va a va) l ∧
  find_va_mut l va = list_find (λ a, contains_va a va) l.
Proof.
  intros Hwf. unfold find_va, find_va_mut, candidate_index.
  destruct l as [|a0 l']; [done|]. set (l := a0 :: l') in *. clearbody l. clear a0 l'.
  destruct (candidate_loop l va Hwf) as (lo & -> & Hlen & Hlo & Hhi).
  destruct (list_find _ l) as [[k b]|] eqn:Ef.
  - pose proof Ef as (Hk & Hc%Is_true_true%contains_va_spec & _)%list_find_Some.
    rewrite (list_find_find _ _ _ _ Ef).
    assert (lo = S k) as ->.
    { destruct (decide (lo ≤ k)%nat); [specialize (Hhi _ _ Hk ltac:(done)); lia|].
      destruct (decide (lo = S k)); [done|].
      destruct (lookup_lt_is_Some_2 l (S k)) as [c Hc']; [lia|].
      pose proof (ivl_lookup_lt _ _ _ _ _ _ _ Hwf Hk Hc' ltac:(lia)).
      specialize (Hlo _ _ Hc' ltac:(lia)). lia. }
    simpl. rewrite Hk. simpl. by rewrite (proj2 (contains_va_spec b va) Hc).
  - assert (Hn : ∀ a, a ∈ l → contains_va a va = false).
    { apply list_find_None in Ef. rewrite Forall_forall in Ef. intros a Ha.
      specialize (Ef a Ha). by destruct (contains_va a va). }
    rewrite (find_none_iff _ _ Hn). destruct lo as [|i]; [done|]. simpl.
    destruct (l !! i) as [a|] eqn:Ea; [|done]. simpl.
    by rewrite (Hn a) by (by eapply list_elem_of_lookup_2).
Qed.

(** The binary search of the arena table finds exactly the arena a linear
    scan would: on a sorted, disjoint table [find_va] and [find_va_mut] return
    the arena containing the address (with its index) and nothing otherwise. *)
Theorem find_va_linear l va :
  ivl_wf guest_base guest_end l →
  find_va l va = find (λ a, contains_va a va) l ∧
  find_va_mut l va = list_find (λ a, contains_va a va) l.
Proof. apply find_va_linear_holds. Qed.

Lemma find_va_linear_witness :
  let a := mkArena 0x1000 0x1000 0x700000 7 in let b := mkArena 0x4000 0x2000 0x900000 7 in
  find_va [a; b] 0x5fff = Some b ∧ find_va [a; b] 0x3fff = None.
Proof.
  assert (Hwf : ivl_wf guest_base guest_end
    [mkArena 0x1000 0x1000 0x700000 7; mkArena 0x4000 0x2000 0x900000 7]).
  { split; repeat constructor. done. }
  split.
  - by rewrite (proj1 (find_va_linear _ 0x5fff Hwf)).
  - by rewrite (proj1 (find_va_linear _ 0x3fff Hwf)).
Defined.

(** ** Translation *)

Section Tr.
Context (s : ArenaSet) (Hwf : wf s).

Lemma find_va_find va : find_va (arenas s) va = find (λ a, contains_va a va) (arenas s).
Proof. by apply find_va_linear_holds, wf_ivl. Qed.

Lemma find_va_Some va a :
  find_va (arenas s) va = Some a ↔ a ∈ arenas s ∧ guest_base a ≤ va < guest_end a.
Proof. rewrite find_va_find. apply ivl_find_Some, Hwf. Qed.

Lemma arena_in a : a ∈ arenas s → arena_ok a.
Proof. intros Ha. pose proof (wf_arena _ Hwf) as H. rewrite Forall_forall in H. auto. Qed.

Lemma tr_find_va va : tr (arenas s) va = (λ a, host a + (va - guest_base a)) <$> find_va (arenas s) va.
Proof. unfold tr. by rewrite find_va_find. Qed.

Lemma tr_Some va p :
  tr (arenas s) va = Some p ↔
  ∃ a, a ∈ arenas s ∧ guest_base a ≤ va < guest_base a + a_size a ∧ p = host a + (va - guest_base a).
Proof.
  rewrite tr_find_va, fmap_Some. split.
  - intros (a & [Ha Hva]%find_va_Some & ->). exists a. by rewrite <- guest_end_ok by (by apply arena_in).
  - intros (a & Ha & Hva & ->). exists a. split; [|done]. apply find_va_Some.
    by rewrite guest_end_ok by (by apply arena_in).
Qed.

Lemma tr_None va : tr (arenas s) va = None ↔ find_va (arenas s) va = None.
Proof. by rewrite tr_find_va, fmap_None. Qed.

(** Translation is page-wise: a page is backed as a whole and contiguously. *)
Lemma tr_page va y :
  y / 4096 = va / 4096 → tr (arenas s) y = (λ p, p + (y - va)) <$> tr (arenas s) va.
Proof.
  intros Hpage. assert (Hhalf : ∀ x z p, x / 4096 = z / 4096 → tr (arenas s) x = Some p →
    tr (arenas s) z = Some (p + (z - x))).
  { intros x z p Hxz (a & Ha & Hva & ->)%tr_Some. apply tr_Some. exists a.
    split; [done|]. split; [|lia]. destruct (arena_in a Ha) as (? & Hb & ? & Hs & _).
    pose proof (div_4096_bounds x). pose proof (div_4096_bounds z).
    pose proof (div_mul_aligned _ 4096 ltac:(lia) Hb). pose proof (div_mul_aligned _ 4096 ltac:(lia) Hs).
    assert (guest_base a / 4096 ≤ x / 4096) by (apply Z.div_le_mono; lia). lia. }
  destruct (tr (arenas s) va) as [p|] eqn:E; simpl; [by apply Hhalf|].
  destruct (tr (arenas s) y) as [q|] eqn:E'; [|done]. by rewrite (Hhalf y va q) in E.
Qed.

Lemma tr_bounds va p : tr (arenas s) va = Some p → 0 ≤ va < u64_lim - 1 ∧ 0 < p < u64_lim.
Proof.
  intros (a & Ha & Hva & ->)%tr_Some. destruct (arena_in a Ha) as (? & ? & ? & Hs & ? & ? & ? & ?).
  assert (guest_base a + a_size a < u64_lim) by done. lia.
Qed.

Lemma page_data_ptr_spec pkey :
  0 ≤ pkey < 4503599627370496 → page_data_ptr (arenas s) pkey = tr (arenas s) (pkey * 4096).
Proof.
  intros Hp. unfold page_data_ptr, PAGE_SIZE. rewrite sat_mul_lt by lia.
  rewrite tr_find_va. destruct (find_va (arenas s) (pkey * 4096)) as [a|] eqn:E; [|done].
  apply find_va_Some in E as [Ha Hva]. pose proof (arena_in a Ha) as Hok. simpl.
  unfold arena_page_data_ptr, PAGE_SIZE. rewrite sat_mul_lt by lia.
  rewrite (proj2 (contains_va_spec a (pkey * 4096)) Hva). rewrite guest_end_ok in Hva by done.
  destruct Hok as (? & ? & ? & ? & ? & ? & ? & ?).
  rewrite bool_decide_false by lia. simpl. rewrite sat_sub_le by lia. by rewrite decide_False by lia.
Qed.

Lemma write_ptr_spec va : write_ptr (arenas s) va = tr (arenas s) va.
Proof.
  unfold write_ptr. rewrite tr_find_va. destruct (find_va (arenas s) va) as [a|] eqn:E; [|done].
  apply find_va_Some in E as [Ha Hva]. pose proof (arena_in a Ha) as Hok. simpl.
  rewrite guest_end_ok in Hva by done. destruct Hok as (? & ? & ? & ? & ? & ? & ? & ?).
  rewrite decide_False by lia. rewrite sat_sub_le by lia. by rewrite decide_False by lia.
Qed.

(** One chunk of a copy: non-empty, inside the arena, within the request. *)
Lemma chunk_len_spec va a rem :
  find_va (arenas s) va = Some a → 0 < rem →
  let c := chunk_len a va rem in
  0 < c ≤ rem ∧ (va - guest_base a) + c ≤ a_size a ∧ va + c ≤ va / 4096 * 4096 + 4096 ∧
  ∀ i, 0 ≤ i < c → tr (arenas s) (va + i) = Some (host a + (va - guest_base a) + i).
Proof.
  intros E Hrem. apply find_va_Some in E as [Ha Hva]. pose proof (arena_in a Ha) as Hok.
  rewrite guest_end_ok in Hva by done. unfold chunk_len, PAGE_SIZE, PAGE_SIZE_USIZE.
  change (0x1000 - 1) with 4095. rewrite land_4095.
  pose proof (Z.mod_pos_bound va 4096 ltac:(lia)). pose proof (Z.div_mod va 4096 ltac:(lia)).
  unfold sat_sub. split_and!; try lia. intros i Hi. apply tr_Some. exists a.
  split; [done|]. lia.
Qed.

End Tr.

(** ** Host bytes *)

Lemma get_bytes_length h p n : length (get_bytes h p n) = n.
Proof. revert p. induction n; intros; simpl; auto. Qed.

Lemma put_bytes_lookup p bs m q :
  put_bytes p bs m !! q =
    if decide (p ≤ q < p + Z.of_nat (length bs)) then bs !! Z.to_nat (q - p) else m !! q.
Proof.
  revert p. induction bs as [|b bs IH]; intros p; simpl; [by rewrite decide_False by lia|].
  destruct (decide (p = q)) as [->|Hne].
  - rewrite lookup_insert_eq, decide_True by lia. by rewrite Z.sub_diag.
  - rewrite lookup_insert_ne, IH by done. repeat case_decide; try lia; [|done].
    replace (Z.to_nat (q - p)) with (S (Z.to_nat (q - (p + 1)))) by lia. done.
Qed.

Lemma prefix_bytes_le f va n : (length (prefix_bytes f va n) ≤ n)%nat.
Proof.
  revert va. induction n as [|n IH]; intros va; simpl; [done|].
  destruct (f va); simpl; [specialize (IH (va + 1)); lia|lia].
Qed.

(** A backed run of host bytes is a prefix. *)
Lemma prefix_bytes_run (s : ArenaSet) va p c n :
  (∀ i, 0 ≤ i < Z.of_nat c → tr (arenas s) (va + i) = Some (p + i)) →
  prefix_bytes (byte_at s) va (c + n) =
    get_bytes (os_state s) p c ++ prefix_bytes (byte_at s) (va + Z.of_nat c) n.
Proof.
  revert va p. induction c as [|c IH]; intros va p Htr.
  - simpl. by rewrite Z.add_0_r.
  - cbn [prefix_bytes plus get_bytes app]. unfold byte_at at 1.
    pose proof (Htr 0 ltac:(lia)) as H0. rewrite !Z.add_0_r in H0. rewrite H0. simpl.
    f_equal. rewrite (IH (va + 1) (p + 1)).
    + do 2 f_equal. lia.
    + intros i Hi. replace (va + 1 + i) with (va + (i + 1)) by lia. rewrite Htr by lia. f_equal. lia.
Qed.

Lemma host_load_ok h p n :
  (∀ q, p ≤ q < p + Z.of_nat n → unit_allows h PROT_READ q = true) →
  host_load p n h = Ok (get_bytes h p n).
Proof.
  intros H. unfold host_load.
  assert (forallb (unit_allows h PROT_READ) (seqZ p (Z.of_nat n)) = true) as ->; [|done].
  apply forallb_forall. intros q Hq%list_elem_of_In. apply H. apply elem_of_seqZ in Hq. lia.
Qed.

Lemma host_store_ok h p bs :
  (∀ q, p ≤ q < p + Z.of_nat (length bs) → unit_allows h PROT_WRITE q = true) →
  host_store p bs h = (mkHost (put_bytes p bs (h_bytes h)) (h_prot h), Ok tt).
Proof.
  intros H. unfold host_store.
  assert (forallb (unit_allows h PROT_WRITE) (seqZ p (Z.of_nat (length bs))) = true) as ->; [|done].
  apply forallb_forall. intros q Hq%list_elem_of_In. apply H. apply elem_of_seqZ in Hq. lia.
Qed.

Lemma splice_splice o a b buf :
  splice (o + length a) b (splice o a buf) = splice o (a ++ b) buf \/ (length buf < o)%nat.
Proof.
  destruct (decide (length buf < o)%nat); [by right|]. left. unfold splice.
  rewrite length_app.
  assert (Hl : length (take o buf ++ a) = (o + length a)%nat) by (rewrite length_app, length_take; lia).
  rewrite (app_assoc (take o buf) a), take_app_le by lia. rewrite take_ge by lia.
  rewrite <- !app_assoc. do 3 f_equal. rewrite app_assoc.
  rewrite drop_app_ge by lia. rewrite Hl, drop_drop. f_equal. lia.
Qed.

Lemma splice_length o a buf :
  (o + length a ≤ length buf)%nat → length (splice o a buf) = length buf.
Proof. intros. unfold splice. rewrite !length_app, length_take, length_drop. lia. Qed.

(** The arithmetic of one chunk, without saturation. *)
Lemma chunk_facts s va a L off va0 :
  wf s → find_va (arenas s) va = Some a → 0 ≤ off < L → va = va0 + off → 0 ≤ va0 →
  let c := chunk_len a va (L - off) in
  sat_sub va (guest_base a) = va - guest_base a ∧ sat_sub L off = L - off ∧
  0 < c ≤ L - off ∧ sat_add (va - guest_base a) c ≤ a_size a ∧
  sat_add off c = off + c ∧ sat_add va c = va + c ∧
  ∀ i, 0 ≤ i < c → tr (arenas s) (va + i) = Some (host a + (va - guest_base a) + i).
Proof.
  intros Hwf Efind Hoff Hva Hva0.
  destruct (chunk_len_spec s Hwf va a (L - off) Efind ltac:(lia)) as (Hc & Hca & _ & Htr).
  set (c := chunk_len a va (L - off)) in *. clearbody c.
  assert (Hlim : va + c < u64_lim).
  { pose proof (Htr (c - 1) ltac:(lia)) as Hl. apply (tr_bounds s Hwf) in Hl. lia. }
  apply (find_va_Some s Hwf) in Efind as [Ha Hin].
  unfold sat_add, sat_sub. split_and!; try done; lia.
Qed.

(** ** [read] *)

(** What is left to do from [offset]. *)
Definition read_result (s : ArenaSet) (offset : nat) (va : Z) (buf : list u8) : list u8 * res unit :=
  let n := (length buf - offset)%nat in
  let bs := prefix_bytes (byte_at s) va n in
  (splice offset bs buf,
   if decide (length bs = n) then Ok tt else Err (unmapped "mem_read" (va + Z.of_nat (length bs)))).

Lemma host_allows_chunk s bit va n p c :
  host_allows s bit va n → c ≤ n →
  (∀ i, 0 ≤ i < c → tr (arenas s) (va + i) = Some (p + i)) →
  ∀ q, p ≤ q < p + c → unit_allows (os_state s) bit q = true.
Proof.
  intros Hal Hc Htr q Hq. apply (Hal (va + (q - p))); [lia|].
  rewrite Htr by lia. f_equal. lia.
Qed.

(** One chunk makes progress towards the result. *)
Lemma read_chunk s va offset c src buf :
  (offset + c ≤ length buf)%nat → length src = c →
  prefix_bytes (byte_at s) va (length buf - offset) =
    src ++ prefix_bytes (byte_at s) (va + Z.of_nat c) (length buf - offset - c) →
  read_result s (offset + c) (va + Z.of_nat c) (splice offset src buf) = read_result s offset va buf.
Proof.
  intros Hle Hsrc Hpre. unfold read_result.
  assert (Hlen : length (splice offset src buf) = length buf) by (apply splice_length; lia).
  rewrite Hlen. replace (length buf - (offset + c))%nat with (length buf - offset - c)%nat by lia.
  rewrite Hpre. set (bs := prefix_bytes _ _ (length buf - offset - c)). rewrite length_app.
  f_equal.
  - rewrite <- Hsrc. destruct (splice_splice offset src bs buf) as [->|]; [done|lia].
  - rewrite Hsrc. repeat case_decide; try lia; [done|]. do 2 f_equal. lia.
Qed.

Lemma splice_nil o buf : splice o [] buf = buf.
Proof. unfold splice. simpl. by rewrite Nat.add_0_r, take_drop. Qed.

(** Reading a guest range is byte-wise: [read] fills the buffer with the
    backed bytes in order and fails at the first address no arena backs, with
    exactly the bytes before it transferred, however pages and arenas chop the
    range up. *)
Lemma arena_read_spec s va buf :
  wf s → 0 ≤ va → host_allows s PROT_READ va (Z.of_nat (length buf)) →
  read s va buf = read_result s 0 va buf.
Proof.
  intros Hwf Hva Hal. unfold read. destruct buf as [|b0 buf0] eqn:Eb; [done|]. rewrite <- Eb in *.
  clear Eb b0 buf0. rename buf into buf0. set (L := length buf0) in *.
  set (Inv := λ (x : Z * u64) (buf : list u8), 0 ≤ x.1 ≤ Z.of_nat L ∧ x.2 = va + x.1 ∧
    length buf = L ∧ read_result s (Z.to_nat x.1) x.2 buf = read_result s 0 va buf0).
  cut ((loopM (fuel_of (Z.of_nat L)) (read_body s) (0, va) buf0).1 = (read_result s 0 va buf0).1 ∧
       (loopM (fuel_of (Z.of_nat L)) (read_body s) (0, va) buf0).2 = (read_result s 0 va buf0).2).
  { destruct (loopM _ _ _ _), (read_result _ _ _ _). simpl. by intros [-> ->]. }
  apply (loopM_rule (read_body s) Inv
    (λ b r, b = (read_result s 0 va buf0).1 ∧ r = (read_result s 0 va buf0).2)
    (λ x, Z.of_nat L - x.1)).
  2:{ unfold Inv. simpl. split_and!; lia || done. }
  2:{ cbn [fst snd]. split; [lia|]. rewrite Z.sub_0_r. apply fuel_of_spec. lia. }
  intros [offset va'] buf (Hoff & Hva' & Hlen & Hres). cbn [fst snd] in *. unfold read_body.
  rewrite Hlen, <- Hres. case_decide as Hlt.
  2:{ assert (offset = Z.of_nat L) as -> by lia. unfold read_result.
      rewrite Nat2Z.id, Hlen, Nat.sub_diag. cbn [prefix_bytes]. simpl. split; [|done].
      by rewrite splice_nil. }
  destruct (find_va (arenas s) va') as [a|] eqn:Efind.
  2:{ unfold read_result. destruct (length buf - Z.to_nat offset)%nat as [|n] eqn:En; [lia|].
      assert (byte_at s va' = None) as Hnone by (unfold byte_at; by rewrite (proj2 (tr_None s Hwf va') Efind)).
      cbn [prefix_bytes]. rewrite Hnone. simpl. rewrite Z.add_0_r. split; [|done].
      by rewrite splice_nil. }
  destruct (chunk_facts s va' a (Z.of_nat L) offset va Hwf Efind) as (Hs1 & Hs2 & Hc & Hca & Ho & Hv & Htr);
    [lia..|]. rewrite Hs2, Hs1.
  set (c := chunk_len a va' (Z.of_nat L - offset)) in *. clearbody c.
  rewrite decide_False, decide_False, decide_False, Ho, Hv by lia.
  rewrite host_load_ok.
  2:{ rewrite Z2Nat.id by lia. apply (host_allows_chunk s PROT_READ va' c); [|lia|done].
      intros x p Hx. apply Hal. lia. }
  set (src := get_bytes (os_state s) (host a + (va' - guest_base a)) (Z.to_nat c)).
  assert (Hsrc : length src = Z.to_nat c) by apply get_bytes_length.
  split; [|cbn [fst snd]; lia]. unfold Inv. cbn [fst snd]. split_and!; [lia..| |].
  - rewrite splice_length; lia.
  - rewrite <- Hres. rewrite Z2Nat.inj_add by lia.
    replace (va' + c) with (va' + Z.of_nat (Z.to_nat c)) by lia.
    apply read_chunk; [lia|done|]. unfold src. rewrite <- prefix_bytes_run; [f_equal; lia|].
    intros i Hi. apply Htr. lia.
Qed.

(** ** [write] *)

Lemma prefix_bytes_ge f va n k :
  (k ≤ n)%nat → (∀ i, 0 ≤ i < Z.of_nat k → is_Some (f (va + i))) →
  (k ≤ length (prefix_bytes f va n))%nat.
Proof.
  revert va n. induction k as [|k IH]; intros va n Hk Hf; [lia|].
  destruct n as [|n]; [lia|]. cbn [prefix_bytes].
  destruct (Hf 0 ltac:(lia)) as [b Hb]. rewrite Z.add_0_r in Hb. rewrite Hb. simpl.
  apply le_n_S, IH; [lia|]. intros i Hi. replace (va + 1 + i) with (va + (i + 1)) by lia.
  apply Hf. lia.
Qed.

Lemma prefix_bytes_stop f va n k :
  (k < n)%nat → f (va + Z.of_nat k) = None → (length (prefix_bytes f va n) ≤ k)%nat.
Proof.
  revert va n. induction k as [|k IH]; intros va n Hk Hf.
  - destruct n; [lia|]. cbn [prefix_bytes]. rewrite Z.add_0_r in Hf. by rewrite Hf.
  - destruct n as [|n]; [lia|]. cbn [prefix_bytes]. destruct (f va); simpl; [|lia].
    apply le_n_S, IH; [lia|]. by replace (va + 1 + Z.of_nat k) with (va + Z.of_nat (S k)) by lia.
Qed.

Lemma prefix_bytes_lookup f va n k :
  (k < length (prefix_bytes f va n))%nat →
  prefix_bytes f va n !! k = f (va + Z.of_nat k) ∧ is_Some (f (va + Z.of_nat k)).
Proof.
  revert va n. induction k as [|k IH]; intros va [|n] Hk; simpl in Hk; try lia;
    cbn [prefix_bytes]; destruct (f va) as [b|] eqn:E; simpl in *; try lia.
  - rewrite Z.add_0_r, E. eauto.
  - replace (va + Z.of_nat (S k)) with (va + 1 + Z.of_nat k) by lia. apply IH. lia.
Qed.

Lemma byte_at_is_Some s x : is_Some (byte_at s x) ↔ is_Some (tr (arenas s) x).
Proof. unfold byte_at. by rewrite fmap_is_Some. Qed.

(** A store through the translation changes exactly the bytes of its range. *)
Lemma store_byte_at s va p src :
  wf s →
  (∀ i, 0 ≤ i < Z.of_nat (length src) → tr (arenas s) (va + i) = Some (p + i)) →
  let s' := mkArenaSet (arenas s) (mkHost (put_bytes p src (h_bytes (os_state s))) (h_prot (os_state s))) in
  wf s' ∧
  ∀ x, byte_at s' x = if decide (va ≤ x < va + Z.of_nat (length src))
                      then src !! Z.to_nat (x - va) else byte_at s x.
Proof.
  intros Hwf Htr s'. split; [by destruct Hwf|]. intros x. unfold byte_at, host_byte, s'. simpl.
  case_decide as Hx.
  - replace x with (va + (x - va)) at 1 by lia. rewrite Htr by lia. simpl.
    rewrite put_bytes_lookup, decide_True by lia. replace (p + (x - va) - p) with (x - va) by lia.
    destruct (src !! Z.to_nat (x - va)) as [b|] eqn:E; [done|]. apply lookup_ge_None in E. lia.
  - destruct (tr (arenas s) x) as [q|] eqn:E; [|done]. simpl.
    rewrite put_bytes_lookup, decide_False; [done|]. intros Hq. apply Hx.
    pose proof (Htr (q - p) ltac:(lia)) as Hq'. replace (p + (q - p)) with q in Hq' by lia.
    rewrite (wf_inj _ Hwf x _ q E Hq'). lia.
Qed.

(** The state after the first [k] bytes have been written. *)
Record written (s : ArenaSet) (va : Z) (bytes : list u8) (k : nat) (s' : ArenaSet) : Prop := {
  wr_wf : wf s';
  wr_arenas : arenas s' = arenas s;
  wr_prot : h_prot (os_state s') = h_prot (os_state s);
  wr_bytes : ∀ x, byte_at s' x = if decide (va ≤ x < va + Z.of_nat k)
                                 then bytes !! Z.to_nat (x - va) else byte_at s x;
}.

Lemma written_nil s va bytes : wf s → written s va bytes 0 s.
Proof. intros. split; try done. intros x. by rewrite decide_False by lia. Qed.

Lemma written_chunk s va bytes off c p s1 :
  written s va bytes off s1 → (off + c ≤ length bytes)%nat →
  (∀ i, 0 ≤ i < Z.of_nat c → tr (arenas s) (va + Z.of_nat off + i) = Some (p + i)) →
  written s va bytes (off + c)
    (mkArenaSet (arenas s1)
       (mkHost (put_bytes p (take c (drop off bytes)) (h_bytes (os_state s1))) (h_prot (os_state s1)))).
Proof.
  intros [Hwf Ha Hp Hb] Hlen Htr.
  assert (Hl : length (take c (drop off bytes)) = c) by (rewrite length_take, length_drop; lia).
  destruct (store_byte_at s1 (va + Z.of_nat off) p (take c (drop off bytes)) Hwf) as [Hwf' Hb'].
  { rewrite Hl, Ha. done. }
  split; [done|done|done|]. intros x. rewrite Hb', Hl, Hb. repeat case_decide; try done; try lia.
  rewrite lookup_take_lt, lookup_drop by lia. f_equal. lia.
Qed.

Lemma unit_allows_prot h h' bit p : h_prot h = h_prot h' → unit_allows h bit p = unit_allows h' bit p.
Proof. unfold unit_allows. by intros ->. Qed.

Section WriteLoop.
Context (s : ArenaSet) (va : Z) (bytes : list u8).
Context (Hva : 0 ≤ va)
  (Hal : host_allows s PROT_WRITE va (Z.of_nat (length bytes))).

Definition write_len : nat := length (prefix_bytes (byte_at s) va (length bytes)).

Definition write_inv (x : Z * u64) (s' : ArenaSet) : Prop :=
  0 ≤ x.1 ≤ Z.of_nat (length bytes) ∧ x.2 = va + x.1 ∧
  (Z.to_nat x.1 ≤ write_len)%nat ∧ written s va bytes (Z.to_nat x.1) s'.

Definition write_post (s' : ArenaSet) (r : res unit) : Prop :=
  r = (if decide (write_len = length bytes) then Ok tt
       else Err (unmapped "mem_write" (va + Z.of_nat write_len))) ∧
  written s va bytes write_len s'.

Lemma write_stop x s1 :
  write_inv x s1 → x.1 < Z.of_nat (length bytes) → find_va (arenas s1) x.2 = None →
  write_post s1 (Err (unmapped "mem_write" x.2)).
Proof.
  destruct x as [offset va']. intros (Hoff & Hva' & Hk & Hw) Hlt Hn. cbn [fst snd] in *.
  assert (write_len = Z.to_nat offset) as Hl.
  { apply (tr_None s1 (wr_wf _ _ _ _ _ Hw)) in Hn. rewrite (wr_arenas _ _ _ _ _ Hw) in Hn.
    enough (write_len ≤ Z.to_nat offset)%nat by lia. apply prefix_bytes_stop; [lia|]. unfold byte_at.
    by replace (va + Z.of_nat (Z.to_nat offset)) with va' by lia; rewrite Hn. }
  unfold write_post. rewrite Hl, decide_False by lia. split; [|done]. do 2 f_equal. lia.
Qed.

Lemma write_chunk offset va' s1 a p c :
  write_inv (offset, va') s1 → 0 < c ≤ Z.of_nat (length bytes) - offset →
  (∀ i, 0 ≤ i < c → tr (arenas s1) (va' + i) = Some (p + i)) →
  a = take (Z.to_nat c) (drop (Z.to_nat offset) bytes) →
  ∃ s2, on_host (host_store p a) s1 = (s2, Ok tt) ∧ write_inv (offset + c, va' + c) s2.
Proof.
  intros (Hoff & Hva' & Hk & Hw) Hc Htr ->. cbn [fst snd] in *.
  pose proof (wr_arenas _ _ _ _ _ Hw) as Ha1. rewrite Ha1 in Htr.
  assert (Hlc : length (take (Z.to_nat c) (drop (Z.to_nat offset) bytes)) = Z.to_nat c)
    by (rewrite length_take, length_drop; lia).
  unfold on_host, zoom. rewrite host_store_ok.
  2:{ rewrite Hlc, Z2Nat.id by lia.
      intros q Hq. rewrite (unit_allows_prot _ (os_state s)) by apply Hw.
      apply (host_allows_chunk s PROT_WRITE va' c p c); [|lia|done|lia].
      intros x q' Hx. apply Hal. lia. }
  eexists; split; [reflexivity|]. unfold write_inv. cbn [fst snd]. rewrite Z2Nat.inj_add by lia.
  split_and!; try lia.
  - apply prefix_bytes_ge; [lia|]. intros j Hj. apply byte_at_is_Some.
    destruct (decide (j < offset)) as [Hjo|Hjo].
    + apply byte_at_is_Some.
      destruct (prefix_bytes_lookup (byte_at s) va (length bytes) (Z.to_nat j)) as [_ Hs];
        [unfold write_len in Hk; lia|].
      by rewrite Z2Nat.id in Hs by lia.
    + replace (va + j) with (va' + (j - offset)) by lia. rewrite Htr by lia. eauto.
  - apply written_chunk; [done|lia|]. intros j Hj.
    replace (va + Z.of_nat (Z.to_nat offset) + j) with (va' + j) by lia. apply Htr. lia.
Qed.

Lemma write_body_spec x s1 :
  write_inv x s1 →
  match write_body bytes x s1 with
  | (s', Ok (inl x')) => write_inv x' s' ∧
      0 ≤ Z.of_nat (length bytes) - x'.1 < Z.of_nat (length bytes) - x.1
  | (s', Ok (inr _)) => write_post s' (Ok tt)
  | (s', Err e) => write_post s' (Err e)
  | (s', Abort w) => write_post s' (Abort w)
  end.
Proof.
  intros Hinv. pose proof (write_stop x s1 Hinv) as Hstop.
  destruct x as [offset va']. pose proof Hinv as (Hoff & Hva' & Hk & Hw). cbn [fst snd] in *.
  pose proof (wr_wf _ _ _ _ _ Hw) as Hwf1. unfold write_body.
  pose proof (prefix_bytes_le (byte_at s) va (length bytes)) as HkL. fold write_len in HkL.
  case_decide as Hlt.
  2:{ assert (Hl : write_len = length bytes) by lia. unfold write_post. rewrite Hl, decide_True by done.
      by replace (length bytes) with (Z.to_nat offset) by lia. }
  specialize (Hstop Hlt). unfold find_va in Hstop.
  destruct (candidate_index (arenas s1) va') as [i|] eqn:Eci; simpl in *; [|by apply Hstop].
  destruct (arenas s1 !! i) as [a|] eqn:Ea; simpl in *; [|by apply Hstop].
  destruct (contains_va a va') eqn:Ec; simpl; [|by apply Hstop]. clear Hstop.
  assert (Efind : find_va (arenas s1) va' = Some a).
  { unfold find_va. rewrite Eci. simpl. rewrite Ea. simpl. by rewrite Ec. }
  destruct (chunk_facts s1 va' a (Z.of_nat (length bytes)) offset va Hwf1 Efind)
    as (Hs1 & Hs2 & Hc & Hca & Ho & Hv & Htr); [lia..|]. rewrite Hs2, Hs1.
  set (c := chunk_len a va' (Z.of_nat (length bytes) - offset)) in *. clearbody c.
  rewrite decide_False, decide_False, decide_False, Ho, Hv by lia.
  destruct (write_chunk offset va' s1 _ _ c Hinv Hc Htr eq_refl) as (s2 & Hst & Hinv').
  unfold mbind, M_bind. rewrite Hst. split; [done|]. simpl. lia.
Qed.
End WriteLoop.

(** Writing a guest range is byte-wise: exactly the bytes up to the first
    address no arena backs are stored and every other guest byte keeps its
    value (distinct guest addresses never share a host byte); success means the
    whole range was stored, failure names that first address. *)
Lemma arena_write_spec s va bytes :
  wf s → 0 ≤ va → host_allows s PROT_WRITE va (Z.of_nat (length bytes)) →
  let k := write_len s va bytes in
  ∃ s', write va bytes s =
      (s', if decide (k = length bytes) then Ok tt
           else Err (unmapped "mem_write" (va + Z.of_nat k))) ∧
    written s va bytes k s'.
Proof.
  intros Hwf Hva Hal k. unfold write. destruct (decide (bytes = [])) as [->|Hne].
  { exists s. split; [done|]. by apply written_nil. }
  assert (Hcase : ∀ m m' : M ArenaSet unit, (match bytes with [] => m | _ :: _ => m' end) = m')
    by (by destruct bytes).
  rewrite Hcase. set (l := loopM _ _ _ s).
  cut (write_post s va bytes l.1 l.2).
  { destruct l as [s' r]. intros [Hr Hw]. simpl in *. subst r. by exists s'. }
  apply (loopM_rule (write_body bytes) (write_inv s va bytes) (write_post s va bytes)
    (λ x, Z.of_nat (length bytes) - x.1)).
  - intros x s1 Hx. pose proof (write_body_spec s va bytes Hva Hal x s1 Hx) as H.
    by destruct (write_body bytes x s1) as [s' [[x'|[]]|e|w]].
  - unfold write_inv. simpl. split_and!; try lia. by apply written_nil.
  - cbn [fst snd]. split; [lia|]. rewrite Z.sub_0_r. apply fuel_of_spec. lia.
Qed.

(** ** Host mappings *)

Lemma set_units_lookup us prot m u :
  set_units us prot m !! u = if decide (u ∈ us) then Some prot else m !! u.
Proof.
  unfold set_units. induction us as [|v us IH]; cbn [foldr]; [by rewrite decide_False by set_solver|].
  destruct (decide (v = u)) as [->|Hne].
  - by rewrite lookup_insert_eq, decide_True by left.
  - rewrite lookup_insert_ne, IH by done. apply decide_ext. rewrite elem_of_cons. naive_solver.
Qed.

Lemma delete_units_lookup (us : list Z) (m : gmap Z Z) u :
  foldr delete m us !! u = if decide (u ∈ us) then None else m !! u.
Proof. apply lookup_remove_keys. Qed.

Lemma elem_of_units p size q :
  p mod 4096 = 0 → size mod 4096 = 0 → 0 ≤ size → q / 4096 ∈ units p size ↔ p ≤ q < p + size.
Proof.
  intros Hp Hs Hs0. unfold units. rewrite elem_of_seqZ.
  pose proof (div_mul_aligned p 4096 ltac:(lia) Hp). pose proof (div_mul_aligned size 4096 ltac:(lia) Hs).
  pose proof (div_4096_bounds q). lia.
Qed.

Lemma clear_bytes_lookup p size m q :
  clear_bytes p size m !! q = if decide (p ≤ q < p + size) then None else m !! q.
Proof.
  unfold clear_bytes. apply option_eq. intros b. rewrite map_lookup_filter_Some. simpl.
  case_decide; [split; [tauto|done]|tauto].
Qed.

(** ** [map_range] *)

(** [s'] backs more of [lo, hi) than [s]: what was backed keeps its
    translation, byte and protection, what is new is zero and read-write. *)
Record extends (s s' : ArenaSet) (lo hi : Z) : Prop := {
  ext_wf : wf s';
  ext_tr : ∀ x p, tr (arenas s) x = Some p → tr (arenas s') x = Some p;
  ext_byte : ∀ x, is_Some (tr (arenas s) x) → byte_at s' x = byte_at s x;
  ext_prot : ∀ u, is_Some (h_prot (os_state s) !! u) → h_prot (os_state s') !! u = h_prot (os_state s) !! u;
  ext_new : ∀ x p, tr (arenas s) x = None → tr (arenas s') x = Some p →
    lo ≤ x < hi ∧ byte_at s' x = Some 0 ∧
    h_prot (os_state s') !! (p / 4096) = Some (Z.lor PROT_READ PROT_WRITE);
}.

Lemma extends_refl s lo hi : wf s → extends s s lo hi.
Proof. intros. split; try done. intros x p H1 H2. congruence. Qed.

Lemma extends_trans s1 s2 s3 lo hi : extends s1 s2 lo hi → extends s2 s3 lo hi → extends s1 s3 lo hi.
Proof.
  intros H12 H23. split.
  - apply H23.
  - intros. by apply (ext_tr _ _ _ _ H23), (ext_tr _ _ _ _ H12).
  - intros x Hx. rewrite (ext_byte _ _ _ _ H23); [by apply H12|].
    destruct Hx as [p Hp]. exists p. by apply (ext_tr _ _ _ _ H12).
  - intros u Hu. rewrite (ext_prot _ _ _ _ H23); [by apply H12|].
    by rewrite (ext_prot _ _ _ _ H12).
  - intros x p Hn Hp. destruct (tr (arenas s2) x) as [q|] eqn:E.
    + destruct (ext_new _ _ _ _ H12 x q Hn E) as (? & Hb & Hpr).
      pose proof (ext_tr _ _ _ _ H23 x q E) as Hq. simplify_eq. split_and!; try done; try lia.
      * rewrite (ext_byte _ _ _ _ H23); eauto.
      * rewrite (ext_prot _ _ _ _ H23); [done|]. rewrite Hpr. eauto.
    + by apply (ext_new _ _ _ _ H23).
Qed.

(** Geometry: two tables whose arenas differ only in [perms]. *)
Definition geom (a : MmapArena) : u64 * usize * Z := (guest_base a, a_size a, host a).

Lemma geom_alter (i : nat) p (l : list MmapArena) : geom <$> alter (set_perms p) i l = geom <$> l.
Proof.
  revert i. induction l as [|a l IH]; intros [|i]; simpl; [done|done|by destruct a|].
  f_equal. apply IH.
Qed.

Lemma geom_inv (l l' : list MmapArena) : geom <$> l = geom <$> l' →
  (∀ x, tr l x = tr l' x) ∧ (Forall arena_ok l → Forall arena_ok l') ∧
  (ivl_wf guest_base guest_end l → ivl_wf guest_base guest_end l').
Proof.
  revert l'. induction l as [|a l IH]; intros [|a' l'] Hg; try done.
  injection Hg as Hb Hs Hh Hg. destruct (IH l' Hg) as (Htr & Hok & Hiv).
  assert (Hge : guest_end a' = guest_end a) by (unfold guest_end; congruence).
  split_and!.
  - intros x. specialize (Htr x). unfold tr in *. simpl.
    assert (contains_va a x = contains_va a' x) as -> by (unfold contains_va; by rewrite Hb, Hge).
    destruct (contains_va a' x); [|done]. simpl. congruence.
  - intros [H1 H2]%Forall_cons. constructor; [|auto]. unfold arena_ok in *.
    by rewrite <- Hb, <- Hs, <- Hh.
  - intros (Hw & Hne & Hall)%ivl_wf_cons_inv. destruct (Hiv Hw) as [Hs' Hn'].
    split; [constructor; [done|]|constructor; [lia|done]].
    rewrite Hge. apply Forall_forall. intros y Hy.
    assert (Hin : guest_base y ∈ guest_base <$> l).
    { assert (Hc : ∀ k : list MmapArena, guest_base <$> k = (λ g : u64 * usize * Z, g.1.1) <$> (geom <$> k)).
      { intros k. by rewrite <- list_fmap_compose. }
      rewrite Hc. change (list_fmap _ _ geom l) with (geom <$> l) in Hg. rewrite Hg, <- Hc.
      by apply (list_elem_of_fmap_2 guest_base). }
    apply list_elem_of_fmap in Hin as (z & -> & Hz). by apply Hall.
Qed.

Lemma set_perms_extends s i p lo hi :
  wf s → extends s (mkArenaSet (alter (set_perms p) i (arenas s)) (os_state s)) lo hi.
Proof.
  intros [Hok Hiv Hinj Hmap].
  destruct (geom_inv (arenas s) (alter (set_perms p) i (arenas s))) as (Htr & Hok' & Hiv').
  { by rewrite geom_alter. }
  split; simpl.
  - split; simpl; [auto|auto| |]; intros *; rewrite <- !Htr; [apply Hinj|apply Hmap].
  - intros x q. by rewrite <- Htr.
  - intros x _. unfold byte_at. simpl. by rewrite <- Htr.
  - done.
  - intros x q. rewrite <- Htr. congruence.
Qed.

(** An unbacked range overlaps no arena. *)
Lemma unbacked_no_overlap s lo hi :
  wf s → lo < hi → (∀ x, lo ≤ x < hi → tr (arenas s) x = None) →
  any_overlap (arenas s) lo hi = false.
Proof.
  intros Hwf Hlt Hun. apply (ivl_overlaps_false guest_base guest_end). intros n Hn.
  pose proof (guest_end_ok n (arena_in s Hwf n Hn)) as Hen.
  destruct (arena_in s Hwf n Hn) as (? & ? & ? & _).
  destruct (decide (guest_end n ≤ lo)); [by left|].
  destruct (decide (hi ≤ guest_base n)); [by right|].
  exfalso. specialize (Hun (Z.max lo (guest_base n)) ltac:(lia)).
  apply eq_None_not_Some in Hun. apply Hun. eexists. apply (tr_Some s Hwf).
  exists n. split; [done|]. split; [lia|done].
Qed.

(** The set with a freshly mapped arena in place. *)
Definition with_arena (a : MmapArena) (s : ArenaSet) : ArenaSet :=
  mkArenaSet (ivl_insert guest_base a (arenas s)) (host_map (host a) (a_size a) (os_state s)).

Section Fresh.
Context (s : ArenaSet) (a : MmapArena) (Hwf : wf s) (Hok : arena_ok a).
Context (Hun : ∀ x, guest_base a ≤ x < guest_base a + a_size a → tr (arenas s) x = None).
Context (Hfr : ∀ u, u ∈ units (host a) (a_size a) → h_prot (os_state s) !! u = None).

Lemma fresh_overlap : ivl_overlaps guest_base guest_end (guest_base a) (guest_end a) (arenas s) = false.
Proof.
  rewrite (guest_end_ok a Hok). apply unbacked_no_overlap; try done.
  destruct Hok as (? & ? & ? & _). lia.
Qed.

Lemma fresh_tr x : tr (arenas (with_arena a s)) x =
  if decide (guest_base a ≤ x < guest_base a + a_size a)
  then Some (host a + (x - guest_base a)) else tr (arenas s) x.
Proof.
  unfold tr, with_arena. simpl. rewrite <- (guest_end_ok a Hok).
  change (λ a0, contains_va a0 x) with (ivl_contains guest_base guest_end x).
  rewrite ivl_find_insert; [by case_decide|apply Hwf| |apply fresh_overlap].
  rewrite (guest_end_ok a Hok). destruct Hok as (? & ? & ? & _). lia.
Qed.

Lemma fresh_old x p : tr (arenas s) x = Some p → ¬ (host a ≤ p < host a + a_size a).
Proof.
  intros Hp Hin. destruct Hok as (? & ? & ? & ? & ? & ? & ? & ?).
  apply (elem_of_units (host a) (a_size a)) in Hin; [|done..|lia].
  destruct (wf_mapped _ Hwf x p Hp) as [pr Hpr]. by rewrite Hfr in Hpr.
Qed.

Lemma fresh_prot u : h_prot (os_state (with_arena a s)) !! u =
  if decide (u ∈ units (host a) (a_size a)) then Some (Z.lor PROT_READ PROT_WRITE)
  else h_prot (os_state s) !! u.
Proof. apply set_units_lookup. Qed.

Lemma fresh_byte x : byte_at (with_arena a s) x =
  if decide (guest_base a ≤ x < guest_base a + a_size a) then Some 0 else byte_at s x.
Proof.
  unfold byte_at, host_byte. rewrite fresh_tr. simpl. case_decide as Hx; simpl.
  - rewrite clear_bytes_lookup, decide_True; [done|lia].
  - destruct (tr (arenas s) x) as [p|] eqn:E; [|done]. simpl.
    rewrite clear_bytes_lookup, decide_False; [done|by eapply fresh_old].
Qed.

Lemma fresh_wf : wf (with_arena a s).
Proof.
  pose proof Hok as (Hb0 & Hbm & Hs0 & Hsm & Hlim & Hh0 & Hhm & Hhl). split.
  - simpl. rewrite ivl_insert_Permutation. constructor; [done|apply Hwf].
  - simpl. apply ivl_wf_insert; [apply Hwf| |apply fresh_overlap]. rewrite (guest_end_ok a Hok). lia.
  - intros x y p. rewrite !fresh_tr. repeat case_decide; [intros; simplify_eq; lia| | |apply Hwf].
    + intros [= <-] Hy. destruct (fresh_old y _ Hy). lia.
    + intros Hx [= <-]. destruct (fresh_old x _ Hx). lia.
  - intros x p. rewrite fresh_tr, fresh_prot. case_decide as Hx.
    + intros [= <-]. rewrite decide_True; [eauto|]. apply elem_of_units; lia.
    + intros Hp. case_decide; [eauto|]. by apply (wf_mapped _ Hwf x).
Qed.

(** A fresh arena over an unbacked range. *)
Lemma insert_fresh :
  insert a (mkArenaSet (arenas s) (host_map (host a) (a_size a) (os_state s))) = (with_arena a s, Ok tt) ∧
  extends s (with_arena a s) (guest_base a) (guest_base a + a_size a) ∧
  ∀ x, guest_base a ≤ x < guest_base a + a_size a → is_Some (tr (arenas (with_arena a s)) x).
Proof.
  pose proof fresh_overlap as Hov. unfold insert. simpl. unfold ivl_overlaps in Hov.
  unfold any_overlap. rewrite Hov. split; [done|]. split.
  2:{ intros x Hx. rewrite fresh_tr, decide_True by done. eauto. }
  pose proof Hok as (Hb0 & Hbm & Hs0 & Hsm & Hlim & Hh0 & Hhm & Hhl). split; [apply fresh_wf| | | |].
  - intros x p Hp. rewrite fresh_tr, decide_False; [done|]. intros Hx. by rewrite Hun in Hp.
  - intros x [p Hp]. rewrite fresh_byte, decide_False; [done|]. intros Hx. by rewrite Hun in Hp.
  - intros u [pr Hu]. rewrite fresh_prot, decide_False; [done|]. intros Hin. by rewrite Hfr in Hu.
  - intros x p Hn. rewrite fresh_tr, fresh_byte. case_decide as Hx; [|congruence]. intros [= <-].
    split_and!; [lia|lia|done|]. rewrite fresh_prot, decide_True; [done|]. apply elem_of_units; lia.
Qed.
End Fresh.

Section MapSpec.
Context {os : HostOS} {laws : HostOSLaws os}.

(** The only failure of [map_range]: the host refuses a mapping. *)
Definition map_failed (r : res unit) : Prop :=
  ∃ base size, r = Err (Message ("mmap arena failed for guest " +:+ fmt_hex base +:+ "+" +:+ fmt_hex size)).

Definition backed (s : ArenaSet) (lo hi : Z) : Prop := ∀ x, lo ≤ x < hi → is_Some (tr (arenas s) x).
Definition unbacked (s : ArenaSet) (lo hi : Z) : Prop := ∀ x, lo ≤ x < hi → tr (arenas s) x = None.

Lemma extends_weaken s s' lo hi lo' hi' :
  extends s s' lo hi → lo' ≤ lo → hi ≤ hi' → extends s s' lo' hi'.
Proof.
  intros [] ??. split; try done. intros x p H1 H2.
  destruct (ext_new0 x p H1 H2) as (? & ? & ?). split_and!; try done; lia.
Qed.

Lemma backed_extends s s' lo hi a b : extends s s' lo hi → backed s a b → backed s' a b.
Proof. intros He Hb x Hx. destruct (Hb x Hx) as [p Hp]. exists p. by apply (ext_tr _ _ _ _ He). Qed.

Lemma backed_split s a b c : backed s a b → backed s b c → backed s a c.
Proof. intros H1 H2 x Hx. destruct (decide (x < b)); [apply H1|apply H2]; lia. Qed.

Lemma map_run_spec start stop p s :
  wf s → 0 ≤ start < stop → stop < u64_lim → start mod 4096 = 0 → stop mod 4096 = 0 →
  unbacked s start stop →
  match map_run start stop p s with
  | (s', Ok _) => extends s s' start stop ∧ backed s' start stop
  | (s', r) => extends s s' start stop ∧ map_failed r
  end.
Proof.
  intros Hwf Hb Hlim Ham Hbm Hun. unfold map_run. rewrite sat_sub_le by lia.
  rewrite decide_True by lia. unfold mbind, M_bind, on_host, zoom, map_new.
  rewrite decide_False by lia.
  assert (Hsm : (stop - start) mod 4096 = 0).
  { rewrite Zminus_mod, Ham, Hbm. done. }
  destruct (os_mmap (os_state s) (stop - start)) as [ptr|] eqn:Em.
  - pose proof (mmap_fresh _ _ _ Em ltac:(lia)) as (Hp0 & Hpm & Hpl & Hfr).
    set (a := mkArena start (stop - start) ptr p).
    assert (Hok : arena_ok a) by (unfold arena_ok, a; simpl; split_and!; lia || done).
    destruct (insert_fresh s a Hwf Hok) as (Hins & Hext & Hback).
    + unfold a; simpl. intros x Hx. apply Hun. lia.
    + done.
    + simpl in *. rewrite Hins. replace (start + (stop - start)) with stop in * by lia. done.
  - split; [|by eexists _, _]. destruct s. by apply extends_refl.
Qed.

Lemma page_backed s q : wf s → q mod 4096 = 0 → ∀ x, q ≤ x < q + 4096 →
  tr (arenas s) x = (λ p, p + (x - q)) <$> tr (arenas s) q.
Proof.
  intros Hwf Hq x Hx. apply (tr_page s Hwf). pose proof (div_mul_aligned q 4096 ltac:(lia) Hq).
  pose proof (div_4096_bounds x). lia.
Qed.

Lemma page_step q n : 0 ≤ q → q mod 4096 = 0 → n mod 4096 = 0 → q < n → n < u64_lim →
  sat_add q PAGE_SIZE = q + 4096 ∧ (q + 4096) mod 4096 = 0 ∧ q + 4096 ≤ n.
Proof.
  intros H0 Hq Hn Hlt Hlim. unfold PAGE_SIZE.
  pose proof (div_mul_aligned q 4096 ltac:(lia) Hq). pose proof (div_mul_aligned n 4096 ltac:(lia) Hn).
  assert (q + 4096 ≤ n) by lia. split; [rewrite sat_add_lt; lia|]. split; [|done].
  rewrite <- Z.add_mod_idemp_r by lia. by rewrite Z_mod_same_full, Z.add_0_r.
Qed.

(** First pass: only permissions change. *)
Lemma map_first_pass s address end_ p :
  wf s → 0 ≤ address ≤ end_ → end_ < u64_lim → address mod 4096 = 0 → end_ mod 4096 = 0 →
  ∃ s', loopM (fuel_of (Z.max 0 (end_ - address))) (map_perms_body end_ p) address s = (s', Ok tt) ∧
    extends s s' address end_.
Proof.
  intros Hwf Ha Hlim Ham Hem. set (l := loopM _ _ _ s).
  cut (l.2 = Ok tt ∧ extends s l.1 address end_).
  { destruct l as [s' r]. simpl. intros [-> ?]. eauto. }
  apply (loopM_rule (map_perms_body end_ p)
    (λ q s', address ≤ q ≤ end_ ∧ q mod 4096 = 0 ∧ extends s s' address end_)
    (λ s' r, r = Ok tt ∧ extends s s' address end_) (λ q, end_ - q)).
  - intros q s' (Hq & Hqm & Hext). unfold map_perms_body. case_decide as Hlt; [|done].
    destruct (page_step q end_) as (-> & Hm & Hle); [lia..|done|done|lia|done|].
    split; [|lia]. split_and!; [lia|lia|done|].
    destruct (find_va_mut (arenas s') q) as [[i b]|]; [|done].
    eapply extends_trans; [done|]. apply set_perms_extends, Hext.
  - split_and!; [lia|lia|done|by apply extends_refl].
  - split; [lia|]. rewrite Z.max_r by lia. apply fuel_of_spec. lia.
Qed.

(** Invariant of the second pass. *)
Definition second_inv (s : ArenaSet) (address end_ : Z) (x : u64 * option u64) (s' : ArenaSet) : Prop :=
  address ≤ x.1 ≤ end_ ∧ x.1 mod 4096 = 0 ∧ extends s s' address end_ ∧
  match x.2 with
  | None => backed s' address x.1
  | Some st => address ≤ st < x.1 ∧ st mod 4096 = 0 ∧ backed s' address st ∧ unbacked s' st x.1
  end.

(** Closing the open run. *)
Lemma close_run s address end_ q st p s' :
  second_inv s address end_ (q, Some st) s' → 0 ≤ address → end_ < u64_lim →
  match map_run st q p s' with
  | (s2, Ok _) => extends s' s2 address end_ ∧ backed s2 address q
  | (s2, r) => extends s' s2 address end_ ∧ map_failed r
  end.
Proof.
  intros (Hq & Hqm & Hext & Hst & Hstm & Hb & Hu) H0 Hlim. cbn [fst snd] in *.
  pose proof (map_run_spec st q p s' (ext_wf _ _ _ _ Hext)) as H.
  destruct (map_run st q p s') as [s2 [[]|e|w]]; (destruct H as [He Hr]; [lia..|done|done|done|]);
    (split; [eapply extends_weaken; [done|lia|lia]|]); try done.
  eapply backed_split; [|done]. by eapply backed_extends.
Qed.

Lemma map_second_step s address end_ p x s' :
  second_inv s address end_ x s' → 0 ≤ address → end_ < u64_lim → end_ mod 4096 = 0 →
  match map_second_body end_ p x s' with
  | (s2, Ok (inl x')) => second_inv s address end_ x' s2 ∧ 0 ≤ end_ - x'.1 < end_ - x.1
  | (s2, Ok (inr o)) => second_inv s address end_ (end_, o) s2
  | (s2, Err e) => extends s s2 address end_ ∧ map_failed (Err e)
  | (s2, Abort w) => False
  end.
Proof.
  destruct x as [q o]. intros Hinv H0 Hlim Hem. pose proof Hinv as (Hq & Hqm & Hext & Ho).
  cbn [fst snd] in *. unfold map_second_body. case_decide as Hlt.
  2:{ assert (q = end_) as <- by lia. done. }
  destruct (page_step q end_) as (-> & Hm & Hle); [lia|done|done|lia|done|].
  pose proof (ext_wf _ _ _ _ Hext) as Hwf'.
  pose proof (page_backed s' q Hwf' Hqm) as Hpg.
  destruct (find_va (arenas s') q) as [a|] eqn:Ef; destruct o as [st|].
  - pose proof (close_run s address end_ q st p s' Hinv H0 Hlim) as Hcl.
    unfold mbind, M_bind. destruct (map_run st q p s') as [s2 [[]|e|w]].
    + destruct Hcl as [He2 Hb2]. split; [|simpl; lia]. unfold second_inv; cbn [fst snd].
      split_and!; try done; try lia; [by eapply extends_trans|].
      eapply backed_split; [done|]. intros x Hx.
      destruct (tr (arenas s') x) as [px|] eqn:Ex.
      { exists px. by apply (ext_tr _ _ _ _ He2). }
      exfalso. rewrite Hpg, (tr_find_va s' Hwf'), Ef in Ex by lia. done.
    + destruct Hcl as [? ?]. split; [by eapply extends_trans|done].
    + destruct Hcl as [_ (? & ? & ?)]. done.
  - split; [|simpl; lia]. unfold second_inv; cbn [fst snd]. split_and!; try done; try lia.
    eapply backed_split; [done|]. intros x Hx. rewrite Hpg by lia. rewrite (tr_find_va s' Hwf'), Ef. eauto.
  - split; [|simpl; lia]. unfold second_inv; cbn [fst snd]. destruct Ho as (? & ? & ? & Hu).
    split_and!; try done; try lia. intros x Hx. destruct (decide (x < q)); [apply Hu; lia|].
    rewrite Hpg by lia. by rewrite (proj2 (tr_None s' Hwf' q) Ef).
  - split; [|simpl; lia]. unfold second_inv; cbn [fst snd]. split_and!; try done; try lia.
    intros x Hx. rewrite Hpg by lia. by rewrite (proj2 (tr_None s' Hwf' q) Ef).
Qed.

(** The whole second pass. *)
Lemma map_second_pass s address end_ p s1 :
  extends s s1 address end_ → 0 ≤ address ≤ end_ → end_ < u64_lim →
  address mod 4096 = 0 → end_ mod 4096 = 0 →
  match loopM (fuel_of (Z.max 0 (end_ - address))) (map_second_body end_ p) (address, None) s1 with
  | (s2, Ok o) => second_inv s address end_ (end_, o) s2
  | (s2, Err e) => extends s s2 address end_ ∧ map_failed (Err e)
  | (s2, Abort w) => False
  end.
Proof.
  intros He1 Ha Hlim Ham Hem. set (l := loopM _ _ _ s1).
  cut ((λ s2 r, match r with Ok o => second_inv s address end_ (end_, o) s2
         | Err e => extends s s2 address end_ ∧ map_failed (Err e) | Abort w => False end) l.1 l.2);
    [by destruct l as [s2 [?|?|?]]|].
  apply (loopM_rule (map_second_body end_ p) (second_inv s address end_) _ (λ x, end_ - x.1)).
  - intros x s' Hinv. pose proof (map_second_step s address end_ p x s' Hinv) as H.
    destruct (map_second_body end_ p x s') as [s2 [[x'|o]|e|w]]; apply H; done || lia.
  - unfold second_inv; cbn [fst snd]. split_and!; [lia|lia|done|done|]. intros x ?. lia.
  - cbn [fst snd]. split; [lia|]. rewrite Z.max_r by lia. apply fuel_of_spec. lia.
Qed.

Lemma map_range_holds s address end_ p :
  wf s → 0 ≤ address < end_ → end_ < u64_lim → address mod 4096 = 0 → end_ mod 4096 = 0 →
  let '(s', r) := map_range address end_ (end_ - address) p s in
  extends s s' address end_ ∧ ((r = Ok tt ∧ backed s' address end_) ∨ map_failed r).
Proof.
  intros Hwf Ha Hlim Ham Hem. unfold map_range. rewrite decide_False by lia.
  destruct (find_exact (arenas s) address (end_ - address)) as [i|] eqn:Ex.
  - pose proof (set_perms_extends s i p address end_ Hwf) as Hext. split; [done|]. left. split; [done|].
    eapply backed_extends; [done|]. intros x Hx.
    unfold find_exact, position in Ex. destruct (list_find _ _) as [[j a]|] eqn:El; simplify_eq/=.
    apply list_find_Some in El as (Hi & He & _). unfold is_exact_range in He.
    apply andb_prop_elim in He as [Hb%bool_decide_unpack Hs%bool_decide_unpack].
    eexists. apply (tr_Some s Hwf). exists a. split; [by eapply list_elem_of_lookup_2|]. split; [lia|done].
  - destruct (map_first_pass s address end_ p Hwf) as (s1 & Hl1 & He1); [lia|done..|].
    unfold mbind, M_bind. rewrite Hl1.
    pose proof (map_second_pass s address end_ p s1 He1 ltac:(lia) Hlim Ham Hem) as Hl.
    destruct (loopM _ _ (address, None) s1) as [s2 [o|e|w]]; [|destruct Hl; auto|done].
    destruct o as [st|].
    + pose proof (close_run s address end_ end_ st p s2 Hl ltac:(lia) Hlim) as Hcl.
      destruct Hl as (_ & _ & He2 & _). destruct (map_run st end_ p s2) as [s3 [[]|e|w]];
        destruct Hcl as [He3 Hr]; (split; [by eapply extends_trans|]); auto.
    + destruct Hl as (_ & _ & He2 & Hb2). simpl. auto.
Qed.

(** [map_range] backs the whole range and disturbs nothing: every address
    backed before keeps its translation, byte and host protection; the rest of
    [address, end) becomes backed by zeroed read-write memory; nothing outside
    the range becomes backed.  It fails only when the host refuses a mapping. *)
Theorem map_range_spec s address end_ p :
  wf s → 0 ≤ address < end_ → end_ < u64_lim → address mod 4096 = 0 → end_ mod 4096 = 0 →
  let '(s', r) := map_range address end_ (end_ - address) p s in
  extends s s' address end_ ∧ ((r = Ok tt ∧ backed s' address end_) ∨ map_failed r).
Proof. apply map_range_holds. Qed.
End MapSpec.

(** ** [unmap_exact] *)

(** Releasing an exact range unbacks exactly its addresses and leaves every
    other guest byte and its host protection alone; when no arena has exactly
    that range nothing happens. *)
Lemma unmap_exact_spec s address size :
  wf s →
  let s' := unmap_exact address size s in
  (s' = s ∧ ∀ a, a ∈ arenas s → is_exact_range a address size = false) ∨
  (wf s' ∧
   (∀ x, tr (arenas s') x = if decide (address ≤ x < address + size) then None else tr (arenas s) x) ∧
   (∀ x p, tr (arenas s') x = Some p →
      byte_at s' x = byte_at s x ∧
      h_prot (os_state s') !! (p / 4096) = h_prot (os_state s) !! (p / 4096))).
Proof.
  intros Hwf s'. unfold s', unmap_exact, position. clear s'.
  destruct (list_find _ (arenas s)) as [[i a]|] eqn:El; simpl.
  2:{ left. split; [done|]. apply list_find_None in El. rewrite Forall_forall in El.
      intros a Ha. specialize (El a Ha). by destruct (is_exact_range a address size). }
  apply list_find_Some in El as (Hi & He & _). rewrite Hi. right.
  unfold is_exact_range in He.
  apply andb_prop_elim in He as [Hb%bool_decide_unpack Hs%bool_decide_unpack].
  assert (Ha : a ∈ arenas s) by (by eapply list_elem_of_lookup_2).
  pose proof (arena_in s Hwf a Ha) as Hok. pose proof (guest_end_ok a Hok) as Hge.
  destruct Hok as (? & ? & ? & ? & ? & ? & ? & ?).
  assert (Htr : ∀ x, tr (delete i (arenas s)) x =
    if decide (address ≤ x < address + size) then None else tr (arenas s) x).
  { intros x. unfold tr. change (λ a0, contains_va a0 x) with (ivl_contains guest_base guest_end x).
    rewrite (ivl_find_delete guest_base guest_end (arenas s) i a x (wf_ivl _ Hwf) Hi).
    rewrite Hge, Hb, Hs. by case_decide. }
  (* the released host range serves no other address *)
  assert (Hfree : ∀ x p, tr (delete i (arenas s)) x = Some p → p / 4096 ∉ units (host a) (a_size a)).
  { intros x p Hx Hin. rewrite Htr in Hx. case_decide as Hr; [done|]. apply Hr.
    apply elem_of_units in Hin; [|done..|lia].
    assert (Hx' : tr (arenas s) (guest_base a + (p - host a)) = Some p).
    { apply (tr_Some s Hwf). exists a. split; [done|]. lia. }
    rewrite (wf_inj _ Hwf _ _ _ Hx Hx'). lia. }
  split_and!.
  - split; simpl.
    + apply Forall_delete, Hwf.
    + eapply ivl_wf_sublist; [apply sublist_delete|apply Hwf].
    + intros x y p. rewrite !Htr. repeat case_decide; try done. apply Hwf.
    + intros x p Hx. rewrite delete_units_lookup, decide_False by (by eapply Hfree).
      rewrite Htr in Hx. case_decide; [done|]. by apply (wf_mapped _ Hwf x).
  - exact Htr.
  - intros x p Hx. simpl in *. split.
    + unfold byte_at. simpl. rewrite Htr in *. by case_decide.
    + by rewrite delete_units_lookup, decide_False by (by eapply Hfree).
Qed.

(** ** [discard_range] *)

Lemma prefix_bytes_full f va n :
  (∀ i, 0 ≤ i < Z.of_nat n → is_Some (f (va + i))) → length (prefix_bytes f va n) = n.
Proof.
  intros Hf. pose proof (prefix_bytes_le f va n).
  pose proof (prefix_bytes_ge f va n n ltac:(done) Hf). lia.
Qed.

(** [s'] is [s] with the backed part of [lo, hi) zeroed. *)
Record zeroed (s s' : ArenaSet) (lo hi : Z) : Prop := {
  zr_wf : wf s';
  zr_arenas : arenas s' = arenas s;
  zr_prot : h_prot (os_state s') = h_prot (os_state s);
  zr_bytes : ∀ x, byte_at s' x = if decide (lo ≤ x < hi) then (λ _, 0) <$> byte_at s x else byte_at s x;
}.

Lemma zeroed_empty s lo hi : wf s → hi ≤ lo → zeroed s s lo hi.
Proof. intros. split; try done. intros x. by rewrite decide_False by lia. Qed.

(** The zeros of one page: all of its range is backed or none of it. *)
Lemma write_zeros s va n :
  wf s → 0 ≤ va → 0 < n → va + n ≤ va / 4096 * 4096 + 4096 → host_allows s PROT_WRITE va n →
  ∃ s' r, write va (replicate (Z.to_nat n) 0) s = (s', r) ∧ (∀ w, r ≠ Abort w) ∧
    zeroed s s' va (va + n).
Proof.
  intros Hwf Hva Hn Hpage Hal.
  destruct (arena_write_spec s va (replicate (Z.to_nat n) 0) Hwf Hva) as (s' & Hw & [Hwf' Ha Hp Hb]).
  { rewrite length_replicate, Z2Nat.id by lia. done. }
  eexists s', _. split; [exact Hw|]. split; [by case_decide|]. split; [done..|]. intros x. rewrite Hb.
  unfold write_len. rewrite length_replicate.
  assert (Hpg : ∀ y, va ≤ y < va + n → tr (arenas s) y = (λ p, p + (y - va)) <$> tr (arenas s) va).
  { intros y Hy. apply (tr_page s Hwf). pose proof (div_4096_bounds y). pose proof (div_4096_bounds va).
    assert (va / 4096 ≤ y / 4096) by (apply Z.div_le_mono; lia). lia. }
  destruct (tr (arenas s) va) as [p|] eqn:Ep.
  - rewrite prefix_bytes_full.
    2:{ intros i Hi. apply byte_at_is_Some. rewrite Hpg by lia. simpl. eauto. }
    rewrite Z2Nat.id by lia. destruct (decide (va ≤ x < va + n)) as [Hx|]; [|done].
    rewrite lookup_replicate_2 by lia. unfold byte_at. by rewrite Hpg by lia.
  - assert (prefix_bytes (byte_at s) va (Z.to_nat n) = []) as ->.
    { destruct (Z.to_nat n); [done|]. cbn [prefix_bytes]. unfold byte_at at 1. by rewrite Ep. }
    simpl. rewrite decide_False by lia. destruct (decide (va ≤ x < va + n)) as [Hx|]; [|done].
    unfold byte_at. by rewrite Hpg by lia.
Qed.

Lemma host_allows_same s s' bit va n :
  arenas s' = arenas s → h_prot (os_state s') = h_prot (os_state s) →
  host_allows s bit va n → host_allows s' bit va n.
Proof.
  intros Ha Hp Hal x p Hx Ht. rewrite Ha in Ht. rewrite (unit_allows_prot _ (os_state s)) by done.
  by apply (Hal x).
Qed.

(** Decommitting zeroes exactly the backed bytes of the range, page by page,
    skips the holes, changes no mapping and always succeeds, provided the host
    pages are writable. *)
Lemma discard_range_spec s address size :
  wf s → 0 ≤ address → 0 ≤ size → address + size < u64_lim →
  host_allows s PROT_WRITE address size →
  ∃ s', discard_range address size s = (s', Ok tt) ∧ zeroed s s' address (address + size).
Proof.
  intros Hwf Ha Hs Hlim Hal. unfold discard_range. case_decide as Hz.
  { exists s. split; [done|]. apply zeroed_empty; [done|lia]. }
  set (l := loopM _ _ _ s). cut (l.2 = Ok tt ∧ zeroed s l.1 address (address + size)).
  { destruct l as [s' r]. simpl. intros [-> ?]. eauto. }
  apply (loopM_rule (discard_body size)
    (λ x s', 0 ≤ x.1 ≤ size ∧ x.2 = address + x.1 ∧ zeroed s s' address x.2)
    (λ s' r, r = Ok tt ∧ zeroed s s' address (address + size)) (λ x, size - x.1)).
  - intros [off va] s1 (Hoff & Hva & Hzr). cbn [fst snd] in *. unfold discard_body.
    case_decide as Hlt; [|by assert (off = size) as -> by lia; subst va].
    unfold PAGE_SIZE, PAGE_SIZE_USIZE. change (0x1000 - 1) with 4095. rewrite land_4095.
    pose proof (Z.mod_pos_bound va 4096 ltac:(lia)). pose proof (Z.div_mod va 4096 ltac:(lia)).
    set (c := Z.min _ _). assert (Hc : 0 < c ≤ size - off ∧ c ≤ 4096 - va mod 4096).
    { unfold c, sat_sub. lia. } clearbody c. rewrite decide_False by lia.
    destruct (write_zeros s1 va c) as (s2 & r & -> & Hr & Hzr2); [apply Hzr|lia..| |].
    { eapply host_allows_same; [apply Hzr..|]. intros x p Hx. apply Hal. lia. }
    assert (Hinv : 0 ≤ sat_add off c ≤ size ∧ sat_add va c = address + sat_add off c ∧
      zeroed s s2 address (sat_add va c)).
    { unfold sat_add. rewrite !Z.min_l by lia. split_and!; [lia|lia|lia|]. destruct Hzr2 as [? H2 H3 H4].
      destruct Hzr as [_ H5 H6 H7]. split; [done|congruence|congruence|]. intros x. rewrite H4, H7.
      repeat case_decide; try done; lia. }
    destruct r as [[]|e|w]; [| |by destruct (Hr w)]; (split; [done|]); cbn [fst]; unfold sat_add; lia.
  - cbn [fst snd]. split_and!; [lia|lia|lia|]. apply zeroed_empty; [done|lia].
  - cbn [fst snd]. split; [lia|]. rewrite Z.sub_0_r. apply fuel_of_spec. lia.
Qed.

(** ** [mprotect_guest_range] *)

Section Protect.
Context {os : HostOS} {laws : HostOSLaws os}.

Lemma host_page_size_units : 0 < host_page_size ∧ host_page_size mod 4096 = 0.
Proof. unfold host_page_size. case_decide; [|done]. split; [done|]. apply pagesize_units. Qed.

(** Only host protections of the range change, to [prot]. *)
Record reprotected (s s' : ArenaSet) (lo hi prot : Z) : Prop := {
  rp_wf : wf s';
  rp_arenas : arenas s' = arenas s;
  rp_bytes : h_bytes (os_state s') = h_bytes (os_state s);
  rp_prot : ∀ x p, tr (arenas s) x = Some p →
    h_prot (os_state s') !! (p / 4096) = h_prot (os_state s) !! (p / 4096) ∨
    (lo ≤ x < hi ∧ h_prot (os_state s') !! (p / 4096) = Some prot);
}.

Lemma mprotect_spec s address size prot :
  wf s → 0 ≤ address → 0 ≤ size →
  reprotected s (mprotect_guest_range address size prot s).1 address (address + size) prot.
Proof.
  intros Hwf Ha Hs. assert (Hsame : reprotected s s address (address + size) prot) by (split; auto).
  unfold mprotect_guest_range. case_decide; [done|].
  destruct (find_va (arenas s) address) as [a|] eqn:Ef; [|done].
  apply (find_va_Some s Hwf) in Ef as [Hin Hva]. pose proof (arena_in s Hwf a Hin) as Hok.
  pose proof (guest_end_ok a Hok) as Hge. destruct Hok as (? & ? & ? & ? & Hl1 & ? & ? & Hl2).
  repeat (case_decide; [done|]). rewrite !sat_sub_le by lia.
  destruct (bool_decide (host_page_size = 0) || negb (is_multiple_of (address - guest_base a) host_page_size)
            || negb (is_multiple_of size host_page_size)) eqn:Em; [done|].
  destruct (decide (a_size a < _)) as [Hov|Hov]; [exact Hsame|]. destruct (os_mprotect_ok _ _ _ _); [simpl|exact Hsame].
  apply orb_false_elim in Em as [[_ Hm1%negb_false_iff]%orb_false_elim Hm2%negb_false_iff].
  unfold is_multiple_of in *. apply bool_decide_eq_true in Hm1, Hm2.
  destruct host_page_size_units as [Hps Hpm].
  assert (Hmul : ∀ y, y mod host_page_size = 0 → y mod 4096 = 0).
  { intros y Hy. apply Z.mod_divide in Hy, Hpm; try lia. apply Z.mod_divide; [lia|]. by etransitivity. }
  apply Hmul in Hm1, Hm2. unfold sat_add in *.
  assert (Hpm' : (host a + (address - guest_base a)) mod 4096 = 0).
  { rewrite Z.add_mod by lia. by replace (host a mod 4096) with 0 by lia; rewrite Hm1. }
  assert (Hpr : ∀ u, h_prot (host_protect (host a + (address - guest_base a)) size prot (os_state s)) !! u =
    if decide (u ∈ units (host a + (address - guest_base a)) size) then Some prot
    else h_prot (os_state s) !! u) by (intros u; apply set_units_lookup).
  split; try done.
  - destruct Hwf as [? ? ? Hmap]. split; try done. intros x p Hx. simpl in *. rewrite Hpr.
    case_decide; eauto.
  - intros x p Hx. simpl. rewrite Hpr. case_decide as Hu; [|by left]. right. split; [|done].
    apply elem_of_units in Hu; [|done..].
    assert (Hx' : tr (arenas s) (guest_base a + (p - host a)) = Some p).
    { apply (tr_Some s Hwf). exists a. split; [done|]. lia. }
    rewrite (wf_inj _ Hwf _ _ _ Hx Hx'). lia.
Qed.
End Protect.

(** ** A concrete host, for the witnesses *)

(** Maps above everything mapped so far; 4-KiB pages. *)
Definition demo_mmap (h : Host) (size : usize) : option Z :=
  let p := 4096 * (1 + Z.max 16 (default 0 (max_key (λ _, true) (h_prot h)))) in
  if decide (0 < size ∧ p + size < u64_lim) then Some p else None.

Definition demo_os : HostOS := {|
  os_mmap := demo_mmap;
  os_mprotect_ok := λ _ _ _ _, true;
  os_sysconf_pagesize := 4096;
|}.
#[local] Existing Instance demo_os.

Lemma demo_laws : HostOSLaws demo_os.
Proof.
  split; [|done]. intros h size p Hp Hs. simpl in Hp. unfold demo_mmap in Hp.
  set (k := Z.max 16 _) in Hp. case_decide as Hd; [|done]. injection Hp as <-.
  assert (16 ≤ k) by (unfold k; lia). split_and!; [lia| |lia|].
  - rewrite Z.mul_comm. apply Z.mod_mul. lia.
  - intros u Hu. unfold units in Hu. rewrite elem_of_seqZ in Hu.
    rewrite Z.mul_comm, Z.div_mul in Hu by lia.
    destruct (h_prot h !! u) as [x|] eqn:E; [|done].
    pose proof (max_key_spec (λ _, true) (h_prot h)) as Hm.
    destruct (max_key _ (h_prot h)) as [m|] eqn:Em; simpl in *.
    + destruct Hm as (_ & _ & Hmax). specialize (Hmax u ltac:(eauto) ltac:(done)). unfold k in Hu. lia.
    + exfalso. apply (Hm u); [eauto|done].
Qed.

Lemma arena_wf_new h : wf (ArenaSet_new h).
Proof. split; simpl; try done. split; constructor. Qed.

#[local] Existing Instance demo_laws.

(** Two pages at 0x10000. *)
Definition sample_set : ArenaSet := (map_range 0x10000 0x12000 0x2000 7 (ArenaSet_new Host_empty)).1.

Lemma sample_extends :
  extends (ArenaSet_new Host_empty) sample_set 0x10000 0x12000 ∧ backed sample_set 0x10000 0x12000.
Proof.
  pose proof (map_range_holds (ArenaSet_new Host_empty) 0x10000 0x12000 7 (arena_wf_new _)) as H.
  change (0x12000 - 0x10000) with 0x2000 in H. unfold sample_set.
  destruct (map_range _ _ _ _ _) as [s' r] eqn:E. destruct H as [He Hr]; [lia..|done|done|].
  split; [done|]. destruct Hr as [[_ Hb]|(b & sz & Hr)]; [done|].
  assert (Hok : r = Ok tt) by (apply (f_equal snd) in E; vm_compute in E; by symmetry).
  congruence.
Qed.

Lemma sample_set_wf : wf sample_set.
Proof. apply sample_extends. Qed.

Lemma sample_set_allows bit va n :
  bit = PROT_READ ∨ bit = PROT_WRITE → host_allows sample_set bit va n.
Proof.
  intros Hbit x p _ Hp. destruct sample_extends as [He _].
  destruct (ext_new _ _ _ _ He x p eq_refl Hp) as (_ & _ & Hpr).
  unfold unit_allows. rewrite Hpr. by destruct Hbit as [-> | ->].
Qed.

Example arena_read_spec_sample :
  read sample_set 0x11ffe [1; 2; 3] = ([0; 0; 3], Err (unmapped "mem_read" 0x12000)).
Proof.
  rewrite (arena_read_spec sample_set 0x11ffe [1; 2; 3] sample_set_wf);
    [vm_compute; reflexivity|lia|apply sample_set_allows; auto].
Defined.

Example arena_write_spec_sample :
  ∃ s', write 0x10fff [7; 8] sample_set = (s', Ok tt) ∧
    byte_at s' 0x10fff = Some 7 ∧ byte_at s' 0x11000 = Some 8 ∧ byte_at s' 0x11001 = Some 0.
Proof.
  destruct (arena_write_spec sample_set 0x10fff [7; 8] sample_set_wf) as (s' & Hw & [_ _ _ Hb]);
    [lia|apply sample_set_allows; auto|].
  exists s'. split; [exact Hw|]. rewrite !Hb. vm_compute. auto.
Defined.

Lemma map_range_spec_witness :
  let '(s', r) := map_range 0x11000 0x14000 0x3000 7 sample_set in
  r = Ok tt ∧ length (arenas s') = 2%nat ∧ wf s'.
Proof.
  pose proof (map_range_spec sample_set 0x11000 0x14000 7 sample_set_wf) as H.
  change (0x14000 - 0x11000) with 0x3000 in H.
  destruct (map_range 0x11000 0x14000 0x3000 7 sample_set) as [s' r] eqn:E.
  destruct H as [He _]; [lia..|done|done|].
  pose proof (f_equal snd E) as Hr. pose proof (f_equal (λ q, length (arenas q.1)) E) as Hl.
  vm_compute in Hr, Hl. split; [by symmetry|]. split; [by symmetry|apply He].
Defined.

Example unmap_exact_spec_sample :
  wf (unmap_exact 0x10000 0x2000 sample_set) ∧
  tr (arenas (unmap_exact 0x10000 0x2000 sample_set)) 0x10000 = None.
Proof.
  destruct (unmap_exact_spec sample_set 0x10000 0x2000 sample_set_wf) as [[_ H]|(Hw & Ht & _)].
  - exfalso. assert (H' := H (mkArena 0x10000 0x2000 69632 7)). vm_compute in H'.
    discriminate H'. by left.
  - split; [exact Hw|]. by rewrite Ht.
Defined.

Example discard_range_spec_sample :
  ∃ s', discard_range 0x11000 0x3000 sample_set = (s', Ok tt) ∧ zeroed sample_set s' 0x11000 0x14000.
Proof.
  destruct (discard_range_spec sample_set 0x11000 0x3000 sample_set_wf) as (s' & H1 & H2);
    [lia..|apply sample_set_allows; auto|].
  exists s'. split; [exact H1|exact H2].
Defined.
