(* ===== verification/region.v ===== *)
(** * Named guest regions (crates/wie-cpu/src/mem/region.rs)

    The registration-ordered table of layout ranges (stack, heap, image, ...). *)

From S2P Require Import Prelude.

Inductive RegionKind : Type :=
  | RKImage | Stack | Heap | FakeApi | Teb | Env | GuestCode | GuestIo | Resource | Other.
#[global] Instance RegionKind_eq_dec : EqDecision RegionKind.
Proof. solve_decision. Defined.

Record GuestRegion := mkRegion {
  r_name : string;
  r_kind : RegionKind;
  r_base : u64;
  r_size : usize;
  r_perms : u32;
  host_base : option u64;
}.

Module RegionTable.

Definition region_new (name : string) (kind : RegionKind) (base : u64) (size : usize) (perms : u32)
    : GuestRegion := mkRegion name kind base size perms None.

Definition r_end (r : GuestRegion) : u64 := sat_add (r_base r) (r_size r).

Definition r_contains (r : GuestRegion) (va : u64) : bool :=
  bool_decide (r_base r ≤ va) && bool_decide (va < r_end r).

Abbreviation RegionTable := (list GuestRegion).

Definition new : RegionTable := [].

(** Replace the first region of that name, or append. *)
Definition register (region : GuestRegion) (t : RegionTable) : RegionTable :=
  match position (λ r, bool_decide (r_name r = r_name region)) t with
  | Some i => <[i := region]> t
  | None => t ++ [region]
  end.

Definition find (t : RegionTable) (va : u64) : option GuestRegion :=
  List.find (λ r, r_contains r va) t.

Definition find_by_kind (t : RegionTable) (kind : RegionKind) : option GuestRegion :=
  List.find (λ r, bool_decide (r_kind r = kind)) t.

Definition by_name (t : RegionTable) (name : string) : option GuestRegion :=
  List.find (λ r, bool_decide (r_name r = name)) t.

Definition set_host_base (hb : u64) (r : GuestRegion) : GuestRegion :=
  mkRegion (r_name r) (r_kind r) (r_base r) (r_size r) (r_perms r) (Some hb).

Definition set_host_base_if_covers (va hb : u64) (t : RegionTable) : RegionTable :=
  (λ r, if r_contains r va && bool_decide (host_base r = None) then set_host_base hb r else r) <$> t.

(** ** Lemmas *)

Definition names_unique (t : RegionTable) : Prop := NoDup (r_name <$> t).

Lemma register_cons r x t :
  register r (x :: t) = if decide (r_name x = r_name r) then r :: t else x :: register r t.
Proof.
  unfold register, position. simpl. destruct (decide (r_name x = r_name r)) as [H|H].
  - by rewrite decide_True by (by apply bool_decide_pack).
  - rewrite decide_False by (by rewrite bool_decide_spec).
    destruct (list_find _ t) as [[i y]|]; done.
Qed.

Lemma register_names r t n :
  n ∈ r_name <$> register r t ↔ n = r_name r ∨ n ∈ r_name <$> t.
Proof.
  induction t as [|x t IH]; [simpl; set_solver|]. rewrite register_cons. case_decide as H.
  - rewrite !fmap_cons, !elem_of_cons. rewrite H. tauto.
  - rewrite !fmap_cons, !elem_of_cons, IH. tauto.
Qed.

(** The region table is a map by name: registering keeps names unique, makes
    the new region the one its name answers to, and leaves every other name's
    region as it was. *)
Theorem register_by_name r t :
  (names_unique t → names_unique (register r t)) ∧
  ∀ n, by_name (register r t) n = if decide (n = r_name r) then Some r else by_name t n.
Proof.
  induction t as [|x t [IHu IHn]].
  - split; [intros _; apply NoDup_singleton|]. intros n. unfold by_name. simpl.
    repeat case_bool_decide; repeat case_decide; congruence.
  - rewrite register_cons. split.
    + unfold names_unique. rewrite fmap_cons. intros [Hx Ht]%NoDup_cons. case_decide as H.
      * rewrite fmap_cons, <- H. by apply NoDup_cons.
      * rewrite fmap_cons. apply NoDup_cons. split; [|by apply IHu].
        rewrite register_names. intros [?|?]; [congruence|done].
    + intros n. unfold by_name in *. case_decide as H; simpl.
      * repeat case_bool_decide; repeat case_decide; congruence.
      * rewrite IHn. repeat case_bool_decide; repeat case_decide; congruence.
Qed.

Lemma register_by_name_witness :
  let heap := region_new "heap" Heap 0x1000 0x1000 7 in
  let stack := region_new "stack" Stack 0x9000 0x1000 7 in
  names_unique (register stack [heap]) ∧ by_name (register stack [heap]) "heap" = Some heap.
Proof.
  destruct (register_by_name (region_new "stack" Stack 0x9000 0x1000 7)
              [region_new "heap" Heap 0x1000 0x1000 7]) as [Hu Hn].
  split; [apply Hu; apply NoDup_singleton|]. by rewrite Hn.
Defined.

End RegionTable.
