(* ===== verification/mem.v ===== *)
(** * Guest memory facade (crates/wie-cpu/src/mem/mod.rs)

    [GuestMemory] ties the arenas (storage), the region table, the page map
    (the software permission plane, "SPC") and the VAD table together: the
    Virtual* operations, reads and writes, and what is handed to the JIT. *)

From S2P Require Import Prelude protect pagemap vad arena region.

Definition HOST_PROT_READ : Z := PROT_READ.
Definition HOST_PROT_WRITE : Z := PROT_WRITE.

(** ** [MEMORY_BASIC_INFORMATION] *)

Record MemoryBasicInformation := mkMBI {
  mbi_base_address : u64;
  mbi_allocation_base : u64;
  mbi_allocation_protect : u32;
  mbi_region_size : u64;
  mbi_state : u32;
  mbi_protect : u32;
  mbi_type : u32;
}.
#[global] Instance MBI_eq_dec : EqDecision MemoryBasicInformation.
Proof. solve_decision. Defined.

Definition to_bytes (m : MemoryBasicInformation) : list u8 :=
  let b := replicate 48 0 in
  let b := splice 0 (le_bytes 8 (mbi_base_address m)) b in
  let b := splice 8 (le_bytes 8 (mbi_allocation_base m)) b in
  let b := splice 16 (le_bytes 4 (mbi_allocation_protect m)) b in
  let b := splice 24 (le_bytes 8 (mbi_region_size m)) b in
  let b := splice 32 (le_bytes 4 (mbi_state m)) b in
  let b := splice 36 (le_bytes 4 (mbi_protect m)) b in
  splice 40 (le_bytes 4 (mbi_type m)) b.

(** ** The state *)

Record GuestMemory := mkGM {
  backend : ArenaSet;
  regions : list GuestRegion;
  pages : PageMap;
  vads : list VadNode;
  generation : u64;
}.

Definition gm_new (h : Host) : GuestMemory :=
  mkGM (ArenaSet_new h) RegionTable.new PageMap.new VadTable.new 0.

Definition on_backend {A} (m : M ArenaSet A) : M GuestMemory A :=
  zoom backend (λ b g, mkGM b (regions g) (pages g) (vads g) (generation g)) m.
Definition set_pages (p : PageMap) (g : GuestMemory) : GuestMemory :=
  mkGM (backend g) (regions g) p (vads g) (generation g).
Definition on_pages {A} (m : M PageMap A) : M GuestMemory A := zoom pages set_pages m.
Definition set_vads (v : list VadNode) (g : GuestMemory) : GuestMemory :=
  mkGM (backend g) (regions g) (pages g) v (generation g).
Definition on_vads {A} (m : M (list VadNode) A) : M GuestMemory A := zoom vads set_vads m.
Definition set_regions (r : list GuestRegion) (g : GuestMemory) : GuestMemory :=
  mkGM (backend g) r (pages g) (vads g) (generation g).

Definition bump_generation (g : GuestMemory) : GuestMemory :=
  mkGM (backend g) (regions g) (pages g) (vads g) (sat_add (generation g) 1).

Definition allocation_span_at_base (g : GuestMemory) (addr : u64) : option (u64 * usize) :=
  node ← VadTable.find_base (vads g) addr;
  Some (allocation_base node, vn_size node).

Definition register_region (region : GuestRegion) (g : GuestMemory) : GuestMemory :=
  let region :=
    match host_base region, arena_host_base_for_va (arenas (backend g)) (r_base region) with
    | None, Some hb => RegionTable.set_host_base hb region
    | _, _ => region
    end in
  set_regions (RegionTable.register region (regions g)) g.

Definition find_region (g : GuestMemory) (va : u64) : option GuestRegion :=
  RegionTable.find (regions g) va.

(** A loop that returns an [Option]. *)
Definition loopO {S R} (p : positive) (step : S → S + option R) (s : S) : option R :=
  match iter_until p step s with inr r => r | inl _ => None end.

(** ** Pins and TLB entries *)

Record RegionPinInfo := mkPin {
  pin_guest_base : u64;
  pin_guest_end : u64;
  pin_host_base : Z;
  pin_allow_r : bool;
  pin_allow_w : bool;
  pin_generation : u64;
}.

Definition JIT_REGION_PIN_SLOTS : nat := 8.

(** One run of the rights intersection in [span_pin]: page, R, W, seen. *)
Definition span_pin_step (pm : PageMap) (last_page : u64) (s : u64 * bool * bool * bool)
    : u64 * bool * bool * bool + option (bool * bool * bool) :=
  let '(page, allow_r, allow_w, saw) := s in
  if decide (page ≤ last_page) then
    match PageMap.lookup pm page with
    | None => inr None
    | Some run =>
        if decide (pr_state run ≠ Committed) then inr None
        else if decide (page < pr_start_page run ∨ pr_end_page run ≤ page) then inr None
        else
          let allow_r := allow_r && allows_read (pr_protect run) in
          let allow_w := allow_w && (allows_write (pr_protect run)
                                     && negb (allows_execute (pr_protect run))) in
          let next := pr_end_page run in
          if decide (next ≤ page) then inr None else inl (next, allow_r, allow_w, true)
    end
  else inr (Some (allow_r, allow_w, saw)).

Definition span_pin (g : GuestMemory) (guest_base guest_end : u64) : option RegionPinInfo :=
  if decide (guest_end ≤ guest_base) then None
  else
    let l := arenas (backend g) in
    arena_base ← arena_guest_base_for_va l guest_base;
    arena_base_last ← arena_guest_base_for_va l (sat_sub guest_end 1);
    if decide (arena_base ≠ arena_base_last) then None
    else
      host_arena_u ← arena_host_base_for_va l guest_base;
      if decide (host_arena_u = 0) then None
      else
        off ← checked_sub guest_base arena_base;
        host_u ← checked_add host_arena_u off;
        if decide (host_u = 0) then None
        else
          let first_page := Z.shiftr guest_base PAGE_SHIFT in
          let last_page := Z.shiftr (sat_sub guest_end 1) PAGE_SHIFT in
          '(allow_r, allow_w, saw) ←
            loopO (fuel_of (Z.max 0 (last_page + 1 - first_page)))
              (span_pin_step (pages g) last_page) (first_page, true, true, false);
          if negb saw || (negb allow_r && negb allow_w) then None
          else Some (mkPin guest_base guest_end host_u allow_r allow_w (generation g)).

Definition region_pin (g : GuestMemory) (region : GuestRegion) : option RegionPinInfo :=
  span_pin g (r_base region) (RegionTable.r_end region).

(** One run of [committed_runs_in_span]. *)
Definition committed_runs_step (pm : PageMap) (base end_ last : u64) (s : u64 * list (u64 * u64))
    : u64 * list (u64 * u64) + list (u64 * u64) :=
  let '(page, out) := s in
  if decide (page ≤ last) then
    match PageMap.lookup pm page with
    | None => inl (sat_add page 1, out)
    | Some run =>
        if decide (pr_state run ≠ Committed) then inl (Z.max (pr_end_page run) (sat_add page 1), out)
        else
          let start_p := Z.max (Z.max (pr_start_page run) page) (Z.shiftr base PAGE_SHIFT) in
          let end_p := Z.min (pr_end_page run) (sat_add last 1) in
          let out :=
            if decide (start_p < end_p) then
              let g0 := Z.max (sat_mul start_p PAGE_SIZE) base in
              let g1 := Z.min (sat_mul end_p PAGE_SIZE) end_ in
              if decide (g0 < g1) then out ++ [(g0, g1)] else out
            else out in
          let next := pr_end_page run in
          if decide (next ≤ page) then inl (sat_add page 1, out) else inl (next, out)
    end
  else inr out.

(** The merge of adjacent spans; [acc] is the merged vector, last first. *)
Definition merge_adjacent (spans : list (u64 * u64)) : list (u64 * u64) :=
  reverse (foldl (λ acc '(a, b),
    match acc with
    | (l, e) :: acc' => if decide (e = a) then (l, b) :: acc' else (a, b) :: acc
    | [] => [(a, b)]
    end) [] spans).

Definition committed_runs_in_span (g : GuestMemory) (base end_ : u64) : list (u64 * u64) :=
  if decide (end_ ≤ base) then []
  else
    let page := Z.shiftr base PAGE_SHIFT in
    let last := Z.shiftr (sat_sub end_ 1) PAGE_SHIFT in
    let out :=
      match iter_until (fuel_of (Z.max 0 (last + 1 - page)))
              (committed_runs_step (pages g) base end_ last) (page, []) with
      | inr out => out
      | inl (_, out) => out
      end in
    merge_adjacent (stable_sort (λ a b, bool_decide (a.1 ≤ b.1)) out).

Definition pin_overlaps (chosen : list (u64 * u64)) (lo hi : u64) : bool :=
  existsb (λ '(a, b), bool_decide (lo < b) && bool_decide (a < hi)) chosen.

Definition covered_by_bootstrap_named (g : GuestMemory) (lo hi : u64) : bool :=
  existsb (λ r,
    if bool_decide (r_kind r = Heap) || bool_decide (r_kind r = Stack) then false
    else bool_decide (r_base r ≤ lo) && bool_decide (hi ≤ RegionTable.r_end r)) (regions g).

(** RO spans rank at a quarter of their size. *)
Definition pin_score (pin : RegionPinInfo) : u64 :=
  let size := sat_sub (pin_guest_end pin) (pin_guest_base pin) in
  if pin_allow_w pin then size else Z.shiftr size 2.

Definition heap_candidates (g : GuestMemory) : list (u64 * RegionPinInfo) :=
  omap (λ r,
    if decide (r_kind r ≠ Heap) then None
    else pin ← region_pin g r; Some (pin_score pin, pin)) (regions g).

(** One committed span of a private reservation. *)
Definition vad_candidate (g : GuestMemory) (chosen : list (u64 * u64))
    (candidates : list (u64 * RegionPinInfo)) (span : u64 * u64) : list (u64 * RegionPinInfo) :=
  let '(g0, g1) := span in
  if pin_overlaps chosen g0 g1 then candidates
  else if covered_by_bootstrap_named g g0 g1 then candidates
  else if existsb (λ '(_, p), bool_decide (pin_guest_base p = g0) && bool_decide (pin_guest_end p = g1))
            candidates then candidates
  else match span_pin g g0 g1 with
       | None => candidates
       | Some pin =>
           if decide (sat_sub (pin_guest_end pin) (pin_guest_base pin) < PAGE_SIZE) then candidates
           else candidates ++ [(pin_score pin, pin)]
       end.

Definition vad_candidates (g : GuestMemory) (chosen : list (u64 * u64))
    (candidates : list (u64 * RegionPinInfo)) : list (u64 * RegionPinInfo) :=
  foldl (λ cs node,
    if decide (mem_type node ≠ Private) then cs
    else foldl (vad_candidate g chosen) cs
           (committed_runs_in_span g (allocation_base node) (vn_end node)))
    candidates (vads g).

(** Fill the remaining slots in rank order, skipping overlaps. *)
Fixpoint fill_slots (slots : nat) (chosen : list (u64 * u64)) (cands : list (u64 * RegionPinInfo))
    : list RegionPinInfo :=
  match slots, cands with
  | O, _ => []
  | _, [] => []
  | S n, (_, pin) :: cands' =>
      if pin_overlaps chosen (pin_guest_base pin) (pin_guest_end pin)
      then fill_slots slots chosen cands'
      else pin :: fill_slots n (chosen ++ [(pin_guest_base pin, pin_guest_end pin)]) cands'
  end.

(** Slot 0 is the stack, the rest in rank order. *)
Definition jit_region_pins (g : GuestMemory) : option RegionPinInfo * list RegionPinInfo :=
  let stack := r ← RegionTable.find_by_kind (regions g) Stack; region_pin g r in
  let chosen := match stack with
                | Some pin => [(pin_guest_base pin, pin_guest_end pin)]
                | None => []
                end in
  let candidates := vad_candidates g chosen (heap_candidates g) in
  let ranked := stable_sort (λ a b, bool_decide (b.1 ≤ a.1)) candidates in
  (stack, fill_slots (JIT_REGION_PIN_SLOTS - 1) chosen ranked).

Record PageTlbEntry := mkTlb {
  tlb_host : Z;
  tlb_allow_r : bool;
  tlb_allow_w : bool;
  tlb_generation : u64;
}.

Definition page_protect_meta (g : GuestMemory) (page_key : u64) : option (bool * bool) :=
  run ← PageMap.lookup (pages g) page_key;
  if decide (pr_state run ≠ Committed) then None
  else
    let allow_r := allows_read (pr_protect run) in
    let allow_x := allows_execute (pr_protect run) in
    let allow_w := allows_write (pr_protect run) && negb allow_x in
    if negb allow_r && negb allow_w && negb allow_x then None else Some (allow_r, allow_w).

Definition page_tlb_entry (g : GuestMemory) (page_key : u64) : option PageTlbEntry :=
  '(allow_r, allow_w) ← page_protect_meta g page_key;
  host ← page_data_ptr (arenas (backend g)) page_key;
  Some (mkTlb host allow_r allow_w (generation g)).

Definition gm_page_data_ptr (g : GuestMemory) (page_key : u64) : option Z :=
  tlb_host <$> page_tlb_entry g page_key.

(** One run of [range_allows_execute]. *)
Definition range_execute_step (pm : PageMap) (last page : u64) : u64 + bool :=
  if decide (page ≤ last) then
    match PageMap.lookup pm page with
    | Some run =>
        if bool_decide (pr_state run = Committed) && allows_execute (pr_protect run) then inr true
        else
          let next := pr_end_page run in
          if decide (next ≤ page) then inl (sat_add page 1) else inl next
    | None => inl (sat_add page 1)
    end
  else inr false.

Definition range_allows_execute (g : GuestMemory) (address : u64) (len : usize) : bool :=
  if decide (len = 0) then false
  else match checked_add address len with
       | None => true
       | Some end_ =>
           let page := Z.shiftr address PAGE_SHIFT in
           let last := Z.shiftr (sat_sub end_ 1) PAGE_SHIFT in
           match iter_until (fuel_of (Z.max 0 (last + 1 - page)))
                   (range_execute_step (pages g) last) page with
           | inr b => b
           | inl _ => true
           end
       end.

(** [host_span]: soft translation of a contiguous range. *)
Definition host_span_resolve (g : GuestMemory) (gen_start : u64) (address : u64) (len : usize)
    (end_ : u64) (write : bool) : option Z :=
  if write && range_allows_execute g address len then None
  else
    let page_off := Z.land address (PAGE_SIZE - 1) in
    if decide (sat_add page_off len ≤ PAGE_SIZE_USIZE) then
      entry ← page_tlb_entry g (Z.shiftr address PAGE_SHIFT);
      if write && negb (tlb_allow_w entry) then None
      else if negb write && negb (tlb_allow_r entry) then None
      else if decide (generation g ≠ gen_start) then None
      else Some (tlb_host entry + page_off)
    else
      guest_base ← arena_guest_base_for_va (arenas (backend g)) address;
      guest_base_last ← arena_guest_base_for_va (arenas (backend g)) (sat_sub end_ 1);
      if decide (guest_base ≠ guest_base_last) then None
      else
        host_base_u ← arena_host_base_for_va (arenas (backend g)) address;
        if decide (host_base_u = 0) then None
        else
          off ← checked_sub address guest_base;
          if decide (generation g ≠ gen_start) then None else Some (host_base_u + off).

Definition host_span (address : u64) (len : usize) (write : bool) (g : GuestMemory)
    : GuestMemory * option Z :=
  if decide (len = 0) then (g, None)
  else match checked_add address len with
       | None => (g, None)
       | Some end_ =>
           let gen_start := generation g in
           match on_pages (PageMap.check_access address len (if write then Write else Read)) g with
           | (g', Ok _) => (g', host_span_resolve g' gen_start address len end_ write)
           | (g', _) => (g', None)
           end
       end.

(** ** Reads and writes *)

Definition gm_write_body (bytes : list u8) (gen_start : u64) (x : Z * u64)
    : M GuestMemory (Z * u64 + unit) := λ g,
  let '(offset, va) := x in
  if decide (offset < Z.of_nat (length bytes)) then
    let page_off := Z.land va (PAGE_SIZE - 1) in
    let src := drop (Z.to_nat offset) bytes in
    let room_in_page := sat_sub PAGE_SIZE_USIZE page_off in
    let chunk := Z.min room_in_page (Z.of_nat (length src)) in
    match write_ptr (arenas (backend g)) va with
    | None => (g, Err (Message ("mem_write unmapped " +:+ fmt_hex va)))
    | Some dst =>
        if decide (generation g ≠ gen_start)
        then (g, Err (Message ("mem_write generation changed at " +:+ fmt_hex va
                               +:+ " (concurrent map/free)")))
        else
          (_ ← on_backend (on_host (host_store dst (take (Z.to_nat chunk) src)));
           mret (inl (sat_add offset chunk, sat_add va chunk))) g
    end
  else (g, Ok (inr tt)).

Definition write (address : u64) (bytes : list u8) : M GuestMemory unit :=
  g ← get;
  _ ← on_pages (PageMap.check_access address (Z.of_nat (length bytes)) Write);
  loopM (fuel_of (Z.of_nat (length bytes))) (gm_write_body bytes (generation g)) (0, address).

(** The reader's state also carries the caller's buffer. *)
Definition with_buf {A} (m : M GuestMemory A) : M (GuestMemory * list u8) A :=
  zoom fst (λ g s, (g, s.2)) m.
Definition on_buf {A} (m : M (list u8) A) : M (GuestMemory * list u8) A :=
  zoom snd (λ b s, (s.1, b)) m.

Definition read (address : u64) : M (GuestMemory * list u8) unit :=
  s ← get;
  _ ← with_buf (on_pages (PageMap.check_access address (Z.of_nat (length s.2)) Read));
  s' ← get;
  if decide (generation s'.1 ≠ generation s.1)
  then fail (Message ("mem_read generation changed at " +:+ fmt_hex address +:+ " (concurrent map/free)"))
  else on_buf (arena.read (backend s'.1) address).

(** One length of the shrinking fetch. *)
Definition gm_fetch_body (address : u64) (gen_start : u64) (len : Z)
    : M (GuestMemory * list u8) (Z + usize) := λ s,
  if decide (0 < len) then
    match with_buf (on_pages (PageMap.check_access address len Execute)) s with
    | (s', Ok _) =>
        if decide (generation s'.1 ≠ gen_start)
        then (s', Err (Message ("instruction fetch generation changed at " +:+ fmt_hex address
                                +:+ " (concurrent map/free)")))
        else
          match fetch_into (backend s'.1) address (take (Z.to_nat len) s'.2) with
          | (dst, Ok n) => ((s'.1, splice 0 dst s'.2), Ok (inr n))
          | (dst, Err e) => ((s'.1, splice 0 dst s'.2), Err e)
          | (dst, Abort w) => ((s'.1, splice 0 dst s'.2), Abort w)
          end
    | (s', Abort w) => (s', Abort w)
    | (s', Err _) => (s', Ok (inl (sat_sub len 1)))
    end
  else (s, Err (Message ("instruction fetch unmapped " +:+ fmt_hex address))).

Definition gm_fetch_into (address : u64) : M (GuestMemory * list u8) usize :=
  s ← get;
  let want := Z.min (Z.of_nat (length s.2)) 15 in
  if decide (want = 0) then mret 0
  else loopM (fuel_of want) (gm_fetch_body address (generation s.1)) want.

(** ** Checks shared by the Virtual* operations *)

Definition scan_page (pm : PageMap) (ok : PageState → bool) (corrupt bad : CpuError)
    (last page : u64) : u64 + res unit :=
  if decide (page < last) then
    match PageMap.lookup pm page with
    | Some run =>
        if ok (pr_state run) then
          let next := Z.min (pr_end_page run) last in
          if decide (next ≤ page) then inr (Err corrupt) else inl next
        else inr (Err bad)
    | None => inr (Err bad)
    end
  else inr (Ok tt).

Definition reserved_or_committed (st : PageState) : bool :=
  bool_decide (st = Reserved) || bool_decide (st = Committed).

(** The scans of [va_commit_only] and [va_decommit]. *)
Definition scan_pages (g : GuestMemory) (ok : PageState → bool) (corrupt bad : CpuError)
    (page last : u64) : res unit :=
  run_loop (fuel_of (Z.max 0 (last - page))) (scan_page (pages g) ok corrupt bad last) page.

(** One run of the scan of [virtual_protect]: page, old protect, first. *)
Definition protect_scan_step (pm : PageMap) (last : u64) (s : u64 * u32 * bool)
    : u64 * u32 * bool + res u32 :=
  let '(page, old_protect, first) := s in
  if decide (page < last) then
    match PageMap.lookup pm page with
    | Some run =>
        if decide (pr_state run = Committed) then
          let '(old_protect, first) :=
            if first then (pr_protect run, false) else (old_protect, first) in
          let next := Z.min (pr_end_page run) last in
          if decide (next ≤ page)
          then inr (Err (va_error ERROR_INVALID_ADDRESS "VirtualProtect corrupt pagemap"))
          else inl (next, old_protect, first)
        else inr (Err (va_error ERROR_INVALID_ADDRESS "VirtualProtect on non-committed page"))
    | None => inr (Err (va_error ERROR_INVALID_ADDRESS "VirtualProtect free page in range"))
    end
  else inr (Ok old_protect).

Definition reserve_over : CpuError := va_error ERROR_INVALID_ADDRESS "reserve over non-free page".

Definition ensure_step (pm : PageMap) (last page : u64) : u64 + res unit :=
  if decide (page < last) then
    match PageMap.lookup pm page with
    | Some run =>
        let next := Z.min (pr_end_page run) last in
        if decide (next ≤ page) then inr (Err reserve_over) else inr (Err reserve_over)
    | None => inl (sat_add page 1)
    end
  else inr (Ok tt).

Definition ensure_pages_free (g : GuestMemory) (base size : u64) : res unit :=
  let end_ := sat_add base size in
  let page := Z.shiftr base 12 in
  let last := Z.shiftr end_ 12 in
  _ ← run_loop (fuel_of (Z.max 0 (last - page))) (ensure_step (pages g) last) page;
  if VadTable.overlaps (vads g) base size
  then Err (va_error ERROR_INVALID_ADDRESS "reserve over existing VAD")
  else Ok tt.

Definition align_reserve_request (g : GuestMemory) (addr : u64) (size : usize) : res (u64 * u64) :=
  if decide (addr = 0) then
    let rounded := align_up size GUEST_ALLOC_GRANULARITY in
    if decide (rounded = 0) then Err (va_error ERROR_INVALID_PARAMETER "reserve size 0")
    else
      found ← VadTable.find_free_region (vads g) rounded
                (λ page, bool_decide (is_Some (PageMap.lookup (pages g) page)));
      base ← ok_or found (va_error ERROR_NOT_ENOUGH_MEMORY "no free guest VA for reserve");
      Ok (base, rounded)
  else
    let base := align_down addr GUEST_ALLOC_GRANULARITY in
    end_ ← ok_or (checked_add addr size) (va_error ERROR_INVALID_PARAMETER "reserve end overflow");
    let end_aligned := align_up end_ GUEST_ALLOC_GRANULARITY in
    let span := sat_sub end_aligned base in
    if decide (span = 0) then Err (va_error ERROR_INVALID_PARAMETER "reserve span 0")
    else Ok (base, span).

(** ** Host protection of one frame *)

(** [need_r], [need_w], [any_committed], [uniform], [first_protect]. *)
Record FrameScan := mkScan {
  fs_need_r : bool;
  fs_need_w : bool;
  fs_any : bool;
  fs_uniform : bool;
  fs_first : option u32;
}.

Definition frame_note (p : u32) (s : FrameScan) : FrameScan :=
  mkScan (fs_need_r s || (allows_read p || allows_execute p))
         (fs_need_w s || allows_write p)
         true
         (match fs_first s with
          | Some q => if decide (q ≠ p) then false else fs_uniform s
          | None => fs_uniform s
          end)
         (match fs_first s with None => Some p | o => o end).

(** One page; [inr None] is the early return for reserved or free pages. *)
Definition frame_step (pm : PageMap) (end_ : u64) (x : u64 * FrameScan)
    : u64 * FrameScan + option FrameScan :=
  let '(page, s) := x in
  if decide (page < end_) then
    match PageMap.lookup pm (Z.shiftr page 12) with
    | Some run =>
        if decide (pr_state run = Committed)
        then inl (sat_add page PAGE_SIZE, frame_note (pr_protect run) s)
        else inr None
    | None => inr None
    end
  else inr (Some s).

Definition host_prot_for_frame (g : GuestMemory) (frame host_ps : u64) : Z :=
  let rw := Z.lor HOST_PROT_READ HOST_PROT_WRITE in
  let end_ := sat_add frame host_ps in
  match loopO (fuel_of (Z.max 0 (end_ - frame)))
          (frame_step (pages g) end_) (frame, mkScan false false false true None) with
  | None => rw
  | Some s =>
      if negb (fs_any s) then rw
      else if negb (fs_uniform s) then
        let p := 0 in
        let p := if fs_need_r s then Z.lor p HOST_PROT_READ else p in
        let p := if fs_need_w s then Z.lor p HOST_PROT_WRITE else p in
        if decide (p = 0) then rw else p
      else
        match fs_first s with
        | Some p =>
            if allows_write p then rw
            else if allows_read p || allows_execute p then HOST_PROT_READ
            else rw
        | None => rw
        end
  end.

(** [WIE_MPROTECT]: on unless set to 0, false or off. *)
Definition host_mprotect_enabled (var : option string) : bool :=
  match var with
  | Some v => negb (bool_decide (v = "0") || eq_ignore_ascii_case v "false" || eq_ignore_ascii_case v "off")
  | None => true
  end.

Section WithOS.
Context {os : HostOS}.
(** The value of the environment variable [WIE_MPROTECT]. *)
Context (wie_mprotect : option string).

Definition sync_step (end_ : u64) (va : u64) : M GuestMemory (u64 + unit) := λ g,
  if decide (va < end_) then
    match arena_guest_base_for_va (arenas (backend g)) va with
    | None => (g, Ok (inl (sat_add va PAGE_SIZE)))
    | Some arena_base =>
        let off := sat_sub va arena_base in
        let frame_off := align_down off host_page_size in
        let frame_guest := sat_add arena_base frame_off in
        let prot := host_prot_for_frame g frame_guest host_page_size in
        let '(b, _) := mprotect_guest_range frame_guest host_page_size prot (backend g) in
        let g' := mkGM b (regions g) (pages g) (vads g) (generation g) in
        let next := sat_add frame_guest host_page_size in
        (g', Ok (inl (if decide (next ≤ va) then sat_add va PAGE_SIZE else next)))
    end
  else (g, Ok (inr tt)).

Definition sync_host_protect (address : u64) (size : usize) : M GuestMemory unit :=
  if negb (host_mprotect_enabled wie_mprotect) then mret tt
  else if decide (size = 0) then mret tt
  else if decide (host_page_size = 0) then mret tt
  else
    let end_ := sat_add address size in
    loopM (fuel_of (Z.max 0 (end_ - address))) (sync_step end_) address.

(** ** Mapping *)

Definition map_with_type (address : u64) (size : usize) (perms : u32) (mt : MemType)
    : M GuestMemory unit :=
  _ ← on_backend (backend_map address size perms);
  let protect := page_protect_from_rwx perms in
  _ ← on_pages (PageMap.set_range address size Committed protect);
  g ← get;
  _ ← (if bool_decide (VadTable.find_base (vads g) address = None)
          && negb (VadTable.overlaps (vads g) address size)
       then on_vads (VadTable.insert (mkVadNode address size protect mt true))
       else mret tt);
  _ ← modify bump_generation;
  g ← get;
  _ ← (match arena_host_base_for_va (arenas (backend g)) address with
       | Some hb => modify (λ g, set_regions (RegionTable.set_host_base_if_covers address hb (regions g)) g)
       | None => mret tt
       end);
  sync_host_protect address size.

Definition map (address : u64) (size : usize) (perms : u32) : M GuestMemory unit :=
  map_with_type address size perms Private.
Definition map_image (address : u64) (size : usize) (perms : u32) : M GuestMemory unit :=
  map_with_type address size perms Image.

(** ** VirtualProtect *)

(** The page-rounded range [addr, addr+size): start, end and length. *)
Definition page_span (addr : u64) (size : usize) (overflow : CpuError) : res (u64 * u64 * u64) :=
  let page_base := align_down addr PAGE_SIZE in
  end_ ← ok_or (checked_add addr size) overflow;
  let page_end := align_up end_ PAGE_SIZE in
  Ok (page_base, page_end, sat_sub page_end page_base).

(** The owning allocation contains the whole range. *)
Definition check_allocation (g : GuestMemory) (page_base size : u64) (outside crosses : CpuError)
    : res unit :=
  node ← ok_or (VadTable.find (vads g) page_base) outside;
  if contains_range node page_base size then Ok tt else Err crosses.

Definition virtual_protect (addr : u64) (size : usize) (new_protect : u32) : M GuestMemory u32 :=
  if decide (size = 0) then fail (va_error ERROR_INVALID_PARAMETER "VirtualProtect size 0")
  else if negb (is_supported_protect new_protect)
  then fail (va_error ERROR_INVALID_PARAMETER "VirtualProtect unsupported protect")
  else
    '(page_base, page_end, size_u64) ← lift (page_span addr size
        (va_error ERROR_INVALID_PARAMETER "VirtualProtect end overflow"));
    g ← get;
    _ ← lift (check_allocation g page_base size_u64
          (va_error ERROR_INVALID_ADDRESS "VirtualProtect outside allocation")
          (va_error ERROR_INVALID_ADDRESS "VirtualProtect range crosses allocation"));
    let page := Z.shiftr page_base 12 in
    let last := Z.shiftr page_end 12 in
    old_protect ← lift (run_loop (fuel_of (Z.max 0 (last - page)))
                          (protect_scan_step (pages g) last) (page, 0, true));
    _ ← on_pages (PageMap.set_range page_base size_u64 Committed new_protect);
    _ ← modify bump_generation;
    _ ← sync_host_protect page_base size_u64;
    mret old_protect.

(** ** VirtualAlloc *)

Definition va_reserve_only (addr : u64) (size : usize) (protect : u32) : M GuestMemory u64 :=
  g ← get;
  '(base, size_u64) ← lift (align_reserve_request g addr size);
  _ ← lift (ensure_pages_free g base size_u64);
  _ ← on_backend (backend_map base size_u64 perm_ALL);
  _ ← on_pages (PageMap.set_range base size_u64 Reserved PAGE_NOACCESS);
  _ ← on_vads (VadTable.insert (mkVadNode base size_u64 protect Private true));
  _ ← modify bump_generation;
  mret base.

Definition va_reserve_and_commit (addr : u64) (size : usize) (protect : u32) : M GuestMemory u64 :=
  g ← get;
  '(base, size_u64) ← lift (align_reserve_request g addr size);
  _ ← lift (ensure_pages_free g base size_u64);
  _ ← on_backend (backend_map base size_u64 (rwx_from_page_protect protect));
  _ ← on_pages (PageMap.set_range base size_u64 Committed protect);
  _ ← on_vads (VadTable.insert (mkVadNode base size_u64 protect Private true));
  _ ← modify bump_generation;
  mret base.

Definition va_commit_only (addr : u64) (size : usize) (protect : u32) : M GuestMemory u64 :=
  if decide (addr = 0)
  then fail (va_error ERROR_INVALID_PARAMETER "VirtualAlloc COMMIT requires address or RESERVE")
  else
    '(page_base, page_end, size_u64) ← lift (page_span addr size
        (va_error ERROR_INVALID_PARAMETER "commit end overflow"));
    g ← get;
    _ ← lift (check_allocation g page_base size_u64
          (va_error ERROR_INVALID_ADDRESS "VirtualAlloc COMMIT without prior RESERVE")
          (va_error ERROR_INVALID_ADDRESS "VirtualAlloc COMMIT range outside allocation"));
    _ ← lift (scan_pages g reserved_or_committed
          (va_error ERROR_INVALID_ADDRESS "VirtualAlloc COMMIT corrupt pagemap")
          (va_error ERROR_INVALID_ADDRESS "VirtualAlloc COMMIT on free page")
          (Z.shiftr page_base 12) (Z.shiftr page_end 12));
    _ ← (match page_data_ptr (arenas (backend g)) (Z.shiftr page_base 12) with
         | None => on_backend (backend_map page_base size_u64 (rwx_from_page_protect protect))
         | Some _ => mret tt
         end);
    _ ← on_pages (PageMap.set_range page_base size_u64 Committed protect);
    _ ← modify bump_generation;
    mret page_base.

Definition virtual_alloc (addr : u64) (size : usize) (alloc_type protect : u32) : M GuestMemory u64 :=
  let do_reserve := bool_decide (Z.land alloc_type MEM_RESERVE ≠ 0) in
  let do_commit := bool_decide (Z.land alloc_type MEM_COMMIT ≠ 0) in
  let do_reserve := if do_commit && negb do_reserve && bool_decide (addr = 0) then true else do_reserve in
  if bool_decide (size = 0) || (negb do_reserve && negb do_commit)
  then fail (va_error ERROR_INVALID_PARAMETER "VirtualAlloc size/type invalid")
  else
    let known := Z.lor MEM_RESERVE MEM_COMMIT in
    if decide (Z.land alloc_type (Z.lxor known (u32_lim - 1)) ≠ 0)
    then fail (va_error ERROR_INVALID_PARAMETER "VirtualAlloc unsupported allocation type flags")
    else if negb (is_supported_protect protect)
    then fail (va_error ERROR_INVALID_PARAMETER "VirtualAlloc unsupported protect")
    else if do_reserve && do_commit then va_reserve_and_commit addr size protect
    else if do_reserve then va_reserve_only addr size protect
    else va_commit_only addr size protect.

End WithOS.

(** ** VirtualFree *)

Definition va_decommit (addr : u64) (size : usize) : M GuestMemory unit :=
  if decide (size = 0) then fail (va_error ERROR_INVALID_PARAMETER "VirtualFree DECOMMIT size 0")
  else
    '(page_base, page_end, size_u64) ← lift (page_span addr size
        (va_error ERROR_INVALID_PARAMETER "decommit overflow"));
    g ← get;
    _ ← lift (check_allocation g page_base size_u64
          (va_error ERROR_INVALID_ADDRESS "DECOMMIT outside allocation")
          (va_error ERROR_INVALID_ADDRESS "DECOMMIT range crosses allocation"));
    _ ← lift (scan_pages g reserved_or_committed
          (va_error ERROR_INVALID_ADDRESS "DECOMMIT corrupt pagemap")
          (va_error ERROR_INVALID_ADDRESS "DECOMMIT free page in range")
          (Z.shiftr page_base 12) (Z.shiftr page_end 12));
    _ ← on_backend (discard_range page_base size_u64);
    _ ← on_pages (PageMap.set_range page_base size_u64 Reserved PAGE_NOACCESS);
    modify bump_generation.

Definition va_release (addr : u64) : M GuestMemory unit :=
  g ← get;
  node ← lift (ok_or (VadTable.find_base (vads g) addr)
                 (va_error ERROR_INVALID_ADDRESS "MEM_RELEASE not allocation base"));
  _ ← modify bump_generation;
  _ ← on_pages (PageMap.set_range (allocation_base node) (vn_size node) Free 0);
  _ ← modify (λ g, set_vads (VadTable.remove_base addr (vads g)).1 g);
  modify (λ g, mkGM (unmap_exact (allocation_base node) (vn_size node) (backend g))
                    (regions g) (pages g) (vads g) (generation g)).

Definition virtual_free (addr : u64) (size : usize) (free_type : u32) : M GuestMemory unit :=
  let decommit := bool_decide (Z.land free_type MEM_DECOMMIT ≠ 0) in
  let release := bool_decide (Z.land free_type MEM_RELEASE ≠ 0) in
  if Bool.eqb decommit release
  then fail (va_error ERROR_INVALID_PARAMETER "VirtualFree type must be DECOMMIT or RELEASE")
  else if release then
    if decide (size ≠ 0)
    then fail (va_error ERROR_INVALID_PARAMETER "VirtualFree MEM_RELEASE requires size 0")
    else va_release addr
  else va_decommit addr size.

(** ** VirtualQuery *)

Definition query_free (g : GuestMemory) (page_va : u64) : MemoryBasicInformation :=
  let page_key := Z.shiftr page_va 12 in
  let end_page := sat_add page_key 1 in
  let next_vad :=
    foldr (λ b acc, Some (match acc with Some a => Z.min b a | None => b end)) None
      (filter (λ b, page_va < b) (allocation_base <$> vads g)) in
  let next_run :=
    List.find (λ b, bool_decide (page_va < b))
      ((λ r, sat_mul (pr_start_page r) PAGE_SIZE) <$> PageMap.iter_runs (pages g)) in
  let end_va :=
    match next_vad, next_run with
    | Some a, Some b => Z.min a b
    | Some a, None => a
    | None, Some b => b
    | None, None => sat_add page_va GUEST_ALLOC_GRANULARITY
    end in
  let end_page_cap := Z.shiftr end_va 12 in
  let end_page := if decide (end_page < end_page_cap) then end_page_cap else end_page in
  let region_size := Z.max (sat_mul (sat_sub end_page page_key) PAGE_SIZE) PAGE_SIZE in
  mkMBI page_va 0 0 region_size MEM_FREE 0 0.

(** The neighbour continues the queried run. *)
Definition same_run (run r : PageRun) : bool :=
  bool_decide (pr_state r = pr_state run)
  && (bool_decide (pr_state run ≠ Committed) || bool_decide (pr_protect r = pr_protect run)).

Definition extend_left_step (pm : PageMap) (run : PageRun) (alloc_start run_start : u64) : u64 + u64 :=
  if decide (alloc_start < run_start) then
    match PageMap.lookup pm (sat_sub run_start 1) with
    | Some r => if same_run run r then inl (Z.max (pr_start_page r) alloc_start) else inr run_start
    | None => inr run_start
    end
  else inr run_start.

Definition extend_right_step (pm : PageMap) (run : PageRun) (alloc_end run_end : u64) : u64 + u64 :=
  if decide (run_end < alloc_end) then
    match PageMap.lookup pm run_end with
    | Some r => if same_run run r then inl (Z.min (pr_end_page r) alloc_end) else inr run_end
    | None => inr run_end
    end
  else inr run_end.

(** The position a loop ends at (fuel never runs out on well-formed maps). *)
Definition settle (r : u64 + u64) : u64 := match r with inl x | inr x => x end.

Definition virtual_query (g : GuestMemory) (addr : u64) : MemoryBasicInformation :=
  let page_va := align_down addr PAGE_SIZE in
  let page_key := Z.shiftr page_va 12 in
  match PageMap.lookup (pages g) page_key, VadTable.find (vads g) page_va with
  | Some run, Some node =>
      let alloc_start_page := Z.shiftr (allocation_base node) 12 in
      let alloc_end_page := Z.shiftr (vn_end node) 12 in
      let run_start := Z.max (pr_start_page run) alloc_start_page in
      let run_end := Z.min (pr_end_page run) alloc_end_page in
      let run_start := if decide (page_key < run_start) then page_key else run_start in
      let run_end := if decide (run_end ≤ page_key) then sat_add page_key 1 else run_end in
      let run_start := settle (iter_until (fuel_of (Z.max 0 (run_start - alloc_start_page)))
                                 (extend_left_step (pages g) run alloc_start_page) run_start) in
      let run_end := settle (iter_until (fuel_of (Z.max 0 (alloc_end_page - run_end)))
                               (extend_right_step (pages g) run alloc_end_page) run_end) in
      let base_address := sat_mul run_start PAGE_SIZE in
      let region_size := sat_mul (sat_sub run_end run_start) PAGE_SIZE in
      let '(state, protect) :=
        match pr_state run with
        | Committed => (MEM_COMMIT, pr_protect run)
        | Reserved => (MEM_RESERVE, 0)
        | Free => (MEM_FREE, 0)
        end in
      mkMBI base_address (allocation_base node) (allocation_protect node) region_size state protect
            (win32 (mem_type node))
  | _, _ => query_free g page_va
  end.
