(* ===== verification/mem_access.v ===== *)
(** * Guest reads, writes and host pointers: correctness

    The invariant of [GuestMemory] and the theorems on the data plane: what
    [write], [read] and the host pointers handed out (spans, TLB entries, JIT
    pins) mean in terms of the page view and the guest bytes. *)

From S2P Require Import Prelude protect pagemap vad arena region mem.

(** ** The invariant *)

Definition node_aligned (n : VadNode) : Prop :=
  allocation_base n mod 4096 = 0 ∧ vn_size n mod 4096 = 0.

Record gm_wf (g : GuestMemory) : Prop := {
  gw_backend : arena.wf (backend g);
  gw_pages : PageMap.wf (pages g);
  gw_vads : VadTable.wf (vads g);
  gw_aligned : Forall node_aligned (vads g);
  (* a page the software page map knows has host storage *)
  gw_backed : ∀ q, is_Some (PageMap.view (pages g) q) → is_Some (tr (arenas (backend g)) (q * 4096));
}.

(** The guest-visible contents: which pages exist, and the bytes. *)
Definition gview (g : GuestMemory) : Z → option (PageState * u32) := PageMap.view (pages g).
Definition gbyte (g : GuestMemory) : Z → option u8 := byte_at (backend g).

(** What the software check of an access answers. *)
Definition spc (g : GuestMemory) (va len : Z) (kind : AccessKind) : res unit :=
  if decide (len = 0) then Ok tt
  else if decide (va + len < u64_lim)
  then PageMap.check_pages (gview g) va kind
         (seqZ (va / 4096) ((va + len - 1) / 4096 + 1 - va / 4096))
  else Err (Message ("access overflow at " +:+ fmt_hex va +:+ "+" +:+ fmt_hex len)).

(** Equal up to the page map's lookup cache. *)
Record same_but_cache (g g' : GuestMemory) : Prop := {
  sc_backend : backend g' = backend g;
  sc_regions : regions g' = regions g;
  sc_runs : runs (pages g') = runs (pages g);
  sc_vads : vads g' = vads g;
  sc_generation : generation g' = generation g;
}.

Lemma same_but_cache_refl g : same_but_cache g g.
Proof. by split. Qed.

Lemma same_but_cache_trans g1 g2 g3 : same_but_cache g1 g2 → same_but_cache g2 g3 → same_but_cache g1 g3.
Proof. intros [] []. split; congruence. Qed.

Lemma same_gview g g' : same_but_cache g g' → gview g' = gview g.
Proof. intros [_ _ Hr _ _]. unfold gview, PageMap.view. by rewrite Hr. Qed.

Lemma gm_wf_same g g' : gm_wf g → same_but_cache g g' → PageMap.wf (pages g') → gm_wf g'.
Proof.
  intros [H1 H2 H3 H4 H5] Hs Hp. pose proof (same_gview _ _ Hs) as Hv. destruct Hs as [E1 E2 E3 E4 E5].
  split; rewrite ?E1, ?E4; try done. intros q. unfold gview in Hv. rewrite Hv. apply H5.
Qed.

Lemma access_check g va len kind :
  gm_wf g → in_u64 va → in_u64 len →
  ∃ g', on_pages (PageMap.check_access va len kind) g = (g', spc g va len kind) ∧
    same_but_cache g g' ∧ gm_wf g'.
Proof.
  intros Hwf Hva Hlen.
  destruct (PageMap.check_access_holds (pages g) va len kind (gw_pages _ Hwf) Hva Hlen)
    as (pm & Hpm & Hr & Hc).
  unfold on_pages, zoom. rewrite Hc. eexists. split; [reflexivity|].
  assert (Hs : same_but_cache g (set_pages pm g)) by (by split).
  split; [done|]. by apply (gm_wf_same g).
Qed.

(** ** What a granted access guarantees *)

Lemma check_pages_ok f va kind ps :
  PageMap.check_pages f va kind ps = Ok tt →
  ∀ p, p ∈ ps → ∃ pr, f p = Some (Committed, pr) ∧ allows pr kind = true.
Proof.
  induction ps as [|q ps IH]; simpl; [intros _ p []%elem_of_nil|].
  unfold PageMap.page_verdict. intros H p [->|Hp]%elem_of_cons.
  - destruct (f q) as [[st pr]|]; [|done]. case_decide as Hst; [done|].
    subst st. destruct (allows pr kind) eqn:E; [eauto|done].
  - apply IH; [|done]. destruct (f q) as [[st pr]|]; [|done]. case_decide; [done|].
    by destruct (allows pr kind).
Qed.

Lemma spc_ok g va len kind :
  gm_wf g → in_u64 va → in_u64 len → spc g va len kind = Ok tt →
  (len = 0 ∨ va + len < u64_lim) ∧
  ∀ x, va ≤ x < va + len →
    (∃ pr, gview g (x / 4096) = Some (Committed, pr) ∧ allows pr kind = true) ∧
    is_Some (tr (arenas (backend g)) x).
Proof.
  intros Hwf [Hva _] [Hlen _] Hok. unfold spc in Hok. case_decide as Hz; [split; [auto|lia]|].
  case_decide as Hlim; [|done]. split; [auto|]. intros x Hx.
  assert (Hp : ∃ pr, gview g (x / 4096) = Some (Committed, pr) ∧ allows pr kind = true).
  { apply (check_pages_ok _ _ _ _ Hok). apply elem_of_seqZ.
    assert (va / 4096 ≤ x / 4096) by (apply Z.div_le_mono; lia).
    assert (x / 4096 ≤ (va + len - 1) / 4096) by (apply Z.div_le_mono; lia). lia. }
  split; [done|]. destruct Hp as (pr & Hp & _).
  destruct (gw_backed _ Hwf (x / 4096)) as [p Hpp]; [unfold gview in Hp; by rewrite Hp|].
  rewrite (tr_page _ (gw_backend _ Hwf) (x / 4096 * 4096) x); [rewrite Hpp; eauto|].
  rewrite Z.div_mul by lia. done.
Qed.

(** The host lets the emulator do what the guest may do: a committed page the
    guest may write is host-writable, one it may read or execute is
    host-readable.  Weaker than every page being read-write on the host
    ([mem_safe.host_rw]), which a mirrored protection ends; it fails only on
    a page whose mirrored protection is out of date. *)
Definition host_bit (k : AccessKind) : Z := match k with Write => PROT_WRITE | _ => PROT_READ end.

Definition host_grants (g : GuestMemory) : Prop :=
  ∀ x p pr k, tr (arenas (backend g)) x = Some p → gview g (x / 4096) = Some (Committed, pr) →
    allows pr k = true → unit_allows (os_state (backend g)) (host_bit k) p = true.

Lemma host_grants_kept g g' :
  gview g' = gview g → arenas (backend g') = arenas (backend g) →
  h_prot (os_state (backend g')) = h_prot (os_state (backend g)) → host_grants g → host_grants g'.
Proof.
  intros Hv Ha Hp Hg x p pr k Hx Hpr Hk. rewrite Hv in Hpr. rewrite Ha in Hx.
  rewrite (unit_allows_prot _ _ _ _ Hp). by eapply Hg.
Qed.

Lemma host_grants_same g g' : same_but_cache g g' → host_grants g → host_grants g'.
Proof. intros Hs. apply host_grants_kept; [by apply same_gview|by rewrite (sc_backend _ _ Hs)..]. Qed.

Lemma host_grants_spc g va n k :
  gm_wf g → host_grants g → in_u64 va → in_u64 n → spc g va n k = Ok tt → host_allows (backend g) (host_bit k) va n.
Proof.
  intros Hwf Hg Hva Hn Hspc x p Hx Hp. destruct (spc_ok g va n k Hwf Hva Hn Hspc) as [_ Hok].
  destruct (Hok x Hx) as [(pr & Hv & Hk) _]. by eapply Hg.
Qed.

Lemma writable_readable p : allows_write p = true → allows_read p = true.
Proof.
  unfold allows_write, allows_read. rewrite !matches_spec, !elem_of_cons. tauto.
Qed.

(** ** [write] *)

(** After the first [off] bytes: only bytes changed. *)
Record gwritten (g : GuestMemory) (va : Z) (bytes : list u8) (off : nat) (g' : GuestMemory) : Prop := {
  gwr_backend : written (backend g) va bytes off (backend g');
  gwr_regions : regions g' = regions g;
  gwr_pages : pages g' = pages g;
  gwr_vads : vads g' = vads g;
  gwr_generation : generation g' = generation g;
}.

Lemma gwritten_wf g va bytes off g' : gm_wf g → gwritten g va bytes off g' → gm_wf g'.
Proof.
  intros [H1 H2 H3 H4 H5] [Hb Hr Hp Hv Hg]. split; rewrite ?Hp, ?Hv; try done.
  - apply Hb.
  - intros q Hq. rewrite (wr_arenas _ _ _ _ _ Hb). by apply H5.
Qed.

Section Write.
Context (g : GuestMemory) (va : Z) (bytes : list u8) (Hwf : gm_wf g) (Hva : 0 ≤ va).
Context (Hback : ∀ x, va ≤ x < va + Z.of_nat (length bytes) → is_Some (tr (arenas (backend g)) x)).
(** What has been stored was allowed by the host. *)
Definition gwrite_inv (x : Z * u64) (g' : GuestMemory) : Prop :=
  0 ≤ x.1 ≤ Z.of_nat (length bytes) ∧ x.2 = va + x.1 ∧ gwritten g va bytes (Z.to_nat x.1) g' ∧
  host_allows (backend g) PROT_WRITE va x.1.

(** The loop ends with every byte stored, or with the fault of the first byte
    the host refuses. *)
Definition gwrite_end (g' : GuestMemory) (r : res unit) : Prop :=
  match r with
  | Ok _ => gwritten g va bytes (length bytes) g' ∧ host_allows (backend g) PROT_WRITE va (Z.of_nat (length bytes))
  | Abort HostFault => ¬ host_allows (backend g) PROT_WRITE va (Z.of_nat (length bytes))
  | _ => False
  end.

(** A store of bytes that lie together, at an address of the range. *)
Lemma host_store_cases g1 y p bs :
  h_prot (os_state (backend g1)) = h_prot (os_state (backend g)) →
  (∀ i, 0 ≤ i < Z.of_nat (length bs) → tr (arenas (backend g)) (y + i) = Some (p + i)) →
  (host_allows (backend g) PROT_WRITE y (Z.of_nat (length bs)) ∧
    host_store p bs (os_state (backend g1)) =
      (mkHost (put_bytes p bs (h_bytes (os_state (backend g1)))) (h_prot (os_state (backend g1))), Ok tt)) ∨
  (¬ host_allows (backend g) PROT_WRITE y (Z.of_nat (length bs)) ∧
    host_store p bs (os_state (backend g1)) = (os_state (backend g1), Abort HostFault)).
Proof.
  intros Hp Htr. unfold host_store.
  destruct (forallb _ _) eqn:E; [left|right]; (split; [|done]).
  - rewrite forallb_forall in E. intros x q Hx Hq.
    specialize (Htr (x - y) ltac:(lia)). replace (y + (x - y)) with x in Htr by lia. rewrite Htr in Hq. injection Hq as <-.
    rewrite <- (unit_allows_prot _ _ _ _ Hp). apply E, list_elem_of_In, elem_of_seqZ. lia.
  - intros Hal. apply not_true_iff_false in E. apply E, forallb_forall. intros q Hq%list_elem_of_In%elem_of_seqZ.
    rewrite (unit_allows_prot _ _ _ _ Hp). apply (Hal (y + (q - p))); [lia|]. rewrite Htr by lia. f_equal. lia.
Qed.

Lemma host_allows_join s bit a n m :
  0 ≤ n → host_allows s bit a n → host_allows s bit (a + n) m → host_allows s bit a (n + m).
Proof.
  intros Hn H1 H2 x p Hx. destruct (decide (x < a + n)); [apply H1; lia|apply H2; lia].
Qed.

Lemma gwrite_step x g1 :
  gwrite_inv x g1 →
  match gm_write_body bytes (generation g) x g1 with
  | (g2, Ok (inl x')) => gwrite_inv x' g2 ∧
      0 ≤ Z.of_nat (length bytes) - x'.1 < Z.of_nat (length bytes) - x.1
  | (g2, Ok (inr _)) => gwrite_end g2 (Ok tt)
  | (g2, Err e) => gwrite_end g2 (Err e)
  | (g2, Abort w) => gwrite_end g2 (Abort w)
  end.
Proof.
  destruct x as [off y]. intros (Hoff & Hy0 & Hw & Hal). cbn [fst snd] in *. subst y. unfold gm_write_body.
  case_decide as Hlt.
  2:{ assert (Z.of_nat (length bytes) = off) as E by lia. split; [|by rewrite E].
      by replace (length bytes) with (Z.to_nat off) by lia. }
  pose proof (gwr_backend _ _ _ _ _ Hw) as Hwb. pose proof (wr_arenas _ _ _ _ _ Hwb) as Ha.
  destruct (Hback (va + off) ltac:(lia)) as [p Hp].
  rewrite (write_ptr_spec (backend g1) (wr_wf _ _ _ _ _ Hwb)), Ha, Hp.
  rewrite decide_False by (rewrite (gwr_generation _ _ _ _ _ Hw); tauto).
  rewrite length_drop. unfold PAGE_SIZE, PAGE_SIZE_USIZE. change (0x1000 - 1) with 4095.
  rewrite land_4095. set (y := va + off) in *.
  pose proof (Z.mod_pos_bound y 4096 ltac:(lia)) as Hm. pose proof (Z.div_mod y 4096 ltac:(lia)) as Hd.
  rewrite sat_sub_le by lia. set (c := Z.min _ _).
  assert (Hc : 0 < c ≤ Z.of_nat (length bytes) - off ∧ c ≤ 4096 - y mod 4096) by (unfold c; lia).
  clearbody c. destruct (tr_bounds _ (gw_backend _ Hwf) _ _ Hp) as [Hy _].
  assert (Htr : ∀ i, 0 ≤ i < c → tr (arenas (backend g)) (y + i) = Some (p + i)).
  { intros i Hi. rewrite (tr_page _ (gw_backend _ Hwf) y (y + i)).
    - rewrite Hp. simpl. f_equal. lia.
    - symmetry. apply Z.div_unique with (r := y mod 4096 + i); lia. }
  assert (Hlim : y + c < u64_lim).
  { destruct (tr_bounds _ (gw_backend _ Hwf) (y + (c - 1)) (p + (c - 1))); [apply Htr; lia|lia]. }
  assert (Hlc : Z.of_nat (length (take (Z.to_nat c) (drop (Z.to_nat off) bytes))) = c)
    by (rewrite length_take, length_drop; lia).
  unfold mbind, M_bind, on_backend, on_host, zoom.
  destruct (host_store_cases g1 y p (take (Z.to_nat c) (drop (Z.to_nat off) bytes)) (wr_prot _ _ _ _ _ Hwb)) as [[Hal' ->]|[Hno ->]];
    rewrite ?Hlc in *; [done| |].
  2:{ intros Hall. apply Hno. intros x q Hx. apply Hall. lia. }
  simpl. unfold sat_add. rewrite !Z.min_l by lia. split; [|lia].
  unfold gwrite_inv. cbn [fst snd]. split_and!; [lia|lia|lia| |by apply host_allows_join; [lia|..]].
  rewrite Z2Nat.inj_add by lia. destruct Hw as [_ H2 H3 H4 H5]. split; try done. simpl.
  apply written_chunk; [done|lia|]. intros i Hi.
  replace (va + Z.of_nat (Z.to_nat off) + i) with (y + i) by lia. apply Htr. lia.
Qed.

Lemma gwrite_loop :
  ∃ g' r, loopM (fuel_of (Z.of_nat (length bytes))) (gm_write_body bytes (generation g)) (0, va) g = (g', r) ∧
    gwrite_end g' r.
Proof.
  set (l := loopM _ _ _ g). cut (gwrite_end l.1 l.2).
  { destruct l as [g' r]. simpl. eauto. }
  apply (loopM_rule (gm_write_body bytes (generation g)) gwrite_inv gwrite_end (λ x, Z.of_nat (length bytes) - x.1)).
  - intros x g1 Hx. pose proof (gwrite_step x g1 Hx) as H.
    by destruct (gm_write_body bytes (generation g) x g1) as [g2 [[x'|[]]|e|w]].
  - unfold gwrite_inv. simpl. split_and!; try lia; [|intros ? ? ?; lia]. split; try done. apply written_nil, Hwf.
  - cbn [fst snd]. split; [lia|]. rewrite Z.sub_0_r. apply fuel_of_spec. lia.
Qed.
End Write.

(** A write that passes the software check: all of it, or a host fault. *)
Lemma gm_write_loop g va bytes :
  gm_wf g → in_u64 va → in_u64 (Z.of_nat (length bytes)) → spc g va (Z.of_nat (length bytes)) Write = Ok tt →
  ∃ g1 g' r, same_but_cache g g1 ∧ gm_wf g1 ∧ write va bytes g = (g', r) ∧ gwrite_end g1 va bytes g' r.
Proof.
  intros Hwf Hva Hlen Espc. unfold write, get.
  destruct (access_check g va (Z.of_nat (length bytes)) Write Hwf Hva Hlen) as (g1 & Hc & Hs & Hwf1).
  unfold mbind, M_bind. rewrite Hc, Espc, <- (sc_generation _ _ Hs).
  destruct (spc_ok g va _ Write Hwf Hva Hlen Espc) as [_ Hok].
  destruct (gwrite_loop g1 va bytes Hwf1) as (g2 & r & Hl & Hw).
  { apply Hva. }
  { intros x Hx. rewrite (sc_backend _ _ Hs). by apply Hok. }
  rewrite Hl. by exists g1, g2, r.
Qed.

Lemma gm_write_holds g va bytes :
  gm_wf g → in_u64 va → in_u64 (Z.of_nat (length bytes)) →
  (spc g va (Z.of_nat (length bytes)) Write = Ok tt → host_allows (backend g) PROT_WRITE va (Z.of_nat (length bytes))) →
  ∃ g', write va bytes g = (g', spc g va (Z.of_nat (length bytes)) Write) ∧ gm_wf g' ∧
    gview g' = gview g ∧ vads g' = vads g ∧ regions g' = regions g ∧ generation g' = generation g ∧
    arenas (backend g') = arenas (backend g) ∧
    h_prot (os_state (backend g')) = h_prot (os_state (backend g)) ∧
    ∀ x, gbyte g' x =
      if is_ok (spc g va (Z.of_nat (length bytes)) Write) && bool_decide (va ≤ x < va + Z.of_nat (length bytes))
      then bytes !! Z.to_nat (x - va) else gbyte g x.
Proof.
  intros Hwf Hva Hlen Hal.
  destruct (spc g va (Z.of_nat (length bytes)) Write) as [[]|e|w] eqn:Espc.
  2,3: unfold write, get; destruct (access_check g va (Z.of_nat (length bytes)) Write Hwf Hva Hlen) as (g1 & Hc & Hs & Hwf1);
    unfold mbind, M_bind; rewrite Hc, Espc; pose proof (same_gview _ _ Hs) as Hv;
    exists g1; destruct Hs as [E1 E2 E3 E4 E5]; unfold gbyte; rewrite E1; by split_and!.
  destruct (gm_write_loop g va bytes Hwf Hva Hlen Espc) as (g1 & g2 & r & Hs & Hwf1 & Hl & Hw).
  pose proof (same_gview _ _ Hs) as Hv. unfold gwrite_end in Hw. rewrite (sc_backend _ _ Hs) in Hw.
  destruct r as [[]|e|[]]; [|done..|by destruct Hw; apply Hal|done].
  destruct Hw as [Hw _]. rewrite Hl. exists g2. pose proof (gwritten_wf _ _ _ _ _ Hwf1 Hw) as Hwf2.
  destruct Hw as [Hb Hr Hp Hvd Hg], Hs as [E1 E2 E3 E4 E5].
  split; [done|]. split; [done|]. split; [unfold gview in *; by rewrite Hp|].
  rewrite Hvd, Hr, Hg, E4, E2, E5. split_and!; try done.
  - rewrite (wr_arenas _ _ _ _ _ Hb). by rewrite E1.
  - rewrite (wr_prot _ _ _ _ _ Hb). by rewrite E1.
  - intros x. unfold gbyte. rewrite (wr_bytes _ _ _ _ _ Hb), E1. simpl.
    by case_bool_decide; case_decide.
Qed.

(** C6 A guest write does what the software permission check says and nothing
    else.  If a page of the range is not committed and writable it returns
    the check's error for the first such page and no byte changes.  If they
    all are, everything depends on the protection the host pages under the
    range have: when each of them lets the emulator write, the write succeeds
    and stores exactly the bytes of the range, and page states, reservations,
    host protections and the generation are untouched; when one does not, the
    write ends in a host fault that kills the emulator.  The second case needs
    the mirroring of protections (WIE_MPROTECT, on by default) and a host page
    left with a stale protection, as in [stale_host_protection_faults]. *)
Theorem gm_write_spec g va bytes :
  gm_wf g → in_u64 va → in_u64 (Z.of_nat (length bytes)) →
  (spc g va (Z.of_nat (length bytes)) Write = Ok tt →
    ¬ host_allows (backend g) PROT_WRITE va (Z.of_nat (length bytes)) →
    (write va bytes g).2 = Abort HostFault) ∧
  ((spc g va (Z.of_nat (length bytes)) Write = Ok tt →
      host_allows (backend g) PROT_WRITE va (Z.of_nat (length bytes))) →
    ∃ g', write va bytes g = (g', spc g va (Z.of_nat (length bytes)) Write) ∧ gm_wf g' ∧
      gview g' = gview g ∧ vads g' = vads g ∧ regions g' = regions g ∧ generation g' = generation g ∧
      arenas (backend g') = arenas (backend g) ∧
      h_prot (os_state (backend g')) = h_prot (os_state (backend g)) ∧
      ∀ x, gbyte g' x =
        if is_ok (spc g va (Z.of_nat (length bytes)) Write) && bool_decide (va ≤ x < va + Z.of_nat (length bytes))
        then bytes !! Z.to_nat (x - va) else gbyte g x).
Proof.
  intros Hwf Hva Hlen. split; [|by apply gm_write_holds]. intros Espc Hno.
  destruct (gm_write_loop g va bytes Hwf Hva Hlen Espc) as (g1 & g2 & r & Hs & _ & -> & Hw).
  unfold gwrite_end in Hw. rewrite (sc_backend _ _ Hs) in Hw. destruct r as [?|?|[]]; simpl; tauto.
Qed.

(** ** [read] *)

Lemma prefix_bytes_backed s va n :
  (∀ x, va ≤ x < va + Z.of_nat n → is_Some (tr (arenas s) x)) →
  length (prefix_bytes (byte_at s) va n) = n ∧
  ∀ i, (i < n)%nat → prefix_bytes (byte_at s) va n !! i = byte_at s (va + Z.of_nat i).
Proof.
  intros Hb. assert (Hl : length (prefix_bytes (byte_at s) va n) = n).
  { apply prefix_bytes_full. intros i Hi. apply byte_at_is_Some, Hb. lia. }
  split; [done|]. intros i Hi. apply prefix_bytes_lookup. lia.
Qed.

Lemma splice_all (src buf : list u8) : length src = length buf → splice 0 src buf = src.
Proof. intros H. unfold splice. simpl. rewrite drop_ge by lia. apply app_nil_r. Qed.

(** A guest read does what the software permission check says: if every page
    of the range is committed and readable, and the host lets the emulator read
    it, it succeeds and the buffer holds exactly the bytes of the range; when
    the check refuses it returns the check's error and the buffer is untouched.  Guest memory never changes. *)
Lemma gm_read_spec g va buf :
  gm_wf g → in_u64 va → in_u64 (Z.of_nat (length buf)) →
  (spc g va (Z.of_nat (length buf)) Read = Ok tt → host_allows (backend g) PROT_READ va (Z.of_nat (length buf))) →
  ∃ g' buf', read va (g, buf) = ((g', buf'), spc g va (Z.of_nat (length buf)) Read) ∧ gm_wf g' ∧
    same_but_cache g g' ∧ length buf' = length buf ∧
    match spc g va (Z.of_nat (length buf)) Read with
    | Ok _ => ∀ i, (i < length buf)%nat → buf' !! i = gbyte g (va + Z.of_nat i)
    | _ => buf' = buf
    end.
Proof.
  intros Hwf Hva Hlen Hal. unfold read, get.
  destruct (access_check g va (Z.of_nat (length buf)) Read Hwf Hva Hlen) as (g1 & Hc & Hs & Hwf1).
  unfold mbind, M_bind. simpl. unfold with_buf, zoom at 1. simpl. rewrite Hc.
  destruct (spc g va (Z.of_nat (length buf)) Read) as [[]|e|w] eqn:Espc;
    [|exists g1, buf; by split_and!..].
  destruct (spc_ok g va _ Read Hwf Hva Hlen Espc) as [_ Hok]. simpl.
  rewrite decide_False by (rewrite (sc_generation _ _ Hs); tauto).
  unfold on_buf, zoom. simpl. rewrite arena_read_spec.
  2:{ apply Hwf1. }
  2:{ apply Hva. }
  2:{ rewrite (sc_backend _ _ Hs). by apply Hal. }
  unfold read_result. rewrite Nat.sub_0_r, (sc_backend _ _ Hs).
  destruct (prefix_bytes_backed (backend g) va (length buf)) as [Hl Hi].
  { intros x Hx. by apply Hok. }
  rewrite Hl, decide_True by done. exists g1, (prefix_bytes (byte_at (backend g)) va (length buf)).
  rewrite splice_all by done. split_and!; try done.
Qed.

(** Reading a range back after a successful write returns the bytes
    written, when the pages are also readable. *)
Theorem read_after_write g va bytes buf g' :
  gm_wf g → in_u64 va → in_u64 (Z.of_nat (length bytes)) → length buf = length bytes →
  host_allows (backend g) PROT_WRITE va (Z.of_nat (length bytes)) →
  host_allows (backend g) PROT_READ va (Z.of_nat (length bytes)) →
  spc g va (Z.of_nat (length bytes)) Read = Ok tt →
  write va bytes g = (g', Ok tt) →
  (read va (g', buf)).1.2 = bytes ∧ (read va (g', buf)).2 = Ok tt.
Proof.
  intros Hwf Hva Hlen Hbuf Hw Hr Hspc Hwrite.
  destruct (gm_write_holds g va bytes Hwf Hva Hlen (λ _, Hw)) as
    (g1 & Hw1 & Hwf1 & Hv1 & _ & _ & _ & Ha1 & Hp1 & Hb1).
  rewrite Hwrite in Hw1. injection Hw1 as <- Hok. rewrite <- Hok in Hb1.
  assert (Hspc' : spc g' va (Z.of_nat (length buf)) Read = Ok tt).
  { unfold spc in *. by rewrite Hv1, Hbuf. }
  destruct (gm_read_spec g' va buf Hwf1 Hva) as (g2 & buf' & Hrd & _ & _ & Hl & Hres);
    [by rewrite Hbuf|rewrite Hbuf; intros _; by apply (host_allows_same (backend g))|].
  rewrite Hrd, Hspc'. rewrite Hspc' in Hres. simpl. split; [|done].
  apply list_eq. intros i. destruct (decide (i < length bytes)%nat) as [Hi|Hi].
  - rewrite Hres by lia. rewrite Hb1. simpl. rewrite bool_decide_true by lia. f_equal. lia.
  - rewrite !lookup_ge_None_2 by lia. done.
Qed.

(** ** Host pointers *)

(** [p] is a faithful alias of the guest range [va, va+len): byte [i] of the
    guest range lives at host address [p + i]. *)
Definition host_alias (g : GuestMemory) (p va len : Z) : Prop :=
  ∀ i, 0 ≤ i < len → tr (arenas (backend g)) (va + i) = Some (p + i).

(** The software check grants [kind] on the whole range. *)
Definition granted (g : GuestMemory) (va len : Z) (kind : AccessKind) : Prop :=
  ∀ x, va ≤ x < va + len →
    ∃ pr, gview g (x / 4096) = Some (Committed, pr) ∧ allows pr kind = true.

(** No page of the range is committed and executable. *)
Definition no_execute (g : GuestMemory) (va len : Z) : Prop :=
  ∀ x pr, va ≤ x < va + len → gview g (x / 4096) = Some (Committed, pr) → allows_execute pr = false.

Lemma lookup_view g q :
  gm_wf g → gview g q = (λ r, (pr_state r, pr_protect r)) <$> PageMap.lookup (pages g) q.
Proof. intros Hwf. rewrite PageMap.lookup_run_at by apply Hwf. done. Qed.

(** A run found at a page covers it, and every page it covers looks the same. *)
Lemma lookup_run g q r :
  gm_wf g → PageMap.lookup (pages g) q = Some r →
  0 ≤ pr_start_page r ≤ q ∧ q < pr_end_page r ∧ pr_end_page r < 4503599627370496 ∧ pr_state r ≠ Free ∧
  ∀ q', pr_start_page r ≤ q' < pr_end_page r → gview g q' = Some (pr_state r, pr_protect r).
Proof.
  intros Hwf Hl. rewrite PageMap.lookup_run_at in Hl by apply Hwf.
  pose proof (PageMap.wf_runs _ (gw_pages _ Hwf)) as Hr.
  apply PageMap.run_at_spec in Hl as [Hin Hq]; [|done].
  destruct (PageMap.wf_run _ Hr _ _ Hin) as (_ & ? & ? & ?).
  split_and!; try done; try lia. intros q' Hq'. apply PageMap.view_runs_Some; [done|]. eauto.
Qed.

Lemma page_of_range va len x : va ≤ x < va + len → va / 4096 ≤ x / 4096 ≤ (va + len - 1) / 4096.
Proof. intros. split; apply Z.div_le_mono; lia. Qed.

Lemma range_allows_execute_spec g va len :
  gm_wf g → in_u64 va → 0 < len → va + len < u64_lim →
  range_allows_execute g va len = false → no_execute g va len.
Proof.
  intros Hwf [Hva _] Hlen Hlim. unfold range_allows_execute. rewrite decide_False by lia.
  rewrite (proj2 (checked_add_Some va len (va + len))) by lia.
  unfold PAGE_SHIFT. rewrite !shiftr_12, sat_sub_le by lia.
  set (first := va / 4096). set (last := (va + len - 1) / 4096).
  assert (Hfl : first ≤ last) by (apply Z.div_le_mono; lia).
  assert (Hlast : last < 4503599627370496) by (apply Z.div_lt_upper_bound; lia).
  assert (0 ≤ first) by (apply Z.div_pos; lia).
  destruct (iter_until_rule (range_execute_step (pages g) last)
    (λ page, first ≤ page ∧ ∀ q pr, first ≤ q < page → gview g q = Some (Committed, pr) → allows_execute pr = false)
    (λ b, b = false → ∀ q pr, first ≤ q ≤ last → gview g q = Some (Committed, pr) → allows_execute pr = false)
    (λ page, Z.max 0 (last + 1 - page)) (fuel_of (Z.max 0 (last + 1 - first))) first) as (b & -> & Hb).
  - intros page [Hge Hno]. unfold range_execute_step. case_decide as Hle.
    2:{ intros _ q pr Hq. apply Hno. lia. }
    destruct (PageMap.lookup (pages g) page) as [r|] eqn:El.
    + destruct (lookup_run g page r Hwf El) as (H1 & H2 & H3 & H4 & H5).
      destruct (bool_decide (pr_state r = Committed) && allows_execute (pr_protect r)) eqn:Ex; [done|].
      rewrite decide_False by lia. split; [|lia]. split; [lia|]. intros q pr Hq Hv.
      destruct (decide (q < page)); [apply (Hno q pr); [lia|done]|]. rewrite H5 in Hv by lia.
      injection Hv as Hst <-. rewrite bool_decide_true in Ex by exact Hst. exact Ex.
    + unfold sat_add. rewrite Z.min_l by lia. split; [|lia]. split; [lia|]. intros q pr Hq Hv.
      destruct (decide (q < page)); [apply (Hno q pr); [lia|done]|]. assert (q = page) as -> by lia.
      rewrite lookup_view, El in Hv by done. done.
  - split; [lia|]. intros q pr ?. lia.
  - split; [lia|]. apply fuel_of_spec. lia.
  - intros Hf x pr Hx. apply (Hb Hf). apply page_of_range. lia.
Qed.

(** The one-page resolution shared by spans and the JIT's TLB. *)
Lemma page_tlb_entry_spec g q e :
  gm_wf g → 0 ≤ q < 4503599627370496 → page_tlb_entry g q = Some e →
  ∃ pr, gview g q = Some (Committed, pr) ∧
    host_alias g (tlb_host e) (q * 4096) 4096 ∧
    tlb_allow_r e = allows_read pr ∧ tlb_allow_w e = allows_write pr && negb (allows_execute pr) ∧
    tlb_generation e = generation g.
Proof.
  intros Hwf Hq He. unfold page_tlb_entry, page_protect_meta in He.
  destruct (PageMap.lookup (pages g) q) as [r|] eqn:El; simpl in He; [|done].
  case_decide as Hst; [done|]. case_match eqn:Em; [done|]. simpl in He.
  rewrite (page_data_ptr_spec _ (gw_backend _ Hwf) q Hq) in He.
  destruct (tr (arenas (backend g)) (q * 4096)) as [p|] eqn:Ep; simpl in He; [|done].
  injection He as <-. exists (pr_protect r). simpl. rewrite (lookup_view g q Hwf), El. simpl.
  split; [by rewrite Hst|]. split; [|done]. intros i Hi.
  rewrite (tr_page _ (gw_backend _ Hwf) (q * 4096)), Ep; [simpl; f_equal; lia|].
  rewrite Z.div_mul by lia. rewrite Z.add_comm, Z.div_add by lia. rewrite Z.div_small; lia.
Qed.

(** Two addresses with the same arena base share an arena, and everything
    between them translates contiguously. *)
Lemma arena_span g lo hi base :
  gm_wf g → lo ≤ hi →
  arena_guest_base_for_va (arenas (backend g)) lo = Some base →
  arena_guest_base_for_va (arenas (backend g)) hi = Some base →
  ∃ a, find_va (arenas (backend g)) lo = Some a ∧ guest_base a = base ∧ base ≤ lo ∧ 0 ≤ base ∧
    0 < host a ∧ host a + (hi - base) < u64_lim - 1 ∧ hi < u64_lim - 1 ∧
    arena_host_base_for_va (arenas (backend g)) lo = Some (host a) ∧
    ∀ x, lo ≤ x ≤ hi → tr (arenas (backend g)) x = Some (host a + (x - base)).
Proof.
  intros Hwf Hle Hlo Hhi. unfold arena_guest_base_for_va, arena_host_base_for_va in *.
  pose proof (gw_backend _ Hwf) as Hb.
  apply fmap_Some in Hlo as (a & Ha & ->). apply fmap_Some in Hhi as (b & Hb' & He).
  rewrite Ha. pose proof Ha as [Hina Hla]%(find_va_Some _ Hb). pose proof Hb' as [Hinb Hlb]%(find_va_Some _ Hb).
  pose proof (arena_in _ Hb a Hina) as Hoka. pose proof (arena_in _ Hb b Hinb) as Hokb.
  rewrite guest_end_ok in Hla, Hlb by done.
  destruct Hoka as (? & ? & ? & ? & ? & ? & ? & ?), Hokb as (? & ? & ? & _ & ? & _).
  assert (b = a) as ->.
  { apply (ivl_unique guest_base guest_end (arenas (backend g)) (guest_base a)); [apply Hb|done..| |].
    - rewrite guest_end_ok by (by apply (arena_in _ Hb)). lia.
    - rewrite guest_end_ok by (by apply (arena_in _ Hb)). lia. }
  exists a. simpl. rewrite decide_False by lia. split_and!; try done; try lia.
  intros x Hx. apply (tr_Some _ Hb). exists a. split; [done|]. lia.
Qed.

Lemma host_span_holds g va len wr g' p :
  gm_wf g → in_u64 va → in_u64 len → host_span va len wr g = (g', Some p) →
  0 < len ∧ va + len < u64_lim ∧ same_but_cache g g' ∧
  granted g va len (if wr then Write else Read) ∧ host_alias g p va len ∧
  (wr = true → no_execute g va len).
Proof.
  intros Hwf Hva Hlen Hsp. unfold host_span in Hsp. case_decide as Hz; [done|].
  destruct (checked_add va len) as [e|] eqn:Ee; [|done]. apply checked_add_Some in Ee as [-> Hlim].
  destruct (access_check g va len (if wr then Write else Read) Hwf Hva Hlen) as (g1 & Hc & Hs & Hwf1).
  rewrite Hc in Hsp. destruct (spc g va len _) as [[]|e|w] eqn:Espc; [|done..].
  injection Hsp as <- Hr. destruct Hva as [Hva Hva2], Hlen as [Hlen Hlen2].
  destruct (spc_ok g va len _ Hwf ltac:(done) ltac:(done) Espc) as [_ Hok].
  split; [lia|]. split; [done|]. split; [done|]. split; [intros x Hx; by apply Hok|].
  assert (Hal : ∀ q l, host_alias g1 q va l → host_alias g q va l).
  { intros q l H i Hi. rewrite <- (sc_backend _ _ Hs). by apply H. }
  unfold host_span_resolve in Hr.
  destruct (wr && range_allows_execute g1 va len) eqn:Ex; [done|]. split.
  2:{ intros ->. simpl in Ex. apply range_allows_execute_spec in Ex; [|done..|lia|done].
      intros x pr Hx. rewrite <- (same_gview _ _ Hs). by apply Ex. }
  apply Hal. unfold PAGE_SIZE, PAGE_SIZE_USIZE, PAGE_SHIFT in Hr. change (0x1000 - 1) with 4095 in Hr.
  rewrite land_4095, shiftr_12 in Hr.
  pose proof (Z.mod_pos_bound va 4096 ltac:(lia)). pose proof (Z.div_mod va 4096 ltac:(lia)).
  case_decide as Hone.
  - destruct (page_tlb_entry g1 (va / 4096)) as [en|] eqn:Et; cbn [mbind option_bind] in Hr; [|done].
    destruct (page_tlb_entry_spec g1 (va / 4096) en Hwf1) as (pr & _ & Halias & _); [|done|].
    { split; [by apply Z.div_pos|]. apply Z.div_lt_upper_bound; lia. }
    destruct (wr && negb (tlb_allow_w en)); [done|].
    destruct (negb wr && negb (tlb_allow_r en)); [done|].
    rewrite decide_False in Hr by (rewrite (sc_generation _ _ Hs); tauto).
    injection Hr as <-. intros i Hi. unfold sat_add in Hone.
    replace (va + i) with (va / 4096 * 4096 + (va mod 4096 + i)) by lia.
    rewrite Halias by lia. f_equal. lia.
  - rewrite sat_sub_le in Hr by lia.
    destruct (arena_guest_base_for_va _ va) as [b1|] eqn:E1; cbn [mbind option_bind] in Hr; [|done].
    destruct (arena_guest_base_for_va _ (va + len - 1)) as [b2|] eqn:E2; cbn [mbind option_bind] in Hr; [|done].
    case_decide as Hb; [done|]. subst b2.
    destruct (arena_span g1 va (va + len - 1) b1 Hwf1 ltac:(lia) E1 E2)
      as (a & _ & Hb & Hle & Hb0 & Hh & _ & _ & Ehb & Htr).
    rewrite Ehb in Hr. cbn [mbind option_bind] in Hr. rewrite decide_False in Hr by lia.
    unfold checked_sub in Hr. rewrite decide_True in Hr by lia. cbn [mbind option_bind] in Hr.
    rewrite decide_False in Hr by (rewrite (sc_generation _ _ Hs); tauto).
    injection Hr as <-. intros i Hi. rewrite Htr by lia. f_equal. lia.
Qed.

(** C7 A host pointer handed out for bulk copies is a faithful alias of the
    guest range: it is given only when the software check grants the access on
    the whole range, byte [i] of the range is host byte [p + i], and a
    writable span never covers executable pages (self-modifying code has to go
    through [write]). *)
Theorem host_span_sound g va len wr g' p :
  gm_wf g → in_u64 va → in_u64 len → host_span va len wr g = (g', Some p) →
  0 < len ∧ va + len < u64_lim ∧ same_but_cache g g' ∧
  granted g va len (if wr then Write else Read) ∧ host_alias g p va len ∧
  (wr = true → no_execute g va len).
Proof. apply host_span_holds. Qed.

(** Asking for a span changes the lookup cache at most. *)
Lemma host_span_same g va len wr :
  gm_wf g → in_u64 va → in_u64 len →
  same_but_cache g (host_span va len wr g).1 ∧ gm_wf (host_span va len wr g).1.
Proof.
  intros Hwf Hva Hlen. unfold host_span. case_decide; [by split|].
  destruct (checked_add va len) as [e|]; [|by split].
  destruct (access_check g va len (if wr then Write else Read) Hwf Hva Hlen) as (g1 & -> & Hs & Hwf1).
  by destruct (spc g va len _) as [[]|?|?].
Qed.

(** ** Pins *)

(** All pages of [first, stop) are committed with rights [P]. *)
Definition pages_all (g : GuestMemory) (P : u32 → bool) (first stop : Z) : Prop :=
  ∀ q, first ≤ q < stop → ∃ pr, gview g q = Some (Committed, pr) ∧ P pr = true.

Definition soft_write (pr : u32) : bool := allows_write pr && negb (allows_execute pr).

Lemma pages_all_extend g P first q r b stop :
  gm_wf g → PageMap.lookup (pages g) q = Some r → pr_state r = Committed → first ≤ q →
  q < stop ≤ pr_end_page r →
  (b = true ↔ pages_all g P first q) →
  (b && P (pr_protect r) = true ↔ pages_all g P first stop).
Proof.
  intros Hwf Hl Hst Hq Hstop Hb. destruct (lookup_run g q r Hwf Hl) as (H1 & H2 & H3 & _ & Hv).
  rewrite andb_true_iff, Hb. split.
  - intros [Hall Hp] k Hk. destruct (decide (k < q)); [by apply Hall; lia|].
    exists (pr_protect r). rewrite Hv, Hst by lia. done.
  - intros Hall. split; [intros k Hk; apply Hall; lia|].
    destruct (Hall q ltac:(lia)) as (pr & Hpr & HP). rewrite Hv, Hst in Hpr by lia.
    congruence.
Qed.

(** The rights of the pages seen so far. *)
Definition rights_spec (g : GuestMemory) (first stop : Z) (r w : bool) : Prop :=
  pages_all g (λ _, true) first stop ∧
  (r = true ↔ pages_all g allows_read first stop) ∧
  (w = true ↔ pages_all g soft_write first stop).

Lemma rights_spec_extend g first q run r w stop :
  gm_wf g → PageMap.lookup (pages g) q = Some run → pr_state run = Committed → first ≤ q →
  q < stop ≤ pr_end_page run → rights_spec g first q r w →
  rights_spec g first stop (r && allows_read (pr_protect run)) (w && soft_write (pr_protect run)).
Proof.
  intros Hwf Hl Hst Hq Hstop (H1 & H2 & H3). split_and!.
  - by apply (pages_all_extend g (λ _, true) first q run true).
  - by eapply pages_all_extend.
  - by eapply (pages_all_extend g soft_write).
Qed.

(** The rights loop computes the intersection over every page. *)
Lemma span_pin_loop g first last :
  gm_wf g → 0 ≤ first ≤ last → last < 4503599627370496 →
  match loopO (fuel_of (Z.max 0 (last + 1 - first))) (span_pin_step (pages g) last)
          (first, true, true, false) with
  | Some (r, w, saw) => saw = true ∧ rights_spec g first (last + 1) r w
  | None => ¬ pages_all g (λ _, true) first (last + 1)
  end.
Proof.
  intros Hwf Hfl Hlim. unfold loopO.
  set (Inv := λ s : u64 * bool * bool * bool, let '(page, r, w, saw) := s in
    first ≤ page ∧ saw = bool_decide (first < page) ∧ rights_spec g first (Z.min page (last + 1)) r w).
  set (Q := λ o, match o with
      | Some (r, w, saw) => saw = true ∧ rights_spec g first (last + 1) r w
      | None => ¬ pages_all g (λ _, true) first (last + 1)
      end).
  destruct (iter_until_rule (span_pin_step (pages g) last) Inv Q
    (λ s, Z.max 0 (last + 1 - s.1.1.1)) (fuel_of (Z.max 0 (last + 1 - first))) (first, true, true, false))
    as (o & -> & Ho); [| | |exact Ho].
  - intros [[[page r] w] saw] (Hge & Hsaw & Hri). unfold span_pin_step. destruct (decide (page ≤ last)) as [Hle|Hle].
    + destruct (PageMap.lookup (pages g) page) as [run|] eqn:El.
      2:{ intros Hno. destruct (Hno page ltac:(lia)) as (pr & Hv & _).
          rewrite (lookup_view g page Hwf), El in Hv. done. }
      destruct (lookup_run g page run Hwf El) as (H1 & H2 & H3 & _ & Hv).
      destruct (decide (pr_state run ≠ Committed)) as [Hst|Hst%dec_stable].
      { intros Hno. destruct (Hno page ltac:(lia)) as (pr & Hv' & _). rewrite Hv in Hv' by lia. congruence. }
      rewrite decide_False by lia. rewrite decide_False by lia. simpl. split; [|lia].
      split; [lia|]. split; [by rewrite bool_decide_true by lia|].
      rewrite Z.min_l in Hri by lia. eapply rights_spec_extend; try done; lia.
    + simpl. rewrite Z.min_r in Hri by lia. split; [|done]. rewrite Hsaw. by apply bool_decide_true; lia.
  - simpl. split; [lia|]. split; [by rewrite bool_decide_false by lia|]. rewrite Z.min_l by lia.
    split_and!; try (split; [|done]); intros ? ?; lia.
  - split; [cbn [fst]; lia|]. apply fuel_of_spec. lia.
Qed.

(** What a pin promises the JIT. *)
Record pin_ok (g : GuestMemory) (pin : RegionPinInfo) : Prop := {
  pk_range : 0 ≤ pin_guest_base pin < pin_guest_end pin ∧ pin_guest_end pin < u64_lim;
  pk_alias : host_alias g (pin_host_base pin) (pin_guest_base pin) (pin_guest_end pin - pin_guest_base pin);
  pk_rights : rights_spec g (pin_guest_base pin / 4096) ((pin_guest_end pin - 1) / 4096 + 1)
                (pin_allow_r pin) (pin_allow_w pin);
  pk_some : pin_allow_r pin || pin_allow_w pin = true;
  pk_generation : pin_generation pin = generation g;
}.

(** A pin handed to the JIT is exact: its host pointer aliases the whole span
    contiguously, every page of the span is committed, the read flag is set
    exactly when every page is readable and the write flag exactly when every
    page is writable and none executable, so a pin is never more permissive
    than the software check on any byte. *)
Lemma span_pin_spec g lo hi pin :
  gm_wf g → span_pin g lo hi = Some pin →
  pin_guest_base pin = lo ∧ pin_guest_end pin = hi ∧ pin_ok g pin.
Proof.
  intros Hwf Hp. unfold span_pin in Hp. case_decide as Hlt; [done|].
  destruct (arena_guest_base_for_va _ lo) as [b1|] eqn:E1; cbn [mbind option_bind] in Hp; [|done].
  destruct (arena_guest_base_for_va _ (sat_sub hi 1)) as [b2|] eqn:E2; cbn [mbind option_bind] in Hp; [|done].
  destruct (decide (b1 ≠ b2)) as [|Hb%dec_stable]; [done|]. subst b2.
  destruct (decide (0 ≤ lo)) as [Hlo0|Hneg].
  2:{ exfalso. unfold arena_guest_base_for_va in E1. apply fmap_Some in E1 as (a & Ha & ->).
      apply (find_va_Some _ (gw_backend _ Hwf)) in Ha as [Hin Ha].
      destruct (arena_in _ (gw_backend _ Hwf) a Hin) as (? & _). lia. }
  rewrite sat_sub_le in * by lia.
  destruct (arena_span g lo (hi - 1) b1 Hwf ltac:(lia) E1 E2)
    as (a & _ & Hab & Hle & Hb0 & Hh & Hhl & Hhi & Ehb & Htr).
  rewrite Ehb in Hp. cbn [mbind option_bind] in Hp. rewrite decide_False in Hp by lia.
  unfold checked_sub in Hp. rewrite decide_True in Hp by lia. cbn [mbind option_bind] in Hp.
  rewrite (proj2 (checked_add_Some (host a) (lo - b1) (host a + (lo - b1)))) in Hp by lia.
  cbn [mbind option_bind] in Hp. rewrite decide_False in Hp by lia.
  unfold PAGE_SHIFT in Hp. rewrite !shiftr_12 in Hp.
  assert (Hfl : 0 ≤ lo / 4096 ≤ (hi - 1) / 4096).
  { split; [by apply Z.div_pos|apply Z.div_le_mono; lia]. }
  pose proof (span_pin_loop g (lo / 4096) ((hi - 1) / 4096) Hwf Hfl) as Hloop.
  destruct (loopO _ _ _) as [[[r w] saw]|]; cbn [mbind option_bind] in Hp; [|done].
  destruct Hloop as [-> Hri]; [apply Z.div_lt_upper_bound; lia|]. cbn [mbind option_bind] in Hp.
  destruct (negb r && negb w) eqn:Erw; [done|]. injection Hp as <-. split_and!; [done..|].
  split; simpl; [lia| |done| |done].
  - intros i Hi. rewrite Htr by lia. f_equal. lia.
  - by destruct r, w.
Qed.

(** Two pins that do not share a guest address. *)
Definition pins_disjoint (p q : RegionPinInfo) : Prop :=
  pin_guest_end p ≤ pin_guest_base q ∨ pin_guest_end q ≤ pin_guest_base p.

(** A pin built by [span_pin] for its own span. *)
Definition is_pin (g : GuestMemory) (p : RegionPinInfo) : Prop :=
  ∃ lo hi, span_pin g lo hi = Some p.

Lemma is_pin_ok g p : gm_wf g → is_pin g p → pin_ok g p.
Proof. intros Hwf (lo & hi & Hp). by apply (span_pin_spec g lo hi p Hwf) in Hp as (_ & _ & ?). Qed.

Lemma heap_candidates_pins g c : c ∈ heap_candidates g → is_pin g c.2.
Proof.
  unfold heap_candidates. rewrite list_elem_of_omap. intros (r & _ & Hr).
  case_decide; [done|]. destruct (region_pin g r) as [p|] eqn:E; simpl in Hr; [|done].
  injection Hr as <-. by exists (r_base r), (RegionTable.r_end r).
Qed.

Lemma vad_candidate_pins g chosen cs span c :
  (∀ c, c ∈ cs → is_pin g c.2) → c ∈ vad_candidate g chosen cs span → is_pin g c.2.
Proof.
  intros Hcs. destruct span as [g0 g1]. unfold vad_candidate.
  repeat (case_match; [by apply Hcs|]). case_match eqn:E; [|by apply Hcs].
  case_decide; [by apply Hcs|]. rewrite elem_of_app, list_elem_of_singleton.
  intros [?| ->]; [by apply Hcs|]. by exists g0, g1.
Qed.

Lemma vad_candidates_pins g chosen cs c :
  (∀ c, c ∈ cs → is_pin g c.2) → c ∈ vad_candidates g chosen cs → is_pin g c.2.
Proof.
  unfold vad_candidates. revert cs. induction (vads g) as [|n l IH]; intros cs Hcs; simpl; [apply Hcs|].
  apply IH. case_decide; [done|]. revert cs Hcs.
  induction (committed_runs_in_span _ _ _) as [|sp l' IH']; intros cs Hcs; simpl; [done|].
  apply IH'. intros c' Hc'. by apply (vad_candidate_pins g chosen cs sp).
Qed.

Lemma pin_overlaps_false chosen lo hi :
  pin_overlaps chosen lo hi = false → ∀ a b, (a, b) ∈ chosen → b ≤ lo ∨ hi ≤ a.
Proof.
  unfold pin_overlaps. rewrite <- not_true_iff_false, existsb_exists. intros H a b Hab.
  destruct (decide (b ≤ lo)); [by left|]. destruct (decide (hi ≤ a)); [by right|]. exfalso. apply H.
  exists (a, b). rewrite <- list_elem_of_In. split; [done|].
  by rewrite !bool_decide_true by lia.
Qed.

Lemma fill_slots_spec n chosen cands :
  (length (fill_slots n chosen cands) ≤ n)%nat ∧
  (∀ p, p ∈ fill_slots n chosen cands → (∃ k, (k, p) ∈ cands) ∧
     ∀ a b, (a, b) ∈ chosen → b ≤ pin_guest_base p ∨ pin_guest_end p ≤ a) ∧
  ForallOrdPairs pins_disjoint (fill_slots n chosen cands).
Proof.
  revert n chosen. induction cands as [|[k p] cands IH]; intros [|n] chosen; simpl;
    try (split_and!; [lia|by intros p []%elem_of_nil|constructor]);
    try (split_and!; [lia|by intros q []%elem_of_nil|constructor]).
  destruct (pin_overlaps chosen _ _) eqn:E.
  - destruct (IH (S n) chosen) as (H1 & H2 & H3). split_and!; [done| |done].
    intros q Hq. destruct (H2 q Hq) as [[j Hj] ?]. split; [exists j; by right|done].
  - destruct (IH n (chosen ++ [(pin_guest_base p, pin_guest_end p)])) as (H1 & H2 & H3).
    split_and!; [simpl; lia| |].
    + intros q [->|Hq]%elem_of_cons.
      * split; [exists k; by left|]. by apply pin_overlaps_false.
      * destruct (H2 q Hq) as [[j Hj] Hc]. split; [exists j; by right|].
        intros a b Hab. apply Hc. apply elem_of_app. by left.
    + constructor; [|done]. apply Forall_forall. intros q Hq. destruct (H2 q Hq) as [_ Hc].
      apply Hc. apply elem_of_app. right. by left.
Qed.

(** Every pin slot filled for the JIT is a sound pin, at most seven data
    slots are filled beside the stack slot, and no two pins overlap, so a guest
    address is resolved through at most one of them. *)
Theorem jit_region_pins_sound g :
  gm_wf g →
  let '(stack, data) := jit_region_pins g in
  (length data ≤ JIT_REGION_PIN_SLOTS - 1)%nat ∧
  Forall (pin_ok g) (option_list stack ++ data) ∧
  ForallOrdPairs pins_disjoint (option_list stack ++ data).
Proof.
  intros Hwf. unfold jit_region_pins.
  set (stack := r ← RegionTable.find_by_kind (regions g) Stack; region_pin g r).
  set (chosen := match stack with Some pin => _ | None => _ end).
  set (cands := stable_sort _ _).
  destruct (fill_slots_spec (JIT_REGION_PIN_SLOTS - 1) chosen cands) as (H1 & H2 & H3).
  assert (Hst : ∀ p, stack = Some p → pin_ok g p).
  { intros p Hp. apply is_pin_ok; [done|]. unfold stack in Hp.
    destruct (RegionTable.find_by_kind _ _) as [r|]; simpl in Hp; [|done].
    by exists (r_base r), (RegionTable.r_end r). }
  assert (Hdata : Forall (pin_ok g) (fill_slots (JIT_REGION_PIN_SLOTS - 1) chosen cands)).
  { apply Forall_forall. intros p Hp. apply is_pin_ok; [done|]. destruct (H2 p Hp) as [[k Hk] _].
    unfold cands in Hk. rewrite stable_sort_Permutation in Hk.
    apply (vad_candidates_pins g chosen (heap_candidates g) (k, p)); [|done].
    apply heap_candidates_pins. }
  split; [done|]. destruct stack as [p|]; simpl; [|done]. split.
  - constructor; [by apply Hst|done].
  - constructor; [|done]. apply Forall_forall. intros q Hq. apply (H2 q Hq). by left.
Qed.

(** A TLB entry installed for a page is sound: the page is committed, the host
    pointer aliases its 4096 bytes, the flags are the page's read right and its
    write right withheld from executable pages, and it carries the current
    generation. *)
Theorem page_tlb_entry_sound g q e :
  gm_wf g → 0 ≤ q < 4503599627370496 → page_tlb_entry g q = Some e →
  ∃ pr, gview g q = Some (Committed, pr) ∧
    host_alias g (tlb_host e) (q * 4096) 4096 ∧
    tlb_allow_r e = allows_read pr ∧ tlb_allow_w e = allows_write pr && negb (allows_execute pr) ∧
    tlb_generation e = generation g.
Proof. apply page_tlb_entry_spec. Qed.

(** ** Instruction fetch *)

(** Shorter accesses of a granted access are granted. *)
Lemma spc_shrink g va n m kind :
  in_u64 va → 0 ≤ m ≤ n → spc g va n kind = Ok tt → spc g va m kind = Ok tt.
Proof.
  intros [Hva _] Hmn H. unfold spc in *. destruct (decide (m = 0)) as [Hm|Hm]; [done|].
  destruct (decide (n = 0)); [lia|]. destruct (decide (va + n < u64_lim)); [|done].
  rewrite decide_True by lia. revert H.
  assert (Hpre : ∀ ps qs, PageMap.check_pages (gview g) va kind (ps ++ qs) = Ok tt →
    PageMap.check_pages (gview g) va kind ps = Ok tt).
  { induction ps as [|p ps IH]; intros qs; simpl; [done|]. destruct (PageMap.page_verdict _ _ _); [|done..].
    apply IH. }
  assert (va / 4096 ≤ (va + m - 1) / 4096 ≤ (va + n - 1) / 4096) by (split; apply Z.div_le_mono; lia).
  replace ((va + n - 1) / 4096 + 1 - va / 4096) with
    (((va + m - 1) / 4096 + 1 - va / 4096) + ((va + n - 1) / 4096 - (va + m - 1) / 4096)) by lia.
  rewrite seqZ_app by lia. apply Hpre.
Qed.

(** The backend fetch on a fully backed range takes the whole slice. *)
Lemma fetch_into_full s va out :
  arena.wf s → 0 ≤ va → (0 < length out ≤ 15)%nat →
  (∀ x, va ≤ x < va + Z.of_nat (length out) → is_Some (tr (arenas s) x)) →
  host_allows s PROT_READ va (Z.of_nat (length out)) →
  fetch_into s va out = (prefix_bytes (byte_at s) va (length out), Ok (Z.of_nat (length out))).
Proof.
  intros Hwf Hva Hlen Hback Hal. unfold fetch_into. rewrite Z.min_l by lia.
  rewrite decide_False by lia. unfold loopM.
  destruct (Pos.to_nat (fuel_of (Z.of_nat (length out)))) as [|f] eqn:Ef; [lia|].
  rewrite iter_until_nat, Ef. cbn [iter_nat]. unfold loopM_step at 1. cbn [fst snd]. unfold fetch_body.
  rewrite decide_True by lia. rewrite Nat2Z.id, firstn_all.
  rewrite arena_read_spec by done. unfold read_result. rewrite Nat.sub_0_r.
  destruct (prefix_bytes_backed s va (length out) Hback) as [Hl _].
  rewrite Hl, decide_True by done. by rewrite !(splice_all (prefix_bytes (byte_at s) va (length out)) out) by done.
Qed.

Lemma gm_fetch_holds g va out :
  gm_wf g → in_u64 va → in_u64 (Z.of_nat (length out)) → 0 < Z.of_nat (length out) →
  (∀ n, n ≤ Z.of_nat (length out) → spc g va n Execute = Ok tt → host_allows (backend g) PROT_READ va n) →
  let want := Z.min (Z.of_nat (length out)) 15 in
  ∃ g' out' r, gm_fetch_into va (g, out) = ((g', out'), r) ∧ same_but_cache g g' ∧ gm_wf g' ∧
    match r with
    | Ok n => 0 < n ≤ want ∧ spc g va n Execute = Ok tt ∧
        (n < want → spc g va (n + 1) Execute ≠ Ok tt) ∧
        out' = prefix_bytes (byte_at (backend g)) va (Z.to_nat n) ++ drop (Z.to_nat n) out ∧
        (∀ i, 0 ≤ i < n → is_Some (gbyte g (va + i)))
    | Err _ => spc g va 1 Execute ≠ Ok tt ∧ out' = out
    | Abort _ => False
    end.
Proof.
  intros Hwf Hva Hlen Hpos Hal want. unfold gm_fetch_into, get, mbind, M_bind. simpl.
  fold want. rewrite decide_False by lia.
  set (post := λ (s : GuestMemory * list u8) (r : res usize), same_but_cache g s.1 ∧ gm_wf s.1 ∧
    match r with
    | Ok n => 0 < n ≤ want ∧ spc g va n Execute = Ok tt ∧
        (n < want → spc g va (n + 1) Execute ≠ Ok tt) ∧
        s.2 = prefix_bytes (byte_at (backend g)) va (Z.to_nat n) ++ drop (Z.to_nat n) out ∧
        (∀ i, 0 ≤ i < n → is_Some (gbyte g (va + i)))
    | Err _ => spc g va 1 Execute ≠ Ok tt ∧ s.2 = out
    | Abort _ => False
    end).
  set (l := loopM _ _ want (g, out)).
  cut (post l.1 l.2).
  { destruct l as [[g' out'] r]. unfold post. simpl. intros (? & ? & ?).
    exists g', out', r. split_and!; done. }
  apply (loopM_rule (gm_fetch_body va (generation g))
    (λ len s, 0 ≤ len ≤ want ∧ same_but_cache g s.1 ∧ gm_wf s.1 ∧ s.2 = out ∧
       (len < want → spc g va (len + 1) Execute ≠ Ok tt)) post (λ len, len)).
  2:{ split_and!; try done; try lia. }
  2:{ split; [lia|]. apply fuel_of_spec. lia. }
  intros len [g1 b] (Hl & Hs & Hwf1 & Hb & Hmax). cbn [fst snd] in *. subst b. unfold gm_fetch_body.
  destruct (decide (0 < len)) as [Hpos'|Hz].
  2:{ unfold post. cbn [fst snd]. split_and!; try done. assert (len = 0) as -> by lia.
      apply Hmax. lia. }
  unfold with_buf, zoom at 1. cbn [fst snd].
  destruct (access_check g1 va len Execute Hwf1 Hva) as (g2 & Hc & Hs2 & Hwf2).
  { unfold in_u64. lia. }
  rewrite Hc. assert (Hsame : spc g1 va len Execute = spc g va len Execute).
  { unfold spc. by rewrite (same_gview _ _ Hs). }
  rewrite Hsame. pose proof (same_but_cache_trans _ _ _ Hs Hs2) as Hs3.
  destruct (spc g va len Execute) as [[]|e|w] eqn:Espc.
  - cbn [fst snd]. rewrite decide_False by (rewrite (sc_generation _ _ Hs3); tauto).
    destruct (spc_ok g va len Execute Hwf Hva ltac:(unfold in_u64; lia) Espc) as [_ Hok].
    assert (Htl : Z.of_nat (length (take (Z.to_nat len) out)) = len) by (rewrite length_take; lia).
    rewrite fetch_into_full; [|apply Hwf2|apply Hva|lia| |]; rewrite ?Htl, (sc_backend _ _ Hs3).
    + unfold post. cbn [fst snd]. split_and!; try done; try lia; [|].
      * unfold splice. simpl.
        destruct (prefix_bytes_backed (backend g) va (length (take (Z.to_nat len) out))) as [Hl1 _].
        { rewrite Htl. intros x Hx. by apply Hok. }
        rewrite Hl1. by replace (length (take (Z.to_nat len) out)) with (Z.to_nat len) by lia.
      * intros i Hi. apply byte_at_is_Some, Hok. lia.
    + intros x Hx. by apply Hok.
    + apply Hal; [lia|done].
  - unfold sat_sub. rewrite Z.max_l by lia. cbn [fst snd]. split; [|lia].
    split_and!; try done; try lia. intros _. replace (len - 1 + 1) with len by lia. congruence.
  - exfalso. unfold spc in Espc. repeat case_decide; try done.
    revert Espc. generalize (seqZ (va / 4096) ((va + len - 1) / 4096 + 1 - va / 4096)).
    induction l0 as [|p ps IH]; simpl; [done|]. unfold PageMap.page_verdict.
    destruct (gview g p) as [[st pr]|]; [|done]. case_decide; [done|]. destruct (allows pr Execute); [exact IH|done].
Qed.

(** As long as the host lets the emulator read what is executable,
    instruction fetch returns the longest executable prefix (at most 15 bytes): [n] bytes all on executable committed pages and read into the
    buffer, with [n + 1] not allowed unless [n] was all that was asked for;
    it fails exactly when not even one byte may be executed, and then leaves
    the buffer alone. *)
Theorem gm_fetch_spec g va out :
  gm_wf g → in_u64 va → in_u64 (Z.of_nat (length out)) → 0 < Z.of_nat (length out) →
  (∀ n, n ≤ Z.of_nat (length out) → spc g va n Execute = Ok tt → host_allows (backend g) PROT_READ va n) →
  let want := Z.min (Z.of_nat (length out)) 15 in
  ∃ g' out' r, gm_fetch_into va (g, out) = ((g', out'), r) ∧ same_but_cache g g' ∧ gm_wf g' ∧
    match r with
    | Ok n => 0 < n ≤ want ∧ spc g va n Execute = Ok tt ∧
        (n < want → spc g va (n + 1) Execute ≠ Ok tt) ∧
        out' = prefix_bytes (byte_at (backend g)) va (Z.to_nat n) ++ drop (Z.to_nat n) out ∧
        (∀ i, 0 ≤ i < n → is_Some (gbyte g (va + i)))
    | Err _ => spc g va 1 Execute ≠ Ok tt ∧ out' = out
    | Abort _ => False
    end.
Proof. apply gm_fetch_holds. Qed.
