(* ===== verification/mem_ops.v ===== *)
(** * VirtualAlloc, VirtualProtect, VirtualFree: correctness

    Each operation of the facade against the page view, the ownership map of
    the reservations and the guest bytes. *)

From S2P Require Import Prelude protect pagemap vad arena region mem mem_access.

(** ** Components through the facade *)

Lemma mod_mul_trans x m n : 0 < m → 0 < n → x mod (m * n) = 0 → x mod m = 0.
Proof.
  intros Hm Hn Hx. apply Z.mod_divide in Hx; [|lia]. apply Z.mod_divide; [lia|].
  destruct Hx as [k ->]. exists (k * n). lia.
Qed.

Lemma div_aligned_range a b q :
  a mod 4096 = 0 → b mod 4096 = 0 → a / 4096 ≤ q < b / 4096 ↔ a ≤ q * 4096 < b.
Proof.
  intros Ha Hb. pose proof (div_mul_aligned a 4096 ltac:(lia) Ha).
  pose proof (div_mul_aligned b 4096 ltac:(lia) Hb). lia.
Qed.

Lemma add_aligned a b n : 0 < n → a mod n = 0 → b mod n = 0 → (a + b) mod n = 0.
Proof. intros. rewrite Z.add_mod by lia. rewrite H0, H1. by apply Z.mod_0_l; lia. Qed.

(** The page states after setting [addr, addr+size). *)
Definition retagged (g : GuestMemory) (addr size : Z) (st : PageState) (pr : u32)
    (q : Z) : option (PageState * u32) :=
  PageMap.requested (addr / 4096) ((addr + size) / 4096) st pr (gview g q) q.

Lemma set_range_ok g addr size st pr :
  gm_wf g → 0 ≤ addr → 0 < size → addr mod 4096 = 0 → size mod 4096 = 0 → addr + size < u64_lim →
  ∃ pm, on_pages (PageMap.set_range addr size st pr) g = (set_pages pm g, Ok tt) ∧
    PageMap.wf pm ∧ ∀ q, PageMap.view pm q = retagged g addr size st pr q.
Proof.
  intros Hwf Ha Hs Hm1 Hm2 Hlim.
  pose proof (PageMap.set_range_holds (pages g) addr size st pr (gw_pages _ Hwf)) as H.
  unfold on_pages, zoom. destruct (PageMap.set_range addr size st pr (pages g)) as [pm r].
  specialize (H ltac:(unfold in_u64; lia) ltac:(unfold in_u64; lia)).
  rewrite decide_False in H by lia. rewrite decide_True in H by done.
  destruct H as (-> & Hwf' & _ & Hv). by exists pm.
Qed.

Section WithOS.
Context {os : HostOS} {laws : HostOSLaws os}.

(** [backend_map] through the facade. *)
Lemma backend_map_spec g addr size p :
  gm_wf g → 0 ≤ addr → 0 < size →
  let '(g', r) := on_backend (backend_map addr size p) g in
  (∃ b, g' = mkGM b (regions g) (pages g) (vads g) (generation g) ∧
     extends (backend g) b addr (addr + size)) ∧
  match r with
  | Ok _ => addr mod 4096 = 0 ∧ size mod 4096 = 0 ∧ addr + size < u64_lim ∧
      backed (backend g') addr (addr + size)
  | Err _ => True
  | Abort _ => False
  end.
Proof.
  intros Hwf Ha Hs. unfold on_backend, zoom, backend_map, mbind, M_bind, lift, check_map_args.
  assert (Hsame : ∃ b, mkGM (backend g) (regions g) (pages g) (vads g) (generation g) =
      mkGM b (regions g) (pages g) (vads g) (generation g) ∧ extends (backend g) b addr (addr + size)).
  { exists (backend g). split; [done|]. apply extends_refl, Hwf. }
  rewrite decide_False by lia. unfold is_multiple_of, PAGE_SIZE.
  case_bool_decide as Hm1; simpl; [|done]. case_bool_decide as Hm2; simpl; [|done].
  destruct (checked_add addr size) as [e|] eqn:Ee; simpl; [|done].
  apply checked_add_Some in Ee as [-> Hlim].
  pose proof (map_range_holds (backend g) addr (addr + size) p (gw_backend _ Hwf) ltac:(lia) Hlim Hm1
    (add_aligned _ _ 4096 ltac:(lia) Hm1 Hm2)) as Hmap.
  replace (addr + size - addr) with size in Hmap by lia.
  destruct (map_range addr (addr + size) size p (backend g)) as [b r]. destruct Hmap as [He Hr].
  split; [by exists b|]. simpl. destruct Hr as [[-> Hb]|(? & ? & ->)]; done.
Qed.

Lemma vad_insert_ok g n :
  gm_wf g → VadTable.node_ok n →
  VadTable.overlaps (vads g) (allocation_base n) (vn_size n) = false →
  ∃ vt, on_vads (VadTable.insert n) g = (set_vads vt g, Ok tt) ∧ VadTable.wf vt ∧
    (∀ m, m ∈ vt → m = n ∨ m ∈ vads g) ∧
    ∀ va, VadTable.find vt va = if contains n va then Some n else VadTable.find (vads g) va.
Proof.
  intros Hwf (H0 & H1 & H2) Hov. unfold on_vads, zoom.
  pose proof (VadTable.vad_insert_holds (vads g) n (gw_vads _ Hwf) H0 ltac:(lia) H2) as H.
  rewrite VadTable.overlaps_false in Hov by (done || apply Hwf || lia).
  destruct (VadTable.insert n (vads g)) as [vt r] eqn:E. rewrite decide_False in H by lia.
  destruct H as [(-> & Hwf' & _ & Hf)|(_ & _ & va & Hc & [m Hm])].
  - exists vt. split_and!; try done. intros m Hm.
    unfold VadTable.insert in E. rewrite decide_False in E by lia. destruct (existsb _ _); [done|].
    injection E as <-. change (m ∈ ivl_insert allocation_base n (vads g)) in Hm.
    rewrite ivl_insert_Permutation in Hm. apply elem_of_cons in Hm. tauto.
  - exfalso. apply VadTable.contains_spec in Hc.
    rewrite VadTable.vn_end_ok in Hc by (unfold VadTable.node_ok; lia). by rewrite Hov in Hm.
Qed.

(** ** Reserving *)

Lemma ensure_pages_free_spec g base size :
  gm_wf g → 0 ≤ base → 0 ≤ size →
  match ensure_pages_free g base size with
  | Ok _ => (∀ q, base / 4096 ≤ q < sat_add base size / 4096 → gview g q = None) ∧
      VadTable.overlaps (vads g) base size = false
  | Err _ => True
  | Abort _ => False
  end.
Proof.
  intros Hwf Hb Hs. unfold ensure_pages_free. rewrite !shiftr_12.
  set (last := sat_add base size / 4096).
  assert (Hlast : last < u64_lim) by (apply Z.div_lt_upper_bound; unfold sat_add; lia).
  assert (0 ≤ base / 4096) by (by apply Z.div_pos; lia).
  set (l := run_loop _ _ _).
  cut (match l with Ok _ => ∀ q, base / 4096 ≤ q < last → gview g q = None | Err _ => True | Abort _ => False end).
  { destruct l as [[]|?|?]; simpl; [|done..]. intros Hq. by destruct (VadTable.overlaps _ _ _). }
  apply (run_loop_rule (ensure_step (pages g) last)
    (λ page, base / 4096 ≤ page ∧ ∀ q, base / 4096 ≤ q < page → gview g q = None)
    (λ r, match r with Ok _ => ∀ q, base / 4096 ≤ q < last → gview g q = None | Err _ => True | Abort _ => False end)
    (λ page, Z.max 0 (last - page))).
  - intros page [Hge Hno]. unfold ensure_step. destruct (decide (page < last)) as [Hlt|Hlt].
    + destruct (PageMap.lookup (pages g) page) as [run|] eqn:El; [by case_decide|].
      rewrite sat_add_lt by lia. split; [|lia]. split; [lia|]. intros q Hq.
      destruct (decide (q = page)) as [->|]; [by rewrite lookup_view, El|]. apply Hno. lia.
    + intros q Hq. apply Hno. lia.
  - split; [lia|]. intros q ?. lia.
  - split; [lia|]. apply fuel_of_spec. lia.
Qed.

(** The effect of a successful reservation of [base, base+size). *)
Record reserved (g g' : GuestMemory) (base size : Z) (st : PageState) (pr : u32) (node : VadNode) : Prop := {
  rs_wf : gm_wf g';
  rs_range : 0 ≤ base ∧ 0 < size ∧ base mod 4096 = 0 ∧ size mod 4096 = 0 ∧ base + size < u64_lim;
  rs_free : ∀ q, base / 4096 ≤ q < (base + size) / 4096 → gview g q = None;
  rs_view : ∀ q, gview g' q = retagged g base size st pr q;
  rs_node : allocation_base node = base ∧ vn_size node = size;
  rs_unowned : ∀ va, base ≤ va < base + size → VadTable.find (vads g) va = None;
  rs_owner : ∀ va, VadTable.find (vads g') va =
    if contains node va then Some node else VadTable.find (vads g) va;
  rs_backend : extends (backend g) (backend g') base (base + size);
  rs_generation : generation g' = sat_add (generation g) 1;
}.

(** A failure leaves pages, reservations and existing bytes alone. *)
Record refused (g g' : GuestMemory) : Prop := {
  rf_wf : gm_wf g';
  rf_view : ∀ q, gview g' q = gview g q;
  rf_vads : vads g' = vads g;
  rf_bytes : ∀ x, is_Some (gbyte g x) → gbyte g' x = gbyte g x;
  rf_backend : ∃ lo hi, extends (backend g) (backend g') lo hi;
}.

(** Translations that survive keep their host protection. *)
Definition host_kept (g g' : GuestMemory) : Prop :=
  ∀ x p, tr (arenas (backend g')) x = Some p →
    tr (arenas (backend g)) x = Some p ∧
    h_prot (os_state (backend g')) !! (p / 4096) = h_prot (os_state (backend g)) !! (p / 4096).

Lemma refused_refl g : gm_wf g → refused g g.
Proof. intros Hwf. split; try done. exists 0, 0. apply extends_refl, Hwf. Qed.

Lemma gm_wf_backend g b lo hi :
  gm_wf g → extends (backend g) b lo hi →
  gm_wf (mkGM b (regions g) (pages g) (vads g) (generation g)).
Proof.
  intros [H1 H2 H3 H4 H5] He. split; try done; simpl; [apply He|].
  intros q Hq. destruct (H5 q Hq) as [p Hp]. exists p. by apply (ext_tr _ _ _ _ He).
Qed.

Lemma refused_backend g b lo hi :
  gm_wf g → extends (backend g) b lo hi →
  refused g (mkGM b (regions g) (pages g) (vads g) (generation g)).
Proof.
  intros Hwf He. split; try done; [by eapply gm_wf_backend| |by exists lo, hi].
  intros x Hx. unfold gbyte in *. simpl. apply (ext_byte _ _ _ _ He). by apply byte_at_is_Some.
Qed.

(** The common tail of [va_reserve_only] and [va_reserve_and_commit]. *)
Definition reserve_tail (base size : Z) (perms : u32) (st : PageState) (pr : u32) (node : VadNode)
    : M GuestMemory u64 :=
  _ ← on_backend (backend_map base size perms);
  _ ← on_pages (PageMap.set_range base size st pr);
  _ ← on_vads (VadTable.insert node);
  _ ← modify bump_generation;
  mret base.

Lemma reserve_tail_spec g base size perms st pr protect :
  gm_wf g → 0 ≤ base → 0 < size → st ≠ Free → ensure_pages_free g base size = Ok tt →
  let node := mkVadNode base size protect Private true in
  match reserve_tail base size perms st pr node g with
  | (g', Ok b) => b = base ∧ reserved g g' base size st pr node
  | (g', Err _) => refused g g'
  | (g', Abort _) => False
  end.
Proof.
  intros Hwf Hb Hs Hst Hfree node. pose proof (ensure_pages_free_spec g base size Hwf Hb ltac:(lia)) as Hen.
  rewrite Hfree in Hen. destruct Hen as [Hpages Hov].
  unfold reserve_tail, mbind, M_bind.
  pose proof (backend_map_spec g base size perms Hwf Hb Hs) as Hmap.
  destruct (on_backend (backend_map base size perms) g) as [g1 r] eqn:Eg1.
  destruct Hmap as [(b & -> & Hext) Hr]. destruct r as [[]|e|w]; [|by eapply refused_backend|done].
  destruct Hr as (Hm1 & Hm2 & Hlim & Hback). simpl in Hback.
  set (g1 := mkGM b (regions g) (pages g) (vads g) (generation g)) in *.
  assert (Hwf1 : gm_wf g1) by (by eapply gm_wf_backend).
  destruct (set_range_ok g1 base size st pr Hwf1 Hb Hs Hm1 Hm2 Hlim) as (pm & -> & Hwfp & Hv).
  assert (Hwf2 : gm_wf (set_pages pm g1)).
  { destruct Hwf1 as [H1 H2 H3 H4 H5]. split; try done. simpl. intros q Hq. rewrite Hv in Hq.
    unfold retagged, PageMap.requested in Hq. case_decide as Hin.
    - apply Hback. apply div_aligned_range; [done|by apply add_aligned|done].
    - by apply H5. }
  destruct (vad_insert_ok (set_pages pm g1) node Hwf2) as (vt & -> & Hwfv & Hmem & Hf);
    [split_and!; simpl; lia|done|].
  split; [done|]. split.
  - destruct Hwf2 as [H1 H2 H3 H4 H5]. split; try done. simpl. apply Forall_forall. intros m Hm.
    destruct (Hmem m Hm) as [->|Hm']; [by split|]. simpl in Hm'. by eapply Forall_forall in H4.
  - done.
  - intros q Hq. apply Hpages. by rewrite sat_add_lt by lia.
  - intros q. unfold gview. simpl. apply Hv.
  - done.
  - by apply (VadTable.overlaps_false (vads g) base size (gw_vads _ Hwf) Hs Hlim).
  - done.
  - done.
  - done.
Qed.

(** ** [align_reserve_request] *)

Lemma align_down_spec x n : 0 < n → align_down x n ≤ x < align_down x n + n ∧ align_down x n mod n = 0.
Proof.
  intros Hn. unfold align_down. rewrite decide_False by lia. split; [|apply Z.mod_mul; lia].
  pose proof (Z.div_mod x n). pose proof (Z.mod_pos_bound x n). lia.
Qed.

Lemma align_down_nonneg x n : 0 ≤ x → 0 < n → 0 ≤ align_down x n.
Proof.
  intros Hx Hn. unfold align_down. rewrite decide_False by lia.
  apply Z.mul_nonneg_nonneg; [by apply Z.div_pos|lia].
Qed.

Lemma align_up_ge x n : 0 ≤ x → x < u64_lim → 0 < n → x ≤ align_up x n ∧ align_up x n < u64_lim.
Proof.
  intros Hx Hlim Hn. unfold align_up. rewrite decide_False by lia. case_decide; [lia|].
  pose proof (Z.mod_pos_bound x n ltac:(lia)). unfold sat_add, sat_sub. lia.
Qed.

Lemma align_reserve_spec g addr size :
  gm_wf g → in_u64 addr → in_u64 size → 0 < size →
  match align_reserve_request g addr size with
  | Ok (base, sz) => 0 ≤ base ∧ size ≤ sz ∧
      (addr ≠ 0 → base mod GUEST_ALLOC_GRANULARITY = 0 ∧ base ≤ addr ∧ addr + size ≤ base + sz) ∧
      (addr = 0 → VadTable.hole (vads g) sz
         (λ page, bool_decide (is_Some (PageMap.lookup (pages g) page))) base)
  | Err _ => True
  | Abort _ => False
  end.
Proof.
  intros Hwf [Ha Halim] [Hs Hslim] Hpos. unfold align_reserve_request.
  destruct (decide (addr = 0)) as [->|Hne].
  - destruct (align_up_ge size GUEST_ALLOC_GRANULARITY) as [Hge Hlt]; [lia..|done|].
    case_decide; [done|].
    destruct (VadTable.find_free_region_holds (vads g) (align_up size GUEST_ALLOC_GRANULARITY)
      (λ page, bool_decide (is_Some (PageMap.lookup (pages g) page))) (gw_vads _ Hwf)) as (r & -> & Hr).
    { unfold in_u64. lia. }
    destruct r as [b|]; simpl; [|done]. destruct Hr as (_ & _ & Hh & _).
    split_and!; [|lia|done|done]. destruct Hh as (_ & Hst & _). unfold FREE_VA_SEARCH_START in *. lia.
  - unfold checked_add. case_decide as Hov; simpl; [|done].
    destruct (align_down_spec addr GUEST_ALLOC_GRANULARITY ltac:(done)) as [Hd Hdm].
    destruct (align_up_ge (addr + size) GUEST_ALLOC_GRANULARITY) as [Hge Hlt]; [lia..|done|].
    pose proof (align_down_nonneg addr GUEST_ALLOC_GRANULARITY Ha ltac:(done)).
    unfold GUEST_ALLOC_GRANULARITY in *. rewrite sat_sub_le by lia.
    destruct (decide (_ = 0)); simpl; [done|]. split_and!; lia.
Qed.

(** VirtualAlloc with MEM_RESERVE|MEM_COMMIT either changes nothing a guest
    can see, or creates one reservation of a fully free range that covers the
    request: exactly its pages become committed with the asked protection, it
    owns exactly its addresses, and no existing page, reservation or byte is
    disturbed. *)
Lemma va_reserve_and_commit_spec g addr size protect :
  gm_wf g → in_u64 addr → in_u64 size → 0 < size →
  match va_reserve_and_commit addr size protect g with
  | (g', Ok base) => ∃ sz, size ≤ sz ∧ (addr ≠ 0 → base ≤ addr ∧ addr + size ≤ base + sz) ∧
      reserved g g' base sz Committed protect (mkVadNode base sz protect Private true)
  | (g', Err _) => refused g g'
  | (g', Abort _) => False
  end.
Proof.
  intros Hwf Ha Hs Hpos. unfold va_reserve_and_commit, get, lift, mbind, M_bind.
  pose proof (align_reserve_spec g addr size Hwf Ha Hs Hpos) as Hal.
  destruct (align_reserve_request g addr size) as [[base sz]|e|w]; [|by apply refused_refl|done].
  destruct Hal as (Hb & Hsz & Hcov & _). 
  pose proof (ensure_pages_free_spec g base sz Hwf Hb ltac:(lia)) as Hen.
  destruct (ensure_pages_free g base sz) as [[]|e|w] eqn:Ef; [|by apply refused_refl|done].
  pose proof (reserve_tail_spec g base sz (rwx_from_page_protect protect) Committed protect protect
    Hwf Hb ltac:(lia) ltac:(done) Ef) as Ht.
  change (match reserve_tail base sz (rwx_from_page_protect protect) Committed protect
    (mkVadNode base sz protect Private true) g with
    | (g', Ok base0) => ∃ sz0, size ≤ sz0 ∧ (addr ≠ 0 → base0 ≤ addr ∧ addr + size ≤ base0 + sz0) ∧
      reserved g g' base0 sz0 Committed protect (mkVadNode base0 sz0 protect Private true)
    | (g', Err _) => refused g g' | (g', Abort _) => False end).
  cbv zeta in Ht. destruct (reserve_tail _ _ _ _ _ _ g) as [g' [b|e|w]]; [|done..].
  destruct Ht as [-> Hr]. exists sz. split; [done|]. split; [|done]. intros Hne.
  by destruct (Hcov Hne) as (_ & ? & ?).
Qed.

(** VirtualAlloc with MEM_RESERVE alone reserves a fully free range that
    covers the request the same way, with its pages reserved and inaccessible
    instead of committed. *)
Lemma va_reserve_only_spec g addr size protect :
  gm_wf g → in_u64 addr → in_u64 size → 0 < size →
  match va_reserve_only addr size protect g with
  | (g', Ok base) => ∃ sz, size ≤ sz ∧ (addr ≠ 0 → base ≤ addr ∧ addr + size ≤ base + sz) ∧
      reserved g g' base sz Reserved PAGE_NOACCESS (mkVadNode base sz protect Private true)
  | (g', Err _) => refused g g'
  | (g', Abort _) => False
  end.
Proof.
  intros Hwf Ha Hs Hpos. unfold va_reserve_only, get, lift, mbind, M_bind.
  pose proof (align_reserve_spec g addr size Hwf Ha Hs Hpos) as Hal.
  destruct (align_reserve_request g addr size) as [[base sz]|e|w]; [|by apply refused_refl|done].
  destruct Hal as (Hb & Hsz & Hcov & _).
  pose proof (ensure_pages_free_spec g base sz Hwf Hb ltac:(lia)) as Hen.
  destruct (ensure_pages_free g base sz) as [[]|e|w] eqn:Ef; [|by apply refused_refl|done].
  pose proof (reserve_tail_spec g base sz perm_ALL Reserved PAGE_NOACCESS protect
    Hwf Hb ltac:(lia) ltac:(done) Ef) as Ht.
  change (match reserve_tail base sz perm_ALL Reserved PAGE_NOACCESS
    (mkVadNode base sz protect Private true) g with
    | (g', Ok base0) => ∃ sz0, size ≤ sz0 ∧ (addr ≠ 0 → base0 ≤ addr ∧ addr + size ≤ base0 + sz0) ∧
      reserved g g' base0 sz0 Reserved PAGE_NOACCESS (mkVadNode base0 sz0 protect Private true)
    | (g', Err _) => refused g g' | (g', Abort _) => False end).
  cbv zeta in Ht. destruct (reserve_tail _ _ _ _ _ _ g) as [g' [b|e|w]]; [|done..].
  destruct Ht as [-> Hr]. exists sz. split; [done|]. split; [|done]. intros Hne.
  by destruct (Hcov Hne) as (_ & ? & ?).
Qed.

(** ** The page-rounded range of an operation *)

Lemma page_span_owned g addr size ov out cr pb pe sz :
  gm_wf g → in_u64 addr → 0 < size →
  page_span addr size ov = Ok (pb, pe, sz) → check_allocation g pb sz out cr = Ok tt →
  0 ≤ pb ∧ pb mod 4096 = 0 ∧ pe mod 4096 = 0 ∧ sz = pe - pb ∧ 0 < sz ∧ sz mod 4096 = 0 ∧
  pe < u64_lim ∧ pb ≤ addr ∧ addr + size ≤ pe ∧
  ∃ n, n ∈ vads g ∧ allocation_base n ≤ pb ∧ pe ≤ allocation_base n + vn_size n.
Proof.
  intros Hwf [Ha _] Hs Hsp Hch. unfold page_span, PAGE_SIZE in Hsp.
  destruct (align_down_spec addr 4096 ltac:(lia)) as [Hd Hdm].
  set (b := align_down addr 0x1000) in *.
  destruct (checked_add addr size) as [e|] eqn:Ee; cbn [ok_or mbind res_bind] in Hsp; [|done].
  apply checked_add_Some in Ee as [-> Hlim].
  destruct (align_up_ge (addr + size) 4096) as [Hge Hlt]; [lia..|].
  assert (Hb0 : 0 ≤ b) by (apply align_down_nonneg; lia).
  rewrite sat_sub_le in Hsp by lia. injection Hsp as <- <- <-.
  unfold check_allocation in Hch. destruct (VadTable.find (vads g) b) as [n|] eqn:Ef; [|done].
  cbn [ok_or mbind res_bind] in Hch. destruct (contains_range n b _) eqn:Ec; [|done].
  apply (VadTable.find_spec _ _ _ (gw_vads _ Hwf)) in Ef as [Hin Hnb].
  pose proof (VadTable.wf_nodes _ (gw_vads _ Hwf)) as Hno. rewrite Forall_forall in Hno.
  pose proof (Hno n Hin) as Hok. pose proof (VadTable.vn_end_ok n Hok) as Hne. destruct Hok as (? & ? & ?).
  pose proof (gw_aligned _ Hwf) as Hal. rewrite Forall_forall in Hal. destruct (Hal n Hin) as [Hn1 Hn2].
  set (pe := align_up (addr + size) 0x1000) in *.
  unfold contains_range in Ec. rewrite decide_False in Ec by lia.
  rewrite (proj2 (checked_add_Some b (pe - b) pe)) in Ec by lia.
  apply andb_true_iff in Ec as [_ Hpe%bool_decide_eq_true].
  assert (Hpa : pe mod 4096 = 0).
  { unfold pe. apply (VadTable.align_up_spec (addr + size) 4096); [lia|lia|].
    pose proof (add_aligned _ _ 4096 ltac:(lia) Hn1 Hn2) as Hea. 
    pose proof (Z.div_mod (allocation_base n + vn_size n) 4096 ltac:(lia)). lia. }
  split_and!; try done; try lia.
  - rewrite Zminus_mod, Hpa, Hdm. done.
  - exists n. split; [done|]. lia.
Qed.

(** ** Page scans *)

Definition page_ok (g : GuestMemory) (ok : PageState → bool) (q : Z) : Prop :=
  ∃ st pr, gview g q = Some (st, pr) ∧ ok st = true.

Lemma scan_pages_spec g ok corrupt bad first last :
  gm_wf g →
  match scan_pages g ok corrupt bad first last with
  | Ok _ => ∀ q, first ≤ q < last → page_ok g ok q
  | Err e => e = bad ∧ ∃ q, first ≤ q < last ∧ ¬ page_ok g ok q
  | Abort _ => False
  end.
Proof.
  intros Hwf. unfold scan_pages.
  apply (run_loop_rule (scan_page (pages g) ok corrupt bad last)
    (λ page, first ≤ page ∧ ∀ q, first ≤ q < page → page_ok g ok q)
    (λ r, match r with Ok _ => ∀ q, first ≤ q < last → page_ok g ok q
       | Err e => e = bad ∧ ∃ q, first ≤ q < last ∧ ¬ page_ok g ok q | Abort _ => False end)
    (λ page, Z.max 0 (last - page))).
  2:{ split; [lia|]. intros q ?. lia. }
  2:{ split; [lia|]. apply fuel_of_spec. lia. }
  intros page [Hge Hall]. unfold scan_page. destruct (decide (page < last)) as [Hlt|Hlt].
  2:{ intros q Hq. apply Hall. lia. }
  destruct (PageMap.lookup (pages g) page) as [run|] eqn:El.
  2:{ split; [done|]. exists page. split; [lia|]. intros (st & pr & Hv & _).
      by rewrite lookup_view, El in Hv. }
  destruct (lookup_run g page run Hwf El) as (H1 & H2 & H3 & _ & Hv).
  destruct (ok (pr_state run)) eqn:Eok.
  - rewrite decide_False by lia. split; [|lia]. split; [lia|]. intros q Hq.
    destruct (decide (q < page)); [apply Hall; lia|]. eexists _, _. split; [apply Hv; lia|done].
  - split; [done|]. exists page. split; [lia|]. intros (st & pr & Hv' & Hok).
    rewrite Hv in Hv' by lia. congruence.
Qed.

Lemma protect_scan_spec g first last :
  gm_wf g → first < last →
  match run_loop (fuel_of (Z.max 0 (last - first))) (protect_scan_step (pages g) last) (first, 0, true) with
  | Ok old => gview g first = Some (Committed, old) ∧
      ∀ q, first ≤ q < last → ∃ pr, gview g q = Some (Committed, pr)
  | Err _ => ∃ q, first ≤ q < last ∧ ∀ pr, gview g q ≠ Some (Committed, pr)
  | Abort _ => False
  end.
Proof.
  intros Hwf Hfl.
  apply (run_loop_rule (protect_scan_step (pages g) last)
    (λ '(page, old, fst), first ≤ page ∧ fst = bool_decide (page = first) ∧
       (fst = false → gview g first = Some (Committed, old)) ∧
       ∀ q, first ≤ q < page → ∃ pr, gview g q = Some (Committed, pr))
    (λ r, match r with Ok old => gview g first = Some (Committed, old) ∧
         ∀ q, first ≤ q < last → ∃ pr, gview g q = Some (Committed, pr)
       | Err _ => ∃ q, first ≤ q < last ∧ ∀ pr, gview g q ≠ Some (Committed, pr) | Abort _ => False end)
    (λ s, Z.max 0 (last - s.1.1))).
  2:{ split; [lia|]. split; [by rewrite bool_decide_true|]. split; [done|]. intros q ?. lia. }
  2:{ split; [cbn [fst]; lia|]. apply fuel_of_spec. lia. }
  intros [[page old] fs] (Hge & Hfs & Hold & Hall). unfold protect_scan_step.
  destruct (decide (page < last)) as [Hlt|Hlt].
  2:{ split; [|intros q Hq; apply Hall; lia]. apply Hold. rewrite Hfs. apply bool_decide_false. lia. }
  destruct (PageMap.lookup (pages g) page) as [run|] eqn:El.
  2:{ exists page. split; [lia|]. intros pr. by rewrite lookup_view, El. }
  destruct (lookup_run g page run Hwf El) as (H1 & H2 & H3 & _ & Hv).
  destruct (decide (pr_state run = Committed)) as [Hst|Hst].
  2:{ exists page. split; [lia|]. intros pr. rewrite Hv by lia. congruence. }
  assert (Hall' : ∀ q, first ≤ q < Z.min (pr_end_page run) last → ∃ pr, gview g q = Some (Committed, pr)).
  { intros q Hq. destruct (decide (q < page)); [apply Hall; lia|]. rewrite Hv, Hst by lia. eauto. }
  destruct fs; rewrite decide_False by lia; (split; [|cbn [fst]; lia]).
  - symmetry in Hfs. apply bool_decide_eq_true in Hfs as ->. split_and!; [lia|by rewrite bool_decide_false by lia| |done].
    intros _. by rewrite Hv, Hst by lia.
  - symmetry in Hfs. apply bool_decide_eq_false in Hfs.
    split_and!; [lia|by rewrite bool_decide_false by lia|auto|done].
Qed.

(** ** [sync_host_protect] *)

(** Only host protections differ. *)
Record retuned (g g' : GuestMemory) : Prop := {
  rt_wf : gm_wf g';
  rt_arenas : arenas (backend g') = arenas (backend g);
  rt_bytes : h_bytes (os_state (backend g')) = h_bytes (os_state (backend g));
  rt_pages : pages g' = pages g;
  rt_vads : vads g' = vads g;
  rt_regions : regions g' = regions g;
  rt_generation : generation g' = generation g;
}.

Lemma retuned_gbyte g g' x : retuned g g' → gbyte g' x = gbyte g x.
Proof. intros [_ Ha Hb _ _ _ _]. unfold gbyte, byte_at, host_byte. by rewrite Ha, Hb. Qed.

Lemma retuned_refl g : gm_wf g → retuned g g.
Proof. by split. Qed.

Lemma sync_step_spec g0 g end_ va :
  retuned g0 g → 0 ≤ va → end_ < u64_lim →
  match sync_step end_ va g with
  | (g', Ok (inl va')) => retuned g0 g' ∧ va < va' ∧ va < end_
  | (g', Ok (inr _)) => retuned g0 g'
  | _ => False
  end.
Proof.
  intros Hr Hva Hlim. unfold sync_step. destruct (decide (va < end_)) as [Hlt|]; [|done].
  pose proof (rt_wf _ _ Hr) as Hwf.
  destruct (arena_guest_base_for_va (arenas (backend g)) va) as [base|] eqn:Eb.
  2:{ split; [done|]. unfold sat_add, PAGE_SIZE. lia. }
  apply fmap_Some in Eb as (a & Ha & ->). apply (find_va_Some _ (gw_backend _ Hwf)) in Ha as [Hin Ha].
  pose proof (arena_in _ (gw_backend _ Hwf) a Hin) as Hok. rewrite guest_end_ok in Ha by done.
  destruct Hok as (? & _). destruct host_page_size_units as [Hps _].
  rewrite sat_sub_le by lia.
  destruct (align_down_spec (va - guest_base a) host_page_size Hps) as [Hd _].
  pose proof (align_down_nonneg (va - guest_base a) host_page_size ltac:(lia) Hps).
  set (fg := sat_add _ _). set (prot := host_prot_for_frame _ _ _).
  assert (Hfg : 0 ≤ fg) by (unfold fg, sat_add; lia).
  pose proof (mprotect_spec (backend g) fg host_page_size prot (gw_backend _ Hwf) Hfg (Z.lt_le_incl _ _ Hps)) as Hm.
  destruct (mprotect_guest_range fg host_page_size prot (backend g)) as [b ok]. simpl in Hm.
  split.
  - destruct Hm as [Hw Har Hby _], Hr as [Hg0 E1 E2 E3 E4 E5 E6]. split; simpl; try congruence.
    destruct Hwf as [H1 H2 H3 H4 H5]. split; simpl; try done. intros q Hq. rewrite Har. by apply H5.
  - case_decide; [unfold sat_add, PAGE_SIZE; lia|lia].
Qed.

Lemma sync_host_protect_spec wie g addr size :
  gm_wf g → 0 ≤ addr → 0 ≤ size →
  ∃ g', sync_host_protect wie addr size g = (g', Ok tt) ∧ retuned g g'.
Proof.
  intros Hwf Ha Hs. unfold sync_host_protect.
  destruct (negb _); [exists g; split; [done|by apply retuned_refl]|].
  destruct (decide (size = 0)); [exists g; split; [done|by apply retuned_refl]|].
  destruct (decide (host_page_size = 0)); [exists g; split; [done|by apply retuned_refl]|].
  set (end_ := sat_add addr size). set (l := loopM _ _ _ g).
  assert (Hend : end_ < u64_lim) by (unfold end_, sat_add; lia).
  cut (l.2 = Ok tt ∧ retuned g l.1).
  { destruct l as [g' r]. simpl. intros [-> ?]. eauto. }
  apply (loopM_rule (sync_step end_) (λ va g', 0 ≤ va ∧ retuned g g')
    (λ g' r, r = Ok tt ∧ retuned g g') (λ va, Z.max 0 (end_ - va))).
  - intros va g' [Hva Hr]. pose proof (sync_step_spec g g' end_ va Hr Hva Hend) as H.
    destruct (sync_step end_ va g') as [g2 [[va'|[]]|e|w]]; [|done..].
    destruct H as (? & ? & ?). split; [split; [lia|done]|lia].
  - split; [done|by apply retuned_refl].
  - split; [lia|]. apply fuel_of_spec. lia.
Qed.

(** ** VirtualProtect *)

(** The asked range, rounded to pages, lies in one reservation. *)
Definition one_allocation (g : GuestMemory) (pb pe : Z) : Prop :=
  ∃ n, n ∈ vads g ∧ allocation_base n ≤ pb ∧ pe ≤ allocation_base n + vn_size n.

(** Retagging pages that exist keeps the invariant. *)
Lemma gm_wf_retag g pm addr size st pr :
  gm_wf g → addr mod 4096 = 0 → size mod 4096 = 0 → PageMap.wf pm →
  (∀ q, PageMap.view pm q = retagged g addr size st pr q) →
  (∀ q, addr / 4096 ≤ q < (addr + size) / 4096 → is_Some (tr (arenas (backend g)) (q * 4096))) →
  gm_wf (set_pages pm g).
Proof.
  intros [H1 H2 H3 H4 H5] Ha Hs Hw Hv Hb. split; try done. simpl. intros q Hq. rewrite Hv in Hq.
  unfold retagged, PageMap.requested in Hq. case_decide; auto.
Qed.

Lemma gm_wf_bump g : gm_wf g → gm_wf (bump_generation g).
Proof. by intros []. Qed.

Lemma virtual_protect_holds wie g addr size np :
  gm_wf g → in_u64 addr → in_u64 size →
  match virtual_protect wie addr size np g with
  | (g', Ok old) => ∃ pb pe, pb ≤ addr ∧ addr + size ≤ pe ∧ pb mod 4096 = 0 ∧ pe mod 4096 = 0 ∧
      one_allocation g pb pe ∧ is_supported_protect np = true ∧
      gview g (pb / 4096) = Some (Committed, old) ∧
      (∀ q, pb / 4096 ≤ q < pe / 4096 → ∃ pr, gview g q = Some (Committed, pr)) ∧
      (∀ q, gview g' q = retagged g pb (pe - pb) Committed np q) ∧
      (∀ x, gbyte g' x = gbyte g x) ∧ vads g' = vads g ∧ gm_wf g' ∧
      generation g' = sat_add (generation g) 1
  | (g', Err _) => g' = g
  | (g', Abort _) => False
  end.
Proof.
  intros Hwf Ha [Hs0 Hs]. unfold virtual_protect. destruct (decide (size = 0)); [done|].
  assert (Hpos : 0 < size) by lia.
  destruct (is_supported_protect np) eqn:Enp; [|done]. cbn [negb].
  unfold lift, get, mbind, M_bind.
  destruct (page_span addr size _) as [[[pb pe] sz]|e|w] eqn:Esp; [|done|].
  2:{ unfold page_span in Esp. by destruct (checked_add addr size). }
  destruct (check_allocation g pb sz _ _) as [[]|e|w] eqn:Ech; [|done|].
  2:{ unfold check_allocation in Ech. destruct (VadTable.find _ _); [|done].
      cbn [ok_or mbind res_bind] in Ech. by destruct (contains_range _ _ _). }
  destruct (page_span_owned g addr size _ _ _ pb pe sz Hwf Ha Hpos Esp Ech)
    as (Hb0 & Hbm & Hem & -> & Hsz & Hszm & Hlim & Hba & Hea & Hone).
  rewrite !shiftr_12. assert (Hlt : pb / 4096 < pe / 4096).
  { pose proof (div_mul_aligned pb 4096 ltac:(lia) Hbm). pose proof (div_mul_aligned pe 4096 ltac:(lia) Hem). lia. }
  pose proof (protect_scan_spec g (pb / 4096) (pe / 4096) Hwf Hlt) as Hscan.
  destruct (run_loop _ (protect_scan_step _ _) _) as [old|e|w]; [|done|done].
  destruct Hscan as [Hold Hall].
  destruct (set_range_ok g pb (pe - pb) Committed np Hwf Hb0 Hsz Hbm Hszm ltac:(lia)) as (pm & -> & Hwp & Hv).
  assert (Hwf2 : gm_wf (bump_generation (set_pages pm g))).
  { apply gm_wf_bump, (gm_wf_retag g pm pb (pe - pb) Committed np Hwf Hbm Hszm Hwp Hv). intros q Hq.
    replace (pb + (pe - pb)) with pe in Hq by lia. apply (gw_backed _ Hwf).
    destruct (Hall q Hq) as [pr Hpr]. unfold gview in Hpr. by rewrite Hpr. }
  unfold modify. 
  destruct (sync_host_protect_spec wie (bump_generation (set_pages pm g)) pb (pe - pb) Hwf2 Hb0 ltac:(lia))
    as (g' & Hsy & Hr). rewrite Hsy.
  exists pb, pe. split_and!; try done.
  - intros q. unfold gview. rewrite (rt_pages _ _ Hr). apply Hv.
  - intros x. by rewrite (retuned_gbyte _ _ _ Hr).
  - by rewrite (rt_vads _ _ Hr).
  - apply Hr.
  - by rewrite (rt_generation _ _ Hr).
Qed.

(** C5 VirtualProtect succeeds only on a range of committed pages inside one
    reservation; it then returns the previous protection of the first page and
    gives exactly the pages of the rounded range the new protection, touching
    no byte, reservation or other page.  Any failure changes nothing at all. *)
Theorem virtual_protect_spec wie g addr size np :
  gm_wf g → in_u64 addr → in_u64 size →
  match virtual_protect wie addr size np g with
  | (g', Ok old) => ∃ pb pe, pb ≤ addr ∧ addr + size ≤ pe ∧ pb mod 4096 = 0 ∧ pe mod 4096 = 0 ∧
      one_allocation g pb pe ∧ is_supported_protect np = true ∧
      gview g (pb / 4096) = Some (Committed, old) ∧
      (∀ q, pb / 4096 ≤ q < pe / 4096 → ∃ pr, gview g q = Some (Committed, pr)) ∧
      (∀ q, gview g' q = retagged g pb (pe - pb) Committed np q) ∧
      (∀ x, gbyte g' x = gbyte g x) ∧ vads g' = vads g ∧ gm_wf g' ∧
      generation g' = sat_add (generation g) 1
  | (g', Err _) => g' = g
  | (g', Abort _) => False
  end.
Proof. apply virtual_protect_holds. Qed.

(** ** Committing *)

Lemma check_allocation_no_abort g pb sz out cr w : check_allocation g pb sz out cr ≠ Abort w.
Proof.
  unfold check_allocation. destruct (VadTable.find _ _); [|done].
  cbn [ok_or mbind res_bind]. by destruct (contains_range _ _ _).
Qed.

Lemma page_span_no_abort addr size ov w : page_span addr size ov ≠ Abort w.
Proof. unfold page_span. by destruct (checked_add addr size). Qed.

Lemma reserved_or_committed_exists g q : page_ok g reserved_or_committed q → is_Some (gview g q).
Proof. intros (st & pr & -> & _). eauto. Qed.

(** VirtualAlloc with MEM_COMMIT alone commits exactly the pages of the rounded
    range with the asked protection, provided they are reserved or committed
    and lie in one reservation; their bytes are kept (zero after a fresh
    reservation or a decommit).  Any failure changes nothing at all. *)
Lemma va_commit_only_spec g addr size protect :
  gm_wf g → in_u64 addr → in_u64 size → 0 < size →
  match va_commit_only addr size protect g with
  | (g', Ok base) => ∃ pe, base ≤ addr ∧ addr + size ≤ pe ∧ base mod 4096 = 0 ∧ pe mod 4096 = 0 ∧
      one_allocation g base pe ∧
      (∀ q, base / 4096 ≤ q < pe / 4096 → is_Some (gview g q)) ∧
      (∀ q, gview g' q = retagged g base (pe - base) Committed protect q) ∧
      (∀ x, gbyte g' x = gbyte g x) ∧ vads g' = vads g ∧ gm_wf g' ∧ host_kept g g' ∧
      generation g' = sat_add (generation g) 1
  | (g', Err _) => g' = g
  | (g', Abort _) => False
  end.
Proof.
  intros Hwf Ha [Hs0 Hs] Hpos. unfold va_commit_only. destruct (decide (addr = 0)); [done|].
  unfold lift, get, mbind, M_bind.
  destruct (page_span addr size _) as [[[pb pe] sz]|e|w] eqn:Esp; [|done|by apply page_span_no_abort in Esp].
  destruct (check_allocation g pb sz _ _) as [[]|e|w] eqn:Ech; [|done|by apply check_allocation_no_abort in Ech].
  destruct (page_span_owned g addr size _ _ _ pb pe sz Hwf Ha Hpos Esp Ech)
    as (Hb0 & Hbm & Hem & -> & Hsz & Hszm & Hlim & Hba & Hea & Hone).
  rewrite !shiftr_12.
  pose proof (scan_pages_spec g reserved_or_committed
    (va_error ERROR_INVALID_ADDRESS "VirtualAlloc COMMIT corrupt pagemap")
    (va_error ERROR_INVALID_ADDRESS "VirtualAlloc COMMIT on free page") (pb / 4096) (pe / 4096) Hwf) as Hscan.
  destruct (scan_pages _ _ _ _ _ _) as [[]|e|w]; [|done|done].
  assert (Hall : ∀ q, pb / 4096 ≤ q < pe / 4096 → is_Some (gview g q)).
  { intros q Hq. by apply reserved_or_committed_exists, Hscan. }
  assert (Hfirst : pb / 4096 < pe / 4096).
  { pose proof (div_mul_aligned pb 4096 ltac:(lia) Hbm). pose proof (div_mul_aligned pe 4096 ltac:(lia) Hem). lia. }
  rewrite (page_data_ptr_spec _ (gw_backend _ Hwf)).
  2:{ split; [by apply Z.div_pos|]. apply Z.div_lt_upper_bound; lia. }
  destruct (gw_backed _ Hwf (pb / 4096)) as [p ->]; [apply Hall; lia|]. unfold mret at 1, M_ret at 1.
  destruct (set_range_ok g pb (pe - pb) Committed protect Hwf Hb0 Hsz Hbm Hszm ltac:(lia)) as (pm & -> & Hwp & Hv).
  exists pe. split_and!; try done.
  apply (gm_wf_bump (set_pages pm g)), (gm_wf_retag g pm pb (pe - pb) Committed protect Hwf Hbm Hszm Hwp Hv).
  intros q Hq. replace (pb + (pe - pb)) with pe in Hq by lia. apply (gw_backed _ Hwf). by apply Hall.
Qed.

(** ** Freeing *)

Lemma gm_wf_zeroed g b lo hi :
  gm_wf g → zeroed (backend g) b lo hi → gm_wf (mkGM b (regions g) (pages g) (vads g) (generation g)).
Proof.
  intros [H1 H2 H3 H4 H5] [Z1 Z2 Z3 Z4]. split; try done. simpl. intros q Hq. rewrite Z2. by apply H5.
Qed.

(** VirtualFree with MEM_DECOMMIT zeroes exactly the bytes of the rounded range
    and makes exactly its pages reserved and inaccessible, provided they exist
    and lie in one reservation (and the host pages are writable); the
    reservation itself stays.  Any failure changes nothing at all. *)
Lemma va_decommit_spec g addr size :
  gm_wf g → in_u64 addr → in_u64 size →
  (∀ lo n, host_allows (backend g) PROT_WRITE lo n) →
  match va_decommit addr size g with
  | (g', Ok _) => ∃ pb pe, pb ≤ addr ∧ addr + size ≤ pe ∧ pb mod 4096 = 0 ∧ pe mod 4096 = 0 ∧
      one_allocation g pb pe ∧
      (∀ q, pb / 4096 ≤ q < pe / 4096 → is_Some (gview g q)) ∧
      (∀ q, gview g' q = retagged g pb (pe - pb) Reserved PAGE_NOACCESS q) ∧
      (∀ x, gbyte g' x = if decide (pb ≤ x < pe) then Some 0 else gbyte g x) ∧
      vads g' = vads g ∧ gm_wf g' ∧ host_kept g g' ∧ generation g' = sat_add (generation g) 1
  | (g', Err _) => g' = g
  | (g', Abort _) => False
  end.
Proof.
  intros Hwf Ha [Hs0 Hs] Hal. unfold va_decommit. destruct (decide (size = 0)); [done|].
  assert (Hpos : 0 < size) by lia. unfold lift, get, mbind, M_bind.
  destruct (page_span addr size _) as [[[pb pe] sz]|e|w] eqn:Esp; [|done|by apply page_span_no_abort in Esp].
  destruct (check_allocation g pb sz _ _) as [[]|e|w] eqn:Ech; [|done|by apply check_allocation_no_abort in Ech].
  destruct (page_span_owned g addr size _ _ _ pb pe sz Hwf Ha Hpos Esp Ech)
    as (Hb0 & Hbm & Hem & -> & Hsz & Hszm & Hlim & Hba & Hea & Hone).
  rewrite !shiftr_12.
  pose proof (scan_pages_spec g reserved_or_committed (va_error ERROR_INVALID_ADDRESS "DECOMMIT corrupt pagemap")
    (va_error ERROR_INVALID_ADDRESS "DECOMMIT free page in range") (pb / 4096) (pe / 4096) Hwf) as Hscan.
  destruct (scan_pages _ _ _ _ _ _) as [[]|e|w]; [|done|done].
  assert (Hall : ∀ q, pb / 4096 ≤ q < pe / 4096 → is_Some (gview g q)).
  { intros q Hq. by apply reserved_or_committed_exists, Hscan. }
  destruct (discard_range_spec (backend g) pb (pe - pb) (gw_backend _ Hwf) Hb0 ltac:(lia) ltac:(lia) (Hal _ _))
    as (b & Hdis & Hz).
  unfold on_backend at 1, zoom at 1. rewrite Hdis.
  pose proof (gm_wf_zeroed g b _ _ Hwf Hz) as Hwf1.
  set (g1 := mkGM b (regions g) (pages g) (vads g) (generation g)) in *.
  destruct (set_range_ok g1 pb (pe - pb) Reserved PAGE_NOACCESS Hwf1 Hb0 Hsz Hbm Hszm ltac:(lia))
    as (pm & -> & Hwp & Hv).
  exists pb, pe. split_and!; try done.
  - intros x. unfold gbyte. simpl. rewrite (zr_bytes _ _ _ _ Hz). replace (pb + (pe - pb)) with pe by lia.
    case_decide as Hx; [|done].
    destruct (gw_backed _ Hwf (x / 4096)) as [p Hp].
    { apply Hall. apply div_aligned_range; [done..|]. pose proof (div_4096_bounds x).
      pose proof (div_mul_aligned pb 4096 ltac:(lia) Hbm). lia. }
    unfold byte_at. rewrite (tr_page _ (gw_backend _ Hwf) (x / 4096 * 4096) x), Hp; [done|].
    by rewrite Z.div_mul by lia.
  - apply (gm_wf_bump (set_pages pm g1)), (gm_wf_retag g1 pm pb (pe - pb) Reserved PAGE_NOACCESS Hwf1 Hbm Hszm Hwp Hv).
    intros q Hq. replace (pb + (pe - pb)) with pe in Hq by lia. apply (gw_backed _ Hwf1). by apply Hall.
  - intros x p. simpl. rewrite (zr_arenas _ _ _ _ Hz), (zr_prot _ _ _ _ Hz). done.
Qed.

(** VirtualFree with MEM_RELEASE takes a reservation's base: it frees exactly the
    pages of that reservation and removes it from the ownership map, and no
    page, reservation or byte outside it changes; at any other address it fails
    and changes nothing. *)
Lemma va_release_spec g addr :
  gm_wf g →
  match va_release addr g with
  | (g', Ok _) => ∃ n, VadTable.find_base (vads g) addr = Some n ∧ allocation_base n = addr ∧
      (∀ q, gview g' q = retagged g addr (vn_size n) Free 0 q) ∧
      (∀ va, VadTable.find (vads g') va = if contains n va then None else VadTable.find (vads g) va) ∧
      (∀ x, ¬ (addr ≤ x < addr + vn_size n) → gbyte g' x = gbyte g x) ∧
      gm_wf g' ∧ host_kept g g' ∧ generation g' = sat_add (generation g) 1
  | (g', Err _) => g' = g ∧ VadTable.find_base (vads g) addr = None
  | (g', Abort _) => False
  end.
Proof.
  intros Hwf. unfold va_release, get, lift, modify, mbind, M_bind.
  destruct (VadTable.find_base (vads g) addr) as [n|] eqn:Efb; cbn [ok_or]; [|done].
  pose proof Efb as Hfb. unfold VadTable.find_base in Hfb.
  apply List.find_some in Hfb as [Hin%list_elem_of_In Hbase%bool_decide_eq_true].
  pose proof (VadTable.wf_nodes _ (gw_vads _ Hwf)) as Hno. rewrite Forall_forall in Hno.
  destruct (Hno n Hin) as (Hn0 & Hns & Hnl).
  pose proof (gw_aligned _ Hwf) as Hal. rewrite Forall_forall in Hal. destruct (Hal n Hin) as [Hm1 Hm2].
  destruct (set_range_ok (bump_generation g) (allocation_base n) (vn_size n) Free 0 (gm_wf_bump g Hwf)
    Hn0 Hns Hm1 Hm2 Hnl) as (pm & -> & Hwp & Hv).
  pose proof (VadTable.vad_remove_base_holds (vads g) addr (gw_vads _ Hwf)) as Hrem.
  assert (Hrb : ∃ n', (VadTable.remove_base addr (vads g)).2 = Some n').
  { destruct (VadTable.remove_base addr (vads g)) as [vt [n'|]]; [by exists n'|].
    destruct Hrem as (_ & _ & Hnone). congruence. }
  simpl. destruct (VadTable.remove_base addr (vads g)) as [vt r] eqn:Erem. simpl in *.
  destruct Hrb as [n' ->]. destruct Hrem as (Hwv & Hb' & Hf' & Hown).
  assert (n' = n) as ->.
  { apply (VadTable.find_spec _ _ _ (gw_vads _ Hwf)) in Hf' as [Hin' Hr'].
    apply (ivl_unique allocation_base vn_end (vads g) addr); try done; [apply Hwf|].
    rewrite VadTable.vn_end_ok by (by apply Hno). lia. }
  subst addr. exists n. split; [done|]. split; [done|]. split; [exact Hv|]. split; [exact Hown|].
  assert (Hmem : ∀ m, m ∈ vt → m ∈ vads g).
  { intros m Hm. unfold VadTable.remove_base in Erem.
    destruct (position _ _) as [i|]; simplify_eq/=.
    eapply elem_of_submseteq; [exact Hm|]. apply sublist_submseteq, sublist_delete. }
  assert (Hview : ∀ q, is_Some (PageMap.view pm q) →
    is_Some (gview g q) ∧ ¬ (allocation_base n ≤ q * 4096 < allocation_base n + vn_size n)).
  { intros q Hq. rewrite Hv in Hq. unfold retagged, PageMap.requested in Hq. case_decide as Hr; [by destruct Hq|].
    split; [done|]. intros Hq'. apply Hr. apply div_aligned_range; [done|by apply add_aligned|done]. }
  destruct (unmap_exact_spec (backend g) (allocation_base n) (vn_size n) (gw_backend _ Hwf))
    as [[Heq _]|(Hwu & Htr & Hby)].
  - split; [intros x _; unfold gbyte; simpl; by rewrite Heq|].
    split; [|split; [intros x p; simpl; by rewrite Heq|done]].
    destruct Hwf as [H1 H2 H3 H4 H5]. split; simpl; rewrite ?Heq; try done.
    + rewrite Forall_forall in H4 |- *. auto.
    + intros q Hq. apply H5. by apply Hview.
  - split.
    { intros x Hx. unfold gbyte. simpl. destruct (tr (arenas (backend g)) x) as [p|] eqn:Ep.
      - apply (Hby x p). rewrite Htr, decide_False by lia. done.
      - unfold byte_at. by rewrite Htr, decide_False, Ep by lia. }
    split; [|split; [|done]].
    + destruct Hwf as [H1 H2 H3 H4 H5]. split; simpl; try done.
      * rewrite Forall_forall in H4 |- *. auto.
      * intros q Hq. destruct (Hview q Hq) as [Hq1 Hq2]. rewrite Htr, decide_False by done. by apply H5.
    + intros x p Hx. simpl in *. split; [|by apply (Hby x p)]. rewrite Htr in Hx. by case_decide.
Qed.

(** ** The two entry points *)

(** What VirtualAlloc accepts: a positive size, only MEM_RESERVE and MEM_COMMIT
    (at least one of them), and a page protection it implements. *)
Definition alloc_args_ok (size ty pr : Z) : bool :=
  negb (bool_decide (size = 0)) &&
  (bool_decide (Z.land ty MEM_RESERVE ≠ 0) || bool_decide (Z.land ty MEM_COMMIT ≠ 0)) &&
  bool_decide (Z.land ty (Z.lxor (Z.lor MEM_RESERVE MEM_COMMIT) (u32_lim - 1)) = 0) &&
  is_supported_protect pr.

(** A request without address reserves even when only MEM_COMMIT is asked. *)
Definition alloc_reserves (addr ty : Z) : bool :=
  bool_decide (Z.land ty MEM_RESERVE ≠ 0) || bool_decide (addr = 0).

(** Committing [base, pe) inside one existing allocation. *)
Record committed (g g' : GuestMemory) (base pe : Z) (pr : u32) : Prop := {
  cm_wf : gm_wf g';
  cm_range : base mod 4096 = 0 ∧ pe mod 4096 = 0;
  cm_owner : one_allocation g base pe;
  cm_pages : ∀ q, base / 4096 ≤ q < pe / 4096 → is_Some (gview g q);
  cm_view : ∀ q, gview g' q = retagged g base (pe - base) Committed pr q;
  cm_bytes : ∀ x, gbyte g' x = gbyte g x;
  cm_vads : vads g' = vads g;
  cm_generation : generation g' = sat_add (generation g) 1;
}.

(** C3 VirtualAlloc: invalid sizes, flags or protections are refused with
    ERROR_INVALID_PARAMETER and change nothing.  A reservation covers the
    request with free pages nobody owned, makes them committed with the asked
    protection or reserved without access, records the allocation, and disturbs no
    other page or byte; a plain commit re-tags existing pages of one
    allocation and keeps every byte.  A failing call leaves pages, reservations
    and bytes as they were, and no call runs out of control. *)
Theorem virtual_alloc_spec g addr size ty pr :
  gm_wf g → in_u64 addr → in_u64 size →
  match virtual_alloc addr size ty pr g with
  | (g', Ok base) =>
      alloc_args_ok size ty pr = true ∧
      if alloc_reserves addr ty then
        ∃ sz, size ≤ sz ∧ (addr ≠ 0 → base ≤ addr ∧ addr + size ≤ base + sz) ∧
          let '(st, tag) := if bool_decide (Z.land ty MEM_COMMIT ≠ 0) then (Committed, pr)
                            else (Reserved, PAGE_NOACCESS) in
          reserved g g' base sz st tag (mkVadNode base sz pr Private true)
      else ∃ pe, base ≤ addr ∧ addr + size ≤ pe ∧ committed g g' base pe pr
  | (g', Err e) =>
      refused g g' ∧
      (alloc_args_ok size ty pr = false → g' = g ∧ win32_from_cpu_error e = Some ERROR_INVALID_PARAMETER)
  | (g', Abort _) => False
  end.
Proof.
  intros Hwf Ha Hs. unfold virtual_alloc, alloc_args_ok, alloc_reserves.
  destruct (decide (size = 0)) as [->|Hne]; [by split; [apply refused_refl|]|].
  rewrite (bool_decide_eq_false_2 (size = 0)) by done. assert (Hpos : 0 < size) by (destruct Hs; lia).
  destruct (decide (Z.land ty (Z.lxor _ _) ≠ 0)) as [Hbad|Hok%dec_stable].
  { rewrite (bool_decide_eq_false_2 (Z.land ty (Z.lxor _ _) = 0)) by done.
    repeat destruct (bool_decide _); by split; [apply refused_refl|]. }
  rewrite (bool_decide_eq_true_2 (Z.land ty (Z.lxor _ _) = 0)) by done.
  pose proof (va_reserve_and_commit_spec g addr size pr Hwf Ha Hs Hpos) as Hrc.
  pose proof (va_reserve_only_spec g addr size pr Hwf Ha Hs Hpos) as Hr.
  pose proof (va_commit_only_spec g addr size pr Hwf Ha Hs Hpos) as Hc.
  destruct (is_supported_protect pr);
    [|repeat destruct (bool_decide _); by split; [apply refused_refl|]].
  destruct (bool_decide (Z.land ty MEM_RESERVE ≠ 0)), (bool_decide (Z.land ty MEM_COMMIT ≠ 0)),
    (bool_decide (addr = 0)) eqn:Ea; cbn [andb orb negb] in *;
  try (by split; [apply refused_refl|]).
  all: match goal with |- match ?m with _ => _ end => destruct m as [g' [b|e|w]] end; try done.
  all: try (split; [subst g'; by apply refused_refl|done]).
  apply bool_decide_eq_false in Ea. destruct Hc as (pe & H1 & H2 & H3 & H4 & H5 & H6 & H7 & H8 & H9 & H10 & _ & H12).
  split; [done|]. exists pe. split_and!; [done..|]. by split.
Qed.

(** Releasing the allocation [n]: its pages become free, its address range
    unowned; nothing else changes. *)
Record released (g g' : GuestMemory) (n : VadNode) : Prop := {
  rl_wf : gm_wf g';
  rl_view : ∀ q, gview g' q = retagged g (allocation_base n) (vn_size n) Free 0 q;
  rl_owner : ∀ va, VadTable.find (vads g') va = if contains n va then None else VadTable.find (vads g) va;
  rl_bytes : ∀ x, ¬ (allocation_base n ≤ x < allocation_base n + vn_size n) → gbyte g' x = gbyte g x;
  rl_generation : generation g' = sat_add (generation g) 1;
}.

(** Decommitting [pb, pe): reserved again without access, and zeroed. *)
Record decommitted (g g' : GuestMemory) (pb pe : Z) : Prop := {
  dc_wf : gm_wf g';
  dc_range : pb mod 4096 = 0 ∧ pe mod 4096 = 0;
  dc_owner : one_allocation g pb pe;
  dc_view : ∀ q, gview g' q = retagged g pb (pe - pb) Reserved PAGE_NOACCESS q;
  dc_bytes : ∀ x, gbyte g' x = if decide (pb ≤ x < pe) then Some 0 else gbyte g x;
  dc_vads : vads g' = vads g;
  dc_generation : generation g' = sat_add (generation g) 1;
}.


End WithOS.
