(* ===== verification/mem_safe.v ===== *)
(** * VirtualQuery, host frames, and the safety of every reachable memory

    The transition system of the facade: any sequence of mapping, Virtual*,
    read and write operations from the empty memory. *)

From S2P Require Import Prelude protect pagemap vad arena region mem mem_access mem_ops.

(** ** VirtualQuery *)

(** Two page states the query reports as one run. *)
Definition same_page (v w : option (PageState * u32)) : Prop :=
  match v, w with
  | Some (st, pr), Some (st', pr') => st = st' ∧ (st = Committed → pr = pr')
  | _, _ => False
  end.

Lemma same_run_spec run r :
  same_run run r = true ↔
  same_page (Some (pr_state run, pr_protect run)) (Some (pr_state r, pr_protect r)).
Proof.
  unfold same_run. simpl. rewrite andb_true_iff, orb_true_iff, !bool_decide_eq_true.
  destruct (decide (pr_state run = Committed)); naive_solver.
Qed.

Lemma same_page_sym v w : same_page v w → same_page w v.
Proof. unfold same_page. repeat case_match; naive_solver. Qed.

Section Query.
Context (g : GuestMemory) (Hwf : gm_wf g) (run : PageRun).
Let here : option (PageState * u32) := Some (pr_state run, pr_protect run).

(** Extending left stops at the allocation or at the first different page. *)
Lemma extend_left_spec start0 stop :
  0 ≤ stop ≤ start0 →
  let r := settle (iter_until (fuel_of (Z.max 0 (start0 - stop))) (extend_left_step (pages g) run stop) start0) in
  stop ≤ r ≤ start0 ∧ (∀ q, r ≤ q < start0 → same_page here (gview g q)) ∧
  (stop < r → ¬ same_page here (gview g (r - 1))).
Proof.
  intros Hs.
  destruct (iter_until_rule (extend_left_step (pages g) run stop)
    (λ x, stop ≤ x ≤ start0 ∧ ∀ q, x ≤ q < start0 → same_page here (gview g q))
    (λ r, stop ≤ r ≤ start0 ∧ (∀ q, r ≤ q < start0 → same_page here (gview g q)) ∧
       (stop < r → ¬ same_page here (gview g (r - 1))))
    (λ x, Z.max 0 (x - stop)) (fuel_of (Z.max 0 (start0 - stop))) start0) as (r & -> & Hr); [| | |exact Hr].
  - intros x [Hx Hall]. unfold extend_left_step. destruct (decide (stop < x)) as [Hlt|]; [|split_and!; try done; lia].
    rewrite sat_sub_le by lia. destruct (PageMap.lookup (pages g) (x - 1)) as [r|] eqn:El.
    2:{ split_and!; try done; [lia..|]. intros _. rewrite lookup_view, El by done. unfold here. simpl. tauto. }
    destruct (lookup_run g (x - 1) r Hwf El) as (H1 & H2 & H3 & _ & Hv).
    destruct (same_run run r) eqn:Es.
    + apply same_run_spec in Es. split; [|lia]. split; [lia|]. intros q Hq.
      destruct (decide (x ≤ q)); [apply Hall; lia|]. rewrite Hv by lia. exact Es.
    + split_and!; try done; [lia..|]. intros _. rewrite Hv by lia. intros Hsame.
      apply same_run_spec in Hsame. congruence.
  - split; [lia|]. intros q ?. lia.
  - split; [lia|]. apply fuel_of_spec. lia.
Qed.

Lemma extend_right_spec end0 stop :
  end0 ≤ stop →
  let r := settle (iter_until (fuel_of (Z.max 0 (stop - end0))) (extend_right_step (pages g) run stop) end0) in
  end0 ≤ r ≤ stop ∧ (∀ q, end0 ≤ q < r → same_page here (gview g q)) ∧
  (r < stop → ¬ same_page here (gview g r)).
Proof.
  intros Hs.
  destruct (iter_until_rule (extend_right_step (pages g) run stop)
    (λ x, end0 ≤ x ≤ stop ∧ ∀ q, end0 ≤ q < x → same_page here (gview g q))
    (λ r, end0 ≤ r ≤ stop ∧ (∀ q, end0 ≤ q < r → same_page here (gview g q)) ∧
       (r < stop → ¬ same_page here (gview g r)))
    (λ x, Z.max 0 (stop - x)) (fuel_of (Z.max 0 (stop - end0))) end0) as (r & -> & Hr); [| | |exact Hr].
  - intros x [Hx Hall]. unfold extend_right_step. destruct (decide (x < stop)) as [Hlt|]; [|split_and!; try done; lia].
    destruct (PageMap.lookup (pages g) x) as [r|] eqn:El.
    2:{ split_and!; try done; [lia..|]. intros _. rewrite lookup_view, El by done. unfold here. simpl. tauto. }
    destruct (lookup_run g x r Hwf El) as (H1 & H2 & H3 & _ & Hv).
    destruct (same_run run r) eqn:Es.
    + apply same_run_spec in Es. split; [|lia]. split; [lia|]. intros q Hq.
      destruct (decide (q < x)); [apply Hall; lia|]. rewrite Hv by lia. exact Es.
    + split_and!; try done; [lia..|]. intros _. rewrite Hv by lia. intros Hsame.
      apply same_run_spec in Hsame. congruence.
  - split; [lia|]. intros q ?. lia.
  - split; [lia|]. apply fuel_of_spec. lia.
Qed.
End Query.

(** VirtualQuery of an allocated page describes the maximal run around it:
    the reported range contains the page, stays inside its reservation, holds
    only pages of the same state (and protection, when committed), and cannot
    be extended on either side; the state, protection, type and allocation
    fields are those of the page and its reservation. *)
Theorem virtual_query_spec g addr st pr n :
  gm_wf g → in_u64 addr →
  gview g (addr / 4096) = Some (st, pr) →
  VadTable.find (vads g) (addr / 4096 * 4096) = Some n →
  let m := virtual_query g addr in
  ∃ first stop, mbi_base_address m = first * 4096 ∧ mbi_region_size m = (stop - first) * 4096 ∧
    first ≤ addr / 4096 < stop ∧
    allocation_base n ≤ first * 4096 ∧ stop * 4096 ≤ allocation_base n + vn_size n ∧
    (∀ q, first ≤ q < stop → same_page (Some (st, pr)) (gview g q)) ∧
    (allocation_base n < first * 4096 → ¬ same_page (Some (st, pr)) (gview g (first - 1))) ∧
    (stop * 4096 < allocation_base n + vn_size n → ¬ same_page (Some (st, pr)) (gview g stop)) ∧
    mbi_allocation_base m = allocation_base n ∧ mbi_allocation_protect m = allocation_protect n ∧
    mbi_type m = win32 (mem_type n) ∧
    (mbi_state m, mbi_protect m) = match st with
      | Committed => (MEM_COMMIT, pr) | Reserved => (MEM_RESERVE, 0) | Free => (MEM_FREE, 0) end.
Proof.
  intros Hwf [Ha0 Ha] Hv Hf. unfold virtual_query.
  assert (Hal : align_down addr PAGE_SIZE = addr / 4096 * 4096) by done.
  rewrite Hal, shiftr_12, Z.div_mul by lia. set (q := addr / 4096) in *.
  rewrite lookup_view in Hv by done.
  destruct (PageMap.lookup (pages g) q) as [run|] eqn:El; [|done].
  cbn [fmap option_fmap option_map] in Hv. injection Hv as <- <-. rewrite Hf.
  destruct (lookup_run g q run Hwf El) as (H1 & H2 & H3 & Hnf & Hrun).
  apply (VadTable.find_spec _ _ _ (gw_vads _ Hwf)) in Hf as [Hin Hq].
  pose proof (VadTable.wf_nodes _ (gw_vads _ Hwf)) as Hno. rewrite Forall_forall in Hno.
  pose proof (VadTable.vn_end_ok n (Hno n Hin)) as Hne. destruct (Hno n Hin) as (Hn0 & Hns & Hnl).
  pose proof (gw_aligned _ Hwf) as Hnal. rewrite Forall_forall in Hnal. destruct (Hnal n Hin) as [Hm1 Hm2].
  rewrite !shiftr_12. rewrite Hne in *.
  pose proof (div_mul_aligned _ 4096 ltac:(lia) Hm1) as Ha1.
  pose proof (div_mul_aligned _ 4096 ltac:(lia) (add_aligned _ _ 4096 ltac:(lia) Hm1 Hm2)) as Ha2.
  set (as_ := allocation_base n / 4096) in *. set (ae := (allocation_base n + vn_size n) / 4096) in *.
  assert (Hqa : as_ ≤ q < ae) by lia. assert (0 ≤ as_) by lia.
  rewrite (decide_False (P := q < _)) by lia. rewrite (decide_False (P := _ ≤ q)) by lia.
  destruct (extend_left_spec g Hwf run (Z.max (pr_start_page run) as_) as_) as (Hl1 & Hl2 & Hl3); [lia|].
  destruct (extend_right_spec g Hwf run (Z.min (pr_end_page run) ae) ae) as (Hr1 & Hr2 & Hr3); [lia|].
  set (first := settle (iter_until (fuel_of (Z.max 0 (Z.max (pr_start_page run) as_ - as_)))
                          (extend_left_step (pages g) run as_) (Z.max (pr_start_page run) as_))) in *.
  set (stop := settle (iter_until (fuel_of (Z.max 0 (ae - Z.min (pr_end_page run) ae)))
                         (extend_right_step (pages g) run ae) (Z.min (pr_end_page run) ae))) in *.
  clearbody first stop.
  assert (Hmid : ∀ k, first ≤ k < stop → same_page (Some (pr_state run, pr_protect run)) (gview g k)).
  { intros k Hk. destruct (decide (k < Z.max (pr_start_page run) as_)); [apply Hl2; lia|].
    destruct (decide (Z.min (pr_end_page run) ae ≤ k)); [apply Hr2; lia|].
    rewrite Hrun by lia. done. }
  exists first, stop. unfold PAGE_SIZE.
  assert (Hfst : sat_mul first 4096 = first * 4096) by (apply sat_mul_lt; lia).
  assert (Hlen : sat_mul (sat_sub stop first) 4096 = (stop - first) * 4096).
  { rewrite sat_sub_le by lia. apply sat_mul_lt. lia. }
  assert (Hmax1 : allocation_base n < first * 4096 → ¬ same_page (Some (pr_state run, pr_protect run)) (gview g (first - 1))).
  { intros ?. apply Hl3. lia. }
  assert (Hmax2 : stop * 4096 < allocation_base n + vn_size n → ¬ same_page (Some (pr_state run, pr_protect run)) (gview g stop)).
  { intros ?. apply Hr3. lia. }
  destruct (pr_state run) eqn:Est; simpl; rewrite Hfst, Hlen; split_and!; try done; lia.
Qed.

(** ** [query_free] *)

Lemma foldr_min_spec (l : list Z) :
  match foldr (λ b acc, Some (match acc with Some a => Z.min b a | None => b end)) None l with
  | Some m => m ∈ l ∧ ∀ x, x ∈ l → m ≤ x
  | None => l = []
  end.
Proof.
  induction l as [|b l IH]; simpl; [done|].
  destruct (foldr _ None l) as [m|].
  - destruct IH as [Hm Hall]. split.
    + destruct (Z.min_spec b m) as [[_ ->]|[_ ->]]; [by left|by right].
    + intros x [->|Hx]%elem_of_cons; [lia|]. specialize (Hall x Hx). lia.
  - subst l. split; [by left|]. intros x [->|[]%elem_of_nil]%elem_of_cons. done.
Qed.

(** The first stored run after an address, in VA order. *)
Lemma find_sorted (l : list Z) x b :
  StronglySorted Z.le l → List.find (λ b, bool_decide (x < b)) l = Some b →
  b ∈ l ∧ x < b ∧ ∀ c, c ∈ l → x < c → b ≤ c.
Proof.
  induction 1 as [|a l Hs IH Hall]; simpl; [done|]. case_bool_decide as Hxa.
  - intros [= <-]. split_and!; [by left|done|]. intros c [->|Hc]%elem_of_cons _; [done|].
    rewrite Forall_forall in Hall. by apply Hall.
  - intros Hf. destruct (IH Hf) as (Hb & Hx & Hmin). split_and!; [by right|done|].
    intros c [->|Hc]%elem_of_cons Hlt; [done|]. by apply Hmin.
Qed.

Lemma run_starts_sorted (l : list (Z * PageRun)) :
  StronglySorted entry_le l → (∀ k r, (k, r) ∈ l → pr_start_page r = k ∧ 0 ≤ k < 4503599627370496) →
  StronglySorted Z.le ((λ r, sat_mul (pr_start_page r) PAGE_SIZE) <$> l.*2).
Proof.
  induction 1 as [|[k r] l Hs IH Hall]; intros Hk; simpl; [constructor|].
  assert (Hsat : ∀ j s, (j, s) ∈ (k, r) :: l → sat_mul (pr_start_page s) PAGE_SIZE = j * 4096).
  { intros j s Hj. destruct (Hk j s Hj) as [-> ?]. unfold PAGE_SIZE. apply sat_mul_lt. lia. }
  constructor; [apply IH; intros j s Hj; apply Hk; by right|].
  apply Forall_forall. intros z Hz. rewrite <- list_fmap_compose in Hz.
  apply list_elem_of_fmap in Hz as ([j s] & -> & Hj). simpl.
  rewrite (Hsat k r) by left. rewrite (Hsat j s) by (by right).
  rewrite Forall_forall in Hall. specialize (Hall (j, s) Hj). unfold entry_le in Hall. simpl in Hall. lia.
Qed.

(** VirtualQuery of a free page reports a free region starting at that page,
    of at least one page, none of whose pages exists. *)
Theorem virtual_query_free_spec g addr :
  gm_wf g → in_u64 addr → gview g (addr / 4096) = None →
  let m := virtual_query g addr in
  ∃ stop, addr / 4096 < stop ∧
    m = mkMBI (addr / 4096 * 4096) 0 0 ((stop - addr / 4096) * 4096) MEM_FREE 0 0 ∧
    ∀ q, addr / 4096 ≤ q < stop → gview g q = None.
Proof.
  intros Hwf [Ha0 Ha] Hfree. unfold virtual_query.
  assert (Hal : align_down addr PAGE_SIZE = addr / 4096 * 4096) by done.
  rewrite Hal, shiftr_12, Z.div_mul by lia. set (q := addr / 4096) in *.
  rewrite lookup_view in Hfree by done. destruct (PageMap.lookup (pages g) q) as [?|] eqn:El; [done|]. clear Hfree.
  assert (Hq0 : 0 ≤ q) by (by apply Z.div_pos). assert (Hq1 : q < 4503599627370496) by (apply Z.div_lt_upper_bound; lia).
  unfold query_free. rewrite !shiftr_12, Z.div_mul by lia. rewrite sat_add_lt by lia.
  set (nv := foldr _ _ _). set (nr := List.find _ _).
  pose proof (PageMap.wf_runs _ (gw_pages _ Hwf)) as Hrw.
  (* every stored run that reaches past [q] starts at or after the reported end *)
  assert (Hkeys : ∀ k r, (k, r) ∈ btree_entries (runs (pages g)) → pr_start_page r = k ∧ 0 ≤ k < 4503599627370496).
  { intros k r Hk. apply elem_of_btree_entries in Hk. destruct (PageMap.wf_run _ Hrw _ _ Hk) as (? & ? & ? & _). lia. }
  assert (Hnr : ∀ k r, runs (pages g) !! k = Some r → q < k →
    match nr with Some b => q * 4096 < b ≤ k * 4096 | None => False end).
  { intros k r Hk Hlt. pose proof (proj2 (elem_of_btree_entries _ _ _) Hk) as Hin.
    destruct (Hkeys k r Hin) as [Hst ?].
    assert (Hmem : k * 4096 ∈ (λ r, sat_mul (pr_start_page r) PAGE_SIZE) <$> PageMap.iter_runs (pages g)).
    { unfold PageMap.iter_runs, btree_values. rewrite <- list_fmap_compose.
      apply list_elem_of_fmap. exists (k, r). split; [|done]. simpl. rewrite Hst. unfold PAGE_SIZE.
      by rewrite sat_mul_lt by lia. }
    destruct nr as [b|] eqn:Enr; unfold nr in Enr.
    - apply find_sorted in Enr as (_ & ? & Hmin); [|by apply run_starts_sorted; [apply btree_entries_sorted|]].
      split; [done|]. apply Hmin; [done|lia].
    - pose proof (List.find_none _ _ Enr (k * 4096)) as Hn. rewrite <- list_elem_of_In in Hn.
      specialize (Hn Hmem). apply bool_decide_eq_false in Hn. lia. }
  set (end_va := match nv with Some a => _ | None => _ end).
  assert (Hend : ∀ k r, runs (pages g) !! k = Some r → q < k → end_va / 4096 ≤ k).
  { intros k r Hk Hlt. specialize (Hnr k r Hk Hlt). unfold end_va.
    apply Z.lt_succ_r, Z.div_lt_upper_bound; [lia|].
    destruct nr as [b|], nv as [a|]; simpl in *; lia. }
  set (stop := if decide (q + 1 < end_va / 4096) then end_va / 4096 else q + 1).
  assert (Hstop : q < stop) by (unfold stop; case_decide; lia).
  assert (Hbound : end_va < u64_lim → stop < 4503599627370496 ∨ stop = q + 1).
  { intros He. unfold stop. case_decide; [left|by right]. apply Z.div_lt_upper_bound; lia. }
  assert (Hev : end_va < u64_lim).
  { unfold end_va. destruct nv as [a|] eqn:Env.
    - pose proof (foldr_min_spec (filter (λ b, q * 4096 < b) (allocation_base <$> vads g))) as Hm.
      unfold nv in Env. rewrite Env in Hm. destruct Hm as [Hm _].
      apply list_elem_of_filter in Hm as [_ Hm]. apply list_elem_of_fmap in Hm as (n & -> & Hn).
      pose proof (VadTable.wf_nodes _ (gw_vads _ Hwf)) as Hno. rewrite Forall_forall in Hno.
      destruct (Hno n Hn) as (? & ? & ?). destruct nr; lia.
    - destruct nr as [b|] eqn:Enr; [|unfold sat_add; lia]. unfold nr in Enr.
      apply List.find_some in Enr as [Hb%list_elem_of_In _].
      apply list_elem_of_fmap in Hb as (r & -> & _). unfold sat_mul. lia. }
  exists stop. split; [done|]. split.
  - f_equal. rewrite sat_sub_le by lia. unfold PAGE_SIZE. rewrite sat_mul_lt by (specialize (Hbound Hev); lia). lia.
  - intros p Hp. rewrite lookup_view by done. destruct (PageMap.lookup (pages g) p) as [r|] eqn:Elp; [|done].
    exfalso. rewrite PageMap.lookup_run_at in Elp, El by apply Hwf.
    apply PageMap.run_at_spec in Elp as [Hin Hr]; [|done].
    assert (¬ (pr_start_page r ≤ q < pr_end_page r)).
    { intros Hrq. assert (PageMap.run_at (runs (pages g)) q = Some r) by (by apply PageMap.run_at_spec). congruence. }
    assert (q < pr_start_page r) by lia. specialize (Hend _ _ Hin ltac:(done)).
    unfold stop in Hp. case_decide; lia.
Qed.

(** ** Host frames *)

(** What the software plane may need of a host page. *)
Definition frame_need (g : GuestMemory) (lo hi : Z) (prot : Z) : Prop :=
  ∀ q pr, lo ≤ q * 4096 < hi → gview g q = Some (Committed, pr) →
    (allows_write pr = true → Z.land prot PROT_WRITE ≠ 0) ∧
    (allows_read pr || allows_execute pr = true → Z.land prot PROT_READ ≠ 0).

(** The notes taken on the pages before [stop]. *)
Record notes_ok (g : GuestMemory) (lo stop : Z) (s : FrameScan) : Prop := {
  nk_need : ∀ q pr, lo ≤ q * 4096 < stop → gview g q = Some (Committed, pr) →
    (allows_write pr = true → fs_need_w s = true) ∧
    (allows_read pr || allows_execute pr = true → fs_need_r s = true) ∧
    fs_any s = true ∧ (fs_uniform s = true → fs_first s = Some pr);
}.

Lemma rw_grants : Z.land (Z.lor HOST_PROT_READ HOST_PROT_WRITE) PROT_WRITE ≠ 0 ∧
  Z.land (Z.lor HOST_PROT_READ HOST_PROT_WRITE) PROT_READ ≠ 0.
Proof. done. Qed.

(** The host protection computed for a frame never denies the host an access
    the guest is allowed: every committed page of the frame that may be written
    leaves the frame host-writable, and every one that may be read or executed
    leaves it host-readable. *)
Theorem host_prot_for_frame_sound g frame ps :
  gm_wf g → 0 ≤ frame → frame mod 4096 = 0 → 0 < ps → ps mod 4096 = 0 → frame + ps < u64_lim →
  frame_need g frame (frame + ps) (host_prot_for_frame g frame ps).
Proof.
  intros Hwf Hf Hfm Hps Hpm Hlim. unfold host_prot_for_frame. rewrite sat_add_lt by lia.
  replace (frame + ps - frame) with ps by lia. rewrite Z.max_r by lia. unfold loopO.
  set (Inv := λ x : u64 * FrameScan, frame ≤ x.1 ≤ frame + ps ∧ x.1 mod 4096 = 0 ∧ notes_ok g frame x.1 x.2).
  destruct (iter_until_rule (frame_step (pages g) (frame + ps)) Inv
    (λ o, match o with Some s => notes_ok g frame (frame + ps) s | None => True end)
    (λ x, frame + ps - x.1) (fuel_of ps) (frame, mkScan false false false true None)) as (o & -> & Ho).
  - intros [page s] (Hp & Hpa & Hn). cbn [fst snd] in *. unfold frame_step.
    destruct (decide (page < frame + ps)) as [Hlt|]; [|by assert (page = frame + ps) as <- by lia].
    destruct (PageMap.lookup (pages g) (Z.shiftr page 12)) as [run|] eqn:El; [|done].
    destruct (decide (pr_state run = Committed)) as [Hst|]; [|done].
    rewrite shiftr_12 in El. destruct (lookup_run g _ run Hwf El) as (_ & _ & _ & _ & Hv).
    destruct (lookup_run g _ run Hwf El) as (H1 & H2 & _ & _ & _).
    destruct (page_step page (frame + ps)) as (-> & Hm' & Hle); [lia|done|by apply add_aligned|lia|done|].
    split; [|cbn [fst]; lia]. unfold Inv. cbn [fst snd]. split_and!; [lia|lia|done|]. split. intros q pr Hq Hvq.
    pose proof (div_mul_aligned page 4096 ltac:(lia) Hpa) as Hpd.
    destruct (decide (q * 4096 < page)) as [Hold|Hnew].
    + destruct (nk_need _ _ _ _ Hn q pr ltac:(lia) Hvq) as (N1 & N2 & N3 & N4). unfold frame_note. simpl.
      split_and!; [intros; by rewrite N1|intros; by rewrite N2|done|].
      destruct (fs_first s) as [p|] eqn:Ef.
      * case_decide as Hpp; [done|]. intros Hu. by apply N4.
      * intros Hu. specialize (N4 Hu). done.
    + assert (q = page / 4096) as -> by lia. rewrite Hv, Hst in Hvq by lia. injection Hvq as <-.
      unfold frame_note. simpl. split_and!; [by intros ->; rewrite orb_true_r|by intros ->; rewrite orb_true_r|done|].
      destruct (fs_first s) as [p|]; [|done]. case_decide as Hpp; [done|]. by subst p.
  - unfold Inv. cbn [fst snd]. split_and!; [lia|lia|done|]. split. intros q pr ?. lia.
  - cbn [fst]. split; [lia|]. replace (frame + ps - frame) with ps by lia. apply fuel_of_spec. lia.
  - destruct rw_grants as [Rw Rr]. intros q pr Hq Hv. destruct o as [s|]; [|done].
    destruct (nk_need _ _ _ _ Ho q pr Hq Hv) as (N1 & N2 & N3 & N4). rewrite N3. simpl.
    destruct (fs_uniform s); simpl.
    + rewrite (N4 eq_refl). destruct (allows_write pr) eqn:Ew; [done|].
      destruct (allows_read pr || allows_execute pr) eqn:Erx; done.
    + destruct (fs_need_r s), (fs_need_w s); simpl in *; split; intros; naive_solver.
Qed.

(** ** Mapping *)

Section WithOS.
Context {os : HostOS} {laws : HostOSLaws os} (wie : option string).

Lemma gm_wf_regions g r : gm_wf g → gm_wf (set_regions r g).
Proof. by intros []. Qed.

(** The reservation step of [map_with_type]. *)
Lemma map_vad_step g addr size protect mt :
  gm_wf g → 0 ≤ addr → 0 < size → addr mod 4096 = 0 → size mod 4096 = 0 → addr + size < u64_lim →
  ∃ vt, (if bool_decide (VadTable.find_base (vads g) addr = None) && negb (VadTable.overlaps (vads g) addr size)
     then on_vads (VadTable.insert (mkVadNode addr size protect mt true)) else mret tt) g =
    (set_vads vt g, Ok tt) ∧ gm_wf (set_vads vt g).
Proof.
  intros Hwf Ha Hs Hm1 Hm2 Hlim. set (n := mkVadNode addr size protect mt true).
  destruct (bool_decide _ && negb _) eqn:E.
  - apply andb_true_iff in E as [_ Hov%negb_true_iff].
    destruct (vad_insert_ok g n Hwf) as (vt & -> & Hwv & Hmem & _); [split_and!; simpl; lia|done|].
    exists vt. split; [done|]. destruct Hwf as [H1 H2 H3 H4 H5]. split; try done. simpl.
    apply Forall_forall. intros m Hm. destruct (Hmem m Hm) as [->|Hm']; [by split|]. by eapply Forall_forall in H4.
  - exists (vads g). by destruct g.
Qed.

Lemma map_with_type_holds g addr size perms mt :
  gm_wf g → in_u64 addr → in_u64 size → 0 < size →
  match map_with_type wie addr size perms mt g with
  | (g', Ok _) => gm_wf g' ∧
      (∀ q, gview g' q = retagged g addr size Committed (page_protect_from_rwx perms) q) ∧
      (∀ x, is_Some (gbyte g x) → gbyte g' x = gbyte g x) ∧
      (∀ x, addr ≤ x < addr + size → gbyte g x = None → gbyte g' x = Some 0)
  | (g', Err _) => refused g g'
  | (g', Abort _) => False
  end.
Proof.
  intros Hwf [Ha Halim] [_ Hs] Hpos. unfold map_with_type, get, modify, mbind, M_bind.
  pose proof (backend_map_spec g addr size perms Hwf Ha Hpos) as Hmap.
  destruct (on_backend (backend_map addr size perms) g) as [g1 r] eqn:Eg1.
  destruct Hmap as [(b & -> & Hext) Hr]. destruct r as [[]|e|w]; [|by eapply refused_backend|done].
  destruct Hr as (Hm1 & Hm2 & Hlim & Hback). simpl in Hback.
  set (g1 := mkGM b (regions g) (pages g) (vads g) (generation g)) in *.
  assert (Hwf1 : gm_wf g1) by (by eapply gm_wf_backend).
  destruct (set_range_ok g1 addr size Committed (page_protect_from_rwx perms) Hwf1 Ha Hpos Hm1 Hm2 Hlim)
    as (pm & -> & Hwp & Hv).
  assert (Hwf2 : gm_wf (set_pages pm g1)).
  { eapply gm_wf_retag; [done|exact Hm1|exact Hm2|done|exact Hv|]. intros q Hq. apply Hback.
    apply div_aligned_range; [done|by apply add_aligned|done]. }
  destruct (map_vad_step (set_pages pm g1) addr size (page_protect_from_rwx perms) mt Hwf2 Ha Hpos Hm1 Hm2 Hlim)
    as (vt & -> & Hwf3).
  set (g3 := bump_generation (set_vads vt (set_pages pm g1))).
  assert (Hwf4 : gm_wf g3) by (by apply gm_wf_bump).
  assert (Hg4 : ∃ r, (match arena_host_base_for_va (arenas (backend g3)) addr with
      | Some hb => λ g, (set_regions (RegionTable.set_host_base_if_covers addr hb (regions g)) g, Ok tt)
      | None => mret tt end : M GuestMemory unit) g3 = (set_regions r g3, Ok tt)).
  { destruct (arena_host_base_for_va _ _); [eauto|]. exists (regions g3). by destruct g3. }
  destruct Hg4 as [rg Hg4]. unfold modify in Hg4. rewrite Hg4.
  destruct (sync_host_protect_spec wie (set_regions rg g3) addr size (gm_wf_regions _ _ Hwf4) Ha ltac:(lia))
    as (g' & -> & Hr).
  split; [apply Hr|]. split; [|split].
  - intros q. unfold gview. rewrite (rt_pages _ _ Hr). apply Hv.
  - intros x Hx. rewrite (retuned_gbyte _ _ _ Hr). apply (ext_byte _ _ _ _ Hext). by apply byte_at_is_Some.
  - intros x Hx Hn. rewrite (retuned_gbyte _ _ _ Hr). destruct (Hback x Hx) as [p Hp].
    apply (ext_new _ _ _ _ Hext x p); [|done]. apply eq_None_not_Some. intros Hs'%byte_at_is_Some.
    unfold gbyte in Hn. rewrite Hn in Hs'. by destruct Hs'.
Qed.

(** Mapping a range commits exactly its pages with the protection the r/w/x bits
    stand for, keeps every byte that was backed, zero-fills the rest and
    preserves the invariant; when it fails no page changes. *)
Theorem map_with_type_spec g addr size perms mt :
  gm_wf g → in_u64 addr → in_u64 size → 0 < size →
  match map_with_type wie addr size perms mt g with
  | (g', Ok _) => gm_wf g' ∧
      (∀ q, gview g' q = retagged g addr size Committed (page_protect_from_rwx perms) q) ∧
      (∀ x, is_Some (gbyte g x) → gbyte g' x = gbyte g x) ∧
      (∀ x, addr ≤ x < addr + size → gbyte g x = None → gbyte g' x = Some 0)
  | (g', Err _) => refused g g'
  | (g', Abort _) => False
  end.
Proof. apply map_with_type_holds. Qed.
End WithOS.

(** ** The transition system *)

(** A request the emulator makes of guest memory. *)
Inductive Op : Type :=
  | OMap (addr : u64) (size : usize) (perms : u32) (mt : MemType)
  | OAlloc (addr : u64) (size : usize) (alloc_type protect : u32)
  | OFree (addr : u64) (size : usize) (free_type : u32)
  | OProtect (addr : u64) (size : usize) (np : u32)
  | OWrite (addr : u64) (bytes : list u8)
  | ORead (addr : u64) (buf : list u8)
  | OFetch (addr : u64) (buf : list u8).

(** Arguments are machine words. *)
Definition op_ok (o : Op) : Prop :=
  match o with
  | OMap a s _ _ | OAlloc a s _ _ | OFree a s _ | OProtect a s _ => in_u64 a ∧ in_u64 s
  | OWrite a bs | ORead a bs | OFetch a bs => in_u64 a ∧ in_u64 (Z.of_nat (length bs))
  end.

Definition forget {A} (r : res A) : res unit :=
  match r with Ok _ => Ok tt | Err e => Err e | Abort w => Abort w end.

Section Steps.
Context {os : HostOS} {laws : HostOSLaws os} (wie : option string).

Definition run_op (o : Op) (g : GuestMemory) : GuestMemory * res unit :=
  match o with
  | OMap a s p mt => map_with_type wie a s p mt g
  | OAlloc a s ty pr => let '(g', r) := virtual_alloc a s ty pr g in (g', forget r)
  | OFree a s ty => virtual_free a s ty g
  | OProtect a s np => let '(g', r) := virtual_protect wie a s np g in (g', forget r)
  | OWrite a bs => write a bs g
  | ORead a buf => let '(s, r) := read a (g, buf) in (s.1, r)
  | OFetch a buf => let '(s, r) := gm_fetch_into a (g, buf) in (s.1, forget r)
  end.

(** Memories reached from the empty one by completed operations. *)
Inductive reachable : GuestMemory → Prop :=
  | reach_new h : reachable (gm_new h)
  | reach_step g o : reachable g → op_ok o → reachable (run_op o g).1.

(** Every mapped host page is readable and writable. *)
Definition host_rw (g : GuestMemory) : Prop :=
  ∀ x p, tr (arenas (backend g)) x = Some p →
    h_prot (os_state (backend g)) !! (p / 4096) = Some (Z.lor PROT_READ PROT_WRITE).

Lemma host_rw_allows g bit lo n :
  host_rw g → bit = PROT_READ ∨ bit = PROT_WRITE → host_allows (backend g) bit lo n.
Proof.
  intros Hrw Hbit x p _ Hp. unfold unit_allows. rewrite (Hrw x p Hp). by destruct Hbit as [-> | ->].
Qed.

Lemma host_rw_grants g : host_rw g → host_grants g.
Proof.
  intros Hrw x p pr k Hp _ _. unfold unit_allows. rewrite (Hrw x p Hp). by destruct k.
Qed.

Lemma host_rw_extends g g' lo hi :
  extends (backend g) (backend g') lo hi → host_rw g → host_rw g'.
Proof.
  intros He Hrw x p Hp. destruct (tr (arenas (backend g)) x) as [q|] eqn:E.
  - pose proof (ext_tr _ _ _ _ He x q E) as Hq. simplify_eq.
    rewrite (ext_prot _ _ _ _ He); [by apply (Hrw x)|]. rewrite (Hrw x p E). eauto.
  - by apply (ext_new _ _ _ _ He x p).
Qed.

Lemma host_rw_kept g g' : host_kept g g' → host_rw g → host_rw g'.
Proof. intros Hk Hrw x p Hp. destruct (Hk x p Hp) as [Hp' ->]. by apply (Hrw x). Qed.

Lemma host_rw_same g g' : backend g' = backend g → host_rw g → host_rw g'.
Proof. unfold host_rw. by intros ->. Qed.

Lemma sync_disabled addr size g :
  host_mprotect_enabled wie = false → sync_host_protect wie addr size g = (g, Ok tt).
Proof. unfold sync_host_protect. by intros ->. Qed.

Lemma on_pages_backend {A} (m : M PageMap A) g : backend (on_pages m g).1 = backend g.
Proof. unfold on_pages, zoom. by destruct (m (pages g)). Qed.

Lemma virtual_protect_backend a s np g :
  host_mprotect_enabled wie = false → backend (virtual_protect wie a s np g).1 = backend g.
Proof.
  intros Hoff. unfold virtual_protect. repeat (case_match; [done|]).
  unfold lift, get, modify, mbind, M_bind. destruct (page_span _ _ _) as [[[pb pe] sz]|?|?]; [|done..].
  destruct (check_allocation _ _ _ _ _); [|done..]. destruct (run_loop _ _ _); [|done..].
  pose proof (on_pages_backend (PageMap.set_range pb sz Committed np) g) as Hb.
  destruct (on_pages _ g) as [g1 [[]|?|?]]; [|done..]. rewrite sync_disabled by done. done.
Qed.

Lemma map_backend a s p mt g :
  host_mprotect_enabled wie = false →
  backend (map_with_type wie a s p mt g).1 = backend (on_backend (backend_map a s p) g).1.
Proof.
  intros Hoff. unfold map_with_type, get, modify, mbind, M_bind.
  destruct (on_backend _ g) as [g1 [[]|?|?]]; [|done..].
  pose proof (on_pages_backend (PageMap.set_range a s Committed (page_protect_from_rwx p)) g1) as Hb.
  destruct (on_pages _ g1) as [g2 [[]|?|?]]; [|done..]. simpl in *.
  assert (Hv : ∀ (c : bool) n, backend ((if c then on_vads (VadTable.insert n) else mret tt) g2).1 = backend g2).
  { intros [] n; [|done]. unfold on_vads, zoom. by destruct (VadTable.insert n (vads g2)). }
  specialize (Hv (bool_decide (VadTable.find_base (vads g2) a = None) && negb (VadTable.overlaps (vads g2) a s))
    (mkVadNode a s (page_protect_from_rwx p) mt true)).
  destruct ((if bool_decide (VadTable.find_base (vads g2) a = None) && negb (VadTable.overlaps (vads g2) a s)
             then on_vads (VadTable.insert (mkVadNode a s (page_protect_from_rwx p) mt true))
             else mret tt : M GuestMemory unit) g2) as [g3 [[]|?|?]]; simpl in *; [|congruence..].
  destruct (arena_host_base_for_va _ _); simpl; rewrite sync_disabled by done; simpl; congruence.
Qed.

(** An operation keeps the invariants and completes. *)
Definition safe_result {A} (s : GuestMemory * res A) : Prop :=
  gm_wf s.1 ∧ host_rw s.1 ∧ ∀ w, s.2 ≠ Abort w.

Lemma safe_result_forget {A} (s : GuestMemory * res A) :
  safe_result s → safe_result (let '(g', r) := s in (g', forget r)).
Proof. destruct s as [g' [a|e|w]]; intros (H1 & H2 & H3); split_and!; try done. by destruct (H3 w). Qed.

Lemma safe_refl {A} g (r : res A) : gm_wf g → host_rw g → (∀ w, r ≠ Abort w) → safe_result (g, r).
Proof. intros. unfold safe_result. by split_and!. Qed.

Lemma safe_refused {A} g g' (e : CpuError) : host_rw g → refused g g' → safe_result (A:=A) (g', Err e).
Proof.
  intros Hrw [H1 _ _ _ (lo & hi & He)]. unfold safe_result; split_and!; [done| |done]. simpl. by eapply host_rw_extends.
Qed.

(** Mapping nothing changes no storage. *)
Lemma map_nothing a p g : on_backend (backend_map a 0 p) g = (g, Ok tt).
Proof.
  unfold on_backend, zoom, backend_map, lift, mbind, M_bind. destruct g. cbn [check_map_args].
  unfold check_map_args, map_range. rewrite decide_True by done. cbn -[decide]. by rewrite decide_True.
Qed.

Lemma safe_map a s p mt g :
  gm_wf g → host_rw g → host_mprotect_enabled wie = false → in_u64 a → in_u64 s →
  safe_result (map_with_type wie a s p mt g).
Proof.
  intros Hwf Hrw Hoff Ha Hs. destruct (decide (s = 0)) as [->|Hne].
  - unfold map_with_type, get, modify, mbind, M_bind. rewrite map_nothing.
    assert (on_pages (PageMap.set_range a 0 Committed (page_protect_from_rwx p)) g = (g, Ok tt)) as ->
      by (by destruct g).
    assert (∀ n, vn_size n = 0 → on_vads (VadTable.insert n) g = (g, Err (Message "VAD size 0"))) as Hins.
    { intros n Hn. unfold on_vads, zoom, VadTable.insert. rewrite decide_True by done. by destruct g. }
    destruct (_ && negb _); [rewrite Hins by done; by apply safe_refl|].
    cbn. destruct (arena_host_base_for_va _ _); cbn; rewrite sync_disabled by done;
      (unfold safe_result; split_and!; [by destruct Hwf|done|done]).
  - destruct Hs as [Hs0 Hs].
    pose proof (map_with_type_holds wie g a s p mt Hwf Ha ltac:(done) ltac:(lia)) as Hm.
    pose proof (map_backend a s p mt g Hoff) as Hb.
    pose proof (backend_map_spec g a s p Hwf (proj1 Ha) ltac:(lia)) as Hx.
    destruct (on_backend _ g) as [g1 r1]. destruct Hx as [(b & -> & He) _].
    destruct (map_with_type _ _ _ _ _ g) as [g' [u|e|w]]; [|by eapply safe_refused|done].
    destruct Hm as (Hw & _). split_and!; [done| |done]. simpl in *.
    apply (host_rw_extends g _ a (a + s)); [by rewrite Hb|done].
Qed.

Lemma safe_alloc a s ty pr g :
  gm_wf g → host_rw g → in_u64 a → in_u64 s → safe_result (virtual_alloc a s ty pr g).
Proof.
  intros Hwf Hrw Ha Hs. unfold virtual_alloc.
  destruct (bool_decide (s = 0) || _) eqn:E0; [by apply safe_refl|].
  apply orb_false_iff in E0 as [Hs0%bool_decide_eq_false _].
  assert (Hpos : 0 < s) by (destruct Hs; lia).
  destruct (decide (Z.land ty _ ≠ 0)) as [|_]; [by apply safe_refl|].
  destruct (negb (is_supported_protect pr)); [by apply safe_refl|].
  match goal with |- context [if ?b then va_reserve_and_commit _ _ _ else _] => destruct b end;
    [|match goal with |- context [if ?b then va_reserve_only _ _ _ else _] => destruct b end].
  - pose proof (va_reserve_and_commit_spec g a s pr Hwf Ha Hs Hpos) as H.
    destruct (va_reserve_and_commit a s pr g) as [g' [b|e|w]]; [|by eapply safe_refused|done].
    destruct H as (sz & _ & _ & Hr). split_and!; [apply Hr| |done]. simpl.
    eapply host_rw_extends; [apply Hr|done].
  - pose proof (va_reserve_only_spec g a s pr Hwf Ha Hs Hpos) as H.
    destruct (va_reserve_only a s pr g) as [g' [b|e|w]]; [|by eapply safe_refused|done].
    destruct H as (sz & _ & _ & Hr). split_and!; [apply Hr| |done]. simpl.
    eapply host_rw_extends; [apply Hr|done].
  - pose proof (va_commit_only_spec g a s pr Hwf Ha Hs Hpos) as H.
    destruct (va_commit_only a s pr g) as [g' [b|e|w]]; [|by subst g'; apply safe_refl|done].
    destruct H as (pe & _ & _ & _ & _ & _ & _ & _ & _ & _ & Hw & Hk & _).
    split_and!; [done|by eapply host_rw_kept|done].
Qed.

Lemma safe_free a s ty g :
  gm_wf g → host_rw g → in_u64 a → in_u64 s → safe_result (virtual_free a s ty g).
Proof.
  intros Hwf Hrw Ha Hs. unfold virtual_free. destruct (Bool.eqb _ _); [by apply safe_refl|].
  destruct (bool_decide (Z.land ty MEM_RELEASE ≠ 0)).
  - destruct (decide (s ≠ 0)) as [|_]; [by apply safe_refl|].
    pose proof (va_release_spec g a Hwf) as H.
    destruct (va_release a g) as [g' [u|e|w]]; [|destruct H as [-> _]; by apply safe_refl|done].
    destruct H as (n & _ & _ & _ & _ & _ & Hw & Hk & _).
    split_and!; [done|by eapply host_rw_kept|done].
  - pose proof (va_decommit_spec g a s Hwf Ha Hs) as H.
    specialize (H (λ lo n, host_rw_allows g PROT_WRITE lo n Hrw (or_intror eq_refl))).
    destruct (va_decommit a s g) as [g' [u|e|w]]; [|subst g'; by apply safe_refl|done].
    destruct H as (pb & pe & _ & _ & _ & _ & _ & _ & _ & _ & _ & Hw & Hk & _).
    split_and!; [done|by eapply host_rw_kept|done].
Qed.

Lemma safe_protect a s np g :
  gm_wf g → host_rw g → host_mprotect_enabled wie = false → in_u64 a → in_u64 s →
  safe_result (virtual_protect wie a s np g).
Proof.
  intros Hwf Hrw Hoff Ha Hs. pose proof (virtual_protect_holds wie g a s np Hwf Ha Hs) as H.
  pose proof (virtual_protect_backend a s np g Hoff) as Hb.
  destruct (virtual_protect wie a s np g) as [g' [old|e|w]]; [|subst g'; by apply safe_refl|done].
  destruct H as (pb & pe & _ & _ & _ & _ & _ & _ & _ & _ & _ & _ & _ & Hw & _).
  split_and!; [done|by eapply host_rw_same|done].
Qed.

Lemma spc_no_abort g va len kind w : spc g va len kind ≠ Abort w.
Proof.
  unfold spc. destruct (decide (len = 0)); [done|]. destruct (decide (va + len < u64_lim)); [|done].
  generalize (seqZ (va / 4096) ((va + len - 1) / 4096 + 1 - va / 4096)). intros ps.
  induction ps as [|p ps IH]; simpl; [done|].
  destruct (gview g p) as [[st pr]|]; simpl; [|done]. destruct (decide (st ≠ Committed)); [done|].
  destruct (allows pr kind); [exact IH|done].
Qed.

Lemma safe_access o g :
  gm_wf g → host_rw g → op_ok o →
  match o with OWrite _ _ | ORead _ _ | OFetch _ _ => safe_result (run_op o g) | _ => True end.
Proof.
  intros Hwf Hrw Hok. destruct o as [| | | |a bs|a buf|a buf]; try done; destruct Hok as [Ha Hl]; simpl.
  - destruct (gm_write_holds g a bs Hwf Ha Hl) as (g' & -> & Hw & _ & _ & _ & _ & Har & Hpr & _).
    { intros _. apply host_rw_allows; [done|by right]. }
    split_and!; [done| |apply spc_no_abort]. simpl. intros x p Hp. rewrite Har in Hp. rewrite Hpr. by apply (Hrw x).
  - destruct (gm_read_spec g a buf Hwf Ha Hl) as (g' & buf' & -> & Hw & Hs & _).
    { intros. apply host_rw_allows; [done|by left]. }
    split_and!; [done| |apply spc_no_abort]. eapply host_rw_same; [apply Hs|done].
  - destruct buf as [|b0 buf0] eqn:Eb; [by apply safe_refl|]. rewrite <- Eb in *.
    destruct (gm_fetch_holds g a buf Hwf Ha Hl) as (g' & out' & r & -> & Hs & Hw & Hr).
    { subst buf. simpl. lia. }
    { intros. apply host_rw_allows; [done|by left]. }
    split_and!; [done|eapply host_rw_same; [apply Hs|done]|]. intros w. by destruct r.
Qed.

(** C1 Every memory reached from the empty one by any sequence of mapping,
    VirtualAlloc, VirtualFree, VirtualProtect, read, write and fetch requests
    satisfies the invariant, and the next request always completes: with the
    optional host protection off no loop runs away and no access faults in the
    host, whatever the guest asks for. *)
Theorem reachable_safe g :
  host_mprotect_enabled wie = false → reachable g →
  gm_wf g ∧ host_rw g ∧ ∀ o w, op_ok o → (run_op o g).2 ≠ Abort w.
Proof.
  intros Hoff Hr.
  assert (Hstep : ∀ o g, gm_wf g → host_rw g → op_ok o → safe_result (run_op o g)).
  { intros o g' Hwf Hrw Hok. pose proof (safe_access o g' Hwf Hrw Hok) as Hacc.
    destruct o; simpl; try done; destruct Hok as [Ha Hs].
    - by apply safe_map.
    - by apply safe_result_forget, safe_alloc.
    - by apply safe_free.
    - by apply safe_result_forget, safe_protect. }
  assert (Hinv : gm_wf g ∧ host_rw g).
  { induction Hr as [h|g o Hr IH Hok].
    - split; [|by intros x p]. split; simpl; [apply arena_wf_new|apply PageMap.pagemap_wf_new|
        apply VadTable.vad_wf_new|constructor|by intros q [? ?]].
    - destruct IH as [Hwf Hrw]. destruct (Hstep o g Hwf Hrw Hok) as (? & ? & _). done. }
  destruct Hinv as [Hwf Hrw]. split_and!; [done..|]. intros o w Hok. by apply (Hstep o g Hwf Hrw Hok).
Qed.
End Steps.

(** ** [MEMORY_BASIC_INFORMATION] on the wire *)

(** A guest reading a little-endian field of the packed structure. *)
Definition field_at (off n : nat) (bs : list u8) : Z := le_val (take n (drop off bs)).

Definition fits (n : nat) (v : Z) : Prop := 0 ≤ v < 256 ^ Z.of_nat n.

(** The packed MEMORY_BASIC_INFORMATION is 48 bytes with every field at its
    documented x64 offset: reading each offset back gives the field. *)
Theorem mbi_to_bytes_fields m :
  fits 8 (mbi_base_address m) → fits 8 (mbi_allocation_base m) → fits 4 (mbi_allocation_protect m) →
  fits 8 (mbi_region_size m) → fits 4 (mbi_state m) → fits 4 (mbi_protect m) → fits 4 (mbi_type m) →
  let b := to_bytes m in
  length b = 48%nat ∧ Forall is_byte b ∧
  field_at 0 8 b = mbi_base_address m ∧ field_at 8 8 b = mbi_allocation_base m ∧
  field_at 16 4 b = mbi_allocation_protect m ∧ field_at 24 8 b = mbi_region_size m ∧
  field_at 32 4 b = mbi_state m ∧ field_at 36 4 b = mbi_protect m ∧ field_at 40 4 b = mbi_type m.
Proof.
  intros H1 H2 H3 H4 H5 H6 H7 b. unfold fits in *.
  assert (Hle : ∀ n v, 0 ≤ v < 256 ^ Z.of_nat n → le_val (le_bytes n v) = v).
  { intros n v Hv. rewrite le_val_le_bytes. by apply Z.mod_small. }
  assert (Hb : b = le_bytes 8 (mbi_base_address m) ++ le_bytes 8 (mbi_allocation_base m) ++
    le_bytes 4 (mbi_allocation_protect m) ++ replicate 4 0 ++ le_bytes 8 (mbi_region_size m) ++
    le_bytes 4 (mbi_state m) ++ le_bytes 4 (mbi_protect m) ++ le_bytes 4 (mbi_type m) ++ replicate 4 0) by done.
  clearbody b. subst b. split_and!.
  - done.
  - rewrite !Forall_app. split_and!; apply le_bytes_byte || by apply Forall_replicate.
  - exact (Hle 8%nat _ H1).
  - exact (Hle 8%nat _ H2).
  - exact (Hle 4%nat _ H3).
  - exact (Hle 8%nat _ H4).
  - exact (Hle 4%nat _ H5).
  - exact (Hle 4%nat _ H6).
  - exact (Hle 4%nat _ H7).
Qed.
