(* ===== verification/mem_demo.v ===== *)
(** * Concrete memories

    One data allocation and one code allocation built by the model itself on a
    concrete host, on which the theorems about guest memory are instantiated; one whose
    protections the host mirrors;
    and the two runs on which the optional host protection and the software
    permission plane disagree. *)

From S2P Require Import Prelude protect pagemap vad arena region mem mem_access mem_ops mem_safe.

#[local] Existing Instance demo_os.
#[local] Existing Instance demo_laws.

(** A read-write 64-KiB allocation at 0x1_0000_0000. *)
Definition demo_mem : GuestMemory :=
  (virtual_alloc 0 0x2000 0x3000 PAGE_READWRITE (gm_new Host_empty)).1.

(** An executable 64-KiB allocation at 0x1_0000_0000. *)
Definition demo_code : GuestMemory :=
  (virtual_alloc 0 0x1000 0x3000 PAGE_EXECUTE_READ (gm_new Host_empty)).1.

Lemma gm_new_ok h : gm_wf (gm_new h) ∧ host_rw (gm_new h).
Proof.
  split; [|by intros ?]. split; simpl; [apply arena_wf_new|apply PageMap.pagemap_wf_new|
    apply VadTable.vad_wf_new|constructor|by intros q [? ?]].
Qed.

Lemma demo_mem_ok : gm_wf demo_mem ∧ host_rw demo_mem.
Proof.
  destruct (gm_new_ok Host_empty) as [Hw Hr].
  by destruct (safe_alloc 0 0x2000 0x3000 PAGE_READWRITE _ Hw Hr) as (? & ? & _).
Qed.

Lemma demo_code_ok : gm_wf demo_code ∧ host_rw demo_code.
Proof.
  destruct (gm_new_ok Host_empty) as [Hw Hr].
  by destruct (safe_alloc 0 0x1000 0x3000 PAGE_EXECUTE_READ _ Hw Hr) as (? & ? & _).
Qed.

Lemma demo_mem_writable lo n : host_allows (backend demo_mem) PROT_WRITE lo n.
Proof. apply host_rw_allows; [apply demo_mem_ok|by right]. Qed.
Lemma demo_mem_readable lo n : host_allows (backend demo_mem) PROT_READ lo n.
Proof. apply host_rw_allows; [apply demo_mem_ok|by left]. Qed.

(** The first page made read-only with the mirroring on: the host follows, so it
    does not let the emulator write everywhere, and grants all that the guest may do. *)
Definition protected_mem : GuestMemory := (virtual_protect None 0x100000000 0x1000 PAGE_READONLY demo_mem).1.

Lemma protected_mem_wf : gm_wf protected_mem.
Proof.
  pose proof (virtual_protect_holds None demo_mem 0x100000000 0x1000 PAGE_READONLY (proj1 demo_mem_ok)) as H.
  assert (Hr : (virtual_protect None 0x100000000 0x1000 PAGE_READONLY demo_mem).2 = Ok PAGE_READWRITE) by (clear; by vm_compute).
  unfold protected_mem. destruct (virtual_protect None _ _ _ demo_mem) as [g' r]. simpl in Hr. subst r.
  destruct H as (pb & pe & _ & _ & _ & _ & _ & _ & _ & _ & _ & _ & _ & Hw & _); [by vm_compute..|done].
Qed.
Lemma protected_mem_runs : map_to_list (runs (pages protected_mem)) =
  [(0x100001, mkPageRun 0x100001 0x100010 Committed PAGE_READWRITE); (0x100000, mkPageRun 0x100000 0x100001 Committed PAGE_READONLY)].
Proof. by vm_compute. Qed.
Lemma protected_mem_arenas : arenas (backend protected_mem) = [mkArena 0x100000000 0x10000 0x11000 3].
Proof. by vm_compute. Qed.
(** The protection of the host page [d] pages further. *)
Definition prot_at (g : GuestMemory) (d q : Z) : option Z := h_prot (os_state (backend g)) !! (q + d).
Lemma grants_by_runs g d : gm_wf g →
  (∀ x p, tr (arenas (backend g)) x = Some p → p / 4096 = x / 4096 + d) →
  (∀ i r, (i, r) ∈ map_to_list (runs (pages g)) → pr_state r = Committed →
     ∀ q k, pr_start_page r ≤ q < pr_end_page r → allows (pr_protect r) k = true →
     ∃ prot, prot_at g d q = Some prot ∧ Z.land prot (host_bit k) ≠ 0) →
  host_grants g.
Proof.
  intros Hwf Hd Hruns x p pr k Hx Hv Hk. apply (PageMap.view_runs_Some _ _ _ _ (PageMap.wf_runs _ (gw_pages _ Hwf))) in Hv.
  destruct Hv as (r & Hr & Hpage & Hst & <-). apply elem_of_map_to_list in Hr.
  destruct (Hruns _ r Hr Hst _ k Hpage Hk) as (prot & Hp & Hbit). unfold prot_at in Hp. unfold unit_allows. rewrite (Hd x p Hx), Hp. by apply bool_decide_eq_true_2.
Qed.
Definition to_host : Z := 17 - 0x100000.
Lemma protected_mem_host : prot_at protected_mem to_host 0x100000 = Some 1 ∧ Forall (λ q, prot_at protected_mem to_host q = Some 3) (seqZ 0x100001 15).
Proof. split; [by vm_compute|apply (bool_decide_unpack _); by vm_compute]. Qed.
Lemma grants_not_rw g : gm_wf g →
  map_to_list (runs (pages g)) =
    [(0x100001, mkPageRun 0x100001 0x100010 Committed PAGE_READWRITE); (0x100000, mkPageRun 0x100000 0x100001 Committed PAGE_READONLY)] →
  arenas (backend g) = [mkArena 0x100000000 0x10000 0x11000 3] →
  prot_at g to_host 0x100000 = Some 1 → Forall (λ q, prot_at g to_host q = Some 3) (seqZ 0x100001 15) →
  host_grants g ∧ ¬ host_rw g.
Proof.
  intros Hwf Hruns Harenas Hfirst Hrest. split.
  - apply (grants_by_runs g to_host Hwf).
    + intros x p Hx. rewrite Harenas in Hx. unfold tr in Hx. cbn [find] in Hx. destruct (contains_va _ _); [|done].
      injection Hx as <-. cbn [host guest_base]. replace (0x11000 + (x - 0x100000000)) with (x + to_host * 4096) by (unfold to_host; lia).
      by rewrite Z.div_add.
    + intros i r Hr _ q k Hq Hk. rewrite Hruns in Hr. rewrite Forall_forall in Hrest. rewrite !elem_of_cons in Hr.
      destruct Hr as [[= _ ->]|[[= _ ->]|[]%elem_of_nil]]; cbn [pr_start_page pr_end_page pr_protect] in Hq, Hk.
      * assert (Hin : q ∈ seqZ 0x100001 15) by (clear -Hq; apply elem_of_seqZ; lia).
        exists 3. split; [exact (Hrest q Hin)|by destruct k].
      * assert (q = 0x100000) as -> by (clear -Hq; lia). exists 1. split; [exact Hfirst|by destruct k].
  - intros Hrw. unfold host_rw in Hrw. rewrite Harenas in Hrw. specialize (Hrw 0x100000000 0x11000 eq_refl).
    unfold prot_at in Hfirst. change (0x11000 / 4096) with (0x100000 + to_host) in Hrw. rewrite Hfirst in Hrw. discriminate Hrw.
Qed.
Theorem mirrored_host_grants : host_grants protected_mem ∧ ¬ host_rw protected_mem.
Proof.
  exact (grants_not_rw protected_mem protected_mem_wf protected_mem_runs protected_mem_arenas
    (proj1 protected_mem_host) (proj2 protected_mem_host)).
Qed.

(** ** Instances *)

(** Four bytes across a page boundary. *)
Lemma read_after_write_witness :
  (read 0x100000ffe ((write 0x100000ffe [1; 2; 3; 4] demo_mem).1, [0; 0; 0; 0])).1.2 = [1; 2; 3; 4].
Proof.
  refine (proj1 (read_after_write demo_mem 0x100000ffe [1; 2; 3; 4] [0; 0; 0; 0] _
    (proj1 demo_mem_ok) _ _ _ (demo_mem_writable _ _) (demo_mem_readable _ _) _ _));
    [by vm_compute..].
Defined.

Lemma gm_write_spec_witness :
  ∃ g', write 0x100001000 [7] demo_mem = (g', Ok tt) ∧ gbyte g' 0x100001000 = Some 7.
Proof.
  destruct (gm_write_spec demo_mem 0x100001000 [7] (proj1 demo_mem_ok)) as [_ H]; [by vm_compute..|].
  destruct H as (g' & Hw & _ & _ & _ & _ & _ & _ & _ & Hb); [intros _; apply demo_mem_writable|].
  exists g'. split; [rewrite Hw; by vm_compute|rewrite Hb; by vm_compute].
Defined.

(** At the end of the executable pages only the bytes before the end are fetched. *)
Lemma gm_fetch_spec_witness :
  (gm_fetch_into 0x10000fffc (demo_code, replicate 16 9)).2 = Ok 4 ∧
  spc demo_code 0x10000fffc 5 Execute ≠ Ok tt.
Proof.
  destruct (gm_fetch_spec demo_code 0x10000fffc (replicate 16 9) (proj1 demo_code_ok))
    as (g' & out' & r & Heq & _ & _ & Hpost);
    [by vm_compute..|intros; apply host_rw_allows; [apply demo_code_ok|by left]|].
  assert (Hr : (gm_fetch_into 0x10000fffc (demo_code, replicate 16 9)).2 = Ok 4) by (clear; by vm_compute).
  rewrite Heq in *. simpl in Hr. subst r. split; [done|]. apply Hpost. by vm_compute.
Defined.

Lemma host_span_sound_witness :
  ∃ p, host_span 0x100000ff0 32 true demo_mem = ((host_span 0x100000ff0 32 true demo_mem).1, Some p) ∧
    host_alias demo_mem p 0x100000ff0 32.
Proof.
  destruct (host_span 0x100000ff0 32 true demo_mem) as [g' [p|]] eqn:E; [|by vm_compute in E].
  exists p. split; [reflexivity|].
  apply (host_span_sound demo_mem 0x100000ff0 32 true g' p (proj1 demo_mem_ok));
    [exact (in_u64_lit eq_refl)..|exact E].
Defined.

(** The data allocation becomes the JIT's only pin. *)
Lemma jit_region_pins_sound_witness :
  Forall (pin_ok demo_mem) (jit_region_pins demo_mem).2 ∧ length (jit_region_pins demo_mem).2 = 1%nat.
Proof.
  pose proof (jit_region_pins_sound demo_mem (proj1 demo_mem_ok)) as H.
  split; [|by vm_compute]. destruct (jit_region_pins demo_mem) as [stack data].
  destruct H as (_ & H & _). by apply Forall_app in H as [_ H].
Defined.

Lemma page_tlb_entry_sound_witness :
  ∃ e, page_tlb_entry demo_mem 0x100001 = Some e ∧ host_alias demo_mem (tlb_host e) 0x100001000 4096 ∧
    tlb_allow_w e = true.
Proof.
  destruct (page_tlb_entry demo_mem 0x100001) as [e|] eqn:E; [|by vm_compute in E].
  destruct (page_tlb_entry_sound demo_mem 0x100001 e (proj1 demo_mem_ok)) as (pr & Hv & Ha & _ & Hw & _);
    [lia|exact E|]. exists e. split; [reflexivity|]. split; [exact Ha|]. rewrite Hw.
  assert (gview demo_mem 0x100001 = Some (Committed, PAGE_READWRITE)) as Hv' by (clear; by vm_compute).
  rewrite Hv' in Hv. injection Hv as <-. reflexivity.
Defined.

Lemma virtual_alloc_spec_witness :
  ∃ g', virtual_alloc 0x100001004 8 0x1000 PAGE_READONLY demo_mem = (g', Ok 0x100001000) ∧
    ∃ pe, committed demo_mem g' 0x100001000 pe PAGE_READONLY.
Proof.
  pose proof (virtual_alloc_spec demo_mem 0x100001004 8 0x1000 PAGE_READONLY (proj1 demo_mem_ok)) as H.
  assert (Hr : (virtual_alloc 0x100001004 8 0x1000 PAGE_READONLY demo_mem).2 = Ok 0x100001000)
    by (by vm_compute).
  destruct (virtual_alloc 0x100001004 8 0x1000 PAGE_READONLY demo_mem) as [g' r]. simpl in Hr. subst r.
  exists g'. split; [done|]. destruct H as [_ H]; [by vm_compute..|].
  destruct H as (pe & _ & _ & H). by exists pe.
Defined.


Lemma virtual_protect_spec_witness :
  ∃ g', virtual_protect None 0x100001000 0x1000 PAGE_READONLY demo_mem = (g', Ok PAGE_READWRITE) ∧ gm_wf g'.
Proof.
  pose proof (virtual_protect_spec None demo_mem 0x100001000 0x1000 PAGE_READONLY (proj1 demo_mem_ok)) as H.
  assert (Hr : (virtual_protect None 0x100001000 0x1000 PAGE_READONLY demo_mem).2 = Ok PAGE_READWRITE)
    by (by vm_compute).
  destruct (virtual_protect None 0x100001000 0x1000 PAGE_READONLY demo_mem) as [g' r]. simpl in Hr. subst r.
  exists g'. split; [done|].
  destruct H as (pb & pe & _ & _ & _ & _ & _ & _ & _ & _ & _ & _ & _ & Hw & _); [by vm_compute..|done].
Defined.

Lemma virtual_query_spec_witness :
  mbi_region_size (virtual_query demo_mem 0x100001234) = 0x10000.
Proof.
  destruct (virtual_query_spec demo_mem 0x100001234 Committed PAGE_READWRITE
    (mkVadNode 0x100000000 0x10000 PAGE_READWRITE Private true) (proj1 demo_mem_ok))
    as (first & stop & Hb & Hsz & _); [by vm_compute..|]. by vm_compute.
Defined.

Lemma virtual_query_free_spec_witness :
  mbi_state (virtual_query demo_mem 0x500000) = MEM_FREE.
Proof.
  destruct (virtual_query_free_spec demo_mem 0x500000 (proj1 demo_mem_ok)) as (stop & _ & -> & _);
    [by vm_compute..|done].
Defined.

Lemma host_prot_for_frame_sound_witness :
  frame_need demo_mem 0x100000000 0x100001000 (host_prot_for_frame demo_mem 0x100000000 0x1000).
Proof. by apply (host_prot_for_frame_sound demo_mem 0x100000000 0x1000 (proj1 demo_mem_ok)). Defined.

Lemma map_with_type_spec_witness :
  ∃ g', map_with_type None 0x200000 0x1000 6 Image demo_mem = (g', Ok tt) ∧ gbyte g' 0x200000 = Some 0.
Proof.
  pose proof (map_with_type_spec None demo_mem 0x200000 0x1000 6 Image (proj1 demo_mem_ok)) as H.
  assert (Hr : (map_with_type None 0x200000 0x1000 6 Image demo_mem).2 = Ok tt) by (by vm_compute).
  destruct (map_with_type None 0x200000 0x1000 6 Image demo_mem) as [g' r]. simpl in Hr. subst r.
  exists g'. split; [done|].
  destruct H as (_ & _ & _ & Hz); [by vm_compute..|]. apply Hz; [lia|by vm_compute].
Defined.

(** Allocate, make read-only, commit again, write. *)
Definition recommit_ops : list Op :=
  [OAlloc 0 0x1000 0x3000 PAGE_READWRITE;
   OProtect 0x100000000 0x1000 PAGE_READONLY;
   OAlloc 0x100000000 0x1000 0x1000 PAGE_READWRITE].

Definition run_ops (wie : option string) (os : list Op) (g : GuestMemory) : GuestMemory :=
  foldl (λ g o, (run_op wie o g).1) g os.

Lemma reachable_ops wie os g : reachable wie g → Forall op_ok os → reachable wie (run_ops wie os g).
Proof.
  intros Hg Hos. revert g Hg. induction Hos as [|o os Ho _ IH]; intros g Hg; [done|].
  apply IH. by constructor.
Qed.

Lemma reachable_safe_witness :
  (run_op (Some "0") (OWrite 0x100000000 [1]) (run_ops (Some "0") recommit_ops (gm_new Host_empty))).2
    ≠ Abort HostFault.
Proof.
  apply (reachable_safe (Some "0")); [done| |by vm_compute].
  apply reachable_ops; [apply reach_new|]. repeat constructor; by vm_compute.
Defined.

Lemma mbi_to_bytes_fields_witness :
  field_at 24 8 (to_bytes (virtual_query demo_mem 0x100001234)) = 0x10000.
Proof.
  transitivity (mbi_region_size (virtual_query demo_mem 0x100001234)); [|by vm_compute].
  apply (mbi_to_bytes_fields (virtual_query demo_mem 0x100001234)); by vm_compute.
Defined.

(** ** With the host protection on (the default)

    [va_commit_only] and [va_decommit] do not bring the host protection up to
    date, so a page the guest may write can still be read-only on the host. *)

(** With the host protection on, a commit does not bring the host page up to date:
    after allocate, make read-only and commit read-write again, the page is
    committed read-write for the guest, yet a guest write ends in a host fault;
    and decommitting the read-only page faults while zeroing it. *)
Theorem stale_host_protection_faults :
  let alloc_protect := run_ops None (take 2 recommit_ops) (gm_new Host_empty) in
  let recommitted := run_ops None recommit_ops (gm_new Host_empty) in
  gview recommitted 0x100000 = Some (Committed, PAGE_READWRITE) ∧
  (run_op None (OWrite 0x100000000 [1]) recommitted).2 = Abort HostFault ∧
  (run_op None (OFree 0x100000000 0x1000 MEM_DECOMMIT) alloc_protect).2 = Abort HostFault.
Proof. split_and!; by vm_compute. Qed.
