(* ===== verification/engine.v ===== *)
(** * What the WinAPI side needs of the CPU engine (crates/wie-cpu/src/lib.rs)

    The heap and the string helpers reach guest memory only through
    [CpuEngine::mem_read] and [CpuEngine::mem_write].  [CpuMem] is that part of
    the trait, [CpuMemLaws] the promise its clients rely on; [GuestMemory]
    implements both. *)

From S2P Require Import Prelude protect pagemap vad arena region mem mem_access mem_ops mem_safe.

Class CpuMem (E : Type) := {
  mem_read : u64 → nat → M E (list u8);
  mem_write : u64 → list u8 → M E unit;
}.

(** [mem_rw] is a byte the guest may read and write; [mem_get] its content. *)
Class CpuMemLaws (E : Type) `{CpuMem E} := {
  mem_inv : E → Prop;
  mem_get : E → Z → option u8;
  mem_rw : E → Z → Prop;
  mem_read_ok e a n :
    mem_inv e → 0 ≤ a → a + Z.of_nat n < u64_lim → (∀ x, a ≤ x < a + Z.of_nat n → mem_rw e x) →
    ∃ e' bs, mem_read a n e = (e', Ok bs) ∧ mem_inv e' ∧ mem_get e' = mem_get e ∧
      (∀ x, mem_rw e' x ↔ mem_rw e x) ∧
      length bs = n ∧ ∀ i, (i < n)%nat → bs !! i = mem_get e (a + Z.of_nat i);
  mem_write_ok e a bs :
    mem_inv e → 0 ≤ a → a + Z.of_nat (length bs) < u64_lim →
    (∀ x, a ≤ x < a + Z.of_nat (length bs) → mem_rw e x) →
    ∃ e', mem_write a bs e = (e', Ok tt) ∧ mem_inv e' ∧ (∀ x, mem_rw e' x ↔ mem_rw e x) ∧
      ∀ x, mem_get e' x =
        if decide (a ≤ x < a + Z.of_nat (length bs)) then bs !! Z.to_nat (x - a) else mem_get e x;
}.

(** ** Words *)

Section Words.
Context {E : Type} `{CpuMemLaws E}.
Implicit Types (e : E).

(** The 64-bit little-endian word at [a]. *)
Definition get64 e (a : Z) : u64 :=
  le_val ((λ i, default 0 (mem_get e (a + Z.of_nat i))) <$> seq 0 8).

Definition word_rw e (a : Z) : Prop := 0 ≤ a ∧ a + 8 < u64_lim ∧ ∀ x, a ≤ x < a + 8 → mem_rw e x.

Lemma mem_read_word e a :
  mem_inv e → word_rw e a →
  ∃ e' bs, mem_read a 8 e = (e', Ok bs) ∧ le_val bs = get64 e a ∧ mem_inv e' ∧
    mem_get e' = mem_get e ∧ ∀ x, mem_rw e' x ↔ mem_rw e x.
Proof.
  intros Hi (Ha & Hlim & Hrw).
  destruct (mem_read_ok e a 8 Hi Ha ltac:(lia) Hrw) as (e' & bs & -> & Hi' & Hg & Hrw' & Hl & Hbs).
  exists e', bs. split_and!; try done. unfold get64. f_equal. apply list_eq. intros i.
  rewrite list_lookup_fmap. destruct (decide (i < 8)%nat) as [Hlt|Hge].
  - rewrite lookup_seq_lt by done. simpl. rewrite <- Hbs by done.
    destruct (lookup_lt_is_Some_2 bs i) as [b ->]; [lia|done].
  - rewrite lookup_seq_ge by lia. apply lookup_ge_None. lia.
Qed.

Lemma get64_same e e' a : (∀ x, a ≤ x < a + 8 → mem_get e' x = mem_get e x) → get64 e' a = get64 e a.
Proof.
  intros Hs. unfold get64. f_equal. apply list_fmap_ext. intros i x [-> ?]%lookup_seq.
  by rewrite Hs by lia.
Qed.

Lemma mem_write_word e a v :
  mem_inv e → word_rw e a → in_u64 v →
  ∃ e', mem_write a (le_bytes 8 v) e = (e', Ok tt) ∧ mem_inv e' ∧ (∀ x, mem_rw e' x ↔ mem_rw e x) ∧
    get64 e' a = v ∧ (∀ x, ¬ (a ≤ x < a + 8) → mem_get e' x = mem_get e x) ∧
    ∀ b, b + 8 ≤ a ∨ a + 8 ≤ b → get64 e' b = get64 e b.
Proof.
  intros Hi (Ha & Hlim & Hrw) Hv.
  destruct (mem_write_ok e a (le_bytes 8 v) Hi Ha) as (e' & -> & Hi' & Hrw' & Hg);
    rewrite ?length_le_bytes; [done..|]. rewrite length_le_bytes in Hg.
  assert (Hout : ∀ x, ¬ (a ≤ x < a + 8) → mem_get e' x = mem_get e x).
  { intros x Hx. rewrite Hg, decide_False by lia. done. }
  exists e'. split_and!; try done.
  - unfold get64. transitivity (le_val (le_bytes 8 v)).
    + f_equal. apply list_eq. intros i. rewrite list_lookup_fmap. destruct (decide (i < 8)%nat) as [Hlt|Hge].
      * rewrite lookup_seq_lt by done. simpl fmap. rewrite Hg, decide_True by lia.
        replace (Z.to_nat (a + Z.of_nat i - a)) with i by lia.
        destruct (lookup_lt_is_Some_2 (le_bytes 8 v) i) as [b Hb]; [by rewrite length_le_bytes|].
        cbn [Nat.add]. by rewrite Hb.
      * rewrite lookup_seq_ge by lia. symmetry. apply lookup_ge_None. rewrite length_le_bytes. lia.
    + rewrite le_val_le_bytes. apply Z.mod_small. unfold in_u64 in Hv. lia.
  - intros b Hb. apply get64_same. intros x Hx. apply Hout. lia.
Qed.
End Words.

(** ** [GuestMemory] keeps the promise *)

#[global] Instance GuestMemory_CpuMem : CpuMem GuestMemory := {|
  mem_read a n := λ g, let '((g', bs), r) := read a (g, replicate n 0) in
    (g', match r with Ok _ => Ok bs | Err e => Err e | Abort w => Abort w end);
  mem_write := write;
|}.

(** The page of [x] is committed, readable and writable. *)
Definition page_rw (g : GuestMemory) (x : Z) : Prop :=
  ∃ pr, gview g (x / 4096) = Some (Committed, pr) ∧ allows_read pr = true ∧ allows_write pr = true.

Lemma check_pages_all f va kind ps :
  (∀ p, p ∈ ps → ∃ pr, f p = Some (Committed, pr) ∧ allows pr kind = true) →
  PageMap.check_pages f va kind ps = Ok tt.
Proof.
  induction ps as [|p ps IH]; intros Hp; simpl; [done|].
  destruct (Hp p) as (pr & -> & Hk); [by left|]. unfold PageMap.page_verdict.
  rewrite decide_False by naive_solver. rewrite Hk. apply IH. intros q Hq. apply Hp. by right.
Qed.

Lemma page_rw_spc g a n kind :
  0 ≤ a → a + n < u64_lim → 0 ≤ n → kind = Read ∨ kind = Write →
  (∀ x, a ≤ x < a + n → page_rw g x) → spc g a n kind = Ok tt.
Proof.
  intros Ha Hlim Hn Hk Hrw. unfold spc. destruct (decide (n = 0)) as [->|Hne]; [done|].
  rewrite decide_True by done. apply check_pages_all. intros p Hp%elem_of_seqZ.
  assert (a / 4096 ≤ (a + n - 1) / 4096) by (apply Z.div_le_mono; lia).
  destruct (Hrw (Z.max a (p * 4096))) as (pr & Hv & Hr & Hw).
  { pose proof (div_4096_bounds (a + n - 1)). lia. }
  exists pr. replace (Z.max a (p * 4096) / 4096) with p in Hv.
  - split; [done|]. by destruct Hk as [-> | ->].
  - destruct (Z.max_spec a (p * 4096)) as [[? ->]|[? ->]]; [by rewrite Z.div_mul|].
    pose proof (div_4096_bounds a). assert (p * 4096 / 4096 ≤ a / 4096) by (apply Z.div_le_mono; lia).
    rewrite Z.div_mul in * by done. lia.
Qed.

Lemma page_rw_same g g' x : gview g' = gview g → page_rw g' x ↔ page_rw g x.
Proof. unfold page_rw. by intros ->. Qed.

#[global] Program Instance GuestMemory_CpuMemLaws : CpuMemLaws GuestMemory := {|
  mem_inv g := gm_wf g ∧ host_grants g;
  mem_get := gbyte;
  mem_rw := page_rw;
|}.
Next Obligation.
  intros g a n [Hwf Hrw] Ha Hlim Hp. simpl. assert (Hn : in_u64 a ∧ in_u64 (Z.of_nat n)) by (split; split; lia).
  assert (Hl : Z.of_nat (length (replicate n 0)) = Z.of_nat n) by (by rewrite length_replicate).
  destruct (gm_read_spec g a (replicate n 0) Hwf) as (g' & bs & -> & Hwf' & Hs & Hlen & Hres);
    [apply Hn|rewrite Hl; apply Hn|rewrite Hl; by apply (host_grants_spc g a _ Read Hwf Hrw); apply Hn|].
  rewrite Hl, (page_rw_spc g a (Z.of_nat n) Read) in * by (auto with lia).
  exists g', bs. assert (Hv : gview g' = gview g) by (unfold gview, PageMap.view; by rewrite (sc_runs _ _ Hs)).
  rewrite length_replicate in Hlen. split_and!; try done.
  - by eapply host_grants_same.
  - unfold gbyte. by rewrite (sc_backend _ _ Hs).
  - intros x. by apply page_rw_same.
  - intros i Hi. apply Hres. by rewrite length_replicate.
Qed.
Next Obligation.
  intros g a bs [Hwf Hrw] Ha Hlim Hp. simpl.
  assert (Hn : in_u64 a ∧ in_u64 (Z.of_nat (length bs))) by (split; split; lia).
  destruct (gm_write_holds g a bs Hwf) as (g' & -> & Hwf' & Hv & _ & _ & _ & Har & Hpr & Hb);
    [apply Hn|apply Hn|by apply (host_grants_spc g a _ Write Hwf Hrw); apply Hn|].
  rewrite (page_rw_spc g a (Z.of_nat (length bs)) Write) in * by (auto with lia).
  exists g'. split_and!; try done.
  - by eapply host_grants_kept.
  - intros x. by apply page_rw_same.
  - intros x. rewrite Hb. cbn [is_ok andb]. case_bool_decide; by case_decide.
Qed.

(** * What an engine's memory holds

    Bytes at an address, as reads and writes through [CpuMem] see them. *)

From S2P Require Import Prelude.

Section Holds.
Context {E : Type} `{CpuMemLaws E}.

(** Memory holds [bs] at [a], all of it accessible. *)
Definition holds (e : E) (a : Z) (bs : list u8) : Prop := ∀ i b, bs !! i = Some b → mem_get e (a + Z.of_nat i) = Some b.
Definition accessible (e : E) (a n : Z) : Prop := 0 ≤ a ∧ a + n < u64_lim ∧ ∀ x, a ≤ x < a + n → mem_rw e x.
(** Nothing the guest sees has changed. *)
Record unchanged (e e' : E) : Prop := {
  un_inv : mem_inv e';
  un_get : mem_get e' = mem_get e;
  un_rw : ∀ x, mem_rw e' x ↔ mem_rw e x;
}.

Lemma unchanged_refl e : mem_inv e → unchanged e e.
Proof. by split. Qed.
Lemma unchanged_trans e1 e2 e3 : unchanged e1 e2 → unchanged e2 e3 → unchanged e1 e3.
Proof. intros [? ? Hr] [? ? Hr']. split; [done|congruence|]. intros x. by rewrite Hr', Hr. Qed.

Lemma holds_unchanged e e' a bs : unchanged e e' → holds e a bs → holds e' a bs.
Proof. intros [_ Hg _] Hh i b Hb. rewrite Hg. by apply Hh. Qed.
Lemma accessible_unchanged e e' a n : unchanged e e' → accessible e a n → accessible e' a n.
Proof. intros [_ _ Hr] (? & ? & Hx). split_and!; [done|done|]. intros x Hxx. apply Hr. by apply Hx. Qed.
Lemma accessible_sub e a n b m : accessible e a n → a ≤ b → 0 ≤ m → b + m ≤ a + n → accessible e b m.
Proof. intros (? & ? & Hx) ???. split_and!; [lia|lia|]. intros x Hxx. apply Hx. lia. Qed.

Lemma holds_app e a x y : holds e a (x ++ y) ↔ holds e a x ∧ holds e (a + Z.of_nat (length x)) y.
Proof.
  unfold holds. split.
  - intros Hh. split; intros i b Hb.
    + apply Hh. by apply lookup_app_l_Some.
    + replace (a + Z.of_nat (length x) + Z.of_nat i) with (a + Z.of_nat (length x + i)) by lia. apply Hh.
      rewrite lookup_app_r by lia. rewrite <- Hb. f_equal. lia.
  - intros [H1 H2] i b [Hb|[Hi Hb]]%lookup_app_Some; [by apply H1|].
    replace (a + Z.of_nat i) with (a + Z.of_nat (length x) + Z.of_nat (i - length x)) by lia. by apply H2.
Qed.

(** Reading what is there. *)
Lemma mem_read_holds e a bs :
  mem_inv e → accessible e a (Z.of_nat (length bs)) → holds e a bs →
  ∃ e', mem_read a (length bs) e = (e', Ok bs) ∧ unchanged e e'.
Proof.
  intros Hi (Ha & Hlim & Hrw) Hh. destruct (mem_read_ok e a (length bs) Hi Ha Hlim Hrw) as (e' & bs' & -> & Hi' & Hg & Hrw' & Hl & Hbs).
  exists e'. split; [|by split]. do 2 f_equal. apply list_eq. intros i. destruct (decide (i < length bs)%nat) as [Hlt|Hge].
  - rewrite Hbs by done. destruct (lookup_lt_is_Some_2 bs i Hlt) as [b Hb]. rewrite Hb. by apply Hh.
  - rewrite !(lookup_ge_None_2 _ i); [done|lia|lia].
Qed.

(** Writing it there. *)
Lemma mem_write_holds e a bs :
  mem_inv e → accessible e a (Z.of_nat (length bs)) →
  ∃ e', mem_write a bs e = (e', Ok tt) ∧ mem_inv e' ∧ (∀ x, mem_rw e' x ↔ mem_rw e x) ∧ holds e' a bs ∧
    ∀ x, ¬ (a ≤ x < a + Z.of_nat (length bs)) → mem_get e' x = mem_get e x.
Proof.
  intros Hi (Ha & Hlim & Hrw). destruct (mem_write_ok e a bs Hi Ha Hlim Hrw) as (e' & -> & Hi' & Hrw' & Hg).
  exists e'. split_and!; [done|done|done| |].
  - intros i b Hb. rewrite Hg. apply lookup_lt_Some in Hb as Hlt. rewrite decide_True by lia. rewrite <- Hb. f_equal. lia.
  - intros x Hx. by rewrite Hg, decide_False.
Qed.

(** Memory holds a whole buffer, all of it accessible. *)
Record mirrors (e : E) (a : Z) (image : list u8) : Prop := {
  mi_inv : mem_inv e;
  mi_acc : accessible e a (Z.of_nat (length image));
  mi_holds : holds e a image;
}.

(** [start..start+len] replaced. *)
Lemma splice_lookup (image src : list u8) start i :
  (start + length src ≤ length image)%nat →
  (take start image ++ src ++ drop (start + length src) image) !! i =
  if decide (start ≤ i < start + length src)%nat then src !! (i - start)%nat else image !! i.
Proof.
  intros Hl. assert (Ht : length (take start image) = start) by (rewrite length_take; lia).
  destruct (decide (i < start)%nat).
  - rewrite lookup_app_l, lookup_take_lt by lia. by rewrite decide_False by lia.
  - rewrite lookup_app_r, Ht by lia. case_decide.
    + by rewrite lookup_app_l by lia.
    + rewrite lookup_app_r, lookup_drop by lia. f_equal. lia.
Qed.
Lemma length_spliced (image src : list u8) start :
  (start + length src ≤ length image)%nat → length (take start image ++ src ++ drop (start + length src) image) = length image.
Proof. intros Hl. rewrite !length_app, length_take, length_drop. lia. Qed.

(** A write into the buffer is a write into its copy. *)
Lemma mem_write_mirrors e a image start src :
  mirrors e a image → 0 ≤ start → start + Z.of_nat (length src) ≤ Z.of_nat (length image) →
  ∃ e', mem_write (a + start) src e = (e', Ok tt) ∧
    mirrors e' a (take (Z.to_nat start) image ++ src ++ drop (Z.to_nat start + length src) image) ∧
    (∀ x, mem_rw e' x ↔ mem_rw e x) ∧
    ∀ x, ¬ (a ≤ x < a + Z.of_nat (length image)) → mem_get e' x = mem_get e x.
Proof.
  intros [Hi Hacc Hh] Hs Hl. destruct (mem_write_holds e (a + start) src Hi) as (e' & Ew & Hi' & Hr & Hsrc & Hout).
  { eapply accessible_sub; [exact Hacc|lia..]. }
  exists e'. split; [exact Ew|]. split_and!; [|exact Hr|].
  - split; [done| |].
    + rewrite length_spliced by lia. destruct Hacc as (? & ? & Hx). split_and!; [done|done|]. intros x Hxx. apply Hr. by apply Hx.
    + intros i b. rewrite splice_lookup by lia. case_decide as Hd; intros Hb.
      * replace (a + Z.of_nat i) with (a + start + Z.of_nat (i - Z.to_nat start)) by lia. by apply Hsrc.
      * rewrite Hout by lia. by apply Hh.
  - intros x Hx. apply Hout. lia.
Qed.
End Holds.
