(* ===== verification/guest_heap.v ===== *)
(** * The guest process heap (crates/wie-winapi/src/guest_heap.rs)

    Segregated free lists, a best-fit list of large blocks and a bump cursor;
    with a control block attached, the cursor and the free lists live in guest
    memory (a list threaded through the free blocks) and are shared with the
    in-guest allocator. *)

From S2P Require Import Prelude engine.

Definition HEAP_SIZE_CLASS_COUNT : nat := 24.

Definition SIZE_CLASSES : list u64 :=
  [16; 32; 48; 64; 96; 128; 192; 256; 384; 512; 768; 1024; 1536; 2048; 3072; 4096; 6144; 8192;
   12288; 16384; 24576; 32768; 49152; 65536].

Definition LARGE_THRESHOLD : u64 := 65536.

Record LargeFreeBlock := mkLarge { lf_address : u64; lf_size : u64 }.

(** The free lists are stacks, written with the top first. *)
Record GuestHeap := mkHeap {
  hp_base : u64;
  hp_end : u64;
  bump : u64;
  free_lists : list (list u64);
  large_free : list LargeFreeBlock;
  live : gmap Z u64;
  guest_ctrl_va : option u64;
}.

Definition heap_new (base end_ : u64) : GuestHeap :=
  mkHeap base end_ base (replicate HEAP_SIZE_CLASS_COUNT []) [] ∅ None.

Definition attach_guest_control (ctrl_va : u64) (h : GuestHeap) : GuestHeap :=
  mkHeap (hp_base h) (hp_end h) (bump h) (free_lists h) (large_free h) (live h) (Some ctrl_va).

Definition set_bump (b : u64) (h : GuestHeap) : GuestHeap :=
  mkHeap (hp_base h) (hp_end h) b (free_lists h) (large_free h) (live h) (guest_ctrl_va h).
Definition set_free_lists (l : list (list u64)) (h : GuestHeap) : GuestHeap :=
  mkHeap (hp_base h) (hp_end h) (bump h) l (large_free h) (live h) (guest_ctrl_va h).
Definition set_large (l : list LargeFreeBlock) (h : GuestHeap) : GuestHeap :=
  mkHeap (hp_base h) (hp_end h) (bump h) (free_lists h) l (live h) (guest_ctrl_va h).
Definition set_live (l : gmap Z u64) (h : GuestHeap) : GuestHeap :=
  mkHeap (hp_base h) (hp_end h) (bump h) (free_lists h) (large_free h) l (guest_ctrl_va h).

Definition bump_cursor (h : GuestHeap) : u64 := bump h.
Definition live_count (h : GuestHeap) : nat := size (live h).
Definition size_of (h : GuestHeap) (address : u64) : option u64 := live h !! address.
Definition is_live (h : GuestHeap) (address : u64) : bool := bool_decide (is_Some (live h !! address)).

(** ** Sizes *)

(** The smallest class that fits, by a linear scan. *)
Definition size_class_index (size : u64) : nat :=
  default (HEAP_SIZE_CLASS_COUNT - 1)%nat (position (λ class_size, bool_decide (size ≤ class_size)) SIZE_CLASSES).

(** [x & !15]. *)
Definition mask16 (x : u64) : u64 := Z.land x (u64_lim - 16).

Definition round_up_size (size : u64) : u64 :=
  let size := Z.max size 1 in
  if decide (size ≤ LARGE_THRESHOLD) then default 0 (SIZE_CLASSES !! size_class_index size)
  else mask16 (wrap64 (size + 15)).

(** ** Host side *)

Definition bump_alloc (rounded : u64) (h : GuestHeap) : GuestHeap * u64 :=
  match checked_add (bump h) 8 with
  | None => (h, 0)
  | Some pre =>
      let payload := mask16 (wrap64 (pre + 15)) in
      if decide (payload < hp_base h) then (h, 0)
      else match checked_add payload rounded with
           | None => (h, 0)
           | Some end_ =>
               if bool_decide (hp_end h < end_) || bool_decide (end_ < payload) then (h, 0)
               else (set_live (<[payload := rounded]> (live h)) (set_bump end_ h), payload)
           end
  end.

(** Best fit: the first of the smallest blocks that are large enough. *)
Definition find_large_step (need : u64) (best : option (nat * u64)) (ib : nat * LargeFreeBlock)
    : option (nat * u64) :=
  let '(i, block) := ib in
  if decide (need ≤ lf_size block) then
    match best with
    | None => Some (i, lf_size block)
    | Some (_, best_size) => if decide (lf_size block < best_size) then Some (i, lf_size block) else best
    end
  else best.

Definition find_large_fit (need : u64) (l : list LargeFreeBlock) : option nat :=
  fst <$> foldl (find_large_step need) None (imap pair l).

(** [Vec::swap_remove]: the last element takes the place of element [i]. *)
Definition swap_remove {A} (i : nat) (l : list A) : list A :=
  match last l with
  | Some x => take (length l - 1) (<[i := x]> l)
  | None => l
  end.

(** Taking the large block [i] for [rounded] bytes. *)
Definition take_large (rounded : u64) (i : nat) (block : LargeFreeBlock) (h : GuestHeap) : GuestHeap * u64 :=
  let rest := swap_remove i (large_free h) in
  let rest :=
    if decide (sat_add rounded LARGE_THRESHOLD ≤ lf_size block) then
      let residual_addr := sat_add (lf_address block) rounded in
      let residual_size := sat_sub (lf_size block) rounded in
      if bool_decide (lf_address block < residual_addr) && bool_decide (16 ≤ residual_size)
      then rest ++ [mkLarge residual_addr residual_size]
      else rest
    else rest in
  (set_live (<[lf_address block := rounded]> (live h)) (set_large rest h), lf_address block).

Definition alloc (size : u64) (h : GuestHeap) : GuestHeap * u64 :=
  if decide (size = 0) then (h, 0)
  else
    let rounded := round_up_size size in
    if decide (rounded = 0) then (h, 0)
    else if decide (rounded ≤ LARGE_THRESHOLD) then
      let class := size_class_index rounded in
      match free_lists h !! class with
      | Some (addr :: rest) =>
          (set_live (<[addr := rounded]> (live h)) (set_free_lists (<[class := rest]> (free_lists h)) h), addr)
      | _ => bump_alloc rounded h
      end
    else
      match find_large_fit rounded (large_free h) with
      | Some i =>
          match large_free h !! i with
          | Some block => take_large rounded i block h
          | None => bump_alloc rounded h
          end
      | None => bump_alloc rounded h
      end.

Definition push_free (class : nat) (address : u64) (h : GuestHeap) : GuestHeap :=
  set_free_lists (alter (cons address) class (free_lists h)) h.
Definition push_large (address size : u64) (h : GuestHeap) : GuestHeap :=
  set_large (large_free h ++ [mkLarge address size]) h.

Definition free (address : u64) (h : GuestHeap) : GuestHeap * bool :=
  if decide (address = 0) then (h, false)
  else
    match live h !! address with
    | None => (h, false)
    | Some size =>
        let h := set_live (delete address (live h)) h in
        (if decide (size ≤ LARGE_THRESHOLD) then push_free (size_class_index size) address h
         else push_large address size h, true)
    end.

Definition try_realloc_in_place (h : GuestHeap) (address new_size : u64) : option u64 :=
  old_size ← live h !! address;
  let rounded_new := round_up_size new_size in
  if decide (rounded_new = 0) then None
  else if decide (rounded_new ≤ old_size) then Some address else None.

(** ** With the free lists in guest memory *)

Section Coherent.
Context {E : Type} `{CpuMem E}.

Definition read_u64 (va : u64) (e : E) : E * option u64 :=
  match mem_read va 8 e with
  | (e', Ok b) => (e', Some (le_val b))
  | (e', _) => (e', None)
  end.

Definition write_u64 (va value : u64) (e : E) : E := (mem_write va (le_bytes 8 value) e).1.

Definition head_va (ctrl : u64) (class : nat) : u64 :=
  wrap64 (wrap64 (ctrl + 8) + wrap64 (Z.of_nat class * 8)).

Definition sync_bump_from_guest (e : E) (h : GuestHeap) : E * GuestHeap :=
  match guest_ctrl_va h with
  | None => (e, h)
  | Some ctrl =>
      match read_u64 ctrl e with
      | (e', Some b) => (e', set_bump b h)
      | (e', None) => (e', h)
      end
  end.

Definition sync_bump_to_guest (e : E) (h : GuestHeap) : E :=
  match guest_ctrl_va h with
  | None => e
  | Some ctrl => write_u64 ctrl (bump h) e
  end.

(** [address.wrapping_sub(8)]. *)
Definition header_va (address : u64) : u64 := wrap64 (address - 8).

(** A guest free-list head the host may take. *)
Definition usable_head (h : GuestHeap) (head : option u64) : option u64 :=
  match head with
  | Some a => if bool_decide (a ≠ 0) && bool_decide (hp_base h ≤ a) && bool_decide (a < hp_end h)
              then Some a else None
  | None => None
  end.

Definition alloc_coherent (size : u64) (e : E) (h : GuestHeap) : E * GuestHeap * u64 :=
  match guest_ctrl_va h with
  | None => let '(h', a) := alloc size h in (e, h', a)
  | Some ctrl =>
      if decide (size = 0) then (e, h, 0)
      else
        let rounded := round_up_size size in
        if decide (rounded = 0) then (e, h, 0)
        else if decide (rounded ≤ LARGE_THRESHOLD) then
          let hva := head_va ctrl (size_class_index rounded) in
          let '(e, head) := read_u64 hva e in
          match usable_head h head with
          | Some head =>
              let '(e, next) := read_u64 head e in
              let e := write_u64 hva (default 0 next) e in
              let e := write_u64 (header_va head) rounded e in
              (e, set_live (<[head := rounded]> (live h)) h, head)
          | None =>
              let '(e, h) := sync_bump_from_guest e h in
              let '(h, addr) := bump_alloc rounded h in
              let e := if decide (addr ≠ 0)
                       then sync_bump_to_guest (write_u64 (header_va addr) rounded e) h else e in
              (e, h, addr)
          end
        else
          let '(e, h) := sync_bump_from_guest e h in
          let '(h, addr) := alloc size h in
          let e :=
            if decide (addr ≠ 0) then
              let e := match live h !! addr with
                       | Some sz => write_u64 (header_va addr) sz e
                       | None => e
                       end in
              sync_bump_to_guest e h
            else e in
          (e, h, addr)
  end.

Definition free_known_block (ctrl address size : u64) (e : E) (h : GuestHeap) : E * GuestHeap * bool :=
  if decide (size = 0) then (e, h, false)
  else if decide (LARGE_THRESHOLD < size) then
    (write_u64 (header_va address) 0 e, push_large address size h, true)
  else
    let hva := head_va ctrl (size_class_index size) in
    let '(e, old_head) := read_u64 hva e in
    let e := write_u64 address (default 0 old_head) e in
    let e := write_u64 hva address e in
    (write_u64 (header_va address) 0 e, h, true).

Definition free_coherent (address : u64) (e : E) (h : GuestHeap) : E * GuestHeap * bool :=
  if decide (address = 0) then (e, h, true)
  else
    match guest_ctrl_va h with
    | None => let '(h', ok) := free address h in (e, h', ok)
    | Some ctrl =>
        match live h !! address with
        | Some size => free_known_block ctrl address size e (set_live (delete address (live h)) h)
        | None =>
            if bool_decide (hp_base h ≤ address) && bool_decide (address < hp_end h) then
              match read_u64 (header_va address) e with
              | (e, Some size) => if decide (size ≠ 0) then free_known_block ctrl address size e h else (e, h, false)
              | (e, None) => (e, h, false)
              end
            else (e, h, false)
        end
    end.
End Coherent.

(** * The heap hands out disjoint blocks

    The invariant of the process heap and what [alloc], [free] and
    [try_realloc_in_place] do on every branch. *)


(** ** Sizes *)

Lemma mask16_spec x : in_u64 x → mask16 x = x / 16 * 16.
Proof.
  intros Hx. unfold mask16. change (u64_lim - 16) with (Z.ldiff (Z.ones 64) (Z.ones 4)).
  assert (Z.land x (Z.ldiff (Z.ones 64) (Z.ones 4)) = Z.ldiff (Z.land x (Z.ones 64)) (Z.ones 4)) as ->.
  { apply Z.bits_inj'. intros n Hn. rewrite Z.land_spec, !Z.ldiff_spec, Z.land_spec. by destruct (Z.testbit x n). }
  rewrite Z.land_ones, Z.ldiff_ones_r, Z.shiftl_mul_pow2, Z.shiftr_div_pow2 by lia.
  unfold in_u64 in Hx. rewrite Z.mod_small by lia. done.
Qed.

(** Rounding up to 16 by wrap-around addition: 0 past the top, else exact. *)
Lemma mask16_wrap x :
  0 ≤ x < u64_lim →
  (u64_lim - 15 ≤ x ∧ mask16 (wrap64 (x + 15)) = 0) ∨
  (x < u64_lim - 15 ∧ mask16 (wrap64 (x + 15)) = (x + 15) / 16 * 16 ∧
   x ≤ (x + 15) / 16 * 16 < x + 16 ∧ ((x + 15) / 16 * 16) mod 16 = 0).
Proof.
  intros Hx. unfold wrap64. destruct (decide (u64_lim - 15 ≤ x)) as [Hb|Hs].
  - left. split; [done|]. replace ((x + 15) mod u64_lim) with (x + 15 - u64_lim).
    + rewrite mask16_spec by (unfold in_u64; lia). rewrite Z.div_small by lia. done.
    + apply Z.mod_unique with 1; lia.
  - right. rewrite Z.mod_small, mask16_spec by (unfold in_u64; lia).
    pose proof (Z.div_mod (x + 15) 16). pose proof (Z.mod_pos_bound (x + 15) 16).
    rewrite Z.mod_mul by done. lia.
Qed.

(** Class [i] holds blocks of size [s]. *)
Definition class_size (i : nat) (s : Z) : Prop := SIZE_CLASSES !! i = Some s.

Lemma class_size_spec i s :
  class_size i s → (i < 24)%nat ∧ s mod 16 = 0 ∧ 16 ≤ s ≤ LARGE_THRESHOLD ∧ size_class_index s = i.
Proof.
  unfold class_size. intros Hs.
  do 24 (destruct i as [|i]; [injection Hs as <-; split; [lia|by vm_compute]|]). done.
Qed.

Lemma size_class_index_fits size :
  1 ≤ size ≤ LARGE_THRESHOLD → ∃ s, class_size (size_class_index size) s ∧ size ≤ s.
Proof.
  intros Hs. unfold size_class_index, position.
  destruct (list_find _ SIZE_CLASSES) as [[i s]|] eqn:E.
  - apply list_find_Some in E as (Hi & Hle%bool_decide_unpack & _). by exists s.
  - apply list_find_None in E. rewrite Forall_forall in E.
    destruct (E 65536); [apply list_elem_of_In; simpl; tauto|]. apply bool_decide_pack.
    unfold LARGE_THRESHOLD in Hs. lia.
Qed.

Lemma round_up_spec size :
  0 < size < u64_lim →
  let r := round_up_size size in
  (r = 0 ∧ u64_lim - 16 < size) ∨
  (size ≤ r ∧ r mod 16 = 0 ∧ 16 ≤ r < u64_lim ∧ (r ≤ LARGE_THRESHOLD ↔ size ≤ LARGE_THRESHOLD) ∧
   (r ≤ LARGE_THRESHOLD → class_size (size_class_index r) r)).
Proof.
  intros Hs r. unfold r, round_up_size. rewrite Z.max_l by lia. destruct (decide (size ≤ LARGE_THRESHOLD)) as [Hle|Hgt].
  - right. destruct (size_class_index_fits size) as (s & Hc & Hfit); [lia|].
    pose proof (class_size_spec _ _ Hc) as (_ & Hm & Hb & Hidx). unfold class_size in Hc. rewrite Hc. simpl.
    unfold class_size. rewrite Hidx, Hc. unfold LARGE_THRESHOLD in *. split_and!; lia || done.
  - destruct (mask16_wrap size) as [[? ->]|(Hs' & -> & Hb & Hm)]; [lia|left; lia|].
    right. unfold LARGE_THRESHOLD in *.
    assert (65536 < (size + 15) / 16 * 16) by lia.
    assert ((size + 15) / 16 * 16 ≤ u64_lim - 16).
    { assert ((size + 15) / 16 < 1152921504606846976) by (apply Z.div_lt_upper_bound; lia). lia. }
    split_and!; lia || done.
Qed.

(** Block sizes are fixed points of the rounding. *)
Definition block_size (s : Z) : Prop :=
  s mod 16 = 0 ∧ 16 ≤ s < u64_lim ∧ (s ≤ LARGE_THRESHOLD → class_size (size_class_index s) s).

Lemma round_up_block_size size :
  0 < size < u64_lim → round_up_size size ≠ 0 → size ≤ round_up_size size ∧ block_size (round_up_size size).
Proof.
  intros Hs Hne. destruct (round_up_spec size Hs) as [[Hz _]|(H1 & H2 & H3 & _ & H5)]; [done|].
  split; [done|]. by split.
Qed.

(** ** The blocks of a heap *)

Abbreviation block := (Z * Z)%type (only parsing).

Definition apart (b c : block) : Prop := b.1 + b.2 ≤ c.1 ∨ c.1 + c.2 ≤ b.1.

#[global] Instance apart_sym : Symmetric apart.
Proof. intros b c [?|?]; [by right|by left]. Qed.

Definition with_size (s : Z) : list Z → list block := fmap (λ a, (a, s)).
Definition class_blocks (fl : list (list Z)) : list block := concat (zip_with with_size SIZE_CLASSES fl).
Definition large_blocks (l : list LargeFreeBlock) : list block := (λ b, (lf_address b, lf_size b)) <$> l.

Definition blocks (h : GuestHeap) : list block :=
  map_to_list (live h) ++ class_blocks (free_lists h) ++ large_blocks (large_free h).

(** Payloads are 16-aligned, lie eight bytes or more past the base and end below the cursor. *)
Definition block_ok (h : GuestHeap) (b : block) : Prop :=
  b.1 mod 16 = 0 ∧ b.2 mod 16 = 0 ∧ 16 ≤ b.2 ∧ hp_base h + 8 ≤ b.1 ∧ b.1 + b.2 ≤ bump h.

Record heap_wf (h : GuestHeap) : Prop := {
  hw_range : 0 < hp_base h ∧ hp_base h ≤ bump h ∧ bump h ≤ hp_end h ∧ hp_end h < u64_lim;
  hw_classes : length (free_lists h) = 24%nat;
  hw_blocks : Forall (block_ok h) (blocks h);
  hw_apart : ForallOrdPairs apart (blocks h);
  hw_live : map_Forall (λ _ s, block_size s) (live h);
}.

(** Any change that only permutes the blocks keeps them well-formed. *)
Lemma heap_wf_perm h h' :
  heap_wf h → hp_base h' = hp_base h → hp_end h' = hp_end h → bump h' = bump h →
  length (free_lists h') = 24%nat → map_Forall (λ _ s, block_size s) (live h') →
  blocks h' ≡ₚ blocks h → heap_wf h'.
Proof.
  intros [H1 H2 H3 H4 H5] Hb He Hbu Hl Hlive Hp. split; [by rewrite Hb, He, Hbu|done| | |done].
  - rewrite Hp. unfold block_ok in *. by rewrite Hb, Hbu.
  - by apply (ForallOrdPairs_Permutation _ (blocks h)).
Qed.

Lemma class_blocks_insert fl i s a l :
  class_size i s → (i < length fl)%nat →
  class_blocks (<[i := a :: l]> fl) ≡ₚ (a, s) :: class_blocks (<[i := l]> fl).
Proof.
  unfold class_size, class_blocks. generalize SIZE_CLASSES as cs.
  intros cs. revert i cs. induction fl as [|f fl IH]; intros [|i] [|c cs] Hs Hi; simpl in *; try done; try lia.
  - by injection Hs as ->.
  - rewrite (IH i cs) by (done || lia). by rewrite Permutation_middle.
Qed.

(** ** Allocation *)

Record allocated (h h' : GuestHeap) (a s : Z) : Prop := {
  al_wf : heap_wf h';
  al_live : live h' = <[a := s]> (live h);
  al_fresh : live h !! a = None;
  al_block : a mod 16 = 0 ∧ hp_base h + 8 ≤ a ∧ a + s ≤ hp_end h;
  al_apart : ∀ b t, live h !! b = Some t → apart (a, s) (b, t);
  al_frame : hp_base h' = hp_base h ∧ hp_end h' = hp_end h ∧ guest_ctrl_va h' = guest_ctrl_va h;
}.

Lemma live_blocks h a s : live h !! a = Some s → (a, s) ∈ blocks h.
Proof. intros Hl. unfold blocks. apply elem_of_app. left. by apply elem_of_map_to_list. Qed.

Lemma block_positive h b : heap_wf h → b ∈ blocks h → 16 ≤ b.2.
Proof. intros Hwf Hb. pose proof (hw_blocks _ Hwf) as H. rewrite Forall_forall in H. apply (H b Hb). Qed.

Lemma live_apart h a b s t :
  heap_wf h → live h !! a = Some s → live h !! b = Some t → a ≠ b → apart (a, s) (b, t).
Proof.
  intros Hwf Ha Hb Hne. apply live_blocks in Ha, Hb.
  destruct (ForallOrdPairs_In (hw_apart _ Hwf) (a, s) (b, t)) as [Heq|[H|H]];
    [by apply list_elem_of_In..| | |]; [by injection Heq as <- <-|done|by symmetry].
Qed.

(** An address that is a free block is not live. *)
Lemma free_not_live h a s :
  heap_wf h → (a, s) ∈ class_blocks (free_lists h) ++ large_blocks (large_free h) → live h !! a = None.
Proof.
  intros Hwf Hin. destruct (live h !! a) as [t|] eqn:E; [|done]. exfalso.
  assert (Ht : (a, t) ∈ map_to_list (live h)) by (by apply elem_of_map_to_list).
  pose proof (ForallOrdPairs_app_cross _ _ _ _ _ (hw_apart _ Hwf) Ht Hin) as [H|H]; simpl in H.
  - pose proof (block_positive h (a, t) Hwf) as Hp. simpl in Hp.
    specialize (Hp ltac:(unfold blocks; apply elem_of_app; by left)). lia.
  - pose proof (block_positive h (a, s) Hwf) as Hp. simpl in Hp.
    specialize (Hp ltac:(unfold blocks; apply elem_of_app; by right)). lia.
Qed.

(** Every way of making [a] live gives the postcondition, once the heap is well-formed. *)
Lemma allocated_intro h h' a s :
  heap_wf h' → live h' = <[a := s]> (live h) → live h !! a = None →
  hp_base h' = hp_base h → hp_end h' = hp_end h → guest_ctrl_va h' = guest_ctrl_va h →
  allocated h h' a s.
Proof.
  intros Hwf' Hl Hf Hb He Hg.
  assert (Ha : live h' !! a = Some s) by (by rewrite Hl, lookup_insert_eq).
  assert (Hok : block_ok h' (a, s)).
  { pose proof (hw_blocks _ Hwf') as H. rewrite Forall_forall in H. apply H. by apply live_blocks. }
  destruct Hok as (H1 & H2 & H3 & H4 & H5). pose proof (hw_range _ Hwf'). simpl in *.
  split; [done..| | |done].
  - rewrite <- Hb, <- He. lia.
  - intros b t Hbt. assert (a ≠ b) by congruence. apply (live_apart h'); [done..| |done].
    by rewrite Hl, lookup_insert_ne.
Qed.

Lemma live_size_insert (m : gmap Z Z) a s :
  block_size s → map_Forall (λ _ s, block_size s) m → map_Forall (λ _ s, block_size s) (<[a := s]> m).
Proof. intros Hs Hm. by apply map_Forall_insert_2. Qed.

Lemma map_to_list_delete (m : gmap Z Z) a s :
  m !! a = Some s → (a, s) :: map_to_list (delete a m) ≡ₚ map_to_list m.
Proof.
  intros Hm. rewrite <- (insert_delete_id m a s Hm) at 2.
  rewrite map_to_list_insert; [done|apply lookup_delete_eq].
Qed.

Definition payload_of (h : GuestHeap) : Z := (bump h + 23) / 16 * 16.

Lemma bump_alloc_spec h r :
  heap_wf h → block_size r →
  let '(h', a) := bump_alloc r h in
  (a = 0 ∧ h' = h ∧ hp_end h < payload_of h + r) ∨ (0 < a ∧ allocated h h' a r).
Proof.
  intros Hwf (Hm & Hr & Hc). destruct (hw_range _ Hwf) as (Hb0 & Hbb & Hbe & Hlim).
  pose proof (Z.div_mod (bump h + 23) 16) as Hd1. pose proof (Z.mod_pos_bound (bump h + 23) 16) as Hd2.
  unfold bump_alloc, payload_of. destruct (checked_add (bump h) 8) as [pre|] eqn:Epre.
  2:{ apply checked_add_None in Epre. left. split_and!; [done..|lia]. }
  apply checked_add_Some in Epre as [-> Hpre].
  destruct (mask16_wrap (bump h + 8)) as [[Hw ->]|(Hw & -> & Hp & Hpm)]; [lia| |].
  { rewrite decide_True by lia. left. split_and!; [done..|lia]. }
  replace (bump h + 8 + 15) with (bump h + 23) in * by lia.
  set (p := (bump h + 23) / 16 * 16) in *. rewrite decide_False by lia.
  destruct (checked_add p r) as [e|] eqn:Ee; [|apply checked_add_None in Ee; left; split_and!; [done..|lia]].
  apply checked_add_Some in Ee as [-> He].
  destruct (bool_decide (hp_end h < p + r) || _) eqn:Eb.
  { apply orb_true_iff in Eb as [Eb%bool_decide_eq_true|Eb%bool_decide_eq_true]; [left; split_and!; [done..|lia]|lia]. }
  apply orb_false_iff in Eb as [Eb%bool_decide_eq_false _]. right. split; [lia|].
  assert (Hbelow : ∀ b, b ∈ blocks h → b.1 + b.2 ≤ bump h).
  { intros b Hin. pose proof (hw_blocks _ Hwf) as H. rewrite Forall_forall in H. apply (H b Hin). }
  assert (Hfresh : live h !! p = None).
  { destruct (live h !! p) as [t|] eqn:Et; [|done]. apply live_blocks in Et.
    pose proof (block_positive h _ Hwf Et). specialize (Hbelow _ Et). simpl in *. lia. }
  assert (Hperm : blocks (set_live (<[p := r]> (live h)) (set_bump (p + r) h)) ≡ₚ (p, r) :: blocks h).
  { unfold blocks. simpl. by rewrite map_to_list_insert. }
  apply allocated_intro; try done. split; simpl; try (apply Hwf || lia).
  - rewrite Hperm. constructor; [unfold block_ok; simpl; lia|].
    pose proof (hw_blocks _ Hwf) as H. eapply Forall_impl; [exact H|].
    intros b (? & ? & ? & ? & ?). unfold block_ok. simpl. lia.
  - apply (ForallOrdPairs_Permutation apart _ _ Hperm). constructor; [|apply Hwf].
    apply Forall_forall. intros b Hin. right. simpl. specialize (Hbelow b Hin). lia.
  - apply live_size_insert; [by split|apply Hwf].
Qed.

(** Best fit picks an index of a block that is large enough and no larger than any other. *)
Lemma find_large_fit_spec need l :
  match find_large_fit need l with
  | Some i => ∃ b, l !! i = Some b ∧ need ≤ lf_size b ∧
      ∀ c, c ∈ l → need ≤ lf_size c → lf_size b ≤ lf_size c
  | None => ∀ c, c ∈ l → lf_size c < need
  end.
Proof.
  unfold find_large_fit.
  assert (Hinv : ∀ k done best, l = done ++ k →
    (match best with
     | Some (i, s) => ∃ b, l !! i = Some b ∧ s = lf_size b ∧ need ≤ s ∧
         ∀ c, c ∈ done → need ≤ lf_size c → s ≤ lf_size c
     | None => ∀ c, c ∈ done → lf_size c < need
     end) →
    match foldl (find_large_step need) best (imap (λ i b, ((length done + i)%nat, b)) k) with
    | Some (i, s) => ∃ b, l !! i = Some b ∧ s = lf_size b ∧ need ≤ s ∧
         ∀ c, c ∈ l → need ≤ lf_size c → s ≤ lf_size c
    | None => ∀ c, c ∈ l → lf_size c < need
    end).
  { induction k as [|x k IH]; intros dn best Hl Hbest; simpl.
    - rewrite app_nil_r in Hl. by subst dn.
    - rewrite Nat.add_0_r.
      assert (Hx : l !! length dn = Some x) by (rewrite Hl, lookup_app_r, Nat.sub_diag by lia; done).
      specialize (IH (dn ++ [x]) (find_large_step need best (length dn, x))).
      rewrite length_app in IH. simpl in IH.
      assert (Hmap : imap (λ i b, ((length dn + S i)%nat, b)) k = imap (λ i b, ((length dn + 1 + i)%nat, b)) k).
      { apply imap_ext. intros i b _. f_equal. lia. }
      change ((λ i b, ((length dn + i)%nat, b)) ∘ S) with (λ i (b : LargeFreeBlock), ((length dn + S i)%nat, b)).
      rewrite Hmap. apply IH; [by rewrite <- app_assoc|]. clear IH. unfold find_large_step.
      destruct (decide (need ≤ lf_size x)) as [Hfit|Hno].
      + destruct best as [[i s]|].
        * destruct Hbest as (b & Hb & -> & Hn & Hmin). destruct (decide (lf_size x < lf_size b)).
          -- exists x. split_and!; try done. intros c [Hc| ->%list_elem_of_singleton]%elem_of_app Hn'; [|lia].
             specialize (Hmin c Hc Hn'). lia.
          -- exists b. split_and!; try done. intros c [Hc| ->%list_elem_of_singleton]%elem_of_app Hn'; [auto|lia].
        * exists x. split_and!; try done. intros c [Hc| ->%list_elem_of_singleton]%elem_of_app Hn'; [|lia].
          specialize (Hbest c Hc). lia.
      + destruct best as [[i s]|].
        * destruct Hbest as (b & Hb & -> & Hn & Hmin). exists b. split_and!; try done.
          intros c [Hc| ->%list_elem_of_singleton]%elem_of_app Hn'; [auto|lia].
        * intros c [Hc| ->%list_elem_of_singleton]%elem_of_app; [auto|lia]. }
  specialize (Hinv l [] None eq_refl). simpl in Hinv.
  assert (Himap : imap (λ i (b : LargeFreeBlock), (i, b)) l = imap pair l) by done. rewrite Himap in Hinv.
  destruct (foldl _ None (imap pair l)) as [[i s]|]; simpl.
  - destruct Hinv as (b & Hb & -> & Hn & Hmin); [by intros c []%elem_of_nil|]. by exists b.
  - apply Hinv. by intros c []%elem_of_nil.
Qed.

Lemma swap_remove_Permutation {A} i (l : list A) x :
  l !! i = Some x → x :: swap_remove i l ≡ₚ l.
Proof.
  intros Hi. unfold swap_remove. destruct (last l) as [z|] eqn:Hz.
  2:{ apply last_None in Hz. by subst l. }
  apply last_Some in Hz as [l' ->]. rewrite length_app. simpl.
  replace (length l' + 1 - 1)%nat with (length l') by lia.
  destruct (decide (i < length l')%nat) as [Hlt|Hge].
  - rewrite insert_app_l, take_app_length' by (by rewrite ?length_insert).
    rewrite lookup_app_l in Hi by done.
    assert (Hins : <[i := z]> l' ≡ₚ z :: delete i l').
    { rewrite (delete_Permutation (<[i := z]> l') i z) by (by apply list_lookup_insert_eq).
      by rewrite !delete_take_drop, take_insert_ge, drop_insert_lt by lia. }
    rewrite Hins, (Permutation_app_comm l' [z]). simpl. rewrite Permutation_swap. constructor.
    symmetry. by apply delete_Permutation.
  - apply lookup_lt_Some in Hi as Hi'. rewrite length_app in Hi'. simpl in Hi'.
    assert (i = length l') as -> by lia. rewrite lookup_app_r, Nat.sub_diag in Hi by lia. injection Hi as ->.
    rewrite insert_app_r_alt by lia. rewrite take_app_length' by done. by rewrite Permutation_app_comm.
Qed.

Lemma large_blocks_swap_remove i l b :
  l !! i = Some b → (lf_address b, lf_size b) :: large_blocks (swap_remove i l) ≡ₚ large_blocks l.
Proof.
  intros Hi. pose proof (swap_remove_Permutation i l b Hi) as Hp. unfold large_blocks.
  etrans; [|apply fmap_Permutation, Hp]. done.
Qed.

Lemma take_large_spec h i b r :
  heap_wf h → large_free h !! i = Some b → block_size r → LARGE_THRESHOLD < r ≤ lf_size b →
  let '(h', a) := take_large r i b h in 0 < a ∧ allocated h h' a r.
Proof.
  intros Hwf Hi Hr [Hlarge Hfit]. destruct b as [a s]. simpl in *. destruct Hr as (Hrm & Hrb & Hrc).
  destruct (hw_range _ Hwf) as (Hb0 & Hbb & Hbe & Hlim).
  assert (Hin : (a, s) ∈ large_blocks (large_free h)).
  { apply list_elem_of_fmap. exists (mkLarge a s). split; [done|]. by eapply list_elem_of_lookup_2. }
  assert (Hok : block_ok h (a, s)).
  { pose proof (hw_blocks _ Hwf) as H. rewrite Forall_forall in H. apply H. unfold blocks.
    rewrite !elem_of_app. auto. }
  destruct Hok as (Ha1 & Ha2 & Ha3 & Ha4 & Ha5). simpl in *.
  assert (Hfresh : live h !! a = None) by (apply (free_not_live h a s Hwf), elem_of_app; by right).
  (* the other blocks *)
  set (rest := map_to_list (live h) ++ class_blocks (free_lists h) ++ large_blocks (swap_remove i (large_free h))).
  assert (Hperm : blocks h ≡ₚ (a, s) :: rest).
  { unfold blocks, rest. pose proof (large_blocks_swap_remove i (large_free h) (mkLarge a s) Hi) as Hp.
    etrans; [do 2 apply Permutation_app_head; symmetry; exact Hp|].
    simpl. rewrite !app_assoc. symmetry. apply Permutation_middle. }
  pose proof (hw_blocks _ Hwf) as Hbl. rewrite Hperm in Hbl. apply Forall_cons in Hbl as [_ Hbl].
  pose proof (ForallOrdPairs_Permutation apart _ _ (Permutation_sym Hperm) (hw_apart _ Hwf)) as Hap.
  inversion_clear Hap as [|? ? Hx Hap']. unfold take_large. simpl.
  split; [lia|]. apply allocated_intro; try done.
  set (split_it := decide (sat_add r LARGE_THRESHOLD ≤ s)).
  assert (Hbl' : ∀ l', (l' = swap_remove i (large_free h) ∨
      (l' = swap_remove i (large_free h) ++ [mkLarge (a + r) (s - r)] ∧ r + 16 ≤ s)) →
    heap_wf (set_live (<[a := r]> (live h)) (set_large l' h))).
  { intros l' Hl'.
    assert (Hp' : blocks (set_live (<[a := r]> (live h)) (set_large l' h)) ≡ₚ (a, r) :: rest ∨
      (r + 16 ≤ s ∧ blocks (set_live (<[a := r]> (live h)) (set_large l' h)) ≡ₚ (a, r) :: (a + r, s - r) :: rest)).
    { unfold blocks. simpl. rewrite map_to_list_insert by done. destruct Hl' as [->|[-> ?]]; [by left|].
      right. split; [done|]. simpl. constructor. unfold rest, large_blocks at 1. rewrite fmap_app. simpl.
      rewrite !app_assoc. apply Permutation_app_comm. }
    assert (Hsub : ∀ c, apart (a, s) c → apart (a, r) c).
    { intros c [H|H]; [left|right]; simpl in *; lia. }
    assert (Hsub' : ∀ c, r + 16 ≤ s → apart (a, s) c → apart (a + r, s - r) c).
    { intros c ? [H|H]; [left|right]; simpl in *; lia. }
    split; simpl; try (apply Hwf || lia).
    - change (Forall (block_ok h) (blocks (set_live (<[a := r]> (live h)) (set_large l' h)))).
      destruct Hp' as [->|[Hsz ->]]; repeat constructor; try done; simpl; try lia.
      + rewrite <- Zplus_mod_idemp_l, Ha1, Z.add_0_l. done.
      + rewrite Zminus_mod, Ha2, Hrm. done.
    - destruct Hp' as [Hp'|[Hsz Hp']]; apply (ForallOrdPairs_Permutation apart _ _ Hp').
      + constructor; [|done]. eapply Forall_impl; [exact Hx|]. auto.
      + constructor; [|constructor; [|done]].
        * constructor; [left; simpl; lia|]. eapply Forall_impl; [exact Hx|]. auto.
        * eapply Forall_impl; [exact Hx|]. auto.
    - apply live_size_insert; [by split|apply Hwf]. }
  apply Hbl'. destruct split_it as [Hsplit|]; [|by left].
  unfold LARGE_THRESHOLD, sat_add in *.
  destruct (bool_decide _ && _); [|by left]. right. unfold sat_sub. split; [|lia].
  repeat f_equal; lia.
Qed.

Lemma pop_class_spec h i s a rest :
  heap_wf h → class_size i s → block_size s → free_lists h !! i = Some (a :: rest) →
  0 < a ∧ allocated h (set_live (<[a := s]> (live h)) (set_free_lists (<[i := rest]> (free_lists h)) h)) a s.
Proof.
  intros Hwf Hi Hs Hfl. assert (Hlt : (i < length (free_lists h))%nat) by (by eapply lookup_lt_Some).
  assert (Hcb : class_blocks (free_lists h) ≡ₚ (a, s) :: class_blocks (<[i := rest]> (free_lists h))).
  { rewrite <- (class_blocks_insert (free_lists h) i s a rest Hi Hlt). by rewrite list_insert_id. }
  assert (Hin : (a, s) ∈ class_blocks (free_lists h)) by (rewrite Hcb; by left).
  assert (Hfresh : live h !! a = None) by (apply (free_not_live h a s Hwf), elem_of_app; by left).
  pose proof (hw_blocks _ Hwf) as Hbl. rewrite Forall_forall in Hbl.
  destruct (Hbl (a, s)) as (_ & _ & _ & Hb & _); [unfold blocks; rewrite !elem_of_app; auto|].
  pose proof (hw_range _ Hwf). simpl in Hb. split; [lia|]. apply allocated_intro; try done.
  apply (heap_wf_perm h); try done; simpl.
  - rewrite length_insert. apply Hwf.
  - apply live_size_insert; [done|apply Hwf].
  - unfold blocks. simpl. rewrite map_to_list_insert by done. rewrite Hcb. simpl.
    apply Permutation_middle.
Qed.

(** Failure and success, wherever the block comes from. *)
Lemma alloc_holds h size :
  heap_wf h → in_u64 size →
  let '(h', a) := alloc size h in
  (a = 0 ∧ h' = h ∧
     (size = 0 ∨ round_up_size size = 0 ∨ hp_end h < payload_of h + round_up_size size)) ∨
  (0 < a ∧ 0 < size ≤ round_up_size size ∧ allocated h h' a (round_up_size size)).
Proof.
  intros Hwf Hs. unfold alloc. destruct (decide (size = 0)) as [|Hne]; [left; auto|].
  destruct (decide (round_up_size size = 0)) as [|Hr0]; [left; auto|].
  assert (Hpos : 0 < size < u64_lim) by (unfold in_u64 in Hs; lia).
  destruct (round_up_block_size size Hpos Hr0) as [Hge Hbs]. set (r := round_up_size size) in *.
  assert (Hbump : let '(h', a) := bump_alloc r h in
    (a = 0 ∧ h' = h ∧ (size = 0 ∨ r = 0 ∨ hp_end h < payload_of h + r)) ∨
    (0 < a ∧ 0 < size ≤ r ∧ allocated h h' a r)).
  { pose proof (bump_alloc_spec h r Hwf Hbs) as Hb. destruct (bump_alloc r h) as [h' a].
    destruct Hb as [(-> & -> & ?)|[? ?]]; [left; auto|right; split_and!; done || lia]. }
  destruct (decide (r ≤ LARGE_THRESHOLD)) as [Hsmall|Hlarge].
  - destruct (free_lists h !! size_class_index r) as [[|a rest]|] eqn:Efl; [done| |done].
    right. destruct Hbs as (H1 & H2 & H3).
    destruct (pop_class_spec h (size_class_index r) r a rest) as [? ?]; try done; [by apply H3|].
    split_and!; done || lia.
  - pose proof (find_large_fit_spec r (large_free h)) as Hfit.
    destruct (find_large_fit r (large_free h)) as [i|]; [|done].
    destruct Hfit as (b & Hb & Hfit & _). rewrite Hb.
    pose proof (take_large_spec h i b r Hwf Hb Hbs ltac:(lia)) as Ht.
    destruct (take_large r i b h) as [h' a]. destruct Ht. right. split_and!; done || lia.
Qed.

(** *** Where a block comes from *)

(** No free block serves [r] bytes: the list of its class is empty, or every large
    block is too small. *)
Definition no_free (h : GuestHeap) (r : Z) : Prop :=
  if decide (r ≤ LARGE_THRESHOLD) then free_lists h !! size_class_index r = Some []
  else ∀ c, c ∈ large_free h → lf_size c < r.
(** The head of the list of its class; the smallest large block that fits, the rest of
    which stays free when it is large itself; virgin space, and that only when nothing
    free serves. *)
Inductive supplied (h h' : GuestHeap) (a r : Z) : Prop :=
| from_class rest : r ≤ LARGE_THRESHOLD → free_lists h !! size_class_index r = Some (a :: rest) →
    free_lists h' = <[size_class_index r := rest]> (free_lists h) → large_free h' = large_free h → bump h' = bump h →
    supplied h h' a r
| from_large s others : LARGE_THRESHOLD < r → large_free h ≡ₚ mkLarge a s :: others → r ≤ s →
    (∀ c, c ∈ large_free h → r ≤ lf_size c → s ≤ lf_size c) →
    large_free h' ≡ₚ others ++ (if decide (r + LARGE_THRESHOLD ≤ s) then [mkLarge (a + r) (s - r)] else []) →
    free_lists h' = free_lists h → bump h' = bump h → supplied h h' a r
| from_virgin : no_free h r → a = payload_of h → bump h' = a + r →
    free_lists h' = free_lists h → large_free h' = large_free h → supplied h h' a r.

Lemma bump_supplied h r h' a : heap_wf h → block_size r → no_free h r → bump_alloc r h = (h', a) → a ≠ 0 → supplied h h' a r.
Proof.
  intros Hwf Hr Hnone Hb Ha. destruct (hw_range _ Hwf) as (Hb0 & Hbb & Hbe & Hlim). unfold bump_alloc in Hb.
  destruct (checked_add (bump h) 8) as [pre|] eqn:Epre; [|by injection Hb as _ <-].
  apply checked_add_Some in Epre as [-> Hpre].
  destruct (mask16_wrap (bump h + 8)) as [[_ Hz]|(_ & Hz & _)]; [lia| |]; rewrite Hz in Hb.
  { rewrite decide_True in Hb by lia. by injection Hb as _ <-. }
  replace (bump h + 8 + 15) with (bump h + 23) in Hb by lia. change ((bump h + 23) / 16 * 16) with (payload_of h) in Hb.
  case_decide; [by injection Hb as _ <-|].
  destruct (checked_add _ r) as [e|] eqn:Ee; [|by injection Hb as _ <-]. apply checked_add_Some in Ee as [-> _].
  destruct (_ || _); [by injection Hb as _ <-|]. injection Hb as <- <-. by apply from_virgin.
Qed.
Lemma take_large_supplied h i s a r h' a' : heap_wf h → large_free h !! i = Some (mkLarge a s) → LARGE_THRESHOLD < r ≤ s →
  (∀ c, c ∈ large_free h → r ≤ lf_size c → s ≤ lf_size c) → take_large r i (mkLarge a s) h = (h', a') → supplied h h' a' r.
Proof.
  intros Hwf Hi [Hl Hs] Hmin [= <- <-]. destruct (hw_range _ Hwf) as (Hb0 & Hbb & Hbe & Hlim).
  assert (Hok : block_ok h (a, s)).
  { pose proof (hw_blocks _ Hwf) as Hbl. rewrite Forall_forall in Hbl. apply Hbl. unfold blocks. rewrite !elem_of_app. right; right.
    apply list_elem_of_fmap. exists (mkLarge a s). split; [done|]. by eapply list_elem_of_lookup_2. }
  destruct Hok as (_ & _ & _ & Ha & He). cbn [fst snd] in *. unfold LARGE_THRESHOLD in *.
  apply (from_large _ _ _ _ s (swap_remove i (large_free h))); [done|symmetry; by apply swap_remove_Permutation|done|done| |done|done].
  cbn [large_free set_live set_large lf_address lf_size]. unfold sat_add, sat_sub, LARGE_THRESHOLD.
  destruct (decide (r + 65536 ≤ s)) as [Hsplit|Hno].
  - rewrite decide_True by lia. rewrite !bool_decide_eq_true_2 by lia. cbn [andb].
    by rewrite Z.min_l, Z.max_l by lia.
  - rewrite decide_False by lia. by rewrite app_nil_r.
Qed.
Lemma alloc_supplied h size h' a : heap_wf h → 0 < size < u64_lim → round_up_size size ≠ 0 → alloc size h = (h', a) →
  a ≠ 0 ∧ supplied h h' a (round_up_size size) ∨ a = 0 ∧ no_free h (round_up_size size).
Proof.
  intros Hwf Hs Hr0 Ha. unfold alloc in Ha. rewrite decide_False, decide_False in Ha by lia.
  destruct (round_up_block_size size Hs Hr0) as [Hge Hbs]. set (r := round_up_size size) in *.
  assert (Hbump : no_free h r → bump_alloc r h = (h', a) → a ≠ 0 ∧ supplied h h' a r ∨ a = 0 ∧ no_free h r).
  { intros Hnone Hb. destruct (decide (a = 0)); [by right|left]. split; [done|by eapply bump_supplied]. }
  destruct (decide (r ≤ LARGE_THRESHOLD)) as [Hsmall|Hlarge].
  - destruct Hbs as (H1 & H2 & H3). destruct (class_size_spec _ _ (H3 Hsmall)) as (Hi & _).
    destruct (lookup_lt_is_Some_2 (free_lists h) (size_class_index r)) as [l Efl]; [by rewrite (hw_classes _ Hwf)|].
    rewrite Efl in Ha. destruct l as [|b rest].
    + apply Hbump; [|done]. unfold no_free. by rewrite decide_True by done.
    + destruct (pop_class_spec h (size_class_index r) r b rest Hwf (H3 Hsmall)) as [Hpos _]; [by split|done|].
      injection Ha as <- <-. left. split; [lia|]. by apply (from_class _ _ _ _ rest).
  - pose proof (find_large_fit_spec r (large_free h)) as Hfit. destruct (find_large_fit r (large_free h)) as [i|].
    + destruct Hfit as ([b s] & Hb & Hle & Hmin). rewrite Hb in Ha. cbn [lf_size] in *.
      pose proof (take_large_spec h i (mkLarge b s) r Hwf Hb Hbs ltac:(cbn; lia)) as Ht.
      rewrite Ha in Ht. left. split; [lia|]. eapply take_large_supplied; [done|exact Hb|lia|exact Hmin|exact Ha].
    + apply Hbump; [|done]. unfold no_free. by rewrite decide_False by done.
Qed.

(** C37 [alloc] fails, changing nothing, exactly when the size is zero or too large to
    round, or when the free list of the size's class is empty (no large free block is large
    enough) and virgin space has no room either.  Otherwise it makes live one block,
    16-aligned, at least as large as asked, between the heap's bounds and disjoint from
    every live block, and keeps the heap well-formed; the block is the head of
    its class's free list, or the smallest large free block that fits, whose rest stays
    free when it is large, or comes from virgin space, and that only when nothing
    free serves; the other free blocks stay as they are.  (The eight bytes before a block,
    where the guest keeps its size, are not part of it: the rest of a block that was split
    lies directly behind, [split_header_overlaps].) *)
Theorem alloc_spec h size :
  heap_wf h → in_u64 size →
  let '(h', a) := alloc size h in
  let r := round_up_size size in
  (a = 0 ∧ h' = h ∧ (size = 0 ∨ r = 0 ∨ no_free h r ∧ hp_end h < payload_of h + r)) ∨
  (0 < a ∧ 0 < size ≤ r ∧ allocated h h' a r ∧ supplied h h' a r).
Proof.
  intros Hwf Hs. pose proof (alloc_holds h size Hwf Hs) as Hspec. unfold in_u64 in Hs. destruct (alloc size h) as [h' a] eqn:Ha.
  cbv zeta. destruct (decide (size = 0 ∨ round_up_size size = 0)) as [Hz|Hz].
  - destruct Hspec as [(-> & -> & _)|(Hpos & Hle & _)]; [left; tauto|exfalso; lia].
  - destruct (alloc_supplied h size h' a Hwf) as [[Hne Hsup]|[Hne Hnone]]; [lia|tauto|done|..];
      destruct Hspec as [(Ha0 & -> & Hcase)|(Hpos & Hle & Hal)]; [by destruct Hne|by right|left; tauto|exfalso; lia].
Qed.

(** ** Freeing *)

Lemma alter_insert_id {A} (f : A → A) (i : nat) (l : list A) x : l !! i = Some x → alter f i l = <[i := f x]> l.
Proof.
  intros Hi. rewrite list_insert_alter. apply list_alter_ext; [|done]. intros y Hy. congruence.
Qed.

(** The block leaves the live map for the free list of its class, or the large list. *)
Definition released_block (h : GuestHeap) (a s : Z) : GuestHeap :=
  let h1 := set_live (delete a (live h)) h in
  if decide (s ≤ LARGE_THRESHOLD) then push_free (size_class_index s) a h1 else push_large a s h1.

Lemma released_block_wf h a s : heap_wf h → live h !! a = Some s → heap_wf (released_block h a s).
Proof.
  intros Hwf Ha. destruct (hw_live _ Hwf a s Ha) as (Hm & Hb & Hc).
  assert (Hdel : map_Forall (λ _ s, block_size s) (delete a (live h))) by (apply map_Forall_delete, Hwf).
  pose proof (map_to_list_delete (live h) a s Ha) as Hp. pose proof (hw_classes _ Hwf) as Hlen.
  unfold released_block. destruct (decide (s ≤ LARGE_THRESHOLD)) as [Hle|Hgt].
  - specialize (Hc Hle). pose proof (class_size_spec _ _ Hc) as (Hi & _).
    destruct (lookup_lt_is_Some_2 (free_lists h) (size_class_index s)) as [l Hl]; [lia|].
    apply (heap_wf_perm h); try done; simpl; [by rewrite length_alter|].
    unfold blocks. simpl. rewrite <- Hp, (alter_insert_id _ _ _ _ Hl).
    rewrite (class_blocks_insert _ _ s a l Hc) by lia. rewrite list_insert_id by done. simpl.
    symmetry. apply Permutation_middle.
  - apply (heap_wf_perm h); try done; simpl.
    unfold blocks, large_blocks. simpl. rewrite <- Hp, fmap_app. simpl.
    rewrite (Permutation_app_comm _ [(a, s)]). simpl. symmetry. rewrite <- !Permutation_middle. done.
Qed.

(** [free] succeeds exactly on live addresses; it then removes just that block
    from the live ones, keeps the heap well-formed, and the next allocation of
    the same size class returns the same address again. *)
Theorem free_spec h a :
  heap_wf h →
  let '(h', ok) := free a h in
  heap_wf h' ∧
  match live h !! a with
  | Some s => ok = true ∧ live h' = delete a (live h) ∧
      (s ≤ LARGE_THRESHOLD → ∀ size, 0 < size → round_up_size size = s → (alloc size h').2 = a)
  | None => ok = false ∧ h' = h
  end.
Proof.
  intros Hwf. unfold free. destruct (decide (a = 0)) as [->|Hne].
  { split; [done|]. destruct (live h !! 0) as [s|] eqn:E; [|done]. apply live_blocks in E.
    pose proof (hw_blocks _ Hwf) as Hbl. rewrite Forall_forall in Hbl.
    destruct (Hbl _ E) as (_ & _ & _ & Hb & _). pose proof (hw_range _ Hwf). simpl in Hb. lia. }
  destruct (live h !! a) as [s|] eqn:E; [|done].
  split; [by apply released_block_wf|]. split; [done|]. split.
  { by case_decide. }
  intros Hle size Hpos Hr. rewrite decide_True by done. destruct (hw_live _ Hwf a s E) as (Hm & Hb & Hc).
  pose proof (class_size_spec _ _ (Hc Hle)) as (Hi & _). pose proof (hw_classes _ Hwf) as Hlen.
  destruct (lookup_lt_is_Some_2 (free_lists h) (size_class_index s)) as [l Hl]; [lia|].
  unfold alloc. rewrite decide_False by lia. rewrite Hr, decide_False, decide_True by lia.
  simpl. by rewrite list_lookup_alter_eq, Hl.
Qed.

(** Growing in place never moves a block and never promises more than it has. *)
Lemma try_realloc_in_place_spec h a n b :
  try_realloc_in_place h a n = Some b → b = a ∧ ∃ s, live h !! a = Some s ∧ round_up_size n ≤ s.
Proof.
  unfold try_realloc_in_place. destruct (live h !! a) as [s|]; simpl; [|done].
  repeat case_decide; try done. intros [= <-]. eauto.
Qed.
