(* ===== verification/heap_coherent.v ===== *)
(** * The shared heap refines the host heap

    With a control block attached the free lists are chains through guest
    memory.  [represents] relates that state to a host-only heap; the coherent
    operations simulate the host-only ones. *)

From S2P Require Import Prelude engine guest_heap.

Section Refinement.
Context {E : Type} `{CpuMemLaws E}.
Implicit Types (e : E) (h ha : GuestHeap).

(** A free list threaded through its blocks, from the head word [a]. *)
Fixpoint chain e (a : Z) (l : list Z) : Prop :=
  match l with
  | [] => a = 0
  | x :: l' => a = x ∧ chain e (get64 e x) l'
  end.

Definition head_word (ctrl : Z) (i : nat) : Z := ctrl + 8 + 8 * Z.of_nat i.

(** The size of the control block: the cursor and one head per class. *)
Definition ctrl_size : Z := 200.

(** [e] and [h] (control block at [ctrl]) stand for the host-only heap [ha]. *)
Record represents e h ha (ctrl : Z) : Prop := {
  rp_inv : mem_inv e;
  rp_wf : heap_wf ha;
  rp_attached : guest_ctrl_va h = Some ctrl ∧ guest_ctrl_va ha = None;
  rp_same : hp_base h = hp_base ha ∧ hp_end h = hp_end ha ∧ large_free h = large_free ha ∧ live h = live ha;
  rp_place : 0 ≤ ctrl ∧ (ctrl + ctrl_size ≤ hp_base ha ∨ (hp_end ha ≤ ctrl ∧ ctrl + ctrl_size < u64_lim));
  rp_rw : ∀ x, ctrl ≤ x < ctrl + ctrl_size ∨ hp_base ha ≤ x < hp_end ha → mem_rw e x;
  rp_bump : get64 e ctrl = bump ha;
  rp_chains : ∀ i l, free_lists ha !! i = Some l → chain e (get64 e (head_word ctrl i)) l;
}.

(** ** Words of guest memory *)

Lemma read_u64_spec e a :
  mem_inv e → word_rw e a →
  ∃ e', read_u64 a e = (e', Some (get64 e a)) ∧ mem_inv e' ∧
    (∀ b, get64 e' b = get64 e b) ∧ ∀ x, mem_rw e' x ↔ mem_rw e x.
Proof.
  intros Hi Hw. destruct (mem_read_word e a Hi Hw) as (e' & bs & Hr & Hv & Hi' & Hg & Hrw).
  exists e'. unfold read_u64. rewrite Hr, Hv. split_and!; try done.
  intros b. apply get64_same. intros x _. by rewrite Hg.
Qed.

Lemma write_u64_spec e a v :
  mem_inv e → word_rw e a → in_u64 v →
  mem_inv (write_u64 a v e) ∧ (∀ x, mem_rw (write_u64 a v e) x ↔ mem_rw e x) ∧
  get64 (write_u64 a v e) a = v ∧
  ∀ b, b + 8 ≤ a ∨ a + 8 ≤ b → get64 (write_u64 a v e) b = get64 e b.
Proof.
  intros Hi Hw Hv. destruct (mem_write_word e a v Hi Hw Hv) as (e' & Hwr & H1 & H2 & H3 & _ & H5).
  unfold write_u64. by rewrite Hwr.
Qed.

Lemma chain_same e e' l : ∀ a, (∀ x, x ∈ l → get64 e' x = get64 e x) → chain e a l → chain e' a l.
Proof.
  induction l as [|x l IH]; intros a Hs Hc; simpl in *; [done|]. destruct Hc as [-> Hc].
  split; [done|]. rewrite Hs by (by left). apply IH; [|done]. intros y Hy. apply Hs. by right.
Qed.

(** ** Where the words lie *)

Section Layout.
Context (e : E) (h ha : GuestHeap) (ctrl : Z) (Hrep : represents e h ha ctrl).

Lemma ctrl_word i : (i < 24)%nat → head_va ctrl i = head_word ctrl i ∧ word_rw e (head_word ctrl i).
Proof.
  intros Hi. destruct (rp_place _ _ _ _ Hrep) as [Hc0 Hp]. pose proof (hw_range _ (rp_wf _ _ _ _ Hrep)) as Hr.
  pose proof (rp_rw _ _ _ _ Hrep) as Hrw. unfold head_va, head_word, word_rw, wrap64, ctrl_size in *.
  assert (ctrl + 200 < u64_lim) by lia. split.
  - rewrite (Z.mod_small (ctrl + 8)), (Z.mod_small (Z.of_nat i * 8)), Z.mod_small; lia.
  - split_and!; [lia|lia|]. intros x Hx. apply Hrw. left. lia.
Qed.

Lemma bump_word : word_rw e ctrl.
Proof.
  destruct (rp_place _ _ _ _ Hrep) as [Hc0 Hp]. pose proof (hw_range _ (rp_wf _ _ _ _ Hrep)) as Hr.
  pose proof (rp_rw _ _ _ _ Hrep) as Hrw. unfold word_rw, ctrl_size in *.
  split_and!; [lia|lia|]. intros x Hx. apply Hrw. left. lia.
Qed.

(** A block of the heap: its header and first word are accessible, 16-aligned. *)
Lemma block_place b : b ∈ blocks ha →
  b.1 mod 16 = 0 ∧ hp_base ha + 8 ≤ b.1 ∧ b.1 + 16 ≤ hp_end ha ∧ word_rw e b.1 ∧
  header_va b.1 = b.1 - 8 ∧ word_rw e (b.1 - 8).
Proof.
  intros Hb. pose proof (hw_blocks _ (rp_wf _ _ _ _ Hrep)) as Hbl. rewrite Forall_forall in Hbl.
  destruct (Hbl b Hb) as (H1 & H2 & H3 & H4 & H5).
  pose proof (hw_range _ (rp_wf _ _ _ _ Hrep)) as Hr. pose proof (rp_rw _ _ _ _ Hrep) as Hrw.
  unfold word_rw, header_va, wrap64. rewrite (Z.mod_small (b.1 - 8)) by lia.
  split_and!; try lia; intros x Hx; apply Hrw; right; lia.
Qed.

Lemma free_in_blocks i l x s :
  free_lists ha !! i = Some l → class_size i s → x ∈ l → (x, s) ∈ blocks ha.
Proof.
  intros Hl Hs Hx. unfold blocks, class_blocks. rewrite !elem_of_app. right. left.
  rewrite list_elem_of_In, in_concat. exists (with_size s l). split.
  - apply list_elem_of_In. apply list_elem_of_lookup. exists i. rewrite lookup_zip_with.
    unfold class_size in Hs. by rewrite Hs, Hl.
  - apply list_elem_of_In. apply list_elem_of_fmap. by exists x.
Qed.

Lemma class_of_list i l : free_lists ha !! i = Some l → ∃ s, class_size i s.
Proof.
  intros Hl. apply lookup_lt_Some in Hl. rewrite (hw_classes _ (rp_wf _ _ _ _ Hrep)) in Hl.
  unfold class_size. apply lookup_lt_is_Some_2. done.
Qed.

Lemma free_place i l x : free_lists ha !! i = Some l → x ∈ l →
  x mod 16 = 0 ∧ hp_base ha + 8 ≤ x ∧ x + 16 ≤ hp_end ha ∧ word_rw e x.
Proof.
  intros Hl Hx. destruct (class_of_list i l Hl) as [s Hs].
  by destruct (block_place (x, s) (free_in_blocks i l x s Hl Hs Hx)) as (? & ? & ? & ? & _).
Qed.
End Layout.

(** The words the representation reads: the cursor, the heads and the first
    words of blocks.  A size header is none of them, and they are disjoint. *)
Definition payload_word ha (b : Z) : Prop := b mod 16 = 0 ∧ hp_base ha + 8 ≤ b ∧ b + 16 ≤ hp_end ha.

Lemma header_apart ha a b :
  a mod 16 = 0 → payload_word ha b → b + 8 ≤ a - 8 ∨ a ≤ b.
Proof.
  intros Ha (Hb & _ & _). pose proof (Z.div_mod a 16). pose proof (Z.div_mod b 16). lia.
Qed.

Lemma ctrl_apart e h ha ctrl b n :
  represents e h ha ctrl → 0 ≤ n < 25 → hp_base ha ≤ b → b + 8 ≤ hp_end ha →
  b + 8 ≤ ctrl + 8 * n ∨ ctrl + 8 * n + 8 ≤ b.
Proof. intros Hrep Hn Hb He. destruct (rp_place _ _ _ _ Hrep). unfold ctrl_size in *. lia. Qed.

Lemma represents_read e e' h ha ctrl :
  represents e h ha ctrl → mem_inv e' → (∀ b, get64 e' b = get64 e b) →
  (∀ x, mem_rw e' x ↔ mem_rw e x) → represents e' h ha ctrl.
Proof.
  intros [H1 H2 H3 H4 H5 H6 H7 H8] Hi Hg Hrw. split; try done.
  - intros x Hx. by apply Hrw, H6.
  - by rewrite Hg.
  - intros i l Hl. rewrite Hg. apply (chain_same e); [done|by apply H8].
Qed.

Lemma represents_set_bump e h ha ctrl b :
  represents e h ha ctrl → represents e (set_bump b h) ha ctrl.
Proof. by intros [H1 H2 H3 H4 H5 H6 H7 H8]; split. Qed.

(** Writing the size header of a block changes nothing the representation reads. *)
Lemma write_header e h ha ctrl a v :
  represents e h ha ctrl → payload_word ha a → in_u64 v →
  represents (write_u64 (header_va a) v e) h ha ctrl ∧
  get64 (write_u64 (header_va a) v e) (a - 8) = v.
Proof.
  intros Hrep (Ha & Hlo & Hhi) Hv. pose proof (hw_range _ (rp_wf _ _ _ _ Hrep)) as Hr.
  assert (Hhv : header_va a = a - 8) by (unfold header_va, wrap64; rewrite Z.mod_small; lia).
  rewrite Hhv.
  destruct (write_u64_spec e (a - 8) v (rp_inv _ _ _ _ Hrep)) as (Hi & Hrw & Hw & Hfr); [|done|].
  { split_and!; [lia..|]. intros x Hx. apply (rp_rw _ _ _ _ Hrep). right. lia. }
  split; [|done]. destruct Hrep as [H1 H2 H3 H4 H5 H6 H7 H8] eqn:Eq. pose proof Hrep as Hrep'. clear Eq.
  split; try done.
  - intros x Hx. by apply Hrw, H6.
  - rewrite Hfr; [done|]. destruct (ctrl_apart e h ha ctrl (a - 8) 0 Hrep'); lia.
  - intros i l Hl. assert (Hi24 : (i < 24)%nat).
    { apply lookup_lt_Some in Hl. by rewrite (hw_classes _ H2) in Hl. }
    rewrite (Hfr (head_word ctrl i)).
    + apply (chain_same e); [|by apply H8]. intros x Hx. apply Hfr.
      destruct (free_place e h ha ctrl Hrep' i l x Hl Hx) as (Hm & Hb & He & _).
      destruct (header_apart ha a x Ha); [by split|lia..].
    + unfold head_word. destruct (ctrl_apart e h ha ctrl (a - 8) (1 + Z.of_nat i) Hrep'); lia.
Qed.

(** Popping the head of a class. *)
Lemma pop_refines e h ha ctrl i s a rest :
  represents e h ha ctrl → class_size i s → free_lists ha !! i = Some (a :: rest) → block_size s →
  represents (write_u64 (head_word ctrl i) (get64 e a) e) (set_live (<[a := s]> (live h)) h)
    (set_live (<[a := s]> (live ha)) (set_free_lists (<[i := rest]> (free_lists ha)) ha)) ctrl.
Proof.
  intros Hrep Hi Hl Hs. pose proof (rp_chains _ _ _ _ Hrep i _ Hl) as [Hhd Hch].
  destruct (class_size_spec _ _ Hi) as (Hi24 & _).
  destruct (ctrl_word e h ha ctrl Hrep i Hi24) as [_ Hword].
  assert (Hnext : in_u64 (get64 e a)).
  { destruct rest as [|y rest]; simpl in Hch; [by rewrite Hch|]. destruct Hch as [-> _].
    destruct (free_place e h ha ctrl Hrep i _ y Hl) as (_ & ? & ? & _); [set_solver|].
    pose proof (hw_range _ (rp_wf _ _ _ _ Hrep)). unfold in_u64. lia. }
  destruct (write_u64_spec e _ _ (rp_inv _ _ _ _ Hrep) Hword Hnext) as (Hi' & Hrw & Hw & Hfr).
  destruct (pop_class_spec ha i s a rest (rp_wf _ _ _ _ Hrep) Hi Hs Hl) as [_ Hal].
  assert (Hfree : ∀ j l x, free_lists ha !! j = Some l → x ∈ l →
    get64 (write_u64 (head_word ctrl i) (get64 e a) e) x = get64 e x).
  { intros j l x Hj Hx. apply Hfr. destruct (free_place e h ha ctrl Hrep j l x Hj Hx) as (_ & ? & ? & _).
    unfold head_word. destruct (ctrl_apart e h ha ctrl x (1 + Z.of_nat i) Hrep); lia. }
  destruct Hrep as [H1 H2 H3 (H4a & H4b & H4c & H4d) H5 H6 H7 H8]. split; simpl; try done.
  - apply Hal.
  - split_and!; try done. by rewrite H4d.
  - intros x Hx. by apply Hrw, H6.
  - rewrite Hfr; [done|]. unfold head_word. lia.
  - intros j l Hj. destruct (decide (j = i)) as [->|Hne].
    + rewrite list_lookup_insert_eq in Hj by (by eapply lookup_lt_Some). injection Hj as <-.
      rewrite Hw. apply (chain_same e); [|done]. intros x Hx. apply (Hfree i _ x Hl). by right.
    + rewrite list_lookup_insert_ne in Hj by done. rewrite Hfr by (unfold head_word; lia).
      apply (chain_same e); [|by apply H8]. intros x Hx. by apply (Hfree j l x).
Qed.
(** Publishing a block that did not come from a free list: header, then cursor. *)
Lemma commit_refines e h h' ha ha' ctrl a r :
  represents e h ha ctrl → allocated ha ha' a r → in_u64 r → 16 ≤ r → free_lists ha' = free_lists ha →
  guest_ctrl_va h' = Some ctrl → hp_base h' = hp_base ha' → hp_end h' = hp_end ha' →
  large_free h' = large_free ha' → live h' = live ha' → bump h' = bump ha' →
  let e' := write_u64 ctrl (bump h') (write_u64 (header_va a) r e) in
  represents e' h' ha' ctrl ∧ get64 e' (a - 8) = r.
Proof.
  intros Hrep Hal Hr Hr16 Hfl Hg Hb He Hla Hli Hbu. destruct (al_block _ _ _ _ Hal) as (Ha & Hlo & Hhi).
  destruct (al_frame _ _ _ _ Hal) as (Hfb & Hfe & Hfg).
  destruct (write_header e h ha ctrl a r Hrep) as [Hrep1 Hhd]; [split_and!; [done..|lia]|done|].
  set (e1 := write_u64 (header_va a) r e) in *.
  pose proof (hw_range _ (al_wf _ _ _ _ Hal)) as Hr'.
  destruct (write_u64_spec e1 ctrl (bump h') (rp_inv _ _ _ _ Hrep1)) as (Hi & Hrw & Hw & Hfr);
    [by eapply bump_word|rewrite Hbu; unfold in_u64; lia|].
  assert (Hap : ∀ b, hp_base ha ≤ b → b + 8 ≤ hp_end ha → b + 8 ≤ ctrl ∨ ctrl + 8 ≤ b).
  { intros b Hb1 Hb2. destruct (ctrl_apart e1 h ha ctrl b 0 Hrep1); lia. }
  split; [|rewrite Hfr; [done|]; destruct (Hap (a - 8)); lia].
  split; try done.
  - apply Hal.
  - by rewrite Hfg; destruct (rp_attached _ _ _ _ Hrep).
  - rewrite Hfb, Hfe. apply (rp_place _ _ _ _ Hrep).
  - rewrite Hfb, Hfe. intros x Hx. by apply Hrw, (rp_rw _ _ _ _ Hrep1).
  - by rewrite Hw.
  - intros i l Hl. rewrite Hfl in Hl. rewrite Hfr by (unfold head_word; lia).
    apply (chain_same e1); [|by apply (rp_chains _ _ _ _ Hrep1)]. intros x Hx. apply Hfr.
    destruct (free_place e1 h ha ctrl Hrep1 i l x Hl Hx) as (_ & ? & ? & _). destruct (Hap x); lia.
Qed.

(** [bump_alloc] and the large path depend only on what both heaps share. *)
Definition agree h ha : Prop :=
  hp_base h = hp_base ha ∧ hp_end h = hp_end ha ∧ large_free h = large_free ha ∧
  live h = live ha ∧ bump h = bump ha.

Lemma bump_alloc_agree h ha r :
  agree h ha →
  (bump_alloc r h).2 = (bump_alloc r ha).2 ∧ agree (bump_alloc r h).1 (bump_alloc r ha).1 ∧
  guest_ctrl_va (bump_alloc r h).1 = guest_ctrl_va h ∧
  free_lists (bump_alloc r ha).1 = free_lists ha.
Proof.
  intros (Hb & He & Hla & Hli & Hbu). unfold bump_alloc, agree. rewrite Hb, He, Hli, Hbu.
  repeat (case_match || case_decide); simpl; split_and!; congruence.
Qed.

Lemma alloc_large_agree h ha size :
  agree h ha → round_up_size size ≠ 0 → LARGE_THRESHOLD < round_up_size size → size ≠ 0 →
  (alloc size h).2 = (alloc size ha).2 ∧ agree (alloc size h).1 (alloc size ha).1 ∧
  guest_ctrl_va (alloc size h).1 = guest_ctrl_va h ∧ free_lists (alloc size ha).1 = free_lists ha.
Proof.
  intros Hag Hr Hlarge Hs. pose proof (bump_alloc_agree h ha (round_up_size size) Hag) as Hbump.
  unfold alloc. rewrite !(decide_False (P := size = 0)), !(decide_False (P := round_up_size size = 0)),
    !(decide_False (P := round_up_size size ≤ LARGE_THRESHOLD)) by lia.
  destruct Hag as (Hb & He & Hla & Hli & Hbu). rewrite Hla.
  destruct (find_large_fit _ (large_free ha)) as [i|]; [|done].
  destruct (large_free ha !! i) as [b|]; [|done].
  unfold take_large, agree. rewrite Hla, Hli. simpl. done.
Qed.

Lemma alloc_small ha size :
  size ≠ 0 → round_up_size size ≠ 0 → round_up_size size ≤ LARGE_THRESHOLD →
  alloc size ha =
    match free_lists ha !! size_class_index (round_up_size size) with
    | Some (addr :: rest) =>
        (set_live (<[addr := round_up_size size]> (live ha))
           (set_free_lists (<[size_class_index (round_up_size size) := rest]> (free_lists ha)) ha), addr)
    | _ => bump_alloc (round_up_size size) ha
    end.
Proof. intros. unfold alloc. by rewrite !decide_False, decide_True by done. Qed.

(** Taking the cursor over from the guest. *)
Lemma sync_bump_spec e h ha ctrl :
  represents e h ha ctrl →
  ∃ e', sync_bump_from_guest e h = (e', set_bump (bump ha) h) ∧
    represents e' (set_bump (bump ha) h) ha ctrl ∧ agree (set_bump (bump ha) h) ha.
Proof.
  intros Hrep. destruct (rp_attached _ _ _ _ Hrep) as [Hg _].
  destruct (rp_same _ _ _ _ Hrep) as (Hb & He & Hla & Hli).
  destruct (read_u64_spec e ctrl (rp_inv _ _ _ _ Hrep)) as (e' & Hr & Hi & Hsame & Hrw);
    [by eapply bump_word|].
  exists e'. unfold sync_bump_from_guest. rewrite Hg, Hr, (rp_bump _ _ _ _ Hrep).
  split; [done|]. split; [|done]. apply represents_set_bump. by apply (represents_read e).
Qed.

(** The end of the bump and large paths of [alloc_coherent]. *)
Lemma publish_refines e h1 ha ctrl h' ha' a a' r :
  represents e h1 ha ctrl → heap_wf ha →
  a = a' → agree h' ha' → guest_ctrl_va h' = Some ctrl → free_lists ha' = free_lists ha →
  (a' = 0 ∧ ha' = ha) ∨ (0 < a' ∧ allocated ha ha' a' r) → block_size r → live h' !! a = live ha' !! a →
  let e' := if decide (a ≠ 0) then sync_bump_to_guest (write_u64 (header_va a) r e) h' else e in
  represents e' h' ha' ctrl ∧ (a ≠ 0 → get64 e' (a - 8) = r).
Proof.
  intros Hrep Hwf -> (Hb & He & Hla & Hli & Hbu) Hg Hfl [[-> ->]|[Hpos Hal]] (_ & Hr & _) _.
  - rewrite decide_False by naive_solver. split; [|done].
    destruct Hrep as [H1 H2 H3 H4 H5 H6 H7 H8]. split; try done. by destruct H3.
  - rewrite decide_True by lia. unfold sync_bump_to_guest. rewrite Hg.
    destruct (commit_refines e h1 h' ha ha' ctrl a' r); try done; [unfold in_u64; lia|lia].
Qed.

(** [alloc_coherent] simulates [alloc]. *)
Lemma alloc_coherent_holds e h ha ctrl size :
  represents e h ha ctrl → in_u64 size →
  let '(e', h', a) := alloc_coherent size e h in
  let '(ha', a') := alloc size ha in
  a = a' ∧ represents e' h' ha' ctrl ∧ (a ≠ 0 → get64 e' (a - 8) = round_up_size size).
Proof.
  intros Hrep Hsz. pose proof (rp_wf _ _ _ _ Hrep) as Hwf. pose proof (alloc_holds ha size Hwf Hsz) as Hspec.
  unfold alloc_coherent. destruct (rp_attached _ _ _ _ Hrep) as [Hg Hga]. rewrite Hg.
  destruct (decide (size = 0)) as [Hz|Hz].
  { unfold alloc. rewrite decide_True by done. done. }
  destruct (decide (round_up_size size = 0)) as [Hr0|Hr0].
  { unfold alloc. rewrite decide_False, decide_True by done. done. }
  destruct (round_up_block_size size) as [_ Hbs]; [unfold in_u64 in Hsz; lia|done|].
  set (r := round_up_size size) in *.
  destruct (decide (r ≤ LARGE_THRESHOLD)) as [Hsmall|Hlarge].
  - pose proof Hbs as (_ & Hrb & Hcl). specialize (Hcl Hsmall).
    destruct (class_size_spec _ _ Hcl) as (Hi & _).
    destruct (ctrl_word e h ha ctrl Hrep _ Hi) as [-> Hword].
    destruct (read_u64_spec e _ (rp_inv _ _ _ _ Hrep) Hword) as (e1 & -> & Hi1 & Hsame1 & Hrw1).
    pose proof (represents_read e e1 h ha ctrl Hrep Hi1 Hsame1 Hrw1) as Hrep1.
    destruct (lookup_lt_is_Some_2 (free_lists ha) (size_class_index r)) as [l Hl];
      [by rewrite (hw_classes _ Hwf)|].
    pose proof (rp_chains _ _ _ _ Hrep1 _ _ Hl) as Hch. rewrite Hsame1 in Hch.
    rewrite (alloc_small ha size Hz Hr0 Hsmall) in *. fold r in Hspec |- *. rewrite Hl in *.
    destruct l as [|a rest].
    + (* empty class: bump *)
      simpl in Hch. rewrite Hch. unfold usable_head. rewrite (bool_decide_eq_false_2 (0 ≠ 0)) by naive_solver.
      cbn [andb]. destruct (sync_bump_spec e1 h ha ctrl Hrep1) as (e2 & -> & Hrep2 & Hag).
      pose proof (bump_alloc_agree _ _ r Hag) as Hba. 
      destruct (bump_alloc r (set_bump (bump ha) h)) as [h' a], (bump_alloc r ha) as [ha' a'].
      destruct Hba as (Ha & Hag' & Hg' & Hfl'). simpl in *. split; [done|].
      apply (publish_refines e2 (set_bump (bump ha) h) ha ctrl h' ha' a a' r); try done.
      * by rewrite Hg'.
      * destruct Hspec as [(-> & -> & _)|(? & _ & ?)]; [by left|by right].
      * by destruct Hag' as (_ & _ & _ & -> & _).
    + (* pop the chain *)
      destruct Hch as [Hhd Hch]. rewrite Hhd.
      destruct (free_place e1 h ha ctrl Hrep1 _ _ a Hl) as (Ham & Hlo & Hhi & Haw); [by left|].
      destruct (rp_same _ _ _ _ Hrep) as (Hb & He & _).
      pose proof (hw_range _ Hwf) as Hrange.
      unfold usable_head. rewrite !bool_decide_eq_true_2 by lia. cbn [andb].
      destruct (read_u64_spec e1 a Hi1 Haw) as (e2 & -> & Hi2 & Hsame2 & Hrw2). cbn [default].
      pose proof (represents_read e1 e2 h ha ctrl Hrep1 Hi2 Hsame2 Hrw2) as Hrep2.
      rewrite <- Hsame2.
      pose proof (pop_refines e2 h ha ctrl _ r a rest Hrep2 Hcl Hl Hbs) as Hrep3.
      split; [done|]. 
      destruct (write_header _ _ _ ctrl a r Hrep3) as [Hrep4 Hhead];
        [split_and!; simpl; [done|lia..]|unfold in_u64; lia|]. done.
  - (* large *)
    destruct (sync_bump_spec e h ha ctrl Hrep) as (e1 & -> & Hrep1 & Hag).
    destruct (alloc_large_agree _ _ size Hag Hr0 ltac:(fold r; lia) Hz) as (Ha & Hag' & Hg' & Hfl').
    destruct (alloc size (set_bump (bump ha) h)) as [h' a], (alloc size ha) as [ha' a'].
    simpl in *. subst a'. split; [done|].
    destruct (decide (a ≠ 0)) as [Hne|Hzero].
    + destruct Hspec as [(-> & _)|(Hpos & _ & Hal)]; [done|].
      assert (Hlive : live h' !! a = Some r).
      { destruct Hag' as (_ & _ & _ & -> & _). rewrite (al_live _ _ _ _ Hal). apply lookup_insert_eq. }
      rewrite Hlive.
      destruct (publish_refines e1 (set_bump (bump ha) h) ha ctrl h' ha' a a r Hrep1 Hwf) as [Hrep' Hhd]; try done;
        [by rewrite Hg'|by right|by destruct Hag' as (_ & _ & _ & -> & _)|].
      rewrite decide_True in Hrep', Hhd by done. done.
    + apply dec_stable in Hzero. subst a.
      destruct (publish_refines e1 (set_bump (bump ha) h) ha ctrl h' ha' 0 0 r Hrep1 Hwf) as [Hrep' _]; try done;
        [by rewrite Hg'|destruct Hspec as [(_ & -> & _)|(? & _)]; [by left|lia]|
         by destruct Hag' as (_ & _ & _ & -> & _)].
Qed.
(** ** Freeing *)

Lemma live_place e h ha ctrl a s :
  represents e h ha ctrl → live ha !! a = Some s →
  payload_word ha a ∧ word_rw e a ∧ in_u64 a ∧ a ≠ 0.
Proof.
  intros Hrep Ha. apply live_blocks in Ha.
  destruct (block_place e h ha ctrl Hrep (a, s) Ha) as (H1 & H2 & H3 & H4 & _). simpl in *.
  pose proof (hw_range _ (rp_wf _ _ _ _ Hrep)). split_and!; try done; unfold in_u64; lia.
Qed.

(** A live block is on no free list. *)
Lemma live_not_free e h ha ctrl a s i l x :
  represents e h ha ctrl → live ha !! a = Some s → free_lists ha !! i = Some l → x ∈ l →
  x + 8 ≤ a ∨ a + 8 ≤ x.
Proof.
  intros Hrep Ha Hl Hx. destruct (class_of_list e h ha ctrl Hrep i l Hl) as [t Ht].
  destruct (free_place e h ha ctrl Hrep i l x Hl Hx) as (Hm & _).
  destruct (live_place e h ha ctrl a s Hrep Ha) as ((Ham & _) & _).
  assert (x ≠ a).
  { intros ->. assert (Hin : (a, t) ∈ class_blocks (free_lists ha)).
    { unfold class_blocks. rewrite list_elem_of_In, in_concat. exists (with_size t l). split.
      - apply list_elem_of_In, list_elem_of_lookup. exists i. rewrite lookup_zip_with.
        unfold class_size in Ht. by rewrite Ht, Hl.
      - apply list_elem_of_In, list_elem_of_fmap. by exists a. }
    rewrite (free_not_live ha a t (rp_wf _ _ _ _ Hrep)) in Ha; [done|]. apply elem_of_app. by left. }
  pose proof (Z.div_mod x 16). pose proof (Z.div_mod a 16). lia.
Qed.

(** The link word of a block that is not on a free list yet. *)
Lemma write_link e h ha ctrl a s v :
  represents e h ha ctrl → live ha !! a = Some s → in_u64 v →
  represents (write_u64 a v e) h ha ctrl ∧ get64 (write_u64 a v e) a = v ∧
  ∀ i, (i < 24)%nat → get64 (write_u64 a v e) (head_word ctrl i) = get64 e (head_word ctrl i).
Proof.
  intros Hrep Ha Hv. destruct (live_place e h ha ctrl a s Hrep Ha) as ((_ & Hlo & Hhi) & Haw & _).
  destruct (write_u64_spec e a v (rp_inv _ _ _ _ Hrep) Haw Hv) as (Hi & Hrw & Hw & Hfr).
  assert (Hhead : ∀ i, (i < 24)%nat →
    get64 (write_u64 a v e) (head_word ctrl i) = get64 e (head_word ctrl i)).
  { intros i Hi24. apply Hfr. unfold head_word.
    destruct (ctrl_apart e h ha ctrl a (1 + Z.of_nat i) Hrep); lia. }
  split; [|done]. pose proof Hrep as Hrep'. destruct Hrep' as [H1 H2 H3 H4 H5 H6 H7 H8]. split; try done.
  - intros x Hx. by apply Hrw, H6.
  - rewrite Hfr; [done|]. destruct (ctrl_apart e h ha ctrl a 0 Hrep); lia.
  - intros i l Hl. assert (Hi24 : (i < 24)%nat).
    { apply lookup_lt_Some in Hl. by rewrite (hw_classes _ H2) in Hl. }
    rewrite Hhead by done. apply (chain_same e); [|by apply H8]. intros x Hx. apply Hfr.
    by eapply live_not_free.
Qed.

(** Pushing a block whose link already holds the old head. *)
Lemma push_refines e h ha ctrl a s :
  represents e h ha ctrl → live ha !! a = Some s → s ≤ LARGE_THRESHOLD →
  get64 e a = get64 e (head_word ctrl (size_class_index s)) →
  represents (write_u64 (head_word ctrl (size_class_index s)) a e) (set_live (delete a (live h)) h)
    (released_block ha a s) ctrl.
Proof.
  intros Hrep Ha Hle Hlink. pose proof (rp_wf _ _ _ _ Hrep) as Hwf.
  destruct (hw_live _ Hwf a s Ha) as (_ & _ & Hc). specialize (Hc Hle).
  destruct (class_size_spec _ _ Hc) as (Hi24 & _). set (i := size_class_index s) in *.
  destruct (live_place e h ha ctrl a s Hrep Ha) as ((_ & Hlo & Hhi) & _ & Hau & _).
  destruct (ctrl_word e h ha ctrl Hrep i Hi24) as [_ Hword].
  destruct (write_u64_spec e _ a (rp_inv _ _ _ _ Hrep) Hword Hau) as (Hi & Hrw & Hw & Hfr).
  assert (Hregion : ∀ x, hp_base ha ≤ x → x + 8 ≤ hp_end ha →
    get64 (write_u64 (head_word ctrl i) a e) x = get64 e x).
  { intros x Hx1 Hx2. apply Hfr. unfold head_word.
    destruct (ctrl_apart e h ha ctrl x (1 + Z.of_nat i) Hrep); lia. }
  assert (Hfree : ∀ j l x, free_lists ha !! j = Some l → x ∈ l →
    get64 (write_u64 (head_word ctrl i) a e) x = get64 e x).
  { intros j l x Hj Hx. destruct (free_place e h ha ctrl Hrep j l x Hj Hx) as (_ & ? & ? & _). apply Hregion; lia. }
  pose proof (released_block_wf ha a s Hwf Ha) as Hwf'.
  destruct Hrep as [H1 H2 H3 (H4a & H4b & H4c & H4d) H5 H6 H7 H8].
  unfold released_block in *. rewrite decide_True in * by done. split; simpl; try done.
  - by rewrite H4d.
  - intros x Hx. by apply Hrw, H6.
  - rewrite Hfr; [done|]. unfold head_word. lia.
  - fold i. intros j l Hj. destruct (decide (j = i)) as [->|Hne].
    + rewrite list_lookup_alter_eq in Hj. destruct (free_lists ha !! i) as [l0|] eqn:El; [|done].
      injection Hj as <-. rewrite Hw. split; [done|]. rewrite Hregion by lia. rewrite Hlink.
      apply (chain_same e); [|by apply H8]. intros x Hx. by apply (Hfree i l0 x).
    + rewrite list_lookup_alter_ne in Hj by done. rewrite Hfr by (unfold head_word; lia).
      apply (chain_same e); [|by apply H8]. intros x Hx. by apply (Hfree j l x).
Qed.

(** A head word is a machine word: null or the address of a block. *)
Lemma head_in_u64 e h ha ctrl i : represents e h ha ctrl → (i < 24)%nat → in_u64 (get64 e (head_word ctrl i)).
Proof.
  intros Hrep Hi. destruct (lookup_lt_is_Some_2 (free_lists ha) i) as [l Hl];
    [by rewrite (hw_classes _ (rp_wf _ _ _ _ Hrep))|].
  pose proof (rp_chains _ _ _ _ Hrep i l Hl) as Hch. destruct l as [|x l]; simpl in Hch; [by rewrite Hch|].
  destruct Hch as [-> _]. destruct (free_place e h ha ctrl Hrep i _ x Hl) as (_ & ? & ? & _); [by left|].
  pose proof (hw_range _ (rp_wf _ _ _ _ Hrep)). unfold in_u64. lia.
Qed.

Lemma released_payload ha a s x : payload_word ha x → payload_word (released_block ha a s) x.
Proof. unfold payload_word, released_block. by case_decide. Qed.

(** Freeing a live block of the shared heap simulates [free] of the
    host-only heap, whether the block goes back to a chain in guest memory or
    to the large list, and clears its size header, so a second free of the
    same address is refused and changes no list. *)
Theorem free_coherent_refines e h ha ctrl a s :
  represents e h ha ctrl → live ha !! a = Some s →
  let '(e', h', ok) := free_coherent a e h in
  ok = true ∧ (free a ha).2 = true ∧ represents e' h' (free a ha).1 ctrl ∧
  (free_coherent a e' h').2 = false ∧ (free_coherent a e' h').1.2 = h'.
Proof.
  intros Hrep Ha. destruct (live_place e h ha ctrl a s Hrep Ha) as (Hpl & Haw & Hau & Hne).
  destruct (rp_attached _ _ _ _ Hrep) as [Hg _]. destruct (rp_same _ _ _ _ Hrep) as (Hb & He & Hla & Hli).
  assert (Hfree : free a ha = (released_block ha a s, true)).
  { unfold free, released_block. by rewrite decide_False, Ha by done. }
  destruct (hw_live _ (rp_wf _ _ _ _ Hrep) a s Ha) as (_ & Hs & Hc).
  pose proof (hw_range _ (rp_wf _ _ _ _ Hrep)) as Hrange.
  assert (Hfin : ∀ e1 h1, represents e1 h1 (released_block ha a s) ctrl → live h1 = delete a (live h) →
    let e' := write_u64 (header_va a) 0 e1 in
    represents e' h1 (released_block ha a s) ctrl ∧
    (free_coherent a e' h1).2 = false ∧ (free_coherent a e' h1).1.2 = h1).
  { intros e1 h1 Hrep1 Hl1.
    destruct (write_header e1 h1 _ ctrl a 0 Hrep1) as [Hrep2 Hhd];
      [by apply released_payload|done|]. split; [done|].
    unfold free_coherent. rewrite decide_False by done. destruct (rp_attached _ _ _ _ Hrep2) as [-> _].
    rewrite Hl1, lookup_delete_eq. destruct (_ && _); [|done].
    destruct Hpl as (Hm & Hlo & Hhi).
    assert (Hhv : header_va a = a - 8) by (unfold header_va, wrap64; rewrite Z.mod_small; lia).
    rewrite Hhv in *. destruct (read_u64_spec (write_u64 (a - 8) 0 e1) (a - 8)) as (e3 & -> & _).
    - apply Hrep2.
    - split_and!; [lia..|]. intros x Hx. apply (rp_rw _ _ _ _ Hrep2). right.
      unfold released_block. case_decide; simpl; lia.
    - rewrite Hhd. by rewrite decide_False by naive_solver. }
  rewrite Hfree. unfold free_coherent at 1. rewrite decide_False by done. rewrite Hg, Hli, Ha.
  unfold free_known_block. rewrite decide_False by lia.
  destruct (decide (LARGE_THRESHOLD < s)) as [Hlarge|Hsmall].
  - destruct (Hfin e (push_large a s (set_live (delete a (live ha)) h))) as (H1 & H2 & H3); [|by rewrite Hli|].
    { pose proof (released_block_wf ha a s (rp_wf _ _ _ _ Hrep) Ha) as Hwf'. 
      unfold released_block in *. rewrite decide_False in * by lia.
      destruct Hrep as [G1 G2 G3 G4 G5 G6 G7 G8]. split; simpl; try done. by rewrite Hla. }
    done.
  - destruct (class_size_spec _ _ (Hc ltac:(lia))) as (Hi24 & _).
    destruct (ctrl_word e h ha ctrl Hrep _ Hi24) as [-> Hword].
    destruct (read_u64_spec e _ (rp_inv _ _ _ _ Hrep) Hword) as (e1 & -> & Hi1 & Hsame1 & Hrw1).
    pose proof (represents_read e e1 h ha ctrl Hrep Hi1 Hsame1 Hrw1) as Hrep1. cbn [default]. rewrite <- Hsame1.
    destruct (write_link e1 h ha ctrl a s (get64 e1 (head_word ctrl (size_class_index s))) Hrep1 Ha)
      as (Hrep2 & Hw & Hh); [by apply (head_in_u64 e1 h ha ctrl)|].
    rewrite <- Hh in Hw by done. rewrite <- Hh by done.
    pose proof (push_refines _ h ha ctrl a s Hrep2 Ha ltac:(lia)) as Hrep3. rewrite Hh in * by done.
    specialize (Hrep3 Hw). rewrite Hli in Hrep3.
    destruct (Hfin _ _ Hrep3) as (G1 & G2 & G3); [by simpl; rewrite Hli|done].
Qed.

(** C39 Allocation from the shared heap (chains in guest memory, cursor in the
    control block) returns the same address as [alloc] of the host-only heap it
    stands for, leaves a state that stands for that heap's next state, and
    writes the block's size header. *)
Theorem alloc_coherent_refines e h ha ctrl size :
  represents e h ha ctrl → in_u64 size →
  let '(e', h', a) := alloc_coherent size e h in
  let '(ha', a') := alloc size ha in
  a = a' ∧ represents e' h' ha' ctrl ∧ (a ≠ 0 → get64 e' (a - 8) = round_up_size size).
Proof. apply alloc_coherent_holds. Qed.
End Refinement.

(** * Concrete heaps

    A heap on the model's own guest memory: instances of the heap theorems,
    and the run on which the header of a split large block lands inside the
    block before it. *)

From S2P Require Import Prelude protect pagemap vad arena region mem mem_access mem_ops mem_safe mem_demo.
From S2P Require Import engine.

#[local] Existing Instance demo_os.
#[local] Existing Instance demo_laws.

(** One megabyte of read-write memory: control block first, then the heap. *)
Definition demo_ctrl : Z := 0x100000000.
Definition demo_base : Z := 0x100001000.
Definition demo_end : Z := 0x100100000.

Definition heap_mem0 : GuestMemory :=
  (virtual_alloc 0 0x100000 0x3000 PAGE_READWRITE (gm_new Host_empty)).1.
Definition heap_mem : GuestMemory := write_u64 demo_ctrl demo_base heap_mem0.
Definition host_heap : GuestHeap := heap_new demo_base demo_end.
Definition shared_heap : GuestHeap := attach_guest_control demo_ctrl host_heap.

Lemma host_heap_wf : heap_wf host_heap.
Proof. split; simpl; [unfold demo_base, demo_end; lia|done|constructor|constructor|done]. Qed.

Lemma heap_mem0_ok :
  mem_inv heap_mem0 ∧ ∀ x, demo_ctrl ≤ x < demo_end → mem_rw heap_mem0 x.
Proof.
  destruct (gm_new_ok Host_empty) as [Hw Hr]. split.
  - destruct (safe_alloc 0 0x100000 0x3000 PAGE_READWRITE _ Hw Hr) as (Hw' & Hr' & _); [by vm_compute..|].
    split; [exact Hw'|exact (host_rw_grants _ Hr')].
  - intros x Hx. pose proof (va_reserve_and_commit_spec (gm_new Host_empty) 0 0x100000 PAGE_READWRITE Hw) as H.
    assert (Hb : (va_reserve_and_commit 0 0x100000 PAGE_READWRITE (gm_new Host_empty)).2 = Ok demo_ctrl)
      by (clear; by vm_compute).
    change heap_mem0 with (va_reserve_and_commit 0 0x100000 PAGE_READWRITE (gm_new Host_empty)).1.
    destruct (va_reserve_and_commit _ _ _ _) as [g' r]. simpl in Hb. subst r.
    destruct H as (sz & Hsz & _ & Hres); [by vm_compute..|].
    exists PAGE_READWRITE. split; [|by vm_compute]. simpl. rewrite (rs_view _ _ _ _ _ _ _ Hres).
    unfold retagged, PageMap.requested. unfold demo_ctrl, demo_end in *.
    rewrite decide_True; [done|]. split; [apply Z.div_le_mono; lia|].
    apply Z.div_lt_upper_bound; [lia|]. pose proof (rs_range _ _ _ _ _ _ _ Hres) as (_ & _ & Hm & Hm2 & _).
    pose proof (Z.div_mod (0x100000000 + sz) 4096). pose proof (Z.div_mod sz 4096). 
    assert ((0x100000000 + sz) mod 4096 = 0) by (rewrite Zplus_mod, Hm2; done). lia.
Qed.

Lemma shared_heap_represents : represents heap_mem shared_heap host_heap demo_ctrl.
Proof.
  destruct heap_mem0_ok as [Hi Hrw].
  destruct (write_u64_spec heap_mem0 demo_ctrl demo_base Hi) as (Hi' & Hrw' & Hw & _);
    [split_and!; [done..|]; intros x Hx; apply Hrw; unfold demo_ctrl, demo_end in *; lia|by vm_compute|].
  split.
  - exact Hi'.
  - apply host_heap_wf.
  - split; reflexivity.
  - split_and!; reflexivity.
  - simpl. unfold demo_ctrl, demo_base, ctrl_size. lia.
  - intros x Hx. apply Hrw', Hrw. simpl in Hx. unfold demo_ctrl, demo_base, demo_end, ctrl_size in *. lia.
  - exact Hw.
  - intros i l Hl. assert (Hall : forallb (λ i, get64 heap_mem (head_word demo_ctrl i) =? 0) (seq 0 24) = true)
      by (clear; by vm_compute).
    assert (Hi24 : (i < 24)%nat) by (by apply lookup_lt_Some in Hl).
    rewrite forallb_forall in Hall. specialize (Hall i). rewrite <- list_elem_of_In, elem_of_seq, Z.eqb_eq in Hall.
    change (free_lists host_heap) with (replicate 24 ([] : list Z)) in Hl.
    apply lookup_replicate in Hl as [-> _]. simpl. apply Hall. lia.
Qed.

(** ** Instances *)

Definition one_block : GuestHeap := (alloc 100 host_heap).1.

Lemma one_block_wf : heap_wf one_block.
Proof.
  pose proof (alloc_holds host_heap 100 host_heap_wf (in_u64_lit eq_refl)) as H. unfold one_block.
  destruct (alloc 100 host_heap) as [h' a].
  destruct H as [(_ & -> & _)|(_ & _ & H)]; [apply host_heap_wf|apply H].
Qed.

(** A block of 128 bytes that was freed is the one 100 bytes are taken from. *)
Definition one_free : GuestHeap := (free 0x100001010 one_block).1.
Lemma one_free_wf : heap_wf one_free.
Proof.
  assert (Hl : live one_block !! 0x100001010 = Some 128) by (clear; by vm_compute).
  unfold one_free, free. rewrite decide_False, Hl by done. exact (released_block_wf one_block _ 128 one_block_wf Hl).
Qed.
Lemma alloc_spec_witness : ∃ h', alloc 100 one_free = (h', 0x100001010) ∧ allocated one_free h' 0x100001010 128 ∧
  supplied one_free h' 0x100001010 128.
Proof.
  pose proof (alloc_spec one_free 100 one_free_wf (in_u64_lit eq_refl)) as H.
  assert (Ha : (alloc 100 one_free).2 = 0x100001010) by (clear; by vm_compute).
  destruct (alloc 100 one_free) as [h' a]. simpl in Ha. subst a. exists h'. split; [reflexivity|].
  destruct H as [(H & _)|(_ & _ & H & Hs)]; [discriminate H|split; [exact H|exact Hs]].
Defined.

(** The freed block is handed out again. *)
Lemma free_spec_witness : (alloc 120 (free 0x100001010 one_block).1).2 = 0x100001010.
Proof.
  pose proof (free_spec one_block 0x100001010 one_block_wf) as H.
  assert (Hl : live one_block !! 0x100001010 = Some 128) by (clear; by vm_compute). rewrite Hl in H.
  destruct (free 0x100001010 one_block) as [h' ok]. destruct H as (_ & _ & _ & H). apply H; by vm_compute.
Defined.

Lemma alloc_coherent_refines_witness :
  (alloc_coherent 100 heap_mem shared_heap).2 = 0x100001010 ∧
  get64 (alloc_coherent 100 heap_mem shared_heap).1.1 0x100001008 = 128.
Proof.
  pose proof (alloc_coherent_refines heap_mem shared_heap host_heap demo_ctrl 100
    shared_heap_represents (in_u64_lit eq_refl)) as H.
  assert (Ha : (alloc 100 host_heap).2 = 0x100001010) by (clear; by vm_compute).
  destruct (alloc_coherent 100 heap_mem shared_heap) as [[e' h'] a], (alloc 100 host_heap) as [ha' a'].
  simpl in *. subst a'. destruct H as (-> & _ & H). split; [reflexivity|]. apply H. discriminate.
Defined.

Definition shared_one_block : GuestMemory * GuestHeap := (alloc_coherent 100 heap_mem shared_heap).1.

Lemma shared_one_block_represents : represents shared_one_block.1 shared_one_block.2 one_block demo_ctrl.
Proof.
  pose proof (alloc_coherent_holds heap_mem shared_heap host_heap demo_ctrl 100
    shared_heap_represents (in_u64_lit eq_refl)) as H. unfold shared_one_block, one_block.
  destruct (alloc_coherent 100 heap_mem shared_heap) as [[e' h'] a], (alloc 100 host_heap) as [ha' a'].
  apply H.
Qed.

Lemma free_coherent_refines_witness :
  (free_coherent 0x100001010 shared_one_block.1 shared_one_block.2).2 = true.
Proof.
  pose proof (free_coherent_refines _ _ _ _ 0x100001010 128 shared_one_block_represents) as H.
  assert (Hl : live one_block !! 0x100001010 = Some 128) by (clear; by vm_compute). specialize (H Hl).
  destruct (free_coherent 0x100001010 shared_one_block.1 shared_one_block.2) as [[e' h'] ok]. apply H.
Defined.

(** ** Splitting a large block *)

(** Allocate 256 KiB, free it, allocate two blocks of 65552 bytes: the first
    takes the front of the freed block, the second its rest, whose size header is
    the last eight bytes of the first. *)
Definition split_run : GuestMemory * GuestHeap * Z * Z :=
  let '(e, h, a) := alloc_coherent 0x40000 heap_mem shared_heap in
  let '(e, h, _) := free_coherent a e h in
  let '(e, h, b) := alloc_coherent 0x10010 e h in
  let e := write_u64 (b + 0x10010 - 8) 0x1122334455667788 e in
  let '(e, h, c) := alloc_coherent 0x10010 e h in
  (e, h, b, c).

(** The last word of a live block of 65552 bytes, inside the size the guest asked
    for, is overwritten by the size header of the block carved out behind it. *)
Theorem split_header_overlaps :
  let '(e, h, b, c) := split_run in
  live h !! b = Some 0x10010 ∧ live h !! c = Some 0x10010 ∧ c = b + 0x10010 ∧
  get64 e (b + 0x10010 - 8) = 0x10010.
Proof. vm_compute. split_and!; reflexivity. Qed.
