(* ===== verification/path.v ===== *)
(** * Windows paths (crates/wie-winapi/src/vfs/path.rs)

    A [&str] is its UTF-8 bytes, a [list ascii].  Every cut the code makes is
    next to an ASCII separator, so byte positions are character boundaries. *)

From Stdlib Require String.
From S2P Require Import Prelude.

Abbreviation str := (list ascii) (only parsing).

Notation "# s" := (String.list_ascii_of_string s%string) (at level 1, s at level 0, format "# s").

Definition bslash : ascii := "\"%char.
Definition fslash : ascii := "/"%char.
Definition colon : ascii := ":"%char.
Definition quote : ascii := ascii_of_nat 34.

(** ** The string operations of the standard library *)

Definition starts_with (p s : str) : bool := bool_decide (take (length p) s = p).
Definition strip (p s : str) : option str := if starts_with p s then Some (drop (length p) s) else None.
Definition ends_with_char (s : str) (c : ascii) : bool := bool_decide (last s = Some c).

Fixpoint trim_start_matches (f : ascii → bool) (s : str) : str :=
  match s with
  | c :: s' => if f c then trim_start_matches f s' else s
  | [] => []
  end.
Definition trim_end_matches (f : ascii → bool) (s : str) : str := reverse (trim_start_matches f (reverse s)).
Definition trim_matches (f : ascii → bool) (s : str) : str := trim_end_matches f (trim_start_matches f s).

(** The UTF-8 encodings of Unicode White_Space. *)
Definition whitespace : list str :=
  List.map (List.map ascii_of_nat)
    ([[9]; [10]; [11]; [12]; [13]; [32]; [194; 133]; [194; 160]; [225; 154; 128]]
     ++ List.map (λ k, [226; 128; k]) (seq 128 11)
     ++ [[226; 128; 168]; [226; 128; 169]; [226; 128; 175]; [226; 129; 159]; [227; 128; 128]])%nat.

Fixpoint trim_fuel (fuel : nat) (ws : list str) (s : str) : str :=
  match fuel with
  | O => s
  | S n => match List.find (λ w, starts_with w s) ws with
           | Some w => trim_fuel n ws (drop (length w) s)
           | None => s
           end
  end.

(** [str::trim]: every round removes at least a byte, so [length s] rounds suffice. *)
Definition trim (s : str) : str :=
  let s := trim_fuel (length s) whitespace s in
  reverse (trim_fuel (length s) (reverse <$> whitespace) (reverse s)).

(** [str::split(c)] and [str::rsplit(f).next()]. *)
Fixpoint split (c : ascii) (s : str) : list str :=
  match s with
  | [] => [[]]
  | a :: s' =>
      match split c s' with
      | [] => [[]]
      | w :: ws => if decide (a = c) then [] :: w :: ws else (a :: w) :: ws
      end
  end.

Fixpoint after_last (f : ascii → bool) (s acc : str) : str :=
  match s with
  | [] => acc
  | a :: s' => after_last f s' (if f a then s' else acc)
  end.

(** [str::rfind]. *)
Definition rfind (c : ascii) (s : str) : option nat :=
  j ← position (λ a, bool_decide (a = c)) (reverse s); Some (length s - 1 - j)%nat.

Definition to_ascii_lowercase (s : str) : str := ascii_lower <$> s.
Definition ascii_upper (c : ascii) : ascii :=
  let n := nat_of_ascii c in if decide (97 ≤ n ≤ 122)%nat then ascii_of_nat (n - 32) else c.
Definition is_ascii_alphabetic (c : ascii) : bool :=
  let n := nat_of_ascii c in bool_decide (65 ≤ n ≤ 90)%nat || bool_decide (97 ≤ n ≤ 122)%nat.

(** [str::chars]: a character is its group of bytes, a first byte and the
    continuation bytes 0b10xxxxxx after it. *)
Definition is_continuation (c : ascii) : bool := bool_decide (128 ≤ nat_of_ascii c < 192)%nat.
Fixpoint chars (s : str) : list str :=
  match s with
  | [] => []
  | a :: s' =>
      match chars s' with
      | (b :: g) :: gs => if is_continuation b then (a :: b :: g) :: gs else [a] :: (b :: g) :: gs
      | gs => [a] :: gs
      end
  end.

Definition is_sep (c : ascii) : bool := bool_decide (c = bslash) || bool_decide (c = fslash).

(** ** Path functions *)

(** The [\\?\UNC\] test of the code can only return the same [p]. *)
Definition strip_extended_prefix (path : str) : str :=
  let p := trim path in
  match strip #"\\?\" p with
  | Some rest => rest
  | None => match strip #"//?/" p with
            | Some rest => rest
            | None => match strip #"\\?\UNC\" p with Some _ => p | None => p end
            end
  end.

Definition normalize_windows_path_separators (path : str) : str :=
  (λ c, if decide (c = fslash) then bslash else c) <$> path.

Definition is_windows_absolute_path (path : str) : bool :=
  let has_drive_prefix :=
    bool_decide (path !! 1%nat = Some colon)
    && match path !! 2%nat with Some v => is_sep v | None => false end in
  let has_unc_prefix := bool_decide (path !! 0%nat = Some bslash) && bool_decide (path !! 1%nat = Some bslash) in
  has_drive_prefix || has_unc_prefix.

Definition join_windows_path (base relative : str) : str :=
  let joined := trim_end_matches is_sep base in
  (if decide (joined = []) then joined else joined ++ [bslash]) ++ relative.

(** The drive or UNC prefix and what follows it. *)
Definition split_prefix (normalized : str) : str * str :=
  if decide (normalized !! 1%nat = Some colon) then
    let prefix := ascii_upper <$> take 2 normalized in
    let remainder := drop 2 normalized in
    if starts_with [bslash] remainder
    then (prefix ++ [bslash], trim_start_matches (λ c, bool_decide (c = bslash)) remainder)
    else (prefix, remainder)
  else
    match strip #"\\" normalized with
    | Some rest => (#"\\", rest)
    | None => ([], normalized)
    end.

(** One component of the collapse loop; [components] is the Vec. *)
Definition collapse_step (components : list str) (component : str) : list str :=
  if decide (component = [] ∨ component = #".") then components
  else if decide (component = #"..") then take (length components - 1) components
  else components ++ [component].

Definition join_step (result component : str) : str :=
  (if negb (bool_decide (result = [])) && negb (ends_with_char result bslash)
   then result ++ [bslash] else result) ++ component.

Definition normalize_windows_path_components (path : str) : str :=
  let '(prefix, remainder) := split_prefix (normalize_windows_path_separators path) in
  foldl join_step prefix (foldl collapse_step [] (split bslash remainder)).

Definition looks_like_drive_relative (path : str) : bool :=
  bool_decide (2 ≤ length path)%nat && bool_decide (path !! 1%nat = Some colon)
  && match path !! 0%nat with Some c => is_ascii_alphabetic c | None => false end
  && match path !! 2%nat with Some c => negb (bool_decide (c = bslash)) | None => true end.

(** The drive of [path], or ["C:"]: a colon at byte 1 makes byte 2 a boundary. *)
Definition drive_or_c (path : str) : str :=
  if decide (path !! 1%nat = Some colon) then take 2 path else #"C:".

Definition resolve_full_windows_path (current_directory input_path : str) : str :=
  let stripped := strip_extended_prefix (trim_matches (λ c, bool_decide (c = quote)) (trim input_path)) in
  let normalized_input := normalize_windows_path_separators stripped in
  let cwd := normalize_windows_path_separators current_directory in
  let combined :=
    if is_windows_absolute_path normalized_input then normalized_input
    else if looks_like_drive_relative normalized_input then
      let drive := take 2 normalized_input in
      let rest := drop 2 normalized_input in
      if starts_with [bslash] rest then drive ++ rest
      else if decide (rest = []) then drive ++ [bslash]
      else drive ++ [bslash] ++ rest
    else if starts_with [bslash] normalized_input then drive_or_c cwd ++ normalized_input
    else join_windows_path cwd normalized_input in
  normalize_windows_path_components combined.

Definition paths_equal_ci (a b : str) : bool :=
  bool_decide (to_ascii_lowercase (normalize_windows_path_components a)
               = to_ascii_lowercase (normalize_windows_path_components b)).

Definition guest_basename (path : str) : str := after_last is_sep path path.

Definition guest_parent (path : str) : str :=
  let norm := normalize_windows_path_components path in
  match rfind bslash norm with
  | Some idx =>
      let parent := take (idx + 1) norm in
      let trimmed := trim_end_matches (λ c, bool_decide (c = bslash)) parent in
      if bool_decide (length parent ≤ 3)%nat && bool_decide (parent !! 1%nat = Some colon)
      then trimmed ++ [bslash] else trimmed
  | None => norm
  end.

Definition split_find_pattern (full_pattern : str) : str * str :=
  let norm := normalize_windows_path_components full_pattern in
  match rfind bslash norm with
  | Some idx =>
      let dir := if decide (idx ≤ 2)%nat then take (idx + 1) norm else take idx norm in
      let mask := drop (idx + 1) norm in
      (dir, if decide (mask = []) then #"*" else mask)
  | None => (#".", norm)
  end.

(** ** Wildcards *)

Section Glob.
Context {C : Type} `{EqDecision C} (star any : C).

(** [pi], [ti], [star_pi], [star_ti]. *)
Definition glob_step (pat text : list C) (s : nat * nat * option nat * nat)
    : nat * nat * option nat * nat + bool :=
  let '(pi, ti, star_pi, star_ti) := s in
  if decide (ti < length text)%nat then
    if match pat !! pi with
       | Some p => bool_decide (p = any) || bool_decide (Some p = text !! ti)
       | None => false
       end
    then inl (S pi, S ti, star_pi, star_ti)
    else if decide (pat !! pi = Some star) then inl (S pi, ti, Some pi, ti)
    else match star_pi with
         | Some sp => inl (S sp, S star_ti, star_pi, S star_ti)
         | None => inr false
         end
  else inr (forallb (λ p, bool_decide (p = star)) (drop pi pat)).

(** Enough for every backtrack to walk the pattern once. *)
Definition glob_fuel (pat text : list C) : positive :=
  fuel_of ((Z.of_nat (length text) + 1) * (Z.of_nat (length pat) + 2) + Z.of_nat (length pat)).

Definition match_glob (pat text : list C) : bool :=
  match iter_until (glob_fuel pat text) (glob_step pat text) (0%nat, 0%nat, None, 0%nat) with
  | inr b => b
  | inl _ => false
  end.
End Glob.

Definition wildcard_match (pattern name : str) : bool :=
  match_glob #"*" #"?" (chars (to_ascii_lowercase pattern)) (chars (to_ascii_lowercase name)).

Definition drive_letter (path : str) : option ascii :=
  let norm := normalize_windows_path_separators path in
  if bool_decide (2 ≤ length norm)%nat && bool_decide (norm !! 1%nat = Some colon)
     && match norm !! 0%nat with Some c => is_ascii_alphabetic c | None => false end
  then c ← norm !! 0%nat; Some (ascii_upper c)
  else None.

(** The unit tests of the file. *)
Example resolve_ex1 : resolve_full_windows_path #"C:\App" #".\config.ini" = #"C:\App\config.ini".
Proof. reflexivity. Qed.
Example resolve_ex2 : resolve_full_windows_path #"C:\App\data" #"..\config.ini" = #"C:\App\config.ini".
Proof. reflexivity. Qed.
Example resolve_ex3 : resolve_full_windows_path #"C:\App" #"\Windows\win.ini" = #"C:\Windows\win.ini".
Proof. reflexivity. Qed.
Example resolve_ex4 : resolve_full_windows_path #"C:\App" #"\\?\C:\Temp\x" = #"C:\Temp\x".
Proof. reflexivity. Qed.
Example resolve_ex5 : resolve_full_windows_path #"C:\App" #"D:foo" = #"D:\foo".
Proof. reflexivity. Qed.
Example wildcard_ex : wildcard_match #"*.*" #"a.txt" = true ∧ wildcard_match #"*.txt" #"a.bin" = false.
Proof. split; reflexivity. Qed.
Example split_ex : split_find_pattern #"C:\App\*.7z" = (#"C:\App", #"*.7z").
Proof. reflexivity. Qed.
Example parent_ex : guest_parent #"c:/a" = #"C:\" ∧ guest_basename #"c:/a/b.txt" = #"b.txt".
Proof. split; reflexivity. Qed.

(** * What path normalization and wildcards guarantee *)


(** ** Components *)

(** A component that names something below its directory. *)
Definition plain (c : str) : Prop := c ≠ [] ∧ c ≠ #"." ∧ c ≠ #".." ∧ (bslash ∉ c) ∧ (fslash ∉ c).

Fixpoint join_with (sep : ascii) (cs : list str) : str :=
  match cs with
  | [] => []
  | [c] => c
  | c :: cs' => c ++ sep :: join_with sep cs'
  end.

Lemma split_no_sep sep s : sep ∉ s → split sep s = [s].
Proof.
  induction s as [|a s IH]; intros Hs; [done|]. apply not_elem_of_cons in Hs as [Ha Hs].
  simpl. rewrite IH by done. by rewrite decide_False by congruence.
Qed.

Lemma split_app sep c s : sep ∉ c → split sep (c ++ sep :: s) = c :: split sep s.
Proof.
  induction c as [|a c IH]; intros Hc; simpl.
  - destruct (split sep s) as [|w ws] eqn:E; [|by rewrite decide_True].
    destruct s; simpl in E; [done|]. destruct (split sep s); [done|]. by case_decide.
  - apply not_elem_of_cons in Hc as [Ha Hc]. rewrite IH by done. by rewrite decide_False by congruence.
Qed.

Lemma split_join sep cs : cs ≠ [] → Forall (λ c, sep ∉ c) cs → split sep (join_with sep cs) = cs.
Proof.
  induction cs as [|c cs IH]; intros Hne Hall; [done|]. apply Forall_cons in Hall as [Hc Hcs].
  destruct cs as [|d cs]; simpl; [by apply split_no_sep|].
  rewrite split_app by done. f_equal. by apply IH.
Qed.

(** No piece of a split contains the separator, nor anything the string does not. *)
Lemma split_pieces sep s : Forall (λ c, (sep ∉ c) ∧ ∀ x, x ∉ s → x ∉ c) (split sep s).
Proof.
  induction s as [|a s IH]; simpl; [repeat constructor; set_solver|].
  destruct (split sep s) as [|w ws]; [repeat constructor; set_solver|].
  apply Forall_cons in IH as [Hw Hws]. destruct (decide (a = sep)) as [->|Hne].
  - constructor; [set_solver|]. constructor; [set_solver|].
    eapply Forall_impl; [exact Hws|]. set_solver.
  - constructor; [set_solver|]. eapply Forall_impl; [exact Hws|]. set_solver.
Qed.

Lemma collapse_plain cs acc :
  Forall (λ c, (bslash ∉ c) ∧ (fslash ∉ c)) cs → Forall plain acc → Forall plain (foldl collapse_step acc cs).
Proof.
  intros Hcs. revert acc. induction Hcs as [|c cs [Hb Hf] Hcs IH]; intros acc Hacc; [done|]. simpl. apply IH.
  unfold collapse_step. destruct (decide (c = [] ∨ c = #".")); [done|].
  destruct (decide (c = #"..")); [by apply Forall_take|].
  apply Forall_app. split; [done|]. repeat constructor; auto.
Qed.

(** Plain components survive the collapse. *)
Lemma collapse_id cs acc : Forall plain cs → foldl collapse_step acc cs = acc ++ cs.
Proof.
  intros Hcs. revert acc. induction Hcs as [|c cs (H1 & H2 & H3 & _) Hcs IH]; intros acc; simpl.
  - by rewrite app_nil_r.
  - rewrite IH. unfold collapse_step. rewrite decide_False by naive_solver. rewrite decide_False by done.
    by rewrite <- app_assoc.
Qed.

Lemma ends_with_app s c x : c ≠ [] → ends_with_char (s ++ c) x = ends_with_char c x.
Proof.
  intros Hc. unfold ends_with_char. rewrite last_app. by destruct c as [|a c] using rev_ind; [done|rewrite last_snoc].
Qed.

Lemma plain_not_ends c : plain c → ends_with_char c bslash = false.
Proof.
  intros (_ & _ & _ & Hb & _). unfold ends_with_char. apply bool_decide_eq_false. intros Hl.
  apply Hb. rewrite last_lookup in Hl. by eapply list_elem_of_lookup_2.
Qed.

Lemma join_rest cs res :
  res ≠ [] → ends_with_char res bslash = false → Forall plain cs →
  foldl join_step res cs = res ++ match cs with [] => [] | _ => bslash :: join_with bslash cs end.
Proof.
  intros Hne Hend Hcs. revert res Hne Hend. induction Hcs as [|c cs Hc Hcs IH]; intros res Hne Hend; simpl.
  - by rewrite app_nil_r.
  - unfold join_step at 2. rewrite bool_decide_eq_false_2, Hend by done. cbn [negb andb].
    rewrite IH.
    + rewrite <- !app_assoc. simpl. destruct cs; [by rewrite app_nil_r|]. done.
    + by destruct res.
    + rewrite ends_with_app by apply Hc. by apply plain_not_ends.
Qed.

(** Joining onto a prefix that ends with a separator. *)
Lemma join_prefix cs prefix :
  ends_with_char prefix bslash = true → Forall plain cs →
  foldl join_step prefix cs = prefix ++ join_with bslash cs.
Proof.
  intros Hend Hcs. destruct Hcs as [|c cs Hc Hcs]; simpl; [by rewrite app_nil_r|].
  unfold join_step at 2. rewrite Hend, andb_false_r. rewrite join_rest.
  - rewrite <- app_assoc. by destruct cs; rewrite ?app_nil_r.
  - destruct Hc as [Hc _]. by destruct prefix, c.
  - rewrite ends_with_app by apply Hc. by apply plain_not_ends.
  - done.
Qed.

(** ** Absolute paths *)

Inductive root_prefix : str → Prop :=
  | drive_root d : ascii_upper d = d → d ≠ fslash → root_prefix [d; colon; bslash]
  | unc_root : root_prefix [bslash; bslash].

(** [X:\a\b] or [\\a\b], every component plain: nothing to collapse, and no way up. *)
Definition canonical (p : str) : Prop :=
  ∃ prefix cs, root_prefix prefix ∧ Forall plain cs ∧ p = prefix ++ join_with bslash cs.

Lemma upper_idem c : ascii_upper (ascii_upper c) = ascii_upper c.
Proof.
  assert (H : forallb (λ n, bool_decide (ascii_upper (ascii_upper (ascii_of_nat n)) = ascii_upper (ascii_of_nat n)))
    (seq 0 256) = true) by (by vm_compute).
  rewrite forallb_forall in H. specialize (H (nat_of_ascii c)). rewrite ascii_nat_embedding in H.
  eapply bool_decide_eq_true_1, H. apply in_seq. pose proof (nat_ascii_bounded c). lia.
Qed.

Lemma upper_fslash c : ascii_upper c = fslash → c = fslash.
Proof.
  assert (H : forallb (λ n, bool_decide (ascii_upper (ascii_of_nat n) = fslash → ascii_of_nat n = fslash))
    (seq 0 256) = true) by (by vm_compute).
  rewrite forallb_forall in H. specialize (H (nat_of_ascii c)). rewrite ascii_nat_embedding in H.
  eapply bool_decide_eq_true_1, H. apply in_seq. pose proof (nat_ascii_bounded c). lia.
Qed.

Lemma separators_no_fslash p : fslash ∉ normalize_windows_path_separators p.
Proof. intros (c & Hc & _)%list_elem_of_fmap. case_decide; by subst. Qed.

Lemma separators_id p : fslash ∉ p → normalize_windows_path_separators p = p.
Proof.
  intros Hp. unfold normalize_windows_path_separators. rewrite <- (list_fmap_id p) at 2.
  apply list_fmap_ext. intros i c Hc%list_elem_of_lookup_2. rewrite decide_False by congruence. done.
Qed.

Lemma elem_of_join_with sep cs x : x ∈ join_with sep cs → x = sep ∨ ∃ c, c ∈ cs ∧ x ∈ c.
Proof.
  induction cs as [|c [|d cs] IH]; simpl; [by intros ?%elem_of_nil|intros Hx; right; exists c; set_solver|].
  intros [Hx|[->|Hx]%elem_of_cons]%elem_of_app; [right; exists c; set_solver|by left|].
  destruct (IH Hx) as [->|(c' & Hc' & Hx')]; [by left|right; exists c'; set_solver].
Qed.

Lemma root_prefix_ends pre : root_prefix pre → ends_with_char pre bslash = true ∧ fslash ∉ pre.
Proof. intros [d _ Hd|]; (split; [done|]); rewrite !not_elem_of_cons; split_and!; try done; try apply not_elem_of_nil; congruence. Qed.

Lemma trim_start_plain f s : (∀ c, s !! 0%nat = Some c → f c = false) → trim_start_matches f s = s.
Proof. destruct s as [|c s]; intros Hs; simpl; [done|]. by rewrite (Hs c). Qed.

Lemma join_with_head cs c : Forall plain cs → join_with bslash cs !! 0%nat = Some c → c ≠ bslash.
Proof.
  intros Hcs Hc. destruct Hcs as [|w cs (Hne & _ & _ & Hb & _) _]; [done|]. destruct w as [|a w]; [done|].
  assert (c = a) as -> by (destruct cs; simpl in Hc; congruence). set_solver.
Qed.

Lemma canonical_absolute pre cs :
  root_prefix pre → is_windows_absolute_path (pre ++ join_with bslash cs) = true.
Proof. intros [d _ _|]; done. Qed.

(** The prefix of a canonical path is found again. *)
Lemma split_prefix_canonical pre cs :
  root_prefix pre → Forall plain cs →
  split_prefix (pre ++ join_with bslash cs) = (pre, join_with bslash cs).
Proof.
  intros Hpre Hcs. destruct Hpre as [d Hd _|].
  - unfold split_prefix. simpl. unfold starts_with. simpl.
    rewrite trim_start_plain; [by rewrite Hd|].
    intros c Hc. apply bool_decide_eq_false. by eapply join_with_head.
  - done.
Qed.

Lemma collapse_split s : fslash ∉ s → Forall plain (foldl collapse_step [] (split bslash s)).
Proof.
  intros Hs. apply collapse_plain; [|done]. eapply Forall_impl; [apply split_pieces|].
  intros c [Hb Hx]. split; [done|]. by apply Hx.
Qed.

Lemma collapse_join cs :
  Forall plain cs → foldl collapse_step [] (split bslash (join_with bslash cs)) = cs.
Proof.
  intros Hcs. destruct cs as [|c cs]; [done|]. rewrite split_join; [|done|].
  - by rewrite collapse_id.
  - eapply Forall_impl; [exact Hcs|]. by intros ? (_ & _ & _ & ? & _).
Qed.

(** A canonical path is its own normal form. *)
Lemma normalize_canonical p : canonical p → normalize_windows_path_components p = p.
Proof.
  intros (pre & cs & Hpre & Hcs & ->). destruct (root_prefix_ends pre Hpre) as [Hend Hf].
  unfold normalize_windows_path_components. rewrite separators_id.
  - rewrite (split_prefix_canonical pre cs Hpre Hcs), collapse_join by done. by apply join_prefix.
  - rewrite elem_of_app. intros [?|Hj]; [done|].
    apply elem_of_join_with in Hj as [?|(c & Hc & Hx)]; [done|].
    rewrite Forall_forall in Hcs. destruct (Hcs c Hc) as (_ & _ & _ & _ & ?). done.
Qed.

(** Every absolute path has a canonical normal form. *)
Lemma normalize_absolute p :
  is_windows_absolute_path p = true → canonical (normalize_windows_path_components p).
Proof.
  intros Habs. unfold normalize_windows_path_components.
  set (n := normalize_windows_path_separators p). pose proof (separators_no_fslash p) as Hf. fold n in Hf.
  assert (Hpre : ∃ rest, root_prefix (split_prefix n).1 ∧ (split_prefix n).2 = rest ∧ fslash ∉ rest).
  { unfold n, normalize_windows_path_separators in *. unfold is_windows_absolute_path in Habs.
    apply orb_true_iff in Habs as [Hd|Hu].
    - apply andb_true_iff in Hd as [H1%bool_decide_eq_true H2].
      destruct p as [|a [|b [|c p]]]; try done. simpl in H1, H2 |- *. injection H1 as ->.
      unfold split_prefix. simpl.
      assert ((if decide (c = fslash) then bslash else c) = bslash) as Hc.
      { unfold is_sep in H2. apply orb_true_iff in H2 as [->%bool_decide_eq_true | ->%bool_decide_eq_true]; done. }
      simpl in Hf. rewrite Hc in *. unfold starts_with. simpl. eexists. split_and!; [|done|].
      + constructor; [apply upper_idem|]. intros Hup%upper_fslash. set_solver.
      + simpl. intros Hx. assert (Hsub : ∀ f s x, x ∈ trim_start_matches f s → x ∈ s).
        { intros f s x. induction s as [|y s IH]; simpl; [done|]. destruct (f y); set_solver. }
        apply Hsub in Hx. set_solver.
    - apply andb_true_iff in Hu as [H1%bool_decide_eq_true H2%bool_decide_eq_true].
      destruct p as [|a [|b p]]; try done. simpl in H1, H2. simplify_eq.
      exists (normalize_windows_path_separators p). split_and!; [constructor|done|].
      apply separators_no_fslash. }
  destruct Hpre as (rest & Hroot & Hrest & Hnf). destruct (split_prefix n) as [pre r]. simpl in *. subst r.
  destruct (root_prefix_ends pre Hroot) as [Hend _]. pose proof (collapse_split rest Hnf) as Hcs.
  exists pre, (foldl collapse_step [] (split bslash rest)). split_and!; [done..|]. by apply join_prefix.
Qed.

(** C:\dir or c:/dir. *)
Definition drive_absolute (p : str) : Prop :=
  p !! 1%nat = Some colon ∧ ∃ c, p !! 2%nat = Some c ∧ is_sep c = true.

Lemma trim_end_app f s : ∃ t, s = trim_end_matches f s ++ t ∧ Forall (λ c, f c = true) t.
Proof.
  unfold trim_end_matches. assert (Hs : s = reverse (reverse s)) by (by rewrite reverse_involutive).
  assert (H : ∃ t, reverse (reverse s) = reverse (trim_start_matches f (reverse s)) ++ t ∧
    Forall (λ c, f c = true) t); [|by rewrite <- Hs in H].
  clear Hs. induction (reverse s) as [|c r IH]; simpl; [by exists []|]. destruct (f c) eqn:E.
  - destruct IH as (t & Ht & Hall). exists (t ++ [c]). rewrite reverse_cons, Ht.
    rewrite app_assoc. split; [done|]. apply Forall_app. split; [done|by repeat constructor].
  - exists []. by rewrite app_nil_r.
Qed.

(** Joining below a drive-absolute directory is drive-absolute. *)
Lemma join_drive_absolute cwd rel :
  drive_absolute cwd → is_windows_absolute_path (join_windows_path (normalize_windows_path_separators cwd) rel) = true.
Proof.
  intros (H1 & c & H2 & Hc). destruct cwd as [|a [|b [|c' cwd]]]; try done.
  simpl in H1, H2. simplify_eq. set (n := normalize_windows_path_separators (a :: colon :: c :: cwd)).
  unfold join_windows_path. destruct (trim_end_app is_sep n) as (t & Hn & Ht).
  assert (Hlen : (2 ≤ length (trim_end_matches is_sep n))%nat ∧ n !! 1%nat = Some colon).
  { split; [|done]. destruct (decide (2 ≤ length (trim_end_matches is_sep n))%nat) as [|Hlt]; [done|].
    assert (Hx : t !! (1 - length (trim_end_matches is_sep n))%nat = Some colon).
    { rewrite <- (lookup_app_r (trim_end_matches is_sep n)) by lia. by rewrite <- Hn. }
    rewrite Forall_lookup in Ht. by specialize (Ht _ _ Hx). }
  destruct Hlen as [Hlen Hcolon]. set (j := trim_end_matches is_sep n) in *.
  rewrite decide_False by (intros ->; simpl in Hlen; lia).
  assert (Hj1 : j !! 1%nat = Some colon) by (rewrite Hn, lookup_app_l in Hcolon by lia; done).
  unfold is_windows_absolute_path. apply orb_true_iff. left. apply andb_true_iff. split.
  { apply bool_decide_eq_true. rewrite <- app_assoc. by rewrite lookup_app_l by lia. }
  rewrite <- app_assoc. destruct (decide (length j = 2)%nat) as [Hj2|].
  - rewrite lookup_app_r, Hj2 by lia. done.
  - rewrite lookup_app_l by lia.
    assert (Hsep : n !! 2%nat = Some (if decide (c = fslash) then bslash else c)) by done.
    rewrite Hn, lookup_app_l in Hsep by lia. rewrite Hsep. by case_decide; subst.
Qed.

Lemma drive_or_c_colon p : ∃ d, drive_or_c p = [d; colon].
Proof.
  unfold drive_or_c. case_decide as Hp; [|by eexists]. destruct p as [|a [|b p]]; try done.
  simpl in Hp. injection Hp as ->. by exists a.
Qed.

(** Whatever the program passes, relative, rooted, drive-relative, absolute or
    extended, resolving it against a drive-absolute current directory gives
    a path that starts at a drive or UNC root and whose components are all
    plain (no "", ".", ".." or separator), so it cannot climb above the root;
    normalizing it again changes nothing. *)
Theorem resolve_canonical cwd input :
  drive_absolute cwd →
  canonical (resolve_full_windows_path cwd input) ∧
  normalize_windows_path_components (resolve_full_windows_path cwd input) = resolve_full_windows_path cwd input.
Proof.
  intros Hcwd. assert (H : canonical (resolve_full_windows_path cwd input)).
  2:{ split; [done|]. by apply normalize_canonical. }
  unfold resolve_full_windows_path. apply normalize_absolute.
  set (n := normalize_windows_path_separators (strip_extended_prefix _)).
  destruct (is_windows_absolute_path n) eqn:Eabs; [done|].
  destruct (looks_like_drive_relative n) eqn:Edrive.
  - unfold looks_like_drive_relative in Edrive. rewrite !andb_true_iff in Edrive.
    destruct Edrive as [[[_ Hc%bool_decide_eq_true] _] _]. destruct n as [|a [|b n]]; try done.
    simpl in Hc. injection Hc as ->. simpl. unfold starts_with. simpl. rewrite drop_0.
    destruct (bool_decide (take 1 n = [bslash])) eqn:Et.
    + apply bool_decide_eq_true in Et. destruct n as [|c n]; [done|]. simpl in Et. by injection Et as ->.
    + by destruct (decide (n = [])).
  - destruct (starts_with [bslash] n) eqn:Et; [|by apply join_drive_absolute].
    unfold starts_with in Et. apply bool_decide_eq_true in Et. destruct n as [|c n]; [done|]. simpl in Et.
    injection Et as ->. destruct (drive_or_c_colon (normalize_windows_path_separators cwd)) as [d ->]. done.
Qed.

Lemma resolve_canonical_witness :
  canonical (resolve_full_windows_path #"C:/App" #"..\..\..\etc\passwd").
Proof.
  apply (resolve_canonical #"C:/App" #"..\..\..\etc\passwd").
  split; [reflexivity|]. exists fslash. split; reflexivity.
Defined.

(** ** Wildcards *)

Section Glob.
Context {C : Type} `{EqDecision C} (star any : C) (Hdistinct : star ≠ any).

(** What a pattern means: [star] any run of characters, [any] one character. *)
Inductive glob : list C → list C → Prop :=
  | glob_nil : glob [] []
  | glob_star_end p t : glob p t → glob (star :: p) t
  | glob_star_more p x t : glob (star :: p) t → glob (star :: p) (x :: t)
  | glob_char p c x t : c ≠ star → c = any ∨ c = x → glob p t → glob (c :: p) (x :: t).

Lemma glob_star p t : glob (star :: p) t ↔ ∃ k, glob p (drop k t).
Proof.
  split.
  - intros H. remember (star :: p) as q eqn:Hq. induction H as [|p' t H _|p' x t H IH|]; simplify_eq.
    + by exists 0%nat.
    + destruct IH as [k Hk]; [done|]. by exists (S k).
  - intros [k H]. revert t H. induction k as [|k IH]; intros t H; [by constructor|].
    destruct t as [|x t]; simpl in H; [by constructor|]. apply glob_star_more. by apply IH.
Qed.

(** A prefix without stars matches one character each. *)
Lemma glob_segment seg p t :
  star ∉ seg → glob (seg ++ p) t → (length seg ≤ length t)%nat ∧ glob p (drop (length seg) t).
Proof.
  revert t. induction seg as [|c seg IH]; intros t Hs H; simpl in *; [split; [lia|done]|].
  apply not_elem_of_cons in Hs as [Hc Hs]. inversion H as [| | |p' c' x t' Hne Hcx H']; simplify_eq.
  destruct (IH t' Hs H') as [? ?]. simpl. split; [lia|done].
Qed.

(** Later starts of the older star are subsumed by the newer one. *)
Lemma glob_later seg p t k :
  star ∉ seg → glob (star :: seg ++ star :: p) (drop k t) →
  glob (star :: p) (drop (k + length seg) t).
Proof.
  intros Hs [j H]%glob_star. apply (glob_segment seg) in H as [_ H]; [|done].
  rewrite !drop_drop in H. apply glob_star in H as [i H]. apply glob_star. exists (j + i)%nat.
  rewrite drop_drop in H |- *. by replace (k + length seg + (j + i))%nat with (k + (j + length seg) + i)%nat by lia.
Qed.

Context (pat text : list C) (Htext : star ∉ text).

(** The loop invariant: the whole question is the current position or a later
    start of the last star, whose segment has matched so far. *)
Definition glob_inv (s : nat * nat * option nat * nat) : Prop :=
  let '(pi, ti, star_pi, star_ti) := s in
  (pi ≤ length pat)%nat ∧ (star_ti ≤ ti ≤ length text)%nat ∧
  match star_pi with
  | None => glob pat text ↔ glob (drop pi pat) (drop ti text)
  | Some sp => pat !! sp = Some star ∧ (sp < pi)%nat ∧ (ti - star_ti = pi - S sp)%nat ∧
      (∀ i, (S sp ≤ i < pi)%nat → pat !! i ≠ Some star) ∧
      (glob pat text ↔ glob (drop pi pat) (drop ti text) ∨ glob (drop sp pat) (drop (S star_ti) text))
  end.

Definition glob_measure (s : nat * nat * option nat * nat) : Z :=
  let '(pi, ti, star_pi, star_ti) := s in
  (Z.of_nat (length text) + 1 - match star_pi with Some _ => Z.of_nat star_ti + 1 | None => 0 end)
    * (Z.of_nat (length pat) + 2) + (Z.of_nat (length pat) - Z.of_nat pi).

Lemma glob_all_stars p : glob p [] ↔ forallb (λ c, bool_decide (c = star)) p = true.
Proof.
  induction p as [|c p IH]; simpl; [split; [done|constructor]|].
  rewrite andb_true_iff, bool_decide_eq_true, <- IH. split.
  - intros H. inversion H; by simplify_eq.
  - intros [-> H]. by constructor.
Qed.

(** A leading character either fits or rules the position out. *)
Lemma glob_cons_char c p x t : c ≠ star → glob (c :: p) (x :: t) ↔ (c = any ∨ c = x) ∧ glob p t.
Proof.
  intros Hc. split; [|intros [? ?]; by constructor]. intros H. by inversion H; simplify_eq.
Qed.

Lemma glob_nil_cons x t : ¬ glob [] (x :: t).
Proof. intros H. inversion H. Qed.

Lemma drop_cons (l : list C) i x : l !! i = Some x → drop i l = x :: drop (S i) l.
Proof. intros Hx. by erewrite drop_S. Qed.

Lemma glob_star_unfold q t : glob (star :: q) t ↔ glob q t ∨ glob (star :: q) (drop 1 t).
Proof.
  rewrite !glob_star. split.
  - intros [[|k] H]; [by left|right]. exists k. by rewrite drop_drop.
  - intros [H|[k H]]; [by exists 0%nat|]. exists (1 + k)%nat. by rewrite <- drop_drop.
Qed.

(** The part of the pattern between the last star and the current position. *)
Lemma glob_segment_of sp pi :
  pat !! sp = Some star → (sp < pi ≤ length pat)%nat → (∀ i, (S sp ≤ i < pi)%nat → pat !! i ≠ Some star) →
  ∃ seg, drop sp pat = star :: seg ++ drop pi pat ∧ length seg = (pi - S sp)%nat ∧ star ∉ seg.
Proof.
  intros Hsp Hpi Hno. exists (take (pi - S sp) (drop (S sp) pat)). split_and!.
  - rewrite (drop_cons _ _ _ Hsp). f_equal. rewrite <- (take_drop (pi - S sp) (drop (S sp) pat)) at 1.
    rewrite drop_drop. by replace (S sp + (pi - S sp))%nat with pi by lia.
  - rewrite length_take, length_drop. lia.
  - intros [i Hi]%list_elem_of_lookup. apply lookup_take_Some in Hi as [Hi Hlt].
    rewrite lookup_drop in Hi. apply (Hno (S sp + i)%nat); [lia|done].
Qed.

(** The final test: the text is used up. *)
Lemma glob_finish pi ti star_pi star_ti :
  glob_inv (pi, ti, star_pi, star_ti) → ti = length text → glob pat text ↔ glob (drop pi pat) [].
Proof.
  intros (Hpi & Hti & Hinv) ->. rewrite (drop_ge text (length text)) in Hinv by lia.
  destruct star_pi as [sp|]; [|done]. destruct Hinv as (Hsp & Hlt & Hlen & Hno & Heq). rewrite Heq.
  split; [|auto]. intros [?|H]; [done|].
  destruct (glob_segment_of sp pi Hsp) as (seg & Hseg & Hsl & Hns); [lia|done|]. rewrite Hseg in H.
  apply glob_star in H as [k H]. apply (glob_segment seg) in H as [Hl H]; [|done].
  rewrite !length_drop in Hl. rewrite !drop_drop in H. rewrite (drop_ge text) in H by lia. done.
Qed.

(** The current position cannot match. *)
Lemma glob_stuck pi ti x :
  text !! ti = Some x →
  match pat !! pi with Some p => p ≠ any ∧ p ≠ x ∧ p ≠ star | None => True end →
  ¬ glob (drop pi pat) (drop ti text).
Proof.
  intros Hx Hp. rewrite (drop_cons text ti x Hx). destruct (pat !! pi) as [p|] eqn:E.
  - rewrite (drop_cons _ _ _ E), glob_cons_char by tauto. naive_solver.
  - apply lookup_ge_None in E. rewrite (drop_ge pat pi E). apply glob_nil_cons.
Qed.

Lemma glob_backtrack pi ti star_pi star_ti :
  glob_inv (pi, ti, star_pi, star_ti) → (ti < length text)%nat → ¬ glob (drop pi pat) (drop ti text) →
  match match star_pi with
        | Some sp => inl (S sp, S star_ti, star_pi, S star_ti)
        | None => inr false
        end with
  | inl s' => glob_inv s' ∧ 0 ≤ glob_measure s' < glob_measure (pi, ti, star_pi, star_ti)
  | inr b => b = true ↔ glob pat text
  end.
Proof.
  intros (Hpi & Hti & Hcase) Hlt Hno'. destruct star_pi as [sp|]; [|by rewrite Hcase].
  destruct Hcase as (Hsp & Hsl & Hlen & Hno & Heq). pose proof (lookup_lt_Some _ _ _ Hsp).
  assert (0 ≤ (Z.of_nat (length text) - Z.of_nat star_ti - 1) * (Z.of_nat (length pat) + 2))
    by (apply Z.mul_nonneg_nonneg; lia).
  split; [|unfold glob_measure; lia]. split; [lia|]. split; [lia|].
  split_and!; [done|lia|lia|intros i Hi; lia|]. rewrite Heq.
  rewrite (drop_cons _ _ _ Hsp), (glob_star_unfold _ (drop (S star_ti) text)), drop_drop.
  replace (S star_ti + 1)%nat with (S (S star_ti)) by lia. rewrite <- (drop_cons _ _ _ Hsp). tauto.
Qed.

(** One iteration keeps the invariant, or decides. *)
Lemma glob_step_ok s : glob_inv s →
  match glob_step star any pat text s with
  | inl s' => glob_inv s' ∧ 0 ≤ glob_measure s' < glob_measure s
  | inr b => b = true ↔ glob pat text
  end.
Proof.
  destruct s as [[[pi ti] star_pi] star_ti]. intros Hinv. pose proof Hinv as (Hpi & Hti & Hcase). unfold glob_step.
  destruct (decide (ti < length text)%nat) as [Hlt|Hge].
  2:{ rewrite <- glob_all_stars. symmetry. apply (glob_finish pi ti star_pi star_ti Hinv). lia. }
  destruct (lookup_lt_is_Some_2 text ti Hlt) as [x Hx]. rewrite Hx.
  assert (Hmono : ∀ j k, 0 ≤ j ≤ k → 0 ≤ j * (Z.of_nat (length pat) + 2) ≤ k * (Z.of_nat (length pat) + 2)) by nia.
  pose proof (Hmono (Z.of_nat (length text) - Z.of_nat ti) (Z.of_nat (length text) - Z.of_nat star_ti) ltac:(lia)) as Hm1.
  pose proof (Hmono (Z.of_nat (length text) - Z.of_nat ti) (Z.of_nat (length text)) ltac:(lia)) as Hm2.
  assert (Hxs : x ≠ star) by (intros ->; by apply Htext, (list_elem_of_lookup_2 _ ti)).
  pose proof (drop_cons text ti x Hx) as Hdt.
  destruct (pat !! pi) as [p|] eqn:Ep.
  - pose proof (lookup_lt_Some _ _ _ Ep) as Hpl. pose proof (drop_cons _ _ _ Ep) as Hdp.
    destruct (bool_decide (p = any) || bool_decide (Some p = Some x)) eqn:Efit.
    + (* one character *)
      assert (Hfit : p = any ∨ p = x).
      { apply orb_true_iff in Efit as [H%bool_decide_eq_true|H%bool_decide_eq_true]; [by left|right; congruence]. }
      assert (Hps : p ≠ star) by (by destruct Hfit as [-> | ->]).
      assert (Hstep : glob (drop pi pat) (drop ti text) ↔ glob (drop (S pi) pat) (drop (S ti) text)).
      { rewrite Hdp, Hdt, glob_cons_char by done. tauto. }
      split; [|unfold glob_measure; destruct star_pi; lia]. split; [lia|]. split; [lia|].
      destruct star_pi as [sp|]; [|by rewrite <- Hstep]. destruct Hcase as (Hsp & Hsl & Hlen & Hno & Heq).
      split_and!; [done|lia|lia| |by rewrite <- Hstep]. intros i Hi.
      destruct (decide (i = pi)) as [->|]; [rewrite Ep; congruence|apply Hno; lia].
    + apply orb_false_iff in Efit as [Ha%bool_decide_eq_false Hpx%bool_decide_eq_false].
      destruct (decide (Some p = Some star)) as [Hs|Hns].
      * (* a new star *)
        injection Hs as ->. split; [|unfold glob_measure; destruct star_pi; lia]. split; [lia|]. split; [lia|].
        split_and!; [done|lia|lia|intros i Hi; lia|].
        assert (Hunf : glob (drop pi pat) (drop ti text) ↔
          glob (drop (S pi) pat) (drop ti text) ∨ glob (drop pi pat) (drop (S ti) text)).
        { rewrite Hdp, glob_star_unfold, drop_drop. by replace (ti + 1)%nat with (S ti) by lia. }
        destruct star_pi as [sp|]; [|by rewrite Hcase, Hunf]. destruct Hcase as (Hsp & Hsl & Hlen & Hno & Heq).
        rewrite Heq, Hunf. split; [|tauto]. intros [H|H]; [done|]. right.
        destruct (glob_segment_of sp pi Hsp) as (seg & Hseg & Hsg & Hnseg); [lia|done|].
        rewrite Hseg, Hdp in H. rewrite Hdp. apply glob_later in H; [|done].
        by replace (S star_ti + length seg)%nat with (S ti) in H by lia.
      * (* back to the last star *)
        assert (Hno' : ¬ glob (drop pi pat) (drop ti text)).
        { apply (glob_stuck pi ti x Hx). rewrite Ep. naive_solver. }
        by apply (glob_backtrack pi ti star_pi star_ti Hinv Hlt).
  - destruct (decide (None = Some star)); [done|].
    assert (Hno' : ¬ glob (drop pi pat) (drop ti text)).
    { apply (glob_stuck pi ti x Hx). by rewrite Ep. }
    by apply (glob_backtrack pi ti star_pi star_ti Hinv Hlt).
Qed.
End Glob.

(** The loop decides the relation, with the fuel it is given. *)
Lemma match_glob_spec {C} `{EqDecision C} (star any : C) pat text :
  star ≠ any → star ∉ text → match_glob star any pat text = true ↔ glob star any pat text.
Proof.
  intros Hd Ht. unfold match_glob.
  destruct (iter_until_rule (glob_step star any pat text) (glob_inv star any pat text)
    (λ b, b = true ↔ glob star any pat text) (glob_measure pat text)
    (glob_fuel pat text) (0%nat, 0%nat, None, 0%nat)) as (b & -> & Hb); [|..|done].
  - intros s Hs. by apply glob_step_ok.
  - split; [lia|]. split; [lia|]. by rewrite !drop_0.
  - unfold glob_measure, glob_fuel. split; [lia|].
    eapply Z.le_lt_trans; [|apply fuel_of_spec]; lia.
Qed.

(** [wildcard_match] terminates and decides the meaning of the pattern, [*] for any run
    and [?] for any one character, case folded in ASCII, for every name
    without a literal star.  A name that itself starts with a star is missed by
    the pattern [*], because the literal comparison is tried first. *)
Theorem wildcard_match_spec :
  (∀ pattern name, #"*" ∉ chars (to_ascii_lowercase name) →
    wildcard_match pattern name = true ↔
      glob #"*" #"?" (chars (to_ascii_lowercase pattern)) (chars (to_ascii_lowercase name))) ∧
  wildcard_match #"*" #"*a" = false.
Proof. split; [|reflexivity]. intros pattern name Hn. by apply match_glob_spec. Qed.
