(* ===== verification/volume.v ===== *)
(** * Guest drives and host paths (vfs/volume.rs, bottle.rs)

    C: is the bottle's drive_c directory, D: an optional host directory; a host
    path is a Unix [PathBuf], its bytes. *)

From S2P Require Import Prelude path.

Definition GUEST_TEMP_PATH : str := #"C:\Users\WIE\AppData\Local\Temp".
Definition GUEST_WINDOWS_DIR : str := #"C:\Windows".
Definition GUEST_SYSTEM_DIR : str := #"C:\Windows\System32".

Definition BOTTLE_SKELETON_DIRS : list str :=
  [ #"App"; #"Windows/System32"; #"Windows/SysWOW64"; #"Users/WIE/AppData/Local/Temp"; #"Temp"; #"ProgramData"].

(** [PathBuf::push] on Unix: an absolute argument replaces the path, and a
    separator is added unless one is there or the path is empty. *)
Definition push (p c : str) : str :=
  if decide (c !! 0%nat = Some fslash) then c
  else match last p with
       | Some l => if decide (l = fslash) then p ++ c else p ++ fslash :: c
       | None => c
       end.

Record VolumeConfig := mkVolumes { bottle_root : option str; drive_d_root : option str }.

Definition from_parts (bottle d : option str) : VolumeConfig := mkVolumes bottle d.
Definition has_drive_d (v : VolumeConfig) : bool := bool_decide (is_Some (drive_d_root v)).

Record HostMap := mkHostMap { hm_host : str; hm_drive : ascii }.

Definition relative_after_drive (normalized : str) (drive : ascii) : option str :=
  let lower := to_ascii_lowercase normalized in
  if starts_with [ascii_lower drive; colon; bslash] lower then Some (drop 3 normalized)
  else if decide (lower = [ascii_lower drive; colon]) then Some []
  else None.

(** The host components of a guest path: empty ones and "." are dropped. *)
Definition host_components (relative : str) : list str :=
  filter (λ c, c ≠ [] ∧ c ≠ #".") (split bslash relative).

(** The loop that pushes them; it refuses a component with a separator. *)
Fixpoint push_all (host : str) (components : list str) : option str :=
  match components with
  | [] => Some host
  | c :: cs =>
      if bool_decide (fslash ∈ c) || bool_decide (bslash ∈ c) then None else push_all (push host c) cs
  end.

Definition host_root (v : VolumeConfig) (drive : ascii) : option str :=
  if decide (drive = "C"%char) then bottle ← bottle_root v; Some (push bottle #"drive_c")
  else if decide (drive = "D"%char) then drive_d_root v
  else None.

Definition guest_path_to_host (volumes : VolumeConfig) (guest_path : str) : option HostMap :=
  let trimmed := trim_matches (λ c, bool_decide (c = quote)) (trim guest_path) in
  let sep_norm := normalize_windows_path_separators trimmed in
  drive ← drive_letter sep_norm;
  relative ← relative_after_drive sep_norm drive;
  if bool_decide (#".." ∈ split bslash relative) then None
  else
    root ← host_root volumes drive;
    host ← push_all root (host_components relative);
    Some (mkHostMap host drive).

(** The two C:-only wrappers. *)
Definition guest_path_to_host_bottle (root guest_path : str) : option str :=
  hm_host <$> guest_path_to_host (mkVolumes (Some root) None) guest_path.
Definition bottle_guest_path_to_host (root guest_path : str) : option str :=
  hm_host <$> guest_path_to_host (mkVolumes (Some root) None) guest_path.

(** [WIE_DRIVE_D], given the variable's value and the working directory. *)
Definition drive_d_from_env (val cwd : option str) : option str :=
  v ← val;
  if decide (v = []) then None
  else if decide (v = #"auto") then cwd
  else Some v.

Definition DRIVE_NO_ROOT_DIR : u32 := 1.
Definition DRIVE_FIXED : u32 := 3.

Definition get_drive_type (volumes : VolumeConfig) (root_path : str) : u32 :=
  let norm := normalize_windows_path_separators (trim root_path) in
  let letter :=
    match drive_letter norm with
    | Some l => Some l
    | None =>
        if bool_decide (2 ≤ length norm)%nat && bool_decide (norm !! 1%nat = Some colon)
           && match norm !! 0%nat with Some c => is_ascii_alphabetic c | None => false end
        then ascii_upper <$> norm !! 0%nat
        else None
    end in
  match letter with
  | Some "C"%char => DRIVE_FIXED
  | Some "D"%char => if has_drive_d volumes then DRIVE_FIXED else DRIVE_NO_ROOT_DIR
  | _ => DRIVE_NO_ROOT_DIR
  end.

Definition logical_drives_mask (volumes : VolumeConfig) : u32 :=
  let mask := Z.shiftl 1 2 in
  if has_drive_d volumes then Z.lor mask (Z.shiftl 1 3) else mask.

Example maps_c : hm_host <$> guest_path_to_host (mkVolumes (Some #"/tmp/bottle") None) #"c:\App\out.txt"
  = Some #"/tmp/bottle/drive_c/App/out.txt".
Proof. reflexivity. Qed.
Example rejects_escape :
  guest_path_to_host (mkVolumes (Some #"/tmp/bottle") None) #"C:\App\..\..\etc\passwd" = None.
Proof. reflexivity. Qed.
Example maps_d :
  hm_host <$> guest_path_to_host (mkVolumes (Some #"/tmp/bottle") (Some #"/Users/me/data")) #"D:\archive\a.7z"
  = Some #"/Users/me/data/archive/a.7z".
Proof. reflexivity. Qed.

(** ** Confinement *)

(** [host] is [root] followed by the components, each after a separator. *)
Fixpoint below (root : str) (cs : list str) (host : str) : Prop :=
  match cs with
  | [] => host = root
  | c :: cs' => ∃ sep, (sep = [] ∨ sep = [fslash]) ∧ below (root ++ sep ++ c) cs' host
  end.

Lemma push_plain root c : root ≠ [] → plain c →
  ∃ sep, (sep = [] ∨ sep = [fslash]) ∧ push root c = root ++ sep ++ c.
Proof.
  intros Hr (Hne & _ & _ & _ & Hf). unfold push. rewrite decide_False.
  2:{ intros Hc. apply Hf. by eapply list_elem_of_lookup_2. }
  destruct (last root) as [l|] eqn:El; [|by apply last_None in El].
  destruct (decide (l = fslash)); [exists []; auto|exists [fslash]; auto].
Qed.

Lemma push_all_below root cs host :
  root ≠ [] → Forall plain cs → push_all root cs = Some host → below root cs host.
Proof.
  intros Hr Hcs. revert root Hr. induction Hcs as [|c cs Hc Hcs IH]; intros root Hr; simpl; [congruence|].
  destruct (_ || _); [done|]. destruct (push_plain root c Hr Hc) as (sep & Hs & ->). intros H.
  exists sep. split; [done|]. apply IH; [by destruct root|done].
Qed.

(** C40 A guest path that maps to the host maps below its drive's root: the host path
    is the bottle's drive_c directory (for C:) or the D: directory followed by
    plain components, none of them "..", absolute or containing a separator. *)
Theorem guest_path_confined v p m :
  guest_path_to_host v p = Some m →
  ∃ root cs, host_root v (hm_drive m) = Some root ∧
    (hm_drive m = "C"%char ∨ hm_drive m = "D"%char) ∧ Forall plain cs ∧
    (root ≠ [] → below root cs (hm_host m)).
Proof.
  unfold guest_path_to_host. set (n := normalize_windows_path_separators _). intros Hm.
  apply bind_Some in Hm as (d & Hd & Hm). apply bind_Some in Hm as (rel & Hrel & Hm).
  destruct (bool_decide (#".." ∈ split bslash rel)) eqn:Edd; [done|]. apply bool_decide_eq_false in Edd.
  apply bind_Some in Hm as (root & Hroot & Hm). apply bind_Some in Hm as (host & Hhost & Hm).
  injection Hm as <-. exists root, (host_components rel). simpl.
  assert (Hf : fslash ∉ rel).
  { pose proof (separators_no_fslash (trim_matches (λ c, bool_decide (c = quote)) (trim p))) as Hn. fold n in Hn.
    unfold relative_after_drive in Hrel. destruct (starts_with _ _).
    - injection Hrel as <-. intros Hx. apply Hn. by eapply subseteq_drop.
    - case_decide; [|done]. injection Hrel as <-. apply not_elem_of_nil. }
  assert (Hcs : Forall plain (host_components rel)).
  { apply Forall_forall. intros c [[Hne Hdot] Hc]%list_elem_of_filter.
    pose proof (split_pieces bslash rel) as Hs. rewrite Forall_forall in Hs. destruct (Hs c Hc) as [Hb Hx].
    split_and!; try done; [|by apply Hx]. by intros ->. }
  split_and!; [done| |done|].
  - unfold host_root in Hroot. destruct (decide (d = "C"%char)); [by left|].
    destruct (decide (d = "D"%char)); [by right|done].
  - intros Hne. by apply push_all_below.
Qed.

Lemma guest_path_confined_witness :
  ∃ cs, Forall plain cs ∧
    below #"/b/drive_c" cs #"/b/drive_c/App/x".
Proof.
  destruct (guest_path_confined (mkVolumes (Some #"/b") None) #"C:\App\.\x"
    (mkHostMap #"/b/drive_c/App/x" "C"%char) eq_refl) as (root & cs & Hr & _ & Hcs & Hb).
  injection Hr as <-. exists cs. split; [exact Hcs|]. apply Hb. discriminate.
Defined.
