(* ===== verification/regs.v ===== *)
(** * Registers and flags (crates/wie-cpu/src/regs.rs)

    The register file of the interpreter.  Which register an operand names is
    the disassembler's: [IcedRegister] is the part of iced_x86's [Register] the
    code calls, with what its documentation says about it. *)

From S2P Require Import Prelude.

Abbreviation u128 := Z (only parsing).

(** ** RFLAGS *)

Definition CF : u64 := 1.
Definition PF : u64 := Z.shiftl 1 2.
Definition AF : u64 := Z.shiftl 1 4.
Definition ZF : u64 := Z.shiftl 1 6.
Definition SF : u64 := Z.shiftl 1 7.
Definition IF_ : u64 := Z.shiftl 1 9.
Definition DF : u64 := Z.shiftl 1 10.
Definition OF_ : u64 := Z.shiftl 1 11.
Definition ALWAYS1 : u64 := Z.shiftl 1 1.
Definition RFLAGS_DEFAULT : u64 := Z.lor ALWAYS1 IF_.

(** ** State *)

Record ThreadContext := mkContext {
  tc_gpr : list u64;
  tc_xmm : list u128;
  tc_rip : u64;
  tc_rflags : u64;
}.

Definition ThreadContext_new : ThreadContext :=
  mkContext (replicate 16 0) (replicate 16 0) 0 RFLAGS_DEFAULT.

Record RegFile := mkRegs {
  gprs : list u64;
  xmms : list u128;
  rip : u64;
  rflags : u64;
}.

Definition RegFile_new : RegFile := mkRegs (replicate 16 0) (replicate 16 0) 0 RFLAGS_DEFAULT.

Definition snapshot (r : RegFile) : ThreadContext := mkContext (gprs r) (xmms r) (rip r) (rflags r).
Definition restore (ctx : ThreadContext) (r : RegFile) : RegFile :=
  mkRegs (tc_gpr ctx) (tc_xmm ctx) (tc_rip ctx) (tc_rflags ctx).

Definition gpr (r : RegFile) (idx : nat) : u64 := default 0 (gprs r !! idx).
Definition set_gpr (idx : nat) (value : u64) (r : RegFile) : RegFile :=
  mkRegs (<[idx := value]> (gprs r)) (xmms r) (rip r) (rflags r).
Definition set_rip (value : u64) (r : RegFile) : RegFile := mkRegs (gprs r) (xmms r) value (rflags r).
Definition set_rflags (value : u64) (r : RegFile) : RegFile := mkRegs (gprs r) (xmms r) (rip r) value.
Definition xmm_at (r : RegFile) (idx : nat) : u128 := default 0 (xmms r !! idx).
Definition set_xmm_at (idx : nat) (value : u128) (r : RegFile) : RegFile :=
  mkRegs (gprs r) (<[idx := value]> (xmms r)) (rip r) (rflags r).

(** The named accessors. *)
Definition set_gpr_public := set_gpr.
Definition rax (r : RegFile) : u64 := gpr r 0.
Definition rcx (r : RegFile) : u64 := gpr r 1.
Definition rdx (r : RegFile) : u64 := gpr r 2.
Definition rbx (r : RegFile) : u64 := gpr r 3.
Definition rsp (r : RegFile) : u64 := gpr r 4.
Definition rbp (r : RegFile) : u64 := gpr r 5.
Definition rsi (r : RegFile) : u64 := gpr r 6.
Definition rdi (r : RegFile) : u64 := gpr r 7.
Definition r8 (r : RegFile) : u64 := gpr r 8.
Definition r9 (r : RegFile) : u64 := gpr r 9.
Definition set_rax (v : u64) : RegFile → RegFile := set_gpr 0 v.
Definition set_rcx (v : u64) : RegFile → RegFile := set_gpr 1 v.
Definition set_rdx (v : u64) : RegFile → RegFile := set_gpr 2 v.
Definition set_rsp (v : u64) : RegFile → RegFile := set_gpr 4 v.
Definition set_rbp (v : u64) : RegFile → RegFile := set_gpr 5 v.
Definition set_rsi (v : u64) : RegFile → RegFile := set_gpr 6 v.
Definition set_rdi (v : u64) : RegFile → RegFile := set_gpr 7 v.
Definition set_r8 (v : u64) : RegFile → RegFile := set_gpr 8 v.
Definition set_r9 (v : u64) : RegFile → RegFile := set_gpr 9 v.

Definition flag (r : RegFile) (mask : u64) : bool := negb (bool_decide (Z.land (rflags r) mask = 0)).

(** [rflags &= !mask] is the bitwise difference. *)
Definition set_flag (mask : u64) (on : bool) (r : RegFile) : RegFile :=
  let f := if on then Z.lor (rflags r) mask else Z.ldiff (rflags r) mask in
  set_rflags (Z.lor f ALWAYS1) r.

(** ** Named registers *)

Class IcedRegister := {
  Register : Type;
  Register_eq_dec :: EqDecision Register;
  reg_None : Register;
  reg_RIP : Register;
  reg_AH : Register;
  reg_CH : Register;
  reg_DH : Register;
  reg_BH : Register;
  full_register : Register → Register;
  reg_number : Register → nat;
  reg_size : Register → nat;
  is_xmm : Register → bool;
  reg_name : Register → string;
}.

Section Registers.
Context `{IcedRegister}.
Implicit Types (reg : Register) (r : RegFile).

Definition is_high_byte reg : bool :=
  bool_decide (reg = reg_AH) || bool_decide (reg = reg_CH) || bool_decide (reg = reg_DH) || bool_decide (reg = reg_BH).

Definition gpr_index (full : Register) : res nat :=
  let n := reg_number full in
  if bool_decide (n < 16)%nat && bool_decide (reg_size full = 8%nat) then Ok n
  else Err (Message ("not a 64-bit GPR: " +:+ reg_name full +:+ " (number=" +:+ fmt_dec (Z.of_nat n) +:+ ")")).

Definition unsupported_size reg : CpuError :=
  Message ("unsupported register size " +:+ fmt_dec (Z.of_nat (reg_size reg)) +:+ " for " +:+ reg_name reg).

Definition read_reg r reg : res u64 :=
  if decide (reg = reg_None) then Ok 0
  else if decide (reg = reg_RIP) then Ok (rip r)
  else if is_high_byte reg then
    idx ← gpr_index (full_register reg);
    Ok (Z.land (Z.shiftr (gpr r idx) 8) 0xff)
  else
    idx ← gpr_index (full_register reg);
    let full_val := gpr r idx in
    match reg_size reg with
    | 1%nat => Ok (Z.land full_val 0xff)
    | 2%nat => Ok (Z.land full_val 0xffff)
    | 4%nat => Ok (Z.land full_val 0xffffffff)
    | 8%nat => Ok full_val
    | _ => Err (unsupported_size reg)
    end.

Definition write_reg reg (value : u64) : M RegFile unit := λ r,
  if decide (reg = reg_None) then (r, Ok tt)
  else if decide (reg = reg_RIP) then (set_rip value r, Ok tt)
  else if is_high_byte reg then
    match gpr_index (full_register reg) with
    | Ok idx =>
        let old := gpr r idx in
        (set_gpr idx (Z.lor (Z.ldiff old 0xff00) (Z.shiftl (Z.land value 0xff) 8)) r, Ok tt)
    | Err e => (r, Err e)
    | Abort w => (r, Abort w)
    end
  else
    match gpr_index (full_register reg) with
    | Ok idx =>
        let old := gpr r idx in
        match reg_size reg with
        | 1%nat => (set_gpr idx (Z.lor (Z.ldiff old 0xff) (Z.land value 0xff)) r, Ok tt)
        | 2%nat => (set_gpr idx (Z.lor (Z.ldiff old 0xffff) (Z.land value 0xffff)) r, Ok tt)
        | 4%nat => (set_gpr idx (Z.land value 0xffffffff) r, Ok tt)
        | 8%nat => (set_gpr idx value r, Ok tt)
        | _ => (r, Err (unsupported_size reg))
        end
    | Err e => (r, Err e)
    | Abort w => (r, Abort w)
    end.

Definition read_xmm r reg : res u128 :=
  if negb (is_xmm reg) then Err (Message ("not an XMM register: " +:+ reg_name reg))
  else ok_or (xmms r !! reg_number reg)
         (Message ("XMM index " +:+ fmt_dec (Z.of_nat (reg_number reg)) +:+ " OOB")).

Definition write_xmm reg (value : u128) : M RegFile unit := λ r,
  if negb (is_xmm reg) then (r, Err (Message ("not an XMM register: " +:+ reg_name reg)))
  else match xmms r !! reg_number reg with
       | Some _ => (set_xmm_at (reg_number reg) value r, Ok tt)
       | None => (r, Err (Message ("XMM index " +:+ fmt_dec (Z.of_nat (reg_number reg)) +:+ " OOB")))
       end.
End Registers.

(** ** Flag updates *)

Definition size_mask (size : nat) : u64 :=
  match size with
  | 1%nat => 0xff
  | 2%nat => 0xffff
  | 4%nat => 0xffffffff
  | _ => u64_lim - 1
  end.

Definition low_byte (v : u64) : u8 := Z.land v 0xff.

(** [u8::count_ones]. *)
Definition count_ones (byte : u8) : Z :=
  foldr (λ i n, Z.b2z (Z.testbit byte (Z.of_nat i)) + n) 0 (seq 0 8).
Definition parity_even (byte : u8) : bool := is_multiple_of (count_ones byte) 2.

(** [1 << (size * 8 - 1)], saturating. *)
Definition sign_bit (size : nat) : u64 := Z.shiftl 1 (sat_sub (Z.of_nat size * 8) 1).

Definition nonzero (x : Z) : bool := negb (bool_decide (x = 0)).

Definition set_logic_flags (result : u64) (size : nat) (r : RegFile) : RegFile :=
  let v := Z.land result (size_mask size) in
  let r := set_flag ZF (bool_decide (v = 0)) r in
  let r := set_flag SF (nonzero (Z.land v (sign_bit size))) r in
  let r := set_flag PF (parity_even (low_byte v)) r in
  let r := set_flag CF false r in
  set_flag OF_ false r.

Definition set_add_flags (dst src result : u64) (size : nat) (r : RegFile) : RegFile :=
  let mask := size_mask size in
  let d := Z.land dst mask in
  let s := Z.land src mask in
  let res := Z.land result mask in
  let sign := sign_bit size in
  let wide := d + s in
  let r := set_flag CF (bool_decide (mask < wide)) r in
  let r := set_flag ZF (bool_decide (res = 0)) r in
  let r := set_flag SF (nonzero (Z.land res sign)) r in
  let r := set_flag PF (parity_even (low_byte res)) r in
  let ovf := nonzero (Z.land (Z.land (Z.lxor d res) (Z.lxor s res)) sign) in
  let r := set_flag OF_ ovf r in
  set_flag AF (nonzero (Z.land (Z.lxor (Z.lxor d s) res) 0x10)) r.

Definition set_sub_flags (dst src result : u64) (size : nat) (r : RegFile) : RegFile :=
  let mask := size_mask size in
  let d := Z.land dst mask in
  let s := Z.land src mask in
  let res := Z.land result mask in
  let sign := sign_bit size in
  let r := set_flag CF (bool_decide (d < s)) r in
  let r := set_flag ZF (bool_decide (res = 0)) r in
  let r := set_flag SF (nonzero (Z.land res sign)) r in
  let r := set_flag PF (parity_even (low_byte res)) r in
  let ovf := nonzero (Z.land (Z.land (Z.lxor d s) (Z.lxor d res)) sign) in
  let r := set_flag OF_ ovf r in
  set_flag AF (nonzero (Z.land (Z.lxor (Z.lxor d s) res) 0x10)) r.
