(* ===== verification/regs_safe.v ===== *)
(** * What register writes and flag updates mean *)

From S2P Require Import Prelude regs.

(** ** Bits *)

Lemma land_low x n : 0 ≤ n → Z.land x (2 ^ n - 1) = x mod 2 ^ n.
Proof. intros Hn. rewrite <- Z.land_ones by done. by rewrite Z.ones_equiv, Z.sub_1_r. Qed.

Lemma size_mask_land x size :
  size ∈ [1; 2; 4; 8]%nat → Z.land x (size_mask size) = x mod 2 ^ (8 * Z.of_nat size).
Proof.
  intros Hs. assert (size_mask size = 2 ^ (8 * Z.of_nat size) - 1) as ->.
  { set_unfold in Hs. by destruct_or! Hs; subst size. }
  apply land_low. lia.
Qed.

Lemma testbit_in_u64 x n : in_u64 x → 64 ≤ n → Z.testbit x n = false.
Proof.
  intros [Hx0 Hx] Hn. destruct (decide (x = 0)) as [->|]; [apply Z.testbit_0_l|].
  apply Z.bits_above_log2; [done|]. apply Z.lt_le_trans with 64; [|done]. apply Z.log2_lt_pow2; lia.
Qed.

(** The top bit of a [k]-bit number. *)
Lemma testbit_top x k : 0 < k → 0 ≤ x < 2 ^ k → Z.testbit x (k - 1) = bool_decide (2 ^ (k - 1) ≤ x).
Proof.
  intros Hk Hx. assert (Hp : 2 ^ k = 2 * 2 ^ (k - 1)) by (rewrite <- Z.pow_succ_r by lia; f_equal; lia).
  pose proof (Z.pow_pos_nonneg 2 (k - 1)). rewrite Z.testbit_eqb by lia. case_bool_decide as Hb.
  - replace (x / 2 ^ (k - 1)) with 1; [done|]. apply Z.div_unique with (x - 2 ^ (k - 1)); lia.
  - by rewrite Z.div_small by lia.
Qed.

Lemma nonzero_bit x k : 0 ≤ k → nonzero (Z.land x (Z.shiftl 1 k)) = Z.testbit x k.
Proof.
  intros Hk. unfold nonzero.
  assert (Hl : Z.land x (Z.shiftl 1 k) = if Z.testbit x k then Z.shiftl 1 k else 0).
  { apply Z.bits_inj'. intros n Hn. rewrite Z.land_spec, Z.shiftl_spec by lia.
    destruct (decide (n = k)) as [->|Hne].
    - rewrite Z.sub_diag. simpl. destruct (Z.testbit x k) eqn:E; simpl; [|by rewrite Z.testbit_0_l].
      by rewrite Z.shiftl_spec, Z.sub_diag by lia.
    - assert (Z.testbit 1 (n - k) = false) as ->.
      { destruct (decide (n < k)); [by apply Z.testbit_neg_r; lia|]. apply Z.bits_above_log2; simpl; lia. }
      rewrite andb_false_r. destruct (Z.testbit x k); [|by rewrite Z.testbit_0_l].
      rewrite Z.shiftl_spec by lia. destruct (decide (n < k)); [by rewrite Z.testbit_neg_r by lia|].
      symmetry. apply Z.bits_above_log2; simpl; lia. }
  rewrite Hl. destruct (Z.testbit x k); [|done]. rewrite Z.shiftl_1_l.
  pose proof (Z.pow_pos_nonneg 2 k). rewrite bool_decide_eq_false_2 by lia. done.
Qed.

(** ** Register writes *)

Definition regs_wf (r : RegFile) : Prop := length (gprs r) = 16%nat ∧ Forall in_u64 (gprs r).

Lemma gpr_in_u64 r idx : regs_wf r → in_u64 (gpr r idx).
Proof.
  intros [_ Hr]. unfold gpr. destruct (gprs r !! idx) as [v|] eqn:E; [|done].
  by eapply Forall_lookup_1 in Hr.
Qed.

Lemma gpr_set_gpr r idx v j : regs_wf r → (idx < 16)%nat → gpr (set_gpr idx v r) j = if decide (j = idx) then v else gpr r j.
Proof.
  intros [Hl _] Hi. unfold gpr. simpl. destruct (decide (j = idx)) as [->|].
  - by rewrite list_lookup_insert_eq by lia.
  - by rewrite list_lookup_insert_ne.
Qed.

Section Registers.
Context `{IcedRegister}.
Implicit Types (reg : Register) (r : RegFile).

(** The bits of its 64-bit register that [reg] names: first bit and width. *)
Definition reg_slice reg : Z * Z :=
  if is_high_byte reg then (8, 8) else (0, 8 * Z.of_nat (reg_size reg)).

(** What a write leaves in the full register. *)
Definition sliced (old value : u64) (lo w : Z) (n : Z) : bool :=
  if decide (lo ≤ n < lo + w) then Z.testbit value (n - lo)
  else if decide (w = 32) then false else Z.testbit old n.

Lemma insert_bits old value lo w n :
  0 ≤ lo → 0 < w → 0 ≤ n →
  Z.testbit (Z.lor (Z.ldiff old (Z.shiftl (2 ^ w - 1) lo)) (Z.shiftl (Z.land value (2 ^ w - 1)) lo)) n =
  if decide (lo ≤ n < lo + w) then Z.testbit value (n - lo) else Z.testbit old n.
Proof.
  intros Hlo Hw Hn. rewrite Z.lor_spec, Z.ldiff_spec, !Z.shiftl_spec, Z.land_spec by lia.
  assert (Hones : Z.testbit (2 ^ w - 1) (n - lo) = bool_decide (lo ≤ n < lo + w)).
  { rewrite Z.sub_1_r, <- Z.ones_equiv. case_bool_decide.
    - apply Z.ones_spec_low. lia.
    - destruct (decide (n < lo)); [apply Z.testbit_neg_r; lia|apply Z.ones_spec_high; lia]. }
  rewrite Hones. case_bool_decide; destruct (decide (lo ≤ n < lo + w)); try done; simpl.
  - by rewrite andb_false_r, orb_false_l, andb_true_r.
  - by rewrite andb_true_r, andb_false_r, orb_false_r.
Qed.

Lemma mask_bits w n : 0 ≤ w → 0 ≤ n → Z.testbit (2 ^ w - 1) n = bool_decide (n < w).
Proof.
  intros Hw Hn. rewrite Z.sub_1_r, <- Z.ones_equiv. case_bool_decide.
  - apply Z.ones_spec_low. lia.
  - apply Z.ones_spec_high. lia.
Qed.

(** Reading a slice back. *)
Lemma read_slice x value old lo w :
  0 ≤ lo → 0 < w → (∀ n, 0 ≤ n → Z.testbit x n = sliced old value lo w n) →
  Z.land (Z.shiftr x lo) (2 ^ w - 1) = value mod 2 ^ w.
Proof.
  intros Hlo Hw Hx. rewrite <- (land_low value w) by lia. apply Z.bits_inj'. intros n Hn.
  rewrite !Z.land_spec, mask_bits, Z.shiftr_spec, Hx by lia. unfold sliced.
  case_bool_decide; [|by rewrite !andb_false_r].
  rewrite decide_True by lia. by replace (n + lo - lo) with n by lia.
Qed.

Lemma bits_in_u64 x : 0 ≤ x → (∀ n, 64 ≤ n → Z.testbit x n = false) → in_u64 x.
Proof.
  intros Hx Hb. split; [done|]. destruct (decide (x < u64_lim)) as [|Hge]; [done|].
  assert (64 ≤ Z.log2 x) by (apply Z.log2_le_pow2; lia).
  specialize (Hb (Z.log2 x) ltac:(done)). rewrite Z.bit_log2 in Hb by lia. done.
Qed.

Lemma regs_wf_set r idx v : regs_wf r → in_u64 v → regs_wf (set_gpr idx v r).
Proof. intros [Hl Hr] Hv. split; simpl; [by rewrite length_insert|by apply Forall_insert]. Qed.

(** A value assembled from bits of 64-bit words is a 64-bit word. *)
Lemma sliced_in_u64 x old value lo w :
  0 ≤ x → in_u64 old → in_u64 value → 0 ≤ lo → lo + w ≤ 64 →
  (∀ n, 0 ≤ n → Z.testbit x n = sliced old value lo w n) → in_u64 x.
Proof.
  intros Hx Hold Hv Hlo Hw Hb. apply bits_in_u64; [done|]. intros n Hn. rewrite Hb by lia. unfold sliced.
  rewrite decide_False by lia. destruct (decide (w = 32)); [done|]. by apply testbit_in_u64.
Qed.

(** The full register after a write. *)
Definition merged (old value : u64) reg : u64 :=
  if is_high_byte reg then Z.lor (Z.ldiff old 0xff00) (Z.shiftl (Z.land value 0xff) 8)
  else match reg_size reg with
       | 1%nat => Z.lor (Z.ldiff old 0xff) (Z.land value 0xff)
       | 2%nat => Z.lor (Z.ldiff old 0xffff) (Z.land value 0xffff)
       | 4%nat => Z.land value 0xffffffff
       | _ => value
       end.

Definition reg_size_ok reg : Prop := is_high_byte reg = true ∨ reg_size reg ∈ [1; 2; 4; 8]%nat.

Lemma write_reg_ok reg value r r' :
  write_reg reg value r = (r', Ok tt) → reg ≠ reg_None → reg ≠ reg_RIP →
  ∃ idx, gpr_index (full_register reg) = Ok idx ∧ reg_size_ok reg ∧
    r' = set_gpr idx (merged (gpr r idx) value reg) r.
Proof.
  unfold write_reg, merged, reg_size_ok. intros Hw Hn Hr. rewrite !decide_False in Hw by done.
  destruct (is_high_byte reg); destruct (gpr_index (full_register reg)) as [idx|e|w]; try done.
  - injection Hw as <-. exists idx. auto.
  - exists idx. destruct (reg_size reg) as [|[|[|[|[|[|[|[|[|k]]]]]]]]]; try done; injection Hw as <-;
      (split_and!; [done|right; apply list_elem_of_In; simpl; tauto|done]).
Qed.

Lemma merged_bits old value reg n :
  reg_size_ok reg → in_u64 old → in_u64 value → 0 ≤ n →
  Z.testbit (merged old value reg) n = sliced old value (reg_slice reg).1 (reg_slice reg).2 n.
Proof.
  intros Hok Hold Hv Hn. unfold merged, reg_slice, sliced. destruct (is_high_byte reg) eqn:Eh; simpl.
  - by rewrite <- (insert_bits old value 8 8 n) by lia.
  - destruct Hok as [?|Hs]; [congruence|]. set_unfold in Hs. destruct_or! Hs; rewrite Hs.
    + exact (insert_bits old value 0 8 n ltac:(lia) ltac:(lia) Hn).
    + exact (insert_bits old value 0 16 n ltac:(lia) ltac:(lia) Hn).
    + change 0xffffffff with (2 ^ 32 - 1). rewrite Z.land_spec, mask_bits, Z.sub_0_r by lia.
      case_bool_decide; destruct (decide (0 ≤ n < 0 + 8 * Z.of_nat 4)); try lia;
        by rewrite ?andb_true_r, ?andb_false_r.
    + rewrite Z.sub_0_r. destruct (decide (0 ≤ n < 0 + 8 * Z.of_nat 8)); [done|].
      simpl. rewrite !testbit_in_u64 by (done || lia). done.
Qed.

Lemma merged_nonneg old value reg : in_u64 old → in_u64 value → 0 ≤ merged old value reg.
Proof.
  intros [Ho _] [Hv _]. unfold merged.
  assert (∀ m, 0 ≤ Z.ldiff old m) by (intros m; apply Z.ldiff_nonneg; auto).
  assert (∀ m, 0 ≤ m → 0 ≤ Z.land value m) by (intros m ?; apply Z.land_nonneg; auto).
  destruct (is_high_byte reg); [|repeat case_match; try done; try (apply Z.lor_nonneg; auto with lia)].
  - apply Z.lor_nonneg. split; [done|]. apply Z.shiftl_nonneg. auto with lia.
  - auto with lia.
Qed.

(** A register write changes exactly the bits the register names, zero-extending
    32-bit writes to the full register and keeping the rest of the full
    register for 8- and 16-bit ones (the high-byte registers included); every
    other register, RIP and the flags stay; and reading the register back gives
    the value truncated to its width. *)
Theorem write_reg_spec reg value r r' :
  regs_wf r → in_u64 value → write_reg reg value r = (r', Ok tt) → reg ≠ reg_None → reg ≠ reg_RIP →
  let '(lo, w) := reg_slice reg in
  ∃ idx, gpr_index (full_register reg) = Ok idx ∧ regs_wf r' ∧
    (∀ n, 0 ≤ n → Z.testbit (gpr r' idx) n = sliced (gpr r idx) value lo w n) ∧
    (∀ j, j ≠ idx → gpr r' j = gpr r j) ∧
    rip r' = rip r ∧ rflags r' = rflags r ∧ xmms r' = xmms r ∧
    read_reg r' reg = Ok (value mod 2 ^ w).
Proof.
  intros Hwf Hv Hw Hn Hr. destruct (write_reg_ok reg value r r' Hw Hn Hr) as (idx & Hidx & Hok & ->).
  pose proof (gpr_in_u64 r idx Hwf) as Hold.
  assert (Hi16 : (idx < 16)%nat).
  { unfold gpr_index in Hidx. destruct (_ && _) eqn:E; [|done]. injection Hidx as <-.
    by apply andb_true_iff in E as [?%bool_decide_eq_true _]. }
  set (x := merged (gpr r idx) value reg).
  assert (Hbits : ∀ n, 0 ≤ n →
    Z.testbit x n = sliced (gpr r idx) value (reg_slice reg).1 (reg_slice reg).2 n)
    by (intros n ?; by apply merged_bits).
  assert (Hgeom : 0 ≤ (reg_slice reg).1 ∧ 0 < (reg_slice reg).2 ∧ (reg_slice reg).1 + (reg_slice reg).2 ≤ 64).
  { unfold reg_slice. destruct (is_high_byte reg) eqn:E; simpl; [lia|].
    destruct Hok as [?|Hs]; [congruence|]. set_unfold in Hs. destruct_or! Hs; rewrite Hs; lia. }
  assert (Hx : in_u64 x) by (eapply sliced_in_u64; [by apply merged_nonneg|exact Hold|exact Hv|apply Hgeom..|done]).
  assert (Hget : gpr (set_gpr idx x r) idx = x) by (rewrite gpr_set_gpr by done; by rewrite decide_True).
  pose proof (read_slice x value (gpr r idx) _ _ (proj1 Hgeom) (proj1 (proj2 Hgeom)) Hbits) as Hread.
  destruct (reg_slice reg) as [lo w] eqn:Esl. simpl in *. exists idx. split_and!; try done.
  - by apply regs_wf_set.
  - by rewrite Hget.
  - intros j Hj. rewrite gpr_set_gpr by done. by rewrite decide_False.
  - unfold read_reg. rewrite !decide_False by done. rewrite Hidx. cbn [mbind res_bind]. rewrite Hget.
    unfold reg_slice in Esl. destruct (is_high_byte reg) eqn:E.
    + injection Esl as <- <-. by rewrite <- Hread.
    + injection Esl as <- <-. rewrite Z.shiftr_0_r in Hread. destruct Hok as [?|Hs]; [congruence|].
      set_unfold in Hs. destruct_or! Hs; rewrite Hs in *; try (by rewrite <- Hread).
      f_equal. rewrite <- Hread. symmetry. change (8 * Z.of_nat 8) with 64. rewrite land_low by lia.
      apply Z.mod_small. exact Hx.
Qed.
End Registers.

(** ** Flags *)

(** Flag number [j] of RFLAGS. *)
Definition flag_at (r : RegFile) (j : Z) : bool := flag r (Z.shiftl 1 j).

Lemma flag_at_bit r j : 0 ≤ j → flag_at r j = Z.testbit (rflags r) j.
Proof. intros Hj. unfold flag_at, flag. by apply nonzero_bit. Qed.

Lemma bit_of_shiftl k j : 0 ≤ k → 0 ≤ j → Z.testbit (Z.shiftl 1 k) j = bool_decide (j = k).
Proof.
  intros Hk Hj. rewrite Z.shiftl_1_l. case_bool_decide as Hb; [subst; by apply Z.pow2_bits_true|].
  by apply Z.pow2_bits_false.
Qed.

(** Setting one flag leaves the others; bit 1 always reads 1. *)
Lemma flag_set_flag r k on j :
  0 ≤ k → 0 ≤ j → k ≠ 1 → j ≠ 1 →
  flag_at (set_flag (Z.shiftl 1 k) on r) j = if decide (j = k) then on else flag_at r j.
Proof.
  intros Hk Hj Hk1 Hj1. rewrite !flag_at_bit by done. unfold set_flag, ALWAYS1. simpl.
  rewrite Z.lor_spec, (bit_of_shiftl 1 j) by lia. rewrite bool_decide_eq_false_2, orb_false_r by done.
  destruct on; [rewrite Z.lor_spec|rewrite Z.ldiff_spec]; rewrite bit_of_shiftl by done;
    destruct (decide (j = k)); [rewrite bool_decide_eq_true_2|rewrite bool_decide_eq_false_2|
      rewrite bool_decide_eq_true_2|rewrite bool_decide_eq_false_2]; try done;
    by rewrite ?orb_true_r, ?orb_false_r, ?andb_false_r, ?andb_true_r.
Qed.

(** The numbers of the flags. *)
Abbreviation nCF := 0 (only parsing).
Abbreviation nPF := 2 (only parsing).
Abbreviation nAF := 4 (only parsing).
Abbreviation nZF := 6 (only parsing).
Abbreviation nSF := 7 (only parsing).
Abbreviation nOF := 11 (only parsing).

Definition status_flags : list Z := [nCF; nPF; nAF; nZF; nSF; nOF].

(** Two's complement reading of a [k]-bit number. *)
Definition signed (k x : Z) : Z := if decide (x < 2 ^ (k - 1)) then x else x - 2 ^ k.

Lemma testbit_odd_div x k : 0 ≤ k → Z.testbit x k = Z.odd (x / 2 ^ k).
Proof. intros Hk. by rewrite Z.testbit_odd, Z.shiftr_div_pow2. Qed.

(** Bit 4 of [d ^ s ^ r], for [r = d ± s] up to multiples of 32, tells whether
    the quotients by 16 differ by an odd amount. *)
Lemma nibble_xor d s r e c :
  r / 16 = d / 16 + s / 16 - 2 * c + (if e : bool then 1 else 0) →
  nonzero (Z.land (Z.lxor (Z.lxor d s) r) 0x10) = e.
Proof.
  intros Hr. etrans; [apply (nonzero_bit _ 4); lia|]. rewrite !Z.lxor_spec, !testbit_odd_div by lia.
  change (2 ^ 4) with 16. rewrite Hr, Z.odd_add, Z.odd_sub, Z.odd_add, Z.odd_mul.
  destruct (Z.odd (d / 16)), (Z.odd (s / 16)), e; reflexivity.
Qed.

Lemma nibble_add d s c :
  nonzero (Z.land (Z.lxor (Z.lxor d s) (d + s - 32 * c)) 0x10) = bool_decide (16 ≤ d mod 16 + s mod 16).
Proof.
  pose proof (Z.div_mod d 16). pose proof (Z.div_mod s 16).
  pose proof (Z.mod_pos_bound d 16). pose proof (Z.mod_pos_bound s 16).
  apply nibble_xor with c. symmetry. case_bool_decide.
  - apply Z.div_unique with (d mod 16 + s mod 16 - 16); lia.
  - apply Z.div_unique with (d mod 16 + s mod 16); lia.
Qed.

Lemma nibble_sub d s c :
  nonzero (Z.land (Z.lxor (Z.lxor d s) (d - s - 32 * c)) 0x10) = bool_decide (d mod 16 < s mod 16).
Proof.
  pose proof (Z.div_mod d 16). pose proof (Z.div_mod s 16).
  pose proof (Z.mod_pos_bound d 16). pose proof (Z.mod_pos_bound s 16).
  case_bool_decide as Hb.
  - apply (nibble_xor d s _ true (c + s / 16 + 1)). symmetry.
    apply Z.div_unique with (d mod 16 - s mod 16 + 16); lia.
  - apply (nibble_xor d s _ false (c + s / 16)). symmetry.
    apply Z.div_unique with (d mod 16 - s mod 16); lia.
Qed.

Lemma pow_half k : 0 < k → 2 ^ k = 2 * 2 ^ (k - 1) ∧ 0 < 2 ^ (k - 1).
Proof.
  intros Hk. split; [rewrite <- Z.pow_succ_r by lia; f_equal; lia|].
  apply Z.pow_pos_nonneg; lia.
Qed.

Lemma sign_bit_spec size : size ∈ [1; 2; 4; 8]%nat → sign_bit size = Z.shiftl 1 (8 * Z.of_nat size - 1).
Proof. intros Hs. set_unfold in Hs. by destruct_or! Hs; subst size. Qed.

(** Signed overflow is two sign bits against the third. *)
Lemma overflow_bits x y z k :
  0 < k → 0 ≤ x < 2 ^ k → 0 ≤ y < 2 ^ k → 0 ≤ z < 2 ^ k →
  nonzero (Z.land (Z.land (Z.lxor x z) (Z.lxor y z)) (Z.shiftl 1 (k - 1))) =
  bool_decide (2 ^ (k - 1) ≤ x ∧ 2 ^ (k - 1) ≤ y ∧ z < 2 ^ (k - 1) ∨
               x < 2 ^ (k - 1) ∧ y < 2 ^ (k - 1) ∧ 2 ^ (k - 1) ≤ z).
Proof.
  intros Hk Hx Hy Hz. rewrite nonzero_bit, Z.land_spec, !Z.lxor_spec, !testbit_top by lia.
  repeat case_bool_decide; try reflexivity; lia.
Qed.

(** The flags after an addition or subtraction on [k]-bit operands. *)
Record flags_after (r r' : RegFile) (k : Z) (res : Z) (carry overflow aux : bool) : Prop := {
  ar_cf : flag_at r' nCF = carry;
  ar_zf : flag_at r' nZF = bool_decide (res = 0);
  ar_sf : flag_at r' nSF = bool_decide (2 ^ (k - 1) ≤ res);
  ar_of : flag_at r' nOF = overflow;
  ar_af : flag_at r' nAF = aux;
  ar_pf : flag_at r' nPF = parity_even (res mod 256);
  ar_rest : ∀ j, 0 ≤ j → j ≠ 1 → j ∉ status_flags → flag_at r' j = flag_at r j;
  ar_regs : gprs r' = gprs r ∧ xmms r' = xmms r ∧ rip r' = rip r;
}.

(** A chain of six updates, read flag by flag. *)
Lemma six_flags r k res carry overflow aux cf zf sf pf ovf af :
  cf = carry → zf = bool_decide (res = 0) → sf = bool_decide (2 ^ (k - 1) ≤ res) → pf = parity_even (res mod 256) →
  ovf = overflow → af = aux →
  flags_after r (set_flag AF af (set_flag OF_ ovf (set_flag PF pf (set_flag SF sf
    (set_flag ZF zf (set_flag CF cf r)))))) k res carry overflow aux.
Proof.
  intros -> -> -> -> -> ->. change CF with (Z.shiftl 1 nCF). unfold ZF, SF, PF, AF, OF_.
  split; try (rewrite !flag_set_flag by lia; reflexivity); [|done].
  intros j Hj Hj1 Hn. unfold status_flags in Hn. rewrite !not_elem_of_cons in Hn.
  rewrite !flag_set_flag by lia. by rewrite !decide_False by tauto.
Qed.

Section Arith.
Context (size : nat) (Hsize : size ∈ [1; 2; 4; 8]%nat).
Let k := 8 * Z.of_nat size.

Lemma width_facts : 8 ≤ k ∧ 2 ^ k = 2 * 2 ^ (k - 1) ∧ 0 < 2 ^ (k - 1) ∧ ∃ q, 2 ^ k = 32 * q.
Proof.
  assert (8 ≤ k) by (set_unfold in Hsize; unfold k; destruct_or! Hsize; subst size; lia).
  destruct (pow_half k) as [? ?]; [lia|]. split_and!; try done.
  exists (2 ^ (k - 5)). change 32 with (2 ^ 5). rewrite <- Z.pow_add_r by lia. f_equal. lia.
Qed.

Lemma low_byte_mod x : low_byte x = x mod 256.
Proof. unfold low_byte. by apply (land_low x 8). Qed.

(** After ADD the flags describe the addition exactly: CF the unsigned carry, OF
    the signed overflow, ZF, SF and PF the truncated sum, AF the carry out of
    the low nibble, for every operand width; the other flags and the registers stay. *)
Lemma add_flags_spec r dst src result :
  result mod 2 ^ k = (dst + src) mod 2 ^ k →
  let d := dst mod 2 ^ k in
  let s := src mod 2 ^ k in
  flags_after r (set_add_flags dst src result size r) k (result mod 2 ^ k)
    (bool_decide (2 ^ k ≤ d + s))
    (negb (bool_decide (- 2 ^ (k - 1) ≤ signed k d + signed k s < 2 ^ (k - 1))))
    (bool_decide (16 ≤ d mod 16 + s mod 16)).
Proof.
  intros Hres d s. destruct width_facts as (Hk8 & Hpow & Hhalf & q & Hq).
  assert (Hd : 0 ≤ d < 2 ^ k) by (apply Z.mod_pos_bound; lia).
  assert (Hs : 0 ≤ s < 2 ^ k) by (apply Z.mod_pos_bound; lia).
  assert (Hr : result mod 2 ^ k = d + s - (if decide (2 ^ k ≤ d + s) then 2 ^ k else 0)).
  { rewrite Hres, Zplus_mod. fold d s. destruct (decide (2 ^ k ≤ d + s)); symmetry;
      [apply Z.mod_unique with 1|apply Z.mod_unique with 0]; lia. }
  set (rs := result mod 2 ^ k) in *. assert (Hrs : 0 ≤ rs < 2 ^ k) by (apply Z.mod_pos_bound; lia).
  unfold set_add_flags. rewrite !size_mask_land, sign_bit_spec by done. fold k d s rs.
  apply six_flags; [|done|..].
  - apply bool_decide_ext. assert (size_mask size = 2 ^ k - 1) as ->; [|lia].
    unfold k. set_unfold in Hsize. by destruct_or! Hsize; subst size.
  - rewrite nonzero_bit by lia. by rewrite testbit_top by lia.
  - by rewrite low_byte_mod.
  - rewrite overflow_bits by lia. rewrite <- bool_decide_not. apply bool_decide_ext. unfold signed.
    destruct (decide (d < 2 ^ (k - 1))), (decide (s < 2 ^ (k - 1))), (decide (2 ^ k ≤ d + s)); lia.
  - rewrite Hr. destruct (decide (2 ^ k ≤ d + s)).
    + rewrite Hq. apply nibble_add.
    + rewrite <- (nibble_add d s 0). done.
Qed.

(** After SUB or CMP the flags describe the subtraction exactly: CF the unsigned
    borrow, OF the signed overflow, ZF, SF and PF the truncated difference, AF the
    borrow into the low nibble, for every operand width. *)
Lemma sub_flags_spec r dst src result :
  result mod 2 ^ k = (dst - src) mod 2 ^ k →
  let d := dst mod 2 ^ k in
  let s := src mod 2 ^ k in
  flags_after r (set_sub_flags dst src result size r) k (result mod 2 ^ k)
    (bool_decide (d < s))
    (negb (bool_decide (- 2 ^ (k - 1) ≤ signed k d - signed k s < 2 ^ (k - 1))))
    (bool_decide (d mod 16 < s mod 16)).
Proof.
  intros Hres d s. destruct width_facts as (Hk8 & Hpow & Hhalf & q & Hq).
  assert (Hd : 0 ≤ d < 2 ^ k) by (apply Z.mod_pos_bound; lia).
  assert (Hs : 0 ≤ s < 2 ^ k) by (apply Z.mod_pos_bound; lia).
  assert (Hr : result mod 2 ^ k = d - s + (if decide (d < s) then 2 ^ k else 0)).
  { rewrite Hres, Zminus_mod. fold d s. destruct (decide (d < s)); symmetry;
      [apply Z.mod_unique with (-1)|apply Z.mod_unique with 0]; lia. }
  set (rs := result mod 2 ^ k) in *. assert (Hrs : 0 ≤ rs < 2 ^ k) by (apply Z.mod_pos_bound; lia).
  unfold set_sub_flags. rewrite !size_mask_land, sign_bit_spec by done. fold k d s rs.
  apply six_flags; [done|done| | | |].
  - rewrite nonzero_bit by lia. by rewrite testbit_top by lia.
  - by rewrite low_byte_mod.
  - rewrite (Z.lxor_comm d s), (Z.lxor_comm d rs). 
    rewrite overflow_bits by lia. rewrite <- bool_decide_not. apply bool_decide_ext. unfold signed.
    destruct (decide (d < 2 ^ (k - 1))), (decide (s < 2 ^ (k - 1))), (decide (d < s)); lia.
  - rewrite Hr. destruct (decide (d < s)).
    + replace (d - s + 2 ^ k) with (d - s - 32 * (- q)) by lia. apply nibble_sub.
    + rewrite <- (nibble_sub d s 0). do 3 f_equal.
Qed.
End Arith.

(** ** Instances *)

(** Registers by number, size and whether it is a high byte. *)
Definition demo_registers : IcedRegister := {|
  Register := nat * nat * bool;
  reg_None := (99, 0, false)%nat;
  reg_RIP := (98, 8, false)%nat;
  reg_AH := (0, 1, true)%nat;
  reg_CH := (1, 1, true)%nat;
  reg_DH := (2, 1, true)%nat;
  reg_BH := (3, 1, true)%nat;
  full_register := λ r, (r.1.1, 8, false)%nat;
  reg_number := λ r, r.1.1;
  reg_size := λ r, r.1.2;
  is_xmm := λ _, false;
  reg_name := λ _, "r"%string;
|}.
#[local] Existing Instance demo_registers.

Definition demo_regs : RegFile := set_gpr 1 0x1122334455667788 RegFile_new.

Lemma demo_regs_wf : regs_wf demo_regs.
Proof. split; [done|]. repeat constructor; by vm_compute. Qed.

Definition demo_CH : @Register demo_registers := (1, 1, true)%nat.

(** CH gets the low byte; the rest of RCX stays. *)
Lemma write_reg_spec_witness :
  ∃ r', write_reg demo_CH 0xabcd demo_regs = (r', Ok tt) ∧
    read_reg r' demo_CH = Ok 0xcd ∧ gpr r' 1 = 0x112233445566cd88.
Proof.
  exists (write_reg demo_CH 0xabcd demo_regs).1. split; [reflexivity|].
  destruct (write_reg_spec demo_CH 0xabcd demo_regs (write_reg demo_CH 0xabcd demo_regs).1
    demo_regs_wf (in_u64_lit eq_refl) eq_refl ltac:(discriminate) ltac:(discriminate))
    as (idx & _ & _ & _ & _ & _ & _ & _ & Hread).
  split; [exact Hread|reflexivity].
Defined.

(** 0x7f + 1 overflows as a signed byte; 0xff + 1 carries. *)
Lemma add_flags_spec_witness :
  flag_at (set_add_flags 0x7f 1 0x80 1 RegFile_new) nOF = true ∧
  flag_at (set_add_flags 0xff 1 0x100 1 RegFile_new) nCF = true.
Proof.
  assert (H1 : 1%nat ∈ [1; 2; 4; 8]%nat) by (by left).
  split.
  - etrans; [apply (ar_of _ _ _ _ _ _ _ (add_flags_spec 1 H1 RegFile_new 0x7f 1 0x80 eq_refl))|]. reflexivity.
  - etrans; [apply (ar_cf _ _ _ _ _ _ _ (add_flags_spec 1 H1 RegFile_new 0xff 1 0x100 eq_refl))|]. reflexivity.
Defined.

Lemma sub_flags_spec_witness :
  flag_at (set_sub_flags 0 1 (u64_lim - 1) 4 RegFile_new) nCF = true ∧
  flag_at (set_sub_flags 0x80000000 1 0x7fffffff 4 RegFile_new) nOF = true.
Proof.
  assert (H4 : 4%nat ∈ [1; 2; 4; 8]%nat) by (do 2 right; by left).
  split.
  - etrans; [apply (ar_cf _ _ _ _ _ _ _ (sub_flags_spec 4 H4 RegFile_new 0 1 (u64_lim - 1) eq_refl))|]. reflexivity.
  - etrans; [apply (ar_of _ _ _ _ _ _ _ (sub_flags_spec 4 H4 RegFile_new 0x80000000 1 0x7fffffff eq_refl))|]. reflexivity.
Defined.
