(* ===== verification/sync_obj.v ===== *)
(** * Waitable kernel objects (crates/wie-winapi/src/sync_obj.rs)

    Threads, events and semaphores behind [Arc]s, each guarded by its own mutex:
    a method is one or two critical sections, and a wait that parks ends with a
    later wake-up section.  An [Arc] is an index into the store of bodies, so
    the handle table and detached wait targets share one object.  No section
    can panic, so the mutexes are never poisoned and those branches are absent. *)

From S2P Require Import Prelude regs.

Definition STILL_ACTIVE : u32 := 259.
Definition WAIT_OBJECT_0 : u32 := 0.
Definition WAIT_TIMEOUT : u32 := 0x102.
Definition WAIT_FAILED : u32 := 0xffffffff.
Definition INFINITE : u32 := 0xffffffff.
Definition MAXIMUM_WAIT_OBJECTS : nat := 64.
Abbreviation i32_max := 2147483647 (only parsing).

(** What a section of a wait ends with. *)
Inductive wait_out := Returned (b : bool) | Parked.
#[global] Instance wait_out_eq_dec : EqDecision wait_out.
Proof. solve_decision. Defined.

(** ** Threads *)

Record ThreadObject := mkThread {
  th_tid : u32;
  th_handle : u64;
  th_exit_code : u32;
  th_finished : bool;
}.

(** [finish] stores the exit code (an atomic), then sets the flag under the lock. *)
Definition thread_store_exit_code (code : u32) (t : ThreadObject) : ThreadObject :=
  mkThread (th_tid t) (th_handle t) code (th_finished t).
Definition thread_mark_finished (t : ThreadObject) : ThreadObject :=
  mkThread (th_tid t) (th_handle t) (th_exit_code t) true.
Definition thread_finish (code : u32) (t : ThreadObject) : ThreadObject :=
  thread_mark_finished (thread_store_exit_code code t).
Definition is_finished (t : ThreadObject) : bool := th_finished t.

(** [wait_until_finished] up to its return or its first park. *)
Definition thread_wait_begin (timeout_ms : u32) (t : ThreadObject) : wait_out :=
  if th_finished t then Returned true
  else if decide (timeout_ms = 0) then Returned false
  else Parked.

(** ... and after a wake-up, which may be spurious. *)
Definition thread_wake (timeout_ms : u32) (timed_out : bool) (t : ThreadObject) : wait_out :=
  if decide (timeout_ms = INFINITE) then (if th_finished t then Returned true else Parked)
  else if th_finished t then Returned true
  else if timed_out then Returned false
  else Returned true.

(** ** Events *)

Record EventObject := mkEvent {
  ev_handle : u64;
  ev_manual_reset : bool;
  ev_signaled : bool;
}.

Definition set_signaled (b : bool) (e : EventObject) : EventObject :=
  mkEvent (ev_handle e) (ev_manual_reset e) b.
Definition event_set : EventObject → EventObject := set_signaled true.
Definition event_reset : EventObject → EventObject := set_signaled false.

(** A satisfied wait consumes an auto-reset event. *)
Definition event_consume (e : EventObject) : EventObject :=
  if ev_manual_reset e then e else set_signaled false e.

Definition event_wait_begin (timeout_ms : u32) (e : EventObject) : EventObject * wait_out :=
  if ev_signaled e then (event_consume e, Returned true)
  else if decide (timeout_ms = 0) then (e, Returned false)
  else (e, Parked).

Definition event_wake (timeout_ms : u32) (timed_out : bool) (e : EventObject) : EventObject * wait_out :=
  if decide (timeout_ms = INFINITE) then
    (if ev_signaled e then (event_consume e, Returned true) else (e, Parked))
  else if ev_signaled e then (event_consume e, Returned true)
  else if timed_out then (e, Returned false)
  else (e, Returned true).

(** ** Semaphores *)

Record SemaphoreObject := mkSem {
  sem_handle : u64;
  sem_maximum : Z;
  sem_count : Z;
}.

Definition set_count (c : Z) (s : SemaphoreObject) : SemaphoreObject :=
  mkSem (sem_handle s) (sem_maximum s) c.

(** [i32::saturating_sub(1)]. *)
Definition dec_count (s : SemaphoreObject) : SemaphoreObject :=
  set_count (Z.max (sem_count s - 1) (-2147483648)) s.

Definition try_acquire (s : SemaphoreObject) : SemaphoreObject * bool :=
  if decide (0 < sem_count s) then (dec_count s, true) else (s, false).

Definition sem_wait_begin (timeout_ms : u32) (s : SemaphoreObject) : SemaphoreObject * wait_out :=
  if decide (0 < sem_count s) then (dec_count s, Returned true)
  else if decide (timeout_ms = 0) then (s, Returned false)
  else (s, Parked).

(** A spurious wake-up counts as a timeout. *)
Definition sem_wake (timeout_ms : u32) (timed_out : bool) (s : SemaphoreObject) : SemaphoreObject * wait_out :=
  if decide (timeout_ms = INFINITE) then
    (if decide (sem_count s ≤ 0) then (s, Parked) else (dec_count s, Returned true))
  else if decide (0 < sem_count s) then (dec_count s, Returned true)
  else if timed_out then (s, Returned false)
  else (s, Returned false).

Definition sem_release (release_count : Z) (s : SemaphoreObject) : SemaphoreObject * option Z :=
  if decide (release_count ≤ 0) then (s, None)
  else
    let prev := sem_count s in
    let new := prev + release_count in
    if decide (i32_max < new) then (s, None)
    else if decide (sem_maximum s < new) then (s, None)
    else (set_count new s, Some prev).

(** ** The object store and the handle table *)

Inductive KernelObject :=
  | Thread (t : ThreadObject)
  | Event (e : EventObject)
  | Semaphore (s : SemaphoreObject).

Record RuntimeFunction := mkRuntimeFunction { begin_address : u32; end_address : u32; unwind_data : u32 }.

Record PendingSpawn := mkSpawn {
  ps_tid : u32;
  ps_handle : u64;
  ps_start_address : u64;
  ps_parameter : u64;
  ps_stack_base : u64;
  ps_stack_size : usize;
}.

Record MultiWaitRequest := mkMultiWait {
  mw_handles : list u64;
  mw_wait_all : bool;
  mw_timeout_ms : u32;
}.

(** [arcs] is the store of shared bodies; [objects] and [cs_waiters] hold
    indices (a critical-section queue has no state but its identity). *)
Record SyncState := mkSync {
  next_handle : u64;
  objects : gmap u64 nat;
  arcs : list KernelObject;
  thread_cpu : gmap u32 ThreadContext;
  cs_waiters : gmap u64 nat;
  next_cs_queue : nat;
  next_stack_slot : u32;
  pending_spawns : list PendingSpawn;
  suspended_spawns : gmap u64 PendingSpawn;
  multi_wait : gmap u32 MultiWaitRequest;
  process_dying : bool;
  function_tables : gmap u64 (list RuntimeFunction);
}.

Definition sync_new : SyncState :=
  mkSync 0x80000001 ∅ [] ∅ ∅ 0 1 [] ∅ ∅ false ∅.

Definition alloc_handle (s : SyncState) : SyncState * u64 :=
  let h := next_handle s in
  let next := sat_add (next_handle s) 1 in
  let next := if bool_decide (next = 0) || bool_decide (next = u64_lim - 1) then 0x80000001 else next in
  (mkSync next (objects s) (arcs s) (thread_cpu s) (cs_waiters s) (next_cs_queue s) (next_stack_slot s)
     (pending_spawns s) (suspended_spawns s) (multi_wait s) (process_dying s) (function_tables s), h).

(** [Arc::new] of [obj], entered in the table under [handle]. *)
Definition insert_object (handle : u64) (obj : KernelObject) (s : SyncState) : SyncState * nat :=
  let arc := length (arcs s) in
  (mkSync (next_handle s) (<[handle := arc]> (objects s)) (arcs s ++ [obj]) (thread_cpu s) (cs_waiters s)
     (next_cs_queue s) (next_stack_slot s) (pending_spawns s) (suspended_spawns s) (multi_wait s)
     (process_dying s) (function_tables s), arc).

Definition set_thread_cpu (m : gmap u32 ThreadContext) (s : SyncState) : SyncState :=
  mkSync (next_handle s) (objects s) (arcs s) m (cs_waiters s) (next_cs_queue s) (next_stack_slot s)
    (pending_spawns s) (suspended_spawns s) (multi_wait s) (process_dying s) (function_tables s).

Definition register_thread (tid : u32) (ctx : ThreadContext) (s : SyncState) : SyncState * (u64 * nat) :=
  let '(s, handle) := alloc_handle s in
  let s := set_thread_cpu (<[tid := ctx]> (thread_cpu s)) s in
  let '(s, arc) := insert_object handle (Thread (mkThread tid handle STILL_ACTIVE false)) s in
  (s, (handle, arc)).

Definition register_event (manual_reset initial : bool) (s : SyncState) : SyncState * (u64 * nat) :=
  let '(s, handle) := alloc_handle s in
  let '(s, arc) := insert_object handle (Event (mkEvent handle manual_reset initial)) s in
  (s, (handle, arc)).

Definition new_semaphore (handle : u64) (initial_count maximum_count : Z) : SemaphoreObject :=
  let initial := Z.min (Z.max initial_count 0) (Z.max maximum_count 0) in
  let maximum := Z.max maximum_count 1 in
  mkSem handle maximum initial.

Definition register_semaphore (initial_count maximum_count : Z) (s : SyncState) : SyncState * (u64 * nat) :=
  let '(s, handle) := alloc_handle s in
  let '(s, arc) := insert_object handle (Semaphore (new_semaphore handle initial_count maximum_count)) s in
  (s, (handle, arc)).

Definition object_arc (s : SyncState) (handle : u64) : option nat := objects s !! handle.
Definition object (s : SyncState) (handle : u64) : option KernelObject :=
  arc ← objects s !! handle; arcs s !! arc.

Definition thread_by_handle (s : SyncState) (handle : u64) : option nat :=
  arc ← objects s !! handle;
  match arcs s !! arc with
  | Some (Thread _) => Some arc
  | _ => None
  end.

Definition cs_queue (cs_va : u64) (s : SyncState) : SyncState * nat :=
  match cs_waiters s !! cs_va with
  | Some q => (s, q)
  | None =>
      (mkSync (next_handle s) (objects s) (arcs s) (thread_cpu s) (<[cs_va := next_cs_queue s]> (cs_waiters s))
         (S (next_cs_queue s)) (next_stack_slot s) (pending_spawns s) (suspended_spawns s) (multi_wait s)
         (process_dying s) (function_tables s), next_cs_queue s)
  end.

(** A wait target is a clone of the [Arc]. *)
Definition wait_target (s : SyncState) (handle : u64) : option nat := objects s !! handle.
Definition wait_targets (s : SyncState) (handles : list u64) : option (list nat) :=
  mapM (wait_target s) handles.

(** ** Waiting on a target *)

Definition try_wait (o : KernelObject) : KernelObject * bool :=
  match o with
  | Thread t => (o, is_finished t)
  | Event e =>
      let '(e', out) := event_wait_begin 0 e in
      (Event e', bool_decide (out = Returned true))
  | Semaphore s => let '(s', b) := try_acquire s in (Semaphore s', b)
  end.

Definition wait_begin (timeout_ms : u32) (o : KernelObject) : KernelObject * wait_out :=
  match o with
  | Thread t => (o, thread_wait_begin timeout_ms t)
  | Event e => let '(e', out) := event_wait_begin timeout_ms e in (Event e', out)
  | Semaphore s => let '(s', out) := sem_wait_begin timeout_ms s in (Semaphore s', out)
  end.

Definition wait_wake (timeout_ms : u32) (timed_out : bool) (o : KernelObject) : KernelObject * wait_out :=
  match o with
  | Thread t => (o, thread_wake timeout_ms timed_out t)
  | Event e => let '(e', out) := event_wake timeout_ms timed_out e in (Event e', out)
  | Semaphore s => let '(s', out) := sem_wake timeout_ms timed_out s in (Semaphore s', out)
  end.

(** The code of a [WaitTarget::wait] that returned [b]. *)
Definition wait_code (b : bool) : u32 := if b then WAIT_OBJECT_0 else WAIT_TIMEOUT.

(** ** Several objects

    A poll visits its targets one section at a time, so other threads may run
    between two sections: [env k] is what they do to the store right before
    the [k]-th section of the poll. *)

Abbreviation Store := (list KernelObject) (only parsing).
Abbreviation Env := (nat → Store → Store) (only parsing).

Definition target_try_wait (arc : nat) (st : Store) : Store * bool :=
  match st !! arc with
  | Some o => let '(o', b) := try_wait o in (<[arc := o']> st, b)
  | None => (st, false)
  end.

(** [WAIT_OBJECT_0.saturating_add(u32::try_from(i).unwrap_or(0))]. *)
Definition any_code (i : nat) : u32 :=
  Z.min (WAIT_OBJECT_0 + (if decide (Z.of_nat i < u32_lim) then Z.of_nat i else 0)) (u32_lim - 1).

(** The wait-any pass; [i] is the index of the first target of the list. *)
Fixpoint try_any (env : Env) (i : nat) (targets : list nat) (st : Store) : Store * option u32 :=
  match targets with
  | [] => (st, None)
  | t :: ts =>
      let '(st, b) := target_try_wait t (env i st) in
      if b then (st, Some (any_code i))
      else try_any env (S i) ts st
  end.

(** The first pass of wait-all: threads only, nothing is consumed. *)
Fixpoint threads_finished (env : Env) (k : nat) (targets : list nat) (st : Store) : Store * bool :=
  match targets with
  | [] => (st, true)
  | t :: ts =>
      match st !! t with
      | Some (Thread _) =>
          let st := env k st in
          match st !! t with
          | Some (Thread th) => if is_finished th then threads_finished env (S k) ts st else (st, false)
          | _ => threads_finished env (S k) ts st
          end
      | _ => threads_finished env (S k) ts st
      end
  end.

(** The second pass; a unit taken before a failing target stays taken. *)
Fixpoint try_all (env : Env) (k : nat) (targets : list nat) (st : Store) : Store * option u32 :=
  match targets with
  | [] => (st, Some WAIT_OBJECT_0)
  | t :: ts =>
      let '(st, b) := target_try_wait t (env k st) in
      if b then try_all env (S k) ts st else (st, None)
  end.

Definition multi_try_once (env : Env) (targets : list nat) (wait_all : bool) (st : Store) : Store * option u32 :=
  if wait_all then
    match threads_finished env 0 targets st with
    | (st, false) => (st, None)
    | (st, true) => try_all env (length targets) targets st
    end
  else try_any env 0 targets st.

(** One round of the polling loop: the interference during the poll, whether the
    deadline has passed, the slice (1 to 25 ms), the interference during the sleep
    or the park on the first target, and whether that park timed out. *)
Record Round := mkRound {
  rd_env : Env;
  rd_expired : bool;
  rd_slice : u32;
  rd_during : Store → Store;
  rd_timed_out : bool;
}.

(** [first.wait(slice_ms)]: a timed wait ends at its first wake-up. *)
Definition wait_first (first : nat) (r : Round) (st : Store) : Store * u32 :=
  match st !! first with
  | None => (st, WAIT_TIMEOUT)
  | Some o =>
      match wait_begin (rd_slice r) o with
      | (o', Returned b) => (<[first := o']> st, wait_code b)
      | (o', Parked) =>
          let st := rd_during r (<[first := o']> st) in
          match st !! first with
          | None => (st, WAIT_TIMEOUT)
          | Some o =>
              match wait_wake (rd_slice r) (rd_timed_out r) o with
              | (o', Returned b) => (<[first := o']> st, wait_code b)
              | (o', Parked) => (<[first := o']> st, WAIT_TIMEOUT)
              end
          end
      end
  end.

(** The polling loop, as long as the rounds last ([None]: still waiting).  With
    an infinite timeout there is no deadline to expire. *)
Fixpoint wait_multiple_loop (targets : list nat) (wait_all infinite : bool) (rounds : list Round) (st : Store)
    : Store * option u32 :=
  match rounds with
  | [] => (st, None)
  | r :: rs =>
      match multi_try_once (rd_env r) targets wait_all st with
      | (st, Some code) => (st, Some code)
      | (st, None) =>
          if negb infinite && rd_expired r then (st, Some WAIT_TIMEOUT)
          else if wait_all then wait_multiple_loop targets wait_all infinite rs (rd_during r st)
          else match targets with
               | first :: _ =>
                   let '(st, code) := wait_first first r st in
                   if decide (code = WAIT_OBJECT_0) then (st, Some WAIT_OBJECT_0)
                   else wait_multiple_loop targets wait_all infinite rs st
               | [] => (st, Some WAIT_FAILED)
               end
      end
  end.

(** [env] is the interference during the poll that precedes the loop. *)
Definition wait_multiple (env : Env) (targets : list nat) (wait_all : bool) (timeout_ms : u32)
    (rounds : list Round) (st : Store) : Store * option u32 :=
  if bool_decide (targets = []) || bool_decide (MAXIMUM_WAIT_OBJECTS < length targets)%nat
  then (st, Some WAIT_FAILED)
  else match multi_try_once env targets wait_all st with
       | (st, Some code) => (st, Some code)
       | (st, None) =>
           if decide (timeout_ms = 0) then (st, Some WAIT_TIMEOUT)
           else wait_multiple_loop targets wait_all (bool_decide (timeout_ms = INFINITE)) rounds st
       end.

(** * Interleavings of waits on one object

    Threads wait on a shared object while others operate on it.  An execution
    is a list of sections in the order the mutex grants them; a parked wait may be
    woken at any time, as a condition variable allows. *)


(** What a client needs of a waitable object: the two sections of a wait, and
    the other operations with the units they add and take. *)
Class Waitable (O Op : Type) := {
  w_begin : u32 → O → O * wait_out;
  w_wake : u32 → bool → O → O * wait_out;
  w_op : Op → O → O * Z * Z;
}.

Section Machine.
Context {O Op : Type} `{Waitable O Op}.

Inductive Act :=
  | AWait (w : nat) (timeout : u32)
  | AWake (w : nat) (timed_out : bool)
  | AOp (o : Op).

(** The object, who is parked with which timeout, the waits that succeeded and
    the units that were added. *)
Record sys := mkSys { sobj : O; parked : gmap nat u32; wins : Z; credits : Z }.

Definition start (o : O) : sys := mkSys o ∅ 0 0.

Definition settle_wait (w : nat) (t : u32) (s : sys) (out : O * wait_out) : sys :=
  match out with
  | (o', Returned b) => mkSys o' (delete w (parked s)) (wins s + Z.b2z b) (credits s)
  | (o', Parked) => mkSys o' (<[w := t]> (parked s)) (wins s) (credits s)
  end.

(** One section; [None] when it is not enabled. *)
Definition exec (a : Act) (s : sys) : option sys :=
  match a with
  | AWait w t =>
      match parked s !! w with
      | None => Some (settle_wait w t s (w_begin t (sobj s)))
      | Some _ => None
      end
  | AWake w timed_out =>
      match parked s !! w with
      | Some t => if timed_out && bool_decide (t = INFINITE) then None
                  else Some (settle_wait w t s (w_wake t timed_out (sobj s)))
      | None => None
      end
  | AOp o => let '(o', credit, won) := w_op o (sobj s) in
             Some (mkSys o' (parked s) (wins s + won) (credits s + credit))
  end.

Fixpoint exec_all (acts : list Act) (s : sys) : option sys :=
  match acts with
  | [] => Some s
  | a :: acts' => s' ← exec a s; exec_all acts' s'
  end.

(** An invariant of every section holds after every execution. *)
Lemma exec_all_inv (I : sys → Prop) (P : Act → Prop) acts s s' :
  (∀ a s s', P a → I s → exec a s = Some s' → I s') →
  Forall P acts → I s → exec_all acts s = Some s' → I s'.
Proof.
  intros Hstep Hacts. revert s. induction Hacts as [|a acts Ha Hacts IH]; intros s Hs He; simpl in He.
  - by injection He as <-.
  - apply bind_Some in He as (s1 & He1 & He2). eapply IH; [|exact He2]. by eapply Hstep.
Qed.
End Machine.
Arguments sys : clear implicits.
Arguments Act : clear implicits.

(** ** Semaphores *)

Inductive SemOp := SRelease (n : Z) | STry.

#[global] Instance sem_waitable : Waitable SemaphoreObject SemOp := {|
  w_begin := sem_wait_begin;
  w_wake := sem_wake;
  w_op o s :=
    match o with
    | SRelease n => let '(s', prev) := sem_release n s in (s', match prev with Some _ => n | None => 0 end, 0)
    | STry => let '(s', b) := try_acquire s in (s', 0, Z.b2z b)
    end;
|}.

(** Units in the semaphore plus units taken are the units put in. *)
Definition sem_inv (initial maximum : Z) (s : sys SemaphoreObject) : Prop :=
  sem_maximum (sobj s) = maximum ∧ 0 ≤ sem_count (sobj s) ≤ maximum ∧
  sem_count (sobj s) + wins s = initial + credits s.

(** A section of a wait takes a unit exactly when it returns success. *)
Lemma sem_section s out :
  (∃ t, out = sem_wait_begin t s) ∨ (∃ t b, out = sem_wake t b s) →
  sem_maximum out.1 = sem_maximum s ∧
  ((out.2 = Returned true ∧ 0 < sem_count s ∧ sem_count out.1 = sem_count s - 1) ∨
   (out.2 ≠ Returned true ∧ sem_count out.1 = sem_count s)).
Proof.
  intros [[t ->]|(t & b & ->)]; [unfold sem_wait_begin|unfold sem_wake; destruct b];
    repeat case_decide; simpl; (split; [done|]);
    solve [ left; split; [done|split; [lia|unfold dec_count, set_count; simpl; lia]]
          | right; split; [discriminate|reflexivity] ].
Qed.

Lemma sem_settle initial maximum w t s out :
  sem_inv initial maximum s →
  (∃ t, out = sem_wait_begin t (sobj s)) ∨ (∃ t b, out = sem_wake t b (sobj s)) →
  sem_inv initial maximum (settle_wait w t s out).
Proof.
  intros (Hm & Hc & Hbal) Hout. destruct (sem_section _ _ Hout) as [Hmax Hcase].
  destruct out as [o' [[]|]]; simpl in *; destruct Hcase as [(? & ? & ?)|(? & ?)]; try done;
    (split_and!; simpl; [congruence|lia..]).
Qed.

Lemma sem_exec initial maximum a s s' :
  sem_inv initial maximum s → exec a s = Some s' → sem_inv initial maximum s'.
Proof.
  intros Hinv He. destruct a as [w t|w b|[n|]]; simpl in He.
  - destruct (parked s !! w); [done|]. injection He as <-. apply sem_settle; [done|eauto].
  - destruct (parked s !! w) as [t|]; [|done]. destruct (_ && _); [done|]. injection He as <-.
    apply sem_settle; [done|eauto].
  - destruct Hinv as (Hm & Hc & Hbal). unfold sem_release in He.
    repeat (case_decide; [injection He as <-; split_and!; simpl; lia|]).
    injection He as <-. split_and!; simpl; lia.
  - destruct Hinv as (Hm & Hc & Hbal). unfold try_acquire in He. case_decide; injection He as <-.
    + split_and!; simpl; [done|lia..].
    + split_and!; simpl; lia.
Qed.

(** Over every interleaving of waits (polling, timed or infinite, with spurious
    and timed-out wake-ups), try-acquires and releases, the count stays between 0
    and the maximum and no unit is lost or duplicated: units left plus successful
    waits equal the initial count plus the units released. *)
Theorem semaphore_conserves h initial_count maximum_count acts s :
  exec_all acts (start (new_semaphore h initial_count maximum_count)) = Some s →
  0 ≤ sem_count (sobj s) ≤ Z.max maximum_count 1 ∧
  sem_count (sobj s) + wins s =
    sem_count (new_semaphore h initial_count maximum_count) + credits s.
Proof.
  intros He.
  assert (H : sem_inv (sem_count (new_semaphore h initial_count maximum_count)) (Z.max maximum_count 1) s).
  { eapply (exec_all_inv _ (λ _, True)); [|by apply Forall_true| |exact He].
    - intros a s1 s2 _. apply sem_exec.
    - split_and!; simpl; lia. }
  destruct H as (_ & H1 & H2). done.
Qed.

(** Two waiters, one unit released twice: both get through, nothing is left. *)
Lemma semaphore_conserves_witness :
  ∃ s, exec_all [AWait 1 INFINITE; AWait 2 1000; AOp (SRelease 1); AWake 2 false; AOp (SRelease 1);
                 AWake 1 false] (start (new_semaphore 5 0 3)) = Some s ∧ sem_count (sobj s) + wins s = 2.
Proof.
  destruct (exec_all [AWait 1 INFINITE; AWait 2 1000; AOp (SRelease 1); AWake 2 false; AOp (SRelease 1);
                 AWake 1 false] (start (new_semaphore 5 0 3))) as [s|] eqn:E; [|by vm_compute in E].
  exists s. split; [reflexivity|]. destruct (semaphore_conserves 5 0 3 _ s E) as [_ H].
  assert (Hc : credits s = 2) by (vm_compute in E; by injection E as <-). rewrite H, Hc. reflexivity.
Defined.

(** ** Events *)

Inductive EventOp := ESet | EReset.

#[global] Instance event_waitable : Waitable EventObject EventOp := {|
  w_begin := event_wait_begin;
  w_wake := event_wake;
  w_op o e := match o with ESet => (event_set e, 1, 0) | EReset => (event_reset e, 0, 0) end;
|}.

(** Waits whose sections the lost wake-up of a timed wait cannot reach. *)
Definition untimed (a : Act EventOp) : Prop :=
  match a with AWait _ t => t = 0 ∨ t = INFINITE | _ => True end.

Definition event_inv (initial : Z) (s : sys EventObject) : Prop :=
  ev_manual_reset (sobj s) = false ∧ map_Forall (λ _ t, t = INFINITE) (parked s) ∧
  wins s + Z.b2z (ev_signaled (sobj s)) ≤ initial + credits s.

Lemma event_exec initial a s s' :
  untimed a → event_inv initial s → exec a s = Some s' → event_inv initial s'.
Proof.
  intros Ha (Hm & Hp & Hbal) He. destruct a as [w t|w b|[]]; simpl in He.
  - destruct (parked s !! w) eqn:Ew; [done|]. injection He as <-. unfold event_wait_begin, event_consume.
    destruct (ev_signaled (sobj s)) eqn:Es; [rewrite Hm|destruct (decide (t = 0))]; simpl;
      split_and!; simpl; rewrite ?Es; simpl in *; try done; try lia.
    + by apply map_Forall_delete.
    + by apply map_Forall_delete.
    + apply map_Forall_insert_2; [by destruct Ha|done].
  - destruct (parked s !! w) as [t|] eqn:Ew; [|done]. destruct (_ && _); [done|]. injection He as <-.
    assert (t = INFINITE) as -> by exact (Hp w t Ew). unfold event_wake, event_consume. rewrite decide_True by done.
    destruct (ev_signaled (sobj s)) eqn:Es; [rewrite Hm|]; simpl; split_and!; simpl; rewrite ?Es; simpl in *;
      try done; try lia.
    + by apply map_Forall_delete.
    + by apply map_Forall_insert_2.
  - injection He as <-. split_and!; simpl; [done|done|]. destruct (ev_signaled (sobj s)); simpl in *; lia.
  - injection He as <-. split_and!; simpl; [done|done|]. destruct (ev_signaled (sobj s)); simpl in *; lia.
Qed.

(** An auto-reset event lets at most one wait through per SetEvent, over every
    interleaving of polls, infinite waits, sets and resets.  A timed wait
    breaks this: when another thread takes the signal before the woken waiter
    runs, the waiter still returns success, so one SetEvent satisfies two waits. *)
Theorem auto_reset_event_wins :
  (∀ h initial acts s, Forall untimed acts →
    exec_all acts (start (mkEvent h false initial)) = Some s → wins s ≤ Z.b2z initial + credits s) ∧
  wins <$> exec_all [AWait 1 1000; AOp ESet; AWait 2 0; AWake 1 false] (start (mkEvent 7 false false)) = Some 2.
Proof.
  split; [|reflexivity]. intros h initial acts s Hacts He.
  assert (H : event_inv (Z.b2z initial) s).
  { eapply (exec_all_inv _ untimed); [|exact Hacts| |exact He].
    - intros a s1 s2. apply event_exec.
    - split_and!; simpl; [done|apply map_Forall_empty|lia]. }
  destruct H as (_ & _ & H). destruct (ev_signaled (sobj s)); simpl in H; lia.
Qed.

(** ** Polling several objects *)

Definition ready (o : KernelObject) : bool := (try_wait o).2.

(** A poll of an object that is not ready leaves it alone. *)
Lemma try_wait_not_ready o : ready o = false → (try_wait o).1 = o.
Proof.
  unfold ready. destruct o as [t|e|s]; simpl; [done|..].
  - unfold event_wait_begin. by destruct (ev_signaled e).
  - unfold try_acquire. case_decide; simpl; done.
Qed.

Lemma target_try_wait_ready t st o :
  st !! t = Some o → target_try_wait t st = (<[t := (try_wait o).1]> st, ready o).
Proof. intros E. unfold target_try_wait, ready. rewrite E. by destruct (try_wait o). Qed.

Lemma target_try_wait_idle t st o :
  st !! t = Some o → ready o = false → target_try_wait t st = (st, false).
Proof.
  intros E Hr. rewrite (target_try_wait_ready t st o E), try_wait_not_ready, Hr by done.
  by rewrite list_insert_id.
Qed.

(** No other thread runs during the poll. *)
Definition quiet : nat → list KernelObject → list KernelObject := λ _ st, st.

Definition target_ready (st : list KernelObject) (t : nat) : bool :=
  match st !! t with Some o => ready o | None => false end.

(** The store after the target was taken. *)
Definition consume (st : list KernelObject) (t : nat) : list KernelObject := (target_try_wait t st).1.

Lemma target_try_wait_eq t st :
  target_try_wait t st = (if target_ready st t then consume st t else st, target_ready st t).
Proof.
  unfold consume, target_ready. destruct (st !! t) as [o|] eqn:E.
  - destruct (ready o) eqn:Hr; [|by apply (target_try_wait_idle t st o)].
    by rewrite (target_try_wait_ready t st o E), Hr.
  - unfold target_try_wait. by rewrite E.
Qed.

Lemma try_any_spec targets i st :
  try_any quiet i targets st =
    match list_find (target_ready st) targets with
    | Some (j, t) => (consume st t, Some (any_code (i + j)))
    | None => (st, None)
    end.
Proof.
  revert i. induction targets as [|t ts IH]; intros i; simpl; [done|].
  unfold quiet at 1. rewrite target_try_wait_eq. destruct (target_ready st t) eqn:Ht.
  - rewrite decide_True by done. by rewrite Nat.add_0_r.
  - rewrite decide_False by (intros []). rewrite IH.
    destruct (list_find _ ts) as [[j t']|]; simpl; [|done]. do 3 f_equal. lia.
Qed.

Lemma threads_finished_quiet k targets st : (threads_finished quiet k targets st).1 = st.
Proof.
  revert k. induction targets as [|t ts IH]; intros k; simpl; [done|]. unfold quiet at 1.
  destruct (st !! t) as [[th| |]|]; try apply IH. destruct (is_finished th); [apply IH|done].
Qed.

Lemma threads_finished_true k targets st :
  Forall (target_ready st) targets → threads_finished quiet k targets st = (st, true).
Proof.
  intros H. revert k. induction H as [|t ts Ht Hts IH]; intros k; simpl; [done|]. unfold quiet at 1.
  unfold target_ready in Ht. destruct (st !! t) as [[th| |]|] eqn:E; rewrite ?E; try apply IH.
  unfold ready in Ht. simpl in Ht. rewrite (Is_true_true_1 _ Ht). apply IH.
Qed.

Lemma consume_other st t t' : t ≠ t' → consume st t !! t' = st !! t'.
Proof.
  intros Hne. unfold consume, target_try_wait. destruct (st !! t) as [o|]; [|done].
  destruct (try_wait o) as [o' b]. simpl. by rewrite list_lookup_insert_ne.
Qed.

Lemma try_all_distinct k targets st :
  NoDup targets → Forall (target_ready st) targets →
  try_all quiet k targets st = (foldl consume st targets, Some WAIT_OBJECT_0).
Proof.
  intros Hnd. revert k st. induction Hnd as [|t ts Hnin Hnd IH]; intros k st Hr; simpl; [done|].
  inversion_clear Hr as [|? ? Ht Hts]. unfold quiet at 1. rewrite target_try_wait_eq, (Is_true_true_1 _ Ht).
  apply IH. rewrite Forall_forall in Hts |- *. intros t' Hin.
  unfold target_ready. rewrite consume_other by (intros ->; done). by apply Hts.
Qed.

(** A target that is not ready is never reported by wait-all. *)
Lemma try_all_not_ready k targets st t :
  NoDup targets → t ∈ targets → target_ready st t = false → (try_all quiet k targets st).2 = None.
Proof.
  intros Hnd. revert k st. induction Hnd as [|u ts Hnin Hnd IH]; intros k st Hin Hr.
  { by apply elem_of_nil in Hin. }
  simpl. unfold quiet at 1. rewrite target_try_wait_eq. destruct (target_ready st u) eqn:Hu; [|done].
  apply elem_of_cons in Hin as [->|Hin]; [congruence|]. apply IH; [done|].
  unfold target_ready. rewrite consume_other by (intros ->; done). exact Hr.
Qed.

(** Polling [n] distinct objects, [1 <= n <= 64], when no other thread runs:
    wait-any takes exactly the first ready target and returns its index, and
    takes nothing and times out when none is ready; wait-all returns success
    exactly when every target is ready, and then takes each of them once. *)
Theorem wait_multiple_poll targets rounds st :
  NoDup targets → (1 ≤ length targets ≤ MAXIMUM_WAIT_OBJECTS)%nat →
  wait_multiple quiet targets false 0 rounds st =
    match list_find (target_ready st) targets with
    | Some (i, t) => (consume st t, Some (Z.of_nat i))
    | None => (st, Some WAIT_TIMEOUT)
    end ∧
  (Forall (target_ready st) targets →
    wait_multiple quiet targets true 0 rounds st = (foldl consume st targets, Some WAIT_OBJECT_0)) ∧
  (¬ Forall (target_ready st) targets →
    (wait_multiple quiet targets true 0 rounds st).2 = Some WAIT_TIMEOUT).
Proof.
  intros Hnd Hlen. unfold wait_multiple, multi_try_once.
  rewrite (bool_decide_false (targets = [])) by (intros E; rewrite E in Hlen; simpl in Hlen; lia).
  rewrite bool_decide_false by lia. simpl.
  split_and!.
  - rewrite try_any_spec. destruct (list_find _ targets) as [[i t]|] eqn:E; simpl; [|done].
    apply list_find_Some in E as (Hi & _ & _). apply lookup_lt_Some in Hi.
    do 2 f_equal. unfold any_code, WAIT_OBJECT_0. unfold MAXIMUM_WAIT_OBJECTS in Hlen.
    destruct (decide (Z.of_nat i < u32_lim)); lia.
  - intros Hr. by rewrite threads_finished_true, try_all_distinct.
  - intros Hr. apply not_Forall_Exists in Hr; [|apply _]. apply Exists_exists in Hr as (t & Hin & Ht).
    destruct (threads_finished quiet 0 targets st) as [st' []] eqn:E; [|done].
    pose proof (threads_finished_quiet 0 targets st) as Hq. rewrite E in Hq. simpl in Hq. subst st'.
    pose proof (try_all_not_ready (length targets) targets st t Hnd Hin) as Hn.
    destruct (try_all quiet (length targets) targets st) as [st' r]. simpl in Hn.
    rewrite Hn by (by apply not_true_is_false; intros Hb; apply Ht; rewrite Hb). done.
Qed.

(** An unfinished thread, a signaled auto-reset event and a semaphore. *)
Lemma wait_multiple_poll_witness :
  wait_multiple quiet [0; 1; 2]%nat false 0 []
    [Thread (mkThread 1 11 STILL_ACTIVE false); Event (mkEvent 12 false true); Semaphore (mkSem 13 4 2)] =
  ([Thread (mkThread 1 11 STILL_ACTIVE false); Event (mkEvent 12 false false); Semaphore (mkSem 13 4 2)], Some 1) ∧
  wait_multiple quiet [1; 2]%nat true 0 []
    [Thread (mkThread 1 11 STILL_ACTIVE false); Event (mkEvent 12 false true); Semaphore (mkSem 13 4 2)] =
  ([Thread (mkThread 1 11 STILL_ACTIVE false); Event (mkEvent 12 false false); Semaphore (mkSem 13 4 1)], Some 0).
Proof.
  split.
  - refine (eq_trans (proj1 (wait_multiple_poll _ [] _ _ _)) _); [|cbv; lia|reflexivity].
    by repeat constructor; set_solver.
  - refine (eq_trans (proj1 (proj2 (wait_multiple_poll _ [] _ _ _)) _) _); [|cbv; lia| |reflexivity].
    + by repeat constructor; set_solver.
    + repeat constructor.
Defined.
