(* ===== verification/insn.v ===== *)
(** * Instructions as the interpreter sees them

    Decoding is iced_x86's: [IcedInstruction] lists the accessors of its
    [Instruction] the interpreter calls, with the enumerations they answer in;
    [IcedLaws] what its documentation says about them.  Also the casts and
    shifts of Rust's integers, in release builds (no overflow checks). *)

From S2P Require Import Prelude regs.

(** ** Casts and shifts *)

(** [x as uN] and [x as iN]. *)
Definition as_u (k x : Z) : Z := x mod 2 ^ k.
Definition as_i (k x : Z) : Z :=
  let y := x mod 2 ^ k in if decide (y < 2 ^ (k - 1)) then y else y - 2 ^ k.

(** [x << n] on an unsigned [k]-bit integer; the count is taken modulo [k]. *)
Definition shl_u (k x n : Z) : Z := as_u k (Z.shiftl x (n mod k)).
Definition shr_u (k x n : Z) : Z := Z.shiftr x (n mod k).
(** On a signed one: [<<] drops the high bits, [>>] copies the sign. *)
Definition shl_i (k x n : Z) : Z := as_i k (Z.shiftl x (n mod k)).
Definition shr_i (k x n : Z) : Z := Z.shiftr x (n mod k).

Definition wrapping_add (a b : u64) : u64 := wrap64 (a + b).
Definition wrapping_sub (a b : u64) : u64 := wrap64 (a - b).
Definition wrapping_mul (a b : u64) : u64 := wrap64 (a * b).
(** [!x] on [u64] and [u128]. *)
Definition not_u (k x : Z) : Z := 2 ^ k - 1 - x.

Abbreviation u128_max := (2 ^ 128 - 1) (only parsing).

(** ** Enumerations of iced_x86 *)

Module OpKind.
Inductive op_kind_t : Set :=
  | Register | Memory
  | NearBranch16 | NearBranch32 | NearBranch64
  | Immediate8 | Immediate8_2nd | Immediate16 | Immediate32 | Immediate64
  | Immediate8to16 | Immediate8to32 | Immediate8to64 | Immediate32to64
  | Other (name : string).

(** [{:?}]. *)
Definition debug (k : op_kind_t) : string :=
  match k with
  | Register => "Register" | Memory => "Memory"
  | NearBranch16 => "NearBranch16" | NearBranch32 => "NearBranch32" | NearBranch64 => "NearBranch64"
  | Immediate8 => "Immediate8" | Immediate8_2nd => "Immediate8_2nd" | Immediate16 => "Immediate16"
  | Immediate32 => "Immediate32" | Immediate64 => "Immediate64"
  | Immediate8to16 => "Immediate8to16" | Immediate8to32 => "Immediate8to32"
  | Immediate8to64 => "Immediate8to64" | Immediate32to64 => "Immediate32to64"
  | Other name => name
  end.
End OpKind.
Abbreviation OpKind := OpKind.op_kind_t.
#[global] Instance OpKind_eq_dec : EqDecision OpKind.
Proof. solve_decision. Defined.

Module MemorySize.
Inductive memory_size_t : Set :=
  | UInt8 | Int8 | UInt16 | Int16 | UInt32 | Int32 | UInt64 | Int64 | QwordOffset | SegPtr64
  | Other (name : string).
End MemorySize.
Abbreviation MemorySize := MemorySize.memory_size_t.

(** The mnemonics the interpreter names; any other one is [Other]. *)
Module Mnemonic.
Inductive mnemonic_t : Set :=
  | Nop | Fnclex | Fninit | Finit | Endbr64 | Endbr32 | Out | Outsb | Outsw | Outsd | Pshufb
  | Mov | Movzx | Movsx | Movsxd | Lea | Push | Pop
  | Add | Adc | Sub | Sbb | Xor | Or | And | Cmp | Test | Inc | Dec | Neg | Not | Imul | Mul | Div | Idiv
  | Shl | Sal | Shr | Sar | Rol | Ror | Jmp | Call | Ret
  | Je | Jne | Ja | Jae | Jb | Jbe | Jg | Jge | Jl | Jle | Jo | Jno | Js | Jns | Jp | Jnp
  | Cmove | Cmovne | Cmova | Cmovae | Cmovb | Cmovbe | Cmovg | Cmovge | Cmovl | Cmovle | Cmovo | Cmovno
  | Cmovs | Cmovns | Cmovp | Cmovnp
  | Sete | Setne | Seta | Setae | Setb | Setbe | Setg | Setge | Setl | Setle | Seto | Setno | Sets | Setns
  | Setp | Setnp
  | Xchg | Xadd | Cmpxchg | Bswap | Bt | Bts | Btr | Btc
  | Cdqe | Cwde | Cbw | Cdq | Cwd | Cqo | Cld | Std | Clc | Stc | Cmc | Pushfq | Popfq | Leave
  | Stosb | Stosw | Stosd | Stosq | Movsb | Movsw | Movsd | Movsq | Lodsb | Lodsd | Lodsq
  | Scasb | Scasw | Scasd | Scasq | Cmpsb | Cmpsw | Cmpsd | Cmpsq
  | Movss | Movaps | Movups | Movdqa | Movdqu | Movapd | Movupd | Movq | Movd
  | Xorps | Xorpd | Pxor | Andps | Andpd | Pand | Orps | Orpd | Por | Andnps | Andnpd | Pandn
  | Movhps | Movhlps | Movlhps | Punpcklqdq | Punpckhqdq | Pshufd
  | Addss | Subss | Mulss | Divss | Addsd | Subsd | Mulsd | Divsd
  | Addps | Subps | Mulps | Divps | Addpd | Subpd | Mulpd | Divpd
  | Cpuid | Rdtsc | In | Insb | Insw | Insd
  | Other (name : string).
End Mnemonic.
Abbreviation Mnemonic := Mnemonic.mnemonic_t.

(** ** The instruction *)

(** [decode ip bytes] is [None] for [is_invalid() || len() == 0];
    [is_movsd_code] tells the two SSE [Code]s of MOVSD. *)
Class IcedInstruction `{IcedRegister} := {
  Instruction : Type;
  decode : u64 → list u8 → option Instruction;
  ip : Instruction → u64;
  next_ip : Instruction → u64;
  insn_len : Instruction → nat;
  mnemonic : Instruction → Mnemonic;
  op_count : Instruction → nat;
  op_kind : Instruction → nat → OpKind;
  op_register : Instruction → nat → Register;
  immediate : Instruction → nat → u64;
  near_branch_target : Instruction → u64;
  memory_base : Instruction → Register;
  memory_index : Instruction → Register;
  memory_index_scale : Instruction → u32;
  memory_displacement64 : Instruction → u64;
  memory_size : Instruction → MemorySize;
  memory_size_debug : MemorySize → string;
  has_rep_prefix : Instruction → bool;
  has_repe_prefix : Instruction → bool;
  has_repne_prefix : Instruction → bool;
  has_lock_prefix : Instruction → bool;
  is_movsd_code : Instruction → bool;
  reg_AL : Register;
  reg_AX : Register;
  reg_EAX : Register;
  reg_DX : Register;
  reg_EDX : Register;
  reg_EIP : Register;
}.

(** A register of [size] bytes inside general-purpose register [n]. *)
Definition names_gpr `{IcedRegister} (r : Register) (n size : nat) : Prop :=
  r ≠ reg_None ∧ r ≠ reg_RIP ∧ is_high_byte r = false ∧ gpr_index (full_register r) = Ok n ∧ reg_size r = size.

Class IcedLaws `{IcedInstruction} : Prop := {
  decode_ip a bs i : decode a bs = Some i → ip i = a;
  decode_next a bs i : decode a bs = Some i → next_ip i = wrap64 (a + Z.of_nat (insn_len i));
  decode_len a bs i : decode a bs = Some i → (0 < insn_len i ≤ length bs)%nat;
  immediate_u64 i n : in_u64 (immediate i n);
  branch_target_u64 i : in_u64 (near_branch_target i);
  displacement_u64 i : in_u64 (memory_displacement64 i);
  op_register_size i n : op_kind i n = OpKind.Register → (0 < reg_size (op_register i n))%nat;
  name_AL : names_gpr reg_AL 0 1;
  name_AX : names_gpr reg_AX 0 2;
  name_EAX : names_gpr reg_EAX 0 4;
  name_DX : names_gpr reg_DX 2 2;
  name_EDX : names_gpr reg_EDX 2 4;
}.
