(* ===== verification/exec.v ===== *)
(** * The interpreter: operands and integer instructions (crates/wie-cpu/src/exec.rs)

    An instruction runs on the guest memory and the register file, [cpu].  What
    an early error return leaves behind is kept, as in the code. *)

From S2P Require Import Prelude protect pagemap vad arena region mem regs insn.

Definition ACCESS_READ : Z := 0.
Definition ACCESS_WRITE : Z := 1.
Definition ACCESS_FETCH : Z := 16.

Record InvalidMem := mkInvalid {
  access_type : Z;
  im_address : u64;
  im_size : Z;
  im_value : Z;
}.
#[global] Instance InvalidMem_eq_dec : EqDecision InvalidMem.
Proof. solve_decision. Defined.

Inductive StepExecError :=
  | InvalidMemory (i : InvalidMem)
  | Cpu (e : CpuError).
#[global] Instance StepExecError_eq_dec : EqDecision StepExecError.
Proof. solve_decision. Defined.

(** ** The monad of instruction bodies *)

Record cpu := mkCpu { cmem : GuestMemory; cregs : RegFile }.

(** [XAbort]: the emulator process itself dies. *)
Inductive xres (A : Type) :=
  | XOk (a : A)
  | XErr (e : StepExecError)
  | XAbort (w : abort).
Arguments XOk {A} a.
Arguments XErr {A} e.
Arguments XAbort {A} w.

Definition X (A : Type) : Type := cpu → cpu * xres A.

#[global] Instance X_ret : MRet X := λ A a c, (c, XOk a).
#[global] Instance X_bind : MBind X := λ A B f m c,
  match m c with
  | (c', XOk a) => f a c'
  | (c', XErr e) => (c', XErr e)
  | (c', XAbort w) => (c', XAbort w)
  end.

Definition xthrow {A} (e : StepExecError) : X A := λ c, (c, XErr e).
Definition xfail {A} (text : string) : X A := xthrow (Cpu (Message text)).
Definition xpanic {A} : X A := λ c, (c, XAbort Panic).
Definition xget {A} (f : RegFile → A) : X A := λ c, (c, XOk (f (cregs c))).
Definition xmod (f : RegFile → RegFile) : X unit := λ c, (mkCpu (cmem c) (f (cregs c)), XOk tt).

(** [?] on the result of a method of the registers ([From<CpuError>]). *)
Definition xregs {A} (m : M RegFile A) : X A := λ c,
  match m (cregs c) with
  | (r, Ok a) => (mkCpu (cmem c) r, XOk a)
  | (r, Err e) => (mkCpu (cmem c) r, XErr (Cpu e))
  | (r, Abort w) => (mkCpu (cmem c) r, XAbort w)
  end.
Definition xres_of {A} (f : RegFile → res A) : X A := xregs (λ r, (r, f r)).

(** A call of the memory whose error becomes [e]. *)
Definition xmem {A} (m : M GuestMemory A) (e : StepExecError) : X A := λ c,
  match m (cmem c) with
  | (g, Ok a) => (mkCpu g (cregs c), XOk a)
  | (g, Err _) => (mkCpu g (cregs c), XErr e)
  | (g, Abort w) => (mkCpu g (cregs c), XAbort w)
  end.

(** A call whose error is examined: [None] for [Err(_)]. *)
Definition xtry {A} (m : M GuestMemory A) : X (option A) := λ c,
  match m (cmem c) with
  | (g, Ok a) => (mkCpu g (cregs c), XOk (Some a))
  | (g, Err _) => (mkCpu g (cregs c), XOk None)
  | (g, Abort w) => (mkCpu g (cregs c), XAbort w)
  end.

(** A loop of an instruction body, as [loopM]. *)
Definition loopX_step {S A} (body : S → X (S + A)) (sc : S * cpu) : S * cpu + cpu * xres A :=
  match body sc.1 sc.2 with
  | (c, XOk (inl s)) => inl (s, c)
  | (c, XOk (inr a)) => inr (c, XOk a)
  | (c, XErr e) => inr (c, XErr e)
  | (c, XAbort w) => inr (c, XAbort w)
  end.
Definition loopX {S A} (p : positive) (body : S → X (S + A)) (s : S) : X A := λ c,
  match iter_until p (loopX_step body) (s, c) with
  | inr r => r
  | inl (_, c') => (c', XAbort NoFuel)
  end.

(** ** Memory values *)

(** [mem.read] into a buffer of [n] zeros. *)
Definition mem_read_n (address : u64) (n : nat) : M GuestMemory (list u8) := λ g,
  match read address (g, replicate n 0) with
  | ((g', bs), Ok _) => (g', Ok bs)
  | ((g', _), Err e) => (g', Err e)
  | ((g', _), Abort w) => (g', Abort w)
  end.

Definition bad_size {A} (what : string) (size : nat) : X A :=
  xfail ("bad mem " +:+ what +:+ " size " +:+ fmt_dec (Z.of_nat size)).

Definition read_fault (addr : u64) (size : nat) : StepExecError :=
  InvalidMemory (mkInvalid ACCESS_READ addr (Z.of_nat size) 0).

(** [i64::try_from(value).unwrap_or(0)]. *)
Definition try_i64 (value : u64) : Z := if decide (value < 2 ^ 63) then value else 0.
Definition write_fault (addr value : u64) (size : nat) : StepExecError :=
  InvalidMemory (mkInvalid ACCESS_WRITE addr (Z.of_nat size) (try_i64 value)).

Definition read_mem_value (addr : u64) (size : nat) : X u64 :=
  if decide (size = 0%nat ∨ (8 < size)%nat) then bad_size "read" size
  else
    buf ← xmem (mem_read_n addr size) (read_fault addr size);
    mret (match size with
          | 1%nat | 2%nat | 4%nat | 8%nat => le_val buf
          | _ => 0
          end).

Definition write_mem_value (addr value : u64) (size : nat) : X unit :=
  if decide (size = 0%nat ∨ (8 < size)%nat) then bad_size "write" size
  else xmem (write addr (take size (le_bytes 8 value))) (write_fault addr value size).

(** [usize] as a number of bytes on the stack. *)
Definition push_n (value : u64) (size : nat) : X unit :=
  rsp ← xget rsp;
  let new_rsp := wrapping_sub rsp (Z.of_nat size) in
  _ ← write_mem_value new_rsp value size;
  xmod (set_rsp new_rsp).

Definition pop_n (size : nat) : X u64 :=
  rsp ← xget rsp;
  val ← read_mem_value rsp size;
  _ ← xmod (set_rsp (wrapping_add rsp (Z.of_nat size)));
  mret val.

Definition pop64 : X u64 := pop_n 8.

(** ** Kinds of operation *)

Module ArithOp.
Inductive arith_op := Add | Adc | Sub | Sbb | Xor | Or | And | Cmp.
End ArithOp.
Abbreviation ArithOp := ArithOp.arith_op.

Module ShiftKind.
Inductive shift_kind := Shl | Shr | Sar | Rol | Ror.
End ShiftKind.
Abbreviation ShiftKind := ShiftKind.shift_kind.

Module BitOp.
Inductive bit_op := Bt | Bts | Btr | Btc.
End BitOp.
Abbreviation BitOp := BitOp.bit_op.

(** ** Operands *)

Section Exec.
Context `{IcedInstruction}.
Implicit Types (instr : Instruction).

Definition effective_address instr : X u64 :=
  let base := memory_base instr in
  if decide (base = reg_RIP ∨ base = reg_EIP) then mret (memory_displacement64 instr)
  else
    let addr := memory_displacement64 instr in
    addr ← (if decide (base ≠ reg_None)
            then b ← xres_of (λ r, read_reg r base); mret (wrapping_add addr b)
            else mret addr);
    let index := memory_index instr in
    if decide (index ≠ reg_None) then
      let scale := memory_index_scale instr in
      idx_val ← xres_of (λ r, read_reg r index);
      mret (wrapping_add addr (wrapping_mul idx_val scale))
    else mret addr.

Definition memory_op_size instr : X nat :=
  match memory_size instr with
  | MemorySize.UInt8 | MemorySize.Int8 => mret 1%nat
  | MemorySize.UInt16 | MemorySize.Int16 => mret 2%nat
  | MemorySize.UInt32 | MemorySize.Int32 => mret 4%nat
  | MemorySize.UInt64 | MemorySize.Int64 | MemorySize.QwordOffset | MemorySize.SegPtr64 => mret 8%nat
  | MemorySize.Other _ as other =>
      if decide ((0 < op_count instr)%nat ∧ op_kind instr 0 = OpKind.Register)
      then mret (reg_size (op_register instr 0))
      else if decide ((1 < op_count instr)%nat ∧ op_kind instr 1 = OpKind.Register)
      then mret (reg_size (op_register instr 1))
      else xfail ("unsupported memory size " +:+ memory_size_debug other)
  end.

Definition op_size_bytes instr (op : nat) : X nat :=
  match op_kind instr op with
  | OpKind.Register => mret (reg_size (op_register instr op))
  | OpKind.Memory => memory_op_size instr
  | OpKind.Immediate8 | OpKind.Immediate8_2nd => mret 1%nat
  | OpKind.Immediate16 | OpKind.Immediate8to16 => mret 2%nat
  | OpKind.Immediate32 | OpKind.Immediate8to32 => mret 4%nat
  | OpKind.Immediate64 | OpKind.Immediate8to64 | OpKind.Immediate32to64 => mret 8%nat
  | other => xfail ("cannot size op kind " +:+ OpKind.debug other)
  end.

Definition read_op instr (op : nat) : X u64 :=
  match op_kind instr op with
  | OpKind.Register => xres_of (λ r, read_reg r (op_register instr op))
  | OpKind.Memory =>
      addr ← effective_address instr;
      size ← memory_op_size instr;
      read_mem_value addr size
  | OpKind.Immediate8 | OpKind.Immediate8_2nd | OpKind.Immediate16 | OpKind.Immediate32
  | OpKind.Immediate64 | OpKind.Immediate8to16 | OpKind.Immediate8to32 | OpKind.Immediate8to64
  | OpKind.Immediate32to64 => mret (immediate instr op)
  | other => xfail ("unsupported op kind " +:+ OpKind.debug other +:+ " for read")
  end.

Definition write_op_sized instr (op : nat) (value : u64) (size : nat) : X unit :=
  match op_kind instr op with
  | OpKind.Register => xregs (write_reg (op_register instr op) value)
  | OpKind.Memory =>
      addr ← effective_address instr;
      write_mem_value addr value size
  | other => xfail ("unsupported op kind " +:+ OpKind.debug other +:+ " for write")
  end.

Definition write_op instr (op : nat) (value : u64) : X unit :=
  size ← op_size_bytes instr op;
  write_op_sized instr op value size.

Definition branch_target instr : X u64 :=
  match op_kind instr 0 with
  | OpKind.NearBranch64 | OpKind.NearBranch32 | OpKind.NearBranch16 => mret (near_branch_target instr)
  | OpKind.Register => xres_of (λ r, read_reg r (op_register instr 0))
  | OpKind.Memory => read_op instr 0
  | other => xfail ("unsupported branch op kind " +:+ OpKind.debug other)
  end.

(** [bits = size * 8] capped at 64; a 64-bit count minus it. *)
Definition sign_extend (value : u64) (size : nat) : Z :=
  let bits := Z.min (Z.of_nat size * 8) 64 in
  let shift := sat_sub 64 bits in
  shr_i 64 (shl_i 64 (as_i 64 value) shift) shift.

(** ** Data movement *)

Definition exec_mov instr : X unit :=
  src ← read_op instr 1;
  write_op instr 0 src.

Definition exec_movzx instr (sign : bool) : X unit :=
  src_size ← op_size_bytes instr 1;
  dst_size ← op_size_bytes instr 0;
  raw ← read_op instr 1;
  let narrow := Z.land raw (size_mask src_size) in
  let extended :=
    if sign then
      let shift := sat_sub 64 (Z.of_nat src_size * 8) in
      as_u 64 (shr_i 64 (shl_i 64 (as_i 64 narrow) shift) shift)
    else narrow in
  write_op_sized instr 0 extended dst_size.

Definition exec_lea instr : X unit :=
  addr ← effective_address instr;
  xregs (write_reg (op_register instr 0) addr).

Definition stack_size instr : nat :=
  if decide (op_kind instr 0 = OpKind.Register ∧ reg_size (op_register instr 0) = 2%nat) then 2 else 8.

Definition exec_push instr : X unit :=
  val ← read_op instr 0;
  push_n val (stack_size instr).

Definition exec_pop instr : X unit :=
  val ← pop_n (stack_size instr);
  write_op instr 0 val.

Definition exec_cmov instr (taken : bool) : X unit :=
  if taken then src ← read_op instr 1; write_op instr 0 src else mret tt.

Definition exec_setcc instr (taken : bool) : X unit := write_op instr 0 (Z.b2z taken).

Definition exec_xchg instr : X unit :=
  a ← read_op instr 0;
  b ← read_op instr 1;
  _ ← write_op instr 0 b;
  write_op instr 1 a.

Definition swap_bytes (n : nat) (v : Z) : Z := le_val (reverse (le_bytes n v)).

Definition exec_bswap instr : X unit :=
  let reg := op_register instr 0 in
  v ← xres_of (λ r, read_reg r reg);
  swapped ← match reg_size reg with
            | 4%nat => mret (swap_bytes 4 (as_u 32 v))
            | 8%nat => mret (swap_bytes 8 v)
            | size => xfail ("bswap size " +:+ fmt_dec (Z.of_nat size))
            end;
  xregs (write_reg reg swapped).

(** ** Arithmetic *)

(** What [exec_arith] computes before it looks at the flags. *)
Definition arith_result (op : ArithOp) (d s cf : u64) : u64 :=
  match op with
  | ArithOp.Add => wrapping_add d s
  | ArithOp.Adc => wrapping_add (wrapping_add d s) cf
  | ArithOp.Sub | ArithOp.Cmp => wrapping_sub d s
  | ArithOp.Sbb => wrapping_sub (wrapping_sub d s) cf
  | ArithOp.Xor => Z.lxor d s
  | ArithOp.Or => Z.lor d s
  | ArithOp.And => Z.land d s
  end.

(** The flag updates of [exec_arith], on already masked operands. *)
Definition arith_flags (op : ArithOp) (d s cf result : u64) (size : nat) (r : RegFile) : RegFile :=
  let mask := size_mask size in
  match op with
  | ArithOp.Add => set_add_flags d s result size r
  | ArithOp.Adc =>
      let wide := d + s + cf in
      set_flag CF (bool_decide (mask < wide)) (set_add_flags d (wrapping_add s cf) result size r)
  | ArithOp.Sub | ArithOp.Cmp => set_sub_flags d s result size r
  | ArithOp.Sbb =>
      let wide_src := s + cf in
      let r := set_flag CF (bool_decide (d < wide_src)) (set_sub_flags d s result size r) in
      let expected := sign_extend d size - sign_extend s size - cf in
      let got := sign_extend (Z.land result mask) size in
      set_flag OF_ (bool_decide (expected ≠ got)) r
  | ArithOp.Xor | ArithOp.Or | ArithOp.And => set_logic_flags result size r
  end.

Definition exec_arith instr (op : ArithOp) : X unit :=
  size ← op_size_bytes instr 0;
  dst ← read_op instr 0;
  src ← read_op instr 1;
  let mask := size_mask size in
  let d := Z.land dst mask in
  let s := Z.land src mask in
  cf ← xget (λ r, Z.b2z (flag r CF));
  let result := arith_result op d s cf in
  _ ← xmod (arith_flags op d s cf result size);
  match op with
  | ArithOp.Cmp => mret tt
  | _ => write_op instr 0 (Z.land result mask)
  end.

Definition exec_test instr : X unit :=
  size ← op_size_bytes instr 0;
  a ← read_op instr 0;
  b ← read_op instr 1;
  xmod (set_logic_flags (Z.land (Z.land a b) (size_mask size)) size).

Definition exec_inc_dec instr (inc : bool) : X unit :=
  size ← op_size_bytes instr 0;
  raw ← read_op instr 0;
  let dst := Z.land raw (size_mask size) in
  let result := if inc then wrapping_add dst 1 else wrapping_sub dst 1 in
  cf ← xget (λ r, flag r CF);
  _ ← xmod (if inc then set_add_flags dst 1 result size else set_sub_flags dst 1 result size);
  _ ← xmod (set_flag CF cf);
  write_op instr 0 (Z.land result (size_mask size)).

Definition exec_neg instr : X unit :=
  size ← op_size_bytes instr 0;
  raw ← read_op instr 0;
  let dst := Z.land raw (size_mask size) in
  let result := wrapping_sub 0 dst in
  _ ← xmod (set_sub_flags 0 dst result size);
  _ ← xmod (set_flag CF (nonzero dst));
  write_op instr 0 (Z.land result (size_mask size)).

Definition exec_not instr : X unit :=
  size ← op_size_bytes instr 0;
  raw ← read_op instr 0;
  let dst := Z.land raw (size_mask size) in
  write_op instr 0 (Z.land (not_u 64 dst) (size_mask size)).

(** *** Multiplication *)

(** [iN::MIN] and [iN::MAX] of the operand size. *)
Definition int_max (size : nat) : Z :=
  match size with 1%nat => 2 ^ 7 - 1 | 2%nat => 2 ^ 15 - 1 | 4%nat => 2 ^ 31 - 1 | _ => 2 ^ 63 - 1 end.
Definition int_min (size : nat) : Z :=
  match size with 1%nat => - 2 ^ 7 | 2%nat => - 2 ^ 15 | 4%nat => - 2 ^ 31 | _ => - 2 ^ 63 end.

(** The value the code also computes as [sign_ext] is not used. *)
Definition set_imul_flags (product : Z) (size : nat) (r : RegFile) : RegFile :=
  let overflow := bool_decide (product < int_min size) || bool_decide (int_max size < product) in
  set_flag OF_ overflow (set_flag CF overflow r).

(** The low half to (E)AX or RAX, the high half to (E)DX or RDX. *)
Definition write_product (product : Z) (size : nat) : X unit :=
  match size with
  | 1%nat => xregs (write_reg reg_AX (Z.land (as_u 64 product) 0xffff))
  | 2%nat =>
      _ ← xregs (write_reg reg_AX (Z.land (as_u 64 product) 0xffff));
      xregs (write_reg reg_DX (Z.land (as_u 64 (Z.shiftr product 16)) 0xffff))
  | 4%nat =>
      _ ← xregs (write_reg reg_EAX (Z.land (as_u 64 product) 0xffffffff));
      xregs (write_reg reg_EDX (Z.land (as_u 64 (Z.shiftr product 32)) 0xffffffff))
  | _ => xmod (λ r, set_rdx (as_u 64 (Z.shiftr product 64)) (set_rax (as_u 64 product) r))
  end.

Definition write_imul_product (product : Z) (size : nat) : X unit :=
  _ ← write_product product size;
  xmod (set_imul_flags product size).

Definition exec_imul instr : X unit :=
  match op_count instr with
  | 1%nat =>
      size ← op_size_bytes instr 0;
      raw ← read_op instr 0;
      let src := Z.land raw (size_mask size) in
      rax ← xget rax;
      let a := Z.land rax (size_mask size) in
      write_imul_product (sign_extend a size * sign_extend src size) size
  | 2%nat =>
      size ← op_size_bytes instr 0;
      raw ← read_op instr 0;
      let dst := Z.land raw (size_mask size) in
      raw ← read_op instr 1;
      let src := Z.land raw (size_mask size) in
      let product := sign_extend dst size * sign_extend src size in
      _ ← write_op instr 0 (Z.land (as_u 64 product) (size_mask size));
      xmod (set_imul_flags product size)
  | 3%nat =>
      size ← op_size_bytes instr 0;
      raw ← read_op instr 1;
      let src := Z.land raw (size_mask size) in
      raw ← read_op instr 2;
      let imm := Z.land raw (size_mask size) in
      let product := sign_extend src size * sign_extend imm size in
      _ ← write_op instr 0 (Z.land (as_u 64 product) (size_mask size));
      xmod (set_imul_flags product size)
  | nops => xfail ("imul with " +:+ fmt_dec (Z.of_nat nops) +:+ " operands")
  end.

Definition exec_mul instr : X unit :=
  size ← op_size_bytes instr 0;
  raw ← read_op instr 0;
  let src := Z.land raw (size_mask size) in
  rax ← xget rax;
  let a := Z.land rax (size_mask size) in
  let product := a * src in
  _ ← write_product product size;
  let hi := nonzero (Z.shiftr product
              (match size with 1%nat => 8 | 2%nat => 16 | 4%nat => 32 | _ => 64 end)) in
  xmod (λ r, set_flag OF_ hi (set_flag CF hi r)).

(** *** Division *)

(** [num.checked_div(den)] on [k]-bit signed integers, with the remainder. *)
Definition checked_div_i (k num den : Z) : option (Z * Z) :=
  if decide (den = 0 ∨ (num = - 2 ^ (k - 1) ∧ den = -1)) then None
  else Some (Z.quot num den, Z.rem num den).

Definition in_range (lo hi x : Z) : bool := bool_decide (lo ≤ x) && bool_decide (x ≤ hi).

(** AX by an 8-bit divisor. *)
Definition div8 (signed : bool) (divisor : u64) : X unit :=
  ax ← xres_of (λ r, read_reg r reg_AX);
  let dividend := Z.land ax 0xffff in
  if signed then
    let num := as_i 16 dividend in
    let den := as_i 16 (sign_extend divisor 1) in
    match checked_div_i 16 num den with
    | None => xfail "idiv overflow"
    | Some (q, r) => xregs (write_reg reg_AX (Z.lor (shl_u 16 (as_u 8 r) 8) (as_u 8 q)))
    end
  else
    let q := dividend / divisor in
    let r := dividend mod divisor in
    if decide (0xff < q) then xfail "div overflow"
    else xregs (write_reg reg_AX (Z.lor (Z.shiftl (Z.land r 0xff) 8) (Z.land q 0xff))).

(** DX:AX by a 16-bit divisor. *)
Definition div16 (signed : bool) (divisor : u64) : X unit :=
  ax ← xres_of (λ r, read_reg r reg_AX);
  dx ← xres_of (λ r, read_reg r reg_DX);
  let lo := Z.land ax 0xffff in
  let hi := Z.land dx 0xffff in
  if signed then
    let num := Z.lor (shl_i 32 (as_i 16 hi) 16) lo in
    let den := as_i 32 (sign_extend divisor 2) in
    match checked_div_i 32 num den with
    | None => xfail "idiv overflow"
    | Some (q, r) =>
        if negb (in_range (-32768) 32767 q) then xfail "idiv overflow"
        else
          _ ← xregs (write_reg reg_AX (Z.land (as_u 64 q) 0xffff));
          xregs (write_reg reg_DX (Z.land (as_u 64 r) 0xffff))
    end
  else
    let dividend := Z.lor (Z.shiftl hi 16) lo in
    let q := dividend / divisor in
    let r := dividend mod divisor in
    if decide (0xffff < q) then xfail "div overflow"
    else
      _ ← xregs (write_reg reg_AX (Z.land q 0xffff));
      xregs (write_reg reg_DX (Z.land r 0xffff)).

(** EDX:EAX by a 32-bit divisor. *)
Definition div32 (signed : bool) (divisor : u64) : X unit :=
  eax ← xres_of (λ r, read_reg r reg_EAX);
  edx ← xres_of (λ r, read_reg r reg_EDX);
  let lo := Z.land eax 0xffffffff in
  let hi := Z.land edx 0xffffffff in
  if signed then
    let num := Z.lor (shl_i 64 (as_i 32 hi) 32) lo in
    let den := sign_extend divisor 4 in
    match checked_div_i 64 num den with
    | None => xfail "idiv overflow"
    | Some (q, r) =>
        if negb (in_range (- 2 ^ 31) (2 ^ 31 - 1) q) then xfail "idiv overflow"
        else
          _ ← xregs (write_reg reg_EAX (Z.land (as_u 64 q) 0xffffffff));
          xregs (write_reg reg_EDX (Z.land (as_u 64 r) 0xffffffff))
    end
  else
    let dividend := Z.lor (Z.shiftl hi 32) lo in
    let q := dividend / divisor in
    let r := dividend mod divisor in
    if decide (u32_lim - 1 < q) then xfail "div overflow"
    else
      _ ← xregs (write_reg reg_EAX (Z.land (as_u 64 q) 0xffffffff));
      xregs (write_reg reg_EDX (Z.land (as_u 64 r) 0xffffffff)).

(** RDX:RAX by a 64-bit divisor. *)
Definition div64 (signed : bool) (divisor : u64) : X unit :=
  lo ← xget rax;
  hi ← xget rdx;
  if signed then
    let num := Z.lor (shl_i 128 (as_i 64 hi) 64) lo in
    let den := sign_extend divisor 8 in
    match checked_div_i 128 num den with
    | None => xfail "idiv overflow"
    | Some (q, r) =>
        if bool_decide (q < - 2 ^ 63) || bool_decide (2 ^ 63 - 1 < q) then xfail "idiv overflow"
        else xmod (λ rf, set_rdx (as_u 64 r) (set_rax (as_u 64 q) rf))
    end
  else
    let dividend := Z.lor (Z.shiftl hi 64) lo in
    let q := dividend / divisor in
    let r := dividend mod divisor in
    if decide (u64_lim - 1 < q) then xfail "div overflow"
    else xmod (λ rf, set_rdx (as_u 64 r) (set_rax (as_u 64 q) rf)).

Definition exec_div instr (signed : bool) : X unit :=
  size ← op_size_bytes instr 0;
  raw ← read_op instr 0;
  let divisor := Z.land raw (size_mask size) in
  if decide (divisor = 0)
  then xfail ((if signed then "idiv" else "div") +:+ " by zero at " +:+ fmt_hex (ip instr))
  else match size with
       | 1%nat => div8 signed divisor
       | 2%nat => div16 signed divisor
       | 4%nat => div32 signed divisor
       | _ => div64 signed divisor
       end.

(** *** Shifts and rotates *)

(** The count an operand of [bits] bits is shifted by. *)
Definition shift_count (bits : Z) (count_raw : u32) : Z :=
  let count_masked := Z.land count_raw 0x3f in
  if decide (bits = 64) then count_masked
  else if decide (bits = 0) then 0
  else count_masked mod bits.

(** Result and carry for a non-zero count. *)
Definition shift_result (kind : ShiftKind) (dst count bits mask : Z) : u64 * bool :=
  match kind with
  | ShiftKind.Shl =>
      let cf_bit :=
        if decide (count ≤ bits)
        then Z.land (shr_u 64 (shl_u 64 dst (sat_sub count 1)) (sat_sub bits 1)) 1
        else 0 in
      (Z.land (shl_u 64 dst count) mask, nonzero cf_bit)
  | ShiftKind.Shr =>
      (Z.land (shr_u 64 dst count) mask, nonzero (Z.land (shr_u 64 dst (sat_sub count 1)) 1))
  | ShiftKind.Sar =>
      let sign_bits := sat_sub 64 bits in
      let signed := shr_i 64 (shl_i 64 (as_i 64 dst) sign_bits) sign_bits in
      let cf_bit := Z.land (shr_u 64 (as_u 64 signed) (sat_sub count 1)) 1 in
      (Z.land (as_u 64 (shr_i 64 signed count)) mask, nonzero cf_bit)
  | ShiftKind.Rol =>
      let r := Z.land (Z.lor (shl_u 64 dst count) (shr_u 64 dst (sat_sub bits count))) mask in
      (r, nonzero (Z.land r 1))
  | ShiftKind.Ror =>
      let r := Z.land (Z.lor (shr_u 64 dst count) (shl_u 64 dst (sat_sub bits count))) mask in
      (r, nonzero (Z.land (shr_u 64 r (sat_sub bits 1)) 1))
  end.

Definition shift_of (kind : ShiftKind) (dst result bits : Z) : bool :=
  let sign := shl_u 64 1 (sat_sub bits 1) in
  match kind with
  | ShiftKind.Shl => nonzero (Z.land (Z.lxor result dst) sign)
  | ShiftKind.Shr => nonzero (Z.land dst sign)
  | ShiftKind.Sar => false
  | ShiftKind.Rol => nonzero (Z.lxor (shr_u 64 result (sat_sub bits 1)) (Z.land result 1))
  | ShiftKind.Ror =>
      let b1 := Z.land (shr_u 64 result (sat_sub bits 1)) 1 in
      let b2 := Z.land (shr_u 64 result (sat_sub bits 2)) 1 in
      bool_decide (b1 ≠ b2)
  end.

Definition is_rotate (kind : ShiftKind) : bool :=
  match kind with ShiftKind.Rol | ShiftKind.Ror => true | _ => false end.

Definition shift_flags (kind : ShiftKind) (dst count bits result : Z) (cf : bool) (r : RegFile) : RegFile :=
  let r := set_flag CF cf r in
  let r :=
    if is_rotate kind then r
    else
      let r := set_flag ZF (bool_decide (result = 0)) r in
      let r := set_flag SF (nonzero (Z.land result (shl_u 64 1 (sat_sub bits 1)))) r in
      set_flag PF (parity_even (as_u 8 result)) r in
  if decide (count = 1) then set_flag OF_ (shift_of kind dst result bits) r else r.

Definition exec_shift instr (kind : ShiftKind) : X unit :=
  size ← op_size_bytes instr 0;
  let bits := Z.of_nat size * 8 in
  let mask := size_mask size in
  raw ← read_op instr 0;
  let dst := Z.land raw mask in
  raw ← read_op instr 1;
  let count_mod := shift_count bits (as_u 32 raw) in
  if decide (count_mod = 0) then mret tt
  else
    let '(result, cf) := shift_result kind dst count_mod bits mask in
    _ ← xmod (shift_flags kind dst count_mod bits result cf);
    write_op instr 0 result.

(** ** Bit tests *)

Definition bit_new (op : BitOp) (val mask : u64) : u64 :=
  match op with
  | BitOp.Bt => val
  | BitOp.Bts => Z.lor val mask
  | BitOp.Btr => Z.ldiff val mask
  | BitOp.Btc => Z.lxor val mask
  end.
Definition is_bt (op : BitOp) : bool := match op with BitOp.Bt => true | _ => false end.

Definition exec_bit instr (op : BitOp) : X unit :=
  bit_offset ← read_op instr 1;
  match op_kind instr 0 with
  | OpKind.Register =>
      let size := reg_size (op_register instr 0) in
      let bits := Z.of_nat size * 8 in
      (* a zero-sized register would divide by zero *)
      if decide (bits = 0) then xpanic
      else
        let idx := as_u 32 bit_offset mod bits in
        raw ← read_op instr 0;
        let val := Z.land raw (size_mask size) in
        let mask := shl_u 64 1 idx in
        _ ← xmod (set_flag CF (nonzero (Z.land val mask)));
        if is_bt op then mret tt else write_op instr 0 (bit_new op val mask)
  | OpKind.Memory =>
      base ← effective_address instr;
      let off := as_i 64 bit_offset in
      let byte_delta := off / 8 in
      let bit := off mod 8 in
      let addr := wrapping_add base (as_u 64 byte_delta) in
      b ← xmem (mem_read_n addr 1) (read_fault addr 1);
      let val := default 0 (b !! 0%nat) in
      let mask := shl_u 64 1 bit in
      _ ← xmod (set_flag CF (nonzero (Z.land val mask)));
      if is_bt op then mret tt else write_mem_value addr (bit_new op val mask) 1
  | other => xfail ("bt op0 kind " +:+ OpKind.debug other)
  end.

(** ** Control transfer *)

Definition set_rip' (target : u64) : X unit := xmod (set_rip target).

Definition exec_jmp instr : X unit :=
  target ← branch_target instr;
  set_rip' target.

Definition exec_jcc instr (taken : bool) : X unit :=
  if taken then set_rip' (near_branch_target instr) else mret tt.

Definition exec_call instr (return_ip : u64) : X unit :=
  target ← branch_target instr;
  _ ← push_n return_ip 8;
  set_rip' target.

Definition exec_ret instr : X unit :=
  ret ← pop_n 8;
  _ ← (if decide ((1 ≤ op_count instr)%nat ∧ op_kind instr 0 = OpKind.Immediate16)
       then xmod (λ r, set_rsp (wrapping_add (rsp r) (immediate instr 0)) r)
       else mret tt);
  set_rip' ret.

(** ** Read-modify-write *)

(** [fetch_add] on the host word behind an aligned guest word; [None] when no
    writable span can be had, and the caller falls back. *)
Definition atomic_fetch_add (addr : u64) (size : nat) (addend : u64) : X (option u64) := λ c,
  let word (n : nat) :=
    match host_span addr (Z.of_nat n) true (cmem c) with
    | (g, None) => (mkCpu g (cregs c), XOk None)
    | (g, Some p) =>
        match host_load p n (os_state (backend g)) with
        | Ok bs =>
            let old := le_val bs in
            match on_backend (on_host (host_store p (le_bytes n ((old + addend) mod 2 ^ (8 * Z.of_nat n))))) g with
            | (g', Ok _) => (mkCpu g' (cregs c), XOk (Some old))
            | (g', Err e) => (mkCpu g' (cregs c), XErr (Cpu e))
            | (g', Abort w) => (mkCpu g' (cregs c), XAbort w)
            end
        | Err e => (mkCpu g (cregs c), XErr (Cpu e))
        | Abort w => (mkCpu g (cregs c), XAbort w)
        end
    end in
  match size with
  | 4%nat => if is_multiple_of addr 4 then word 4%nat else (c, XOk None)
  | 8%nat => if is_multiple_of addr 8 then word 8%nat else (c, XOk None)
  | _ => (c, XOk None)
  end.

Definition exec_xadd instr : X unit :=
  size ← op_size_bytes instr 0;
  let mask := size_mask size in
  raw ← read_op instr 1;
  let src := Z.land raw mask in
  let atomic : X (option u64) :=
    if decide (has_lock_prefix instr = true ∧ op_kind instr 0 = OpKind.Memory)
    then addr ← effective_address instr; atomic_fetch_add addr size src
    else mret None in
  old ← atomic;
  match old with
  | Some old =>
      let old_m := Z.land old mask in
      let sum := Z.land (wrapping_add old_m src) mask in
      _ ← write_op instr 1 old_m;
      xmod (set_add_flags old_m src sum size)
  | None =>
      raw ← read_op instr 0;
      let dest := Z.land raw mask in
      let sum := Z.land (wrapping_add dest src) mask in
      _ ← write_op instr 0 sum;
      _ ← write_op instr 1 dest;
      xmod (set_add_flags dest src sum size)
  end.

Definition accumulator_value (size : nat) : X u64 :=
  match size with
  | 1%nat => xres_of (λ r, read_reg r reg_AL)
  | 2%nat => xres_of (λ r, read_reg r reg_AX)
  | 4%nat => xres_of (λ r, read_reg r reg_EAX)
  | _ => xget rax
  end.

Definition write_accumulator (size : nat) (value : u64) : X unit :=
  match size with
  | 1%nat => xregs (write_reg reg_AL value)
  | 2%nat => xregs (write_reg reg_AX value)
  | 4%nat => xregs (write_reg reg_EAX value)
  | _ => xmod (set_rax value)
  end.

Definition exec_cmpxchg instr : X unit :=
  size ← op_size_bytes instr 0;
  let mask := size_mask size in
  raw ← read_op instr 0;
  let dest := Z.land raw mask in
  raw ← read_op instr 1;
  let src := Z.land raw mask in
  raw ← accumulator_value size;
  let acc := Z.land raw mask in
  _ ← xmod (set_sub_flags acc dest (wrapping_sub acc dest) size);
  zf ← xget (λ r, flag r ZF);
  if (zf : bool) then write_op instr 0 src else write_accumulator size dest.
End Exec.
