(* ===== verification/exec_string.v ===== *)
(** * The interpreter: string instructions (crates/wie-cpu/src/exec.rs)

    MOVS, STOS, LODS, SCAS and CMPS with their REP prefixes.  A REP form runs up
    to [REP_BULK_MAX] elements per step, by the fastest of a copy between host
    spans, page-sized chunks, and single elements.  [true] as result: RIP stays on
    the instruction. *)

From S2P Require Import Prelude protect pagemap vad arena region mem regs insn exec.

Definition REP_BULK_MAX : u64 := Z.shiftl 1 20.
Definition REP_HOST_BULK_MIN_BYTES : usize := 16.

(** [WIE_STRING_BULK]: on unless set to 0, off, slow or false. *)
Definition string_host_bulk_enabled (var : option string) : bool :=
  match var with
  | Some v => negb (bool_decide (v = "0") || eq_ignore_ascii_case v "off" || eq_ignore_ascii_case v "slow"
                    || eq_ignore_ascii_case v "false")
  | None => true
  end.

Definition df_step (size : nat) (r : RegFile) : Z := if flag r DF then - Z.of_nat size else Z.of_nat size.

(** [x.wrapping_add(step as u64)]. *)
Definition advance (x : u64) (step : Z) : u64 := wrapping_add x (as_u 64 step).

(** As many whole copies of the low [size] bytes of [val] as fit in [len]. *)
Definition pattern (len : Z) (val : u64) (size : nat) : list u8 :=
  concat (replicate (Z.to_nat (len / Z.of_nat size)) (take (size `min` 8) (le_bytes 8 val))).

Definition host_fill_pattern (host len : Z) (val : u64) (size : nat) : M GuestMemory unit :=
  if decide (size = 0%nat ∨ len = 0) then mret tt
  else if decide (size = 1%nat)
  then on_backend (on_host (host_store host (replicate (Z.to_nat len) (Z.land val 0xff))))
  else on_backend (on_host (host_store host (pattern len val size))).

(** [std::ptr::copy_nonoverlapping]. *)
Definition host_copy (src dst len : Z) : M GuestMemory unit := λ g,
  match host_load src (Z.to_nat len) (os_state (backend g)) with
  | Ok bs => on_backend (on_host (host_store dst bs)) g
  | Err e => (g, Err e)
  | Abort w => (g, Abort w)
  end.

(** [mem.host_span]: cannot fail. *)
Definition xspan (address : u64) (len : usize) (write : bool) : X (option Z) := λ c,
  let '(g, p) := host_span address len write (cmem c) in (mkCpu g (cregs c), XOk p).

(** A host access of the process itself. *)
Definition xhost (m : M GuestMemory unit) : X unit := xmem m (Cpu (Message "")).

Definition host_ranges_overlap (a b len : Z) : bool :=
  if decide (len = 0 ∨ a = 0 ∨ b = 0) then false
  else
    let end_a := sat_add a (sat_sub len 1) in
    let end_b := sat_add b (sat_sub len 1) in
    bool_decide (a ≤ end_b) && bool_decide (b ≤ end_a).

Definition ranges_overlap (a b len : u64) : bool :=
  if decide (len = 0) then false
  else
    let a_end := wrapping_add a (wrapping_sub len 1) in
    let b_end := wrapping_add b (wrapping_sub len 1) in
    bool_decide (a ≤ b_end) && bool_decide (b ≤ a_end).

(** Bytes of the next chunk of a page-chunked loop: whole elements, at most 4096. *)
Definition chunk_bytes (count done_elems : u64) (size : nat) : Z :=
  let remain_bytes := sat_mul (count - done_elems) (Z.of_nat size) in
  let chunk := Z.min remain_bytes 4096 in
  chunk - chunk mod Z.max (Z.of_nat size) 1.

(** How a chunked loop ends: the elements are done, or the instruction returns. *)
Inductive chunk_end (S : Type) := Done (s : S) | Return (stay : bool).
Arguments Done {S} s.
Arguments Return {S} stay.

Section String.
Context `{IcedInstruction}.
(** The value of the environment variable [WIE_STRING_BULK]. *)
Context (wie_string_bulk : option string).
Implicit Types (instr : Instruction).

Definition has_any_rep instr : bool :=
  has_rep_prefix instr || has_repe_prefix instr || has_repne_prefix instr.

Definition apply_string_stay instr (stay : bool) : X unit :=
  if stay then set_rip' (ip instr) else mret tt.

(** ** STOS *)

(** The host-span fill; [None] when the slower paths have to do it. *)
Definition stos_host (count rdi val : u64) (size : nat) (step : Z) : X (option bool) :=
  let size_u := Z.of_nat size in
  let byte_len := sat_mul count size_u in
  if decide (1 < count ∧ string_host_bulk_enabled wie_string_bulk = true ∧ REP_HOST_BULK_MIN_BYTES ≤ byte_len) then
    match (if decide (0 < step) then Some rdi else checked_sub rdi (sat_mul (count - 1) size_u)) with
    | None => mret None
    | Some base =>
        host ← xspan base byte_len true;
        match (host : option Z) with
        | None => mret None
        | Some p =>
            _ ← xhost (host_fill_pattern p byte_len val size);
            let delta := if decide (0 < step) then byte_len else wrapping_sub 0 byte_len in
            _ ← xmod (set_rdi (wrapping_add rdi delta));
            _ ← xmod (λ r, set_rcx (sat_sub (rcx r) count) r);
            mret (Some true)
        end
    end
  else mret None.

Definition stos_chunk (count val : u64) (size : nat) (s : u64 * u64) : X (u64 * u64 + chunk_end (u64 * u64)) :=
  let '(rdi, done_elems) := s in
  if decide (done_elems < count) then
    let aligned := chunk_bytes count done_elems size in
    if decide (aligned = 0) then mret (inr (Done s))
    else
      ok ← xtry (write rdi (take (Z.to_nat aligned) (pattern 4096 val size)));
      match (ok : option unit) with
      | None =>
          _ ← xmod (set_rdi rdi);
          _ ← xmod (λ r, set_rcx (sat_sub (rcx r) done_elems) r);
          _ ← write_mem_value rdi val size;
          mret (inr (Return false))
      | Some _ =>
          let elems := aligned / Z.of_nat size in
          mret (inl (wrapping_add rdi (sat_mul elems (Z.of_nat size)), sat_add done_elems elems))
      end
  else mret (inr (Done s)).

Definition stos_element (val : u64) (size : nat) (step : Z) (s : u64 * u64) : X (u64 * u64 + bool) :=
  let '(rdi, count) := s in
  if decide (0 < count) then
    _ ← write_mem_value rdi val size;
    let rdi := advance rdi step in
    _ ← xmod (set_rdi rdi);
    _ ← xmod (λ r, set_rcx (sat_sub (rcx r) 1) r);
    mret (inl (rdi, sat_sub count 1))
  else mret (inr true).

Definition stos_rep (val : u64) (size : nat) (step : Z) : X bool :=
  rcx0 ← xget rcx;
  rdi0 ← xget rdi;
  let count := Z.min rcx0 REP_BULK_MAX in
  fast ← stos_host count rdi0 val size step;
  match (fast : option bool) with
  | Some stay => mret stay
  | None =>
      if decide (0 < step ∧ 1 < count) then
        e ← loopX (fuel_of count) (stos_chunk count val size) (rdi0, 0);
        match e with
        | Return stay => mret stay
        | Done (rdi, done_elems) =>
            _ ← xmod (set_rdi rdi);
            _ ← xmod (λ r, set_rcx (sat_sub (rcx r) done_elems) r);
            mret (bool_decide (0 < done_elems))
        end
      else loopX (fuel_of count) (stos_element val size step) (rdi0, count)
  end.

Definition string_stos (size : nat) (rep : bool) : X bool :=
  rcx0 ← xget rcx;
  if decide (rep = true ∧ rcx0 = 0) then mret false
  else
    step ← xget (df_step size);
    val ← xget (λ r, Z.land (rax r) (size_mask size));
    if rep then stos_rep val size step
    else
      rdi0 ← xget rdi;
      _ ← write_mem_value rdi0 val size;
      _ ← xmod (set_rdi (advance rdi0 step));
      mret false.

Definition exec_stos instr (size : nat) : X unit :=
  stay ← string_stos size (has_any_rep instr);
  apply_string_stay instr stay.

(** ** MOVS *)

Definition movs_host (count rsi rdi src_lo dst_lo : u64) (size : nat) (step : Z) (overlap : bool) : X (option bool) :=
  let byte_len := sat_mul count (Z.of_nat size) in
  if decide (1 < count ∧ overlap = false ∧ REP_HOST_BULK_MIN_BYTES ≤ byte_len
             ∧ string_host_bulk_enabled wie_string_bulk = true) then
    src ← xspan src_lo byte_len false;
    dst ← xspan dst_lo byte_len true;
    match (src : option Z), (dst : option Z) with
    | Some src_p, Some dst_p =>
        if host_ranges_overlap src_p dst_p byte_len then mret None
        else
          _ ← xhost (host_copy src_p dst_p byte_len);
          let delta := if decide (0 < step) then byte_len else wrapping_sub 0 byte_len in
          _ ← xmod (set_rsi (wrapping_add rsi delta));
          _ ← xmod (set_rdi (wrapping_add rdi delta));
          _ ← xmod (λ r, set_rcx (sat_sub (rcx r) count) r);
          mret (Some true)
    | _, _ => mret None
    end
  else mret None.

(** One element after a chunk failed; it faults where the chunk did, unless the
    fault lies further on. *)
Definition movs_retry (rsi rdi done_elems : u64) (size : nat) : X bool :=
  _ ← xmod (set_rsi rsi);
  _ ← xmod (set_rdi rdi);
  _ ← xmod (λ r, set_rcx (sat_sub (rcx r) done_elems) r);
  v ← read_mem_value rsi size;
  _ ← write_mem_value rdi v size;
  mret false.

Definition movs_chunk (count : u64) (size : nat) (s : u64 * u64 * u64)
    : X (u64 * u64 * u64 + chunk_end (u64 * u64 * u64)) :=
  let '(rsi, rdi, done_elems) := s in
  if decide (done_elems < count) then
    let aligned := chunk_bytes count done_elems size in
    if decide (aligned = 0) then mret (inr (Done s))
    else
      buf ← xtry (mem_read_n rsi (Z.to_nat aligned));
      match (buf : option (list u8)) with
      | None => stay ← movs_retry rsi rdi done_elems size; mret (inr (Return stay))
      | Some bs =>
          ok ← xtry (write rdi bs);
          match (ok : option unit) with
          | None => stay ← movs_retry rsi rdi done_elems size; mret (inr (Return stay))
          | Some _ =>
              let elems := aligned / Z.of_nat size in
              let delta := sat_mul elems (Z.of_nat size) in
              mret (inl (wrapping_add rsi delta, wrapping_add rdi delta, sat_add done_elems elems))
          end
      end
  else mret (inr (Done s)).

Definition movs_element (size : nat) (step : Z) (s : u64 * u64 * u64) : X (u64 * u64 * u64 + bool) :=
  let '(rsi, rdi, count) := s in
  if decide (0 < count) then
    v ← read_mem_value rsi size;
    _ ← write_mem_value rdi v size;
    let rsi := advance rsi step in
    let rdi := advance rdi step in
    _ ← xmod (set_rsi rsi);
    _ ← xmod (set_rdi rdi);
    _ ← xmod (λ r, set_rcx (sat_sub (rcx r) 1) r);
    mret (inl (rsi, rdi, sat_sub count 1))
  else mret (inr true).

Definition movs_rep (size : nat) (step : Z) : X bool :=
  rcx0 ← xget rcx;
  rsi0 ← xget rsi;
  rdi0 ← xget rdi;
  let count := Z.min rcx0 REP_BULK_MAX in
  let size_u := Z.of_nat size in
  let last_off := sat_mul (sat_sub count 1) size_u in
  let '(src_lo, dst_lo) :=
    if decide (0 < step) then (rsi0, rdi0) else (wrapping_sub rsi0 last_off, wrapping_sub rdi0 last_off) in
  let overlap := ranges_overlap src_lo dst_lo (sat_mul count size_u) in
  fast ← movs_host count rsi0 rdi0 src_lo dst_lo size step overlap;
  match (fast : option bool) with
  | Some stay => mret stay
  | None =>
      if decide (0 < step ∧ 1 < count ∧ overlap = false) then
        e ← loopX (fuel_of count) (movs_chunk count size) (rsi0, rdi0, 0);
        match e with
        | Return stay => mret stay
        | Done (rsi, rdi, done_elems) =>
            _ ← xmod (set_rsi rsi);
            _ ← xmod (set_rdi rdi);
            _ ← xmod (λ r, set_rcx (sat_sub (rcx r) done_elems) r);
            mret (bool_decide (0 < done_elems))
        end
      else loopX (fuel_of count) (movs_element size step) (rsi0, rdi0, count)
  end.

Definition string_movs (size : nat) (rep : bool) : X bool :=
  rcx0 ← xget rcx;
  if decide (rep = true ∧ rcx0 = 0) then mret false
  else
    step ← xget (df_step size);
    if rep then movs_rep size step
    else
      rsi0 ← xget rsi;
      rdi0 ← xget rdi;
      v ← read_mem_value rsi0 size;
      _ ← write_mem_value rdi0 v size;
      _ ← xmod (set_rsi (advance rsi0 step));
      _ ← xmod (set_rdi (advance rdi0 step));
      mret false.

Definition exec_movs instr (size : nat) : X unit :=
  stay ← string_movs size (has_any_rep instr);
  apply_string_stay instr stay.

(** ** LODS *)

(** The accumulator of the element size; there is no two-byte form. *)
Definition lods_store (v : u64) (size : nat) : X unit :=
  match size with
  | 1%nat => xregs (write_reg reg_AL v)
  | 4%nat => xregs (write_reg reg_EAX v)
  | _ => xmod (set_rax v)
  end.

Definition lods_element (size : nat) (step : Z) (s : u64 * u64) : X (u64 * u64 + bool) :=
  let '(rsi, count) := s in
  if decide (0 < count) then
    last ← read_mem_value rsi size;
    let rsi := advance rsi step in
    _ ← xmod (set_rsi rsi);
    _ ← xmod (λ r, set_rcx (sat_sub (rcx r) 1) r);
    _ ← lods_store last size;
    mret (inl (rsi, sat_sub count 1))
  else mret (inr true).

Definition string_lods (size : nat) (rep : bool) : X bool :=
  rcx0 ← xget rcx;
  if decide (rep = true ∧ rcx0 = 0) then mret false
  else
    step ← xget (df_step size);
    rsi0 ← xget rsi;
    if rep then
      let count := Z.min rcx0 REP_BULK_MAX in
      loopX (fuel_of count) (lods_element size step) (rsi0, count)
    else
      v ← read_mem_value rsi0 size;
      _ ← lods_store v size;
      _ ← xmod (set_rsi (advance rsi0 step));
      mret false.

Definition exec_lods instr (size : nat) : X unit :=
  stay ← string_lods size (has_any_rep instr);
  apply_string_stay instr stay.

(** ** SCAS *)

(** The comparison of one element; it answers whether ZF ends the repetition. *)
Definition zf_stops (repe repne : bool) (r : RegFile) : bool :=
  (repe && negb (flag r ZF)) || (repne && flag r ZF).

Definition scas_element (acc : u64) (size : nat) (step : Z) (repe repne : bool) (s : u64 * u64)
    : X (u64 * u64 + bool) :=
  let '(rdi, count) := s in
  if decide (0 < count) then
    raw ← read_mem_value rdi size;
    let v := Z.land raw (size_mask size) in
    _ ← xmod (set_sub_flags acc v (wrapping_sub acc v) size);
    let rdi := advance rdi step in
    _ ← xmod (set_rdi rdi);
    _ ← xmod (λ r, set_rcx (sat_sub (rcx r) 1) r);
    stop ← xget (zf_stops repe repne);
    mret (if stop : bool then inr false else inl (rdi, sat_sub count 1))
  else mret (inr true).

Definition string_scas (size : nat) (rep repe repne : bool) : X bool :=
  rcx0 ← xget rcx;
  if decide (rep = true ∧ rcx0 = 0) then mret false
  else
    step ← xget (df_step size);
    acc ← xget (λ r, Z.land (rax r) (size_mask size));
    rdi0 ← xget rdi;
    if rep then
      let count := Z.min rcx0 REP_BULK_MAX in
      loopX (fuel_of count) (scas_element acc size step repe repne) (rdi0, count)
    else
      raw ← read_mem_value rdi0 size;
      let v := Z.land raw (size_mask size) in
      _ ← xmod (set_sub_flags acc v (wrapping_sub acc v) size);
      _ ← xmod (set_rdi (advance rdi0 step));
      mret false.

Definition exec_scas instr (size : nat) : X unit :=
  stay ← string_scas size (has_any_rep instr) (has_repe_prefix instr) (has_repne_prefix instr);
  apply_string_stay instr stay.

(** ** CMPS *)

Definition cmps_element (size : nat) (step : Z) (repe repne : bool) (s : u64 * u64 * u64)
    : X (u64 * u64 * u64 + bool) :=
  let '(rsi, rdi, count) := s in
  if decide (0 < count) then
    raw ← read_mem_value rsi size;
    let a := Z.land raw (size_mask size) in
    raw ← read_mem_value rdi size;
    let b := Z.land raw (size_mask size) in
    _ ← xmod (set_sub_flags a b (wrapping_sub a b) size);
    let rsi := advance rsi step in
    let rdi := advance rdi step in
    _ ← xmod (set_rsi rsi);
    _ ← xmod (set_rdi rdi);
    _ ← xmod (λ r, set_rcx (sat_sub (rcx r) 1) r);
    stop ← xget (zf_stops repe repne);
    mret (if stop : bool then inr false else inl (rsi, rdi, sat_sub count 1))
  else mret (inr true).

Definition string_cmps (size : nat) (rep repe repne : bool) : X bool :=
  rcx0 ← xget rcx;
  if decide (rep = true ∧ rcx0 = 0) then mret false
  else
    step ← xget (df_step size);
    rsi0 ← xget rsi;
    rdi0 ← xget rdi;
    if rep then
      let count := Z.min rcx0 REP_BULK_MAX in
      loopX (fuel_of count) (cmps_element size step repe repne) (rsi0, rdi0, count)
    else
      raw ← read_mem_value rsi0 size;
      let a := Z.land raw (size_mask size) in
      raw ← read_mem_value rdi0 size;
      let b := Z.land raw (size_mask size) in
      _ ← xmod (set_sub_flags a b (wrapping_sub a b) size);
      _ ← xmod (set_rsi (advance rsi0 step));
      _ ← xmod (set_rdi (advance rdi0 step));
      mret false.

Definition exec_cmps instr (size : nat) : X unit :=
  stay ← string_cmps size (has_any_rep instr) (has_repe_prefix instr) (has_repne_prefix instr);
  apply_string_stay instr stay.

(** ** The dispatcher shared with the JIT *)

Inductive StringOpKind := Stos | Movs | Lods | Scas | Cmps.

Definition run_string_op (kind : StringOpKind) (size : nat) (rep repe repne : bool) : X bool :=
  match kind with
  | Stos => string_stos size rep
  | Movs => string_movs size rep
  | Lods => string_lods size rep
  | Scas => string_scas size rep repe repne
  | Cmps => string_cmps size rep repe repne
  end.
End String.
