(* ===== verification/exec_sse.v ===== *)
(** * The interpreter: SSE moves, bit operations and arithmetic (crates/wie-cpu/src/exec.rs)

    XMM registers are 128-bit integers.  Floating-point arithmetic is Rust's,
    that is IEEE 754 with round-to-nearest-even: the Standard Library's
    [SpecFloat] between bit patterns.  Which NaN an invalid operation gives is
    left open by Rust: [NanChoice]. *)

From Stdlib Require Import SpecFloat.
From S2P Require Import Prelude protect pagemap vad arena region mem regs insn exec.

(** ** Floating point *)

(** A format by its precision and exponent bound; [f32] is 24, 128. *)
Record fmt := mkFmt { prec : Z; emax : Z }.
Definition f32 : fmt := mkFmt 24 128.
Definition f64 : fmt := mkFmt 53 1024.
Definition emin (f : fmt) : Z := 3 - emax f - prec f.
(** Bits of the exponent and of the whole word. *)
Definition ebits (f : fmt) : Z := Z.log2 (emax f) + 1.
Definition width (f : fmt) : Z := prec f + ebits f.

(** [from_bits]. *)
Definition from_bits (f : fmt) (bits : Z) : spec_float :=
  let m := bits mod 2 ^ (prec f - 1) in
  let ex := Z.shiftr bits (prec f - 1) mod 2 ^ ebits f in
  let s := Z.testbit bits (width f - 1) in
  if decide (ex = 0) then
    match m with Zpos p => S754_finite s p (emin f) | _ => S754_zero s end
  else if decide (ex = 2 ^ ebits f - 1) then
    (if decide (m = 0) then S754_infinity s else S754_nan)
  else
    match m + 2 ^ (prec f - 1) with
    | Zpos p => S754_finite s p (ex + emin f - 1)
    | _ => S754_nan
    end.

Definition pack (f : fmt) (s : bool) (ex m : Z) : Z :=
  as_u (width f) (Z.shiftl (Z.b2z s) (width f - 1) + Z.shiftl ex (prec f - 1) + m).

(** [to_bits], with the pattern to use for a NaN. *)
Definition to_bits (f : fmt) (nan : Z) (x : spec_float) : Z :=
  match x with
  | S754_zero s => pack f s 0 0
  | S754_infinity s => pack f s (2 ^ ebits f - 1) 0
  | S754_nan => as_u (width f) nan
  | S754_finite s m e =>
      if decide (Zpos m < 2 ^ (prec f - 1)) then pack f s 0 (Zpos m)
      else pack f s (e - emin f + 1) (Zpos m - 2 ^ (prec f - 1))
  end.

Module FpOp.
Inductive fp_op := Add | Sub | Mul | Div.
End FpOp.
Abbreviation FpOp := FpOp.fp_op.

(** The NaN an operation on two bit patterns gives. *)
Class NanChoice := nan_bits : fmt → FpOp → Z → Z → Z.

Definition fp_apply (f : fmt) (op : FpOp) (a b : spec_float) : spec_float :=
  match op with
  | FpOp.Add => SFadd (prec f) (emax f) a b
  | FpOp.Sub => SFsub (prec f) (emax f) a b
  | FpOp.Mul => SFmul (prec f) (emax f) a b
  | FpOp.Div => SFdiv (prec f) (emax f) a b
  end.

Module SseBitOp.
Inductive sse_bit_op := Xor | And | Or | Andn.
End SseBitOp.
Abbreviation SseBitOp := SseBitOp.sse_bit_op.

Definition sse_bit (op : SseBitOp) (a b : u128) : u128 :=
  match op with
  | SseBitOp.Xor => Z.lxor a b
  | SseBitOp.And => Z.land a b
  | SseBitOp.Or => Z.lor a b
  | SseBitOp.Andn => Z.land (not_u 128 a) b
  end.

(** [(1u128 << (nbytes * 8)) - 1]. *)
Definition low_mask (nbytes : nat) : u128 := shl_u 128 1 (Z.of_nat nbytes * 8) - 1.

Definition lo64 (x : u128) : u128 := Z.land x (u64_lim - 1).
Definition keep_high (x : u128) : u128 := Z.land x (not_u 128 (u64_lim - 1)).

Section Sse.
Context `{IcedInstruction, NanChoice}.
Implicit Types (instr : Instruction).

(** [fp32] and [fp64], on bit patterns. *)
Definition fp_bits (f : fmt) (op : FpOp) (a b : Z) : Z :=
  to_bits f (nan_bits f op a b) (fp_apply f op (from_bits f a) (from_bits f b)).

Definition is_xmm_op instr (op : nat) : bool := is_xmm (op_register instr op).

Definition is_sse_movsd instr : bool := is_xmm_op instr 0 || is_xmm_op instr 1 || is_movsd_code instr.

(** ** Operands *)

Definition read_sse_op instr (op nbytes : nat) : X u128 :=
  match op_kind instr op with
  | OpKind.Register =>
      if is_xmm_op instr op then
        v ← xres_of (λ r, read_xmm r (op_register instr op));
        let mask := if decide (16 ≤ nbytes)%nat then u128_max else low_mask nbytes in
        mret (Z.land v mask)
      else xres_of (λ r, read_reg r (op_register instr op))
  | OpKind.Memory =>
      addr ← effective_address instr;
      if decide (16 < nbytes)%nat then xfail "sse read size"
      else
        slice ← xmem (mem_read_n addr nbytes) (read_fault addr nbytes);
        mret (le_val slice)
  | other => xfail ("sse read op kind " +:+ OpKind.debug other)
  end.

Definition write_sse_op instr (op : nat) (value : u128) (nbytes : nat) (scalar_merge : bool) : X unit :=
  match op_kind instr op with
  | OpKind.Register =>
      if is_xmm_op instr op then
        let reg := op_register instr op in
        new ← (if decide (scalar_merge = true ∧ (nbytes < 16)%nat) then
                 old ← xres_of (λ r, read_xmm r reg);
                 let mask := low_mask nbytes in
                 mret (Z.lor (Z.ldiff old mask) (Z.land value mask))
               else if decide (16 ≤ nbytes)%nat then mret value
               else mret (Z.land value (low_mask nbytes)));
        let final_v :=
          if scalar_merge then new
          else if decide (nbytes < 16)%nat then Z.land value (low_mask nbytes)
          else value in
        xregs (write_xmm reg final_v)
      else xfail ("sse write op kind " +:+ OpKind.debug OpKind.Register)
  | OpKind.Memory =>
      addr ← effective_address instr;
      if decide (16 < nbytes)%nat then xfail "sse write size"
      else xmem (write addr (le_bytes nbytes value))
             (InvalidMemory (mkInvalid ACCESS_WRITE addr (Z.of_nat nbytes) 0))
  | other => xfail ("sse write op kind " +:+ OpKind.debug other)
  end.

(** ** Moves *)

Definition exec_sse_mov instr (nbytes : nat) (scalar_merge : bool) : X unit :=
  val ← read_sse_op instr 1 nbytes;
  write_sse_op instr 0 val nbytes scalar_merge.

Definition exec_sse_movq instr : X unit :=
  if is_xmm_op instr 0 || is_xmm_op instr 1 then exec_sse_mov instr 8 true
  else
    v ← read_op instr 1;
    write_op instr 0 v.

Definition exec_sse_movd instr : X unit :=
  if is_xmm_op instr 0 then
    v ← (if decide (op_kind instr 1 = OpKind.Memory)
         then addr ← effective_address instr; read_mem_value addr 4
         else v ← xres_of (λ r, read_reg r (op_register instr 1)); mret (Z.land v 0xffffffff));
    xregs (write_xmm (op_register instr 0) (as_u 32 v))
  else if is_xmm_op instr 1 then
    x ← xres_of (λ r, read_xmm r (op_register instr 1));
    let v := Z.land (as_u 64 x) 0xffffffff in
    if decide (op_kind instr 0 = OpKind.Memory)
    then addr ← effective_address instr; write_mem_value addr v 4
    else xregs (write_reg (op_register instr 0) v)
  else xfail "movd without xmm".

Definition exec_sse_movhps instr : X unit :=
  if is_xmm_op instr 0 then
    src ← read_sse_op instr 1 8;
    old ← xres_of (λ r, read_xmm r (op_register instr 0));
    xregs (write_xmm (op_register instr 0) (Z.lor (lo64 old) (shl_u 128 src 64)))
  else
    xmm_val ← xres_of (λ r, read_xmm r (op_register instr 1));
    write_sse_op instr 0 (as_u 64 (Z.shiftr xmm_val 64)) 8 false.

(** [mnemonic() == Movhlps]. *)
Definition is_movhlps instr : bool := match mnemonic instr with Mnemonic.Movhlps => true | _ => false end.

Definition exec_sse_movhlps instr : X unit :=
  let dst := op_register instr 0 in
  dst_val ← xres_of (λ r, read_xmm r dst);
  src_val ← xres_of (λ r, read_xmm r (op_register instr 1));
  let new :=
    if is_movhlps instr then Z.lor (keep_high dst_val) (lo64 (Z.shiftr src_val 64))
    else Z.lor (lo64 dst_val) (shl_u 128 (lo64 src_val) 64) in
  xregs (write_xmm dst new).

Definition is_punpcklqdq instr : bool := match mnemonic instr with Mnemonic.Punpcklqdq => true | _ => false end.

Definition exec_sse_punpck instr : X unit :=
  let dst := op_register instr 0 in
  a ← xres_of (λ r, read_xmm r dst);
  b ← xres_of (λ r, read_xmm r (op_register instr 1));
  let new :=
    if is_punpcklqdq instr then Z.lor (lo64 a) (shl_u 128 (lo64 b) 64)
    else Z.lor (lo64 (Z.shiftr a 64)) (keep_high b) in
  xregs (write_xmm dst new).

(** The lane of the source that goes to lane [i]. *)
Definition shuffle_lane (imm8 : u8) (src : u128) (i : Z) : u32 :=
  let src_lane := Z.land (Z.shiftr imm8 (i * 2)) 3 in
  as_u 32 (Z.land (Z.shiftr src (src_lane * 32)) 0xffffffff).

Definition shuffle32 (imm8 : u8) (src : u128) : u128 :=
  foldl (λ acc i, Z.lor acc (shl_u 128 (shuffle_lane imm8 src i) (i * 32))) 0 [0; 1; 2; 3].

(** The control byte is taken from the displacement, and a memory source is
    replaced by the destination. *)
Definition exec_sse_pshufd instr : X unit :=
  let dst := op_register instr 0 in
  src_val ← (if decide (op_kind instr 1 = OpKind.Memory)
             then xres_of (λ r, read_xmm r dst)
             else xres_of (λ r, read_xmm r (op_register instr 1)));
  let imm8 := as_u 8 (memory_displacement64 instr) in
  xregs (write_xmm dst (shuffle32 imm8 src_val)).

(** ** Bit operations and arithmetic *)

Definition exec_sse_bitwise instr (op : SseBitOp) : X unit :=
  a ← read_sse_op instr 0 16;
  b ← read_sse_op instr 1 16;
  write_sse_op instr 0 (sse_bit op a b) 16 false.

Definition exec_sse_scalar_fp instr (op : FpOp) (is_f64 : bool) : X unit :=
  if is_f64 then
    a ← read_sse_op instr 0 8;
    b ← read_sse_op instr 1 8;
    write_sse_op instr 0 (fp_bits f64 op (as_u 64 a) (as_u 64 b)) 8 true
  else
    a ← read_sse_op instr 0 4;
    b ← read_sse_op instr 1 4;
    write_sse_op instr 0 (fp_bits f32 op (as_u 32 a) (as_u 32 b)) 4 true.

(** One lane of a packed operation, put back in place. *)
Definition packed_lane (f : fmt) (op : FpOp) (a b : u128) (i : Z) : u128 :=
  let w := width f in
  shl_u 128 (fp_bits f op (as_u w (Z.shiftr a (i * w))) (as_u w (Z.shiftr b (i * w)))) (i * w).

Definition exec_sse_packed_fp instr (op : FpOp) (is_f64 : bool) : X unit :=
  a ← read_sse_op instr 0 16;
  b ← read_sse_op instr 1 16;
  let lane := packed_lane (if is_f64 then f64 else f32) op a b in
  let out := foldl (λ out i, Z.lor out (lane i)) 0 (if is_f64 then [0; 1] else [0; 1; 2; 3]) in
  write_sse_op instr 0 out 16 false.
End Sse.

Section Floats.
Local Instance some_nan : NanChoice := λ f op a b, if decide (prec f = 24) then 0x7fc00000 else 0x7ff8000000000000.
(** 1.5 + 2.25, 1.0 / 3.0 and 0.0 / 0.0 in f32; 0.1 + 0.2 in f64. *)
Example fp_add : fp_bits f32 FpOp.Add 0x3fc00000 0x40100000 = 0x40700000. Proof. vm_compute. reflexivity. Qed.
Example fp_div : fp_bits f32 FpOp.Div 0x3f800000 0x40400000 = 0x3eaaaaab. Proof. vm_compute. reflexivity. Qed.
Example fp_nan : fp_bits f32 FpOp.Div 0 0 = 0x7fc00000. Proof. vm_compute. reflexivity. Qed.
Example fp_tenths : fp_bits f64 FpOp.Add 0x3fb999999999999a 0x3fc999999999999a = 0x3fd3333333333334.
Proof. vm_compute. reflexivity. Qed.
End Floats.
