(* ===== verification/exec_one.v ===== *)
(** * The interpreter: one instruction, one step (crates/wie-cpu/src/exec.rs)

    [execute_one] dispatches on the mnemonic; [step] fetches, decodes and executes
    the instruction at RIP unless the address is one the host stops at.  The
    opt-in instruction counters are not state of the guest and are left out. *)

From S2P Require Import Prelude protect pagemap vad arena region mem regs insn exec exec_string exec_sse.

(** ** Conditions *)

Definition cond_from_jcc (m : Mnemonic) (r : RegFile) : bool :=
  match m with
  | Mnemonic.Je => flag r ZF
  | Mnemonic.Jne => negb (flag r ZF)
  | Mnemonic.Ja => negb (flag r CF) && negb (flag r ZF)
  | Mnemonic.Jae => negb (flag r CF)
  | Mnemonic.Jb => flag r CF
  | Mnemonic.Jbe => flag r CF || flag r ZF
  | Mnemonic.Jg => negb (flag r ZF) && Bool.eqb (flag r SF) (flag r OF_)
  | Mnemonic.Jge => Bool.eqb (flag r SF) (flag r OF_)
  | Mnemonic.Jl => negb (Bool.eqb (flag r SF) (flag r OF_))
  | Mnemonic.Jle => flag r ZF || negb (Bool.eqb (flag r SF) (flag r OF_))
  | Mnemonic.Jo => flag r OF_
  | Mnemonic.Jno => negb (flag r OF_)
  | Mnemonic.Js => flag r SF
  | Mnemonic.Jns => negb (flag r SF)
  | Mnemonic.Jp => flag r PF
  | Mnemonic.Jnp => negb (flag r PF)
  | _ => false
  end.

Definition cond_from_cmov (m : Mnemonic) (r : RegFile) : bool :=
  match m with
  | Mnemonic.Cmove => flag r ZF
  | Mnemonic.Cmovne => negb (flag r ZF)
  | Mnemonic.Cmova => negb (flag r CF) && negb (flag r ZF)
  | Mnemonic.Cmovae => negb (flag r CF)
  | Mnemonic.Cmovb => flag r CF
  | Mnemonic.Cmovbe => flag r CF || flag r ZF
  | Mnemonic.Cmovg => negb (flag r ZF) && Bool.eqb (flag r SF) (flag r OF_)
  | Mnemonic.Cmovge => Bool.eqb (flag r SF) (flag r OF_)
  | Mnemonic.Cmovl => negb (Bool.eqb (flag r SF) (flag r OF_))
  | Mnemonic.Cmovle => flag r ZF || negb (Bool.eqb (flag r SF) (flag r OF_))
  | Mnemonic.Cmovo => flag r OF_
  | Mnemonic.Cmovno => negb (flag r OF_)
  | Mnemonic.Cmovs => flag r SF
  | Mnemonic.Cmovns => negb (flag r SF)
  | Mnemonic.Cmovp => flag r PF
  | Mnemonic.Cmovnp => negb (flag r PF)
  | _ => false
  end.

Definition cond_from_setcc (m : Mnemonic) (r : RegFile) : bool :=
  match m with
  | Mnemonic.Sete => flag r ZF
  | Mnemonic.Setne => negb (flag r ZF)
  | Mnemonic.Seta => negb (flag r CF) && negb (flag r ZF)
  | Mnemonic.Setae => negb (flag r CF)
  | Mnemonic.Setb => flag r CF
  | Mnemonic.Setbe => flag r CF || flag r ZF
  | Mnemonic.Setg => negb (flag r ZF) && Bool.eqb (flag r SF) (flag r OF_)
  | Mnemonic.Setge => Bool.eqb (flag r SF) (flag r OF_)
  | Mnemonic.Setl => negb (Bool.eqb (flag r SF) (flag r OF_))
  | Mnemonic.Setle => flag r ZF || negb (Bool.eqb (flag r SF) (flag r OF_))
  | Mnemonic.Seto => flag r OF_
  | Mnemonic.Setno => negb (flag r OF_)
  | Mnemonic.Sets => flag r SF
  | Mnemonic.Setns => negb (flag r SF)
  | Mnemonic.Setp => flag r PF
  | Mnemonic.Setnp => negb (flag r PF)
  | _ => false
  end.

Section Step.
Context `{IcedInstruction, NanChoice}.
(** The environment variable [WIE_STRING_BULK], and the nanoseconds the clock
    reads during this step. *)
Context (wie_string_bulk : option string) (now : Z).
Implicit Types (instr : Instruction).

(** The flags and sign extensions that touch no memory. *)
Definition exec_popfq : X unit :=
  v ← pop_n 8;
  xmod (set_rflags (Z.lor (Z.ldiff v ALWAYS1) ALWAYS1)).

Definition exec_leave : X unit :=
  _ ← xmod (λ r, set_rsp (rbp r) r);
  val ← pop64;
  xmod (set_rbp val).

Definition execute_one instr (next : u64) : X unit :=
  _ ← xmod (set_rip next);
  match mnemonic instr with
  | Mnemonic.Nop | Mnemonic.Fnclex | Mnemonic.Fninit | Mnemonic.Finit | Mnemonic.Endbr64 | Mnemonic.Endbr32
  | Mnemonic.Out | Mnemonic.Outsb | Mnemonic.Outsw | Mnemonic.Outsd | Mnemonic.Pshufb => mret tt
  | Mnemonic.Mov => exec_mov instr
  | Mnemonic.Movzx => exec_movzx instr false
  | Mnemonic.Movsx | Mnemonic.Movsxd => exec_movzx instr true
  | Mnemonic.Lea => exec_lea instr
  | Mnemonic.Push => exec_push instr
  | Mnemonic.Pop => exec_pop instr
  | Mnemonic.Add => exec_arith instr ArithOp.Add
  | Mnemonic.Adc => exec_arith instr ArithOp.Adc
  | Mnemonic.Sub => exec_arith instr ArithOp.Sub
  | Mnemonic.Sbb => exec_arith instr ArithOp.Sbb
  | Mnemonic.Xor => exec_arith instr ArithOp.Xor
  | Mnemonic.Or => exec_arith instr ArithOp.Or
  | Mnemonic.And => exec_arith instr ArithOp.And
  | Mnemonic.Cmp => exec_arith instr ArithOp.Cmp
  | Mnemonic.Test => exec_test instr
  | Mnemonic.Inc => exec_inc_dec instr true
  | Mnemonic.Dec => exec_inc_dec instr false
  | Mnemonic.Neg => exec_neg instr
  | Mnemonic.Not => exec_not instr
  | Mnemonic.Imul => exec_imul instr
  | Mnemonic.Mul => exec_mul instr
  | Mnemonic.Div => exec_div instr false
  | Mnemonic.Idiv => exec_div instr true
  | Mnemonic.Shl | Mnemonic.Sal => exec_shift instr ShiftKind.Shl
  | Mnemonic.Shr => exec_shift instr ShiftKind.Shr
  | Mnemonic.Sar => exec_shift instr ShiftKind.Sar
  | Mnemonic.Rol => exec_shift instr ShiftKind.Rol
  | Mnemonic.Ror => exec_shift instr ShiftKind.Ror
  | Mnemonic.Jmp => exec_jmp instr
  | Mnemonic.Call => exec_call instr next
  | Mnemonic.Ret => exec_ret instr
  | (Mnemonic.Je | Mnemonic.Jne | Mnemonic.Ja | Mnemonic.Jae | Mnemonic.Jb
  | Mnemonic.Jbe | Mnemonic.Jg | Mnemonic.Jge | Mnemonic.Jl | Mnemonic.Jle
  | Mnemonic.Jo | Mnemonic.Jno | Mnemonic.Js | Mnemonic.Jns | Mnemonic.Jp
  | Mnemonic.Jnp) as m =>
      taken ← xget (cond_from_jcc m);
      exec_jcc instr taken
  | (Mnemonic.Cmove | Mnemonic.Cmovne | Mnemonic.Cmova | Mnemonic.Cmovae | Mnemonic.Cmovb
  | Mnemonic.Cmovbe | Mnemonic.Cmovg | Mnemonic.Cmovge | Mnemonic.Cmovl | Mnemonic.Cmovle
  | Mnemonic.Cmovo | Mnemonic.Cmovno | Mnemonic.Cmovs | Mnemonic.Cmovns | Mnemonic.Cmovp
  | Mnemonic.Cmovnp) as m =>
      taken ← xget (cond_from_cmov m);
      exec_cmov instr taken
  | (Mnemonic.Sete | Mnemonic.Setne | Mnemonic.Seta | Mnemonic.Setae | Mnemonic.Setb
  | Mnemonic.Setbe | Mnemonic.Setg | Mnemonic.Setge | Mnemonic.Setl | Mnemonic.Setle
  | Mnemonic.Seto | Mnemonic.Setno | Mnemonic.Sets | Mnemonic.Setns | Mnemonic.Setp
  | Mnemonic.Setnp) as m =>
      taken ← xget (cond_from_setcc m);
      exec_setcc instr taken
  | Mnemonic.Xchg => exec_xchg instr
  | Mnemonic.Xadd => exec_xadd instr
  | Mnemonic.Cmpxchg => exec_cmpxchg instr
  | Mnemonic.Bswap => exec_bswap instr
  | Mnemonic.Bt => exec_bit instr BitOp.Bt
  | Mnemonic.Bts => exec_bit instr BitOp.Bts
  | Mnemonic.Btr => exec_bit instr BitOp.Btr
  | Mnemonic.Btc => exec_bit instr BitOp.Btc
  | Mnemonic.Cdqe => xmod (λ r, set_rax (as_u 64 (as_i 32 (rax r))) r)
  | Mnemonic.Cwde => ax ← xget rax; xregs (write_reg reg_EAX (Z.land (as_u 64 (as_i 16 ax)) 0xffffffff))
  | Mnemonic.Cbw => al ← xget rax; xregs (write_reg reg_AX (Z.land (as_u 64 (as_i 8 al)) 0xffff))
  | Mnemonic.Cdq => xmod (λ r, set_rdx (if decide (as_i 32 (rax r) < 0) then 0xffffffff else 0) r)
  | Mnemonic.Cwd => ax ← xget rax; xregs (write_reg reg_DX (if decide (as_i 16 ax < 0) then 0xffff else 0))
  | Mnemonic.Cqo => xmod (λ r, set_rdx (if decide (as_i 64 (rax r) < 0) then u64_lim - 1 else 0) r)
  | Mnemonic.Cld => xmod (set_flag DF false)
  | Mnemonic.Std => xmod (set_flag DF true)
  | Mnemonic.Clc => xmod (set_flag CF false)
  | Mnemonic.Stc => xmod (set_flag CF true)
  | Mnemonic.Cmc => xmod (λ r, set_flag CF (negb (flag r CF)) r)
  | Mnemonic.Pushfq => fl ← xget rflags; push_n fl 8
  | Mnemonic.Popfq => exec_popfq
  | Mnemonic.Leave => exec_leave
  | Mnemonic.Stosb => exec_stos wie_string_bulk instr 1
  | Mnemonic.Stosw => exec_stos wie_string_bulk instr 2
  | Mnemonic.Stosd => exec_stos wie_string_bulk instr 4
  | Mnemonic.Stosq => exec_stos wie_string_bulk instr 8
  | Mnemonic.Movsb => exec_movs wie_string_bulk instr 1
  | Mnemonic.Movsw => exec_movs wie_string_bulk instr 2
  | Mnemonic.Movsq => exec_movs wie_string_bulk instr 8
  | Mnemonic.Movsd =>
      if is_sse_movsd instr then exec_sse_mov instr 8 true else exec_movs wie_string_bulk instr 4
  | Mnemonic.Lodsb => exec_lods instr 1
  | Mnemonic.Lodsd => exec_lods instr 4
  | Mnemonic.Lodsq => exec_lods instr 8
  | Mnemonic.Scasb => exec_scas instr 1
  | Mnemonic.Scasw => exec_scas instr 2
  | Mnemonic.Scasd => exec_scas instr 4
  | Mnemonic.Scasq => exec_scas instr 8
  | Mnemonic.Cmpsb => exec_cmps instr 1
  | Mnemonic.Cmpsw => exec_cmps instr 2
  | Mnemonic.Cmpsd => exec_cmps instr 4
  | Mnemonic.Cmpsq => exec_cmps instr 8
  | Mnemonic.Movss => exec_sse_mov instr 4 true
  | Mnemonic.Movaps | Mnemonic.Movups | Mnemonic.Movdqa | Mnemonic.Movdqu | Mnemonic.Movapd
  | Mnemonic.Movupd => exec_sse_mov instr 16 false
  | Mnemonic.Movq => exec_sse_movq instr
  | Mnemonic.Xorps | Mnemonic.Xorpd | Mnemonic.Pxor => exec_sse_bitwise instr SseBitOp.Xor
  | Mnemonic.Andps | Mnemonic.Andpd | Mnemonic.Pand => exec_sse_bitwise instr SseBitOp.And
  | Mnemonic.Orps | Mnemonic.Orpd | Mnemonic.Por => exec_sse_bitwise instr SseBitOp.Or
  | Mnemonic.Andnps | Mnemonic.Andnpd | Mnemonic.Pandn => exec_sse_bitwise instr SseBitOp.Andn
  | Mnemonic.Movd => exec_sse_movd instr
  | Mnemonic.Movhps => exec_sse_movhps instr
  | Mnemonic.Movhlps | Mnemonic.Movlhps => exec_sse_movhlps instr
  | Mnemonic.Punpcklqdq | Mnemonic.Punpckhqdq => exec_sse_punpck instr
  | Mnemonic.Pshufd => exec_sse_pshufd instr
  | Mnemonic.Addss => exec_sse_scalar_fp instr FpOp.Add false
  | Mnemonic.Subss => exec_sse_scalar_fp instr FpOp.Sub false
  | Mnemonic.Mulss => exec_sse_scalar_fp instr FpOp.Mul false
  | Mnemonic.Divss => exec_sse_scalar_fp instr FpOp.Div false
  | Mnemonic.Addsd => exec_sse_scalar_fp instr FpOp.Add true
  | Mnemonic.Subsd => exec_sse_scalar_fp instr FpOp.Sub true
  | Mnemonic.Mulsd => exec_sse_scalar_fp instr FpOp.Mul true
  | Mnemonic.Divsd => exec_sse_scalar_fp instr FpOp.Div true
  | Mnemonic.Addps => exec_sse_packed_fp instr FpOp.Add false
  | Mnemonic.Subps => exec_sse_packed_fp instr FpOp.Sub false
  | Mnemonic.Mulps => exec_sse_packed_fp instr FpOp.Mul false
  | Mnemonic.Divps => exec_sse_packed_fp instr FpOp.Div false
  | Mnemonic.Addpd => exec_sse_packed_fp instr FpOp.Add true
  | Mnemonic.Subpd => exec_sse_packed_fp instr FpOp.Sub true
  | Mnemonic.Mulpd => exec_sse_packed_fp instr FpOp.Mul true
  | Mnemonic.Divpd => exec_sse_packed_fp instr FpOp.Div true
  | Mnemonic.Cpuid => xmod (λ r, set_rdx 0 (set_rcx 0 (set_gpr 3 0 (set_rax 0 r))))
  | Mnemonic.Rdtsc =>
      let t := as_u 64 now in
      xmod (λ r, set_rdx (Z.shiftr t 32) (set_rax (Z.land t 0xffffffff) r))
  | Mnemonic.In => xmod (set_rax 0)
  | Mnemonic.Insb | Mnemonic.Insw | Mnemonic.Insd =>
      if has_rep_prefix instr then xmod (set_rcx 0) else mret tt
  | Mnemonic.Other other => xfail ("unimplemented mnemonic " +:+ other +:+ " at " +:+ fmt_hex (ip instr))
  end.

(** ** Host stops *)

(** One bit per address of [begin, end], 1 where the host stops. *)
Record HookWindow := mkHook {
  hk_begin : u64;
  hk_end : u64;
  stop_bitmap : list u8;
}.

Definition should_host_stop (h : HookWindow) (address : u64) : bool :=
  if decide (stop_bitmap h = []) then bool_decide (hk_begin h ≤ address) && bool_decide (address ≤ hk_end h)
  else if decide (address < hk_begin h) then false
  else
    let range_len := sat_add (sat_sub (hk_end h) (hk_begin h)) 1 in
    let offset := sat_sub address (hk_begin h) in
    if decide (range_len ≤ offset) then false
    else
      let byte_index := offset / 8 in
      let bit := offset mod 8 in
      match stop_bitmap h !! Z.to_nat byte_index with
      | Some byte => nonzero (Z.land byte (Z.shiftl 1 bit))
      | None => true
      end.

(** ** The step *)

Inductive StepResult :=
  | Continue
  | HostStop (address : u64) (size : u32)
  | StepInvalidMemory (i : InvalidMem).
#[global] Instance StepResult_eq_dec : EqDecision StepResult.
Proof. solve_decision. Defined.

(** [fetch_into] a buffer of 15 bytes: the bytes fetched. *)
Definition fetch15 (rip : u64) : M cpu (list u8) := λ c,
  match gm_fetch_into rip (cmem c, replicate 15 0) with
  | ((g, buf), Ok n) => (mkCpu g (cregs c), Ok (take (Z.to_nat n) buf))
  | ((g, _), Err e) => (mkCpu g (cregs c), Err e)
  | ((g, _), Abort w) => (mkCpu g (cregs c), Abort w)
  end.

Definition peek_insn_len (rip : u64) : M cpu (option u32) := λ c,
  match fetch15 rip c with
  | (c, Ok bytes) => (c, Ok ((λ i, Z.of_nat (insn_len i)) <$> decode rip bytes))
  | (c, Err _) => (c, Ok None)
  | (c, Abort w) => (c, Abort w)
  end.

(** Execute a decoded instruction; a fault puts RIP back. *)
Definition run_insn instr (rip : u64) : M cpu StepResult := λ c,
  let back c := mkCpu (cmem c) (set_rip rip (cregs c)) in
  match execute_one instr (next_ip instr) c with
  | (c, XOk _) => (c, Ok Continue)
  | (c, XErr (InvalidMemory inv)) => (back c, Ok (StepInvalidMemory inv))
  | (c, XErr (Cpu e)) => (back c, Err e)
  | (c, XAbort w) => (c, Abort w)
  end.

Definition stops_at (hook : option HookWindow) (rip : u64) : bool :=
  match hook with Some h => should_host_stop h rip | None => false end.

Definition step (hook : option HookWindow) : M cpu StepResult := λ c,
  let rip := rip (cregs c) in
  if stops_at hook rip then
    (size ← peek_insn_len rip; mret (HostStop rip (default 1 size))) c
  else
    match fetch15 rip c with
    | (c, Abort w) => (c, Abort w)
    | (c, Err _) => (c, Ok (StepInvalidMemory (mkInvalid ACCESS_FETCH rip 1 0)))
    | (c, Ok bytes) =>
        match decode rip bytes with
        | None => (c, Err (Message ("invalid instruction at " +:+ fmt_hex rip)))
        | Some instr => run_insn instr rip c
        end
    end.
End Step.
