(* ===== verification/iced_cpu.v ===== *)
(** * The interpreter engine (crates/wie-cpu/src/iced_cpu.rs)

    An engine is the state of one guest thread; the guest memory, shared between
    engines behind a lock, is passed next to it.  A step holds the lock, so
    engines take turns step by step. *)

From S2P Require Import Prelude protect pagemap vad arena region mem regs insn exec exec_string exec_sse exec_one.
From S2P Require Import engine.

Definition RIP_TRACE_CAP : nat := 32.
(** [i & RIP_TRACE_MASK]: the capacity is a power of two. *)
Definition trace_slot (i : usize) : nat := Z.to_nat (Z.land i (Z.of_nat RIP_TRACE_CAP - 1)).

Record IcedCpu := mkIced {
  i_regs : RegFile;
  hooks : option HookWindow;
  rip_trace : list u64;
  rip_trace_i : usize;
  rip_trace_n : nat;
  iced_steps : u64;
}.

Definition new_engine : IcedCpu :=
  mkIced RegFile_new None (replicate RIP_TRACE_CAP 0) 0 0 0.

(** The engine opened first owns the memory the later ones share. *)
Definition open_x86_64 : GuestMemory * IcedCpu := (gm_new Host_empty, new_engine).
Definition new_shared (source : GuestMemory * IcedCpu) : GuestMemory * IcedCpu := (source.1, new_engine).
Definition new_standalone_with_mem (m : GuestMemory) : GuestMemory * IcedCpu := (m, new_engine).

Definition with_regs (r : RegFile) (i : IcedCpu) : IcedCpu :=
  mkIced r (hooks i) (rip_trace i) (rip_trace_i i) (rip_trace_n i) (iced_steps i).
Definition with_hooks (h : option HookWindow) (i : IcedCpu) : IcedCpu :=
  mkIced (i_regs i) h (rip_trace i) (rip_trace_i i) (rip_trace_n i) (iced_steps i).
Definition count_step (i : IcedCpu) : IcedCpu :=
  mkIced (i_regs i) (hooks i) (rip_trace i) (rip_trace_i i) (rip_trace_n i) (sat_add (iced_steps i) 1).

Definition push_rip_trace (rip : u64) (i : IcedCpu) : IcedCpu :=
  mkIced (i_regs i) (hooks i) (<[trace_slot (rip_trace_i i) := rip]> (rip_trace i))
    (wrapping_add (rip_trace_i i) 1)
    (if decide (rip_trace_n i < RIP_TRACE_CAP)%nat then S (rip_trace_n i) else rip_trace_n i)
    (iced_steps i).

Definition rip_trace_vec (i : IcedCpu) : list u64 :=
  let n := rip_trace_n i in
  let start := wrapping_sub (rip_trace_i i) (Z.of_nat n) in
  omap (λ k, rip_trace i !! trace_slot (wrapping_add start (Z.of_nat k))) (seq 0 n).

Section Engine.
Context `{IcedInstruction, NanChoice}.
(** [WIE_STRING_BULK], and the clock at each step of a run. *)
Context (wie_string_bulk : option string) (now : Z → Z).

(** One step of the engine's thread on the shared memory. *)
Definition engine_step (clock : Z) : M (GuestMemory * IcedCpu) StepResult := λ s,
  match step wie_string_bulk clock (hooks s.2) (mkCpu s.1 (i_regs s.2)) with
  | (c, r) => ((cmem c, with_regs (cregs c) s.2), r)
  end.

Definition on_engine (f : IcedCpu → IcedCpu) : M (GuestMemory * IcedCpu) unit :=
  modify (λ s, (s.1, f s.2)).

Definition step_once_result (clock : Z) : M (GuestMemory * IcedCpu) StepResult :=
  _ ← on_engine (λ i, push_rip_trace (rip (i_regs i)) i);
  result ← engine_step clock;
  _ ← (match result with Continue => on_engine count_step | _ => mret tt end);
  mret result.

Definition step_once (clock : Z) : M (GuestMemory * IcedCpu) unit :=
  result ← step_once_result clock;
  match result with
  | Continue => mret tt
  | HostStop address _ => fail (Message ("host_stop at " +:+ fmt_hex address))
  | StepInvalidMemory inv =>
      fail (Message ("invalid memory " +:+ fmt_dec (access_type inv) +:+ " at " +:+ fmt_hex (im_address inv)
                     +:+ " size=" +:+ fmt_dec (im_size inv)))
  end.

(** ** Running *)

Record CodeHookOutcome := mkCode { ch_hit : bool; ch_address : u64; ch_size : u32 }.
Record InvalidMemoryAccess := mkAccess {
  ia_hit : bool; ia_access_type : Z; ia_address : u64; ia_size : Z; ia_value : Z }.
Record RunUntilHook := mkRun { code : CodeHookOutcome; invalid_memory : InvalidMemoryAccess }.

Definition no_code : CodeHookOutcome := mkCode false 0 0.
Definition no_access : InvalidMemoryAccess := mkAccess false 0 0 0 0.

Definition run_error (e : CpuError) (i : IcedCpu) : CpuError :=
  let '(Message text) := e in
  let r := i_regs i in
  let reg name v := name +:+ "=" +:+ fmt_hex v in
  Message (text +:+ "; iced_regs " +:+ reg "rax" (rax r) +:+ " " +:+ reg "rbx" (rbx r) +:+ " "
    +:+ reg "rcx" (rcx r) +:+ " " +:+ reg "rdx" (rdx r) +:+ " " +:+ reg "rsp" (rsp r) +:+ " " +:+ reg "rbp" (rbp r)
    +:+ " " +:+ reg "rsi" (rsi r) +:+ " " +:+ reg "rdi" (rdi r) +:+ " " +:+ reg "r8" (r8 r) +:+ " " +:+ reg "r9" (r9 r)
    +:+ " " +:+ reg "r12" (gpr r 12) +:+ " " +:+ reg "r13" (gpr r 13) +:+ " " +:+ reg "r14" (gpr r 14) +:+ " "
    +:+ reg "r15" (gpr r 15) +:+ "; iced_rip_trace=[" +:+ String.concat " -> " (fmt_hex <$> rip_trace_vec i) +:+ "]").

(** One turn of the loop; the state is the number of instructions executed. *)
Definition run_body (until budget : u64) (executed : Z) : M (GuestMemory * IcedCpu) (Z + RunUntilHook) := λ s,
  if decide (executed < budget) then
    if decide (until ≠ 0 ∧ rip (i_regs s.2) = until) then (s, Ok (inr (mkRun no_code no_access)))
    else
      let s := if is_multiple_of executed 16 then (s.1, push_rip_trace (rip (i_regs s.2)) s.2) else s in
      match engine_step (now executed) s with
      | (s, Ok Continue) => ((s.1, count_step s.2), Ok (inl (sat_add executed 1)))
      | (s, Ok (HostStop address size)) => (s, Ok (inr (mkRun (mkCode true address size) no_access)))
      | (s, Ok (StepInvalidMemory inv)) =>
          (s, Ok (inr (mkRun no_code
            (mkAccess true (access_type inv) (im_address inv) (im_size inv) (im_value inv)))))
      | (s, Err e) => (s, Err (run_error e s.2))
      | (s, Abort w) => (s, Abort w)
      end
  else (s, Ok (inr (mkRun no_code no_access))).

Definition run_budget (count : usize) : usize := if decide (count = 0) then 100000000 else count.

Definition run_until_stop (begin until : u64) (count : usize) : M (GuestMemory * IcedCpu) RunUntilHook :=
  _ ← on_engine (λ i, with_regs (set_rip begin (i_regs i)) i);
  let budget := run_budget count in
  loopM (fuel_of budget) (run_body until budget) 0.
End Engine.

(** ** The rest of the engine interface *)

(** [n.div_ceil(8)]. *)
Definition div_ceil8 (n : usize) : usize := n / 8 + Z.b2z (bool_decide (n mod 8 ≠ 0)).

Definition install_runtime_hooks (hook_begin hook_end : u64) (bitmap : list u8)
    : M (GuestMemory * IcedCpu) unit :=
  let range_len := sat_add (sat_sub hook_end hook_begin) 1 in
  let expected_bytes := div_ceil8 range_len in
  if decide (expected_bytes ≠ u64_lim - 1 ∧ Z.of_nat (length bitmap) < expected_bytes)
  then fail (Message ("stop_bitmap too small: " +:+ fmt_dec (Z.of_nat (length bitmap)) +:+ " < "
                      +:+ fmt_dec expected_bytes))
  else on_engine (with_hooks (Some (mkHook hook_begin hook_end bitmap))).

Definition return_from_win64_api (value : u64) : M (GuestMemory * IcedCpu) u64 := λ s,
  let sp := rsp (i_regs s.2) in
  match mem_read_n sp 8 s.1 with
  | (g, Ok ret_bytes) =>
      let return_address := le_val ret_bytes in
      let r := set_rip return_address (set_rax value (set_rsp (wrapping_add sp 8) (i_regs s.2))) in
      ((g, with_regs r s.2), Ok return_address)
  | (g, Err (Message e)) => ((g, s.2), Err (Message ("return_from_win64_api stack read: " +:+ e)))
  | (g, Abort w) => ((g, s.2), Abort w)
  end.

Definition snapshot_thread_context (i : IcedCpu) : ThreadContext := snapshot (i_regs i).
Definition restore_thread_context (ctx : ThreadContext) (i : IcedCpu) : IcedCpu :=
  with_regs (restore ctx (i_regs i)) i.

(** Clients of the engine see its memory. *)
Definition on_engine_mem {A} (m : M GuestMemory A) : M (GuestMemory * IcedCpu) A :=
  zoom fst (λ g s, (g, s.2)) m.

#[global] Instance IcedCpu_CpuMem : CpuMem (GuestMemory * IcedCpu) := {|
  mem_read a n := on_engine_mem (engine.mem_read a n);
  mem_write a bs := on_engine_mem (engine.mem_write a bs);
|}.
