(* ===== verification/exec_wf.v ===== *)
(** * The memory under an instruction

    What an instruction may do to the guest memory ([stored]): store bytes on
    committed writable pages and refresh the lookup cache, nothing else.  The
    accesses of the interpreter, through [read], [write] and host pointers, in
    those terms. *)

From S2P Require Import Prelude protect pagemap vad arena region mem mem_access mem_ops mem_safe.
From S2P Require Import regs insn exec exec_string.

(** A well-formed guest memory over a host that grants what the guest may do. *)
Record mem_ok (g : GuestMemory) : Prop := {
  mo_wf : gm_wf g;
  mo_host : host_grants g;
  mo_bytes : ∀ x b, gbyte g x = Some b → is_byte b;
}.

(** The page of [x] is committed and writable. *)
Definition may_write (g : GuestMemory) (x : Z) : Prop :=
  ∃ pr, gview g (x / 4096) = Some (Committed, pr) ∧ allows_write pr = true.

Record stored (g g' : GuestMemory) : Prop := {
  st_view : gview g' = gview g;
  st_vads : vads g' = vads g;
  st_regions : regions g' = regions g;
  st_generation : generation g' = generation g;
  st_arenas : arenas (backend g') = arenas (backend g);
  st_prot : h_prot (os_state (backend g')) = h_prot (os_state (backend g));
  st_bytes : ∀ x, gbyte g' x ≠ gbyte g x → may_write g x;
}.

Lemma stored_refl g : stored g g.
Proof. by split. Qed.

Lemma stored_trans g1 g2 g3 : stored g1 g2 → stored g2 g3 → stored g1 g3.
Proof.
  intros [] []. split; try congruence. intros x Hx. destruct (decide (gbyte g2 x = gbyte g1 x)) as [E|]; [|auto].
  rewrite <- E in Hx. unfold may_write in *. rewrite <- st_view0. auto.
Qed.

Lemma same_stored g g' : same_but_cache g g' → stored g g'.
Proof.
  intros Hs. pose proof (same_gview _ _ Hs). destruct Hs as [Eb Er _ Ev Eg].
  split; rewrite ?Eb; try done. intros x. unfold gbyte. by rewrite Eb.
Qed.

Lemma same_gbyte g g' : same_but_cache g g' → gbyte g' = gbyte g.
Proof. intros [Eb]. unfold gbyte. by rewrite Eb. Qed.

Lemma mem_ok_same g g' : mem_ok g → same_but_cache g g' → gm_wf g' → mem_ok g'.
Proof.
  intros [_ Hrw Hb] Hs Hwf. split; [done| |].
  - by eapply host_grants_same.
  - intros x b. rewrite (same_gbyte _ _ Hs). apply Hb.
Qed.

(** The guest sees [bs] at [a] and everything else as before. *)
Definition bytes_set (g : GuestMemory) (a : Z) (bs : list u8) (g' : GuestMemory) : Prop :=
  ∀ x, gbyte g' x = if decide (a ≤ x < a + Z.of_nat (length bs)) then bs !! Z.to_nat (x - a) else gbyte g x.

Lemma bytes_set_ok g a bs g' :
  Forall is_byte bs → (∀ x b, gbyte g x = Some b → is_byte b) → bytes_set g a bs g' →
  ∀ x b, gbyte g' x = Some b → is_byte b.
Proof.
  intros Hbs Hg Hs x b. rewrite Hs. case_decide; [|apply Hg]. intros Hb. by eapply Forall_lookup_1 in Hb.
Qed.

Lemma granted_may_write g a n x : granted g a n Write → a ≤ x < a + n → may_write g x.
Proof. intros Hg Hx. destruct (Hg x Hx) as (pr & ? & ?). by exists pr. Qed.

(** ** Reads *)

Lemma mem_read_n_spec g a n :
  mem_ok g → in_u64 a → Z.of_nat n < u64_lim →
  ∃ g', same_but_cache g g' ∧ mem_ok g' ∧
  match spc g a (Z.of_nat n) Read with
  | Ok _ => ∃ bs, mem_read_n a n g = (g', Ok bs) ∧ length bs = n ∧ Forall is_byte bs ∧
              ∀ i, (i < n)%nat → bs !! i = gbyte g (a + Z.of_nat i)
  | Err e => mem_read_n a n g = (g', Err e)
  | Abort _ => False
  end.
Proof.
  intros Hok Ha Hn. pose proof Hok as [Hwf Hrw Hb]. unfold mem_read_n.
  assert (Hl : Z.of_nat (length (replicate n 0)) = Z.of_nat n) by (by rewrite length_replicate).
  destruct (gm_read_spec g a (replicate n 0) Hwf Ha) as (g' & bs & -> & Hwf' & Hs & Hlen & Hres);
    [rewrite Hl; split; lia|intros Hspc; apply (host_grants_spc _ _ _ Read Hwf Hrw Ha); [rewrite Hl; split; lia|done]|].
  rewrite Hl in *. rewrite length_replicate in *. exists g'. split; [done|]. split; [by eapply mem_ok_same|].
  destruct (spc g a (Z.of_nat n) Read) as [[]|e|w] eqn:E; [|done|by apply spc_no_abort in E].
  exists bs. split_and!; try done. apply Forall_lookup_2. intros i b Hi.
  apply (Hb (a + Z.of_nat i)). rewrite <- Hres; [done|]. apply lookup_lt_Some in Hi. lia.
Qed.

(** What the host must let an instruction fetch do. *)
Lemma fetch_allowed g rip n : mem_ok g → in_u64 rip → spc g rip n Execute = Ok tt → host_allows (backend g) PROT_READ rip n.
Proof.
  intros [Hwf Hh _] Hrip Hspc. destruct (decide (0 < n)) as [Hn|]; [|intros x ? ?; lia].
  assert (Hlim : n < u64_lim).
  { unfold spc in Hspc. destruct (decide (n = 0)); [lia|]. destruct (decide (rip + n < u64_lim)); [|done]. unfold in_u64 in Hrip. lia. }
  apply (host_grants_spc g rip n Execute Hwf Hh Hrip); [split; lia|done].
Qed.

(** ** Writes *)

Lemma mem_write_spec g a bs :
  mem_ok g → in_u64 a → Z.of_nat (length bs) < u64_lim → Forall is_byte bs →
  ∃ g', write a bs g = (g', spc g a (Z.of_nat (length bs)) Write) ∧ mem_ok g' ∧ stored g g' ∧
  match spc g a (Z.of_nat (length bs)) Write with
  | Ok _ => bytes_set g a bs g'
  | Err _ => ∀ x, gbyte g' x = gbyte g x
  | Abort _ => False
  end.
Proof.
  intros Hok Ha Hn Hbs. pose proof Hok as [Hwf Hrw Hb].
  destruct (gm_write_holds g a bs Hwf Ha) as (g' & -> & Hwf' & Hv & Hva & Hr & Hg & Har & Hp & Hby);
    [split; lia|intros Hspc; apply (host_grants_spc _ _ _ Write Hwf Hrw Ha); [split; lia|done]|].
  exists g'. split; [done|].
  assert (Hset : match spc g a (Z.of_nat (length bs)) Write with
                 | Ok _ => bytes_set g a bs g' | Err _ => ∀ x, gbyte g' x = gbyte g x | Abort _ => False end).
  { destruct (spc g a (Z.of_nat (length bs)) Write) as [[]|e|w] eqn:E; [| |by apply spc_no_abort in E].
    - intros x. rewrite Hby. cbn [is_ok andb]. case_bool_decide; by case_decide.
    - intros x. by rewrite Hby. }
  assert (Hst : ∀ x, gbyte g' x ≠ gbyte g x → may_write g x).
  { intros x Hx. destruct (spc g a (Z.of_nat (length bs)) Write) as [[]|e|w] eqn:E; [|by rewrite Hset in Hx|done].
    rewrite (Hset x) in Hx. case_decide as Hin; [|done].
    assert (Hl : in_u64 (Z.of_nat (length bs))) by (split; lia).
    destruct (spc_ok g a _ Write Hwf Ha Hl E) as [_ Hgr].
    destruct (Hgr x Hin) as [(pr & ? & ?) _]. by exists pr. }
  split_and!; [|by split|].
  - split; [done| |].
    + by eapply host_grants_kept.
    + destruct (spc g a (Z.of_nat (length bs)) Write); [by eapply bytes_set_ok| |done].
      intros x b. rewrite Hset. apply Hb.
  - destruct (spc g a (Z.of_nat (length bs)) Write); done.
Qed.

(** ** Host pointers *)

Lemma alias_allows g p a n k :
  host_grants g → granted g a n k → host_alias g p a n →
  ∀ q, p ≤ q < p + n → unit_allows (os_state (backend g)) (host_bit k) q = true.
Proof.
  intros Hh Hgr Hal q Hq. specialize (Hal (q - p) ltac:(lia)). replace (p + (q - p)) with q in Hal by lia.
  destruct (Hgr (a + (q - p)) ltac:(lia)) as (pr & Hv & Hk). by eapply Hh.
Qed.

Lemma granted_read g a n : granted g a n Write → granted g a n Read.
Proof. intros Hg x Hx. destruct (Hg x Hx) as (pr & ? & ?%writable_readable). by exists pr. Qed.

Lemma alias_bytes g p a n :
  host_grants g → granted g a (Z.of_nat n) Read → host_alias g p a (Z.of_nat n) →
  ∃ bs, host_load p n (os_state (backend g)) = Ok bs ∧ length bs = n ∧
    ∀ i, (i < n)%nat → bs !! i = gbyte g (a + Z.of_nat i).
Proof.
  intros Hh Hgr Hal. rewrite host_load_ok by (eapply (alias_allows _ _ _ _ Read); eauto).
  exists (get_bytes (os_state (backend g)) p n). split_and!; [done|apply get_bytes_length|].
  intros i Hi. unfold gbyte, byte_at. rewrite Hal by lia. simpl. clear -Hi. revert p i Hi.
  induction n as [|n IH]; intros p [|i] Hi; simpl; try lia; [by rewrite Z.add_0_r|].
  rewrite IH by lia. do 2 f_equal. lia.
Qed.

Lemma alias_load g p a n :
  mem_ok g → granted g a (Z.of_nat n) Read → host_alias g p a (Z.of_nat n) →
  ∃ bs, host_load p n (os_state (backend g)) = Ok bs ∧ length bs = n ∧ Forall is_byte bs ∧
    ∀ i, (i < n)%nat → bs !! i = gbyte g (a + Z.of_nat i).
Proof.
  intros Hok Hgr Hal. destruct (alias_bytes g p a n (mo_host _ Hok) Hgr Hal) as (bs & -> & Hl & Hi).
  exists bs. split_and!; [done|done| |done]. apply Forall_lookup_2. intros i b Hb.
  apply (mo_bytes _ Hok (a + Z.of_nat i)). rewrite <- Hi; [done|]. apply lookup_lt_Some in Hb. lia.
Qed.

(** Only bytes change. *)
Record same_but_bytes (g g' : GuestMemory) : Prop := {
  sb_view : gview g' = gview g;
  sb_vads : vads g' = vads g;
  sb_regions : regions g' = regions g;
  sb_generation : generation g' = generation g;
  sb_arenas : arenas (backend g') = arenas (backend g);
  sb_prot : h_prot (os_state (backend g')) = h_prot (os_state (backend g));
}.

Lemma alias_put g p a bs :
  gm_wf g → host_grants g → granted g a (Z.of_nat (length bs)) Write → host_alias g p a (Z.of_nat (length bs)) →
  ∃ g', on_backend (on_host (host_store p bs)) g = (g', Ok tt) ∧ gm_wf g' ∧ host_grants g' ∧ same_but_bytes g g' ∧ bytes_set g a bs g'.
Proof.
  intros Hwf Hh Hgr Hal. unfold on_backend, on_host, zoom.
  rewrite host_store_ok by (eapply (alias_allows _ _ _ _ Write); eauto). eexists. split; [reflexivity|].
  destruct (store_byte_at (backend g) a p bs (gw_backend _ Hwf) Hal) as [Hwf' Hby].
  split_and!; [destruct Hwf as [H1 H2 H3 H4 H5]; by split|by eapply host_grants_kept|by split|exact Hby].
Qed.

Lemma alias_store g p a bs :
  mem_ok g → granted g a (Z.of_nat (length bs)) Write → host_alias g p a (Z.of_nat (length bs)) →
  Forall is_byte bs →
  ∃ g', on_backend (on_host (host_store p bs)) g = (g', Ok tt) ∧ mem_ok g' ∧ stored g g' ∧ bytes_set g a bs g'.
Proof.
  intros [Hwf Hh Hb] Hgr Hal Hbs. destruct (alias_put g p a bs Hwf Hh Hgr Hal) as (g' & -> & Hwf' & Hh' & Hsame & Hset).
  exists g'. split; [done|]. split; [split; [done..|by eapply bytes_set_ok]|]. split; [|done].
  destruct Hsame. split; [done..|].
  intros x Hx. rewrite (Hset x) in Hx. case_decide as Hin; [|done]. by eapply granted_may_write.
Qed.

Lemma span_spec g a len wr :
  mem_ok g → in_u64 a → in_u64 len →
  ∃ g' r, host_span a len wr g = (g', r) ∧ same_but_cache g g' ∧ mem_ok g' ∧
    match r with
    | Some p => 0 < len ∧ a + len < u64_lim ∧ granted g a len (if wr then Write else Read) ∧
        host_alias g' p a len
    | None => True
    end.
Proof.
  intros Hok Ha Hl. destruct (host_span a len wr g) as [g' r] eqn:E.
  destruct (host_span_same g a len wr (mo_wf _ Hok) Ha Hl) as [Hs Hwf]. rewrite E in *. simpl in *.
  exists g', r. split_and!; [done|done|by eapply mem_ok_same|]. destruct r as [p|]; [|done].
  destruct (host_span_holds g a len wr g' p (mo_wf _ Hok) Ha Hl E) as (H1 & H2 & _ & H3 & H4 & _).
  split_and!; try done. intros i Hi. rewrite (sc_backend _ _ Hs). by apply H4.
Qed.

Lemma granted_same g g' a n k : gview g' = gview g → granted g a n k → granted g' a n k.
Proof. unfold granted. by intros ->. Qed.

Lemma alias_stored g g' p a n : stored g g' → host_alias g p a n → host_alias g' p a n.
Proof. intros Hs Hal i Hi. rewrite (st_arenas _ _ Hs). by apply Hal. Qed.

(** * Instruction bodies are well typed and sandboxed

    [safe m Q]: run on a well-formed machine, [m] leaves a well-formed machine, has
    only stored bytes on writable pages ([stored]), does not kill the emulator
    process, and a result satisfies [Q].  One rule per construct of the monad,
    then one lemma per instruction body. *)

From S2P Require Import Prelude protect pagemap vad arena region mem mem_access mem_ops mem_safe.
From S2P Require Import regs regs_safe insn exec exec_string.

(** ** Ranges of machine words *)

Definition in_u128 (x : Z) : Prop := 0 ≤ x < 2 ^ 128.

Create HintDb word.

Lemma in_u64_bits x : in_u64 x ↔ 0 ≤ x ∧ ∀ n, 64 ≤ n → Z.testbit x n = false.
Proof.
  split; [intros Hx; split; [apply Hx|intros n Hn; by apply testbit_in_u64]|]. intros [Hx Hb]. by apply bits_in_u64.
Qed.

Lemma land_bound x y k : 0 ≤ x < 2 ^ k → 0 ≤ Z.land x y < 2 ^ k.
Proof.
  intros Hx. assert (0 ≤ Z.land x y) by (apply Z.land_nonneg; lia).
  assert (Z.land x y ≤ x); [|lia].
  assert (Hd : Z.land x y = x - Z.ldiff x y).
  { pose proof (Z.sub_nocarry_ldiff x (Z.ldiff x y)) as E.
    rewrite E.
    - apply Z.bits_inj'. intros n Hn. rewrite !Z.ldiff_spec, Z.land_spec. by destruct (Z.testbit x n), (Z.testbit y n).
    - apply Z.bits_inj'. intros n Hn. rewrite !Z.ldiff_spec, Z.bits_0. by destruct (Z.testbit x n), (Z.testbit y n). }
  pose proof (proj2 (Z.ldiff_nonneg x y) (or_introl (proj1 Hx))) as Hn1. lia.
Qed.

Lemma small_bits x k : 0 ≤ x → 0 ≤ k → (∀ n, k ≤ n → Z.testbit x n = false) → x < 2 ^ k.
Proof.
  intros Hx Hk Hb. destruct (decide (x < 2 ^ k)) as [|Hge]; [done|].
  pose proof (Z.pow_pos_nonneg 2 k ltac:(lia) Hk).
  assert (k ≤ Z.log2 x) by (apply Z.log2_le_pow2; lia).
  specialize (Hb (Z.log2 x) ltac:(done)). rewrite Z.bit_log2 in Hb by lia. done.
Qed.

Lemma bits_small x k n : 0 ≤ x < 2 ^ k → k ≤ n → Z.testbit x n = false.
Proof.
  intros Hx Hn. destruct (decide (x = 0)) as [->|]; [apply Z.testbit_0_l|].
  apply Z.bits_above_log2; [lia|]. apply Z.lt_le_trans with k; [|done]. apply Z.log2_lt_pow2; lia.
Qed.

(** Bitwise operations stay below a power of two. *)
Lemma lor_bound x y k : 0 ≤ k → 0 ≤ x < 2 ^ k → 0 ≤ y < 2 ^ k → 0 ≤ Z.lor x y < 2 ^ k.
Proof.
  intros Hk Hx Hy. assert (0 ≤ Z.lor x y) by (apply Z.lor_nonneg; lia). split; [done|].
  apply small_bits; [done..|]. intros n Hn. rewrite Z.lor_spec, (bits_small x k), (bits_small y k); done.
Qed.
Lemma lxor_bound x y k : 0 ≤ k → 0 ≤ x < 2 ^ k → 0 ≤ y < 2 ^ k → 0 ≤ Z.lxor x y < 2 ^ k.
Proof.
  intros Hk Hx Hy. assert (0 ≤ Z.lxor x y) by (apply Z.lxor_nonneg; lia). split; [done|].
  apply small_bits; [done..|]. intros n Hn. rewrite Z.lxor_spec, (bits_small x k), (bits_small y k); done.
Qed.
Lemma ldiff_bound x y k : 0 ≤ k → 0 ≤ x < 2 ^ k → 0 ≤ Z.ldiff x y < 2 ^ k.
Proof.
  intros Hk Hx. assert (0 ≤ Z.ldiff x y) by (apply Z.ldiff_nonneg; lia). split; [done|].
  apply small_bits; [done..|]. intros n Hn. by rewrite Z.ldiff_spec, (bits_small x k).
Qed.
Lemma shiftr_bound x n k : 0 ≤ n → 0 ≤ x < 2 ^ k → 0 ≤ Z.shiftr x n < 2 ^ k.
Proof.
  intros Hn Hx. split; [apply Z.shiftr_nonneg; lia|]. rewrite Z.shiftr_div_pow2 by done.
  apply Z.le_lt_trans with x; [|lia]. pose proof (Z.pow_pos_nonneg 2 n). apply Z.div_le_upper_bound; nia.
Qed.
Lemma as_u_bound k x : 0 ≤ k → 0 ≤ as_u k x < 2 ^ k.
Proof. intros Hk. apply Z.mod_pos_bound. by apply Z.pow_pos_nonneg. Qed.

Lemma u64_land x y : in_u64 x → in_u64 (Z.land x y).
Proof. intros Hx. apply (land_bound x y 64 Hx). Qed.
Lemma u64_lor x y : in_u64 x → in_u64 y → in_u64 (Z.lor x y).
Proof. intros Hx Hy. apply (lor_bound x y 64 ltac:(lia) Hx Hy). Qed.
Lemma u64_lxor x y : in_u64 x → in_u64 y → in_u64 (Z.lxor x y).
Proof. intros Hx Hy. apply (lxor_bound x y 64 ltac:(lia) Hx Hy). Qed.
Lemma u64_ldiff x y : in_u64 x → in_u64 (Z.ldiff x y).
Proof. intros Hx. apply (ldiff_bound x y 64 ltac:(lia) Hx). Qed.
Lemma u64_wrap x : in_u64 (wrap64 x).
Proof. by apply Z.mod_pos_bound. Qed.
Lemma u64_wrapping_add x y : in_u64 (wrapping_add x y).
Proof. apply u64_wrap. Qed.
Lemma u64_wrapping_sub x y : in_u64 (wrapping_sub x y).
Proof. apply u64_wrap. Qed.
Lemma u64_wrapping_mul x y : in_u64 (wrapping_mul x y).
Proof. apply u64_wrap. Qed.
Lemma as_u_u64 k x : 0 ≤ k ≤ 64 → in_u64 (as_u k x).
Proof.
  intros Hk. destruct (as_u_bound k x) as [H1 H2]; [lia|]. split; [done|].
  apply Z.lt_le_trans with (2 ^ k); [done|]. change u64_lim with (2 ^ 64). apply Z.pow_le_mono_r; lia.
Qed.
Lemma u64_as_u64 x : in_u64 (as_u 64 x).
Proof. by apply as_u_u64. Qed.
Lemma u64_as_u32 x : in_u64 (as_u 32 x).
Proof. by apply as_u_u64. Qed.
Lemma u64_as_u16 x : in_u64 (as_u 16 x).
Proof. by apply as_u_u64. Qed.
Lemma u64_as_u8 x : in_u64 (as_u 8 x).
Proof. by apply as_u_u64. Qed.
Lemma u64_shl_u64 x n : in_u64 (shl_u 64 x n).
Proof. apply u64_as_u64. Qed.
Lemma u64_shl_u16 x n : in_u64 (shl_u 16 x n).
Proof. apply u64_as_u16. Qed.
Lemma u64_shr_u64 x n : in_u64 x → in_u64 (shr_u 64 x n).
Proof. intros Hx. apply (shiftr_bound x _ 64); [|exact Hx]. by apply Z.mod_pos_bound. Qed.
Lemma u64_sat_add x y : in_u64 x → 0 ≤ y → in_u64 (sat_add x y).
Proof. unfold sat_add, in_u64. lia. Qed.
Lemma u64_sat_sub x y : in_u64 x → 0 ≤ y → in_u64 (sat_sub x y).
Proof. unfold sat_sub, in_u64. lia. Qed.
Lemma u64_size_mask n : in_u64 (size_mask n).
Proof. unfold size_mask. repeat case_match; by vm_compute. Qed.
Lemma u64_not x : in_u64 x → in_u64 (not_u 64 x).
Proof. unfold not_u, in_u64. lia. Qed.
Lemma u64_b2z b : in_u64 (Z.b2z b).
Proof. destruct b; by vm_compute. Qed.
Lemma land_low_bound x k : 0 ≤ k → 0 ≤ Z.land x (2 ^ k - 1) < 2 ^ k.
Proof. intros Hk. rewrite land_low by done. by apply Z.mod_pos_bound, Z.pow_pos_nonneg. Qed.
Lemma u64_land_ff x : in_u64 (Z.land x 0xff).
Proof. destruct (land_low_bound x 8); [lia|]. split; [done|]. by eapply Z.lt_trans. Qed.
Lemma u64_land_ffff x : in_u64 (Z.land x 0xffff).
Proof. destruct (land_low_bound x 16); [lia|]. split; [done|]. by eapply Z.lt_trans. Qed.
Lemma u64_land_ffffffff x : in_u64 (Z.land x 0xffffffff).
Proof. destruct (land_low_bound x 32); [lia|]. split; [done|]. by eapply Z.lt_trans. Qed.
Lemma u64_shl_byte x : in_u64 (Z.shiftl (Z.land x 0xff) 8).
Proof.
  destruct (land_low_bound x 8) as [H1 H2]; [lia|]. change (2 ^ 8 - 1) with 0xff in *.
  rewrite Z.shiftl_mul_pow2 by lia. unfold in_u64. lia.
Qed.
Lemma u64_ALWAYS1 : in_u64 ALWAYS1.
Proof. by vm_compute. Qed.
#[export] Hint Resolve u64_ALWAYS1 u64_land_ff u64_land_ffff u64_land_ffffffff u64_shl_byte : word.
#[export] Hint Resolve u64_land u64_lor u64_lxor u64_ldiff u64_wrap u64_wrapping_add u64_wrapping_sub
  u64_wrapping_mul u64_as_u64 u64_as_u32 u64_as_u16 u64_as_u8 u64_shl_u64 u64_shl_u16 u64_shr_u64
  u64_size_mask u64_not u64_b2z : word.
#[export] Hint Extern 4 (in_u64 _) => (split; [lia|by vm_compute]) : word.


(** ** The machine *)

Record regs_ok (r : RegFile) : Prop := {
  ro_wf : regs_wf r;
  ro_xmms : length (xmms r) = 16%nat;
  ro_x128 : Forall in_u128 (xmms r);
  ro_rip : in_u64 (rip r);
  ro_rflags : in_u64 (rflags r);
}.

Record cpu_ok (c : cpu) : Prop := {
  co_mem : mem_ok (cmem c);
  co_regs : regs_ok (cregs c);
}.

Create HintDb regs.

Lemma regs_gpr r i : regs_ok r → in_u64 (gpr r i).
Proof. intros Hr. apply gpr_in_u64, Hr. Qed.
Lemma regs_rax r : regs_ok r → in_u64 (rax r). Proof. apply regs_gpr. Qed.
Lemma regs_rcx r : regs_ok r → in_u64 (rcx r). Proof. apply regs_gpr. Qed.
Lemma regs_rdx r : regs_ok r → in_u64 (rdx r). Proof. apply regs_gpr. Qed.
Lemma regs_rsp r : regs_ok r → in_u64 (rsp r). Proof. apply regs_gpr. Qed.
Lemma regs_rbp r : regs_ok r → in_u64 (rbp r). Proof. apply regs_gpr. Qed.
Lemma regs_rsi r : regs_ok r → in_u64 (rsi r). Proof. apply regs_gpr. Qed.
Lemma regs_rdi r : regs_ok r → in_u64 (rdi r). Proof. apply regs_gpr. Qed.
#[export] Hint Resolve regs_gpr regs_rax regs_rcx regs_rdx regs_rsp regs_rbp regs_rsi regs_rdi ro_rip ro_rflags : word.

Lemma ok_set_gpr i v r : regs_ok r → in_u64 v → regs_ok (set_gpr i v r).
Proof. intros [H1 H2 H3 H4 H5] Hv. split; try done. by apply regs_wf_set. Qed.
Lemma ok_set_rax v r : regs_ok r → in_u64 v → regs_ok (set_rax v r). Proof. apply ok_set_gpr. Qed.
Lemma ok_set_rcx v r : regs_ok r → in_u64 v → regs_ok (set_rcx v r). Proof. apply ok_set_gpr. Qed.
Lemma ok_set_rdx v r : regs_ok r → in_u64 v → regs_ok (set_rdx v r). Proof. apply ok_set_gpr. Qed.
Lemma ok_set_rsp v r : regs_ok r → in_u64 v → regs_ok (set_rsp v r). Proof. apply ok_set_gpr. Qed.
Lemma ok_set_rbp v r : regs_ok r → in_u64 v → regs_ok (set_rbp v r). Proof. apply ok_set_gpr. Qed.
Lemma ok_set_rsi v r : regs_ok r → in_u64 v → regs_ok (set_rsi v r). Proof. apply ok_set_gpr. Qed.
Lemma ok_set_rdi v r : regs_ok r → in_u64 v → regs_ok (set_rdi v r). Proof. apply ok_set_gpr. Qed.
Lemma ok_set_rip v r : regs_ok r → in_u64 v → regs_ok (set_rip v r).
Proof. intros [H1 H2 H3 H4 H5] Hv. by split. Qed.
Lemma ok_set_rflags v r : regs_ok r → in_u64 v → regs_ok (set_rflags v r).
Proof. intros [H1 H2 H3 H4 H5] Hv. by split. Qed.
#[export] Hint Resolve ok_set_gpr ok_set_rax ok_set_rcx ok_set_rdx ok_set_rsp ok_set_rbp ok_set_rsi ok_set_rdi
  ok_set_rip ok_set_rflags : regs.

Lemma ok_set_flag m on r : in_u64 m → regs_ok r → regs_ok (set_flag m on r).
Proof.
  intros Hm Hr. unfold set_flag. apply ok_set_rflags; [done|]. apply u64_lor; [|by vm_compute].
  destruct on; auto with word.
Qed.
Lemma ok_CF on r : regs_ok r → regs_ok (set_flag CF on r). Proof. by apply ok_set_flag. Qed.
Lemma ok_PF on r : regs_ok r → regs_ok (set_flag PF on r). Proof. by apply ok_set_flag. Qed.
Lemma ok_AF on r : regs_ok r → regs_ok (set_flag AF on r). Proof. by apply ok_set_flag. Qed.
Lemma ok_ZF on r : regs_ok r → regs_ok (set_flag ZF on r). Proof. by apply ok_set_flag. Qed.
Lemma ok_SF on r : regs_ok r → regs_ok (set_flag SF on r). Proof. by apply ok_set_flag. Qed.
Lemma ok_DF on r : regs_ok r → regs_ok (set_flag DF on r). Proof. by apply ok_set_flag. Qed.
Lemma ok_OF on r : regs_ok r → regs_ok (set_flag OF_ on r). Proof. by apply ok_set_flag. Qed.
#[export] Hint Resolve ok_CF ok_PF ok_AF ok_ZF ok_SF ok_DF ok_OF : regs.

Lemma ok_set_logic_flags v size r : regs_ok r → regs_ok (set_logic_flags v size r).
Proof. intros. unfold set_logic_flags. auto 10 with regs. Qed.
Lemma ok_set_add_flags d s v size r : regs_ok r → regs_ok (set_add_flags d s v size r).
Proof. intros. unfold set_add_flags. auto 10 with regs. Qed.
Lemma ok_set_sub_flags d s v size r : regs_ok r → regs_ok (set_sub_flags d s v size r).
Proof. intros. unfold set_sub_flags. auto 10 with regs. Qed.
#[export] Hint Resolve ok_set_logic_flags ok_set_add_flags ok_set_sub_flags : regs.

Lemma ok_arith_flags op d s cf v size r : regs_ok r → regs_ok (arith_flags op d s cf v size r).
Proof. intros. unfold arith_flags. destruct op; auto with regs. Qed.
Lemma ok_imul_flags p size r : regs_ok r → regs_ok (set_imul_flags p size r).
Proof. intros. unfold set_imul_flags. auto with regs. Qed.
Lemma ok_shift_flags k d n b v cf r : regs_ok r → regs_ok (shift_flags k d n b v cf r).
Proof.
  intros. unfold shift_flags. destruct (is_rotate k); destruct (decide (n = 1)); auto 10 with regs.
Qed.
#[export] Hint Resolve ok_arith_flags ok_imul_flags ok_shift_flags : regs.

(** ** Safe bodies *)

Definition safe_out {A} (c : cpu) (Q : A → Prop) (out : cpu * xres A) : Prop :=
  cpu_ok out.1 ∧ stored (cmem c) (cmem out.1) ∧
  match out.2 with XOk a => Q a | XErr _ => True | XAbort _ => False end.

Definition safe {A} (m : X A) (Q : A → Prop) : Prop := ∀ c, cpu_ok c → safe_out c Q (m c).

Definition any {A} (_ : A) : Prop := True.
#[export] Hint Unfold any : core.

Lemma safe_weaken {A} (m : X A) (P Q : A → Prop) : safe m P → (∀ a, P a → Q a) → safe m Q.
Proof.
  intros Hm HPQ c Hc. destruct (Hm c Hc) as (H1 & H2 & H3). split_and!; [done..|]. destruct (m c).2; auto.
Qed.

Lemma safe_ret {A} (a : A) (Q : A → Prop) : Q a → safe (mret a) Q.
Proof. intros Ha c Hc. split_and!; [done|apply stored_refl|done]. Qed.

Lemma safe_bind {A B} (m : X A) (f : A → X B) (P : A → Prop) (Q : B → Prop) :
  safe m P → (∀ a, P a → safe (f a) Q) → safe (m ≫= f) Q.
Proof.
  intros Hm Hf c Hc. destruct (Hm c Hc) as (H1 & H2 & H3).
  unfold mbind, X_bind. destruct (m c) as [c1 [a|e|w]]; simpl in *; [|by split_and!|done].
  destruct (Hf a H3 c1 H1) as (H4 & H5 & H6). split_and!; [done|by eapply stored_trans|done].
Qed.

Lemma safe_throw {A} e (Q : A → Prop) : safe (xthrow e) Q.
Proof. intros c Hc. split_and!; [done|apply stored_refl|done]. Qed.
Lemma safe_fail {A} t (Q : A → Prop) : safe (xfail t) Q.
Proof. apply safe_throw. Qed.

Lemma safe_xget {A} (f : RegFile → A) : safe (xget f) (λ a, ∃ r, regs_ok r ∧ a = f r).
Proof. intros c Hc. split_and!; [done|apply stored_refl|]. exists (cregs c). split; [apply Hc|done]. Qed.

Lemma safe_xmod f : (∀ r, regs_ok r → regs_ok (f r)) → safe (xmod f) any.
Proof. intros Hf c [Hm Hr]. split_and!; [split; simpl; auto|apply stored_refl|exact I]. Qed.

Lemma safe_xregs {A} (m : M RegFile A) (Q : A → Prop) :
  (∀ r, regs_ok r → regs_ok (m r).1 ∧ match (m r).2 with Ok a => Q a | Err _ => True | Abort _ => False end) →
  safe (xregs m) Q.
Proof.
  intros Hm c [Hg Hr]. unfold xregs. destruct (Hm _ Hr) as [H1 H2]. destruct (m (cregs c)) as [r [a|e|w]];
    (split_and!; [by split|apply stored_refl|done]).
Qed.

Lemma safe_xres {A} (f : RegFile → res A) (Q : A → Prop) :
  (∀ r, regs_ok r → match f r with Ok a => Q a | Err _ => True | Abort _ => False end) → safe (xres_of f) Q.
Proof. intros Hf. apply safe_xregs. intros r Hr. split; [done|by apply Hf]. Qed.

(** What a call of the memory must do under [xmem] and [xtry]. *)
Definition safe_mem {A} (m : M GuestMemory A) (Q : A → Prop) : Prop :=
  ∀ g, mem_ok g → mem_ok (m g).1 ∧ stored g (m g).1 ∧
    match (m g).2 with Ok a => Q a | Err _ => True | Abort _ => False end.

Lemma safe_xmem {A} (m : M GuestMemory A) e (Q : A → Prop) : safe_mem m Q → safe (xmem m e) Q.
Proof.
  intros Hm c [Hg Hr]. destruct (Hm _ Hg) as (H1 & H2 & H3). unfold xmem.
  destruct (m (cmem c)) as [g [a|e'|w]]; (split_and!; [by split|done|done]).
Qed.
Lemma safe_xtry {A} (m : M GuestMemory A) (Q : A → Prop) :
  safe_mem m Q → safe (xtry m) (λ o, match o with Some a => Q a | None => True end).
Proof.
  intros Hm c [Hg Hr]. destruct (Hm _ Hg) as (H1 & H2 & H3). unfold xtry.
  destruct (m (cmem c)) as [g [a|e'|w]]; (split_and!; [by split|done|done]).
Qed.

(** A loop with an invariant of its variables and a decreasing variant. *)
Lemma safe_loop {S A} (body : S → X (S + A)) (I : S → Prop) (Q : A → Prop) (μ : S → Z) p s :
  (∀ s, I s → safe (body s) (λ r, match r with inl s' => I s' ∧ 0 ≤ μ s' < μ s | inr a => Q a end)) →
  I s → 0 ≤ μ s < Zpos p → safe (loopX p body s) Q.
Proof.
  intros Hb HI Hμ c Hc. unfold loopX.
  destruct (iter_until_rule (loopX_step body)
    (λ sc, I sc.1 ∧ cpu_ok sc.2 ∧ stored (cmem c) (cmem sc.2)) (safe_out c Q) (λ sc, μ sc.1) p (s, c))
    as (r & -> & HQ); [|split_and!; [done..|apply stored_refl]|done|done].
  intros [s1 c1] (HI1 & Hc1 & Hs1). unfold loopX_step. simpl in *.
  destruct (Hb s1 HI1 c1 Hc1) as (H1 & H2 & H3). destruct (body s1 c1) as [c2 [[s2|a]|e|w]]; simpl in *.
  - destruct H3. split_and!; try done; try lia. by eapply stored_trans.
  - split_and!; [done|by eapply stored_trans|done].
  - split_and!; [done|by eapply stored_trans|done].
  - done.
Qed.
