(* ===== verification/exec_safe.v ===== *)
(** * Operands and integer instructions are safe

    [safe] for every operation of exec.v, over any decoder that meets
    [IcedLaws]. *)

From S2P Require Import Prelude protect pagemap vad arena region mem mem_access mem_ops mem_safe.
From S2P Require Import regs regs_safe insn exec exec_string exec_wf.

Create HintDb safe.
#[export] Hint Resolve safe_throw safe_fail : safe.
#[export] Hint Extern 3 (in_u64 (match ?x with _ => _ end)) => destruct x : word.
#[export] Hint Extern 3 (regs_ok ((if ?x then _ else _) _)) => destruct x : regs.

(** The value a getter answered is a getter of well-formed registers. *)
Ltac safe_val :=
  match goal with
  | H : ∃ r, regs_ok r ∧ _ = _ |- _ =>
      let r := fresh "r" in let Hr := fresh "Hr" in destruct H as (r & Hr & ->)
  end.

(** The monad laws, for bodies nested to the left. *)
Lemma safe_ret_bind {A B} (a : A) (f : A → X B) (Q : B → Prop) : safe (f a) Q → safe (mret a ≫= f) Q.
Proof. done. Qed.
Lemma safe_assoc {A B C} (m : X A) (f : A → X B) (g : B → X C) (Q : C → Prop) :
  safe (m ≫= λ a, f a ≫= g) Q → safe ((m ≫= f) ≫= g) Q.
Proof.
  intros Hm c Hc. specialize (Hm c Hc). revert Hm. unfold mbind, X_bind. by destruct (m c) as [c' [a|e|w]].
Qed.

(** One construct of the monad. *)
Ltac safe_step :=
  cbv zeta beta;
  match goal with
  | |- safe (mbind _ (match ?x with _ => _ end)) _ => destruct x eqn:?
  | |- safe (mbind _ (mret _)) _ => apply safe_ret_bind
  | |- safe (mbind _ (mbind _ _)) _ => apply safe_assoc
  | |- safe (mbind _ _) _ => eapply safe_bind; [solve [auto 8 with safe word regs]|cbv beta; intros; try safe_val]
  | |- safe (mret _) _ => apply safe_ret; try solve [exact I | auto 8 with word]
  | |- safe (xfail _) _ => apply safe_fail
  | |- safe (match ?x with _ => _ end) _ => destruct x eqn:?
  | |- safe _ _ => solve [auto 8 with safe word regs]
  end.
Ltac safe := repeat safe_step.

(** A body that answers nothing. *)
Lemma safe_any {A} (m : X A) (Q : A → Prop) : safe m Q → safe m any.
Proof. intros H. by eapply safe_weaken. Qed.

Lemma safe_get {A} (f : RegFile → A) : safe (xget f) (λ a, ∃ r, regs_ok r ∧ a = f r).
Proof. apply safe_xget. Qed.
Lemma safe_mod f : (∀ r, regs_ok r → regs_ok (f r)) → safe (xmod f) any.
Proof. apply safe_xmod. Qed.
#[export] Hint Resolve safe_get : safe.
#[export] Hint Extern 2 (safe (xmod _) _) => (apply safe_mod; intros; eauto with regs word) : safe.

(** ** Memory values *)

Lemma le_val_u64 bs : Forall is_byte bs → (length bs ≤ 8)%nat → in_u64 (le_val bs).
Proof.
  intros Hbs Hl. destruct (le_val_bound bs Hbs) as [H1 H2]. split; [done|].
  apply Z.lt_le_trans with (256 ^ Z.of_nat (length bs)); [done|].
  change u64_lim with (256 ^ 8). apply Z.pow_le_mono_r; lia.
Qed.

Lemma safe_mem_read a n :
  in_u64 a → Z.of_nat n < u64_lim → safe_mem (mem_read_n a n) (λ bs, length bs = n ∧ Forall is_byte bs).
Proof.
  intros Ha Hn g Hg. destruct (mem_read_n_spec g a n Hg Ha Hn) as (g' & Hs & Hok & Hr).
  destruct (spc g a (Z.of_nat n) Read) as [u|e|w]; [|rewrite Hr|done].
  - destruct Hr as (bs & -> & Hl & Hb & _). split_and!; [done|by apply same_stored|done].
  - split_and!; [done|by apply same_stored|done].
Qed.

Lemma safe_mem_write a bs :
  in_u64 a → Z.of_nat (length bs) < u64_lim → Forall is_byte bs → safe_mem (write a bs) any.
Proof.
  intros Ha Hn Hbs g Hg. destruct (mem_write_spec g a bs Hg Ha Hn Hbs) as (g' & -> & Hok & Hst & Hr).
  split_and!; [done|done|]. simpl. by destruct (spc g a _ Write).
Qed.

Lemma safe_read_bytes a n e :
  in_u64 a → Z.of_nat n < u64_lim → safe (xmem (mem_read_n a n) e) (λ bs, length bs = n ∧ Forall is_byte bs).
Proof. intros. by apply safe_xmem, safe_mem_read. Qed.

Lemma byte_u64 bs i : Forall is_byte bs → in_u64 (default 0 (bs !! i)).
Proof.
  intros Hb. destruct (bs !! i) as [b|] eqn:E; [|by vm_compute]. apply (Forall_lookup_1 _ _ _ _ Hb) in E.
  unfold is_byte, in_u64 in *. simpl. lia.
Qed.

Lemma safe_read_mem_value a size : in_u64 a → safe (read_mem_value a size) in_u64.
Proof.
  intros Ha. unfold read_mem_value. destruct (decide _) as [|Hs]; [apply safe_fail|].
  eapply safe_bind; [apply safe_xmem, safe_mem_read; [done|lia]|].
  intros bs [Hl Hb]. apply safe_ret. assert (in_u64 (le_val bs)) by (apply le_val_u64; [done|lia]).
  repeat case_match; done.
Qed.

Lemma safe_write_mem_value a v size : in_u64 a → safe (write_mem_value a v size) any.
Proof.
  intros Ha. unfold write_mem_value. destruct (decide _) as [|Hs]; [apply safe_fail|].
  apply safe_xmem, safe_mem_write; [done| |apply Forall_take, le_bytes_byte].
  rewrite length_take, length_le_bytes. lia.
Qed.
#[export] Hint Resolve safe_read_mem_value safe_write_mem_value : safe.

Lemma safe_push_n v size : in_u64 v → safe (push_n v size) any.
Proof. intros Hv. unfold push_n. safe. Qed.
Lemma safe_pop_n size : safe (pop_n size) in_u64.
Proof. unfold pop_n. safe. Qed.
#[export] Hint Resolve safe_push_n safe_pop_n : safe.

(** ** Registers *)

Section Regs.
Context `{IcedRegister}.

Lemma read_reg_u64 r reg : regs_ok r → match read_reg r reg with Ok v => in_u64 v | Err _ => True | Abort _ => False end.
Proof.
  intros Hr. unfold read_reg, gpr_index. destruct (decide (reg = reg_None)); [done|].
  destruct (decide (reg = reg_RIP)); [apply Hr|].
  destruct (is_high_byte reg); destruct (_ && _); simpl; try done.
  - apply u64_land, (shiftr_bound _ _ 64); [lia|by apply regs_gpr].
  - pose proof (regs_gpr r (reg_number (full_register reg)) Hr).
    destruct (reg_size reg) as [|[|[|[|[|[|[|[|[|k]]]]]]]]]; simpl; try done; by apply u64_land.
Qed.

Lemma merged_u64 old v reg : in_u64 old → in_u64 v → in_u64 (merged old v reg).
Proof.
  intros Ho Hv. unfold merged. destruct (is_high_byte reg).
  - apply u64_lor; [auto with word|].
    assert (0 ≤ Z.land v 0xff < 2 ^ 8).
    { change 0xff with (2 ^ 8 - 1). rewrite land_low by lia. by apply Z.mod_pos_bound. }
    rewrite Z.shiftl_mul_pow2 by lia. unfold in_u64; lia.
  - repeat case_match; auto with word.
Qed.

Lemma ok_write_reg reg v r :
  regs_ok r → in_u64 v →
  regs_ok (write_reg reg v r).1 ∧ match (write_reg reg v r).2 with Abort _ => False | _ => True end.
Proof.
  intros Hr Hv. destruct (decide (reg = reg_None)) as [->|Hn].
  { unfold write_reg. rewrite decide_True by done. by split. }
  destruct (decide (reg = reg_RIP)) as [->|Hrip].
  { unfold write_reg. rewrite decide_False, decide_True by done. split; [by apply ok_set_rip|done]. }
  destruct (write_reg reg v r) as [r' [[]|e|w]] eqn:E.
  - apply write_reg_ok in E as (idx & _ & _ & ->); [|done..]. split; [|done].
    apply ok_set_gpr; [done|]. apply merged_u64; auto with word.
  - split; [|done]. unfold write_reg, gpr_index in E. rewrite !decide_False in E by done.
    destruct (is_high_byte reg), (_ && _); try (by injection E as <-);
      destruct (reg_size reg) as [|[|[|[|[|[|[|[|[|k]]]]]]]]]; by injection E as <-.
  - exfalso. unfold write_reg, gpr_index in E. rewrite !decide_False in E by done.
    destruct (is_high_byte reg), (_ && _); try done;
      destruct (reg_size reg) as [|[|[|[|[|[|[|[|[|k]]]]]]]]]; done.
Qed.

Lemma safe_read_reg reg : safe (xres_of (λ r, read_reg r reg)) in_u64.
Proof. apply safe_xres. intros r Hr. by apply read_reg_u64. Qed.
Lemma safe_write_reg reg v : in_u64 v → safe (xregs (write_reg reg v)) any.
Proof.
  intros Hv. apply safe_xregs. intros r Hr. destruct (ok_write_reg reg v r Hr Hv) as [H1 H2].
  split; [done|]. by destruct (write_reg reg v r).2.
Qed.

Lemma safe_read_xmm reg : safe (xres_of (λ r, read_xmm r reg)) in_u128.
Proof.
  apply safe_xres. intros r Hr. unfold read_xmm. destruct (negb _); [done|].
  destruct (xmms r !! reg_number reg) as [v|] eqn:E; [|done]. simpl.
  by apply (Forall_lookup_1 _ _ _ _ (ro_x128 _ Hr) E).
Qed.
Lemma safe_write_xmm reg v : in_u128 v → safe (xregs (write_xmm reg v)) any.
Proof.
  intros Hv. apply safe_xregs. intros r Hr. unfold write_xmm. destruct (negb _); [done|].
  destruct (xmms r !! reg_number reg) as [w|] eqn:E; [|done]. split; [|done].
  destruct Hr as [H1 H2 H3 H4 H5]. split; simpl; try done; [by rewrite length_insert|by apply Forall_insert].
Qed.
End Regs.
#[export] Hint Resolve safe_read_reg safe_write_reg safe_read_xmm safe_write_xmm : safe.

(** ** Operands *)

Section Exec.
Context `{IcedLaws}.
Implicit Types (instr : Instruction).
#[local] Hint Resolve immediate_u64 branch_target_u64 displacement_u64 : word.

Lemma safe_effective_address instr : safe (effective_address instr) in_u64.
Proof. unfold effective_address. safe. Qed.
Hint Resolve safe_effective_address : safe.

Lemma safe_memory_op_size instr : safe (memory_op_size instr) any.
Proof. unfold memory_op_size. safe. Qed.
Hint Resolve safe_memory_op_size : safe.

Lemma safe_op_size_bytes instr n : safe (op_size_bytes instr n) any.
Proof. unfold op_size_bytes. safe. Qed.
Hint Resolve safe_op_size_bytes : safe.

Lemma safe_read_op instr n : safe (read_op instr n) in_u64.
Proof. unfold read_op. safe. Qed.
Hint Resolve safe_read_op : safe.

Lemma safe_write_op_sized instr n v size : in_u64 v → safe (write_op_sized instr n v size) any.
Proof. intros Hv. unfold write_op_sized. safe. Qed.
Hint Resolve safe_write_op_sized : safe.

Lemma safe_write_op instr n v : in_u64 v → safe (write_op instr n v) any.
Proof. intros Hv. unfold write_op. safe. Qed.
Hint Resolve safe_write_op : safe.

Lemma safe_branch_target instr : safe (branch_target instr) in_u64.
Proof. unfold branch_target. safe. Qed.
Hint Resolve safe_branch_target : safe.

(** ** Data movement *)

Lemma safe_mov instr : safe (exec_mov instr) any.
Proof. unfold exec_mov. safe. Qed.
Lemma safe_movzx instr sign : safe (exec_movzx instr sign) any.
Proof. unfold exec_movzx. safe. Qed.
Lemma safe_lea instr : safe (exec_lea instr) any.
Proof. unfold exec_lea. safe. Qed.
Lemma safe_push instr : safe (exec_push instr) any.
Proof. unfold exec_push. safe. Qed.
Lemma safe_pop instr : safe (exec_pop instr) any.
Proof. unfold exec_pop. safe. Qed.
Lemma safe_cmov instr taken : safe (exec_cmov instr taken) any.
Proof. unfold exec_cmov. safe. Qed.
Lemma safe_setcc instr taken : safe (exec_setcc instr taken) any.
Proof. unfold exec_setcc. safe. Qed.
Lemma safe_xchg instr : safe (exec_xchg instr) any.
Proof. unfold exec_xchg. safe. Qed.

Lemma swap_bytes_u64 n v : (n ≤ 8)%nat → in_u64 (swap_bytes n v).
Proof.
  intros Hn. apply le_val_u64; [apply Forall_reverse, le_bytes_byte|]. by rewrite length_reverse, length_le_bytes.
Qed.
Lemma safe_bswap instr : safe (exec_bswap instr) any.
Proof.
  unfold exec_bswap. eapply safe_bind; [apply safe_read_reg|]. intros v Hv.
  apply (safe_bind _ _ in_u64); [|intros; apply safe_write_reg; done].
  safe; apply swap_bytes_u64; lia.
Qed.

(** ** Arithmetic *)

Lemma arith_result_u64 op d s cf : in_u64 d → in_u64 s → in_u64 cf → in_u64 (arith_result op d s cf).
Proof. intros. destruct op; simpl; auto with word. Qed.
Hint Resolve arith_result_u64 : word.

Lemma safe_arith instr op : safe (exec_arith instr op) any.
Proof. unfold exec_arith. safe. Qed.
Lemma safe_test instr : safe (exec_test instr) any.
Proof. unfold exec_test. safe. Qed.
Lemma safe_inc_dec instr inc : safe (exec_inc_dec instr inc) any.
Proof. unfold exec_inc_dec. safe. Qed.
Lemma safe_neg instr : safe (exec_neg instr) any.
Proof. unfold exec_neg. safe. Qed.
Lemma safe_not instr : safe (exec_not instr) any.
Proof. unfold exec_not. safe. Qed.

Lemma safe_write_product p size : safe (write_product p size) any.
Proof. unfold write_product. safe. Qed.
Hint Resolve safe_write_product : safe.
Lemma safe_imul instr : safe (exec_imul instr) any.
Proof. unfold exec_imul, write_imul_product. safe. Qed.
Lemma safe_mul instr : safe (exec_mul instr) any.
Proof. unfold exec_mul. safe. Qed.

Lemma safe_div8 signed d : in_u64 d → safe (div8 signed d) any.
Proof. intros Hd. unfold div8. safe. Qed.
Lemma safe_div16 signed d : in_u64 d → safe (div16 signed d) any.
Proof. intros Hd. unfold div16. safe. Qed.
Lemma safe_div32 signed d : in_u64 d → safe (div32 signed d) any.
Proof. intros Hd. unfold div32. safe. Qed.
Lemma safe_div64 signed d : in_u64 d → safe (div64 signed d) any.
Proof. intros Hd. unfold div64. safe. Qed.
Hint Resolve safe_div8 safe_div16 safe_div32 safe_div64 : safe.
Lemma safe_div instr signed : safe (exec_div instr signed) any.
Proof. unfold exec_div. safe. Qed.

(** ** Shifts and bit tests *)

Lemma shift_result_u64 kind dst count bits size :
  in_u64 dst → in_u64 (shift_result kind dst count bits (size_mask size)).1.
Proof. intros. destruct kind; simpl; auto 6 with word. Qed.
Lemma safe_shift instr kind : safe (exec_shift instr kind) any.
Proof.
  unfold exec_shift. do 3 safe_step. destruct (decide _); [by safe|].
  pose proof (shift_result_u64 kind (Z.land a0 (size_mask a)) (shift_count (Z.of_nat a * 8) (as_u 32 a1))
    (Z.of_nat a * 8) a ltac:(auto with word)) as Hr.
  destruct (shift_result _ _ _ _ _) as [result cf]. simpl in Hr. safe.
Qed.

Lemma bit_new_u64 op v m : in_u64 v → in_u64 m → in_u64 (bit_new op v m).
Proof. intros. destruct op; simpl; auto with word. Qed.
Hint Resolve bit_new_u64 : word.
Lemma safe_bit instr op : safe (exec_bit instr op) any.
Proof.
  unfold exec_bit. safe_step. destruct (op_kind instr 0) eqn:Ek; try apply safe_fail.
  - safe. pose proof (op_register_size instr 0 Ek). lia.
  - eapply safe_bind; [apply safe_effective_address|]. intros base Hbase. cbv zeta.
    eapply safe_bind; [apply safe_read_bytes; [auto with word|lia]|]. intros bs [Hl Hb].
    assert (in_u64 (default 0 (bs !! 0%nat))) by (by apply byte_u64). safe.
Qed.

(** ** Control transfer *)

Lemma safe_set_rip t : in_u64 t → safe (set_rip' t) any.
Proof. intros Ht. unfold set_rip'. safe. Qed.
Hint Resolve safe_set_rip : safe.
Lemma safe_jmp instr : safe (exec_jmp instr) any.
Proof. unfold exec_jmp. safe. Qed.
Lemma safe_jcc instr taken : safe (exec_jcc instr taken) any.
Proof. unfold exec_jcc. safe. Qed.
Lemma safe_call instr next : in_u64 next → safe (exec_call instr next) any.
Proof. intros Hn. unfold exec_call. safe. Qed.
Lemma safe_ret_insn instr : safe (exec_ret instr) any.
Proof. unfold exec_ret. safe. Qed.

(** ** Read-modify-write *)

(** The host word the lock-free path adds to is the guest's. *)
Lemma safe_atomic_fetch_add a size v :
  in_u64 a → safe (atomic_fetch_add a size v) (λ o, match o with Some old => in_u64 old | None => True end).
Proof.
  intros Ha c [Hg Hr].
  assert (Hw : ∀ n, (0 < n ≤ 8)%nat →
    safe_out c (λ o, match o with Some old => in_u64 old | None => True end)
      match host_span a (Z.of_nat n) true (cmem c) with
      | (g, None) => (mkCpu g (cregs c), XOk None)
      | (g, Some p) =>
          match host_load p n (os_state (backend g)) with
          | Ok bs =>
              match on_backend (on_host (host_store p (le_bytes n ((le_val bs + v) mod 2 ^ (8 * Z.of_nat n))))) g with
              | (g', Ok _) => (mkCpu g' (cregs c), XOk (Some (le_val bs)))
              | (g', Err e) => (mkCpu g' (cregs c), XErr (Cpu e))
              | (g', Abort w) => (mkCpu g' (cregs c), XAbort w)
              end
          | Err e => (mkCpu g (cregs c), XErr (Cpu e))
          | Abort w => (mkCpu g (cregs c), XAbort w)
          end
      end).
  { intros n Hn. destruct (span_spec (cmem c) a (Z.of_nat n) true Hg Ha) as (g1 & o & -> & Hs & Hg1 & Ho);
      [split; lia|]. destruct o as [p|]; [|split_and!; [by split|by apply same_stored|done]].
    destruct Ho as (_ & _ & Hgr & Hal).
    assert (Hgr1 : granted g1 a (Z.of_nat n) Write) by (eapply granted_same; [apply (same_gview _ _ Hs)|done]).
    destruct (alias_load g1 p a n Hg1 (granted_read _ _ _ Hgr1) Hal) as (bs & -> & Hl & Hb & _).
    set (out := le_bytes n _).
    assert (Hlen : length out = n) by apply length_le_bytes.
    destruct (alias_store g1 p a out Hg1) as (g2 & -> & Hg2 & Hst & _); rewrite ?Hlen; try done.
    - apply le_bytes_byte.
    - split_and!; [by split|eapply stored_trans; [by apply same_stored|done]|].
      apply le_val_u64; [done|lia]. }
  assert (Hnone : safe_out c (λ o, match o with Some old => in_u64 old | None => True end) (c, XOk None))
    by (split_and!; [by split|apply stored_refl|done]).
  unfold atomic_fetch_add. destruct size as [|[|[|[|[|[|[|[|[|k]]]]]]]]]; try exact Hnone.
  - destruct (is_multiple_of a 4); [|done]. apply (Hw 4%nat). lia.
  - destruct (is_multiple_of a 8); [|done]. apply (Hw 8%nat). lia.
Qed.

Lemma safe_xadd instr : safe (exec_xadd instr) any.
Proof.
  unfold exec_xadd. do 2 safe_step. cbv zeta.
  apply (safe_bind _ _ (λ o, match o with Some old => in_u64 old | None => True end)).
  - destruct (decide _); [|by apply safe_ret]. eapply safe_bind; [apply safe_effective_address|].
    intros. by apply safe_atomic_fetch_add.
  - intros [old|] Ho; safe.
Qed.

Lemma safe_accumulator_value size : safe (accumulator_value size) in_u64.
Proof.
  unfold accumulator_value.
  assert (safe (xget rax) in_u64) by (eapply safe_weaken; [apply safe_get|]; intros ? (r & ? & ->); auto with word).
  safe.
Qed.
Lemma safe_write_accumulator size v : in_u64 v → safe (write_accumulator size v) any.
Proof. intros Hv. unfold write_accumulator. safe. Qed.
Hint Resolve safe_accumulator_value safe_write_accumulator : safe.
Lemma safe_cmpxchg instr : safe (exec_cmpxchg instr) any.
Proof. unfold exec_cmpxchg. safe. Qed.
End Exec.

#[export] Hint Resolve immediate_u64 branch_target_u64 displacement_u64 : word.
#[export] Hint Resolve safe_effective_address safe_memory_op_size safe_op_size_bytes safe_read_op
  safe_write_op safe_mov safe_movzx safe_lea safe_push safe_pop safe_cmov safe_setcc safe_xchg safe_bswap
  safe_arith safe_test safe_inc_dec safe_neg safe_not safe_imul safe_mul safe_div safe_shift safe_bit safe_set_rip
  safe_jmp safe_jcc safe_call safe_ret_insn safe_xadd safe_cmpxchg : safe.
