(* ===== verification/step_safe.v ===== *)
(** * String instructions are safe

    [safe] for exec_string.v.  The host-span paths write through raw pointers:
    [safe_on] carries what a span promises ([has_span]) to its use. *)

From S2P Require Import Prelude protect pagemap vad arena region mem mem_access mem_ops mem_safe.
From S2P Require Import regs regs_safe insn exec exec_string exec_wf exec_safe.

(** ** Bodies that rely on a fact about the memory *)

Definition safe_on {A} (P : GuestMemory → Prop) (m : X A) (Q : A → Prop) : Prop :=
  ∀ c, cpu_ok c → P (cmem c) → safe_out c Q (m c).

(** Facts no store of an instruction changes. *)
Definition stable (P : GuestMemory → Prop) : Prop := ∀ g g', stored g g' → P g → P g'.

Lemma safe_on_intro {A} (m : X A) P Q : safe m Q → safe_on P m Q.
Proof. intros Hm c Hc _. by apply Hm. Qed.
Lemma safe_on_elim {A} (m : X A) Q : safe_on (λ _, True) m Q → safe m Q.
Proof. intros Hm c Hc. by apply Hm. Qed.

Lemma safe_on_bind {A B} P (m : X A) (f : A → X B) (R : A → Prop) (Q : B → Prop) :
  stable P → safe_on P m R → (∀ a, R a → safe_on P (f a) Q) → safe_on P (m ≫= f) Q.
Proof.
  intros HP Hm Hf c Hc Hp. destruct (Hm c Hc Hp) as (H1 & H2 & H3).
  unfold mbind, X_bind. destruct (m c) as [c1 [a|e|w]]; simpl in *; [|by split_and!|done].
  destruct (Hf a H3 c1 H1) as (H4 & H5 & H6); [by eapply HP|].
  split_and!; [done|by eapply stored_trans|done].
Qed.

(** What [host_span] promises about the pointer it hands out. *)
Definition has_span (wr : bool) (p a len : Z) (g : GuestMemory) : Prop :=
  granted g a len (if wr then Write else Read) ∧ host_alias g p a len.

Lemma stable_span wr p a len : stable (has_span wr p a len).
Proof.
  intros g g' Hs [Hg Ha]. split; [by eapply granted_same; [apply Hs|]|by eapply alias_stored].
Qed.
Lemma stable_and P Q : stable P → stable Q → stable (λ g, P g ∧ Q g).
Proof. intros HP HQ g g' Hs [? ?]. split; eauto. Qed.
Lemma stable_True : stable (λ _, True).
Proof. done. Qed.
Create HintDb stable.
#[export] Hint Resolve stable_span stable_and stable_True : stable.

Lemma safe_on_span {A} P a len wr (f : option Z → X A) (Q : A → Prop) :
  stable P → in_u64 a → in_u64 len → safe_on P (f None) Q →
  (∀ p, safe_on (λ g, P g ∧ has_span wr p a len g) (f (Some p)) Q) →
  safe_on P (xspan a len wr ≫= f) Q.
Proof.
  intros HP Ha Hl Hnone Hsome c [Hg Hr] Hp.
  destruct (span_spec (cmem c) a len wr Hg Ha Hl) as (g & o & E & Hs & Hg1 & Ho).
  pose proof (same_stored _ _ Hs) as Hst.
  unfold mbind, X_bind, xspan. rewrite E.
  assert (Hin : safe_out (mkCpu g (cregs c)) Q (f o (mkCpu g (cregs c)))).
  { destruct o as [p|]; [|by apply Hnone; [by split|by eapply HP]].
    apply Hsome; [by split|]. destruct Ho as (_ & _ & Hgr & Hal). split; [by eapply HP|].
    split; [by eapply granted_same; [apply Hst|]|done]. }
  destruct Hin as (H1 & H2 & H3). split_and!; [done|by eapply stored_trans|done].
Qed.

(** ** Stores through host pointers *)

Lemma span_store wr p a len bs g :
  wr = true → mem_ok g → has_span wr p a len g → Z.of_nat (length bs) ≤ len → Forall is_byte bs →
  ∃ g', on_backend (on_host (host_store p bs)) g = (g', Ok tt) ∧ mem_ok g' ∧ stored g g' ∧ bytes_set g a bs g'.
Proof.
  intros -> Hg [Hgr Hal] Hl Hbs. apply alias_store; try done.
  - intros x Hx. apply Hgr. lia.
  - intros i Hi. apply Hal. lia.
Qed.

Lemma pattern_length len val size :
  (0 < size ≤ 8)%nat → 0 ≤ len → Z.of_nat (length (pattern len val size)) = len / Z.of_nat size * Z.of_nat size.
Proof.
  intros Hs Hl. unfold pattern.
  assert (Ht : length (take (size `min` 8) (le_bytes 8 val)) = size).
  { rewrite length_take, length_le_bytes. lia. }
  assert (Hr : ∀ k, length (concat (replicate k (take (size `min` 8) (le_bytes 8 val)))) = (k * size)%nat).
  { induction k as [|k IH]; [done|]. cbn [replicate concat]. rewrite length_app, IH, Ht. lia. }
  rewrite Hr, Nat2Z.inj_mul, Z2Nat.id; [done|]. apply Z.div_pos; lia.
Qed.
Lemma pattern_byte len val size : Forall is_byte (pattern len val size).
Proof.
  unfold pattern. induction (Z.to_nat (len / Z.of_nat size)) as [|k IH]; [constructor|].
  cbn [replicate concat]. apply Forall_app. split; [apply Forall_take, le_bytes_byte|done].
Qed.

Lemma land_ff_byte v : is_byte (Z.land v 0xff).
Proof. destruct (land_low_bound v 8); [lia|]. by split. Qed.

(** The bytes [host_fill_pattern] stores, one representation for both of its
    branches. *)
Lemma host_fill_stores host len val size :
  (0 < size ≤ 8)%nat → 0 < len →
  ∃ bs, host_fill_pattern host len val size = on_backend (on_host (host_store host bs)) ∧
    Z.of_nat (length bs) ≤ len ∧ Forall is_byte bs.
Proof.
  intros Hs Hl. unfold host_fill_pattern. rewrite decide_False by lia. destruct (decide (size = 1%nat)).
  - eexists. split_and!; [done|rewrite length_replicate; lia|]. apply Forall_replicate, land_ff_byte.
  - eexists. split_and!; [done| |apply pattern_byte]. rewrite pattern_length by lia.
    rewrite Z.mul_comm. apply Z.mul_div_le. lia.
Qed.

Lemma safe_fill P host a len val size :
  (∀ g, P g → has_span true host a len g) → (0 < size ≤ 8)%nat → 0 < len →
  safe_on P (xhost (host_fill_pattern host len val size)) any.
Proof.
  intros HP Hs Hl c [Hg Hr] Hp. destruct (host_fill_stores host len val size Hs Hl) as (bs & E & Hbl & Hb).
  destruct (span_store true host a len bs (cmem c) eq_refl Hg (HP _ Hp) Hbl Hb) as (g' & Es & Hg' & Hst & _).
  unfold xhost, xmem. rewrite E, Es. by split_and!.
Qed.

Lemma safe_copy P src dst a b len :
  (∀ g, P g → has_span false src a len g) → (∀ g, P g → has_span true dst b len g) → 0 ≤ len →
  safe_on P (xhost (host_copy src dst len)) any.
Proof.
  intros Hsrc Hdst Hl c [Hg Hr] Hp. destruct (Hsrc _ Hp) as [Hgr Hal].
  destruct (alias_load (cmem c) src a (Z.to_nat len) Hg) as (bs & E & Hbl & Hb & _);
    [rewrite Z2Nat.id by done; exact Hgr|rewrite Z2Nat.id by done; exact Hal|].
  destruct (span_store true dst b len bs (cmem c) eq_refl Hg (Hdst _ Hp) ltac:(lia) Hb) as (g' & Es & Hg' & Hst & _).
  unfold xhost, xmem, host_copy. rewrite E, Es. by split_and!.
Qed.

(** ** Chunks *)

Lemma chunk_bytes_spec count done_elems size :
  (0 < size ≤ 8)%nat → 0 ≤ done_elems < count → count ≤ REP_BULK_MAX →
  let aligned := chunk_bytes count done_elems size in
  0 < aligned ≤ 4096 ∧ aligned mod Z.of_nat size = 0 ∧
  aligned / Z.of_nat size * Z.of_nat size = aligned ∧
  0 < aligned / Z.of_nat size ≤ count - done_elems.
Proof.
  intros Hs Hd Hc. unfold chunk_bytes. change REP_BULK_MAX with 1048576 in Hc.
  rewrite sat_mul_lt by nia. rewrite Z.max_l by lia.
  set (s := Z.of_nat size) in *. assert (0 < s ≤ 8) by lia.
  set (m := Z.min ((count - done_elems) * s) 4096).
  assert (Hm : s ≤ m ≤ 4096 ∧ m ≤ (count - done_elems) * s) by (unfold m; nia).
  pose proof (Z.div_mod m s ltac:(lia)) as Hdm. pose proof (Z.mod_pos_bound m s ltac:(lia)) as Hmb.
  assert (He : m - m mod s = m / s * s) by lia. assert (1 ≤ m / s) by (apply Z.div_le_lower_bound; lia).
  rewrite He, Z.div_mul, Z.mod_mul by lia. split_and!; try done; nia.
Qed.

Lemma u64_bulk x : in_u64 x → in_u64 (Z.min x REP_BULK_MAX).
Proof. change REP_BULK_MAX with 1048576. unfold in_u64. lia. Qed.
Lemma u64_sat_mul x y : 0 ≤ x → 0 ≤ y → in_u64 (sat_mul x y).
Proof. unfold sat_mul, in_u64. nia. Qed.
Lemma u64_advance x step : in_u64 (advance x step).
Proof. apply u64_wrapping_add. Qed.
Lemma u64_checked_sub x y : in_u64 x → 0 ≤ y → match checked_sub x y with Some v => in_u64 v | None => True end.
Proof. unfold checked_sub, in_u64. intros. case_match; [case_match|]; simplify_eq; lia || done. Qed.
#[export] Hint Resolve u64_bulk u64_advance : word.

Section Strings.
Context `{IcedLaws} (wie_string_bulk : option string).
Implicit Types (instr : Instruction).

Lemma safe_count_down n : in_u64 n → safe (xmod (λ r, set_rcx (sat_sub (rcx r) n) r)) any.
Proof.
  intros Hn. apply safe_mod. intros r Hr. apply ok_set_rcx; [done|]. apply u64_sat_sub; [auto with word|apply Hn].
Qed.
Hint Resolve safe_count_down : safe.

Lemma safe_stay instr stay : in_u64 (ip instr) → safe (apply_string_stay instr stay) any.
Proof. intros Hi. unfold apply_string_stay. safe. Qed.

(** ** STOS *)

Lemma safe_stos_host count rdi val size step :
  in_u64 count → in_u64 rdi → (0 < size ≤ 8)%nat → safe (stos_host wie_string_bulk count rdi val size step) any.
Proof.
  intros Hc Hrdi Hs. unfold stos_host. cbv zeta. destruct (decide _) as [Hif|]; [|by apply safe_ret].
  assert (Hbl : in_u64 (sat_mul count (Z.of_nat size))) by (apply u64_sat_mul; [apply Hc|lia]).
  change REP_HOST_BULK_MIN_BYTES with 16 in Hif.
  set (base := if decide (0 < step) then _ else _).
  assert (Hb : match base with Some b => in_u64 b | None => True end).
  { unfold base. destruct (decide (0 < step)); [done|]. apply u64_checked_sub; [done|].
    apply u64_sat_mul; unfold in_u64 in *; lia. }
  destruct base as [b|]; [|by apply safe_ret]. apply safe_on_elim.
  apply safe_on_span; [apply stable_True|done|done|by apply safe_on_intro, safe_ret|].
  intros p. eapply safe_on_bind; [auto with stable|eapply safe_fill; [by intros g [_ ?]|done|lia]|].
  intros _ _. apply safe_on_intro. safe.
Qed.

Lemma safe_stos_chunk count val size rdi done_elems :
  (0 < size ≤ 8)%nat → in_u64 rdi → 0 ≤ done_elems ≤ count → count ≤ REP_BULK_MAX →
  safe (stos_chunk count val size (rdi, done_elems)) (λ o,
    match o with
    | inl s => (in_u64 s.1 ∧ 0 ≤ s.2 ≤ count) ∧ 0 ≤ count - s.2 < count - done_elems
    | inr (Done s) => in_u64 s.1 ∧ 0 ≤ s.2 ≤ count
    | inr (Return _) => True
    end).
Proof.
  intros Hs Hrdi Hd Hc. unfold stos_chunk. cbv zeta.
  destruct (decide (done_elems < count)) as [Hlt|]; [|by apply safe_ret].
  destruct (chunk_bytes_spec count done_elems size Hs ltac:(lia) Hc) as (Ha & _ & He & Hn).
  set (aligned := chunk_bytes count done_elems size) in *.
  destruct (decide (aligned = 0)); [by apply safe_ret|].
  assert (Hd64 : in_u64 done_elems) by (change REP_BULK_MAX with 1048576 in Hc; split; lia).
  eapply safe_bind.
  { apply safe_xtry, safe_mem_write; [done| |apply Forall_take, pattern_byte]. rewrite length_take. lia. }
  intros [[]|] _; [|safe].
  apply safe_ret. simpl. rewrite sat_add_lt by (change REP_BULK_MAX with 1048576 in Hc; lia).
  split_and!; auto with word; lia.
Qed.

Lemma safe_stos_element val size step rdi count :
  in_u64 rdi → 0 ≤ count →
  safe (stos_element val size step (rdi, count)) (λ o,
    match o with inl s => (in_u64 s.1 ∧ 0 ≤ s.2) ∧ 0 ≤ s.2 < count | inr _ => True end).
Proof.
  intros Hrdi Hc. unfold stos_element. destruct (decide (0 < count)); [|by apply safe_ret]. cbv zeta.
  eapply safe_bind; [eauto with safe|intros _ _]. eapply safe_bind; [safe|intros _ _].
  eapply safe_bind; [apply safe_count_down; by split|intros _ _].
  apply safe_ret. simpl. unfold sat_sub. split_and!; auto with word; lia.
Qed.

Lemma safe_stos_rep val size step : (0 < size ≤ 8)%nat → safe (stos_rep wie_string_bulk val size step) any.
Proof.
  intros Hs. unfold stos_rep. do 2 safe_step. cbv zeta. set (count := Z.min _ _).
  assert (Hc : in_u64 count) by (unfold count; auto with word).
  assert (Hm : 0 ≤ count ≤ REP_BULK_MAX) by (unfold count in *; unfold in_u64 in *; lia).
  eapply safe_bind; [apply safe_stos_host; auto with word|]. intros [stay|] _; [by apply safe_ret|].
  destruct (decide _).
  - eapply safe_bind.
    { apply (safe_loop _ (λ s, in_u64 s.1 ∧ 0 ≤ s.2 ≤ count)
        (λ e, match e with Done s => in_u64 s.1 ∧ 0 ≤ s.2 ≤ count | Return _ => True end) (λ s, count - s.2)).
      - intros [d n] [Hd Hn]. eapply safe_weaken; [by apply safe_stos_chunk, Hm|]. by intros [s|[s|]].
      - simpl. split; [auto with word|lia].
      - unfold fuel_of. simpl. lia. }
    intros [[d n]|stay] He; [|by apply safe_ret]. destruct He as [Hd Hn]. simpl in *.
    assert (in_u64 n) by (unfold in_u64 in *; lia). safe.
  - apply (safe_loop _ (λ s, in_u64 s.1 ∧ 0 ≤ s.2) any (λ s, s.2)).
    + intros [d k] [Hd Hk]. eapply safe_weaken; [by apply safe_stos_element|]. by intros [s|].
    + simpl. split; [auto with word|lia].
    + unfold fuel_of. simpl. lia.
Qed.
Hint Resolve safe_stos_rep : safe.

Lemma safe_string_stos size rep : (0 < size ≤ 8)%nat → safe (string_stos wie_string_bulk size rep) any.
Proof. intros Hs. unfold string_stos. safe. Qed.
Hint Resolve safe_string_stos : safe.
Lemma safe_stos instr size :
  in_u64 (ip instr) → (0 < size ≤ 8)%nat → safe (exec_stos wie_string_bulk instr size) any.
Proof. intros Hi Hs. unfold exec_stos. eapply safe_bind; [by apply safe_string_stos|]. intros. by apply safe_stay. Qed.

(** ** MOVS *)

Lemma safe_movs_host count rsi rdi src dst size step overlap :
  in_u64 count → in_u64 src → in_u64 dst →
  safe (movs_host wie_string_bulk count rsi rdi src dst size step overlap) any.
Proof.
  intros Hc Hsrc Hdst. unfold movs_host. cbv zeta. destruct (decide _) as [Hif|]; [|by apply safe_ret].
  assert (Hbl : in_u64 (sat_mul count (Z.of_nat size))) by (apply u64_sat_mul; [apply Hc|lia]).
  apply safe_on_elim.
  apply safe_on_span; [apply stable_True|done|done|..].
  { apply safe_on_span; [apply stable_True|done|done|by apply safe_on_intro, safe_ret|].
    intros p. by apply safe_on_intro, safe_ret. }
  intros p. apply safe_on_span; [auto with stable|done|done|by apply safe_on_intro, safe_ret|].
  intros q. destruct (host_ranges_overlap _ _ _); [by apply safe_on_intro, safe_ret|].
  eapply safe_on_bind; [auto with stable| |].
  - eapply safe_copy; [by intros g [[_ ?] _]|by intros g [_ ?]|apply Hbl].
  - intros _ _. apply safe_on_intro. safe.
Qed.

Lemma safe_movs_retry rsi rdi n size :
  in_u64 rsi → in_u64 rdi → in_u64 n → safe (movs_retry rsi rdi n size) any.
Proof. intros. unfold movs_retry. safe. Qed.

Lemma safe_movs_chunk count size rsi rdi done_elems :
  (0 < size ≤ 8)%nat → in_u64 rsi → in_u64 rdi → 0 ≤ done_elems ≤ count → count ≤ REP_BULK_MAX →
  safe (movs_chunk count size (rsi, rdi, done_elems)) (λ o,
    match o with
    | inl s => (in_u64 s.1.1 ∧ in_u64 s.1.2 ∧ 0 ≤ s.2 ≤ count) ∧ 0 ≤ count - s.2 < count - done_elems
    | inr (Done s) => in_u64 s.1.1 ∧ in_u64 s.1.2 ∧ 0 ≤ s.2 ≤ count
    | inr (Return _) => True
    end).
Proof.
  intros Hs Hrsi Hrdi Hd Hc. unfold movs_chunk. cbv zeta.
  destruct (decide (done_elems < count)) as [Hlt|]; [|by apply safe_ret].
  destruct (chunk_bytes_spec count done_elems size Hs ltac:(lia) Hc) as (Ha & _ & He & Hn).
  set (aligned := chunk_bytes count done_elems size) in *.
  destruct (decide (aligned = 0)); [by apply safe_ret|].
  change REP_BULK_MAX with 1048576 in Hc. assert (Hd64 : in_u64 done_elems) by (split; lia).
  assert (Hretry : ∀ R, safe (movs_retry rsi rdi done_elems size ≫= λ stay, mret (inr (Return stay)))
    (λ o : u64 * u64 * u64 + chunk_end (u64 * u64 * u64),
      match o with inl s => R s | inr (Done s) => in_u64 s.1.1 ∧ in_u64 s.1.2 ∧ 0 ≤ s.2 ≤ count | inr (Return _) => True end)).
  { intros R. eapply safe_bind; [by apply safe_movs_retry|]. intros. by apply safe_ret. }
  eapply safe_bind; [apply safe_xtry, safe_mem_read; [done|lia]|].
  intros [bs|] Hbs; [|apply Hretry]. destruct Hbs as [Hl Hb].
  eapply safe_bind; [apply safe_xtry, safe_mem_write; [done|lia|done]|].
  intros [[]|] _; [|apply Hretry].
  apply safe_ret. simpl. rewrite sat_add_lt by lia. split_and!; auto with word; lia.
Qed.

Lemma safe_movs_element size step rsi rdi count :
  in_u64 rsi → in_u64 rdi → 0 ≤ count →
  safe (movs_element size step (rsi, rdi, count)) (λ o,
    match o with inl s => (in_u64 s.1.1 ∧ in_u64 s.1.2 ∧ 0 ≤ s.2) ∧ 0 ≤ s.2 < count | inr _ => True end).
Proof.
  intros Hrsi Hrdi Hc. unfold movs_element. destruct (decide (0 < count)); [|by apply safe_ret].
  do 4 safe_step. cbv zeta. eapply safe_bind; [apply safe_count_down; by split|intros _ _].
  apply safe_ret. simpl. unfold sat_sub. split_and!; auto with word; lia.
Qed.

Lemma safe_movs_rep size step : (0 < size ≤ 8)%nat → safe (movs_rep wie_string_bulk size step) any.
Proof.
  intros Hs. unfold movs_rep. do 3 safe_step. cbv zeta. set (count := Z.min _ _).
  assert (Hc : in_u64 count) by (unfold count; auto with word).
  assert (Hm : 0 ≤ count ≤ REP_BULK_MAX) by (unfold count in *; unfold in_u64 in *; lia).
  set (lo := if decide (0 < step) then _ else _).
  assert (Hlo : in_u64 lo.1 ∧ in_u64 lo.2) by (unfold lo; destruct (decide (0 < step)); simpl; auto with word).
  destruct lo as [src dst]. destruct Hlo as [Hsrc Hdst].
  eapply safe_bind; [by apply safe_movs_host|]. intros [stay|] _; [by apply safe_ret|].
  destruct (decide _).
  - eapply safe_bind.
    { apply (safe_loop _ (λ s, in_u64 s.1.1 ∧ in_u64 s.1.2 ∧ 0 ≤ s.2 ≤ count)
        (λ e, match e with Done s => in_u64 s.1.1 ∧ in_u64 s.1.2 ∧ 0 ≤ s.2 ≤ count | Return _ => True end)
        (λ s, count - s.2)).
      - intros [[x d] n] (Hx & Hd & Hn). eapply safe_weaken; [by apply safe_movs_chunk, Hm|]. by intros [s|[s|]].
      - simpl. split_and!; auto with word lia.
      - unfold fuel_of. simpl. lia. }
    intros [[[x d] n]|stay] He; [|by apply safe_ret]. destruct He as (Hx & Hd & Hn). simpl in *.
    assert (in_u64 n) by (unfold in_u64 in *; lia). safe.
  - apply (safe_loop _ (λ s, in_u64 s.1.1 ∧ in_u64 s.1.2 ∧ 0 ≤ s.2) any (λ s, s.2)).
    + intros [[x d] k] (Hx & Hd & Hk). eapply safe_weaken; [by apply safe_movs_element|]. by intros [s|].
    + simpl. split_and!; auto with word lia.
    + unfold fuel_of. simpl. lia.
Qed.
Hint Resolve safe_movs_rep : safe.

Lemma safe_string_movs size rep : (0 < size ≤ 8)%nat → safe (string_movs wie_string_bulk size rep) any.
Proof. intros Hs. unfold string_movs. safe. Qed.
Lemma safe_movs instr size :
  in_u64 (ip instr) → (0 < size ≤ 8)%nat → safe (exec_movs wie_string_bulk instr size) any.
Proof. intros Hi Hs. unfold exec_movs. eapply safe_bind; [by apply safe_string_movs|]. intros. by apply safe_stay. Qed.

(** ** LODS, SCAS, CMPS *)

(** A loop that counts its last variable down. *)
Lemma safe_countdown {S} (body : S * u64 → X (S * u64 + bool)) (I : S → Prop) s n :
  (∀ s n, I s → 0 ≤ n →
    safe (body (s, n)) (λ o, match o with inl s' => I s'.1 ∧ 0 ≤ s'.2 < n | inr _ => True end)) →
  I s → 0 ≤ n → safe (loopX (fuel_of n) body (s, n)) any.
Proof.
  intros Hb Hs Hn. apply (safe_loop _ (λ s, I s.1 ∧ 0 ≤ s.2) any (λ s, s.2)).
  - intros [s' k] [Hs' Hk]. eapply safe_weaken; [by apply Hb|]. intros [o|]; [|done]. intros [? ?]. simpl in *. split_and!; (done || lia).
  - done.
  - unfold fuel_of. simpl. lia.
Qed.

Lemma safe_lods_store v size : in_u64 v → safe (lods_store v size) any.
Proof. intros Hv. unfold lods_store. safe. Qed.
Hint Resolve safe_lods_store : safe.
Lemma safe_lods_element size step rsi n :
  in_u64 rsi → 0 ≤ n →
  safe (lods_element size step (rsi, n)) (λ o, match o with inl s => in_u64 s.1 ∧ 0 ≤ s.2 < n | inr _ => True end).
Proof.
  intros Hrsi Hn. unfold lods_element. destruct (decide (0 < n)); [|by apply safe_ret].
  do 2 safe_step. cbv zeta. eapply safe_bind; [apply safe_count_down; by split|intros _ _].
  safe_step. apply safe_ret. simpl. unfold sat_sub. split_and!; auto with word; lia.
Qed.
Lemma safe_string_lods size rep : safe (string_lods size rep) any.
Proof.
  unfold string_lods. safe_step. destruct (decide _); [by apply safe_ret|]. do 2 safe_step. destruct rep; [|safe].
  apply (safe_countdown _ in_u64); [intros; by apply safe_lods_element|auto with word|].
  apply u64_bulk. auto with word.
Qed.
Lemma safe_lods instr size : in_u64 (ip instr) → safe (exec_lods instr size) any.
Proof. intros Hi. unfold exec_lods. eapply safe_bind; [by apply safe_string_lods|]. intros. by apply safe_stay. Qed.

Lemma safe_scas_element acc size step repe repne rdi n :
  in_u64 rdi → 0 ≤ n →
  safe (scas_element acc size step repe repne (rdi, n))
    (λ o, match o with inl s => in_u64 s.1 ∧ 0 ≤ s.2 < n | inr _ => True end).
Proof.
  intros Hrdi Hn. unfold scas_element. destruct (decide (0 < n)); [|by apply safe_ret].
  do 3 safe_step. cbv zeta. eapply safe_bind; [apply safe_count_down; by split|intros _ _].
  safe_step. apply safe_ret. destruct (zf_stops _ _ _); [done|]. simpl. unfold sat_sub. split_and!; auto with word; lia.
Qed.
Lemma safe_string_scas size rep repe repne : safe (string_scas size rep repe repne) any.
Proof.
  unfold string_scas. safe_step. destruct (decide _); [by apply safe_ret|]. do 3 safe_step. destruct rep; [|safe].
  apply (safe_countdown _ in_u64); [intros; by apply safe_scas_element|auto with word|].
  apply u64_bulk. auto with word.
Qed.
Lemma safe_scas instr size : in_u64 (ip instr) → safe (exec_scas instr size) any.
Proof. intros Hi. unfold exec_scas. eapply safe_bind; [by apply safe_string_scas|]. intros. by apply safe_stay. Qed.

Lemma safe_cmps_element size step repe repne (x : u64 * u64) n :
  in_u64 x.1 ∧ in_u64 x.2 → 0 ≤ n →
  safe (cmps_element size step repe repne (x, n))
    (λ o, match o with inl s => (in_u64 s.1.1 ∧ in_u64 s.1.2) ∧ 0 ≤ s.2 < n | inr _ => True end).
Proof.
  destruct x as [rsi rdi]. intros [Hrsi Hrdi] Hn. unfold cmps_element.
  destruct (decide (0 < n)); [|by apply safe_ret]. simpl in *.
  do 5 safe_step. cbv zeta. eapply safe_bind; [apply safe_count_down; by split|intros _ _].
  safe_step. apply safe_ret. destruct (zf_stops _ _ _); [done|]. simpl. unfold sat_sub. split_and!; auto with word; lia.
Qed.
Lemma safe_string_cmps size rep repe repne : safe (string_cmps size rep repe repne) any.
Proof.
  unfold string_cmps. safe_step. destruct (decide _); [by apply safe_ret|]. do 3 safe_step. destruct rep; [|safe].
  apply (safe_countdown _ (λ x, in_u64 x.1 ∧ in_u64 x.2)); [intros; by apply safe_cmps_element|simpl; auto with word|].
  apply u64_bulk. auto with word.
Qed.
Lemma safe_cmps instr size : in_u64 (ip instr) → safe (exec_cmps instr size) any.
Proof. intros Hi. unfold exec_cmps. eapply safe_bind; [by apply safe_string_cmps|]. intros. by apply safe_stay. Qed.

Lemma safe_run_string_op kind size rep repe repne :
  (0 < size ≤ 8)%nat → safe (run_string_op wie_string_bulk kind size rep repe repne) any.
Proof.
  intros Hs. destruct kind; simpl;
    [by apply safe_string_stos|by apply safe_string_movs|apply safe_string_lods|apply safe_string_scas|
     apply safe_string_cmps].
Qed.
End Strings.
#[export] Hint Resolve safe_stos safe_movs safe_lods safe_scas safe_cmps : safe.

(** * SSE instructions are safe *)

From Stdlib Require Import SpecFloat.
From S2P Require Import Prelude protect pagemap vad arena region mem mem_access mem_ops mem_safe.
From S2P Require Import regs regs_safe insn exec exec_string exec_sse exec_safe.

(** ** Ranges of 128-bit words *)

Lemma u128_land x y : in_u128 x → in_u128 (Z.land x y).
Proof. intros Hx. apply (land_bound x y 128 Hx). Qed.
Lemma u128_lor x y : in_u128 x → in_u128 y → in_u128 (Z.lor x y).
Proof. intros Hx Hy. apply (lor_bound x y 128 ltac:(lia) Hx Hy). Qed.
Lemma u128_lxor x y : in_u128 x → in_u128 y → in_u128 (Z.lxor x y).
Proof. intros Hx Hy. apply (lxor_bound x y 128 ltac:(lia) Hx Hy). Qed.
Lemma u128_ldiff x y : in_u128 x → in_u128 (Z.ldiff x y).
Proof. intros Hx. apply (ldiff_bound x y 128 ltac:(lia) Hx). Qed.
Lemma u128_not x : in_u128 x → in_u128 (not_u 128 x).
Proof. unfold not_u, in_u128. lia. Qed.
Lemma u128_shl x n : in_u128 (shl_u 128 x n).
Proof. by apply (as_u_bound 128). Qed.
Lemma u128_shiftr x n : 0 ≤ n → in_u128 x → in_u128 (Z.shiftr x n).
Proof. intros Hn Hx. apply (shiftr_bound x n 128 Hn Hx). Qed.
Lemma u128_u64 x : in_u64 x → in_u128 x.
Proof. intros [H1 H2]. split; [done|]. by eapply Z.lt_trans. Qed.
Lemma u128_as_u k x : 0 ≤ k ≤ 64 → in_u128 (as_u k x).
Proof. intros Hk. by apply u128_u64, as_u_u64. Qed.
Lemma u128_lo64 x : in_u128 x → in_u128 (lo64 x).
Proof. apply u128_land. Qed.
Lemma u128_keep_high x : in_u128 x → in_u128 (keep_high x).
Proof. apply u128_land. Qed.
#[export] Hint Resolve u128_land u128_lor u128_lxor u128_ldiff u128_not u128_shl u128_lo64 u128_keep_high : word.
#[export] Hint Extern 4 (in_u128 (Z.shiftr _ _)) => (apply u128_shiftr; [lia|]) : word.
#[export] Hint Extern 4 (in_u128 (as_u _ _)) => (apply u128_as_u; lia) : word.
#[export] Hint Resolve u128_u64 | 5 : word.
#[export] Hint Extern 3 (in_u128 (match ?x with _ => _ end)) => destruct x : word.

Lemma u128_fold (f : Z → Z) ks acc :
  in_u128 acc → (∀ i, in_u128 (f i)) → in_u128 (foldl (λ acc i, Z.lor acc (f i)) acc ks).
Proof.
  intros Ha Hf. revert acc Ha. induction ks as [|i ks IH]; intros acc Ha; simpl; [done|]. auto with word.
Qed.

Lemma le_val_u128 bs : Forall is_byte bs → (length bs ≤ 16)%nat → in_u128 (le_val bs).
Proof.
  intros Hbs Hl. destruct (le_val_bound bs Hbs) as [H1 H2]. split; [done|].
  apply Z.lt_le_trans with (256 ^ Z.of_nat (length bs)); [done|].
  change (2 ^ 128) with (256 ^ 16). apply Z.pow_le_mono_r; lia.
Qed.

(** A float fits its format. *)
Lemma to_bits_width f nan x : 0 ≤ width f → 0 ≤ to_bits f nan x < 2 ^ width f.
Proof. intros Hw. destruct x; simpl; try case_decide; by apply as_u_bound. Qed.

Section Sse.
Context `{IcedLaws, !NanChoice}.
Implicit Types (instr : Instruction).

Lemma fp_bits_u128 f op a b : f = f32 ∨ f = f64 → in_u128 (fp_bits f op a b).
Proof.
  intros Hf. assert (Hw : 0 ≤ width f ≤ 64) by (destruct Hf as [-> | ->]; by vm_compute).
  destruct (to_bits_width f (nan_bits f op a b) (fp_apply f op (from_bits f a) (from_bits f b))) as [Hlo Hhi]; [lia|].
  split; [done|]. apply Z.lt_le_trans with (2 ^ width f); [done|]. apply Z.pow_le_mono_r; lia.
Qed.

Lemma safe_read_sse_op instr op n : safe (read_sse_op instr op n) in_u128.
Proof.
  unfold read_sse_op. destruct (op_kind instr op); try apply safe_fail.
  - destruct (is_xmm_op instr op); [safe|].
    eapply safe_weaken; [apply safe_read_reg|]. auto with word.
  - safe_step. destruct (decide (16 < n)%nat); [apply safe_fail|].
    eapply safe_bind; [apply safe_read_bytes; [done|lia]|]. intros bs [Hl Hb]. apply safe_ret, le_val_u128; [done|lia].
Qed.

Lemma safe_write_sse_op instr op v n merge : in_u128 v → safe (write_sse_op instr op v n merge) any.
Proof.
  intros Hv. unfold write_sse_op. destruct (op_kind instr op); try apply safe_fail.
  - destruct (is_xmm_op instr op); [|apply safe_fail]. cbv zeta.
    apply (safe_bind _ _ in_u128); [safe|]. intros new Hnew. safe.
  - safe_step. destruct (decide (16 < n)%nat); [apply safe_fail|].
    apply safe_xmem, safe_mem_write; [done| |apply le_bytes_byte]. rewrite length_le_bytes. lia.
Qed.
Hint Resolve safe_read_sse_op safe_write_sse_op : safe.

Lemma safe_sse_mov instr n merge : safe (exec_sse_mov instr n merge) any.
Proof. unfold exec_sse_mov. safe. Qed.
Hint Resolve safe_sse_mov : safe.
Lemma safe_sse_movq instr : safe (exec_sse_movq instr) any.
Proof. unfold exec_sse_movq. safe. Qed.
Lemma safe_sse_movd instr : safe (exec_sse_movd instr) any.
Proof. unfold exec_sse_movd. safe. Qed.
Lemma safe_sse_movhps instr : safe (exec_sse_movhps instr) any.
Proof. unfold exec_sse_movhps. safe. Qed.
Lemma safe_sse_movhlps instr : safe (exec_sse_movhlps instr) any.
Proof. unfold exec_sse_movhlps. safe. Qed.
Lemma safe_sse_punpck instr : safe (exec_sse_punpck instr) any.
Proof. unfold exec_sse_punpck. safe. Qed.

Lemma shuffle32_u128 imm src : in_u128 (shuffle32 imm src).
Proof. unfold shuffle32. apply (u128_fold (λ i, shl_u 128 _ (i * 32))); [by split|]. auto with word. Qed.
Hint Resolve shuffle32_u128 : word.
Lemma safe_sse_pshufd instr : safe (exec_sse_pshufd instr) any.
Proof. unfold exec_sse_pshufd. safe. Qed.

Lemma sse_bit_u128 op a b : in_u128 a → in_u128 b → in_u128 (sse_bit op a b).
Proof. intros. destruct op; simpl; auto with word. Qed.
Hint Resolve sse_bit_u128 : word.
Lemma safe_sse_bitwise instr op : safe (exec_sse_bitwise instr op) any.
Proof. unfold exec_sse_bitwise. safe. Qed.
Lemma safe_sse_scalar_fp instr op is_f64 : safe (exec_sse_scalar_fp instr op is_f64) any.
Proof.
  unfold exec_sse_scalar_fp. destruct is_f64; do 2 safe_step; apply safe_write_sse_op, fp_bits_u128; auto.
Qed.
Lemma safe_sse_packed_fp instr op is_f64 : safe (exec_sse_packed_fp instr op is_f64) any.
Proof.
  unfold exec_sse_packed_fp. do 2 safe_step. cbv zeta. apply safe_write_sse_op.
  apply u128_fold; [by split|]. intros i. apply u128_shl.
Qed.
End Sse.
#[export] Hint Resolve safe_sse_mov safe_sse_movq safe_sse_movd safe_sse_movhps safe_sse_movhlps safe_sse_punpck
  safe_sse_pshufd safe_sse_bitwise safe_sse_scalar_fp safe_sse_packed_fp : safe.

(** * A step is safe

    [execute_one] puts the bodies together; a step adds the fetch, the decoder and
    the host stops. *)

From S2P Require Import Prelude protect pagemap vad arena region mem mem_access mem_ops mem_safe.
From S2P Require Import regs regs_safe insn exec exec_string exec_sse exec_one exec_safe.

Section Step.
Context `{IcedLaws, !NanChoice} (wie_string_bulk : option string) (now : Z).
Implicit Types (instr : Instruction).

Lemma safe_popfq : safe exec_popfq any.
Proof. unfold exec_popfq. safe. Qed.
Lemma safe_leave : safe exec_leave any.
Proof. unfold exec_leave, pop64. safe. Qed.
Hint Resolve safe_popfq safe_leave : safe.

(** Any instruction at a 64-bit address. *)
Lemma safe_execute_one instr next :
  in_u64 (ip instr) → in_u64 next → safe (execute_one wie_string_bulk now instr next) any.
Proof.
  intros Hip Hnext. unfold execute_one. eapply safe_bind; [apply safe_mod; auto with regs|intros _ _].
  destruct (mnemonic instr); try solve [auto with safe lia]; safe.
  apply safe_mod. intros r Hr. apply ok_set_rdx; [auto with regs word|]. apply (shiftr_bound _ _ 64); [lia|].
  apply as_u_bound. lia.
Qed.

(** ** The step *)

(** The fetch changes neither registers nor bytes. *)
Lemma fetch15_spec rip c :
  cpu_ok c → in_u64 rip →
  ∃ c' r, fetch15 rip c = (c', r) ∧ cpu_ok c' ∧ cregs c' = cregs c ∧ same_but_cache (cmem c) (cmem c') ∧
    match r with
    | Ok bytes => spc (cmem c) rip (Z.of_nat (length bytes)) Execute = Ok tt ∧ (0 < length bytes ≤ 15)%nat ∧
        bytes = prefix_bytes (byte_at (backend (cmem c))) rip (length bytes)
    | Err _ => spc (cmem c) rip 1 Execute ≠ Ok tt
    | Abort _ => False
    end.
Proof.
  intros [Hg Hr] Hrip. unfold fetch15.
  destruct (gm_fetch_holds (cmem c) rip (replicate 15 0)) as (g' & out' & r & -> & Hs & Hwf & Hres);
    [apply Hg|done|by vm_compute|done|intros n _; by apply (fetch_allowed _ _ _ Hg)|].
  assert (Hok : mem_ok g') by (by eapply mem_ok_same). rewrite length_replicate in Hres.
  destruct r as [n|e|w]; [|eexists _, _; split; [done|]; split_and!; try done; apply Hres|done].
  destruct Hres as (Hn & Hspc & _ & -> & Hb). change (Z.of_nat 15 `min` 15) with 15 in Hn.
  destruct (prefix_bytes_backed (backend (cmem c)) rip (Z.to_nat n)) as [Hl _].
  { intros x Hx. apply byte_at_is_Some. replace x with (rip + (x - rip)) by lia. apply Hb. lia. }
  rewrite take_app_length' by done.
  eexists _, _. split; [reflexivity|]. cbn match. rewrite Hl, Z2Nat.id by lia.
  split_and!; try done; lia.
Qed.

(** Executing a decoded instruction. *)
Lemma run_insn_safe instr rip0 c :
  cpu_ok c → in_u64 (ip instr) → in_u64 (next_ip instr) → in_u64 rip0 →
  let '(c', r) := run_insn wie_string_bulk now instr rip0 c in
  cpu_ok c' ∧ stored (cmem c) (cmem c') ∧
  match r with
  | Ok Continue => True
  | Ok (HostStop _ _) => False
  | Ok (StepInvalidMemory _) | Err _ => rip (cregs c') = rip0
  | Abort _ => False
  end.
Proof.
  intros Hc Hip Hnext Hrip. unfold run_insn.
  destruct (safe_execute_one instr (next_ip instr) Hip Hnext c Hc) as (H4 & H5 & H6).
  assert (Hback : ∀ c', cpu_ok c' → cpu_ok (mkCpu (cmem c') (set_rip rip0 (cregs c')))).
  { intros c' [? ?]. split; simpl; auto with regs. }
  destruct (execute_one wie_string_bulk now instr (next_ip instr) c) as [c' [[]|[inv|e]|w]]; simpl in *;
    (split_and!; auto; done).
Qed.

Lemma step_holds hook c :
  cpu_ok c →
  let '(c', r) := step wie_string_bulk now hook c in
  cpu_ok c' ∧ stored (cmem c) (cmem c') ∧
  match r with
  | Ok Continue => stops_at hook (rip (cregs c)) = false
  | Ok (HostStop a _) => stops_at hook a = true ∧ a = rip (cregs c) ∧ cregs c' = cregs c
  | Ok (StepInvalidMemory _) | Err _ => rip (cregs c') = rip (cregs c)
  | Abort _ => False
  end.
Proof.
  intros Hc. assert (Hrip : in_u64 (rip (cregs c))) by apply Hc. unfold step.
  destruct (fetch15_spec (rip (cregs c)) c Hc Hrip) as (c1 & r & E & Hc1 & Hr1 & Hs1 & Hr).
  pose proof (same_stored _ _ Hs1) as Hst.
  destruct (stops_at hook (rip (cregs c))) eqn:Eh.
  - unfold mbind, M_bind, peek_insn_len. rewrite E. destruct r as [bytes|e|w]; [| |done]; by split_and!.
  - rewrite E. destruct r as [bytes|e|w]; [|split_and!; try done; by rewrite Hr1|done].
    destruct (decode (rip (cregs c)) bytes) as [instr|] eqn:Ed; [|split_and!; try done; by rewrite Hr1].
    pose proof (run_insn_safe instr (rip (cregs c)) c1 Hc1) as Hrun.
    destruct (run_insn wie_string_bulk now instr (rip (cregs c)) c1) as [c2 r2].
    destruct Hrun as (Hc2 & Hst2 & Hr2); [by rewrite (decode_ip _ _ _ Ed)| |done|].
    { rewrite (decode_next _ _ _ Ed). apply u64_wrap. }
    split_and!; [done|by eapply stored_trans|]. by destruct r2 as [[]| |].
Qed.
End Step.

(** * What the engine promises

    A run is safe and ends within its budget; the trace of instruction pointers
    is the last [RIP_TRACE_CAP] pushed ones. *)

From S2P Require Import Prelude protect pagemap vad arena region mem mem_access mem_ops mem_safe.
From S2P Require Import regs regs_safe insn exec exec_string exec_sse exec_one exec_safe.
From S2P Require Import engine iced_cpu.

(** ** The trace *)

(** The ring holds the end of the history [h]. *)
Record trace_holds (h : list u64) (i : IcedCpu) : Prop := {
  th_len : length (rip_trace i) = RIP_TRACE_CAP;
  th_i : rip_trace_i i = wrap64 (Z.of_nat (length h));
  th_n : rip_trace_n i = (length h `min` RIP_TRACE_CAP)%nat;
  th_slots : ∀ j, (length h ≤ j + RIP_TRACE_CAP)%nat → (j < length h)%nat →
    rip_trace i !! (j `mod` RIP_TRACE_CAP)%nat = h !! j;
}.

Lemma trace_slot_mod (j : nat) : trace_slot (wrap64 (Z.of_nat j)) = (j `mod` RIP_TRACE_CAP)%nat.
Proof.
  unfold trace_slot, wrap64. change (Z.of_nat RIP_TRACE_CAP - 1) with (2 ^ 5 - 1). rewrite land_low by lia.
  rewrite Z.mod_mod_divide by (by exists (2 ^ 59)). change (2 ^ 5) with (Z.of_nat RIP_TRACE_CAP).
  by rewrite <- Nat2Z.inj_mod, Nat2Z.id.
Qed.

Lemma trace_holds_new : trace_holds [] new_engine.
Proof. split; try done. simpl. lia. Qed.

Lemma trace_holds_push h i rip : trace_holds h i → trace_holds (h ++ [rip]) (push_rip_trace rip i).
Proof.
  assert (Hc : RIP_TRACE_CAP = 32%nat) by done.
  intros [Hl Hi Hn Hs]. split; unfold push_rip_trace; cbn [rip_trace rip_trace_i rip_trace_n].
  - by rewrite length_insert.
  - rewrite Hi, length_app. unfold wrapping_add, wrap64. rewrite Zplus_mod_idemp_l. f_equal. cbn [length]. lia.
  - rewrite Hn, length_app. cbn [length]. destruct (decide _); lia.
  - intros j Hj1 Hj2. rewrite Hi, trace_slot_mod. rewrite length_app in *. cbn [length] in *.
    pose proof (Nat.div_mod_eq j RIP_TRACE_CAP). pose proof (Nat.div_mod_eq (length h) RIP_TRACE_CAP).
    pose proof (Nat.mod_upper_bound (length h) RIP_TRACE_CAP ltac:(lia)).
    pose proof (Nat.mod_upper_bound j RIP_TRACE_CAP ltac:(lia)).
    destruct (decide (j = length h)) as [->|Hne].
    + rewrite list_lookup_insert_eq by lia. by rewrite list_lookup_middle.
    + rewrite lookup_app_l by lia. rewrite list_lookup_insert_ne; [apply Hs; lia|]. intros E. rewrite Hc in *. nia.
Qed.

Lemma omap_lookup_seq_app {A} (p l : list A) :
  omap (λ k, (p ++ l) !! k) (seq (length p) (length l)) = l.
Proof.
  revert p. induction l as [|x l IH]; intros p; [done|]. cbn [length seq omap list_omap].
  simpl. rewrite list_lookup_middle by done. f_equal. specialize (IH (p ++ [x])).
  rewrite length_app, <- app_assoc in IH. simpl in IH. by rewrite Nat.add_1_r in IH.
Qed.
Lemma omap_lookup_seq {A} (l : list A) : omap (λ k, l !! k) (seq 0 (length l)) = l.
Proof. apply (omap_lookup_seq_app []). Qed.

(** The trace reads back as the end of the history, oldest first. *)
Lemma trace_vec_holds h i :
  trace_holds h i → Z.of_nat (length h) < u64_lim → rip_trace_vec i = drop (length h - RIP_TRACE_CAP) h.
Proof.
  assert (Hc : RIP_TRACE_CAP = 32%nat) by done.
  intros [Hl Hi Hn Hs] Hlim. rewrite <- (omap_lookup_seq (drop _ h)). unfold rip_trace_vec. rewrite length_drop.
  replace (length h - (length h - RIP_TRACE_CAP))%nat with (rip_trace_n i) by lia.
  apply list_omap_ext, Forall2_same_length_lookup. split; [done|].
  intros k x y Hx Hy. rewrite Hx in Hy. injection Hy as <-. apply lookup_seq in Hx as [-> Hk].
  rewrite lookup_drop, <- Hs by lia. f_equal. rewrite <- trace_slot_mod. f_equal.
  rewrite Hi. unfold wrapping_add, wrapping_sub, wrap64. rewrite Zminus_mod_idemp_l, Zplus_mod_idemp_l. f_equal. lia.
Qed.

(** ** Runs *)

Record engine_ok (s : GuestMemory * IcedCpu) : Prop := {
  eo_cpu : cpu_ok (mkCpu s.1 (i_regs s.2));
  eo_steps : in_u64 (iced_steps s.2);
}.

Section Run.
Context `{IcedLaws, !NanChoice} (wie_string_bulk : option string) (now : Z → Z).
Implicit Types (s : GuestMemory * IcedCpu).

Lemma engine_step_holds clock s :
  engine_ok s →
  let '(s', r) := engine_step wie_string_bulk clock s in
  engine_ok s' ∧ stored s.1 s'.1 ∧ s'.2 = with_regs (i_regs s'.2) s.2 ∧
  match r with
  | Ok Continue => stops_at (hooks s.2) (rip (i_regs s.2)) = false
  | Ok (HostStop a _) => stops_at (hooks s.2) a = true ∧ a = rip (i_regs s.2) ∧ i_regs s'.2 = i_regs s.2
  | Ok (StepInvalidMemory _) | Err _ => rip (i_regs s'.2) = rip (i_regs s.2)
  | Abort _ => False
  end.
Proof.
  intros [Hc Hn]. unfold engine_step.
  pose proof (step_holds wie_string_bulk clock (hooks s.2) (mkCpu s.1 (i_regs s.2)) Hc) as Hs.
  destruct (step _ _ _ _) as [c r]. destruct Hs as (H4 & H5 & H6). split_and!; try done.
  split; [|done]. by destruct c.
Qed.

(** What a run leaves after [n] executed instructions. *)
Definition run_post (s : GuestMemory * IcedCpu) (until budget n : Z)
    (s' : GuestMemory * IcedCpu) (r : res RunUntilHook) : Prop :=
  engine_ok s' ∧ stored s.1 s'.1 ∧ hooks s'.2 = hooks s.2 ∧ 0 ≤ n ≤ budget ∧
  iced_steps s'.2 = sat_add (iced_steps s.2) n ∧
  match r with
  | Ok o =>
      let c := code o in let im := invalid_memory o in
      (ch_hit c = true → stops_at (hooks s.2) (ch_address c) = true ∧ ch_address c = rip (i_regs s'.2) ∧ ia_hit im = false) ∧
      (ch_hit c = false → ia_hit im = false → n = budget ∨ (until ≠ 0 ∧ rip (i_regs s'.2) = until))
  | Err _ => n < budget
  | Abort _ => False
  end.

Lemma run_until_stop_holds begin until count s :
  engine_ok s → in_u64 begin → in_u64 count →
  ∃ n, run_post s until (run_budget count) n
    (run_until_stop wie_string_bulk now begin until count s).1
    (run_until_stop wie_string_bulk now begin until count s).2.
Proof.
  intros Hs Hb Hc. unfold run_until_stop, mbind, M_bind, on_engine, modify.
  set (s1 := (s.1, with_regs (set_rip begin (i_regs s.2)) s.2)).
  assert (Hs1 : engine_ok s1).
  { destruct Hs as [[Hm Hr] Hn]. split; [split; simpl; auto with regs|done]. }
  set (budget := run_budget count).
  assert (Hbud : 0 ≤ budget < u64_lim).
  { unfold budget, run_budget. destruct (decide _); [lia|]. apply Hc. }
  set (post := λ s' r, ∃ n, run_post s until budget n s' r).
  enough (Hp : post (loopM (fuel_of budget) (run_body wie_string_bulk now until budget) 0 s1).1
    (loopM (fuel_of budget) (run_body wie_string_bulk now until budget) 0 s1).2) by exact Hp.
  apply (loopM_rule _ (λ n s', engine_ok s' ∧ stored s.1 s'.1 ∧ hooks s'.2 = hooks s.2 ∧ 0 ≤ n ≤ budget ∧
    iced_steps s'.2 = sat_add (iced_steps s.2) n) post (λ n, budget - n)).
  2:{ destruct Hs as [? Hn]. split_and!; try done; try lia; try apply stored_refl.
      unfold sat_add, in_u64 in *. simpl. lia. }
  2:{ unfold fuel_of. lia. }
  intros n s2 (Hs2 & Hst & Hh & Hn & Hsteps). unfold run_body. destruct (decide (n < budget)) as [Hlt|].
  2:{ exists n. unfold run_post. simpl. split_and!; try done; try lia. }
  destruct (decide _) as [Hu|_].
  { exists n. unfold run_post. simpl. split_and!; try done; try lia. }
  set (s3 := if is_multiple_of n 16 then _ else s2).
  assert (H3 : engine_ok s3 ∧ s3.1 = s2.1 ∧ hooks s3.2 = hooks s2.2 ∧ iced_steps s3.2 = iced_steps s2.2).
  { unfold s3. destruct (is_multiple_of n 16); [|done]. destruct Hs2 as [? ?]. by split_and!. }
  destruct H3 as (Hs3 & E1 & E2 & E3). pose proof (engine_step_holds (now n) s3 Hs3) as Hstep.
  destruct (engine_step wie_string_bulk (now n) s3) as [s4 r4]. destruct Hstep as (Hs4 & Hst4 & Ew & Hr4).
  assert (Hst5 : stored s.1 s4.1) by (eapply stored_trans; [done|by rewrite <- E1]).
  assert (Hh4 : hooks s4.2 = hooks s.2) by (rewrite Ew; simpl; by rewrite E2).
  assert (Hsteps4 : iced_steps s4.2 = sat_add (iced_steps s.2) n) by (rewrite Ew; simpl; by rewrite E3).
  rewrite E2, Hh in Hr4.
  destruct r4 as [[|a size|inv]|e|w]; [|exists n; unfold run_post; simpl..|done].
  - rewrite (sat_add_lt n 1) by lia. destruct Hs4 as [? Hst4']. split_and!; try done; try lia.
    + split; [done|]. by apply u64_sat_add.
    + simpl. rewrite Hsteps4. unfold sat_add. lia.
  - destruct Hr4 as (? & ? & ->). subst a. split_and!; try done; lia.
  - split_and!; try done; lia.
  - split_and!; try done; lia.
Qed.
End Run.
