(* ===== verification/exec_demo.v ===== *)
(** * A concrete decoder

    A dozen encodings of x86-64, enough to run small programs: the instance on
    which the theorems over any [IcedInstruction] are applied. *)

From S2P Require Import Prelude protect pagemap vad arena region mem mem_access mem_ops mem_safe mem_demo.
From S2P Require Import regs regs_safe insn exec exec_string exec_sse exec_one iced_cpu exec_wf.

#[local] Existing Instance demo_os.
#[local] Existing Instance demo_laws.

(** ** Registers *)

(** General-purpose registers by number and size, high bytes, XMM. *)
Inductive dreg := DNone | DRIP | DEIP | DG (n size : nat) | DH (n : nat) | DX (n : nat).

#[export] Instance demo_iced_registers : IcedRegister.
Proof.
  refine {|
    Register := dreg;
    reg_None := DNone;
    reg_RIP := DRIP;
    reg_AH := DH 0; reg_CH := DH 1; reg_DH := DH 2; reg_BH := DH 3;
    full_register r :=
      match r with
      | DG n (1 | 2 | 4 | 8)%nat => DG n 8
      | DH n => if decide (n < 4)%nat then DG n 8 else r
      | r => r
      end;
    reg_number r := match r with DG n _ | DH n | DX n => n | _ => 99%nat end;
    reg_size r := match r with DNone => 0 | DRIP => 8 | DEIP => 4 | DG _ s => s | DH _ => 1 | DX _ => 16 end%nat;
    is_xmm r := match r with DX _ => true | _ => false end;
    reg_name _ := "r"%string;
  |}.
  solve_decision.
Defined.

(** ** Instructions *)

Inductive dop := DReg (r : dreg) | DImm (k : OpKind) (v : Z) | DMem | DBranch (v : Z).

Record dinsn := mkD {
  d_ip : u64;
  d_len : nat;
  d_mnemonic : Mnemonic;
  d_ops : list dop;
  d_rep : bool;
  d_base : dreg;
  d_size : MemorySize;
}.

Definition d_kind (i : dinsn) (n : nat) : OpKind :=
  match d_ops i !! n with
  | Some (DReg r) => if decide (0 < reg_size r)%nat then OpKind.Register else OpKind.Other "None"
  | Some (DImm OpKind.Register _) | None => OpKind.Other "None"
  | Some (DImm k _) => k
  | Some DMem => OpKind.Memory
  | Some (DBranch _) => OpKind.NearBranch64
  end.

Definition rm8 (modrm : Z) : nat := Z.to_nat (Z.land modrm 7).
Definition reg8 (modrm : Z) : nat := Z.to_nat (Z.land (Z.shiftr modrm 3) 7).

(** Bytes after the first, mnemonic, operands, REP, memory base and size. *)
Definition shape : Type := nat * Mnemonic * list dop * bool * dreg * MemorySize.
Definition plain (more : nat) (m : Mnemonic) (ops : list dop) : option shape :=
  Some (more, m, ops, false, DNone, MemorySize.Other "None").

Definition demo_shape (a : u64) (bs : list u8) : option shape :=
  match bs with
  | 0x90 :: _ => plain 0 Mnemonic.Nop []
  | 0xc3 :: _ => plain 0 Mnemonic.Ret []
  | 0xe8 :: b0 :: b1 :: b2 :: b3 :: _ =>
      plain 4 Mnemonic.Call [DBranch (a + 5 + as_i 32 (le_val [b0; b1; b2; b3]))]
  | 0xeb :: d :: _ => plain 1 Mnemonic.Jmp [DBranch (a + 2 + as_i 8 d)]
  | 0xaa :: _ => plain 0 Mnemonic.Stosb []
  | 0xf3 :: 0xaa :: _ => Some (1%nat, Mnemonic.Stosb, [], true, DNone, MemorySize.UInt8)
  | 0xf3 :: 0xa4 :: _ => Some (1%nat, Mnemonic.Movsb, [], true, DNone, MemorySize.UInt8)
  | 0x48 :: 0x39 :: m :: _ => plain 2 Mnemonic.Cmp [DReg (DG (rm8 m) 8); DReg (DG (reg8 m) 8)]
  | 0x48 :: 0x01 :: m :: _ => plain 2 Mnemonic.Add [DReg (DG (rm8 m) 8); DReg (DG (reg8 m) 8)]
  | 0x10 :: m :: _ => plain 1 Mnemonic.Adc [DReg (DG (rm8 m) 1); DReg (DG (reg8 m) 1)]
  | 0xf6 :: m :: _ => plain 1 Mnemonic.Idiv [DReg (DG (rm8 m) 1)]
  | 0x88 :: m :: _ => Some (1%nat, Mnemonic.Mov, [DMem; DReg (DG (reg8 m) 1)], false, DG (rm8 m) 8, MemorySize.UInt8)
  | 0x41 :: 0x8f :: m :: _ => Some (2%nat, Mnemonic.Pop, [DMem], false, DG (rm8 m + 8) 8, MemorySize.UInt64)
  | _ => None
  end.

Definition demo_decode (a : u64) (bs : list u8) : option dinsn :=
  match demo_shape a bs with
  | Some (more, m, ops, rep, base, size) =>
      if decide (S more ≤ length bs)%nat then Some (mkD a (S more) m ops rep base size) else None
  | None => None
  end.

#[export] Instance demo_iced : IcedInstruction := {|
  Instruction := dinsn;
  decode := demo_decode;
  ip := d_ip;
  next_ip i := wrap64 (d_ip i + Z.of_nat (d_len i));
  insn_len := d_len;
  mnemonic := d_mnemonic;
  op_count i := length (d_ops i);
  op_kind := d_kind;
  op_register i n := match d_ops i !! n with Some (DReg r) => r | _ => DNone end;
  immediate i n := match d_ops i !! n with Some (DImm _ v) => wrap64 v | _ => 0 end;
  near_branch_target i := match d_ops i !! 0%nat with Some (DBranch v) => wrap64 v | _ => 0 end;
  memory_base := d_base;
  memory_index _ := DNone;
  memory_index_scale _ := 1;
  memory_displacement64 _ := 0;
  memory_size := d_size;
  memory_size_debug _ := ""%string;
  has_rep_prefix := d_rep;
  has_repe_prefix _ := false;
  has_repne_prefix _ := false;
  has_lock_prefix _ := false;
  is_movsd_code _ := false;
  reg_AL := DG 0 1;
  reg_AX := DG 0 2;
  reg_EAX := DG 0 4;
  reg_DX := DG 2 2;
  reg_EDX := DG 2 4;
  reg_EIP := DEIP;
|}.

(** As an instruction of the model. *)
Definition demo_insn (i : dinsn) : @Instruction _ demo_iced := i.

Lemma demo_decode_inv a bs i :
  demo_decode a bs = Some i → d_ip i = a ∧ (0 < d_len i ≤ length bs)%nat.
Proof.
  unfold demo_decode. destruct (demo_shape a bs) as [[[[[[more m] ops] rep] base] size]|]; [|done].
  destruct (decide _); [|done]. intros [= <-]. simpl. split; [done|lia].
Qed.

#[export] Instance demo_iced_laws : IcedLaws.
Proof.
  split.
  - intros a bs i Hd. by apply demo_decode_inv in Hd as [? _].
  - intros a bs i Hd. apply demo_decode_inv in Hd as [? _]. simpl. by subst a.
  - intros a bs i Hd. by apply demo_decode_inv in Hd as [_ ?].
  - intros i n. simpl. destruct (d_ops i !! n) as [[| | |]|]; first [apply u64_wrap | by vm_compute].
  - intros i. simpl. destruct (d_ops i !! 0%nat) as [[| | |]|]; first [apply u64_wrap | by vm_compute].
  - intros i. by vm_compute.
  - intros i n. simpl. unfold d_kind. destruct (d_ops i !! n) as [[r|k v| |]|]; try done.
    + by case_decide.
    + by destruct k.
  - by split_and!.
  - by split_and!.
  - by split_and!.
  - by split_and!.
  - by split_and!.
Qed.

#[export] Instance demo_nan : NanChoice := λ f _ _ _, if decide (prec f = 24) then 0x7fc00000 else 0x7ff8000000000000.

(** ** A machine *)

(** [code] at the start of an executable and writable allocation of 16 pages. *)
Definition demo_base : u64 := 0x100000000.
Definition demo_empty : GuestMemory :=
  (virtual_alloc 0 0x10000 0x3000 PAGE_EXECUTE_READWRITE (gm_new Host_empty)).1.
Definition demo_machine (code : list u8) : GuestMemory := (write demo_base code demo_empty).1.

Lemma demo_empty_ok : mem_ok demo_empty.
Proof.
  destruct (gm_new_ok Host_empty) as [Hw Hr].
  destruct (safe_alloc 0 0x10000 0x3000 PAGE_EXECUTE_READWRITE _ Hw Hr) as (Hw' & Hr' & _);
    [by vm_compute..|]. split; [done|by apply host_rw_grants|].
  assert (E : h_bytes (os_state (backend demo_empty)) = ∅) by (vm_compute; reflexivity).
  clear -E. revert E. generalize demo_empty. intros g E x b. unfold gbyte, byte_at, host_byte. rewrite E.
  destruct (tr (arenas (backend g)) x) as [p|]; [|done]. intros [= <-]. by rewrite lookup_empty.
Qed.

Lemma demo_machine_ok code :
  Forall is_byte code → Z.of_nat (length code) < u64_lim → mem_ok (demo_machine code).
Proof.
  intros Hb Hl. destruct (mem_write_spec demo_empty demo_base code demo_empty_ok) as (g & E & Hg & _);
    [by vm_compute|done|done|]. unfold demo_machine. by rewrite E.
Qed.

(** At [demo_base], the stack in the middle of the allocation. *)
Definition demo_cpu (code : list u8) (f : RegFile → RegFile) : cpu :=
  mkCpu (demo_machine code) (f (set_rsp (demo_base + 0x8000) (set_rip demo_base RegFile_new))).

Lemma demo_regs_ok : regs_ok RegFile_new.
Proof.
  split; [split; [done|by apply Forall_replicate]|done|by apply Forall_replicate|done|by vm_compute].
Qed.

Lemma demo_cpu_ok code f :
  Forall is_byte code → Z.of_nat (length code) < u64_lim → (∀ r, regs_ok r → regs_ok (f r)) → cpu_ok (demo_cpu code f).
Proof.
  intros Hb Hl Hf. split; [by apply demo_machine_ok|]. apply Hf.
  apply ok_set_rsp; [apply ok_set_rip; [apply demo_regs_ok|]|]; by vm_compute.
Qed.

(** [n] steps without host stops. *)
Fixpoint demo_steps (n : nat) (c : cpu) : cpu * res StepResult :=
  match n with
  | O => (c, Ok Continue)
  | S n => match step None 0 None c with
           | (c, Ok Continue) => demo_steps n c
           | r => r
           end
  end.

Example demo_add :
  rax (cregs (demo_steps 1 (demo_cpu [0x48; 0x01; 0xd8] (λ r, set_gpr 3 40 (set_rax 2 r)))).1) = 42.
Proof. vm_compute. reflexivity. Qed.
Example demo_call_ret :
  rip (cregs (demo_steps 2 (demo_cpu [0xe8; 1; 0; 0; 0; 0x90; 0xc3] id)).1) = demo_base + 5.
Proof. vm_compute. reflexivity. Qed.
