(* ===== verification/engine_safe.v ===== *)
(** * The engine between guest code and the host

    The window of addresses the host stops at, and the protocol of an API call: a
    guest CALL into the window, the handler, [return_from_win64_api]. *)

From S2P Require Import Prelude protect pagemap vad arena region mem mem_access mem_ops mem_safe.
From S2P Require Import regs regs_safe insn exec exec_string exec_sse exec_one exec_wf exec_safe.
From S2P Require Import step_safe engine iced_cpu exec_demo mem_demo.

(** ** Host stops *)

(** The bit of [bm] for offset [off]. *)
Definition bitmap_bit (bm : list u8) (off : Z) : bool :=
  match bm !! Z.to_nat (off / 8) with Some b => Z.testbit b (off mod 8) | None => false end.

Lemma install_accepts b e bm s s' :
  install_runtime_hooks b e bm s = (s', Ok tt) →
  hooks s'.2 = Some (mkHook b e bm) ∧ s'.1 = s.1 ∧ i_regs s'.2 = i_regs s.2 ∧
  (in_u64 b → in_u64 e → div_ceil8 (sat_add (sat_sub e b) 1) ≤ Z.of_nat (length bm)).
Proof.
  unfold install_runtime_hooks. destruct (decide _) as [|Hno]; [done|]. intros [= <-]. split_and!; try done.
  intros Hb He. destruct (decide (div_ceil8 (sat_add (sat_sub e b) 1) = u64_lim - 1)) as [E|]; [|lia].
  exfalso. unfold div_ceil8, sat_add, sat_sub, in_u64 in *.
  set (n := Z.min _ _) in *. assert (0 ≤ n ≤ u64_lim - 1) by (unfold n; lia).
  assert (n / 8 ≤ (u64_lim - 1) / 8) by (apply Z.div_le_mono; lia).
  change ((u64_lim - 1) / 8) with 2305843009213693951 in *. case_bool_decide; simpl in E; lia.
Qed.

(** A hook window that was accepted stops exactly where it says: everywhere in it
    without a bitmap, at the set bits with one; and the bitmap is long enough for
    every address of the window, so the code's answer for a missing byte is never
    used. *)
Theorem hook_window_spec b e bm s s' a :
  install_runtime_hooks b e bm s = (s', Ok tt) →
  in_u64 b → in_u64 e → b ≤ e → e - b < u64_lim - 1 → in_u64 a →
  stops_at (hooks s'.2) a =
    bool_decide (b ≤ a ≤ e) && (bool_decide (bm = []) || bitmap_bit bm (a - b)) ∧
  (b ≤ a ≤ e → is_Some (bm !! Z.to_nat ((a - b) / 8))).
Proof.
  intros Hi Hb He Hle Hlt Ha. destruct (install_accepts _ _ _ _ _ Hi) as (Hh & _ & _ & Hlen).
  specialize (Hlen Hb He). assert (Hr : sat_add (sat_sub e b) 1 = e - b + 1).
  { rewrite sat_sub_le, sat_add_lt by lia. done. }
  rewrite Hr in Hlen. assert (Hin : b ≤ a ≤ e → is_Some (bm !! Z.to_nat ((a - b) / 8))).
  { intros Hba. apply lookup_lt_is_Some_2. unfold div_ceil8 in Hlen.
    assert ((a - b) / 8 ≤ (e - b) / 8) by (apply Z.div_le_mono; lia).
    pose proof (Z.div_mod (e - b + 1) 8). pose proof (Z.mod_pos_bound (e - b + 1) 8).
    pose proof (Z.div_mod (e - b) 8). pose proof (Z.mod_pos_bound (e - b) 8).
    pose proof (Z.div_pos (a - b) 8). case_bool_decide; simpl in Hlen; lia. }
  split; [|done]. rewrite Hh. simpl. unfold should_host_stop. simpl. destruct (decide (bm = [])) as [->|Hne].
  { rewrite (bool_decide_eq_true_2 ([] = [])) by done. rewrite andb_true_r. repeat case_bool_decide; simpl; lia || done. }
  rewrite (bool_decide_eq_false_2 (bm = [])) by done. simpl. rewrite Hr.
  destruct (decide (a < b)); [by rewrite bool_decide_eq_false_2 by lia|]. rewrite sat_sub_le by lia.
  destruct (decide (e - b + 1 ≤ a - b)); [by rewrite bool_decide_eq_false_2 by lia|].
  rewrite bool_decide_eq_true_2 by lia. simpl. unfold bitmap_bit.
  destruct Hin as [byte ->]; [lia|]. apply nonzero_bit. apply Z.mod_pos_bound. lia.
Qed.

(** Stops at the second and fourth of four addresses. *)
Lemma hook_window_spec_witness :
  let s := (install_runtime_hooks 0x1000 0x1003 [0x0a] open_x86_64).1 in
  stops_at (hooks s.2) 0x1001 = true ∧ stops_at (hooks s.2) 0x1002 = false.
Proof.
  split.
  - etrans; [apply (hook_window_spec 0x1000 0x1003 [0x0a] open_x86_64 _ 0x1001);
      first [reflexivity|by vm_compute]|]. reflexivity.
  - etrans; [apply (hook_window_spec 0x1000 0x1003 [0x0a] open_x86_64 _ 0x1002);
      first [reflexivity|by vm_compute]|]. reflexivity.
Defined.

(** ** API calls *)

Lemma allows_write_read pr : allows_write pr = true → allows_read pr = true.
Proof. unfold allows_write, allows_read. rewrite !matches_spec, !elem_of_cons. tauto. Qed.

Lemma spc_view g g' a n k : gview g' = gview g → spc g' a n k = spc g a n k.
Proof. unfold spc. by intros ->. Qed.

(** Writable bytes can be read. *)
Lemma spc_write_read g a n : spc g a n Write = Ok tt → spc g a n Read = Ok tt.
Proof.
  unfold spc. case_decide; [done|]. case_decide; [|done].
  generalize (seqZ (a / 4096) ((a + n - 1) / 4096 + 1 - a / 4096)). intros ps.
  induction ps as [|p ps IH]; simpl; [done|]. unfold PageMap.page_verdict.
  destruct (gview g p) as [[st pr]|]; [|done]. case_decide; [done|]. simpl.
  destruct (allows_write pr) eqn:E; [|done]. by rewrite (allows_write_read pr E).
Qed.

Lemma take_le_bytes_8 v : take 8 (le_bytes 8 v) = le_bytes 8 v.
Proof. by rewrite take_ge by (by rewrite length_le_bytes). Qed.

(** A 64-bit store that succeeded. *)
Lemma write_mem_value_8 a v c c' :
  cpu_ok c → in_u64 a → write_mem_value a v 8 c = (c', XOk tt) →
  cpu_ok c' ∧ cregs c' = cregs c ∧ stored (cmem c) (cmem c') ∧
  spc (cmem c) a 8 Write = Ok tt ∧ bytes_set (cmem c) a (le_bytes 8 v) (cmem c').
Proof.
  intros [Hg Hr] Ha. unfold write_mem_value. rewrite decide_False by lia. rewrite take_le_bytes_8.
  unfold xmem. destruct (mem_write_spec (cmem c) a (le_bytes 8 v) Hg Ha) as (g & -> & Hg' & Hst & Hb);
    [by rewrite length_le_bytes|apply le_bytes_byte|].
  rewrite length_le_bytes in *. change (Z.of_nat 8) with 8 in *.
  destruct (spc (cmem c) a 8 Write) as [[]|e|w]; [|done..]. intros [= <-]. by split_and!.
Qed.

(** A 64-bit load of bytes the guest sees. *)
Lemma mem_read_word_back g a v :
  mem_ok g → in_u64 a → in_u64 v → spc g a 8 Read = Ok tt →
  (∀ i, (i < 8)%nat → gbyte g (a + Z.of_nat i) = le_bytes 8 v !! i) →
  ∃ g' bs, mem_read_n a 8 g = (g', Ok bs) ∧ same_but_cache g g' ∧ mem_ok g' ∧ le_val bs = v.
Proof.
  intros Hg Ha Hv Hs Hb. destruct (mem_read_n_spec g a 8 Hg Ha) as (g' & Hsame & Hg' & Hr); [done|].
  change (Z.of_nat 8) with 8 in Hr. rewrite Hs in Hr. destruct Hr as (bs & -> & Hl & _ & Hbs).
  exists g', bs. split_and!; try done. assert (bs = le_bytes 8 v) as ->.
  { apply list_eq. intros i. destruct (decide (i < 8)%nat) as [Hi|Hi]; [by rewrite Hbs, Hb|].
    rewrite !lookup_ge_None_2; [done|rewrite length_le_bytes; lia|lia]. }
  rewrite le_val_le_bytes. by apply Z.mod_small.
Qed.

Section Api.
Context `{IcedLaws}.

(** What a CALL that went through did. *)
Lemma exec_call_effect instr next c c' :
  cpu_ok c → in_u64 next → exec_call instr next c = (c', XOk tt) →
  ∃ c1 target, branch_target instr c = (c1, XOk target) ∧ cpu_ok c1 ∧ stored (cmem c) (cmem c1) ∧
    let sp := wrapping_sub (rsp (cregs c1)) 8 in
    cpu_ok c' ∧ stored (cmem c1) (cmem c') ∧ cregs c' = set_rip target (set_rsp sp (cregs c1)) ∧
    spc (cmem c1) sp 8 Write = Ok tt ∧ bytes_set (cmem c1) sp (le_bytes 8 next) (cmem c').
Proof.
  intros Hc Hnext. pose proof (safe_branch_target instr c Hc) as (H4 & H5 & H6).
  unfold exec_call, push_n, set_rip', xget, xmod, mbind, X_bind.
  destruct (branch_target instr c) as [c1 [target|e|w]]; [|done..]. simpl in *.
  destruct (write_mem_value _ next 8 c1) as [c2 [[]|e|w]] eqn:Ew; [|done..]. intros [= <-].
  apply write_mem_value_8 in Ew as (Hc2 & Er & Hst & Hspc & Hb); [|done|auto with word].
  exists c1, target. split_and!; try done; [|by rewrite Er]. destruct Hc2 as [? Hr2]. split; [done|].
  simpl. auto with regs word.
Qed.
End Api.

(** The call protocol of the emulated API: after a guest CALL that went through, whatever
    the handler did to registers and memory short of the stack pointer, the return
    slot and the page map, [return_from_win64_api] resumes the guest after the
    CALL with the result in RAX and the stack pointer the caller had, and changes
    no byte and no other register. *)
Theorem api_call_returns `{IcedLaws} instr next c c' value g i :
  cpu_ok c → in_u64 next → in_u64 value →
  exec_call instr next c = (c', XOk tt) →
  8 ≤ rsp (cregs c) →
  op_kind instr 0 = OpKind.NearBranch64 →
  (* the state the handler leaves *)
  mem_ok g → regs_ok (i_regs i) → gview g = gview (cmem c') → rsp (i_regs i) = rsp (cregs c') →
  (∀ x, rsp (cregs c') ≤ x < rsp (cregs c') + 8 → gbyte g x = gbyte (cmem c') x) →
  ∃ g' i', return_from_win64_api value (g, i) = ((g', i'), Ok next) ∧
    rip (i_regs i') = next ∧ rax (i_regs i') = value ∧ rsp (i_regs i') = rsp (cregs c) ∧
    (∀ n, n ≠ 0%nat → n ≠ 4%nat → gpr (i_regs i') n = gpr (i_regs i) n) ∧
    rflags (i_regs i') = rflags (i_regs i) ∧ same_but_cache g g'.
Proof.
  intros Hc Hnext Hval Hcall Hlow Hk Hg Hri Hview Hsp Hbytes.
  destruct (exec_call_effect instr next c c' Hc Hnext Hcall) as (c1 & target & Ebt & Hc1 & Hst1 & Hc' & Hst & Er & Hspc & Hset).
  assert (Hc1c : c1 = c) by (unfold branch_target in Ebt; rewrite Hk in Ebt; by injection Ebt).
  subst c1. set (sp := wrapping_sub (rsp (cregs c)) 8) in *.
  assert (Hspv : sp = rsp (cregs c) - 8).
  { pose proof (regs_rsp _ (co_regs _ Hc)). unfold in_u64 in *. unfold sp, wrapping_sub, wrap64. apply Z.mod_small. lia. }
  assert (Hsp' : rsp (cregs c') = sp).
  { rewrite Er. unfold rsp, set_rip, set_rsp. simpl. pose proof (co_regs _ Hc) as [Hwf _ _ _ _].
    change (gpr (set_gpr 4 sp (cregs c)) 4 = sp). by rewrite gpr_set_gpr by (done || lia). }
  assert (Hin : in_u64 sp) by (unfold sp; auto with word). rewrite Hsp' in *.
  destruct (mem_read_word_back g sp next Hg Hin Hnext) as (g' & bs & E & Hs & _ & Hv).
  { rewrite (spc_view (cmem c)) by (by rewrite Hview, (st_view _ _ Hst)). by apply spc_write_read. }
  { intros k Hk8. rewrite Hbytes, Hset by lia. rewrite length_le_bytes, decide_True by lia. f_equal. lia. }
  unfold return_from_win64_api. cbv zeta. cbn [fst snd]. rewrite Hsp, E, Hv.
  eexists _, _. split; [reflexivity|]. pose proof (ro_wf _ Hri) as Hwf.
  assert (Hw1 : regs_wf (set_rsp (wrapping_add sp 8) (i_regs i))) by (apply regs_wf_set; auto with word).
  unfold rsp, rax, with_regs, set_rip. simpl.
  split_and!; try done.
  - change (gpr (set_rax value (set_rsp (wrapping_add sp 8) (i_regs i))) 0 = value).
    unfold set_rax. by rewrite gpr_set_gpr by (done || lia).
  - change (gpr (set_rax value (set_rsp (wrapping_add sp 8) (i_regs i))) 4 = gpr (cregs c) 4).
    unfold set_rax. rewrite gpr_set_gpr by (done || lia). rewrite decide_False by done.
    unfold set_rsp. rewrite gpr_set_gpr, decide_True by (done || lia).
    unfold wrapping_add, wrap64. rewrite Hspv. unfold rsp. rewrite Z.sub_add. apply Z.mod_small, (regs_rsp _ (co_regs _ Hc)).
  - intros n Hn0 Hn4. change (gpr (set_rax value (set_rsp (wrapping_add sp 8) (i_regs i))) n = gpr (i_regs i) n).
    unfold set_rax, set_rsp. rewrite !gpr_set_gpr by (done || lia). by rewrite !decide_False by done.
Qed.

#[local] Existing Instance demo_os.
#[local] Existing Instance demo_laws.

(** CALL +0 at the base of the demo machine, then a handler that only returns 7. *)
Lemma api_call_returns_witness :
  let c := demo_cpu [0xe8; 0; 0; 0; 0] id in
  ∃ instr c' g' i', decode demo_base [0xe8; 0; 0; 0; 0] = Some instr ∧
    exec_call instr (demo_base + 5) c = (c', XOk tt) ∧
    return_from_win64_api 7 (cmem c', with_regs (cregs c') new_engine) = ((g', i'), Ok (demo_base + 5)) ∧
    rip (i_regs i') = demo_base + 5 ∧ rax (i_regs i') = 7 ∧ rsp (i_regs i') = demo_base + 0x8000.
Proof.
  intros c. assert (Hc : cpu_ok c).
  { apply demo_cpu_ok; [|done|done]. repeat constructor; by vm_compute. }
  destruct (decode demo_base [0xe8; 0; 0; 0; 0]) as [instr|] eqn:Ed; [|exfalso; revert Ed; by vm_compute].
  assert (Hcall : exists c', exec_call instr (demo_base + 5) c = (c', XOk tt)).
  { exists (exec_call instr (demo_base + 5) c).1.
    assert (E : (exec_call instr (demo_base + 5) c).2 = XOk tt)
      by (revert Ed; intros [= <-]; vm_compute; reflexivity).
    by destruct (exec_call instr (demo_base + 5) c) as [? ?]; simpl in E; subst. }
  destruct Hcall as [c' Hcall].
  assert (Hn : in_u64 (demo_base + 5)) by (by vm_compute).
  destruct (exec_call_effect instr (demo_base + 5) c c' Hc Hn Hcall) as (_ & _ & _ & _ & _ & Hc' & _).
  destruct (api_call_returns instr (demo_base + 5) c c' 7 (cmem c') (with_regs (cregs c') new_engine)
    Hc Hn) as (g' & i' & Hr & Hrip & Hrax & Hrsp & _); try done; try apply Hc'.
  - revert Ed. by intros [= <-].
  - by exists instr, c', g', i'.
Defined.

(** ** Steps and runs *)

(** C2 Any step of any program, over any decoder, on a well-formed machine whose
    host pages let the emulator do what the guest may do there ([host_grants], which
    is part of [cpu_ok]): the emulator process is never killed and no internal
    bound is hit; the machine stays well formed; guest bytes change only
    on committed writable pages, and the page map, the VAD table, the arenas and the
    host protections not at all; an instruction that faults or fails leaves RIP on
    itself; a host stop leaves all registers alone and happens exactly at the
    addresses the window names.  [host_grants] always holds with WIE_MPROTECT=0;
    with the mirroring of protections, the default, it holds as long as no host page
    has less than the guest's right ([mirrored_host_grants]); a page decommitted and
    committed again can have a stale protection, and there the emulator can die
    ([stale_host_protection_faults]). *)
Theorem step_safe `{IcedLaws, !NanChoice} bulk now hook c c' r :
  cpu_ok c → step bulk now hook c = (c', r) →
  cpu_ok c' ∧
  (∀ x, gbyte (cmem c') x ≠ gbyte (cmem c) x → may_write (cmem c) x) ∧
  gview (cmem c') = gview (cmem c) ∧ vads (cmem c') = vads (cmem c) ∧
  arenas (backend (cmem c')) = arenas (backend (cmem c)) ∧
  h_prot (os_state (backend (cmem c'))) = h_prot (os_state (backend (cmem c))) ∧
  (stops_at hook (rip (cregs c)) = true → ∃ n, r = Ok (HostStop (rip (cregs c)) n)) ∧
  match r with
  | Ok Continue => stops_at hook (rip (cregs c)) = false
  | Ok (HostStop a _) => a = rip (cregs c) ∧ stops_at hook a = true ∧ cregs c' = cregs c
  | Ok (StepInvalidMemory _) | Err _ => rip (cregs c') = rip (cregs c)
  | Abort _ => False
  end.
Proof.
  intros Hc E. pose proof (step_holds bulk now hook c Hc) as Hs. rewrite E in Hs.
  destruct Hs as (Hc' & [] & Hr). split_and!; try done.
  - intros Hstop. revert E. unfold step. rewrite Hstop.
    destruct (fetch15_spec (rip (cregs c)) c Hc (ro_rip _ (co_regs _ Hc))) as (c1 & r1 & E1 & _ & _ & _ & Hr1).
    unfold mbind, M_bind, peek_insn_len. rewrite E1. destruct r1; [intros [= _ <-]; eauto..|done].
  - destruct r as [[| |]| |]; naive_solver.
Qed.

(** The byte store of [88 08] (mov [rax], cl) to the data half of the allocation. *)
Definition store_cpu : cpu := demo_cpu [0x88; 0x08] (λ r, set_rcx 0x5a (set_rax (demo_base + 0x4000) r)).
Lemma store_cpu_ok : cpu_ok store_cpu.
Proof.
  apply demo_cpu_ok; [repeat constructor; by vm_compute|done|].
  intros r Hr. apply ok_set_rcx; [apply ok_set_rax; [done|]|]; by vm_compute.
Qed.

Lemma step_safe_witness :
  let out := step None 0 None store_cpu in
  cpu_ok out.1 ∧ gbyte (cmem out.1) (demo_base + 0x4000) = Some 0x5a ∧ may_write (cmem store_cpu) (demo_base + 0x4000).
Proof.
  intros out. destruct (step_safe None 0 None store_cpu out.1 out.2 store_cpu_ok) as (H1 & H2 & _);
    [apply surjective_pairing|].
  assert (Hb : gbyte (cmem out.1) (demo_base + 0x4000) = Some 0x5a) by (unfold out; vm_compute; reflexivity).
  assert (H0 : gbyte (cmem store_cpu) (demo_base + 0x4000) = Some 0) by (vm_compute; reflexivity).
  split; [exact H1|]. split; [exact Hb|]. apply H2. rewrite Hb, H0. discriminate.
Defined.

(** C9 From a well-formed engine whose host pages let the emulator do what the
    guest may do there ([host_grants], part of [engine_ok]: always with
    WIE_MPROTECT=0, and under the default mirroring of protections as long as no
    host page has a stale one, [stale_host_protection_faults]), running until a
    stop returns, after at most the budget of instructions, each counted once: with the address of a host stop the guest reached, with
    the access that faulted, or with neither, and then the budget is used up or the
    guest is at the address asked for.  An error comes before the budget is used
    up. *)
Theorem run_until_stop_spec `{IcedLaws, !NanChoice} bulk now begin until count s :
  engine_ok s → in_u64 begin → in_u64 count →
  ∃ s' r n, run_until_stop bulk now begin until count s = (s', r) ∧
    engine_ok s' ∧ stored s.1 s'.1 ∧ 0 ≤ n ≤ run_budget count ∧
    iced_steps s'.2 = sat_add (iced_steps s.2) n ∧
    match r with
    | Ok o =>
        if ch_hit (code o)
        then stops_at (hooks s.2) (ch_address (code o)) = true ∧ ch_address (code o) = rip (i_regs s'.2) ∧
             ia_hit (invalid_memory o) = false
        else ia_hit (invalid_memory o) = false → n = run_budget count ∨ (until ≠ 0 ∧ rip (i_regs s'.2) = until)
    | Err _ => n < run_budget count
    | Abort _ => False
    end.
Proof.
  intros Hs Hb Hc. destruct (run_until_stop_holds bulk now begin until count s Hs Hb Hc) as (n & H1' & H2' & _ & H3' & H4' & H5').
  destruct (run_until_stop bulk now begin until count s) as [s' r]. exists s', r, n. simpl in *. split_and!; try done; try apply H3'.
  destruct r as [o|e|w]; [|done..]. destruct H5' as [Ht Hf]. destruct (ch_hit (code o)); auto.
Qed.

(** Four NOPs run to the fourth. *)
Definition nops_engine : GuestMemory * IcedCpu := (demo_machine [0x90; 0x90; 0x90; 0x90], new_engine).
Lemma nops_engine_ok : engine_ok nops_engine.
Proof.
  split; [|by vm_compute]. split; [|apply demo_regs_ok].
  apply demo_machine_ok; [repeat constructor; by vm_compute|done].
Qed.
Lemma run_until_stop_spec_witness :
  ∃ s' r n, run_until_stop None (λ _, 0) demo_base (demo_base + 3) 100 nops_engine = (s', r) ∧
    0 ≤ n ≤ 100 ∧ iced_steps s'.2 = sat_add 0 n ∧ rip (i_regs s'.2) = demo_base + 3.
Proof.
  destruct (run_until_stop_spec None (λ _, 0) demo_base (demo_base + 3) 100 nops_engine nops_engine_ok)
    as (s' & r & n & E & _ & _ & Hn & Hsteps & _); [by vm_compute..|].
  exists s', r, n. split; [exact E|]. split; [exact Hn|]. split; [exact Hsteps|].
  assert (Hr : rip (i_regs (run_until_stop None (λ _, 0) demo_base (demo_base + 3) 100 nops_engine).1.2) = demo_base + 3)
    by (vm_compute; reflexivity).
  by rewrite E in Hr.
Defined.

(** The ring after pushing [h]. *)
Definition push_all (h : list u64) : IcedCpu := foldl (λ i a, push_rip_trace a i) new_engine h.

Lemma push_all_holds h : trace_holds h (push_all h).
Proof.
  induction h as [|a h IH] using rev_ind; [apply trace_holds_new|].
  unfold push_all. rewrite foldl_app. by apply trace_holds_push.
Qed.

(** The ring buffer of instruction pointers is the last 32 of the addresses pushed,
    oldest first, however many times it wrapped. *)
Theorem rip_trace_spec h :
  Z.of_nat (length h) < u64_lim → rip_trace_vec (push_all h) = drop (length h - RIP_TRACE_CAP) h.
Proof. intros Hl. by apply trace_vec_holds, Hl; first apply push_all_holds. Qed.
Lemma rip_trace_spec_witness : rip_trace_vec (push_all (seqZ 0 40)) = seqZ 8 32.
Proof. etrans; [apply (rip_trace_spec (seqZ 0 40)); by vm_compute|]. by vm_compute. Defined.
