(* ===== verification/word_spec.v ===== *)
(** * Bit operations of the interpreter as arithmetic

    Masks, sign extension and the halves of double-width numbers, and what the
    registers named by [names_gpr] read and write, all as numbers modulo 2^k. *)

From S2P Require Import Prelude protect pagemap vad arena region mem mem_access mem_ops mem_safe.
From S2P Require Import regs regs_safe insn exec exec_string exec_wf.

(** ** Widths *)

(** The operand widths of integer instructions, in bytes. *)
Definition width_ok (size : nat) : Prop := size ∈ [1; 2; 4; 8]%nat.
#[global] Instance width_ok_dec size : Decision (width_ok size) := ltac:(unfold width_ok; apply _).
Definition bits_of (size : nat) : Z := 8 * Z.of_nat size.

Lemma width_cases size : width_ok size → size = 1%nat ∨ size = 2%nat ∨ size = 4%nat ∨ size = 8%nat.
Proof. unfold width_ok. rewrite !elem_of_cons, elem_of_nil. tauto. Qed.

Lemma bits_bound size : width_ok size → 8 ≤ bits_of size ≤ 64.
Proof. intros Hs. apply width_cases in Hs as [-> |[-> |[-> | ->]]]; by vm_compute. Qed.

Lemma pow_bits_pos k : 0 ≤ k → 0 < 2 ^ k.
Proof. intros Hk. by apply Z.pow_pos_nonneg. Qed.

Lemma mod_mod_pow x a b : 0 ≤ a ≤ b → (x mod 2 ^ b) mod 2 ^ a = x mod 2 ^ a.
Proof.
  intros Hab. apply Z.mod_mod_divide. exists (2 ^ (b - a)). rewrite <- Z.pow_add_r by lia. f_equal. lia.
Qed.
Lemma wrap64_mod x k : 0 ≤ k ≤ 64 → wrap64 x mod 2 ^ k = x mod 2 ^ k.
Proof. intros Hk. unfold wrap64. change u64_lim with (2 ^ 64). by apply mod_mod_pow. Qed.

(** ** Two halves *)

Lemma lor_add hi lo w : 0 ≤ w → 0 ≤ lo < 2 ^ w → Z.lor (hi * 2 ^ w) lo = hi * 2 ^ w + lo.
Proof.
  intros Hw Hlo. rewrite <- Z.add_lor_land. rewrite <- (Z.add_0_r (Z.lor _ _)) at 1. f_equal. symmetry.
  apply Z.bits_inj'. intros n Hn. rewrite Z.land_spec, Z.bits_0, <- Z.shiftl_mul_pow2, Z.shiftl_spec by lia.
  destruct (decide (n < w)); [by rewrite Z.testbit_neg_r by lia|]. by rewrite (bits_small lo w), andb_false_r by lia.
Qed.

Lemma ldiff_low x w : 0 ≤ w → Z.ldiff x (2 ^ w - 1) = x - x mod 2 ^ w.
Proof.
  intros Hw. replace (2 ^ w - 1) with (Z.ones w) by (rewrite Z.ones_equiv; lia).
  rewrite Z.ldiff_ones_r by done. rewrite Z.shiftl_mul_pow2, Z.shiftr_div_pow2 by done.
  pose proof (Z.div_mod x (2 ^ w)). pose proof (pow_bits_pos w Hw). lia.
Qed.

Lemma replace_low old v w :
  0 ≤ w → Z.lor (Z.ldiff old (2 ^ w - 1)) (Z.land v (2 ^ w - 1)) = old - old mod 2 ^ w + v mod 2 ^ w.
Proof.
  intros Hw. rewrite ldiff_low, land_low by done. pose proof (pow_bits_pos w Hw).
  replace (old - old mod 2 ^ w) with (old / 2 ^ w * 2 ^ w).
  - apply lor_add; [done|]. by apply Z.mod_pos_bound.
  - pose proof (Z.div_mod old (2 ^ w)). lia.
Qed.

(** ** Signed numbers *)

Lemma as_i_signed k x : as_i k x = signed k (x mod 2 ^ k).
Proof. done. Qed.

Lemma signed_range k x : 0 < k → 0 ≤ x < 2 ^ k → - 2 ^ (k - 1) ≤ signed k x < 2 ^ (k - 1).
Proof. intros Hk Hx. destruct (pow_half k Hk). unfold signed. case_decide; lia. Qed.

Lemma signed_mod k x : 0 < k → 0 ≤ x < 2 ^ k → signed k x mod 2 ^ k = x.
Proof.
  intros Hk Hx. unfold signed. case_decide; [by apply Z.mod_small|]. symmetry. apply Z.mod_unique with (-1); lia.
Qed.

(** A number of [k] signed bits is its own reading. *)
Lemma signed_of_range k x : 0 < k → - 2 ^ (k - 1) ≤ x < 2 ^ (k - 1) → signed k (x mod 2 ^ k) = x.
Proof.
  intros Hk Hx. destruct (pow_half k Hk). unfold signed. destruct (decide (0 ≤ x)).
  - rewrite Z.mod_small, decide_True by lia. done.
  - replace (x mod 2 ^ k) with (x + 2 ^ k); [rewrite decide_False by lia; lia|].
    apply Z.mod_unique with (-1); lia.
Qed.

(** Shifting left and arithmetically right by [64 - k] sign-extends. *)
Lemma shl_shr_signed k v :
  0 < k ≤ 64 → shr_i 64 (shl_i 64 (as_i 64 v) (64 - k)) (64 - k) = signed k (v mod 2 ^ k).
Proof.
  intros Hk. destruct (decide (k = 64)) as [->|].
  { unfold shr_i, shl_i. rewrite Z.sub_diag, Z.mod_0_l, Z.shiftl_0_r, Z.shiftr_0_r by lia.
    rewrite !as_i_signed. rewrite signed_mod; [done|lia|]. apply Z.mod_pos_bound. lia. }
  unfold shr_i, shl_i. rewrite Z.mod_small by lia. rewrite as_i_signed.
  rewrite Z.shiftl_mul_pow2, Z.shiftr_div_pow2 by lia.
  assert (Hp : 2 ^ 64 = 2 ^ k * 2 ^ (64 - k)) by (rewrite <- Z.pow_add_r by lia; f_equal; lia).
  pose proof (pow_bits_pos (64 - k) ltac:(lia)) as Hq. destruct (pow_half k ltac:(lia)) as [Hk1 Hk2].
  assert (Hmod : (as_i 64 v * 2 ^ (64 - k)) mod 2 ^ 64 = v mod 2 ^ k * 2 ^ (64 - k)).
  { rewrite Hp, Z.mul_mod_distr_r by lia. f_equal. rewrite as_i_signed.
    rewrite <- (mod_mod_pow (signed 64 _) k 64), signed_mod by (lia || (apply Z.mod_pos_bound; lia)).
    apply mod_mod_pow. lia. }
  rewrite Hmod. pose proof (Z.mod_pos_bound v (2 ^ k) ltac:(lia)) as Hm. set (x := v mod 2 ^ k) in *.
  assert (Hhalf : 2 ^ (64 - 1) = 2 ^ (k - 1) * 2 ^ (64 - k)) by (rewrite <- Z.pow_add_r by lia; f_equal; lia).
  unfold signed. rewrite Hhalf, Hp.
  destruct (decide (x < 2 ^ (k - 1))); [rewrite decide_True by nia|rewrite decide_False by nia].
  - by rewrite Z.div_mul by lia.
  - rewrite <- Z.mul_sub_distr_r. by rewrite Z.div_mul by lia.
Qed.

Lemma sign_extend_spec v size : width_ok size → sign_extend v size = signed (bits_of size) (v mod 2 ^ bits_of size).
Proof.
  intros Hs. pose proof (bits_bound size Hs). unfold sign_extend.
  rewrite <- shl_shr_signed by lia. unfold bits_of in *. rewrite Z.min_l by lia. unfold sat_sub.
  rewrite Z.max_l by lia. by rewrite (Z.mul_comm 8).
Qed.

(** ** Named registers *)

(** A register after a write of [size] bytes. *)
Definition put (size : nat) (old v : Z) : Z :=
  match size with
  | 1%nat | 2%nat => old - old mod 2 ^ bits_of size + v mod 2 ^ bits_of size
  | _ => v mod 2 ^ bits_of size
  end.

Lemma put_low size old v : width_ok size → put size old v mod 2 ^ bits_of size = v mod 2 ^ bits_of size.
Proof.
  intros Hs. pose proof (bits_bound size Hs) as Hb. pose proof (pow_bits_pos (bits_of size) ltac:(lia)) as Hp.
  assert (Hm : (old - old mod 2 ^ bits_of size + v mod 2 ^ bits_of size) mod 2 ^ bits_of size = v mod 2 ^ bits_of size).
  { replace (old - old mod 2 ^ bits_of size) with (old / 2 ^ bits_of size * 2 ^ bits_of size)
      by (pose proof (Z.div_mod old (2 ^ bits_of size)); lia).
    by rewrite Z.add_comm, Z.mod_add, Z.mod_mod by lia. }
  unfold put. apply width_cases in Hs as [-> |[-> |[-> | ->]]]; try exact Hm; by rewrite Z.mod_mod by lia.
Qed.

Section Named.
Context `{IcedLaws}.
Implicit Types (r : RegFile).

Lemma named_index reg n size : names_gpr reg n size → (n < 16)%nat.
Proof.
  intros (_ & _ & _ & Hi & _). unfold gpr_index in Hi. destruct (bool_decide (_ < 16)%nat) eqn:E; [|done].
  destruct (bool_decide (_ = 8%nat)); [|done]. injection Hi as <-. by apply bool_decide_eq_true in E.
Qed.

Lemma read_named reg n size r :
  regs_ok r → names_gpr reg n size → width_ok size → read_reg r reg = Ok (gpr r n mod 2 ^ bits_of size).
Proof.
  intros Hr (Hnone & Hrip & Hh & Hi & Hsz) Hs. unfold read_reg. rewrite !decide_False by done. rewrite Hh, Hi.
  unfold mbind, res_bind. simpl. rewrite Hsz. pose proof (regs_gpr r n Hr) as Hg.
  apply width_cases in Hs as [-> |[-> |[-> | ->]]]; f_equal.
  - apply (land_low _ 8). lia.
  - apply (land_low _ 16). lia.
  - apply (land_low _ 32). lia.
  - symmetry. by apply Z.mod_small.
Qed.

Lemma write_named reg n size v r :
  names_gpr reg n size → width_ok size → in_u64 v →
  write_reg reg v r = (set_gpr n (put size (gpr r n) v) r, Ok tt).
Proof.
  intros (Hnone & Hrip & Hh & Hi & Hsz) Hs Hv. unfold write_reg. rewrite !decide_False by done. rewrite Hh, Hi, Hsz.
  apply width_cases in Hs as [-> |[-> |[-> | ->]]]; do 2 f_equal.
  - apply (replace_low _ _ 8). lia.
  - apply (replace_low _ _ 16). lia.
  - apply (land_low _ 32). lia.
  - symmetry. by apply Z.mod_small.
Qed.
End Named.

(** ** Bodies that went through *)

Lemma xbind_ok {A B} (m : X A) (f : A → X B) c c' b :
  (m ≫= f) c = (c', XOk b) → ∃ c1 a, m c = (c1, XOk a) ∧ f a c1 = (c', XOk b).
Proof. unfold mbind, X_bind. destruct (m c) as [c1 [a|e|w]]; [eauto|done..]. Qed.

Lemma xbind_eq {A B} (m : X A) (f : A → X B) c c1 a : m c = (c1, XOk a) → (m ≫= f) c = f a c1.
Proof. unfold mbind, X_bind. by intros ->. Qed.

(** A safe body that went through. *)
Lemma safe_ok {A} (m : X A) Q c c' a :
  safe m Q → cpu_ok c → m c = (c', XOk a) → cpu_ok c' ∧ stored (cmem c) (cmem c') ∧ Q a.
Proof. intros Hm Hc E. specialize (Hm c Hc). by rewrite E in Hm. Qed.

(** * Condition codes

    What the conditions of jumps, moves and sets ask of two compared numbers. *)

From S2P Require Import Prelude protect pagemap vad arena region mem.
From S2P Require Import regs regs_safe insn exec exec_string exec_sse exec_one.

(** ** Comparisons *)

(** What a conditional jump asks after a comparison of the [k]-bit numbers [d] and [s]. *)
Definition comparison (m : Mnemonic) (k d s : Z) : option bool :=
  match m with
  | Mnemonic.Je => Some (bool_decide (d = s))
  | Mnemonic.Jne => Some (bool_decide (d ≠ s))
  | Mnemonic.Ja => Some (bool_decide (s < d))
  | Mnemonic.Jae => Some (bool_decide (s ≤ d))
  | Mnemonic.Jb => Some (bool_decide (d < s))
  | Mnemonic.Jbe => Some (bool_decide (d ≤ s))
  | Mnemonic.Jg => Some (bool_decide (signed k s < signed k d))
  | Mnemonic.Jge => Some (bool_decide (signed k s ≤ signed k d))
  | Mnemonic.Jl => Some (bool_decide (signed k d < signed k s))
  | Mnemonic.Jle => Some (bool_decide (signed k d ≤ signed k s))
  | Mnemonic.Jo => Some (negb (bool_decide (- 2 ^ (k - 1) ≤ signed k d - signed k s < 2 ^ (k - 1))))
  | Mnemonic.Jno => Some (bool_decide (- 2 ^ (k - 1) ≤ signed k d - signed k s < 2 ^ (k - 1)))
  | _ => None
  end.

(** The conditional move and set of a conditional jump. *)
Definition cmov_of (m : Mnemonic) : Mnemonic :=
  match m with
  | Mnemonic.Je => Mnemonic.Cmove | Mnemonic.Jne => Mnemonic.Cmovne
  | Mnemonic.Ja => Mnemonic.Cmova | Mnemonic.Jae => Mnemonic.Cmovae
  | Mnemonic.Jb => Mnemonic.Cmovb | Mnemonic.Jbe => Mnemonic.Cmovbe
  | Mnemonic.Jg => Mnemonic.Cmovg | Mnemonic.Jge => Mnemonic.Cmovge
  | Mnemonic.Jl => Mnemonic.Cmovl | Mnemonic.Jle => Mnemonic.Cmovle
  | Mnemonic.Jo => Mnemonic.Cmovo | Mnemonic.Jno => Mnemonic.Cmovno
  | m => m
  end.
Definition setcc_of (m : Mnemonic) : Mnemonic :=
  match m with
  | Mnemonic.Je => Mnemonic.Sete | Mnemonic.Jne => Mnemonic.Setne
  | Mnemonic.Ja => Mnemonic.Seta | Mnemonic.Jae => Mnemonic.Setae
  | Mnemonic.Jb => Mnemonic.Setb | Mnemonic.Jbe => Mnemonic.Setbe
  | Mnemonic.Jg => Mnemonic.Setg | Mnemonic.Jge => Mnemonic.Setge
  | Mnemonic.Jl => Mnemonic.Setl | Mnemonic.Jle => Mnemonic.Setle
  | Mnemonic.Jo => Mnemonic.Seto | Mnemonic.Jno => Mnemonic.Setno
  | m => m
  end.

Lemma bool_decide_eq_iff (P Q : Prop) `{Decision P, Decision Q} : bool_decide P = bool_decide Q → (P ↔ Q).
Proof. repeat case_bool_decide; done || tauto. Qed.

(** Flags of a difference answer the comparisons. *)
Lemma comparison_flags m k d s r r' b aux :
  0 < k → 0 ≤ d < 2 ^ k → 0 ≤ s < 2 ^ k →
  flags_after r r' k ((d - s) mod 2 ^ k) (bool_decide (d < s))
    (negb (bool_decide (- 2 ^ (k - 1) ≤ signed k d - signed k s < 2 ^ (k - 1)))) aux →
  comparison m k d s = Some b → cond_from_jcc m r' = b.
Proof.
  intros Hk Hd Hs [Hcf Hzf Hsf Hof _ _ _ _] Hm. destruct (pow_half k Hk) as [Hp Hp1].
  assert (Hdiff : (d - s) mod 2 ^ k = d - s + (if decide (d < s) then 2 ^ k else 0)).
  { destruct (decide (d < s)); symmetry; [apply Z.mod_unique with (-1)|apply Z.mod_unique with 0]; lia. }
  change (flag_at r' nCF) with (flag r' CF) in Hcf. change (flag_at r' nZF) with (flag r' ZF) in Hzf.
  change (flag_at r' nSF) with (flag r' SF) in Hsf. change (flag_at r' nOF) with (flag r' OF_) in Hof.
  assert (Hz : flag r' ZF = bool_decide (d = s)).
  { rewrite Hzf, Hdiff. apply bool_decide_ext. destruct (decide (d < s)); lia. }
  assert (Hso : Bool.eqb (flag r' SF) (flag r' OF_) = bool_decide (signed k s ≤ signed k d)).
  { rewrite Hsf, Hof, Hdiff. apply eq_true_iff_eq. rewrite eqb_true_iff, <- bool_decide_not, bool_decide_eq_true.
    clear -Hd Hs Hp Hp1. unfold signed.
    destruct (decide (d < s)), (decide (d < 2 ^ (k - 1))), (decide (s < 2 ^ (k - 1)));
      (split; [intros Hb; apply bool_decide_eq_iff in Hb; lia|intros; apply bool_decide_ext; lia]). }
  assert (Hsd : signed k d = signed k s ↔ d = s).
  { unfold signed. destruct (decide (d < 2 ^ (k - 1))), (decide (s < 2 ^ (k - 1))); lia. }
  destruct m; try discriminate Hm; injection Hm as <-; simpl; rewrite ?Hcf, ?Hz, ?Hso, ?Hof, ?negb_involutive;
    repeat case_bool_decide; simpl; try done; exfalso; try tauto; lia.
Qed.

Lemma cond_families m k d s b r :
  comparison m k d s = Some b →
  cond_from_cmov (cmov_of m) r = cond_from_jcc m r ∧ cond_from_setcc (setcc_of m) r = cond_from_jcc m r.
Proof. by destruct m. Qed.
