(* ===== verification/arith_spec.v ===== *)
(** * What the arithmetic instructions compute *)

From S2P Require Import Prelude protect pagemap vad arena region mem mem_access mem_ops mem_safe.
From S2P Require Import regs regs_safe insn exec exec_string exec_sse exec_one exec_wf exec_safe.
From S2P Require Import word_spec mem_demo exec_demo.

(** ** Bodies that leave the registers alone *)

Definition keeps {A} (m : X A) : Prop := ∀ c, cregs (m c).1 = cregs c.

Lemma keeps_bind {A B} (m : X A) (f : A → X B) : keeps m → (∀ a, keeps (f a)) → keeps (m ≫= f).
Proof.
  intros Hm Hf c. specialize (Hm c). unfold mbind, X_bind. destruct (m c) as [c1 [a|e|w]]; simpl in *; [|done..].
  by rewrite Hf.
Qed.
Lemma keeps_mem {A} (m : M GuestMemory A) e : keeps (xmem m e).
Proof. intros c. unfold xmem. by destruct (m (cmem c)) as [g [a|?|w]]. Qed.
Lemma keeps_res {A} (f : RegFile → res A) : keeps (xres_of f).
Proof. intros c. unfold xres_of, xregs. by destruct (f (cregs c)). Qed.
Ltac keeps :=
  repeat (cbv zeta;
  match goal with
  | |- keeps (mbind _ (match ?x with _ => _ end)) => destruct x
  | |- keeps (mbind _ _) => apply keeps_bind; [|intros ?]
  | |- keeps (match ?x with _ => _ end) => destruct x
  | |- keeps (xmem _ _) => apply keeps_mem
  | |- keeps (xres_of _) => apply keeps_res
  | |- keeps _ => done
  end).

(** ** Reading a flag after a chain of updates *)

(** Any of the six flags right after it was set, or not touched by another. *)
Lemma flag_at_set r k on j :
  j ∈ status_flags → 0 ≤ k → k ≠ 1 →
  flag_at (set_flag (Z.shiftl 1 k) on r) j = if decide (j = k) then on else flag_at r j.
Proof.
  intros Hj Hk Hk1. apply flag_set_flag; try done; unfold status_flags in Hj; set_unfold in Hj; lia.
Qed.

(** An update of one flag after the others were read. *)
Lemma flag_other r k on j :
  j ∈ status_flags → 0 ≤ k → k ≠ 1 → j ≠ k →
  flag (set_flag (Z.shiftl 1 k) on r) (Z.shiftl 1 j) = flag r (Z.shiftl 1 j).
Proof. intros Hj Hk Hk1 Hne. etrans; [by apply (flag_at_set r k on j)|]. by rewrite decide_False. Qed.
Lemma flag_same r k on :
  k ∈ status_flags → 0 ≤ k → k ≠ 1 → flag (set_flag (Z.shiftl 1 k) on r) (Z.shiftl 1 k) = on.
Proof. intros Hj Hk Hk1. etrans; [by apply (flag_at_set r k on k)|]. by rewrite decide_True. Qed.

Ltac flag_side := solve [lia | discriminate | apply (bool_decide_unpack _); exact I].
Ltac read_flags :=
  change CF with (Z.shiftl 1 nCF); unfold ZF, SF, PF, OF_;
  repeat first [rewrite flag_same by flag_side | rewrite flag_other by flag_side].

Section Arith.
Context `{IcedLaws}.
Implicit Types (instr : Instruction).

Lemma keeps_effective_address instr : keeps (effective_address instr).
Proof. unfold effective_address. keeps. Qed.
Lemma keeps_memory_op_size instr : keeps (memory_op_size instr).
Proof. unfold memory_op_size. keeps. Qed.
Lemma keeps_read_mem_value a n : keeps (read_mem_value a n).
Proof. unfold read_mem_value. keeps. Qed.
Lemma keeps_read_op instr n : keeps (read_op instr n).
Proof.
  unfold read_op. destruct (op_kind instr n); keeps;
    [apply keeps_effective_address|apply keeps_memory_op_size|apply keeps_read_mem_value].
Qed.

Lemma read_op_ok instr n c c' v :
  cpu_ok c → read_op instr n c = (c', XOk v) → cpu_ok c' ∧ in_u64 v ∧ cregs c' = cregs c.
Proof.
  intros Hc E. destruct (safe_ok _ _ _ _ _ (safe_read_op instr n) Hc E) as (? & _ & ?). split_and!; try done.
  pose proof (keeps_read_op instr n c) as Hk. by rewrite E in Hk.
Qed.

(** ** CMP *)

Lemma mask_mod size x : width_ok size → Z.land x (size_mask size) = x mod 2 ^ bits_of size.
Proof. apply size_mask_land. Qed.

(** After CMP every conditional jump, move and set asks the comparison its name says of
    the two operands at the operand width, unsigned or signed, overflow included;
    CMP itself changes no register and no byte. *)
Theorem cmp_then_cond instr c c1 c2 size d0 s0 :
  cpu_ok c → width_ok size →
  op_size_bytes instr 0 c = (c, XOk size) →
  read_op instr 0 c = (c1, XOk d0) → read_op instr 1 c1 = (c2, XOk s0) →
  let k := bits_of size in
  ∃ c', exec_arith instr ArithOp.Cmp c = (c', XOk tt) ∧ cmem c' = cmem c2 ∧
    gprs (cregs c') = gprs (cregs c) ∧ xmms (cregs c') = xmms (cregs c) ∧ rip (cregs c') = rip (cregs c) ∧
    ∀ m b, comparison m k (d0 mod 2 ^ k) (s0 mod 2 ^ k) = Some b →
      cond_from_jcc m (cregs c') = b ∧
      cond_from_cmov (cmov_of m) (cregs c') = b ∧ cond_from_setcc (setcc_of m) (cregs c') = b.
Proof.
  intros Hc Hs Es Ed Esrc k. destruct (read_op_ok _ _ _ _ _ Hc Ed) as (Hc1 & Hd0 & Hr1).
  destruct (read_op_ok _ _ _ _ _ Hc1 Esrc) as (Hc2 & Hs0 & Hr2).
  pose proof (bits_bound size Hs) as Hb. fold k in Hb. pose proof (pow_bits_pos k ltac:(lia)) as Hp.
  unfold exec_arith. erewrite xbind_eq by exact Es. erewrite xbind_eq by exact Ed. erewrite xbind_eq by exact Esrc.
  rewrite !mask_mod by done. fold k. set (d := d0 mod 2 ^ k). set (s := s0 mod 2 ^ k).
  assert (Hd : 0 ≤ d < 2 ^ k) by (by apply Z.mod_pos_bound). assert (Hsr : 0 ≤ s < 2 ^ k) by (by apply Z.mod_pos_bound).
  eexists. split; [reflexivity|]. cbn [cmem cregs exec.arith_flags arith_result]. rewrite Hr2, Hr1.
  assert (Hf : flags_after (cregs c) (set_sub_flags d s (wrapping_sub d s) size (cregs c)) k ((d - s) mod 2 ^ k)
    (bool_decide (d < s)) (negb (bool_decide (- 2 ^ (k - 1) ≤ signed k d - signed k s < 2 ^ (k - 1))))
    (bool_decide (d mod 16 < s mod 16))).
  { pose proof (sub_flags_spec size Hs (cregs c) d s (wrapping_sub d s)) as Hf. fold (bits_of size) in Hf. fold k in Hf.
    cbv zeta in Hf. rewrite (Z.mod_small d), (Z.mod_small s) in Hf by done.
    assert (Hw : wrapping_sub d s mod 2 ^ k = (d - s) mod 2 ^ k) by (apply wrap64_mod; lia).
    rewrite Hw in Hf. by apply Hf. }
  split; [done|]. destruct (ar_regs _ _ _ _ _ _ _ Hf) as (-> & -> & ->). split_and!; [done..|].
  intros m b Hm. pose proof (comparison_flags m k d s _ _ b _ ltac:(lia) Hd Hsr Hf Hm) as Hj.
  destruct (cond_families m k d s b (set_sub_flags d s (wrapping_sub d s) size (cregs c)) Hm) as [-> ->]. done.
Qed.

(** ** ADD, ADC, SUB, SBB, AND, OR, XOR *)

(** The result on [k]-bit operands and a carry. *)
Definition alu (op : ArithOp) (k d s cf : Z) : Z :=
  match op with
  | ArithOp.Add => (d + s) mod 2 ^ k
  | ArithOp.Adc => (d + s + cf) mod 2 ^ k
  | ArithOp.Sub | ArithOp.Cmp => (d - s) mod 2 ^ k
  | ArithOp.Sbb => (d - s - cf) mod 2 ^ k
  | ArithOp.Xor => Z.lxor d s
  | ArithOp.Or => Z.lor d s
  | ArithOp.And => Z.land d s
  end.

(** Carry out of, or borrow into, the unsigned operation. *)
Definition alu_carry (op : ArithOp) (k d s cf : Z) : bool :=
  match op with
  | ArithOp.Add => bool_decide (2 ^ k ≤ d + s)
  | ArithOp.Adc => bool_decide (2 ^ k ≤ d + s + cf)
  | ArithOp.Sub | ArithOp.Cmp => bool_decide (d < s)
  | ArithOp.Sbb => bool_decide (d < s + cf)
  | _ => false
  end.

(** Whether the signed result leaves the range; ADC's flag is not this one. *)
Definition alu_overflow (op : ArithOp) (k d s cf : Z) : option bool :=
  let out x := negb (bool_decide (- 2 ^ (k - 1) ≤ x < 2 ^ (k - 1))) in
  match op with
  | ArithOp.Add => Some (out (signed k d + signed k s))
  | ArithOp.Sub | ArithOp.Cmp => Some (out (signed k d - signed k s))
  | ArithOp.Sbb => Some (out (signed k d - signed k s - cf))
  | ArithOp.Adc => None
  | _ => Some false
  end.

Lemma arith_value op size d s cf :
  width_ok size → let k := bits_of size in
  0 ≤ d < 2 ^ k → 0 ≤ s < 2 ^ k →
  Z.land (arith_result op d s cf) (size_mask size) = alu op k d s cf.
Proof.
  intros Hs k Hd Hsr. pose proof (bits_bound size Hs) as Hb. fold k in Hb.
  rewrite mask_mod by done. fold k.
  destruct op; simpl; unfold wrapping_add, wrapping_sub; rewrite ?wrap64_mod by lia; try done.
  - by rewrite <- Zplus_mod_idemp_l, wrap64_mod, Zplus_mod_idemp_l by lia.
  - by rewrite <- Zminus_mod_idemp_l, wrap64_mod, Zminus_mod_idemp_l by lia.
  - apply Z.mod_small, lxor_bound; (done || lia).
  - apply Z.mod_small, lor_bound; (done || lia).
  - apply Z.mod_small. by apply land_bound.
Qed.

(** What the flags say after an operation. *)
Record alu_after (op : ArithOp) (k d s cf : Z) (r r' : RegFile) : Prop := {
  aa_cf : flag r' CF = alu_carry op k d s cf;
  aa_zf : flag r' ZF = bool_decide (alu op k d s cf = 0);
  aa_sf : flag r' SF = bool_decide (2 ^ (k - 1) ≤ alu op k d s cf);
  aa_pf : flag r' PF = parity_even (alu op k d s cf mod 256);
  aa_of : ∀ b, alu_overflow op k d s cf = Some b → flag r' OF_ = b;
  aa_regs : gprs r' = gprs r ∧ xmms r' = xmms r ∧ rip r' = rip r;
}.

Lemma mask_value size : width_ok size → size_mask size = 2 ^ bits_of size - 1.
Proof. intros Hs. apply width_cases in Hs as [-> |[-> |[-> | ->]]]; done. Qed.


Lemma sub_flags_any size r d s res :
  width_ok size → ∃ cf ov aux, flags_after r (set_sub_flags d s res size r) (bits_of size) (res mod 2 ^ bits_of size) cf ov aux.
Proof.
  intros Hs. pose proof (bits_bound size Hs) as Hb. pose proof (pow_bits_pos (bits_of size) ltac:(lia)) as Hp.
  do 3 eexists. unfold set_sub_flags. rewrite !mask_mod, sign_bit_spec by done. fold (bits_of size).
  apply six_flags; [reflexivity|reflexivity| | |reflexivity..].
  - rewrite nonzero_bit, testbit_top by (lia || by apply Z.mod_pos_bound). done.
  - by rewrite low_byte_mod.
Qed.

Lemma logic_flags_after op size r d s cf :
  width_ok size → let k := bits_of size in let v := alu op k d s cf in
  0 ≤ v < 2 ^ k → alu_carry op k d s cf = false → alu_overflow op k d s cf = Some false →
  alu_after op k d s cf r (set_logic_flags v size r).
Proof.
  intros Hs k v Hv Hc Ho. pose proof (bits_bound size Hs) as Hb. fold k in Hb.
  unfold set_logic_flags. rewrite mask_mod, sign_bit_spec by done. fold (bits_of size). fold k.
  rewrite (Z.mod_small v) by done. rewrite nonzero_bit, testbit_top by (lia || done). rewrite low_byte_mod.
  split; try done; rewrite ?Hc; [..|intros b; rewrite Ho; intros [= <-]]; by read_flags.
Qed.

(** Everything but carry and overflow, for an update whose result is [v]. *)
Lemma alu_from_flags op k d s cf v r r1 r' c o a :
  flags_after r r1 k v c o a → v = alu op k d s cf →
  (∀ j, j ∈ [nZF; nSF; nPF] → flag_at r' j = flag_at r1 j) →
  gprs r' = gprs r1 ∧ xmms r' = xmms r1 ∧ rip r' = rip r1 →
  flag r' CF = alu_carry op k d s cf →
  (∀ b, alu_overflow op k d s cf = Some b → flag r' OF_ = b) →
  alu_after op k d s cf r r'.
Proof.
  intros [Hcf Hzf Hsf Hof _ Hpf _ (Hg & Hx & Hi)] -> Hj (Hg' & Hx' & Hi') Hc Ho.
  split; try done.
  - etrans; [apply (Hj nZF); set_solver|done].
  - etrans; [apply (Hj nSF); set_solver|done].
  - etrans; [apply (Hj nPF); set_solver|done].
  - split_and!; congruence.
Qed.

Lemma sbb_overflow size d s cf :
  width_ok size → let k := bits_of size in
  0 ≤ d < 2 ^ k → 0 ≤ s < 2 ^ k → 
  bool_decide (sign_extend d size - sign_extend s size - cf ≠ sign_extend ((d - s - cf) mod 2 ^ k) size) =
  negb (bool_decide (- 2 ^ (k - 1) ≤ signed k d - signed k s - cf < 2 ^ (k - 1))).
Proof.
  intros Hs k Hd Hsr. pose proof (bits_bound size Hs) as Hb. fold k in Hb.
  pose proof (pow_bits_pos k ltac:(lia)) as Hp.
  rewrite !sign_extend_spec by done. fold k. rewrite Z.mod_mod, (Z.mod_small d), (Z.mod_small s) by (done || lia).
  rewrite <- bool_decide_not. apply bool_decide_ext.
  assert (Hm : (d - s - cf) mod 2 ^ k = (signed k d - signed k s - cf) mod 2 ^ k).
  { assert (He : ∀ x, 0 ≤ x < 2 ^ k → ∃ q, signed k x = x + q * 2 ^ k).
    { intros x Hx. unfold signed. case_decide; [exists 0|exists (-1)]; lia. }
    destruct (He d Hd) as [q1 ->], (He s Hsr) as [q2 ->].
    replace (d + q1 * 2 ^ k - (s + q2 * 2 ^ k) - cf) with (d - s - cf + (q1 - q2) * 2 ^ k) by lia.
    symmetry. apply Z.mod_add. lia. }
  rewrite Hm. set (x := signed k d - signed k s - cf). split.
  - intros Hne Hin. destruct Hne. by rewrite signed_of_range by lia.
  - intros Hout E. apply Hout. rewrite E. apply signed_range; [lia|]. by apply Z.mod_pos_bound.
Qed.

Lemma alu_flags_after op size d s cf r :
  width_ok size → let k := bits_of size in
  0 ≤ d < 2 ^ k → 0 ≤ s < 2 ^ k → 0 ≤ cf ≤ 1 →
  alu_after op k d s cf r (exec.arith_flags op d s cf (arith_result op d s cf) size r).
Proof.
  intros Hs k Hd Hsr Hcf. pose proof (bits_bound size Hs) as Hb. fold k in Hb.
  pose proof (pow_bits_pos k ltac:(lia)) as Hp.
  pose proof (arith_value op size d s cf Hs Hd Hsr) as Hv. fold k in Hv. rewrite mask_mod in Hv by done. fold k in Hv.
  assert (Hbits : Z.land (arith_result op d s cf) (size_mask size) = alu op k d s cf)
    by (by rewrite mask_mod).
  assert (Hlogic : ∀ v, v = alu op k d s cf → 0 ≤ v < 2 ^ k → alu_carry op k d s cf = false →
    alu_overflow op k d s cf = Some false → alu_after op k d s cf r (set_logic_flags v size r)).
  { intros v -> ?. by apply logic_flags_after. }
  assert (Hsub : alu_after ArithOp.Sub k d s cf r (set_sub_flags d s (wrapping_sub d s) size r)).
  { assert (Hw : wrapping_sub d s mod 2 ^ bits_of size = (d - s) mod 2 ^ bits_of size) by (apply wrap64_mod; unfold k in *; lia).
    pose proof (sub_flags_spec size Hs r d s (wrapping_sub d s) Hw) as F. fold (bits_of size) in F. fold k in F.
    rewrite (Z.mod_small d), (Z.mod_small s) in F by done. eapply alu_from_flags; [exact F|exact Hw|done|done|..].
    - apply (ar_cf _ _ _ _ _ _ _ F).
    - intros b [= <-]. apply (ar_of _ _ _ _ _ _ _ F). }
  destruct op; simpl exec.arith_flags.
  - pose proof (add_flags_spec size Hs r d s (wrapping_add d s) Hv) as F. fold (bits_of size) in F. fold k in F.
    rewrite (Z.mod_small d), (Z.mod_small s) in F by done. eapply alu_from_flags; [exact F|exact Hv|done|done|..].
    + apply (ar_cf _ _ _ _ _ _ _ F).
    + intros b [= <-]. apply (ar_of _ _ _ _ _ _ _ F).
  - pose proof (add_flags_spec size Hs r d (wrapping_add s cf) (wrapping_add (wrapping_add d s) cf)) as F.
    fold (bits_of size) in F. fold k in F. eapply alu_from_flags; [apply F|exact Hv| |done|..].
    + transitivity ((d + s + cf) mod 2 ^ k); [exact Hv|]. symmetry. rewrite <- Zplus_mod_idemp_r. unfold wrapping_add.
      rewrite wrap64_mod, Zplus_mod_idemp_r by lia. f_equal. lia.
    + intros j Hj. unfold flag_at. set_unfold in Hj. destruct_or! Hj; subst j; by read_flags.
    + read_flags. simpl. apply bool_decide_ext. rewrite mask_value by done. fold k. lia.
    + done.
  - exact Hsub.
  - destruct (sub_flags_any size r d s (wrapping_sub (wrapping_sub d s) cf) Hs) as (c0 & o0 & a0 & F).
    fold k in F. eapply alu_from_flags; [apply F|exact Hv| |done|..].
    + intros j Hj. unfold flag_at. set_unfold in Hj. destruct_or! Hj; subst j; by read_flags.
    + by read_flags.
    + intros b [= <-]. read_flags. rewrite mask_mod by done. fold k.
      replace (wrapping_sub (wrapping_sub d s) cf mod 2 ^ k) with ((d - s - cf) mod 2 ^ k) by (symmetry; exact Hv).
      by apply sbb_overflow.
  - apply Hlogic; try done. apply lxor_bound; (done || lia).
  - apply Hlogic; try done. apply lor_bound; (done || lia).
  - apply Hlogic; try done. by apply land_bound.
  - destruct Hsub. by split.
Qed.

Lemma alu_u64 op k d s cf : 0 ≤ k ≤ 64 → 0 ≤ d < 2 ^ k → 0 ≤ s < 2 ^ k → in_u64 (alu op k d s cf).
Proof.
  intros Hk Hd Hs. assert (Hr : 0 ≤ alu op k d s cf < 2 ^ k).
  { pose proof (pow_bits_pos k ltac:(lia)).
    destruct op; simpl; try (apply Z.mod_pos_bound; lia);
      [apply lxor_bound; (done || lia)|apply lor_bound; (done || lia)|by apply land_bound]. }
  split; [lia|]. apply Z.lt_le_trans with (2 ^ k); [lia|]. change u64_lim with (2 ^ 64). apply Z.pow_le_mono_r; lia.
Qed.

(** The operand a register names. *)
Lemma read_op_reg instr i reg n size c :
  cpu_ok c → width_ok size → op_kind instr i = OpKind.Register → op_register instr i = reg → names_gpr reg n size →
  read_op instr i c = (c, XOk (gpr (cregs c) n mod 2 ^ bits_of size)) ∧
  op_size_bytes instr i c = (c, XOk size).
Proof.
  intros Hc Hs Hk Hreg Hn. unfold read_op, op_size_bytes. rewrite Hk, Hreg. split.
  - unfold xres_of, xregs. rewrite (read_named reg n size) by (done || apply Hc). by destruct c.
  - destruct Hn as (_ & _ & _ & _ & ->). done.
Qed.
Lemma write_op_reg instr i reg n size v c :
  width_ok size → op_kind instr i = OpKind.Register → op_register instr i = reg → names_gpr reg n size → in_u64 v →
  write_op instr i v c = (mkCpu (cmem c) (set_gpr n (put size (gpr (cregs c) n) v) (cregs c)), XOk tt).
Proof.
  intros Hs Hk Hreg Hn Hv. unfold write_op, write_op_sized, op_size_bytes. rewrite Hk, Hreg.
  unfold mbind, X_bind, mret, X_ret, xregs. by rewrite (write_named reg n size).
Qed.

(** ADD, ADC, SUB, SBB, AND, OR and XOR on a register of any width and any readable source:
    the named part of the register gets the result modulo 2^k (a 32-bit result
    zero-extended, the rest of the register kept for 8 and 16 bits), CF is the
    unsigned carry or borrow including the carry in, OF the signed overflow
    (of SBB with the borrow; ADC's is not claimed), ZF, SF and PF those of the result;
    no other register and no byte of memory changes. *)
Theorem alu_register instr op reg n size c c1 s0 :
  cpu_ok c → width_ok size →
  op_kind instr 0 = OpKind.Register → op_register instr 0 = reg → names_gpr reg n size →
  read_op instr 1 c = (c1, XOk s0) →
  let k := bits_of size in
  let d := gpr (cregs c) n mod 2 ^ k in
  let s := s0 mod 2 ^ k in
  let cf := Z.b2z (flag (cregs c) CF) in
  ∃ r c', alu_after op k d s cf (cregs c) r ∧ exec_arith instr op c = (c', XOk tt) ∧ cmem c' = cmem c1 ∧
    cregs c' = match op with
               | ArithOp.Cmp => r
               | _ => set_gpr n (put size (gpr (cregs c) n) (alu op k d s cf)) r
               end.
Proof.
  intros Hc Hs Hk Hreg Hn Esrc k d s cf. destruct (read_op_ok _ _ _ _ _ Hc Esrc) as (Hc1 & Hs0 & Hr1).
  destruct (read_op_reg instr 0 reg n size c Hc Hs Hk Hreg Hn) as [Ed Es].
  pose proof (bits_bound size Hs) as Hb. fold k in Hb. pose proof (pow_bits_pos k ltac:(lia)) as Hp.
  assert (Hd : 0 ≤ d < 2 ^ k) by (by apply Z.mod_pos_bound). assert (Hsr : 0 ≤ s < 2 ^ k) by (by apply Z.mod_pos_bound).
  assert (Hcf : 0 ≤ cf ≤ 1) by (unfold cf; destruct (flag _ _); simpl; lia).
  pose proof (alu_flags_after op size d s cf (cregs c) Hs Hd Hsr Hcf) as Ha. fold k in Ha.
  set (r := exec.arith_flags op d s cf (arith_result op d s cf) size (cregs c)) in *.
  exists r. unfold exec_arith. erewrite xbind_eq by exact Es. erewrite xbind_eq by exact Ed. erewrite xbind_eq by exact Esrc.
  rewrite !mask_mod by done. fold k. fold d. fold s. replace (d mod 2 ^ k) with d by (symmetry; by apply Z.mod_small).
  unfold xget at 1, xmod, mbind, X_bind. rewrite Hr1. fold cf. fold r.
  assert (Hg : gpr r n = gpr (cregs c) n) by (unfold gpr; by destruct (aa_regs _ _ _ _ _ _ _ Ha) as (-> & _)).
  pose proof (arith_value op size d s cf Hs Hd Hsr) as Hval. fold k in Hval.
  pose proof (alu_u64 op k d s cf ltac:(lia) Hd Hsr) as Hv.
  assert (Hw : ∀ v, v = alu op k d s cf → write_op instr 0 v (mkCpu (cmem c1) r) =
    (mkCpu (cmem c1) (set_gpr n (put size (gpr (cregs c) n) (alu op k d s cf)) r), XOk tt)).
  { intros v ->. rewrite (write_op_reg instr 0 reg n size) by done. simpl. by rewrite Hg. }
  destruct op; try (eexists; split_and!; [exact Ha|by apply Hw|done|done]).
  eexists. split_and!; [exact Ha|reflexivity|done|done].
Qed.
End Arith.

(** ADD AL, CL with a carry out: 0xf0 + 0x20. *)
Lemma alu_register_witness :
  let c := demo_cpu [] (λ r, set_gpr 1 0x20 (set_gpr 0 0x12f0 r)) in
  ∃ instr : Instruction, mnemonic instr = Mnemonic.Add ∧
    ∃ c', exec_arith instr ArithOp.Add c = (c', XOk tt) ∧ gpr (cregs c') 0 = 0x1210 ∧ flag (cregs c') CF = true.
Proof.
  intros c. assert (Hc : cpu_ok c).
  { apply demo_cpu_ok; [constructor|done|]. intros r Hr. apply ok_set_gpr; [apply ok_set_gpr; [done|]|]; by vm_compute. }
  set (i := demo_insn (mkD 0 2 Mnemonic.Add [DReg (DG 0 1); DReg (DG 1 1)] false DNone MemorySize.UInt8)).
  exists i. split; [done|].
  destruct (alu_register i ArithOp.Add (DG 0 1) 0 1 c c 0x20 Hc) as (r & c' & Ha & E & _ & Hr);
    [by left|done|done|by split_and!|vm_compute; reflexivity|].
  assert (Hv : gpr (cregs (exec_arith i ArithOp.Add c).1) 0 = 0x1210) by (vm_compute; reflexivity).
  rewrite E in Hv. exists c'. split; [exact E|]. split; [exact Hv|]. rewrite Hr. exact (aa_cf _ _ _ _ _ _ _ Ha).
Defined.

(** CMP RAX, RBX with RAX = -1 and RBX = 1: above, yet less. *)
Lemma cmp_then_cond_witness :
  let c := demo_cpu [] (λ r, set_gpr 3 1 (set_rax (u64_lim - 1) r)) in
  ∃ (instr : Instruction) c', exec_arith instr ArithOp.Cmp c = (c', XOk tt) ∧
    cond_from_jcc Mnemonic.Ja (cregs c') = true ∧ cond_from_jcc Mnemonic.Jl (cregs c') = true.
Proof.
  intros c. assert (Hc : cpu_ok c).
  { apply demo_cpu_ok; [constructor|done|]. intros r Hr. apply ok_set_gpr; [apply ok_set_rax; [done|]|]; by vm_compute. }
  set (i := demo_insn (mkD 0 3 Mnemonic.Cmp [DReg (DG 0 8); DReg (DG 3 8)] false DNone MemorySize.UInt64)).
  destruct (cmp_then_cond i c c c 8 (u64_lim - 1) 1 Hc) as (c' & E & _ & _ & _ & _ & Hall);
    [by do 3 right; left|vm_compute; reflexivity..|].
  exists i, c'. split; [exact E|]. split; [exact (proj1 (Hall Mnemonic.Ja true eq_refl))|].
  exact (proj1 (Hall Mnemonic.Jl true eq_refl)).
Defined.

(** * Multiplication and division are exact

    The double-width product and dividend live in a pair of registers; both are
    read as one number here. *)

From S2P Require Import Prelude protect pagemap vad arena region mem mem_access mem_ops mem_safe.
From S2P Require Import regs regs_safe insn exec exec_string exec_wf exec_safe.
From S2P Require Import word_spec mem_demo exec_demo.

(** ** Register pairs *)

(** Widths with a pair; bytes use AX alone. *)
Definition pair_ok (size : nat) : Prop := size ∈ [2; 4; 8]%nat.
Lemma pair_cases size : pair_ok size → size = 2%nat ∨ size = 4%nat ∨ size = 8%nat.
Proof. unfold pair_ok. rewrite !elem_of_cons, elem_of_nil. tauto. Qed.
Lemma pair_width size : pair_ok size → width_ok size.
Proof. intros Hs. by right. Qed.

(** (E)DX:(E)AX or RDX:RAX as an unsigned number. *)
Definition pair (size : nat) (r : RegFile) : Z :=
  let k := bits_of size in gpr r 2 mod 2 ^ k * 2 ^ k + gpr r 0 mod 2 ^ k.

Definition set_pair (size : nat) (hi lo : Z) (r : RegFile) : RegFile :=
  set_gpr 2 (put size (gpr r 2) hi) (set_gpr 0 (put size (gpr r 0) lo) r).

Lemma put_same size old v w : v mod 2 ^ bits_of size = w mod 2 ^ bits_of size → put size old v = put size old w.
Proof. intros E. unfold put. by rewrite E. Qed.

Lemma set_pair_gpr size hi lo r :
  regs_wf r → gpr (set_pair size hi lo r) 2 = put size (gpr r 2) hi ∧
  gpr (set_pair size hi lo r) 0 = put size (gpr r 0) lo.
Proof.
  intros Hr. assert (Hl : length (gprs r) = 16%nat) by apply Hr.
  unfold set_pair, set_gpr, gpr. simpl. split.
  - by rewrite list_lookup_insert_eq by (rewrite length_insert; lia).
  - by rewrite list_lookup_insert_ne, list_lookup_insert_eq by lia.
Qed.

Lemma pair_set size hi lo r :
  width_ok size → regs_wf r →
  pair size (set_pair size hi lo r) = hi mod 2 ^ bits_of size * 2 ^ bits_of size + lo mod 2 ^ bits_of size.
Proof.
  intros Hs Hr. unfold pair. destruct (set_pair_gpr size hi lo r Hr) as [-> ->]. by rewrite !put_low.
Qed.

Section MulDiv.
Context `{IcedLaws}.
Implicit Types (instr : Instruction).

(** The registers of a pair. *)
Lemma write_halves size (lo hi : Z) regAX regDX c :
  width_ok size → regs_wf (cregs c) → names_gpr regAX 0 size → names_gpr regDX 2 size → in_u64 lo → in_u64 hi →
  (xregs (write_reg regAX lo) ≫= λ _, xregs (write_reg regDX hi)) c =
  (mkCpu (cmem c) (set_pair size hi lo (cregs c)), XOk tt).
Proof.
  intros Hs [Hl _] Ha Hd Hlo Hhi. unfold mbind, X_bind, xregs. rewrite (write_named regAX 0 size) by done. simpl.
  rewrite (write_named regDX 2 size) by done. unfold set_pair. do 3 f_equal.
  unfold gpr, set_gpr. simpl. by rewrite list_lookup_insert_ne by lia.
Qed.

Lemma as_u64_mod k x : 0 ≤ k ≤ 64 → as_u 64 x mod 2 ^ k = x mod 2 ^ k.
Proof. intros Hk. by apply mod_mod_pow. Qed.
Lemma land_mask_mod x k : 0 ≤ k ≤ 64 → Z.land (as_u 64 x) (2 ^ k - 1) mod 2 ^ k = x mod 2 ^ k.
Proof.
  intros Hk. rewrite land_low by lia. rewrite Z.mod_mod by (pose proof (pow_bits_pos k); lia). by apply as_u64_mod.
Qed.

(** The product of either instruction goes to the pair whole. *)
Lemma write_product_pair size p c :
  pair_ok size → regs_wf (cregs c) →
  write_product p size c = (mkCpu (cmem c) (set_pair size (p / 2 ^ bits_of size) p (cregs c)), XOk tt).
Proof.
  intros Hs Hr. pose proof (pair_width size Hs) as Hw. pose proof (bits_bound size Hw) as Hb.
  assert (Hset : ∀ lo hi, lo mod 2 ^ bits_of size = p mod 2 ^ bits_of size →
    hi mod 2 ^ bits_of size = (p / 2 ^ bits_of size) mod 2 ^ bits_of size →
    set_pair size hi lo (cregs c) = set_pair size (p / 2 ^ bits_of size) p (cregs c)).
  { intros lo hi E1 E2. unfold set_pair. by rewrite (put_same size _ lo p E1), (put_same size _ hi _ E2). }
  apply pair_cases in Hs as [-> |[-> | ->]]; unfold write_product.
  - rewrite (write_halves 2) by (done || auto with word || apply name_AX || apply name_DX).
    rewrite Hset; [done|by apply (land_mask_mod _ 16)|]. rewrite Z.shiftr_div_pow2 by lia. by apply (land_mask_mod _ 16).
  - rewrite (write_halves 4) by (done || auto with word || apply name_EAX || apply name_EDX).
    rewrite Hset; [done|by apply (land_mask_mod _ 32)|]. rewrite Z.shiftr_div_pow2 by lia. by apply (land_mask_mod _ 32).
  - unfold xmod. rewrite Z.shiftr_div_pow2 by lia. by do 3 f_equal.
Qed.

(** ** MUL and one-operand IMUL *)

(** In the signed or unsigned range of [k] bits, for a number not below either. *)
Definition fits (sgn : bool) (k x : Z) : bool :=
  if sgn then bool_decide (- 2 ^ (k - 1) ≤ x < 2 ^ (k - 1)) else bool_decide (x < 2 ^ k).

(** A [k]-bit number as the instruction reads it. *)
Definition as_operand (sgn : bool) (k x : Z) : Z := if sgn then signed k (x mod 2 ^ k) else x mod 2 ^ k.

Definition exec_wide_mul (sgn : bool) instr : X unit := if sgn then exec_imul instr else exec_mul instr.

(** MUL and one-operand IMUL leave the exact product, twice as wide as the operands, in
    the register pair, and raise CF and OF exactly when it does not fit the low
    half (as an unsigned, respectively signed number). *)
Theorem wide_mul_exact sgn instr c c1 size v0 :
  cpu_ok c → pair_ok size → (sgn = true → op_count instr = 1%nat) →
  op_size_bytes instr 0 c = (c, XOk size) → read_op instr 0 c = (c1, XOk v0) →
  let k := bits_of size in
  let p := as_operand sgn k (rax (cregs c)) * as_operand sgn k v0 in
  ∃ c', exec_wide_mul sgn instr c = (c', XOk tt) ∧ cmem c' = cmem c1 ∧
    pair size (cregs c') = p mod 2 ^ (2 * k) ∧
    flag (cregs c') CF = negb (fits sgn k p) ∧
    flag (cregs c') OF_ = flag (cregs c') CF ∧
    gprs (cregs c') = gprs (set_pair size (p / 2 ^ k) p (cregs c)).
Proof.
  intros Hc Hs Hone Es Ev k p. destruct (read_op_ok _ _ _ _ _ Hc Ev) as (Hc1 & Hv0 & Hr1).
  pose proof (pair_width size Hs) as Hw. pose proof (bits_bound size Hw) as Hb. fold k in Hb.
  pose proof (pow_bits_pos k ltac:(lia)) as Hp. pose proof (ro_wf _ (co_regs _ Hc)) as Hwf.
  assert (Hpair : pair size (set_pair size (p / 2 ^ k) p (cregs c)) = p mod 2 ^ (2 * k)).
  { rewrite pair_set by done. fold k. replace (2 * k) with (k + k) by lia. rewrite Z.pow_add_r by lia.
    rewrite Z.rem_mul_r by lia. lia. }
  assert (Hfl : ∀ b r, flag (set_flag OF_ b (set_flag CF b r)) CF = b ∧ flag (set_flag OF_ b (set_flag CF b r)) OF_ = b).
  { intros b r. split; by read_flags. }
  assert (Hout : ∀ b, let c' := mkCpu (cmem c1) (set_flag OF_ b (set_flag CF b (set_pair size (p / 2 ^ k) p (cregs c)))) in
    b = negb (fits sgn k p) →
    exec_wide_mul sgn instr c = (c', XOk tt) →
    ∃ c', exec_wide_mul sgn instr c = (c', XOk tt) ∧ cmem c' = cmem c1 ∧
      pair size (cregs c') = p mod 2 ^ (2 * k) ∧
      flag (cregs c') CF = negb (fits sgn k p) ∧
      flag (cregs c') OF_ = flag (cregs c') CF ∧
      gprs (cregs c') = gprs (set_pair size (p / 2 ^ k) p (cregs c))).
  { intros b c' -> E. exists c'. destruct (Hfl (negb (fits sgn k p))
      (set_pair size (p / 2 ^ k) p (cregs c))) as [H3 H4]. split_and!; try done. simpl. by rewrite H3, H4. }
  unfold as_operand, fits in *. destruct sgn; simpl in *.
  - eapply Hout; [reflexivity|]. unfold exec_imul. rewrite Hone by done.
    erewrite xbind_eq by exact Es. erewrite xbind_eq by exact Ev. rewrite mask_mod by done. fold k.
    unfold xget at 1. unfold mbind at 1, X_bind at 1. rewrite Hr1, !mask_mod by done. fold k.
    rewrite !sign_extend_spec by done. fold k. rewrite !Z.mod_mod by lia. fold p.
    unfold write_imul_product. erewrite xbind_eq by (apply write_product_pair; [done|by rewrite Hr1]).
    unfold xmod. simpl. rewrite Hr1. fold k. unfold set_imul_flags. do 2 f_equal.
    assert (Hov : bool_decide (p < int_min size) || bool_decide (int_max size < p) =
      negb (bool_decide (- 2 ^ (k - 1) ≤ p < 2 ^ (k - 1)))).
    { assert (Hm : int_min size = - 2 ^ (k - 1) ∧ int_max size = 2 ^ (k - 1) - 1).
      { unfold k. apply pair_cases in Hs as [-> |[-> | ->]]; done. }
      destruct Hm as [-> ->]. repeat case_bool_decide; simpl; try done; lia. }
    by rewrite Hov.
  - eapply Hout; [reflexivity|]. unfold exec_mul.
    erewrite xbind_eq by exact Es. erewrite xbind_eq by exact Ev. rewrite mask_mod by done. fold k.
    unfold xget at 1. unfold mbind at 1, X_bind at 1. rewrite Hr1, !mask_mod by done. fold k. fold p.
    erewrite xbind_eq by (apply write_product_pair; [done|by rewrite Hr1]).
    unfold xmod. simpl. rewrite Hr1. fold k.
    assert (Hhi : nonzero (Z.shiftr p match size with 1%nat => 8 | 2%nat => 16 | 4%nat => 32 | _ => 64 end) =
      negb (bool_decide (p < 2 ^ k))).
    { assert (Hm : match size with 1%nat => 8 | 2%nat => 16 | 4%nat => 32 | _ => 64 end = k).
      { unfold k. apply pair_cases in Hs as [-> |[-> | ->]]; done. }
      rewrite Hm, Z.shiftr_div_pow2 by lia. unfold nonzero. f_equal. apply bool_decide_ext.
      assert (Hp0 : 0 ≤ p).
      { unfold p, as_operand. apply Z.mul_nonneg_nonneg; apply Z.mod_pos_bound; lia. }
      rewrite Z.div_small_iff by lia. lia. }
    by rewrite Hhi.
Qed.

(** ** DIV and IDIV *)

(** The signed double-width dividend, as the code assembles it. *)
Lemma wide_signed k hi lo :
  0 < k → 0 ≤ hi < 2 ^ k → 0 ≤ lo < 2 ^ k →
  Z.lor (shl_i (2 * k) (as_i k hi) k) lo = signed (2 * k) (hi * 2 ^ k + lo).
Proof.
  intros Hk Hhi Hlo. unfold shl_i. rewrite (Z.mod_small k) by lia. rewrite Z.shiftl_mul_pow2 by lia.
  rewrite !as_i_signed. rewrite (Z.mod_small hi) by done.
  destruct (pow_half k Hk) as [Hp Hp1]. pose proof (signed_range k hi Hk Hhi) as Hr.
  assert (H2 : 2 ^ (2 * k) = 2 ^ k * 2 ^ k) by (rewrite <- Z.pow_add_r by lia; f_equal; lia).
  assert (H2h : 2 ^ (2 * k - 1) = 2 ^ (k - 1) * 2 ^ k) by (rewrite <- Z.pow_add_r by lia; f_equal; lia).
  rewrite signed_of_range by (lia || (rewrite H2h; nia)). rewrite lor_add by lia.
  unfold signed. rewrite H2h, H2. destruct (decide (hi < 2 ^ (k - 1))).
  - rewrite decide_True by nia. done.
  - rewrite decide_False by nia. lia.
Qed.

Lemma wide_unsigned k hi lo : 0 ≤ k → 0 ≤ lo < 2 ^ k → Z.lor (Z.shiftl hi k) lo = hi * 2 ^ k + lo.
Proof. intros Hk Hlo. rewrite Z.shiftl_mul_pow2 by done. by apply lor_add. Qed.

(** The quotient that does not fit is what the checked division and the range
    test together refuse. *)
Lemma checked_div_fits k num den :
  0 < k → - 2 ^ (2 * k - 1) ≤ num < 2 ^ (2 * k - 1) → den ≠ 0 →
  match checked_div_i (2 * k) num den with
  | Some (q, r) => q = Z.quot num den ∧ r = Z.rem num den
  | None => fits true k (Z.quot num den) = false
  end.
Proof.
  intros Hk Hn Hd. unfold checked_div_i. destruct (decide _) as [[?|[-> ->]]|]; [done| |done].
  unfold fits. apply bool_decide_eq_false. change (-1) with (Z.opp 1). rewrite Z.quot_opp_r, Z.quot_1_r by lia.
  pose proof (pow_bits_pos (2 * k - 1) ltac:(lia)).
  assert (2 ^ (k - 1) ≤ 2 ^ (2 * k - 1)) by (apply Z.pow_le_mono_r; lia). lia.
Qed.

Lemma set_pair_ext size hi lo hi' lo' r :
  lo mod 2 ^ bits_of size = lo' mod 2 ^ bits_of size → hi mod 2 ^ bits_of size = hi' mod 2 ^ bits_of size →
  set_pair size hi lo r = set_pair size hi' lo' r.
Proof. intros E1 E2. unfold set_pair. by rewrite (put_same size _ lo lo' E1), (put_same size _ hi hi' E2). Qed.

(** Division of a pair, as the three widths do it. *)
Definition div_pair (size : nat) (sgn : bool) (divisor : u64) : X unit :=
  match size with 2%nat => div16 sgn divisor | 4%nat => div32 sgn divisor | _ => div64 sgn divisor end.

Definition div_outcome (size : nat) (sgn : bool) (u : Z) (c : cpu) (out : cpu * xres unit) : Prop :=
  let k := bits_of size in
  let num := if sgn then signed (2 * k) (pair size (cregs c)) else pair size (cregs c) in
  let den := if sgn then signed k u else u in
  if fits sgn k (Z.quot num den)
  then out = (mkCpu (cmem c) (set_pair size (Z.rem num den) (Z.quot num den) (cregs c)), XOk tt)
  else ∃ text, out = (c, XErr (Cpu (Message text))).

Lemma named_low reg n size r :
  regs_ok r → names_gpr reg n size → width_ok size →
  read_reg r reg = Ok (gpr r n mod 2 ^ bits_of size) ∧ 0 ≤ gpr r n mod 2 ^ bits_of size < 2 ^ bits_of size.
Proof.
  intros Hr Hn Hs. split; [by apply read_named|]. apply Z.mod_pos_bound, pow_bits_pos. pose proof (bits_bound size Hs). lia.
Qed.

Lemma unsigned_quot a b : 0 ≤ a → 0 < b → Z.quot a b = a / b ∧ Z.rem a b = a mod b.
Proof. intros. split; [by apply Z.quot_div_nonneg; lia|by apply Z.rem_mod_nonneg; lia]. Qed.

(** The end of a signed and of an unsigned division, at any width. *)
Lemma div_signed_outcome size u c num text (bad : Z → bool) (W : Z → Z → X unit) :
  pair_ok size → cpu_ok c → 0 < u < 2 ^ bits_of size →
  num = signed (2 * bits_of size) (pair size (cregs c)) →
  (∀ q, bad q = negb (fits true (bits_of size) q)) →
  (∀ q r, W q r c = (mkCpu (cmem c) (set_pair size r q (cregs c)), XOk tt)) →
  div_outcome size true u c
    ((match checked_div_i (2 * bits_of size) num (signed (bits_of size) u) with
      | None => xfail text
      | Some (q, r) => if bad q then xfail text else W q r
      end) c).
Proof.
  intros Hs Hc Hu -> Hbad HW. pose proof (bits_bound size (pair_width _ Hs)) as Hb. unfold div_outcome.
  set (k := bits_of size) in *. destruct (pow_half k ltac:(lia)) as [Hp Hp1].
  assert (Hden : signed k u ≠ 0) by (unfold signed; case_decide; lia).
  assert (Hnum : 0 ≤ pair size (cregs c) < 2 ^ (2 * k)).
  { unfold pair. fold k. pose proof (Z.mod_pos_bound (gpr (cregs c) 2) (2 ^ k) ltac:(lia)).
    pose proof (Z.mod_pos_bound (gpr (cregs c) 0) (2 ^ k) ltac:(lia)).
    replace (2 * k) with (k + k) by lia. rewrite Z.pow_add_r by lia. nia. }
  pose proof (signed_range (2 * k) _ ltac:(lia) Hnum) as Hrange.
  pose proof (checked_div_fits k _ _ ltac:(lia) Hrange Hden) as Hck.
  destruct (checked_div_i _ _ _) as [[q r]|].
  - destruct Hck as [-> ->]. rewrite Hbad. destruct (fits true k _); simpl; [apply HW|by eexists].
  - rewrite Hck. by eexists.
Qed.

Lemma div_unsigned_outcome size u c num lim text (W : Z → Z → X unit) :
  pair_ok size → 0 < u → num = pair size (cregs c) → lim = 2 ^ bits_of size - 1 → 0 ≤ num →
  (∀ q r, W q r c = (mkCpu (cmem c) (set_pair size r q (cregs c)), XOk tt)) →
  div_outcome size false u c
    ((if decide (lim < num / u) then xfail text else W (num / u) (num mod u)) c).
Proof.
  intros Hs Hu -> -> Hn HW. unfold div_outcome. destruct (unsigned_quot (pair size (cregs c)) u Hn Hu) as [-> ->].
  unfold fits. destruct (decide _).
  - rewrite bool_decide_eq_false_2 by lia. by eexists.
  - rewrite bool_decide_eq_true_2 by lia. apply HW.
Qed.

Lemma pair_nonneg size r : width_ok size → 0 ≤ pair size r.
Proof.
  intros Hs. pose proof (bits_bound size Hs). pose proof (pow_bits_pos (bits_of size) ltac:(lia)). unfold pair.
  pose proof (Z.mod_pos_bound (gpr r 2) (2 ^ bits_of size)). pose proof (Z.mod_pos_bound (gpr r 0) (2 ^ bits_of size)). nia.
Qed.

(** The writes of a quotient and a remainder. *)
Lemma div_writes size regAX regDX c q r :
  width_ok size → regs_wf (cregs c) → names_gpr regAX 0 size → names_gpr regDX 2 size → bits_of size ≤ 32 →
  (xregs (write_reg regAX (Z.land (as_u 64 q) (2 ^ bits_of size - 1))) ≫=
    λ _, xregs (write_reg regDX (Z.land (as_u 64 r) (2 ^ bits_of size - 1)))) c =
  (mkCpu (cmem c) (set_pair size r q (cregs c)), XOk tt).
Proof.
  intros Hs Hr Ha Hd Hb. pose proof (bits_bound size Hs). rewrite (write_halves size) by (done || auto with word).
  do 2 f_equal. apply set_pair_ext; apply land_mask_mod; lia.
Qed.

Lemma xres_read reg v c : read_reg (cregs c) reg = Ok v → xres_of (λ r, read_reg r reg) c = (c, XOk v).
Proof. intros E. unfold xres_of, xregs. rewrite E. by destruct c. Qed.

Lemma in_range_fits lo hi k q : lo = - 2 ^ (k - 1) → hi = 2 ^ (k - 1) - 1 → in_range lo hi q = fits true k q.
Proof. intros -> ->. unfold fits, in_range. repeat case_bool_decide; simpl; try done; lia. Qed.

(** The double-width dividends at the three widths. *)
Lemma div16_outcome sgn u c : cpu_ok c → 0 < u < 2 ^ 16 → div_outcome 2 sgn u c (div16 sgn u c).
Proof.
  intros Hc Hu. assert (Hs : width_ok 2) by (right; by left). assert (Hps : pair_ok 2) by (by left).
  destruct (named_low reg_AX 0 2 (cregs c) (co_regs _ Hc) name_AX Hs) as [Ea Hlo].
  destruct (named_low reg_DX 2 2 (cregs c) (co_regs _ Hc) name_DX Hs) as [Ed Hhi].
  change (bits_of 2) with 16 in *. unfold div16. cbv zeta.
  erewrite xbind_eq by (by apply xres_read). erewrite xbind_eq by (by apply xres_read).
  change 0xffff with (2 ^ 16 - 1). rewrite !land_low, !Z.mod_mod by lia. destruct sgn.
  - rewrite sign_extend_spec by done. change (bits_of 2) with 16. rewrite (Z.mod_small u) by lia.
    rewrite (wide_signed 16) by lia. rewrite as_i_signed, (signed_of_range 32) by
      (pose proof (signed_range 16 u ltac:(lia) ltac:(lia)); lia).
    apply (div_signed_outcome 2 u c _ "idiv overflow" (λ q, negb (in_range (-32768) 32767 q)) _ Hps Hc); [exact Hu|done| |].
    + intros q. f_equal. by apply in_range_fits.
    + intros q m. by apply (div_writes 2); first [done|apply Hc|apply name_AX|apply name_DX].
  - rewrite wide_unsigned by lia.
    apply (div_unsigned_outcome 2 u c _ (2 ^ 16 - 1) "div overflow" (λ q m,
      xregs (write_reg reg_AX (q mod 2 ^ 16)) ≫= λ _, xregs (write_reg reg_DX (m mod 2 ^ 16))));
      [done|lia|done|done|by apply (pair_nonneg 2)|].
    intros q m. assert (H16 : ∀ x, in_u64 (x mod 2 ^ 16)) by (intros x; by apply (as_u_u64 16)).
    rewrite (write_halves 2) by (done || apply Hc || apply name_AX || apply name_DX).
    do 2 f_equal. apply set_pair_ext; change (bits_of 2) with 16; by rewrite Z.mod_mod by lia.
Qed.

Lemma div32_outcome sgn u c : cpu_ok c → 0 < u < 2 ^ 32 → div_outcome 4 sgn u c (div32 sgn u c).
Proof.
  intros Hc Hu. assert (Hs : width_ok 4) by (by do 2 right; left). assert (Hps : pair_ok 4) by (by right; left).
  destruct (named_low reg_EAX 0 4 (cregs c) (co_regs _ Hc) name_EAX Hs) as [Ea Hlo].
  destruct (named_low reg_EDX 2 4 (cregs c) (co_regs _ Hc) name_EDX Hs) as [Ed Hhi].
  change (bits_of 4) with 32 in *. unfold div32. cbv zeta.
  erewrite xbind_eq by (by apply xres_read). erewrite xbind_eq by (by apply xres_read).
  change 0xffffffff with (2 ^ 32 - 1). rewrite !land_low, !Z.mod_mod by lia. destruct sgn.
  - rewrite sign_extend_spec by done. change (bits_of 4) with 32. rewrite (Z.mod_small u) by lia.
    rewrite (wide_signed 32) by lia.
    apply (div_signed_outcome 4 u c _ "idiv overflow" (λ q, negb (in_range (- 2 ^ 31) (2 ^ 31 - 1) q)) _ Hps Hc); [exact Hu|done| |].
    + intros q. f_equal. by apply in_range_fits.
    + intros q m. by apply (div_writes 4); first [done|apply Hc|apply name_EAX|apply name_EDX].
  - rewrite wide_unsigned by lia.
    apply (div_unsigned_outcome 4 u c _ (u32_lim - 1) "div overflow"
      (λ q m, xregs (write_reg reg_EAX (as_u 64 q mod 2 ^ 32)) ≫=
        λ _, xregs (write_reg reg_EDX (as_u 64 m mod 2 ^ 32))));
      [done|lia|done|done|by apply (pair_nonneg 4)|].
    intros q m. assert (H32 : ∀ x, in_u64 (x mod 2 ^ 32)) by (intros x; by apply (as_u_u64 32)).
    rewrite (write_halves 4) by (done || apply Hc || apply name_EAX || apply name_EDX).
    do 2 f_equal. apply set_pair_ext; change (bits_of 4) with 32; rewrite Z.mod_mod by lia; by apply as_u64_mod.
Qed.

Lemma div64_outcome sgn u c : cpu_ok c → 0 < u < 2 ^ 64 → div_outcome 8 sgn u c (div64 sgn u c).
Proof.
  intros Hc Hu. assert (Hs : width_ok 8) by (by do 3 right; left). assert (Hps : pair_ok 8) by (by do 2 right; left).
  pose proof (regs_rax _ (co_regs _ Hc)) as Hlo. pose proof (regs_rdx _ (co_regs _ Hc)) as Hhi.
  change (in_u64 (rax (cregs c))) with (0 ≤ rax (cregs c) < 2 ^ 64) in Hlo.
  change (in_u64 (rdx (cregs c))) with (0 ≤ rdx (cregs c) < 2 ^ 64) in Hhi.
  assert (Hpair : pair 8 (cregs c) = rdx (cregs c) * 2 ^ 64 + rax (cregs c)).
  { unfold pair. change (bits_of 8) with 64. by rewrite !Z.mod_small. }
  assert (HW : ∀ q r : Z, xmod (λ rf, set_rdx (as_u 64 r) (set_rax (as_u 64 q) rf)) c =
    (mkCpu (cmem c) (set_pair 8 r q (cregs c)), XOk tt)).
  { done. }
  unfold div64, xget, mbind at 1, X_bind at 1. unfold mbind at 1, X_bind at 1. destruct sgn.
  - rewrite sign_extend_spec by done. change (bits_of 8) with 64. rewrite (Z.mod_small u) by lia.
    rewrite (wide_signed 64) by lia.
    apply (div_signed_outcome 8 u c _ "idiv overflow" (λ q, bool_decide (q < - 2 ^ 63) || bool_decide (2 ^ 63 - 1 < q))
      (λ q r, xmod (λ rf, set_rdx (as_u 64 r) (set_rax (as_u 64 q) rf))) Hps Hc); [exact Hu| | |exact HW].
    + change (2 * bits_of 8) with 128. by rewrite Hpair.
    + intros q. unfold fits. change (2 ^ (bits_of 8 - 1)) with (2 ^ 63). repeat case_bool_decide; simpl; try done; lia.
  - rewrite wide_unsigned by lia.
    apply (div_unsigned_outcome 8 u c _ (u64_lim - 1) "div overflow"
      (λ q r, xmod (λ rf, set_rdx (as_u 64 r) (set_rax (as_u 64 q) rf))));
      [done|lia|by rewrite Hpair|done|lia|exact HW].
Qed.

(** C38 DIV and IDIV of a register pair by any non-zero operand: the exact quotient and
    remainder (truncated towards zero when signed) go to the two registers, and a
    quotient that does not fit is an error that changes nothing, the overflow of
    the double-width division itself included; division by zero is an error too. *)
Theorem wide_div_exact (sgn : bool) instr c c1 size v0 :
  cpu_ok c → pair_ok size →
  op_size_bytes instr 0 c = (c, XOk size) → read_op instr 0 c = (c1, XOk v0) →
  let k := bits_of size in
  let u := v0 mod 2 ^ k in
  let num := if sgn then signed (2 * k) (pair size (cregs c)) else pair size (cregs c) in
  let den := if sgn then signed k u else u in
  if bool_decide (u ≠ 0) && fits sgn k (Z.quot num den)
  then exec_div instr sgn c = (mkCpu (cmem c1) (set_pair size (Z.rem num den) (Z.quot num den) (cregs c)), XOk tt)
  else ∃ text, exec_div instr sgn c = (c1, XErr (Cpu (Message text))).
Proof.
  intros Hc Hs Es Ev k u num den. destruct (read_op_ok _ _ _ _ _ Hc Ev) as (Hc1 & Hv0 & Hr1).
  pose proof (pair_width size Hs) as Hw. pose proof (bits_bound size Hw) as Hb. fold k in Hb.
  pose proof (pow_bits_pos k ltac:(lia)) as Hp. assert (Hu : 0 ≤ u < 2 ^ k) by (by apply Z.mod_pos_bound).
  unfold exec_div. erewrite xbind_eq by exact Es. erewrite xbind_eq by exact Ev. cbv zeta.
  rewrite mask_mod by done. fold k. fold u. destruct (decide (u = 0)) as [Hz|Hnz].
  { rewrite bool_decide_eq_false_2 by tauto. by eexists. }
  rewrite bool_decide_eq_true_2 by done. simpl.
  assert (Hout : div_outcome size sgn u c1 (div_pair size sgn u c1)).
  { unfold k in *. apply pair_cases in Hs as [-> |[-> | ->]];
      [apply div16_outcome; [done|change (2 ^ 16) with (2 ^ bits_of 2)]
      |apply div32_outcome; [done|change (2 ^ 32) with (2 ^ bits_of 4)]
      |apply div64_outcome; [done|change (2 ^ 64) with (2 ^ bits_of 8)]]; lia. }
  unfold div_outcome in Hout. rewrite Hr1 in Hout. fold k in Hout. fold num in Hout. fold den in Hout.
  assert (Hd : match size with 1%nat => div8 sgn u | 2%nat => div16 sgn u | 4%nat => div32 sgn u | _ => div64 sgn u end
    = div_pair size sgn u) by (apply pair_cases in Hs as [-> |[-> | ->]]; done).
  rewrite Hd. by destruct (fits sgn k (Z.quot num den)).
Qed.
End MulDiv.

(** ** Instances *)

(** MUL RBX: 2^63 times 6 carries into RDX. *)
Lemma wide_mul_exact_witness :
  let c := demo_cpu [] (λ r, set_gpr 3 6 (set_rax (2 ^ 63) r)) in
  ∃ instr : Instruction, mnemonic instr = Mnemonic.Mul ∧
    ∃ c', exec_mul instr c = (c', XOk tt) ∧ pair 8 (cregs c') = 6 * 2 ^ 63 ∧ flag (cregs c') OF_ = true.
Proof.
  intros c. assert (Hc : cpu_ok c).
  { apply demo_cpu_ok; [constructor|done|]. intros r Hr. apply ok_set_gpr; [apply ok_set_rax; [done|]|]; by vm_compute. }
  set (i := demo_insn (mkD 0 3 Mnemonic.Mul [DReg (DG 3 8)] false DNone MemorySize.UInt64)).
  destruct (wide_mul_exact false i c c 8 6 Hc) as (c' & E & _ & Hp & Hcf & Hof & _);
    [by do 2 right; left|done|vm_compute; reflexivity..|].
  exists i. split; [done|]. exists c'. split; [exact E|]. split.
  - etrans; [exact Hp|]. by vm_compute.
  - rewrite Hof, Hcf. by vm_compute.
Defined.

(** IDIV RBX: -7 by 2. *)
Lemma wide_div_exact_witness :
  let c := demo_cpu [] (λ r, set_gpr 3 2 (set_rdx (u64_lim - 1) (set_rax (u64_lim - 7) r))) in
  ∃ instr : Instruction, mnemonic instr = Mnemonic.Idiv ∧
    ∃ c', exec_div instr true c = (c', XOk tt) ∧
      signed 64 (rax (cregs c')) = -3 ∧ signed 64 (rdx (cregs c')) = -1.
Proof.
  intros c. assert (Hc : cpu_ok c).
  { apply demo_cpu_ok; [constructor|done|]. intros r Hr.
    apply ok_set_gpr; [apply ok_set_rdx; [apply ok_set_rax; [done|]|]|]; by vm_compute. }
  set (i := demo_insn (mkD 0 3 Mnemonic.Idiv [DReg (DG 3 8)] false DNone MemorySize.UInt64)).
  assert (H8 : pair_ok 8) by (by do 2 right; left).
  assert (Es : op_size_bytes i 0 c = (c, XOk 8%nat)) by (vm_compute; reflexivity).
  assert (Ev : read_op i 0 c = (c, XOk 2)) by (vm_compute; reflexivity).
  pose proof (wide_div_exact true i c c 8 2 Hc H8 Es Ev) as Hd. cbv zeta in Hd.
  assert (Hb : bool_decide (2 mod 2 ^ bits_of 8 ≠ 0) &&
    fits true (bits_of 8) (signed (2 * bits_of 8) (pair 8 (cregs c)) `quot` signed (bits_of 8) (2 mod 2 ^ bits_of 8)) = true)
    by (vm_compute; reflexivity).
  cbv beta iota in Hd. rewrite Hb in Hd. exists i. split; [done|]. eexists. split; [exact Hd|].
  split; vm_compute; reflexivity.
Defined.
