(* ===== verification/string_spec.v ===== *)
(** * REP STOS and REP MOVS: every path does the same

    The fill and the copy go by host spans, by page-sized chunks or element by
    element; on memory the guest may access all three leave the same bytes and
    registers, and the repetition comes to its end. *)

From S2P Require Import Prelude protect pagemap vad arena region mem mem_access mem_ops mem_safe.
From S2P Require Import regs regs_safe insn exec exec_string exec_wf exec_safe step_safe word_spec.

(** ** Consecutive stores *)

Lemma bytes_set_nil g a : bytes_set g a [] g.
Proof. intros x. by rewrite decide_False by (simpl; lia). Qed.

Lemma bytes_set_same g g1 g2 a bs : same_but_cache g1 g2 → bytes_set g a bs g1 → bytes_set g a bs g2.
Proof. intros Hs Hb x. by rewrite (same_gbyte _ _ Hs). Qed.

Lemma bytes_set_app g g1 g2 a x y :
  bytes_set g a x g1 → bytes_set g1 (a + Z.of_nat (length x)) y g2 → bytes_set g a (x ++ y) g2.
Proof.
  intros H1 H2 b. rewrite H2, H1, length_app.
  destruct (decide (a + Z.of_nat (length x) ≤ b < _)).
  - rewrite decide_True by lia. rewrite lookup_app_r by lia. f_equal. lia.
  - destruct (decide (a ≤ b < a + Z.of_nat (length x))).
    + rewrite decide_True by lia. by rewrite lookup_app_l by lia.
    + by rewrite decide_False by lia.
Qed.

Lemma bytes_set_prepend g g1 g2 a x y :
  bytes_set g a x g1 → bytes_set g1 (a - Z.of_nat (length y)) y g2 → bytes_set g (a - Z.of_nat (length y)) (y ++ x) g2.
Proof.
  intros H1 H2 b. rewrite H2, H1, length_app.
  destruct (decide (a - Z.of_nat (length y) ≤ b < a - Z.of_nat (length y) + Z.of_nat (length y))).
  - rewrite decide_True by lia. by rewrite lookup_app_l by lia.
  - destruct (decide (a ≤ b < a + Z.of_nat (length x))).
    + rewrite decide_True by lia. rewrite lookup_app_r by lia. f_equal. lia.
    + by rewrite decide_False by lia.
Qed.

(** ** Patterns *)

Definition element (val : u64) (size : nat) : list u8 := take size (le_bytes 8 val).
Definition repeated (n : nat) (val : u64) (size : nat) : list u8 := concat (replicate n (element val size)).

Lemma element_length val size : (size ≤ 8)%nat → length (element val size) = size.
Proof. intros Hs. unfold element. rewrite length_take, length_le_bytes. lia. Qed.

Lemma repeated_length n val size : (size ≤ 8)%nat → length (repeated n val size) = (n * size)%nat.
Proof.
  intros Hs. unfold repeated. induction n as [|n IH]; [done|]. cbn [replicate concat].
  rewrite length_app, IH, element_length by done. lia.
Qed.
Lemma repeated_byte n val size : Forall is_byte (repeated n val size).
Proof.
  unfold repeated. induction n as [|n IH]; [constructor|]. cbn [replicate concat]. apply Forall_app.
  split; [apply Forall_take, le_bytes_byte|done].
Qed.

Lemma repeated_app n m val size : repeated (n + m) val size = repeated n val size ++ repeated m val size.
Proof. unfold repeated. by rewrite replicate_add, concat_app. Qed.
Lemma repeated_1 val size : repeated 1 val size = element val size.
Proof. unfold repeated. simpl. apply app_nil_r. Qed.
Lemma repeated_snoc n val size : repeated (S n) val size = repeated n val size ++ element val size.
Proof. by rewrite <- Nat.add_1_r, repeated_app, repeated_1. Qed.

Lemma pattern_repeated len val size :
  (0 < size ≤ 8)%nat → pattern len val size = repeated (Z.to_nat (len / Z.of_nat size)) val size.
Proof. intros Hs. unfold pattern, repeated, element. by rewrite Nat.min_l by lia. Qed.

Lemma take_repeated n m val size : (size ≤ 8)%nat → (n ≤ m)%nat → take (n * size) (repeated m val size) = repeated n val size.
Proof.
  intros Hs Hn. replace m with (n + (m - n))%nat by lia. rewrite repeated_app.
  by rewrite take_app_length' by (by rewrite repeated_length).
Qed.

Lemma repeated_bytes n val : repeated n val 1 = replicate n (Z.land val 0xff).
Proof.
  unfold repeated. assert (E : element val 1 = [Z.land val 0xff]).
  { unfold element. change 0xff with (2 ^ 8 - 1). rewrite land_low by lia. done. }
  rewrite E. induction n as [|n IH]; [done|]. cbn [replicate concat]. by rewrite IH.
Qed.

(** ** Elements *)

Lemma granted_sub g a n k b m : granted g a n k → a ≤ b → b + m ≤ a + n → granted g b m k.
Proof. intros Hg Ha Hm x Hx. apply Hg. lia. Qed.

Lemma granted_spc g a n k : 0 ≤ n → a + n < u64_lim → granted g a n k → spc g a n k = Ok tt.
Proof.
  intros Hn Hlim Hg. unfold spc. destruct (decide (n = 0)); [done|]. rewrite decide_True by done.
  assert (Hall : ∀ p, p ∈ seqZ (a / 4096) ((a + n - 1) / 4096 + 1 - a / 4096) →
    ∃ pr, gview g p = Some (Committed, pr) ∧ allows pr k = true).
  { intros p Hp%elem_of_seqZ. assert (a / 4096 ≤ (a + n - 1) / 4096) by (apply Z.div_le_mono; lia).
    destruct (Hg (Z.max a (p * 4096))) as (pr & Hv & Hk).
    { pose proof (div_4096_bounds (a + n - 1)). lia. }
    exists pr. replace (Z.max a (p * 4096) / 4096) with p in Hv; [done|].
    destruct (Z.max_spec a (p * 4096)) as [[? ->]|[? ->]]; [by rewrite Z.div_mul|].
    pose proof (div_4096_bounds a). assert (p * 4096 / 4096 ≤ a / 4096) by (apply Z.div_le_mono; lia).
    rewrite Z.div_mul in * by done. lia. }
  revert Hall. generalize (seqZ (a / 4096) ((a + n - 1) / 4096 + 1 - a / 4096)). intros ps Hall.
  induction ps as [|p ps IH]; simpl; [done|]. destruct (Hall p) as (pr & -> & Hk); [by left|].
  unfold PageMap.page_verdict. rewrite decide_False by naive_solver. rewrite Hk.
  apply IH. intros q Hq. apply Hall. by right.
Qed.

(** A store to writable bytes goes through. *)
Lemma write_granted g a bs :
  mem_ok g → in_u64 a → a + Z.of_nat (length bs) < u64_lim → Forall is_byte bs →
  granted g a (Z.of_nat (length bs)) Write →
  ∃ g', write a bs g = (g', Ok tt) ∧ mem_ok g' ∧ stored g g' ∧ bytes_set g a bs g'.
Proof.
  intros Hg Ha Hlim Hb Hgr. destruct (mem_write_spec g a bs Hg Ha) as (g' & -> & Hg' & Hst & Hr);
    [unfold in_u64 in Ha; lia|done|].
  rewrite granted_spc in * by (lia || done). eauto.
Qed.

Lemma read_granted g a n :
  mem_ok g → in_u64 a → a + Z.of_nat n < u64_lim → granted g a (Z.of_nat n) Read →
  ∃ g' bs, mem_read_n a n g = (g', Ok bs) ∧ same_but_cache g g' ∧ mem_ok g' ∧ length bs = n ∧ Forall is_byte bs ∧
    ∀ i, (i < n)%nat → bs !! i = gbyte g (a + Z.of_nat i).
Proof.
  intros Hg Ha Hlim Hgr. destruct (mem_read_n_spec g a n Hg Ha) as (g' & Hs & Hg' & Hr);
    [unfold in_u64 in Ha; lia|]. rewrite granted_spc in Hr by (lia || done).
  destruct Hr as (bs & E & Hl & Hb & Hbs). by exists g', bs.
Qed.

Lemma write_element a val size c :
  (0 < size ≤ 8)%nat → cpu_ok c → in_u64 a → a + Z.of_nat size < u64_lim → granted (cmem c) a (Z.of_nat size) Write →
  ∃ g', write_mem_value a val size c = (mkCpu g' (cregs c), XOk tt) ∧ mem_ok g' ∧ stored (cmem c) g' ∧
    bytes_set (cmem c) a (element val size) g'.
Proof.
  intros Hs Hc Ha Hlim Hgr. unfold write_mem_value. rewrite decide_False by lia.
  destruct (write_granted (cmem c) a (element val size) (co_mem _ Hc) Ha) as (g' & E & Hg' & Hst & Hb);
    rewrite ?element_length by lia; try done; [apply Forall_take, le_bytes_byte|].
  exists g'. unfold xmem. unfold element in E. by rewrite E.
Qed.

(** ** Loops and register updates *)

(** The rule of [loopX] with the machine in the invariant. *)
Lemma loopX_rule {S A} (body : S → X (S + A)) (I : S → cpu → Prop) (Q : cpu * xres A → Prop) (μ : S → Z) p s c :
  (∀ s c, I s c → match body s c with
                  | (c', XOk (inl s')) => I s' c' ∧ 0 ≤ μ s' < μ s
                  | (c', XOk (inr a)) => Q (c', XOk a)
                  | (c', XErr e) => Q (c', XErr e)
                  | (c', XAbort w) => Q (c', XAbort w)
                  end) →
  I s c → 0 ≤ μ s < Zpos p → Q (loopX p body s c).
Proof.
  intros Hb HI Hμ. unfold loopX.
  destruct (iter_until_rule (loopX_step body) (λ sc, I sc.1 sc.2) Q (λ sc, μ sc.1) p (s, c)) as (r & -> & HQ);
    [|done..].
  intros [s1 c1] HI1. unfold loopX_step. simpl in *. specialize (Hb s1 c1 HI1).
  by destruct (body s1 c1) as [c2 [[s2|a]|e|w]].
Qed.

Lemma rcx_set_rdi v r : rcx (set_rdi v r) = rcx r.
Proof. unfold rcx, set_rdi, set_gpr, gpr. simpl. by rewrite list_lookup_insert_ne. Qed.
Lemma rcx_set_rsi v r : rcx (set_rsi v r) = rcx r.
Proof. unfold rcx, set_rsi, set_gpr, gpr. simpl. by rewrite list_lookup_insert_ne. Qed.
Lemma rcx_set_rcx v r : regs_ok r → rcx (set_rcx v r) = v.
Proof.
  intros [[Hl _] _ _ _ _]. unfold rcx, set_rcx, set_gpr, gpr. simpl. by rewrite list_lookup_insert_eq by lia.
Qed.
Lemma gpr_set_same i r : regs_ok r → (i < 16)%nat → set_gpr i (gpr r i) r = r.
Proof.
  intros [[Hl _] _ _ _ _] Hi. unfold set_gpr, gpr. destruct r as [g x p f]. simpl in *. f_equal.
  apply list_insert_id. destruct (lookup_lt_is_Some_2 g i) as [v ->]; [lia|done].
Qed.
Lemma set_rdi_rdi a b r : set_rdi a (set_rdi b r) = set_rdi a r.
Proof. unfold set_rdi, set_gpr. simpl. by rewrite list_insert_insert_eq. Qed.
Lemma set_rsi_rsi a b r : set_rsi a (set_rsi b r) = set_rsi a r.
Proof. unfold set_rsi, set_gpr. simpl. by rewrite list_insert_insert_eq. Qed.
Lemma set_rcx_rcx a b r : set_rcx a (set_rcx b r) = set_rcx a r.
Proof. unfold set_rcx, set_gpr. simpl. by rewrite list_insert_insert_eq. Qed.
Lemma set_rdi_rcx a b r : set_rdi a (set_rcx b r) = set_rcx b (set_rdi a r).
Proof. unfold set_rdi, set_rcx, set_gpr. simpl. by rewrite list_insert_insert_ne. Qed.
Lemma set_rsi_rcx a b r : set_rsi a (set_rcx b r) = set_rcx b (set_rsi a r).
Proof. unfold set_rsi, set_rcx, set_gpr. simpl. by rewrite list_insert_insert_ne. Qed.
Lemma set_rdi_rsi a b r : set_rdi a (set_rsi b r) = set_rsi b (set_rdi a r).
Proof. unfold set_rdi, set_rsi, set_gpr. simpl. by rewrite list_insert_insert_ne. Qed.

Lemma advance_step x step j : advance (wrap64 (x + step * j)) step = wrap64 (x + step * (j + 1)).
Proof.
  unfold advance, wrapping_add, as_u, wrap64. change (2 ^ 64) with u64_lim.
  rewrite <- Zplus_mod. f_equal. lia.
Qed.
Lemma wrap64_id x : in_u64 x → wrap64 x = x.
Proof. intros Hx. by apply Z.mod_small. Qed.

(** ** REP STOS *)

(** Lowest address of [n] elements from [a] on, in direction [step]. *)
Definition low_end (step a n : Z) : Z := if decide (0 < step) then a else a + step * (n - 1).

(** Element [j] of [count] in direction [step] lies in their range. *)
Lemma element_inside_of (size : nat) (count step a : Z) :
  (0 < size ≤ 8)%nat → step = Z.of_nat size ∨ step = - Z.of_nat size → 0 < count ≤ REP_BULK_MAX →
  0 ≤ low_end step a count → low_end step a count + count * Z.of_nat size < u64_lim →
  ∀ j, 0 ≤ j < count → low_end step a count ≤ a + step * j ∧
    a + step * j + Z.of_nat size ≤ low_end step a count + count * Z.of_nat size ∧ in_u64 (a + step * j).
Proof.
  intros Hs Hst Hcount Hlo Hlim j Hj. unfold in_u64. unfold low_end in *.
  destruct Hst as [-> | ->]; [rewrite decide_True in * by lia|rewrite decide_False in * by lia]; split_and!; nia.
Qed.

Section Stos.
Context (bulk : option string).

(** Registers after [n] elements. *)
Definition stos_regs (step n : Z) (r : RegFile) : RegFile :=
  set_rcx (rcx r - n) (set_rdi (wrap64 (rdi r + step * n)) r).

Lemma stos_regs_0 step r : regs_ok r → stos_regs step 0 r = r.
Proof.
  intros Hr. unfold stos_regs. rewrite Z.mul_0_r, Z.add_0_r, Z.sub_0_r.
  rewrite wrap64_id by auto with word. unfold set_rcx, set_rdi, rcx, rdi.
  rewrite (gpr_set_same 7) by (done || lia). by rewrite (gpr_set_same 1) by (done || lia).
Qed.

Lemma stos_regs_step step n r :
  regs_ok r → 0 ≤ n < rcx r →
  (λ r1, set_rcx (sat_sub (rcx r1) 1) r1) (set_rdi (wrap64 (rdi r + step * (n + 1))) (stos_regs step n r)) =
  stos_regs step (n + 1) r.
Proof.
  intros Hr Hn. assert (Hr1 : regs_ok (set_rdi (wrap64 (rdi r + step * n)) r)) by auto with regs word.
  unfold stos_regs. cbv beta. rewrite set_rdi_rcx, rcx_set_rcx, set_rdi_rdi, set_rcx_rcx by auto with regs word.
  rewrite sat_sub_le by lia. f_equal. lia.
Qed.

(** The bytes are stored and the machine is fine. *)
Record filled (c : cpu) (a : Z) (bs : list u8) (g : GuestMemory) : Prop := {
  fl_ok : mem_ok g;
  fl_stored : stored (cmem c) g;
  fl_bytes : bytes_set (cmem c) a bs g;
}.

Lemma filled_nil c a : cpu_ok c → filled c a [] (cmem c).
Proof. intros [Hm _]. split; [done|apply stored_refl|apply bytes_set_nil]. Qed.

Lemma granted_stored g g' a n k : stored g g' → granted g a n k → granted g' a n k.
Proof. intros Hs. apply granted_same, Hs. Qed.

Section Run.
Context (size : nat) (val count step : Z) (c : cpu).
Context (Hc : cpu_ok c) (Hsize : (0 < size ≤ 8)%nat).
Context (Hstep : step = Z.of_nat size ∨ step = - Z.of_nat size).
Context (Hcount : 0 < count ≤ REP_BULK_MAX) (Hcx : count ≤ rcx (cregs c)).
Let a := rdi (cregs c).
Let lo := low_end step a count.
Context (Hlo : 0 ≤ lo) (Hlim : lo + count * Z.of_nat size < u64_lim).
Context (Hgr : granted (cmem c) lo (count * Z.of_nat size) Write).

Lemma element_inside j :
  0 ≤ j < count → lo ≤ a + step * j ∧ a + step * j + Z.of_nat size ≤ lo + count * Z.of_nat size ∧ in_u64 (a + step * j).
Proof. by apply element_inside_of. Qed.

(** The low end of the first [j] elements. *)
Let lo_j (j : Z) : Z := low_end step a j.

Lemma element_writes j g :
  0 ≤ j < count → filled c (lo_j j) (repeated (Z.to_nat j) val size) g →
  ∃ g', write_mem_value (wrap64 (a + step * j)) val size (mkCpu g (stos_regs step j (cregs c))) =
      (mkCpu g' (stos_regs step j (cregs c)), XOk tt) ∧
    filled c (lo_j (j + 1)) (repeated (Z.to_nat (j + 1)) val size) g'.
Proof.
  intros Hj [Hg Hst Hb]. destruct (element_inside j Hj) as (H1 & H2 & H3). rewrite wrap64_id by done.
  assert (Hcj : cpu_ok (mkCpu g (stos_regs step j (cregs c)))).
  { split; [done|]. unfold stos_regs. simpl. pose proof (co_regs _ Hc) as Hr.
    apply ok_set_rcx; [auto with regs word|]. pose proof (regs_rcx _ Hr). unfold in_u64 in *. lia. }
  destruct (write_element (a + step * j) val size _ Hsize Hcj H3) as (g' & E & Hg' & Hst' & Hb').
  { lia. }
  { simpl. eapply granted_stored; [exact Hst|]. eapply granted_sub; [exact Hgr|lia|lia]. }
  exists g'. split; [exact E|]. simpl in *. split; [done|by eapply stored_trans|].
  replace (Z.to_nat (j + 1)) with (S (Z.to_nat j)) by lia.
  assert (Hel : length (element val size) = size) by (apply element_length; lia).
  assert (Hrl : Z.of_nat (length (repeated (Z.to_nat j) val size)) = j * Z.of_nat size).
  { rewrite repeated_length by lia. lia. }
  unfold lo_j, low_end in *. destruct Hstep as [-> | ->].
  - rewrite decide_True in * by lia. rewrite repeated_snoc. eapply bytes_set_app; [exact Hb|].
    rewrite Hrl. replace (a + j * Z.of_nat size) with (a + Z.of_nat size * j) by lia. exact Hb'.
  - rewrite decide_False in * by lia. change (S (Z.to_nat j)) with (1 + Z.to_nat j)%nat. rewrite repeated_app, repeated_1.
    replace (a + - Z.of_nat size * (j + 1 - 1)) with
      (a + - Z.of_nat size * (j - 1) - Z.of_nat (length (element val size))) by (rewrite Hel; lia).
    eapply bytes_set_prepend; [exact Hb|]. rewrite Hel.
    replace (a + - Z.of_nat size * (j - 1) - Z.of_nat size) with (a + - Z.of_nat size * j) by lia. exact Hb'.
Qed.

(** The outcome all paths share. *)
Definition stos_outcome (out : cpu * xres bool) : Prop :=
  ∃ g', out = (mkCpu g' (stos_regs step count (cregs c)), XOk true) ∧
    filled c lo (repeated (Z.to_nat count) val size) g'.

Lemma stos_elements : stos_outcome (loopX (fuel_of count) (stos_element val size step) (a, count) c).
Proof.
  pose proof (co_regs _ Hc) as Hr.
  apply (loopX_rule _ (λ s c1, ∃ j g, 0 ≤ j ≤ count ∧ s = (wrap64 (a + step * j), count - j) ∧
    c1 = mkCpu g (stos_regs step j (cregs c)) ∧ filled c (lo_j j) (repeated (Z.to_nat j) val size) g) _ (λ s, s.2)).
  - intros s c1 (j & g & Hj & -> & -> & Hf). unfold stos_element. destruct (decide (0 < count - j)) as [Hlt|Hge].
    + destruct (element_writes j g ltac:(lia) Hf) as (g' & E & Hf'). erewrite xbind_eq by exact E. cbv zeta.
      unfold xmod, mbind, X_bind, mret, X_ret. simpl. rewrite advance_step. split.
      * exists (j + 1), g'. split_and!; [lia|lia|f_equal; rewrite sat_sub_le by lia; lia| |exact Hf'].
        f_equal. apply stos_regs_step; [done|lia].
      * rewrite sat_sub_le by lia. lia.
    + assert (j = count) as -> by lia. exists g. split; [done|exact Hf].
  - exists 0, (cmem c). split_and!; [lia|lia| | |].
    + rewrite Z.mul_0_r, Z.add_0_r, Z.sub_0_r, wrap64_id by (unfold a; auto with word). done.
    + rewrite stos_regs_0 by done. by destruct c.
    + apply filled_nil. done.
  - simpl. unfold fuel_of. lia.
Qed.

(** *** Chunks, forward *)

Lemma stos_chunks :
  0 < step →
  ∃ g', loopX (fuel_of count) (stos_chunk count val size) (a, 0) c =
      (mkCpu g' (cregs c), XOk (Done (wrap64 (a + step * count), count))) ∧
    filled c lo (repeated (Z.to_nat count) val size) g'.
Proof.
  intros Hpos. assert (Hst : step = Z.of_nat size) by lia.
  assert (Hloa : lo = a) by (unfold lo, low_end; by rewrite decide_True).
  apply (loopX_rule _ (λ s c1, ∃ j g, 0 ≤ j ≤ count ∧ s = (wrap64 (a + step * j), j) ∧
    c1 = mkCpu g (cregs c) ∧ filled c a (repeated (Z.to_nat j) val size) g)
    (λ out, ∃ g', out = (mkCpu g' (cregs c), XOk (Done (wrap64 (a + step * count), count))) ∧
      filled c lo (repeated (Z.to_nat count) val size) g') (λ s, count - s.2)).
  2:{ exists 0, (cmem c). split_and!; [lia|lia| |by destruct c|by apply filled_nil].
      rewrite Z.mul_0_r, Z.add_0_r, wrap64_id by (unfold a; pose proof (co_regs _ Hc); auto with word). done. }
  2:{ simpl. unfold fuel_of. lia. }
  intros s c1 (j & g & Hj & -> & -> & [Hg Hsto Hb]). unfold stos_chunk. cbv zeta.
  destruct (decide (j < count)) as [Hlt|Hge].
  2:{ assert (j = count) as -> by lia. exists g. rewrite Hloa. by split. }
  destruct (chunk_bytes_spec count j size Hsize ltac:(lia) ltac:(lia)) as (Ha & _ & He & Hn).
  set (aligned := chunk_bytes count j size) in *. rewrite decide_False by lia.
  set (e := aligned / Z.of_nat size) in *.
  assert (Htake : take (Z.to_nat aligned) (pattern 4096 val size) = repeated (Z.to_nat e) val size).
  { rewrite pattern_repeated by done. rewrite <- He. rewrite Z2Nat.inj_mul, Nat2Z.id by lia.
    apply take_repeated; [lia|]. apply Z2Nat.inj_le; [lia| |].
    - apply Z.div_pos; lia.
    - apply Z.div_le_lower_bound; lia. }
  rewrite Htake. destruct (element_inside j ltac:(lia)) as (H1 & H2 & H3). rewrite wrap64_id by done.
  assert (Hrl : Z.of_nat (length (repeated (Z.to_nat e) val size)) = e * Z.of_nat size) by (rewrite repeated_length by lia; lia).
  destruct (write_granted g (a + step * j) (repeated (Z.to_nat e) val size)) as (g' & E & Hg' & Hst' & Hb');
    [done|done|rewrite Hrl; nia|apply repeated_byte|rewrite Hrl; eapply granted_stored; [exact Hsto|];
      eapply granted_sub; [exact Hgr|lia|nia]|].
  unfold xtry, mbind, X_bind. simpl. rewrite E. simpl.
  assert (Hs1 : sat_mul e (Z.of_nat size) = step * e) by (rewrite sat_mul_lt by lia; lia).
  assert (Hs2 : sat_add j e = j + e) by (apply sat_add_lt; change REP_BULK_MAX with 1048576 in *; lia).
  rewrite Hs1, Hs2. split; [|lia]. exists (j + e), g'. split_and!; [lia|lia| |done|].
  - f_equal. unfold wrapping_add. f_equal. lia.
  - split; [done|by eapply stored_trans|]. rewrite Z2Nat.inj_add by lia. rewrite repeated_app.
    eapply bytes_set_app; [exact Hb|]. rewrite repeated_length by lia.
    replace (a + Z.of_nat (Z.to_nat j * size)) with (a + step * j) by lia. exact Hb'.
Qed.

(** *** The host span *)

Lemma stos_host_path :
  (∃ g, stos_host bulk count a val size step c = (mkCpu g (cregs c), XOk None) ∧ same_but_cache (cmem c) g ∧ mem_ok g) ∨
  (∃ g', stos_host bulk count a val size step c = (mkCpu g' (stos_regs step count (cregs c)), XOk (Some true)) ∧
    filled c lo (repeated (Z.to_nat count) val size) g').
Proof.
  pose proof (co_regs _ Hc) as Hr. destruct (element_inside 0 ltac:(lia)) as (H1 & H2 & H3). rewrite Z.mul_0_r, Z.add_0_r in *.
  assert (Hbl : sat_mul count (Z.of_nat size) = count * Z.of_nat size).
  { apply sat_mul_lt. change REP_BULK_MAX with 1048576 in *. nia. }
  unfold stos_host. rewrite Hbl. cbv zeta.
  destruct (decide _) as [(Hgt & _ & Hmin)|]; [|left; exists (cmem c); split_and!; [by destruct c|done|apply Hc]].
  assert (Hbase : (if decide (0 < step) then Some a else checked_sub a (sat_mul (count - 1) (Z.of_nat size))) = Some lo).
  { unfold lo, low_end. destruct (decide (0 < step)); [done|]. rewrite sat_mul_lt by nia.
    assert (step = - Z.of_nat size) as -> by lia. unfold checked_sub.
    unfold lo, low_end in *. rewrite decide_False in * by lia. rewrite decide_True by lia. f_equal. lia. }
  rewrite Hbase. assert (Hin : in_u64 lo) by (split; lia). assert (Hlen : in_u64 (count * Z.of_nat size)) by (split; lia).
  destruct (span_spec (cmem c) lo (count * Z.of_nat size) true (co_mem _ Hc) Hin Hlen) as (g & o & E & Hs & Hg & Ho).
  unfold xspan, mbind, X_bind. rewrite E. destruct o as [p|]; [|left; exists g; by split_and!]. right.
  destruct Ho as (Hpos & _ & Hgs & Hal).
  assert (Hfill : ∃ g', host_fill_pattern p (count * Z.of_nat size) val size g = (g', Ok tt) ∧ mem_ok g' ∧ stored g g' ∧
    bytes_set g lo (repeated (Z.to_nat count) val size) g').
  { unfold host_fill_pattern. rewrite decide_False by lia.
    assert (Hb : Z.of_nat (length (repeated (Z.to_nat count) val size)) = count * Z.of_nat size)
      by (rewrite repeated_length by lia; lia).
    assert (Hstore : ∃ g', on_backend (on_host (host_store p (repeated (Z.to_nat count) val size))) g = (g', Ok tt) ∧
      mem_ok g' ∧ stored g g' ∧ bytes_set g lo (repeated (Z.to_nat count) val size) g').
    { apply alias_store; rewrite ?Hb; try done; [|apply repeated_byte].
      eapply granted_same; [apply (same_gview _ _ Hs)|done]. }
    destruct (decide (size = 1%nat)) as [->|].
    - rewrite <- (repeated_bytes _ val). by replace (Z.to_nat (count * Z.of_nat 1)) with (Z.to_nat count) by lia.
    - rewrite pattern_repeated by done. by rewrite Z.div_mul by lia. }
  destruct Hfill as (g' & Ef & Hg' & Hst' & Hb'). exists g'. unfold xhost, xmem. simpl. rewrite Ef. simpl. split.
  - assert (Hd : wrapping_add a (if decide (0 < step) then count * Z.of_nat size
      else wrapping_sub 0 (count * Z.of_nat size)) = wrap64 (a + step * count)).
    { unfold wrapping_add. destruct (decide (0 < step)); [f_equal; lia|].
      unfold wrapping_sub, wrap64. rewrite Zplus_mod_idemp_r. f_equal. lia. }
    rewrite Hd, rcx_set_rdi, sat_sub_le by lia. done.
  - split; [done|eapply stored_trans; [by apply same_stored|done]|].
    intros x. rewrite (Hb' x). by rewrite (same_gbyte _ _ Hs).
Qed.

(** *** All paths *)

Lemma filled_same g0 bs g b : same_but_cache (cmem c) g0 → filled (mkCpu g0 (cregs c)) b bs g → filled c b bs g.
Proof.
  intros Hs [H1 H2 H3]. split; [done|eapply stored_trans; [by apply same_stored|done]|].
  intros x. rewrite (H3 x). simpl. by rewrite (same_gbyte _ _ Hs).
Qed.
End Run.

Lemma stos_outcome_same size val count step c g out :
  same_but_cache (cmem c) g → stos_outcome size val count step (mkCpu g (cregs c)) out → stos_outcome size val count step c out.
Proof. intros Hs (g' & -> & Hf). exists g'. split; [done|]. by eapply filled_same. Qed.

Lemma stos_rep_paths size val step c :
  let count := Z.min (rcx (cregs c)) REP_BULK_MAX in
  let lo := low_end step (rdi (cregs c)) count in
  cpu_ok c → (0 < size ≤ 8)%nat → step = Z.of_nat size ∨ step = - Z.of_nat size → 0 < rcx (cregs c) →
  0 ≤ lo → lo + count * Z.of_nat size < u64_lim → granted (cmem c) lo (count * Z.of_nat size) Write →
  stos_outcome size val count step c (stos_rep bulk val size step c).
Proof.
  intros count lo Hc Hs Hst Hcx Hlo Hlim Hgr.
  assert (Hcount : 0 < count ≤ REP_BULK_MAX) by (unfold count; change REP_BULK_MAX with 1048576; lia).
  assert (Hle : count ≤ rcx (cregs c)) by (unfold count; lia).
  unfold stos_rep, xget. unfold mbind at 1, X_bind at 1. unfold mbind at 1, X_bind at 1. fold count. cbv zeta.
  destruct (stos_host_path size val count step c Hc Hs Hst Hcount Hle Hlo Hlim Hgr) as [(g & E & Hsame & Hg)|(g' & E & Hf)].
  2:{ erewrite xbind_eq by exact E. exists g'. by split. }
  erewrite xbind_eq by exact E. cbv beta iota. set (c0 := mkCpu g (cregs c)).
  assert (Hc0 : cpu_ok c0) by (split; [done|apply Hc]).
  assert (Hgr0 : granted (cmem c0) lo (count * Z.of_nat size) Write).
  { eapply granted_same; [apply (same_gview _ _ Hsame)|done]. }
  apply (stos_outcome_same _ _ _ _ c g); [done|]. fold c0. destruct (decide _) as [[Hpos _]|].
  - destruct (stos_chunks size val count step c0 Hc0 Hs Hst Hcount Hle Hlo Hlim Hgr0 Hpos) as (g' & E' & Hf).
    erewrite xbind_eq by exact E'. exists g'. split; [|exact Hf].
    unfold xmod, mbind, X_bind, mret, X_ret. simpl. rewrite bool_decide_eq_true_2 by lia. do 3 f_equal.
    unfold stos_regs. by rewrite rcx_set_rdi, sat_sub_le by lia.
  - exact (stos_elements size val count step c0 Hc0 Hs Hst Hcount Hle Hlo Hlim Hgr0).
Qed.
End Stos.

(** REP STOS on memory the guest may write, in either direction: whichever path runs
    (host span, page chunks or single elements, with the host spans switched off
    or on), one step stores the element [min(RCX, 2^20)] times, moves RDI past
    them, takes their number off RCX and keeps RIP on the instruction. *)
Theorem rep_stos_paths bulk size c :
  let r := cregs c in
  let count := Z.min (rcx r) REP_BULK_MAX in
  let step := df_step size r in
  let lo := low_end step (rdi r) count in
  cpu_ok c → (0 < size ≤ 8)%nat → 0 < rcx r →
  0 ≤ lo → lo + count * Z.of_nat size < u64_lim → granted (cmem c) lo (count * Z.of_nat size) Write →
  ∃ g', string_stos bulk size true c =
      (mkCpu g' (set_rcx (rcx r - count) (set_rdi (wrap64 (rdi r + step * count)) r)), XOk true) ∧
    mem_ok g' ∧ stored (cmem c) g' ∧
    bytes_set (cmem c) lo (repeated (Z.to_nat count) (Z.land (rax r) (size_mask size)) size) g'.
Proof.
  intros r count step lo Hc Hs Hcx Hlo Hlim Hgr.
  assert (Hst : step = Z.of_nat size ∨ step = - Z.of_nat size) by (unfold step, df_step; destruct (flag r DF); auto).
  destruct (stos_rep_paths bulk size (Z.land (rax r) (size_mask size)) step c Hc Hs Hst Hcx Hlo Hlim Hgr)
    as (g' & E & [Hg Hsto Hb]).
  exists g'. split_and!; try done. unfold string_stos, xget. unfold mbind at 1, X_bind at 1.
  rewrite decide_False by (fold r; lia). exact E.
Qed.

(** * REP MOVS: every path copies the same *)

From S2P Require Import Prelude protect pagemap vad arena region mem mem_access mem_ops mem_safe.
From S2P Require Import regs regs_safe insn exec exec_string exec_wf exec_safe step_safe word_spec.

(** The bytes the guest sees in [a, a + n). *)
Definition slice (g : GuestMemory) (a : Z) (n : nat) : list u8 :=
  (λ i, default 0 (gbyte g (a + Z.of_nat i))) <$> seq 0 n.

Lemma slice_length g a n : length (slice g a n) = n.
Proof. unfold slice. by rewrite length_fmap, length_seq. Qed.
Lemma slice_lookup g a n i : (i < n)%nat → slice g a n !! i = Some (default 0 (gbyte g (a + Z.of_nat i))).
Proof. intros Hi. unfold slice. by rewrite list_lookup_fmap, lookup_seq_lt. Qed.
Lemma slice_app g a n m : slice g a (n + m) = slice g a n ++ slice g (a + Z.of_nat n) m.
Proof.
  unfold slice. rewrite seq_app, fmap_app. f_equal. rewrite <- (Nat.add_0_r (0 + n)), <- fmap_add_seq, <- list_fmap_compose.
  apply list_fmap_ext. intros i x _. simpl. do 2 f_equal. lia.
Qed.
Lemma slice_byte g a n : mem_ok g → Forall is_byte (slice g a n).
Proof.
  intros Hg. unfold slice. apply Forall_fmap, Forall_true. intros i. simpl.
  destruct (gbyte g _) as [b|] eqn:E; [by eapply mo_bytes|by vm_compute].
Qed.
Lemma slice_same g g' a n : (∀ x, a ≤ x < a + Z.of_nat n → gbyte g' x = gbyte g x) → slice g' a n = slice g a n.
Proof. intros Hs. unfold slice. apply list_fmap_ext. intros i x [-> Hi]%lookup_seq. by rewrite Hs by lia. Qed.

(** Bytes that were read are the slice. *)
Lemma read_slice_of g a bs :
  (∀ i, (i < length bs)%nat → bs !! i = gbyte g (a + Z.of_nat i)) → bs = slice g a (length bs).
Proof.
  intros Hb. apply list_eq. intros i. destruct (decide (i < length bs)%nat) as [Hi|Hi].
  - rewrite slice_lookup by done. specialize (Hb i Hi). destruct (lookup_lt_is_Some_2 bs i Hi) as [b Eb].
    by rewrite Eb, <- Hb, Eb.
  - rewrite !lookup_ge_None_2; [done|rewrite slice_length; lia|lia].
Qed.

(** ** One element *)

Lemma move_element src dst size c :
  width_ok size → cpu_ok c → in_u64 src → in_u64 dst →
  src + Z.of_nat size < u64_lim → dst + Z.of_nat size < u64_lim →
  granted (cmem c) src (Z.of_nat size) Read → granted (cmem c) dst (Z.of_nat size) Write →
  ∃ g v g', read_mem_value src size c = (mkCpu g (cregs c), XOk v) ∧
    write_mem_value dst v size (mkCpu g (cregs c)) = (mkCpu g' (cregs c), XOk tt) ∧
    mem_ok g' ∧ stored (cmem c) g' ∧ bytes_set (cmem c) dst (slice (cmem c) src size) g'.
Proof.
  intros Hw Hc Hsrc Hdst Hl1 Hl2 Hg1 Hg2. assert (Hs : (0 < size ≤ 8)%nat).
  { apply width_cases in Hw. lia. }
  destruct (read_granted (cmem c) src size (co_mem _ Hc) Hsrc Hl1 Hg1) as (g & bs & E & Hsame & Hg & Hl & Hb & Hbs).
  assert (Hread : read_mem_value src size c = (mkCpu g (cregs c), XOk (le_val bs))).
  { unfold read_mem_value. rewrite decide_False by lia. unfold xmem, mbind, X_bind. rewrite E.
    apply width_cases in Hw as [-> |[-> |[-> | ->]]]; done. }
  assert (Hc1 : cpu_ok (mkCpu g (cregs c))) by (split; [done|apply Hc]).
  destruct (write_element dst (le_val bs) size (mkCpu g (cregs c)) Hs Hc1 Hdst Hl2) as (g' & Ew & Hg' & Hst & Hset).
  { eapply granted_same; [apply (same_gview _ _ Hsame)|done]. }
  exists g, (le_val bs), g'. split_and!; try done; [eapply stored_trans; [by apply same_stored|done]|].
  assert (Hel : element (le_val bs) size = slice (cmem c) src size).
  { rewrite <- Hl at 2. rewrite <- (read_slice_of (cmem c) src bs) by (by rewrite Hl).
    unfold element. rewrite <- Hl. rewrite <- (le_bytes_le_val bs Hb) at 3.
    clear -Hs Hl. revert Hs. rewrite <- Hl. generalize (le_val bs), (length bs). clear.
    intros v n Hn. assert (Hp : ∀ m k w, (k ≤ m)%nat → take k (le_bytes m w) = le_bytes k w).
    { induction m as [|m IH]; intros [|k] w Hk; simpl; try done; [lia|]. f_equal. apply IH. lia. }
    apply Hp. lia. }
  rewrite <- Hel. intros x. rewrite (Hset x). simpl. by rewrite (same_gbyte _ _ Hsame).
Qed.

Lemma rcx_movs a b r : rcx (set_rdi a (set_rsi b r)) = rcx r.
Proof. by rewrite rcx_set_rdi, rcx_set_rsi. Qed.

Definition movs_regs (step n : Z) (r : RegFile) : RegFile :=
  set_rcx (rcx r - n) (set_rdi (wrap64 (rdi r + step * n)) (set_rsi (wrap64 (rsi r + step * n)) r)).

Lemma movs_regs_0 step r : regs_ok r → movs_regs step 0 r = r.
Proof.
  intros Hr. unfold movs_regs. rewrite Z.mul_0_r, !Z.add_0_r, Z.sub_0_r.
  rewrite !wrap64_id by auto with word. unfold set_rcx, set_rdi, set_rsi, rcx, rdi, rsi.
  rewrite (gpr_set_same 6), (gpr_set_same 7) by (done || lia). by rewrite (gpr_set_same 1) by (done || lia).
Qed.

Lemma movs_regs_step step n r :
  regs_ok r → 0 ≤ n < rcx r →
  (λ r1, set_rcx (sat_sub (rcx r1) 1) r1)
    (set_rdi (wrap64 (rdi r + step * (n + 1))) (set_rsi (wrap64 (rsi r + step * (n + 1))) (movs_regs step n r))) =
  movs_regs step (n + 1) r.
Proof.
  intros Hr Hn. unfold movs_regs. cbv beta.
  assert (Hr1 : regs_ok (set_rdi (wrap64 (rdi r + step * n)) (set_rsi (wrap64 (rsi r + step * n)) r))) by auto with regs word.
  rewrite rcx_movs, rcx_set_rcx by done.
  rewrite set_rsi_rcx, set_rdi_rcx, set_rcx_rcx. rewrite <- (set_rdi_rsi _ _ (set_rsi _ r)), set_rdi_rdi, set_rsi_rsi.
  rewrite sat_sub_le by lia. f_equal. lia.
Qed.

Section Movs.
Context (bulk : option string).

Section Run.
Context (size : nat) (count step : Z) (c : cpu).
Context (Hc : cpu_ok c) (Hw : width_ok size).
Context (Hstep : step = Z.of_nat size ∨ step = - Z.of_nat size).
Context (Hcount : 0 < count ≤ REP_BULK_MAX) (Hcx : count ≤ rcx (cregs c)).
Let src := rsi (cregs c).
Let dst := rdi (cregs c).
Let slo := low_end step src count.
Let dlo := low_end step dst count.
Let len := count * Z.of_nat size.
Context (Hslo : 0 ≤ slo) (Hdlo : 0 ≤ dlo) (Hslim : slo + len < u64_lim) (Hdlim : dlo + len < u64_lim).
Context (Hgs : granted (cmem c) slo len Read) (Hgd : granted (cmem c) dlo len Write).
Context (Hdisj : slo + len ≤ dlo ∨ dlo + len ≤ slo).

Lemma movs_size : (0 < size ≤ 8)%nat.
Proof. apply width_cases in Hw. lia. Qed.

Lemma src_inside j :
  0 ≤ j < count → slo ≤ src + step * j ∧ src + step * j + Z.of_nat size ≤ slo + len ∧ in_u64 (src + step * j).
Proof. apply (element_inside_of size count step src); [apply movs_size|done..]. Qed.
Lemma dst_inside j :
  0 ≤ j < count → dlo ≤ dst + step * j ∧ dst + step * j + Z.of_nat size ≤ dlo + len ∧ in_u64 (dst + step * j).
Proof. apply (element_inside_of size count step dst); [apply movs_size|done..]. Qed.

(** The source bytes of the first [j] elements, as they were. *)
Definition moved (j : Z) : list u8 := slice (cmem c) (low_end step src j) (Z.to_nat j * size).

(** The source is where it was. *)
Lemma source_kept j g :
  0 ≤ j ≤ count → filled c (low_end step dst j) (moved j) g →
  ∀ x, slo ≤ x < slo + len → gbyte g x = gbyte (cmem c) x.
Proof.
  intros Hj [_ _ Hb] x Hx. rewrite (Hb x). unfold moved. rewrite slice_length.
  destruct (decide (_ ≤ x < _)) as [Hin|]; [|done]. exfalso. pose proof movs_size.
  assert (Hn : Z.of_nat (Z.to_nat j * size) = j * Z.of_nat size) by lia. rewrite Hn in Hin.
  destruct (decide (j = 0)) as [->|]; [lia|].
  destruct (dst_inside 0 ltac:(lia)) as (A1 & A2 & _). destruct (dst_inside (j - 1) ltac:(lia)) as (B1 & B2 & _).
  unfold low_end in Hin. destruct Hstep as [E|E]; rewrite E in *;
    [rewrite decide_True in Hin by lia|rewrite decide_False in Hin by lia]; nia.
Qed.

Lemma element_moves j g :
  0 ≤ j < count → filled c (low_end step dst j) (moved j) g →
  ∃ g1 v g',
    read_mem_value (wrap64 (src + step * j)) size (mkCpu g (movs_regs step j (cregs c))) =
      (mkCpu g1 (movs_regs step j (cregs c)), XOk v) ∧
    write_mem_value (wrap64 (dst + step * j)) v size (mkCpu g1 (movs_regs step j (cregs c))) =
      (mkCpu g' (movs_regs step j (cregs c)), XOk tt) ∧
    filled c (low_end step dst (j + 1)) (moved (j + 1)) g'.
Proof.
  intros Hj Hf. pose proof (source_kept j g ltac:(lia) Hf) as Hkept. destruct Hf as [Hg Hst Hb].
  destruct (src_inside j Hj) as (A1 & A2 & A3). destruct (dst_inside j Hj) as (B1 & B2 & B3).
  rewrite !wrap64_id by done. pose proof movs_size as Hs.
  assert (Hcj : cpu_ok (mkCpu g (movs_regs step j (cregs c)))).
  { split; [done|]. unfold movs_regs. simpl. pose proof (co_regs _ Hc) as Hr.
    apply ok_set_rcx; [auto with regs word|]. pose proof (regs_rcx _ Hr). unfold in_u64 in *. lia. }
  destruct (move_element (src + step * j) (dst + step * j) size _ Hw Hcj A3 B3) as (g1 & v & g' & E1 & E2 & Hg' & Hst' & Hb').
  { lia. }
  { lia. }
  { eapply granted_stored; [exact Hst|]. eapply granted_sub; [exact Hgs|lia|lia]. }
  { eapply granted_stored; [exact Hst|]. eapply granted_sub; [exact Hgd|lia|lia]. }
  exists g1, v, g'. split_and!; [exact E1|exact E2|]. simpl in *. split; [done|by eapply stored_trans|].
  assert (Hsl : slice g (src + step * j) size = slice (cmem c) (src + step * j) size).
  { apply slice_same. intros x Hx. apply Hkept. lia. }
  rewrite Hsl in Hb'. unfold moved. replace (Z.to_nat (j + 1) * size)%nat with (Z.to_nat j * size + size)%nat by lia.
  assert (Hml : Z.of_nat (length (moved j)) = j * Z.of_nat size) by (unfold moved; rewrite slice_length; lia).
  unfold moved in Hb, Hml. unfold low_end in *. destruct Hstep as [E|E]; rewrite E in *.
  - rewrite !decide_True in * by lia. rewrite slice_app. eapply bytes_set_app; [exact Hb|].
    rewrite Hml. replace (dst + j * Z.of_nat size) with (dst + Z.of_nat size * j) by lia.
    replace (src + Z.of_nat (Z.to_nat j * size)) with (src + Z.of_nat size * j) by lia. exact Hb'.
  - rewrite !decide_False in * by lia. rewrite Nat.add_comm, slice_app.
    replace (src + - Z.of_nat size * (j + 1 - 1)) with (src + - Z.of_nat size * j) by lia.
    replace (src + - Z.of_nat size * j + Z.of_nat size) with (src + - Z.of_nat size * (j - 1)) by lia.
    replace (dst + - Z.of_nat size * (j + 1 - 1)) with
      (dst + - Z.of_nat size * (j - 1) - Z.of_nat (length (slice (cmem c) (src + - Z.of_nat size * j) size)))
      by (rewrite slice_length; lia).
    eapply bytes_set_prepend; [exact Hb|]. rewrite slice_length.
    replace (dst + - Z.of_nat size * (j - 1) - Z.of_nat size) with (dst + - Z.of_nat size * j) by lia. exact Hb'.
Qed.

(** The outcome all paths share. *)
Definition movs_outcome (out : cpu * xres bool) : Prop :=
  ∃ g', out = (mkCpu g' (movs_regs step count (cregs c)), XOk true) ∧ filled c dlo (moved count) g'.

Lemma filled_start a : filled c a (moved 0) (cmem c).
Proof. by apply filled_nil. Qed.

Lemma movs_elements : movs_outcome (loopX (fuel_of count) (movs_element size step) (src, dst, count) c).
Proof.
  pose proof (co_regs _ Hc) as Hr.
  apply (loopX_rule _ (λ s c1, ∃ j g, 0 ≤ j ≤ count ∧
    s = (wrap64 (src + step * j), wrap64 (dst + step * j), count - j) ∧
    c1 = mkCpu g (movs_regs step j (cregs c)) ∧ filled c (low_end step dst j) (moved j) g) _ (λ s, s.2)).
  - intros s c1 (j & g & Hj & -> & -> & Hf). unfold movs_element. destruct (decide (0 < count - j)) as [Hlt|Hge].
    + destruct (element_moves j g ltac:(lia) Hf) as (g1 & v & g' & E1 & E2 & Hf').
      erewrite xbind_eq by exact E1. erewrite xbind_eq by exact E2. cbv zeta.
      unfold xmod, mbind, X_bind, mret, X_ret. simpl. rewrite !advance_step. split.
      * exists (j + 1), g'. split_and!; [lia|lia|f_equal; rewrite sat_sub_le by lia; lia| |exact Hf'].
        f_equal. apply movs_regs_step; [done|lia].
      * rewrite sat_sub_le by lia. lia.
    + assert (j = count) as -> by lia. exists g. by split.
  - exists 0, (cmem c). split_and!; [lia|lia| | |].
    + rewrite Z.mul_0_r, !Z.add_0_r, Z.sub_0_r, !wrap64_id by (unfold src, dst; auto with word). done.
    + rewrite movs_regs_0 by done. by destruct c.
    + apply filled_start.
  - simpl. unfold fuel_of. lia.
Qed.

(** *** Chunks, forward *)

Lemma movs_chunks :
  0 < step →
  ∃ g', loopX (fuel_of count) (movs_chunk count size) (src, dst, 0) c =
      (mkCpu g' (cregs c), XOk (Done (wrap64 (src + step * count), wrap64 (dst + step * count), count))) ∧
    filled c dlo (moved count) g'.
Proof.
  intros Hpos. assert (Hst : step = Z.of_nat size) by lia. pose proof movs_size as Hs.
  assert (Hlo : ∀ a j, low_end step a j = a) by (intros a j; unfold low_end; by rewrite decide_True).
  apply (loopX_rule _ (λ s c1, ∃ j g, 0 ≤ j ≤ count ∧
    s = (wrap64 (src + step * j), wrap64 (dst + step * j), j) ∧
    c1 = mkCpu g (cregs c) ∧ filled c (low_end step dst j) (moved j) g)
    (λ out, ∃ g', out = (mkCpu g' (cregs c), XOk (Done (wrap64 (src + step * count), wrap64 (dst + step * count), count))) ∧
      filled c dlo (moved count) g') (λ s, count - s.2)).
  2:{ exists 0, (cmem c). split_and!; [lia|lia| |by destruct c|by apply filled_start]. pose proof (co_regs _ Hc).
      rewrite Z.mul_0_r, !Z.add_0_r, !wrap64_id by (unfold src, dst; auto with word). done. }
  2:{ simpl. unfold fuel_of. lia. }
  intros s c1 (j & g & Hj & -> & -> & Hf). unfold movs_chunk. cbv zeta.
  destruct (decide (j < count)) as [Hlt|Hge].
  2:{ assert (j = count) as -> by lia. exists g. by split. }
  pose proof (source_kept j g ltac:(lia) Hf) as Hkept. destruct Hf as [Hg Hsto Hb].
  destruct (chunk_bytes_spec count j size Hs ltac:(lia) ltac:(lia)) as (Ha & _ & He & Hn).
  set (aligned := chunk_bytes count j size) in *. rewrite decide_False by lia.
  set (e := aligned / Z.of_nat size) in *.
  destruct (src_inside j ltac:(lia)) as (A1 & A2 & A3). destruct (dst_inside j ltac:(lia)) as (B1 & B2 & B3).
  rewrite !wrap64_id by done. unfold slo, dlo in *. rewrite !Hlo in *. unfold len in *.
  assert (Hend : step * j + aligned ≤ count * Z.of_nat size).
  { rewrite Hst, <- He. clear -Hn Hs. nia. }
  assert (Hnn : Z.of_nat (Z.to_nat j * size) = step * j) by lia.
  assert (Hse : step * e = aligned) by (rewrite Hst, Z.mul_comm; exact He).
  destruct (read_granted g (src + step * j) (Z.to_nat aligned)) as (g1 & bs & E & Hsame & Hg1 & Hl & Hbb & Hbs);
    [done|done|lia|eapply granted_stored; [exact Hsto|]; eapply granted_sub; [exact Hgs|lia|lia]|].
  erewrite xbind_eq by (unfold xtry; cbn [cmem]; rewrite E; reflexivity). cbv beta iota.
  assert (Hbsl : Z.of_nat (length bs) = aligned) by lia.
  destruct (write_granted g1 (dst + step * j) bs) as (g2 & E2 & Hg2 & Hst2 & Hb2);
    [done|done|rewrite Hbsl; lia|done|rewrite Hbsl; eapply granted_same; [apply (same_gview _ _ Hsame)|];
      eapply granted_stored; [exact Hsto|]; eapply granted_sub; [exact Hgd|lia|lia]|].
  erewrite xbind_eq by (unfold xtry; cbn [cmem]; rewrite E2; reflexivity). cbv beta iota. unfold mret, X_ret.
  cbn [fst snd cregs].
  assert (Hs1 : sat_mul e (Z.of_nat size) = step * e) by (rewrite sat_mul_lt by lia; by rewrite Hse).
  assert (Hs2 : sat_add j e = j + e) by (apply sat_add_lt; change REP_BULK_MAX with 1048576 in *; lia).
  rewrite Hs1, Hs2. split; [|lia]. exists (j + e), g2. split_and!; [lia|lia| |done|].
  - by rewrite Z.mul_add_distr_l, !Z.add_assoc.
  - split; [done|eapply stored_trans; [exact Hsto|]; eapply stored_trans; [by apply same_stored|done]|].
    unfold moved. rewrite !Hlo. replace (Z.to_nat (j + e) * size)%nat with (Z.to_nat j * size + length bs)%nat
      by (rewrite Z2Nat.inj_add by lia; nia).
    rewrite slice_app. assert (Hbsv : bs = slice (cmem c) (src + Z.of_nat (Z.to_nat j * size)) (length bs)).
    { rewrite (read_slice_of g (src + step * j) bs) at 1 by (by rewrite Hl).
      rewrite Hnn. apply slice_same. intros x Hx. apply Hkept. lia. }
    rewrite <- Hbsv. unfold moved in Hb. rewrite Hlo in Hb. eapply bytes_set_app; [exact Hb|]. rewrite slice_length, Hnn. intros x. rewrite (Hb2 x). by rewrite (same_gbyte _ _ Hsame).
Qed.
(** *** The host spans *)

Lemma host_copy_span g p q a b n :
  mem_ok g → granted g a (Z.of_nat n) Read → host_alias g p a (Z.of_nat n) → host_alias g q b (Z.of_nat n) →
  granted g b (Z.of_nat n) Write →
  ∃ g', host_copy p q (Z.of_nat n) g = (g', Ok tt) ∧ mem_ok g' ∧ stored g g' ∧ bytes_set g b (slice g a n) g'.
Proof.
  intros Hg Hrd Hp Hq Hgr. destruct (alias_load g p a n Hg Hrd Hp) as (bs & E & Hl & Hb & Hbs).
  assert (Hbsv : bs = slice g a n) by (rewrite <- Hl; apply read_slice_of; by rewrite Hl).
  destruct (alias_store g q b bs Hg) as (g' & Es & H1 & H2 & H3); rewrite ?Hl; try done.
  exists g'. unfold host_copy. rewrite Nat2Z.id, E, Es, <- Hbsv. by split_and!.
Qed.

Lemma movs_delta x :
  wrapping_add x (if decide (0 < step) then len else wrapping_sub 0 len) = wrap64 (x + step * count).
Proof.
  unfold wrapping_add, wrapping_sub, wrap64, len. destruct (decide (0 < step)); [|rewrite Zplus_mod_idemp_r]; f_equal; lia.
Qed.

Lemma movs_host_path overlap :
  (∃ g, movs_host bulk count src dst slo dlo size step overlap c = (mkCpu g (cregs c), XOk None) ∧
    same_but_cache (cmem c) g ∧ mem_ok g) ∨
  (∃ g', movs_host bulk count src dst slo dlo size step overlap c = (mkCpu g' (movs_regs step count (cregs c)), XOk (Some true)) ∧
    filled c dlo (moved count) g').
Proof.
  pose proof movs_size as Hs. pose proof (co_mem _ Hc) as Hm.
  assert (Hbl : sat_mul count (Z.of_nat size) = len).
  { apply sat_mul_lt. change REP_BULK_MAX with 1048576 in *. nia. }
  assert (Hlen : in_u64 len) by (unfold len in *; split; lia).
  unfold movs_host. rewrite Hbl. cbv zeta.
  destruct (decide _) as [(Hgt & _)|]; [|left; exists (cmem c); split_and!; [by destruct c|done|done]].
  destruct (span_spec (cmem c) slo len false Hm) as (g1 & o1 & E1 & Hs1 & Hg1 & Ho1); [split; lia|done|].
  destruct (span_spec g1 dlo len true Hg1) as (g2 & o2 & E2 & Hs2 & Hg2 & Ho2); [split; lia|done|].
  pose proof (same_but_cache_trans _ _ _ Hs1 Hs2) as Hs12.
  erewrite xbind_eq by (unfold xspan; rewrite E1; reflexivity).
  erewrite xbind_eq by (unfold xspan; cbn [cmem]; rewrite E2; reflexivity). cbn [cregs].
  destruct o1 as [p|]; [|left; exists g2; by split_and!]. destruct o2 as [q|]; [|left; exists g2; by split_and!].
  cbv beta iota. destruct (host_ranges_overlap p q len); [left; exists g2; by split_and!|]. right.
  destruct Ho1 as (_ & _ & Hgr1 & Hal1). destruct Ho2 as (_ & _ & Hgr2 & Hal2).
  assert (Hn : len = Z.of_nat (Z.to_nat count * size)) by (unfold len; lia).
  pose proof (alias_stored _ _ _ _ _ (same_stored _ _ Hs2) Hal1) as Hal1'. pose proof (granted_same _ _ _ _ _ (same_gview _ _ Hs12) Hgr1) as Hgr1'.
  rewrite Hn in Hal1', Hal2, Hgr1'.
  destruct (host_copy_span g2 p q slo dlo (Z.to_nat count * size) Hg2 Hgr1' Hal1' Hal2) as (g' & Ec & Hg' & Hst & Hb).
  { rewrite <- Hn. eapply granted_same; [apply (same_gview _ _ Hs2)|done]. }
  exists g'. rewrite <- Hn in Ec. split.
  - erewrite xbind_eq by (unfold xhost, xmem; cbn [cmem]; rewrite Ec; reflexivity).
    unfold xmod, mbind, X_bind, mret, X_ret. cbn [cmem cregs]. do 2 f_equal. unfold movs_regs.
    by rewrite (movs_delta src), (movs_delta dst), rcx_movs, sat_sub_le by lia.
  - split; [done|eapply stored_trans; [by apply same_stored|done]|]. intros x. rewrite (Hb x).
    rewrite (slice_same (cmem c) g2) by (intros; by rewrite (same_gbyte _ _ Hs12)).
    by rewrite (same_gbyte _ _ Hs12).
Qed.

(** The ranges are told apart. *)
Lemma movs_no_overlap : ranges_overlap slo dlo len = false.
Proof.
  unfold ranges_overlap. pose proof movs_size. destruct (decide (len = 0)); [done|].
  assert (Hl : 0 < len) by (unfold len; lia).
  unfold wrapping_add, wrapping_sub. rewrite !(wrap64_id (len - 1)) by (split; lia).
  rewrite !wrap64_id by (split; lia). apply andb_false_iff.
  destruct Hdisj; [right|left]; apply bool_decide_eq_false_2; lia.
Qed.
End Run.

Lemma movs_outcome_same size count step c g out :
  same_but_cache (cmem c) g → movs_outcome size count step (mkCpu g (cregs c)) out → movs_outcome size count step c out.
Proof.
  intros Hs (g' & -> & Hf). exists g'. split; [done|]. unfold moved in *. simpl in Hf.
  rewrite (slice_same (cmem c) g) in Hf by (intros; by rewrite (same_gbyte _ _ Hs)). by eapply filled_same.
Qed.

(** The low ends as the code computes them. *)
Lemma movs_low_ends (size : nat) (count step x y : Z) :
  (0 < size ≤ 8)%nat → step = Z.of_nat size ∨ step = - Z.of_nat size → 0 < count ≤ REP_BULK_MAX →
  in_u64 x → in_u64 y → 0 ≤ low_end step x count → 0 ≤ low_end step y count →
  (let last_off := sat_mul (sat_sub count 1) (Z.of_nat size) in
   if decide (0 < step) then (x, y) else (wrapping_sub x last_off, wrapping_sub y last_off)) =
  (low_end step x count, low_end step y count).
Proof.
  intros Hs Hst Hc Hx Hy Hlx Hly. cbv zeta. unfold low_end in *. destruct (decide (0 < step)); [done|].
  assert (step = - Z.of_nat size) as -> by lia. change REP_BULK_MAX with 1048576 in *. unfold in_u64 in *.
  rewrite sat_sub_le, sat_mul_lt by nia. unfold wrapping_sub. rewrite !wrap64_id by (unfold in_u64; nia). f_equal; lia.
Qed.

Lemma movs_rep_paths size step c :
  let count := Z.min (rcx (cregs c)) REP_BULK_MAX in
  let slo := low_end step (rsi (cregs c)) count in
  let dlo := low_end step (rdi (cregs c)) count in
  let len := count * Z.of_nat size in
  cpu_ok c → width_ok size → step = Z.of_nat size ∨ step = - Z.of_nat size → 0 < rcx (cregs c) →
  0 ≤ slo → 0 ≤ dlo → slo + len < u64_lim → dlo + len < u64_lim →
  granted (cmem c) slo len Read → granted (cmem c) dlo len Write →
  slo + len ≤ dlo ∨ dlo + len ≤ slo →
  movs_outcome size count step c (movs_rep bulk size step c).
Proof.
  intros count slo dlo len Hc Hw Hst Hcx Hslo Hdlo Hsl Hdl Hgs Hgd Hdisj.
  assert (Hcount : 0 < count ≤ REP_BULK_MAX) by (unfold count; change REP_BULK_MAX with 1048576; lia).
  assert (Hle : count ≤ rcx (cregs c)) by (unfold count; lia).
  assert (Hs : (0 < size ≤ 8)%nat) by (apply width_cases in Hw; lia). pose proof (co_regs _ Hc) as Hr.
  unfold movs_rep, xget. do 3 (unfold mbind at 1, X_bind at 1). fold count. cbv zeta.
  pose proof (movs_low_ends size count step (rsi (cregs c)) (rdi (cregs c)) Hs Hst Hcount
    ltac:(auto with word) ltac:(auto with word) Hslo Hdlo) as El. cbv zeta in El. rewrite El. fold slo dlo.
  assert (Hbl : sat_mul count (Z.of_nat size) = len).
  { apply sat_mul_lt. change REP_BULK_MAX with 1048576 in *. nia. }
  rewrite Hbl. assert (Hno : ranges_overlap slo dlo len = false).
  { by apply (movs_no_overlap size count step c). }
  rewrite Hno.
  destruct (movs_host_path size count step c Hc Hw Hst Hcount Hle Hslo Hdlo Hsl Hdl Hgs Hgd Hdisj false)
    as [(g & E & Hsame & Hg)|(g' & E & Hf)].
  2:{ erewrite xbind_eq by exact E. exists g'. by split. }
  erewrite xbind_eq by exact E. cbv beta iota. set (c0 := mkCpu g (cregs c)).
  assert (Hc0 : cpu_ok c0) by (split; [done|apply Hc]).
  assert (Hgs0 : granted (cmem c0) slo len Read) by (eapply granted_same; [apply (same_gview _ _ Hsame)|done]).
  assert (Hgd0 : granted (cmem c0) dlo len Write) by (eapply granted_same; [apply (same_gview _ _ Hsame)|done]).
  apply (movs_outcome_same _ _ _ c g); [done|]. fold c0. destruct (decide (0 < step ∧ 1 < count ∧ false = false)) as [[Hpos _]|].
  - destruct (movs_chunks size count step c0 Hc0 Hw Hst Hcount Hle Hslo Hdlo Hsl Hdl Hgs0 Hgd0 Hdisj Hpos) as (g' & E' & Hf).
    erewrite xbind_eq by exact E'. exists g'. split; [|exact Hf].
    unfold xmod, mbind, X_bind, mret, X_ret. simpl. rewrite bool_decide_eq_true_2 by lia. do 3 f_equal.
    unfold movs_regs. by rewrite rcx_movs, sat_sub_le by lia.
  - exact (movs_elements size count step c0 Hc0 Hw Hst Hcount Hle Hslo Hdlo Hsl Hdl Hgs0 Hgd0 Hdisj).
Qed.
End Movs.

(** REP MOVS between two apart ranges the guest may read and write, in either
    direction: whichever path runs (a copy between host spans, page chunks or
    single elements), one step copies the [min(RCX, 2^20)] elements the source
    range held, moves RSI and RDI past them, takes their number off RCX and keeps
    RIP on the instruction. *)
Theorem rep_movs_paths bulk size c :
  let r := cregs c in
  let count := Z.min (rcx r) REP_BULK_MAX in
  let step := df_step size r in
  let slo := low_end step (rsi r) count in
  let dlo := low_end step (rdi r) count in
  let len := count * Z.of_nat size in
  cpu_ok c → width_ok size → 0 < rcx r →
  0 ≤ slo → 0 ≤ dlo → slo + len < u64_lim → dlo + len < u64_lim →
  granted (cmem c) slo len Read → granted (cmem c) dlo len Write →
  slo + len ≤ dlo ∨ dlo + len ≤ slo →
  ∃ g', string_movs bulk size true c =
      (mkCpu g' (set_rcx (rcx r - count) (set_rdi (wrap64 (rdi r + step * count))
        (set_rsi (wrap64 (rsi r + step * count)) r))), XOk true) ∧
    mem_ok g' ∧ stored (cmem c) g' ∧
    bytes_set (cmem c) dlo (slice (cmem c) slo (Z.to_nat count * size)) g'.
Proof.
  intros r count step slo dlo len Hc Hw Hcx Hslo Hdlo Hsl Hdl Hgs Hgd Hdisj.
  assert (Hst : step = Z.of_nat size ∨ step = - Z.of_nat size) by (unfold step, df_step; destruct (flag r DF); auto).
  destruct (movs_rep_paths bulk size step c Hc Hw Hst Hcx Hslo Hdlo Hsl Hdl Hgs Hgd Hdisj)
    as (g' & E & [Hg Hsto Hb]).
  exists g'. split_and!; try done. unfold string_movs, xget. do 2 (unfold mbind at 1, X_bind at 1).
  rewrite decide_False by (fold r; lia). exact E.
Qed.
