(* ===== verification/rep_live.v ===== *)
(** * REP STOS comes to its end

    One step of a REP instruction does a bounded part of it and leaves RIP on the
    instruction.  Over memory the guest may write, the steps add up: the memory is
    filled, RCX is 0 and RIP on the next instruction. *)

From stdpp Require Import relations.
From S2P Require Import Prelude protect pagemap vad arena region mem mem_access mem_ops mem_safe.
From S2P Require Import regs regs_safe insn exec exec_string exec_sse exec_one exec_wf exec_safe.
From S2P Require Import step_safe word_spec string_spec.

(** ** The same fetch again *)

Lemma prefix_bytes_ext (f f' : Z → option u8) n : ∀ a,
  (∀ x, a ≤ x < a + Z.of_nat n → f' x = f x) → prefix_bytes f' a n = prefix_bytes f a n.
Proof.
  induction n as [|n IH]; intros a Hf; simpl; [done|]. rewrite Hf by lia. destruct (f a); [|done].
  f_equal. apply IH. intros x Hx. apply Hf. lia.
Qed.

Definition same_code (a : u64) (g g' : GuestMemory) : Prop :=
  gview g' = gview g ∧ ∀ x, a ≤ x < a + 15 → gbyte g' x = gbyte g x.

(** A fetch, and how far it goes. *)
Lemma fetch15_max rip c :
  cpu_ok c → in_u64 rip →
  ∃ c' r, fetch15 rip c = (c', r) ∧ cpu_ok c' ∧ cregs c' = cregs c ∧ same_but_cache (cmem c) (cmem c') ∧
    match r with
    | Ok bytes => ∃ n, 0 < n ≤ 15 ∧ spc (cmem c) rip n Execute = Ok tt ∧
        (n < 15 → spc (cmem c) rip (n + 1) Execute ≠ Ok tt) ∧ bytes = prefix_bytes (gbyte (cmem c)) rip (Z.to_nat n)
    | Err _ => spc (cmem c) rip 1 Execute ≠ Ok tt
    | Abort _ => False
    end.
Proof.
  intros [Hg Hr] Hrip. unfold fetch15.
  destruct (gm_fetch_holds (cmem c) rip (replicate 15 0)) as (g' & out' & r & -> & Hs & Hwf & Hres);
    [apply Hg|done|by vm_compute|done|intros n _; by apply (fetch_allowed _ _ _ Hg)|].
  assert (Hok : mem_ok g') by (by eapply mem_ok_same). rewrite length_replicate in Hres.
  destruct r as [n|e|w]; [|eexists _, _; split; [done|]; split_and!; try done; apply Hres|done].
  destruct Hres as (Hn & Hspc & Hmax & -> & Hb). change (Z.of_nat 15 `min` 15) with 15 in *.
  destruct (prefix_bytes_backed (backend (cmem c)) rip (Z.to_nat n)) as [Hl _].
  { intros x Hx. apply byte_at_is_Some. replace x with (rip + (x - rip)) by lia. apply Hb. lia. }
  rewrite take_app_length' by done. eexists _, _. split; [reflexivity|]. split_and!; try done. by exists n.
Qed.

(** Where view and code bytes are the same, so is the fetch. *)
Lemma fetch15_again rip c c1 bytes c' :
  cpu_ok c → in_u64 rip → fetch15 rip c = (c1, Ok bytes) → cpu_ok c' → same_code rip (cmem c) (cmem c') →
  ∃ c2, fetch15 rip c' = (c2, Ok bytes) ∧ cpu_ok c2 ∧ cregs c2 = cregs c' ∧ same_but_cache (cmem c') (cmem c2).
Proof.
  intros Hc Hrip E Hc' [Hv Hb].
  destruct (fetch15_max rip c Hc Hrip) as (c1' & r & E' & _ & _ & _ & Hr). rewrite E in E'. injection E' as <- <-.
  destruct Hr as (n & Hn & Hs & Hmax & ->).
  destruct (fetch15_max rip c' Hc' Hrip) as (c2 & r & E' & Hc2 & Hr2 & Hsame & Hr).
  assert (Hspc : ∀ k, spc (cmem c') rip k Execute = spc (cmem c) rip k Execute) by (intros k; unfold spc; by rewrite Hv).
  destruct r as [bytes|e|w]; [|exfalso; apply Hr; rewrite Hspc; eapply spc_shrink; [done| |exact Hs]; lia|done].
  destruct Hr as (m & Hm & Hs' & Hmax' & ->). rewrite !Hspc in *.
  assert (Hle : ∀ p q, p < q → q ≤ 15 → spc (cmem c) rip q Execute = Ok tt → (p < 15 → spc (cmem c) rip (p + 1) Execute ≠ Ok tt) →
    0 < p → False).
  { intros p q Hpq Hq Hsq Hp Hp0. apply Hp; [lia|]. eapply spc_shrink; [done| |exact Hsq]. lia. }
  assert (m = n) as ->.
  { destruct (Z.lt_trichotomy m n) as [Hlt|[?|Hgt]]; [|done|]; exfalso.
    - eapply (Hle m n); eauto; lia.
    - eapply (Hle n m); eauto; lia. }
  exists c2. rewrite E'. split_and!; try done. do 2 f_equal. apply prefix_bytes_ext. intros x Hx. apply Hb. lia.
Qed.

(** ** Steps in a row *)

Section Live.
Context `{IcedLaws, !NanChoice} (bulk : option string) (hook : option HookWindow).
Implicit Types (instr : Instruction).

(** A step that goes on, whatever the clock reads. *)
Definition tick (c c' : cpu) : Prop := ∀ now, step bulk now hook c = (c', Ok Continue).

(** The instruction the fetch at [a] gives. *)
Definition instr_at (a : u64) (c : cpu) (instr : Instruction) : Prop :=
  ∃ c1 bytes, fetch15 a c = (c1, Ok bytes) ∧ decode a bytes = Some instr.

Lemma instr_at_again a c c' instr :
  cpu_ok c → in_u64 a → instr_at a c instr → cpu_ok c' → same_code a (cmem c) (cmem c') → instr_at a c' instr.
Proof.
  intros Hc Ha (c1 & bytes & E & Hd) Hc' Hs.
  destruct (fetch15_again a c c1 bytes c' Hc Ha E Hc' Hs) as (c2 & E2 & _). by exists c2, bytes.
Qed.

(** A step is the execution of the instruction at RIP. *)
Lemma tick_of c instr (P : cpu → Prop) :
  cpu_ok c → stops_at hook (rip (cregs c)) = false → instr_at (rip (cregs c)) c instr →
  (∀ g, same_but_cache (cmem c) g → cpu_ok (mkCpu g (cregs c)) →
    ∃ c', P c' ∧ ∀ now, execute_one bulk now instr (next_ip instr) (mkCpu g (cregs c)) = (c', XOk tt)) →
  ∃ c', P c' ∧ tick c c'.
Proof.
  intros Hc Hh (c1 & bytes & E & Hd) Hex.
  destruct (fetch15_max (rip (cregs c)) c Hc (ro_rip _ (co_regs _ Hc))) as (c1' & r & E' & Hc1 & Hr & Hs & _).
  rewrite E in E'. injection E' as <- <-. destruct c1 as [g r]. simpl in *. subst r.
  destruct (Hex g Hs Hc1) as (c' & Hp & Hrun). exists c'. split; [done|]. intros now.
  unfold step. rewrite Hh, E, Hd. unfold run_insn. by rewrite Hrun.
Qed.

(** ** STOS *)

(** The element size of a STOS. *)
Definition stos_width (m : Mnemonic) : option nat :=
  match m with
  | Mnemonic.Stosb => Some 1%nat | Mnemonic.Stosw => Some 2%nat
  | Mnemonic.Stosd => Some 4%nat | Mnemonic.Stosq => Some 8%nat
  | _ => None
  end.

Lemma execute_stos instr size next now :
  stos_width (mnemonic instr) = Some size →
  execute_one bulk now instr next = (xmod (set_rip next) ≫= λ _, exec_stos bulk instr size).
Proof. unfold execute_one. destruct (mnemonic instr); try discriminate; by intros [= <-]. Qed.

Lemma stos_width_le m size : stos_width m = Some size → (0 < size ≤ 8)%nat.
Proof. destruct m; try discriminate; intros [= <-]; lia. Qed.

Section Stos.
Context (instr : Instruction) (size : nat).
Context (Hw : stos_width (mnemonic instr) = Some size) (Hrep : has_any_rep instr = true).
Abbreviation count c := (Z.min (rcx (cregs c)) REP_BULK_MAX).
Abbreviation elem c := (Z.land (rax (cregs c)) (size_mask size)).

(** One step of many. *)
Lemma stos_tick c :
  let lo := low_end (df_step size (cregs c)) (rdi (cregs c)) (count c) in
  cpu_ok c → stops_at hook (rip (cregs c)) = false → instr_at (rip (cregs c)) c instr → ip instr = rip (cregs c) →
  in_u64 (next_ip instr) → 0 < rcx (cregs c) →
  0 ≤ lo → lo + count c * Z.of_nat size < u64_lim → granted (cmem c) lo (count c * Z.of_nat size) Write →
  ∃ c', (cregs c' = stos_regs (df_step size (cregs c)) (count c) (cregs c) ∧
    filled c lo (repeated (Z.to_nat (count c)) (elem c) size) (cmem c')) ∧ tick c c'.
Proof.
  intros lo Hc Hh Hat Hip Hnext Hcx Hlo Hlim Hgr. pose proof (stos_width_le _ _ Hw) as Hs.
  apply (tick_of c instr); [done..|]. intros g Hsame Hcg.
  assert (Hst : df_step size (cregs c) = Z.of_nat size ∨ df_step size (cregs c) = - Z.of_nat size)
    by (unfold df_step; destruct (flag (cregs c) DF); auto).
  set (c1 := mkCpu g (set_rip (next_ip instr) (cregs c))).
  assert (Hc1 : cpu_ok c1) by (split; [apply Hcg|apply ok_set_rip; [apply Hc|done]]).
  assert (Hgr1 : granted (cmem c1) lo (count c * Z.of_nat size) Write).
  { eapply granted_same; [apply (same_gview _ _ Hsame)|done]. }
  destruct (stos_rep_paths bulk size (elem c) (df_step size (cregs c)) c1 Hc1 Hs Hst Hcx Hlo Hlim Hgr1)
    as (g' & E & [Hg Hsto Hb]).
  exists (mkCpu g' (stos_regs (df_step size (cregs c)) (count c) (cregs c))). split.
  - split; [done|]. split; [done|eapply stored_trans; [by apply same_stored|done]|].
    intros x. cbn [cmem]. rewrite (Hb x). cbn [c1 cmem]. by rewrite (same_gbyte _ _ Hsame).
  - intros now. rewrite (execute_stos _ _ _ _ Hw). unfold exec_stos, apply_string_stay, set_rip', string_stos, xget.
    unfold xmod, mbind, X_bind. cbn [cmem cregs]. fold c1.
    rewrite Hrep. cbv beta iota. rewrite decide_False by (intros [_ Hz]; change (rcx (cregs c) = 0) in Hz; lia).
    change (df_step size (cregs c1)) with (df_step size (cregs c)).
    change (rax (cregs c1)) with (rax (cregs c)). rewrite E. cbn [cmem cregs]. rewrite Hip.
    reflexivity.
Qed.

(** The last step does nothing but move on. *)
Lemma stos_tick_end c :
  cpu_ok c → stops_at hook (rip (cregs c)) = false → instr_at (rip (cregs c)) c instr → rcx (cregs c) = 0 →
  ∃ c', (cregs c' = set_rip (next_ip instr) (cregs c) ∧ same_but_cache (cmem c) (cmem c') ∧ mem_ok (cmem c')) ∧ tick c c'.
Proof.
  intros Hc Hh Hat Hcx. apply (tick_of c instr); [done..|]. intros g Hsame Hcg.
  exists (mkCpu g (set_rip (next_ip instr) (cregs c))). split; [by split_and!; try apply Hcg|].
  intros now. rewrite (execute_stos _ _ _ _ Hw). unfold exec_stos, apply_string_stay, string_stos, xget.
  unfold xmod, mbind, X_bind. cbn [cmem cregs]. cbv beta iota. rewrite decide_True by (by split). done.
Qed.
End Stos.

(** ** The whole repetition *)

Lemma stos_regs_rcx step n r : regs_ok r → rcx (stos_regs step n r) = rcx r - n.
Proof. intros Hr. unfold stos_regs. by rewrite rcx_set_rcx by auto with regs word. Qed.
Lemma stos_regs_rdi step n r : regs_ok r → rdi (stos_regs step n r) = wrap64 (rdi r + step * n).
Proof.
  intros Hr. unfold stos_regs, rdi, set_rcx. rewrite gpr_set_gpr by first [lia|apply ro_wf; auto with regs word].
  rewrite decide_False by done. unfold set_rdi. rewrite gpr_set_gpr by first [lia|apply Hr]. by rewrite decide_True.
Qed.
Lemma stos_regs_rax step n r : rax (stos_regs step n r) = rax r.
Proof. unfold stos_regs, rax, gpr, set_rcx, set_rdi, set_gpr. simpl. by rewrite !list_lookup_insert_ne. Qed.

Lemma stos_regs_chain step n m r :
  regs_ok r → stos_regs step m (stos_regs step n r) = stos_regs step (n + m) r.
Proof.
  intros Hr. unfold stos_regs at 1. rewrite stos_regs_rdi, stos_regs_rcx by done. unfold stos_regs at 1.
  rewrite set_rdi_rcx, set_rdi_rdi, set_rcx_rcx. unfold stos_regs.
  f_equal; [lia|]. f_equal. unfold wrap64. rewrite Zplus_mod_idemp_l. f_equal. lia.
Qed.

(** Two runs of elements one after the other, in either direction. *)
Lemma repeated_runs (size : nat) step n m a val g g1 g2 :
  (0 < size ≤ 8)%nat → step = Z.of_nat size ∨ step = - Z.of_nat size → 0 < n → 0 < m →
  bytes_set g (low_end step a n) (repeated (Z.to_nat n) val size) g1 →
  bytes_set g1 (low_end step (a + step * n) m) (repeated (Z.to_nat m) val size) g2 →
  bytes_set g (low_end step a (n + m)) (repeated (Z.to_nat (n + m)) val size) g2.
Proof.
  intros Hs Hst Hn Hm H1' H2'. rewrite Z2Nat.inj_add by lia. pose proof (repeated_length (Z.to_nat m) val size ltac:(lia)).
  pose proof (repeated_length (Z.to_nat n) val size ltac:(lia)). unfold low_end in *. destruct (decide (0 < step)).
  - rewrite repeated_app. eapply bytes_set_app; [exact H1'|].
    replace (a + Z.of_nat (length (repeated (Z.to_nat n) val size))) with (a + step * n) by nia. exact H2'.
  - rewrite Nat.add_comm, repeated_app.
    replace (a + step * (n + m - 1)) with (a + step * (n - 1) - Z.of_nat (length (repeated (Z.to_nat m) val size))) by nia.
    eapply bytes_set_prepend; [exact H1'|].
    replace (a + step * (n - 1) - Z.of_nat (length (repeated (Z.to_nat m) val size))) with (a + step * n + step * (m - 1)) by nia.
    exact H2'.
Qed.

(** The first elements and the rest, inside the range of all. *)
Lemma low_end_parts (size : nat) step a n m :
  step = Z.of_nat size ∨ step = - Z.of_nat size → (0 < size)%nat → 0 < n → 0 ≤ m →
  let lo := low_end step a (n + m) in let hi := lo + (n + m) * Z.of_nat size in
  (lo ≤ low_end step a n ∧ low_end step a n + n * Z.of_nat size ≤ hi) ∧
  (0 < m → lo ≤ low_end step (a + step * n) m ∧ low_end step (a + step * n) m + m * Z.of_nat size ≤ hi ∧
    (0 ≤ lo → hi < u64_lim → in_u64 (a + step * n))).
Proof.
  intros Hst Hs Hn Hm. unfold low_end, in_u64. cbv zeta.
  destruct Hst as [-> | ->]; [rewrite !decide_True by lia|rewrite !decide_False by lia]; split; try intros Hm0; split_and!; nia.
Qed.

(** Code apart from the stores. *)
Lemma filled_same_code c a bs g rip :
  filled c a bs g → a + Z.of_nat (length bs) ≤ rip ∨ rip + 15 ≤ a → same_code rip (cmem c) g.
Proof.
  intros [_ Hst Hb] Hap. split; [apply Hst|]. intros x Hx. rewrite (Hb x). by rewrite decide_False by lia.
Qed.

Section Whole.
Abbreviation count c := (Z.min (rcx (cregs c)) REP_BULK_MAX).
Context (instr : Instruction) (size : nat).
Context (Hw : stos_width (mnemonic instr) = Some size) (Hrep : has_any_rep instr = true) (Hnext : in_u64 (next_ip instr)).

(** The state of a repetition that can be completed. *)
Record stos_ready (c : cpu) : Prop := {
  sr_ok : cpu_ok c;
  sr_hook : stops_at hook (rip (cregs c)) = false;
  sr_instr : instr_at (rip (cregs c)) c instr;
  sr_ip : ip instr = rip (cregs c);
  sr_range : 0 < rcx (cregs c) →
    let n := rcx (cregs c) in
    let lo := low_end (df_step size (cregs c)) (rdi (cregs c)) n in
    0 ≤ lo ∧ lo + n * Z.of_nat size < u64_lim ∧ granted (cmem c) lo (n * Z.of_nat size) Write ∧
    (lo + n * Z.of_nat size ≤ rip (cregs c) ∨ rip (cregs c) + 15 ≤ lo);
}.

(** What the completed repetition leaves. *)
Definition stos_completed (c c' : cpu) : Prop :=
  let n := rcx (cregs c) in
  let step := df_step size (cregs c) in
  cpu_ok c' ∧ cregs c' = set_rip (next_ip instr) (stos_regs step n (cregs c)) ∧ stored (cmem c) (cmem c') ∧
  bytes_set (cmem c) (low_end step (rdi (cregs c)) n)
    (repeated (Z.to_nat n) (Z.land (rax (cregs c)) (size_mask size)) size) (cmem c').

Lemma stos_ready_next c :
  stos_ready c → 0 < rcx (cregs c) →
  ∃ c', tick c c' ∧ cregs c' = stos_regs (df_step size (cregs c)) (count c) (cregs c) ∧
    filled c (low_end (df_step size (cregs c)) (rdi (cregs c)) (count c))
      (repeated (Z.to_nat (count c)) (Z.land (rax (cregs c)) (size_mask size)) size) (cmem c') ∧ stos_ready c'.
Proof.
  intros [Hc Hh Hat Hip Hrange] Hn. destruct (Hrange Hn) as (Hlo & Hlim & Hgr & Hcode). pose proof (co_regs _ Hc) as Hr.
  assert (Hst : df_step size (cregs c) = Z.of_nat size ∨ df_step size (cregs c) = - Z.of_nat size)
    by (unfold df_step; destruct (flag (cregs c) DF); auto).
  pose proof (stos_width_le _ _ Hw) as Hs. set (n := rcx (cregs c)) in *.
  assert (Hcount : 0 < n `min` REP_BULK_MAX ≤ n) by (change REP_BULK_MAX with 1048576; lia).
  set (step := df_step size (cregs c)) in *. set (k := n `min` REP_BULK_MAX) in *.
  destruct (low_end_parts size step (rdi (cregs c)) k (n - k) Hst ltac:(lia) ltac:(lia) ltac:(lia)) as [[H1' H2'] Hrest].
  rewrite Zplus_minus in *. set (lo := low_end step (rdi (cregs c)) n) in *.
  destruct (stos_tick instr size Hw Hrep c Hc Hh Hat Hip Hnext Hn) as (c' & [Er Hf] & Ht);
    [fold n k step; lia|fold n k step; lia|fold n k step; eapply granted_sub; [exact Hgr|lia|lia]|].
  fold n k step in Er, Hf. exists c'. split_and!; [done..|].
  assert (Hc' : cpu_ok c').
  { split; [apply Hf|]. rewrite Er. unfold stos_regs. apply ok_set_rcx; [auto with regs word|].
    pose proof (regs_rcx _ Hr). unfold in_u64 in *. fold n. lia. }
  assert (Hrip : rip (cregs c') = rip (cregs c)) by (by rewrite Er).
  assert (Hbl : Z.of_nat (length (repeated (Z.to_nat k) (Z.land (rax (cregs c)) (size_mask size)) size)) = k * Z.of_nat size)
    by (rewrite repeated_length by lia; lia).
  split; rewrite ?Hrip; try done.
  - apply (instr_at_again _ c); [done|apply Hr|done|done|]. eapply filled_same_code; [exact Hf|]. rewrite Hbl. lia.
  - rewrite Er. rewrite stos_regs_rcx, stos_regs_rdi by done. fold n. intros Hm. destruct (Hrest Hm) as (H3' & H4' & H5').
    change (df_step size (stos_regs step k (cregs c))) with step. rewrite wrap64_id by (apply H5'; lia).
    split_and!; [lia|lia| |lia]. eapply granted_stored; [apply Hf|]. eapply granted_sub; [exact Hgr|lia|lia].
Qed.

Lemma stos_runs_bytes (c : cpu) (g1 g2 : GuestMemory) (k : Z) :
  stos_ready c → 0 < rcx (cregs c) → k = count c →
  let step := df_step size (cregs c) in
  let val := Z.land (rax (cregs c)) (size_mask size) in
  bytes_set (cmem c) (low_end step (rdi (cregs c)) k) (repeated (Z.to_nat k) val size) g1 →
  bytes_set g1 (low_end step (wrap64 (rdi (cregs c) + step * k)) (rcx (cregs c) - k))
    (repeated (Z.to_nat (rcx (cregs c) - k)) val size) g2 →
  bytes_set (cmem c) (low_end step (rdi (cregs c)) (rcx (cregs c))) (repeated (Z.to_nat (rcx (cregs c))) val size) g2.
Proof.
  intros [_ _ _ _ Hrange] Hn Hk step val H1' H2'. destruct (Hrange Hn) as (Hlo & Hlim & _).
  pose proof (stos_width_le _ _ Hw) as Hs.
  assert (Hst : step = Z.of_nat size ∨ step = - Z.of_nat size) by (unfold step, df_step; destruct (flag (cregs c) DF); auto).
  set (n := rcx (cregs c)) in *. assert (Hk0 : 0 < k ≤ n) by (subst k; change REP_BULK_MAX with 1048576; lia).
  destruct (decide (k = n)) as [E|].
  - rewrite E, Z.sub_diag in *. intros x. rewrite (H2' x). rewrite decide_False by (simpl; lia). apply H1'.
  - destruct (low_end_parts size step (rdi (cregs c)) k (n - k) Hst ltac:(lia) ltac:(lia) ltac:(lia)) as [_ Hrest].
    rewrite Zplus_minus in Hrest. destruct Hrest as (_ & _ & Hin); [lia|]. rewrite wrap64_id in H2' by (apply Hin; done).
    rewrite <- (Zplus_minus k n). eapply repeated_runs; eauto; lia.
Qed.

Lemma stos_runs k : ∀ c,
  stos_ready c → (Z.of_nat k - 1) * REP_BULK_MAX < rcx (cregs c) ≤ Z.of_nat k * REP_BULK_MAX →
  ∃ c', nsteps tick (k + 1) c c' ∧ stos_completed c c'.
Proof.
  induction k as [|k IH]; intros c [Hc Hh Hat Hip Hrange] Hk; pose proof (co_regs _ Hc) as Hr;
    pose proof (regs_rcx _ Hr) as Hcx; unfold in_u64 in Hcx.
  - assert (Hz : rcx (cregs c) = 0) by lia.
    destruct (stos_tick_end instr size Hw Hrep c Hc Hh Hat Hz) as (c' & (Er & Hs & Hg) & Ht).
    exists c'. split; [by apply nsteps_once|]. unfold stos_completed. rewrite Er, Hz. split_and!.
    + split; [done|]. rewrite Er. by apply ok_set_rip.
    + by rewrite stos_regs_0.
    + by apply same_stored.
    + eapply bytes_set_same; [exact Hs|]. apply bytes_set_nil.
  - assert (Hn : 0 < rcx (cregs c)) by (change REP_BULK_MAX with 1048576 in *; lia).
    destruct (stos_ready_next c (Build_stos_ready _ Hc Hh Hat Hip Hrange) Hn) as (c1 & Ht & Er & Hf & Hc1).
    pose proof (stos_regs_rcx (df_step size (cregs c)) (count c) _ Hr) as Ecx.
    pose proof (stos_regs_rdi (df_step size (cregs c)) (count c) _ Hr) as Edi.
    destruct (IH c1 Hc1) as (c' & Hsteps & Hc' & Er' & Hst' & Hb').
    { rewrite Er, Ecx. change REP_BULK_MAX with 1048576 in *. lia. }
    exists c'. split; [by eapply nsteps_l|]. rewrite Er, Ecx, Edi, stos_regs_rax in *.
    change (df_step size (stos_regs (df_step size (cregs c)) (count c) (cregs c))) with (df_step size (cregs c)) in *.
    rewrite stos_regs_chain, Zplus_minus in Er' by done.
    split; [done|]. split; [done|]. split; [eapply stored_trans; [apply Hf|done]|].
    eapply stos_runs_bytes; [by split|done|done|apply Hf|exact Hb'].
Qed.
End Whole.
End Live.

(** C36 A REP STOS comes to its end, in either direction and by any path, when
    its range does not wrap around the address space, the guest may write all of
    it, the range leaves the 15 bytes at RIP alone (so the instruction does not
    overwrite itself), no host stop is at RIP, and the host pages let the emulator
    do what the guest may do there ([host_grants], part of [cpu_ok]: always with
    WIE_MPROTECT=0, and under the default mirroring unless a page has a stale host
    protection): after one step per started 2^20 elements and one more, RIP is on the next instruction, RCX is 0, RDI past the last element, every
    element of the range holds the accumulator, and nothing else changed. *)
Theorem rep_stos_completes `{IcedLaws, !NanChoice} bulk hook instr size c :
  let r := cregs c in
  let step := df_step size r in
  let n := rcx r in
  let lo := low_end step (rdi r) n in
  cpu_ok c → stops_at hook (rip r) = false →
  instr_at (rip r) c instr → stos_width (mnemonic instr) = Some size → has_any_rep instr = true →
  0 ≤ lo → lo + n * Z.of_nat size < u64_lim → granted (cmem c) lo (n * Z.of_nat size) Write →
  (* the code is not overwritten *)
  lo + n * Z.of_nat size ≤ rip r ∨ rip r + 15 ≤ lo →
  ∃ c', nsteps (tick bulk hook) (Z.to_nat ((n + REP_BULK_MAX - 1) / REP_BULK_MAX) + 1) c c' ∧
    cpu_ok c' ∧ stored (cmem c) (cmem c') ∧
    cregs c' = set_rip (next_ip instr) (set_rcx 0 (set_rdi (wrap64 (rdi r + step * n)) r)) ∧
    bytes_set (cmem c) lo (repeated (Z.to_nat n) (Z.land (rax r) (size_mask size)) size) (cmem c').
Proof.
  intros r step n lo Hc Hh Hat Hw Hrep Hlo Hlim Hgr Hcode. destruct Hat as (c1 & bytes & Ef & Hd).
  assert (Hnext : in_u64 (next_ip instr)) by (rewrite (decode_next _ _ _ Hd); apply u64_wrap).
  assert (Hready : stos_ready hook instr size c).
  { split; [done|done|by exists c1, bytes|by rewrite (decode_ip _ _ _ Hd)|by intros _; split_and!]. }
  pose proof (regs_rcx _ (co_regs _ Hc)) as Hcx. fold r n in Hcx. unfold in_u64 in Hcx.
  assert (Hk : 0 ≤ (n + REP_BULK_MAX - 1) / REP_BULK_MAX) by (apply Z.div_pos; change REP_BULK_MAX with 1048576; lia).
  destruct (stos_runs bulk hook instr size Hw Hrep Hnext (Z.to_nat ((n + REP_BULK_MAX - 1) / REP_BULK_MAX)) c Hready)
    as (c' & Hs & Hc' & Er & Hst & Hb).
  { fold r n. rewrite Z2Nat.id by done. change REP_BULK_MAX with 1048576 in *.
    pose proof (Z.div_mod (n + 1048576 - 1) 1048576 ltac:(lia)). pose proof (Z.mod_pos_bound (n + 1048576 - 1) 1048576 ltac:(lia)).
    lia. }
  exists c'. split_and!; try done. rewrite Er. unfold stos_regs. by rewrite Z.sub_diag.
Qed.

(** * REP STOS and REP MOVS on a concrete machine *)

From stdpp Require Import relations.
From S2P Require Import Prelude protect pagemap vad arena region mem mem_access mem_ops mem_safe mem_demo.
From S2P Require Import regs regs_safe insn exec exec_string exec_sse exec_one iced_cpu exec_wf exec_safe.
From S2P Require Import step_safe exec_demo word_spec string_spec.

#[local] Existing Instance demo_os.
#[local] Existing Instance demo_laws.

(** RSI and RDI on the data half, RCX elements, [0x5a] in RAX. *)
Definition string_cpu (code : list u8) (count : u64) : cpu :=
  demo_cpu code (λ r, set_rcx count (set_rax 0x5a (set_rdi (demo_base + 0x5000) (set_rsi (demo_base + 0x4000) r)))).

Lemma string_cpu_ok code count :
  Forall is_byte code → Z.of_nat (length code) < u64_lim → in_u64 count → cpu_ok (string_cpu code count).
Proof.
  intros Hb Hl Hc. apply demo_cpu_ok; [done|done|]. intros r Hr.
  apply ok_set_rcx; [apply ok_set_rax; [apply ok_set_rdi; [apply ok_set_rsi; [done|]|]|]|done]; by vm_compute.
Qed.

Lemma string_granted code count a n k :
  cpu_ok (string_cpu code count) → in_u64 a → in_u64 n →
  spc (cmem (string_cpu code count)) a n k = Ok tt → granted (cmem (string_cpu code count)) a n k.
Proof. intros [[Hwf _ _] _] Ha Hn Hs x Hx. by eapply (spc_ok _ a n). Qed.

Definition stos_code : list u8 := [0xf3; 0xaa].
Lemma stos_code_ok : Forall is_byte stos_code.
Proof. repeat constructor; by vm_compute. Qed.

Lemma rep_stos_paths_witness :
  let c := string_cpu stos_code 40 in
  ∃ g', (string_stos None 1 true c).1 = mkCpu g' (set_rcx 0 (set_rdi (demo_base + 0x5028) (cregs c))) ∧
    gbyte g' (demo_base + 0x5027) = Some 0x5a.
Proof.
  intros c. assert (Hc : cpu_ok c) by (apply string_cpu_ok; [apply stos_code_ok|done|by vm_compute]).
  destruct (rep_stos_paths None 1 c Hc) as (g' & E & _ & _ & Hb);
    [lia|by vm_compute..|apply string_granted; [done|by vm_compute..]|].
  exists g'. split; [by rewrite E|]. rewrite (Hb (demo_base + 0x5027)). by vm_compute.
Defined.

Lemma rep_movs_paths_witness :
  let c := string_cpu stos_code 40 in
  ∃ g', (string_movs None 1 true c).1.(cmem) = g' ∧ gbyte g' (demo_base + 0x5027) = Some 0.
Proof.
  intros c. assert (Hc : cpu_ok c) by (apply string_cpu_ok; [apply stos_code_ok|done|by vm_compute]).
  destruct (rep_movs_paths None 1 c Hc) as (g' & E & _ & _ & Hb);
    [by left|by vm_compute..|apply string_granted; [done|by vm_compute..]|apply string_granted; [done|by vm_compute..]
    |left; by vm_compute|].
  exists g'. split; [by rewrite E|]. rewrite (Hb (demo_base + 0x5027)). by vm_compute.
Defined.

Lemma rep_stos_completes_witness :
  let c := string_cpu stos_code 40 in
  ∃ c', nsteps (tick None None) 2 c c' ∧ rip (cregs c') = demo_base + 2 ∧ rcx (cregs c') = 0 ∧
    gbyte (cmem c') (demo_base + 0x5027) = Some 0x5a.
Proof.
  intros c. assert (Hc : cpu_ok c) by (apply string_cpu_ok; [apply stos_code_ok|done|by vm_compute]).
  set (i := demo_insn (mkD demo_base 2 Mnemonic.Stosb [] true DNone MemorySize.UInt8)).
  assert (Hat : instr_at (rip (cregs c)) c i).
  { exists (fetch15 (rip (cregs c)) c).1. exists (take 15 (stos_code ++ replicate 13 0)).
    split; [|by vm_compute]. destruct (fetch15 (rip (cregs c)) c) as [c1 r] eqn:E. simpl. f_equal.
    change r with ((c1, r).2). rewrite <- E. by vm_compute. }
  destruct (rep_stos_completes None None i 1 c Hc) as (c' & Hs & _ & _ & Er & Hb);
    [done|exact Hat|done|done|by vm_compute|by vm_compute|apply string_granted; [done|by vm_compute..]
    |right; by vm_compute|].
  exists c'. split; [exact Hs|]. rewrite Er. split_and!; [by vm_compute|by vm_compute|].
  rewrite (Hb (demo_base + 0x5027)). by vm_compute.
Defined.

(** * Where the interpreter departs from the processor

    Concrete runs of the interpreter whose outcome the manual of the processor
    does not allow. *)

From S2P Require Import Prelude protect pagemap vad arena region mem mem_access mem_ops mem_safe mem_demo.
From S2P Require Import regs regs_safe insn exec exec_string exec_sse exec_one iced_cpu exec_demo.

#[local] Existing Instance demo_os.
#[local] Existing Instance demo_laws.

(** A forward REP STOSB that runs off the end of the writable pages is cut short
    without a fault: asked for 8 bytes with 4 left, the failed chunk is retried
    with a single store, which goes through, so the step reports success and RIP moves
    past the instruction, with RCX and RDI as they were and three of the four
    reachable bytes never written. *)
Theorem rep_stos_cut_short :
  let last := demo_base + 0x10000 in
  let c := demo_cpu [0xf3; 0xaa] (λ r, set_rcx 8 (set_rax 0x5a (set_rdi (last - 4) r))) in
  let out := step None 0 None c in
  out.2 = Ok Continue ∧ rip (cregs out.1) = demo_base + 2 ∧
  rcx (cregs out.1) = 8 ∧ rdi (cregs out.1) = last - 4 ∧
  gbyte (cmem out.1) (last - 4) = Some 0x5a ∧ gbyte (cmem out.1) (last - 3) = Some 0 ∧
  gbyte (cmem out.1) last = None.
Proof. vm_compute. by split_and!. Qed.

(** ADC r8 of 0 and 0x7f with carry: the sum, 128, leaves the signed bytes, and OF is
    clear. *)
Lemma adc_misses_overflow :
  let r := (demo_steps 1 (demo_cpu [0x10; 0xd8] (λ r, set_flag CF true (set_gpr 3 0x7f (set_rax 0 r))))).1 in
  rax (cregs r) = 0x80 ∧ flag (cregs r) OF_ = false.
Proof. vm_compute. by split. Qed.

(** IDIV r8 of 512 by 1: the quotient does not fit a byte; the processor raises a
    divide error, the interpreter answers 0. *)
Lemma idiv8_misses_overflow :
  let out := demo_steps 1 (demo_cpu [0xf6; 0xfb] (λ r, set_gpr 3 1 (set_rax 512 r))) in
  out.2 = Ok Continue ∧ rax (cregs out.1) = 0.
Proof. vm_compute. by split. Qed.

(** A count of 9 shifts a byte by one instead of out. *)
Lemma shift_count_wraps : shift_count 8 9 = 1 ∧ shift_result ShiftKind.Shl 0xff (shift_count 8 9) 8 0xff = (0xfe, true).
Proof. vm_compute. by split. Qed.

(** POP to a place that cannot be written: RIP is put back for the retry, the stack
    pointer has moved. *)
Lemma faulting_pop_moves_rsp :
  let out := step None 0 None (demo_cpu [0x41; 0x8f; 0x02] (λ r, set_gpr 10 0x10 r)) in
  out.2 = Ok (StepInvalidMemory (mkInvalid ACCESS_WRITE 0x10 8 0)) ∧
  rip (cregs out.1) = demo_base ∧ rsp (cregs out.1) = demo_base + 0x8008.
Proof. vm_compute. by split_and!. Qed.
