(* ===== verification/jit_block.v ===== *)
(** * Blocks for the JIT (crates/wie-cpu/src/jit/block.rs)

    Which straight-line piece of guest code is compiled as one block, and whether
    one check at its entry covers all its accesses to the stack.  What Cranelift
    makes of a block is not modelled. *)

From S2P Require Import Prelude protect pagemap vad arena region mem mem_access mem_ops mem_safe.
From S2P Require Import regs insn exec exec_one exec_wf step_safe exec_demo rep_live.

(** ** What a block needs of iced_x86 *)

(** [MemorySize::size], and the registers by the names of the enumeration. *)
Class IcedNames `{IcedInstruction} := {
  memory_size_size : MemorySize → nat;
  named : string → Register;
}.

(** The general-purpose registers, each with its parts. *)
Definition gpr_families : list (list string) :=
  [["RAX"; "EAX"; "AX"; "AL"; "AH"];
   ["RCX"; "ECX"; "CX"; "CL"; "CH"];
   ["RDX"; "EDX"; "DX"; "DL"; "DH"];
   ["RBX"; "EBX"; "BX"; "BL"; "BH"];
   ["RSP"; "ESP"; "SP"; "SPL"];
   ["RBP"; "EBP"; "BP"; "BPL"];
   ["RSI"; "ESI"; "SI"; "SIL"];
   ["RDI"; "EDI"; "DI"; "DIL"];
   ["R8"; "R8D"; "R8W"; "R8L"];
   ["R9"; "R9D"; "R9W"; "R9L"];
   ["R10"; "R10D"; "R10W"; "R10L"];
   ["R11"; "R11D"; "R11W"; "R11L"];
   ["R12"; "R12D"; "R12W"; "R12L"];
   ["R13"; "R13D"; "R13W"; "R13L"];
   ["R14"; "R14D"; "R14W"; "R14L"];
   ["R15"; "R15D"; "R15W"; "R15L"]]%string.

Class IcedNamesLaws `{IcedNames} : Prop := {
  named_distinct : NoDup (named <$> concat gpr_families);
  named_number k family name : gpr_families !! k = Some family → name ∈ family → gpr_index (full_register (named name)) = Ok k;
  named_part k family j name : gpr_families !! k = Some family → family !! j = Some name →
    reg_size (named name) = match j with 0 => 8 | 1 => 4 | 2 => 2 | _ => 1 end%nat ∧ is_high_byte (named name) = bool_decide (j = 4%nat) ∧
    named name ≠ reg_None ∧ named name ≠ reg_RIP ∧ named name ≠ reg_EIP;
  named_all r k : gpr_index (full_register r) = Ok k → ∃ family name, gpr_families !! k = Some family ∧ name ∈ family ∧ r = named name;
}.

Definition among (names : list string) (n : string) : bool := bool_decide (n ∈ names).

Section Block.
Context `{IcedNames}.
Implicit Types (instr : Instruction).

(** ** Terminators *)

Definition MAX_BLOCK_INSNS : nat := 96.
Definition MIN_BLOCK_INSNS : nat := 2.

Inductive BlockTerm :=
  | TermJmp (target : u64)
  | TermJcc (m : Mnemonic) (taken not_taken : u64)
  | TermCall (target return_ip : u64)
  | TermRet.
Inductive BlockKind :=
  | Pure (insns : list Instruction) (end_rip : u64) (bytes_len : u32) (term : option BlockTerm)
  | NotPure.

Definition is_near_branch instr : bool :=
  match op_kind instr 0 with OpKind.NearBranch16 | OpKind.NearBranch32 | OpKind.NearBranch64 => true | _ => false end.
Definition is_jcc (m : Mnemonic) : bool :=
  match m with
  | Mnemonic.Je | Mnemonic.Jne | Mnemonic.Ja | Mnemonic.Jae | Mnemonic.Jb | Mnemonic.Jbe | Mnemonic.Jg | Mnemonic.Jge
  | Mnemonic.Jl | Mnemonic.Jle | Mnemonic.Jo | Mnemonic.Jno | Mnemonic.Js | Mnemonic.Jns | Mnemonic.Jp | Mnemonic.Jnp => true
  | _ => false
  end.
Definition classify_terminator instr : option BlockTerm :=
  match mnemonic instr with
  | Mnemonic.Ret => if decide (1 ≤ op_count instr)%nat then None else Some TermRet
  | Mnemonic.Call => if is_near_branch instr then Some (TermCall (near_branch_target instr) (next_ip instr)) else None
  | Mnemonic.Jmp => if is_near_branch instr then Some (TermJmp (near_branch_target instr)) else None
  | m => if is_jcc m && is_near_branch instr then Some (TermJcc m (near_branch_target instr) (next_ip instr)) else None
  end.

(** ** Lowerable instructions *)

Definition is_imm_kind (k : OpKind) : bool :=
  match k with
  | OpKind.Immediate8 | OpKind.Immediate8_2nd | OpKind.Immediate16 | OpKind.Immediate32 | OpKind.Immediate64
  | OpKind.Immediate8to16 | OpKind.Immediate8to32 | OpKind.Immediate8to64 | OpKind.Immediate32to64 => true
  | _ => false
  end.
Definition is_register (k : OpKind) : bool := match k with OpKind.Register => true | _ => false end.
Definition mem_ea_ok instr : bool :=
  if decide (memory_index instr = reg_None) then true
  else bool_decide (memory_index_scale instr ∈ [1; 2; 4; 8]).
Definition word_size (n : nat) : bool := bool_decide (n ∈ [1; 2; 4; 8]%nat).
Definition mem_size_ok instr : bool :=
  match memory_size instr with
  | MemorySize.UInt8 | MemorySize.Int8 | MemorySize.UInt16 | MemorySize.Int16 | MemorySize.UInt32 | MemorySize.Int32
  | MemorySize.UInt64 | MemorySize.Int64 | MemorySize.QwordOffset | MemorySize.SegPtr64 => true
  | MemorySize.Other _ =>
      if is_register (op_kind instr 0) then word_size (reg_size (op_register instr 0))
      else if is_register (op_kind instr 1) then word_size (reg_size (op_register instr 1))
      else false
  end.
Definition mem_size_ok_sse instr : bool :=
  bool_decide (memory_size_size (memory_size instr) ∈ [4; 8; 16]%nat) || mem_size_ok instr.
Definition simple_mem instr : bool := mem_ea_ok instr && mem_size_ok instr.
Definition simple_mem_sse instr : bool := mem_ea_ok instr && mem_size_ok_sse instr.

(** A register, or memory. *)
Definition rm_ok instr (op : nat) : bool :=
  match op_kind instr op with OpKind.Register => true | OpKind.Memory => simple_mem instr | _ => false end.
Definition setcc_is_lowerable instr : bool := rm_ok instr 0.
Definition unary_is_lowerable instr : bool := rm_ok instr 0.
Definition cmov_is_lowerable instr : bool := if is_register (op_kind instr 0) then rm_ok instr 1 else false.
Definition movx_is_lowerable instr : bool := if is_register (op_kind instr 0) then rm_ok instr 1 else false.
Definition rm_reg_is_lowerable instr : bool :=
  match op_kind instr 0, op_kind instr 1 with
  | OpKind.Register, OpKind.Register => true
  | OpKind.Memory, OpKind.Register => simple_mem instr
  | _, _ => false
  end.
Definition reg_rm_is_lowerable instr : bool :=
  match op_kind instr 0, op_kind instr 1 with
  | OpKind.Register, OpKind.Register => true
  | OpKind.Register, OpKind.Memory => simple_mem instr
  | _, _ => false
  end.
Definition alu_is_lowerable instr : bool :=
  match op_kind instr 0, op_kind instr 1 with
  | OpKind.Register, OpKind.Register => true
  | OpKind.Register, OpKind.Memory | OpKind.Memory, OpKind.Register => simple_mem instr
  | OpKind.Register, imm => is_imm_kind imm
  | OpKind.Memory, imm => is_imm_kind imm && simple_mem instr
  | _, _ => false
  end.
Definition mov_is_lowerable instr : bool := alu_is_lowerable instr.
Definition xchg_is_lowerable instr : bool :=
  match op_kind instr 0, op_kind instr 1 with
  | OpKind.Register, OpKind.Register => true
  | OpKind.Register, OpKind.Memory | OpKind.Memory, OpKind.Register => simple_mem instr
  | _, _ => false
  end.
Definition push_is_lowerable instr : bool :=
  match op_kind instr 0 with
  | OpKind.Register => negb (bool_decide (reg_size (op_register instr 0) = 2%nat))
  | OpKind.Memory => simple_mem instr
  | imm => is_imm_kind imm
  end.
Definition pop_is_lowerable instr : bool :=
  match op_kind instr 0 with
  | OpKind.Register => negb (bool_decide (reg_size (op_register instr 0) = 2%nat))
  | OpKind.Memory => simple_mem instr
  | _ => false
  end.
Definition imul_is_lowerable instr : bool :=
  match op_count instr with
  | 2%nat => alu_is_lowerable instr
  | 3%nat => if is_register (op_kind instr 0) then rm_ok instr 1 && is_imm_kind (op_kind instr 2) else false
  | _ => false
  end.
Definition shift_is_lowerable instr : bool :=
  if rm_ok instr 0 then
    match op_kind instr 1 with
    | OpKind.Register => bool_decide (op_register instr 1 ∈ named <$> ["CL"; "CX"; "ECX"; "RCX"]%string)
    | k => is_imm_kind k
    end
  else false.
Definition lea_is_simple instr : bool :=
  if negb (is_register (op_kind instr 0)) then false
  else match op_kind instr 1 with OpKind.Memory => mem_ea_ok instr | _ => false end.

Definition xmm_op instr (op : nat) : bool := is_xmm (op_register instr op).
Definition sse_movsd_is_sse instr : bool := xmm_op instr 0 || xmm_op instr 1 || is_movsd_code instr.
Definition sse_mov_is_lowerable instr (width : u32) : bool :=
  match op_kind instr 0, op_kind instr 1 with
  | OpKind.Register, OpKind.Register => xmm_op instr 0 && xmm_op instr 1
  | OpKind.Register, OpKind.Memory => xmm_op instr 0 && simple_mem_sse instr
  | OpKind.Memory, OpKind.Register => xmm_op instr 1 && simple_mem_sse instr
  | _, _ => false
  end.
Definition op_size_is instr (op n : nat) : bool := bool_decide (reg_size (op_register instr op) = n).
Definition sse_movq_is_lowerable instr : bool :=
  match op_kind instr 0, op_kind instr 1 with
  | OpKind.Register, OpKind.Register =>
      xmm_op instr 0 && xmm_op instr 1 || xmm_op instr 0 && op_size_is instr 1 8 || op_size_is instr 0 8 && xmm_op instr 1
  | OpKind.Register, OpKind.Memory => (xmm_op instr 0 || op_size_is instr 0 8) && simple_mem_sse instr
  | OpKind.Memory, OpKind.Register => (xmm_op instr 1 || op_size_is instr 1 8) && simple_mem_sse instr
  | _, _ => false
  end.
Definition sse_movd_is_lowerable instr : bool :=
  match op_kind instr 0, op_kind instr 1 with
  | OpKind.Register, OpKind.Register => xmm_op instr 0 && op_size_is instr 1 4 || op_size_is instr 0 4 && xmm_op instr 1
  | OpKind.Register, OpKind.Memory => xmm_op instr 0 && simple_mem_sse instr
  | OpKind.Memory, OpKind.Register => xmm_op instr 1 && simple_mem_sse instr
  | _, _ => false
  end.
Definition sse_bitwise_is_lowerable instr : bool :=
  if negb (is_register (op_kind instr 0)) || negb (xmm_op instr 0) then false
  else match op_kind instr 1 with
       | OpKind.Register => xmm_op instr 1
       | OpKind.Memory => simple_mem_sse instr
       | _ => false
       end.
Definition sse_scalar_fp_is_lowerable instr : bool :=
  if negb (is_register (op_kind instr 0)) || negb (xmm_op instr 0) then false
  else match op_kind instr 1 with
       | OpKind.Register => xmm_op instr 1
       | OpKind.Memory => simple_mem_sse instr
       | _ => false
       end.
Definition sse_packed_fp_is_lowerable instr : bool := sse_bitwise_is_lowerable instr.
Definition string_mnemonic_ok : bool := true.

Definition is_lowerable (instr : Instruction) : bool :=
  match mnemonic instr with
  | Mnemonic.Nop | Mnemonic.Endbr64 | Mnemonic.Endbr32 | Mnemonic.Cwde | Mnemonic.Cdqe | Mnemonic.Cbw | Mnemonic.Cwd
  | Mnemonic.Cld | Mnemonic.Std | Mnemonic.Pushfq | Mnemonic.Popfq | Mnemonic.Leave => true
  | Mnemonic.Lea => lea_is_simple instr
  | Mnemonic.Mov => mov_is_lowerable instr
  | Mnemonic.Movzx | Mnemonic.Movsx | Mnemonic.Movsxd => movx_is_lowerable instr
  | Mnemonic.Push => push_is_lowerable instr
  | Mnemonic.Pop => pop_is_lowerable instr
  | Mnemonic.Bswap => is_register (op_kind instr 0) && bool_decide (reg_size (op_register instr 0) = 4%nat ∨ reg_size (op_register instr 0) = 8%nat)
  | Mnemonic.Add | Mnemonic.Adc | Mnemonic.Sub | Mnemonic.Sbb | Mnemonic.Xor | Mnemonic.And | Mnemonic.Or | Mnemonic.Cmp
  | Mnemonic.Test | Mnemonic.Bt | Mnemonic.Bts | Mnemonic.Btr | Mnemonic.Btc => alu_is_lowerable instr
  | Mnemonic.Inc | Mnemonic.Dec | Mnemonic.Not | Mnemonic.Neg => unary_is_lowerable instr
  | Mnemonic.Imul => imul_is_lowerable instr
  | Mnemonic.Xchg => xchg_is_lowerable instr
  | Mnemonic.Shl | Mnemonic.Sal | Mnemonic.Shr | Mnemonic.Sar | Mnemonic.Rol | Mnemonic.Ror => shift_is_lowerable instr
  | Mnemonic.Xadd | Mnemonic.Cmpxchg => rm_reg_is_lowerable instr
  | Mnemonic.Cmove | Mnemonic.Cmovne | Mnemonic.Cmova | Mnemonic.Cmovae | Mnemonic.Cmovb | Mnemonic.Cmovbe | Mnemonic.Cmovg
  | Mnemonic.Cmovge | Mnemonic.Cmovl | Mnemonic.Cmovle | Mnemonic.Cmovo | Mnemonic.Cmovno | Mnemonic.Cmovs | Mnemonic.Cmovns
  | Mnemonic.Cmovp | Mnemonic.Cmovnp => cmov_is_lowerable instr
  | Mnemonic.Sete | Mnemonic.Setne | Mnemonic.Seta | Mnemonic.Setae | Mnemonic.Setb | Mnemonic.Setbe | Mnemonic.Setg
  | Mnemonic.Setge | Mnemonic.Setl | Mnemonic.Setle | Mnemonic.Seto | Mnemonic.Setno | Mnemonic.Sets | Mnemonic.Setns
  | Mnemonic.Setp | Mnemonic.Setnp => setcc_is_lowerable instr
  | Mnemonic.Movaps | Mnemonic.Movups | Mnemonic.Movdqa | Mnemonic.Movdqu => sse_mov_is_lowerable instr 16
  | Mnemonic.Movss => sse_mov_is_lowerable instr 4
  | Mnemonic.Movq => sse_movq_is_lowerable instr
  | Mnemonic.Movd => sse_movd_is_lowerable instr
  | Mnemonic.Xorps | Mnemonic.Xorpd | Mnemonic.Pxor | Mnemonic.Andps | Mnemonic.Andpd | Mnemonic.Pand | Mnemonic.Orps
  | Mnemonic.Orpd | Mnemonic.Por | Mnemonic.Andnps | Mnemonic.Andnpd | Mnemonic.Pandn => sse_bitwise_is_lowerable instr
  | Mnemonic.Movapd | Mnemonic.Movupd => sse_mov_is_lowerable instr 16
  | Mnemonic.Addss | Mnemonic.Subss | Mnemonic.Mulss | Mnemonic.Divss | Mnemonic.Addsd | Mnemonic.Subsd | Mnemonic.Mulsd
  | Mnemonic.Divsd => sse_scalar_fp_is_lowerable instr
  | Mnemonic.Addps | Mnemonic.Subps | Mnemonic.Mulps | Mnemonic.Divps | Mnemonic.Addpd | Mnemonic.Subpd | Mnemonic.Mulpd
  | Mnemonic.Divpd => sse_packed_fp_is_lowerable instr
  | Mnemonic.Stosb | Mnemonic.Stosw | Mnemonic.Stosd | Mnemonic.Stosq | Mnemonic.Movsb | Mnemonic.Movsw | Mnemonic.Movsq
  | Mnemonic.Lodsb | Mnemonic.Lodsd | Mnemonic.Lodsq | Mnemonic.Scasb | Mnemonic.Scasw | Mnemonic.Scasd | Mnemonic.Scasq
  | Mnemonic.Cmpsb | Mnemonic.Cmpsw | Mnemonic.Cmpsd | Mnemonic.Cmpsq => string_mnemonic_ok
  | Mnemonic.Movsd => if sse_movsd_is_sse instr then sse_mov_is_lowerable instr 8 else string_mnemonic_ok
  | Mnemonic.Other name =>
      if among ["Rcl"; "Rcr"] name then shift_is_lowerable instr else if among ["Bsr"] name then reg_rm_is_lowerable instr else false
  | _ => false
  end.

Definition is_string_op (instr : Instruction) : bool :=
  match mnemonic instr with
  | Mnemonic.Stosb | Mnemonic.Stosw | Mnemonic.Stosd | Mnemonic.Stosq | Mnemonic.Movsb | Mnemonic.Movsw | Mnemonic.Movsq
  | Mnemonic.Lodsb | Mnemonic.Lodsd | Mnemonic.Lodsq | Mnemonic.Scasb | Mnemonic.Scasw | Mnemonic.Scasd | Mnemonic.Scasq
  | Mnemonic.Cmpsb | Mnemonic.Cmpsw | Mnemonic.Cmpsd | Mnemonic.Cmpsq => true
  | Mnemonic.Movsd => negb (sse_movsd_is_sse instr)
  | _ => false
  end.

Definition string_op_size (instr : Instruction) : option u32 :=
  match mnemonic instr with
  | Mnemonic.Stosb | Mnemonic.Movsb | Mnemonic.Lodsb | Mnemonic.Scasb | Mnemonic.Cmpsb => Some 1
  | Mnemonic.Stosw | Mnemonic.Movsw | Mnemonic.Scasw | Mnemonic.Cmpsw => Some 2
  | Mnemonic.Stosd | Mnemonic.Lodsd | Mnemonic.Scasd | Mnemonic.Cmpsd => Some 4
  | Mnemonic.Movsd => if negb (sse_movsd_is_sse instr) then Some 4 else None
  | Mnemonic.Stosq | Mnemonic.Movsq | Mnemonic.Lodsq | Mnemonic.Scasq | Mnemonic.Cmpsq => Some 8
  | _ => None
  end.

(** ** Decoding a block *)

Record BlockState := mkBlock {
  bs_insns : list Instruction;
  bs_rip : u64;
  bs_bytes : u32;
  bs_term : option BlockTerm;
}.
Definition sat_add32 (a b : u32) : u32 := Z.min (a + b) (u32_lim - 1).
Definition term_rip (t : BlockTerm) (next : u64) : u64 :=
  match t with TermJmp target | TermCall target _ => target | TermJcc _ _ not_taken => not_taken | TermRet => next end.
Definition push_insn instr (rip : u64) (term : option BlockTerm) (b : BlockState) : BlockState :=
  mkBlock (bs_insns b ++ [instr]) rip (sat_add32 (bs_bytes b) (Z.of_nat (insn_len instr))) term.
(** The instruction at [rip] joins the block; [true]: the block goes on. *)
Definition block_insn instr (b : BlockState) : BlockState * bool :=
  match classify_terminator instr with
  | Some t =>
      if (match t with TermJmp target => bool_decide (target = next_ip instr) | _ => false end) then
        (mkBlock (bs_insns b) (next_ip instr) (sat_add32 (bs_bytes b) (Z.of_nat (insn_len instr))) (bs_term b), true)
      else (push_insn instr (term_rip t (next_ip instr)) (Some t) b, false)
  | None =>
      if is_lowerable instr then (push_insn instr (next_ip instr) (bs_term b) b, negb (is_string_op instr))
      else (b, false)
  end.
(** Fifteen readable bytes at [rip]. *)
Definition read15 (rip : u64) : M GuestMemory (option (list u8)) := λ g,
  match read rip (g, replicate 15 0) with
  | ((g, buf), Ok _) => (g, Ok (Some buf))
  | ((g, _), Err _) => (g, Ok None)
  | ((g, _), Abort w) => (g, Abort w)
  end.
Fixpoint block_loop (n : nat) (b : BlockState) : M GuestMemory BlockState :=
  match n with
  | O => mret b
  | S n =>
      buf ← read15 (bs_rip b);
      match (bytes ← buf; decode (bs_rip b) bytes) with
      | None => mret b
      | Some instr => let '(b, more) := block_insn instr b in if (more : bool) then block_loop n b else mret b
      end
  end.
Definition block_min (b : BlockState) : nat :=
  if bool_decide (is_Some (bs_term b)) || from_option is_string_op false (last (bs_insns b)) then 1%nat else MIN_BLOCK_INSNS.
Definition decode_pure_gpr_block (hooks : option HookWindow) (start : u64) : M GuestMemory BlockKind :=
  if stops_at hooks start then mret NotPure
  else
    b ← block_loop MAX_BLOCK_INSNS (mkBlock [] start 0 None);
    mret (if decide (length (bs_insns b) < block_min b)%nat then NotPure
          else Pure (bs_insns b) (bs_rip b) (bs_bytes b) (bs_term b)).
Definition pure_is_self_loop (kind : BlockKind) (start : u64) : bool :=
  match kind with
  | Pure _ _ _ (Some (TermJmp target)) => bool_decide (target = start)
  | Pure _ _ _ (Some (TermJcc _ taken not_taken)) => bool_decide (taken = start) || bool_decide (not_taken = start)
  | _ => false
  end.

(** ** The plan of a block's stack accesses *)

Record BlockStackPinPlan := mkPlan {
  base_idx : nat;
  min_disp : Z;
  max_end : Z;
  needs_r : bool;
  needs_w : bool;
}.
Definition is_named (names : list string) (r : Register) : bool := bool_decide (r ∈ named <$> names).
Definition is_stack_base_reg (r : Register) : bool := is_named ["RSP"; "ESP"; "RBP"; "EBP"] r.
Definition stack_base_gpr_index (r : Register) : option nat :=
  if is_named ["RSP"; "ESP"] r then Some 4%nat else if is_named ["RBP"; "EBP"] r then Some 5%nat else None.
Definition mem_disp_i64 instr : Z := as_i 64 (memory_displacement64 instr).
Definition insn_modifies_stack_ptr instr : bool :=
  match mnemonic instr with
  | Mnemonic.Push | Mnemonic.Pop | Mnemonic.Pushfq | Mnemonic.Popfq | Mnemonic.Call | Mnemonic.Ret | Mnemonic.Leave => true
  | Mnemonic.Other name => among ["Pushf"; "Popf"; "Retf"; "Enter"] name
  | _ => false
  end.
(** The first register of the family. *)
Definition full_gpr (r : Register) : option Register :=
  family ← List.find (λ family, is_named family r) gpr_families; named <$> head family.
Definition gpr_aliases (a b : Register) : bool := if decide (a = b) then true else bool_decide (full_gpr a = full_gpr b).
Definition insn_writes_full_gpr instr (reg : Register) : bool :=
  if insn_modifies_stack_ptr instr && is_stack_base_reg reg then
    match mnemonic instr with
    | Mnemonic.Leave => is_stack_base_reg reg
    | _ => is_named ["RSP"; "ESP"] reg
    end
  else
    match mnemonic instr with
    | Mnemonic.Cmp | Mnemonic.Test | Mnemonic.Bt => false
    | _ =>
        if decide (op_count instr = 0%nat) then false
        else if negb (is_register (op_kind instr 0)) then false
        else gpr_aliases (op_register instr 0) reg
    end.
Definition mem_op_rw (instr : Instruction) (op : nat) : bool * bool :=
  if decide (op = 0%nat) then
    match mnemonic instr with
    | Mnemonic.Mov | Mnemonic.Movd | Mnemonic.Movq | Mnemonic.Movaps | Mnemonic.Movapd | Mnemonic.Movups | Mnemonic.Movupd
    | Mnemonic.Movdqa | Mnemonic.Movdqu | Mnemonic.Movss | Mnemonic.Movsd | Mnemonic.Movsx | Mnemonic.Movsxd | Mnemonic.Movzx
    | Mnemonic.Sete | Mnemonic.Setne | Mnemonic.Seta | Mnemonic.Setae | Mnemonic.Setb | Mnemonic.Setbe | Mnemonic.Setg
    | Mnemonic.Setge | Mnemonic.Setl | Mnemonic.Setle | Mnemonic.Seto | Mnemonic.Setno | Mnemonic.Sets | Mnemonic.Setns
    | Mnemonic.Setp | Mnemonic.Setnp => (false, true)
    | Mnemonic.Cmp | Mnemonic.Test | Mnemonic.Bt => (true, false)
    | _ => (true, true)
    end
  else (true, false).
(** [None]: the width is not one of a register. *)
Definition mem_width_bytes instr : option nat :=
  let table_sz := memory_size_size (memory_size instr) in
  let peer op := if is_xmm (op_register instr op) then Some 16%nat else Some (reg_size (op_register instr op)) in
  if decide (table_sz ∈ [1; 2; 4; 8; 16]%nat) then Some table_sz
  else
    sz ← match memory_size instr with
         | MemorySize.UInt8 | MemorySize.Int8 => Some 1%nat
         | MemorySize.UInt16 | MemorySize.Int16 => Some 2%nat
         | MemorySize.UInt32 | MemorySize.Int32 => Some 4%nat
         | MemorySize.UInt64 | MemorySize.Int64 | MemorySize.QwordOffset | MemorySize.SegPtr64 => Some 8%nat
         | MemorySize.Other name =>
             if among ["UInt128"; "Int128"; "Float128"] name then Some 16%nat
             else if is_register (op_kind instr 0) then peer 0%nat
             else if is_register (op_kind instr 1) then peer 1%nat
             else None
         end;
    if decide (sz ∈ [1; 2; 4; 8; 16]%nat) then Some sz else None.

Definition i64_max : Z := 2 ^ 63 - 1.
Definition i64_min : Z := - 2 ^ 63.
Definition checked_add_i64 (a b : Z) : option Z := if decide (i64_min ≤ a + b ≤ i64_max) then Some (a + b) else None.

Record PinState := mkPin {
  base_reg : option Register;
  ps_min : Z;
  ps_max : Z;
  ps_r : bool;
  ps_w : bool;
  saw_mem : bool;
}.
(** One operand; [None] gives the plan up. *)
Definition consider_op instr (op : nat) (s : PinState) : option PinState :=
  if negb (match op_kind instr op with OpKind.Memory => true | _ => false end) then Some s
  else if (match mnemonic instr with Mnemonic.Lea => true | _ => false end) then Some s
  else
    let b := memory_base instr in
    if negb (is_stack_base_reg b) || negb (bool_decide (memory_index instr = reg_None)) then None
    else if decide (b = reg_RIP ∨ b = reg_EIP) then None
    else if (match base_reg s with Some prev => negb (bool_decide (prev = b)) | None => false end) then None
    else if insn_writes_full_gpr instr b then None
    else
      let disp := mem_disp_i64 instr in
      size ← mem_width_bytes instr;
      stop ← checked_add_i64 disp (Z.of_nat size);
      let '(r, w) := mem_op_rw instr op in
      Some (mkPin (Some b) (Z.min (ps_min s) disp) (Z.max (ps_max s) stop) (ps_r s || r) (ps_w s || w) true).
Fixpoint consider_ops instr (ops : list nat) (s : PinState) : option PinState :=
  match ops with [] => Some s | op :: ops => s ← consider_op instr op s; consider_ops instr ops s end.
Definition consider instr (s : PinState) : option PinState :=
  if insn_modifies_stack_ptr instr then None
  else if (match base_reg s with Some b => insn_writes_full_gpr instr b | None => false end) then None
  else consider_ops instr (seq 0 (op_count instr)) s.
Fixpoint consider_all (insns : list Instruction) (s : PinState) : option PinState :=
  match insns with [] => Some s | i :: insns => s ← consider i s; consider_all insns s end.
Definition returns_or_calls instr : bool :=
  match mnemonic instr with
  | Mnemonic.Call | Mnemonic.Ret => true
  | Mnemonic.Other name => among ["Retf"] name
  | _ => false
  end.
Definition analyze_block_stack_pin (body : list Instruction) (term_insn : option Instruction) : option BlockStackPinPlan :=
  s ← consider_all body (mkPin None i64_max i64_min false false false);
  s ← match term_insn with
      | None => Some s
      | Some t => if returns_or_calls t then None else consider t s
      end;
  if negb (saw_mem s) || bool_decide (ps_min s = i64_max) || bool_decide (ps_max s = i64_min) then None
  else if decide (ps_max s ≤ ps_min s) then None
  else
    b ← base_reg s;
    idx ← stack_base_gpr_index b;
    Some (mkPlan idx (ps_min s) (ps_max s) (ps_r s) (ps_w s)).

(** The check at the entry of the block, on the value of the base register there
    (jit/lower.rs): the pin of the stack is live, holds the whole range and allows
    what is needed. *)
Record HoistedPin := mkHoisted { hp_base : u64; hp_end : u64; hp_live : bool; hp_allow_r : bool; hp_allow_w : bool }.
Definition block_wide_stack_guard (pin : HoistedPin) (base : u64) (plan : BlockStackPinPlan) : bool :=
  let lo := wrapping_add base (as_u 64 (min_disp plan)) in
  let hi := wrapping_add base (as_u 64 (max_end plan)) in
  hp_live pin && bool_decide (lo ≤ hi) && bool_decide (hp_base pin ≤ lo) && bool_decide (hi ≤ hp_end pin) &&
  (negb (needs_r plan) || hp_allow_r pin) && (negb (needs_w plan) || hp_allow_w pin).
End Block.

(** ** A block is the code at its addresses *)

Section Straight.
Context `{IcedNames, !IcedLaws}.
Implicit Types (g : GuestMemory).

(** The instruction the bytes of guest memory at [a] are. *)
Definition insn_at g (a : u64) (i : Instruction) : Prop :=
  in_u64 a ∧ ∃ bytes, length bytes = 15%nat ∧ spc g a 15 Read = Ok tt ∧
    (∀ k, (k < 15)%nat → bytes !! k = gbyte g (a + Z.of_nat k)) ∧ decode a bytes = Some i.

(** Lowerable instructions one after the other, and jumps to the next address, from
    the first address to the second; the length in bytes. *)
Inductive straight g : u64 → list Instruction → u64 → Z → Prop :=
  | straight_here a : straight g a [] a 0
  | straight_insn a i l b n :
      insn_at g a i → classify_terminator i = None → is_lowerable i = true → is_string_op i = false →
      straight g (next_ip i) l b n → straight g a (i :: l) b (Z.of_nat (insn_len i) + n)
  | straight_jump a i l b n :
      insn_at g a i → classify_terminator i = Some (TermJmp (next_ip i)) →
      straight g (next_ip i) l b n → straight g a l b (Z.of_nat (insn_len i) + n).

(** A run, then the terminator, or a string operation, or neither. *)
Inductive block_shape g (start : u64) : list Instruction → u64 → Z → option BlockTerm → Prop :=
  | shape_fallthrough l b n : straight g start l b n → block_shape g start l b n None
  | shape_string l a i n : straight g start l a n → insn_at g a i → classify_terminator i = None → is_lowerable i = true →
      is_string_op i = true → block_shape g start (l ++ [i]) (next_ip i) (n + Z.of_nat (insn_len i)) None
  | shape_term l a i n t : straight g start l a n → insn_at g a i → classify_terminator i = Some t → t ≠ TermJmp (next_ip i) →
      block_shape g start (l ++ [i]) (term_rip t (next_ip i)) (n + Z.of_nat (insn_len i)) (Some t).

Lemma straight_app g a l b n l' c m : straight g a l b n → straight g b l' c m → straight g a (l ++ l') c (n + m).
Proof.
  induction 1 as [a|a i l b n Hi Hc Hl Hs Hrest IH|a i l b n Hi Hc Hrest IH]; intros Ht; cbn [app].
  - by rewrite Z.add_0_l.
  - rewrite <- Z.add_assoc. apply straight_insn; auto.
  - rewrite <- Z.add_assoc. apply straight_jump; auto.
Qed.
Lemma straight_code g a l b n : straight g a l b n → ∀ i, i ∈ l → insn_at g (ip i) i.
Proof.
  induction 1 as [a|a i l b n Hi Hc Hl Hs Hrest IH|a i l b n Hi Hc Hrest IH]; intros j Hj; [by apply elem_of_nil in Hj| |auto].
  apply elem_of_cons in Hj as [->|Hj]; [|auto]. pose proof Hi as (_ & bytes & _ & _ & _ & Hd). by rewrite (decode_ip _ _ _ Hd).
Qed.
Lemma insn_at_ip g a i : insn_at g a i → ip i = a ∧ (0 < insn_len i ≤ 15)%nat ∧ in_u64 (next_ip i).
Proof.
  intros (_ & bytes & Hl & _ & _ & Hd). split; [by eapply decode_ip|]. pose proof (decode_len _ _ _ Hd).
  split; [lia|]. rewrite (decode_next _ _ _ Hd). unfold in_u64, wrap64. apply Z.mod_pos_bound. lia.
Qed.
Lemma shape_code g start l b n t : block_shape g start l b n t → ∀ i, i ∈ l → insn_at g (ip i) i.
Proof.
  intros [l' b' n' Hs|l' a i n' Hs Hi _ _ _|l' a i n' t' Hs Hi _ _] j Hj; [by eapply straight_code| |];
    (apply elem_of_app in Hj as [Hj|Hj%list_elem_of_singleton]; [by eapply straight_code|]; subst j;
     by rewrite (proj1 (insn_at_ip _ _ _ Hi))).
Qed.

Lemma read15_ok a g : mem_ok g → in_u64 a →
  ∃ g' o, read15 a g = (g', Ok o) ∧ same_but_cache g g' ∧ mem_ok g' ∧
    match o with
    | Some bytes => length bytes = 15%nat ∧ spc g a 15 Read = Ok tt ∧ ∀ k, (k < 15)%nat → bytes !! k = gbyte g (a + Z.of_nat k)
    | None => spc g a 15 Read ≠ Ok tt
    end.
Proof.
  intros Hg Ha. destruct (gm_read_spec g a (replicate 15 0)) as (g' & buf & Hr & Hwf & Hs & Hl & Hb);
    [apply Hg|done|by vm_compute|apply (host_grants_spc g a _ Read); [apply Hg|apply Hg|done|by vm_compute]|].
  rewrite length_replicate in *. change (Z.of_nat 15) with 15 in *. unfold read15. rewrite Hr.
  assert (Hok : mem_ok g') by (by eapply mem_ok_same).
  destruct (spc g a 15 Read) as [[]|e|w] eqn:Hspc; [| |by apply spc_no_abort in Hspc].
  - exists g', (Some buf). split_and!; try done.
  - exists g', None. by split_and!.
Qed.

(** A block under way, [k] turns before its end. *)
Definition underway g start (k : nat) (b : BlockState) : Prop :=
  straight g start (bs_insns b) (bs_rip b) (bs_bytes b) ∧ bs_term b = None ∧ in_u64 (bs_rip b) ∧
  (length (bs_insns b) + k ≤ MAX_BLOCK_INSNS)%nat ∧ 0 ≤ bs_bytes b ≤ 15 * (Z.of_nat MAX_BLOCK_INSNS - Z.of_nat k).
Definition finished g start (b : BlockState) : Prop :=
  block_shape g start (bs_insns b) (bs_rip b) (bs_bytes b) (bs_term b) ∧ (length (bs_insns b) ≤ MAX_BLOCK_INSNS)%nat ∧ 0 ≤ bs_bytes b ≤ 15 * 96.

Lemma underway_finished g start k b : underway g start k b → finished g start b.
Proof. intros (Hs & Ht & _ & Hl & Hb). split; [rewrite Ht; by apply shape_fallthrough|]. unfold MAX_BLOCK_INSNS in *. lia. Qed.
Lemma add32 a b : a + b < u32_lim → sat_add32 a b = a + b.
Proof. unfold sat_add32. lia. Qed.

Lemma block_insn_ok g start k b i : underway g start (S k) b → insn_at g (bs_rip b) i →
  if (block_insn i b).2 then underway g start k (block_insn i b).1 else finished g start (block_insn i b).1.
Proof.
  intros Hu Hi. pose proof Hu as (Hs & Ht & Hr & Hl & Hb). destruct (insn_at_ip _ _ _ Hi) as (_ & Hlen & Hnext).
  assert (Hsum : sat_add32 (bs_bytes b) (Z.of_nat (insn_len i)) = bs_bytes b + Z.of_nat (insn_len i)).
  { apply add32. unfold MAX_BLOCK_INSNS in *. lia. }
  unfold block_insn. destruct (classify_terminator i) as [t|] eqn:Hc.
  - destruct (match t with TermJmp target => bool_decide (target = next_ip i) | _ => false end) eqn:Hj; cbn [fst snd].
    + destruct t; try discriminate Hj. apply bool_decide_eq_true in Hj as ->. unfold underway. cbn [bs_insns bs_rip bs_bytes bs_term].
      rewrite Hsum. split; [|split; [done|split; [done|split; [lia|unfold MAX_BLOCK_INSNS in *; lia]]]].
      rewrite <- (app_nil_r (bs_insns b)), <- (Z.add_0_r (Z.of_nat (insn_len i))).
      eapply straight_app; [exact Hs|]. apply straight_jump; [done|done|apply straight_here].
    + unfold finished, push_insn. cbn [bs_insns bs_rip bs_bytes bs_term]. rewrite Hsum, length_app. cbn [length].
      split; [|unfold MAX_BLOCK_INSNS in *; lia]. eapply shape_term; [exact Hs|done|done|]. intros ->. by rewrite bool_decide_eq_true_2 in Hj.
  - destruct (is_lowerable i) eqn:Hlow; [|by eapply underway_finished]. unfold push_insn. cbn [fst snd].
    destruct (is_string_op i) eqn:Hstr; cbn [negb].
    + unfold finished. cbn [bs_insns bs_rip bs_bytes bs_term]. rewrite Hsum, length_app, Ht. cbn [length].
      split; [|unfold MAX_BLOCK_INSNS in *; lia]. by eapply shape_string.
    + unfold underway. cbn [bs_insns bs_rip bs_bytes bs_term]. rewrite Hsum, length_app. cbn [length].
      split; [|split; [done|split; [done|split; [lia|unfold MAX_BLOCK_INSNS in *; lia]]]].
      eapply straight_app; [exact Hs|]. rewrite <- (Z.add_0_r (Z.of_nat (insn_len i))). apply straight_insn; try done. apply straight_here.
Qed.

Lemma block_loop_ok g start : mem_ok g → ∀ k b g1, underway g start k b → same_but_cache g g1 → mem_ok g1 →
  ∃ g' b', block_loop k b g1 = (g', Ok b') ∧ same_but_cache g g' ∧ mem_ok g' ∧ finished g start b'.
Proof.
  intros Hg. induction k as [|k IH]; intros b g1 Hu Hs Hg1; cbn [block_loop].
  - exists g1, b. split_and!; [done|done|done|by eapply underway_finished].
  - destruct (read15_ok (bs_rip b) g1 Hg1 (proj1 (proj2 (proj2 Hu)))) as (g2 & o & Hr & Hs2 & Hg2 & Ho).
    pose proof (same_but_cache_trans _ _ _ Hs Hs2) as Hs12. unfold mbind at 1, M_bind at 1. rewrite Hr.
    destruct o as [bytes|]; [|by exists g2, b; split_and!; [..|eapply underway_finished]].
    cbn [mbind option_bind]. destruct (decode (bs_rip b) bytes) as [i|] eqn:Hd; [|by exists g2, b; split_and!; [..|eapply underway_finished]].
    assert (Hi : insn_at g (bs_rip b) i).
    { split; [apply Hu|]. destruct Ho as (Hl & Hspc & Hb). exists bytes. split; [done|]. split; [|split; [|done]].
      - unfold spc in *. by rewrite (same_gview _ _ Hs) in Hspc.
      - intros j Hj. by rewrite Hb, (same_gbyte _ _ Hs). }
    pose proof (block_insn_ok g start k b i Hu Hi) as Hb. destruct (block_insn i b) as [b' []]; cbn [fst snd] in Hb.
    + by apply IH.
    + by exists g2, b'.
Qed.

(** C10 A block the JIT compiles is the code the interpreter would run:
    on a well-formed memory whose host pages can be read wherever the guest may read
    or execute ([host_grants], part of [mem_ok]: always with WIE_MPROTECT=0, and under
    the default mirroring unless a page has a stale host protection) forming it
    succeeds and changes nothing but the lookup cache; it starts
    where the host does not stop, its instructions are those that the bytes of guest
    memory decode to at consecutive addresses (jumps to the next address left out),
    all lowerable, with a terminator or a string operation only at the end, at
    most 96 of them and at least two where there is neither; and where the pages
    are executable the interpreter fetches the very same instruction. *)
Theorem block_is_code hooks start g : mem_ok g → in_u64 start →
  ∃ g' kind, decode_pure_gpr_block hooks start g = (g', Ok kind) ∧ same_but_cache g g' ∧ mem_ok g' ∧
    match kind with
    | NotPure => True
    | Pure insns end_rip bytes_len term =>
        stops_at hooks start = false ∧ block_shape g start insns end_rip bytes_len term ∧
        (1 ≤ length insns ≤ 96)%nat ∧ 0 ≤ bytes_len ≤ 1440 ∧
        (term = None → (∀ i, last insns = Some i → is_string_op i = false) → 2 ≤ length insns)%nat ∧
        ∀ i c, i ∈ insns → cmem c = g → cpu_ok c → spc g (ip i) 15 Execute = Ok tt →
          ∃ c' bytes, fetch15 (ip i) c = (c', Ok bytes) ∧ decode (ip i) bytes = Some i
    end.
Proof.
  intros Hg Hstart. unfold decode_pure_gpr_block. destruct (stops_at hooks start) eqn:Hstop.
  { exists g, NotPure. split_and!; [done|apply same_but_cache_refl|done|done]. }
  destruct (block_loop_ok g start Hg MAX_BLOCK_INSNS (mkBlock [] start 0 None) g) as (g' & b & Hr & Hs & Hg' & Hshape & Hlen & Hbytes);
    [|apply same_but_cache_refl|done|].
  { split; [apply straight_here|]. split; [done|]. split; [done|]. split; [done|]. cbn. lia. }
  unfold mbind, M_bind. rewrite Hr. eexists g', _. split; [reflexivity|]. split; [done|]. split; [done|].
  destruct (decide _) as [|Hmin]; [done|]. split; [done|]. split; [done|].
  assert (Hone : (1 ≤ block_min b)%nat) by (unfold block_min; destruct (_ || _); unfold MIN_BLOCK_INSNS; lia).
  split; [unfold MAX_BLOCK_INSNS in Hlen; lia|]. split; [lia|]. split.
  - intros Hterm Hno. unfold block_min, MIN_BLOCK_INSNS in Hmin. rewrite Hterm in Hmin. cbn [bool_decide orb] in Hmin.
    destruct (last (bs_insns b)) as [i|] eqn:Hlast; cbn in Hmin; [|lia]. rewrite (Hno i eq_refl) in Hmin. lia.
  - intros i c Hi <- Hc Hex. destruct (shape_code _ _ _ _ _ _ Hshape i Hi) as (Hip & bytes & Hbl & Hspc & Hb & Hd).
    destruct (fetch15_max (ip i) c Hc Hip) as (c' & r & Hf & _ & _ & _ & Hres). exists c', bytes. split; [|done].
    rewrite Hf. f_equal. destruct r as [bs|e|w]; [|exfalso; apply Hres; eapply spc_shrink; [done| |exact Hex]; lia|done].
    destruct Hres as (n & Hn & _ & Hmax & ->). f_equal.
    destruct (decide (n = 15)) as [->|Hne]; [|exfalso; apply Hmax; [lia|]; eapply spc_shrink; [done| |exact Hex]; lia].
    change (Z.to_nat 15) with 15%nat.
    assert (Hfull : length (prefix_bytes (gbyte (cmem c)) (ip i) 15) = 15%nat).
    { apply prefix_bytes_full. intros k Hk. replace k with (Z.of_nat (Z.to_nat k)) by lia. rewrite <- Hb by lia.
      apply lookup_lt_is_Some_2. lia. }
    apply list_eq. intros k. destruct (decide (k < 15)%nat) as [Hk|Hk].
    + rewrite Hb by done. apply prefix_bytes_lookup. lia.
    + rewrite !(lookup_ge_None_2 _ k); [done|lia|lia].
Qed.
End Straight.

(** ** One check for all stack accesses of a block *)

Section Plan.
Context `{IcedNames, !IcedNamesLaws, !IcedLaws}.
Implicit Types (i : Instruction) (s : PinState).

(** *** Registers that share their storage *)

Lemma is_named_spec names r : is_named names r = true ↔ ∃ n, n ∈ names ∧ r = named n.
Proof. unfold is_named. rewrite bool_decide_eq_true, list_elem_of_fmap. naive_solver. Qed.
Lemma family_of r k : gpr_index (full_register r) = Ok k → full_gpr r = (family ← gpr_families !! k; named <$> head family).
Proof.
  intros Hk. destruct (named_all r k Hk) as (family & name & Hf & Hn & Hr). unfold full_gpr.
  destruct (List.find (λ family, is_named family r) gpr_families) as [f|] eqn:Hfind.
  - apply find_some in Hfind as [Hin (n & Hn' & Hr')%is_named_spec]. apply list_elem_of_In, list_elem_of_lookup in Hin as [j Hj].
    pose proof (named_number j f n Hj Hn') as Hnum. rewrite <- Hr', Hk in Hnum. injection Hnum as ->. by rewrite Hj.
  - exfalso. eapply (find_none _ _) in Hfind; [|apply list_elem_of_In; by eapply list_elem_of_lookup_2].
    cbn beta in Hfind. assert (Ht : is_named family r = true) by (apply is_named_spec; eauto). congruence.
Qed.
Lemma aliases_same a b k : gpr_index (full_register a) = Ok k → gpr_index (full_register b) = Ok k → gpr_aliases a b = true.
Proof.
  intros Ha Hb. unfold gpr_aliases. destruct (decide (a = b)); [done|]. apply bool_decide_eq_true.
  by rewrite (family_of a k Ha), (family_of b k Hb).
Qed.
Lemma stack_base_number b k : stack_base_gpr_index b = Some k → gpr_index (full_register b) = Ok k.
Proof.
  unfold stack_base_gpr_index. destruct (is_named ["RSP"; "ESP"]%string b) eqn:H4.
  - intros [= <-]. apply is_named_spec in H4 as (n & Hn & ->). eapply named_number; [reflexivity|].
    rewrite !elem_of_cons in *. tauto.
  - destruct (is_named ["RBP"; "EBP"]%string b) eqn:H5; [|done]. intros [= <-].
    apply is_named_spec in H5 as (n & Hn & ->). eapply named_number; [reflexivity|]. rewrite !elem_of_cons in *. tauto.
Qed.

(** *** What the analysis has seen *)

(** Operand [op] of [i] is an access to memory. *)
Definition accesses i (op : nat) : Prop := (op < op_count i)%nat ∧ op_kind i op = OpKind.Memory ∧ mnemonic i ≠ Mnemonic.Lea.
(** [i] writes its first operand, a part of general-purpose register [k]. *)
Definition overwrites i (k : nat) : Prop :=
  op_count i ≠ 0%nat ∧ op_kind i 0 = OpKind.Register ∧ gpr_index (full_register (op_register i 0)) = Ok k ∧
  mnemonic i ≠ Mnemonic.Cmp ∧ mnemonic i ≠ Mnemonic.Test ∧ mnemonic i ≠ Mnemonic.Bt.

Record seen s i (op : nat) : Prop := {
  se_base : base_reg s = Some (memory_base i);
  se_index : memory_index i = reg_None;
  se_range : ∃ size, mem_width_bytes i = Some size ∧ ps_min s ≤ mem_disp_i64 i ∧ mem_disp_i64 i + Z.of_nat size ≤ ps_max s;
  se_rights : ((mem_op_rw i op).1 = true → ps_r s = true) ∧ ((mem_op_rw i op).2 = true → ps_w s = true);
}.
Record grows s s' : Prop := {
  gr_base b : base_reg s = Some b → base_reg s' = Some b;
  gr_min : ps_min s' ≤ ps_min s;
  gr_max : ps_max s ≤ ps_max s';
  gr_r : ps_r s = true → ps_r s' = true;
  gr_w : ps_w s = true → ps_w s' = true;
  gr_low : i64_min ≤ ps_min s → i64_min ≤ ps_min s';
  gr_high : ps_max s ≤ i64_max → ps_max s' ≤ i64_max;
}.
Lemma grows_refl s : grows s s.
Proof. by split. Qed.
Lemma grows_trans s1 s2 s3 : grows s1 s2 → grows s2 s3 → grows s1 s3.
Proof. intros [B1 L1 U1 R1 W1 N1 X1] [B2 L2 U2 R2 W2 N2 X2]. split; [auto|lia|lia|auto..]. Qed.
Lemma seen_grows s s' i op : grows s s' → seen s i op → seen s' i op.
Proof.
  intros [B L U R W _ _] [Hb Hi (size & Hs & Hlo & Hhi) [Hr Hw]]. split; [auto|done| |split; auto]. exists size. split; [done|]. lia.
Qed.

Lemma disp_range i : i64_min ≤ mem_disp_i64 i ≤ i64_max.
Proof.
  unfold mem_disp_i64, as_i, i64_min, i64_max. pose proof (Z.mod_pos_bound (memory_displacement64 i) (2 ^ 64)).
  destruct (decide _); lia.
Qed.
Lemma consider_op_ok i op s s' : consider_op i op s = Some s' →
  grows s s' ∧ (base_reg s' = base_reg s ∨ ∀ b, base_reg s' = Some b → insn_writes_full_gpr i b = false) ∧
  ((op < op_count i)%nat → accesses i op → seen s' i op).
Proof.
  unfold consider_op. destruct (op_kind i op) eqn:Hk; cbn [negb]; try (intros [= ->]; split; [apply grows_refl|]; split; [by left|];
    intros _ (_ & Hm & _); congruence).
  destruct (match mnemonic i with Mnemonic.Lea => true | _ => false end) eqn:Hlea.
  { intros [= ->]. split; [apply grows_refl|]. split; [by left|]. intros _ (_ & _ & Hm). by destruct (mnemonic i). }
  destruct (negb (is_stack_base_reg (memory_base i)) || _) eqn:Hbase; [done|]. apply orb_false_iff in Hbase as [_ Hindex].
  apply negb_false_iff, bool_decide_eq_true in Hindex. destruct (decide _); [done|].
  destruct (match base_reg s with Some prev => _ | None => false end) eqn:Hprev; [done|].
  destruct (insn_writes_full_gpr i (memory_base i)) eqn:Hw; [done|].
  destruct (mem_width_bytes i) as [size|] eqn:Hsize; [|done]. cbn [mbind option_bind].
  unfold checked_add_i64. destruct (decide _) as [Hrange|]; [|done]. cbn [mbind option_bind].
  destruct (mem_op_rw i op) as [r w] eqn:Hrw. intros [= <-].
  split; [|split].
  - split; cbn [base_reg ps_min ps_max ps_r ps_w]; [|lia|lia|by intros ->|by intros ->|pose proof (disp_range i); lia|lia].
    intros b Hb. rewrite Hb in Hprev. apply negb_false_iff, bool_decide_eq_true in Hprev. by subst b.
  - right. cbn [base_reg]. by intros b [= <-].
  - intros _ _. split; cbn [base_reg ps_min ps_max ps_r ps_w]; [done|done| |].
    + exists size. split; [done|]. lia.
    + rewrite Hrw. cbn [fst snd]. split; intros ->; by rewrite orb_true_r.
Qed.
Lemma consider_ops_ok i ops : ∀ s s', consider_ops i ops s = Some s' →
  grows s s' ∧ (base_reg s' = base_reg s ∨ ∀ b, base_reg s' = Some b → insn_writes_full_gpr i b = false) ∧
  ∀ op, op ∈ ops → accesses i op → seen s' i op.
Proof.
  induction ops as [|op ops IH]; intros s s'; cbn [consider_ops].
  - intros [= ->]. split; [apply grows_refl|]. split; [by left|]. by intros op ?%elem_of_nil.
  - destruct (consider_op i op s) as [s1|] eqn:Hc1; [|done]. cbn [mbind option_bind]. intros Hc2.
    destruct (consider_op_ok i op s s1 Hc1) as (Hg & Hb & Hs). destruct (IH s1 s' Hc2) as (Hg' & Hb' & Hs').
    split; [by eapply grows_trans|]. split.
    + destruct Hb' as [Hb'|]; [|by right]. rewrite Hb'. exact Hb.
    + intros o [->|Ho]%elem_of_cons Ha; [|auto]. eapply seen_grows; [exact Hg'|]. apply Hs; [apply Ha|done].
Qed.
Lemma consider_ok i s s' : consider i s = Some s' →
  grows s s' ∧ insn_modifies_stack_ptr i = false ∧ (∀ b, base_reg s' = Some b → insn_writes_full_gpr i b = false) ∧
  ∀ op, accesses i op → seen s' i op.
Proof.
  unfold consider. destruct (insn_modifies_stack_ptr i); [done|]. destruct (match base_reg s with Some b => _ | None => false end) eqn:Hw; [done|].
  intros Hc. destruct (consider_ops_ok i _ s s' Hc) as (Hg & Hb & Hs). split; [done|]. split; [done|]. split.
  - intros b Hbase. destruct Hb as [Hb|Hb]; [|auto]. rewrite Hbase in Hb. by rewrite <- Hb in Hw.
  - intros op Ha. apply Hs; [|done]. apply elem_of_seq. destruct Ha as [Ha _]. lia.
Qed.

Lemma consider_all_app l l' s : consider_all (l ++ l') s = (consider_all l s ≫= consider_all l').
Proof.
  revert s. induction l as [|i l IH]; intros s; [done|]. cbn [app consider_all]. destruct (consider i s) as [s1|]; [|done].
  cbn [mbind option_bind]. apply IH.
Qed.
Lemma consider_all_grows l : ∀ s s', consider_all l s = Some s' → grows s s'.
Proof.
  induction l as [|i l IH]; intros s s'; cbn [consider_all]; [intros [= ->]; apply grows_refl|].
  destruct (consider i s) as [s1|] eqn:Hc1; [|done]. cbn [mbind option_bind]. intros Hc2.
  eapply grows_trans; [by eapply consider_ok|by eapply IH].
Qed.
(** At an instruction of the block. *)
Lemma consider_all_at pre i post s s' : consider_all (pre ++ i :: post) s = Some s' →
  ∃ s1 s2, consider_all pre s = Some s1 ∧ consider i s1 = Some s2 ∧ grows s2 s'.
Proof.
  rewrite consider_all_app. destruct (consider_all pre s) as [s1|]; [|done]. cbn [mbind option_bind consider_all].
  destruct (consider i s1) as [s2|] eqn:Hc2; [|done]. cbn [mbind option_bind]. intros Hc3. exists s1, s2. split; [done|]. split; [done|].
  by eapply consider_all_grows.
Qed.
Lemma consider_all_seen l s s' i op : consider_all l s = Some s' → i ∈ l → accesses i op → seen s' i op.
Proof.
  intros Hc Hi Ha. apply list_elem_of_split in Hi as (pre & post & ->). destruct (consider_all_at _ _ _ _ _ Hc) as (s1 & s2 & _ & Hc2 & Hg).
  eapply seen_grows; [exact Hg|]. destruct (consider_ok _ _ _ Hc2) as (_ & _ & _ & Hs). by apply Hs.
Qed.

Lemma not_overwritten i b k : insn_modifies_stack_ptr i = false → insn_writes_full_gpr i b = false →
  gpr_index (full_register b) = Ok k → ¬ overwrites i k.
Proof.
  intros Hm Hw Hb (Hn & Hk & Hr & Hcmp & Htest & Hbt). unfold insn_writes_full_gpr in Hw. rewrite Hm in Hw. cbn [andb] in Hw.
  rewrite Hk, (aliases_same (op_register i 0) b k Hr Hb) in Hw. destruct (mnemonic i); try congruence; destruct (decide (op_count i = 0%nat)); done.
Qed.

Lemma analyze_ok body term p : analyze_block_stack_pin body term = Some p →
  ∃ s b, consider_all (body ++ option_list term) (mkPin None i64_max i64_min false false false) = Some s ∧ base_reg s = Some b ∧
    stack_base_gpr_index b = Some (base_idx p) ∧ ps_min s = min_disp p ∧ ps_max s = max_end p ∧ ps_r s = needs_r p ∧ ps_w s = needs_w p ∧
    i64_min ≤ min_disp p < max_end p ∧ max_end p ≤ i64_max.
Proof.
  unfold analyze_block_stack_pin. intros Ha. rewrite consider_all_app. destruct (consider_all body _) as [s1|] eqn:Hc; [|done].
  cbn [mbind option_bind] in Ha |- *.
  assert (Hall : ∃ s, consider_all (option_list term) s1 = Some s ∧
    (match term with None => Some s1 | Some t => if returns_or_calls t then None else consider t s1 end) = Some s).
  { destruct term as [t|]; [|by exists s1]. destruct (returns_or_calls t); [done|]. change (option_list (Some t)) with [t]. cbn [consider_all].
    destruct (consider t s1) as [s|]; [|done]. exists s. by split. }
  destruct Hall as (s & Hall & Hterm). rewrite Hterm in Ha. cbn [mbind option_bind] in Ha. exists s.
  pose proof (grows_trans _ _ _ (consider_all_grows _ _ _ Hc) (consider_all_grows _ _ _ Hall)) as [_ _ _ _ _ Hlow Hhigh].
  cbn [ps_min ps_max] in Hlow, Hhigh.
  destruct (negb _ || _ || _); [done|]. destruct (decide _); [done|].
  destruct (base_reg s) as [b|] eqn:Hb; [|done]. cbn [mbind option_bind] in Ha.
  destruct (stack_base_gpr_index b) as [idx|] eqn:Hi; [|done]. cbn [mbind option_bind] in Ha. injection Ha as <-.
  exists b. cbn [base_idx min_disp max_end needs_r needs_w]. split_and!; try done; try lia. all: unfold i64_min, i64_max in *; lia.
Qed.

(** *** The check at the entry *)

Lemma guard_range base lo hi d n : in_u64 base → lo ≤ d → d + n ≤ hi → 0 < n → hi - lo < 2 ^ 64 →
  let at_ x := wrapping_add base (as_u 64 x) in
  at_ lo ≤ at_ hi → at_ lo ≤ at_ d ∧ at_ d + n ≤ at_ hi.
Proof.
  intros Hb Hlo Hhi Hn Hspan at_. assert (Hat : ∀ x, at_ x = (base + x) mod 2 ^ 64).
  { intros x. unfold at_, wrapping_add, wrap64, as_u. change u64_lim with (2 ^ 64). by rewrite Zplus_mod_idemp_r. }
  rewrite !Hat. replace (base + hi) with (base + lo + (hi - lo)) by lia. replace (base + d) with (base + lo + (d - lo)) by lia.
  set (z := base + lo). rewrite <- (Zplus_mod_idemp_l z (hi - lo)), <- (Zplus_mod_idemp_l z (d - lo)).
  pose proof (Z.mod_pos_bound z (2 ^ 64) ltac:(lia)) as Hz. set (y := z mod 2 ^ 64) in *. intros Hle.
  destruct (decide (y + (hi - lo) < 2 ^ 64)) as [Hin|Hout].
  - rewrite (Z.mod_small (y + (hi - lo))), (Z.mod_small (y + (d - lo))) in * by lia. lia.
  - exfalso. replace (y + (hi - lo)) with (y + (hi - lo) - 2 ^ 64 + 1 * 2 ^ 64) in Hle by lia.
    rewrite Z_mod_plus_full, Z.mod_small in Hle by lia. lia.
Qed.

Lemma mem_width_pos i size : mem_width_bytes i = Some size → (0 < size ≤ 16)%nat.
Proof.
  assert (Hin : ∀ n : nat, n ∈ [1; 2; 4; 8; 16]%nat → (0 < n ≤ 16)%nat) by (intros n; rewrite !elem_of_cons, elem_of_nil; lia).
  unfold mem_width_bytes. destruct (decide _); [intros [= <-]; auto|].
  match goal with |- (?o ≫= _) = _ → _ => destruct o as [sz|] end; [|done]. cbn [mbind option_bind].
  destruct (decide _); [|done]. intros [= <-]; auto.
Qed.
Lemma disp_as_u i : as_u 64 (mem_disp_i64 i) = memory_displacement64 i.
Proof.
  pose proof (displacement_u64 i) as Hd. unfold in_u64 in Hd. unfold mem_disp_i64, as_u, as_i.
  rewrite (Z.mod_small (memory_displacement64 i)) by (change (2 ^ 64) with u64_lim; lia).
  destruct (decide _); [by rewrite Z.mod_small by (change (2 ^ 64) with u64_lim; lia)|]. change (2 ^ 64) with u64_lim.
  rewrite <- (Z_mod_plus_full _ 1), Z.mod_small by lia. lia.
Qed.
Lemma guard_access p pin base i size : in_u64 base → block_wide_stack_guard pin base p = true → (0 < size ≤ 16)%nat →
  min_disp p ≤ mem_disp_i64 i → mem_disp_i64 i + Z.of_nat size ≤ max_end p → i64_min ≤ min_disp p < max_end p ∧ max_end p ≤ i64_max →
  let a := wrapping_add base (memory_displacement64 i) in hp_base pin ≤ a ∧ a + Z.of_nat size ≤ hp_end pin ∧ (needs_r p = true → hp_allow_r pin = true) ∧ (needs_w p = true → hp_allow_w pin = true).
Proof.
  intros Hu Hg Hn Hlo Hhi Hspan a. unfold block_wide_stack_guard in Hg. rewrite !andb_true_iff, !bool_decide_eq_true in Hg.
  destruct Hg as [[[[[_ Hle] Hbase] Hend] Hr] Hw].
  destruct (guard_range base (min_disp p) (max_end p) (mem_disp_i64 i) (Z.of_nat size)) as [Ha1 Ha2]; try done; [lia|unfold i64_min, i64_max in *; lia|].
  rewrite disp_as_u in Ha1, Ha2. unfold a. split; [lia|]. split; [lia|].
  split; intros Hneed; [rewrite Hneed in Hr|rewrite Hneed in Hw]; assumption.
Qed.

(** C11 The plan of a block covers its accesses: every operand in memory
    is addressed by the register of the plan and a displacement alone, within the
    range and the rights of the plan; no instruction of the block moves the stack
    pointer as a push does, and none from the first access on writes the register as
    its first operand.  When the check at the entry of the block holds for a value
    of the register, every access made with that value lies in the pinned stack. *)
Theorem stack_plan_covers body term p : analyze_block_stack_pin body term = Some p →
  (∀ i op, i ∈ body ++ option_list term → accesses i op →
     gpr_index (full_register (memory_base i)) = Ok (base_idx p) ∧ memory_index i = reg_None ∧
     ((mem_op_rw i op).1 = true → needs_r p = true) ∧ ((mem_op_rw i op).2 = true → needs_w p = true) ∧
     ∃ size, mem_width_bytes i = Some size ∧ min_disp p ≤ mem_disp_i64 i ∧ mem_disp_i64 i + Z.of_nat size ≤ max_end p ∧
       ∀ pin base, in_u64 base → block_wide_stack_guard pin base p = true →
         let a := wrapping_add base (memory_displacement64 i) in
         hp_base pin ≤ a ∧ a + Z.of_nat size ≤ hp_end pin ∧ ((mem_op_rw i op).1 = true → hp_allow_r pin = true) ∧
         ((mem_op_rw i op).2 = true → hp_allow_w pin = true)) ∧
  (∀ i, i ∈ body ++ option_list term → insn_modifies_stack_ptr i = false) ∧
  (∀ pre i post j op, body ++ option_list term = pre ++ i :: post → j ∈ pre ++ [i] → accesses j op → ¬ overwrites i (base_idx p)).
Proof.
  intros Ha. destruct (analyze_ok _ _ _ Ha) as (s & b & Hall & Hb & Hidx & Hmin & Hmax & Hr & Hw & Hspan).
  assert (Hnum : gpr_index (full_register b) = Ok (base_idx p)) by (by apply stack_base_number).
  split; [|split].
  - intros i op Hi Hac. destruct (consider_all_seen _ _ _ _ _ Hall Hi Hac) as [Hbase Hix (size & Hsize & Hlo & Hhi) [Hri Hwi]].
    rewrite Hr in Hri. rewrite Hw in Hwi. rewrite Hmin in Hlo. rewrite Hmax in Hhi. rewrite Hb in Hbase. injection Hbase as <-.
    split; [done|]. split; [done|]. split; [done|]. split; [done|]. exists size. split; [done|]. split; [done|]. split; [done|].
    intros pin base Hu Hg. destruct (guard_access p pin base i size) as (Hl & Hh & Hpr & Hpw); try done; [by eapply mem_width_pos|].
    intros a. by split_and!; auto.
  - intros i (pre & post & Hl)%list_elem_of_split. rewrite Hl in Hall.
    destruct (consider_all_at _ _ _ _ _ Hall) as (s1 & s2 & _ & Hc & _). by destruct (consider_ok _ _ _ Hc) as (_ & ? & _).
  - intros pre i post j op Hl Hj Hac. rewrite Hl in Hall.
    destruct (consider_all_at _ _ _ _ _ Hall) as (s1 & s2 & Hpre & Hc & Hg). destruct (consider_ok _ _ _ Hc) as (_ & Hm & Hwr & Hseen).
    eapply not_overwritten; [exact Hm| |exact Hnum]. apply Hwr.
    assert (Hj2 : seen s2 j op).
    { apply elem_of_app in Hj as [Hj| ->%list_elem_of_singleton]; [|by apply Hseen].
      eapply seen_grows; [by eapply consider_ok|]. by eapply consider_all_seen. }
    pose proof (se_base _ _ _ Hj2) as Hbj. pose proof (gr_base _ _ Hg _ Hbj) as Hbs. congruence.
Qed.
End Plan.

(** ** On the concrete decoder *)

(** The names of the registers, and a size for each operand in memory. *)
Definition demo_part (k j : nat) : dreg :=
  match j with 0 => DG k 8 | 1 => DG k 4 | 2 => DG k 2 | 3 => DG k 1 | _ => DH k end%nat.
Definition demo_registers : list (string * dreg) :=
  concat (imap (λ k family, imap (λ j name, (name, demo_part k j)) family) gpr_families).
Definition demo_named (name : string) : dreg :=
  from_option snd DNone (List.find (λ e, String.eqb e.1 name) demo_registers).

#[export] Instance demo_names : IcedNames := {
  memory_size_size m :=
    match m with
    | MemorySize.UInt8 | MemorySize.Int8 => 1
    | MemorySize.UInt16 | MemorySize.Int16 => 2
    | MemorySize.UInt32 | MemorySize.Int32 => 4
    | MemorySize.UInt64 | MemorySize.Int64 | MemorySize.QwordOffset | MemorySize.SegPtr64 => 8
    | MemorySize.Other _ => 0
    end%nat;
  named := demo_named;
}.

Lemma demo_part_named k j : (k < 16)%nat → (j < 4 ∨ j = 4 ∧ k < 4)%nat →
  ∃ family name, gpr_families !! k = Some family ∧ family !! j = Some name ∧ demo_named name = demo_part k j.
Proof.
  intros Hk Hj. do 16 (destruct k as [|k]; [
    do 5 (destruct j as [|j]; [solve [eexists _, _; split_and!; [reflexivity|reflexivity|vm_compute; reflexivity]|exfalso; lia]|]);
    exfalso; lia|]).
  exfalso; lia.
Qed.
Lemma demo_gpr_part r k : gpr_index (full_register r) = Ok k → ∃ j, r = demo_part k j ∧ (k < 16)%nat ∧ (j < 4 ∨ j = 4 ∧ k < 4)%nat.
Proof.
  assert (Hok : ∀ f, gpr_index f = Ok k → reg_number f = k ∧ (k < 16)%nat ∧ reg_size f = 8%nat).
  { intros f. unfold gpr_index. destruct (bool_decide _) eqn:Hn; [|done]. destruct (bool_decide (reg_size f = _)) eqn:Hs; [|done].
    apply bool_decide_eq_true in Hn, Hs. intros [= <-]. auto. }
  intros (Hn & Hk & Hs)%Hok. destruct r as [| | |n s|n|n]; try (exfalso; cbn in Hn; lia).
  - assert (Hs' : (s = 8 ∨ s = 4 ∨ s = 2 ∨ s = 1)%nat).
    { do 9 (destruct s as [|s]; [cbn in Hs; first [discriminate Hs|auto]|]). cbn in Hs. discriminate Hs. }
    destruct Hs' as [->|[->|[->| ->]]]; cbn in Hn; subst n; [exists 0%nat|exists 1%nat|exists 2%nat|exists 3%nat]; split_and!; first [done|lia|auto].
  - cbn in Hn, Hs. destruct (decide (n < 4)%nat); [|discriminate Hs]. cbn in Hn. subst n. exists 4%nat. split_and!; first [done|lia|auto].
  - discriminate Hs.
Qed.

Lemma demo_name_part k j family name : gpr_families !! k = Some family → family !! j = Some name →
  demo_named name = demo_part k j ∧ (k < 16 ∧ (j < 4 ∨ j = 4 ∧ k < 4))%nat.
Proof.
  intros Hk Hj. pose proof (lookup_lt_Some _ _ _ Hk) as Hlt. change (length gpr_families) with 16%nat in Hlt.
  assert (Hj4 : (j < 4 ∨ j = 4 ∧ k < 4)%nat).
  { apply lookup_lt_Some in Hj. revert Hk. do 16 (destruct k as [|k]; [intros [= <-]; cbn in Hj; lia|]). lia. }
  destruct (demo_part_named k j Hlt Hj4) as (family' & name' & Hf & Hn & Hd). rewrite Hk in Hf. injection Hf as <-.
  rewrite Hj in Hn. injection Hn as <-. auto.
Qed.
Lemma demo_high k : (k < 4)%nat → is_high_byte (DH k) = true.
Proof. intros Hk. by do 4 (destruct k as [|k]; [reflexivity|]); lia. Qed.
#[export] Instance demo_names_laws : IcedNamesLaws.
Proof.
  split.
  - apply (bool_decide_unpack _). by vm_compute.
  - assert (Hall : bool_decide (Forall (λ k, Forall (λ name, gpr_index (full_register (named name)) = Ok k) (default [] (gpr_families !! k))) (seq 0 16)) = true)
      by (vm_compute; reflexivity).
    apply bool_decide_eq_true in Hall. rewrite Forall_forall in Hall. intros k family name Hk Hn. specialize (Hall k). rewrite Hk in Hall.
    pose proof (lookup_lt_Some _ _ _ Hk) as Hlt. change (length gpr_families) with 16%nat in Hlt.
    apply (proj1 (Forall_forall _ _) (Hall ltac:(apply elem_of_seq; lia))). done.
  - intros k family j name Hk Hj. pose proof (lookup_lt_Some _ _ _ Hk) as Hlt. change (length gpr_families) with 16%nat in Hlt.
    destruct (demo_name_part k j family name Hk Hj) as [Hn Hj4]. change (named name) with (demo_named name). rewrite Hn.
    do 5 (destruct j as [|j]; [split_and!; first [reflexivity|discriminate|apply demo_high; lia]|]). lia.
  - intros r k (j & -> & Hk & Hj)%demo_gpr_part. destruct (demo_part_named k j Hk Hj) as (family & name & Hf & Hn & Hr).
    exists family, name. split; [done|]. split; [by eapply list_elem_of_lookup_2|done].
Qed.

(** [add rbp, rax; mov [rbp], al; jmp] to the first. *)
Definition loop_code : list u8 := [0x48; 0x01; 0xc5; 0x88; 0x05; 0xeb; 0xf9].
Definition loop_cpu : cpu := demo_cpu loop_code (λ r, set_rax 0x1000 (set_gpr 5 (demo_base + 0x7f00) r)).
(** [mov [rbp], al; jmp] to it. *)
Definition store_code : list u8 := [0x88; 0x05; 0xeb; 0xfc].
(** A pin of the page below the stack pointer. *)
Definition demo_pin : HoistedPin := mkHoisted (demo_base + 0x7000) (demo_base + 0x8000) true false true.

Definition loop_insns : list dinsn :=
  [mkD demo_base 3 Mnemonic.Add [DReg (DG 5 8); DReg (DG 0 8)] false DNone (MemorySize.Other "None");
   mkD (demo_base + 3) 2 Mnemonic.Mov [DMem; DReg (DG 0 1)] false (DG 5 8) MemorySize.UInt8;
   mkD (demo_base + 5) 2 Mnemonic.Jmp [DBranch demo_base] false DNone (MemorySize.Other "None")].
Definition store_insns : list dinsn :=
  [mkD demo_base 2 Mnemonic.Mov [DMem; DReg (DG 0 1)] false (DG 5 8) MemorySize.UInt8;
   mkD (demo_base + 2) 2 Mnemonic.Jmp [DBranch demo_base] false DNone (MemorySize.Other "None")].

Lemma demo_code_byte code : forallb (λ b, (0 <=? b) && (b <? 256)) code = true → Forall is_byte code.
Proof. intros Hb. rewrite forallb_forall in Hb. apply Forall_forall. intros x Hx%list_elem_of_In%Hb. unfold is_byte. lia. Qed.

Definition kind_view (r : res BlockKind) : option (list dinsn * u64 * u32 * option BlockTerm) :=
  match r with Ok (Pure insns end_rip len term) => Some (insns, end_rip, len, term) | _ => None end.
Lemma kind_view_inv r insns end_rip len term : kind_view r = Some (insns, end_rip, len, term) → r = Ok (Pure insns end_rip len term).
Proof. destruct r as [[]| |]; try done. by intros [= -> -> -> ->]. Qed.
Lemma loop_block : (decode_pure_gpr_block None demo_base (demo_machine loop_code)).2 = Ok (Pure loop_insns demo_base 7 (Some (TermJmp demo_base))).
Proof. apply kind_view_inv. vm_compute. reflexivity. Qed.

(** The analysis looks for writes to the register of the plan only from the first
    access on, while the check at the entry is on the value the register has there:
    this block, a loop to its own start, gets a plan and passes the check, and its
    store is outside the pinned stack. *)
Lemma early_write_keeps_plan :
  ∃ p, (decode_pure_gpr_block None demo_base (demo_machine loop_code)).2 = Ok (Pure loop_insns demo_base 7 (Some (TermJmp demo_base))) ∧
    pure_is_self_loop (Pure loop_insns demo_base 7 (Some (TermJmp demo_base))) demo_base = true ∧
    analyze_block_stack_pin (take 2 loop_insns) (loop_insns !! 2%nat) = Some p ∧ base_idx p = 5%nat ∧
    block_wide_stack_guard demo_pin (gpr (cregs loop_cpu) 5) p = true ∧
    hp_end demo_pin ≤ gpr (cregs (demo_steps 1 loop_cpu).1) 5.
Proof.
  exists (mkPlan 5 0 1 false true). split; [exact loop_block|]. split; [vm_compute; reflexivity|].
  split; [vm_compute; reflexivity|]. split; [reflexivity|]. split; [vm_compute; reflexivity|]. vm_compute. discriminate.
Qed.

Lemma block_is_code_witness :
  mem_ok (demo_machine loop_code) ∧ in_u64 demo_base ∧
  ∃ g' insns, decode_pure_gpr_block None demo_base (demo_machine loop_code) = (g', Ok (Pure insns demo_base 7 (Some (TermJmp demo_base)))) ∧
    length insns = 3%nat ∧ mem_ok g' ∧
    block_shape (demo_machine loop_code) demo_base insns demo_base 7 (Some (TermJmp demo_base)).
Proof.
  assert (Hg : mem_ok (demo_machine loop_code)) by (apply demo_machine_ok; [by apply demo_code_byte|done]).
  split; [exact Hg|]. split; [by vm_compute|].
  destruct (block_is_code None demo_base (demo_machine loop_code) Hg ltac:(by vm_compute)) as (g' & kind & Hr & _ & Hg' & Hk).
  pose proof loop_block as Hkind. rewrite Hr in Hkind. cbn [snd] in Hkind.
  injection Hkind as ->. exists g', loop_insns. split; [exact Hr|].
  split; [reflexivity|]. split; [exact Hg'|]. exact (proj1 (proj2 Hk)).
Defined.

Lemma stack_plan_covers_witness :
  ∃ p, analyze_block_stack_pin (take 1 store_insns) (store_insns !! 1%nat) = Some p ∧
    block_wide_stack_guard demo_pin (demo_base + 0x7fff) p = true ∧
    hp_base demo_pin ≤ demo_base + 0x7fff ∧ demo_base + 0x7fff + 1 ≤ hp_end demo_pin ∧ hp_allow_w demo_pin = true.
Proof.
  exists (mkPlan 5 0 1 false true).
  assert (Hp : analyze_block_stack_pin (take 1 store_insns) (store_insns !! 1%nat) = Some (mkPlan 5 0 1 false true))
    by (vm_compute; reflexivity).
  assert (Hpin : block_wide_stack_guard demo_pin (demo_base + 0x7fff) (mkPlan 5 0 1 false true) = true) by (vm_compute; reflexivity).
  split; [exact Hp|]. split; [exact Hpin|].
  destruct (stack_plan_covers _ _ _ Hp) as (Hall & _ & _).
  destruct (Hall (mkD demo_base 2 Mnemonic.Mov [DMem; DReg (DG 0 1)] false (DG 5 8) MemorySize.UInt8) 0%nat) as (_ & _ & _ & _ & size & Hs & _ & _ & Hin).
  - apply elem_of_cons. by left.
  - split; [cbn; lia|]. by split.
  - vm_compute in Hs. injection Hs as <-.
    destruct (Hin demo_pin (demo_base + 0x7fff) ltac:(by vm_compute) Hpin) as (H1 & H2 & _ & H4).
    split; [exact H1|]. split; [exact H2|]. by apply H4.
Defined.
