(* ===== verification/jit_mem.v ===== *)
(** * Memory access from compiled blocks (crates/wie-cpu/src/jit/lower.rs)

    The host functions through which a compiled block loads and stores, and the
    caches in front of them: recently used pages, a set-associative table of pages,
    and pinned regions.  Whatever a cache holds, a load is the load of the
    interpreter and a store is a write to guest memory. *)

From S2P Require Import Prelude protect pagemap vad arena region mem mem_access mem_ops mem_safe.
From S2P Require Import engine regs regs_safe insn exec exec_wf mem_demo exec_demo.

(** ** State

    The parallel arrays of the code (keys, host pointers, generations, rights) are
    lists of [Way]s. *)

Definition TLB_SETS : nat := 16.
Definition TLB_WAYS_PER_SET : nat := 4.
Definition TLB_EMPTY : u64 := u64_lim - 1.
Definition TLB_PROT_R : u64 := 1.
Definition TLB_PROT_W : u64 := 2.
Definition STICKY_WAYS : nat := 2.

(** A page of the guest, where the host keeps it, and what may be done with it. *)
Record Way := mkWay { w_page : u64; w_host : Z; w_prot : Z; w_gen : u64 }.
Definition empty_way : Way := mkWay TLB_EMPTY 0 0 0.
Record TlbBucket := mkBucket { ways : list Way; bucket_rr : u8 }.
Definition empty_tlb_bucket : TlbBucket := mkBucket (replicate TLB_WAYS_PER_SET empty_way) 0.
Record Tlb := mkTlbs {
  tlb_sets : list TlbBucket;
  tlb_hot : Way;
  sticky : list Way;
  sticky_rr : u64;
}.
(** [PerThreadJitState::new], [JitCpu::invalidate_tlb]. *)
Definition Tlb_empty : Tlb :=
  mkTlbs (replicate TLB_SETS empty_tlb_bucket) empty_way (replicate STICKY_WAYS empty_way) 0.

Record MemPin := mkMemPin { mp_guest_base : u64; mp_guest_end : u64; mp_host_base : u64; mp_mem_gen : u64; mp_allow : u64 }.
Definition MemPin_EMPTY : MemPin := mkMemPin 0 0 0 0 0.
Definition prot_bits (allow_r allow_w : bool) : Z :=
  Z.lor (if allow_r then TLB_PROT_R else 0) (if allow_w then TLB_PROT_W else 0).
Definition from_info (info : option RegionPinInfo) : MemPin :=
  match info with
  | None => MemPin_EMPTY
  | Some p =>
      if decide (pin_host_base p = 0 ∨ pin_guest_end p ≤ pin_guest_base p) then MemPin_EMPTY
      else
        let allow := prot_bits (pin_allow_r p) (pin_allow_w p) in
        if decide (allow = 0) then MemPin_EMPTY
        else mkMemPin (pin_guest_base p) (pin_guest_end p) (pin_host_base p) (pin_generation p) allow
  end.

(** The counters of [MemPathSlice], by name. *)
Inductive MemPathField :=
  | sticky_hit | multi_hit | pin_hit | walk_hit | cross_page | slow | sticky_miss_key | sticky_miss_gen
  | sticky_miss_prot | sticky_swaps | addr_in_stack_pin | addr_in_heap_pin | addr_outside_pins.
#[global] Instance MemPathField_eq_dec : EqDecision MemPathField.
Proof. solve_decision. Defined.
Definition MemPathSlice : Type := MemPathField → u64.
Definition MemPathSlice_default : MemPathSlice := λ _, 0.

(** The part of [JitCtx] that serves memory. *)
Record JitMem := mkJitMem {
  jm_tlb : Tlb;
  jm_gen : u64;                (** [mem_gen] *)
  jm_pins : list MemPin;
  load_calls : u64;
  store_calls : u64;
  mem_path : MemPathSlice;
}.
Definition set_tlb (t : Tlb) (m : JitMem) : JitMem := mkJitMem t (jm_gen m) (jm_pins m) (load_calls m) (store_calls m) (mem_path m).
Definition count (f : MemPathField) (m : JitMem) : JitMem :=
  mkJitMem (jm_tlb m) (jm_gen m) (jm_pins m) (load_calls m) (store_calls m)
    (λ x, if decide (x = f) then sat_add (mem_path m x) 1 else mem_path m x).
Definition count_load (m : JitMem) : JitMem :=
  mkJitMem (jm_tlb m) (jm_gen m) (jm_pins m) (sat_add (load_calls m) 1) (store_calls m) (mem_path m).
Definition count_store (m : JitMem) : JitMem :=
  mkJitMem (jm_tlb m) (jm_gen m) (jm_pins m) (load_calls m) (sat_add (store_calls m) 1) (mem_path m).

(** ** The caches *)

Definition tlb_prot_allows (prot : Z) (write : bool) : bool :=
  if write then negb (bool_decide (Z.land prot TLB_PROT_W = 0)) else negb (bool_decide (Z.land prot TLB_PROT_R = 0)).
Definition pack_tlb_prot (allow_r allow_w : bool) : u8 := prot_bits allow_r allow_w.
Definition tlb_set_index (page_key : u64) : nat := Z.to_nat (Z.land page_key (Z.of_nat TLB_SETS - 1)).

(** The page becomes the most recent one; [found]: the way it had. *)
Definition sticky_others (found : option nat) (ws : list Way) : list Way :=
  omap (λ k, if decide (Some k = found) then None
             else v ← ws !! k; if decide (w_page v = TLB_EMPTY) then None else Some v) (seq 0 STICKY_WAYS).
Definition sticky_push (w : Way) (ws : list Way) : list Way :=
  let found := fst <$> list_find (λ v, w_page v = w_page w) ws in
  if decide (found = Some 0%nat) then <[0%nat := w]> ws
  else
    let kept := w :: take (STICKY_WAYS - 1) (sticky_others found ws) in
    kept ++ replicate (STICKY_WAYS - length kept) empty_way.
Definition tlb_set_hot (w : Way) (m : JitMem) : JitMem :=
  let hot := tlb_hot (jm_tlb m) in
  let m := if bool_decide (w_page hot ≠ w_page w) && bool_decide (w_page hot ≠ TLB_EMPTY) && bool_decide (w_host hot ≠ 0)
           then count sticky_swaps m else m in
  let t := jm_tlb m in
  set_tlb (mkTlbs (tlb_sets t) w (sticky_push w (sticky t)) (sticky_rr t)) m.

(** A victim in turn when no way is free. *)
Definition bucket_install (w : Way) (b : TlbBucket) : TlbBucket :=
  match list_find (λ v, w_page v = w_page w ∨ w_page v = TLB_EMPTY) (ways b) with
  | Some (k, _) => mkBucket (<[k := w]> (ways b)) (bucket_rr b)
  | None =>
      mkBucket (<[Z.to_nat (Z.land (bucket_rr b) (Z.of_nat TLB_WAYS_PER_SET - 1)) := w]> (ways b)) ((bucket_rr b + 1) mod 256)
  end.
Definition tlb_install (w : Way) (m : JitMem) : JitMem :=
  let t := jm_tlb m in
  set_tlb (mkTlbs (alter (bucket_install w) (tlb_set_index (w_page w)) (tlb_sets t)) (tlb_hot t) (sticky t) (sticky_rr t)) m.

Definition way_serves (write : bool) (cur_gen : u64) (w : Way) : bool :=
  bool_decide (w_host w ≠ 0) && bool_decide (w_gen w = cur_gen) && tlb_prot_allows (w_prot w) write.
Definition way_hits (page_key : u64) (write : bool) (cur_gen : u64) (w : Way) : bool :=
  bool_decide (w_page w = page_key) && way_serves write cur_gen w.

Definition classify_addr_vs_pins (addr : u64) (size : nat) (m : JitMem) : JitMem :=
  let stop := sat_add addr (Z.of_nat size) in
  let inside p := negb (bool_decide (mp_host_base p = 0)) && bool_decide (mp_guest_base p ≤ addr) && bool_decide (stop ≤ mp_guest_end p) in
  if existsb inside (take 1 (jm_pins m)) then count addr_in_stack_pin m
  else if existsb inside (drop 1 (jm_pins m)) then count addr_in_heap_pin m
  else count addr_outside_pins m.
(** The first reason; [saw_gen]: a way of another generation was passed. *)
Fixpoint sticky_miss (page_key : u64) (write : bool) (cur_gen : u64) (saw_gen : bool) (ws : list Way) : option MemPathField :=
  match ws with
  | [] => Some (if saw_gen then sticky_miss_gen else sticky_miss_key)
  | w :: ws =>
      if decide (w_page w ≠ page_key ∨ w_host w = 0) then sticky_miss page_key write cur_gen saw_gen ws
      else if decide (w_gen w ≠ cur_gen) then sticky_miss page_key write cur_gen true ws
      else if tlb_prot_allows (w_prot w) write then None else Some sticky_miss_prot
  end.
Definition classify_sticky_miss (page_key : u64) (write : bool) (m : JitMem) : JitMem :=
  match sticky_miss page_key write (jm_gen m) false (sticky (jm_tlb m)) with Some f => count f m | None => m end.

(** A host pointer for the whole access, if one pinned region has it. *)
Definition pin_matches (addr stop cur_gen : u64) (write : bool) (p : MemPin) : bool :=
  negb (bool_decide (mp_host_base p = 0)) && bool_decide (mp_mem_gen p = cur_gen) && bool_decide (mp_guest_base p ≤ addr) &&
  bool_decide (stop ≤ mp_guest_end p) && tlb_prot_allows (mp_allow p) write.
Definition pin_resolve (addr : u64) (size : nat) (write : bool) (m : JitMem) : JitMem * option Z :=
  if decide (size = 0%nat) then (m, None)
  else match checked_add addr (Z.of_nat size) with
       | None => (m, None)
       | Some stop =>
           match List.find (pin_matches addr stop (jm_gen m) write) (jm_pins m) with
           | None => (m, None)
           | Some p =>
               let host := mp_host_base p + wrapping_sub addr (mp_guest_base p) in
               let page := mkWay (Z.shiftr addr 12) (host - Z.land addr (PAGE_SIZE - 1)) (mp_allow p) (mp_mem_gen p) in
               (tlb_set_hot page (tlb_install page m), Some host)
           end
       end.

Section Helpers.
(** [tlb_neon_enabled] on an AArch64 host. *)
Context (neon : bool).

(** With NEON only the first way with the tag is looked at. *)
Definition tlb_bucket_lookup (page_key : u64) (write : bool) (cur_gen : u64) (b : TlbBucket) : option Way :=
  if neon then
    w ← List.find (λ w, bool_decide (w_page w = page_key)) (ways b);
    if way_serves write cur_gen w then Some w else None
  else List.find (way_hits page_key write cur_gen) (ways b).

(** A host pointer for an access within one page. *)
Definition tlb_page_ptr (g : GuestMemory) (addr : u64) (size : nat) (write : bool) (m : JitMem) : JitMem * option Z :=
  let m := classify_addr_vs_pins addr size m in
  let page_off := Z.land addr (PAGE_SIZE - 1) in
  if decide (PAGE_SIZE < page_off + Z.of_nat size) then (count cross_page m, None)
  else
    let page_key := Z.shiftr addr 12 in
    let cur_gen := jm_gen m in
    match List.find (way_hits page_key write cur_gen) (sticky (jm_tlb m)) with
    | Some w =>
        let m := count sticky_hit m in
        let t := jm_tlb m in
        (set_tlb (mkTlbs (tlb_sets t) (mkWay page_key (w_host w) (w_prot w) cur_gen) (sticky t) (sticky_rr t)) m,
         Some (w_host w + page_off))
    | None =>
        let m := classify_sticky_miss page_key write m in
        match (b ← tlb_sets (jm_tlb m) !! tlb_set_index page_key; tlb_bucket_lookup page_key write cur_gen b) with
        | Some w => (tlb_set_hot (mkWay page_key (w_host w) (w_prot w) cur_gen) (count multi_hit m), Some (w_host w + page_off))
        | None =>
            match pin_resolve addr size write m with
            | (m, Some p) => (count pin_hit m, Some p)
            | (m, None) =>
                match page_tlb_entry g page_key with
                | None => (count slow m, None)
                | Some e =>
                    let prot := pack_tlb_prot (tlb_allow_r e) (tlb_allow_w e) in
                    let page := mkWay page_key (tlb_host e) prot (tlb_generation e) in
                    let m := tlb_set_hot page (tlb_install page m) in
                    if negb (tlb_prot_allows prot write) then (count slow m, None)
                    else (count walk_hit m, Some (tlb_host e + page_off))
                end
            end
        end
    end.
End Helpers.

(** ** What the caches promise *)

(** The right of a page as the caches grant it: no writes to executable pages. *)
Definition soft_allows (write : bool) (pr : u32) : bool := if write then soft_write pr else allows_read pr.
(** [q] is committed, lies at [host] and grants what [prot] says. *)
Definition serves_page (g : GuestMemory) (host : Z) (prot q : Z) : Prop :=
  ∃ pr, gview g q = Some (Committed, pr) ∧ host_alias g host (q * 4096) 4096 ∧
    ∀ write, tlb_prot_allows prot write = true → soft_allows write pr = true.
Definition page_ok (g : GuestMemory) (w : Way) : Prop :=
  w_host w ≠ 0 → w_gen w = generation g → 0 ≤ w_page w < 4503599627370496 → serves_page g (w_host w) (w_prot w) (w_page w).
Definition mem_pin_ok (g : GuestMemory) (p : MemPin) : Prop :=
  mp_host_base p ≠ 0 → mp_mem_gen p = generation g →
  0 ≤ mp_guest_base p ∧ mp_guest_end p < u64_lim ∧
  host_alias g (mp_host_base p) (mp_guest_base p) (mp_guest_end p - mp_guest_base p) ∧
  ∀ x, mp_guest_base p ≤ x < mp_guest_end p → ∃ pr, gview g (x / 4096) = Some (Committed, pr) ∧
    ∀ write, tlb_prot_allows (mp_allow p) write = true → soft_allows write pr = true.
Record tlb_ok (g : GuestMemory) (t : Tlb) : Prop := {
  to_sets : Forall (λ b, Forall (page_ok g) (ways b)) (tlb_sets t);
  to_hot : page_ok g (tlb_hot t);
  to_sticky : Forall (page_ok g) (sticky t);
}.
Record jm_ok (g : GuestMemory) (m : JitMem) : Prop := {
  jk_gen : jm_gen m = generation g;
  jk_tlb : tlb_ok g (jm_tlb m);
  jk_pins : Forall (mem_pin_ok g) (jm_pins m);
}.

Section Caches.
Context `{HostOS}.
Implicit Types (g : GuestMemory) (m : JitMem) (w : Way).

Lemma empty_way_ok g : page_ok g empty_way.
Proof. by intros Hh. Qed.
Lemma Tlb_empty_ok g : tlb_ok g Tlb_empty.
Proof.
  split; [|apply empty_way_ok|apply Forall_replicate, empty_way_ok].
  apply Forall_replicate. cbn [ways empty_tlb_bucket]. apply Forall_replicate, empty_way_ok.
Qed.
Lemma MemPin_EMPTY_ok g : mem_pin_ok g MemPin_EMPTY.
Proof. by intros Hh. Qed.
Lemma prot_bits_allows (r wr write : bool) : tlb_prot_allows (prot_bits r wr) write = if write then wr else r.
Proof. by destruct write, r, wr. Qed.

(** What only changes bytes keeps every promise. *)
Lemma page_ok_stored g g' w : stored g g' → page_ok g w → page_ok g' w.
Proof.
  intros Hs Hw Hh Hg Hp. rewrite (st_generation _ _ Hs) in Hg. destruct (Hw Hh Hg Hp) as (pr & Hv & Ha & Hr).
  exists pr. rewrite (st_view _ _ Hs). split; [done|]. split; [|done]. intros i Hi. rewrite (st_arenas _ _ Hs). by apply Ha.
Qed.
Lemma jm_ok_stored g g' m : stored g g' → jm_ok g m → jm_ok g' m.
Proof.
  intros Hs [Hg [H1 H2 H3] Hp]. split; [by rewrite (st_generation _ _ Hs)| |].
  - split; [|by eapply page_ok_stored|eapply Forall_impl; [done|]; intros w; by apply page_ok_stored].
    eapply Forall_impl; [done|]. intros b Hb. eapply Forall_impl; [exact Hb|]. intros w. by apply page_ok_stored.
  - eapply Forall_impl; [exact Hp|]. intros p Hk Hh Hgen. rewrite (st_generation _ _ Hs) in Hgen.
    destruct (Hk Hh Hgen) as (H4 & H5 & H6 & H7). split; [done|]. split; [done|]. split.
    + intros i Hi. rewrite (st_arenas _ _ Hs). by apply H6.
    + intros x Hx. rewrite (st_view _ _ Hs). by apply H7.
Qed.

Lemma count_ok g f m : jm_ok g m → jm_ok g (count f m).
Proof. intros [? ? ?]. by split. Qed.
Lemma count_load_ok g m : jm_ok g m → jm_ok g (count_load m).
Proof. intros [? ? ?]. by split. Qed.
Lemma count_store_ok g m : jm_ok g m → jm_ok g (count_store m).
Proof. intros [? ? ?]. by split. Qed.
Lemma classify_addr_ok g addr size m : jm_ok g m → jm_ok g (classify_addr_vs_pins addr size m).
Proof. intros Hm. unfold classify_addr_vs_pins. repeat case_match; by apply count_ok. Qed.
Lemma classify_miss_ok g k write m : jm_ok g m → jm_ok g (classify_sticky_miss k write m).
Proof. intros Hm. unfold classify_sticky_miss. case_match; [by apply count_ok|done]. Qed.

Lemma sticky_push_ok g w ws : page_ok g w → Forall (page_ok g) ws → Forall (page_ok g) (sticky_push w ws).
Proof.
  intros Hw Hws. assert (Hrest : ∀ found, Forall (page_ok g) (sticky_others found ws)).
  { intros found. apply Forall_forall. intros v (k & _ & Hv)%list_elem_of_omap. destruct (decide _); [done|].
    destruct (ws !! k) as [u|] eqn:Hu; [|done]. cbn [mbind option_bind] in Hv. destruct (decide _); [done|]. injection Hv as <-.
    by eapply Forall_lookup_1. }
  unfold sticky_push. destruct (decide _); [by apply Forall_insert|].
  apply Forall_app. split; [constructor; [done|]; apply Forall_take, Hrest|apply Forall_replicate, empty_way_ok].
Qed.
Lemma tlb_set_hot_ok g w m : page_ok g w → jm_ok g m → jm_ok g (tlb_set_hot w m).
Proof.
  intros Hw Hm. unfold tlb_set_hot.
  assert (Hc : ∀ b : bool, jm_ok g (if b then count sticky_swaps m else m)) by (intros []; [by apply count_ok|done]).
  destruct (Hc (bool_decide (w_page (tlb_hot (jm_tlb m)) ≠ w_page w) && bool_decide (w_page (tlb_hot (jm_tlb m)) ≠ TLB_EMPTY)
    && bool_decide (w_host (tlb_hot (jm_tlb m)) ≠ 0))) as [Hg [H1 H2 H3] Hp].
  split; [done| |done]. split; [done|done|]. by apply sticky_push_ok.
Qed.
Lemma bucket_install_ok g w b : page_ok g w → Forall (page_ok g) (ways b) → Forall (page_ok g) (ways (bucket_install w b)).
Proof. intros Hw Hb. unfold bucket_install. destruct (list_find _ _) as [[k v]|]; by apply Forall_insert. Qed.
Lemma tlb_install_ok g w m : page_ok g w → jm_ok g m → jm_ok g (tlb_install w m).
Proof.
  intros Hw [Hg [H1 H2 H3] Hp]. split; [done| |done]. split; [|done|done]. cbn [tlb_install jm_tlb set_tlb tlb_sets].
  apply Forall_alter; [done|]. intros b _ Hb. by apply bucket_install_ok.
Qed.

(** A page is wherever one of its bytes is. *)
Lemma alias_page g host x p : gm_wf g → tr (arenas (backend g)) x = Some p → host = p - x mod 4096 → host_alias g host (x / 4096 * 4096) 4096.
Proof.
  intros Hwf Hp -> i Hi. pose proof (Z.div_mod x 4096 ltac:(lia)) as Hx.
  rewrite (tr_page _ (gw_backend _ Hwf) x), Hp; [cbn; f_equal; lia|]. rewrite Z.add_comm, Z.div_add, Z.div_small; lia.
Qed.
Lemma page_of addr size : in_u64 addr → (0 < size)%nat → Z.land addr (PAGE_SIZE - 1) + Z.of_nat size ≤ PAGE_SIZE →
  addr mod 4096 + Z.of_nat size ≤ 4096 ∧ 0 ≤ addr / 4096 < 4503599627370496.
Proof.
  intros [Ha Hb] Hs. unfold PAGE_SIZE. change (0x1000 - 1) with 4095. rewrite land_4095. change 0x1000 with 4096. intros Hp.
  split; [done|]. split; [by apply Z.div_pos|]. apply Z.div_lt_upper_bound; lia.
Qed.

(** A pointer for an access: the page grants it, and every byte is there. *)
Definition pointer_ok g (addr : u64) (size : nat) (write : bool) (p : Z) : Prop :=
  addr mod 4096 + Z.of_nat size ≤ 4096 ∧ host_alias g p addr (Z.of_nat size) ∧
  ∃ pr, gview g (addr / 4096) = Some (Committed, pr) ∧ soft_allows write pr = true.

Lemma serves_pointer g host prot addr size write :
  serves_page g host prot (addr / 4096) → tlb_prot_allows prot write = true → addr mod 4096 + Z.of_nat size ≤ 4096 → 0 ≤ addr →
  pointer_ok g addr size write (host + Z.land addr (PAGE_SIZE - 1)).
Proof.
  intros (pr & Hv & Ha & Hr) Hp Hs H0. split; [done|]. split; [|exists pr; auto]. intros i Hi. change (PAGE_SIZE - 1) with 4095.
  rewrite land_4095. pose proof (Z.div_mod addr 4096 ltac:(lia)). pose proof (Z.mod_pos_bound addr 4096 ltac:(lia)).
  replace (addr + i) with (addr / 4096 * 4096 + (addr mod 4096 + i)) by lia. rewrite Ha by lia. f_equal. lia.
Qed.
Lemma way_hits_spec k write gen w : way_hits k write gen w = true ↔
  w_page w = k ∧ w_host w ≠ 0 ∧ w_gen w = gen ∧ tlb_prot_allows (w_prot w) write = true.
Proof. unfold way_hits, way_serves. rewrite !andb_true_iff, !bool_decide_eq_true. tauto. Qed.
Lemma bucket_lookup_spec neon k write gen b w : tlb_bucket_lookup neon k write gen b = Some w → w ∈ ways b ∧ way_hits k write gen w = true.
Proof.
  unfold tlb_bucket_lookup. destruct neon.
  - destruct (List.find _ _) as [v|] eqn:Hf; [|done]. cbn [mbind option_bind]. destruct (way_serves write gen v) eqn:Hv; [|done].
    intros [= <-]. apply find_some in Hf as [Hin Ht]. split; [by apply list_elem_of_In|]. unfold way_hits. by rewrite Ht, Hv.
  - intros Hf. apply find_some in Hf as [Hin Ht]. split; [by apply list_elem_of_In|done].
Qed.
Lemma pin_page g addr size write p : gm_wf g → in_u64 addr → (0 < size)%nat → mem_pin_ok g p →
  pin_matches addr (addr + Z.of_nat size) (generation g) write p = true → addr mod 4096 + Z.of_nat size ≤ 4096 →
  let host := mp_host_base p + wrapping_sub addr (mp_guest_base p) in
  serves_page g (host - Z.land addr (PAGE_SIZE - 1)) (mp_allow p) (addr / 4096) ∧ pointer_ok g addr size write host.
Proof.
  intros Hwf [Ha Ha'] Hsz Hp Hm Hone host. unfold pin_matches in Hm. rewrite !andb_true_iff, negb_true_iff, bool_decide_eq_false, !bool_decide_eq_true in Hm.
  destruct Hm as [[[[Hh Hg] Hlo] Hhi] Hal]. destruct (Hp Hh Hg) as (H0 & Hlim & Halias & Hrights).
  destruct (Hrights addr ltac:(lia)) as (pr & Hv & Hr).
  assert (Hhost : ∀ i, 0 ≤ i < Z.of_nat size → tr (arenas (backend g)) (addr + i) = Some (host + i)).
  { intros i Hi. pose proof (Halias (addr + i - mp_guest_base p) ltac:(lia)) as Ht. unfold host, wrapping_sub, wrap64. rewrite Z.mod_small by lia.
    replace (mp_guest_base p + (addr + i - mp_guest_base p)) with (addr + i) in Ht by lia. rewrite Ht. f_equal. lia. }
  split.
  - exists pr. split; [done|]. split; [|done]. eapply (alias_page g _ addr host); [done| |].
    + rewrite <- (Z.add_0_r addr) at 1. rewrite Hhost by lia. by rewrite Z.add_0_r.
    + change (PAGE_SIZE - 1) with 4095. by rewrite land_4095.
  - split; [done|]. split; [done|]. exists pr. auto.
Qed.

(** A resolution keeps the promises, and a pointer it gives is good. *)
Definition resolves g addr size write (r : JitMem * option Z) : Prop :=
  jm_ok g r.1 ∧ ∀ p, r.2 = Some p → pointer_ok g addr size write p.
Lemma resolves_None g addr size write m : jm_ok g m → resolves g addr size write (m, None).
Proof. by split. Qed.
Lemma resolves_Some g addr size write m p : jm_ok g m → pointer_ok g addr size write p → resolves g addr size write (m, Some p).
Proof. intros Hm Hp. split; [done|]. by intros q [= <-]. Qed.

Lemma pin_resolve_ok g addr size write m : gm_wf g → in_u64 addr → (0 < size)%nat → addr mod 4096 + Z.of_nat size ≤ 4096 →
  jm_ok g m → resolves g addr size write (pin_resolve addr size write m).
Proof.
  intros Hwf Ha Hsz Hone Hm. unfold pin_resolve. destruct (decide _); [by apply resolves_None|].
  destruct (checked_add addr (Z.of_nat size)) as [stop|] eqn:Hc; [|by apply resolves_None]. apply checked_add_Some in Hc as [-> Hlim].
  destruct (List.find _ (jm_pins m)) as [p|] eqn:Hf; [|by apply resolves_None]. apply find_some in Hf as [Hin Hp].
  rewrite (jk_gen _ _ Hm) in Hp. apply list_elem_of_In in Hin.
  assert (Hpk : mem_pin_ok g p) by (by apply (proj1 (Forall_forall _ _) (jk_pins _ _ Hm))).
  destruct (pin_page g addr size write p Hwf Ha Hsz Hpk Hp Hone) as [Hpage Hptr].
  apply resolves_Some; [|done].
  assert (Hw : page_ok g (mkWay (Z.shiftr addr 12) (mp_host_base p + wrapping_sub addr (mp_guest_base p) - Z.land addr (PAGE_SIZE - 1))
    (mp_allow p) (mp_mem_gen p))) by (intros _ _ _; by rewrite shiftr_12).
  by apply tlb_set_hot_ok, tlb_install_ok.
Qed.

Lemma way_pointer g addr size write gen w : gen = generation g → page_ok g w → way_hits (addr / 4096) write gen w = true →
  in_u64 addr → 0 ≤ addr / 4096 < 4503599627370496 → addr mod 4096 + Z.of_nat size ≤ 4096 →
  page_ok g (mkWay (addr / 4096) (w_host w) (w_prot w) gen) ∧ pointer_ok g addr size write (w_host w + Z.land addr (PAGE_SIZE - 1)).
Proof.
  intros Hgen Hw (Hp & Hh & Hwg & Hal)%way_hits_spec [Ha _] Hq Hone. rewrite Hgen in Hwg. rewrite <- Hp in Hq. pose proof (Hw Hh Hwg Hq) as Hs. rewrite Hp in Hs.
  split; [by intros _ _ _|]. by eapply serves_pointer.
Qed.

Lemma classify_miss_gen k write m : jm_gen (classify_sticky_miss k write m) = jm_gen m.
Proof. unfold classify_sticky_miss. by case_match. Qed.
Lemma walk_ok g addr size write m e : gm_wf g → in_u64 addr → 0 ≤ addr / 4096 < 4503599627370496 → addr mod 4096 + Z.of_nat size ≤ 4096 →
  jm_ok g m → page_tlb_entry g (addr / 4096) = Some e →
  let prot := pack_tlb_prot (tlb_allow_r e) (tlb_allow_w e) in
  let page := mkWay (addr / 4096) (tlb_host e) prot (tlb_generation e) in
  let m := tlb_set_hot page (tlb_install page m) in
  resolves g addr size write (if negb (tlb_prot_allows prot write) then (count slow m, None)
                              else (count walk_hit m, Some (tlb_host e + Z.land addr (PAGE_SIZE - 1)))).
Proof.
  intros Hwf [Ha _] Hq Hone Hm He prot page m'.
  destruct (page_tlb_entry_spec g _ e Hwf Hq He) as (pr & Hv & Hal & Hr & Hw & Hg).
  assert (Hs : serves_page g (tlb_host e) prot (addr / 4096)).
  { exists pr. split; [done|]. split; [done|]. intros wr. unfold prot, pack_tlb_prot. rewrite prot_bits_allows, Hr, Hw. by destruct wr. }
  assert (Hpage : page_ok g page) by (intros _ _ _; exact Hs).
  assert (Hm' : jm_ok g m') by (apply tlb_set_hot_ok; [exact Hpage|]; by apply tlb_install_ok).
  destruct (tlb_prot_allows prot write) eqn:Hp; cbn [negb]; [|by apply resolves_None, count_ok].
  apply resolves_Some; [by apply count_ok|]. by eapply serves_pointer.
Qed.
Lemma tlb_page_ptr_ok neon g addr size write m : gm_wf g → in_u64 addr → (0 < size)%nat → jm_ok g m →
  resolves g addr size write (tlb_page_ptr neon g addr size write m).
Proof.
  intros Hwf Ha Hsz Hm0. unfold tlb_page_ptr. pose proof (classify_addr_ok g addr size m Hm0) as Hm. clear Hm0. revert Hm.
  generalize (classify_addr_vs_pins addr size m). clear m. intros m Hm.
  destruct (decide _) as [|Hone]; [by apply resolves_None, count_ok|]. destruct (page_of addr size Ha Hsz ltac:(lia)) as [Hone' Hq].
  rewrite shiftr_12. pose proof Hm as [Hgen [Hsets _ Hst] _].
  destruct (List.find _ (sticky _)) as [w|] eqn:Hf.
  { apply find_some in Hf as [Hin%list_elem_of_In Hhit]. pose proof (proj1 (Forall_forall _ _) Hst w Hin) as Hw.
    destruct (way_pointer g addr size write (jm_gen m) w Hgen Hw Hhit Ha Hq Hone') as [Hpage Hptr].
    apply resolves_Some; [|done]. destruct (count_ok g sticky_hit m Hm) as [Hg1 [Hs1 _ Hst1] Hp1]. split; [done| |done]. by split. }
  pose proof (classify_miss_ok g (addr / 4096) write m Hm) as Hm'. revert Hm'.
  rewrite <- (classify_miss_gen (addr / 4096) write m). generalize (classify_sticky_miss (addr / 4096) write m).
  clear m Hm Hgen Hsets Hst Hf. intros m Hm. pose proof Hm as [Hgen [Hsets _ _] _].
  destruct (b ← tlb_sets (jm_tlb m) !! _; _) as [w|] eqn:Hf.
  { destruct (tlb_sets (jm_tlb m) !! _) as [b|] eqn:Hb; [|done]. cbn [mbind option_bind] in Hf. apply bucket_lookup_spec in Hf as [Hin Hhit].
    pose proof (proj1 (Forall_forall _ _) (Forall_lookup_1 _ _ _ _ Hsets Hb) w Hin) as Hw.
    destruct (way_pointer g addr size write (jm_gen m) w Hgen Hw Hhit Ha Hq Hone') as [Hpage Hptr].
    apply resolves_Some; [|done]. by apply tlb_set_hot_ok, count_ok. }
  pose proof (pin_resolve_ok g addr size write m Hwf Ha Hsz Hone' Hm) as Hpin.
  destruct (pin_resolve addr size write m) as [m' [p|]]; destruct Hpin as [Hm' Hptr]; cbn [fst snd] in Hm', Hptr.
  { apply resolves_Some; [by apply count_ok|by apply Hptr]. }
  destruct (page_tlb_entry g (addr / 4096)) as [e|] eqn:He; [|by apply resolves_None, count_ok].
  by apply walk_ok.
Qed.
End Caches.

(** ** Loads and stores *)

(** [XmmSlot]: the halves of a 128-bit register. *)
Record XmmSlot := mkXmm { xs_lo : u64; xs_hi : u64 }.
Definition XmmSlot_ZERO : XmmSlot := mkXmm 0 0.
Definition from_u128 (v : Z) : XmmSlot := mkXmm (v mod u64_lim) (Z.shiftr v 64 mod u64_lim).
Definition to_u128 (x : XmmSlot) : Z := Z.lor (xs_lo x) (Z.shiftl (xs_hi x) 64).

Definition CHAIN_SLOTS : nat := 512.
Definition SHADOW_DEPTH : nat := 32.
Definition EDGE_IC_SLOTS : nat := 4.
Definition MAX_CHAIN_DEPTH : u64 := 48.

(** [JitCtx]: the fields in groups; the guest memory it points to is passed next
    to it. *)
Record JitFault := mkFault { jf_fault : u64; jf_addr : u64; jf_size : u64; jf_access : u64 }.
Definition no_fault : JitFault := mkFault 0 0 0 0.
Record JitChain := mkChain {
  shadow_sp : u64;
  shadow_ret : list u64;
  chain_va : list u64;
  chain_fn : list u64;
  edge_ic_va : list u64;
  edge_ic_fn : list u64;
  edge_ic_rr : u64;
}.
Record JitCtx := mkCtx {
  jc_gpr : list u64;
  jc_rflags : u64;
  jc_rip : u64;
  jc_xmm : list XmmSlot;
  gpr_dirty_bits : u64;
  xmm_dirty_bits : u64;
  jc_fault : JitFault;
  jc_chain : JitChain;
  chain_depth : u64;
  jc_mem : JitMem;
}.
Definition with_jm (m : JitMem) (c : JitCtx) : JitCtx :=
  mkCtx (jc_gpr c) (jc_rflags c) (jc_rip c) (jc_xmm c) (gpr_dirty_bits c) (xmm_dirty_bits c) (jc_fault c) (jc_chain c) (chain_depth c) m.
Definition set_fault (insn_ip addr size access : u64) (c : JitCtx) : JitCtx :=
  mkCtx (jc_gpr c) (jc_rflags c) insn_ip (jc_xmm c) (gpr_dirty_bits c) (xmm_dirty_bits c) (mkFault 1 addr size access)
    (jc_chain c) (chain_depth c) (jc_mem c).

Section Access.
Context `{HostOS} (neon : bool).

Definition on_jm (f : JitMem → JitMem) : M (JitCtx * GuestMemory) unit := modify (λ s, (with_jm (f (jc_mem s.1)) s.1, s.2)).
Definition faults (insn_ip addr size access : u64) : M (JitCtx * GuestMemory) unit := modify (λ s, (set_fault insn_ip addr size access s.1, s.2)).
(** The caches, then a walk. *)
Definition host_ptr (addr : u64) (size : nat) (write : bool) : M (JitCtx * GuestMemory) (option Z) := λ s,
  let '(m, p) := tlb_page_ptr neon s.2 addr size write (jc_mem s.1) in ((with_jm m s.1, s.2), Ok p).
(** A call of the guest memory; [None]: it failed. *)
Definition mem_try {A} (m : M GuestMemory A) : M (JitCtx * GuestMemory) (option A) := λ s,
  match m s.2 with
  | (g, Ok a) => ((s.1, g), Ok (Some a))
  | (g, Err _) => ((s.1, g), Ok None)
  | (g, Abort w) => ((s.1, g), Abort w)
  end.
(** [copy_nonoverlapping] from and to the host. *)
Definition copy_from (p : Z) (size : nat) : M (JitCtx * GuestMemory) (list u8) := λ s, (s, host_load p size (os_state (backend s.2))).
Definition copy_to (p : Z) (bytes : list u8) : M (JitCtx * GuestMemory) unit :=
  zoom snd (λ g s, (s.1, g)) (on_backend (on_host (host_store p bytes))).

Definition word_of (size : nat) (buf : list u8) : u64 :=
  match size with 1%nat | 2%nat | 4%nat | 8%nat => le_val buf | _ => 0 end.
Definition wie_jit_load (addr : u64) (size : nat) (insn_ip : u64) : M (JitCtx * GuestMemory) u64 :=
  _ ← on_jm count_load;
  s ← get;
  if decide (jf_fault (jc_fault s.1) ≠ 0) then mret 0
  else if decide (size = 0%nat ∨ (8 < size)%nat) then (_ ← faults insn_ip addr (Z.of_nat size) 0; mret 0)
  else
    p ← host_ptr addr size false;
    match p with
    | Some p => buf ← copy_from p size; mret (word_of size buf)
    | None =>
        r ← mem_try (mem_read_n addr size);
        match r with
        | Some buf => mret (word_of size buf)
        | None => _ ← faults insn_ip addr (Z.of_nat size) 0; mret 0
        end
    end.
Definition wie_jit_store (addr : u64) (size : nat) (value insn_ip : u64) : M (JitCtx * GuestMemory) unit :=
  _ ← on_jm count_store;
  s ← get;
  if decide (jf_fault (jc_fault s.1) ≠ 0) then mret tt
  else if decide (size = 0%nat ∨ (8 < size)%nat) then faults insn_ip addr (Z.of_nat size) 1
  else
    let bytes := take size (le_bytes 8 value) in
    p ← host_ptr addr size true;
    match p with
    | Some p => copy_to p bytes
    | None =>
        r ← mem_try (write addr bytes);
        match r with Some _ => mret tt | None => faults insn_ip addr (Z.of_nat size) 1 end
    end.
(** 0: no pointer. *)
Definition wie_jit_host_span (guest_va : u64) (len : u64) (wr : bool) : M (JitCtx * GuestMemory) u64 := λ s,
  if decide (len = 0 ∨ jf_fault (jc_fault s.1) ≠ 0) then (s, Ok 0)
  else let '(g, p) := host_span guest_va len wr s.2 in ((s.1, g), Ok (default 0 p)).
End Access.

(** ** A load is the interpreter's load *)

Section AccessOk.
Context `{HostOS, !HostOSLaws _} (neon : bool).
Implicit Types (g : GuestMemory) (c : JitCtx) (r : RegFile).

Definition ctx_ok g c : Prop := jm_ok g (jc_mem c).
(** Only what serves memory has changed. *)
Definition same_but_jm c c' : Prop := c' = with_jm (jc_mem c') c.

Lemma pointer_spc g addr size wr p : gm_wf g → in_u64 addr → (1 ≤ size ≤ 8)%nat → pointer_ok g addr size wr p →
  addr + Z.of_nat size < u64_lim → spc g addr (Z.of_nat size) (if wr then Write else Read) = Ok tt.
Proof.
  intros Hwf [Ha Ha'] Hs (Hone & _ & pr & Hv & Hr) Hlim. unfold spc. rewrite decide_False by lia. rewrite decide_True by done.
  apply check_pages_all. intros q Hq%elem_of_seqZ. pose proof (Z.div_mod addr 4096 ltac:(lia)) as Hdm.
  pose proof (Z.mod_pos_bound addr 4096 ltac:(lia)) as Hmod.
  assert (Hend : (addr + Z.of_nat size - 1) / 4096 = addr / 4096).
  { symmetry. apply (Z.div_unique _ _ _ (addr mod 4096 + Z.of_nat size - 1)); lia. }
  replace q with (addr / 4096) by lia. exists pr. split; [done|]. destruct wr; [|done]. unfold soft_allows, soft_write in Hr.
  by apply andb_true_iff in Hr as [? _].
Qed.
(** The last page of the address space is not mapped. *)
Lemma pointer_limit g addr size wr p : gm_wf g → (1 ≤ size)%nat → pointer_ok g addr size wr p → addr + Z.of_nat size < u64_lim.
Proof.
  intros Hwf Hs (_ & Ha & _). pose proof (Ha (Z.of_nat size - 1) ltac:(lia)) as Ht.
  apply (tr_bounds _ (gw_backend _ Hwf)) in Ht. lia.
Qed.

Lemma bytes_eq n (bs bs' : list u8) (f : nat → option u8) : length bs = n → length bs' = n →
  (∀ i, (i < n)%nat → bs !! i = f i) → (∀ i, (i < n)%nat → bs' !! i = f i) → bs = bs'.
Proof.
  intros Hl Hl' Hb Hb'. apply list_eq. intros i. destruct (decide (i < n)%nat) as [Hi|Hi]; [by rewrite Hb, Hb'|].
  rewrite !lookup_ge_None_2 by lia. done.
Qed.
Lemma size_ok size : (1 ≤ size ≤ 8)%nat → ¬ (size = 0%nat ∨ (8 < size)%nat).
Proof. lia. Qed.

(** A load, by the verdict of the software check. *)
Lemma pointer_granted g addr size w p :
  pointer_ok g addr size w p → 0 ≤ addr → granted g addr (Z.of_nat size) (if w then Write else Read).
Proof.
  intros (Hone & _ & pr & Hv & Hr) Ha x Hx. exists pr. pose proof (Z.div_mod addr 4096 ltac:(lia)). pose proof (Z.mod_pos_bound addr 4096 ltac:(lia)).
  replace (x / 4096) with (addr / 4096) by (apply (Z.div_unique _ _ _ (x - addr / 4096 * 4096)); lia).
  split; [done|]. destruct w; [|done]. by apply andb_true_iff in Hr as [? _].
Qed.

Lemma load_spec g c addr size insn_ip :
  mem_ok g → ctx_ok g c → in_u64 addr → (1 ≤ size ≤ 8)%nat → jf_fault (jc_fault c) = 0 →
  ∃ g' c' v, wie_jit_load neon addr size insn_ip (c, g) = ((c', g'), Ok v) ∧ same_but_cache g g' ∧ mem_ok g' ∧ ctx_ok g' c' ∧
    match spc g addr (Z.of_nat size) Read with
    | Ok _ => same_but_jm c c' ∧ ∃ bs, v = word_of size bs ∧ length bs = size ∧ ∀ i, (i < size)%nat → bs !! i = gbyte g (addr + Z.of_nat i)
    | _ => v = 0 ∧ same_but_jm (set_fault insn_ip addr (Z.of_nat size) 0 c) c'
    end.
Proof.
  intros Hg Hc Ha Hs Hf. unfold wie_jit_load, on_jm, get, modify, mbind, M_bind. cbn [fst snd with_jm jc_fault jc_mem].
  rewrite decide_False by lia. rewrite decide_False by lia. unfold host_ptr. cbn [fst snd with_jm jc_mem].
  pose proof (tlb_page_ptr_ok neon g addr size false _ (mo_wf _ Hg) Ha ltac:(lia) (count_load_ok g _ Hc)) as [Hm Hp].
  destruct (tlb_page_ptr neon g addr size false (count_load (jc_mem c))) as [m [p|]]; cbn [fst snd] in Hm, Hp.
  - pose proof (Hp p eq_refl) as Hptr. pose proof (pointer_limit g addr size _ p (mo_wf _ Hg) (proj1 Hs) Hptr) as Hlim.
    pose proof (pointer_spc _ _ _ _ _ (mo_wf _ Hg) Ha Hs Hptr Hlim) as Hspc. cbn beta iota in Hspc. rewrite Hspc.
    destruct (alias_load g p addr size Hg) as (bs & Hl & Hlen & _ & Hb); [apply (pointer_granted g addr size _ p Hptr); apply Ha|apply Hptr|].
    unfold copy_from. cbn [snd]. rewrite Hl. eexists g, _, _. split; [reflexivity|]. split; [apply same_but_cache_refl|]. split; [done|].
    split; [exact Hm|]. split; [reflexivity|]. by exists bs.
  - destruct (mem_read_n_spec g addr size Hg Ha ltac:(lia)) as (g' & Hsame & Hg' & Hr). unfold mem_try. cbn [snd fst].
    destruct (spc g addr (Z.of_nat size) Read) as [[]|e|w]; [| |done].
    + destruct Hr as (bs & -> & Hlen & _ & Hb). eexists g', _, _. split; [reflexivity|].
      split; [done|]. split; [done|]. split; [by eapply jm_ok_stored; [apply same_stored|]|]. split; [reflexivity|]. by exists bs.
    + rewrite Hr. eexists g', _, _. split; [reflexivity|]. split; [done|]. split; [done|].
      split; [by eapply jm_ok_stored; [apply same_stored|]|]. by split.
Qed.
(** What the interpreter reads. *)
Lemma read_value_spec g r addr size : mem_ok g → in_u64 addr → (1 ≤ size ≤ 8)%nat →
  ∃ g', same_but_cache g g' ∧ mem_ok g' ∧
    match spc g addr (Z.of_nat size) Read with
    | Ok _ => ∃ bs, read_mem_value addr size (mkCpu g r) = (mkCpu g' r, XOk (word_of size bs)) ∧ length bs = size ∧
                ∀ i, (i < size)%nat → bs !! i = gbyte g (addr + Z.of_nat i)
    | _ => read_mem_value addr size (mkCpu g r) = (mkCpu g' r, XErr (read_fault addr size))
    end.
Proof.
  intros Hg Ha Hs. destruct (mem_read_n_spec g addr size Hg Ha ltac:(lia)) as (g' & Hsame & Hg' & Hr). exists g'.
  split; [done|]. split; [done|]. unfold read_mem_value. rewrite decide_False by lia. unfold xmem, mbind, X_bind. cbn [cmem cregs].
  destruct (spc g addr (Z.of_nat size) Read) as [[]|e|w]; [|by rewrite Hr|done].
  destruct Hr as (bs & -> & Hlen & _ & Hb). exists bs. by split_and!.
Qed.

(** C12 The helper [wie_jit_load], which a compiled block calls for a load it does
    not make inline, reads what the interpreter reads: on a memory whose host pages
    let the emulator do what the guest may do ([host_grants], part of [mem_ok]), for
    1 to 8 bytes, with no fault recorded yet, whatever the page caches and the pins hold,
    as long as what they hold for the present generation of the memory is true, the
    value returned is the value the interpreter reads there, and the helper records a
    fault, with the address, the size and the address of the instruction, and
    returns 0, exactly when the interpreter's read faults.  Guest memory does not
    change, of the state of the block only the caches do, and what they hold stays
    true.  The loads a block makes inline, through the pinned stack or a sticky page,
    without calling the helper, are not covered (see [early_write_keeps_plan] for one
    that is not the interpreter's). *)
Theorem jit_load_reads g c r addr size insn_ip :
  mem_ok g → ctx_ok g c → in_u64 addr → (1 ≤ size ≤ 8)%nat → jf_fault (jc_fault c) = 0 →
  ∃ g' c' v, wie_jit_load neon addr size insn_ip (c, g) = ((c', g'), Ok v) ∧ same_but_cache g g' ∧ mem_ok g' ∧ ctx_ok g' c' ∧
    match (read_mem_value addr size (mkCpu g r)).2 with
    | XOk value => v = value ∧ same_but_jm c c'
    | XErr e => e = read_fault addr size ∧ v = 0 ∧ same_but_jm (set_fault insn_ip addr (Z.of_nat size) 0 c) c'
    | XAbort _ => False
    end.
Proof.
  intros Hg Hc Ha Hs Hf. destruct (load_spec g c addr size insn_ip Hg Hc Ha Hs Hf) as (g' & c' & v & -> & Hsame & Hg' & Hc' & Hv).
  exists g', c', v. split; [done|]. split; [done|]. split; [done|]. split; [done|].
  destruct (read_value_spec g r addr size Hg Ha Hs) as (gr & _ & _ & Hr). destruct (spc g addr (Z.of_nat size) Read) as [[]|e|w].
  - destruct Hv as (Hj & bs & -> & Hl & Hb), Hr as (bs' & -> & Hl' & Hb'). cbn [snd]. split; [|done].
    f_equal. by apply (bytes_eq size _ _ (λ i, gbyte g (addr + Z.of_nat i))).
  - rewrite Hr. by split.
  - rewrite Hr. by split.
Qed.

(** What the interpreter writes. *)
Lemma store_bytes size value : (1 ≤ size ≤ 8)%nat → let bytes := take size (le_bytes 8 value) in length bytes = size ∧ Forall is_byte bytes.
Proof.
  intros Hs bytes. unfold bytes. rewrite length_take, length_le_bytes. split; [lia|]. apply Forall_take, le_bytes_byte.
Qed.
Lemma write_value_spec g r addr size value : mem_ok g → in_u64 addr → (1 ≤ size ≤ 8)%nat →
  let bytes := take size (le_bytes 8 value) in
  ∃ g' x, write_mem_value addr value size (mkCpu g r) = (mkCpu g' r, x) ∧ mem_ok g' ∧ stored g g' ∧
    match spc g addr (Z.of_nat size) Write with
    | Ok _ => x = XOk tt ∧ write addr bytes g = (g', Ok tt) ∧ bytes_set g addr bytes g'
    | _ => x = XErr (write_fault addr value size) ∧ (∃ e, write addr bytes g = (g', Err e)) ∧ ∀ y, gbyte g' y = gbyte g y
    end.
Proof.
  intros Hg Ha Hs bytes. destruct (store_bytes size value Hs) as [Hl Hb]. fold bytes in Hl, Hb.
  destruct (mem_write_spec g addr bytes Hg Ha ltac:(lia) Hb) as (g' & Hw & Hg' & Hst & Hres). rewrite Hl in *.
  unfold write_mem_value. rewrite decide_False by lia. unfold xmem. cbn [cmem cregs]. fold bytes. rewrite Hw.
  destruct (spc g addr (Z.of_nat size) Write) as [[]|e|w]; [| |done]; eexists g', _; by split_and!; eauto.
Qed.
Lemma store_spec g c addr size value insn_ip :
  mem_ok g → ctx_ok g c → in_u64 addr → (1 ≤ size ≤ 8)%nat → jf_fault (jc_fault c) = 0 →
  ∃ g' c', wie_jit_store neon addr size value insn_ip (c, g) = ((c', g'), Ok tt) ∧ stored g g' ∧ mem_ok g' ∧ ctx_ok g' c' ∧
    match spc g addr (Z.of_nat size) Write with
    | Ok _ => same_but_jm c c' ∧ bytes_set g addr (take size (le_bytes 8 value)) g'
    | _ => same_but_jm (set_fault insn_ip addr (Z.of_nat size) 1 c) c' ∧ ∀ y, gbyte g' y = gbyte g y
    end.
Proof.
  intros Hg Hc Ha Hs Hf. destruct (store_bytes size value Hs) as [Hl Hb].
  destruct (write_value_spec g RegFile_new addr size value Hg Ha Hs) as (gw & x & _ & Hgw & Hstw & Hw).
  unfold wie_jit_store, on_jm, get, modify, mbind, M_bind. cbn [fst snd with_jm jc_fault jc_mem].
  rewrite decide_False by lia. rewrite decide_False by lia. unfold host_ptr. cbn [fst snd with_jm jc_mem].
  pose proof (tlb_page_ptr_ok neon g addr size true _ (mo_wf _ Hg) Ha ltac:(lia) (count_store_ok g _ Hc)) as [Hm Hp].
  destruct (tlb_page_ptr neon g addr size true (count_store (jc_mem c))) as [m [p|]]; cbn [fst snd] in Hm, Hp.
  - pose proof (Hp p eq_refl) as Hptr. pose proof (pointer_limit g addr size _ p (mo_wf _ Hg) (proj1 Hs) Hptr) as Hlim.
    pose proof (pointer_spc _ _ _ _ _ (mo_wf _ Hg) Ha Hs Hptr Hlim) as Hspc. cbn beta iota in Hspc. rewrite Hspc in *.
    destruct (alias_store g p addr (take size (le_bytes 8 value)) Hg) as (g' & Hst & Hg' & Hsto & Hset'); rewrite ?Hl; [|apply Hptr|done|].
    { apply (pointer_granted g addr size _ p Hptr). apply Ha. }
    unfold copy_to, zoom. cbn [snd fst]. rewrite Hst. eexists g', _. split; [reflexivity|]. split; [done|]. split; [done|].
    split; [by eapply jm_ok_stored|]. by split.
  - unfold mem_try. cbn [snd fst].
    destruct (spc g addr (Z.of_nat size) Write) as [[]|e|w]; [destruct Hw as (_ & -> & Hset)|destruct Hw as (_ & [e' ->] & Hset)..];
      (eexists gw, _; split; [reflexivity|]; split; [done|]; split; [done|]; split; [by eapply jm_ok_stored|]; by split).
Qed.

(** C13 The helper [wie_jit_store], which a compiled block calls for a store it does
    not make inline, writes what the interpreter writes: under the conditions of the
    load it records a fault exactly when the interpreter's write faults, the memory
    the two leave has the same bytes, and whatever the caches hold for the present
    generation stays true.  No cache gives the helper a pointer into an executable
    page: there it stores through [GuestMemory::write].  The stores a block makes
    inline, through the pinned stack or a sticky page, without calling the helper,
    are not covered (see [early_write_keeps_plan] for one that is not the
    interpreter's). *)
Theorem jit_store_writes g c r addr size value insn_ip :
  mem_ok g → ctx_ok g c → in_u64 addr → (1 ≤ size ≤ 8)%nat → jf_fault (jc_fault c) = 0 →
  ∃ g' c', wie_jit_store neon addr size value insn_ip (c, g) = ((c', g'), Ok tt) ∧ stored g g' ∧ mem_ok g' ∧ ctx_ok g' c' ∧
    let '(cpu', x) := write_mem_value addr value size (mkCpu g r) in
    (∀ y, gbyte g' y = gbyte (cmem cpu') y) ∧
    match x with
    | XOk _ => same_but_jm c c'
    | XErr e => e = write_fault addr value size ∧ same_but_jm (set_fault insn_ip addr (Z.of_nat size) 1 c) c'
    | XAbort _ => False
    end ∧
    ∀ m p, tlb_page_ptr neon g addr size true (jc_mem c) = (m, Some p) →
      ∃ pr, gview g (addr / 4096) = Some (Committed, pr) ∧ allows_execute pr = false.
Proof.
  intros Hg Hc Ha Hs Hf. destruct (store_spec g c addr size value insn_ip Hg Hc Ha Hs Hf) as (g' & c' & -> & Hst & Hg' & Hc' & Hv).
  exists g', c'. split; [done|]. split; [done|]. split; [done|]. split; [done|].
  destruct (write_value_spec g r addr size value Hg Ha Hs) as (gw & x & -> & _ & _ & Hw). cbn [cmem].
  split; [|split].
  - intros y. destruct (spc g addr (Z.of_nat size) Write) as [[]|e|w].
    + destruct Hv as [_ Hv], Hw as (_ & _ & Hw). by rewrite (Hv y), (Hw y).
    + destruct Hv as [_ Hv], Hw as (_ & _ & Hw). by rewrite Hv, Hw.
    + destruct Hv as [_ Hv], Hw as (_ & _ & Hw). by rewrite Hv, Hw.
  - destruct (spc g addr (Z.of_nat size) Write) as [[]|e|w]; destruct Hv as [Hv _], Hw as (-> & _ & _); [done|by split..].
  - intros m p Hr. destruct (tlb_page_ptr_ok neon g addr size true _ (mo_wf _ Hg) Ha ltac:(lia) Hc) as [_ Hp]. rewrite Hr in Hp.
    destruct (Hp p eq_refl) as (_ & _ & pr & Hpv & Hr'). exists pr. split; [done|].
    apply andb_true_iff in Hr' as [_ Hr']. by apply negb_true_iff.
Qed.
End AccessOk.

(** ** Pins *)

Lemma from_info_ok g p : pin_ok g p → mem_pin_ok g (from_info (Some p)).
Proof.
  intros [Hr Ha (H1 & H2 & H3) _ Hg]. unfold from_info. destruct (decide _); [apply MemPin_EMPTY_ok|].
  destruct (decide _); [apply MemPin_EMPTY_ok|]. intros _ _. cbn [mp_guest_base mp_guest_end mp_host_base mp_allow].
  split; [lia|]. split; [lia|]. split; [done|]. intros x Hx.
  assert (Hq : pin_guest_base p / 4096 ≤ x / 4096 < (pin_guest_end p - 1) / 4096 + 1).
  { pose proof (Z.div_le_mono (pin_guest_base p) x 4096 ltac:(lia) ltac:(lia)).
    pose proof (Z.div_le_mono x (pin_guest_end p - 1) 4096 ltac:(lia) ltac:(lia)). lia. }
  destruct (H1 _ Hq) as (pr & Hv & _). exists pr. split; [done|]. intros write. rewrite prot_bits_allows. intros Hal.
  destruct write; [destruct (proj1 H3 Hal _ Hq) as (pr' & Hv' & Hp)|destruct (proj1 H2 Hal _ Hq) as (pr' & Hv' & Hp)];
    (rewrite Hv in Hv'; injection Hv' as <-; exact Hp).
Qed.
(** The pins of [run_compiled]. *)
Definition refresh_pins (g : GuestMemory) : list MemPin :=
  let '(stack, data) := jit_region_pins g in
  take JIT_REGION_PIN_SLOTS (from_info <$> stack :: (Some <$> data)) ++ replicate (JIT_REGION_PIN_SLOTS - S (length data)) MemPin_EMPTY.
Lemma refresh_pins_ok g : gm_wf g → Forall (mem_pin_ok g) (refresh_pins g).
Proof.
  intros Hwf. pose proof (jit_region_pins_sound g Hwf) as Hp. unfold refresh_pins. destruct (jit_region_pins g) as [stack data].
  destruct Hp as (_ & Hp & _).
  rewrite fmap_cons. apply Forall_app. split; [|apply Forall_replicate, MemPin_EMPTY_ok]. apply Forall_take. apply Forall_app in Hp as [Hs Hd].
  constructor.
  - destruct stack as [p|]; [|apply MemPin_EMPTY_ok]. apply from_info_ok. by inversion Hs.
  - rewrite Forall_fmap, Forall_fmap. eapply Forall_impl; [exact Hd|]. intros p. apply from_info_ok.
Qed.

(** ** A block at work *)

#[local] Existing Instance demo_os.
#[local] Existing Instance demo_laws.

(** Entered with empty caches and fresh pins. *)
Definition entry_ctx (g : GuestMemory) : JitCtx :=
  mkCtx (replicate 16 0) 2 demo_base (replicate 16 XmmSlot_ZERO) 0 0 no_fault (mkChain 0 [] [] [] [] [] 0) 0
    (mkJitMem Tlb_empty (generation g) (refresh_pins g) 0 0 MemPathSlice_default).
Lemma entry_ctx_ok g : mem_ok g → ctx_ok g (entry_ctx g).
Proof. intros Hg. split; [done|apply Tlb_empty_ok|apply refresh_pins_ok, Hg]. Qed.

Definition jit_code : list u8 := [0x48; 0x01; 0xd8; 0xc3].
Lemma jit_code_ok : mem_ok (demo_machine jit_code).
Proof. apply demo_machine_ok; [by do 4 (constructor; [done|])|done]. Qed.

(** A load of the code and one of the page at 0. *)
Lemma jit_load_reads_witness :
  mem_ok (demo_machine jit_code) ∧ ctx_ok (demo_machine jit_code) (entry_ctx (demo_machine jit_code)) ∧
  (∃ g' c', wie_jit_load false demo_base 4 demo_base (entry_ctx (demo_machine jit_code), demo_machine jit_code) = ((c', g'), Ok 0xc3d80148)) ∧
  ∃ g' c', wie_jit_load true 0x10 4 demo_base (entry_ctx (demo_machine jit_code), demo_machine jit_code) = ((c', g'), Ok 0) ∧
    jc_fault c' = mkFault 1 0x10 4 0.
Proof.
  pose proof jit_code_ok as Hg. pose proof (entry_ctx_ok _ Hg) as Hc. split; [exact Hg|]. split; [exact Hc|]. split.
  - destruct (jit_load_reads false _ _ RegFile_new demo_base 4 demo_base Hg Hc ltac:(by vm_compute) ltac:(lia) eq_refl)
      as (g' & c' & v & Hl & _ & _ & _ & Hv).
    assert (Hr : (read_mem_value demo_base 4 (mkCpu (demo_machine jit_code) RegFile_new)).2 = XOk 0xc3d80148) by (vm_compute; reflexivity).
    rewrite Hr in Hv. destruct Hv as [-> _]. by exists g', c'.
  - destruct (jit_load_reads true _ _ RegFile_new 0x10 4 demo_base Hg Hc ltac:(by vm_compute) ltac:(lia) eq_refl)
      as (g' & c' & v & Hl & _ & _ & _ & Hv).
    assert (Hr : (read_mem_value 0x10 4 (mkCpu (demo_machine jit_code) RegFile_new)).2 = XErr (read_fault 0x10 4)) by (vm_compute; reflexivity).
    rewrite Hr in Hv. destruct Hv as (_ & -> & Hsame). exists g', c'. split; [exact Hl|]. by rewrite Hsame.
Defined.

(** A store to an executable page goes past the caches. *)
Lemma jit_store_writes_witness :
  mem_ok (demo_machine jit_code) ∧ ctx_ok (demo_machine jit_code) (entry_ctx (demo_machine jit_code)) ∧
  ∃ g' c', wie_jit_store false (demo_base + 2) 2 0x1234 demo_base (entry_ctx (demo_machine jit_code), demo_machine jit_code) = ((c', g'), Ok tt) ∧
    jc_fault c' = no_fault ∧ gbyte g' (demo_base + 3) = Some 0x12 ∧ mem_ok g'.
Proof.
  pose proof jit_code_ok as Hg. pose proof (entry_ctx_ok _ Hg) as Hc. split; [exact Hg|]. split; [exact Hc|].
  destruct (jit_store_writes false _ _ RegFile_new (demo_base + 2) 2 0x1234 demo_base Hg Hc ltac:(by vm_compute) ltac:(lia) eq_refl)
    as (g' & c' & Hl & _ & Hg' & _ & Hv). exists g', c'. split; [exact Hl|].
  assert (Hr : (write_mem_value (demo_base + 2) 0x1234 2 (mkCpu (demo_machine jit_code) RegFile_new)).2 = XOk tt) by (vm_compute; reflexivity).
  assert (Hb : gbyte (cmem (write_mem_value (demo_base + 2) 0x1234 2 (mkCpu (demo_machine jit_code) RegFile_new)).1) (demo_base + 3) = Some 0x12)
    by (vm_compute; reflexivity).
  destruct (write_mem_value _ _ _ _) as [cpu' x]. cbn [fst snd] in Hr, Hb. subst x. destruct Hv as (Hbytes & Hsame & _).
  split; [by rewrite Hsame|]. split; [by rewrite Hbytes|exact Hg'].
Defined.
