(* ===== verification/jit_stub.v ===== *)
(** * Stubs of one to three instructions (crates/wie-cpu/src/jit/trampolines.rs)

    The bodies the host plants for the simplest calls (return, return a constant, read
    or set the last error) are not compiled: host functions written by hand stand for
    them.  Also here: the table through which a block goes on to the next one
    (jit/lower.rs). *)

From S2P Require Import Prelude protect pagemap vad arena region mem mem_access mem_ops mem_safe.
From S2P Require Import engine regs regs_safe insn exec exec_string exec_sse exec_one exec_wf exec_safe mem_demo exec_demo jit_block jit_mem.

(** ** From a block to the next *)

(** 0 marks a free slot. *)
Definition chain_hash (va : u64) : nat := Z.to_nat (Z.land (wrapping_mul va 0x9E3779B97F4A7C15) (Z.of_nat CHAIN_SLOTS - 1)).
Definition chain_next (i : nat) : nat := Z.to_nat (Z.land (Z.of_nat i + 1) (Z.of_nat CHAIN_SLOTS - 1)).
(** The first of [n] slots from [i] on that is free or has [va]. *)
Fixpoint chain_slot (keys : list u64) (va : u64) (n i : nat) : option nat :=
  match n with
  | O => None
  | S n => if decide (keys !! i = Some 0 ∨ keys !! i = Some va) then Some i else chain_slot keys va n (chain_next i)
  end.
Definition chain_table_insert (va fn : u64) (c : JitChain) : JitChain :=
  if decide (va = 0 ∨ fn = 0) then c
  else
    (* a full table: the slot of the hash *)
    let i := default (chain_hash va) (chain_slot (chain_va c) va CHAIN_SLOTS (chain_hash va)) in
    mkChain (shadow_sp c) (shadow_ret c) (<[i := va]> (chain_va c)) (<[i := fn]> (chain_fn c)) (edge_ic_va c) (edge_ic_fn c) (edge_ic_rr c).
Definition chain_table_clear (c : JitChain) : JitChain :=
  mkChain (shadow_sp c) (shadow_ret c) (replicate (length (chain_va c)) 0) (replicate (length (chain_fn c)) 0)
    (edge_ic_va c) (edge_ic_fn c) (edge_ic_rr c).
(** At most sixteen slots are looked at. *)
Definition CHAIN_PROBES : nat := 16.
Definition chain_lookup (c : JitChain) (va : u64) : u64 :=
  if decide (va = 0) then 0
  else
    match chain_slot (chain_va c) va CHAIN_PROBES (chain_hash va) with
    | Some i => if decide (chain_va c !! i = Some va) then default 0 (chain_fn c !! i) else 0
    | None => 0
    end.
(** The last successors first; a successor found in the table joins them. *)
Definition edge_lookup (c : JitChain) (va : u64) : option u64 :=
  snd <$> List.find (λ e, bool_decide (e.1 = va) && negb (bool_decide (e.2 = 0))) (zip (edge_ic_va c) (edge_ic_fn c)).
Definition wie_jit_chain_lookup (va : u64) (c : JitChain) : JitChain * u64 :=
  if decide (va = 0) then (c, 0)
  else match edge_lookup c va with
       | Some fn => (c, fn)
       | None =>
           let fn := chain_lookup c va in
           if decide (fn = 0) then (c, 0)
           else
             let slot := Z.to_nat (edge_ic_rr c mod Z.of_nat EDGE_IC_SLOTS) in
             (mkChain (shadow_sp c) (shadow_ret c) (chain_va c) (chain_fn c) (<[slot := va]> (edge_ic_va c)) (<[slot := fn]> (edge_ic_fn c))
                (wrapping_add (edge_ic_rr c) 1), fn)
       end.

(** ** Which bodies are stubs *)

(** [Instruction::immediate32] and [Instruction::immediate64]. *)
Class IcedImmediates `{IcedInstruction} := {
  immediate32 : Instruction → u32;
  immediate64 : Instruction → u64;
}.

Class IcedImmediatesLaws `{IcedImmediates} : Prop := {
  immediate32_u32 i : 0 ≤ immediate32 i < u32_lim;
}.

Definition TEB_LAST_ERROR_VA : u64 := 0x68.

Module MicroStub.
Inductive micro_stub := Ret | ReturnZero | IdentityRcx | ReturnImm32 (imm : u32) | GetLastError | SetLastError.
End MicroStub.
Abbreviation MicroStub := MicroStub.micro_stub.
#[global] Instance MicroStub_eq_dec : EqDecision MicroStub.
Proof. solve_decision. Defined.

Definition dirty_mask (s : MicroStub) : u64 :=
  match s with MicroStub.Ret | MicroStub.SetLastError => Z.shiftl 1 4 | _ => Z.lor (Z.shiftl 1 0) (Z.shiftl 1 4) end.
Definition stub_insn_count (s : MicroStub) : u32 :=
  match s with
  | MicroStub.Ret => 1
  | MicroStub.ReturnZero | MicroStub.IdentityRcx | MicroStub.ReturnImm32 _ => 2
  | MicroStub.GetLastError | MicroStub.SetLastError => 3
  end.

Section Match.
Context `{IcedNames, !IcedImmediates}.
Implicit Types (instr : Instruction).

Definition is_mov instr : bool := match mnemonic instr with Mnemonic.Mov => true | _ => false end.
Definition is_memory (k : OpKind) : bool := match k with OpKind.Memory => true | _ => false end.
Definition is_plain_ret instr : bool := match mnemonic instr with Mnemonic.Ret => bool_decide (op_count instr = 0%nat) | _ => false end.
Definition two_registers instr : bool := is_register (op_kind instr 0) && is_register (op_kind instr 1).
Definition classify_two_insn instr : option MicroStub :=
  if (match mnemonic instr with Mnemonic.Xor => true | _ => false end) && two_registers instr &&
     bool_decide (op_register instr 0 = op_register instr 1) && is_named ["EAX"; "RAX"] (op_register instr 0)
  then Some MicroStub.ReturnZero
  else if is_mov instr && two_registers instr && is_named ["RAX"] (op_register instr 0) && is_named ["RCX"] (op_register instr 1)
  then Some MicroStub.IdentityRcx
  else if is_mov instr && is_register (op_kind instr 0) &&
     (match op_kind instr 1 with
      | OpKind.Immediate8 | OpKind.Immediate16 | OpKind.Immediate32 | OpKind.Immediate8to32 | OpKind.Immediate8to64 | OpKind.Immediate32to64 => true
      | _ => false
      end) && is_named ["EAX"; "RAX"] (op_register instr 0)
  then Some (MicroStub.ReturnImm32 (immediate32 instr))
  else None.
(** [op] of [b] is memory at RAX, without index or displacement. *)
Definition at_rax instr : bool :=
  is_named ["RAX"] (memory_base instr) && bool_decide (memory_index instr = reg_None) && bool_decide (memory_displacement64 instr = 0).
Definition classify_three_insn (a b : Instruction) : option MicroStub :=
  if negb (is_mov a) || negb (is_register (op_kind a 0)) || negb (is_named ["RAX"] (op_register a 0)) ||
     negb (match op_kind a 1 with OpKind.Immediate64 | OpKind.Immediate32 | OpKind.Immediate32to64 => true | _ => false end)
  then None
  else if decide (immediate64 a ≠ TEB_LAST_ERROR_VA) then None
  else if is_mov b && is_register (op_kind b 0) && is_named ["EAX"; "RAX"] (op_register b 0) && is_memory (op_kind b 1) && at_rax b
  then Some MicroStub.GetLastError
  else if is_mov b && is_memory (op_kind b 0) && is_register (op_kind b 1) && is_named ["ECX"; "RCX"] (op_register b 1) && at_rax b
  then Some MicroStub.SetLastError
  else None.
Definition match_micro_stub (insns : list Instruction) (term : option BlockTerm) : option MicroStub :=
  match term with
  | Some TermRet =>
      match insns with
      | [r] => if is_plain_ret r then Some MicroStub.Ret else None
      | [a; r] => if is_plain_ret r then classify_two_insn a else None
      | [a; b; r] => if is_plain_ret r then classify_three_insn a b else None
      | _ => None
      end
  | _ => None
  end.
End Match.

(** ** What the host does for a stub *)

Definition set_jgpr (n : nat) (v : u64) (c : JitCtx) : JitCtx :=
  mkCtx (<[n := v]> (jc_gpr c)) (jc_rflags c) (jc_rip c) (jc_xmm c) (gpr_dirty_bits c) (xmm_dirty_bits c) (jc_fault c)
    (jc_chain c) (chain_depth c) (jc_mem c).
Definition set_jrip (v : u64) (c : JitCtx) : JitCtx :=
  mkCtx (jc_gpr c) (jc_rflags c) v (jc_xmm c) (gpr_dirty_bits c) (xmm_dirty_bits c) (jc_fault c) (jc_chain c) (chain_depth c) (jc_mem c).
Definition set_dirty (v : u64) (c : JitCtx) : JitCtx :=
  mkCtx (jc_gpr c) (jc_rflags c) (jc_rip c) (jc_xmm c) v (xmm_dirty_bits c) (jc_fault c) (jc_chain c) (chain_depth c) (jc_mem c).
Definition set_chain (v : JitChain) (c : JitCtx) : JitCtx :=
  mkCtx (jc_gpr c) (jc_rflags c) (jc_rip c) (jc_xmm c) (gpr_dirty_bits c) (xmm_dirty_bits c) (jc_fault c) v (chain_depth c) (jc_mem c).
Definition set_depth (v : u64) (c : JitCtx) : JitCtx :=
  mkCtx (jc_gpr c) (jc_rflags c) (jc_rip c) (jc_xmm c) (gpr_dirty_bits c) (xmm_dirty_bits c) (jc_fault c) (jc_chain c) v (jc_mem c).
Definition jgpr (c : JitCtx) (n : nat) : u64 := default 0 (jc_gpr c !! n).

(** The return address predicted by the shadow stack is popped when it is right; a
    wrong one empties it. *)
Definition shadow_pop_check (ret_va : u64) (c : JitChain) : JitChain :=
  let with_sp sp := mkChain sp (shadow_ret c) (chain_va c) (chain_fn c) (edge_ic_va c) (edge_ic_fn c) (edge_ic_rr c) in
  if decide (shadow_sp c = 0) then c
  else
    let sp1 := wrapping_sub (shadow_sp c) 1 in
    if decide (shadow_ret c !! Z.to_nat (Z.land sp1 (Z.of_nat SHADOW_DEPTH - 1)) = Some ret_va) then with_sp sp1 else with_sp 0.

Section Run.
Context `{HostOS} (neon : bool).
Abbreviation J := (M (JitCtx * GuestMemory)).

Definition on_ctx (f : JitCtx → JitCtx) : J unit := modify (λ s, (f s.1, s.2)).
Definition ctx_get {A} (f : JitCtx → A) : J A := λ s, (s, Ok (f s.1)).
(** The rest is skipped after a fault. *)
Definition unless_fault (k : J unit) : J unit := f ← ctx_get (λ c, jf_fault (jc_fault c)); if decide (f ≠ 0) then mret tt else k.
Definition mark_dirty (mask : u64) : J unit := on_ctx (λ c, set_dirty (Z.lor (gpr_dirty_bits c) mask) c).
Definition tramp_load (addr : u64) (size : nat) : J u64 := ip ← ctx_get jc_rip; wie_jit_load neon addr size ip.
Definition tramp_store_u32 (addr : u64) (value : u32) : J unit := ip ← ctx_get jc_rip; wie_jit_store neon addr 4 value ip.
Definition guest_ret : J unit :=
  unless_fault (
    rsp ← ctx_get (λ c, jgpr c 4);
    ret_va ← tramp_load rsp 8;
    unless_fault (on_ctx (λ c, set_jrip ret_va (set_chain (shadow_pop_check ret_va (jc_chain c)) (set_jgpr 4 (wrapping_add rsp 8) c))))).

(** The constants with a function of their own. *)
Definition imm32_table : list u32 := [0; 1; 0x0409; 0x1234; 0x5678; 437; 1252; 12345].
(** The other ones are read from the code again. *)
Definition tramp_return_imm32 (imm : u32) : J unit :=
  if decide (imm ∈ imm32_table) then (_ ← on_ctx (set_jgpr 0 imm); guest_ret)
  else
    entry ← ctx_get jc_rip;
    v ← tramp_load (wrapping_add entry 1) 4;
    unless_fault (_ ← on_ctx (set_jgpr 0 v); guest_ret).
Definition tramp_get_last_error : J unit :=
  v ← tramp_load TEB_LAST_ERROR_VA 4; unless_fault (_ ← on_ctx (set_jgpr 0 v); guest_ret).
Definition tramp_set_last_error : J unit :=
  ecx ← ctx_get (λ c, jgpr c 1 mod u32_lim);
  _ ← tramp_store_u32 TEB_LAST_ERROR_VA ecx;
  unless_fault guest_ret.
(** Up to the successor. *)
Definition tramp_body (s : MicroStub) : J unit :=
  _ ← mark_dirty (dirty_mask s);
  match s with
  | MicroStub.Ret => guest_ret
  | MicroStub.ReturnZero => _ ← on_ctx (set_jgpr 0 0); guest_ret
  | MicroStub.IdentityRcx => _ ← on_ctx (λ c, set_jgpr 0 (jgpr c 1) c); guest_ret
  | MicroStub.ReturnImm32 imm => tramp_return_imm32 imm
  | MicroStub.GetLastError => tramp_get_last_error
  | MicroStub.SetLastError => tramp_set_last_error
  end.

(** The function of a compiled block at a host address. *)
Context (host_fn : u64 → J unit).
Definition chain_tail : J unit :=
  unless_fault (
    depth ← ctx_get chain_depth;
    if decide (MAX_CHAIN_DEPTH ≤ depth) then mret tt
    else
      fn ← ctx_get (λ c, chain_lookup (jc_chain c) (jc_rip c));
      if decide (fn = 0) then mret tt
      else
        _ ← on_ctx (λ c, set_depth (sat_add (chain_depth c) 1) (set_dirty 0xffff c));
        _ ← host_fn fn;
        on_ctx (λ c, set_depth (sat_sub (chain_depth c) 1) c)).
Definition tramp (s : MicroStub) : J unit := _ ← tramp_body s; chain_tail.
End Run.

(** ** Against the interpreter *)

Section Named.
Context `{IcedNames, !IcedNamesLaws}.
Implicit Types (r : RegFile).

(** Register [k] by its name of 8 and of 4 bytes. *)
Definition names_part (k j : nat) (reg : Register) : Prop := ∃ family name, gpr_families !! k = Some family ∧ family !! j = Some name ∧ reg = named name.
Lemma named_part_index k j reg : names_part k j reg → gpr_index (full_register reg) = Ok k.
Proof. intros (family & name & Hk & Hj & ->). eapply named_number; [done|]. by eapply list_elem_of_lookup_2. Qed.
Lemma read_named64 k reg r : names_part k 0 reg → read_reg r reg = Ok (gpr r k).
Proof.
  intros Hp. pose proof (named_part_index k 0 reg Hp) as Hi. destruct Hp as (family & name & Hk & Hj & ->).
  destruct (named_part k family 0 name Hk Hj) as (Hs & Hh & Hn & Hr & _). unfold read_reg. rewrite decide_False by done.
  rewrite decide_False by done. rewrite Hh. cbn [bool_decide]. rewrite Hi. cbn [mbind res_bind]. by rewrite Hs.
Qed.
Lemma read_named32 k reg r : names_part k 1 reg → read_reg r reg = Ok (Z.land (gpr r k) 0xffffffff).
Proof.
  intros Hp. pose proof (named_part_index k 1 reg Hp) as Hi. destruct Hp as (family & name & Hk & Hj & ->).
  destruct (named_part k family 1 name Hk Hj) as (Hs & Hh & Hn & Hr & _). unfold read_reg. rewrite decide_False by done.
  rewrite decide_False by done. rewrite Hh. cbn [bool_decide]. rewrite Hi. cbn [mbind res_bind]. by rewrite Hs.
Qed.
Lemma write_named64 k reg v r : names_part k 0 reg → write_reg reg v r = (set_gpr k v r, Ok tt).
Proof.
  intros Hp. pose proof (named_part_index k 0 reg Hp) as Hi. destruct Hp as (family & name & Hk & Hj & ->).
  destruct (named_part k family 0 name Hk Hj) as (Hs & Hh & Hn & Hr & _). unfold write_reg. rewrite decide_False by done. rewrite decide_False by done.
  rewrite Hh. cbn [bool_decide]. by rewrite Hi, Hs.
Qed.
Lemma write_named32 k reg v r : names_part k 1 reg → write_reg reg v r = (set_gpr k (Z.land v 0xffffffff) r, Ok tt).
Proof.
  intros Hp. pose proof (named_part_index k 1 reg Hp) as Hi. destruct Hp as (family & name & Hk & Hj & ->).
  destruct (named_part k family 1 name Hk Hj) as (Hs & Hh & Hn & Hr & _). unfold write_reg. rewrite decide_False by done. rewrite decide_False by done.
  rewrite Hh. cbn [bool_decide]. by rewrite Hi, Hs.
Qed.
End Named.

Section Alike.
Context `{HostOS, !HostOSLaws _, IcedNames, !IcedNamesLaws, !IcedImmediates, !IcedImmediatesLaws, NanChoice} (neon : bool) (bulk : option string) (now : Z).
Implicit Types (g : GuestMemory) (c : JitCtx) (r : RegFile) (s : MicroStub).

(** The instructions one after the other, as the interpreter executes them. *)
Fixpoint run_insns (insns : list Instruction) : M cpu StepResult :=
  match insns with
  | [] => mret Continue
  | i :: insns => x ← run_insn bulk now i (ip i); match x with Continue => run_insns insns | _ => mret x end
  end.

Definition same_guest g g' : Prop := gview g' = gview g ∧ ∀ y, gbyte g' y = gbyte g y.
Lemma same_guest_refl g : same_guest g g.
Proof. by split. Qed.
Lemma same_guest_trans g1 g2 g3 : same_guest g1 g2 → same_guest g2 g3 → same_guest g1 g3.
Proof. intros [V1 B1] [V2 B2]. split; [congruence|]. intros y. by rewrite B2. Qed.
Lemma same_guest_cache g g' : same_but_cache g g' → same_guest g g'.
Proof. intros Hs. split; [by apply same_gview|]. intros y. by rewrite (same_gbyte _ _ Hs). Qed.
Lemma same_guest_spc g g' a n k : same_guest g g' → spc g' a n k = spc g a n k.
Proof. intros [Hv _]. unfold spc. by rewrite Hv. Qed.

(** What the stub and the instructions have come to. *)
Definition runs_alike s c' r' (x : res StepResult) : Prop :=
  match x with
  | Ok Continue => jc_fault c' = no_fault ∧ jc_rip c' = rip r' ∧ ∀ n, n ≠ 0%nat ∨ s ≠ MicroStub.SetLastError → jc_gpr c' !! n = gprs r' !! n
  | Ok (StepInvalidMemory inv) => jc_fault c' = mkFault 1 (im_address inv) (im_size inv) (access_type inv)
  | _ => False
  end.

Lemma guest_ret_spec g c : mem_ok g → ctx_ok g c → jc_fault c = no_fault → in_u64 (jgpr c 4) →
  ∃ g' c', guest_ret neon (c, g) = ((c', g'), Ok tt) ∧ same_guest g g' ∧ mem_ok g' ∧ ctx_ok g' c' ∧
    jc_rflags c' = jc_rflags c ∧ gpr_dirty_bits c' = gpr_dirty_bits c ∧
    match spc g (jgpr c 4) 8 Read with
    | Ok _ => jc_fault c' = no_fault ∧ jc_gpr c' = <[4%nat := wrapping_add (jgpr c 4) 8]> (jc_gpr c) ∧
        ∃ bs, length bs = 8%nat ∧ jc_rip c' = le_val bs ∧ ∀ i, (i < 8)%nat → bs !! i = gbyte g (jgpr c 4 + Z.of_nat i)
    | _ => jc_fault c' = mkFault 1 (jgpr c 4) 8 0 ∧ jc_gpr c' = jc_gpr c
    end.
Proof.
  intros Hg Hc Hf Ha. unfold guest_ret, unless_fault, tramp_load, ctx_get, on_ctx, modify, mbind, M_bind. cbn [fst snd]. rewrite Hf.
  rewrite decide_False by (intros Hn; by apply Hn). cbn [fst snd].
  destruct (load_spec neon g c (jgpr c 4) 8 (jc_rip c) Hg Hc Ha ltac:(lia) ltac:(by rewrite Hf)) as (g' & c' & v & -> & Hsame & Hg' & Hc' & Hv).
  cbn [fst snd]. change (Z.of_nat 8) with 8 in Hv. pose proof (same_guest_cache _ _ Hsame) as Hsg.
  destruct (spc g (jgpr c 4) 8 Read) as [[]|e|w]; [destruct Hv as (-> & bs & -> & Hl & Hb)|destruct Hv as (_ & ->)..];
    cbn [with_jm set_fault jc_fault jf_fault]; rewrite ?Hf; [rewrite decide_False by (intros Hn; by apply Hn)|rewrite decide_True by done..];
    eexists g', _; (split; [reflexivity|]); split_and!; try done.
  by exists bs.
Qed.

(** The return of the interpreter. *)
Lemma run_ret_spec g r i a : mem_ok g → in_u64 (rsp r) → is_plain_ret i = true →
  ∃ g' r' x, run_insn bulk now i a (mkCpu g r) = (mkCpu g' r', x) ∧ same_guest g g' ∧ mem_ok g' ∧
    match spc g (rsp r) 8 Read with
    | Ok _ => x = Ok Continue ∧ gprs r' = <[4%nat := wrapping_add (rsp r) 8]> (gprs r) ∧ rflags r' = rflags r ∧
        ∃ bs, length bs = 8%nat ∧ rip r' = le_val bs ∧ ∀ i, (i < 8)%nat → bs !! i = gbyte g (rsp r + Z.of_nat i)
    | _ => x = Ok (StepInvalidMemory (mkInvalid ACCESS_READ (rsp r) 8 0)) ∧ gprs r' = gprs r ∧ rflags r' = rflags r
    end.
Proof.
  intros Hg Ha Hi. unfold is_plain_ret in Hi. destruct (mnemonic i) eqn:Hm; try done. apply bool_decide_eq_true in Hi.
  unfold run_insn, execute_one. rewrite Hm. unfold exec_ret, pop_n, xmod, xget, mbind, X_bind. cbn [cmem cregs].
  change (rsp (set_rip (next_ip i) r)) with (rsp r).
  destruct (read_value_spec g (set_rip (next_ip i) r) (rsp r) 8 Hg Ha ltac:(lia)) as (g' & Hsame & Hg' & Hr).
  change (Z.of_nat 8) with 8 in *. pose proof (same_guest_cache _ _ Hsame) as Hsg.
  destruct (spc g (rsp r) 8 Read) as [[]|e|w]; [destruct Hr as (bs & -> & Hl & Hb)|rewrite Hr..]; cbn [cmem cregs mret X_ret].
  - rewrite decide_False by lia. eexists g', _, _. split; [reflexivity|]. split; [done|]. split; [done|]. split; [done|].
    split; [done|]. split; [done|]. by exists bs.
  - eexists g', _, _. split; [reflexivity|]. by split_and!.
  - eexists g', _, _. split; [reflexivity|]. by split_and!.
Qed.

Lemma bytes8_eq (f : Z → option u8) a bs bs' : length bs = 8%nat → length bs' = 8%nat →
  (∀ i, (i < 8)%nat → bs !! i = f (a + Z.of_nat i)) → (∀ i, (i < 8)%nat → bs' !! i = f (a + Z.of_nat i)) → le_val bs = le_val bs'.
Proof. intros Hl Hl' Hb Hb'. f_equal. by apply (bytes_eq 8 _ _ (λ i, f (a + Z.of_nat i))). Qed.

(** The end of every stub. *)
Lemma ret_alike s g gi c r i a : mem_ok g → mem_ok gi → same_guest g gi → ctx_ok g c → jc_fault c = no_fault → in_u64 (rsp r) →
  (∀ n, n ≠ 0%nat ∨ s ≠ MicroStub.SetLastError → jc_gpr c !! n = gprs r !! n) → is_plain_ret i = true →
  ∃ g' c' gi' r' x, guest_ret neon (c, g) = ((c', g'), Ok tt) ∧ run_insn bulk now i a (mkCpu gi r) = (mkCpu gi' r', x) ∧
    mem_ok g' ∧ ctx_ok g' c' ∧ same_guest g g' ∧ same_guest g gi' ∧ runs_alike s c' r' x ∧ jc_rflags c' = jc_rflags c ∧
    rflags r' = rflags r ∧ gpr_dirty_bits c' = gpr_dirty_bits c ∧ ∀ n, n ≠ 4%nat → jc_gpr c' !! n = jc_gpr c !! n.
Proof.
  intros Hg Hgi Hsame Hc Hf Ha Hregs Hi.
  assert (Hsp : jgpr c 4 = rsp r) by (unfold jgpr, rsp, gpr; by rewrite Hregs by (left; lia)).
  destruct (guest_ret_spec g c Hg Hc Hf ltac:(by rewrite Hsp)) as (g' & c' & Hjr & Hg1 & Hg' & Hc' & Hfl & Hd & Hj).
  destruct (run_ret_spec gi r i a Hgi Ha Hi) as (gi' & r' & x & Hir & Hg2 & Hgi' & Hx).
  exists g', c', gi', r', x. split; [done|]. split; [done|]. split; [done|]. split; [done|]. split; [done|].
  split; [exact (same_guest_trans _ _ _ Hsame Hg2)|]. rewrite Hsp in Hj. rewrite (same_guest_spc _ _ _ _ _ Hsame) in Hx.
  destruct (spc g (rsp r) 8 Read) as [[]|e|w].
  - destruct Hj as (Hjf & Hjg & bs & Hl & Hjrip & Hb), Hx as (-> & Hxg & Hxf & bs' & Hl' & Hxrip & Hb').
    split; [|split; [done|split; [done|split; [done|]]]].
    + split; [done|]. split.
      * rewrite Hjrip, Hxrip. apply (bytes8_eq (gbyte g) (rsp r)); try done. intros k Hk. rewrite Hb' by done. apply Hsame.
      * intros n Hn. rewrite Hjg, Hxg. destruct (decide (n = 4)%nat) as [->|Hne].
        -- assert (Hlen : (4 < length (jc_gpr c))%nat ↔ (4 < length (gprs r))%nat)
             by (rewrite <- !lookup_lt_is_Some, (Hregs 4%nat) by (left; lia); done).
           rewrite !list_lookup_insert, (Hregs 4%nat) by (left; lia). destruct (decide _), (decide _); tauto || done.
        -- rewrite !list_lookup_insert_ne by done. by apply Hregs.
    + intros n Hn. rewrite Hjg. by rewrite list_lookup_insert_ne.
  - destruct Hj as (Hjf & Hjg), Hx as (-> & Hxg & Hxf). split; [done|]. by split_and!; try done; intros n _; rewrite Hjg.
  - destruct Hj as (Hjf & Hjg), Hx as (-> & Hxg & Hxf). split; [done|]. by split_and!; try done; intros n _; rewrite Hjg.
Qed.

(** *** The instructions before the return *)

Lemma is_named_part k j names reg : is_named names reg = true → (∀ n, n ∈ names → ∃ f, gpr_families !! k = Some f ∧ f !! j = Some n) → names_part k j reg.
Proof. intros (n & Hn & ->)%is_named_spec Hall. destruct (Hall n Hn) as (f & Hf & Hj). by exists f, n. Qed.
Lemma rax_part reg : is_named ["EAX"; "RAX"]%string reg = true → names_part 0 0 reg ∨ names_part 0 1 reg.
Proof.
  intros (n & Hn & ->)%is_named_spec. apply elem_of_cons in Hn as [->|Hn]; [right; by eexists _, _|].
  apply list_elem_of_singleton in Hn as ->. left. by eexists _, _.
Qed.
Lemma only_part k j name reg : is_named [name] reg = true → (∃ f, gpr_families !! k = Some f ∧ f !! j = Some name) → names_part k j reg.
Proof. intros (n & ->%list_elem_of_singleton & ->)%is_named_spec (f & Hf & Hj). by exists f, name. Qed.
Lemma part_size k j reg : names_part k j reg → reg_size reg = match j with 0 => 8 | 1 => 4 | 2 => 2 | _ => 1 end%nat.
Proof. intros (f & n & Hk & Hj & ->). by destruct (named_part k f j n Hk Hj). Qed.
Lemma is_register_eq k : is_register k = true → k = OpKind.Register.
Proof. by destruct k. Qed.
Lemma is_memory_eq k : is_memory k = true → k = OpKind.Memory.
Proof. by destruct k. Qed.
Lemma is_mov_eq i : is_mov i = true → mnemonic i = Mnemonic.Mov.
Proof. unfold is_mov. by destruct (mnemonic i). Qed.

(** [i] sets RAX and nothing else the stub keeps. *)
Definition sets_rax i (v : u64) g r r1 : Prop :=
  ∀ a, run_insn bulk now i a (mkCpu g r) = (mkCpu g r1, Ok Continue) ∧ gprs r1 = <[0%nat := v]> (gprs r).

(** A move of a value to EAX or RAX. *)
Lemma mov_rax i g r v : mnemonic i = Mnemonic.Mov → op_kind i 0 = OpKind.Register → names_part 0 0 (op_register i 0) ∨ names_part 0 1 (op_register i 0) ∧ v < u32_lim →
  0 ≤ v → (∀ r', rip r' = next_ip i → gprs r' = gprs r → read_op i 1 (mkCpu g r') = (mkCpu g r', XOk v)) →
  ∃ r1, sets_rax i v g r r1 ∧ rflags r1 = rflags r.
Proof.
  intros Hm Hk Hreg Hv Hread. exists (set_gpr 0 v (set_rip (next_ip i) r)). split; [|done]. intros a. split; [|done].
  unfold run_insn, execute_one. rewrite Hm. unfold exec_mov, xmod, mbind, X_bind. cbn [cmem cregs].
  rewrite Hread by done. unfold write_op, op_size_bytes, write_op_sized, xregs, mbind, X_bind. rewrite Hk. cbn [mret X_ret cmem cregs].
  destruct Hreg as [Hr|[Hr Hlt]]; [by rewrite (write_named64 0)|]. rewrite (write_named32 0) by done.
  change 0xffffffff with (Z.ones 32). rewrite Z.land_ones by lia. rewrite Z.mod_small by (change (2 ^ 32) with u32_lim; lia). done.
Qed.

Lemma xor_rax i g r : mnemonic i = Mnemonic.Xor → two_registers i = true → op_register i 0 = op_register i 1 →
  is_named ["EAX"; "RAX"]%string (op_register i 0) = true → ∃ r1, sets_rax i 0 g r r1.
Proof.
  intros Hm [Hk0%is_register_eq Hk1%is_register_eq]%andb_true_iff Hsame Hreg%rax_part.
  destruct Hreg as [Hr|Hr]; eexists (set_gpr 0 0 _); intros a; split.
  1,3: unfold run_insn, execute_one; rewrite Hm;
    unfold exec_arith, op_size_bytes, read_op, write_op, op_size_bytes, write_op_sized, xmod, xget, xregs, xres_of, xregs, mbind, X_bind;
    rewrite Hk0, Hk1, <- Hsame; cbn [mret X_ret cmem cregs].
  - rewrite !(read_named64 0) by done. cbn [cmem cregs arith_result]. rewrite Z.lxor_nilpotent, Z.land_0_l.
    rewrite (write_named64 0) by done. reflexivity.
  - rewrite !(read_named32 0) by done. cbn [cmem cregs arith_result]. rewrite Z.lxor_nilpotent, Z.land_0_l.
    rewrite (write_named32 0) by done. reflexivity.
  - reflexivity.
  - reflexivity.
Qed.

(** ** Exactness *)

(** Beyond what the match looks at: the constant is what the instruction loads, and
    when it has no function of its own it lies right after the first byte of the code;
    the last error is accessed as four bytes. *)
Definition four_bytes i : Prop := memory_size i = MemorySize.UInt32 ∨ memory_size i = MemorySize.Int32.
Definition stub_exact g s (insns : list Instruction) (a : u64) : Prop :=
  match s, insns with
  | MicroStub.ReturnImm32 imm, i :: _ =>
      immediate i 1 = imm ∧
      (imm ∈ imm32_table ∨ spc g (wrapping_add a 1) 4 Read = Ok tt ∧
         ∀ k, (k < 4)%nat → le_bytes 4 imm !! k = gbyte g (wrapping_add a 1 + Z.of_nat k))
  | MicroStub.GetLastError, i :: j :: _ => immediate i 1 = TEB_LAST_ERROR_VA ∧ is_named ["EAX"]%string (op_register j 0) = true ∧ four_bytes j
  | MicroStub.SetLastError, i :: j :: _ => immediate i 1 = TEB_LAST_ERROR_VA ∧ is_named ["ECX"]%string (op_register j 1) = true ∧ four_bytes j
  | _, _ => True
  end.

Lemma run_last i (p : cpu) : run_insns [i] p = run_insn bulk now i (ip i) p.
Proof. cbn [run_insns]. unfold mbind, M_bind. by destruct (run_insn bulk now i (ip i) p) as [p' [[]| |]]. Qed.
Lemma run_step i l p p' : run_insn bulk now i (ip i) p = (p', Ok Continue) → run_insns (i :: l) p = run_insns l p'.
Proof. intros Hr. cbn [run_insns]. unfold mbind, M_bind. by rewrite Hr. Qed.
Lemma run_cons i l v g r r1 : sets_rax i v g r r1 → run_insns (i :: l) (mkCpu g r) = run_insns l (mkCpu g r1).
Proof. intros Hs. apply run_step, Hs. Qed.
Lemma sets_rax_rsp i v g r r1 : sets_rax i v g r r1 → rsp r1 = rsp r.
Proof. intros Hs. unfold rsp, gpr. rewrite (proj2 (Hs 0)). by rewrite list_lookup_insert_ne. Qed.

(** The state a stub starts from, with the mask reported. *)
Definition marked s c : JitCtx := set_dirty (Z.lor (gpr_dirty_bits c) (dirty_mask s)) c.
Definition alike s c g' c' gi r r' (x : res StepResult) : Prop :=
  mem_ok g' ∧ ctx_ok g' c' ∧ same_guest g' gi ∧ runs_alike s c' r' x ∧
  jc_rflags c' = jc_rflags c ∧ (s ≠ MicroStub.ReturnZero → rflags r' = rflags r) ∧
  gpr_dirty_bits c' = Z.lor (gpr_dirty_bits c) (dirty_mask s) ∧
  ∀ n, Z.testbit (dirty_mask s) (Z.of_nat n) = false → jc_gpr c' !! n = jc_gpr c !! n.
Lemma same_guest_sym g g' : same_guest g g' → same_guest g' g.
Proof. intros [V B]. split; [done|]. intros y. by rewrite B. Qed.
Lemma dirty_rsp s : Z.testbit (dirty_mask s) (Z.of_nat 4) = true.
Proof. by destruct s. Qed.
Lemma dirty_rax s : s ≠ MicroStub.Ret → s ≠ MicroStub.SetLastError → Z.testbit (dirty_mask s) (Z.of_nat 0) = true.
Proof. by destruct s. Qed.

(** The return, from states that agree. *)
Lemma ends_alike s g gi c c1 r r1 i : mem_ok g → mem_ok gi → same_guest g gi → ctx_ok g c1 → jc_fault c1 = no_fault → in_u64 (rsp r1) →
  (∀ n, n ≠ 0%nat ∨ s ≠ MicroStub.SetLastError → jc_gpr c1 !! n = gprs r1 !! n) → is_plain_ret i = true →
  jc_rflags c1 = jc_rflags c → (s ≠ MicroStub.ReturnZero → rflags r1 = rflags r) → gpr_dirty_bits c1 = gpr_dirty_bits (marked s c) →
  (∀ n, Z.testbit (dirty_mask s) (Z.of_nat n) = false → jc_gpr c1 !! n = jc_gpr c !! n) →
  ∃ g' c' gi' r' x, guest_ret neon (c1, g) = ((c', g'), Ok tt) ∧ run_insns [i] (mkCpu gi r1) = (mkCpu gi' r', x) ∧ alike s c g' c' gi' r r' x.
Proof.
  intros Hg Hgi Hsame Hc Hf Ha Hregs Hi Hfl Hifl Hd Hun.
  destruct (ret_alike s g gi c1 r1 i (ip i) Hg Hgi Hsame Hc Hf Ha Hregs Hi)
    as (g' & c' & gi' & r' & x & Hj & Hr & Hg' & Hc' & Hs1 & Hs2 & Hal & Hfl' & Hifl' & Hd' & Hun').
  exists g', c', gi', r', x. rewrite run_last. split; [done|]. split; [done|]. split; [done|]. split; [done|].
  split; [exact (same_guest_trans _ _ _ (same_guest_sym _ _ Hs1) Hs2)|]. split; [done|]. split; [congruence|].
  split; [intros Hz; rewrite Hifl'; auto|]. split; [by rewrite Hd', Hd|].
  intros n Hn. rewrite Hun'; [by apply Hun|]. intros ->. by rewrite dirty_rsp in Hn.
Qed.
(** One instruction that sets RAX, then the return. *)
Lemma two_alike s g gi c cm r r1 i j v : s ≠ MicroStub.Ret → s ≠ MicroStub.SetLastError → mem_ok g → mem_ok gi → same_guest g gi → regs_ok r →
  ctx_ok g cm → jc_fault cm = no_fault → jc_gpr c = gprs r → jc_gpr cm = jc_gpr c → jc_rflags cm = jc_rflags c →
  gpr_dirty_bits cm = gpr_dirty_bits (marked s c) →
  sets_rax i v gi r r1 → (s ≠ MicroStub.ReturnZero → rflags r1 = rflags r) → is_plain_ret j = true →
  ∃ g' c' gi' r' x, guest_ret neon (set_jgpr 0 v cm, g) = ((c', g'), Ok tt) ∧
    run_insns [i; j] (mkCpu gi r) = (mkCpu gi' r', x) ∧ alike s c g' c' gi' r r' x.
Proof.
  intros Hn1 Hn2 Hg Hgi Hsame Hr Hc Hf Hgp Hcm Hfl Hd Hset Hif Hj. rewrite (run_cons _ _ _ _ _ _ Hset).
  apply ends_alike; try done.
  - rewrite (sets_rax_rsp _ _ _ _ _ Hset). apply gpr_in_u64, Hr.
  - intros n _. cbn [set_jgpr jc_gpr]. by rewrite (proj2 (Hset 0)), Hcm, Hgp.
  - intros n Hn. cbn [set_jgpr jc_gpr]. rewrite Hcm, list_lookup_insert_ne; [done|]. intros <-. by rewrite dirty_rax in Hn.
Qed.

(** What the state of the block and of the interpreter have in common at the start. *)
Record starts g c r : Prop := {
  sr_mem : mem_ok g;
  sr_regs : regs_ok r;
  sr_ctx : ctx_ok g c;
  sr_fault : jc_fault c = no_fault;
  sr_gpr : jc_gpr c = gprs r;
  sr_rip : jc_rip c = rip r;
}.
Definition meets g c r s insns : Prop :=
  ∃ g' c' gi' r' x, tramp_body neon s (c, g) = ((c', g'), Ok tt) ∧ run_insns insns (mkCpu g r) = (mkCpu gi' r', x) ∧ alike s c g' c' gi' r r' x.

Lemma ret_meets g c r i : starts g c r → is_plain_ret i = true → meets g c r MicroStub.Ret [i].
Proof.
  intros [Hg Hr Hc Hf Hgp Hrip] Hi. eapply (ends_alike MicroStub.Ret g g c (marked MicroStub.Ret c) r r i); try done.
  - apply gpr_in_u64, Hr.
  - intros n _. cbn. by rewrite Hgp.
Qed.
Lemma constant_meets g c r s v i j r1 : s ≠ MicroStub.Ret → s ≠ MicroStub.SetLastError → starts g c r →
  (∀ t, tramp_body neon s (c, g) = t ↔ guest_ret neon (set_jgpr 0 v (marked s c), g) = t) →
  sets_rax i v g r r1 → (s ≠ MicroStub.ReturnZero → rflags r1 = rflags r) → is_plain_ret j = true → meets g c r s [i; j].
Proof.
  intros Hn1 Hn2 [Hg Hr Hc Hf Hgp Hrip] Hb Hset Hif Hj.
  destruct (two_alike s g g c (marked s c) r r1 i j v) as (g' & c' & gi' & r' & x & Hgr & Hri & Hal); try done.
  exists g', c', gi', r', x. split; [by apply Hb|]. done.
Qed.

Lemma identity_meets g c r i j : starts g c r → is_mov i = true → two_registers i = true → is_named ["RAX"]%string (op_register i 0) = true →
  is_named ["RCX"]%string (op_register i 1) = true → is_plain_ret j = true → meets g c r MicroStub.IdentityRcx [i; j].
Proof.
  intros Hst Hm%is_mov_eq [Hk0%is_register_eq Hk1%is_register_eq]%andb_true_iff Hd Hs Hj.
  assert (Hrax : names_part 0 0 (op_register i 0)) by (eapply only_part; [exact Hd|by eexists]).
  assert (Hrcx : names_part 1 0 (op_register i 1)) by (eapply only_part; [exact Hs|by eexists]).
  destruct (mov_rax i g r (gpr r 1) Hm Hk0) as (r1 & Hset & Hfl); [by left|apply gpr_in_u64, Hst| |].
  { intros r' _ Hgp. unfold read_op. rewrite Hk1. unfold xres_of, xregs. cbn [cregs cmem]. rewrite (read_named64 1) by done.
    unfold gpr. by rewrite Hgp. }
  eapply (constant_meets g c r MicroStub.IdentityRcx (gpr r 1)); try done.
  intros t. unfold gpr. rewrite <- (sr_gpr _ _ _ Hst). done.
Qed.
Lemma zero_meets g c r i j : starts g c r → mnemonic i = Mnemonic.Xor → two_registers i = true → op_register i 0 = op_register i 1 →
  is_named ["EAX"; "RAX"]%string (op_register i 0) = true → is_plain_ret j = true → meets g c r MicroStub.ReturnZero [i; j].
Proof.
  intros Hst Hm Hk Hsame Hd Hj. destruct (xor_rax i g r Hm Hk Hsame Hd) as (r1 & Hset).
  by eapply (constant_meets g c r MicroStub.ReturnZero 0).
Qed.

(** A load of the stub. *)
Lemma tramp_load_ok g c a size : mem_ok g → ctx_ok g c → jc_fault c = no_fault → in_u64 a → (1 ≤ size ≤ 8)%nat →
  ∃ g' c' v, tramp_load neon a size (c, g) = ((c', g'), Ok v) ∧ same_guest g g' ∧ mem_ok g' ∧ ctx_ok g' c' ∧
    jc_gpr c' = jc_gpr c ∧ jc_rflags c' = jc_rflags c ∧ gpr_dirty_bits c' = gpr_dirty_bits c ∧
    match spc g a (Z.of_nat size) Read with
    | Ok _ => jc_fault c' = no_fault ∧ ∃ bs, v = word_of size bs ∧ length bs = size ∧ ∀ i, (i < size)%nat → bs !! i = gbyte g (a + Z.of_nat i)
    | _ => jc_fault c' = mkFault 1 a (Z.of_nat size) 0
    end.
Proof.
  intros Hg Hc Hf Ha Hs. unfold tramp_load, ctx_get, mbind, M_bind. cbn [fst snd].
  destruct (load_spec neon g c a size (jc_rip c) Hg Hc Ha Hs ltac:(by rewrite Hf)) as (g' & c' & v & -> & Hsame & Hg' & Hc' & Hv).
  exists g', c', v. split; [done|]. split; [by apply same_guest_cache|]. split; [done|]. split; [done|].
  destruct (spc g a (Z.of_nat size) Read) as [[]|e|w]; [destruct Hv as (Hj & bs & -> & Hl & Hb)|destruct Hv as (_ & Hj)..]; rewrite Hj; cbn; split_and!; try done.
  by exists bs.
Qed.
Lemma imm_meets g c r i j : starts g c r → is_mov i = true → op_kind i 0 = OpKind.Register → is_named ["EAX"; "RAX"]%string (op_register i 0) = true →
  (∀ p, read_op i 1 p = (p, XOk (immediate i 1))) → is_plain_ret j = true →
  stub_exact g (MicroStub.ReturnImm32 (immediate32 i)) [i; j] (rip r) → meets g c r (MicroStub.ReturnImm32 (immediate32 i)) [i; j].
Proof.
  intros Hst Hm%is_mov_eq Hk Hd%rax_part Hread Hj [Himm Hx]. pose proof (immediate32_u32 i) as Hu.
  destruct (mov_rax i g r (immediate32 i) Hm Hk) as (r1 & Hset & Hfl); [destruct Hd; [by left|right; split; [done|lia]]|lia| |].
  { intros r' _ _. by rewrite Hread, Himm. }
  destruct (decide (immediate32 i ∈ imm32_table)) as [Hin|Hout].
  { eapply (constant_meets g c r _ (immediate32 i)); try done. intros t. unfold tramp_body, tramp_return_imm32, mbind, M_bind, mark_dirty, on_ctx, modify.
    cbn [fst snd]. by rewrite decide_True by done. }
  destruct Hx as [|[Hspc Hb]]; [done|]. destruct Hst as [Hg Hr Hc Hf Hgp Hrip]. set (s := MicroStub.ReturnImm32 (immediate32 i)).
  assert (Ha : in_u64 (wrapping_add (rip r) 1)) by apply u64_wrap.
  destruct (tramp_load_ok g (marked s c) (wrapping_add (rip r) 1) 4 Hg Hc Hf Ha ltac:(lia)) as (g1 & c1 & v & Hl & Hs1 & Hg1 & Hc1 & Hgp1 & Hfl1 & Hd1 & Hv).
  change (Z.of_nat 4) with 4 in Hv. rewrite Hspc in Hv. destruct Hv as (Hf1 & bs & -> & Hlen & Hbs).
  assert (bs = le_bytes 4 (immediate32 i)) as ->.
  { apply (bytes_eq 4 _ _ (λ k, gbyte g (wrapping_add (rip r) 1 + Z.of_nat k))); [done|by rewrite length_le_bytes|done|done]. }
  assert (Hval : word_of 4 (le_bytes 4 (immediate32 i)) = immediate32 i).
  { cbn [word_of]. rewrite le_val_le_bytes. apply Z.mod_small. exact Hu. }
  destruct (two_alike s g1 g c c1 r r1 i j (immediate32 i)) as (g' & c' & gi' & r' & x & Hgr & Hri & Hal); try done.
  { by apply same_guest_sym. }
  exists g', c', gi', r', x. split; [|done]. subst s. unfold tramp_body, tramp_return_imm32, unless_fault, mbind, M_bind, mark_dirty, on_ctx, modify, ctx_get.
  cbn [fst snd]. rewrite decide_False by done. cbn [fst snd]. change (jc_rip (set_dirty _ c)) with (jc_rip c). rewrite Hrip.
  change (set_dirty (Z.lor (gpr_dirty_bits c) (dirty_mask _)) c) with (marked (MicroStub.ReturnImm32 (immediate32 i)) c).
  rewrite Hl, Hval. cbn [fst snd]. rewrite Hf1, decide_False by (intros Hn; by apply Hn). exact Hgr.
Qed.

(** *** The last error *)

Lemma at_rax_address j g r : at_rax j = true → gpr r 0 = TEB_LAST_ERROR_VA → effective_address j (mkCpu g r) = (mkCpu g r, XOk TEB_LAST_ERROR_VA).
Proof.
  unfold at_rax. rewrite !andb_true_iff, !bool_decide_eq_true. intros [[Hb Hi] Hd] Hr.
  assert (Hp : names_part 0 0 (memory_base j)) by (eapply only_part; [exact Hb|by eexists]).
  pose proof Hp as (f & n & Hf & Hn & Hreg). destruct (named_part 0 f 0 n Hf Hn) as (_ & _ & Hn1 & Hn2 & Hn3). rewrite <- Hreg in Hn1, Hn2, Hn3.
  unfold effective_address. rewrite decide_False by tauto. rewrite decide_True by done. unfold xres_of, xregs, mbind, X_bind. cbn [cregs cmem].
  rewrite (read_named64 0) by done. cbn [cregs cmem mret X_ret]. rewrite decide_False by (intros Hx; by apply Hx). by rewrite Hr, Hd.
Qed.
Lemma four_bytes_size j p : four_bytes j → memory_op_size j p = (p, XOk 4%nat).
Proof. unfold memory_op_size. by intros [-> | ->]. Qed.

Lemma load_last_error j g r : mem_ok g → is_mov j = true → op_kind j 0 = OpKind.Register → op_kind j 1 = OpKind.Memory → at_rax j = true →
  names_part 0 1 (op_register j 0) → four_bytes j → gpr r 0 = TEB_LAST_ERROR_VA →
  ∃ g' r', same_guest g g' ∧ mem_ok g' ∧ rflags r' = rflags r ∧
    match spc g TEB_LAST_ERROR_VA 4 Read with
    | Ok _ => ∃ bs, length bs = 4%nat ∧ Forall is_byte bs ∧ (∀ i, (i < 4)%nat → bs !! i = gbyte g (TEB_LAST_ERROR_VA + Z.of_nat i)) ∧
        gprs r' = <[0%nat := le_val bs]> (gprs r) ∧ ∀ a, run_insn bulk now j a (mkCpu g r) = (mkCpu g' r', Ok Continue)
    | _ => run_insn bulk now j (ip j) (mkCpu g r) = (mkCpu g' r', Ok (StepInvalidMemory (mkInvalid ACCESS_READ TEB_LAST_ERROR_VA 4 0)))
    end.
Proof.
  intros Hg Hm%is_mov_eq Hk0 Hk1 Hat Hreg Hfour Hrax.
  destruct (read_value_spec g (set_rip (next_ip j) r) TEB_LAST_ERROR_VA 4 Hg ltac:(by vm_compute) ltac:(lia)) as (g' & Hs & Hg' & Hr).
  change (Z.of_nat 4) with 4 in Hr. unfold run_insn, execute_one. rewrite Hm.
  unfold exec_mov, read_op, write_op, op_size_bytes, write_op_sized, xmod, xregs, mbind, X_bind. rewrite Hk0, Hk1. cbn [cmem cregs mret X_ret].
  rewrite (at_rax_address j g (set_rip (next_ip j) r) Hat Hrax), four_bytes_size by done.
  exists g'. destruct (spc g TEB_LAST_ERROR_VA 4 Read) as [[]|e|w]; [destruct Hr as (bs & Hrd & Hl & Hb)|rewrite Hr..].
  - assert (Hby : Forall is_byte bs).
    { apply Forall_lookup_2. intros i b Hi. pose proof (lookup_lt_Some _ _ _ Hi). rewrite Hb in Hi by lia. by eapply (mo_bytes _ Hg). }
    rewrite Hrd. cbn [cmem cregs word_of]. rewrite (write_named32 0) by done.
    exists (set_gpr 0 (le_val bs) (set_rip (next_ip j) r)). split; [by apply same_guest_cache|]. split; [done|]. split; [done|].
    exists bs. split; [done|]. split; [done|]. split; [done|]. split; [done|]. intros a. do 3 f_equal.
    pose proof (le_val_bound bs Hby) as Hbd. rewrite Hl in Hbd. change 0xffffffff with (Z.ones 32). rewrite Z.land_ones by lia.
    rewrite Z.mod_small by exact Hbd. reflexivity.
  - exists (set_rip (ip j) (set_rip (next_ip j) r)). split; [by apply same_guest_cache|]. by split_and!.
  - exists (set_rip (ip j) (set_rip (next_ip j) r)). split; [by apply same_guest_cache|]. by split_and!.
Qed.
Lemma teb_u64 : in_u64 TEB_LAST_ERROR_VA.
Proof. by vm_compute. Qed.
(** [mov rax, the address of the last error]. *)
Lemma address_to_rax i g r : is_mov i = true → op_kind i 0 = OpKind.Register → is_named ["RAX"]%string (op_register i 0) = true →
  (∀ p, read_op i 1 p = (p, XOk (immediate i 1))) → immediate i 1 = TEB_LAST_ERROR_VA → regs_ok r →
  ∃ r1, sets_rax i TEB_LAST_ERROR_VA g r r1 ∧ rflags r1 = rflags r ∧ gpr r1 0 = TEB_LAST_ERROR_VA.
Proof.
  intros Hm%is_mov_eq Hk Hd Hread Himm Hr.
  destruct (mov_rax i g r TEB_LAST_ERROR_VA Hm Hk) as (r1 & Hset & Hfl); [left; eapply only_part; [exact Hd|by eexists]|apply teb_u64| |].
  { intros r' _ _. by rewrite Hread, Himm. }
  exists r1. split; [done|]. split; [done|]. unfold gpr. rewrite (proj2 (Hset 0)).
  rewrite list_lookup_insert_eq; [done|]. destruct Hr as [[Hl _] _ _ _ _]. rewrite Hl. lia.
Qed.
Lemma run_fault i l p p' inv : run_insn bulk now i (ip i) p = (p', Ok (StepInvalidMemory inv)) → run_insns (i :: l) p = (p', Ok (StepInvalidMemory inv)).
Proof. intros Hr. cbn [run_insns]. unfold mbind, M_bind. by rewrite Hr. Qed.

Lemma get_meets g c r i j k : starts g c r → is_mov i = true → op_kind i 0 = OpKind.Register → is_named ["RAX"]%string (op_register i 0) = true →
  (∀ p, read_op i 1 p = (p, XOk (immediate i 1))) → is_mov j = true → op_kind j 0 = OpKind.Register → op_kind j 1 = OpKind.Memory → at_rax j = true →
  is_plain_ret k = true → stub_exact g MicroStub.GetLastError [i; j; k] (rip r) → meets g c r MicroStub.GetLastError [i; j; k].
Proof.
  intros [Hg Hr Hc Hf Hgp Hrip] Hmi Hki Hdi Hread Hmj Hkj0 Hkj1 Hat Hk (Himm & Hdj & Hfour). set (s := MicroStub.GetLastError).
  destruct (address_to_rax i g r Hmi Hki Hdi Hread Himm Hr) as (r1 & Hset & Hfl1 & Hrax).
  assert (Hreg : names_part 0 1 (op_register j 0)) by (eapply only_part; [exact Hdj|by eexists]).
  destruct (load_last_error j g r1 Hg Hmj Hkj0 Hkj1 Hat Hreg Hfour Hrax) as (g2 & r2 & Hs2 & Hg2 & Hfl2 & Hj).
  destruct (tramp_load_ok g (marked s c) TEB_LAST_ERROR_VA 4 Hg Hc Hf teb_u64 ltac:(lia)) as (g1 & c1 & v & Hl & Hs1 & Hg1 & Hc1 & Hgp1 & Hjf1 & Hd1 & Hv).
  assert (Hbody : tramp_body neon s (c, g) =
    (let '(st, v) := tramp_load neon TEB_LAST_ERROR_VA 4 (marked s c, g) in
     match v with
     | Ok v => unless_fault (_ ← on_ctx (set_jgpr 0 v); guest_ret neon) st
     | Err e => (st, Err e) | Abort w => (st, Abort w)
     end)) by done.
  unfold meets. rewrite Hbody, Hl, (run_cons _ _ _ _ _ _ Hset). unfold unless_fault, ctx_get, on_ctx, modify, mbind, M_bind. cbn [fst snd].
  change (Z.of_nat 4) with 4 in Hv. destruct (spc g TEB_LAST_ERROR_VA 4 Read) as [[]|e|w].
  1: { destruct Hj as (bs & Hlen & _ & Hb & Hgp2 & Hrun), Hv as (Hf1 & bs' & -> & Hlen' & Hb').
    rewrite Hf1, decide_False by (intros Hn; by apply Hn). cbn [word_of fst snd].
    assert (bs' = bs) as -> by (by apply (bytes_eq 4 _ _ (λ i, gbyte g (TEB_LAST_ERROR_VA + Z.of_nat i)))).
    rewrite (run_step j [k] _ _ (Hrun (ip j))). eapply (ends_alike s g1 g2 c (set_jgpr 0 (le_val bs) c1) r r2 k); try done.
    + exact (same_guest_trans _ _ _ (same_guest_sym _ _ Hs1) Hs2).
    + unfold rsp, gpr. rewrite Hgp2, (proj2 (Hset 0)), !list_lookup_insert_ne by done. apply gpr_in_u64, Hr.
    + intros n _. cbn [set_jgpr jc_gpr]. rewrite Hgp2, (proj2 (Hset 0)), list_insert_insert_eq, Hgp1. cbn. by rewrite Hgp.
    + intros _. by rewrite Hfl2.
    + intros n Hn. cbn [set_jgpr jc_gpr]. rewrite Hgp1, list_lookup_insert_ne; [done|]. intros <-. done. }
  all: rewrite Hv, decide_True by done; rewrite (run_fault _ _ _ _ _ Hj); eexists _, _, _, _, _; split; [reflexivity|]; split; [reflexivity|].
  all: split; [done|]; split; [done|]; split; [exact (same_guest_trans _ _ _ (same_guest_sym _ _ Hs1) Hs2)|]; split; [done|]; split; [done|].
  all: split; [by rewrite Hfl2|]; split; [done|]; intros n _; by rewrite Hgp1.
Qed.

(** A store of the stub. *)
Lemma tramp_store_ok g c value : mem_ok g → ctx_ok g c → jc_fault c = no_fault →
  ∃ g' c', tramp_store_u32 neon TEB_LAST_ERROR_VA value (c, g) = ((c', g'), Ok tt) ∧ mem_ok g' ∧ ctx_ok g' c' ∧ gview g' = gview g ∧
    jc_gpr c' = jc_gpr c ∧ jc_rflags c' = jc_rflags c ∧ gpr_dirty_bits c' = gpr_dirty_bits c ∧
    match spc g TEB_LAST_ERROR_VA 4 Write with
    | Ok _ => jc_fault c' = no_fault ∧ bytes_set g TEB_LAST_ERROR_VA (take 4 (le_bytes 8 value)) g'
    | _ => jc_fault c' = mkFault 1 TEB_LAST_ERROR_VA 4 1 ∧ ∀ y, gbyte g' y = gbyte g y
    end.
Proof.
  intros Hg Hc Hf. unfold tramp_store_u32, ctx_get, mbind, M_bind. cbn [fst snd].
  destruct (store_spec neon g c TEB_LAST_ERROR_VA 4 value (jc_rip c) Hg Hc teb_u64 ltac:(lia) ltac:(by rewrite Hf)) as (g' & c' & -> & Hst & Hg' & Hc' & Hv).
  exists g', c'. split; [done|]. split; [done|]. split; [done|]. split; [apply Hst|]. change (Z.of_nat 4) with 4 in Hv.
  destruct (spc g TEB_LAST_ERROR_VA 4 Write) as [[]|e|w]; destruct Hv as [Hj Hb]; rewrite Hj; by split_and!.
Qed.
Lemma store_last_error j g r : mem_ok g → is_mov j = true → op_kind j 0 = OpKind.Memory → op_kind j 1 = OpKind.Register → at_rax j = true →
  names_part 1 1 (op_register j 1) → four_bytes j → gpr r 0 = TEB_LAST_ERROR_VA →
  ∃ g' r' x, run_insn bulk now j (ip j) (mkCpu g r) = (mkCpu g' r', x) ∧ mem_ok g' ∧ gview g' = gview g ∧ gprs r' = gprs r ∧ rflags r' = rflags r ∧
    match spc g TEB_LAST_ERROR_VA 4 Write with
    | Ok _ => x = Ok Continue ∧ bytes_set g TEB_LAST_ERROR_VA (take 4 (le_bytes 8 (gpr r 1 mod u32_lim))) g'
    | _ => (∃ v, x = Ok (StepInvalidMemory (mkInvalid ACCESS_WRITE TEB_LAST_ERROR_VA 4 v))) ∧ ∀ y, gbyte g' y = gbyte g y
    end.
Proof.
  intros Hg Hm%is_mov_eq Hk0 Hk1 Hat Hreg Hfour Hrax.
  assert (Hval : Z.land (gpr r 1) 0xffffffff = gpr r 1 mod u32_lim) by (change 0xffffffff with (Z.ones 32); by rewrite Z.land_ones by lia).
  destruct (write_value_spec g (set_rip (next_ip j) r) TEB_LAST_ERROR_VA 4 (gpr r 1 mod u32_lim) Hg teb_u64 ltac:(lia)) as (g' & x & Hw & Hg' & Hst & Hr).
  change (Z.of_nat 4) with 4 in Hr. unfold run_insn, execute_one. rewrite Hm.
  unfold exec_mov, read_op, write_op, op_size_bytes, write_op_sized, xmod, xregs, xres_of, xregs, mbind, X_bind. rewrite Hk0, Hk1. cbn [cmem cregs mret X_ret].
  rewrite (read_named32 1) by done. change (gpr (set_rip (next_ip j) r) 1) with (gpr r 1). cbn [cmem cregs]. rewrite Hval, four_bytes_size by done.
  rewrite (at_rax_address j g (set_rip (next_ip j) r) Hat Hrax), Hw.
  destruct (spc g TEB_LAST_ERROR_VA 4 Write) as [[]|e|w]; [destruct Hr as (-> & _ & Hb)|destruct Hr as (-> & _ & Hb)..];
    (eexists g', _, _; split; [reflexivity|]; split; [done|]; split; [apply Hst|]; split; [done|]; split; [done|]; split; [|exact Hb]).
  - reflexivity.
  - by eexists.
  - by eexists.
Qed.
Lemma set_meets g c r i j k : starts g c r → is_mov i = true → op_kind i 0 = OpKind.Register → is_named ["RAX"]%string (op_register i 0) = true →
  (∀ p, read_op i 1 p = (p, XOk (immediate i 1))) → is_mov j = true → op_kind j 0 = OpKind.Memory → op_kind j 1 = OpKind.Register → at_rax j = true →
  is_plain_ret k = true → stub_exact g MicroStub.SetLastError [i; j; k] (rip r) → meets g c r MicroStub.SetLastError [i; j; k].
Proof.
  intros [Hg Hr Hc Hf Hgp Hrip] Hmi Hki Hdi Hread Hmj Hkj0 Hkj1 Hat Hk (Himm & Hdj & Hfour). set (s := MicroStub.SetLastError).
  destruct (address_to_rax i g r Hmi Hki Hdi Hread Himm Hr) as (r1 & Hset & Hfl1 & Hrax).
  assert (Hreg : names_part 1 1 (op_register j 1)) by (eapply only_part; [exact Hdj|by eexists]).
  destruct (store_last_error j g r1 Hg Hmj Hkj0 Hkj1 Hat Hreg Hfour Hrax) as (g2 & r2 & x & Hrun & Hg2 & Hv2 & Hgp2 & Hfl2 & Hj).
  assert (Hecx : gpr r1 1 = jgpr c 1) by (unfold gpr, jgpr; by rewrite (proj2 (Hset 0)), list_lookup_insert_ne, Hgp by done). rewrite Hecx in Hj.
  destruct (tramp_store_ok g (marked s c) (jgpr c 1 mod u32_lim) Hg Hc Hf) as (g1 & c1 & Hl & Hg1 & Hc1 & Hv1 & Hgp1 & Hjf1 & Hd1 & Hv).
  assert (Hbody : tramp_body neon s (c, g) =
    (let '(st, v) := tramp_store_u32 neon TEB_LAST_ERROR_VA (jgpr c 1 mod u32_lim) (marked s c, g) in
     match v with Ok _ => unless_fault (guest_ret neon) st | Err e => (st, Err e) | Abort w => (st, Abort w) end)) by done.
  unfold meets. rewrite Hbody, Hl, (run_cons _ _ _ _ _ _ Hset). unfold unless_fault, ctx_get, mbind, M_bind. cbn [fst snd].
  destruct (spc g TEB_LAST_ERROR_VA 4 Write) as [[]|e|w].
  1: { destruct Hj as (-> & Hb2), Hv as (Hf1 & Hb1). rewrite Hf1, decide_False by (intros Hn; by apply Hn). rewrite (run_step j [k] _ _ Hrun).
    eapply (ends_alike s g1 g2 c c1 r r2 k); try done.
    + split; [congruence|]. intros y. by rewrite (Hb1 y), (Hb2 y).
    + unfold rsp, gpr. rewrite Hgp2, (proj2 (Hset 0)), list_lookup_insert_ne by done. apply gpr_in_u64, Hr.
    + intros n [Hn|Hn]; [|by destruct Hn]. rewrite Hgp2, (proj2 (Hset 0)), list_lookup_insert_ne, Hgp1 by done. cbn. by rewrite Hgp.
    + intros _. by rewrite Hfl2.
    + intros n _. by rewrite Hgp1. }
  all: destruct Hj as ([v ->] & Hb2), Hv as (Hf1 & Hb1); rewrite Hf1, decide_True by done; rewrite (run_fault _ _ _ _ _ Hrun).
  all: eexists _, _, _, _, _; split; [reflexivity|]; split; [reflexivity|]; split; [done|]; split; [done|].
  all: split; [split; [congruence|]; intros y; by rewrite Hb1, Hb2|]; split; [done|]; split; [done|].
  all: split; [by rewrite Hfl2|]; split; [done|]; intros n _; by rewrite Hgp1.
Qed.

Lemma two_meets g c r s i j : starts g c r → classify_two_insn i = Some s → is_plain_ret j = true → stub_exact g s [i; j] (rip r) → meets g c r s [i; j].
Proof.
  intros Hst Hs Hj Hx. unfold classify_two_insn in Hs.
  destruct (_ && two_registers i && _ && _) eqn:Hz.
  { rewrite !andb_true_iff, bool_decide_eq_true in Hz. destruct Hz as [[[Hm Hk] Hsame] Hd]. injection Hs as <-.
    apply zero_meets; try done. by destruct (mnemonic i). }
  clear Hz. destruct (is_mov i && two_registers i && _ && _) eqn:Hi.
  { rewrite !andb_true_iff in Hi. destruct Hi as [[[Hm Hk] Hd] Hsrc]. injection Hs as <-. by apply identity_meets. }
  clear Hi. destruct (is_mov i && _ && _ && _) eqn:Hc; [|done]. rewrite !andb_true_iff in Hc. destruct Hc as [[[Hm Hk%is_register_eq] Himm] Hd].
  injection Hs as <-. apply imm_meets; try done. intros p. unfold read_op. by destruct (op_kind i 1).
Qed.
Lemma three_meets g c r s i j k : starts g c r → classify_three_insn i j = Some s → is_plain_ret k = true →
  stub_exact g s [i; j; k] (rip r) → meets g c r s [i; j; k].
Proof.
  intros Hst Hs Hk Hx. unfold classify_three_insn in Hs. destruct (negb (is_mov i) || _ || _ || _) eqn:Hi; [done|].
  rewrite !orb_false_iff, !negb_false_iff in Hi. destruct Hi as [[[Hmi Hki%is_register_eq] Hdi] Himm]. destruct (decide _); [done|].
  assert (Hread : ∀ p, read_op i 1 p = (p, XOk (immediate i 1))) by (intros p; unfold read_op; by destruct (op_kind i 1)).
  destruct (is_mov j && is_register _ && _ && _ && _) eqn:Hget.
  { rewrite !andb_true_iff in Hget. destruct Hget as [[[[Hmj Hk0%is_register_eq] _] Hk1%is_memory_eq] Hat]. injection Hs as <-. by apply get_meets. }
  clear Hget.
  destruct (is_mov j && is_memory _ && _ && _ && _) eqn:Hset; [|done]. rewrite !andb_true_iff in Hset.
  destruct Hset as [[[[Hmj Hk0%is_memory_eq] Hk1%is_register_eq] _] Hat]. injection Hs as <-. by apply set_meets.
Qed.

(** C14 A stub that is exact for its instructions ([stub_exact]) does what they
    do.  Exact means: for a constant returned, that the constant of the stub is the one the
    move loads and, unless the stub has a function of its own (the constants of
    [imm32_table]), that its four bytes can be read right after the first byte of the
    code, where the stub looks for them; for the last error, that the instruction
    names its address in the TEB and accesses four bytes of it through EAX or ECX;
    for the other stubs, nothing.  The match does not check this, and without it the claim fails: the
    longer encoding of a move makes the stub return other bytes ([long_move_misread]).
    Then the host function that stands for the block and the interpreter executing the
    instructions of the block one after the other both come to the same return address
    with the same registers and the same memory, or both fault at the same access, but
    that the flags [xor eax, eax] sets are not set, and storing the last error leaves
    RAX as it was.  The registers outside of the mask reported as dirty are untouched,
    and what the page caches hold stays true.  As everywhere, the host pages let the
    emulator do what the guest may do ([host_grants], part of [mem_ok]). *)
Theorem micro_stub_is_block g c r s insns term :
  mem_ok g → regs_ok r → ctx_ok g c → jc_fault c = no_fault → jc_gpr c = gprs r → jc_rip c = rip r →
  match_micro_stub insns term = Some s → stub_exact g s insns (rip r) →
  ∃ g' c' gi r' x, tramp_body neon s (c, g) = ((c', g'), Ok tt) ∧ run_insns insns (mkCpu g r) = (mkCpu gi r', x) ∧
    mem_ok g' ∧ ctx_ok g' c' ∧ same_guest g' gi ∧ runs_alike s c' r' x ∧
    jc_rflags c' = jc_rflags c ∧ (s ≠ MicroStub.ReturnZero → rflags r' = rflags r) ∧
    gpr_dirty_bits c' = Z.lor (gpr_dirty_bits c) (dirty_mask s) ∧
    ∀ n, Z.testbit (dirty_mask s) (Z.of_nat n) = false → jc_gpr c' !! n = jc_gpr c !! n.
Proof.
  intros Hg Hr Hc Hf Hgp Hrip Hs Hx. assert (Hst : starts g c r) by (by split).
  unfold match_micro_stub in Hs. destruct term as [[]|]; try done. destruct insns as [|i [|j [|k [|]]]]; try done.
  - destruct (is_plain_ret i) eqn:Hi; [|done]. injection Hs as <-. by apply ret_meets.
  - destruct (is_plain_ret j) eqn:Hj; [|done]. by apply two_meets.
  - destruct (is_plain_ret k) eqn:Hk; [|done]. by apply three_meets.
Qed.
End Alike.

(** ** Constants from the code *)

#[local] Existing Instance demo_os.
#[local] Existing Instance demo_laws.

(** Immediates of the concrete decoder. *)
#[export] Instance demo_immediates : IcedImmediates := {
  immediate32 i := immediate i 1 mod u32_lim;
  immediate64 i := immediate i 1;
}.
#[export] Instance demo_immediates_laws : IcedImmediatesLaws.
Proof. split. intros i. apply Z.mod_pos_bound. done. Qed.

(** [mov eax, 7; ret], the move of five bytes. *)
Definition seven_code : list u8 := [0xb8; 7; 0; 0; 0; 0xc3].
Definition seven_insns : list dinsn :=
  [mkD demo_base 5 Mnemonic.Mov [DReg (DG 0 4); DImm OpKind.Immediate32 7] false DNone (MemorySize.Other "None");
   mkD (demo_base + 5) 1 Mnemonic.Ret [] false DNone (MemorySize.Other "None")].
(** [mov rax, 7; ret], the move of seven. *)
Definition long_seven_code : list u8 := [0x48; 0xc7; 0xc0; 7; 0; 0; 0; 0xc3].
Definition long_seven_insns : list dinsn :=
  [mkD demo_base 7 Mnemonic.Mov [DReg (DG 0 8); DImm OpKind.Immediate32to64 7] false DNone (MemorySize.Other "None");
   mkD (demo_base + 7) 1 Mnemonic.Ret [] false DNone (MemorySize.Other "None")].

Definition stub_regs : RegFile := set_rsp (demo_base + 0x8000) (set_rip demo_base RegFile_new).
Definition stub_ctx (g : GuestMemory) : JitCtx := set_jgpr 4 (demo_base + 0x8000) (entry_ctx g).
Lemma stub_regs_ok : regs_ok stub_regs.
Proof. apply ok_set_rsp; [apply ok_set_rip; [apply demo_regs_ok|]|]; by vm_compute. Qed.
Lemma stub_machine_ok code : forallb (λ b, (0 <=? b) && (b <? 256)) code = true → Z.of_nat (length code) < u64_lim → mem_ok (demo_machine code).
Proof. intros Hb Hl. apply demo_machine_ok; [by apply demo_code_byte|done]. Qed.

(** The match does not ask for the length of the move: the constant of the long one is
    read from within its first bytes. *)
Lemma long_move_misread :
  match_micro_stub long_seven_insns (Some TermRet) = Some (MicroStub.ReturnImm32 7) ∧
  jgpr (tramp_body false (MicroStub.ReturnImm32 7) (stub_ctx (demo_machine long_seven_code), demo_machine long_seven_code)).1.1 0 = 0x7c0c7 ∧
  rax (cregs (run_insns None 0 long_seven_insns (mkCpu (demo_machine long_seven_code) stub_regs)).1) = 7.
Proof. split; [vm_compute; reflexivity|]. split; vm_compute; reflexivity. Qed.

Lemma micro_stub_is_block_witness :
  match_micro_stub seven_insns (Some TermRet) = Some (MicroStub.ReturnImm32 7) ∧ mem_ok (demo_machine seven_code) ∧
  ∃ g' c' gi r' x, tramp_body false (MicroStub.ReturnImm32 7) (stub_ctx (demo_machine seven_code), demo_machine seven_code) = ((c', g'), Ok tt) ∧
    run_insns None 0 seven_insns (mkCpu (demo_machine seven_code) stub_regs) = (mkCpu gi r', Ok Continue) ∧
    same_guest g' gi ∧ x = Ok Continue ∧ jc_gpr c' !! 0%nat = Some 7 ∧ jc_rip c' = rip r'.
Proof.
  assert (Hg : mem_ok (demo_machine seven_code)) by (by apply stub_machine_ok).
  assert (Hm : match_micro_stub seven_insns (Some TermRet) = Some (MicroStub.ReturnImm32 7)) by (vm_compute; reflexivity).
  assert (Hx : stub_exact (demo_machine seven_code) (MicroStub.ReturnImm32 7) seven_insns (rip stub_regs)).
  { split; [vm_compute; reflexivity|]. right. split; [vm_compute; reflexivity|].
    intros k Hk. do 4 (destruct k as [|k]; [vm_compute; reflexivity|]). lia. }
  split; [exact Hm|]. split; [exact Hg|].
  destruct (micro_stub_is_block false None 0 _ (stub_ctx (demo_machine seven_code)) stub_regs _ _ _ Hg stub_regs_ok (entry_ctx_ok _ Hg)
    eq_refl eq_refl eq_refl Hm Hx) as (g' & c' & gi & r' & x & Hj & Hi & _ & _ & Hsame & Hrun & _).
  assert (Hi' : (run_insns None 0 seven_insns (mkCpu (demo_machine seven_code) stub_regs)).2 = Ok Continue) by (vm_compute; reflexivity).
  assert (Hax : rax (cregs (run_insns None 0 seven_insns (mkCpu (demo_machine seven_code) stub_regs)).1) = 7) by (vm_compute; reflexivity).
  assert (Hlen : length (gprs (cregs (run_insns None 0 seven_insns (mkCpu (demo_machine seven_code) stub_regs)).1)) = 16%nat) by (vm_compute; reflexivity).
  rewrite Hi in Hi', Hax, Hlen. cbn [fst snd cregs] in Hi', Hax, Hlen. subst x. destruct Hrun as (_ & Hrip & Hregs).
  exists g', c', gi, r', (Ok Continue). split; [exact Hj|]. split; [exact Hi|]. split; [exact Hsame|]. split; [done|]. split; [|exact Hrip].
  rewrite Hregs by (right; discriminate). unfold rax, gpr in Hax. destruct (gprs r') as [|a l]; [done|]. cbn in Hax |- *. by rewrite Hax.
Defined.
