(* ===== verification/jit_crt.v ===== *)
(** * C runtime calls inside compiled blocks (crates/wie-cpu/src/jit/fast_api.rs)

    A call of malloc, free, memcpy, strlen, fwrite and the like is made by the host in
    place of the handler.  malloc and free work on the control block and the chains
    of the process heap in guest memory, next to the handlers of HeapAlloc and
    HeapFree (guest_heap.rs): for sizes of a class they take the steps of the same
    heap. *)

From S2P Require Import Prelude protect pagemap vad arena region mem mem_access mem_ops mem_safe mem_demo.
From S2P Require Import engine regs insn guest_heap heap_coherent jit_mem.

(** ** Which calls *)

Inductive FastApiKind := Malloc | Free | Memcpy | Strlen | AcrtIobFunc | Fwrite | Fflush.
#[global] Instance FastApiKind_eq_dec : EqDecision FastApiKind.
Proof. solve_decision. Defined.
Definition from_export_name (name : string) : option FastApiKind :=
  let eq a := eq_ignore_ascii_case name a in
  if eq "malloc" then Some Malloc else if eq "free" then Some Free else if eq "memcpy" then Some Memcpy
  else if eq "strlen" then Some Strlen else if eq "__acrt_iob_func" then Some AcrtIobFunc
  else if eq "fwrite" then Some Fwrite else if eq "fflush" then Some Fflush else None.
Definition symbol (k : FastApiKind) : string :=
  match k with
  | Malloc => "wie_ucrt_malloc" | Free => "wie_ucrt_free" | Memcpy => "wie_ucrt_memcpy" | Strlen => "wie_ucrt_strlen"
  | AcrtIobFunc => "wie_ucrt_iob" | Fwrite => "wie_ucrt_fwrite" | Fflush => "wie_ucrt_fflush"
  end.

Record JitHeapLayout := mkLayout { ctrl_va : u64; hl_base : u64; hl_end : u64 }.
Record JitFastPathConfig := mkConfig { fc_heap : JitHeapLayout; fc_pairs : list (u64 * FastApiKind) }.

Definition FILE_STDIN : u64 := 0x68000000.
Definition FILE_STDOUT : u64 := FILE_STDIN + 0x100.
Definition FILE_STDERR : u64 := FILE_STDIN + 0x200.
Definition CRT_SIZE_CLASSES : list u64 :=
  [16; 32; 48; 64; 96; 128; 192; 256; 384; 512; 768; 1024; 1536; 2048; 3072; 4096; 6144; 8192;
   12288; 16384; 24576; 32768; 49152; 65536].
Definition CRT_LARGE_THRESHOLD : u64 := 65536.

Definition crt_class_index (size : u64) : nat :=
  default (length CRT_SIZE_CLASSES - 1)%nat (position (λ c, bool_decide (size ≤ c)) CRT_SIZE_CLASSES).
Definition crt_round_up (size : u64) : u64 :=
  let size := Z.max size 1 in
  if decide (size ≤ CRT_LARGE_THRESHOLD) then
    default (mask16 (wrapping_add size 15)) (List.find (λ c, bool_decide (size ≤ c)) CRT_SIZE_CLASSES)
  else mask16 (wrapping_add size 15).
Definition crt_head_va (ctrl : u64) (class : nat) : u64 := wrapping_add (wrapping_add ctrl 8) (wrap64 (Z.of_nat class * 8)).

(** ** State

    The layout of the heap and the list of large blocks are of the process; the fault
    is of the block that makes the call. *)

Section Calls.
Context {E : Type} `{CpuMem E}.

Record Crt := mkCrt {
  cr_fault : JitFault;
  cr_mem : E;
  cr_heap : JitHeapLayout;
  large_list : list (u64 * u64);
  console : list (u64 * list u8);        (** handed to the host, by stream *)
}.
Definition with_crt_mem (e : E) (s : Crt) : Crt := mkCrt (cr_fault s) e (cr_heap s) (large_list s) (console s).
Definition with_large (l : list (u64 * u64)) (s : Crt) : Crt := mkCrt (cr_fault s) (cr_mem s) (cr_heap s) l (console s).
Definition crt_fault (addr size access : u64) (s : Crt) : Crt :=
  mkCrt (mkFault 1 addr size access) (cr_mem s) (cr_heap s) (large_list s) (console s).
Definition install_heap_layout (heap : JitHeapLayout) (s : Crt) : Crt :=
  mkCrt (cr_fault s) (cr_mem s) heap [] (console s).

Definition crt_read_u64 (va : u64) (s : Crt) : Crt * option u64 :=
  let '(e, v) := read_u64 va (cr_mem s) in (with_crt_mem e s, v).
(** [true]: it was written. *)
Definition crt_write_u64 (va value : u64) (s : Crt) : Crt * bool :=
  let '(e, r) := mem_write va (le_bytes 8 value) (cr_mem s) in
  (with_crt_mem e s, match r with Ok _ => true | _ => false end).

(** ** malloc and free *)

Definition crt_fit_step (need : u64) (best : option (nat * u64)) (x : nat * (u64 * u64)) : option (nat * u64) :=
  let '(i, (_, size)) := x in
  if decide (need ≤ size) then
    match best with
    | None => Some (i, size)
    | Some (_, best_size) => if decide (size < best_size) then Some (i, size) else best
    end
  else best.
Definition crt_large_fit (l : list (u64 * u64)) (need : u64) : option nat := fst <$> foldl (crt_fit_step need) None (imap pair l).

Definition crt_bump (heap : JitHeapLayout) (rounded : u64) (s : Crt) : Crt * u64 :=
  match crt_read_u64 (ctrl_va heap) s with
  | (s, None) => (s, 0)
  | (s, Some bump) =>
      let bump := if decide (bump < hl_base heap) then hl_base heap else bump in
      let pre := wrapping_add bump 8 in
      let payload := mask16 (wrapping_add pre 15) in
      let stop := wrapping_add payload rounded in
      if bool_decide (payload < hl_base heap) || bool_decide (hl_end heap < stop) || bool_decide (stop < payload) then (s, 0)
      else
        match crt_write_u64 (ctrl_va heap) stop s with
        | (s, false) => (s, 0)
        | (s, true) => ((crt_write_u64 (wrapping_sub payload 8) rounded s).1, payload)
        end
  end.
(** What is left of a large block goes back to the list. *)
Definition crt_split (addr size rounded : u64) (l : list (u64 * u64)) : list (u64 * u64) :=
  if decide (sat_add rounded CRT_LARGE_THRESHOLD ≤ size) then
    let residual_addr := sat_add addr rounded in
    let residual_size := sat_sub size rounded in
    if bool_decide (addr < residual_addr) && bool_decide (16 ≤ residual_size) then l ++ [(residual_addr, residual_size)] else l
  else l.
Definition large_alloc (heap : JitHeapLayout) (rounded : u64) (s : Crt) : Crt * u64 :=
  match (i ← crt_large_fit (large_list s) rounded; x ← large_list s !! i; Some (i, x)) with
  | Some (i, (addr, size)) =>
      let s := with_large (crt_split addr size rounded (swap_remove i (large_list s))) s in
      ((crt_write_u64 (wrapping_sub addr 8) rounded s).1, addr)
  | None => crt_bump heap rounded s
  end.
Definition wie_ucrt_malloc (size : u64) (s : Crt) : Crt * u64 :=
  let heap := cr_heap s in
  if decide (jf_fault (cr_fault s) ≠ 0) then (s, 0)
  else if decide (size = 0) then (s, 0)
  else if decide (ctrl_va heap = 0 ∨ hl_base heap = 0 ∨ hl_end heap ≤ hl_base heap) then (s, 0)
  else
    let rounded := crt_round_up size in
    if decide (rounded = 0) then (s, 0)
    else if decide (CRT_LARGE_THRESHOLD < rounded) then large_alloc heap rounded s
    else
      let hva := crt_head_va (ctrl_va heap) (crt_class_index rounded) in
      let '(s, head) := crt_read_u64 hva s in
      match head with
      | Some head =>
          if bool_decide (head ≠ 0) && bool_decide (hl_base heap ≤ head) && bool_decide (head < hl_end heap) then
            let '(s, next) := crt_read_u64 head s in
            match crt_write_u64 hva (default 0 next) s with
            | (s, false) => (s, 0)
            | (s, true) => ((crt_write_u64 (wrapping_sub head 8) rounded s).1, head)
            end
          else crt_bump heap rounded s
      | None => crt_bump heap rounded s
      end.
Definition wie_ucrt_free (ptr : u64) (s : Crt) : Crt :=
  let heap := cr_heap s in
  if decide (jf_fault (cr_fault s) ≠ 0 ∨ ptr = 0) then s
  else if decide (ctrl_va heap = 0) then s
  else if decide (ptr < hl_base heap ∨ hl_end heap ≤ ptr) then s
  else
    match crt_read_u64 (wrapping_sub ptr 8) s with
    | (s, None) => s
    | (s, Some size) =>
        if decide (size = 0) then s
        else
          let s := (crt_write_u64 (wrapping_sub ptr 8) 0 s).1 in
          if decide (CRT_LARGE_THRESHOLD < size) then with_large (large_list s ++ [(ptr, size)]) s
          else
            let hva := crt_head_va (ctrl_va heap) (crt_class_index size) in
            let '(s, old) := crt_read_u64 hva s in
            let s := (crt_write_u64 ptr (default 0 old) s).1 in
            (crt_write_u64 hva ptr s).1
    end.

(** ** Bytes and streams *)

Definition CRT_CHUNK : Z := 4096.
(** Chunk after chunk through a buffer; [todo]: still to go. *)
Definition memcpy_body (x : u64 * u64 * Z) (s : Crt) : Crt * res (u64 * u64 * Z + unit) :=
  let '(d, src, todo) := x in
  if decide (todo ≤ 0) then (s, Ok (inr tt))
  else
    let chunk := Z.min todo CRT_CHUNK in
    match mem_read src (Z.to_nat chunk) (cr_mem s) with
    | (e, Ok buf) =>
        match mem_write d buf e with
        | (e, Ok _) => (with_crt_mem e s, Ok (inl (wrapping_add d chunk, wrapping_add src chunk, todo - chunk)))
        | (e, _) => (crt_fault d chunk 1 (with_crt_mem e s), Ok (inr tt))
        end
    | (e, _) => (crt_fault src chunk 0 (with_crt_mem e s), Ok (inr tt))
    end.
Definition wie_ucrt_memcpy (dest src n : u64) : M Crt u64 := λ s,
  if decide (jf_fault (cr_fault s) ≠ 0) then (s, Ok dest)
  else if decide (n = 0 ∨ dest = 0 ∨ src = 0) then (s, Ok dest)
  else (_ ← loopM (fuel_of n) memcpy_body (dest, src, n); mret dest) s.

Definition STRLEN_MAX : u64 := 1000000.
Definition strlen_body (a : u64) (len : u64) (s : Crt) : Crt * res (u64 + u64) :=
  match mem_read (wrapping_add a len) 1 (cr_mem s) with
  | (e, Ok b) =>
      let s := with_crt_mem e s in
      if decide (default 0 (b !! 0%nat) = 0) then (s, Ok (inr len))
      else if decide (STRLEN_MAX < sat_add len 1) then (s, Ok (inr (sat_add len 1)))
      else (s, Ok (inl (sat_add len 1)))
  | (e, _) => (crt_fault (wrapping_add a len) 1 0 (with_crt_mem e s), Ok (inr len))
  end.
Definition wie_ucrt_strlen (a : u64) : M Crt u64 := λ s,
  if decide (jf_fault (cr_fault s) ≠ 0 ∨ a = 0) then (s, Ok 0)
  else loopM (fuel_of (STRLEN_MAX + 1)) (strlen_body a) 0 s.

Definition wie_ucrt_iob (ix : u64) : u64 :=
  match Z.land ix 0xffffffff with 0 => FILE_STDIN | 1 => FILE_STDOUT | 2 => FILE_STDERR | _ => 0 end.
Definition file_cookie (ix : u64) : u64 := match ix with 0 => FILE_STDIN | 1 => FILE_STDOUT | 2 => FILE_STDERR | _ => 0 end.

Definition write_host_console (stream : u64) (bytes : list u8) (s : Crt) : Crt :=
  mkCrt (cr_fault s) (cr_mem s) (cr_heap s) (large_list s) (console s ++ [(stream, bytes)]).
Definition fwrite_body (stream count : u64) (x : u64 * Z) (s : Crt) : Crt * res (u64 * Z + u64) :=
  let '(src, todo) := x in
  if decide (todo ≤ 0) then (s, Ok (inr count))
  else
    let chunk := Z.min todo CRT_CHUNK in
    match mem_read src (Z.to_nat chunk) (cr_mem s) with
    | (e, Ok buf) => (write_host_console stream buf (with_crt_mem e s), Ok (inl (wrapping_add src chunk, todo - chunk)))
    | (e, _) => (crt_fault src chunk 0 (with_crt_mem e s), Ok (inr 0))
    end.
Definition wie_ucrt_fwrite (buf size count stream : u64) : M Crt u64 := λ s,
  if decide (jf_fault (cr_fault s) ≠ 0) then (s, Ok 0)
  else if decide (size = 0 ∨ count = 0) then (s, Ok 0)
  else
    let total := Z.min (size * count) (u64_lim - 1) in
    if bool_decide (stream ≠ FILE_STDOUT) && bool_decide (stream ≠ FILE_STDERR) then (s, Ok count)
    else if decide (buf = 0) then (s, Ok count)
    else loopM (fuel_of total) (fwrite_body stream count) (buf, total) s.
Definition wie_ucrt_fflush (stream : u64) : u64 := 0.
End Calls.
#[global] Arguments Crt E : clear implicits.

(** ** The same heap as the handlers' *)

Lemma crt_tables : CRT_SIZE_CLASSES = SIZE_CLASSES ∧ CRT_LARGE_THRESHOLD = LARGE_THRESHOLD.
Proof. done. Qed.
Lemma crt_class_same size : crt_class_index size = size_class_index size.
Proof. done. Qed.
Lemma crt_head_same ctrl class : crt_head_va ctrl class = head_va ctrl class.
Proof. done. Qed.
Lemma find_list_find {A} (f : A → bool) l : List.find f l = snd <$> list_find f l.
Proof. induction l as [|c l IH]; [done|]. cbn. destruct (f c); cbn; [done|]. rewrite IH. by destruct (list_find _ l) as [[]|]. Qed.
Lemma crt_round_up_same size : in_u64 size → crt_round_up size = round_up_size size.
Proof.
  intros Hs. unfold crt_round_up, round_up_size. change CRT_LARGE_THRESHOLD with LARGE_THRESHOLD.
  set (n := Z.max size 1). destruct (decide (n ≤ LARGE_THRESHOLD)) as [Hle|]; [|done].
  unfold size_class_index, position. change CRT_SIZE_CLASSES with SIZE_CLASSES. rewrite find_list_find.
  destruct (size_class_index_fits n) as (s & Hc & Hn); [lia|].
  destruct (list_find _ SIZE_CLASSES) as [[i c]|] eqn:Hl; cbn.
  - apply list_find_Some in Hl as (Hi & _). by rewrite Hi.
  - apply list_find_None in Hl. rewrite Forall_forall in Hl. destruct (Hl s); [|by apply bool_decide_pack].
    unfold class_size in Hc. by eapply list_elem_of_lookup_2.
Qed.

Section Same.
Context {E : Type} `{CpuMemLaws E}.
Implicit Types (e : E) (h ha : GuestHeap) (s : Crt E).

Lemma crt_write_spec s a v : mem_inv (cr_mem s) → word_rw (cr_mem s) a → in_u64 v →
  crt_write_u64 a v s = (with_crt_mem (write_u64 a v (cr_mem s)) s, true).
Proof.
  intros Hi Hw Hv. destruct (mem_write_word (cr_mem s) a v Hi Hw Hv) as (e' & Hwr & _).
  unfold crt_write_u64, write_u64. by rewrite Hwr.
Qed.
Lemma crt_read_spec s a : mem_inv (cr_mem s) → word_rw (cr_mem s) a →
  ∃ e', crt_read_u64 a s = (with_crt_mem e' s, Some (get64 (cr_mem s) a)) ∧ mem_inv e' ∧
    (∀ b, get64 e' b = get64 (cr_mem s) b) ∧ ∀ x, mem_rw e' x ↔ mem_rw (cr_mem s) x.
Proof.
  intros Hi Hw. destruct (read_u64_spec (cr_mem s) a Hi Hw) as (e' & Hr & Hrest). exists e'. unfold crt_read_u64. by rewrite Hr.
Qed.

(** The process has the heap [ha], seen by the handlers as [h], and no call has faulted. *)
Record crt_heap s h ha (ctrl : Z) : Prop := {
  ch_rep : represents (cr_mem s) h ha ctrl;
  ch_layout : cr_heap s = mkLayout ctrl (hp_base ha) (hp_end ha);
  ch_ctrl : ctrl ≠ 0;
  ch_room : hp_base ha < hp_end ha ∧ hp_end ha + 65600 < u64_lim;
  ch_fault : jf_fault (cr_fault s) = 0;
}.
Lemma crt_heap_mem s h ha ctrl e h' ha' : crt_heap s h ha ctrl → represents e h' ha' ctrl → hp_base ha' = hp_base ha →
  hp_end ha' = hp_end ha → crt_heap (with_crt_mem e s) h' ha' ctrl.
Proof. intros [H1 H2 H3 H4 H5] Hr Hb He. split; [done| |done| |done]; cbn; by rewrite Hb, He. Qed.

(** Moving the cursor past a block. *)
Lemma cursor_refines e h ha ha' ctrl a r : represents e h ha ctrl → allocated ha ha' a r → free_lists ha' = free_lists ha →
  large_free ha' = large_free ha → represents (write_u64 ctrl (bump ha') e) (set_live (live ha') h) ha' ctrl.
Proof.
  intros Hrep Hal Hfl Hla. destruct (al_frame _ _ _ _ Hal) as (Hfb & Hfe & Hfg).
  pose proof (hw_range _ (al_wf _ _ _ _ Hal)) as Hr'.
  destruct (write_u64_spec e ctrl (bump ha') (rp_inv _ _ _ _ Hrep)) as (Hi & Hrw & Hw & Hfr);
    [by eapply bump_word|unfold in_u64; lia|].
  assert (Hap : ∀ b, hp_base ha ≤ b → b + 8 ≤ hp_end ha → b + 8 ≤ ctrl ∨ ctrl + 8 ≤ b).
  { intros b Hb1 Hb2. destruct (ctrl_apart e h ha ctrl b 0 Hrep); lia. }
  destruct (rp_same _ _ _ _ Hrep) as (Hb & He & Hl & _). destruct (rp_attached _ _ _ _ Hrep) as [Hg Hga].
  split; simpl; try done.
  - apply Hal.
  - by rewrite Hfg.
  - by rewrite Hfb, Hfe, Hla.
  - rewrite Hfb, Hfe. apply (rp_place _ _ _ _ Hrep).
  - rewrite Hfb, Hfe. intros x Hx. by apply Hrw, (rp_rw _ _ _ _ Hrep).
  - intros i l Hll. rewrite Hfl in Hll. rewrite Hfr by (unfold head_word; lia).
    apply (chain_same e); [|by apply (rp_chains _ _ _ _ Hrep)]. intros x Hx. apply Hfr.
    destruct (free_place e h ha ctrl Hrep i l x Hll Hx) as (_ & ? & ? & _). destruct (Hap x); lia.
Qed.

Lemma crt_heap_read s h ha ctrl e' : crt_heap s h ha ctrl → mem_inv e' → (∀ b, get64 e' b = get64 (cr_mem s) b) →
  (∀ x, mem_rw e' x ↔ mem_rw (cr_mem s) x) → crt_heap (with_crt_mem e' s) h ha ctrl.
Proof. intros Hs Hi Hg Hrw. eapply crt_heap_mem; [exact Hs| |done|done]. eapply represents_read; [apply Hs|done..]. Qed.
Lemma rep_same_live e h ha ctrl : represents e h ha ctrl → represents e (set_live (live ha) h) ha ctrl.
Proof. intros [H1 H2 H3 (H4a & H4b & H4c & H4d) H5 H6 H7 H8]. by split. Qed.

Lemma crt_heap_live s h ha ctrl : crt_heap s h ha ctrl → crt_heap s (set_live (live ha) h) ha ctrl.
Proof. intros [Hr Hl Hc Hn Hf]. split; try done. by apply rep_same_live. Qed.

(** The size of a live block lies in front of it; [x]: except for this one. *)
Definition headers s ha (x : option Z) : Prop := ∀ a z, live ha !! a = Some z → x ≠ Some a → get64 (cr_mem s) (a - 8) = z.
Lemma headers_read s ha x e' : (∀ b, get64 e' b = get64 (cr_mem s) b) → headers s ha x → headers (with_crt_mem e' s) ha x.
Proof. intros Hg Hh a z Ha Hx. cbn [with_crt_mem cr_mem]. rewrite Hg. by apply Hh. Qed.
(** Writes to the control block, to the first word of a block, and to the header of [x]. *)
Definition off_headers ha ctrl (x : option Z) (w : Z) : Prop :=
  (∃ n, w = ctrl + 8 * n ∧ 0 ≤ n < 25) ∨ payload_word ha w ∨ ∃ a, x = Some a ∧ payload_word ha a ∧ w = a - 8.
Lemma crt_write_headers s h ha ctrl w v x : represents (cr_mem s) h ha ctrl → word_rw (cr_mem s) w → in_u64 v →
  off_headers ha ctrl x w → headers s ha x → headers (crt_write_u64 w v s).1 ha x.
Proof.
  intros Hrep Hw Hv Hoff Hh a z Ha Hx. rewrite crt_write_spec by (done || apply Hrep). cbn [fst with_crt_mem cr_mem].
  destruct (write_u64_spec (cr_mem s) w v (rp_inv _ _ _ _ Hrep) Hw Hv) as (_ & _ & _ & Hfr).
  destruct (live_place (cr_mem s) h ha ctrl a z Hrep Ha) as ((Hm & Hlo & Hhi) & _). rewrite Hfr; [by apply Hh|].
  destruct Hoff as [(n & -> & Hn)|[Hp|(b & -> & (Hbm & Hb1 & Hb2) & ->)]].
  - destruct (ctrl_apart _ h ha ctrl (a - 8) n Hrep); lia.
  - destruct (header_apart ha a w Hm Hp); lia.
  - assert (a ≠ b) by congruence. pose proof (Z.div_mod a 16). pose proof (Z.div_mod b 16). lia.
Qed.
Lemma head_off ha ctrl x i : (i < 24)%nat → off_headers ha ctrl x (head_word ctrl i).
Proof. intros Hi. left. exists (1 + Z.of_nat i). unfold head_word. lia. Qed.
(** A block has become live and its header has been written. *)
Lemma headers_new s ha ha' a z : headers s ha None → live ha' = <[a := z]> (live ha) → headers s ha' (Some a).
Proof. intros Hh Hl b y Hb Hx. rewrite Hl, lookup_insert_ne in Hb by congruence. by apply Hh. Qed.
Lemma headers_done s ha a z : headers s ha (Some a) → live ha !! a = Some z → get64 (cr_mem s) (a - 8) = z → headers s ha None.
Proof. intros Hh Ha Hg b y Hb _. destruct (decide (b = a)) as [->|Hne]; [congruence|]. apply Hh; [done|congruence]. Qed.

(** What malloc does to it against what [alloc] does to [ha]. *)
Definition crt_allocates s h ctrl (out : Crt E * u64) (out' : GuestHeap * u64) : Prop :=
  out.2 = out'.2 ∧ crt_heap out.1 (set_live (live out'.1) h) out'.1 ctrl ∧ headers out.1 out'.1 None ∧
  large_list out.1 = large_list s ∧ console out.1 = console s.

Lemma crt_header s h ha ctrl a r : crt_heap s h ha ctrl → payload_word ha a → in_u64 r →
  let s' := (crt_write_u64 (wrapping_sub a 8) r s).1 in
  crt_heap s' h ha ctrl ∧ get64 (cr_mem s') (a - 8) = r ∧ (headers s ha (Some a) → headers s' ha (Some a)) ∧
  large_list s' = large_list s ∧ console s' = console s.
Proof.
  intros Hs Ha Hr. destruct (write_header _ h ha ctrl a r (ch_rep _ _ _ _ Hs) Ha Hr) as [Hrep Hget].
  destruct Ha as (Hm & Hlo & Hhi). pose proof (hw_range _ (rp_wf _ _ _ _ (ch_rep _ _ _ _ Hs))) as Hrange.
  assert (Hsub : wrapping_sub a 8 = a - 8) by (unfold wrapping_sub, wrap64; apply Z.mod_small; lia).
  assert (Hhv : header_va a = a - 8) by (unfold header_va, wrap64; apply Z.mod_small; lia).
  assert (Hword : word_rw (cr_mem s) (a - 8)).
  { split_and!; [lia..|]. intros x Hx. apply (rp_rw _ _ _ _ (ch_rep _ _ _ _ Hs)). right. lia. }
  rewrite Hhv in *. rewrite Hsub. pose proof (crt_write_headers s h ha ctrl (a - 8) r (Some a) (ch_rep _ _ _ _ Hs) Hword Hr) as Hh.
  rewrite crt_write_spec in * by (done || apply (ch_rep _ _ _ _ Hs)). split; [by eapply crt_heap_mem|]. split; [done|]. split; [|done].
  apply Hh. right. right. by exists a.
Qed.

(** The cursor, where neither heap comes near the end of the address space. *)
Lemma mask16_room x : 0 ≤ x → x + 15 < u64_lim → mask16 (x + 15) = (x + 15) / 16 * 16.
Proof. intros Hlo Hhi. apply mask16_spec. unfold in_u64. lia. Qed.
Lemma bump_alloc_room ha r : heap_wf ha → 16 ≤ r ≤ LARGE_THRESHOLD → hp_end ha + 65600 < u64_lim →
  bump_alloc r ha = if decide (hp_end ha < payload_of ha + r) then (ha, 0)
                    else (set_live (<[payload_of ha := r]> (live ha)) (set_bump (payload_of ha + r) ha), payload_of ha).
Proof.
  intros Hwf Hr Hroom. destruct (hw_range _ Hwf) as (Hb0 & Hbb & Hbe & _). unfold LARGE_THRESHOLD in Hr.
  unfold bump_alloc, checked_add. rewrite decide_True by lia. unfold wrap64. rewrite (Z.mod_small (bump ha + 8 + 15)) by lia.
  rewrite mask16_room by lia. unfold payload_of. replace (bump ha + 8 + 15) with (bump ha + 23) by lia.
  pose proof (Z.div_mod (bump ha + 23) 16). pose proof (Z.mod_pos_bound (bump ha + 23) 16).
  rewrite decide_False by lia. rewrite decide_True by lia. rewrite (bool_decide_eq_false_2 (_ < (bump ha + 23) / 16 * 16)) by lia.
  rewrite orb_false_r. by destruct (decide _) as [Hd|Hd]; [rewrite bool_decide_eq_true_2 by done|rewrite bool_decide_eq_false_2 by done].
Qed.

Lemma crt_bump_refines s h ha ctrl r : crt_heap s h ha ctrl → headers s ha None → block_size r → r ≤ LARGE_THRESHOLD →
  crt_allocates s h ctrl (crt_bump (cr_heap s) r s) (bump_alloc r ha).
Proof.
  intros Hs Hh Hr Hle. pose proof (ch_rep _ _ _ _ Hs) as Hrep. pose proof (rp_wf _ _ _ _ Hrep) as Hwf.
  pose proof (bump_alloc_spec ha r Hwf Hr) as Hspec. destruct Hr as (Hm & Hr & Hc). destruct (ch_room _ _ _ _ Hs) as [_ Hroom].
  destruct (hw_range _ Hwf) as (Hb0 & Hbb & Hbe & Hlim).
  destruct (crt_read_spec s ctrl (rp_inv _ _ _ _ Hrep) ltac:(by eapply bump_word)) as (e1 & Hrd & Hi1 & Hg1 & Hrw1).
  pose proof (crt_heap_read s h ha ctrl e1 Hs Hi1 Hg1 Hrw1) as Hs1. pose proof (headers_read s ha None e1 Hg1 Hh) as Hh1.
  rewrite (bump_alloc_room ha r Hwf ltac:(lia) Hroom) in *. unfold crt_bump. rewrite (ch_layout _ _ _ _ Hs). cbn [ctrl_va hl_base hl_end].
  rewrite Hrd. rewrite (rp_bump _ _ _ _ Hrep). rewrite decide_False by lia. unfold wrapping_add, wrap64, LARGE_THRESHOLD in *.
  rewrite (Z.mod_small (bump ha + 8)), (Z.mod_small (bump ha + 8 + 15)), mask16_room by lia.
  replace (bump ha + 8 + 15) with (bump ha + 23) by lia. fold (payload_of ha).
  assert (Hpay : bump ha + 8 ≤ payload_of ha ≤ bump ha + 23).
  { unfold payload_of. pose proof (Z.div_mod (bump ha + 23) 16). pose proof (Z.mod_pos_bound (bump ha + 23) 16). lia. }
  rewrite (Z.mod_small (payload_of ha + r)) by lia.
  rewrite (bool_decide_eq_false_2 (payload_of ha < hp_base ha)), (bool_decide_eq_false_2 (payload_of ha + r < payload_of ha)) by lia.
  rewrite orb_false_r. cbn [orb]. destruct (decide (hp_end ha < payload_of ha + r)) as [Hno|Hyes].
  { rewrite bool_decide_eq_true_2 by done. split; [done|]. split; [by apply crt_heap_live|done]. }
  rewrite bool_decide_eq_false_2 by done. destruct Hspec as [(Hz & _)|[Hpos Hal]]; [lia|].
  set (ha' := set_live _ _) in *. pose proof (cursor_refines _ h ha ha' ctrl _ r (ch_rep _ _ _ _ Hs1) Hal eq_refl eq_refl) as Hcur.
  assert (Hw : word_rw (cr_mem (with_crt_mem e1 s)) ctrl) by (eapply bump_word, Hs1). assert (Hv : in_u64 (payload_of ha + r)) by (unfold in_u64; lia).
  pose proof (crt_write_headers _ h ha ctrl ctrl _ None (ch_rep _ _ _ _ Hs1) Hw Hv ltac:(left; exists 0; lia) Hh1) as Hh2.
  rewrite crt_write_spec in * by (done || apply Hs1). cbn [fst] in Hh2.
  pose proof (crt_heap_mem _ _ _ _ _ _ _ Hs1 Hcur eq_refl eq_refl) as Hs2.
  destruct (crt_header _ _ ha' ctrl (payload_of ha) r Hs2) as (Hs3 & Hget & Hh3 & Hl & Hco);
    [split; [apply Hal|cbn; lia]|unfold in_u64; lia|].
  split; [done|]. split; [exact Hs3|]. split; [|done]. eapply headers_done; [|apply lookup_insert_eq|exact Hget].
  apply Hh3. by eapply headers_new.
Qed.

(** ** malloc *)

Lemma crt_pop_refines s h ha ctrl size a rest : crt_heap s h ha ctrl → headers s ha None → block_size size → size ≤ LARGE_THRESHOLD →
  free_lists ha !! size_class_index size = Some (a :: rest) →
  let hva := head_word ctrl (size_class_index size) in
  let s' := (crt_write_u64 (wrapping_sub a 8) size (crt_write_u64 hva (get64 (cr_mem s) a) s).1).1 in
  (crt_write_u64 hva (get64 (cr_mem s) a) s).2 = true ∧
  crt_allocates s h ctrl (s', a)
    (set_live (<[a := size]> (live ha)) (set_free_lists (<[size_class_index size := rest]> (free_lists ha)) ha), a).
Proof.
  intros Hs Hh Hb Hle Hl hva. pose proof (ch_rep _ _ _ _ Hs) as Hrep. pose proof (rp_wf _ _ _ _ Hrep) as Hwf.
  pose proof (proj2 (proj2 Hb) Hle) as Hc. destruct (class_size_spec _ _ Hc) as (Hi & _).
  pose proof (pop_refines (cr_mem s) h ha ctrl _ size a rest Hrep Hc Hl Hb) as Hpop.
  destruct (pop_class_spec ha _ size a rest Hwf Hc Hb Hl) as [_ Hal]. destruct (rp_same _ _ _ _ Hrep) as (_ & _ & _ & Hli).
  destruct (ctrl_word (cr_mem s) h ha ctrl Hrep _ Hi) as [_ Hword].
  assert (Hnext : in_u64 (get64 (cr_mem s) a)).
  { pose proof (rp_chains _ _ _ _ Hrep _ _ Hl) as [_ Hch]. destruct rest as [|y rest]; simpl in Hch; [by rewrite Hch|].
    destruct Hch as [-> _]. destruct (free_place (cr_mem s) h ha ctrl Hrep _ _ y Hl) as (_ & ? & ? & _); [set_solver|].
    pose proof (hw_range _ Hwf). unfold in_u64. lia. }
  subst hva. pose proof (crt_write_headers s h ha ctrl _ _ None Hrep Hword Hnext (head_off _ _ _ _ Hi) Hh) as Hh2. revert Hh2.
  rewrite (crt_write_spec s (head_word ctrl _)) by (done || apply Hrep). cbn [fst snd]. intros Hh2. split; [done|]. rewrite Hli in Hpop.
  pose proof (crt_heap_mem _ _ _ _ _ _ _ Hs Hpop eq_refl eq_refl) as Hs2.
  destruct (al_block _ _ _ _ Hal) as (Ha1 & Ha2 & Ha3). destruct Hb as (_ & Hr & _).
  destruct (crt_header _ _ _ ctrl a size Hs2) as (Hs3 & Hget & Hh3 & Hlg & Hco); [split_and!; simpl; [done|lia|lia]|unfold in_u64; lia|].
  split; [done|]. split; [exact Hs3|]. split; [|done]. eapply headers_done; [|apply lookup_insert_eq|exact Hget].
  apply Hh3. by eapply headers_new.
Qed.

(** malloc of a size of a class. *)
Lemma crt_malloc_holds s h ha ctrl size : crt_heap s h ha ctrl → headers s ha None → 0 ≤ size ≤ LARGE_THRESHOLD →
  crt_allocates s h ctrl (wie_ucrt_malloc size s) (alloc size ha).
Proof.
  intros Hs Hh Hsize. pose proof (ch_rep _ _ _ _ Hs) as Hrep. pose proof (rp_wf _ _ _ _ Hrep) as Hwf. unfold wie_ucrt_malloc.
  rewrite (ch_fault _ _ _ _ Hs), (decide_False (P := 0 ≠ 0)) by (intros Hn; by apply Hn).
  destruct (decide (size = 0)) as [->|Hz]; [split; [done|]; split; [by apply crt_heap_live|done]|].
  destruct (ch_room _ _ _ _ Hs) as [Hlt Hroom]. destruct (hw_range _ Hwf) as (Hb0 & Hbb & Hbe & _).
  rewrite (ch_layout _ _ _ _ Hs). cbn [ctrl_va hl_base hl_end].
  rewrite decide_False by (pose proof (ch_ctrl _ _ _ _ Hs); lia). unfold LARGE_THRESHOLD in Hsize.
  rewrite crt_round_up_same by (unfold in_u64; lia).
  assert (Hr0 : round_up_size size ≠ 0 ∧ round_up_size size ≤ LARGE_THRESHOLD).
  { destruct (round_up_spec size ltac:(lia)) as [[_ Hbad]|(Hr1 & _ & Hr2 & Hr3 & _)]; [lia|]. split; [lia|]. apply Hr3. unfold LARGE_THRESHOLD. lia. }
  destruct Hr0 as [Hr0 Hrl]. destruct (round_up_block_size size ltac:(lia) Hr0) as [_ Hbs]. rewrite (alloc_small ha size Hz Hr0 Hrl).
  set (r := round_up_size size) in *. rewrite decide_False by done. change CRT_LARGE_THRESHOLD with LARGE_THRESHOLD.
  rewrite decide_False by lia. rewrite crt_head_same, crt_class_same.
  pose proof (proj2 (proj2 Hbs) Hrl) as Hc. destruct (class_size_spec _ _ Hc) as (Hi & _).
  destruct (ctrl_word (cr_mem s) h ha ctrl Hrep _ Hi) as [-> Hword].
  destruct (crt_read_spec s _ (rp_inv _ _ _ _ Hrep) Hword) as (e1 & -> & Hi1 & Hg1 & Hrw1).
  pose proof (crt_heap_read s h ha ctrl e1 Hs Hi1 Hg1 Hrw1) as Hs1. pose proof (headers_read s ha None e1 Hg1 Hh) as Hh1. set (s1 := with_crt_mem e1 s) in *.
  destruct (lookup_lt_is_Some_2 (free_lists ha) (size_class_index r)) as [l Hl]; [by rewrite (hw_classes _ Hwf)|].
  pose proof (rp_chains _ _ _ _ Hrep _ _ Hl) as Hch. rewrite Hl. destruct l as [|a rest]; simpl in Hch.
  - rewrite Hch. rewrite bool_decide_eq_false_2 by (intros Hn; by apply Hn). cbn [andb].
    rewrite <- (ch_layout _ _ _ _ Hs). exact (crt_bump_refines s1 h ha ctrl r Hs1 Hh1 Hbs Hrl).
  - destruct Hch as [-> _]. destruct (free_place (cr_mem s) h ha ctrl Hrep _ _ a Hl) as (_ & Ha1 & Ha2 & Haw); [by left|].
    rewrite !bool_decide_eq_true_2 by lia. cbn [andb].
    destruct (crt_read_spec s1 a) as (e2 & -> & Hi2 & Hg2 & Hrw2); [apply Hs1| |].
    { destruct Haw as (Hw1 & Hw2 & Hw3). split_and!; [done..|]. intros x Hx. by apply Hrw1, Hw3. }
    pose proof (crt_heap_read s1 h ha ctrl e2 Hs1 Hi2 Hg2 Hrw2) as Hs2. pose proof (headers_read s1 ha None e2 Hg2 Hh1) as Hh2. set (s2 := with_crt_mem e2 s1) in *. cbn [default].
    destruct (crt_pop_refines s2 h ha ctrl r a rest Hs2 Hh2 Hbs Hrl Hl) as [Hok Hres].
    assert (Hga : get64 (cr_mem s2) a = get64 (cr_mem s1) a) by apply Hg2. rewrite Hga in Hok, Hres.
    destruct (crt_write_u64 (head_word ctrl _) _ s2) as [s3 ok]. cbn [fst snd] in Hok, Hres. subst ok. exact Hres.
Qed.

(** ** free *)

(** The block is linked in front of the chain of its class. *)
Lemma crt_push_refines s h ha ctrl a size : crt_heap s h ha ctrl → headers s ha (Some a) → live ha !! a = Some size → size ≤ LARGE_THRESHOLD →
  let hva := head_word ctrl (size_class_index size) in
  let s' := (crt_write_u64 hva a (crt_write_u64 a (get64 (cr_mem s) hva) s).1).1 in
  crt_heap s' (set_live (delete a (live ha)) h) (released_block ha a size) ctrl ∧ headers s' (released_block ha a size) None ∧
  large_list s' = large_list s ∧ console s' = console s.
Proof.
  intros Hs Hh Ha Hle hva. pose proof (ch_rep _ _ _ _ Hs) as Hrep. pose proof (rp_wf _ _ _ _ Hrep) as Hwf.
  destruct (hw_live _ Hwf a size Ha) as (_ & _ & Hc). specialize (Hc Hle). destruct (class_size_spec _ _ Hc) as (Hi & _).
  destruct (live_place (cr_mem s) h ha ctrl a size Hrep Ha) as (Hpay & Haw & Hau & _).
  destruct (write_link (cr_mem s) h ha ctrl a size _ Hrep Ha (head_in_u64 (cr_mem s) h ha ctrl _ Hrep Hi)) as (Hrep2 & Hlink & Hheads).
  pose proof (crt_write_headers s h ha ctrl a _ (Some a) Hrep Haw (head_in_u64 (cr_mem s) h ha ctrl _ Hrep Hi) ltac:(right; by left) Hh) as Hh2.
  fold hva in Hh2, Hrep2, Hlink. rewrite (crt_write_spec s a) in * by (apply Hrep || done || by apply (head_in_u64 (cr_mem s) h ha ctrl)). cbn [fst] in *.
  pose proof (crt_heap_mem _ _ _ _ _ _ _ Hs Hrep2 eq_refl eq_refl) as Hs2. set (s2 := with_crt_mem _ s) in *.
  destruct (ctrl_word (cr_mem s2) h ha ctrl Hrep2 _ Hi) as [_ Hword].
  pose proof (push_refines (cr_mem s2) h ha ctrl a size Hrep2 Ha Hle) as Hpush. change (cr_mem s2) with (write_u64 a (get64 (cr_mem s) hva) (cr_mem s)) in Hpush at 1 2.
  rewrite Hheads in Hpush by done. specialize (Hpush Hlink). destruct (rp_same _ _ _ _ Hrep) as (_ & _ & _ & Hli). rewrite Hli in Hpush.
  pose proof (crt_write_headers s2 h ha ctrl hva a (Some a) Hrep2 Hword Hau (head_off _ _ _ _ Hi) Hh2) as Hh3.
  rewrite (crt_write_spec s2 hva) in * by (apply Hrep2 || done). cbn [fst] in *. split; [|split; [|done]].
  - eapply crt_heap_mem; [exact Hs2|exact Hpush| |]; unfold released_block; by destruct (decide _).
  - assert (Hlive : live (released_block ha a size) = delete a (live ha)) by (unfold released_block; by destruct (decide _)).
    intros b y Hb _. rewrite Hlive in Hb. apply lookup_delete_Some in Hb as [Hne Hb]. apply Hh3; [done|congruence].
Qed.

Lemma crt_free_holds s h ha ctrl a size : crt_heap s h ha ctrl → headers s ha None → live ha !! a = Some size → size ≤ LARGE_THRESHOLD →
  let s' := wie_ucrt_free a s in
  free a ha = (released_block ha a size, true) ∧ crt_heap s' (set_live (delete a (live ha)) h) (released_block ha a size) ctrl ∧
  headers s' (released_block ha a size) None ∧ large_list s' = large_list s ∧ console s' = console s.
Proof.
  intros Hs Hh Ha Hle. pose proof (Hh a size Ha ltac:(done)) as Hhd. pose proof (ch_rep _ _ _ _ Hs) as Hrep. pose proof (rp_wf _ _ _ _ Hrep) as Hwf.
  destruct (hw_live _ Hwf a size Ha) as (Hm & Hsz & Hc). specialize (Hc Hle). destruct (class_size_spec _ _ Hc) as (Hi & _).
  destruct (live_place (cr_mem s) h ha ctrl a size Hrep Ha) as (Hpay & Haw & Hau & Ha0). pose proof Hpay as (Hpm & Hplo & Hphi).
  destruct (hw_range _ Hwf) as (Hb0 & Hbb & Hbe & Hlim).
  assert (Hfree : free a ha = (released_block ha a size, true)).
  { unfold free, released_block. rewrite decide_False by lia. rewrite Ha. by destruct (decide (size ≤ LARGE_THRESHOLD)). }
  split; [done|]. unfold wie_ucrt_free. rewrite (ch_fault _ _ _ _ Hs), (ch_layout _ _ _ _ Hs). cbn [ctrl_va hl_base hl_end].
  rewrite decide_False by lia. rewrite decide_False by (apply (ch_ctrl _ _ _ _ Hs)). rewrite decide_False by lia.
  assert (Hsub : wrapping_sub a 8 = a - 8) by (unfold wrapping_sub, wrap64; apply Z.mod_small; lia).
  assert (Hhw : word_rw (cr_mem s) (a - 8)).
  { split_and!; [lia..|]. intros x Hx. apply (rp_rw _ _ _ _ Hrep). right. lia. }
  destruct (crt_read_spec s (a - 8) (rp_inv _ _ _ _ Hrep) Hhw) as (e1 & Hrd & Hi1 & Hg1 & Hrw1). assert (Hrd2 : crt_read_u64 (wrapping_sub a 8) s = (with_crt_mem e1 s, Some size)) by (by rewrite Hsub, Hrd, Hhd). rewrite !Hrd2.
  pose proof (crt_heap_read s h ha ctrl e1 Hs Hi1 Hg1 Hrw1) as Hs1. rewrite decide_False by lia. change CRT_LARGE_THRESHOLD with LARGE_THRESHOLD.
  rewrite (decide_False (P := LARGE_THRESHOLD < size)) by lia. rewrite crt_head_same, crt_class_same.
  destruct (crt_header _ h ha ctrl a 0 Hs1 Hpay ltac:(done)) as (Hs2 & _ & Hh2 & Hl2 & Hc2).
  specialize (Hh2 ltac:(intros b y Hb _; by apply (headers_read s ha None e1 Hg1 Hh))).
  set (s2 := (crt_write_u64 (wrapping_sub a 8) 0 (with_crt_mem e1 s)).1) in *.
  destruct (ctrl_word (cr_mem s2) h ha ctrl (ch_rep _ _ _ _ Hs2) _ Hi) as [-> Hword].
  destruct (crt_read_spec s2 _ (rp_inv _ _ _ _ (ch_rep _ _ _ _ Hs2)) Hword) as (e3 & -> & Hi3 & Hg3 & Hrw3).
  pose proof (crt_heap_read s2 h ha ctrl e3 Hs2 Hi3 Hg3 Hrw3) as Hs3. cbn [default].
  destruct (crt_push_refines _ h ha ctrl a size Hs3 (headers_read _ _ _ _ Hg3 Hh2) Ha Hle) as (Hs4 & Hh4 & Hl4 & Hc4).
  cbn [cr_mem with_crt_mem] in Hs4, Hh4, Hl4, Hc4. rewrite Hg3 in Hs4, Hh4, Hl4, Hc4.
  split; [exact Hs4|]. split; [exact Hh4|]. split; [etrans; [exact Hl4|exact Hl2]|etrans; [exact Hc4|exact Hc2]].
Qed.

(** ** A program's calls *)

Inductive CrtCall := CallMalloc (size : u64) | CallFree (ptr : u64).
(** [true]: the result is an address. *)
Definition crt_call (c : CrtCall) (s : Crt E) : Crt E * u64 :=
  match c with CallMalloc size => wie_ucrt_malloc size s | CallFree ptr => (wie_ucrt_free ptr s, 0) end.
Definition heap_call (c : CrtCall) (ha : GuestHeap) : GuestHeap * u64 :=
  match c with CallMalloc size => alloc size ha | CallFree ptr => ((free ptr ha).1, 0) end.
(** A size of a class; a live block of such a size. *)
Definition call_ok (c : CrtCall) (ha : GuestHeap) : Prop :=
  match c with
  | CallMalloc size => 0 ≤ size ≤ LARGE_THRESHOLD
  | CallFree ptr => ∃ size, live ha !! ptr = Some size ∧ size ≤ LARGE_THRESHOLD
  end.
Fixpoint crt_run (cs : list CrtCall) (s : Crt E) : Crt E * list u64 :=
  match cs with [] => (s, []) | c :: cs => let '(s, a) := crt_call c s in let '(s, l) := crt_run cs s in (s, a :: l) end.
Fixpoint heap_run (cs : list CrtCall) (ha : GuestHeap) : GuestHeap * list u64 :=
  match cs with [] => (ha, []) | c :: cs => let '(ha, a) := heap_call c ha in let '(ha, l) := heap_run cs ha in (ha, a :: l) end.
Fixpoint calls_ok (cs : list CrtCall) (ha : GuestHeap) : Prop :=
  match cs with [] => True | c :: cs => call_ok c ha ∧ calls_ok cs (heap_call c ha).1 end.

Lemma crt_call_holds c s h ha ctrl : crt_heap s h ha ctrl → headers s ha None → call_ok c ha →
  let '(s', a) := crt_call c s in let '(ha', a') := heap_call c ha in
  a = a' ∧ crt_heap s' (set_live (live ha') h) ha' ctrl ∧ headers s' ha' None ∧ large_list s' = large_list s ∧ console s' = console s.
Proof.
  intros Hs Hh Hc. destruct c as [size|ptr]; cbn [crt_call heap_call call_ok] in *.
  - pose proof (crt_malloc_holds s h ha ctrl size Hs Hh Hc) as Hm. unfold crt_allocates in Hm.
    destruct (wie_ucrt_malloc size s) as [s' a], (alloc size ha) as [ha' a']. exact Hm.
  - destruct Hc as (size & Ha & Hle). destruct (crt_free_holds s h ha ctrl ptr size Hs Hh Ha Hle) as (-> & Hs' & Hh' & Hl' & Hc').
    cbn [fst]. split; [done|]. split; [|done].
    assert (Hlive : live (released_block ha ptr size) = delete ptr (live ha)) by (unfold released_block; by destruct (decide _)).
    by rewrite Hlive.
Qed.

(** C15 malloc and free of a compiled block are the allocator of the
    process heap: run any sequence of them, for sizes that have a class and live
    blocks, over a guest memory whose control block and chains stand for a heap; the
    addresses are those the same calls of [alloc] and [free] return on that heap, the
    memory stands for the heap they leave (so a handler of HeapAlloc or HeapFree may
    go on from there, once it knows the live blocks), and every live block keeps its
    size in front of it. *)
Theorem crt_heap_refines cs s h ha ctrl :
  crt_heap s h ha ctrl → headers s ha None → calls_ok cs ha →
  let '(s', results) := crt_run cs s in let '(ha', results') := heap_run cs ha in
  results = results' ∧ represents (cr_mem s') (set_live (live ha') h) ha' ctrl ∧ headers s' ha' None ∧
  large_list s' = large_list s ∧ jf_fault (cr_fault s') = 0.
Proof.
  revert s h ha. induction cs as [|c cs IH]; intros s h ha Hs Hh Hc; cbn [crt_run heap_run].
  { split; [done|]. split; [apply rep_same_live, Hs|]. split; [done|]. split; [done|apply Hs]. }
  destruct Hc as [Hc Hcs]. pose proof (crt_call_holds c s h ha ctrl Hs Hh Hc) as Hone.
  destruct (crt_call c s) as [s1 a], (heap_call c ha) as [ha1 a']. destruct Hone as (-> & Hs1 & Hh1 & Hl1 & _).
  specialize (IH s1 _ ha1 Hs1 Hh1 Hcs). destruct (crt_run cs s1) as [s2 l], (heap_run cs ha1) as [ha2 l'].
  destruct IH as (-> & Hrep & Hh2 & Hl2 & Hf). split; [done|]. split; [exact Hrep|]. split; [done|]. split; [congruence|done].
Qed.
End Same.

(** ** Copying and measuring *)

Section Bytes.
Context {E : Type} `{CpuMemLaws E}.
Implicit Types (s : Crt E).

Definition same_bytes s s' : Prop :=
  mem_inv (cr_mem s') ∧ (∀ x, mem_get (cr_mem s') x = mem_get (cr_mem s) x) ∧ ∀ x, mem_rw (cr_mem s') x ↔ mem_rw (cr_mem s) x.

(** The length of a string that ends within the first million bytes. *)
Lemma strlen_measures s a k : mem_inv (cr_mem s) → jf_fault (cr_fault s) = 0 → 0 < a → a + k + 1 < u64_lim → 0 ≤ k ≤ STRLEN_MAX →
  (∀ x, a ≤ x ≤ a + k → mem_rw (cr_mem s) x) → (∀ x, a ≤ x < a + k → ∃ b, mem_get (cr_mem s) x = Some b ∧ b ≠ 0) →
  mem_get (cr_mem s) (a + k) = Some 0 → (wie_ucrt_strlen a s).2 = Ok k.
Proof.
  intros Hi Hf Ha Hlim Hk Hrw Hnz Hz. unfold wie_ucrt_strlen. rewrite decide_False by lia.
  apply (loopM_rule (strlen_body a) (λ len s', same_bytes s s' ∧ 0 ≤ len ≤ k) (λ _ r, r = Ok k) (λ len, STRLEN_MAX + 1 - len));
    [|split; [done|lia]|unfold STRLEN_MAX, fuel_of; lia].
  intros len s' ((Hi' & Hg & Hr) & Hlen). unfold strlen_body, wrapping_add, wrap64. rewrite (Z.mod_small (a + len)) by lia.
  destruct (mem_read_ok (cr_mem s') (a + len) 1 Hi') as (e & bs & -> & Hi2 & Hg2 & Hr2 & Hl & Hb); [lia|lia|intros x Hx; apply Hr, Hrw; lia|].
  rewrite (Hb 0%nat) by lia. rewrite Hg, Z.add_0_r. unfold sat_add. rewrite Z.min_l by (unfold STRLEN_MAX in *; lia).
  destruct (decide (len = k)) as [->|Hne].
  - rewrite Hz. done.
  - destruct (Hnz (a + len)) as (b & -> & Hb0); [lia|]. cbn [default]. rewrite decide_False by done. rewrite decide_False by lia.
    split; [|lia]. split; [|lia]. split_and!; [done|intros x; cbn; by rewrite Hg2|intros x; cbn; by rewrite Hr2].
Qed.

(** Ranges that do not meet: the bytes of the source arrive, nothing else changes. *)
Definition copied s (dest src n : Z) (e : E) : Prop := ∀ x, mem_get e x = if decide (dest ≤ x < dest + n) then mem_get (cr_mem s) (x - dest + src) else mem_get (cr_mem s) x.
Lemma memcpy_copies s dest src n : mem_inv (cr_mem s) → jf_fault (cr_fault s) = 0 → 0 < dest → 0 < src → 0 < n →
  dest + n < u64_lim → src + n < u64_lim → dest + n ≤ src ∨ src + n ≤ dest →
  (∀ x, dest ≤ x < dest + n ∨ src ≤ x < src + n → mem_rw (cr_mem s) x) →
  ∃ s', wie_ucrt_memcpy dest src n s = (s', Ok dest) ∧ copied s dest src n (cr_mem s') ∧ jf_fault (cr_fault s') = 0.
Proof.
  intros Hi Hf Hd Hs Hn Hdl Hsl Hap Hrw. unfold wie_ucrt_memcpy. rewrite Hf, decide_False by (intros Hx; by apply Hx). rewrite decide_False by lia.
  pose (I := λ (x : u64 * u64 * Z) (s' : Crt E), let '(d, sr, todo) := x in
    mem_inv (cr_mem s') ∧ (∀ x, mem_rw (cr_mem s') x ↔ mem_rw (cr_mem s) x) ∧ 0 ≤ todo ≤ n ∧ d = dest + (n - todo) ∧ sr = src + (n - todo) ∧
    copied s dest src (n - todo) (cr_mem s') ∧ jf_fault (cr_fault s') = 0).
  pose proof (loopM_rule memcpy_body I (λ s' r, r = Ok tt ∧ copied s dest src n (cr_mem s') ∧ jf_fault (cr_fault s') = 0) snd
    (fuel_of n) (dest, src, n) s) as Hloop. unfold mbind, M_bind. destruct (loopM _ _ _ _) as [s' r].
  destruct Hloop as (Hres & Hc & Hf'); [|split_and!; try done; try lia; [intros x; rewrite decide_False by lia; done]|cbn; split; [lia|apply fuel_of_spec; lia]|cbn in Hres, Hc, Hf'; rewrite Hres; by exists s'].
  clear s' r. intros [[d sr] todo] s' (Hi' & Hr' & Htodo & -> & -> & Hc & Hf'). unfold memcpy_body.
  destruct (decide (todo ≤ 0)) as [Hz|Hpos].
  { split; [done|]. split; [|done]. intros x. rewrite Hc. replace (n - todo) with n by lia. done. }
  set (chunk := Z.min todo CRT_CHUNK). assert (Hch : 0 < chunk ≤ todo) by (unfold chunk, CRT_CHUNK; lia).
  destruct (mem_read_ok (cr_mem s') (src + (n - todo)) (Z.to_nat chunk) Hi') as (e & bs & -> & Hi2 & Hg2 & Hr2 & Hl & Hb);
    [lia|lia|intros x Hx; apply Hr', Hrw; lia|].
  destruct (mem_write_ok e (dest + (n - todo)) bs Hi2) as (e' & -> & Hi3 & Hr3 & Hg3); [lia|lia|intros x Hx; apply Hr2, Hr', Hrw; lia|].
  unfold wrapping_add, wrap64. rewrite !Z.mod_small by lia. split; [|cbn; lia]. split_and!; try done; try lia.
  - intros x. cbn. by rewrite Hr3, Hr2.
  - intros x. cbn [with_crt_mem cr_mem]. rewrite Hg3, Hg2. destruct (decide (_ ≤ x < _)) as [Hx|Hx].
    + rewrite decide_True by lia. rewrite Hb by lia. rewrite Hc, decide_False by lia. f_equal. lia.
    + rewrite Hc. destruct (decide _), (decide _); lia || done.
Qed.
End Bytes.

(** ** A concrete heap *)

#[local] Existing Instance demo_os.
#[local] Existing Instance demo_laws.

Definition crt_state : Crt GuestMemory := mkCrt no_fault heap_mem (mkLayout demo_ctrl heap_coherent.demo_base demo_end) [] [].
Definition crt_calls : list CrtCall := [CallMalloc 100; CallMalloc 20; CallFree 0x100001010; CallMalloc 120].

(** The block that was freed is given again to a size of its class. *)
Lemma crt_heap_refines_witness :
  calls_ok crt_calls host_heap ∧
  let '(s', results) := crt_run crt_calls crt_state in
  results = [0x100001010; 0x1000010a0; 0; 0x100001010] ∧ get64 (cr_mem s') 0x100001008 = 128 ∧ jf_fault (cr_fault s') = 0.
Proof.
  assert (Hok : calls_ok crt_calls host_heap).
  { split; [by vm_compute|]. split; [by vm_compute|]. split; [|split; [by vm_compute|done]]. exists 128. by vm_compute. }
  split; [exact Hok|].
  assert (Hs : crt_heap crt_state shared_heap host_heap demo_ctrl).
  { split; [exact shared_heap_represents|done|discriminate|by vm_compute|done]. }
  pose proof (crt_heap_refines crt_calls crt_state shared_heap host_heap demo_ctrl Hs ltac:(intros a z Ha; change ((∅ : gmap Z u64) !! a = Some z) in Ha; by rewrite lookup_empty in Ha) Hok) as Hrun.
  assert (Hl : (heap_run crt_calls host_heap).2 = [0x100001010; 0x1000010a0; 0; 0x100001010]) by (vm_compute; reflexivity).
  assert (Hv : live (heap_run crt_calls host_heap).1 !! 0x100001010 = Some 128) by (vm_compute; reflexivity).
  destruct (crt_run crt_calls crt_state) as [s' results], (heap_run crt_calls host_heap) as [ha' results'].
  destruct Hrun as (-> & _ & Hh & _ & Hf). cbn [fst snd] in Hl, Hv. split; [exact Hl|]. split; [|exact Hf]. exact (Hh _ _ Hv ltac:(discriminate)).
Defined.
