(* ===== verification/exception.v ===== *)
(** * Exception tables and unwinding (crates/wie-winapi/src/exception.rs)

    RUNTIME_FUNCTION tables, UNWIND_INFO, the reversal of a prologue, and the
    search of an Itanium LSDA for a landing pad.  The reads of guest memory go
    through a callback, here a function from address and length to bytes. *)

From S2P Require Import Prelude regs insn sync_obj.

(** [Err(())], and the [None] a [?] returns early with. *)
Definition unit_err : CpuError := Message "()".
Definition failed {A} : res A := Err unit_err.
Definition some_or {A} (o : option A) : res A := ok_or o unit_err.
(** An [Option] or [Result] that is examined instead of returned. *)
Definition attempt {A} (r : res A) : res (option A) :=
  match r with Ok a => Ok (Some a) | Err _ => Ok None | Abort w => Abort w end.

(** [bytes.get(offset..offset + n)]. *)
Definition get_range (bytes : list u8) (offset n : nat) : option (list u8) :=
  if decide (offset + n ≤ length bytes)%nat then Some (take n (drop offset bytes)) else None.

Definition byte_of (bs : list u8) (i : nat) : u8 := default 0 (bs !! i).

(** ** RUNTIME_FUNCTION *)

Definition RuntimeFunction_SIZE : nat := 12.

Definition rf_from_bytes (bytes : list u8) (offset : nat) : option RuntimeFunction :=
  b ← get_range bytes offset 12;
  Some (mkRuntimeFunction (le_val (take 4 b)) (le_val (take 4 (drop 4 b))) (le_val (take 4 (drop 8 b)))).

Definition begin_va (e : RuntimeFunction) (image_base : u64) : u64 := sat_add image_base (begin_address e).
Definition end_va (e : RuntimeFunction) (image_base : u64) : u64 := sat_add image_base (end_address e).
Definition covers (e : RuntimeFunction) (va image_base : u64) : bool :=
  bool_decide (begin_va e image_base ≤ va) && bool_decide (va < end_va e image_base).

(** ** UNWIND_INFO *)

Record UnwindInfo := mkInfo {
  version : u8;
  flags : u8;
  size_of_prolog : u8;
  count_of_codes : u8;
  frame_register : u8;
  frame_offset : u8;
}.

Definition FLAG_EHANDLER : u8 := 1.
Definition FLAG_NHANDLER : u8 := 0.
Definition FLAG_UHANDLER : u8 := 2.
Definition FLAG_CHAININFO : u8 := 4.

Definition info_from_bytes (bytes : list u8) (offset : nat) : option UnwindInfo :=
  b ← get_range bytes offset 4;
  Some (mkInfo (Z.land (byte_of b 0) 0x07) (Z.shiftr (byte_of b 0) 3) (byte_of b 1) (byte_of b 2)
    (Z.land (byte_of b 3) 0x0f) (Z.land (Z.shiftr (byte_of b 3) 4) 0x0f)).

Definition header_size (i : UnwindInfo) : usize :=
  let codes := count_of_codes i * 2 in
  let unpadded := 4 + codes in
  Z.land (unpadded + 3) (not_u 64 3).

Definition total_size (i : UnwindInfo) : usize :=
  let base := header_size i in
  if decide (Z.land (flags i) (Z.lor FLAG_EHANDLER FLAG_UHANDLER) ≠ 0) then base + 8 else base.

Record UnwindCode := mkCode { code_offset : u8; unwind_op : u8; op_info : u8 }.
Definition UnwindCode_SIZE : nat := 2.

Definition code_from_bytes (bytes : list u8) (offset : nat) : option UnwindCode :=
  b ← get_range bytes offset 2;
  Some (mkCode (byte_of b 0) (Z.land (byte_of b 1) 0x0f) (Z.land (Z.shiftr (byte_of b 1) 4) 0x0f)).

Module uwop.
Definition PUSH_NONVOL : u8 := 0.
Definition ALLOC_LARGE : u8 := 1.
Definition ALLOC_SMALL : u8 := 2.
Definition SET_FPREG : u8 := 3.
Definition SAVE_NONVOL : u8 := 4.
Definition SAVE_NONVOL_FAR : u8 := 5.
Definition SAVE_XMM128 : u8 := 6.
Definition SAVE_XMM128_FAR : u8 := 7.
Definition PUSH_MACHFRAME : u8 := 8.
End uwop.

(** ** Function tables *)

(** [slice::binary_search_by_key]: [inl] the index of a match, [inr] where the key
    would be inserted. *)
Definition bsearch_step (keys : list Z) (key : Z) (s : nat * nat) : nat * nat + res (nat + nat) :=
  let '(base, size) := s in
  if decide (1 < size)%nat then
    let half := (size / 2)%nat in
    let mid := (base + half)%nat in
    inl (if decide (key < default 0 (keys !! mid)) then base else mid, (size - half)%nat)
  else
    inr (Ok (let k := default 0 (keys !! base) in
             if decide (k = key) then inl base
             else inr (if decide (k < key) then S base else base))).
Definition binary_search (keys : list Z) (key : Z) : res (nat + nat) :=
  match keys with
  | [] => Ok (inr 0%nat)
  | _ => run_loop (fuel_of (Z.of_nat (length keys))) (bsearch_step keys key) (0%nat, length keys)
  end.

Record FunctionEntry := mkEntry { fe_entry : RuntimeFunction; fe_image_base : u64 }.

(** One module's table: what the loop body does for it. *)
Definition lookup_in_table (image_base : u64) (entries : list RuntimeFunction) (control_pc : u64)
    : res (option FunctionEntry) :=
  match entries !! 0%nat, last entries with
  | Some first, Some last =>
      if decide (control_pc < begin_va first image_base ∨ end_va last image_base ≤ control_pc) then Ok None
      else
        let key := as_u 32 (control_pc - image_base) in
        r ← binary_search (begin_address <$> entries) key;
        match r with
        | inl i => Ok ((λ e, mkEntry e image_base) <$> entries !! i)
        | inr 0%nat => Ok None
        | inr (S i) =>
            match entries !! i with
            | Some candidate =>
                if decide (control_pc - image_base < end_address candidate)
                then Ok (Some (mkEntry candidate image_base)) else Ok None
            | None => Abort Panic
            end
        end
  | _, _ => Ok None
  end.

(** The modules in the order the hash map yields them. *)
Fixpoint lookup_in_tables (tables : list (u64 * list RuntimeFunction)) (control_pc : u64) : res (option FunctionEntry) :=
  match tables with
  | [] => Ok None
  | (image_base, entries) :: tables =>
      r ← lookup_in_table image_base entries control_pc;
      match r with
      | Some e => Ok (Some e)
      | None => lookup_in_tables tables control_pc
      end
  end.

(** [order] lists a [HashMap] the way its iterator does. *)
Definition lookup_function_entry (order : gmap u64 (list RuntimeFunction) → list (u64 * list RuntimeFunction))
    (s : SyncState) (control_pc : u64) : res (option FunctionEntry) :=
  lookup_in_tables (order (function_tables s)) control_pc.

Definition is_null_entry (e : RuntimeFunction) : bool :=
  bool_decide (begin_address e = 0) && bool_decide (end_address e = 0) && bool_decide (unwind_data e = 0).

Definition parse_pdata (bytes : list u8) : list RuntimeFunction :=
  let count := (length bytes / RuntimeFunction_SIZE)%nat in
  omap (λ i, e ← rf_from_bytes bytes (i * RuntimeFunction_SIZE);
             if is_null_entry e then None else Some e) (seq 0 count).

(** ** Unwind context *)

Record UnwindContext := mkUnwind {
  uc_rip : u64;
  uc_rsp : u64;
  uc_gpr : list u64;
  uc_xmm : list u128;
}.
Definition uc_set_rip (v : u64) (c : UnwindContext) := mkUnwind v (uc_rsp c) (uc_gpr c) (uc_xmm c).
Definition uc_set_rsp (v : u64) (c : UnwindContext) := mkUnwind (uc_rip c) v (uc_gpr c) (uc_xmm c).
Definition uc_set_gpr (i : nat) (v : u64) (c : UnwindContext) :=
  mkUnwind (uc_rip c) (uc_rsp c) (<[i := v]> (uc_gpr c)) (uc_xmm c).
Definition uc_set_xmm (i : nat) (v : u128) (c : UnwindContext) :=
  mkUnwind (uc_rip c) (uc_rsp c) (uc_gpr c) (<[i := v]> (uc_xmm c)).

Record UnwindResult := mkUnwound {
  ur_ctx : UnwindContext;
  handler_rva : option u32;
  handler_data : option u32;
  exception_data_va : option u64;
}.

Definition push_candidate (v : list u64) (x : u64) : list u64 :=
  if decide (x ≠ 0 ∧ x ∉ v) then v ++ [x] else v.
Definition language_data_candidates (image_base unwind_va : u64) (language_data : u32) (data_va : option u64)
    : list u64 :=
  let full := language_data in
  let out := match data_va with Some ed => push_candidate [] ed | None => [] end in
  let out := push_candidate out (sat_add image_base full) in
  let out := push_candidate out (sat_add unwind_va full) in
  push_candidate out (sat_add unwind_va (Z.land full 0xffff)).

Section Reads.
Context (read_mem : u64 → nat → res (list u8)).

(** ** Virtual unwinding *)

Definition unwind_leaf (ctx : UnwindContext) : res UnwindResult :=
  rip_buf ← read_mem (uc_rsp ctx) 8%nat;
  let ctx := uc_set_rip (le_val rip_buf) ctx in
  let ctx := uc_set_rsp (sat_add (uc_rsp ctx) 8) ctx in
  Ok (mkUnwound ctx None None None).

(** The codes of an UNWIND_INFO, and their bytes for the slots that are operands. *)
Section Codes.
Context (codes_buf : list u8) (codes : list UnwindCode).

Definition raw_slot (i : nat) : option (list u8) := get_range codes_buf (i * 2) 2.
Definition slot_or_zero (i : nat) : list u8 := default [0; 0] (raw_slot i).
Definition slot16 (i : nat) : u64 := le_val (slot_or_zero i).
Definition slot32 (i : nat) : u64 := le_val (slot_or_zero i ++ slot_or_zero (S i)).

Definition alloc_large_size (c : UnwindCode) (idx : nat) : u64 :=
  if decide (op_info c = 0) then slot16 (idx + 1) * 8 else slot32 (idx + 1).
Definition alloc_large_slots (c : UnwindCode) : nat := if decide (op_info c = 0) then 2%nat else 3%nat.

(** One turn of the scan for the stack pointer at entry. *)
Definition scan_step (s : nat * u64) : nat * u64 + res u64 :=
  let '(idx, entry_rsp) := s in
  match codes !! idx with
  | None => inr (Ok entry_rsp)
  | Some c =>
      inl (if decide (unwind_op c = uwop.ALLOC_SMALL) then (S idx, sat_add entry_rsp (op_info c * 8 + 8))
           else if decide (unwind_op c = uwop.ALLOC_LARGE)
           then ((idx + alloc_large_slots c)%nat, sat_add entry_rsp (alloc_large_size c idx))
           else if decide (unwind_op c = uwop.PUSH_NONVOL) then (S idx, sat_add entry_rsp 8)
           else if decide (unwind_op c = uwop.PUSH_MACHFRAME)
           then (S idx, sat_add entry_rsp (if decide (op_info c = 0) then 24 else 32))
           else (S idx, entry_rsp))
  end.
Definition scan_entry_rsp (rsp : u64) : res u64 :=
  run_loop (fuel_of (Z.of_nat (length codes))) scan_step (0%nat, rsp).

Definition restore_gpr (va : u64) (reg : nat) (ctx : UnwindContext) : res UnwindContext :=
  val_buf ← read_mem va 8%nat;
  Ok (uc_set_gpr reg (le_val val_buf) ctx).
Definition restore_xmm (va : u64) (reg : nat) (ctx : UnwindContext) : res UnwindContext :=
  val_buf ← read_mem va 16%nat;
  Ok (uc_set_xmm reg (le_val val_buf) ctx).

(** One code undone: the next index, the stack pointer, the context. *)
Definition undo_code (fp_rsp : u64) (idx : nat) (rsp : u64) (ctx : UnwindContext) (code : UnwindCode)
    : res (nat * u64 * UnwindContext) :=
  let reg := Z.to_nat (op_info code) in
  if decide (unwind_op code = uwop.PUSH_NONVOL) then
    ctx ← restore_gpr rsp reg ctx; Ok (S idx, sat_add rsp 8, ctx)
  else if decide (unwind_op code = uwop.ALLOC_LARGE) then
    Ok ((idx + alloc_large_slots code)%nat, sat_add rsp (alloc_large_size code idx), ctx)
  else if decide (unwind_op code = uwop.ALLOC_SMALL) then
    Ok (S idx, sat_add rsp (op_info code * 8 + 8), ctx)
  else if decide (unwind_op code = uwop.SET_FPREG) then Ok (S idx, rsp, ctx)
  else if decide (unwind_op code = uwop.SAVE_NONVOL) then
    ctx ← restore_gpr (sat_add fp_rsp (slot16 (idx + 1) * 8)) reg ctx; Ok ((idx + 2)%nat, rsp, ctx)
  else if decide (unwind_op code = uwop.SAVE_NONVOL_FAR) then
    ctx ← restore_gpr (sat_add fp_rsp (slot32 (idx + 1))) reg ctx; Ok ((idx + 3)%nat, rsp, ctx)
  else if decide (unwind_op code = uwop.SAVE_XMM128) then
    ctx ← restore_xmm (sat_add fp_rsp (slot16 (idx + 1) * 16)) reg ctx; Ok ((idx + 2)%nat, rsp, ctx)
  else if decide (unwind_op code = uwop.SAVE_XMM128_FAR) then
    ctx ← restore_xmm (sat_add fp_rsp (slot32 (idx + 1))) reg ctx; Ok ((idx + 3)%nat, rsp, ctx)
  else if decide (unwind_op code = uwop.PUSH_MACHFRAME) then
    Ok (S idx, sat_add rsp (if decide (op_info code = 0) then 24 else 32), ctx)
  else Ok (S idx, rsp, ctx).

Definition undo_step (fp_rsp : u64) (s : nat * u64 * UnwindContext)
    : nat * u64 * UnwindContext + res (u64 * UnwindContext) :=
  let '(idx, rsp, ctx) := s in
  match codes !! idx with
  | None => inr (Ok (rsp, ctx))
  | Some code =>
      match undo_code fp_rsp idx rsp ctx code with
      | Ok s => inl s
      | Err e => inr (Err e)
      | Abort w => inr (Abort w)
      end
  end.
Definition undo_codes (fp_rsp : u64) (ctx : UnwindContext) : res (u64 * UnwindContext) :=
  run_loop (fuel_of (Z.of_nat (length codes))) (undo_step fp_rsp) (0%nat, uc_rsp ctx, ctx).
End Codes.

(** The registers of one frame: everything before the handler data is looked at. *)
Definition unwind_frame (unwind_va : u64) (ctx : UnwindContext) : res (UnwindInfo * UnwindContext) :=
  header_buf ← read_mem unwind_va 4%nat;
  info ← some_or (info_from_bytes header_buf 0);
  let code_count := Z.to_nat (count_of_codes info) in
  codes_buf ← read_mem (sat_add unwind_va 4) (code_count * UnwindCode_SIZE)%nat;
  let codes := omap (λ i, code_from_bytes codes_buf (i * 2)) (seq 0 code_count) in
  let fp_reg := Z.to_nat (frame_register info) in
  entry_rsp ← (if decide (fp_reg = 0%nat) then scan_entry_rsp codes_buf codes (uc_rsp ctx) else Ok (uc_rsp ctx));
  let fp_rsp := if decide (fp_reg ≠ 0%nat) then sat_sub (default 0 (uc_gpr ctx !! fp_reg)) (frame_offset info * 16)
                else entry_rsp in
  '(rsp, ctx) ← undo_codes codes_buf codes fp_rsp ctx;
  rip_buf ← read_mem rsp 8%nat;
  let ctx := uc_set_rip (le_val rip_buf) ctx in
  Ok (info, uc_set_rsp (sat_add rsp 8) ctx).

(** The handler of a frame, after its codes. *)
Definition unwind_handler (info : UnwindInfo) (data_off : u64) (ctx : UnwindContext) : res UnwindResult :=
  if decide (Z.land (flags info) (Z.lor FLAG_EHANDLER FLAG_UHANDLER) ≠ 0) then
    h_buf ← read_mem data_off 8%nat;
    Ok (mkUnwound ctx (Some (le_val (take 4 h_buf))) (Some (le_val (take 4 (drop 4 h_buf))))
          (Some (sat_add data_off 4)))
  else Ok (mkUnwound ctx None None None).

(** [depth] bounds the recursion over chained infos: the native stack. *)
Fixpoint virtual_unwind (depth : nat) (image_base : u64) (entry : RuntimeFunction) (ctx : UnwindContext)
    : res UnwindResult :=
  match depth with
  | O => Abort NoFuel
  | S depth =>
      let unwind_rva := unwind_data entry in
      if decide (unwind_rva = 0) then unwind_leaf ctx
      else
        let unwind_va := sat_add image_base unwind_rva in
        '(info, ctx) ← unwind_frame unwind_va ctx;
        let data_off := sat_add unwind_va (header_size info) in
        if decide (Z.land (flags info) FLAG_CHAININFO ≠ 0) then
          chain_buf ← read_mem data_off 4%nat;
          let chain_rva := le_val chain_buf in
          if decide (chain_rva ≠ 0)
          then virtual_unwind depth image_base (mkRuntimeFunction (begin_address entry) (end_address entry) chain_rva) ctx
          else unwind_handler info data_off ctx
        else unwind_handler info data_off ctx
  end.
End Reads.
