(* ===== verification/lsda.v ===== *)
(** * Landing pads (crates/wie-winapi/src/exception.rs, the LSDA half)

    The exception data of Mingw functions is an Itanium LSDA: a header, a table of
    call sites and chains of actions, in the pointer encodings of DWARF.  A [?]
    that ends a search early is [failed]. *)

From S2P Require Import Prelude regs insn sync_obj exception.

(** ** Pointer encodings *)

Module dw_eh_pe.
Definition OMIT : u8 := 0xff.
Definition ABSPTR : u8 := 0x00.
Definition ULEB128 : u8 := 0x01.
Definition UDATA2 : u8 := 0x02.
Definition UDATA4 : u8 := 0x03.
Definition UDATA8 : u8 := 0x04.
Definition SLEB128 : u8 := 0x09.
Definition SDATA2 : u8 := 0x0a.
Definition SDATA4 : u8 := 0x0b.
Definition SDATA8 : u8 := 0x0c.
Definition PCREL : u8 := 0x10.
Definition TEXTREL : u8 := 0x20.
Definition DATAREL : u8 := 0x30.
Definition FUNCREL : u8 := 0x40.
Definition ALIGNED : u8 := 0x50.
Definition INDIRECT : u8 := 0x80.
End dw_eh_pe.

Record LandingPadMatch := mkLanding {
  landing_pad : u64;
  action_index : u64;
  switch_value : Z;
}.

Definition dw_format_size (format : u8) : option u64 :=
  if decide (format ∈ [dw_eh_pe.ABSPTR; dw_eh_pe.UDATA8; dw_eh_pe.SDATA8]) then Some 8
  else if decide (format ∈ [dw_eh_pe.UDATA2; dw_eh_pe.SDATA2]) then Some 2
  else if decide (format ∈ [dw_eh_pe.UDATA4; dw_eh_pe.SDATA4]) then Some 4
  else None.

Definition is_signed_format (format : u8) : bool :=
  bool_decide (format ∈ [dw_eh_pe.SLEB128; dw_eh_pe.SDATA2; dw_eh_pe.SDATA4; dw_eh_pe.SDATA8]).

(** [i64::saturating_add]. *)
Definition sat_add_i64 (a b : Z) : Z := Z.max (- 2 ^ 63) (Z.min (a + b) (2 ^ 63 - 1)).

(** A function whose [?] returns [None]. *)
Definition or_none {A} (r : res (option A)) : res (option A) :=
  match r with Err _ => Ok None | r => r end.

Section Reads.
Context (read_mem : u64 → nat → res (list u8)).

(** One byte at the cursor, and the cursor after it. *)
Definition next_byte (cursor : u64) : res (u8 * u64) :=
  b ← read_mem cursor 1%nat;
  Ok (byte_of b 0, sat_add cursor 1).

(** State: value, shift, cursor. *)
Definition uleb_step (s : u64 * u32 * u64) : u64 * u32 * u64 + res (u64 * u64) :=
  let '(v, shift, cursor) := s in
  match next_byte cursor with
  | Ok (b, cursor) =>
      let v := Z.lor v (shl_u 64 (Z.land b 0x7f) shift) in
      if decide (Z.land b 0x80 = 0) then inr (Ok (v, cursor))
      else
        let shift := shift + 7 in
        if decide (56 < shift) then inr failed else inl (v, shift, cursor)
  | Err e => inr (Err e)
  | Abort w => inr (Abort w)
  end.
Definition read_uleb128 (cursor : u64) : res (u64 * u64) := run_loop 10 uleb_step (0, 0, cursor).

Definition sleb_step (s : Z * u32 * u64) : Z * u32 * u64 + res (Z * u64) :=
  let '(v, shift, cursor) := s in
  match next_byte cursor with
  | Ok (b, cursor) =>
      let v := Z.lor v (shl_i 64 (Z.land b 0x7f) shift) in
      let shift := shift + 7 in
      if decide (Z.land b 0x80 = 0) then
        inr (Ok (if decide (shift < 64 ∧ Z.land b 0x40 ≠ 0) then Z.lor v (shl_i 64 (-1) shift) else v, cursor))
      else if decide (56 < shift) then inr failed else inl (v, shift, cursor)
  | Err e => inr (Err e)
  | Abort w => inr (Abort w)
  end.
Definition read_sleb128 (cursor : u64) : res (Z * u64) := run_loop 10 sleb_step (0, 0, cursor).

(** A value of [sz] bytes, sign-extended as the code does it: shift counts are taken
    modulo 64. *)
Definition fixed_value (f : u8) (sz : u64) (buf : list u8) : u64 :=
  let v := le_val buf in
  if is_signed_format f then
    let bits := sz * 8 in
    let sign := shl_u 64 1 (bits - 1) in
    if decide (Z.land v sign ≠ 0) then Z.lor v (not_u 64 (wrapping_sub (shl_u 64 1 bits) 1)) else v
  else v.

(** Raw value, its address, the cursor after it. *)
Definition read_encoded_value (cursor : u64) (encoding : u8) : res (u64 * u64 * u64) :=
  if decide (encoding = dw_eh_pe.OMIT) then Ok (0, cursor, cursor)
  else
    let format := Z.land encoding 0x0f in
    if decide (format = dw_eh_pe.ULEB128) then
      '(raw, c) ← read_uleb128 cursor; Ok (raw, cursor, c)
    else if decide (format = dw_eh_pe.SLEB128) then
      '(raw, c) ← read_sleb128 cursor; Ok (as_u 64 raw, cursor, c)
    else
      sz ← some_or (dw_format_size format);
      buf ← read_mem cursor (Z.to_nat sz);
      Ok (fixed_value format sz buf, cursor, sat_add cursor sz).

Definition apply_encoding (encoding : u8) (raw storage_va image_base func_start data_base : u64) : res u64 :=
  if decide (encoding = dw_eh_pe.OMIT) then Ok 0
  else if decide (raw = 0) then Ok 0
  else
    let app := Z.land encoding 0x70 in
    let addr := if decide (app = dw_eh_pe.PCREL) then wrapping_add storage_va raw
                else if decide (app = dw_eh_pe.TEXTREL) then wrapping_add image_base raw
                else if decide (app = dw_eh_pe.DATAREL) then wrapping_add data_base raw
                else if decide (app = dw_eh_pe.FUNCREL) then wrapping_add func_start raw
                else raw in
    if decide (Z.land encoding dw_eh_pe.INDIRECT ≠ 0 ∧ addr ≠ 0)
    then buf ← read_mem addr 8%nat; Ok (le_val buf)
    else Ok addr.

(** ** The type table and the actions *)

Definition resolve_ttype (ttype_base : u64) (ttype_enc : u8) (index image_base func_start : u64) : res u64 :=
  if decide (index = 0 ∨ ttype_enc = dw_eh_pe.OMIT) then failed
  else
    let format := Z.land ttype_enc 0x0f in
    if decide (format = dw_eh_pe.ULEB128 ∨ format = dw_eh_pe.SLEB128) then failed
    else
      let entry_size := default 0 (dw_format_size format) in
      if decide (entry_size = 0) then failed
      else
        let slot := sat_sub ttype_base (sat_mul index entry_size) in
        '(raw, storage, _) ← read_encoded_value slot (Z.land ttype_enc 0x0f);
        apply_encoding ttype_enc raw storage image_base func_start image_base.

Section Actions.
Context (action_table ttype_base : u64) (ttype_enc : u8) (image_base func_start : u64) (thrown : option u64).

(** A filter: a typed match, or what is remembered as the catch-all. *)
Definition judge_filter (filter : Z) (catch_all : option Z) : res (Z + option Z) :=
  let remember (v : Z) := match catch_all with None => Some v | some => some end in
  if decide (filter = 0) then Ok (inr (remember 0))
  else if decide (0 < filter) then
    slot_ti ← attempt (resolve_ttype ttype_base ttype_enc (as_u 64 filter) image_base func_start);
    Ok (match slot_ti with
        | Some entry =>
            if decide (entry = 0) then inr (remember filter)
            else if (match thrown with None => true | Some ti => bool_decide (entry = ti) end) then inl filter
            else inr catch_all
        | None => inr catch_all
        end)
  else Ok (inr catch_all).

(** Where the next record is; [None] ends the chain. *)
Definition next_record (rec : u64) (next : Z) : res (option u64) :=
  if decide (next = 0) then Ok None
  else
    '(_, c2) ← read_sleb128 rec;
    let next_i := sat_add_i64 (as_i 64 c2) next in
    if decide (next_i ≤ 0) then Ok None
    else
      let next_va := next_i in
      if decide (next_va < action_table) then Ok None
      else Ok (Some (sat_add (sat_sub next_va action_table) 1)).

(** State: records left, record index, catch-all; [Ok None] is the code's [None]. *)
Definition action_body (s : nat * u64 * option Z) : res (nat * u64 * option Z + option Z) :=
  let '(budget, idx, catch_all) := s in
  match budget with
  | O => Ok (inr catch_all)
  | S budget =>
      let rec := sat_add action_table (sat_sub idx 1) in
      '(filter, cursor) ← read_sleb128 rec;
      '(next, _) ← read_sleb128 cursor;
      verdict ← judge_filter filter catch_all;
      match verdict with
      | inl f => Ok (inr (Some f))
      | inr catch_all =>
          n ← next_record rec next;
          Ok (match n with Some idx => inl (budget, idx, catch_all) | None => inr catch_all end)
      end
  end.
Definition action_step (s : nat * u64 * option Z) : nat * u64 * option Z + res (option Z) :=
  match action_body s with
  | Ok (inl s) => inl s
  | Ok (inr o) => inr (Ok o)
  | Err e => inr (Err e)
  | Abort w => inr (Abort w)
  end.

(** [None] when nothing matches or a read fails. *)
Definition match_action (index : u64) : res (option Z) :=
  if decide (index = 0) then Ok None
  else or_none (run_loop 33 action_step (32%nat, index, None)).
End Actions.

(** ** The call sites *)

Record lsda_header := mkHeader {
  lh_lp_base : u64;
  lh_ttype_enc : u8;
  lh_ttype_base : u64;
  lh_format : u8;
  lh_cursor : u64;
  lh_cs_end : u64;
}.

(** Up to the call-site table; an empty table ends the search. *)
Definition read_header (lsda_va image_base func_start : u64) : res lsda_header :=
  '(lp_enc, cursor) ← next_byte lsda_va;
  '(lp_base, cursor) ← (
    if decide (lp_enc ≠ dw_eh_pe.OMIT) then
      '(raw, storage, cursor) ← read_encoded_value cursor lp_enc;
      lp_base ← apply_encoding lp_enc raw storage image_base func_start image_base;
      Ok (if decide (lp_base = 0) then func_start else lp_base, cursor)
    else Ok (func_start, cursor));
  '(ttype_enc, cursor) ← next_byte cursor;
  '(ttype_base, cursor) ← (
    if decide (ttype_enc ≠ dw_eh_pe.OMIT) then
      '(off, cursor) ← read_uleb128 cursor; Ok (sat_add cursor off, cursor)
    else Ok (0, cursor));
  '(cs_enc, cursor) ← next_byte cursor;
  '(cs_len, cursor) ← read_uleb128 cursor;
  if decide (cs_len = 0) then failed
  else Ok (mkHeader lp_base ttype_enc ttype_base (Z.land cs_enc 0x0f) cursor (sat_add cursor cs_len)).

Record call_site := mkSite { cs_start : u64; cs_len : u64; cs_pad : u64; cs_action : u64 }.

Definition read_site (format : u8) (cursor : u64) : res (call_site * u64) :=
  if decide (format = dw_eh_pe.ULEB128) then
    '(s, cursor) ← read_uleb128 cursor;
    '(len, cursor) ← read_uleb128 cursor;
    '(pad, cursor) ← read_uleb128 cursor;
    '(a, cursor) ← read_uleb128 cursor;
    Ok (mkSite s len pad a, cursor)
  else
    _ ← some_or (dw_format_size format);
    '(s, _, cursor) ← read_encoded_value cursor format;
    '(len, _, cursor) ← read_encoded_value cursor format;
    '(pad, _, cursor) ← read_encoded_value cursor format;
    '(a, cursor) ← read_uleb128 cursor;
    Ok (mkSite s len pad a, cursor).

Definition site_covers (h : lsda_header) (control_pc : u64) (s : call_site) : bool :=
  let abs := bool_decide (lh_format h = dw_eh_pe.ABSPTR) in
  let '(rstart, rend) :=
    if abs then (cs_start s, sat_add (cs_start s) (cs_len s))
    else (sat_add (lh_lp_base h) (cs_start s), sat_add (sat_add (lh_lp_base h) (cs_start s)) (cs_len s)) in
  existsb (λ p, bool_decide (rstart ≤ p) && bool_decide (p < rend)) [sat_sub control_pc 1; control_pc].

Definition site_landing (h : lsda_header) (s : call_site) : u64 :=
  if decide (lh_format h = dw_eh_pe.ABSPTR) then cs_pad s else sat_add (lh_lp_base h) (cs_pad s).

Section Search.
Context (image_base func_start control_pc : u64) (thrown : option u64).

(** What one call site gives: a landing pad, or nothing and the search goes on. *)
Definition judge_site (h : lsda_header) (s : call_site) : res (option LandingPadMatch) :=
  if decide (cs_pad s = 0) then Ok None
  else if negb (site_covers h control_pc s) then Ok None
  else if decide (site_landing h s = 0) then Ok None
  else if decide (cs_action s = 0) then Ok None
  else if decide (lh_ttype_enc h = dw_eh_pe.OMIT) then Ok None
  else
    sw ← match_action (lh_cs_end h) (lh_ttype_base h) (lh_ttype_enc h) image_base func_start thrown (cs_action s);
    Ok ((λ sw, mkLanding (site_landing h s) (cs_action s) sw) <$> (sw : option Z)).

Definition judge_cleanup (h : lsda_header) (s : call_site) : option LandingPadMatch :=
  if decide (cs_pad s = 0 ∨ cs_action s ≠ 0) then None
  else if negb (site_covers h control_pc s) then None
  else if decide (site_landing h s = 0) then None
  else Some (mkLanding (site_landing h s) 0 0).

(** The loop over the table. *)
Definition search_step (judge : call_site → res (option LandingPadMatch)) (h : lsda_header) (cursor : u64)
    : u64 + res (option LandingPadMatch) :=
  if decide (cursor < lh_cs_end h) then
    match ('(s, cursor) ← read_site (lh_format h) cursor; m ← judge s; Ok (m, cursor)) with
    | Ok (Some m, _) => inr (Ok (Some m))
    | Ok (None, cursor) => inl cursor
    | Err e => inr (Err e)
    | Abort w => inr (Abort w)
    end
  else inr (Ok None).
Definition search_sites (judge : call_site → res (option LandingPadMatch)) (h : lsda_header) : res (option LandingPadMatch) :=
  run_loop (fuel_of (lh_cs_end h - lh_cursor h)) (search_step judge h) (lh_cursor h).

(** Both answer [None] for a malformed table. *)
Definition find_landing_pad_ex (lsda_va : u64) : res (option LandingPadMatch) :=
  or_none (h ← read_header lsda_va image_base func_start; search_sites (judge_site h) h).

Definition find_cleanup_landing_pad (lsda_va : u64) : res (option LandingPadMatch) :=
  or_none (h ← read_header lsda_va image_base func_start; search_sites (λ s, Ok (judge_cleanup h s)) h).
End Search.

Definition find_landing_pad (lsda_va image_base func_start control_pc : u64) : res (option (u64 * u64)) :=
  o ← find_landing_pad_ex image_base func_start control_pc None lsda_va;
  Ok ((λ m, (landing_pad m, action_index m)) <$> (o : option LandingPadMatch)).
End Reads.
