(* ===== verification/msvc_eh.v ===== *)
(** * MSVC C++ exception tables (crates/wie-winapi/src/msvc_eh.rs)

    FuncInfo, the IP-to-state map, try blocks, handler types, ThrowInfo and the
    unwind map, read from guest memory through the callback of [exception]. *)

From S2P Require Import Prelude insn exception lsda.

Definition FUNCINFO_MAGIC_V1 : u32 := 0x19930520.
Definition FUNCINFO_MAGIC_V2 : u32 := 0x19930521.
Definition FUNCINFO_MAGIC_V3 : u32 := 0x19930522.
Definition HT_CATCH_ALL_TYPE : u32 := 0.
Definition HT_IS_REFERENCE : u32 := 0x08.
Definition HT_IS_STD_DOT_DOT : u32 := 0x40.
Definition HANDLER_TYPE_SIZE : u64 := 20.

Record FuncInfoHeader := mkFuncInfo {
  magic : u32;
  max_state : Z;
  unwind_map_rva : u32;
  n_try_blocks : u32;
  try_block_map_rva : u32;
  n_ip_map : u32;
  ip_to_state_map_rva : u32;
}.
Record TryBlockMapEntry := mkTry {
  tb_try_low : Z;
  try_high : Z;
  catch_high : Z;
  n_catches : Z;
  handler_array_rva : u32;
}.
Record HandlerType := mkHandler {
  ht_adjectives : u32;
  ht_type_rva : u32;
  ht_disp_catch_obj : Z;
  handler_rva : u32;
  ht_disp_frame : Z;
}.
Record UnwindMapEntry := mkUnwindEntry { to_state : Z; action_rva : u32 }.
Record MsvcCatch := mkCatch {
  mc_landing_pad : u64;
  disp_catch_obj : Z;
  adjectives : u32;
  type_rva : u32;
  disp_frame : Z;
  mc_state : Z;
  try_low : Z;
  func_info : FuncInfoHeader;
}.

(** [for i in first..first + n] whose body goes on or returns. *)
Fixpoint for_range {S R} (n : nat) (first : Z) (body : Z → S → res (S + R)) (s : S) : res (S + R) :=
  match n with
  | O => Ok (inl s)
  | Datatypes.S n =>
      r ← body first s;
      match r with inl s => for_range n (first + 1) body s | inr x => Ok (inr x) end
  end.

Definition is_catch_all (ht : HandlerType) : bool :=
  bool_decide (ht_type_rva ht = HT_CATCH_ALL_TYPE) || bool_decide (Z.land (ht_adjectives ht) HT_IS_STD_DOT_DOT ≠ 0).
Definition handler_matches (ht : HandlerType) (thrown_types : option (list u32)) : bool :=
  is_catch_all ht || match thrown_types with Some types => bool_decide (ht_type_rva ht ∈ types) | None => false end.

Section Reads.
Context (read_mem : u64 → nat → res (list u8)).

Definition read_u32 (va : u64) : res u32 := b ← read_mem va 4%nat; Ok (le_val b).
Definition read_i32 (va : u64) : res Z := u ← read_u32 va; Ok (as_i 32 u).

Definition parse_func_info (va : u64) : res FuncInfoHeader :=
  magic ← read_u32 va;
  if decide (magic ≠ FUNCINFO_MAGIC_V1 ∧ magic ≠ FUNCINFO_MAGIC_V2 ∧ magic ≠ FUNCINFO_MAGIC_V3) then failed
  else
    max_state ← read_i32 (wrapping_add va 4);
    unwind_map_rva ← read_u32 (wrapping_add va 8);
    n_try_blocks ← read_u32 (wrapping_add va 12);
    try_block_map_rva ← read_u32 (wrapping_add va 16);
    n_ip_map ← read_u32 (wrapping_add va 20);
    ip_to_state_map_rva ← read_u32 (wrapping_add va 24);
    Ok (mkFuncInfo magic max_state unwind_map_rva n_try_blocks try_block_map_rva n_ip_map ip_to_state_map_rva).

(** The state of the last entry whose address is not beyond the PC. *)
Definition ip_entry (map_va : u64) (pc_rva : u32) (i : Z) (best : option Z) : res (option Z + option Z) :=
  let e := sat_add map_va (i * 8) in
  ip ← read_u32 e;
  state ← read_i32 (wrapping_add e 4);
  Ok (if decide (ip ≤ pc_rva) then inl (Some state) else inr best).
Definition state_for_ip (image_base : u64) (info : FuncInfoHeader) (control_pc : u64) : res Z :=
  if decide (n_ip_map info = 0 ∨ ip_to_state_map_rva info = 0) then failed
  else
    let map_va := sat_add image_base (ip_to_state_map_rva info) in
    let pc_rva := sat_sub control_pc image_base mod u32_lim in
    r ← for_range (Z.to_nat (n_ip_map info)) 0 (ip_entry map_va pc_rva) None;
    Ok (default (-1) (match r with inl best | inr best => best end)).

Definition read_try_block (image_base : u64) (info : FuncInfoHeader) (index : u32) : res TryBlockMapEntry :=
  let e := sat_add (sat_add image_base (try_block_map_rva info)) (index * 20) in
  low ← read_i32 e;
  high ← read_i32 (wrapping_add e 4);
  catch_high ← read_i32 (wrapping_add e 8);
  n_catches ← read_i32 (wrapping_add e 12);
  handlers ← read_u32 (wrapping_add e 16);
  Ok (mkTry low high catch_high n_catches handlers).

Definition read_handler_type (image_base : u64) (array_rva : u32) (index : Z) : res HandlerType :=
  if decide (index < 0) then failed
  else
    let e := sat_add (sat_add image_base array_rva) (sat_mul index HANDLER_TYPE_SIZE) in
    handler_rva ← read_u32 (wrapping_add e 12);
    if decide (handler_rva = 0 ∨ 0x80000000 ≤ handler_rva) then failed
    else
      adjectives ← read_u32 e;
      type_rva ← read_u32 (wrapping_add e 4);
      disp_catch_obj ← read_i32 (wrapping_add e 8);
      disp_frame ← attempt (read_i32 (wrapping_add e 16));
      Ok (mkHandler adjectives type_rva disp_catch_obj handler_rva (default 0 disp_frame)).

(** The type RVAs of [ThrowInfo.pCatchableTypeArray]. *)
Definition catchable_type (image_base cta_va : u64) (i : Z) (out : list u32) : res (list u32 + Empty_set) :=
  ct_rva ← read_u32 (sat_add (sat_add cta_va 4) (i * 4));
  if decide (ct_rva = 0) then Ok (inl out)
  else
    type_rva ← read_u32 (sat_add (sat_add image_base ct_rva) 4);
    Ok (inl (if decide (type_rva ≠ 0) then out ++ [type_rva] else out)).
Definition throw_catchable_type_rvas (image_base throw_info_va : u64) : res (list u32) :=
  if decide (throw_info_va = 0) then failed
  else
    cta_rva ← read_u32 (sat_add throw_info_va 12);
    if decide (cta_rva = 0) then failed
    else
      let cta_va := sat_add image_base cta_rva in
      n ← read_i32 cta_va;
      if decide (n ≤ 0 ∨ 64 < n) then failed
      else
        r ← for_range (Z.to_nat n) 0 (catchable_type image_base cta_va) [];
        match r with inl [] => failed | inl out => Ok out | inr x => Empty_set_rect _ x end.

Definition throw_object_size (image_base throw_info_va : u64) : res u32 :=
  if decide (throw_info_va = 0) then failed
  else
    cta_rva ← read_u32 (sat_add throw_info_va 12);
    if decide (cta_rva = 0) then failed
    else
      let cta_va := sat_add image_base cta_rva in
      n ← read_i32 cta_va;
      if decide (n ≤ 0) then failed
      else
        ct_rva ← read_u32 (sat_add cta_va 4);
        if decide (ct_rva = 0) then failed
        else read_u32 (sat_add (sat_add image_base ct_rva) 20).

(** ** The search for a catch *)

Section Search.
Context (image_base : u64) (info : FuncInfoHeader) (state : Z).

Definition catch_of (tb : TryBlockMapEntry) (ht : HandlerType) : MsvcCatch :=
  mkCatch (sat_add image_base (handler_rva ht)) (ht_disp_catch_obj ht) (ht_adjectives ht) (ht_type_rva ht)
    (ht_disp_frame ht) state (tb_try_low tb) info.

(** A typed match ends the search; the first catch-all is remembered. *)
Definition handler_step (thrown : option (list u32)) (tb : TryBlockMapEntry) (hi : Z) (catch_all : option MsvcCatch)
    : res (option MsvcCatch + MsvcCatch) :=
  ht ← read_handler_type image_base (handler_array_rva tb) hi;
  Ok (if decide (handler_rva ht = 0) then inl catch_all
      else if is_catch_all ht then inl (match catch_all with None => Some (catch_of tb ht) | some => some end)
      else if handler_matches ht thrown then inr (catch_of tb ht) else inl catch_all).
Definition try_step (thrown : option (list u32)) (ti : Z) (catch_all : option MsvcCatch) : res (option MsvcCatch + MsvcCatch) :=
  tb ← read_try_block image_base info ti;
  if decide (state < tb_try_low tb ∨ try_high tb < state) then Ok (inl catch_all)
  else if decide (n_catches tb ≤ 0 ∨ handler_array_rva tb = 0) then Ok (inl catch_all)
  else for_range (Z.to_nat (n_catches tb)) 0 (handler_step thrown tb) catch_all.

Definition any_handler_step (tb : TryBlockMapEntry) (hi : Z) (u : unit) : res (unit + MsvcCatch) :=
  ht ← read_handler_type image_base (handler_array_rva tb) hi;
  Ok (if decide (is_catch_all ht = true ∧ handler_rva ht ≠ 0) then inr (catch_of tb ht) else inl tt).
Definition any_try_step (ti : Z) (u : unit) : res (unit + MsvcCatch) :=
  tb ← read_try_block image_base info ti;
  if decide (n_catches tb ≤ 0 ∨ handler_array_rva tb = 0) then Ok (inl tt)
  else for_range (Z.to_nat (n_catches tb)) 0 (any_handler_step tb) tt.
Definition find_catch_all_any_try : res (option MsvcCatch) :=
  r ← for_range (Z.to_nat (n_try_blocks info)) 0 any_try_step tt;
  Ok (match r with inl _ => None | inr c => Some c end).
End Search.

Definition find_msvc_catch (image_base func_info_va control_pc throw_info_va : u64) : res (option MsvcCatch) :=
  or_none (
    info ← parse_func_info func_info_va;
    if decide (n_try_blocks info = 0 ∨ try_block_map_rva info = 0) then failed
    else
      st ← attempt (state_for_ip image_base info control_pc);
      match st with
      | None => find_catch_all_any_try image_base info (-1)
      | Some state =>
          thrown ← attempt (throw_catchable_type_rvas image_base throw_info_va);
          r ← for_range (Z.to_nat (n_try_blocks info)) 0 (try_step image_base info state thrown) None;
          Ok (match r with inl catch_all => catch_all | inr c => Some c end)
      end).

(** ** The unwind map *)

Definition read_unwind_map_entry (image_base : u64) (unwind_map_rva : u32) (state : Z) : res UnwindMapEntry :=
  if decide (state < 0 ∨ unwind_map_rva = 0) then failed
  else
    let e := sat_add (sat_add image_base unwind_map_rva) (state * 8) in
    to_state ← read_i32 e;
    action_rva ← read_u32 (wrapping_add e 4);
    Ok (mkUnwindEntry to_state action_rva).

Definition unwind_step (image_base : u64) (unwind_map_rva : u32) (max_state to : Z) (_ : Z) (s : Z * list u32)
    : res (Z * list u32 + list u32) :=
  let '(state, actions) := s in
  if decide (state < 0 ∨ state ≤ to) then Ok (inr actions)
  else if decide (0 < max_state ∧ max_state ≤ state) then Ok (inr actions)
  else
    entry ← attempt (read_unwind_map_entry image_base unwind_map_rva state);
    Ok (match entry with
        | None => inr actions
        | Some entry =>
            let actions := if decide (action_rva entry ≠ 0) then actions ++ [action_rva entry] else actions in
            if decide (state ≤ to_state entry) then inr actions else inl (to_state entry, actions)
        end).
Definition collect_unwind_actions (image_base : u64) (unwind_map_rva : u32) (max_state from_state to : Z) : res (list u32) :=
  if decide (unwind_map_rva = 0 ∨ from_state < 0) then Ok []
  else
    r ← for_range 64 0 (unwind_step image_base unwind_map_rva max_state to) (from_state, []);
    Ok (match r with inl (_, actions) | inr actions => actions end).
End Reads.

(** ** The slot of the catch object *)

Definition catch_object_address (establisher_frame : u64) (c : MsvcCatch) : option u64 :=
  if decide (disp_catch_obj c = 0) then None
  else
    let addr := sat_add_i64 (as_i 64 establisher_frame) (disp_catch_obj c) in
    if decide (addr ≤ 0) then None else Some addr.
Definition catch_is_reference (adjectives : u32) : bool := bool_decide (Z.land adjectives HT_IS_REFERENCE ≠ 0).
