(* ===== verification/msvc_spec.v ===== *)
(** * The search for a C++ catch (msvc_eh.rs)

    Over tables that can be read: the catch that is found, and the destructors
    that run on the way out of the states of a function. *)

From S2P Require Import Prelude insn exception lsda msvc_eh.

(** ** Loops over tables *)

Section Range.
Context {S R : Type}.
Implicit Types (body : Z → S → res (S + R)).

(** One pass over the elements of a table, with its loop body as a function. *)
Fixpoint scan {X} (f : X → S → S + R) (l : list X) (s : S) : S + R :=
  match l with
  | [] => inl s
  | x :: l => match f x s with inl s => scan f l s | inr r => inr r end
  end.
Lemma scan_app {X} (f : X → S → S + R) l1 l2 s :
  scan f (l1 ++ l2) s = match scan f l1 s with inl s => scan f l2 s | inr r => inr r end.
Proof. revert s. induction l1 as [|x l1 IH]; intros s; cbn [app scan]; [done|]. by destruct (f x s). Qed.
Lemma scan_concat {X} (f : X → S → S + R) (ls : list (list X)) s : scan f (mjoin ls) s = scan (scan f) ls s.
Proof. revert s. induction ls as [|l ls IH]; intros s; [done|].
  change (mjoin (l :: ls)) with (l ++ mjoin ls). rewrite scan_app. cbn [scan]. by destruct (scan f l s). Qed.
Lemma scan_omap {X Y} (g : X → option Y) (f : Y → S → S + R) l s :
  scan f (omap g l) s = scan (λ x s, match g x with Some y => f y s | None => inl s end) l s.
Proof.
  revert s. induction l as [|x l IH]; intros s; [done|]. cbn [omap list_omap scan]. destruct (g x) as [y|]; cbn [scan]; [|done].
  by destruct (f y s).
Qed.

(** What holds of the state of every iteration, and of what is returned. *)
Lemma for_range_inv body (I : S → Prop) (Q : R → Prop) :
  (∀ i s, I s → match body i s with Ok (inl s) => I s | Ok (inr r) => Q r | _ => True end) →
  ∀ n first s, I s → match for_range n first body s with Ok (inl s) => I s | Ok (inr r) => Q r | _ => True end.
Proof.
  intros Hb n. induction n as [|n IH]; intros first s HI; cbn [for_range]; [done|].
  specialize (Hb first s HI). destruct (body first s) as [[s'|r]|e|w]; cbn [mbind res_bind]; [by apply IH|done|done|done].
Qed.

Lemma for_range_scan {X} body (f : X → S → S + R) l first s :
  (∀ i x s, l !! i = Some x → body (first + Z.of_nat i) s = Ok (f x s)) → for_range (length l) first body s = Ok (scan f l s).
Proof.
  revert first s. induction l as [|x l IH]; intros first s Hb; cbn [length for_range scan]; [done|].
  pose proof (Hb 0%nat x s eq_refl) as Hx. rewrite Z.add_0_r in Hx. rewrite Hx. cbn [mbind res_bind].
  destruct (f x s) as [s'|r]; [|done]. apply IH. intros i x' s'' Hi.
  replace (first + 1 + Z.of_nat i) with (first + Z.of_nat (Datatypes.S i)) by lia. by apply Hb.
Qed.
End Range.

Section Tables.
Context (rd : u64 → nat → res (list u8)).

(** ** The catch that is found *)

Section Catch.
Context (image_base : u64) (info : FuncInfoHeader).

(** The try blocks and their handlers, as they are read. *)
Record reads_tries (tries : list (TryBlockMapEntry * list HandlerType)) : Prop := {
  rt_count : n_try_blocks info = Z.of_nat (length tries);
  rt_rva : tries ≠ [] → try_block_map_rva info ≠ 0;
  rt_try i tb hs : tries !! i = Some (tb, hs) →
    read_try_block rd image_base info (Z.of_nat i) = Ok tb ∧ n_catches tb = Z.of_nat (length hs) ∧
    (hs ≠ [] → handler_array_rva tb ≠ 0) ∧
    ∀ j ht, hs !! j = Some ht → read_handler_type rd image_base (handler_array_rva tb) (Z.of_nat j) = Ok ht ∧ handler_rva ht ≠ 0;
}.

Definition covering (state : Z) (tries : list (TryBlockMapEntry * list HandlerType)) : list (TryBlockMapEntry * HandlerType) :=
  mjoin (omap (λ t, if decide (tb_try_low t.1 ≤ state ≤ try_high t.1) then Some (pair t.1 <$> t.2) else None) tries).
Definition typed_for (thrown : option (list u32)) (c : TryBlockMapEntry * HandlerType) : bool :=
  negb (is_catch_all c.2) && handler_matches c.2 thrown.
(** The first handler of the type, whatever its try block; failing that the first catch-all. *)
Definition chosen (thrown : option (list u32)) (cs : list (TryBlockMapEntry * HandlerType)) : option (TryBlockMapEntry * HandlerType) :=
  match List.find (typed_for thrown) cs with
  | Some c => Some c
  | None => List.find (λ c, is_catch_all c.2) cs
  end.

Definition handler_fun (state : Z) (thrown : option (list u32)) (c : TryBlockMapEntry * HandlerType) (catch_all : option MsvcCatch)
    : option MsvcCatch + MsvcCatch :=
  if is_catch_all c.2 then inl (match catch_all with None => Some (catch_of image_base info state c.1 c.2) | some => some end)
  else if handler_matches c.2 thrown then inr (catch_of image_base info state c.1 c.2) else inl catch_all.
Lemma handler_fun_scan state thrown cs : ∀ catch_all,
  match scan (handler_fun state thrown) cs catch_all with inl o => o | inr c => Some c end =
  match List.find (typed_for thrown) cs with
  | Some c => Some (catch_of image_base info state c.1 c.2)
  | None => match catch_all with
            | Some c => Some c
            | None => (λ c, catch_of image_base info state c.1 c.2) <$> List.find (λ c, is_catch_all c.2) cs
            end
  end.
Proof.
  induction cs as [|c cs IH]; intros catch_all; cbn [scan List.find]; [by destruct catch_all|].
  unfold handler_fun at 1, typed_for at 1. destruct (is_catch_all c.2) eqn:Hall; cbn [negb andb].
  - rewrite IH. destruct (List.find _ cs); [done|]. by destruct catch_all.
  - destruct (handler_matches c.2 thrown); [done|]. apply IH.
Qed.

Context (tries : list (TryBlockMapEntry * list HandlerType)).
Context (Hreads : reads_tries tries).

Lemma try_steps state thrown catch_all :
  for_range (Z.to_nat (n_try_blocks info)) 0 (try_step rd image_base info state thrown) catch_all =
  Ok (scan (handler_fun state thrown) (covering state tries) catch_all).
Proof.
  rewrite (rt_count _ Hreads), Nat2Z.id. unfold covering. rewrite scan_concat, scan_omap. apply for_range_scan.
  intros i [tb hs] s Hi. destruct (rt_try _ Hreads i tb hs Hi) as (Hr & Hn & Hrva & Hhs).
  unfold try_step. change (0 + Z.of_nat i) with (Z.of_nat i). rewrite Hr. cbn [mbind res_bind fst snd].
  destruct (decide (tb_try_low tb ≤ state ≤ try_high tb)) as [Hin|Hout].
  - rewrite decide_False by lia. destruct hs as [|h hs].
    + rewrite decide_True by (left; cbn in Hn; lia). done.
    + rewrite decide_False.
      2: { intros [Hle|Hz]; [cbn in Hn; lia|by apply Hrva in Hz]. }
      rewrite Hn, Nat2Z.id. rewrite <- (length_fmap (pair tb)). apply for_range_scan.
      intros j c s' Hj. rewrite list_lookup_fmap in Hj. destruct ((h :: hs) !! j) as [ht|] eqn:Hht; [|done].
      cbn in Hj. injection Hj as <-. destruct (Hhs j ht Hht) as [Hrh Hne].
      unfold handler_step. change (0 + Z.of_nat j) with (Z.of_nat j). rewrite Hrh. cbn [mbind res_bind].
      rewrite decide_False by done. done.
  - rewrite decide_True by lia. done.
Qed.

(** C29 Over a FuncInfo whose tables can be read, the search
    answers with the first handler of a thrown type among the handlers of the
    try blocks that cover the state of the PC, in the order of the tables, and
    with the first catch-all of these if no type matches; with nothing if there
    is neither. *)
Theorem find_msvc_catch_spec func_info_va control_pc throw_info_va state thrown :
  parse_func_info rd func_info_va = Ok info →
  state_for_ip rd image_base info control_pc = Ok state →
  attempt (throw_catchable_type_rvas rd image_base throw_info_va) = Ok thrown →
  find_msvc_catch rd image_base func_info_va control_pc throw_info_va =
  Ok ((λ c, catch_of image_base info state c.1 c.2) <$> chosen thrown (covering state tries)).
Proof using Hreads.
  intros Hinfo Hstate Hthrown. unfold find_msvc_catch. rewrite Hinfo. cbn [mbind res_bind].
  destruct (decide (tries = [])) as [Hnil|Hne].
  - rewrite decide_True by (left; rewrite (rt_count _ Hreads), Hnil; done). unfold covering. by rewrite Hnil.
  - rewrite decide_False.
    2: { intros [Hz|Hz]; [|by apply (rt_rva _ Hreads) in Hz]. rewrite (rt_count _ Hreads) in Hz. by destruct tries. }
    rewrite Hstate. cbn [attempt mbind res_bind]. rewrite Hthrown. cbn [mbind res_bind].
    rewrite try_steps. cbn [mbind res_bind or_none]. f_equal.
    rewrite handler_fun_scan. unfold chosen. destruct (List.find (typed_for thrown) _); [done|].
    done.
Qed.
End Catch.

(** ** The state of an address *)

Definition reads_ip_map (map_va : u64) (entries : list (u32 * Z)) : Prop :=
  ∀ i ip st, entries !! i = Some (ip, st) →
    read_u32 rd (sat_add map_va (Z.of_nat i * 8)) = Ok ip ∧ read_i32 rd (wrapping_add (sat_add map_va (Z.of_nat i * 8)) 4) = Ok st.

Lemma ip_scan pc (entries : list (u32 * Z)) : ∀ best,
  StronglySorted Z.lt (fst <$> entries) →
  match scan (λ e best, if decide (e.1 ≤ pc) then inl (Some e.2) else inr best) entries best with inl b | inr b => b end =
  match last (filter (λ e, e.1 ≤ pc) entries) with Some e => Some e.2 | None => best end.
Proof.
  induction entries as [|[ip st] entries IH]; intros best Hs; [done|]. cbn [scan]. rewrite filter_cons. cbn [fst].
  apply StronglySorted_inv in Hs as [Hs Hall]. destruct (decide (ip ≤ pc)) as [Hle|Hgt].
  - rewrite IH by done. rewrite last_cons. by destruct (last _).
  - assert (Hnil : filter (λ e, e.1 ≤ pc) entries = []); [|by rewrite Hnil].
    clear IH. induction entries as [|[ip' st'] entries IH']; [done|]. rewrite filter_cons. cbn [fst].
    apply Forall_cons in Hall as [Hlt Hall]. apply StronglySorted_inv in Hs as [Hs _].
    rewrite decide_False by (cbn in Hlt; lia). by apply IH'.
Qed.

(** The state of an address is that of the last entry of the
    map that is not beyond it, and -1 before the first entry. *)
Lemma state_for_ip_spec image_base info control_pc entries :
  n_ip_map info = Z.of_nat (length entries) → entries ≠ [] → ip_to_state_map_rva info ≠ 0 →
  reads_ip_map (sat_add image_base (ip_to_state_map_rva info)) entries → StronglySorted Z.lt (fst <$> entries) →
  state_for_ip rd image_base info control_pc =
  Ok (match last (filter (λ e, e.1 ≤ sat_sub control_pc image_base mod u32_lim) entries) with Some e => e.2 | None => -1 end).
Proof.
  intros Hn Hne Hrva Hmap Hs. unfold state_for_ip. rewrite decide_False.
  2: { intros [Hz|?]; [|done]. rewrite Hn in Hz. by destruct entries. }
  rewrite Hn, Nat2Z.id. set (pc := _ mod u32_lim).
  rewrite (for_range_scan _ (λ e best, if decide (e.1 ≤ pc) then inl (Some e.2) else inr best) entries).
  - cbn [mbind res_bind]. f_equal. rewrite ip_scan by done. by destruct (last _).
  - intros i [ip st] best Hi. destruct (Hmap i ip st Hi) as [Hip Hst]. unfold ip_entry.
    rewrite Z.add_0_l, Hip. cbn [mbind res_bind]. rewrite Hst. done.
Qed.

(** ** The destructors of the states that are left *)

(** From a state down to, and without, another: the actions on the way. *)
Inductive unwinds (image_base : u64) (unwind_map_rva : u32) (to : Z) : Z → list u32 → nat → Prop :=
  | unwinds_end state : state < 0 ∨ state ≤ to → unwinds image_base unwind_map_rva to state [] 0
  | unwinds_next state entry actions n :
      0 ≤ state → to < state → read_unwind_map_entry rd image_base unwind_map_rva state = Ok entry → to_state entry < state →
      unwinds image_base unwind_map_rva to (to_state entry) actions n →
      unwinds image_base unwind_map_rva to state
        (if decide (action_rva entry ≠ 0) then action_rva entry :: actions else actions) (S n).

Lemma unwind_loop image_base rva max_state to state actions n :
  unwinds image_base rva to state actions n → (0 < max_state → state < max_state) →
  ∀ m i acc, (n ≤ m)%nat →
  ∃ r, for_range m i (unwind_step rd image_base rva max_state to) (state, acc) = Ok r ∧
    match r with inl (_, out) | inr out => out = acc ++ actions end.
Proof.
  induction 1 as [state Hend|state entry actions n Hpos Hto Hread Hlt Hun IH]; intros Hmax m i acc Hm.
  - destruct m as [|m]; cbn [for_range].
    + exists (inl (state, acc)). split; [done|by rewrite app_nil_r].
    + cbn [unwind_step]. rewrite decide_True by done. exists (inr acc). split; [done|by rewrite app_nil_r].
  - destruct m as [|m]; [lia|]. cbn [for_range unwind_step].
    rewrite !decide_False by lia. rewrite Hread. cbn [attempt mbind res_bind]. rewrite decide_False by lia.
    destruct (IH ltac:(lia) m (i + 1) (if decide (action_rva entry ≠ 0) then acc ++ [action_rva entry] else acc)) as (r & Hr & Hout); [lia|].
    exists r. split; [exact Hr|]. case_decide; [|done]. by rewrite <- app_assoc in Hout.
Qed.

(** The destructors on the way from one state down to
    another are collected innermost first, each exactly once, when there are at
    most 64 states on the way; a state beyond the map ends the walk. *)
Theorem unwind_actions_spec image_base rva max_state from to actions n :
  rva ≠ 0 → unwinds image_base rva to from actions n → (n ≤ 64)%nat → (0 < max_state → from < max_state) →
  collect_unwind_actions rd image_base rva max_state from to = Ok actions.
Proof.
  intros Hrva Hun Hn Hmax. unfold collect_unwind_actions. destruct (decide (rva = 0 ∨ from < 0)) as [[?|Hneg]|_]; [done| |].
  - destruct Hun; [done|lia].
  - destruct (unwind_loop _ _ _ _ _ _ _ Hun Hmax 64 0 [] Hn) as (r & Hr & Hout). rewrite Hr. cbn [mbind res_bind]. by destruct r as [[??]|?]; subst.
Qed.
End Tables.
