(* ===== verification/unwind_spec.v ===== *)
(** * Unwinding undoes the prologue

    A prologue as a list of operations, what they do to registers and stack, and
    their UNWIND_CODEs.  [virtual_unwind] on a frame set up by a prologue gives back
    the registers of the caller. *)

From S2P Require Import Prelude regs insn sync_obj exception.

(** ** What a reader finds in memory *)

(** The reader finds [bs] at [a]. *)
Definition found (read_mem : u64 → nat → res (list u8)) (a : u64) (bs : list u8) : Prop :=
  ∀ off n, (off + n ≤ length bs)%nat → read_mem (a + Z.of_nat off) n = Ok (take n (drop off bs)).

Lemma found_all rd a bs : found rd a bs → rd a (length bs) = Ok bs.
Proof. intros Hf. specialize (Hf 0%nat (length bs)). rewrite Z.add_0_r, drop_0, firstn_all in Hf. by apply Hf. Qed.

Lemma found_app rd a x y : found rd a (x ++ y) → found rd a x ∧ found rd (a + Z.of_nat (length x)) y.
Proof.
  intros Hf. split; intros off n Hn.
  - rewrite Hf by (rewrite length_app; lia). f_equal. rewrite drop_app_le by lia. apply take_app_le. rewrite length_drop. lia.
  - replace (a + Z.of_nat (length x) + Z.of_nat off) with (a + Z.of_nat (length x + off)) by lia.
    rewrite Hf by (rewrite length_app; lia). by rewrite drop_app_add'.
Qed.

Lemma found_bytes rd a n v : found rd a (le_bytes n v) → rd a n = Ok (le_bytes n v).
Proof. intros Hf. apply found_all in Hf. by rewrite length_le_bytes in Hf. Qed.

(** ** Prologues *)

Inductive prolog_op :=
  | PPush (reg : nat)
  | PAlloc (n : Z)
  | PSetFp
  | PSave (reg : nat) (off : Z)
  | PSaveXmm (reg : nat) (off : Z).

Section Prolog.
(** The frame register and its offset; register 0 means none. *)
Context (fp : nat) (foff : Z).

Definition run_op (op : prolog_op) (c : UnwindContext) : UnwindContext :=
  match op with
  | PPush _ => uc_set_rsp (uc_rsp c - 8) c
  | PAlloc n => uc_set_rsp (uc_rsp c - n) c
  | PSetFp => uc_set_gpr fp (uc_rsp c + foff * 16) c
  | PSave _ _ | PSaveXmm _ _ => c
  end.
Definition run_prolog (p : list prolog_op) (c : UnwindContext) : UnwindContext := foldl (λ c op, run_op op c) c p.

Definition reg_of (c : UnwindContext) (r : nat) : u64 := default 0 (uc_gpr c !! r).
Definition xmm_of (c : UnwindContext) (r : nat) : u128 := default 0 (uc_xmm c !! r).

(** What one operation stores, [base] being where the offsets of saves count from. *)
Definition op_stores (base : Z) (op : prolog_op) (c : UnwindContext) : list (Z * list u8) :=
  match op with
  | PPush r => [(uc_rsp c - 8, le_bytes 8 (reg_of c r))]
  | PSave r off => [(base + off, le_bytes 8 (reg_of c r))]
  | PSaveXmm r off => [(base + off, le_bytes 16 (xmm_of c r))]
  | PAlloc _ | PSetFp => []
  end.
Fixpoint prolog_stores (base : Z) (p : list prolog_op) (c : UnwindContext) : list (Z * list u8) :=
  match p with
  | [] => []
  | op :: p => op_stores base op c ++ prolog_stores base p (run_op op c)
  end.

Definition op_gpr (op : prolog_op) : list nat := match op with PPush r | PSave r _ => [r] | _ => [] end.
Definition op_xmm (op : prolog_op) : list nat := match op with PSaveXmm r _ => [r] | _ => [] end.
Definition saved_gprs (p : list prolog_op) : list nat := p ≫= op_gpr.
Definition saved_xmms (p : list prolog_op) : list nat := p ≫= op_xmm.

(** Operands in range; saves need a frame register, which is saved before it is set. *)
Definition op_ok (before : list prolog_op) (op : prolog_op) : Prop :=
  match op with
  | PPush r => (r < 16)%nat
  | PAlloc n => 8 ≤ n < 2 ^ 32 ∧ n mod 8 = 0
  | PSetFp => fp ≠ 0%nat ∧ fp ∈ saved_gprs before
  | PSave r off => fp ≠ 0%nat ∧ (r < 16)%nat ∧ 0 ≤ off < 2 ^ 32 ∧ off mod 8 = 0
  | PSaveXmm r off => fp ≠ 0%nat ∧ (r < 16)%nat ∧ 0 ≤ off < 2 ^ 32 ∧ off mod 16 = 0
  end.
Definition prolog_ok (p : list prolog_op) : Prop := ∀ before op after, p = before ++ op :: after → op_ok before op.

(** *** The codes *)

Definition opcode (o : u8) (code info : Z) : list u8 := [o; code + 16 * info].
Definition scaled (o : u8) (near info off scale : Z) : list u8 :=
  if decide (off / scale < 65536) then opcode o near info ++ le_bytes 2 (off / scale)
  else opcode o (near + 1) info ++ le_bytes 4 off.

(** The slots of an operation at prologue offset [o]. *)
Definition encode_op (oop : u8 * prolog_op) : list u8 :=
  let o := oop.1 in
  match oop.2 with
  | PPush r => opcode o uwop.PUSH_NONVOL (Z.of_nat r)
  | PAlloc n =>
      if decide (n ≤ 128) then opcode o uwop.ALLOC_SMALL (n / 8 - 1)
      else if decide (n / 8 < 65536) then opcode o uwop.ALLOC_LARGE 0 ++ le_bytes 2 (n / 8)
      else opcode o uwop.ALLOC_LARGE 1 ++ le_bytes 4 n
  | PSetFp => opcode o uwop.SET_FPREG 0
  | PSave r off => scaled o uwop.SAVE_NONVOL (Z.of_nat r) off 8
  | PSaveXmm r off => scaled o uwop.SAVE_XMM128 (Z.of_nat r) off 16
  end.
(** The last operation comes first. *)
Definition encode_prolog (p : list (u8 * prolog_op)) : list u8 := concat (encode_op <$> reverse p).
End Prolog.

(** ** Undoing the operations *)

Section Undo.
Context (rd : u64 → nat → res (list u8)) (fp_rsp : u64).

Definition undo_op (op : prolog_op) (s : u64 * UnwindContext) : res (u64 * UnwindContext) :=
  let '(rsp, ctx) := s in
  match op with
  | PPush r => ctx ← restore_gpr rd rsp r ctx; Ok (sat_add rsp 8, ctx)
  | PAlloc n => Ok (sat_add rsp n, ctx)
  | PSetFp => Ok (rsp, ctx)
  | PSave r off => ctx ← restore_gpr rd (sat_add fp_rsp off) r ctx; Ok (rsp, ctx)
  | PSaveXmm r off => ctx ← restore_xmm rd (sat_add fp_rsp off) r ctx; Ok (rsp, ctx)
  end.
Fixpoint undo_ops (q : list prolog_op) (s : u64 * UnwindContext) : res (u64 * UnwindContext) :=
  match q with [] => Ok s | op :: q => s ← undo_op op s; undo_ops q s end.
End Undo.

(** ** Decoding *)

Lemma get_range_mid pre x post off n :
  off = length pre → n = length x → get_range (pre ++ x ++ post) off n = Some x.
Proof.
  intros -> ->. unfold get_range. rewrite decide_True by (rewrite !length_app; lia).
  by rewrite drop_app_length, take_app_length.
Qed.

Lemma opcode_fields code info :
  0 ≤ code < 16 → 0 ≤ info < 16 →
  Z.land (code + 16 * info) 0x0f = code ∧ Z.land (Z.shiftr (code + 16 * info) 4) 0x0f = info.
Proof.
  intros Hc Hi. change 0x0f with (Z.ones 4). rewrite !Z.land_ones, Z.shiftr_div_pow2 by lia.
  change (2 ^ 4) with 16. split.
  - rewrite Z.mul_comm, Z_mod_plus_full. by apply Z.mod_small.
  - rewrite Z.mul_comm, Z.div_add, Z.div_small by lia. by apply Z.mod_small.
Qed.

Lemma code_at pre o code info rest idx :
  length pre = (idx * 2)%nat → 0 ≤ code < 16 → 0 ≤ info < 16 →
  code_from_bytes (pre ++ opcode o code info ++ rest) (idx * 2) = Some (mkCode o code info).
Proof.
  intros Hl Hc Hi. unfold code_from_bytes. rewrite get_range_mid by done.
  destruct (opcode_fields code info Hc Hi) as [E1 E2]. unfold opcode, byte_of. simpl. by rewrite E1, E2.
Qed.

Lemma slot16_at pre o code info v rest idx :
  length pre = (idx * 2)%nat → 0 ≤ v < 65536 →
  slot16 (pre ++ opcode o code info ++ le_bytes 2 v ++ rest) (idx + 1) = v.
Proof.
  intros Hl Hv. unfold slot16, slot_or_zero, raw_slot. rewrite app_assoc.
  rewrite get_range_mid by (rewrite ?length_app; simpl; lia). cbn [from_option]. unfold id. rewrite le_val_le_bytes.
  by apply Z.mod_small.
Qed.

Lemma slot32_at pre o code info v rest idx :
  length pre = (idx * 2)%nat → 0 ≤ v < 2 ^ 32 →
  slot32 (pre ++ opcode o code info ++ le_bytes 4 v ++ rest) (idx + 1) = v.
Proof.
  intros Hl Hv. unfold slot32, slot_or_zero, raw_slot.
  assert (E : le_bytes 4 v = take 2 (le_bytes 4 v) ++ drop 2 (le_bytes 4 v)) by (by rewrite take_drop).
  rewrite E at 1 2. rewrite <- !app_assoc, app_assoc.
  rewrite get_range_mid by (rewrite ?length_app; simpl; lia). rewrite app_assoc.
  rewrite get_range_mid by (rewrite ?length_app; simpl; lia). cbn [from_option]. unfold id.
  rewrite <- E, le_val_le_bytes. by apply Z.mod_small.
Qed.

(** All slots decode. *)
Lemma codes_lookup buf count idx :
  length buf = (count * 2)%nat →
  omap (λ i, code_from_bytes buf (i * 2)) (seq 0 count) !! idx =
  if decide (idx < count)%nat then code_from_bytes buf (idx * 2) else None.
Proof.
  intros Hl. set (f := λ i, mkCode (byte_of (take 2 (drop (i * 2) buf)) 0) (Z.land (byte_of (take 2 (drop (i * 2) buf)) 1) 0x0f)
    (Z.land (Z.shiftr (byte_of (take 2 (drop (i * 2) buf)) 1) 4) 0x0f)).
  assert (Hf : ∀ i, (i < count)%nat → code_from_bytes buf (i * 2) = Some (f i)).
  { intros i Hi. unfold code_from_bytes, get_range. by rewrite decide_True by lia. }
  assert (E : omap (λ i, code_from_bytes buf (i * 2)) (seq 0 count) = f <$> seq 0 count).
  { assert (Hall : Forall (λ i, (i < count)%nat) (seq 0 count)) by (apply Forall_seq; lia).
    revert Hall. generalize (seq 0 count). induction l as [|i l IH]; [done|]. intros [Hi Hl']%Forall_cons. simpl.
    rewrite Hf by done. simpl. f_equal. by apply IH. }
  rewrite E, list_lookup_fmap. destruct (decide (idx < count)%nat).
  - rewrite lookup_seq_lt by done. simpl. by rewrite Hf.
  - by rewrite (lookup_ge_None_2 (seq 0 count)) by (rewrite length_seq; lia).
Qed.

Lemma codes_length buf count :
  length buf = (count * 2)%nat → length (omap (λ i, code_from_bytes buf (i * 2)) (seq 0 count)) = count.
Proof.
  intros Hl. pose proof (codes_lookup buf count) as Hlook. apply Nat.le_antisymm.
  - apply lookup_ge_None_1. rewrite Hlook by done. by rewrite decide_False by lia.
  - destruct count as [|n]; [lia|]. apply lookup_lt_is_Some_1. rewrite Hlook by done. rewrite decide_True by lia.
    unfold code_from_bytes, get_range. rewrite decide_True by lia. eauto.
Qed.

Lemma div_scaled off scale : 0 < scale → off mod scale = 0 → 0 ≤ off → off / scale * scale = off ∧ 0 ≤ off / scale.
Proof. intros Hs Hm Ho. split; [by apply div_mul_aligned|]. by apply Z.div_pos. Qed.

(** Evaluate the comparisons of known opcodes. *)
Ltac pick_op := repeat (rewrite decide_False by (by vm_compute)); rewrite decide_True by (by vm_compute).

(** One operation decoded and undone. *)
Section UndoCode.
Context (rd : u64 → nat → res (list u8)) (fp_rsp : u64) (fp : nat).

Definition op_slots (oop : u8 * prolog_op) : nat := length (encode_op oop) / 2.

Lemma undo_code_op before o op pre rest idx rsp ctx :
  op_ok fp before op → length pre = (idx * 2)%nat →
  let buf := pre ++ encode_op (o, op) ++ rest in
  ∃ c, code_from_bytes buf (idx * 2) = Some c ∧
    undo_code rd buf fp_rsp idx rsp ctx c =
      ('(rsp, ctx) ← undo_op rd fp_rsp op (rsp, ctx); Ok ((idx + op_slots (o, op))%nat, rsp, ctx)) ∧
    length (encode_op (o, op)) = (op_slots (o, op) * 2)%nat ∧ (0 < op_slots (o, op))%nat.
Proof.
  intros Hop Hl buf. unfold undo_code. pose proof (λ r, Nat2Z.id r) as Hid.
  destruct op as [r|n| |r off|r off]; simpl in Hop.
  - exists (mkCode o uwop.PUSH_NONVOL (Z.of_nat r)). split; [by apply code_at; [|by vm_compute|lia]|].
    cbn [unwind_op op_info]. rewrite Hid. split; [|by split; [|by vm_compute; lia]].
    rewrite decide_True by done. cbn [undo_op]. destruct (restore_gpr rd rsp r ctx); [|done..].
    simpl. do 3 f_equal. change (op_slots (o, PPush r)) with 1%nat. lia.
  - destruct Hop as [Hn Hm]. destruct (div_scaled n 8 ltac:(lia) Hm ltac:(lia)) as [Hd _].
    unfold op_slots, encode_op in *; cbn [fst snd] in *.
    destruct (decide (n ≤ 128)); [|destruct (decide (n / 8 < 65536))].
    + exists (mkCode o uwop.ALLOC_SMALL (n / 8 - 1)). split; [by apply code_at; [|by vm_compute|lia]|].
      cbn [unwind_op op_info]. split; [|by split; [|by vm_compute; lia]]. pick_op. cbn [undo_op]. simpl. do 4 f_equal; lia.
    + exists (mkCode o uwop.ALLOC_LARGE 0). subst buf. rewrite <- app_assoc.
      split; [by apply code_at; [|by vm_compute|lia]|].
      cbn [unwind_op op_info]. split; [|by split; [|by vm_compute; lia]]. pick_op. unfold alloc_large_size, alloc_large_slots.
      cbn [op_info]. pick_op. rewrite slot16_at by (done || lia). rewrite Hd. done.
    + exists (mkCode o uwop.ALLOC_LARGE 1). subst buf. rewrite <- app_assoc.
      split; [by apply code_at; [|by vm_compute|lia]|].
      cbn [unwind_op op_info]. split; [|by split; [|by vm_compute; lia]]. pick_op. unfold alloc_large_size, alloc_large_slots.
      cbn [op_info]. rewrite !(decide_False (P := 1 = 0)) by done. rewrite slot32_at by (done || lia). done.
  - exists (mkCode o uwop.SET_FPREG 0). split; [by apply code_at; [|by vm_compute|by vm_compute]|].
    cbn [unwind_op op_info]. split; [|by split; [|by vm_compute; lia]]. pick_op. cbn [undo_op]. simpl.
    change (op_slots (o, PSetFp)) with 1%nat. do 3 f_equal. lia.
  - destruct Hop as (_ & Hr & Ho & Hm). destruct (div_scaled off 8 ltac:(lia) Hm ltac:(lia)) as [Hd Hp].
    unfold op_slots, encode_op, scaled in *; cbn [fst snd] in *. subst buf. destruct (decide (off / 8 < 65536)).
    + exists (mkCode o uwop.SAVE_NONVOL (Z.of_nat r)). rewrite <- app_assoc.
      split; [by apply code_at; [|by vm_compute|lia]|].
      cbn [unwind_op op_info]. rewrite Hid. split; [|by split; [|by vm_compute; lia]]. pick_op.
      rewrite slot16_at by (done || lia). rewrite Hd. cbn [undo_op]. by destruct (restore_gpr rd _ r ctx).
    + exists (mkCode o uwop.SAVE_NONVOL_FAR (Z.of_nat r)). rewrite <- app_assoc.
      split; [by apply code_at; [|by vm_compute|lia]|].
      cbn [unwind_op op_info]. rewrite Hid. split; [|by split; [|by vm_compute; lia]]. pick_op.
      rewrite slot32_at by (done || lia). cbn [undo_op]. by destruct (restore_gpr rd _ r ctx).
  - destruct Hop as (_ & Hr & Ho & Hm). destruct (div_scaled off 16 ltac:(lia) Hm ltac:(lia)) as [Hd Hp].
    unfold op_slots, encode_op, scaled in *; cbn [fst snd] in *. subst buf. destruct (decide (off / 16 < 65536)).
    + exists (mkCode o uwop.SAVE_XMM128 (Z.of_nat r)). rewrite <- app_assoc.
      split; [by apply code_at; [|by vm_compute|lia]|].
      cbn [unwind_op op_info]. rewrite Hid. split; [|by split; [|by vm_compute; lia]]. pick_op.
      rewrite slot16_at by (done || lia). rewrite Hd. cbn [undo_op]. by destruct (restore_xmm rd _ r ctx).
    + exists (mkCode o uwop.SAVE_XMM128_FAR (Z.of_nat r)). rewrite <- app_assoc.
      split; [by apply code_at; [|by vm_compute|lia]|].
      cbn [unwind_op op_info]. rewrite Hid. split; [|by split; [|by vm_compute; lia]]. pick_op.
      rewrite slot32_at by (done || lia). cbn [undo_op]. by destruct (restore_xmm rd _ r ctx).
Qed.
End UndoCode.

(** *** The loop over the codes *)

Section Loop.
Context (rd : u64 → nat → res (list u8)) (fp_rsp : u64) (fp : nat) (buf : list u8) (count : nat).
Context (Hbuf : length buf = (count * 2)%nat).
Let codes := omap (λ i, code_from_bytes buf (i * 2)) (seq 0 count).

Lemma undo_loop q : ∀ pre idx rsp ctx m,
  Forall (λ oop, ∃ before, op_ok fp before oop.2) q → buf = pre ++ concat (encode_op <$> q) → length pre = (idx * 2)%nat →
  (count - idx < m)%nat →
  iter_nat m (undo_step rd buf codes fp_rsp) (idx, rsp, ctx) = inr (undo_ops rd fp_rsp (q.*2) (rsp, ctx)).
Proof.
  induction q as [|[o op] q IH]; intros pre idx rsp ctx m Hq Hb Hl Hm; (destruct m as [|m]; [lia|]); cbn [iter_nat];
    unfold undo_step at 1; subst codes; rewrite codes_lookup by done.
  - rewrite decide_False; [done|]. cbn [fmap list_fmap concat] in Hb. rewrite app_nil_r in Hb. subst. lia.
  - apply Forall_cons in Hq as [[before Hop] Hq]. cbn [fmap list_fmap concat] in Hb.
    destruct (undo_code_op rd fp_rsp fp before o op pre (concat (encode_op <$> q)) idx rsp ctx Hop Hl) as (c & Ec & Eu & Hlen & Hpos).
    rewrite <- Hb in Ec, Eu. assert (Hbl : length buf = (length pre + length (encode_op (o, op)) + length (concat (encode_op <$> q)))%nat).
    { rewrite Hb at 1. rewrite !length_app. lia. }
    rewrite decide_True by lia. rewrite Ec, Eu. cbn [list_fmap fmap snd undo_ops].
    destruct (undo_op rd fp_rsp op (rsp, ctx)) as [[rsp' ctx']|e|w]; [|done..]. simpl.
    apply (IH (pre ++ encode_op (o, op))); [done| | |lia].
    + rewrite <- app_assoc. exact Hb.
    + rewrite length_app. lia.
Qed.
End Loop.

Lemma concat_snd_reverse (p : list (u8 * prolog_op)) : (reverse p).*2 = reverse (p.*2).
Proof. apply fmap_reverse. Qed.

Lemma encode_length_even fp p :
  Forall (λ oop, ∃ before, op_ok fp before oop.2) p → (length (concat (encode_op <$> p)) mod 2 = 0)%nat.
Proof.
  induction p as [|[o op] p IH]; [done|]. intros [[before Hop] Hp]%Forall_cons. cbn [list_fmap fmap concat]. rewrite length_app.
  destruct (undo_code_op (λ _ _, failed) 0 fp before o op [] [] 0 0 (mkUnwind 0 0 [] []) Hop eq_refl) as (_ & _ & _ & E & _).
  specialize (IH Hp). rewrite E. rewrite Nat.add_comm, Nat.Div0.mod_add. done.
Qed.

(** The codes of a prologue undo its operations, last first. *)
Lemma undo_codes_prolog rd fp_rsp fp p ctx :
  Forall (λ oop, ∃ before, op_ok fp before oop.2) p →
  let buf := encode_prolog p in
  let count := (length buf / 2)%nat in
  undo_codes rd buf (omap (λ i, code_from_bytes buf (i * 2)) (seq 0 count)) fp_rsp ctx =
  undo_ops rd fp_rsp (reverse (p.*2)) (uc_rsp ctx, ctx).
Proof.
  intros Hp buf count. assert (Hr : Forall (λ oop, ∃ before, op_ok fp before oop.2) (reverse p)).
  { by apply Forall_reverse. }
  assert (Hl : length buf = (count * 2)%nat).
  { pose proof (encode_length_even fp (reverse p) Hr). unfold count. pose proof (Nat.div_mod_eq (length buf) 2).
    unfold buf, encode_prolog in *. lia. }
  unfold undo_codes, run_loop. rewrite iter_until_nat. rewrite <- concat_snd_reverse.
  erewrite (undo_loop rd fp_rsp fp buf count Hl (reverse p) [] 0); [done|done|done|done|].
  rewrite codes_length by done. unfold fuel_of. lia.
Qed.

(** ** The prologue undone *)

Section Inverse.
Context (rd : u64 → nat → res (list u8)) (base : Z) (fp : nat) (foff : Z).

(** What the prologue stored is still there. *)
Definition intact (st : list (Z * list u8)) : Prop :=
  Forall (λ s, found rd s.1 s.2 ∧ s.1 + Z.of_nat (length s.2) < u64_lim) st.

Lemma run_prolog_snoc p op c : run_prolog fp foff (p ++ [op]) c = run_op fp foff op (run_prolog fp foff p c).
Proof. unfold run_prolog. by rewrite foldl_app. Qed.

Lemma prolog_stores_snoc p op : ∀ c,
  prolog_stores fp foff base (p ++ [op]) c =
  prolog_stores fp foff base p c ++ op_stores base op (run_prolog fp foff p c).
Proof. induction p as [|o p IH]; intros c; simpl; [by rewrite app_nil_r|]. by rewrite IH, app_assoc. Qed.

Lemma undo_ops_app q1 q2 s :
  undo_ops rd base (q1 ++ q2) s = (s' ← undo_ops rd base q1 s; undo_ops rd base q2 s').
Proof.
  revert s. induction q1 as [|op q1 IH]; intros s; [done|]. simpl. destruct (undo_op rd base op s); [|done..]. apply IH.
Qed.

Lemma prolog_ok_snoc p op : prolog_ok fp (p ++ [op]) → prolog_ok fp p ∧ op_ok fp p op.
Proof.
  intros Hp. split; [|by eapply (Hp p op [])]. intros b o a ->. apply (Hp b o (a ++ [op])). by rewrite <- app_assoc.
Qed.

Lemma saved_gprs_snoc p op : saved_gprs (p ++ [op]) = saved_gprs p ++ op_gpr op.
Proof. unfold saved_gprs. rewrite bind_app. simpl. by rewrite app_nil_r. Qed.
Lemma saved_xmms_snoc p op : saved_xmms (p ++ [op]) = saved_xmms p ++ op_xmm op.
Proof. unfold saved_xmms. rewrite bind_app. simpl. by rewrite app_nil_r. Qed.

(** A register that was not saved is what it was. *)
Lemma run_prolog_reg p c r : prolog_ok fp p → r ∉ saved_gprs p → reg_of (run_prolog fp foff p c) r = reg_of c r.
Proof.
  induction p as [|op p IH] using rev_ind; [done|]. intros [Hp Hop]%prolog_ok_snoc. rewrite saved_gprs_snoc, run_prolog_snoc.
  intros Hr. rewrite elem_of_app in Hr. rewrite <- IH by tauto.
  destruct op; simpl in *; try done. destruct Hop as [_ Hfp]. unfold reg_of. simpl.
  rewrite list_lookup_insert_ne; [done|]. intros ->. tauto.
Qed.
Lemma run_prolog_xmm p c : uc_xmm (run_prolog fp foff p c) = uc_xmm c.
Proof. induction p as [|op p IH] using rev_ind; [done|]. rewrite run_prolog_snoc. by destruct op. Qed.

Record context_ok (c : UnwindContext) : Prop := {
  co_rsp : uc_rsp c < u64_lim;
  co_gprs : length (uc_gpr c) = 16%nat;
  co_xmms : length (uc_xmm c) = 16%nat;
  co_gpr : ∀ r, in_u64 (reg_of c r);
  co_xmm : ∀ r, 0 ≤ xmm_of c r < 2 ^ 128;
}.

Lemma reg_of_set c i v r : (i < length (uc_gpr c))%nat → reg_of (uc_set_gpr i v c) r = if decide (r = i) then v else reg_of c r.
Proof.
  intros Hi. unfold reg_of. simpl. destruct (decide (r = i)) as [->|]; [by rewrite list_lookup_insert_eq|].
  by rewrite list_lookup_insert_ne.
Qed.
Lemma xmm_of_set c i v r : (i < length (uc_xmm c))%nat → xmm_of (uc_set_xmm i v c) r = if decide (r = i) then v else xmm_of c r.
Proof.
  intros Hi. unfold xmm_of. simpl. destruct (decide (r = i)) as [->|]; [by rewrite list_lookup_insert_eq|].
  by rewrite list_lookup_insert_ne.
Qed.

(** Registers restored by undoing [p] on [c], the rest as in [c]. *)
Record restored (p : list prolog_op) (c0 c c' : UnwindContext) : Prop := {
  rs_rip : uc_rip c' = uc_rip c;
  rs_gprs : length (uc_gpr c') = length (uc_gpr c);
  rs_xmms : length (uc_xmm c') = length (uc_xmm c);
  rs_gpr : ∀ r, reg_of c' r = if decide (r ∈ saved_gprs p) then reg_of c0 r else reg_of c r;
  rs_xmm : ∀ r, xmm_of c' r = if decide (r ∈ saved_xmms p) then xmm_of c0 r else xmm_of c r;
}.

Lemma rsp_le p c : prolog_ok fp p → uc_rsp (run_prolog fp foff p c) ≤ uc_rsp c.
Proof.
  induction p as [|op p IH] using rev_ind; [done|]. intros [Hp Hop]%prolog_ok_snoc. rewrite run_prolog_snoc. specialize (IH Hp).
  destruct op; simpl in *; lia.
Qed.

Lemma restore_gpr_found a r v c :
  found rd a (le_bytes 8 v) → restore_gpr rd a r c = Ok (uc_set_gpr r (v mod 2 ^ 64) c).
Proof. intros Hf. unfold restore_gpr. rewrite (found_bytes _ _ _ _ Hf). unfold mbind, res_bind. by rewrite le_val_le_bytes. Qed.
Lemma restore_xmm_found a r v c :
  found rd a (le_bytes 16 v) → restore_xmm rd a r c = Ok (uc_set_xmm r (v mod 2 ^ 128) c).
Proof. intros Hf. unfold restore_xmm. rewrite (found_bytes _ _ _ _ Hf). unfold mbind, res_bind. by rewrite le_val_le_bytes. Qed.

(** What [c1] of undoing [op] is, in terms of the state before it. *)
Lemma undo_op_inverse p op c0 c :
  context_ok c0 → length (uc_gpr c) = 16%nat → length (uc_xmm c) = 16%nat →
  prolog_ok fp p → op_ok fp p op → intact (op_stores base op (run_prolog fp foff p c0)) →
  ∃ c1, undo_op rd base op (uc_rsp (run_op fp foff op (run_prolog fp foff p c0)), c) =
      Ok (uc_rsp (run_prolog fp foff p c0), c1) ∧
    uc_rip c1 = uc_rip c ∧ length (uc_gpr c1) = 16%nat ∧ length (uc_xmm c1) = 16%nat ∧
    (∀ r, r ∉ saved_gprs p → reg_of c1 r = if decide (r ∈ op_gpr op) then reg_of c0 r else reg_of c r) ∧
    (∀ r, xmm_of c1 r = if decide (r ∈ op_xmm op) then xmm_of c0 r else xmm_of c r).
Proof.
  intros [Hrsp Hg Hx Hgr Hxr] Hlg Hlx Hp Hop Hin. pose proof (rsp_le p c0 Hp) as Hle.
  set (s := run_prolog fp foff p c0) in *. assert (Hreg : ∀ r, r ∉ saved_gprs p → reg_of s r = reg_of c0 r).
  { intros r. by apply run_prolog_reg. }
  assert (Hxmm : ∀ r, xmm_of s r = xmm_of c0 r) by (intros r; unfold xmm_of, s; by rewrite run_prolog_xmm).
  destruct op as [r|n| |r off|r off]; simpl in Hop; unfold op_stores, intact in Hin; cbn [op_gpr op_xmm].
  - apply Forall_cons in Hin as [[Hf Hb] _]. simpl in Hf, Hb. cbn [undo_op run_op uc_set_rsp uc_rsp].
    rewrite (restore_gpr_found _ _ _ _ Hf). unfold mbind, res_bind. rewrite sat_add_lt by lia. rewrite Z.sub_add.
    eexists. split; [reflexivity|]. split_and!; [done|by simpl; rewrite length_insert|done| |].
    + intros k Hk. rewrite reg_of_set by lia. destruct (decide (k = r)) as [->|].
      * rewrite decide_True by (by left). rewrite Hreg by done. by apply Z.mod_small, Hgr.
      * by rewrite decide_False by (by rewrite list_elem_of_singleton).
    + intros k. by rewrite decide_False by (by apply not_elem_of_nil).
  - cbn [undo_op run_op uc_set_rsp uc_rsp]. rewrite sat_add_lt by lia. rewrite Z.sub_add. eexists. split; [reflexivity|].
    split_and!; try done; intros k; intros; by rewrite decide_False by (by apply not_elem_of_nil).
  - cbn [undo_op run_op uc_set_gpr uc_rsp]. eexists. split; [reflexivity|].
    split_and!; try done; intros k; intros; by rewrite decide_False by (by apply not_elem_of_nil).
  - apply Forall_cons in Hin as [[Hf Hb] _]. simpl in Hf, Hb. cbn [undo_op run_op].
    rewrite sat_add_lt by lia. rewrite (restore_gpr_found _ _ _ _ Hf). unfold mbind, res_bind.
    eexists. split; [reflexivity|]. split_and!; [done|by simpl; rewrite length_insert|done| |].
    + intros k Hk. rewrite reg_of_set by lia. destruct (decide (k = r)) as [->|].
      * rewrite decide_True by (by left). rewrite Hreg by done. by apply Z.mod_small, Hgr.
      * by rewrite decide_False by (by rewrite list_elem_of_singleton).
    + intros k. by rewrite decide_False by (by apply not_elem_of_nil).
  - apply Forall_cons in Hin as [[Hf Hb] _]. simpl in Hf, Hb. cbn [undo_op run_op].
    rewrite sat_add_lt by lia. rewrite (restore_xmm_found _ _ _ _ Hf). unfold mbind, res_bind.
    eexists. split; [reflexivity|]. split_and!; [done|done|by simpl; rewrite length_insert| |].
    + intros k Hk. by rewrite decide_False by (by apply not_elem_of_nil).
    + intros k. rewrite xmm_of_set by lia. destruct (decide (k = r)) as [->|].
      * rewrite decide_True by (by left). rewrite Hxmm. by apply Z.mod_small, Hxr.
      * by rewrite decide_False by (by rewrite list_elem_of_singleton).
Qed.

Lemma undo_prolog p : ∀ c0 c,
  context_ok c0 → length (uc_gpr c) = 16%nat → length (uc_xmm c) = 16%nat → prolog_ok fp p →
  intact (prolog_stores fp foff base p c0) →
  ∃ c', undo_ops rd base (reverse p) (uc_rsp (run_prolog fp foff p c0), c) = Ok (uc_rsp c0, c') ∧ restored p c0 c c'.
Proof.
  induction p as [|op p IH] using rev_ind; intros c0 c H0 Hlg Hlx Hp Hin.
  { exists c. split; [done|]. split; try done; intros r; by rewrite decide_False by (by apply not_elem_of_nil). }
  apply prolog_ok_snoc in Hp as [Hp Hop]. rewrite prolog_stores_snoc in Hin. apply Forall_app in Hin as [Hin1 Hin2].
  rewrite run_prolog_snoc, reverse_snoc. cbn [undo_ops].
  destruct (undo_op_inverse p op c0 c H0 Hlg Hlx Hp Hop Hin2) as (c1 & -> & Erip & Hlg1 & Hlx1 & Hr1 & Hx1).
  destruct (IH c0 c1 H0 Hlg1 Hlx1 Hp Hin1) as (c' & E & [R1 R2 R3 R4 R5]).
  exists c'. split; [exact E|]. split; [congruence|congruence|congruence| |].
  - intros r. rewrite R4, saved_gprs_snoc. destruct (decide (r ∈ saved_gprs p)) as [Hs|Hs].
    + by rewrite decide_True by (apply elem_of_app; by left).
    + rewrite Hr1 by done. destruct (decide (r ∈ op_gpr op)); [rewrite decide_True|rewrite decide_False];
        rewrite ?elem_of_app; tauto.
  - intros r. rewrite R5, saved_xmms_snoc, Hx1.
    destruct (decide (r ∈ saved_xmms p)); [by rewrite decide_True by (apply elem_of_app; by left)|].
    destruct (decide (r ∈ op_xmm op)); [rewrite decide_True|rewrite decide_False]; rewrite ?elem_of_app; tauto.
Qed.
End Inverse.

(** ** The whole frame *)

Lemma scan_entry_total buf codes rsp : ∃ v, scan_entry_rsp buf codes rsp = Ok v.
Proof.
  unfold scan_entry_rsp.
  apply (run_loop_rule (scan_step buf codes) (λ _, True) (λ r, ∃ v, r = Ok v)
    (λ s, Z.max 0 (Z.of_nat (length codes) - Z.of_nat s.1))); [|done|unfold fuel_of; cbn [fst]; lia].
  intros [idx e] _. unfold scan_step. destruct (codes !! idx) as [c|] eqn:E; [|eauto]. apply lookup_lt_Some in E.
  assert (Hs : (0 < alloc_large_slots c)%nat) by (unfold alloc_large_slots; case_decide; lia).
  repeat (destruct (decide _)); cbn [fst]; (split; [done|lia]).
Qed.

Lemma header_size_spec i : 0 ≤ count_of_codes i < 256 → header_size i = 4 + 2 * (count_of_codes i + count_of_codes i mod 2).
Proof.
  assert (Hall : Forall (λ c, Z.land (4 + c * 2 + 3) (not_u 64 3) = 4 + 2 * (c + c mod 2)) (seqZ 0 256)).
  { apply (bool_decide_unpack _). vm_compute. exact I. }
  intros Hc. unfold header_size. rewrite Forall_forall in Hall. apply Hall. apply elem_of_seqZ. lia.
Qed.

(** Where the saves of a prologue count from: the stack pointer at SET_FPREG. *)
Definition frame_base (fp : nat) (foff : Z) (p : list prolog_op) (caller : UnwindContext) : Z :=
  sat_sub (reg_of (run_prolog fp foff p caller) fp) (foff * 16).

(** An UNWIND_INFO for a prologue. *)
Definition unwind_image (fl psize : u8) (fp : nat) (foff : Z) (p : list (u8 * prolog_op)) (handler : list u8) : list u8 :=
  let count := (length (encode_prolog p) / 2)%nat in
  [1 + 8 * fl; psize; Z.of_nat count; Z.of_nat fp + 16 * foff] ++ encode_prolog p
  ++ replicate (count mod 2 * 2) 0 ++ handler.

Lemma prolog_stores_base fp foff b b' p c :
  fp = 0%nat → prolog_ok fp p → prolog_stores fp foff b p c = prolog_stores fp foff b' p c.
Proof.
  intros -> . induction p as [|op p IH] using rev_ind; [done|]. intros [Hp Hop]%prolog_ok_snoc.
  rewrite !prolog_stores_snoc. rewrite IH by done. f_equal. destruct op; simpl in *; naive_solver.
Qed.

Lemma prolog_ok_ops fp p : prolog_ok fp (p.*2) → Forall (λ oop : u8 * prolog_op, ∃ before, op_ok fp before oop.2) p.
Proof.
  intros Hp. apply Forall_forall. intros oop Hin. apply list_elem_of_split in Hin as (l1 & l2 & ->).
  exists (l1.*2). apply (Hp _ _ (l2.*2)). by rewrite fmap_app.
Qed.

Lemma encode_even fp p :
  prolog_ok fp (p.*2) → length (encode_prolog p) = (length (encode_prolog p) / 2 * 2)%nat.
Proof.
  intros Hp. pose proof (encode_length_even fp (reverse p) (proj2 (Forall_reverse _ _) (prolog_ok_ops fp p Hp))).
  pose proof (Nat.div_mod_eq (length (encode_prolog p)) 2). unfold encode_prolog in *. lia.
Qed.

Lemma image_length fl psize fp foff p handler :
  prolog_ok fp (p.*2) → let count := (length (encode_prolog p) / 2)%nat in
  length (unwind_image fl psize fp foff p handler) = (4 + count * 2 + (count mod 2 * 2 + length handler))%nat.
Proof.
  intros Hp count. unfold unwind_image. rewrite !length_app, length_replicate. fold count.
  pose proof (encode_even fp p Hp) as He. fold count in He. simpl. lia.
Qed.

Section Frame.
Context (rd : u64 → nat → res (list u8)) (fl psize : u8) (fp : nat) (foff : Z) (p : list (u8 * prolog_op)) (handler : list u8).
Context (unwind_va : u64) (caller body : UnwindContext) (ret : u64).
Let count := (length (encode_prolog p) / 2)%nat.
Context (Hp : prolog_ok fp (p.*2)) (Hcount : (count < 256)%nat) (Hfp : (fp < 16)%nat) (Hfoff : 0 ≤ foff < 16) (Hfl : 0 ≤ fl < 32).
Context (Himg : found rd unwind_va (unwind_image fl psize fp foff p handler)).
Context (Hva : unwind_va + Z.of_nat (length (unwind_image fl psize fp foff p handler)) < u64_lim).
Context (Hcaller : context_ok caller) (Hlg : length (uc_gpr body) = 16%nat) (Hlx : length (uc_xmm body) = 16%nat).
Context (Hrsp : uc_rsp body = uc_rsp (run_prolog fp foff (p.*2) caller)).
Context (Hfpv : fp ≠ 0%nat → reg_of body fp = reg_of (run_prolog fp foff (p.*2) caller) fp).
Context (Hst : intact rd (prolog_stores fp foff (frame_base fp foff (p.*2) caller) (p.*2) caller)).
Context (Hret : found rd (uc_rsp caller) (le_bytes 8 ret)) (Hret64 : in_u64 ret) (Htop : uc_rsp caller + 8 < u64_lim).

Definition frame_info : UnwindInfo := mkInfo 1 fl psize (Z.of_nat count) (Z.of_nat fp) foff.

Lemma header_read : ∃ hdr, rd unwind_va 4%nat = Ok hdr ∧ info_from_bytes hdr 0 = Some frame_info.
Proof.
  pose proof (found_app _ _ _ _ Himg) as [Hh _]. eexists. split; [apply (found_all _ _ _ Hh)|].
  unfold info_from_bytes, get_range. rewrite decide_True by (simpl; lia).
  cbn [mbind option_bind drop take byte_of lookup list_lookup default from_option]. unfold byte_of. simpl.
  unfold frame_info. do 2 f_equal.
  - change 7 with (Z.ones 3). rewrite Z.land_ones by lia. rewrite Z.mul_comm. by rewrite Z_mod_plus_full.
  - rewrite Z.shiftr_div_pow2 by lia. rewrite Z.mul_comm, Z.div_add by lia. done.
  - destruct (opcode_fields (Z.of_nat fp) foff) as [-> _]; lia.
  - destruct (opcode_fields (Z.of_nat fp) foff) as [_ ->]; lia.
Qed.

Lemma codes_read : rd (sat_add unwind_va 4) (Z.to_nat (Z.of_nat count) * UnwindCode_SIZE)%nat = Ok (encode_prolog p).
Proof.
  pose proof (image_length fl psize fp foff p handler Hp) as Hil. cbv zeta in Hil. rewrite sat_add_lt by lia.
  rewrite Nat2Z.id. unfold UnwindCode_SIZE, count. rewrite <- (encode_even fp p Hp).
  apply found_all. pose proof (found_app _ _ _ _ Himg) as [_ Hc]. by apply found_app in Hc as [Hc _].
Qed.

(** What the code takes for the frame base agrees with it. *)
Lemma base_agrees entry_rsp :
  intact rd (prolog_stores fp foff (if decide (fp ≠ 0%nat) then sat_sub (reg_of body fp) (foff * 16) else entry_rsp) (p.*2) caller).
Proof.
  destruct (decide (fp ≠ 0%nat)) as [Hf|Hf]; [by rewrite Hfpv|].
  rewrite (prolog_stores_base fp foff _ (frame_base fp foff (p.*2) caller)); [done|lia|done].
Qed.

Lemma unwind_frame_spec :
  ∃ ctx, unwind_frame rd unwind_va body = Ok (frame_info, ctx) ∧ uc_rip ctx = ret ∧ uc_rsp ctx = uc_rsp caller + 8 ∧
    (∀ r, reg_of ctx r = if decide (r ∈ saved_gprs (p.*2)) then reg_of caller r else reg_of body r) ∧
    (∀ r, xmm_of ctx r = if decide (r ∈ saved_xmms (p.*2)) then xmm_of caller r else xmm_of body r).
Proof.
  destruct header_read as (hdr & Eh & Ei). unfold unwind_frame. rewrite Eh. unfold mbind at 1, res_bind at 1.
  rewrite Ei. unfold some_or, ok_or. unfold mbind at 1, res_bind at 1. cbv zeta.
  change (count_of_codes frame_info) with (Z.of_nat count). rewrite codes_read. unfold mbind at 1, res_bind at 1.
  rewrite Nat2Z.id. change (frame_register frame_info) with (Z.of_nat fp). rewrite Nat2Z.id.
  change (frame_offset frame_info) with foff.
  set (codes := omap _ _). destruct (scan_entry_total (encode_prolog p) codes (uc_rsp body)) as [v Ev].
  set (e := if decide (fp = 0%nat) then _ else _).
  assert (He : ∃ v', e = Ok v') by (subst e; destruct (decide (fp = 0%nat)); eauto). destruct He as [v' ->].
  unfold mbind at 1, res_bind at 1. change (default 0 (uc_gpr body !! fp)) with (reg_of body fp).
  set (b := if decide (fp ≠ 0%nat) then sat_sub (reg_of body fp) (foff * 16) else v').
  subst codes; unfold count. rewrite (undo_codes_prolog rd b fp p body) by (by apply prolog_ok_ops). rewrite Hrsp.
  destruct (undo_prolog rd b fp foff (p.*2) caller body Hcaller Hlg Hlx Hp (base_agrees v')) as (ctx & -> & [R1 R2 R3 R4 R5]).
  unfold mbind, res_bind. rewrite (found_bytes _ _ _ _ Hret). eexists. split; [reflexivity|].
  cbn [uc_rip uc_rsp uc_set_rip uc_set_rsp]. split_and!; [|by rewrite sat_add_lt|done|done]. rewrite le_val_le_bytes. by apply Z.mod_small.
Qed.
End Frame.

(** The handler fields of the result. *)
Definition handler_found (fl : u8) (data_off : u64) (hrva hdata : u32) (r : UnwindResult) : Prop :=
  if decide (Z.land fl 3 ≠ 0)
  then handler_rva r = Some hrva ∧ handler_data r = Some hdata ∧ exception_data_va r = Some (data_off + 4)
  else handler_rva r = None ∧ handler_data r = None ∧ exception_data_va r = None.

Lemma unwind_handler_spec rd info data_off ctx hrva hdata :
  0 ≤ hrva < 2 ^ 32 → 0 ≤ hdata < 2 ^ 32 → data_off + 4 < u64_lim →
  found rd data_off (le_bytes 4 hrva ++ le_bytes 4 hdata) →
  ∃ r, unwind_handler rd info data_off ctx = Ok r ∧ ur_ctx r = ctx ∧ handler_found (flags info) data_off hrva hdata r.
Proof.
  intros H1 H2 Hd Hf. unfold unwind_handler, handler_found. change (Z.lor FLAG_EHANDLER FLAG_UHANDLER) with 3.
  destruct (decide (Z.land (flags info) 3 ≠ 0)); [|eexists; split; [reflexivity|by split_and!]].
  apply found_all in Hf. rewrite length_app, !length_le_bytes in Hf. change (4 + 4)%nat with 8%nat in Hf.
  rewrite Hf. unfold mbind, res_bind. eexists. split; [reflexivity|]. cbn [ur_ctx handler_rva handler_data exception_data_va].
  rewrite take_app_length' by (by rewrite length_le_bytes). rewrite drop_app_length' by (by rewrite length_le_bytes).
  rewrite firstn_all2 by (by rewrite length_le_bytes). rewrite !le_val_le_bytes, sat_add_lt by lia.
  rewrite !Z.mod_small by done. by split_and!.
Qed.

(** Where the handler is. *)
Lemma handler_at rd fl psize fp foff p hrva hdata unwind_va :
  let image := unwind_image fl psize fp foff p (le_bytes 4 hrva ++ le_bytes 4 hdata) in
  prolog_ok fp (p.*2) → (length (encode_prolog p) / 2 < 256)%nat →
  found rd unwind_va image → unwind_va + Z.of_nat (length image) < u64_lim →
  let data_off := sat_add unwind_va (header_size (frame_info fl psize fp foff p)) in
  data_off = unwind_va + Z.of_nat (length image) - 8 ∧ found rd data_off (le_bytes 4 hrva ++ le_bytes 4 hdata).
Proof.
  intros image Hp Hcount Hf Hva data_off. set (count := (length (encode_prolog p) / 2)%nat) in *.
  pose proof (image_length fl psize fp foff p (le_bytes 4 hrva ++ le_bytes 4 hdata) Hp) as Hl. cbv zeta in Hl.
  fold count image in Hl. rewrite length_app, !length_le_bytes in Hl.
  assert (Hh : header_size (frame_info fl psize fp foff p) = Z.of_nat (4 + count * 2 + count mod 2 * 2)).
  { rewrite header_size_spec; cbn [count_of_codes frame_info]; fold count; [|lia]; pose proof (Nat2Z.inj_mod count 2); lia. }
  assert (Hd : data_off = unwind_va + Z.of_nat (4 + count * 2 + count mod 2 * 2)).
  { unfold data_off. rewrite Hh. apply sat_add_lt. lia. }
  split; [lia|]. rewrite Hd. unfold image, unwind_image in Hf. fold count in Hf. rewrite !app_assoc, <- (app_assoc _ (le_bytes 4 hrva)) in Hf.
  apply found_app in Hf as [_ Hf]. rewrite !length_app, length_replicate in Hf.
  pose proof (encode_even fp p Hp) as He. fold count in He. rewrite He in Hf. exact Hf.
Qed.

(** C8 Virtual unwinding undoes the prologue, for any prologue of pushes,
    allocations, and (with a frame register) saves of general and XMM registers,
    in any encoding of their sizes: from a body that kept the stack pointer, the frame
    register and the cells the prologue stored to, the caller's instruction and stack
    pointer and every saved register come back, the other registers are left alone,
    and the handler the info names is found. *)
Theorem unwind_inverts_prologue rd depth image_base entry fl psize fp foff p hrva hdata caller body ret :
  let image := unwind_image fl psize fp foff p (le_bytes 4 hrva ++ le_bytes 4 hdata) in
  let ops := p.*2 in
  let unwind_va := image_base + unwind_data entry in
  let frame := run_prolog fp foff ops caller in
  unwind_data entry ≠ 0 → found rd unwind_va image → unwind_va + Z.of_nat (length image) < u64_lim →
  prolog_ok fp ops → (length (encode_prolog p) < 512)%nat → (fp < 16)%nat → 0 ≤ foff < 16 →
  0 ≤ fl < 32 → Z.land fl FLAG_CHAININFO = 0 → 0 ≤ hrva < 2 ^ 32 → 0 ≤ hdata < 2 ^ 32 →
  context_ok caller → uc_rsp caller + 8 < u64_lim → in_u64 ret → found rd (uc_rsp caller) (le_bytes 8 ret) →
  (* the body *)
  length (uc_gpr body) = 16%nat → length (uc_xmm body) = 16%nat → uc_rsp body = uc_rsp frame →
  (fp ≠ 0%nat → reg_of body fp = reg_of frame fp) →
  intact rd (prolog_stores fp foff (frame_base fp foff ops caller) ops caller) →
  ∃ r, virtual_unwind rd (S depth) image_base entry body = Ok r ∧
    uc_rip (ur_ctx r) = ret ∧ uc_rsp (ur_ctx r) = uc_rsp caller + 8 ∧
    (∀ k, reg_of (ur_ctx r) k = if decide (k ∈ saved_gprs ops) then reg_of caller k else reg_of body k) ∧
    (∀ k, xmm_of (ur_ctx r) k = if decide (k ∈ saved_xmms ops) then xmm_of caller k else xmm_of body k) ∧
    handler_found fl (unwind_va + Z.of_nat (length image) - 8) hrva hdata r.
Proof.
  intros image ops unwind_va frame Hne Himg Hva Hp Hlen Hfp Hfoff Hfl Hchain Hh Hd Hcaller Htop Hret64 Hret Hlg Hlx Hrsp Hfpv Hst.
  assert (Hcount : (length (encode_prolog p) / 2 < 256)%nat) by (apply Nat.Div0.div_lt_upper_bound; lia).
  edestruct (unwind_frame_spec rd fl psize fp foff p (le_bytes 4 hrva ++ le_bytes 4 hdata) unwind_va caller body ret)
    as (ctx & Ef & Erip & Ersp & Hg & Hx); [eassumption..|].
  cbn [virtual_unwind]. rewrite decide_False by done.
  assert (Hpos : (0 < length image)%nat) by (unfold image, unwind_image; simpl; lia).
  assert (Hv : sat_add image_base (unwind_data entry) = unwind_va) by (apply sat_add_lt; unfold unwind_va in Hva; lia).
  rewrite Hv, Ef. unfold mbind at 1, res_bind at 1. change (flags (frame_info fl psize fp foff p)) with fl.
  rewrite decide_False by (intros Hn; by apply Hn).
  destruct (handler_at rd fl psize fp foff p hrva hdata unwind_va) as [Hoff Hf]; [done..|].
  fold image in Hoff, Hf. set (data_off := sat_add unwind_va _) in *.
  destruct (unwind_handler_spec rd (frame_info fl psize fp foff p) data_off ctx hrva hdata Hh Hd) as (r & Er & Ec & Hr);
    [lia|done|]. exists r. rewrite Er, Ec, <- Hoff. by split_and!.
Qed.

(** ** Unwinding ends

    Chained infos are followed by recursion; every link pops at least the return
    address, so a stack that ends somewhere bounds the depth. *)

Section Ends.
Context (rd : u64 → nat → res (list u8)) (top : Z).
Context (Hok : ∀ a n w, rd a n ≠ Abort w) (Htop : ∀ a n bs, rd a n = Ok bs → (0 < n)%nat → a < top) (Hlim : top + 8 ≤ u64_lim).
Context (Hbytes : ∀ a n bs, rd a n = Ok bs → Forall is_byte bs).

Lemma slots_nonneg buf i : Forall is_byte buf → 0 ≤ slot16 buf i ∧ 0 ≤ slot32 buf i.
Proof.
  intros Hb. assert (Hs : ∀ j, Forall is_byte (slot_or_zero buf j)).
  { intros j. unfold slot_or_zero, raw_slot, get_range. case_decide; simpl; [by apply Forall_take, Forall_drop|].
    repeat constructor; by vm_compute. }
  unfold slot16, slot32. split; [apply le_val_bound, Hs|]. apply le_val_bound. by apply Forall_app.
Qed.

Lemma sat_add_up a b : 0 ≤ b → a < u64_lim → a ≤ sat_add a b < u64_lim.
Proof. unfold sat_add. lia. Qed.

Lemma op_info_nonneg buf count c idx :
  Forall is_byte buf → omap (λ i, code_from_bytes buf (i * 2)) (seq 0 count) !! idx = Some c → 0 ≤ op_info c.
Proof.
  intros Hb E. apply list_elem_of_lookup_2, list_elem_of_omap in E as (i & _ & E).
  unfold code_from_bytes, get_range in E. case_decide; [|done]. injection E as <-. cbn [op_info].
  apply Z.land_nonneg. by right.
Qed.

(** What an undone code does to index and stack pointer. *)
Lemma undo_code_up buf fp_rsp idx rsp ctx c :
  Forall is_byte buf → 0 ≤ op_info c → rsp < u64_lim →
  match undo_code rd buf fp_rsp idx rsp ctx c with
  | Ok (idx', rsp', _) => (idx < idx')%nat ∧ rsp ≤ rsp' < u64_lim
  | Err _ => True
  | Abort _ => False
  end.
Proof.
  intros Hb Hi Hr. assert (Hg : ∀ a r c w, restore_gpr rd a r c ≠ Abort w).
  { intros a r c0 w. unfold restore_gpr. destruct (rd a 8%nat) eqn:E; [done|done|]. by destruct (Hok a 8 w0). }
  assert (Hx : ∀ a r c w, restore_xmm rd a r c ≠ Abort w).
  { intros a r c0 w. unfold restore_xmm. destruct (rd a 16%nat) eqn:E; [done|done|]. by destruct (Hok a 16 w0). }
  assert (Hup : ∀ k, 0 ≤ k → rsp ≤ sat_add rsp k < u64_lim) by (intros k Hk; by apply sat_add_up).
  assert (Hl : 0 ≤ alloc_large_size buf c idx).
  { destruct (slots_nonneg buf (idx + 1) Hb). unfold alloc_large_size. case_decide; lia. }
  assert (Hs : (0 < alloc_large_slots c)%nat) by (unfold alloc_large_slots; case_decide; lia).
  assert (Hm : 0 ≤ (if decide (op_info c = 0) then 24 else 32)) by (case_decide; lia).
  unfold undo_code. cbv zeta.
  repeat match goal with |- context [decide (unwind_op c = ?k)] => destruct (decide (unwind_op c = k)) end;
    try (split; [lia|]; try lia; apply Hup; lia);
    match goal with |- context [restore_gpr rd ?a ?r ?x] => destruct (restore_gpr rd a r x) eqn:E
                  | |- context [restore_xmm rd ?a ?r ?x] => destruct (restore_xmm rd a r x) eqn:E end;
    try done; try (by destruct (Hg _ _ _ _ E)); try (by destruct (Hx _ _ _ _ E));
    (split; [lia|]; try lia; apply Hup; lia).
Qed.

Lemma undo_codes_up buf count fp_rsp ctx :
  Forall is_byte buf → uc_rsp ctx < u64_lim →
  match undo_codes rd buf (omap (λ i, code_from_bytes buf (i * 2)) (seq 0 count)) fp_rsp ctx with
  | Ok (rsp, _) => uc_rsp ctx ≤ rsp
  | Err _ => True
  | Abort _ => False
  end.
Proof.
  intros Hb Hr. set (codes := omap _ _). unfold undo_codes.
  apply (run_loop_rule (undo_step rd buf codes fp_rsp) (λ s, uc_rsp ctx ≤ s.1.2 < u64_lim)
    (λ r, match r with Ok (rsp, _) => uc_rsp ctx ≤ rsp | Err _ => True | Abort _ => False end)
    (λ s, Z.max 0 (Z.of_nat (length codes) - Z.of_nat s.1.1))); [|simpl; lia|unfold fuel_of; cbn [fst]; lia].
  intros [[idx rsp] c0] HI. cbn [fst snd] in HI. unfold undo_step. destruct (codes !! idx) as [c|] eqn:E; [|lia].
  pose proof (undo_code_up buf fp_rsp idx rsp c0 c Hb (op_info_nonneg _ _ _ _ Hb E) ltac:(lia)) as Hu.
  apply lookup_lt_Some in E. destruct (undo_code rd buf fp_rsp idx rsp c0 c) as [[[idx' rsp'] c']|e|w]; [|done..].
  cbn [fst snd]. lia.
Qed.

Lemma unwind_frame_up unwind_va ctx :
  uc_rsp ctx < u64_lim →
  match unwind_frame rd unwind_va ctx with
  | Ok (_, ctx') => uc_rsp ctx + 8 ≤ uc_rsp ctx' < u64_lim ∧ uc_rsp ctx < top
  | Err _ => True
  | Abort _ => False
  end.
Proof.
  intros Hr. unfold unwind_frame. destruct (rd unwind_va 4%nat) as [hdr|e|w] eqn:Eh; [|done|by destruct (Hok unwind_va 4 w)].
  unfold mbind at 1, res_bind at 1. destruct (info_from_bytes hdr 0) as [info|]; [|done]. cbn [some_or ok_or].
  unfold mbind at 1, res_bind at 1. cbv zeta.
  destruct (rd (sat_add unwind_va 4) _) as [buf|e|w] eqn:Ec; [|done|by destruct (Hok _ _ _ Ec)].
  unfold mbind at 1, res_bind at 1. set (codes := omap _ _).
  destruct (scan_entry_total buf codes (uc_rsp ctx)) as [v Ev].
  set (e := if decide (Z.to_nat _ = 0%nat) then _ else _).
  assert (He : ∃ v', e = Ok v') by (subst e; case_decide; eauto). destruct He as [v' ->].
  unfold mbind at 1, res_bind at 1. set (b := if decide (Z.to_nat _ ≠ 0%nat) then _ else _).
  pose proof (undo_codes_up buf (Z.to_nat (count_of_codes info)) b ctx (Hbytes _ _ _ Ec) Hr) as Hu. fold codes in Hu.
  destruct (undo_codes rd buf codes b ctx) as [[rsp c']|e'|w]; [|done..]. unfold mbind, res_bind.
  destruct (rd rsp 8%nat) as [bs|e'|w] eqn:Er; [|done|by destruct (Hok _ _ _ Er)].
  pose proof (Htop _ _ _ Er ltac:(lia)). cbn [uc_set_rsp uc_rsp]. rewrite sat_add_lt by lia. lia.
Qed.
End Ends.

(** Virtual unwinding returns, even for chained infos that refer to each other in a
    circle: when no read succeeds at or above the top of the stack, as many links as the
    stack has words are followed at most. *)
Theorem virtual_unwind_returns rd top depth image_base entry ctx :
  (∀ a n w, rd a n ≠ Abort w) → (∀ a n bs, rd a n = Ok bs → (0 < n)%nat → a < top) →
  (∀ a n bs, rd a n = Ok bs → Forall is_byte bs) → top + 8 ≤ u64_lim → uc_rsp ctx < u64_lim →
  top - uc_rsp ctx < 8 * Z.of_nat depth →
  ∀ w, virtual_unwind rd (S depth) image_base entry ctx ≠ Abort w.
Proof.
  intros Hok Htop Hbytes Hlim. revert entry ctx. induction depth as [|depth IH]; intros entry ctx Hr Hd w;
    (assert (Hhandler : ∀ info off c, unwind_handler rd info off c ≠ Abort w) by
      (intros info off c; unfold unwind_handler; case_decide; [|done]; destruct (rd off 8%nat) eqn:E; [done|done|by destruct (Hok _ _ _ E)]));
    cbn [virtual_unwind]; (case_decide; [unfold unwind_leaf; destruct (rd (uc_rsp ctx) 8%nat) eqn:E; [done|done|by destruct (Hok _ _ _ E)]|]);
    pose proof (unwind_frame_up rd top Hok Htop Hlim Hbytes (sat_add image_base (unwind_data entry)) ctx Hr) as Hu;
    (destruct (unwind_frame rd _ ctx) as [[info ctx']|e|w']; [|done..]); unfold mbind at 1, res_bind at 1;
    (case_decide; [|by apply Hhandler]);
    (destruct (rd (sat_add _ (header_size info)) 4%nat) as [cb|e|w'] eqn:E; [|done|by destruct (Hok _ _ _ E)]);
    unfold mbind at 1, res_bind at 1; (case_decide; [|by apply Hhandler]).
  - lia.
  - apply IH; lia.
Qed.
