(* ===== verification/lsda_spec.v ===== *)
(** * Reading an LSDA

    The readers of lsda.v invert the encodings of the Itanium tables: LEB128
    numbers, call sites, chains of actions.  At the end a concrete reader, on which
    unwinding and landing pads are run. *)

From S2P Require Import Prelude regs insn sync_obj exception unwind_spec lsda.

(** ** LEB128 *)

(** The groups of [v], least first; [n] bounds their number. *)
Fixpoint uleb (n : nat) (v : Z) : list u8 :=
  match n with
  | O => []
  | S n => if decide (v < 128) then [v] else (v mod 128 + 128) :: uleb n (v / 128)
  end.
Fixpoint sleb (n : nat) (v : Z) : list u8 :=
  match n with
  | O => []
  | S n => if decide (-64 ≤ v < 64) then [v mod 128] else (v mod 128 + 128) :: sleb n (v / 128)
  end.

Lemma land_7f b : Z.land b 0x7f = b mod 128.
Proof. change 0x7f with (Z.ones 7). by rewrite Z.land_ones by lia. Qed.
Lemma land_80 b : 0 ≤ b < 256 → Z.land b 0x80 = if decide (b < 128) then 0 else 128.
Proof.
  assert (Hall : Forall (λ b, Z.land b 0x80 = if decide (b < 128) then 0 else 128) (seqZ 0 256)).
  { apply (bool_decide_unpack _). vm_compute. exact I. }
  intros Hb. rewrite Forall_forall in Hall. apply Hall, elem_of_seqZ. lia.
Qed.
Lemma land_40 b : 0 ≤ b < 128 → Z.land b 0x40 = if decide (b < 64) then 0 else 64.
Proof.
  assert (Hall : Forall (λ b, Z.land b 0x40 = if decide (b < 64) then 0 else 64) (seqZ 0 128)).
  { apply (bool_decide_unpack _). vm_compute. exact I. }
  intros Hb. rewrite Forall_forall in Hall. apply Hall, elem_of_seqZ. lia.
Qed.

(** Disjoint bits add up. *)
Lemma lor_shifted a b k : 0 ≤ k → 0 ≤ a < 2 ^ k → Z.lor a (b * 2 ^ k) = a + b * 2 ^ k.
Proof.
  intros Hk Ha. rewrite <- Z.lxor_lor, Z.add_nocarry_lxor; [done|..]; rewrite <- Z.shiftl_mul_pow2 by done;
    apply Z.bits_inj'; intros i Hi; rewrite Z.land_spec, Z.bits_0, Z.shiftl_spec by done;
    (destruct (decide (i < k)); [by rewrite (Z.testbit_neg_r b (i - k)), andb_false_r by lia|]);
    (replace (Z.testbit a i) with false; [done|]); symmetry;
    (destruct (decide (a = 0)) as [->|]; [apply Z.bits_0|]); apply Z.bits_above_log2; [lia| |lia|];
    apply Z.log2_lt_pow2; try lia; eapply Z.lt_le_trans; [apply Ha| |apply Ha|]; apply Z.pow_le_mono_r; lia.
Qed.

Section Leb.
Context (rd : u64 → nat → res (list u8)).

Lemma next_byte_found c b rest :
  found rd c (b :: rest) → c + Z.of_nat (length (b :: rest)) < u64_lim → next_byte rd c = Ok (b, c + 1) ∧ found rd (c + 1) rest.
Proof.
  intros Hf Hl. change (b :: rest) with ([b] ++ rest) in Hf. apply found_app in Hf as [H1 H2]. split; [|exact H2].
  unfold next_byte. pose proof (found_all _ _ _ H1) as E. cbn [length] in E. rewrite E. unfold mbind, res_bind. unfold byte_of. simpl in *.
  by rewrite sat_add_lt by lia.
Qed.

Lemma uleb_loop n : ∀ m k acc v c,
  (n ≤ m)%nat → 0 ≤ v < 2 ^ (7 * Z.of_nat n) → (0 < n)%nat → (k + n ≤ 9)%nat → 0 ≤ acc < 2 ^ (7 * Z.of_nat k) →
  found rd c (uleb n v) → c + Z.of_nat (length (uleb n v)) < u64_lim →
  iter_nat m (uleb_step rd) (acc, 7 * Z.of_nat k, c) =
  inr (Ok (acc + v * 2 ^ (7 * Z.of_nat k), c + Z.of_nat (length (uleb n v)))).
Proof.
  induction n as [|n IH]; intros m k acc v c Hm Hv Hn Hk Hacc Hf Hl; [lia|]. destruct m as [|m]; [lia|]. cbn [iter_nat].
  unfold uleb_step at 1. assert (H7 : 2 ^ (7 * Z.of_nat (S k)) = 128 * 2 ^ (7 * Z.of_nat k)).
  { replace (7 * Z.of_nat (S k)) with (7 + 7 * Z.of_nat k) by lia. by rewrite Z.pow_add_r by lia. }
  assert (H63 : 2 ^ (7 * Z.of_nat (S k)) ≤ 2 ^ 63) by (apply Z.pow_le_mono_r; lia).
  assert (Hp : 0 < 2 ^ (7 * Z.of_nat k)) by (apply Z.pow_pos_nonneg; lia).
  assert (Hor : ∀ x, 0 ≤ x < 128 → Z.lor acc (shl_u 64 x (7 * Z.of_nat k)) = acc + x * 2 ^ (7 * Z.of_nat k)).
  { intros x Hx. unfold shl_u, as_u. rewrite (Z.mod_small (7 * Z.of_nat k)) by lia.
    rewrite Z.shiftl_mul_pow2 by lia. rewrite Z.mod_small by nia. apply lor_shifted; lia. }
  cbn [uleb] in *. destruct (decide (v < 128)) as [Hlt|Hge].
  - destruct (next_byte_found c v [] Hf Hl) as [-> _]. rewrite land_7f, Z.mod_small, land_80 by lia.
    rewrite (decide_True (P := v < 128)) by lia. rewrite decide_True by done. rewrite Hor by lia. done.
  - destruct (next_byte_found c (v mod 128 + 128) _ Hf Hl) as [-> Hf']. pose proof (Z.mod_pos_bound v 128 ltac:(lia)).
    pose proof (Z.div_mod v 128 ltac:(lia)) as Hdm.
    rewrite land_7f, land_80 by lia. rewrite (decide_False (P := v mod 128 + 128 < 128)) by lia. rewrite decide_False by done.
    rewrite Z.add_mod, Z.mod_same, Z.add_0_r, !Z.mod_mod by lia.
    destruct n as [|n']; [simpl in Hv; lia|]. rewrite decide_False by lia. rewrite Hor by lia.
    replace (7 * Z.of_nat k + 7) with (7 * Z.of_nat (S k)) by lia.
    rewrite (IH m (S k) _ (v / 128) (c + 1)); [|lia| |lia|lia|rewrite H7; nia|exact Hf'|cbn [length] in Hl; lia].
    + do 3 f_equal; [|cbn [length]; lia]. rewrite H7. nia.
    + split; [apply Z.div_pos; lia|]. apply Z.div_lt_upper_bound; [lia|].
      replace (7 * Z.of_nat (S (S n'))) with (7 + 7 * Z.of_nat (S n')) in Hv by lia. rewrite Z.pow_add_r in Hv by lia. lia.
Qed.

Lemma read_uleb128_spec v c :
  0 ≤ v < 2 ^ 63 → found rd c (uleb 9 v) → c + Z.of_nat (length (uleb 9 v)) < u64_lim →
  read_uleb128 rd c = Ok (v, c + Z.of_nat (length (uleb 9 v))).
Proof.
  intros Hv Hf Hl. unfold read_uleb128, run_loop. rewrite iter_until_nat.
  change 0 with (7 * Z.of_nat 0) at 2. rewrite (uleb_loop 9 _ 0 0 v c); [|lia|done|lia|lia|by vm_compute|done|done].
  change (2 ^ (7 * Z.of_nat 0)) with 1. by rewrite Z.mul_1_r.
Qed.

Lemma as_i_small x : - 2 ^ 63 ≤ x < 2 ^ 63 → as_i 64 x = x.
Proof.
  intros Hx. unfold as_i. change (2 ^ (64 - 1)) with (2 ^ 63). change (2 ^ 64) with (2 * 2 ^ 63).
  destruct (decide (0 ≤ x)).
  - rewrite Z.mod_small by lia. by rewrite decide_True by lia.
  - rewrite <- (Z.mod_add x 1) by lia. rewrite Z.mod_small by lia. rewrite decide_False by lia. lia.
Qed.

Lemma sleb_loop n : ∀ m k acc v c,
  (n ≤ m)%nat → - 2 ^ (7 * Z.of_nat n - 1) ≤ v < 2 ^ (7 * Z.of_nat n - 1) → (0 < n)%nat → (k + n ≤ 9)%nat →
  0 ≤ acc < 2 ^ (7 * Z.of_nat k) →
  found rd c (sleb n v) → c + Z.of_nat (length (sleb n v)) < u64_lim →
  iter_nat m (sleb_step rd) (acc, 7 * Z.of_nat k, c) =
  inr (Ok (acc + v * 2 ^ (7 * Z.of_nat k), c + Z.of_nat (length (sleb n v)))).
Proof.
  induction n as [|n IH]; intros m k acc v c Hm Hv Hn Hk Hacc Hf Hl; [lia|]. destruct m as [|m]; [lia|]. cbn [iter_nat].
  unfold sleb_step at 1. assert (H7 : 2 ^ (7 * Z.of_nat (S k)) = 128 * 2 ^ (7 * Z.of_nat k)).
  { replace (7 * Z.of_nat (S k)) with (7 + 7 * Z.of_nat k) by lia. by rewrite Z.pow_add_r by lia. }
  assert (H63 : 2 ^ (7 * Z.of_nat (S k)) ≤ 2 ^ 63) by (apply Z.pow_le_mono_r; lia).
  assert (Hp : 0 < 2 ^ (7 * Z.of_nat k)) by (apply Z.pow_pos_nonneg; lia).
  assert (Hor : ∀ x, 0 ≤ x < 128 → Z.lor acc (shl_i 64 x (7 * Z.of_nat k)) = acc + x * 2 ^ (7 * Z.of_nat k)).
  { intros x Hx. unfold shl_i. rewrite (Z.mod_small (7 * Z.of_nat k)) by lia.
    rewrite Z.shiftl_mul_pow2 by lia. rewrite as_i_small by nia. apply lor_shifted; lia. }
  pose proof (Z.mod_pos_bound v 128 ltac:(lia)). pose proof (Z.div_mod v 128 ltac:(lia)) as Hdm.
  replace (7 * Z.of_nat k + 7) with (7 * Z.of_nat (S k)) by lia.
  cbn [sleb] in *. destruct (decide (-64 ≤ v < 64)) as [Hlt|Hge].
  - destruct (next_byte_found c (v mod 128) [] Hf Hl) as [-> _]. rewrite land_7f, Z.mod_mod, land_80, land_40 by lia.
    rewrite (decide_True (P := v mod 128 < 128)) by lia. rewrite (decide_True (P := 0 = 0)) by done. rewrite Hor by lia.
    destruct (decide (v mod 128 < 64)) as [Hs|Hs].
    + rewrite decide_False by (intros [_ []]; done). assert (v mod 128 = v) as -> by lia. done.
    + rewrite decide_True by lia. unfold shl_i. rewrite (Z.mod_small (7 * Z.of_nat (S k))) by lia.
      rewrite Z.shiftl_mul_pow2 by lia. rewrite as_i_small by lia. rewrite lor_shifted by (rewrite ?H7; nia).
      do 3 f_equal. rewrite H7. assert (v mod 128 = v + 128) as -> by lia. lia.
  - destruct (next_byte_found c (v mod 128 + 128) _ Hf Hl) as [-> Hf'].
    rewrite land_7f, land_80 by lia. rewrite (decide_False (P := v mod 128 + 128 < 128)) by lia. rewrite decide_False by done.
    rewrite Z.add_mod, Z.mod_same, Z.add_0_r, !Z.mod_mod by lia.
    destruct n as [|n']; [change (2 ^ (7 * Z.of_nat 1 - 1)) with 64 in Hv; lia|]. rewrite decide_False by lia. rewrite Hor by lia.
    rewrite (IH m (S k) _ (v / 128) (c + 1)); [|lia| |lia|lia|rewrite H7; nia|exact Hf'|cbn [length] in Hl; lia].
    + do 3 f_equal; [|cbn [length]; lia]. rewrite H7. nia.
    + replace (7 * Z.of_nat (S (S n')) - 1) with (7 + (7 * Z.of_nat (S n') - 1)) in Hv by lia. rewrite Z.pow_add_r in Hv by lia.
      split; [apply Z.div_le_lower_bound; lia|]. apply Z.div_lt_upper_bound; lia.
Qed.

Lemma read_sleb128_spec v c :
  - 2 ^ 62 ≤ v < 2 ^ 62 → found rd c (sleb 9 v) → c + Z.of_nat (length (sleb 9 v)) < u64_lim →
  read_sleb128 rd c = Ok (v, c + Z.of_nat (length (sleb 9 v))).
Proof.
  intros Hv Hf Hl. unfold read_sleb128, run_loop. rewrite iter_until_nat.
  change 0 with (7 * Z.of_nat 0) at 2. rewrite (sleb_loop 9 _ 0 0 v c); [|lia|done|lia|lia|by vm_compute|done|done].
  change (2 ^ (7 * Z.of_nat 0)) with 1. by rewrite Z.mul_1_r.
Qed.
End Leb.

(** LEB128 numbers are read back as they were written, up to the nine groups the
    readers accept, and the cursor ends right behind them. *)
Theorem leb128_roundtrip rd c u v :
  0 ≤ u < 2 ^ 63 → - 2 ^ 62 ≤ v < 2 ^ 62 →
  found rd c (uleb 9 u ++ sleb 9 v) → c + Z.of_nat (length (uleb 9 u ++ sleb 9 v)) < u64_lim →
  read_uleb128 rd c = Ok (u, c + Z.of_nat (length (uleb 9 u))) ∧
  read_sleb128 rd (c + Z.of_nat (length (uleb 9 u))) = Ok (v, c + Z.of_nat (length (uleb 9 u ++ sleb 9 v))).
Proof.
  intros Hu Hv Hf Hl. rewrite length_app in *. apply found_app in Hf as [H1 H2]. split.
  - apply read_uleb128_spec; [done|done|lia].
  - rewrite (read_sleb128_spec rd v) by (done || lia). do 2 f_equal. lia.
Qed.

(** ** Call sites *)

Definition encode_site (s : call_site) : list u8 :=
  uleb 9 (cs_start s) ++ uleb 9 (cs_len s) ++ uleb 9 (cs_pad s) ++ uleb 9 (cs_action s).
Definition encode_sites (sites : list call_site) : list u8 := concat (encode_site <$> sites).

Definition site_ok (s : call_site) : Prop :=
  0 ≤ cs_start s < 2 ^ 63 ∧ 0 ≤ cs_len s < 2 ^ 63 ∧ 0 ≤ cs_pad s < 2 ^ 63 ∧ 0 ≤ cs_action s < 2 ^ 63.

(** The answer of the first site that has one. *)
Fixpoint first_match {A} (judge : call_site → res (option A)) (sites : list call_site) : res (option A) :=
  match sites with
  | [] => Ok None
  | s :: sites => m ← judge s; match m with Some m => Ok (Some m) | None => first_match judge sites end
  end.

(** The tables of an LSDA whose landing pads count from the function's start. *)
Definition lsda_prefix (ttype_enc : u8) (off : u64) (sites : list call_site) : list u8 :=
  [dw_eh_pe.OMIT; ttype_enc] ++ (if decide (ttype_enc = dw_eh_pe.OMIT) then [] else uleb 9 off)
  ++ [dw_eh_pe.ULEB128] ++ uleb 9 (Z.of_nat (length (encode_sites sites))).
Definition lsda_image (ttype_enc : u8) (off : u64) (sites : list call_site) : list u8 :=
  lsda_prefix ttype_enc off sites ++ encode_sites sites.

Definition lsda_header_of (lsda_va func_start : u64) (ttype_enc : u8) (off : u64) (sites : list call_site) : lsda_header :=
  let cursor := lsda_va + Z.of_nat (length (lsda_prefix ttype_enc off sites)) in
  let ttype_base := if decide (ttype_enc = dw_eh_pe.OMIT) then 0
                    else lsda_va + 2 + Z.of_nat (length (uleb 9 off)) + off in
  mkHeader func_start ttype_enc ttype_base dw_eh_pe.ULEB128 cursor (cursor + Z.of_nat (length (encode_sites sites))).

Section Sites.
Context (rd : u64 → nat → res (list u8)).

Lemma read_site_spec s c :
  site_ok s → found rd c (encode_site s) → c + Z.of_nat (length (encode_site s)) < u64_lim →
  read_site rd dw_eh_pe.ULEB128 c = Ok (s, c + Z.of_nat (length (encode_site s))).
Proof.
  intros (H1 & H2 & H3 & H4) Hf Hl. unfold encode_site in *. rewrite !length_app in *.
  apply found_app in Hf as [F1 Hf]. apply found_app in Hf as [F2 Hf]. apply found_app in Hf as [F3 F4].
  unfold read_site. rewrite decide_True by done.
  rewrite (read_uleb128_spec rd _ _ H1 F1) by lia. unfold mbind, res_bind.
  rewrite (read_uleb128_spec rd _ _ H2 F2) by lia. rewrite (read_uleb128_spec rd _ _ H3 F3) by lia.
  rewrite (read_uleb128_spec rd _ _ H4 F4) by lia. destruct s. simpl. do 2 f_equal. lia.
Qed.

Lemma uleb_length n v : (0 < n)%nat → (0 < length (uleb n v))%nat.
Proof. destruct n; [lia|]. simpl. case_decide; simpl; lia. Qed.

Lemma search_loop judge h sites : ∀ m c,
  lh_format h = dw_eh_pe.ULEB128 → Forall site_ok sites →
  found rd c (encode_sites sites) → lh_cs_end h = c + Z.of_nat (length (encode_sites sites)) → lh_cs_end h < u64_lim →
  (length sites < m)%nat →
  match iter_nat m (search_step rd judge h) c with inr r => r | inl _ => Abort NoFuel end = first_match judge sites.
Proof.
  induction sites as [|s sites IH]; intros m c Hfmt Hok Hf Hend Hlim Hm; (destruct m as [|m]; [lia|]); cbn [iter_nat];
    unfold search_step at 1.
  - rewrite decide_False; [done|]. rewrite Hend. simpl. lia.
  - apply Forall_cons in Hok as [Hs Hok]. unfold encode_sites in *. cbn [list_fmap fmap concat] in *.
    rewrite length_app in Hend. apply found_app in Hf as [Hf1 Hf2].
    assert (Hpos : (0 < length (encode_site s))%nat).
    { unfold encode_site. rewrite !length_app. pose proof (uleb_length 9 (cs_start s) ltac:(lia)). lia. }
    rewrite decide_True by lia. rewrite Hfmt, (read_site_spec s c Hs Hf1) by lia. unfold mbind, res_bind. cbn [first_match].
    unfold mbind, res_bind. destruct (judge s) as [[a|]|e|w]; [done| |done..].
    apply IH; [done|done|done|lia|done|cbn [length] in Hm; lia].
Qed.

Lemma encode_sites_length sites : (length sites ≤ length (encode_sites sites))%nat.
Proof.
  unfold encode_sites. induction sites as [|s sites IH]; [simpl; lia|]. cbn [list_fmap fmap concat length]. rewrite length_app.
  unfold encode_site at 1. rewrite !length_app. pose proof (uleb_length 9 (cs_start s) ltac:(lia)). simpl in *. lia.
Qed.

Lemma search_sites_spec judge h sites :
  lh_format h = dw_eh_pe.ULEB128 → Forall site_ok sites → found rd (lh_cursor h) (encode_sites sites) →
  lh_cs_end h = lh_cursor h + Z.of_nat (length (encode_sites sites)) → lh_cs_end h < u64_lim →
  search_sites rd judge h = first_match judge sites.
Proof.
  intros Hfmt Hok Hf Hend Hlim. unfold search_sites, run_loop. rewrite iter_until_nat. apply search_loop; try done.
  pose proof (encode_sites_length sites). unfold fuel_of. lia.
Qed.

Lemma next_byte_at c b rest :
  found rd c (b :: rest) → c + 1 < u64_lim → next_byte rd c = Ok (b, c + 1) ∧ found rd (c + 1) rest.
Proof.
  intros Hf Hl. change (b :: rest) with ([b] ++ rest) in Hf. apply found_app in Hf as [H1 H2].
  split; [|exact H2]. by destruct (next_byte_found rd c b [] H1 Hl) as [-> _].
Qed.

Lemma read_header_spec lsda_va image_base func_start ttype_enc off sites :
  0 ≤ off < 2 ^ 63 → sites ≠ [] → Z.of_nat (length (encode_sites sites)) < 2 ^ 63 →
  found rd lsda_va (lsda_image ttype_enc off sites) →
  lsda_va + Z.of_nat (length (lsda_image ttype_enc off sites)) + off < u64_lim →
  read_header rd lsda_va image_base func_start = Ok (lsda_header_of lsda_va func_start ttype_enc off sites).
Proof.
  intros Hoff Hne Htl Hf Hl. pose proof (encode_sites_length sites) as Hsl.
  assert (Hpos : 0 < Z.of_nat (length (encode_sites sites))) by (destruct sites; [done|cbn [length] in Hsl; lia]).
  unfold lsda_header_of, lsda_image, lsda_prefix in *. rewrite <- !app_assoc in Hf. set (table := encode_sites sites) in *.
  set (tt := if decide (ttype_enc = dw_eh_pe.OMIT) then [] else uleb 9 off) in *. rewrite !length_app in *. cbn [length] in *.
  change (found rd lsda_va (dw_eh_pe.OMIT :: ttype_enc :: tt ++ dw_eh_pe.ULEB128 :: uleb 9 (Z.of_nat (length table)) ++ table)) in Hf.
  unfold read_header.
  apply next_byte_at in Hf as [-> Hf]; [|lia]. unfold mbind, res_bind. rewrite decide_False by (intros []; done).
  apply next_byte_at in Hf as [-> Hf]; [|lia]. apply found_app in Hf as [Htt Hf].
  set (tr := if decide (ttype_enc ≠ dw_eh_pe.OMIT) then _ else _).
  assert (Etr : tr = Ok (if decide (ttype_enc = dw_eh_pe.OMIT) then 0 else lsda_va + 2 + Z.of_nat (length (uleb 9 off)) + off,
    lsda_va + 2 + Z.of_nat (length tt))).
  { subst tr tt. destruct (decide (ttype_enc = dw_eh_pe.OMIT)) as [E|E].
    - rewrite decide_False by (intros Hn; by apply Hn). do 2 f_equal. simpl. lia.
    - rewrite decide_True by done. rewrite (read_uleb128_spec rd off) by (done || lia). rewrite sat_add_lt by lia.
      do 2 f_equal; lia. }
  rewrite Etr. replace (lsda_va + 1 + 1 + Z.of_nat (length tt)) with (lsda_va + 2 + Z.of_nat (length tt)) in Hf by lia.
  apply next_byte_at in Hf as [-> Hf]; [|lia]. apply found_app in Hf as [Hcl Hf].
  rewrite (read_uleb128_spec rd (Z.of_nat (length table))) by (done || lia).
  rewrite decide_False by lia. rewrite sat_add_lt by lia. do 2 f_equal; lia.
Qed.

(** The table of [lsda_image]. *)
Lemma image_table lsda_va ttype_enc off sites :
  found rd lsda_va (lsda_image ttype_enc off sites) →
  found rd (lsda_va + Z.of_nat (length (lsda_prefix ttype_enc off sites))) (encode_sites sites).
Proof. intros Hf. by apply found_app in Hf as [_ Hf]. Qed.
End Sites.

(** Both searches of an LSDA answer what the first call site of its table answers: the
    headers and the table of call sites, of any length, are decoded exactly. *)
Theorem landing_pad_search rd image_base func_start control_pc thrown lsda_va ttype_enc off sites :
  0 ≤ off < 2 ^ 63 → sites ≠ [] → Forall site_ok sites → Z.of_nat (length (encode_sites sites)) < 2 ^ 63 →
  found rd lsda_va (lsda_image ttype_enc off sites) →
  lsda_va + Z.of_nat (length (lsda_image ttype_enc off sites)) + off < u64_lim →
  let h := lsda_header_of lsda_va func_start ttype_enc off sites in
  find_landing_pad_ex rd image_base func_start control_pc thrown lsda_va =
    or_none (first_match (judge_site rd image_base func_start control_pc thrown h) sites) ∧
  find_cleanup_landing_pad rd image_base func_start control_pc lsda_va =
    Ok (list_find (λ s, is_Some (judge_cleanup control_pc h s)) sites ≫= λ '(_, s), judge_cleanup control_pc h s).
Proof.
  intros Hoff Hne Hok Htl Hf Hl h. pose proof (read_header_spec rd lsda_va image_base func_start ttype_enc off sites Hoff Hne Htl Hf Hl) as Eh.
  fold h in Eh. unfold find_landing_pad_ex, find_cleanup_landing_pad. rewrite Eh. unfold mbind at 1 2, res_bind at 1 2.
  assert (Hlim : lh_cs_end h < u64_lim).
  { unfold h, lsda_header_of, lsda_image in *. cbn [lh_cs_end]. rewrite length_app in Hl. lia. }
  assert (Hs : ∀ judge, search_sites rd judge h = first_match judge sites).
  { intros judge. apply search_sites_spec; [done|done|by apply image_table|done|done]. }
  rewrite !Hs. split; [done|]. clearbody h. clear. induction sites as [|s sites IH]; [done|]. cbn [first_match list_find].
  unfold mbind at 1, res_bind at 1. destruct (judge_cleanup control_pc h s) as [m|] eqn:E.
  - rewrite decide_True by eauto. simpl. by rewrite E.
  - rewrite decide_False by (by intros []). rewrite IH. destruct (list_find _ sites) as [[]|]; done.
Qed.

(** ** Actions *)

(** The filters along the records from a 1-based index on. *)
Inductive action_chain (rd : u64 → nat → res (list u8)) (table : u64) : u64 → list Z → Prop :=
  | chain_last idx f :
      1 ≤ idx → - 2 ^ 62 ≤ f < 2 ^ 62 →
      found rd (table + idx - 1) (sleb 9 f ++ sleb 9 0) → table + idx + 32 < 2 ^ 63 →
      action_chain rd table idx [f]
  | chain_next idx f n idx' fs :
      1 ≤ idx → - 2 ^ 62 ≤ f < 2 ^ 62 → - 2 ^ 62 ≤ n < 2 ^ 62 → n ≠ 0 →
      found rd (table + idx - 1) (sleb 9 f ++ sleb 9 n) → table + idx + 32 < 2 ^ 63 →
      idx' = idx + Z.of_nat (length (sleb 9 f)) + n → 1 ≤ idx' →
      action_chain rd table idx' fs → action_chain rd table idx (f :: fs).

Section Actions.
Context (rd : u64 → nat → res (list u8)) (table ttype_base : u64) (ttype_enc : u8) (image_base func_start : u64).
Context (thrown : option u64) (ttype : Z → option u64).
Context (Htable : 0 < table).
(** What the type table says. *)
Context (Httype : ∀ f, 0 < f → attempt (resolve_ttype rd ttype_base ttype_enc (as_u 64 f) image_base func_start) = Ok (ttype f)).

Definition typed_match (f : Z) : bool :=
  bool_decide (0 < f) &&
  match ttype f with
  | Some e => negb (bool_decide (e = 0)) && match thrown with None => true | Some ti => bool_decide (e = ti) end
  | None => false
  end.
Definition catches_all (f : Z) : bool := bool_decide (f = 0) || (bool_decide (0 < f) && bool_decide (ttype f = Some 0)).

Lemma judge_filter_spec f ca :
  judge_filter rd ttype_base ttype_enc image_base func_start thrown f ca =
  Ok (if typed_match f then inl f else inr (if catches_all f then match ca with None => Some f | some => some end else ca)).
Proof.
  unfold judge_filter, typed_match, catches_all. destruct (decide (f = 0)) as [->|Hne]; [done|].
  rewrite (bool_decide_eq_false_2 (f = 0)) by done. destruct (decide (0 < f)) as [Hpos|Hneg].
  - rewrite Httype by done. rewrite bool_decide_eq_true_2 by done. unfold mbind, res_bind.
    destruct (ttype f) as [e|]; [|by rewrite bool_decide_eq_false_2]. destruct (decide (e = 0)) as [->|Hn].
    + by rewrite !bool_decide_eq_true_2.
    + rewrite (bool_decide_eq_false_2 (e = 0)), (bool_decide_eq_false_2 (Some e = Some 0)) by naive_solver. simpl.
      destruct thrown; [|done]. case_bool_decide; done.
  - by rewrite bool_decide_eq_false_2.
Qed.

Lemma sleb_length n v : (0 < n)%nat → (1 ≤ length (sleb n v) ≤ n)%nat.
Proof.
  revert v. induction n as [|n IH]; intros v Hn; [lia|]. cbn [sleb]. case_decide; cbn [length]; [lia|].
  destruct n; [simpl; lia|]. specialize (IH (v / 128) ltac:(lia)). lia.
Qed.

(** The choice from the filters of a chain. *)
Definition chosen (fs : list Z) (ca : option Z) : option Z :=
  match list_find typed_match fs with
  | Some (_, f) => Some f
  | None => match ca with Some c => Some c | None => snd <$> list_find catches_all fs end
  end.

Lemma chosen_cons f fs ca :
  chosen (f :: fs) ca =
  if typed_match f then Some f else chosen fs (if catches_all f then match ca with None => Some f | some => some end else ca).
Proof.
  unfold chosen. cbn [list_find]. destruct (typed_match f) eqn:E; [by rewrite decide_True by done|].
  rewrite decide_False by (by intros []). destruct (list_find typed_match fs) as [[]|]; [done|]. simpl.
  destruct (catches_all f) eqn:Ec; destruct ca; simpl; try done.
  by destruct (list_find _ fs) as [[]|].
Qed.

Lemma action_loop idx fs : action_chain rd table idx fs → ∀ m k ca,
  (length fs ≤ k)%nat → (length fs ≤ m)%nat →
  iter_nat m (action_step rd table ttype_base ttype_enc image_base func_start thrown) (k, idx, ca) = inr (Ok (chosen fs ca)).
Proof.
  induction 1 as [idx f Hi Hf Hfound Hr|idx f n idx' fs Hi Hf Hn Hn0 Hfound Hr Hidx Hi' Hch IH]; intros m k ca Hk Hm;
    cbn [length] in *; (destruct m as [|m]; [lia|]); (destruct k as [|k]; [lia|]); cbn [iter_nat];
    unfold action_step at 1, action_body; pose proof (sleb_length 9 f ltac:(lia)); apply found_app in Hfound as [Hf1 Hf2].
  - pose proof (sleb_length 9 0 ltac:(lia)).
    rewrite sat_sub_le, sat_add_lt, Z.add_sub_assoc by lia. rewrite (read_sleb128_spec rd f) by (done || lia).
    unfold mbind, res_bind. rewrite (read_sleb128_spec rd 0) by (done || lia). rewrite judge_filter_spec, chosen_cons.
    destruct (typed_match f); [done|]. unfold next_record. rewrite decide_True by done.
    do 2 f_equal. unfold chosen. simpl. by destruct (if catches_all f then _ else ca).
  - pose proof (sleb_length 9 n ltac:(lia)).
    rewrite sat_sub_le, sat_add_lt, Z.add_sub_assoc by lia. rewrite (read_sleb128_spec rd f) by (done || lia).
    unfold mbind, res_bind. rewrite (read_sleb128_spec rd n) by (done || lia). rewrite judge_filter_spec, chosen_cons.
    destruct (typed_match f); [done|]. unfold next_record. rewrite decide_False by done.
    rewrite (read_sleb128_spec rd f) by (done || lia). unfold mbind, res_bind. rewrite as_i_small by lia.
    assert (Hr' : table + idx' + 32 < 2 ^ 63) by (destruct Hch; lia).
    assert (Hs : sat_add_i64 (table + idx - 1 + Z.of_nat (length (sleb 9 f))) n = table + idx' - 1) by (unfold sat_add_i64; lia).
    rewrite Hs, decide_False, decide_False by lia. rewrite sat_sub_le, sat_add_lt by lia.
    replace (table + idx' - 1 - table + 1) with idx' by lia. apply IH; lia.
Qed.
End Actions.

(** The handler chosen for a thrown type, from a chain of up to 32 actions in any layout:
    the first filter whose type is the thrown one, wherever it stands, and only
    when there is none the first that catches everything. *)
Theorem match_action_prefers_typed rd table ttype_base ttype_enc image_base func_start thrown ttype idx fs :
  0 < table → action_chain rd table idx fs → (length fs ≤ 32)%nat →
  (∀ f, 0 < f → attempt (resolve_ttype rd ttype_base ttype_enc (as_u 64 f) image_base func_start) = Ok (ttype f)) →
  match_action rd table ttype_base ttype_enc image_base func_start thrown idx =
  Ok (match list_find (typed_match thrown ttype) fs with
      | Some (_, f) => Some f
      | None => snd <$> list_find (catches_all ttype) fs
      end).
Proof.
  intros Ht Hch Hl Htt. unfold match_action. assert (Hi : 1 ≤ idx) by (by destruct Hch). rewrite decide_False by lia.
  unfold run_loop. rewrite iter_until_nat. rewrite (action_loop rd table ttype_base ttype_enc image_base func_start thrown ttype Ht Htt idx fs Hch); [done|done|lia].
Qed.

(** * Looking up functions

    The binary search of exception.rs finds the entry that a scan of the whole
    table finds, and [parse_pdata] reads a table back from its bytes. *)

From S2P Require Import Prelude regs insn exception.

(** Begins before ends, and every entry ends before the next begins. *)
Inductive table_sorted : list RuntimeFunction → Prop :=
  | sorted_nil : table_sorted []
  | sorted_cons e es :
      0 ≤ begin_address e < end_address e → end_address e < 2 ^ 32 →
      Forall (λ e', end_address e ≤ begin_address e') es →
      table_sorted es → table_sorted (e :: es).

(** ** The binary search *)

Lemma binary_search_loop keys key :
  keys ≠ [] →
  binary_search keys key = run_loop (fuel_of (Z.of_nat (length keys))) (bsearch_step keys key) (0%nat, length keys).
Proof. by destruct keys. Qed.
Lemma length_pos {A} (l : list A) : l ≠ [] → (0 < length l)%nat.
Proof. destruct l; [done|simpl; lia]. Qed.

Section Search.
Context (keys : list Z) (key : Z).
Context (Hsorted : ∀ i j x y, (i < j)%nat → keys !! i = Some x → keys !! j = Some y → x < y).

Lemma keys_at i : (i < length keys)%nat → keys !! i = Some (default 0 (keys !! i)).
Proof. intros [x Hx]%lookup_lt_is_Some. by rewrite Hx. Qed.

(** Left of an index everything is smaller. *)
Definition splits_at (k : nat) : Prop :=
  (k ≤ length keys)%nat ∧ ∀ j x, keys !! j = Some x → if decide (j < k)%nat then x < key else key < x.

Definition search_answer (r : res (nat + nat)) : Prop :=
  (∃ i, r = Ok (inl i) ∧ keys !! i = Some key) ∨ (∃ k, r = Ok (inr k) ∧ splits_at k).

(** The window of the loop. *)
Definition window (s : nat * nat) : Prop :=
  (1 ≤ s.2)%nat ∧ (s.1 + s.2 ≤ length keys)%nat ∧
  (s.1 = 0%nat ∨ default 0 (keys !! s.1) ≤ key) ∧ ∀ j x, (s.1 + s.2 ≤ j)%nat → keys !! j = Some x → key < x.

Lemma window_step s : window s →
  match bsearch_step keys key s with
  | inl s' => window s' ∧ 0 ≤ Z.of_nat s'.2 < Z.of_nat s.2
  | inr r => search_answer r
  end.
Proof.
  destruct s as [base size]. intros (H1 & H2 & H3 & H4). cbn [fst snd] in *. unfold bsearch_step.
  destruct (decide (1 < size)%nat) as [Hs|Hs].
  - assert (Hh : (1 ≤ size / 2 < size)%nat).
    { pose proof (Nat.div_lt size 2 ltac:(lia) ltac:(lia)). pose proof (Nat.Div0.div_le_mono 2 size 2 ltac:(lia)).
      change (2 / 2)%nat with 1%nat in *. lia. }
    pose proof (keys_at (base + size / 2) ltac:(lia)) as Hm. set (m := default 0 (keys !! (base + size / 2)%nat)) in *.
    pose proof (Nat.div_mod_eq size 2) as Hdm. pose proof (Nat.mod_upper_bound size 2 ltac:(lia)).
    cbn [fst snd]. split; [|lia]. destruct (decide (key < m)) as [Hk|Hk]; unfold window; cbn [fst snd]; split_and!; try lia.
    + intros j x Hj Hx. destruct (decide (j = base + size / 2)%nat) as [->|]; [congruence|].
      pose proof (Hsorted (base + size / 2) j _ _ ltac:(lia) Hm Hx). lia.
    + intros j x Hj. apply H4. lia.
  - assert (size = 1%nat) as -> by lia. pose proof (keys_at base ltac:(lia)) as Hb. set (k := default 0 (keys !! base)) in *.
    destruct (decide (k = key)) as [He|He]; [left; exists base; split; [done|congruence]|]. right.
    eexists; split; [reflexivity|]. unfold splits_at. destruct (decide (k < key)) as [Hlt|Hge]; (split; [lia|]); intros j x Hx.
    + destruct (decide (j < S base)%nat) as [Hj|Hj]; [|apply (H4 j); [lia|done]].
      destruct (decide (j = base)) as [->|]; [|pose proof (Hsorted j base _ _ ltac:(lia) Hx Hb); lia].
      rewrite Hb in Hx. injection Hx as <-. lia.
    + destruct (decide (j < base)%nat) as [Hj|Hj]; [lia|]. destruct (decide (j = base)) as [->|]; [|apply (H4 j); [lia|done]].
      rewrite Hb in Hx. injection Hx as <-. lia.
Qed.

Lemma binary_search_answer : search_answer (binary_search keys key).
Proof.
  destruct (decide (keys = [])) as [Ek|Ek].
  - right. exists 0%nat. split; [by rewrite Ek|]. split; [lia|]. intros j x Hx. by rewrite Ek, lookup_nil in Hx.
  - rewrite binary_search_loop by done.
    apply (run_loop_rule _ window _ (λ s, Z.of_nat s.2)); [apply window_step| |unfold fuel_of; cbn [snd]; lia].
    assert (0 < length keys)%nat by (by apply length_pos).
    unfold window. cbn [fst snd]. split_and!; [lia|lia|by left|]. intros j x Hj Hx%lookup_lt_Some. lia.
Qed.
End Search.

(** ** The entry that covers an address *)

Definition covering (image_base control_pc : u64) (entries : list RuntimeFunction) : option RuntimeFunction :=
  snd <$> list_find (λ e, covers e control_pc image_base) entries.

Lemma table_sorted_lookup es : table_sorted es → ∀ i j e e',
  (i < j)%nat → es !! i = Some e → es !! j = Some e' → end_address e ≤ begin_address e'.
Proof.
  induction 1 as [|e0 es H0 H1 Hall Hs IH]; intros i j e e' Hij Hi Hj; [done|].
  destruct j as [|j]; [lia|]. destruct i as [|i]; simpl in *.
  - injection Hi as <-. rewrite Forall_lookup in Hall. by apply (Hall j).
  - by apply (IH i j); [lia|..].
Qed.
Lemma table_sorted_entry es i e : table_sorted es → es !! i = Some e → 0 ≤ begin_address e < end_address e ∧ end_address e < 2 ^ 32.
Proof. intros Hs. revert i. induction Hs; intros [|i] Hi; simplify_eq/=; eauto. Qed.

Section Lookup.
Context (es : list RuntimeFunction) (image_base control_pc : u64).
Context (Hs : table_sorted es) (Hbase : 0 ≤ image_base) (Hlim : image_base + 2 ^ 32 < u64_lim).

Lemma covers_spec i e : es !! i = Some e →
  covers e control_pc image_base = true ↔ begin_address e ≤ control_pc - image_base < end_address e.
Proof.
  intros Hi. pose proof (table_sorted_entry es i e Hs Hi). unfold covers, begin_va, end_va.
  rewrite !sat_add_lt by lia. rewrite andb_true_iff, !bool_decide_eq_true. lia.
Qed.

(** At most one entry covers an address. *)
Lemma covering_at i e :
  es !! i = Some e → begin_address e ≤ control_pc - image_base < end_address e → covering image_base control_pc es = Some e.
Proof.
  intros Hi Hc. unfold covering. apply fmap_Some. exists (i, e). split; [|done]. apply list_find_Some. split_and!; [done| |].
  - apply Is_true_true. by apply (covers_spec i).
  - intros j y Hj Hji Hy%Is_true_true. apply (covers_spec j y Hj) in Hy.
    pose proof (table_sorted_lookup es Hs j i y e Hji Hj Hi). lia.
Qed.
Lemma covering_none :
  (∀ i e, es !! i = Some e → ¬ (begin_address e ≤ control_pc - image_base < end_address e)) →
  covering image_base control_pc es = None.
Proof.
  intros Hno. unfold covering. apply fmap_None, list_find_None, Forall_lookup. intros i e Hi Hc%Is_true_true.
  apply (Hno i e Hi). by apply (covers_spec i).
Qed.

Lemma begins_sorted i j x y :
  (i < j)%nat → (begin_address <$> es) !! i = Some x → (begin_address <$> es) !! j = Some y → x < y.
Proof.
  rewrite !list_lookup_fmap. intros Hij (e & Hi & ->)%fmap_Some (e' & Hj & ->)%fmap_Some.
  pose proof (table_sorted_lookup es Hs i j e e' Hij Hi Hj). pose proof (table_sorted_entry es i e Hs Hi). lia.
Qed.

Lemma lookup_in_table_spec :
  lookup_in_table image_base es control_pc = Ok ((λ e, mkEntry e image_base) <$> covering image_base control_pc es).
Proof.
  unfold lookup_in_table. destruct (es !! 0%nat) as [first|] eqn:Ef; [|by destruct es]. destruct (last es) as [lst|] eqn:El; [|by apply last_None in El as ->].
  rewrite last_lookup in El. pose proof (table_sorted_entry es _ _ Hs Ef). pose proof (table_sorted_entry es _ _ Hs El).
  unfold begin_va, end_va. rewrite !sat_add_lt by lia. case_decide as Hout.
  - rewrite covering_none; [done|]. intros i e Hi Hc. destruct Hout as [Hout|Hout].
    + destruct i as [|i]; [simplify_eq; lia|]. pose proof (table_sorted_lookup es Hs 0 (S i) _ _ ltac:(lia) Ef Hi). lia.
    + apply lookup_lt_Some in Hi as Hlt. destruct (decide (i = pred (length es))) as [->|]; [simplify_eq; lia|].
      pose proof (table_sorted_lookup es Hs i (pred (length es)) _ _ ltac:(lia) Hi El). lia.
  - cbv zeta. assert (Hkey : as_u 32 (control_pc - image_base) = control_pc - image_base).
    { unfold as_u. apply Z.mod_small. lia. }
    rewrite Hkey. destruct (binary_search_answer (begin_address <$> es) (control_pc - image_base) begins_sorted)
      as [(i & -> & Hi)|(k & -> & Hk & Hsplit)]; unfold mbind, res_bind.
    + rewrite list_lookup_fmap in Hi. apply fmap_Some in Hi as (e & Hi & Hke). rewrite Hi.
      pose proof (table_sorted_entry es i e Hs Hi). by rewrite (covering_at i e Hi) by lia.
    + assert (Hat : ∀ j e, es !! j = Some e → if decide (j < k)%nat then begin_address e < control_pc - image_base
                                             else control_pc - image_base < begin_address e).
      { intros j e Hj. apply (Hsplit j). by rewrite list_lookup_fmap, Hj. }
      destruct k as [|i]; [specialize (Hat 0%nat first Ef); rewrite decide_False in Hat by lia; lia|].
      rewrite length_fmap in Hk. destruct (lookup_lt_is_Some_2 es i ltac:(lia)) as [e Hi]. rewrite Hi.
      pose proof (Hat i e Hi) as Hie. rewrite decide_True in Hie by lia. case_decide as Hend; [by rewrite (covering_at i e Hi) by lia|].
      rewrite covering_none; [done|]. intros j e' Hj Hc. specialize (Hat j e' Hj). case_decide as Hj'; [|lia].
      destruct (decide (j = i)) as [->|]; [simplify_eq; lia|].
      pose proof (table_sorted_lookup es Hs j i _ _ ltac:(lia) Hj Hi). pose proof (table_sorted_entry es _ _ Hs Hi). lia.
Qed.
End Lookup.

(** Looking up a function's entry: the binary search of every table answers as a scan of
    all its entries would, in whatever order the modules are visited. *)
Theorem lookup_function_entry_scan order s control_pc :
  Forall (λ t, table_sorted t.2 ∧ 0 ≤ t.1 ∧ t.1 + 2 ^ 32 < u64_lim) (order (function_tables s)) →
  lookup_function_entry order s control_pc =
  Ok (head (omap (λ t, (λ e, mkEntry e t.1) <$> covering t.1 control_pc t.2) (order (function_tables s)))).
Proof.
  unfold lookup_function_entry. generalize (order (function_tables s)) as ts. induction ts as [|[b es] ts IH]; [done|].
  intros [(Hs & Hb & Hl) Hts]%Forall_cons. cbn [lookup_in_tables]. cbn [fst snd] in *.
  rewrite lookup_in_table_spec by done. unfold mbind, res_bind. rewrite IH by done. cbn [omap list_omap fst snd].
  by destruct (covering b control_pc es).
Qed.

(** ** The bytes of a table *)

Definition encode_entry (e : RuntimeFunction) : list u8 :=
  le_bytes 4 (begin_address e) ++ le_bytes 4 (end_address e) ++ le_bytes 4 (unwind_data e).
Definition entry_u32 (e : RuntimeFunction) : Prop :=
  0 ≤ begin_address e < 2 ^ 32 ∧ 0 ≤ end_address e < 2 ^ 32 ∧ 0 ≤ unwind_data e < 2 ^ 32.

Lemma encode_entry_length e : length (encode_entry e) = 12%nat.
Proof. unfold encode_entry. by rewrite !length_app, !length_le_bytes. Qed.

Lemma rf_at pre e post off :
  off = length pre → entry_u32 e → rf_from_bytes (pre ++ encode_entry e ++ post) off = Some e.
Proof.
  intros -> (H1 & H2 & H3). unfold rf_from_bytes, get_range. rewrite decide_True by (rewrite !length_app, encode_entry_length; lia).
  rewrite drop_app_length, take_app_length' by (by rewrite encode_entry_length). cbn [mbind option_bind]. unfold encode_entry.
  rewrite take_app_length', drop_app_length' by (by rewrite length_le_bytes).
  replace 8%nat with (4 + 4)%nat by done. rewrite <- drop_drop, !drop_app_length' by (by rewrite length_le_bytes).
  rewrite take_app_length', firstn_all2 by (by rewrite length_le_bytes). rewrite !le_val_le_bytes.
  change (256 ^ Z.of_nat 4) with (2 ^ 32). rewrite !Z.mod_small by done. by destruct e.
Qed.

Lemma parse_entries es tail : ∀ pre k,
  length pre = (k * 12)%nat → Forall entry_u32 es →
  omap (λ i, e ← rf_from_bytes (pre ++ concat (encode_entry <$> es) ++ tail) (i * RuntimeFunction_SIZE);
             if is_null_entry e then None else Some e) (seq k (length es)) =
  filter (λ e, is_null_entry e = false) es.
Proof.
  induction es as [|e es IH]; intros pre k Hl Hes; [done|]. apply Forall_cons in Hes as [He Hes].
  rewrite fmap_cons. cbn [length seq concat omap list_omap]. rewrite <- app_assoc, (rf_at pre e) by done. cbn [mbind option_bind].
  specialize (IH (pre ++ encode_entry e) (S k)). rewrite <- app_assoc in IH.
  rewrite IH; [|rewrite length_app, encode_entry_length; lia|done].
  destruct (is_null_entry e) eqn:En; [by rewrite filter_cons_False by (by rewrite En)|by rewrite filter_cons_True].
Qed.

Lemma encode_entries_length es : length (concat (encode_entry <$> es)) = (length es * 12)%nat.
Proof.
  induction es as [|e es IH]; [done|]. rewrite fmap_cons. cbn [concat]. rewrite length_app, encode_entry_length, IH. done.
Qed.

(** The bytes of a function table are read back as the table, whatever trails it
    short of another entry, less its null entries. *)
Theorem parse_pdata_roundtrip es tail :
  Forall entry_u32 es → (length tail < 12)%nat →
  parse_pdata (concat (encode_entry <$> es) ++ tail) = filter (λ e, is_null_entry e = false) es.
Proof.
  intros Hes Ht. unfold parse_pdata. rewrite length_app.
  pose proof (encode_entries_length es) as El.
  assert (Ec : ((length es * 12 + length tail) / RuntimeFunction_SIZE)%nat = length es).
  { unfold RuntimeFunction_SIZE. rewrite Nat.div_add_l, (Nat.div_small (length tail)) by lia. lia. }
  rewrite El, Ec.
  by apply (parse_entries es tail [] 0).
Qed.

(** * Unwinding at work

    A concrete reader of guest memory; the theorems about unwinding and landing
    pads at concrete inputs; runs whose outcome the formats do not allow. *)

From S2P Require Import Prelude regs insn exception unwind_spec lsda.

(** ** A reader *)

Definition segments := list (Z * list u8).

Fixpoint seg_byte (segs : segments) (a : Z) : u8 :=
  match segs with
  | [] => 0
  | (b, bs) :: segs => if decide (b ≤ a < b + Z.of_nat (length bs)) then byte_of bs (Z.to_nat (a - b)) else seg_byte segs a
  end.

(** Readable from 0 to [top]. *)
Definition seg_reader (top : Z) (segs : segments) (a : u64) (n : nat) : res (list u8) :=
  if decide (0 ≤ a ∧ a + Z.of_nat n ≤ top) then Ok ((λ i, seg_byte segs (a + Z.of_nat i)) <$> seq 0 n) else failed.

Lemma seg_found top segs a bs :
  0 ≤ a → a + Z.of_nat (length bs) ≤ top → (λ i, seg_byte segs (a + Z.of_nat i)) <$> seq 0 (length bs) = bs →
  found (seg_reader top segs) a bs.
Proof.
  intros Ha Ht Hb off n Hn. unfold seg_reader. rewrite decide_True by lia. f_equal.
  apply list_eq. intros i. rewrite list_lookup_fmap. destruct (decide (i < n)%nat) as [Hi|Hi].
  - rewrite lookup_seq_lt, lookup_take_lt, lookup_drop by done. rewrite <- Hb at 1.
    rewrite list_lookup_fmap, lookup_seq_lt by lia. simpl. do 2 f_equal. lia.
  - rewrite !(lookup_ge_None_2 _ i); [done| |]; rewrite ?length_seq, ?length_take, ?length_drop; lia.
Qed.

Lemma seg_reader_ok top segs a n : match seg_reader top segs a n with
  | Ok bs => a + Z.of_nat n ≤ top | Err _ => True | Abort _ => False end.
Proof. unfold seg_reader. case_decide; simpl; [lia|done]. Qed.

Lemma seg_reader_byte top segs a n bs :
  Forall (λ s, Forall is_byte s.2) segs → seg_reader top segs a n = Ok bs → Forall is_byte bs.
Proof.
  intros Hs. unfold seg_reader. case_decide; [|done]. intros [= <-]. apply Forall_fmap, Forall_forall. intros i _. simpl.
  generalize (a + Z.of_nat i). clear -Hs. intros a. induction Hs as [|[b x] segs Hx Hs IH]; simpl; [by vm_compute|].
  case_decide as Hin; [|done]. unfold byte_of. destruct (lookup_lt_is_Some_2 x (Z.to_nat (a - b)) ltac:(lia)) as [y Hy].
  rewrite Hy. simpl in *. rewrite Forall_lookup in Hx. by apply (Hx (Z.to_nat (a - b))).
Qed.

Ltac seg := apply seg_found; [vm_compute; discriminate|vm_compute; discriminate|vm_compute; reflexivity].

(** ** A frame *)

Definition demo_prolog : list (u8 * prolog_op) :=
  [(1, PPush 5); (2, PPush 3); (6, PAlloc 64); (11, PSetFp); (15, PSave 6 8); (20, PSaveXmm 6 16)].
Definition demo_caller : UnwindContext :=
  mkUnwind 0x1111 0x9000 [1; 2; 3; 0x33; 0x9000; 0x55; 0x66; 7; 8; 9; 10; 11; 12; 13; 14; 15]
    [0; 0; 0; 0; 0; 0; 0x123456789; 0; 0; 0; 0; 0; 0; 0; 0; 0].
Definition demo_frame : UnwindContext := run_prolog 5 2 (demo_prolog.*2) demo_caller.
Definition demo_body : UnwindContext :=
  uc_set_gpr 0 99 (uc_set_gpr 3 77 (uc_set_gpr 6 88 (uc_set_xmm 6 4 (uc_set_rip 0x401020 demo_frame)))).
Definition demo_segs : segments :=
  (0x2300, unwind_image 1 20 5 2 demo_prolog (le_bytes 4 0x1234 ++ le_bytes 4 0x5678)) :: (0x9000, le_bytes 8 0x401999) ::
  prolog_stores 5 2 (frame_base 5 2 (demo_prolog.*2) demo_caller) (demo_prolog.*2) demo_caller.

Lemma demo_prolog_ok : prolog_ok 5 (demo_prolog.*2).
Proof.
  intros before op after E. repeat (destruct before as [|? before]; simplify_eq/=; try (split_and!; first [done|lia|set_solver])).
  all: lia.
Qed.

Lemma demo_context_ok : context_ok demo_caller.
Proof.
  assert (Hg : Forall in_u64 (uc_gpr demo_caller)) by (apply (bool_decide_unpack _); vm_compute; exact I).
  assert (Hx : Forall (λ x, 0 ≤ x < 2 ^ 128) (uc_xmm demo_caller)) by (apply (bool_decide_unpack _); vm_compute; exact I).
  split; [by vm_compute|done|done| |]; intros r; unfold reg_of, xmm_of.
  - destruct (uc_gpr demo_caller !! r) eqn:E; [|by vm_compute]. rewrite Forall_lookup in Hg. by apply (Hg r).
  - destruct (uc_xmm demo_caller !! r) eqn:E; [|by vm_compute]. rewrite Forall_lookup in Hx. by apply (Hx r).
Qed.

Lemma unwind_inverts_prologue_witness :
  ∃ r, virtual_unwind (seg_reader 0x10000 demo_segs) 1 0x2000 (mkRuntimeFunction 0x100 0x200 0x300) demo_body = Ok r ∧
    uc_rip (ur_ctx r) = 0x401999 ∧ uc_rsp (ur_ctx r) = uc_rsp demo_caller + 8 ∧
    (∀ k, reg_of (ur_ctx r) k =
       if decide (k ∈ saved_gprs (demo_prolog.*2)) then reg_of demo_caller k else reg_of demo_body k) ∧
    (∀ k, xmm_of (ur_ctx r) k =
       if decide (k ∈ saved_xmms (demo_prolog.*2)) then xmm_of demo_caller k else xmm_of demo_body k) ∧
    handler_found 1 (0x2300 + Z.of_nat (length (unwind_image 1 20 5 2 demo_prolog (le_bytes 4 0x1234 ++ le_bytes 4 0x5678))) - 8)
      0x1234 0x5678 r.
Proof.
  apply (unwind_inverts_prologue (seg_reader 0x10000 demo_segs) 0 0x2000 (mkRuntimeFunction 0x100 0x200 0x300)
    1 20 5 2 demo_prolog 0x1234 0x5678 demo_caller demo_body 0x401999); [done|seg|by vm_compute|apply demo_prolog_ok|..].
  - apply Nat.ltb_lt. by vm_compute.
  - lia.
  - lia.
  - lia.
  - done.
  - lia.
  - lia.
  - apply demo_context_ok.
  - by vm_compute.
  - by vm_compute.
  - seg.
  - done.
  - done.
  - by vm_compute.
  - by vm_compute.
  - repeat constructor; first [seg | by vm_compute].
Defined.

(** ** Chained infos in a circle *)

(** An info without codes that chains to itself. *)
Definition circle : list u8 := [1 + 8 * FLAG_CHAININFO; 0; 0; 0] ++ le_bytes 4 0x300.

Lemma virtual_unwind_returns_witness :
  let rd := seg_reader 0x3000 [(0x2300, circle)] in
  (∀ w, virtual_unwind rd 514 0x2000 (mkRuntimeFunction 0x100 0x200 0x300) (mkUnwind 0x2100 0x2000 (replicate 16 0) (replicate 16 0)) ≠ Abort w) ∧
  virtual_unwind rd 514 0x2000 (mkRuntimeFunction 0x100 0x200 0x300) (mkUnwind 0x2100 0x2000 (replicate 16 0) (replicate 16 0)) = failed.
Proof.
  intros rd. split; [|by vm_compute].
  apply (virtual_unwind_returns rd 0x3000 513); [| | |done|by vm_compute|simpl; lia].
  - intros a n w Ha. pose proof (seg_reader_ok 0x3000 [(0x2300, circle)] a n) as Hr. unfold rd in Ha. by rewrite Ha in Hr.
  - intros a n bs Ha Hn. pose proof (seg_reader_ok 0x3000 [(0x2300, circle)] a n) as Hr. unfold rd in Ha. rewrite Ha in Hr. lia.
  - intros a n bs Ha. apply (seg_reader_byte 0x3000 [(0x2300, circle)] a n); [|done].
    apply (bool_decide_unpack _). vm_compute. exact I.
Defined.

(** ** Tables *)

Definition demo_table : list RuntimeFunction :=
  [mkRuntimeFunction 0x100 0x180 0x300; mkRuntimeFunction 0x180 0x200 0x310; mkRuntimeFunction 0x280 0x2c0 0x320].

Lemma demo_table_sorted : table_sorted demo_table.
Proof. repeat constructor; simpl; lia. Qed.

Definition demo_sync : SyncState :=
  mkSync 0x80000001 ∅ [] ∅ ∅ 0 1 [] ∅ ∅ false {[ 0x2000 := demo_table ]}.

Lemma lookup_function_entry_scan_witness :
  lookup_function_entry map_to_list demo_sync 0x2190 = Ok (Some (mkEntry (mkRuntimeFunction 0x180 0x200 0x310) 0x2000)).
Proof.
  assert (E : map_to_list (function_tables demo_sync) = [(0x2000, demo_table)]) by apply map_to_list_singleton.
  rewrite (lookup_function_entry_scan map_to_list demo_sync 0x2190); rewrite E.
  - by vm_compute.
  - apply Forall_singleton. split_and!; [apply demo_table_sorted|done..].
Defined.

Lemma parse_pdata_roundtrip_witness :
  parse_pdata (concat (encode_entry <$> demo_table ++ [mkRuntimeFunction 0 0 0]) ++ [1; 2]) = demo_table.
Proof.
  rewrite (parse_pdata_roundtrip (demo_table ++ [mkRuntimeFunction 0 0 0]) [1; 2]); [by vm_compute| |simpl; lia].
  repeat constructor; by vm_compute.
Defined.

(** ** Landing pads *)

Lemma leb128_roundtrip_witness :
  let rd := seg_reader 0x3000 [(0x100, uleb 9 624485 ++ sleb 9 (-123456))] in
  read_uleb128 rd 0x100 = Ok (624485, 0x103) ∧ read_sleb128 rd 0x103 = Ok (-123456, 0x106).
Proof.
  apply (leb128_roundtrip (seg_reader 0x3000 [(0x100, uleb 9 624485 ++ sleb 9 (-123456))]) 0x100 624485 (-123456));
    [lia|lia|seg|by vm_compute].
Defined.

(** Two sites; the second covers the address and has a typed action. *)
Definition demo_sites : list call_site := [mkSite 0 0x10 0x80 0; mkSite 0x10 0x300 0x90 1].
(** Filter 0, then filter 2: a catch-all cleanup before the handler. *)
Definition demo_actions : list u8 := (sleb 9 0 ++ sleb 9 1) ++ sleb 9 2 ++ sleb 9 0.
Definition demo_lsda : list u8 := lsda_image dw_eh_pe.ABSPTR 40 demo_sites.
Definition lsda_segs : segments :=
  [(0x1000, demo_lsda); (0x1000 + Z.of_nat (length demo_lsda), demo_actions); (0x101b, le_bytes 8 0x7777 ++ le_bytes 8 0x6666)].

Lemma demo_sites_ok : Forall site_ok demo_sites.
Proof. repeat constructor; simpl; lia. Qed.

Lemma landing_pad_search_witness :
  let rd := seg_reader 0x3000 lsda_segs in
  find_landing_pad_ex rd 0 0x2000 0x2020 (Some 0x7777) 0x1000 = Ok (Some (mkLanding 0x2090 1 2)) ∧
  find_cleanup_landing_pad rd 0 0x2000 0x2008 0x1000 = Ok (Some (mkLanding 0x2080 0 0)).
Proof.
  intros rd.
  destruct (landing_pad_search rd 0 0x2000 0x2020 (Some 0x7777) 0x1000 dw_eh_pe.ABSPTR 40 demo_sites) as [E _];
    [lia|done|apply demo_sites_ok|by vm_compute|seg|by vm_compute|].
  destruct (landing_pad_search rd 0 0x2000 0x2008 (Some 0x7777) 0x1000 dw_eh_pe.ABSPTR 40 demo_sites) as [_ E'];
    [lia|done|apply demo_sites_ok|by vm_compute|seg|by vm_compute|].
  rewrite E, E'. split; vm_compute; reflexivity.
Defined.

Definition demo_ttype (f : Z) : option u64 :=
  match attempt (resolve_ttype (seg_reader 0x3000 lsda_segs) 0x102b dw_eh_pe.ABSPTR (as_u 64 f) 0 0x2000) with
  | Ok o => o
  | _ => None
  end.

Lemma demo_ttype_total f :
  attempt (resolve_ttype (seg_reader 0x3000 lsda_segs) 0x102b dw_eh_pe.ABSPTR (as_u 64 f) 0 0x2000) = Ok (demo_ttype f).
Proof.
  unfold demo_ttype. set (r := resolve_ttype _ _ _ _ _ _).
  assert (Hr : ∀ w, r ≠ Abort w).
  { intros w. unfold r, resolve_ttype. case_decide; [done|]. rewrite decide_False by (intros [|]; done).
    rewrite decide_False by done. unfold read_encoded_value. rewrite !decide_False by done.
    change (default 0 (dw_format_size (Z.land dw_eh_pe.ABSPTR 0x0f))) with 8.
    change (some_or (dw_format_size (Z.land (Z.land dw_eh_pe.ABSPTR 15) 15))) with (Ok 8 : res Z).
    unfold mbind, res_bind. set (a := sat_sub _ _). pose proof (seg_reader_ok 0x3000 lsda_segs a (Z.to_nat 8)) as Hok.
    destruct (seg_reader 0x3000 lsda_segs a (Z.to_nat 8)) as [bs| |]; [|done..].
    unfold apply_encoding. rewrite decide_False by done. case_decide; [done|]. cbv zeta.
    rewrite (decide_False (P := Z.land _ dw_eh_pe.INDIRECT ≠ 0 ∧ _)) by (intros [Hi _]; by apply Hi). done. }
  destruct r as [a|e|w]; [done|done|by destruct (Hr w)].
Qed.

(** The typed handler is taken though a catch-all comes before it. *)
Lemma match_action_prefers_typed_witness :
  match_action (seg_reader 0x3000 lsda_segs) 0x1010 0x102b dw_eh_pe.ABSPTR 0 0x2000 (Some 0x7777) 1 = Ok (Some 2).
Proof.
  rewrite (match_action_prefers_typed (seg_reader 0x3000 lsda_segs) 0x1010 0x102b dw_eh_pe.ABSPTR 0 0x2000 (Some 0x7777) demo_ttype 1 [0; 2]).
  - vm_compute. reflexivity.
  - lia.
  - apply (chain_next _ _ 1 0 1 3); [lia|lia|lia|lia|seg|vm_compute; reflexivity|vm_compute; reflexivity|lia|].
    apply chain_last; [lia|lia|seg|vm_compute; reflexivity].
  - simpl. lia.
  - intros f _. apply demo_ttype_total.
Defined.

(** ** Where the code departs from the formats *)

(** push rbp; sub rsp, 32; mov [rsp+8], rbx, without a frame register: RBX is saved
    at 0x8fd8+8.  The code counts the save from the stack pointer at entry, and takes the
    operand slot of the save for another push on the way: it reads 0x9008+8, above the
    return address. *)
Definition plain_prolog : list (u8 * prolog_op) := [(1, PPush 5); (5, PAlloc 32); (10, PSave 3 8)].
Definition plain_segs : segments :=
  [(0x2300, unwind_image 0 10 0 0 plain_prolog []); (0x8fe0, le_bytes 8 0x33); (0x8ff8, le_bytes 8 0x55);
   (0x9000, le_bytes 8 0x401999); (0x9010, le_bytes 8 0xbad)].

Lemma save_without_frame_register :
  prolog_stores 0 0 (uc_rsp (run_prolog 0 0 (plain_prolog.*2) demo_caller)) (plain_prolog.*2) demo_caller =
    [(0x8ff8, le_bytes 8 0x55); (0x8fe0, le_bytes 8 0x33)] ∧
  (r ← virtual_unwind (seg_reader 0x10000 plain_segs) 1 0x2000 (mkRuntimeFunction 0x100 0x200 0x300)
         (run_prolog 0 0 (plain_prolog.*2) demo_caller);
   Ok (uc_rip (ur_ctx r), uc_rsp (ur_ctx r), reg_of (ur_ctx r) 5, reg_of (ur_ctx r) 3)) =
  Ok (0x401999, 0x9008, 0x55, 0xbad).
Proof. split; vm_compute; reflexivity. Qed.

(** A signed value of 8 bytes is filled with ones from the left by a shift count that
    wraps: -16 becomes -1. *)
Lemma sdata8_loses_value : fixed_value dw_eh_pe.SDATA8 8 (le_bytes 8 (-16)) = 2 ^ 64 - 1.
Proof. vm_compute. reflexivity. Qed.
(** 4 bytes are extended as meant. *)
Lemma sdata4_extends : fixed_value dw_eh_pe.SDATA4 4 (le_bytes 4 (-16)) = 2 ^ 64 - 16.
Proof. vm_compute. reflexivity. Qed.
