(* ===== verification/utf.v ===== *)
(** * UTF-8 and UTF-16, as the standard library reads and writes them

    A [char] is its scalar value, a text the list of its characters.  The code
    meets bytes of a file or of guest memory with [str::from_utf8] and
    [from_utf8_lossy], and UTF-16 units with [encode_utf16], [from_utf16] and
    [from_utf16_lossy]. *)

From S2P Require Import Prelude.

Abbreviation char := Z (only parsing).

Definition is_scalar (c : char) : Prop := 0 ≤ c < 0xd800 ∨ 0xe000 ≤ c < 0x110000.
#[global] Instance is_scalar_dec c : Decision (is_scalar c) := ltac:(unfold is_scalar; solve_decision).

(** [char::REPLACEMENT_CHARACTER]. *)
Definition replacement : char := 0xfffd.

(** ** UTF-8 *)

Definition utf8_encode_char (c : char) : list u8 :=
  if decide (c < 0x80) then [c]
  else if decide (c < 0x800) then [0xc0 + c / 64; 0x80 + c mod 64]
  else if decide (c < 0x10000) then [0xe0 + c / 4096; 0x80 + c / 64 mod 64; 0x80 + c mod 64]
  else [0xf0 + c / 262144; 0x80 + c / 4096 mod 64; 0x80 + c / 64 mod 64; 0x80 + c mod 64].
Definition utf8_encode (cs : list char) : list u8 := concat (utf8_encode_char <$> cs).

Definition is_cont (b : u8) : bool := bool_decide (0x80 ≤ b < 0xc0).
(** The second byte of 3 and 4: no overlong forms, no surrogates, nothing above the last scalar. *)
Definition second_of_3 (b0 b1 : u8) : bool :=
  is_cont b1 && (bool_decide (b0 ≠ 0xe0) || bool_decide (0xa0 ≤ b1)) && (bool_decide (b0 ≠ 0xed) || bool_decide (b1 < 0xa0)).
Definition second_of_4 (b0 b1 : u8) : bool :=
  is_cont b1 && (bool_decide (b0 ≠ 0xf0) || bool_decide (0x90 ≤ b1)) && (bool_decide (b0 ≠ 0xf4) || bool_decide (b1 < 0x90)).
Definition utf8_width (b0 : u8) : nat :=
  if decide (b0 < 0x80) then 1%nat
  else if decide (0xc2 ≤ b0 < 0xe0) then 2%nat
  else if decide (0xe0 ≤ b0 < 0xf0) then 3%nat
  else if decide (0xf0 ≤ b0 < 0xf5) then 4%nat
  else 0%nat.

Definition char2 (b0 b1 : u8) : char := (b0 - 0xc0) * 64 + (b1 - 0x80).
Definition char3 (b0 b1 b2 : u8) : char := (b0 - 0xe0) * 4096 + (b1 - 0x80) * 64 + (b2 - 0x80).
Definition char4 (b0 b1 b2 b3 : u8) : char :=
  (b0 - 0xf0) * 262144 + (b1 - 0x80) * 4096 + (b2 - 0x80) * 64 + (b3 - 0x80).

(** [bad] is called with what follows the longest prefix of a character. *)
Definition utf8_cons {A} (bad : list u8 → A) (good : char → list u8 → A) (b0 : u8) (r : list u8) : A :=
  match utf8_width b0, r with
  | 1%nat, _ => good b0 r
  | 2%nat, b1 :: r1 => if is_cont b1 then good (char2 b0 b1) r1 else bad r
  | 3%nat, b1 :: r1 =>
      if second_of_3 b0 b1 then
        match r1 with
        | b2 :: r2 => if is_cont b2 then good (char3 b0 b1 b2) r2 else bad r1
        | [] => bad r1
        end
      else bad r
  | 4%nat, b1 :: r1 =>
      if second_of_4 b0 b1 then
        match r1 with
        | b2 :: r2 =>
            if is_cont b2 then
              match r2 with
              | b3 :: r3 => if is_cont b3 then good (char4 b0 b1 b2 b3) r3 else bad r2
              | [] => bad r2
              end
            else bad r1
        | [] => bad r1
        end
      else bad r
  | _, _ => bad r
  end.

(** Every turn takes at least a byte, so as many turns as bytes are enough. *)
Fixpoint utf8_decode_fuel (n : nat) (bs : list u8) : option (list char) :=
  match n, bs with
  | _, [] => Some []
  | S n, b0 :: r => utf8_cons (λ _, None) (λ c r, cons c <$> utf8_decode_fuel n r) b0 r
  | O, _ => None
  end.
(** [str::from_utf8]. *)
Definition from_utf8 (bs : list u8) : option (list char) := utf8_decode_fuel (length bs) bs.

Fixpoint utf8_lossy_fuel (n : nat) (bs : list u8) : list char :=
  match n, bs with
  | _, [] => []
  | S n, b0 :: r => utf8_cons (λ r, replacement :: utf8_lossy_fuel n r) (λ c r, c :: utf8_lossy_fuel n r) b0 r
  | O, _ => []
  end.
(** [String::from_utf8_lossy]. *)
Definition from_utf8_lossy (bs : list u8) : list char := utf8_lossy_fuel (length bs) bs.

(** ** UTF-16 *)

Definition utf16_encode_char (c : char) : list u16 :=
  if decide (c < 0x10000) then [c]
  else [0xd800 + (c - 0x10000) / 1024; 0xdc00 + (c - 0x10000) mod 1024].
(** [str::encode_utf16]. *)
Definition encode_utf16 (cs : list char) : list u16 := concat (utf16_encode_char <$> cs).

Definition is_high (u : u16) : bool := bool_decide (0xd800 ≤ u < 0xdc00).
Definition is_low (u : u16) : bool := bool_decide (0xdc00 ≤ u < 0xe000).
Definition pair (u v : u16) : char := 0x10000 + (u - 0xd800) * 1024 + (v - 0xdc00).

(** [String::from_utf16]. *)
Fixpoint from_utf16 (us : list u16) : option (list char) :=
  match us with
  | [] => Some []
  | u :: us =>
      if is_low u then None
      else if is_high u then
        match us with
        | v :: us => if is_low v then cons (pair u v) <$> from_utf16 us else None
        | [] => None
        end
      else cons u <$> from_utf16 us
  end.
(** [String::from_utf16_lossy]. *)
Fixpoint from_utf16_lossy (us : list u16) : list char :=
  match us with
  | [] => []
  | u :: us =>
      if is_high u then
        match us with
        | v :: us' => if is_low v then pair u v :: from_utf16_lossy us' else replacement :: from_utf16_lossy us
        | [] => [replacement]
        end
      else if is_low u then replacement :: from_utf16_lossy us
      else u :: from_utf16_lossy us
  end.

(** ** Reading back *)

Ltac scalars := unfold is_cont, second_of_3, second_of_4, is_high, is_low in *;
  repeat first [rewrite bool_decide_eq_true_2 by lia | rewrite bool_decide_eq_false_2 by lia].

(** A character is recognised by its bytes. *)
Lemma utf8_cons_char {A} (bad : list u8 → A) good c rest :
  is_scalar c →
  ∃ b0 r, utf8_encode_char c ++ rest = b0 :: r ∧ utf8_cons bad good b0 r = good c rest ∧ (length rest ≤ length r)%nat.
Proof.
  unfold is_scalar. intros Hc. unfold utf8_encode_char.
  pose proof (Z.div_mod c 64 ltac:(lia)). pose proof (Z.mod_pos_bound c 64 ltac:(lia)).
  pose proof (Z.div_mod (c / 64) 64 ltac:(lia)). pose proof (Z.mod_pos_bound (c / 64) 64 ltac:(lia)).
  pose proof (Z.div_mod (c / 4096) 64 ltac:(lia)). pose proof (Z.mod_pos_bound (c / 4096) 64 ltac:(lia)).
  rewrite (Z.div_div c 64 64) in * by lia. rewrite (Z.div_div c 4096 64) in * by lia.
  change (64 * 64) with 4096 in *. change (4096 * 64) with 262144 in *.
  destruct (decide (c < 0x80)); [|destruct (decide (c < 0x800)); [|destruct (decide (c < 0x10000))]]; simpl;
    eexists _, _; (split; [reflexivity|]); (split; [|simpl; lia]); unfold utf8_cons, utf8_width.
  - by rewrite decide_True by lia.
  - rewrite decide_False, decide_True by lia. scalars. f_equal. unfold char2. lia.
  - rewrite decide_False, decide_False, decide_True by lia.
    assert (second_of_3 (0xe0 + c / 4096) (0x80 + c / 64 mod 64) = true) as ->.
    { unfold second_of_3, is_cont. rewrite !andb_true_iff, !orb_true_iff, !bool_decide_eq_true. lia. }
    scalars. f_equal. unfold char3. lia.
  - rewrite decide_False, decide_False, decide_False, decide_True by lia.
    assert (second_of_4 (0xf0 + c / 262144) (0x80 + c / 4096 mod 64) = true) as ->.
    { unfold second_of_4, is_cont. rewrite !andb_true_iff, !orb_true_iff, !bool_decide_eq_true. lia. }
    scalars. f_equal. unfold char4. lia.
Qed.

Lemma utf8_decode_encode cs : ∀ n,
  Forall is_scalar cs → (length (utf8_encode cs) ≤ n)%nat → utf8_decode_fuel n (utf8_encode cs) = Some cs.
Proof.
  induction cs as [|c cs IH]; intros n Hs Hn; [by destruct n|]. apply Forall_cons in Hs as [Hc Hs].
  unfold utf8_encode in *. rewrite fmap_cons in *. cbn [concat] in *.
  destruct (utf8_cons_char (λ _, None) (λ c r, cons c <$> utf8_decode_fuel (pred n) r) c (concat (utf8_encode_char <$> cs)) Hc)
    as (b0 & r & E & Eu & Hl). rewrite E in Hn |- *. simpl in Hn. destruct n as [|n]; [lia|].
  cbn [utf8_decode_fuel]. simpl in Eu. rewrite Eu, IH; [done|done|lia].
Qed.

Lemma from_utf8_encode cs : Forall is_scalar cs → from_utf8 (utf8_encode cs) = Some cs.
Proof. intros Hs. by apply utf8_decode_encode. Qed.

Lemma is_cont_spec b : is_cont b = true ↔ 0x80 ≤ b < 0xc0.
Proof. unfold is_cont. by rewrite bool_decide_eq_true. Qed.
Lemma second_of_3_spec b0 b1 :
  second_of_3 b0 b1 = true → 0x80 ≤ b1 < 0xc0 ∧ (b0 = 0xe0 → 0xa0 ≤ b1) ∧ (b0 = 0xed → b1 < 0xa0).
Proof.
  unfold second_of_3, is_cont. rewrite !andb_true_iff, !orb_true_iff, !bool_decide_eq_true. intros [[? H1] H2].
  split_and!; intros; [lia|lia|destruct H1; lia|destruct H2; lia].
Qed.
Lemma second_of_4_spec b0 b1 :
  second_of_4 b0 b1 = true → 0x80 ≤ b1 < 0xc0 ∧ (b0 = 0xf0 → 0x90 ≤ b1) ∧ (b0 = 0xf4 → b1 < 0x90).
Proof.
  unfold second_of_4, is_cont. rewrite !andb_true_iff, !orb_true_iff, !bool_decide_eq_true. intros [[? H1] H2].
  split_and!; intros; [lia|lia|destruct H1; lia|destruct H2; lia].
Qed.

Lemma encode_char2 b0 b1 :
  0xc2 ≤ b0 < 0xe0 → 0x80 ≤ b1 < 0xc0 →
  is_scalar (char2 b0 b1) ∧ utf8_encode_char (char2 b0 b1) = [b0; b1].
Proof.
  intros H0 H1. unfold char2. split; [unfold is_scalar; lia|]. unfold utf8_encode_char.
  rewrite decide_False, decide_True by lia. f_equal; [|f_equal]; Z.to_euclidean_division_equations; lia.
Qed.
Lemma encode_char3 b0 b1 b2 :
  0xe0 ≤ b0 < 0xf0 → second_of_3 b0 b1 = true → 0x80 ≤ b2 < 0xc0 →
  is_scalar (char3 b0 b1 b2) ∧ utf8_encode_char (char3 b0 b1 b2) = [b0; b1; b2].
Proof.
  intros H0 (H1 & He & Hd)%second_of_3_spec H2. unfold char3. split; [unfold is_scalar; lia|]. unfold utf8_encode_char.
  rewrite decide_False, decide_False, decide_True by lia.
  f_equal; [|f_equal; [|f_equal]]; Z.to_euclidean_division_equations; lia.
Qed.
Lemma encode_char4 b0 b1 b2 b3 :
  0xf0 ≤ b0 < 0xf5 → second_of_4 b0 b1 = true → 0x80 ≤ b2 < 0xc0 → 0x80 ≤ b3 < 0xc0 →
  is_scalar (char4 b0 b1 b2 b3) ∧ utf8_encode_char (char4 b0 b1 b2 b3) = [b0; b1; b2; b3].
Proof.
  intros H0 (H1 & He & Hd)%second_of_4_spec H2 H3. unfold char4. split; [unfold is_scalar; lia|]. unfold utf8_encode_char.
  rewrite decide_False, decide_False, decide_False by lia.
  f_equal; [|f_equal; [|f_equal; [|f_equal]]]; Z.to_euclidean_division_equations; lia.
Qed.

(** What a reader sees: no character, or the bytes of one. *)
Definition reads_bad b0 r : Prop :=
  ∃ r', (length r' ≤ length r)%nat ∧ ∀ A bad good, @utf8_cons A bad good b0 r = bad r'.
Definition reads_char b0 r : Prop :=
  ∃ c r', (length r' ≤ length r)%nat ∧ (∀ A bad good, @utf8_cons A bad good b0 r = good c r') ∧
    (0 ≤ b0 → is_scalar c ∧ utf8_encode_char c ++ r' = b0 :: r).

Lemma utf8_cons_cases b0 r : reads_bad b0 r ∨ reads_char b0 r.
Proof.
  unfold reads_bad, reads_char, utf8_cons, utf8_width.
  destruct (decide (b0 < 0x80)).
  { right. exists b0, r. split_and!; [done|done|]. intros. split; [unfold is_scalar; lia|]. unfold utf8_encode_char.
    by rewrite decide_True by lia. }
  destruct (decide (0xc2 ≤ b0 < 0xe0)).
  { destruct r as [|b1 r]; [left; by exists []|]. destruct (is_cont b1) eqn:E1; [|left; by exists (b1 :: r)].
    right. exists (char2 b0 b1), r. split_and!; [simpl; lia|done|]. intros _. apply is_cont_spec in E1.
    destruct (encode_char2 b0 b1) as [? ->]; done. }
  destruct (decide (0xe0 ≤ b0 < 0xf0)).
  { destruct r as [|b1 r]; [left; by exists []|]. destruct (second_of_3 b0 b1) eqn:E1; [|left; by exists (b1 :: r)].
    destruct r as [|b2 r]; [left; exists []; split; [simpl; lia|done]|].
    destruct (is_cont b2) eqn:E2; [|left; exists (b2 :: r); split; [simpl; lia|done]].
    right. exists (char3 b0 b1 b2), r. split_and!; [simpl; lia|done|]. intros _. apply is_cont_spec in E2.
    destruct (encode_char3 b0 b1 b2) as [? ->]; done. }
  destruct (decide (0xf0 ≤ b0 < 0xf5)); [|left; by exists r].
  destruct r as [|b1 r]; [left; by exists []|]. destruct (second_of_4 b0 b1) eqn:E1; [|left; by exists (b1 :: r)].
  destruct r as [|b2 r]; [left; exists []; split; [simpl; lia|done]|].
  destruct (is_cont b2) eqn:E2; [|left; exists (b2 :: r); split; [simpl; lia|done]].
  destruct r as [|b3 r]; [left; exists []; split; [simpl; lia|done]|].
  destruct (is_cont b3) eqn:E3; [|left; exists (b3 :: r); split; [simpl; lia|done]].
  right. exists (char4 b0 b1 b2 b3), r. split_and!; [simpl; lia|done|]. intros _. apply is_cont_spec in E2, E3.
  destruct (encode_char4 b0 b1 b2 b3) as [? ->]; done.
Qed.

(** Valid bytes are the encoding of the text read from them, and the lossy reader
    agrees. *)
Lemma utf8_decode_inv n : ∀ bs cs,
  Forall is_byte bs → utf8_decode_fuel n bs = Some cs →
  utf8_encode cs = bs ∧ Forall is_scalar cs ∧ utf8_lossy_fuel n bs = cs.
Proof.
  induction n as [|n IH]; intros [|b0 r] cs Hb; cbn [utf8_decode_fuel utf8_lossy_fuel]; try done.
  - intros [= <-]. by split_and!.
  - intros [= <-]. by split_and!.
  - destruct (utf8_cons_cases b0 r) as [(r' & _ & E)|(c & r' & _ & E & Hc)]; rewrite !E; [done|].
    intros (cs' & Hcs & ->)%fmap_Some. apply Forall_cons in Hb as [Hb0 Hb].
    destruct (Hc (proj1 Hb0)) as [Hs Henc].
    assert (Hr : Forall is_byte r').
    { assert (Forall is_byte (utf8_encode_char c ++ r')) as Hall by (rewrite Henc; by constructor).
      by apply Forall_app in Hall as [_ ?]. }
    destruct (IH r' cs' Hr Hcs) as (He & Hsc & Hl). unfold utf8_encode in *. rewrite fmap_cons. cbn [concat].
    rewrite He, Hl, Henc. split_and!; [done|by constructor|done].
Qed.

Lemma from_utf8_inv bs cs :
  Forall is_byte bs → from_utf8 bs = Some cs → utf8_encode cs = bs ∧ Forall is_scalar cs ∧ from_utf8_lossy bs = cs.
Proof. intros Hb Hd. by apply utf8_decode_inv. Qed.

(** *** UTF-16 *)

Lemma from_utf16_encode cs : Forall is_scalar cs → from_utf16 (encode_utf16 cs) = Some cs ∧ from_utf16_lossy (encode_utf16 cs) = cs.
Proof.
  induction 1 as [|c cs Hc Hs IH]; [done|]. unfold encode_utf16 in *. rewrite fmap_cons. cbn [concat].
  unfold is_scalar in Hc. unfold utf16_encode_char at 1 3. case_decide.
  - assert (is_low c = false ∧ is_high c = false) as [El Eh].
    { unfold is_low, is_high. rewrite !bool_decide_eq_false. lia. }
    cbn [app from_utf16 from_utf16_lossy]. rewrite El, Eh. destruct IH as [-> ->]. done.
  - cbn [app from_utf16 from_utf16_lossy]. set (u := 0xd800 + _). set (v := 0xdc00 + _).
    assert (Hu : 0xd800 ≤ u < 0xdc00 ∧ 0xdc00 ≤ v < 0xe000 ∧ pair u v = c).
    { unfold u, v, pair. Z.to_euclidean_division_equations; lia. }
    destruct Hu as (Hu & Hv & Ep).
    assert (is_low u = false ∧ is_high u = true ∧ is_low v = true) as (E1 & E2 & E3).
    { unfold is_low, is_high. rewrite bool_decide_eq_false, !bool_decide_eq_true. lia. }
    rewrite E1, E2, E3, Ep. destruct IH as [-> ->]. done.
Qed.

Lemma from_utf16_inv us : ∀ cs, Forall (λ u, 0 ≤ u < 0x10000) us → from_utf16 us = Some cs → encode_utf16 cs = us ∧ Forall is_scalar cs.
Proof.
  remember (length us) as n eqn:En. revert us En. induction (lt_wf n) as [n _ IH]. intros [|u us] En cs Hu; cbn [from_utf16].
  { intros [= <-]. done. }
  apply Forall_cons in Hu as [Hu Hus]. destruct (is_low u) eqn:El; [done|]. apply bool_decide_eq_false in El.
  destruct (is_high u) eqn:Eh.
  - apply bool_decide_eq_true in Eh. destruct us as [|v us]; [done|]. destruct (is_low v) eqn:Elv; [|done].
    apply bool_decide_eq_true in Elv. apply Forall_cons in Hus as [Hv Hus].
    intros (cs' & Hcs & ->)%fmap_Some. destruct (IH (length us)) with us cs' as [He Hs]; [simpl in En; lia|done..|].
    unfold encode_utf16 in *. rewrite fmap_cons. cbn [concat]. rewrite He. split.
    + unfold utf16_encode_char, pair. rewrite decide_False by lia. cbn [app].
      f_equal; [|f_equal]; Z.to_euclidean_division_equations; lia.
    + constructor; [|done]. unfold is_scalar, pair. lia.
  - apply bool_decide_eq_false in Eh. intros (cs' & Hcs & ->)%fmap_Some.
    destruct (IH (length us)) with us cs' as [He Hs]; [simpl in En; lia|done..|].
    unfold encode_utf16 in *. rewrite fmap_cons. cbn [concat]. rewrite He. split.
    + unfold utf16_encode_char. by rewrite decide_True by lia.
    + constructor; [|done]. unfold is_scalar. lia.
Qed.
