(* ===== verification/encoding.v ===== *)
(** * Code pages (crates/wie-winapi/src/vfs/encoding.rs)

    Windows-1252, the OEM page and UTF-8 on the way between guest bytes and
    UTF-16.  A [String] is its list of characters. *)

From S2P Require Import Prelude utf.

Definition CP_ACP : u32 := 1252.
Definition CP_OEMCP : u32 := 437.
Definition CP_UTF8 : u32 := 65001.

Definition CP1252_80_9F : list u16 :=
  [0x20AC; 0x0081; 0x201A; 0x0192; 0x201E; 0x2026; 0x2020; 0x2021;
   0x02C6; 0x2030; 0x0160; 0x2039; 0x0152; 0x008D; 0x017D; 0x008F;
   0x0090; 0x2018; 0x2019; 0x201C; 0x201D; 0x2022; 0x2013; 0x2014;
   0x02DC; 0x2122; 0x0161; 0x203A; 0x0153; 0x009D; 0x017E; 0x0178].

Definition cp1252_byte_to_u16 (byte : u8) : u16 :=
  if decide (0x80 ≤ byte ≤ 0x9F) then default byte (CP1252_80_9F !! Z.to_nat (sat_sub byte 0x80)) else byte.

Definition unicode_to_cp1252_byte (ch : char) : option u8 :=
  if decide (ch ≤ 0x7F ∨ 0xA0 ≤ ch ≤ 0xFF) then Some ch
  else (λ i, 0x80 + Z.of_nat i) <$> position (λ mapped, bool_decide (mapped = ch)) CP1252_80_9F.

Definition decode_acp (bytes : list u8) : list char :=
  (λ b, let c := cp1252_byte_to_u16 b in if decide (is_scalar c) then c else replacement) <$> bytes.

Definition question : u8 := 0x3f.

Definition encode_acp (text : list char) : list u8 := (λ ch, default question (unicode_to_cp1252_byte ch)) <$> text.

Definition multibyte_to_wide (code_page : u32) (bytes : list u8) : list u16 :=
  if decide (code_page = CP_ACP) then cp1252_byte_to_u16 <$> bytes
  else if decide (code_page ∈ [0; 1; 2; 3; CP_OEMCP]) then bytes
  else if decide (code_page = CP_UTF8) then
    match from_utf8 bytes with
    | Some s => encode_utf16 s
    | None => encode_utf16 (from_utf8_lossy bytes)
    end
  else encode_utf16 (from_utf8_lossy bytes).

Definition wide_to_multibyte (code_page : u32) (units : list u16) : option (list u8) :=
  let has_nul := bool_decide (last units = Some 0) in
  let text_units := if has_nul then take (length units - 1) units else units in
  text ← from_utf16 text_units;
  let bytes :=
    if decide (code_page = 0 ∨ code_page = CP_ACP) then encode_acp text
    else if decide (code_page ∈ [CP_OEMCP; 1; 2; 3]) then (λ c, if decide (c ≤ 0xFF) then c else question) <$> text
    else utf8_encode text in
  Some (if has_nul then bytes ++ [0] else bytes).

(** ** Round trips *)

Lemma all_bytes (P : u8 → Prop) `{∀ b, Decision (P b)} :
  bool_decide (Forall P (seqZ 0 256)) = true → ∀ b, is_byte b → P b.
Proof. rewrite bool_decide_eq_true, Forall_forall. intros Hall b Hb. apply Hall, elem_of_seqZ. unfold is_byte in Hb. lia. Qed.

Lemma cp1252_inverse b : is_byte b → unicode_to_cp1252_byte (cp1252_byte_to_u16 b) = Some b.
Proof. apply (all_bytes (λ b, unicode_to_cp1252_byte (cp1252_byte_to_u16 b) = Some b)). vm_compute. reflexivity. Qed.
(** No byte stands for a surrogate, and only NUL for NUL. *)
Lemma cp1252_bmp b : is_byte b → is_scalar (cp1252_byte_to_u16 b) ∧ cp1252_byte_to_u16 b < 0x10000 ∧ (cp1252_byte_to_u16 b = 0 ↔ b = 0).
Proof.
  intros Hb. cut (is_scalar (cp1252_byte_to_u16 b) ∧ cp1252_byte_to_u16 b < 0x10000 ∧
    bool_decide (cp1252_byte_to_u16 b = 0) = bool_decide (b = 0)).
  { intros (? & ? & E). split_and!; [done|done|]. rewrite <- (bool_decide_eq_true (b = 0)), <- E. by rewrite bool_decide_eq_true. }
  revert b Hb. apply (all_bytes (λ b, is_scalar (cp1252_byte_to_u16 b) ∧ cp1252_byte_to_u16 b < 0x10000 ∧
    bool_decide (cp1252_byte_to_u16 b = 0) = bool_decide (b = 0))). vm_compute. reflexivity.
Qed.

Lemma decode_acp_chars bs : Forall is_byte bs → decode_acp bs = cp1252_byte_to_u16 <$> bs.
Proof.
  induction 1 as [|b bs Hb Hbs IH]; [done|]. unfold decode_acp in *. rewrite !fmap_cons, IH.
  by rewrite decide_True by apply cp1252_bmp, Hb.
Qed.

(** Windows-1252 is read and written back without loss, all 256 bytes. *)
Lemma acp_inverse bs : Forall is_byte bs → encode_acp (decode_acp bs) = bs.
Proof.
  intros Hb. rewrite decode_acp_chars by done. unfold encode_acp. rewrite <- list_fmap_compose, <- (list_fmap_id bs) at 1.
  induction Hb as [|b bs Hb Hbs IH]; [done|]. rewrite !fmap_cons. simpl. rewrite cp1252_inverse by done. f_equal. exact IH.
Qed.

(** Text below the surrogates is one unit a character. *)
Lemma bmp_utf16 cs : Forall (λ c, is_scalar c ∧ c < 0x10000) cs → encode_utf16 cs = cs.
Proof.
  induction 1 as [|c cs [Hs Hc] _ IH]; [done|]. unfold encode_utf16 in *. rewrite fmap_cons. cbn [concat].
  unfold utf16_encode_char at 1. rewrite decide_True by lia. rewrite IH. done.
Qed.
Lemma from_utf16_bmp cs : Forall (λ c, is_scalar c ∧ c < 0x10000) cs → from_utf16 cs = Some cs.
Proof.
  intros Hc. rewrite <- (bmp_utf16 cs) at 1 by done. apply from_utf16_encode. eapply Forall_impl; [exact Hc|]. by intros c [].
Qed.

(** What [wide_to_multibyte] gives for a text, with a NUL behind it or not. *)
Definition page_encode (code_page : u32) (text : list char) : list u8 :=
  if decide (code_page = 0 ∨ code_page = CP_ACP) then encode_acp text
  else if decide (code_page ∈ [CP_OEMCP; 1; 2; 3]) then (λ c, if decide (c ≤ 0xFF) then c else question) <$> text
  else utf8_encode text.

Lemma last_snoc_inv {A} (l : list A) x : last l = Some x → ∃ l', l = l' ++ [x].
Proof. destruct l as [|l' y] using rev_ind; [done|]. rewrite last_snoc. intros [= ->]. eauto. Qed.

Lemma page_encode_nul page text : page_encode page (text ++ [0]) = page_encode page text ++ [0].
Proof.
  unfold page_encode, encode_acp, utf8_encode. repeat case_decide; rewrite !fmap_app; [done|done|].
  rewrite concat_app. done.
Qed.

Lemma utf16_last_nul text : Forall is_scalar text → last (encode_utf16 text) = Some 0 → last text = Some 0.
Proof.
  intros Hs. destruct text as [|text c _] using rev_ind; [done|]. apply Forall_app in Hs as [_ Hs]. inversion Hs as [|? ? Hc _]; subst.
  unfold encode_utf16. rewrite fmap_app, concat_app, last_app. unfold is_scalar in Hc. simpl. unfold utf16_encode_char.
  case_decide; simpl; [intros [= ->]; by rewrite last_snoc|]. intros [= E]. exfalso. Z.to_euclidean_division_equations; lia.
Qed.

(** The text in the page's bytes, the terminator kept when there is one. *)
Lemma wide_to_multibyte_text page text :
  Forall is_scalar text → wide_to_multibyte page (encode_utf16 text) = Some (page_encode page text).
Proof.
  intros Hs. unfold wide_to_multibyte. case_bool_decide as Hl.
  - apply utf16_last_nul, last_snoc_inv in Hl as [t ->]; [|done]. apply Forall_app in Hs as [Hs _].
    unfold encode_utf16. rewrite fmap_app, concat_app. fold (encode_utf16 t). cbn [fmap list_fmap concat utf16_encode_char].
    rewrite length_app. change (length (utf16_encode_char 0 ++ [])) with 1%nat. rewrite Nat.add_sub, take_app_length.
    rewrite (proj1 (from_utf16_encode t Hs)). rewrite page_encode_nul. done.
  - by rewrite (proj1 (from_utf16_encode text Hs)).
Qed.

(** Bytes converted to UTF-16 and back are the same bytes, with or without a
    terminating NUL: in the ANSI page and the single-byte pages for every byte,
    in UTF-8 for all valid text. *)
Theorem code_page_roundtrip page bs :
  Forall is_byte bs → page ∈ [CP_ACP; 1; 2; 3; CP_OEMCP] ∨ page = CP_UTF8 ∧ is_Some (from_utf8 bs) →
  wide_to_multibyte page (multibyte_to_wide page bs) = Some bs.
Proof.
  intros Hb Hp.
  assert (Ht : ∃ text, Forall is_scalar text ∧ multibyte_to_wide page bs = encode_utf16 text ∧ page_encode page text = bs).
  { unfold multibyte_to_wide. destruct Hp as [Hp|[-> [cs Hcs]]].
    - assert (Hid : Forall (λ c, is_scalar c ∧ c < 0x10000) bs).
      { eapply Forall_impl; [exact Hb|]. unfold is_byte, is_scalar. lia. }
      assert (Hpage : page ∈ [CP_OEMCP; 1; 2; 3] → multibyte_to_wide page bs = bs ∧ page_encode page bs = bs).
      { intros Hin. unfold multibyte_to_wide, page_encode. assert (page ≠ CP_ACP ∧ page ≠ 0) as [H1 H2] by (unfold CP_ACP, CP_OEMCP in *; set_solver by lia).
        rewrite decide_False by done. rewrite decide_True by set_solver. rewrite decide_False by naive_solver. rewrite decide_True by done.
        split; [done|]. rewrite <- (list_fmap_id bs) at 2. apply list_fmap_ext. intros i c Hc.
        rewrite Forall_lookup in Hb. specialize (Hb i c Hc). unfold is_byte in Hb. by rewrite decide_True by lia. }
      destruct (decide (page = CP_ACP)) as [->|Hne].
      + exists (cp1252_byte_to_u16 <$> bs). split_and!.
        * apply Forall_fmap. eapply Forall_impl; [exact Hb|]. intros b Hbb. by apply cp1252_bmp.
        * rewrite bmp_utf16; [done|]. apply Forall_fmap. eapply Forall_impl; [exact Hb|]. intros b Hbb. simpl. split; by apply cp1252_bmp.
        * unfold page_encode. rewrite decide_True by by right. rewrite <- decode_acp_chars by done. by apply acp_inverse.
      + destruct Hpage as [E1 E2]; [set_solver|]. unfold multibyte_to_wide in E1. rewrite decide_False in E1 by done.
        exists bs. rewrite E1, bmp_utf16 by done. split_and!; [|done|done]. eapply Forall_impl; [exact Hid|]. by intros c [].
    - destruct (from_utf8_inv bs cs Hb Hcs) as (He & Hs & _). exists cs. rewrite Hcs. by split_and!. }
  destruct Ht as (text & Hs & -> & He). rewrite wide_to_multibyte_text by done. by rewrite He.
Qed.

(** Page 0, which Windows calls CP_ACP, is read as Latin-1 and written as Windows-1252. *)
Lemma page_0_asymmetric :
  multibyte_to_wide 0 [0x80] = [0x80] ∧ wide_to_multibyte 0 [0x80] = Some [question] ∧
  multibyte_to_wide CP_ACP [0x80] = [0x20AC].
Proof. split_and!; vm_compute; reflexivity. Qed.

Lemma code_page_roundtrip_witness :
  wide_to_multibyte CP_ACP (multibyte_to_wide CP_ACP [0x80; 0x41; 0x9f; 0]) = Some [0x80; 0x41; 0x9f; 0] ∧
  wide_to_multibyte CP_UTF8 (multibyte_to_wide CP_UTF8 [0xd0; 0xbf; 0xf0; 0x9f; 0x98; 0x80]) = Some [0xd0; 0xbf; 0xf0; 0x9f; 0x98; 0x80].
Proof.
  split; apply code_page_roundtrip;
    [by repeat constructor|left; by repeat constructor|by repeat constructor|right; split; [done|by eexists; vm_compute]].
Defined.
