(* ===== verification/dispatch_table.v ===== *)
(** * The table of API ids (crates/wie-winapi/src/dispatch_table.rs)

    The ids with their discriminants, the names they are resolved from, and the
    traits the runtime loop looks at.  The rows of [dispatch_winapi_id] are with
    their handlers, in [k32_dispatch] and [user32]. *)

From S2P Require Import Prelude regs insn path.

Inductive WinApiId : Set :=
  | Kernel32Getversionexa | Kernel32Getmodulehandlea | Kernel32Getcommandlinea | Kernel32Getcommandlinew
  | Kernel32Getstartupinfoa | Kernel32Getprocessheap | Kernel32Getsystemtimeasfiletime | Kernel32Getcurrentprocessid
  | Kernel32Getcurrentthreadid | Kernel32Gettickcount | Kernel32Queryperformancecounter | Kernel32Heapalloc
  | Kernel32Heapfree | Kernel32Heaprealloc | Kernel32Heapcreate | Kernel32Heapsetinformation
  | Kernel32Initializecriticalsection | Kernel32Entercriticalsection | Kernel32Leavecriticalsection
  | Kernel32Deletecriticalsection | Kernel32Flsalloc | Kernel32Flsfree | Kernel32Flssetvalue | Kernel32Flsgetvalue
  | Kernel32Getstdhandle | Kernel32Getfiletype | Kernel32Sethandlecount | Kernel32Getenvironmentstringsw
  | Kernel32Freeenvironmentstringsw | Kernel32Widechartomultibyte | Kernel32Getlasterror | Kernel32Setlasterror
  | Kernel32Getacp | Kernel32Getoemcp | Kernel32Getcpinfo | Kernel32Isvalidcodepage | Kernel32Getstringtypew
  | Kernel32Multibytetowidechar | Kernel32Lcmapstringw | Kernel32Getmodulefilenamea | Kernel32Getmodulefilenamew
  | Kernel32Setunhandledexceptionfilter | Kernel32Heapsize | Advapi32Regcreatekeyexa | Advapi32Regopenkeyexa
  | Advapi32Regqueryvalueexa | Advapi32Regqueryvalueexw | Advapi32Regsetvalueexa | Advapi32Regsetvalueexw
  | Advapi32Regdeletevaluea | Advapi32Regclosekey | Advapi32Initializesecuritydescriptor
  | Advapi32Setsecuritydescriptordacl | Kernel32Loadlibrarya | Kernel32Loadlibraryw | Kernel32Freelibrary
  | Kernel32Getprocaddress | Kernel32Getfileattributesa | Kernel32Getfileattributesw | Kernel32Findfirstfilew
  | Kernel32Findfirstfilea | Kernel32Findnextfilew | Kernel32Findnextfilea | Kernel32Findclose
  | User32Getasynckeystate | User32Peekmessagea | Kernel32Loadlibraryexa | Kernel32Loadlibraryexw
  | Kernel32Findresourcea | Kernel32Loadresource | Kernel32Lockresource | Kernel32Sizeofresource
  | Kernel32Getsystemdefaultlangid | Kernel32Getuserdefaultlangid | Kernel32Globalmemorystatus | Kernel32Getlocaltime
  | User32Loadicona | User32Loadcursora | User32Registerclassexw | User32Registerclassexa | Kernel32Createfilew
  | Kernel32Createfilea | Kernel32Closehandle | User32Messageboxw | User32Messageboxa
  | Kernel32Getfileinformationbyhandle | Kernel32Filetimetolocalfiletime | Kernel32Filetimetosystemtime
  | Kernel32Gettimezoneinformation | Kernel32Getfiletime | Kernel32Setfilepointer | Kernel32Getfilesize
  | Kernel32Encodepointer | Kernel32Decodepointer | Kernel32Initializecriticalsectionandspincount
  | User32Setprocessdpiaware | User32Trackmouseevent | Comctl32Dllgetversion | Kernel32Readfile | Kernel32Writefile
  | User32Getcursorpos | User32Getsystemmetrics | User32Monitorfromwindow | User32Getmonitorinfoa
  | User32Getmonitorinfow | User32Enumdisplaymonitors | User32Enumdisplaydevicesa | User32Enumdisplaydevicesw
  | User32Monitorfrompoint | Comctl32Ordinal17 | User32Getwindowrect | User32Getdpiforwindow | User32Postmessagea
  | User32Getsystemmetricsfordpi | User32Adjustwindowrectexfordpi | User32Setwindowpos | User32Setscrollinfo
  | User32Scrollwindowex | User32Scrolldc | User32Beginpaint | User32Endpaint | User32Clipcursor
  | User32Getclipcursor | User32Callmsgfiltera | User32Callmsgfilterw | User32Getdc | User32Sendmessagea
  | User32Sendmessagew | Comdlg32Getopenfilenamea | Comdlg32Getopenfilenamew | Comdlg32Getsavefilenamea
  | Comdlg32Getsavefilenamew | Comdlg32Commdlgextendederror | Comdlg32Choosecolora | Gdi32Selectobject
  | Gdi32Gettextextentpoint32a | Gdi32Gettextextentpoint32w | Gdi32Exttextoutw | User32Releasedc
  | Kernel32Getcurrentdirectoryw | Kernel32Setcurrentdirectoryw | User32Loadimagea | User32Loadimagew
  | Comctl32Initcommoncontrolsex | UxthemeSetwindowtheme | User32Setwindowlongptrw | User32Getwindowlongptra
  | User32Getwindowlongptrw | Gdi32Getobjecta | Comctl32ImagelistCreate | Gdi32Createcompatibledc
  | Gdi32Createdibsection | Gdi32Createcompatiblebitmap | Gdi32Getdevicecaps | Gdi32Createfonta | Gdi32Createfontw
  | Gdi32Createfontindirecta | Gdi32Gettextmetricsa | Gdi32Settextcolor | Gdi32Setbkcolor | Gdi32Setbkmode
  | Gdi32Textouta | Gdi32Bitblt | Gdi32Stretchblt | Gdi32Patblt | Gdi32Getpixel | Gdi32Deletedc
  | Comctl32ImagelistAddmasked | Comctl32ImagelistSetbkcolor | Comctl32ImagelistDestroy | Gdi32Deleteobject
  | User32Destroyicon | User32Iswindow | User32Iswindowvisible | User32Iswindowenabled | User32Getparent
  | User32Getactivewindow | User32Getforegroundwindow | User32Showwindow | User32Enablewindow
  | User32Setforegroundwindow | User32Setactivewindow | User32Setfocus | User32Getfocus | User32Setcapture
  | User32Getcapture | User32Releasecapture | User32Setcursor | User32Updatewindow | User32Invalidaterect
  | User32Redrawwindow | User32Setwindowtexta | User32Setwindowtextw | User32Getwindowtexta | User32Getwindowtextw
  | User32Getclientrect | User32Movewindow | User32Screentoclient | User32Clienttoscreen | User32Getdesktopwindow
  | User32Getsyscolor | User32Getsyscolorbrush | User32Getdialogbaseunits | User32Setrect | User32Isiconic
  | User32Iszoomed | User32Getwindowthreadprocessid | User32Getdlgctrlid | Kernel32Getcurrentprocess | Kernel32Sleep
  | WinmmTimegettime | Kernel32Localalloc | Kernel32Localfree | Kernel32Globalalloc | Kernel32Globalfree
  | Kernel32Globallock | Kernel32Globalunlock | Kernel32Globalsize | Kernel32Muldiv | User32Getcursor | User32Ischild
  | User32Getwindow | User32Setkeyboardstate | User32Getkeyboardstate | User32Getkeystate | User32Mapvirtualkeya
  | User32Setwindowlongptra | User32Settimer | User32Killtimer | User32Adjustwindowrectex | Kernel32Globaladdatoma
  | Kernel32Globaldeleteatom | User32Setwindowshookexw | User32Unhookwindowshookex | User32Callnexthookex
  | Kernel32Getfullpathnamew | D3d9Direct3dcreate9 | D3d9Idirect3d9Getadaptercount | D3d9Idirect3d9Getadaptermonitor
  | D3d9Idirect3d9Getdevicecaps | D3d9Idirect3d9Getadapterdisplaymode | D3d9Idirect3d9Createdevice
  | D3d9Idirect3ddevice9Setvertexshader | D3d9Idirect3ddevice9Setfvf | D3d9Idirect3ddevice9Setrenderstate
  | D3d9Idirect3ddevice9Settexturestagestate | D3d9Idirect3ddevice9Setsamplerstate | User32Enablemenuitem
  | User32Checkmenuitem | User32Getmessagea | User32Translatemessage | User32Defwindowproca | User32Defwindowprocw
  | User32Defframeproca | User32Defframeprocw | User32Defmdichildproca | User32Defmdichildprocw | User32Createmenu
  | User32Createpopupmenu | User32Appendmenua | User32Appendmenuw | User32Setmenu | User32Destroymenu
  | User32Removemenu | User32Deletemenu | User32Modifymenua | User32Modifymenuw | User32Getsystemmenu
  | User32Trackpopupmenu | User32Getmenuiteminfoa | User32Getmenuiteminfow | User32Setmenuiteminfoa
  | User32Setmenuiteminfow | User32Checkmenuradioitem | User32Dispatchmessagea | D3d9Idirect3ddevice9Release
  | D3d9Idirect3d9Release | Kernel32Getfullpathnamea | Kernel32Getcurrentdirectorya | Kernel32Setcurrentdirectorya
  | Kernel32Createdirectoryw | Kernel32Createdirectorya | Kernel32Removefirectoryw | Kernel32Removefirectorya
  | Kernel32Deletefilew | Kernel32Deletefilea | Kernel32Movefilew | Kernel32Movefilea | Kernel32Gettemppathw
  | Kernel32Gettemppatha | Kernel32Gettempfilenamew | Kernel32Gettempfilenamea | Kernel32Getdrivetypew
  | Kernel32Getdrivetypea | Kernel32Getlogicaldrives | Kernel32Getsystemdirectoryw | Kernel32Getsystemdirectorya
  | Kernel32Getwindowsdirectoryw | Kernel32Getwindowsdirectorya | Kernel32Getfilesizeex | Kernel32Setfilepointerex
  | Kernel32Setendoffile | Kernel32Flushfilebuffers.

Definition WINAPI_ID_COUNT : usize := 305.

(** The enum as declared: the discriminants 109 and 110 are missing. *)
Definition discriminants : list (WinApiId * u16) :=
  [(Kernel32Getversionexa, 0); (Kernel32Getmodulehandlea, 1); (Kernel32Getcommandlinea, 2);
  (Kernel32Getcommandlinew, 3); (Kernel32Getstartupinfoa, 4); (Kernel32Getprocessheap, 5);
  (Kernel32Getsystemtimeasfiletime, 6); (Kernel32Getcurrentprocessid, 7); (Kernel32Getcurrentthreadid, 8);
  (Kernel32Gettickcount, 9); (Kernel32Queryperformancecounter, 10); (Kernel32Heapalloc, 11); (Kernel32Heapfree, 12);
  (Kernel32Heaprealloc, 13); (Kernel32Heapcreate, 14); (Kernel32Heapsetinformation, 15);
  (Kernel32Initializecriticalsection, 16); (Kernel32Entercriticalsection, 17); (Kernel32Leavecriticalsection, 18);
  (Kernel32Deletecriticalsection, 19); (Kernel32Flsalloc, 20); (Kernel32Flsfree, 21); (Kernel32Flssetvalue, 22);
  (Kernel32Flsgetvalue, 23); (Kernel32Getstdhandle, 24); (Kernel32Getfiletype, 25); (Kernel32Sethandlecount, 26);
  (Kernel32Getenvironmentstringsw, 27); (Kernel32Freeenvironmentstringsw, 28); (Kernel32Widechartomultibyte, 29);
  (Kernel32Getlasterror, 30); (Kernel32Setlasterror, 31); (Kernel32Getacp, 32); (Kernel32Getoemcp, 33);
  (Kernel32Getcpinfo, 34); (Kernel32Isvalidcodepage, 35); (Kernel32Getstringtypew, 36);
  (Kernel32Multibytetowidechar, 37); (Kernel32Lcmapstringw, 38); (Kernel32Getmodulefilenamea, 39);
  (Kernel32Getmodulefilenamew, 40); (Kernel32Setunhandledexceptionfilter, 41); (Kernel32Heapsize, 42);
  (Advapi32Regcreatekeyexa, 43); (Advapi32Regopenkeyexa, 44); (Advapi32Regqueryvalueexa, 45);
  (Advapi32Regqueryvalueexw, 46); (Advapi32Regsetvalueexa, 47); (Advapi32Regsetvalueexw, 48);
  (Advapi32Regdeletevaluea, 49); (Advapi32Regclosekey, 50); (Advapi32Initializesecuritydescriptor, 51);
  (Advapi32Setsecuritydescriptordacl, 52); (Kernel32Loadlibrarya, 53); (Kernel32Loadlibraryw, 54);
  (Kernel32Freelibrary, 55); (Kernel32Getprocaddress, 56); (Kernel32Getfileattributesa, 57);
  (Kernel32Getfileattributesw, 58); (Kernel32Findfirstfilew, 59); (Kernel32Findfirstfilea, 60);
  (Kernel32Findnextfilew, 61); (Kernel32Findnextfilea, 62); (Kernel32Findclose, 63); (User32Getasynckeystate, 64);
  (User32Peekmessagea, 65); (Kernel32Loadlibraryexa, 66); (Kernel32Loadlibraryexw, 67); (Kernel32Findresourcea, 68);
  (Kernel32Loadresource, 69); (Kernel32Lockresource, 70); (Kernel32Sizeofresource, 71);
  (Kernel32Getsystemdefaultlangid, 72); (Kernel32Getuserdefaultlangid, 73); (Kernel32Globalmemorystatus, 74);
  (Kernel32Getlocaltime, 75); (User32Loadicona, 76); (User32Loadcursora, 77); (User32Registerclassexw, 78);
  (User32Registerclassexa, 79); (Kernel32Createfilew, 80); (Kernel32Createfilea, 81); (Kernel32Closehandle, 82);
  (User32Messageboxw, 83); (User32Messageboxa, 84); (Kernel32Getfileinformationbyhandle, 85);
  (Kernel32Filetimetolocalfiletime, 86); (Kernel32Filetimetosystemtime, 87); (Kernel32Gettimezoneinformation, 88);
  (Kernel32Getfiletime, 89); (Kernel32Setfilepointer, 90); (Kernel32Getfilesize, 91); (Kernel32Encodepointer, 92);
  (Kernel32Decodepointer, 93); (Kernel32Initializecriticalsectionandspincount, 94); (User32Setprocessdpiaware, 95);
  (User32Trackmouseevent, 96); (Comctl32Dllgetversion, 97); (Kernel32Readfile, 98); (Kernel32Writefile, 99);
  (User32Getcursorpos, 100); (User32Getsystemmetrics, 101); (User32Monitorfromwindow, 102);
  (User32Getmonitorinfoa, 103); (User32Getmonitorinfow, 104); (User32Enumdisplaymonitors, 105);
  (User32Enumdisplaydevicesa, 106); (User32Enumdisplaydevicesw, 107); (User32Monitorfrompoint, 108);
  (Comctl32Ordinal17, 111); (User32Getwindowrect, 112); (User32Getdpiforwindow, 113); (User32Postmessagea, 114);
  (User32Getsystemmetricsfordpi, 115); (User32Adjustwindowrectexfordpi, 116); (User32Setwindowpos, 117);
  (User32Setscrollinfo, 118); (User32Scrollwindowex, 119); (User32Scrolldc, 120); (User32Beginpaint, 121);
  (User32Endpaint, 122); (User32Clipcursor, 123); (User32Getclipcursor, 124); (User32Callmsgfiltera, 125);
  (User32Callmsgfilterw, 126); (User32Getdc, 127); (User32Sendmessagea, 128); (User32Sendmessagew, 129);
  (Comdlg32Getopenfilenamea, 130); (Comdlg32Getopenfilenamew, 131); (Comdlg32Getsavefilenamea, 132);
  (Comdlg32Getsavefilenamew, 133); (Comdlg32Commdlgextendederror, 134); (Comdlg32Choosecolora, 135);
  (Gdi32Selectobject, 136); (Gdi32Gettextextentpoint32a, 137); (Gdi32Gettextextentpoint32w, 138);
  (Gdi32Exttextoutw, 139); (User32Releasedc, 140); (Kernel32Getcurrentdirectoryw, 141);
  (Kernel32Setcurrentdirectoryw, 142); (User32Loadimagea, 143); (User32Loadimagew, 144);
  (Comctl32Initcommoncontrolsex, 145); (UxthemeSetwindowtheme, 146); (User32Setwindowlongptrw, 147);
  (User32Getwindowlongptra, 148); (User32Getwindowlongptrw, 149); (Gdi32Getobjecta, 150);
  (Comctl32ImagelistCreate, 151); (Gdi32Createcompatibledc, 152); (Gdi32Createdibsection, 153);
  (Gdi32Createcompatiblebitmap, 154); (Gdi32Getdevicecaps, 155); (Gdi32Createfonta, 156); (Gdi32Createfontw, 157);
  (Gdi32Createfontindirecta, 158); (Gdi32Gettextmetricsa, 159); (Gdi32Settextcolor, 160); (Gdi32Setbkcolor, 161);
  (Gdi32Setbkmode, 162); (Gdi32Textouta, 163); (Gdi32Bitblt, 164); (Gdi32Stretchblt, 165); (Gdi32Patblt, 166);
  (Gdi32Getpixel, 167); (Gdi32Deletedc, 168); (Comctl32ImagelistAddmasked, 169); (Comctl32ImagelistSetbkcolor, 170);
  (Comctl32ImagelistDestroy, 171); (Gdi32Deleteobject, 172); (User32Destroyicon, 173); (User32Iswindow, 174);
  (User32Iswindowvisible, 175); (User32Iswindowenabled, 176); (User32Getparent, 177); (User32Getactivewindow, 178);
  (User32Getforegroundwindow, 179); (User32Showwindow, 180); (User32Enablewindow, 181);
  (User32Setforegroundwindow, 182); (User32Setactivewindow, 183); (User32Setfocus, 184); (User32Getfocus, 185);
  (User32Setcapture, 186); (User32Getcapture, 187); (User32Releasecapture, 188); (User32Setcursor, 189);
  (User32Updatewindow, 190); (User32Invalidaterect, 191); (User32Redrawwindow, 192); (User32Setwindowtexta, 193);
  (User32Setwindowtextw, 194); (User32Getwindowtexta, 195); (User32Getwindowtextw, 196); (User32Getclientrect, 197);
  (User32Movewindow, 198); (User32Screentoclient, 199); (User32Clienttoscreen, 200); (User32Getdesktopwindow, 201);
  (User32Getsyscolor, 202); (User32Getsyscolorbrush, 203); (User32Getdialogbaseunits, 204); (User32Setrect, 205);
  (User32Isiconic, 206); (User32Iszoomed, 207); (User32Getwindowthreadprocessid, 208); (User32Getdlgctrlid, 209);
  (Kernel32Getcurrentprocess, 210); (Kernel32Sleep, 211); (WinmmTimegettime, 212); (Kernel32Localalloc, 213);
  (Kernel32Localfree, 214); (Kernel32Globalalloc, 215); (Kernel32Globalfree, 216); (Kernel32Globallock, 217);
  (Kernel32Globalunlock, 218); (Kernel32Globalsize, 219); (Kernel32Muldiv, 220); (User32Getcursor, 221);
  (User32Ischild, 222); (User32Getwindow, 223); (User32Setkeyboardstate, 224); (User32Getkeyboardstate, 225);
  (User32Getkeystate, 226); (User32Mapvirtualkeya, 227); (User32Setwindowlongptra, 228); (User32Settimer, 229);
  (User32Killtimer, 230); (User32Adjustwindowrectex, 231); (Kernel32Globaladdatoma, 232);
  (Kernel32Globaldeleteatom, 233); (User32Setwindowshookexw, 234); (User32Unhookwindowshookex, 235);
  (User32Callnexthookex, 236); (Kernel32Getfullpathnamew, 237); (D3d9Direct3dcreate9, 238);
  (D3d9Idirect3d9Getadaptercount, 239); (D3d9Idirect3d9Getadaptermonitor, 240); (D3d9Idirect3d9Getdevicecaps, 241);
  (D3d9Idirect3d9Getadapterdisplaymode, 242); (D3d9Idirect3d9Createdevice, 243);
  (D3d9Idirect3ddevice9Setvertexshader, 244); (D3d9Idirect3ddevice9Setfvf, 245);
  (D3d9Idirect3ddevice9Setrenderstate, 246); (D3d9Idirect3ddevice9Settexturestagestate, 247);
  (D3d9Idirect3ddevice9Setsamplerstate, 248); (User32Enablemenuitem, 249); (User32Checkmenuitem, 250);
  (User32Getmessagea, 251); (User32Translatemessage, 252); (User32Defwindowproca, 253); (User32Defwindowprocw, 254);
  (User32Defframeproca, 255); (User32Defframeprocw, 256); (User32Defmdichildproca, 257);
  (User32Defmdichildprocw, 258); (User32Createmenu, 259); (User32Createpopupmenu, 260); (User32Appendmenua, 261);
  (User32Appendmenuw, 262); (User32Setmenu, 263); (User32Destroymenu, 264); (User32Removemenu, 265);
  (User32Deletemenu, 266); (User32Modifymenua, 267); (User32Modifymenuw, 268); (User32Getsystemmenu, 269);
  (User32Trackpopupmenu, 270); (User32Getmenuiteminfoa, 271); (User32Getmenuiteminfow, 272);
  (User32Setmenuiteminfoa, 273); (User32Setmenuiteminfow, 274); (User32Checkmenuradioitem, 275);
  (User32Dispatchmessagea, 276); (D3d9Idirect3ddevice9Release, 277); (D3d9Idirect3d9Release, 278);
  (Kernel32Getfullpathnamea, 279); (Kernel32Getcurrentdirectorya, 280); (Kernel32Setcurrentdirectorya, 281);
  (Kernel32Createdirectoryw, 282); (Kernel32Createdirectorya, 283); (Kernel32Removefirectoryw, 284);
  (Kernel32Removefirectorya, 285); (Kernel32Deletefilew, 286); (Kernel32Deletefilea, 287); (Kernel32Movefilew, 288);
  (Kernel32Movefilea, 289); (Kernel32Gettemppathw, 290); (Kernel32Gettemppatha, 291);
  (Kernel32Gettempfilenamew, 292); (Kernel32Gettempfilenamea, 293); (Kernel32Getdrivetypew, 294);
  (Kernel32Getdrivetypea, 295); (Kernel32Getlogicaldrives, 296); (Kernel32Getsystemdirectoryw, 297);
  (Kernel32Getsystemdirectorya, 298); (Kernel32Getwindowsdirectoryw, 299); (Kernel32Getwindowsdirectorya, 300);
  (Kernel32Getfilesizeex, 301); (Kernel32Setfilepointerex, 302); (Kernel32Setendoffile, 303);
  (Kernel32Flushfilebuffers, 304)].

Definition to_u16 (id : WinApiId) : u16 :=
  match id with
  | Kernel32Getversionexa => 0 | Kernel32Getmodulehandlea => 1 | Kernel32Getcommandlinea => 2
  | Kernel32Getcommandlinew => 3 | Kernel32Getstartupinfoa => 4 | Kernel32Getprocessheap => 5
  | Kernel32Getsystemtimeasfiletime => 6 | Kernel32Getcurrentprocessid => 7 | Kernel32Getcurrentthreadid => 8
  | Kernel32Gettickcount => 9 | Kernel32Queryperformancecounter => 10 | Kernel32Heapalloc => 11
  | Kernel32Heapfree => 12 | Kernel32Heaprealloc => 13 | Kernel32Heapcreate => 14 | Kernel32Heapsetinformation => 15
  | Kernel32Initializecriticalsection => 16 | Kernel32Entercriticalsection => 17 | Kernel32Leavecriticalsection => 18
  | Kernel32Deletecriticalsection => 19 | Kernel32Flsalloc => 20 | Kernel32Flsfree => 21 | Kernel32Flssetvalue => 22
  | Kernel32Flsgetvalue => 23 | Kernel32Getstdhandle => 24 | Kernel32Getfiletype => 25 | Kernel32Sethandlecount => 26
  | Kernel32Getenvironmentstringsw => 27 | Kernel32Freeenvironmentstringsw => 28 | Kernel32Widechartomultibyte => 29
  | Kernel32Getlasterror => 30 | Kernel32Setlasterror => 31 | Kernel32Getacp => 32 | Kernel32Getoemcp => 33
  | Kernel32Getcpinfo => 34 | Kernel32Isvalidcodepage => 35 | Kernel32Getstringtypew => 36
  | Kernel32Multibytetowidechar => 37 | Kernel32Lcmapstringw => 38 | Kernel32Getmodulefilenamea => 39
  | Kernel32Getmodulefilenamew => 40 | Kernel32Setunhandledexceptionfilter => 41 | Kernel32Heapsize => 42
  | Advapi32Regcreatekeyexa => 43 | Advapi32Regopenkeyexa => 44 | Advapi32Regqueryvalueexa => 45
  | Advapi32Regqueryvalueexw => 46 | Advapi32Regsetvalueexa => 47 | Advapi32Regsetvalueexw => 48
  | Advapi32Regdeletevaluea => 49 | Advapi32Regclosekey => 50 | Advapi32Initializesecuritydescriptor => 51
  | Advapi32Setsecuritydescriptordacl => 52 | Kernel32Loadlibrarya => 53 | Kernel32Loadlibraryw => 54
  | Kernel32Freelibrary => 55 | Kernel32Getprocaddress => 56 | Kernel32Getfileattributesa => 57
  | Kernel32Getfileattributesw => 58 | Kernel32Findfirstfilew => 59 | Kernel32Findfirstfilea => 60
  | Kernel32Findnextfilew => 61 | Kernel32Findnextfilea => 62 | Kernel32Findclose => 63
  | User32Getasynckeystate => 64 | User32Peekmessagea => 65 | Kernel32Loadlibraryexa => 66
  | Kernel32Loadlibraryexw => 67 | Kernel32Findresourcea => 68 | Kernel32Loadresource => 69
  | Kernel32Lockresource => 70 | Kernel32Sizeofresource => 71 | Kernel32Getsystemdefaultlangid => 72
  | Kernel32Getuserdefaultlangid => 73 | Kernel32Globalmemorystatus => 74 | Kernel32Getlocaltime => 75
  | User32Loadicona => 76 | User32Loadcursora => 77 | User32Registerclassexw => 78 | User32Registerclassexa => 79
  | Kernel32Createfilew => 80 | Kernel32Createfilea => 81 | Kernel32Closehandle => 82 | User32Messageboxw => 83
  | User32Messageboxa => 84 | Kernel32Getfileinformationbyhandle => 85 | Kernel32Filetimetolocalfiletime => 86
  | Kernel32Filetimetosystemtime => 87 | Kernel32Gettimezoneinformation => 88 | Kernel32Getfiletime => 89
  | Kernel32Setfilepointer => 90 | Kernel32Getfilesize => 91 | Kernel32Encodepointer => 92
  | Kernel32Decodepointer => 93 | Kernel32Initializecriticalsectionandspincount => 94
  | User32Setprocessdpiaware => 95 | User32Trackmouseevent => 96 | Comctl32Dllgetversion => 97
  | Kernel32Readfile => 98 | Kernel32Writefile => 99 | User32Getcursorpos => 100 | User32Getsystemmetrics => 101
  | User32Monitorfromwindow => 102 | User32Getmonitorinfoa => 103 | User32Getmonitorinfow => 104
  | User32Enumdisplaymonitors => 105 | User32Enumdisplaydevicesa => 106 | User32Enumdisplaydevicesw => 107
  | User32Monitorfrompoint => 108 | Comctl32Ordinal17 => 111 | User32Getwindowrect => 112
  | User32Getdpiforwindow => 113 | User32Postmessagea => 114 | User32Getsystemmetricsfordpi => 115
  | User32Adjustwindowrectexfordpi => 116 | User32Setwindowpos => 117 | User32Setscrollinfo => 118
  | User32Scrollwindowex => 119 | User32Scrolldc => 120 | User32Beginpaint => 121 | User32Endpaint => 122
  | User32Clipcursor => 123 | User32Getclipcursor => 124 | User32Callmsgfiltera => 125 | User32Callmsgfilterw => 126
  | User32Getdc => 127 | User32Sendmessagea => 128 | User32Sendmessagew => 129 | Comdlg32Getopenfilenamea => 130
  | Comdlg32Getopenfilenamew => 131 | Comdlg32Getsavefilenamea => 132 | Comdlg32Getsavefilenamew => 133
  | Comdlg32Commdlgextendederror => 134 | Comdlg32Choosecolora => 135 | Gdi32Selectobject => 136
  | Gdi32Gettextextentpoint32a => 137 | Gdi32Gettextextentpoint32w => 138 | Gdi32Exttextoutw => 139
  | User32Releasedc => 140 | Kernel32Getcurrentdirectoryw => 141 | Kernel32Setcurrentdirectoryw => 142
  | User32Loadimagea => 143 | User32Loadimagew => 144 | Comctl32Initcommoncontrolsex => 145
  | UxthemeSetwindowtheme => 146 | User32Setwindowlongptrw => 147 | User32Getwindowlongptra => 148
  | User32Getwindowlongptrw => 149 | Gdi32Getobjecta => 150 | Comctl32ImagelistCreate => 151
  | Gdi32Createcompatibledc => 152 | Gdi32Createdibsection => 153 | Gdi32Createcompatiblebitmap => 154
  | Gdi32Getdevicecaps => 155 | Gdi32Createfonta => 156 | Gdi32Createfontw => 157 | Gdi32Createfontindirecta => 158
  | Gdi32Gettextmetricsa => 159 | Gdi32Settextcolor => 160 | Gdi32Setbkcolor => 161 | Gdi32Setbkmode => 162
  | Gdi32Textouta => 163 | Gdi32Bitblt => 164 | Gdi32Stretchblt => 165 | Gdi32Patblt => 166 | Gdi32Getpixel => 167
  | Gdi32Deletedc => 168 | Comctl32ImagelistAddmasked => 169 | Comctl32ImagelistSetbkcolor => 170
  | Comctl32ImagelistDestroy => 171 | Gdi32Deleteobject => 172 | User32Destroyicon => 173 | User32Iswindow => 174
  | User32Iswindowvisible => 175 | User32Iswindowenabled => 176 | User32Getparent => 177
  | User32Getactivewindow => 178 | User32Getforegroundwindow => 179 | User32Showwindow => 180
  | User32Enablewindow => 181 | User32Setforegroundwindow => 182 | User32Setactivewindow => 183
  | User32Setfocus => 184 | User32Getfocus => 185 | User32Setcapture => 186 | User32Getcapture => 187
  | User32Releasecapture => 188 | User32Setcursor => 189 | User32Updatewindow => 190 | User32Invalidaterect => 191
  | User32Redrawwindow => 192 | User32Setwindowtexta => 193 | User32Setwindowtextw => 194
  | User32Getwindowtexta => 195 | User32Getwindowtextw => 196 | User32Getclientrect => 197 | User32Movewindow => 198
  | User32Screentoclient => 199 | User32Clienttoscreen => 200 | User32Getdesktopwindow => 201
  | User32Getsyscolor => 202 | User32Getsyscolorbrush => 203 | User32Getdialogbaseunits => 204 | User32Setrect => 205
  | User32Isiconic => 206 | User32Iszoomed => 207 | User32Getwindowthreadprocessid => 208 | User32Getdlgctrlid => 209
  | Kernel32Getcurrentprocess => 210 | Kernel32Sleep => 211 | WinmmTimegettime => 212 | Kernel32Localalloc => 213
  | Kernel32Localfree => 214 | Kernel32Globalalloc => 215 | Kernel32Globalfree => 216 | Kernel32Globallock => 217
  | Kernel32Globalunlock => 218 | Kernel32Globalsize => 219 | Kernel32Muldiv => 220 | User32Getcursor => 221
  | User32Ischild => 222 | User32Getwindow => 223 | User32Setkeyboardstate => 224 | User32Getkeyboardstate => 225
  | User32Getkeystate => 226 | User32Mapvirtualkeya => 227 | User32Setwindowlongptra => 228 | User32Settimer => 229
  | User32Killtimer => 230 | User32Adjustwindowrectex => 231 | Kernel32Globaladdatoma => 232
  | Kernel32Globaldeleteatom => 233 | User32Setwindowshookexw => 234 | User32Unhookwindowshookex => 235
  | User32Callnexthookex => 236 | Kernel32Getfullpathnamew => 237 | D3d9Direct3dcreate9 => 238
  | D3d9Idirect3d9Getadaptercount => 239 | D3d9Idirect3d9Getadaptermonitor => 240
  | D3d9Idirect3d9Getdevicecaps => 241 | D3d9Idirect3d9Getadapterdisplaymode => 242
  | D3d9Idirect3d9Createdevice => 243 | D3d9Idirect3ddevice9Setvertexshader => 244
  | D3d9Idirect3ddevice9Setfvf => 245 | D3d9Idirect3ddevice9Setrenderstate => 246
  | D3d9Idirect3ddevice9Settexturestagestate => 247 | D3d9Idirect3ddevice9Setsamplerstate => 248
  | User32Enablemenuitem => 249 | User32Checkmenuitem => 250 | User32Getmessagea => 251
  | User32Translatemessage => 252 | User32Defwindowproca => 253 | User32Defwindowprocw => 254
  | User32Defframeproca => 255 | User32Defframeprocw => 256 | User32Defmdichildproca => 257
  | User32Defmdichildprocw => 258 | User32Createmenu => 259 | User32Createpopupmenu => 260 | User32Appendmenua => 261
  | User32Appendmenuw => 262 | User32Setmenu => 263 | User32Destroymenu => 264 | User32Removemenu => 265
  | User32Deletemenu => 266 | User32Modifymenua => 267 | User32Modifymenuw => 268 | User32Getsystemmenu => 269
  | User32Trackpopupmenu => 270 | User32Getmenuiteminfoa => 271 | User32Getmenuiteminfow => 272
  | User32Setmenuiteminfoa => 273 | User32Setmenuiteminfow => 274 | User32Checkmenuradioitem => 275
  | User32Dispatchmessagea => 276 | D3d9Idirect3ddevice9Release => 277 | D3d9Idirect3d9Release => 278
  | Kernel32Getfullpathnamea => 279 | Kernel32Getcurrentdirectorya => 280 | Kernel32Setcurrentdirectorya => 281
  | Kernel32Createdirectoryw => 282 | Kernel32Createdirectorya => 283 | Kernel32Removefirectoryw => 284
  | Kernel32Removefirectorya => 285 | Kernel32Deletefilew => 286 | Kernel32Deletefilea => 287
  | Kernel32Movefilew => 288 | Kernel32Movefilea => 289 | Kernel32Gettemppathw => 290 | Kernel32Gettemppatha => 291
  | Kernel32Gettempfilenamew => 292 | Kernel32Gettempfilenamea => 293 | Kernel32Getdrivetypew => 294
  | Kernel32Getdrivetypea => 295 | Kernel32Getlogicaldrives => 296 | Kernel32Getsystemdirectoryw => 297
  | Kernel32Getsystemdirectorya => 298 | Kernel32Getwindowsdirectoryw => 299 | Kernel32Getwindowsdirectorya => 300
  | Kernel32Getfilesizeex => 301 | Kernel32Setfilepointerex => 302 | Kernel32Setendoffile => 303
  | Kernel32Flushfilebuffers => 304
  end.

(** [repr(u16)]: below the count the value is transmuted, whether it is a
    discriminant or not; one that is not is undefined behaviour. *)
Definition from_u16 (raw : u16) : res (option WinApiId) :=
  if decide (WINAPI_ID_COUNT ≤ raw) then Ok None
  else match list_find (λ d, d.2 = raw) discriminants with
       | Some (_, (id, _)) => Ok (Some id)
       | None => Abort HostFault
       end.

Definition WINAPI_NAME_ROWS : list (str * str * WinApiId) :=
  [(#"kernel32.dll", #"getversionexa", Kernel32Getversionexa);
  (#"kernel32.dll", #"getmodulehandlea", Kernel32Getmodulehandlea);
  (#"kernel32.dll", #"getcommandlinea", Kernel32Getcommandlinea);
  (#"kernel32.dll", #"getcommandlinew", Kernel32Getcommandlinew);
  (#"kernel32.dll", #"getstartupinfoa", Kernel32Getstartupinfoa);
  (#"kernel32.dll", #"getprocessheap", Kernel32Getprocessheap);
  (#"kernel32.dll", #"getsystemtimeasfiletime", Kernel32Getsystemtimeasfiletime);
  (#"kernel32.dll", #"getcurrentprocessid", Kernel32Getcurrentprocessid);
  (#"kernel32.dll", #"getcurrentthreadid", Kernel32Getcurrentthreadid);
  (#"kernel32.dll", #"gettickcount", Kernel32Gettickcount);
  (#"kernel32.dll", #"queryperformancecounter", Kernel32Queryperformancecounter);
  (#"kernel32.dll", #"heapalloc", Kernel32Heapalloc); (#"kernel32.dll", #"heapfree", Kernel32Heapfree);
  (#"kernel32.dll", #"heaprealloc", Kernel32Heaprealloc); (#"kernel32.dll", #"heapcreate", Kernel32Heapcreate);
  (#"kernel32.dll", #"heapsetinformation", Kernel32Heapsetinformation);
  (#"kernel32.dll", #"initializecriticalsection", Kernel32Initializecriticalsection);
  (#"kernel32.dll", #"entercriticalsection", Kernel32Entercriticalsection);
  (#"kernel32.dll", #"leavecriticalsection", Kernel32Leavecriticalsection);
  (#"kernel32.dll", #"deletecriticalsection", Kernel32Deletecriticalsection);
  (#"kernel32.dll", #"flsalloc", Kernel32Flsalloc); (#"kernel32.dll", #"flsfree", Kernel32Flsfree);
  (#"kernel32.dll", #"flssetvalue", Kernel32Flssetvalue); (#"kernel32.dll", #"flsgetvalue", Kernel32Flsgetvalue);
  (#"kernel32.dll", #"getstdhandle", Kernel32Getstdhandle); (#"kernel32.dll", #"getfiletype", Kernel32Getfiletype);
  (#"kernel32.dll", #"sethandlecount", Kernel32Sethandlecount);
  (#"kernel32.dll", #"getenvironmentstringsw", Kernel32Getenvironmentstringsw);
  (#"kernel32.dll", #"freeenvironmentstringsw", Kernel32Freeenvironmentstringsw);
  (#"kernel32.dll", #"widechartomultibyte", Kernel32Widechartomultibyte);
  (#"kernel32.dll", #"getlasterror", Kernel32Getlasterror); (#"kernel32.dll", #"setlasterror", Kernel32Setlasterror);
  (#"kernel32.dll", #"getacp", Kernel32Getacp); (#"kernel32.dll", #"getoemcp", Kernel32Getoemcp);
  (#"kernel32.dll", #"getcpinfo", Kernel32Getcpinfo); (#"kernel32.dll", #"isvalidcodepage", Kernel32Isvalidcodepage);
  (#"kernel32.dll", #"getstringtypew", Kernel32Getstringtypew);
  (#"kernel32.dll", #"multibytetowidechar", Kernel32Multibytetowidechar);
  (#"kernel32.dll", #"lcmapstringw", Kernel32Lcmapstringw);
  (#"kernel32.dll", #"getmodulefilenamea", Kernel32Getmodulefilenamea);
  (#"kernel32.dll", #"getmodulefilenamew", Kernel32Getmodulefilenamew);
  (#"kernel32.dll", #"setunhandledexceptionfilter", Kernel32Setunhandledexceptionfilter);
  (#"kernel32.dll", #"heapsize", Kernel32Heapsize); (#"advapi32.dll", #"regcreatekeyexa", Advapi32Regcreatekeyexa);
  (#"advapi32.dll", #"regopenkeyexa", Advapi32Regopenkeyexa);
  (#"advapi32.dll", #"regqueryvalueexa", Advapi32Regqueryvalueexa);
  (#"advapi32.dll", #"regqueryvalueexw", Advapi32Regqueryvalueexw);
  (#"advapi32.dll", #"regsetvalueexa", Advapi32Regsetvalueexa);
  (#"advapi32.dll", #"regsetvalueexw", Advapi32Regsetvalueexw);
  (#"advapi32.dll", #"regdeletevaluea", Advapi32Regdeletevaluea);
  (#"advapi32.dll", #"regclosekey", Advapi32Regclosekey);
  (#"advapi32.dll", #"initializesecuritydescriptor", Advapi32Initializesecuritydescriptor);
  (#"advapi32.dll", #"setsecuritydescriptordacl", Advapi32Setsecuritydescriptordacl);
  (#"kernel32.dll", #"loadlibrarya", Kernel32Loadlibrarya); (#"kernel32.dll", #"loadlibraryw", Kernel32Loadlibraryw);
  (#"kernel32.dll", #"freelibrary", Kernel32Freelibrary);
  (#"kernel32.dll", #"getprocaddress", Kernel32Getprocaddress);
  (#"kernel32.dll", #"getfileattributesa", Kernel32Getfileattributesa);
  (#"kernel32.dll", #"getfileattributesw", Kernel32Getfileattributesw);
  (#"kernel32.dll", #"findfirstfilew", Kernel32Findfirstfilew);
  (#"kernel32.dll", #"findfirstfilea", Kernel32Findfirstfilea);
  (#"kernel32.dll", #"findnextfilew", Kernel32Findnextfilew);
  (#"kernel32.dll", #"findnextfilea", Kernel32Findnextfilea); (#"kernel32.dll", #"findclose", Kernel32Findclose);
  (#"user32.dll", #"getasynckeystate", User32Getasynckeystate); (#"user32.dll", #"peekmessagea", User32Peekmessagea);
  (#"kernel32.dll", #"loadlibraryexa", Kernel32Loadlibraryexa);
  (#"kernel32.dll", #"loadlibraryexw", Kernel32Loadlibraryexw);
  (#"kernel32.dll", #"findresourcea", Kernel32Findresourcea);
  (#"kernel32.dll", #"loadresource", Kernel32Loadresource); (#"kernel32.dll", #"lockresource", Kernel32Lockresource);
  (#"kernel32.dll", #"sizeofresource", Kernel32Sizeofresource);
  (#"kernel32.dll", #"getsystemdefaultlangid", Kernel32Getsystemdefaultlangid);
  (#"kernel32.dll", #"getuserdefaultlangid", Kernel32Getuserdefaultlangid);
  (#"kernel32.dll", #"globalmemorystatus", Kernel32Globalmemorystatus);
  (#"kernel32.dll", #"getlocaltime", Kernel32Getlocaltime); (#"user32.dll", #"loadicona", User32Loadicona);
  (#"user32.dll", #"loadcursora", User32Loadcursora); (#"user32.dll", #"registerclassexw", User32Registerclassexw);
  (#"user32.dll", #"registerclassexa", User32Registerclassexa);
  (#"kernel32.dll", #"createfilew", Kernel32Createfilew); (#"kernel32.dll", #"createfilea", Kernel32Createfilea);
  (#"kernel32.dll", #"closehandle", Kernel32Closehandle); (#"user32.dll", #"messageboxw", User32Messageboxw);
  (#"user32.dll", #"messageboxa", User32Messageboxa);
  (#"kernel32.dll", #"getfileinformationbyhandle", Kernel32Getfileinformationbyhandle);
  (#"kernel32.dll", #"filetimetolocalfiletime", Kernel32Filetimetolocalfiletime);
  (#"kernel32.dll", #"filetimetosystemtime", Kernel32Filetimetosystemtime);
  (#"kernel32.dll", #"gettimezoneinformation", Kernel32Gettimezoneinformation);
  (#"kernel32.dll", #"getfiletime", Kernel32Getfiletime);
  (#"kernel32.dll", #"setfilepointer", Kernel32Setfilepointer);
  (#"kernel32.dll", #"getfilesize", Kernel32Getfilesize); (#"kernel32.dll", #"encodepointer", Kernel32Encodepointer);
  (#"kernel32.dll", #"decodepointer", Kernel32Decodepointer);
  (#"kernel32.dll", #"initializecriticalsectionandspincount", Kernel32Initializecriticalsectionandspincount);
  (#"user32.dll", #"setprocessdpiaware", User32Setprocessdpiaware);
  (#"user32.dll", #"trackmouseevent", User32Trackmouseevent);
  (#"comctl32.dll", #"dllgetversion", Comctl32Dllgetversion); (#"kernel32.dll", #"readfile", Kernel32Readfile);
  (#"kernel32.dll", #"writefile", Kernel32Writefile); (#"user32.dll", #"getcursorpos", User32Getcursorpos);
  (#"user32.dll", #"getsystemmetrics", User32Getsystemmetrics);
  (#"user32.dll", #"monitorfromwindow", User32Monitorfromwindow);
  (#"user32.dll", #"getmonitorinfoa", User32Getmonitorinfoa);
  (#"user32.dll", #"getmonitorinfow", User32Getmonitorinfow);
  (#"user32.dll", #"enumdisplaymonitors", User32Enumdisplaymonitors);
  (#"user32.dll", #"enumdisplaydevicesa", User32Enumdisplaydevicesa);
  (#"user32.dll", #"enumdisplaydevicesw", User32Enumdisplaydevicesw);
  (#"user32.dll", #"monitorfrompoint", User32Monitorfrompoint); (#"comctl32.dll", #"ordinal 17", Comctl32Ordinal17);
  (#"user32.dll", #"getwindowrect", User32Getwindowrect); (#"user32.dll", #"getdpiforwindow", User32Getdpiforwindow);
  (#"user32.dll", #"postmessagea", User32Postmessagea);
  (#"user32.dll", #"getsystemmetricsfordpi", User32Getsystemmetricsfordpi);
  (#"user32.dll", #"adjustwindowrectexfordpi", User32Adjustwindowrectexfordpi);
  (#"user32.dll", #"setwindowpos", User32Setwindowpos); (#"user32.dll", #"setscrollinfo", User32Setscrollinfo);
  (#"user32.dll", #"scrollwindowex", User32Scrollwindowex); (#"user32.dll", #"scrolldc", User32Scrolldc);
  (#"user32.dll", #"beginpaint", User32Beginpaint); (#"user32.dll", #"endpaint", User32Endpaint);
  (#"user32.dll", #"clipcursor", User32Clipcursor); (#"user32.dll", #"getclipcursor", User32Getclipcursor);
  (#"user32.dll", #"callmsgfiltera", User32Callmsgfiltera); (#"user32.dll", #"callmsgfilterw", User32Callmsgfilterw);
  (#"user32.dll", #"getdc", User32Getdc); (#"user32.dll", #"sendmessagea", User32Sendmessagea);
  (#"user32.dll", #"sendmessagew", User32Sendmessagew);
  (#"comdlg32.dll", #"getopenfilenamea", Comdlg32Getopenfilenamea);
  (#"comdlg32.dll", #"getopenfilenamew", Comdlg32Getopenfilenamew);
  (#"comdlg32.dll", #"getsavefilenamea", Comdlg32Getsavefilenamea);
  (#"comdlg32.dll", #"getsavefilenamew", Comdlg32Getsavefilenamew);
  (#"comdlg32.dll", #"commdlgextendederror", Comdlg32Commdlgextendederror);
  (#"comdlg32.dll", #"choosecolora", Comdlg32Choosecolora); (#"gdi32.dll", #"selectobject", Gdi32Selectobject);
  (#"gdi32.dll", #"gettextextentpoint32a", Gdi32Gettextextentpoint32a);
  (#"gdi32.dll", #"gettextextentpoint32w", Gdi32Gettextextentpoint32w);
  (#"gdi32.dll", #"exttextoutw", Gdi32Exttextoutw); (#"user32.dll", #"releasedc", User32Releasedc);
  (#"kernel32.dll", #"getcurrentdirectoryw", Kernel32Getcurrentdirectoryw);
  (#"kernel32.dll", #"setcurrentdirectoryw", Kernel32Setcurrentdirectoryw);
  (#"user32.dll", #"loadimagea", User32Loadimagea); (#"user32.dll", #"loadimagew", User32Loadimagew);
  (#"comctl32.dll", #"initcommoncontrolsex", Comctl32Initcommoncontrolsex);
  (#"uxtheme.dll", #"setwindowtheme", UxthemeSetwindowtheme);
  (#"user32.dll", #"setwindowlongptrw", User32Setwindowlongptrw);
  (#"user32.dll", #"getwindowlongptra", User32Getwindowlongptra);
  (#"user32.dll", #"getwindowlongptrw", User32Getwindowlongptrw); (#"gdi32.dll", #"getobjecta", Gdi32Getobjecta);
  (#"comctl32.dll", #"imagelist_create", Comctl32ImagelistCreate);
  (#"gdi32.dll", #"createcompatibledc", Gdi32Createcompatibledc);
  (#"gdi32.dll", #"createdibsection", Gdi32Createdibsection);
  (#"gdi32.dll", #"createcompatiblebitmap", Gdi32Createcompatiblebitmap);
  (#"gdi32.dll", #"getdevicecaps", Gdi32Getdevicecaps); (#"gdi32.dll", #"createfonta", Gdi32Createfonta);
  (#"gdi32.dll", #"createfontw", Gdi32Createfontw); (#"gdi32.dll", #"createfontindirecta", Gdi32Createfontindirecta);
  (#"gdi32.dll", #"gettextmetricsa", Gdi32Gettextmetricsa); (#"gdi32.dll", #"settextcolor", Gdi32Settextcolor);
  (#"gdi32.dll", #"setbkcolor", Gdi32Setbkcolor); (#"gdi32.dll", #"setbkmode", Gdi32Setbkmode);
  (#"gdi32.dll", #"textouta", Gdi32Textouta); (#"gdi32.dll", #"bitblt", Gdi32Bitblt);
  (#"gdi32.dll", #"stretchblt", Gdi32Stretchblt); (#"gdi32.dll", #"patblt", Gdi32Patblt);
  (#"gdi32.dll", #"getpixel", Gdi32Getpixel); (#"gdi32.dll", #"deletedc", Gdi32Deletedc);
  (#"comctl32.dll", #"imagelist_addmasked", Comctl32ImagelistAddmasked);
  (#"comctl32.dll", #"imagelist_setbkcolor", Comctl32ImagelistSetbkcolor);
  (#"comctl32.dll", #"imagelist_destroy", Comctl32ImagelistDestroy);
  (#"gdi32.dll", #"deleteobject", Gdi32Deleteobject); (#"user32.dll", #"destroyicon", User32Destroyicon);
  (#"user32.dll", #"iswindow", User32Iswindow); (#"user32.dll", #"iswindowvisible", User32Iswindowvisible);
  (#"user32.dll", #"iswindowenabled", User32Iswindowenabled); (#"user32.dll", #"getparent", User32Getparent);
  (#"user32.dll", #"getactivewindow", User32Getactivewindow);
  (#"user32.dll", #"getforegroundwindow", User32Getforegroundwindow);
  (#"user32.dll", #"showwindow", User32Showwindow); (#"user32.dll", #"enablewindow", User32Enablewindow);
  (#"user32.dll", #"setforegroundwindow", User32Setforegroundwindow);
  (#"user32.dll", #"setactivewindow", User32Setactivewindow); (#"user32.dll", #"setfocus", User32Setfocus);
  (#"user32.dll", #"getfocus", User32Getfocus); (#"user32.dll", #"setcapture", User32Setcapture);
  (#"user32.dll", #"getcapture", User32Getcapture); (#"user32.dll", #"releasecapture", User32Releasecapture);
  (#"user32.dll", #"setcursor", User32Setcursor); (#"user32.dll", #"updatewindow", User32Updatewindow);
  (#"user32.dll", #"invalidaterect", User32Invalidaterect); (#"user32.dll", #"redrawwindow", User32Redrawwindow);
  (#"user32.dll", #"setwindowtexta", User32Setwindowtexta); (#"user32.dll", #"setwindowtextw", User32Setwindowtextw);
  (#"user32.dll", #"getwindowtexta", User32Getwindowtexta); (#"user32.dll", #"getwindowtextw", User32Getwindowtextw);
  (#"user32.dll", #"getclientrect", User32Getclientrect); (#"user32.dll", #"movewindow", User32Movewindow);
  (#"user32.dll", #"screentoclient", User32Screentoclient); (#"user32.dll", #"clienttoscreen", User32Clienttoscreen);
  (#"user32.dll", #"getdesktopwindow", User32Getdesktopwindow); (#"user32.dll", #"getsyscolor", User32Getsyscolor);
  (#"user32.dll", #"getsyscolorbrush", User32Getsyscolorbrush);
  (#"user32.dll", #"getdialogbaseunits", User32Getdialogbaseunits); (#"user32.dll", #"setrect", User32Setrect);
  (#"user32.dll", #"isiconic", User32Isiconic); (#"user32.dll", #"iszoomed", User32Iszoomed);
  (#"user32.dll", #"getwindowthreadprocessid", User32Getwindowthreadprocessid);
  (#"user32.dll", #"getdlgctrlid", User32Getdlgctrlid);
  (#"kernel32.dll", #"getcurrentprocess", Kernel32Getcurrentprocess); (#"kernel32.dll", #"sleep", Kernel32Sleep);
  (#"winmm.dll", #"timegettime", WinmmTimegettime); (#"kernel32.dll", #"localalloc", Kernel32Localalloc);
  (#"kernel32.dll", #"localfree", Kernel32Localfree); (#"kernel32.dll", #"globalalloc", Kernel32Globalalloc);
  (#"kernel32.dll", #"globalfree", Kernel32Globalfree); (#"kernel32.dll", #"globallock", Kernel32Globallock);
  (#"kernel32.dll", #"globalunlock", Kernel32Globalunlock); (#"kernel32.dll", #"globalsize", Kernel32Globalsize);
  (#"kernel32.dll", #"muldiv", Kernel32Muldiv); (#"user32.dll", #"getcursor", User32Getcursor);
  (#"user32.dll", #"ischild", User32Ischild); (#"user32.dll", #"getwindow", User32Getwindow);
  (#"user32.dll", #"setkeyboardstate", User32Setkeyboardstate);
  (#"user32.dll", #"getkeyboardstate", User32Getkeyboardstate); (#"user32.dll", #"getkeystate", User32Getkeystate);
  (#"user32.dll", #"mapvirtualkeya", User32Mapvirtualkeya);
  (#"user32.dll", #"setwindowlongptra", User32Setwindowlongptra); (#"user32.dll", #"settimer", User32Settimer);
  (#"user32.dll", #"killtimer", User32Killtimer); (#"user32.dll", #"adjustwindowrectex", User32Adjustwindowrectex);
  (#"kernel32.dll", #"globaladdatoma", Kernel32Globaladdatoma);
  (#"kernel32.dll", #"globaldeleteatom", Kernel32Globaldeleteatom);
  (#"user32.dll", #"setwindowshookexw", User32Setwindowshookexw);
  (#"user32.dll", #"unhookwindowshookex", User32Unhookwindowshookex);
  (#"user32.dll", #"callnexthookex", User32Callnexthookex);
  (#"kernel32.dll", #"getfullpathnamew", Kernel32Getfullpathnamew);
  (#"kernel32.dll", #"getfullpathnamea", Kernel32Getfullpathnamea);
  (#"kernel32.dll", #"getcurrentdirectorya", Kernel32Getcurrentdirectorya);
  (#"kernel32.dll", #"setcurrentdirectorya", Kernel32Setcurrentdirectorya);
  (#"kernel32.dll", #"createdirectoryw", Kernel32Createdirectoryw);
  (#"kernel32.dll", #"createdirectorya", Kernel32Createdirectorya);
  (#"kernel32.dll", #"removedirectoryw", Kernel32Removefirectoryw);
  (#"kernel32.dll", #"removedirectorya", Kernel32Removefirectorya);
  (#"kernel32.dll", #"deletefilew", Kernel32Deletefilew); (#"kernel32.dll", #"deletefilea", Kernel32Deletefilea);
  (#"kernel32.dll", #"movefilew", Kernel32Movefilew); (#"kernel32.dll", #"movefilea", Kernel32Movefilea);
  (#"kernel32.dll", #"gettemppathw", Kernel32Gettemppathw); (#"kernel32.dll", #"gettemppatha", Kernel32Gettemppatha);
  (#"kernel32.dll", #"gettempfilenamew", Kernel32Gettempfilenamew);
  (#"kernel32.dll", #"gettempfilenamea", Kernel32Gettempfilenamea);
  (#"kernel32.dll", #"getdrivetypew", Kernel32Getdrivetypew);
  (#"kernel32.dll", #"getdrivetypea", Kernel32Getdrivetypea);
  (#"kernel32.dll", #"getlogicaldrives", Kernel32Getlogicaldrives);
  (#"kernel32.dll", #"getsystemdirectoryw", Kernel32Getsystemdirectoryw);
  (#"kernel32.dll", #"getsystemdirectorya", Kernel32Getsystemdirectorya);
  (#"kernel32.dll", #"getwindowsdirectoryw", Kernel32Getwindowsdirectoryw);
  (#"kernel32.dll", #"getwindowsdirectorya", Kernel32Getwindowsdirectorya);
  (#"kernel32.dll", #"getfilesizeex", Kernel32Getfilesizeex);
  (#"kernel32.dll", #"setfilepointerex", Kernel32Setfilepointerex);
  (#"kernel32.dll", #"setendoffile", Kernel32Setendoffile);
  (#"kernel32.dll", #"flushfilebuffers", Kernel32Flushfilebuffers);
  (#"d3d9.dll", #"direct3dcreate9", D3d9Direct3dcreate9);
  (#"d3d9.dll", #"idirect3d9::getadaptercount", D3d9Idirect3d9Getadaptercount);
  (#"d3d9.dll", #"idirect3d9::getadaptermonitor", D3d9Idirect3d9Getadaptermonitor);
  (#"d3d9.dll", #"idirect3d9::getdevicecaps", D3d9Idirect3d9Getdevicecaps);
  (#"d3d9.dll", #"idirect3d9::getadapterdisplaymode", D3d9Idirect3d9Getadapterdisplaymode);
  (#"d3d9.dll", #"idirect3d9::createdevice", D3d9Idirect3d9Createdevice);
  (#"d3d9.dll", #"idirect3ddevice9::setvertexshader", D3d9Idirect3ddevice9Setvertexshader);
  (#"d3d9.dll", #"idirect3ddevice9::setfvf", D3d9Idirect3ddevice9Setfvf);
  (#"d3d9.dll", #"idirect3ddevice9::setrenderstate", D3d9Idirect3ddevice9Setrenderstate);
  (#"d3d9.dll", #"idirect3ddevice9::settexturestagestate", D3d9Idirect3ddevice9Settexturestagestate);
  (#"d3d9.dll", #"idirect3ddevice9::setsamplerstate", D3d9Idirect3ddevice9Setsamplerstate);
  (#"user32.dll", #"enablemenuitem", User32Enablemenuitem); (#"user32.dll", #"checkmenuitem", User32Checkmenuitem);
  (#"user32.dll", #"getmessagea", User32Getmessagea); (#"user32.dll", #"translatemessage", User32Translatemessage);
  (#"user32.dll", #"defwindowproca", User32Defwindowproca); (#"user32.dll", #"defwindowprocw", User32Defwindowprocw);
  (#"user32.dll", #"defframeproca", User32Defframeproca); (#"user32.dll", #"defframeprocw", User32Defframeprocw);
  (#"user32.dll", #"defmdichildproca", User32Defmdichildproca);
  (#"user32.dll", #"defmdichildprocw", User32Defmdichildprocw); (#"user32.dll", #"createmenu", User32Createmenu);
  (#"user32.dll", #"createpopupmenu", User32Createpopupmenu); (#"user32.dll", #"appendmenua", User32Appendmenua);
  (#"user32.dll", #"appendmenuw", User32Appendmenuw); (#"user32.dll", #"setmenu", User32Setmenu);
  (#"user32.dll", #"destroymenu", User32Destroymenu); (#"user32.dll", #"removemenu", User32Removemenu);
  (#"user32.dll", #"deletemenu", User32Deletemenu); (#"user32.dll", #"modifymenua", User32Modifymenua);
  (#"user32.dll", #"modifymenuw", User32Modifymenuw); (#"user32.dll", #"getsystemmenu", User32Getsystemmenu);
  (#"user32.dll", #"trackpopupmenu", User32Trackpopupmenu);
  (#"user32.dll", #"getmenuiteminfoa", User32Getmenuiteminfoa);
  (#"user32.dll", #"getmenuiteminfow", User32Getmenuiteminfow);
  (#"user32.dll", #"setmenuiteminfoa", User32Setmenuiteminfoa);
  (#"user32.dll", #"setmenuiteminfow", User32Setmenuiteminfow);
  (#"user32.dll", #"checkmenuradioitem", User32Checkmenuradioitem);
  (#"user32.dll", #"dispatchmessagea", User32Dispatchmessagea);
  (#"d3d9.dll", #"idirect3ddevice9::release", D3d9Idirect3ddevice9Release);
  (#"d3d9.dll", #"idirect3d9::release", D3d9Idirect3d9Release)].

Definition eq_ignore_ascii_case (a b : str) : bool := bool_decide (to_ascii_lowercase a = to_ascii_lowercase b).

Definition resolve_winapi_id (library name : str) : option WinApiId :=
  snd ∘ snd <$> list_find (λ row, eq_ignore_ascii_case row.1.1 library && eq_ignore_ascii_case row.1.2 name) WINAPI_NAME_ROWS.

Definition winapi_id_export (id : WinApiId) : option (str * str) :=
  fst ∘ snd <$> list_find (λ row, to_u16 row.2 = to_u16 id) WINAPI_NAME_ROWS.

(** ** Traits *)

Record WinApiTraits := mkTraits { bits : u8 }.

Definition NOISY : u8 := 1.
Definition FAST_VOID_SYNC : u8 := 2.
Definition EXIT_PROCESS : u8 := 4.
Definition GUEST_STUB : u8 := 8.
Definition EMPTY : WinApiTraits := mkTraits 0.

Definition with_noisy (t : WinApiTraits) := mkTraits (Z.lor (bits t) NOISY).
Definition with_fast_void_sync (t : WinApiTraits) := mkTraits (Z.lor (bits t) FAST_VOID_SYNC).
Definition with_exit_process (t : WinApiTraits) := mkTraits (Z.lor (bits t) EXIT_PROCESS).
Definition with_guest_stub (t : WinApiTraits) := mkTraits (Z.lor (bits t) GUEST_STUB).

Definition noisy (t : WinApiTraits) : bool := bool_decide (Z.land (bits t) NOISY ≠ 0).
Definition fast_void_sync (t : WinApiTraits) : bool := bool_decide (Z.land (bits t) FAST_VOID_SYNC ≠ 0).
Definition exit_process (t : WinApiTraits) : bool := bool_decide (Z.land (bits t) EXIT_PROCESS ≠ 0).
Definition guest_stub (t : WinApiTraits) : bool := bool_decide (Z.land (bits t) GUEST_STUB ≠ 0).

Definition set_bit (b : u8) (on : bool) (t : WinApiTraits) : WinApiTraits :=
  mkTraits (if on then Z.lor (bits t) b else Z.land (bits t) (not_u 8 b)).
Definition set_noisy (on : bool) (t : WinApiTraits) : WinApiTraits := set_bit NOISY on t.
Definition set_guest_stub (on : bool) (t : WinApiTraits) : WinApiTraits := set_bit GUEST_STUB on t.

Definition traits (id : WinApiId) : WinApiTraits :=
  match id with
  | Kernel32Entercriticalsection | Kernel32Leavecriticalsection => with_noisy EMPTY
  | Kernel32Encodepointer | Kernel32Decodepointer | Kernel32Gettickcount | Kernel32Getcurrentprocessid
  | Kernel32Getcurrentthreadid | Kernel32Sleep | Kernel32Getacp | Kernel32Getoemcp
  | Kernel32Getsystemdefaultlangid | Kernel32Getuserdefaultlangid | Kernel32Getcommandlinea
  | Kernel32Getcommandlinew | Kernel32Getcurrentdirectoryw | Kernel32Getlasterror | Kernel32Setlasterror
  | Kernel32Flsgetvalue | Kernel32Flssetvalue | Kernel32Heapalloc | Kernel32Heapfree | Kernel32Readfile
  | Kernel32Setfilepointer | Kernel32Getfilesize | Kernel32Multibytetowidechar | User32Getsystemmetrics
  | User32Getsyscolor | User32Getsyscolorbrush | User32Getdesktopwindow
      => with_guest_stub (with_noisy EMPTY)
  | Kernel32Getfileinformationbyhandle | Kernel32Getfiletype | Kernel32Getprocaddress | Kernel32Heaprealloc
  | Kernel32Heapsize | Kernel32Writefile
      => with_noisy EMPTY
  | _ => EMPTY
  end.

(** ** The table is a bijection *)

Lemma from_to_u16 id : from_u16 (to_u16 id) = Ok (Some id).
Proof. destruct id; vm_compute; reflexivity. Qed.

#[global] Instance to_u16_inj : Inj (=) (=) to_u16.
Proof. intros a b E. pose proof (from_to_u16 a) as Ha. rewrite E, from_to_u16 in Ha. by injection Ha. Qed.
#[global] Instance WinApiId_eq_dec : EqDecision WinApiId.
Proof. intros a b. destruct (decide (to_u16 a = to_u16 b)) as [E|E]; [left; by apply (inj to_u16)|right; congruence]. Defined.

Lemma to_u16_bound id : 0 ≤ to_u16 id < WINAPI_ID_COUNT.
Proof. destruct id; vm_compute; split; congruence. Qed.

Lemma from_u16_inv raw id : from_u16 raw = Ok (Some id) → to_u16 id = raw.
Proof.
  unfold from_u16. case_decide; [done|]. destruct (list_find _ _) as [[i [id' v]]|] eqn:E; [|done]. intros [= ->].
  apply list_find_Some in E as (Hi & Hv & _). simpl in Hv. subst.
  assert (Hall : Forall (λ d, to_u16 d.1 = d.2) discriminants) by (apply (bool_decide_unpack _); vm_compute; exact I).
  rewrite Forall_lookup in Hall. exact (Hall i _ Hi).
Qed.

(** The two values below the count that are not discriminants. *)
Lemma from_u16_undefined raw w : 0 ≤ raw → from_u16 raw = Abort w ↔ w = HostFault ∧ (raw = 109 ∨ raw = 110).
Proof.
  intros Hraw.
  assert (Hall : Forall (λ raw, match from_u16 raw with Ok (Some _) => raw ≠ 109 ∧ raw ≠ 110
    | Abort HostFault => raw = 109 ∨ raw = 110 | _ => False end) (seqZ 0 305)).
  { apply Forall_forall. intros x Hx. apply elem_of_seqZ in Hx.
    assert (Hd : bool_decide (Forall (λ raw, bool_decide (is_Some (list_find (λ d, d.2 = raw) discriminants)) =
      negb (bool_decide (raw = 109 ∨ raw = 110))) (seqZ 0 305)) = true) by (vm_compute; reflexivity).
    apply bool_decide_eq_true in Hd. rewrite Forall_forall in Hd. specialize (Hd x). rewrite elem_of_seqZ in Hd. specialize (Hd Hx).
    unfold from_u16. unfold WINAPI_ID_COUNT. rewrite decide_False by lia.
    destruct (list_find _ discriminants) as [[i [id v]]|].
    - rewrite bool_decide_eq_true_2 in Hd by done. symmetry in Hd. apply negb_true_iff, bool_decide_eq_false in Hd. lia.
    - rewrite bool_decide_eq_false_2 in Hd by (by intros []). symmetry in Hd. apply negb_false_iff, bool_decide_eq_true in Hd. done. }
  destruct (decide (raw < 305)) as [Hlt|Hge].
  - rewrite Forall_forall in Hall. specialize (Hall raw). rewrite elem_of_seqZ in Hall. specialize (Hall ltac:(lia)).
    destruct (from_u16 raw) as [[id|]|e|[]]; naive_solver.
  - unfold from_u16, WINAPI_ID_COUNT. rewrite decide_True by lia. split; [done|lia].
Qed.

Lemma resolve_ci l n l' n' :
  to_ascii_lowercase l = to_ascii_lowercase l' → to_ascii_lowercase n = to_ascii_lowercase n' →
  resolve_winapi_id l n = resolve_winapi_id l' n'.
Proof.
  intros El En. unfold resolve_winapi_id. f_equal. apply list_find_ext. intros row. unfold eq_ignore_ascii_case. by rewrite El, En.
Qed.

(** *** The rows *)

Lemma rows_lowercase : Forall (λ row, to_ascii_lowercase row.1.1 = row.1.1 ∧ to_ascii_lowercase row.1.2 = row.1.2) WINAPI_NAME_ROWS.
Proof. apply (bool_decide_unpack _). vm_compute. exact I. Qed.
Lemma rows_names_distinct : NoDup (WINAPI_NAME_ROWS.*1).
Proof. apply (bool_decide_unpack _). vm_compute. exact I. Qed.
Lemma rows_ids_complete id : ∃ i row, winapi_id_export id = Some row.1 ∧ WINAPI_NAME_ROWS !! i = Some row ∧ row.2 = id.
Proof.
  assert (Hex : is_Some (list_find (λ row, to_u16 row.2 = to_u16 id) WINAPI_NAME_ROWS)).
  { destruct id; vm_compute; eexists; reflexivity. }
  destruct Hex as [[i row] E]. exists i, row. unfold winapi_id_export. rewrite E. split; [done|].
  apply list_find_Some in E as (Hi & Hv & _). split; [done|by apply (inj to_u16)].
Qed.

(** Every API id is found under the name it is exported with, in any case of letters:
    the lookups from names to ids and back are inverse. *)
Theorem names_inverse id :
  ∃ library name, winapi_id_export id = Some (library, name) ∧
    ∀ l n, to_ascii_lowercase l = library → to_ascii_lowercase n = name → resolve_winapi_id l n = Some id.
Proof.
  destruct (rows_ids_complete id) as (i & [[library name] id'] & E & Hi & Eid). simpl in E, Eid. subst id'. exists library, name. split; [done|].
  intros l n Hl Hn. pose proof rows_lowercase as Hlow. rewrite Forall_lookup in Hlow. unfold resolve_winapi_id.
  destruct (Hlow i _ Hi) as [E1 E2]. simpl in E1, E2.
  apply fmap_Some. exists (i, (library, name, id)). split; [|done]. apply list_find_Some. split; [done|split].
  - unfold eq_ignore_ascii_case. simpl. rewrite !bool_decide_eq_true_2 by congruence. done.
  - intros j [[l' n'] id'] Hj Hji Hm. apply Is_true_true in Hm. unfold eq_ignore_ascii_case in Hm.
    rewrite andb_true_iff, !bool_decide_eq_true in Hm. destruct (Hlow j _ Hj) as [F1 F2]. simpl in *.
    assert (j = i); [|lia]. eapply (NoDup_lookup _ j i (library, name) rows_names_distinct); rewrite list_lookup_fmap.
    + rewrite Hj. simpl. destruct Hm. congruence.
    + by rewrite Hi.
Qed.
