(* ===== verification/fake_va.v ===== *)
(** * Fake API addresses (crates/wie-winapi/src/fake_va.rs)

    An API is called at an address in a window of the guest that no image uses;
    the address says which one it is. *)

From S2P Require Import Prelude regs insn path dispatch_table.

Definition FAKE_API_BASE : u64 := 0x0000700000000000.
Definition FAKE_API_SIZE : usize := 0x00400000.
Definition ALIGN_SHIFT : u32 := 4.
Definition PAYLOAD_BITS : u32 := 16.
Definition KIND_SHIFT : u32 := ALIGN_SHIFT + PAYLOAD_BITS.
Definition PAYLOAD_MASK : u64 := Z.shiftl 1 PAYLOAD_BITS - 1.
Definition KIND_MASK : u64 := 3.

Definition KIND_EXPORT : u8 := 0.
Definition KIND_COM : u8 := 1.
Definition KIND_SPECIAL : u8 := 2.
Definition KIND_SOFT : u8 := 3.
Definition SOFT_UNRESOLVED_BASE : u16 := 0x8000.
Definition SPECIAL_CALLBACK_RETURN : u16 := 0.
Definition SPECIAL_SEH_CONTINUE : u16 := 1.
Definition COM_IFACE_IDIRECT3D9 : u8 := 0.
Definition COM_IFACE_IDIRECT3DDEVICE9 : u8 := 1.

Inductive FakeVa :=
  | Export (id : WinApiId)
  | Alias (id : WinApiId)
  | Unresolved (index : u16)
  | Com (iface method : u8)
  | Special (id : u16).

Definition encode (kind : u8) (payload : u16) : u64 :=
  Z.lor (Z.lor FAKE_API_BASE (Z.shiftl kind KIND_SHIFT)) (Z.shiftl payload ALIGN_SHIFT).
Definition encode_export (id : WinApiId) : u64 := encode KIND_EXPORT (to_u16 id).
Definition encode_alias (id : WinApiId) : u64 := encode KIND_SOFT (to_u16 id).
Definition encode_unresolved (index : u16) : u64 := encode KIND_SOFT (Z.lor SOFT_UNRESOLVED_BASE (Z.land index 0x7fff)).
Definition encode_com (iface method : u8) : u64 := encode KIND_COM (Z.lor (Z.shiftl iface 8) method).
Definition encode_special (id : u16) : u64 := encode KIND_SPECIAL id.
Definition callback_return_trampoline_va : u64 := encode_special SPECIAL_CALLBACK_RETURN.
Definition seh_continue_trampoline_va : u64 := encode_special SPECIAL_SEH_CONTINUE.

(** [Abort]: the id is transmuted from a value that is none. *)
Definition decode (va : u64) : res (option FakeVa) :=
  if decide (va < FAKE_API_BASE) then Ok None
  else
    let off := va - FAKE_API_BASE in
    let window := FAKE_API_SIZE in
    if decide (window ≤ off) then Ok None
    else if decide (Z.land off (Z.shiftl 1 ALIGN_SHIFT - 1) ≠ 0) then Ok None
    else
      let payload := as_u 16 (Z.land (Z.shiftr off ALIGN_SHIFT) PAYLOAD_MASK) in
      let kind := as_u 8 (Z.land (Z.shiftr off KIND_SHIFT) KIND_MASK) in
      if decide (kind = KIND_EXPORT) then
        id ← from_u16 payload; Ok (Export <$> (id : option WinApiId))
      else if decide (kind = KIND_COM) then Ok (Some (Com (as_u 8 (Z.shiftr payload 8)) (as_u 8 payload)))
      else if decide (kind = KIND_SPECIAL) then Ok (Some (Special payload))
      else if decide (kind = KIND_SOFT) then
        if decide (payload < SOFT_UNRESOLVED_BASE)
        then id ← from_u16 payload; Ok (Alias <$> (id : option WinApiId))
        else Ok (Some (Unresolved (as_u 16 (payload - SOFT_UNRESOLVED_BASE))))
      else Ok None.

(** ** Addresses are numbers of kind and payload *)

Definition va_of (kind payload : Z) : Z := FAKE_API_BASE + kind * 2 ^ 20 + payload * 2 ^ 4.

Lemma lor_disjoint a b k : 0 ≤ k → 0 ≤ b < 2 ^ k → Z.lor (a * 2 ^ k) b = a * 2 ^ k + b.
Proof.
  intros Hk Hb. rewrite <- Z.lxor_lor, Z.add_nocarry_lxor; [done|..]; rewrite <- Z.shiftl_mul_pow2 by done;
    apply Z.bits_inj'; intros i Hi; rewrite Z.land_spec, Z.bits_0, Z.shiftl_spec by done;
    (destruct (decide (i < k)); [by rewrite (Z.testbit_neg_r a (i - k)) by lia|]);
    (replace (Z.testbit b i) with false; [by rewrite andb_false_r|]); symmetry;
    (destruct (decide (b = 0)) as [->|]; [apply Z.bits_0|]); apply Z.bits_above_log2; [lia| |lia|];
    apply Z.log2_lt_pow2; try lia; eapply Z.lt_le_trans; [apply Hb| |apply Hb|]; apply Z.pow_le_mono_r; lia.
Qed.

Lemma encode_va kind payload : 0 ≤ kind < 4 → 0 ≤ payload < 2 ^ 16 → encode kind payload = va_of kind payload.
Proof.
  intros Hk Hp. unfold encode, va_of. change KIND_SHIFT with 20. change ALIGN_SHIFT with 4. rewrite !Z.shiftl_mul_pow2 by lia.
  change FAKE_API_BASE with (0x7000000 * 2 ^ 20 + 0) at 1. rewrite Z.add_0_r.
  assert (E : Z.lor (0x7000000 * 2 ^ 20) (kind * 2 ^ 20) = (0x7000000 + kind) * 2 ^ 20).
  { assert (kind = 0 ∨ kind = 1 ∨ kind = 2 ∨ kind = 3) as [->|[->|[->| ->]]] by lia; reflexivity. }
  rewrite E, lor_disjoint by lia. change FAKE_API_BASE with (0x7000000 * 2 ^ 20). lia.
Qed.

(** What [decode] makes of kind and payload. *)
Definition classify (kind payload : Z) : res (option FakeVa) :=
  if decide (kind = KIND_EXPORT) then id ← from_u16 payload; Ok (Export <$> (id : option WinApiId))
  else if decide (kind = KIND_COM) then Ok (Some (Com (payload / 256) (payload mod 256)))
  else if decide (kind = KIND_SPECIAL) then Ok (Some (Special payload))
  else if decide (payload < SOFT_UNRESOLVED_BASE) then id ← from_u16 payload; Ok (Alias <$> (id : option WinApiId))
  else Ok (Some (Unresolved (payload - SOFT_UNRESOLVED_BASE))).

Lemma decode_va kind payload : 0 ≤ kind < 4 → 0 ≤ payload < 2 ^ 16 → decode (va_of kind payload) = classify kind payload.
Proof.
  intros Hk Hp. unfold decode, va_of. assert (0 ≤ kind * 2 ^ 20 + payload * 2 ^ 4 < FAKE_API_SIZE).
  { change FAKE_API_SIZE with (4 * 2 ^ 20). lia. }
  rewrite decide_False by lia. cbv zeta. replace (FAKE_API_BASE + kind * 2 ^ 20 + payload * 2 ^ 4 - FAKE_API_BASE)
    with ((kind * 2 ^ 16 + payload) * 2 ^ 4) by lia.
  rewrite decide_False by lia. change (Z.shiftl 1 ALIGN_SHIFT - 1) with (Z.ones 4).
  rewrite Z.land_ones, Z.mod_mul by lia. rewrite decide_False by (intros Hn; by apply Hn).
  change ALIGN_SHIFT with 4. change KIND_SHIFT with (4 + 16). change PAYLOAD_MASK with (Z.ones 16). change KIND_MASK with (Z.ones 2).
  rewrite <- Z.shiftr_shiftr by lia. rewrite !(Z.shiftr_div_pow2 _ 4), Z.div_mul by lia.
  rewrite !Z.land_ones, Z.shiftr_div_pow2 by lia.
  rewrite (Z.add_comm (kind * 2 ^ 16)), Z_mod_plus_full, (Z.mod_small payload), Z.div_add, (Z.div_small payload), Z.add_0_l by lia.
  rewrite (Z.mod_small kind) by lia. unfold as_u. rewrite (Z.mod_small payload), (Z.mod_small kind) by lia.
  unfold classify. repeat case_decide; try done.
  - rewrite Z.shiftr_div_pow2 by lia. rewrite (Z.mod_small (payload / 2 ^ 8)); [done|].
    split; [apply Z.div_pos; lia|apply Z.div_lt_upper_bound; lia].
  - rewrite Z.mod_small; [done|]. unfold SOFT_UNRESOLVED_BASE in *. lia.
  - unfold KIND_EXPORT, KIND_COM, KIND_SPECIAL, KIND_SOFT in *. lia.
  - unfold KIND_EXPORT, KIND_COM, KIND_SPECIAL, KIND_SOFT in *. lia.
Qed.

(** Other addresses are none of ours. *)
Lemma decode_cases va :
  (∃ kind payload, 0 ≤ kind < 4 ∧ 0 ≤ payload < 2 ^ 16 ∧ va = va_of kind payload) ∨ decode va = Ok None.
Proof.
  unfold decode. case_decide; [by right|]. cbv zeta. case_decide as Hw; [by right|]. case_decide as Ha; [by right|]. left.
  change (Z.shiftl 1 ALIGN_SHIFT - 1) with (Z.ones 4) in Ha. rewrite Z.land_ones in Ha by lia.
  set (off := va - FAKE_API_BASE) in *. change FAKE_API_SIZE with (4 * 2 ^ 20) in Hw.
  exists (off / 2 ^ 20), (off / 2 ^ 4 mod 2 ^ 16). pose proof (Z.mod_pos_bound (off / 2 ^ 4) (2 ^ 16) ltac:(lia)).
  assert (Eo : off = off / 2 ^ 20 * 2 ^ 20 + off / 2 ^ 4 mod 2 ^ 16 * 2 ^ 4).
  { pose proof (Z.div_mod (off / 2 ^ 4) (2 ^ 16) ltac:(lia)) as E1. rewrite Z.div_div in E1 by lia.
    change (2 ^ 4 * 2 ^ 16) with (2 ^ 20) in E1. pose proof (Z.div_mod off (2 ^ 4) ltac:(lia)). lia. }
  unfold va_of. split_and!; [apply Z.div_pos; lia|apply Z.div_lt_upper_bound; lia|lia|lia|lia].
Qed.

Definition encode_fake (f : FakeVa) : u64 :=
  match f with
  | Export id => encode_export id
  | Alias id => encode_alias id
  | Unresolved i => encode_unresolved i
  | Com iface method => encode_com iface method
  | Special id => encode_special id
  end.
Definition fake_ok (f : FakeVa) : Prop :=
  match f with
  | Export _ | Alias _ => True
  | Unresolved i => 0 ≤ i < SOFT_UNRESOLVED_BASE
  | Com iface method => is_byte iface ∧ is_byte method
  | Special id => 0 ≤ id < 2 ^ 16
  end.

Lemma unresolved_payload i : 0 ≤ i < SOFT_UNRESOLVED_BASE → Z.lor SOFT_UNRESOLVED_BASE (Z.land i 0x7fff) = SOFT_UNRESOLVED_BASE + i.
Proof.
  unfold SOFT_UNRESOLVED_BASE. intros Hi. change 0x7fff with (Z.ones 15). rewrite Z.land_ones, Z.mod_small by lia.
  exact (lor_disjoint 1 i 15 ltac:(lia) ltac:(lia)).
Qed.
Lemma com_payload iface method : is_byte iface → is_byte method → Z.lor (Z.shiftl iface 8) method = iface * 256 + method.
Proof. unfold is_byte. intros Hi Hm. rewrite Z.shiftl_mul_pow2 by lia. apply (lor_disjoint iface method 8); lia. Qed.

Lemma va_of_range k p : 0 ≤ k < 4 → 0 ≤ p < 2 ^ 16 →
  FAKE_API_BASE ≤ va_of k p < FAKE_API_BASE + FAKE_API_SIZE ∧ va_of k p mod 16 = 0.
Proof.
  intros Hk Hp. unfold va_of. change FAKE_API_SIZE with (4 * 2 ^ 20). split; [lia|].
    change FAKE_API_BASE with (0x70000000000 * 16).
    replace (0x70000000000 * 16 + k * 2 ^ 20 + p * 2 ^ 4) with ((0x70000000000 + k * 2 ^ 16 + p) * 16) by lia. by apply Z.mod_mul.
Qed.

(** Kind and payload of a call. *)
Lemma fake_numbers f : fake_ok f → ∃ k p, 0 ≤ k < 4 ∧ 0 ≤ p < 2 ^ 16 ∧ encode_fake f = encode k p ∧ classify k p = Ok (Some f).
Proof.
  intros Hf. destruct f as [id|id|i|iface method|id]; simpl in Hf.
  - exists KIND_EXPORT, (to_u16 id). pose proof (to_u16_bound id). unfold WINAPI_ID_COUNT in *.
    split_and!; [by vm_compute|by vm_compute|lia|lia|done|]. unfold classify. rewrite decide_True by done. by rewrite from_to_u16.
  - exists KIND_SOFT, (to_u16 id). pose proof (to_u16_bound id). unfold WINAPI_ID_COUNT in *.
    split_and!; [by vm_compute|by vm_compute|lia|lia|done|]. unfold classify. rewrite !decide_False by (by vm_compute).
    rewrite decide_True by (unfold SOFT_UNRESOLVED_BASE; lia). by rewrite from_to_u16.
  - exists KIND_SOFT, (SOFT_UNRESOLVED_BASE + i). unfold SOFT_UNRESOLVED_BASE in Hf |- *.
    split_and!; [by vm_compute|by vm_compute|lia|lia| |]; [simpl; unfold encode_unresolved; by rewrite unresolved_payload|].
    unfold classify. rewrite !(decide_False (P := KIND_SOFT = _)) by (by vm_compute).
    unfold SOFT_UNRESOLVED_BASE. rewrite decide_False by lia. do 3 f_equal. lia.
  - destruct Hf as [Hi Hm]. exists KIND_COM, (iface * 256 + method). unfold is_byte in *.
    split_and!; [by vm_compute|by vm_compute|lia|lia| |]; [simpl; unfold encode_com; by rewrite com_payload|].
    unfold classify. rewrite decide_False, decide_True by (by vm_compute).
    rewrite Z.div_add_l, Z.div_small, Z.add_0_r, Z.add_comm, Z_mod_plus_full, Z.mod_small by lia. done.
  - exists KIND_SPECIAL, id. split_and!; [by vm_compute|by vm_compute|lia|lia|done|]. done.
Qed.

Lemma decode_inverse va f : decode va = Ok (Some f) → fake_ok f ∧ encode_fake f = va.
Proof.
  intros Hd. destruct (decode_cases va) as [(k & p & Hk & Hp & ->)|E]; [|congruence].
  rewrite decode_va in Hd by done. rewrite <- encode_va by done. unfold classify in Hd. repeat case_decide; subst.
  + destruct (from_u16 p) as [[id|]|e|w] eqn:Ef; simplify_eq/=. split; [done|]. apply from_u16_inv in Ef as <-. done.
  + simplify_eq. simpl. assert (0 ≤ p / 256 < 256 ∧ 0 ≤ p mod 256 < 256).
    { split; [split; [apply Z.div_pos|apply Z.div_lt_upper_bound]; lia|by apply Z.mod_pos_bound]. }
    split; [unfold is_byte; lia|]. unfold encode_com. rewrite com_payload by (unfold is_byte; lia). f_equal.
    pose proof (Z.div_mod p 256 ltac:(lia)). lia.
  + simplify_eq. done.
  + destruct (from_u16 p) as [[id|]|e|w] eqn:Ef; simplify_eq/=. split; [done|]. apply from_u16_inv in Ef as <-.
    assert (k = KIND_SOFT) as -> by (unfold KIND_EXPORT, KIND_COM, KIND_SPECIAL, KIND_SOFT in *; lia). done.
  + simplify_eq. simpl. assert (k = KIND_SOFT) as -> by (unfold KIND_EXPORT, KIND_COM, KIND_SPECIAL, KIND_SOFT in *; lia).
    assert (0 ≤ p - SOFT_UNRESOLVED_BASE < SOFT_UNRESOLVED_BASE) by (unfold SOFT_UNRESOLVED_BASE in *; lia).
    split; [done|]. unfold encode_unresolved. rewrite unresolved_payload by done. f_equal. lia.
Qed.

Lemma decode_undefined va w :
  decode va = Abort w ↔
  w = HostFault ∧ va ∈ [va_of KIND_EXPORT 109; va_of KIND_EXPORT 110; va_of KIND_SOFT 109; va_of KIND_SOFT 110].
Proof.
  rewrite !elem_of_cons, elem_of_nil. destruct (decode_cases va) as [(k & p & Hk & Hp & ->)|E].
  + rewrite decode_va by done.
    assert (Hinj : ∀ k' p', 0 ≤ p' < 2 ^ 16 → va_of k p = va_of k' p' ↔ k = k' ∧ p = p').
    { intros k' p' Hp'. unfold va_of. split; [|by intros [-> ->]]. lia. }
    rewrite !Hinj by (by vm_compute). unfold classify. repeat case_decide; subst.
    * pose proof (from_u16_undefined p w (proj1 Hp)) as Hu. destruct (from_u16 p) as [[id|]|e|w'];
        unfold mbind, res_bind; (split; [intros Ha|intros [-> Ha]]); unfold KIND_EXPORT, KIND_SOFT in *; try done; naive_solver lia.
    * split; [done|]. unfold KIND_EXPORT, KIND_SOFT, KIND_COM. naive_solver lia.
    * split; [done|]. unfold KIND_EXPORT, KIND_SOFT, KIND_SPECIAL. naive_solver lia.
    * pose proof (from_u16_undefined p w (proj1 Hp)) as Hu.
      assert (k = KIND_SOFT) as -> by (unfold KIND_EXPORT, KIND_COM, KIND_SPECIAL, KIND_SOFT in *; lia).
      destruct (from_u16 p) as [[id|]|e|w'];
        unfold mbind, res_bind; (split; [intros Ha|intros [-> Ha]]); unfold KIND_EXPORT, KIND_SOFT in *; try done; naive_solver lia.
    * split; [done|]. unfold SOFT_UNRESOLVED_BASE in *. naive_solver lia.
  + rewrite E. split; [done|]. intros [_ Hva].
    assert (Hd : decode va ≠ Ok None).
    { destruct Hva as [->|[->|[->|[->|[]]]]]; by vm_compute. }
    done.
Qed.

(** The addresses of the fake APIs: what is encoded is decoded, every address of the
    window is aligned to its stride and belongs to one call only, and everything else is
    rejected; only the addresses of the two ids the enum leaves out are undefined. *)
Theorem fake_va_roundtrip :
  (∀ f, fake_ok f → decode (encode_fake f) = Ok (Some f) ∧
     FAKE_API_BASE ≤ encode_fake f < FAKE_API_BASE + FAKE_API_SIZE ∧ encode_fake f mod 16 = 0) ∧
  (∀ va f, decode va = Ok (Some f) → fake_ok f ∧ encode_fake f = va) ∧
  (∀ va w, decode va = Abort w ↔
     w = HostFault ∧ va ∈ [va_of KIND_EXPORT 109; va_of KIND_EXPORT 110; va_of KIND_SOFT 109; va_of KIND_SOFT 110]).
Proof.
  split_and!; [|exact decode_inverse|exact decode_undefined].
  intros f Hf. destruct (fake_numbers f Hf) as (k & p & Hk & Hp & -> & Hc).
  rewrite encode_va, decode_va by done. split; [done|]. by apply va_of_range.
Qed.
