(* ===== verification/guest_string.v ===== *)
(** * Guest words and strings (crates/wie-winapi/src/guest_memory.rs, guest_string.rs)

    What the API handlers read and write of guest memory: little-endian words,
    NUL-terminated bytes and UTF-16.  The engine is the interface [CpuMem]; an
    [anyhow] error is its outermost context. *)

From S2P Require Import Prelude engine utf encoding.

(** [Context::context]. *)
Definition context {S A} (text : string) (m : M S A) : M S A := λ s,
  match m s with
  | (s', Err _) => (s', Err (Message text))
  | r => r
  end.
Definition some_ctx {S A} (text : string) (o : option A) : M S A := lift (ok_or o (Message text)).

Definition checked_mul (a b : u64) : option u64 := if decide (a * b < u64_lim) then Some (a * b) else None.

(** [i32::from_le_bytes]. *)
Definition as_i32 (v : u32) : Z := if decide (v < 2 ^ 31) then v else v - 2 ^ 32.

Section Engine.
Context {E : Type} `{CpuMem E}.

(** ** Words *)

Definition read_i32 (address : u64) : M E Z :=
  bytes ← context "failed to read i32 from guest memory" (mem_read address 4%nat); mret (as_i32 (le_val bytes)).
Definition read_u64 (address : u64) : M E u64 :=
  bytes ← context "failed to read u64 from guest memory" (mem_read address 8%nat); mret (le_val bytes).
Definition read_u32 (address : u64) : M E u32 :=
  bytes ← context "failed to read u32 from guest memory" (mem_read address 4%nat); mret (le_val bytes).
Definition read_u16 (address : u64) : M E u16 :=
  bytes ← context "failed to read u16 from guest memory" (mem_read address 2%nat); mret (le_val bytes).
Definition read_bytes (address : u64) (n : nat) : M E (list u8) :=
  context "failed to read bytes from guest memory" (mem_read address n).

Definition write_u32 (address : u64) (value : u32) : M E unit :=
  context "failed to write u32 to guest memory" (mem_write address (le_bytes 4 value)).
(** [value.to_le_bytes()] of an [i32] is that of its two's complement. *)
Definition write_i32 (address : u64) (value : Z) : M E unit :=
  context "failed to write i32 to guest memory" (mem_write address (le_bytes 4 value)).
Definition write_u64 (address : u64) (value : u64) : M E unit :=
  context "failed to write u64 to guest memory" (mem_write address (le_bytes 8 value)).
Definition write_u16 (address : u64) (value : u16) : M E unit :=
  context "failed to write u16 to guest memory" (mem_write address (le_bytes 2 value)).
Definition write_bytes (address : u64) (bytes : list u8) : M E unit :=
  context "failed to write bytes to guest memory" (mem_write address bytes).

Definition checked_field_address (base offset : u64) (field_name : string) : M E u64 :=
  some_ctx ("field address overflow for " +:+ field_name) (checked_add base offset).
Definition checked_address (base offset : u64) (context_name : string) : M E u64 :=
  some_ctx ("address overflow: " +:+ context_name) (checked_add base offset).

(** ** Reading strings *)

(** [n] more bytes may be read, from [index] on. *)
Fixpoint ansi_loop (address : u64) (n : nat) (index : u64) (bytes : list u8) : M E (list u8) :=
  match n with
  | O => mret bytes
  | S n =>
      byte_address ← some_ctx "ANSI string address overflow" (checked_add address index);
      byte ← context "failed to read ANSI string byte" (mem_read byte_address 1%nat);
      let value := le_val byte in
      if decide (value = 0) then mret bytes
      else ansi_loop address n (index + 1) (bytes ++ [value])
  end.
Definition read_ansi_bytes (address : u64) (max_bytes : nat) : M E (list u8) :=
  if decide (address = 0) then mret [] else ansi_loop address max_bytes 0 [].
Definition read_ansi_lossy (address : u64) (max_bytes : nat) : M E (list char) :=
  bytes ← read_ansi_bytes address max_bytes; mret (decode_acp bytes).

Fixpoint utf16_loop (address : u64) (n : nat) (index : u64) (units : list u16) : M E (list u16) :=
  match n with
  | O => mret units
  | S n =>
      byte_offset ← some_ctx "UTF-16 string byte offset overflow" (checked_mul index 2);
      unit_address ← some_ctx "UTF-16 string address overflow" (checked_add address byte_offset);
      bytes ← context "failed to read UTF-16 string unit" (mem_read unit_address 2%nat);
      let unit := le_val bytes in
      if decide (unit = 0) then mret units
      else utf16_loop address n (index + 1) (units ++ [unit])
  end.
Definition read_utf16_lossy (address : u64) (max_units : nat) : M E (list char) :=
  if decide (address = 0) then mret []
  else units ← utf16_loop address max_units 0 []; mret (from_utf16_lossy units).

(** ** Writing strings *)

Definition unit_bytes (units : list u16) : list u8 := concat (le_bytes 2 <$> units).
Definition write_utf16_units (address : u64) (units : list u16) : M E unit :=
  context "failed to write UTF-16 units to guest memory" (write_bytes address (unit_bytes units)).

(** A buffer of zeros with [value] at its start. *)
Definition write_fixed_ansi (address : u64) (byte_len : nat) (value : list u8) : M E unit :=
  let copy_len := Nat.min (length value) (byte_len - 1) in
  context "failed to write fixed ANSI string"
    (write_bytes address (take copy_len value ++ replicate (byte_len - copy_len) 0)).
Definition write_fixed_utf16 (address : u64) (unit_len : nat) (value : list char) : M E unit :=
  _ ← some_ctx "UTF-16 fixed string byte length overflow" (checked_mul (Z.of_nat unit_len) 2);
  let units := take (unit_len - 1) (encode_utf16 value) in
  context "failed to write fixed UTF-16 string"
    (write_bytes address (unit_bytes units ++ replicate (unit_len * 2 - length (unit_bytes units)) 0)).

Definition write_ansi_c_string (address : u64) (max_characters : nat) (text : list char) : M E nat :=
  if decide (address = 0 ∨ max_characters = 0%nat) then mret 0%nat
  else
    let output := take (max_characters - 1) (utf8_encode text) in
    _ ← context "failed to write ANSI C string" (write_bytes address (output ++ [0]));
    mret (length output).
Definition write_utf16_c_string (address : u64) (max_characters : nat) (text : list char) : M E nat :=
  if decide (address = 0 ∨ max_characters = 0%nat) then mret 0%nat
  else
    let units := take (max_characters - 1) (encode_utf16 text) in
    _ ← context "failed to write UTF-16 C string" (write_utf16_units address (units ++ [0]));
    mret (length units).
End Engine.
