(* ===== verification/guest_string_spec.v ===== *)
(** * Guest strings are read as they were written

    Against the interface [CpuMemLaws]: whatever engine keeps its promise. *)

From S2P Require Import Prelude engine utf encoding guest_string.

Section Spec.
Context {E : Type} `{CpuMemLaws E}.

(** ** The readers *)

Lemma ansi_loop_spec cs : ∀ e a n index acc,
  mem_inv e → Forall (λ c, 0 < c < 256) cs → 0 ≤ index →
  accessible e (a + index) (Z.of_nat (length cs) + 1) → 0 ≤ a → holds e (a + index) (cs ++ [0]) →
  ∃ e', ansi_loop a n index acc e = (e', Ok (acc ++ take n cs)) ∧ unchanged e e'.
Proof.
  induction cs as [|c cs IH]; intros e a [|n] index acc Hi Hcs Hx Hacc Ha Hh;
    try (exists e; split; [by rewrite ?take_0, app_nil_r|by apply unchanged_refl]).
  - cbn [ansi_loop]. destruct Hacc as (H1 & H2 & H3). unfold some_ctx, lift, mbind, M_bind, context.
    rewrite (proj2 (checked_add_Some a index (a + index))) by (split; [done|lia]). cbn [ok_or].
    destruct (mem_read_holds e (a + index) [0] Hi ltac:(done) Hh) as (e' & Er & Hu). simpl length in Er. rewrite Er.
    exists e'. split; [|done]. by rewrite app_nil_r.
  - cbn [ansi_loop app take]. apply Forall_cons in Hcs as [Hc Hcs]. pose proof Hacc as (H1 & H2 & H3). cbn [length] in *.
    unfold some_ctx at 1, lift, mbind at 1, M_bind at 1.
    rewrite (proj2 (checked_add_Some a index (a + index))) by (split; [done|lia]). cbn [ok_or].
    apply (holds_app e (a + index) [c] (cs ++ [0])) in Hh as [Hh1 Hh2].
    destruct (mem_read_holds e (a + index) [c] Hi) as (e' & Er & Hu); [by apply (accessible_sub e _ _ _ _ Hacc); simpl; lia|done|].
    unfold context at 1, mbind at 1, M_bind at 1. simpl length in Er. rewrite Er.
    assert (Ev : le_val [c] = c) by (simpl; lia). rewrite Ev, decide_False by lia.
    destruct (IH e' a n (index + 1) (acc ++ [c])) as (e'' & El & Hu'); [apply Hu|done|lia| |done| |].
    + eapply accessible_unchanged; [exact Hu|]. eapply accessible_sub; [exact Hacc|lia..].
    + eapply holds_unchanged; [exact Hu|]. rewrite Z.add_assoc. exact Hh2.
    + exists e''. split; [|by eapply unchanged_trans]. rewrite El. by rewrite <- app_assoc.
Qed.

Lemma read_ansi_bytes_spec e a n cs :
  mem_inv e → Forall (λ c, 0 < c < 256) cs → 0 < a → accessible e a (Z.of_nat (length cs) + 1) → holds e a (cs ++ [0]) →
  ∃ e', read_ansi_bytes a n e = (e', Ok (take n cs)) ∧ unchanged e e'.
Proof.
  intros Hi Hcs Ha Hacc Hh. unfold read_ansi_bytes. rewrite decide_False by lia.
  apply (ansi_loop_spec cs e a n 0 [] Hi Hcs); rewrite ?Z.add_0_r; try done; lia.
Qed.

Lemma unit_bytes_length us : length (unit_bytes us) = (2 * length us)%nat.
Proof. unfold unit_bytes. induction us as [|u us IH]; [done|]. rewrite fmap_cons. cbn [concat]. rewrite length_app, length_le_bytes, IH. simpl. lia. Qed.
Lemma unit_bytes_app x y : unit_bytes (x ++ y) = unit_bytes x ++ unit_bytes y.
Proof. unfold unit_bytes. by rewrite fmap_app, concat_app. Qed.

Lemma utf16_loop_spec us : ∀ e a n index acc,
  mem_inv e → Forall (λ u, 0 < u < 2 ^ 16) us → 0 ≤ index →
  accessible e (a + 2 * index) (2 * Z.of_nat (length us) + 2) → 0 ≤ a → holds e (a + 2 * index) (unit_bytes (us ++ [0])) →
  ∃ e', utf16_loop a n index acc e = (e', Ok (acc ++ take n us)) ∧ unchanged e e'.
Proof.
  induction us as [|u us IH]; intros e a [|n] index acc Hi Hus Hx Hacc Ha Hh;
    try (exists e; split; [by rewrite ?take_0, app_nil_r|by apply unchanged_refl]);
    cbn [utf16_loop]; pose proof Hacc as (H1 & H2 & H3);
    (assert (Hm : checked_mul index 2 = Some (2 * index)) by (unfold checked_mul; rewrite decide_True by lia; f_equal; lia));
    rewrite Hm; unfold some_ctx at 1 2, lift, mbind at 1 2, M_bind at 1 2; cbn [ok_or];
    rewrite (proj2 (checked_add_Some a (2 * index) (a + 2 * index))) by (split; [done|lia]); cbn [ok_or].
  - destruct (mem_read_holds e (a + 2 * index) (le_bytes 2 0) Hi ltac:(done) Hh) as (e' & Er & Hu).
    change (length (le_bytes 2 0)) with 2%nat in Er. unfold mbind, M_bind, context. rewrite Er. exists e'. split; [|done]. by rewrite app_nil_r.
  - apply Forall_cons in Hus as [Hu0 Hus]. cbn [length] in *.
    change (unit_bytes ((u :: us) ++ [0])) with (le_bytes 2 u ++ unit_bytes (us ++ [0])) in Hh.
    apply holds_app in Hh as [Hh1 Hh2]. rewrite length_le_bytes in Hh2.
    destruct (mem_read_holds e (a + 2 * index) (le_bytes 2 u) Hi) as (e' & Er & Hu);
      [rewrite length_le_bytes; apply (accessible_sub e _ _ _ _ Hacc); lia|done|].
    rewrite length_le_bytes in Er. unfold context at 1, mbind at 1, M_bind at 1. rewrite Er.
    assert (Ev : le_val (le_bytes 2 u) = u) by (rewrite le_val_le_bytes; apply Z.mod_small; lia). rewrite Ev, decide_False by lia.
    destruct (IH e' a n (index + 1) (acc ++ [u])) as (e'' & El & Hu'); [apply Hu|done|lia| |done| |].
    + eapply accessible_unchanged; [exact Hu|]. eapply accessible_sub; [exact Hacc|lia..].
    + eapply holds_unchanged; [exact Hu|]. replace (a + 2 * (index + 1)) with (a + 2 * index + Z.of_nat 2) by lia. exact Hh2.
    + exists e''. split; [|by eapply unchanged_trans]. rewrite El. by rewrite <- app_assoc.
Qed.

Lemma read_utf16_spec e a n us :
  mem_inv e → Forall (λ u, 0 < u < 2 ^ 16) us → 0 < a → accessible e a (2 * Z.of_nat (length us) + 2) →
  holds e a (unit_bytes (us ++ [0])) →
  ∃ e', read_utf16_lossy a n e = (e', Ok (from_utf16_lossy (take n us))) ∧ unchanged e e'.
Proof.
  intros Hi Hus Ha Hacc Hh. unfold read_utf16_lossy. rewrite decide_False by lia.
  destruct (utf16_loop_spec us e a n 0 [] Hi Hus) as (e' & El & Hu); rewrite ?Z.mul_0_r, ?Z.add_0_r; try done; try lia.
  exists e'. split; [|done]. unfold mbind, M_bind. by rewrite El.
Qed.

(** ** The writers *)

Lemma write_bytes_spec text e a bs :
  mem_inv e → accessible e a (Z.of_nat (length bs)) →
  ∃ e', context text (write_bytes a bs) e = (e', Ok tt) ∧ mem_inv e' ∧ (∀ x, mem_rw e' x ↔ mem_rw e x) ∧ holds e' a bs ∧
    ∀ x, ¬ (a ≤ x < a + Z.of_nat (length bs)) → mem_get e' x = mem_get e x.
Proof.
  intros Hi Hacc. destruct (mem_write_holds e a bs Hi Hacc) as (e' & Ew & ?). exists e'. unfold write_bytes, context. by rewrite Ew.
Qed.

Lemma accessible_rw e e' a n : (∀ x, mem_rw e' x ↔ mem_rw e x) → accessible e a n → accessible e' a n.
Proof. intros Hr (? & ? & Hx). split_and!; [done|done|]. intros x Hxx. apply Hr. by apply Hx. Qed.

Lemma take_pos n (cs : list Z) hi : Forall (λ c, 0 < c < hi) cs → Forall (λ c, 0 < c < hi) (take n cs).
Proof. apply Forall_take. Qed.

(** A string put into a fixed buffer is read back up to the length of the buffer less
    its terminator, by any reader that allows for so much, and nothing beside the buffer is
    touched. *)
Theorem fixed_ansi_roundtrip e a byte_len n value :
  mem_inv e → 0 < a → (0 < byte_len)%nat → accessible e a (Z.of_nat byte_len) →
  Forall (λ c, 0 < c < 256) value →
  ∃ e1 e2, write_fixed_ansi a byte_len value e = (e1, Ok tt) ∧
    read_ansi_bytes a n e1 = (e2, Ok (take n (take (byte_len - 1) value))) ∧
    ∀ x, ¬ (a ≤ x < a + Z.of_nat byte_len) → mem_get e2 x = mem_get e x.
Proof.
  intros Hi Ha Hl Hacc Hv. unfold write_fixed_ansi. set (k := Nat.min (length value) (byte_len - 1)).
  set (bs := take k value ++ replicate (byte_len - k) 0).
  assert (Hlen : length bs = byte_len) by (unfold bs; rewrite length_app, length_take, length_replicate; lia).
  destruct (write_bytes_spec "failed to write fixed ANSI string" e a bs Hi) as (e1 & Ew & Hi1 & Hr1 & Hh & Hout); [by rewrite Hlen|].
  assert (Eb : bs = (take k value ++ [0]) ++ replicate (byte_len - k - 1) 0).
  { unfold bs. destruct (byte_len - k)%nat as [|m] eqn:Em; [lia|]. rewrite <- app_assoc. simpl. by rewrite Nat.sub_0_r. }
  rewrite Eb in Hh. apply holds_app in Hh as [Hh _].
  destruct (read_ansi_bytes_spec e1 a n (take k value) Hi1) as (e2 & Er & Hu); [by apply take_pos|done| |done|].
  { eapply accessible_sub; [eapply accessible_rw, Hacc; exact Hr1|lia..|]. rewrite length_take. lia. }
  exists e1, e2. split_and!; [exact Ew| |].
  - rewrite Er. do 3 f_equal. unfold k. destruct (decide (length value ≤ byte_len - 1)%nat).
    + by rewrite Nat.min_l, !firstn_all2 by lia.
    + by rewrite Nat.min_r by lia.
  - intros x Hx. rewrite (un_get _ _ Hu). apply Hout. by rewrite Hlen.
Qed.

(** Units of a text without NUL. *)
Lemma utf16_units cs : Forall is_scalar cs → 0 ∉ cs → Forall (λ u, 0 < u < 2 ^ 16) (encode_utf16 cs).
Proof.
  induction 1 as [|c cs Hc Hs IH]; intros Hn; [by constructor|]. unfold encode_utf16 in *. rewrite fmap_cons. cbn [concat].
  rewrite not_elem_of_cons in Hn. apply Forall_app. split; [|naive_solver]. unfold is_scalar in Hc. unfold utf16_encode_char.
  case_decide; [constructor; [lia|constructor]|]. repeat constructor; Z.to_euclidean_division_equations; lia.
Qed.

(** A wide string is read back as the text that was written when the buffer takes it, and
    otherwise as what the units that fit say; the count returned is that of the units
    before the terminator. *)
Theorem wide_string_roundtrip e a max n text :
  mem_inv e → 0 < a → (0 < max)%nat → accessible e a (2 * Z.of_nat max) → Forall is_scalar text → 0 ∉ text → (max ≤ n)%nat →
  let units := take (max - 1) (encode_utf16 text) in
  ∃ e1 e2, write_utf16_c_string a max text e = (e1, Ok (length units)) ∧
    read_utf16_lossy a n e1 = (e2, Ok (from_utf16_lossy units)) ∧
    ((length (encode_utf16 text) < max)%nat → from_utf16_lossy units = text).
Proof.
  intros Hi Ha Hm Hacc Hs Hn Hmn units. unfold write_utf16_c_string. rewrite decide_False by lia. cbv zeta. fold units.
  assert (Hul : (length units ≤ max - 1)%nat) by (unfold units; rewrite length_take; lia).
  assert (Hbl : length (unit_bytes (units ++ [0])) = (2 * length units + 2)%nat) by (rewrite unit_bytes_length, length_app; simpl; lia).
  destruct (write_bytes_spec "failed to write UTF-16 units to guest memory" e a (unit_bytes (units ++ [0])) Hi)
    as (e1 & Ew & Hi1 & Hr1 & Hh & _); [rewrite Hbl; by eapply accessible_sub; [exact Hacc|lia..]|].
  destruct (read_utf16_spec e1 a n units Hi1) as (e2 & Er & Hu); [|done| |done|].
  { apply Forall_take. by apply utf16_units. }
  { eapply accessible_sub; [eapply accessible_rw, Hacc; exact Hr1|lia..]. }
  exists e1, e2. split_and!.
  - unfold mbind, M_bind, write_utf16_units. unfold context at 1. by rewrite Ew.
  - rewrite Er. do 3 f_equal. apply firstn_all2. lia.
  - intros Hfit. unfold units. rewrite firstn_all2 by lia. apply from_utf16_encode. done.
Qed.
End Spec.
