(* ===== verification/pe.v ===== *)
(** * PE images (crates/wie-pe/src/lib.rs)

    Identity, map plan and imports of a PE64 file, and its image in memory.  The
    headers are parsed by goblin: [PE] is what the code takes from its result,
    [PE_parse] the parser.  Reading the file is [fs_read]; an [anyhow] error is
    its outermost context. *)

From S2P Require Import Prelude regs insn path utf protect.

(** ** What goblin gives *)

Record DataDirectory := mkDir { dd_virtual_address : u32; dd_size : u32 }.

Record OptionalHeader := mkOptional {
  oh_size_of_image : u32;
  oh_size_of_headers : u32;
  oh_import_table : option DataDirectory;
  oh_export_table : option DataDirectory;
  oh_base_relocation_table : option DataDirectory;
}.

(** [st_name] is [None] where [section.name()] fails. *)
Record SectionTable := mkSection {
  st_name : option str;
  st_virtual_address : u32;
  st_virtual_size : u32;
  st_pointer_to_raw_data : u32;
  st_size_of_raw_data : u32;
  st_characteristics : u32;
}.

Record PE := mkPE {
  is_64 : bool;
  pe_image_base : u64;
  pe_entry : usize;
  optional_header : option OptionalHeader;
  pe_machine : u16;
  pe_sections : list SectionTable;
  pe_library_count : nat;
  pe_import_count : nat;
}.

Definition ctx {A} (text : string) (r : res A) : res A :=
  match r with Err _ => Err (Message text) | r => r end.
Definition ok_ctx {A} (text : string) (o : option A) : res A := ok_or o (Message text).
Definition bail {A} (text : string) : res A := Err (Message text).

(** ** Identities *)

Record PeIdentity := mkIdentity {
  id_path : str;
  id_image_base : u64;
  id_entry_rva : u64;
  id_entry_va : u64;
  id_size_of_image : u64;
  id_size_of_headers : u32;
  id_machine : u16;
  id_is_pe64 : bool;
  id_section_count : nat;
}.

Record ProcessIdentity := mkProcess {
  module_file_name : str;
  module_path : str;
  pi_current_directory : str;
  command_line : str;
}.

(** [Path::file_name] and [to_str], of a Unix path. *)
Definition path_components (p : str) : list str := filter (λ c, c ≠ [] ∧ c ≠ #".") (split fslash p).
Definition bytes_of (s : str) : list u8 := (λ c, Z.of_nat (nat_of_ascii c)) <$> s.
Definition str_of (bs : list u8) : str := (λ b, ascii_of_nat (Z.to_nat b)) <$> bs.
Definition to_str (p : str) : option str := match from_utf8 (bytes_of p) with Some _ => Some p | None => None end.
Definition path_file_name (p : str) : option str :=
  match last (path_components p) with
  | Some c => if decide (c = #"..") then None else Some c
  | None => None
  end.
(** [Path::display]. *)
Definition display (p : str) : str := str_of (utf8_encode (from_utf8_lossy (bytes_of p))).

Definition is_quotable (c : ascii) : bool :=
  bool_decide (c = " "%char) || bool_decide (c = ascii_of_nat 9) || bool_decide (c = quote).
Definition quote_windows_arg (arg : str) : str :=
  let needs_quotes := bool_decide (arg = []) || existsb is_quotable arg in
  if negb needs_quotes then arg
  else [quote] ++ (arg ≫= λ c, if decide (c = quote) then [bslash; c] else [c]) ++ [quote].
Definition build_windows_command_line (argv0 : str) (extra_args : list str) : str :=
  quote_windows_arg argv0 ++ (extra_args ≫= λ arg, " "%char :: quote_windows_arg arg).

Definition process_identity_from_host_path_with_args (host_path : str) (extra_args : list str) : ProcessIdentity :=
  let name := n ← path_file_name host_path; n ← to_str n; if decide (n = []) then None else Some n in
  let module_file_name := default (#"app.exe") name in
  mkProcess module_file_name (#"C:\App\" ++ module_file_name) (#"C:\App")
    (build_windows_command_line module_file_name extra_args).
Definition process_identity_from_host_path (host_path : str) : ProcessIdentity :=
  process_identity_from_host_path_with_args host_path [].

Definition pe_identity_from_parsed (pe : PE) (path : str) : res PeIdentity :=
  if negb (is_64 pe) then bail "expected PE64 image, got PE32"
  else
    let image_base := pe_image_base pe in
    let entry_rva := pe_entry pe in
    entry_va ← ok_ctx "entry point VA overflow" (checked_add image_base entry_rva);
    optional_header ← ok_ctx "PE image has no optional header" (optional_header pe);
    Ok (mkIdentity (display path) image_base entry_rva entry_va (oh_size_of_image optional_header)
          (oh_size_of_headers optional_header) (pe_machine pe) true (length (pe_sections pe))).

(** ** Summaries *)

Record PeImageSummary := mkImageSummary {
  ps_path : str;
  ps_is_pe64 : bool;
  ps_machine : u16;
  ps_image_base : u64;
  ps_entry_rva : u64;
  ps_entry_point_va : u64;
  ps_section_count : nat;
  ps_library_count : nat;
  ps_import_count : nat;
}.
Record PeSectionSummary := mkSectionSummary {
  ss_name : str;
  ss_virtual_address : u32;
  ss_virtual_size : u32;
  ss_pointer_to_raw_data : u32;
  ss_size_of_raw_data : u32;
  ss_virtual_address_va : u64;
}.

(** ** The map plan *)

Definition IMAGE_SCN_MEM_EXECUTE : u32 := 0x20000000.
Definition IMAGE_SCN_MEM_READ : u32 := 0x40000000.
Definition IMAGE_SCN_MEM_WRITE : u32 := 0x80000000.

Record PeSectionMap := mkSectionMap {
  sm_name : str;
  sm_va : u32;
  sm_virtual_size : u32;
  sm_pointer_to_raw_data : u32;
  sm_size_of_raw_data : u32;
  sm_characteristics : u32;
  sm_final_protect : u32;
}.
Record PeMapPlan := mkPlan {
  mp_image_base : u64;
  mp_size_of_image : u64;
  mp_header_size : u32;
  mp_sections : list PeSectionMap;
}.

Definition header_protect : u32 := PAGE_READONLY.
Definition section_va (plan : PeMapPlan) (i : nat) : option u64 :=
  s ← mp_sections plan !! i; checked_add (mp_image_base plan) (sm_va s).

Definition protect_from_section_characteristics (characteristics : u32) : u32 :=
  let x := bool_decide (Z.land characteristics IMAGE_SCN_MEM_EXECUTE ≠ 0) in
  let r := bool_decide (Z.land characteristics IMAGE_SCN_MEM_READ ≠ 0) in
  let w := bool_decide (Z.land characteristics IMAGE_SCN_MEM_WRITE ≠ 0) in
  match r, w, x with
  | _, true, true => PAGE_EXECUTE_READWRITE
  | true, false, true => PAGE_EXECUTE_READ
  | _, true, false => PAGE_READWRITE
  | true, false, false => PAGE_READONLY
  | false, false, true => PAGE_EXECUTE_READ
  | false, false, false => PAGE_NOACCESS
  end.

Definition map_section (section : SectionTable) : res PeSectionMap :=
  name ← ok_ctx "failed to read section name" (st_name section);
  Ok (mkSectionMap name (st_virtual_address section) (st_virtual_size section) (st_pointer_to_raw_data section)
        (st_size_of_raw_data section) (st_characteristics section)
        (protect_from_section_characteristics (st_characteristics section))).
(** A loop that pushes one result per element. *)
Fixpoint try_map {A B} (f : A → res B) (l : list A) : res (list B) :=
  match l with
  | [] => Ok []
  | a :: l => b ← f a; bs ← try_map f l; Ok (b :: bs)
  end.
Definition pe_map_plan_from_parsed (pe : PE) : res PeMapPlan :=
  if negb (is_64 pe) then bail "expected PE64 image, got PE32"
  else
    identity ← pe_identity_from_parsed pe (#"<memory>");
    sections ← try_map map_section (pe_sections pe);
    Ok (mkPlan (id_image_base identity) (id_size_of_image identity) (id_size_of_headers identity) sections).

Definition div_ceil (a b : Z) : Z := if decide (a mod b = 0) then a / b else a / b + 1.
Definition page_align_image_range (rva len size_of_image : u64) : option (u64 * u64) :=
  let PAGE := 0x1000 in
  if decide (len = 0 ∨ size_of_image ≤ rva) then None
  else
    let end_ := Z.min (sat_add rva len) size_of_image in
    let start := rva / PAGE * PAGE in
    let end_aligned := Z.min (sat_mul (div_ceil end_ PAGE) PAGE) (Z.max (sat_mul (div_ceil size_of_image PAGE) PAGE) end_) in
    let img_end := sat_mul (div_ceil size_of_image PAGE) PAGE in
    let end_aligned := Z.min end_aligned img_end in
    if decide (end_aligned ≤ start) then None else Some (start, end_aligned).

(** ** Reading the file *)

Definition get_slice (bytes : list u8) (start end_ : usize) : option (list u8) :=
  if decide (start ≤ end_ ≤ Z.of_nat (length bytes)) then Some (take (Z.to_nat (end_ - start)) (drop (Z.to_nat start) bytes)) else None.
Definition get_from (bytes : list u8) (start : usize) : option (list u8) :=
  if decide (start ≤ Z.of_nat (length bytes)) then Some (drop (Z.to_nat start) bytes) else None.

Definition checked_add_usize (left right : usize) : res usize := ok_ctx "usize addition overflow" (checked_add left right).
Definition read_array (n : Z) (bytes : list u8) (offset : usize) : res (list u8) :=
  end_ ← ok_ctx "read range overflow" (checked_add offset n);
  ok_ctx "read range is outside file" (get_slice bytes offset end_).
Definition pe_read_u16 (bytes : list u8) (offset : usize) : res u16 := raw ← read_array 2 bytes offset; Ok (le_val raw).
Definition pe_read_u32 (bytes : list u8) (offset : usize) : res u32 := raw ← read_array 4 bytes offset; Ok (le_val raw).
Definition pe_read_u64 (bytes : list u8) (offset : usize) : res u64 := raw ← read_array 8 bytes offset; Ok (le_val raw).

Fixpoint section_offset (sections : list SectionTable) (rva : u64) : res usize :=
  match sections with
  | [] => bail "RVA is not inside any section"
  | section :: sections =>
      let section_rva := st_virtual_address section in
      let mapped_size := Z.max (st_virtual_size section) (st_size_of_raw_data section) in
      section_end ← ok_ctx "section RVA range overflow" (checked_add section_rva mapped_size);
      if decide (section_rva ≤ rva < section_end) then
        delta ← ok_ctx "RVA delta underflow" (checked_sub rva section_rva);
        ok_ctx "raw file offset overflow" (checked_add (st_pointer_to_raw_data section) delta)
      else section_offset sections rva
  end.
Definition rva_to_file_offset_u64 (pe : PE) (rva : u64) : res usize := section_offset (pe_sections pe) rva.
Definition rva_to_file_offset (pe : PE) (rva : u32) : res usize := rva_to_file_offset_u64 pe rva.

Definition c_string (tail : list u8) : option (list u8) :=
  end_ ← position (λ byte, bool_decide (byte = 0)) tail; Some (take end_ tail).
Definition read_c_string_at_offset (bytes : list u8) (offset : usize) : res str :=
  tail ← ok_ctx "string offset is outside file" (get_from bytes offset);
  string_bytes ← ok_ctx "unterminated C string" (c_string tail);
  _ ← ok_ctx "C string is not valid UTF-8" (from_utf8 string_bytes);
  Ok (str_of string_bytes).
Definition read_c_string_at_rva (pe : PE) (bytes : list u8) (rva : u32) : res str :=
  offset ← rva_to_file_offset pe rva; read_c_string_at_offset bytes offset.

(** ** Imports *)

Record PeImportSummary := mkImport {
  im_library : str;
  im_name : str;
  im_ordinal : u16;
  im_iat_slot_va : u64;
  im_iat_slot_rva : u64;
  im_hint_name_rva : option u64;
}.

Section Thunks.
Context (pe : PE) (bytes : list u8) (image_base : u64) (library : str) (lookup_thunk_rva first_thunk_rva : u32).

(** One thunk: [None] at the end of the table. *)
Definition read_thunk (index : u64) : res (option PeImportSummary) :=
  lookup_entry_rva ← ok_ctx "lookup thunk RVA overflow" (checked_add lookup_thunk_rva (index * 8));
  lookup_entry_offset ← ctx "failed to map lookup thunk RVA" (rva_to_file_offset_u64 pe lookup_entry_rva);
  thunk_value ← pe_read_u64 bytes lookup_entry_offset;
  if decide (thunk_value = 0) then Ok None
  else
    iat_slot_rva ← ok_ctx "IAT slot RVA overflow" (checked_add first_thunk_rva (index * 8));
    iat_slot_va ← ok_ctx "IAT slot VA overflow" (checked_add image_base iat_slot_rva);
    if decide (Z.land thunk_value (2 ^ 63) ≠ 0) then
      Ok (Some (mkImport library [] (Z.land thunk_value 0xffff) iat_slot_va iat_slot_rva None))
    else if decide (2 ^ 32 ≤ thunk_value) then bail "hint/name RVA does not fit u32"
    else
      hint_name_offset ← ctx "failed to map hint/name RVA" (rva_to_file_offset pe thunk_value);
      hint ← pe_read_u16 bytes hint_name_offset;
      name_offset ← checked_add_usize hint_name_offset 2;
      name ← read_c_string_at_offset bytes name_offset;
      Ok (Some (mkImport library name hint iat_slot_va iat_slot_rva (Some thunk_value))).

(** State: the index and the imports so far. *)
Definition thunk_step (s : u64 * list PeImportSummary) : u64 * list PeImportSummary + res (list PeImportSummary) :=
  let '(index, imports) := s in
  match read_thunk index with
  | Ok (Some i) => inl (index + 1, imports ++ [i])
  | Ok None => inr (Ok imports)
  | Err e => inr (Err e)
  | Abort w => inr (Abort w)
  end.
(** A section ends below 2^33, and a thunk outside of every section is an error. *)
Definition read_import_thunks (imports : list PeImportSummary) : res (list PeImportSummary) :=
  run_loop (fuel_of (2 ^ 31)) thunk_step (0, imports).
End Thunks.

Section Imports.
Context (pe : PE) (bytes : list u8) (image_base : u64).

(** One descriptor: [None] at the end of the directory. *)
Definition read_descriptor (descriptor_rva : u32) (imports : list PeImportSummary) : res (option (list PeImportSummary)) :=
  descriptor_offset ← ctx "failed to map import descriptor RVA" (rva_to_file_offset pe descriptor_rva);
  original_first_thunk ← pe_read_u32 bytes descriptor_offset;
  o4 ← checked_add_usize descriptor_offset 4;
  _ ← pe_read_u32 bytes o4;
  o8 ← checked_add_usize descriptor_offset 8;
  _ ← pe_read_u32 bytes o8;
  o12 ← checked_add_usize descriptor_offset 12;
  name_rva ← pe_read_u32 bytes o12;
  o16 ← checked_add_usize descriptor_offset 16;
  first_thunk ← pe_read_u32 bytes o16;
  if decide (original_first_thunk = 0 ∧ name_rva = 0 ∧ first_thunk = 0) then Ok None
  else
    library ← ctx "failed to read DLL name at RVA" (read_c_string_at_rva pe bytes name_rva);
    let lookup_thunk := if decide (original_first_thunk = 0) then first_thunk else original_first_thunk in
    imports ← read_import_thunks pe bytes image_base library lookup_thunk first_thunk imports;
    Ok (Some imports).

Definition descriptor_step (s : u32 * list PeImportSummary) : u32 * list PeImportSummary + res (list PeImportSummary) :=
  let '(descriptor_rva, imports) := s in
  match read_descriptor descriptor_rva imports with
  | Ok (Some imports) =>
      if decide (descriptor_rva + 20 < 2 ^ 32) then inl (descriptor_rva + 20, imports)
      else inr (bail "import descriptor RVA overflow")
  | Ok None => inr (Ok imports)
  | Err e => inr (Err e)
  | Abort w => inr (Abort w)
  end.
End Imports.

Definition inspect_pe_imports_from_parsed (pe : PE) (bytes : list u8) : res (list PeImportSummary) :=
  if negb (is_64 pe) then bail "expected PE64 image, got PE32"
  else
    import_directory ← ok_ctx "PE image has no import directory" (optional_header pe ≫= oh_import_table);
    if decide (dd_virtual_address import_directory = 0) then Ok []
    else run_loop (fuel_of (2 ^ 32)) (descriptor_step pe bytes (pe_image_base pe)) (dd_virtual_address import_directory, []).

(** ** The image in a buffer *)

Record PeLoadedImageSummary := mkLoaded {
  li_image_base : u64;
  li_entry_rva : u64;
  li_entry_point_va : u64;
  li_image_size : usize;
  li_header_size : usize;
  li_section_count : nat;
}.
Definition loaded_identity (s : PeLoadedImageSummary) (path : str) : PeIdentity :=
  mkIdentity (display path) (li_image_base s) (li_entry_rva s) (li_entry_point_va s) (li_image_size s)
    (if decide (li_header_size s < 2 ^ 32) then li_header_size s else 2 ^ 32 - 1) 0 true (li_section_count s).

Record PePatchedImport := mkPatched {
  pp_library : str;
  pp_name : str;
  pp_iat_slot_va : u64;
  pp_iat_slot_rva : u64;
  pp_fake_target_va : u64;
}.

(** [image.get_mut(start..end)?.copy_from_slice(src)]; [src] has the length of the range. *)
Definition splice (image : list u8) (start : Z) (src : list u8) : list u8 :=
  take (Z.to_nat start) image ++ src ++ drop (Z.to_nat start + length src) image.
Definition copy_into (text : string) (image : list u8) (start : usize) (src : list u8) : res (list u8) :=
  if decide (start + Z.of_nat (length src) ≤ Z.of_nat (length image)) then Ok (splice image start src) else bail text.

Definition copy_section (source image : list u8) (section : SectionTable) : res (list u8) :=
  let raw_offset := st_pointer_to_raw_data section in
  let raw_size := st_size_of_raw_data section in
  let virtual_address := st_virtual_address section in
  let virtual_size := st_virtual_size section in
  let bytes_to_copy := Z.min raw_size (Z.max virtual_size raw_size) in
  if decide (bytes_to_copy = 0) then Ok image
  else
    source_end ← ok_ctx "section source range overflow" (checked_add raw_offset bytes_to_copy);
    _ ← ok_ctx "section image range overflow" (checked_add virtual_address bytes_to_copy);
    source_slice ← ok_ctx "section raw range is outside file" (get_slice source raw_offset source_end);
    copy_into "section virtual range is outside image" image virtual_address source_slice.

Fixpoint copy_sections (source image : list u8) (sections : list SectionTable) : res (list u8) :=
  match sections with
  | [] => Ok image
  | s :: sections => image ← copy_section source image s; copy_sections source image sections
  end.

Definition loaded_summary (identity : PeIdentity) (image_size : usize) : PeLoadedImageSummary :=
  mkLoaded (id_image_base identity) (id_entry_rva identity) (id_entry_va identity) image_size
    (id_size_of_headers identity) (id_section_count identity).

Definition build_loaded_image_from_parsed (pe : PE) (bytes : list u8) : res (list u8 * PeLoadedImageSummary) :=
  if negb (is_64 pe) then bail "expected PE64 image, got PE32"
  else
    identity ← pe_identity_from_parsed pe (#"<memory>");
    let image_size := id_size_of_image identity in
    let header_size := id_size_of_headers identity in
    if decide (Z.of_nat (length bytes) < header_size) then bail "size_of_headers is larger than file size"
    else
      let image := replicate (Z.to_nat image_size) 0 in
      image ← copy_into "failed to slice image headers" image 0 (take (Z.to_nat header_size) bytes);
      image ← copy_sections bytes image (pe_sections pe);
      Ok (image, loaded_summary identity image_size).

(** The number of a u16 as [{}] prints it. *)
Definition import_name (import : PeImportSummary) : str :=
  if decide (im_name import = []) then #"ORDINAL " ++ String.list_ascii_of_string (pretty.pretty (im_ordinal import)) else im_name import.
Definition patched_import (import : PeImportSummary) (fake_target_va : u64) : PePatchedImport :=
  mkPatched (im_library import) (import_name import) (im_iat_slot_va import) (im_iat_slot_rva import) fake_target_va.

(** The resolver is a closure with a state [F] of its own. *)
Section Patch.
Context {F : Type} (fake_target : PeImportSummary → M F u64).

Definition patch_slot (import : PeImportSummary) (image : list u8) : M F (list u8 * PePatchedImport) :=
  fake_target_va ← fake_target import;
  let slot_offset := im_iat_slot_rva import in
  slot_end ← lift (ok_ctx "IAT slot write range overflow" (checked_add slot_offset 8));
  image ← lift (if decide (slot_end ≤ Z.of_nat (length image)) then Ok (splice image slot_offset (le_bytes 8 fake_target_va))
                else bail "IAT slot is outside loaded image");
  mret (image, patched_import import fake_target_va).

Fixpoint patch_loaded_image_imports_with (image : list u8) (imports : list PeImportSummary)
    : M F (list u8 * list PePatchedImport) :=
  match imports with
  | [] => mret (image, [])
  | import :: imports =>
      '(image, p) ← patch_slot import image;
      '(image, patched) ← patch_loaded_image_imports_with image imports;
      mret (image, p :: patched)
  end.

(** ** The image straight into guest memory, through a writer with state [W] *)

Section Direct.
Context {W : Type} (mem_write : u64 → list u8 → M W unit).

Definition on_writer {A} (m : M W A) : M (W * F) A := λ s, let '(w, r) := m s.1 in ((w, s.2), r).
Definition on_target {A} (m : M F A) : M (W * F) A := λ s, let '(f, r) := m s.2 in ((s.1, f), r).
Definition write_ctx (text : string) (va : u64) (bs : list u8) : M (W * F) unit :=
  on_writer (λ w, let '(w, r) := mem_write va bs w in (w, ctx text r)).

Definition write_section (bytes : list u8) (image_base : u64) (section : SectionTable) : M (W * F) unit :=
  let raw_offset := st_pointer_to_raw_data section in
  let raw_size := st_size_of_raw_data section in
  if decide (raw_size = 0) then mret tt
  else
    va ← lift (ok_ctx "section VA overflow" (checked_add image_base (st_virtual_address section)));
    raw_end ← lift (ok_ctx "section source range overflow" (checked_add raw_offset raw_size));
    section_bytes ← lift (ok_ctx "section raw data outside file" (get_slice bytes raw_offset raw_end));
    write_ctx "failed to write section to guest memory" va section_bytes.

Fixpoint write_sections (bytes : list u8) (image_base : u64) (sections : list SectionTable) : M (W * F) unit :=
  match sections with
  | [] => mret tt
  | s :: sections => _ ← write_section bytes image_base s; write_sections bytes image_base sections
  end.

Definition patch_direct (image_base : u64) (import : PeImportSummary) : M (W * F) PePatchedImport :=
  fake_target_va ← on_target (fake_target import);
  slot_va ← lift (ok_ctx "IAT slot VA overflow" (checked_add image_base (im_iat_slot_rva import)));
  _ ← write_ctx "failed to patch IAT slot in guest memory" slot_va (le_bytes 8 fake_target_va);
  mret (patched_import import fake_target_va).

Fixpoint patch_loaded_image_imports_direct (image_base : u64) (imports : list PeImportSummary)
    : M (W * F) (list PePatchedImport) :=
  match imports with
  | [] => mret []
  | import :: imports =>
      p ← patch_direct image_base import;
      patched ← patch_loaded_image_imports_direct image_base imports;
      mret (p :: patched)
  end.

Definition load_pe_direct_from_parsed (pe : PE) (bytes : list u8) (image_base : u64) (image_size : usize)
    : M (W * F) (PeLoadedImageSummary * PeMapPlan * list PePatchedImport) :=
  if negb (is_64 pe) then lift (bail "expected PE64 image, got PE32")
  else
    identity ← lift (pe_identity_from_parsed pe (#"<memory>"));
    map_plan ← lift (pe_map_plan_from_parsed pe);
    let header_size := id_size_of_headers identity in
    if decide (Z.of_nat (length bytes) < header_size) then lift (bail "size_of_headers is larger than file size")
    else
      _ ← write_ctx "failed to write PE headers to guest memory" image_base (take (Z.to_nat header_size) bytes);
      _ ← write_sections bytes image_base (pe_sections pe);
      imports ← lift (inspect_pe_imports_from_parsed pe bytes);
      patched ← patch_loaded_image_imports_direct image_base imports;
      mret (loaded_summary identity image_size, map_plan, patched).
End Direct.
End Patch.

(** ** From bytes, and from a file *)

Section Parsed.
Context (PE_parse : list u8 → res PE).

Definition parse (bytes : list u8) : res PE := ctx "failed to parse PE image" (PE_parse bytes).

Definition pe_identity_from_bytes (path : str) (bytes : list u8) : res PeIdentity :=
  pe ← parse bytes; pe_identity_from_parsed pe path.
Definition pe_map_plan_from_bytes (bytes : list u8) : res PeMapPlan := pe ← parse bytes; pe_map_plan_from_parsed pe.
Definition inspect_pe_imports_bytes (bytes : list u8) : res (list PeImportSummary) :=
  pe ← parse bytes; inspect_pe_imports_from_parsed pe bytes.
Definition build_loaded_image_bytes (bytes : list u8) : res (list u8 * PeLoadedImageSummary) :=
  pe ← parse bytes; build_loaded_image_from_parsed pe bytes.
Definition load_pe_direct_from_bytes {F W} (bytes : list u8) (image_base : u64) (image_size : usize)
    (mem_write : u64 → list u8 → M W unit) (fake_target : PeImportSummary → M F u64)
    : M (W * F) (PeLoadedImageSummary * PeMapPlan * list PePatchedImport) :=
  pe ← lift (parse bytes); load_pe_direct_from_parsed fake_target mem_write pe bytes image_base image_size.

Definition inspect_pe_bytes (path : str) (bytes : list u8) : res PeImageSummary :=
  pe ← parse bytes;
  if negb (is_64 pe) then bail "expected PE64 image, got PE32"
  else
    identity ← pe_identity_from_bytes path bytes;
    Ok (mkImageSummary (id_path identity) (id_is_pe64 identity) (id_machine identity) (id_image_base identity)
          (id_entry_rva identity) (id_entry_va identity) (id_section_count identity) (pe_library_count pe) (pe_import_count pe)).

Definition summarize_section (image_base : u64) (section : SectionTable) : res PeSectionSummary :=
  name ← ok_ctx "failed to read section name" (st_name section);
  virtual_address_va ← ok_ctx "section VA overflow" (checked_add image_base (st_virtual_address section));
  Ok (mkSectionSummary name (st_virtual_address section) (st_virtual_size section) (st_pointer_to_raw_data section)
        (st_size_of_raw_data section) virtual_address_va).
Definition inspect_pe_sections_bytes (bytes : list u8) : res (list PeSectionSummary) :=
  pe ← parse bytes;
  if negb (is_64 pe) then bail "expected PE64 image, got PE32" else try_map (summarize_section (pe_image_base pe)) (pe_sections pe).

Context (fs_read : str → res (list u8)).

Definition read_pe_file (path : str) : res (list u8) := ctx "failed to read PE file" (fs_read path).
Definition pe_identity_from_file (path : str) : res PeIdentity := bytes ← read_pe_file path; pe_identity_from_bytes path bytes.
Definition pe_map_plan_from_file (path : str) : res PeMapPlan := bytes ← read_pe_file path; pe_map_plan_from_bytes bytes.
Definition inspect_pe_file (path : str) : res PeImageSummary := bytes ← read_pe_file path; inspect_pe_bytes path bytes.
Definition inspect_pe_sections (path : str) : res (list PeSectionSummary) := bytes ← read_pe_file path; inspect_pe_sections_bytes bytes.
Definition inspect_pe_imports (path : str) : res (list PeImportSummary) := bytes ← read_pe_file path; inspect_pe_imports_bytes bytes.
Definition build_loaded_image (path : str) : res (list u8 * PeLoadedImageSummary) := bytes ← read_pe_file path; build_loaded_image_bytes bytes.

Definition build_loaded_image_with_fake_imports_with {F} (path : str) (fake_target : PeImportSummary → M F u64)
    : M F (list u8 * PeLoadedImageSummary * list PePatchedImport) :=
  bytes ← lift (read_pe_file path);
  pe ← lift (parse bytes);
  '(image, summary) ← lift (build_loaded_image_from_parsed pe bytes);
  imports ← lift (inspect_pe_imports_from_parsed pe bytes);
  '(image, patched) ← patch_loaded_image_imports_with fake_target image imports;
  mret (image, summary, patched).
Definition load_pe_direct {F W} (path : str) (image_base : u64) (image_size : usize)
    (mem_write : u64 → list u8 → M W unit) (fake_target : PeImportSummary → M F u64)
    : M (W * F) (PeLoadedImageSummary * PeMapPlan * list PePatchedImport) :=
  bytes ← lift (read_pe_file path); load_pe_direct_from_bytes bytes image_base image_size mem_write fake_target.
End Parsed.
