(* ===== verification/pe_spec.v ===== *)
(** * Loading PE images

    The image written straight into guest memory is the image built in a buffer;
    reading imports ends; page ranges and protections of the map plan. *)

From S2P Require Import Prelude regs insn path utf protect engine pe.

(** ** Ranges of the parsed headers *)

Record section_ok (s : SectionTable) : Prop := {
  so_va : 0 ≤ st_virtual_address s < 2 ^ 32;
  so_vs : 0 ≤ st_virtual_size s < 2 ^ 32;
  so_raw : 0 ≤ st_pointer_to_raw_data s < 2 ^ 32;
  so_rs : 0 ≤ st_size_of_raw_data s < 2 ^ 32;
}.
Record pe_ok (pe : PE) : Prop := {
  po_base : in_u64 (pe_image_base pe);
  po_entry : in_u64 (pe_entry pe);
  po_sections : Forall section_ok (pe_sections pe);
  po_header : ∀ h, optional_header pe = Some h → 0 ≤ oh_size_of_image h < 2 ^ 32 ∧ 0 ≤ oh_size_of_headers h < 2 ^ 32 ∧
    ∀ d, oh_import_table h = Some d → 0 ≤ dd_virtual_address d < 2 ^ 32;
}.

Lemma ok_ctx_Ok {A} text (o : option A) a : ok_ctx text o = Ok a ↔ o = Some a.
Proof. unfold ok_ctx, ok_or. destruct o; naive_solver. Qed.
Lemma get_slice_Some bytes start end_ bs :
  get_slice bytes start end_ = Some bs → start ≤ end_ ≤ Z.of_nat (length bytes) ∧
    (0 ≤ start → Z.of_nat (length bs) = end_ - start).
Proof. unfold get_slice. case_decide; [|done]. intros [= <-]. split; [done|]. intros Hs. rewrite length_take, length_drop. lia. Qed.

Section Direct.
Context {E : Type} `{CpuMemLaws E} {F : Type} (fake_target : PeImportSummary → M F u64).
Context (b : u64).

(** [copy_section] copies what [write_section] writes. *)
Lemma copy_section_written bytes image image' s e f :
  section_ok s → mirrors e b image → copy_section bytes image s = Ok image' →
  ∃ e', write_section (F := F) mem_write bytes b s (e, f) = ((e', f), Ok tt) ∧ mirrors e' b image'.
Proof.
  intros [Hva Hvs Hraw Hrs] Hm. unfold copy_section, write_section. rewrite Z.min_l by lia.
  destruct (decide (st_size_of_raw_data s = 0)) as [E0|E0].
  { intros [= <-]. exists e. done. }
  unfold mbind, res_bind, M_bind.
  destruct (ok_ctx _ (checked_add (st_pointer_to_raw_data s) _)) as [send| |] eqn:E1; [|done..]. simpl.
  destruct (ok_ctx _ (checked_add (st_virtual_address s) _)) as [iend| |] eqn:E2; [|done..].
  destruct (ok_ctx _ (get_slice _ _ _)) as [src| |] eqn:E3; [|done..]. apply ok_ctx_Ok in E1, E3.
  unfold copy_into. case_decide as Hfit; [|done]. intros [= <-]. destruct (get_slice_Some _ _ _ _ E3) as [Hse Hlen].
  apply checked_add_Some in E1 as [-> _]. destruct (mi_acc _ _ _ Hm) as (Hb & Hlim & _).
  assert (Hck : checked_add b (st_virtual_address s) = Some (b + st_virtual_address s)) by (apply checked_add_Some; lia).
  destruct (mem_write_mirrors e b image (st_virtual_address s) src Hm) as (e' & Ew & Hm' & _); [lia|done|].
  exists e'. split; [|done]. unfold lift, ok_ctx, ok_or. rewrite Hck, E3.
  unfold write_ctx, on_writer. cbn [fst snd]. by rewrite Ew.
Qed.

Lemma copy_sections_written bytes ss : ∀ image image' e f,
  Forall section_ok ss → mirrors e b image → copy_sections bytes image ss = Ok image' →
  ∃ e', write_sections (F := F) mem_write bytes b ss (e, f) = ((e', f), Ok tt) ∧ mirrors e' b image'.
Proof.
  induction ss as [|s ss IH]; intros image image' e f Hss Hm; cbn [copy_sections write_sections].
  - intros [= <-]. exists e. done.
  - apply Forall_cons in Hss as [Hs Hss]. unfold mbind at 1, res_bind at 1.
    destruct (copy_section bytes image s) as [image1| |] eqn:E1; [|done..]. intros E2.
    destruct (copy_section_written bytes image image1 s e f Hs Hm E1) as (e1 & Ew & Hm1).
    destruct (IH image1 image' e1 f Hss Hm1 E2) as (e2 & Ew2 & Hm2). exists e2. split; [|done].
    unfold mbind, M_bind. by rewrite Ew.
Qed.

Lemma patches_written imports : ∀ image image' patched e f f',
  Forall (λ i, 0 ≤ im_iat_slot_rva i) imports → mirrors e b image →
  patch_loaded_image_imports_with fake_target image imports f = (f', Ok (image', patched)) →
  ∃ e', patch_loaded_image_imports_direct fake_target mem_write b imports (e, f) = ((e', f'), Ok patched) ∧ mirrors e' b image'.
Proof.
  induction imports as [|i imports IH]; intros image image' patched e f f' Hi Hm;
    cbn [patch_loaded_image_imports_with patch_loaded_image_imports_direct].
  - intros [= <- <- <-]. exists e. done.
  - apply Forall_cons in Hi as [Hi0 Hi]. unfold mbind at 1, M_bind at 1, patch_slot. unfold mbind at 1, M_bind at 1.
    destruct (fake_target i f) as [f1 [t| |]] eqn:Et; [|done..]. unfold lift. unfold mbind at 1, M_bind at 1.
    destruct (ok_ctx _ (checked_add (im_iat_slot_rva i) 8)) as [send| |] eqn:E1; [|done..]. apply ok_ctx_Ok, checked_add_Some in E1 as [-> Hs].
    unfold mbind at 1, M_bind at 1. case_decide as Hfit; [|done]. unfold mret, M_ret. unfold mbind at 1, M_bind at 1.
    destruct (patch_loaded_image_imports_with fake_target _ imports f1) as [f2 [[image2 patched2]| |]] eqn:E2; [|done..].
    intros [= <- <- <-]. destruct (mi_acc _ _ _ Hm) as (Hb & Hlim & _).
    destruct (mem_write_mirrors e b image (im_iat_slot_rva i) (le_bytes 8 t) Hm) as (e1 & Ew & Hm1 & _);
      [done|by rewrite length_le_bytes; lia|].
    destruct (IH _ _ _ e1 f1 f2 Hi Hm1 E2) as (e2 & Ed & Hm2). exists e2. split; [|done].
    unfold mbind, M_bind, patch_direct. unfold mbind, M_bind, on_target. cbn [fst snd]. rewrite Et. unfold lift.
    rewrite (proj2 (checked_add_Some b (im_iat_slot_rva i) (b + im_iat_slot_rva i))) by (split; [done|lia]).
    unfold ok_ctx, ok_or, write_ctx, on_writer. cbn [fst snd]. rewrite Ew. cbn [ctx]. unfold mret, M_ret. by rewrite Ed.
Qed.
End Direct.

(** ** Reading imports ends *)

(** [P] of every result; no abort. *)
Definition res_post {A} (P : A → Prop) (r : res A) : Prop :=
  match r with Ok a => P a | Err _ => True | Abort _ => False end.

Lemma res_post_bind {A B} (P : A → Prop) (Q : B → Prop) (r : res A) (f : A → res B) :
  res_post P r → (∀ a, P a → res_post Q (f a)) → res_post Q (r ≫= f).
Proof. intros Hr Hf. destruct r; [by apply Hf|done|done]. Qed.
Lemma res_post_ctx {A} (P : A → Prop) text (r : res A) : res_post P r → res_post P (ctx text r).
Proof. by destruct r. Qed.
Lemma res_post_ok_ctx {A} (P : A → Prop) text (o : option A) : (∀ a, o = Some a → P a) → res_post P (ok_ctx text o).
Proof. intros Ho. destruct o; [by apply Ho|done]. Qed.
Lemma res_post_add text a b : res_post (λ c, c = a + b ∧ a + b < u64_lim) (ok_ctx text (checked_add a b)).
Proof. apply res_post_ok_ctx. intros c Hc. by apply checked_add_Some in Hc. Qed.
Lemma res_post_mono {A} (P Q : A → Prop) r : res_post P r → (∀ a, P a → Q a) → res_post Q r.
Proof. intros Hr Hi. destruct r; [by apply Hi|done|done]. Qed.

Section Imports.
Context (pe : PE) (bytes : list u8).
Context (Hpe : pe_ok pe) (Hbytes : Forall is_byte bytes).

Lemma section_offset_post sections rva :
  Forall section_ok sections → res_post (λ off, rva < 2 ^ 33 ∧ 0 ≤ off) (section_offset sections rva).
Proof.
  induction 1 as [|s ss [Hva Hvs Hraw Hrs] Hss IH]; [done|]. cbn [section_offset].
  eapply res_post_bind; [apply res_post_add|]. intros send Hend. simpl in Hend.
  case_decide; [|exact IH]. unfold checked_sub.
  eapply res_post_bind; [apply (res_post_ok_ctx (λ d, 0 ≤ d)); intros d; case_decide; [intros [= <-]; lia|done]|].
  intros d Hd. simpl in Hd. apply res_post_ok_ctx. intros off [-> Ho]%checked_add_Some. lia.
Qed.
Lemma rva_post rva : res_post (λ off, rva < 2 ^ 33 ∧ 0 ≤ off) (rva_to_file_offset_u64 pe rva).
Proof. apply section_offset_post, (po_sections _ Hpe). Qed.

Lemma read_array_post n off : res_post (λ raw, Forall is_byte raw ∧ (0 ≤ off → 0 ≤ n → Z.of_nat (length raw) = n)) (read_array n bytes off).
Proof.
  unfold read_array. eapply res_post_bind; [apply res_post_add|]. intros e [-> _].
  apply res_post_ok_ctx. intros raw Hr. apply get_slice_Some in Hr as Hl. unfold get_slice in Hr. case_decide; [|done].
  injection Hr as <-. split; [by apply Forall_take, Forall_drop|]. intros. destruct Hl as [_ Hl]. rewrite Hl by done. lia.
Qed.
Lemma read_word_post n off : 0 ≤ off → 0 ≤ n → res_post (λ v, 0 ≤ v < 256 ^ n) (raw ← read_array n bytes off; Ok (le_val raw)).
Proof.
  intros Ho Hn. eapply res_post_bind; [apply read_array_post|]. intros raw [Hb Hl]. simpl. pose proof (le_val_bound raw Hb) as Hv.
  by rewrite Hl in Hv by done.
Qed.
Lemma c_string_post off : res_post (λ _, True) (read_c_string_at_offset bytes off).
Proof.
  unfold read_c_string_at_offset.
  eapply (res_post_bind (λ _, True)); [by apply res_post_ok_ctx|]. intros tail _.
  eapply (res_post_bind (λ _, True)); [by apply res_post_ok_ctx|]. intros sb _.
  eapply (res_post_bind (λ _, True)); [by apply res_post_ok_ctx|]. done.
Qed.

Context (image_base : u64).

Definition import_ok (i : PeImportSummary) : Prop := 0 ≤ im_iat_slot_rva i ∧ im_iat_slot_va i = image_base + im_iat_slot_rva i.

Lemma read_thunk_post library lookup first index :
  0 ≤ lookup → 0 ≤ first → 0 ≤ index →
  res_post (λ o, ∀ i, o = Some i → import_ok i ∧ index < 2 ^ 30) (read_thunk pe bytes image_base library lookup first index).
Proof.
  intros Hl Hf Hi. unfold read_thunk. eapply res_post_bind; [apply res_post_ok_ctx; intros ? Ha; exact Ha|].
  intros lrva [-> _]%checked_add_Some. eapply res_post_bind; [apply res_post_ctx, rva_post|]. intros off [Hr Ho].
  eapply res_post_bind; [apply read_word_post; lia|]. intros v Hv. case_decide; [done|].
  eapply res_post_bind; [apply res_post_add|]. intros srva [-> _].
  eapply res_post_bind; [apply res_post_add|]. intros sva [-> _].
  assert (Hidx : index < 2 ^ 30) by lia.
  case_decide; [intros i [= <-]; split; [split; [simpl; lia|done]|done]|]. case_decide; [done|].
  eapply res_post_bind; [apply res_post_ctx, rva_post|]. intros hoff [_ Hho].
  eapply res_post_bind; [apply read_word_post; lia|]. intros hint _.
  eapply res_post_bind; [apply res_post_add|]. intros noff _.
  eapply res_post_bind; [apply c_string_post|]. intros name _ i [= <-]. split; [split; [simpl; lia|done]|done].
Qed.

Lemma read_import_thunks_post library lookup first imports :
  0 ≤ lookup → 0 ≤ first → Forall import_ok imports →
  res_post (Forall import_ok) (read_import_thunks pe bytes image_base library lookup first imports).
Proof.
  intros Hl Hf Him. unfold read_import_thunks.
  apply (run_loop_rule _ (λ s, 0 ≤ s.1 ≤ 2 ^ 30 ∧ Forall import_ok s.2) _ (λ s, 2 ^ 30 - s.1));
    [|split; [simpl; lia|done]|unfold fuel_of; simpl; lia].
  intros [index is'] [Hi His]. unfold thunk_step. simpl in Hi, His.
  pose proof (read_thunk_post library lookup first index Hl Hf (proj1 Hi)) as Hp.
  destruct (read_thunk _ _ _ _ _ _ _) as [[i|]|e|w]; [|done..]. cbn [fst snd]. destruct (Hp i eq_refl) as [Hok Hlt].
  split; [|lia]. split; [lia|]. apply Forall_app. by split; [|constructor].
Qed.

Lemma read_descriptor_post rva imports :
  Forall import_ok imports → res_post (λ o, ∀ l, o = Some l → Forall import_ok l) (read_descriptor pe bytes image_base rva imports).
Proof.
  intros Him. unfold read_descriptor. eapply res_post_bind; [apply res_post_ctx, rva_post|]. intros off [_ Ho].
  eapply res_post_bind; [apply read_word_post; lia|]. intros oft Hoft.
  do 2 (eapply res_post_bind; [apply res_post_add|]; intros ? [-> _];
    eapply res_post_bind; [apply read_word_post; lia|]; intros ? _).
  eapply res_post_bind; [apply res_post_add|]. intros ? [-> _].
  eapply res_post_bind; [apply read_word_post; lia|]. intros name_rva _.
  eapply res_post_bind; [apply res_post_add|]. intros ? [-> _].
  eapply res_post_bind; [apply read_word_post; lia|]. intros ft Hft. case_decide; [done|].
  eapply (res_post_bind (λ _, True)).
  { apply res_post_ctx. unfold read_c_string_at_rva. eapply res_post_bind; [apply rva_post|]. intros ? _. apply c_string_post. }
  intros library _. cbn beta in *. eapply res_post_bind; [apply read_import_thunks_post; [case_decide; lia|lia|done]|].
  intros l Hl l' [= <-]. done.
Qed.
End Imports.

Lemma inspect_imports_post pe bytes :
  pe_ok pe → Forall is_byte bytes → res_post (Forall (import_ok (pe_image_base pe))) (inspect_pe_imports_from_parsed pe bytes).
Proof.
  intros Hpe Hb. unfold inspect_pe_imports_from_parsed. destruct (is_64 pe); [|done]. cbn [negb].
  eapply res_post_bind; [apply res_post_ok_ctx; intros a Ha; exact Ha|]. intros d Hd.
  destruct (optional_header pe) as [h|] eqn:Eh; [|done]. simpl in Hd. destruct (po_header _ Hpe h Eh) as (_ & _ & Hdir).
  specialize (Hdir d Hd). case_decide; [by constructor|].
  apply (run_loop_rule _ (λ s, 0 ≤ s.1 < 2 ^ 32 ∧ Forall (import_ok (pe_image_base pe)) s.2) _ (λ s, 2 ^ 32 - s.1));
    [|split; [simpl; lia|constructor]|unfold fuel_of; simpl; lia].
  intros [rva is'] [Hi His]. unfold descriptor_step. simpl in Hi, His.
  pose proof (read_descriptor_post pe bytes Hpe Hb (pe_image_base pe) rva is' His) as Hp.
  destruct (read_descriptor _ _ _ _ _) as [[l|]|e|w]; [|done..]. case_decide; [|done]. cbn [fst snd]. simpl in Hp.
  split; [|lia]. split; [lia|]. by apply Hp.
Qed.

(** Reading the imports of any file ends, in a list or an error, even where descriptors
    and thunks run on without a terminator; every slot found lies in the image at its RVA. *)
Theorem imports_end pe bytes :
  pe_ok pe → Forall is_byte bytes →
  (∃ e, inspect_pe_imports_from_parsed pe bytes = Err e) ∨
  (∃ l, inspect_pe_imports_from_parsed pe bytes = Ok l ∧
     Forall (λ i, 0 ≤ im_iat_slot_rva i ∧ im_iat_slot_va i = pe_image_base pe + im_iat_slot_rva i) l).
Proof.
  intros Hpe Hb. pose proof (inspect_imports_post pe bytes Hpe Hb) as Hp.
  destruct (inspect_pe_imports_from_parsed pe bytes) as [l|e|w]; [right|left|done]; eauto.
Qed.

(** C18 Loading straight into guest memory gives the image that is built in a buffer: over zeroed
    memory of the size of the image, when the image can be built and its imports patched, the direct
    loader asks the resolver the same questions, returns the same summary and patches, and leaves
    the patched image in memory, byte for byte. *)
Theorem load_direct_is_image {E} `{CpuMemLaws E} {F} (fake_target : PeImportSummary → M F u64)
    pe bytes base e f f' image summary imports image' patched plan :
  pe_ok pe → Forall is_byte bytes →
  build_loaded_image_from_parsed pe bytes = Ok (image, summary) →
  inspect_pe_imports_from_parsed pe bytes = Ok imports →
  patch_loaded_image_imports_with fake_target image imports f = (f', Ok (image', patched)) →
  pe_map_plan_from_parsed pe = Ok plan →
  mirrors e base (replicate (Z.to_nat (li_image_size summary)) 0) →
  ∃ e', load_pe_direct_from_parsed fake_target mem_write pe bytes base (li_image_size summary) (e, f) =
      ((e', f'), Ok (summary, plan, patched)) ∧ mirrors e' base image'.
Proof.
  intros Hpe Hbytes Hb Hi Hp Hplan Hm. pose proof (inspect_imports_post pe bytes Hpe Hbytes) as Hok. rewrite Hi in Hok.
  unfold build_loaded_image_from_parsed in Hb. destruct (is_64 pe) eqn:E64; [|done]. cbn [negb] in Hb.
  unfold mbind at 1, res_bind at 1 in Hb. destruct (pe_identity_from_parsed pe _) as [id| |] eqn:Eid; [|done..]. cbv zeta in Hb.
  destruct (decide (Z.of_nat (length bytes) < id_size_of_headers id)) as [Hh|Hh]; [done|]. unfold mbind, res_bind in Hb.
  destruct (copy_into _ _ _ _) as [image0| |] eqn:Eh; [|done..].
  destruct (copy_sections bytes image0 _) as [image1| |] eqn:Es; [|done..]. injection Hb as -> <-.
  unfold copy_into in Eh. case_decide as Hfit; [|done]. injection Eh as <-. simpl in Hm.
  destruct (mem_write_mirrors e base _ 0 (take (Z.to_nat (id_size_of_headers id)) bytes) Hm) as (e1 & Ew & Hm1 & _); [lia|lia|].
  rewrite Z.add_0_r in Ew.
  destruct (copy_sections_written base bytes (pe_sections pe) _ image e1 f (po_sections _ Hpe) Hm1 Es) as (e2 & Ew2 & Hm2).
  destruct (patches_written fake_target base imports image image' patched e2 f f') as (e3 & Ew3 & Hm3); [|done|done|].
  { eapply Forall_impl; [exact Hok|]. by intros i [Hr _]. }
  exists e3. split; [|done]. unfold load_pe_direct_from_parsed. rewrite E64. cbn [negb]. unfold mbind, M_bind, lift at 1.
  rewrite Eid. unfold lift at 1. rewrite Hplan. cbv zeta. rewrite decide_False by done.
  unfold write_ctx at 1, on_writer at 1. cbn [fst snd]. rewrite Ew. cbn [ctx]. rewrite Ew2. unfold lift. rewrite Hi, Ew3. done.
Qed.

(** ** The map plan *)

Lemma div_ceil_spec a : 0 ≤ a → a ≤ div_ceil a 4096 * 4096 < a + 4096.
Proof.
  intros Ha. unfold div_ceil. pose proof (Z.div_mod a 4096 ltac:(lia)). pose proof (Z.mod_pos_bound a 4096 ltac:(lia)).
  case_decide; lia.
Qed.

(** The pages of a header or section: whole pages that contain the span as far as it lies in the
    image, no page that it does not touch, and none past the page the image ends in. *)
Theorem page_align_image_range_spec rva len size :
  0 ≤ rva < 2 ^ 32 → 0 ≤ len < 2 ^ 32 → 0 ≤ size < 2 ^ 32 →
  match page_align_image_range rva len size with
  | None => len = 0 ∨ size ≤ rva
  | Some (start, end_) =>
      start mod 4096 = 0 ∧ end_ mod 4096 = 0 ∧ start ≤ rva ∧ rva < start + 4096 ∧
      Z.min (rva + len) size ≤ end_ < Z.min (rva + len) size + 4096 ∧ end_ < size + 4096
  end.
Proof.
  intros Hr Hl Hs. unfold page_align_image_range. cbv zeta. case_decide as Hn; [tauto|].
  rewrite (sat_add_lt rva) by lia. set (e := Z.min (rva + len) size).
  pose proof (div_ceil_spec e ltac:(lia)) as He. pose proof (div_ceil_spec size ltac:(lia)) as Hsz.
  rewrite !sat_mul_lt by lia. assert (Hle : div_ceil e 4096 * 4096 ≤ div_ceil size 4096 * 4096).
  { apply Z.mul_le_mono_nonneg_r; [lia|]. assert (e ≤ size) by lia. clear -He Hsz. nia. }
  rewrite !Z.min_l by lia. pose proof (Z.div_mod rva 4096 ltac:(lia)). pose proof (Z.mod_pos_bound rva 4096 ltac:(lia)).
  case_decide as Hlt; [lia|]. split_and!; try lia; by apply Z.mod_mul.
Qed.

(** The final protection of a section allows what its characteristics ask for: writing exactly
    with the write bit, fetching exactly with the execute bit, and reading with any of the three. *)
Theorem section_protect_spec c :
  let p := protect_from_section_characteristics c in
  let bit b := negb (bool_decide (Z.land c b = 0)) in
  allows_write p = bit IMAGE_SCN_MEM_WRITE ∧ allows_execute p = bit IMAGE_SCN_MEM_EXECUTE ∧
  allows_read p = bit IMAGE_SCN_MEM_READ || bit IMAGE_SCN_MEM_WRITE || bit IMAGE_SCN_MEM_EXECUTE.
Proof.
  unfold protect_from_section_characteristics. cbv zeta. rewrite !bool_decide_not.
  by repeat case_bool_decide; vm_compute.
Qed.

(** ** Command lines *)

Definition is_blank (c : ascii) : bool := bool_decide (c = " "%char) || bool_decide (c = ascii_of_nat 9).

(** The documented reading of a command line by CommandLineToArgvW: blanks separate, quotes group,
    backslashes count only before a quote, where pairs are halved and an odd one escapes it. *)
Fixpoint parse_args (in_quotes started : bool) (backslashes : nat) (cur s : str) : list str :=
  match s with
  | [] => if started then [cur ++ replicate backslashes bslash] else []
  | c :: s =>
      if decide (c = bslash) then parse_args in_quotes true (S backslashes) cur s
      else if decide (c = quote) then
        let cur := cur ++ replicate (backslashes / 2) bslash in
        if Nat.even backslashes then parse_args (negb in_quotes) true 0 cur s else parse_args in_quotes true 0 (cur ++ [quote]) s
      else if is_blank c && negb in_quotes then
        (if started then [cur ++ replicate backslashes bslash] else []) ++ parse_args false false 0 [] s
      else parse_args in_quotes true 0 (cur ++ replicate backslashes bslash ++ [c]) s
  end.

Definition escaped (arg : str) : str := arg ≫= λ c, if decide (c = quote) then [bslash; c] else [c].

Lemma parse_plain arg : ∀ started cur rest,
  bslash ∉ arg → existsb is_quotable arg = false →
  parse_args false started 0 cur (arg ++ rest) = parse_args false (started || negb (bool_decide (arg = []))) 0 (cur ++ arg) rest.
Proof.
  induction arg as [|c arg IH]; intros started cur rest Hb Hq.
  - by rewrite app_nil_r, bool_decide_eq_true_2, orb_false_r.
  - rewrite not_elem_of_cons in Hb. cbn [existsb] in Hq. apply orb_false_iff in Hq as [Hc Hq].
    unfold is_quotable in Hc. rewrite !orb_false_iff, !bool_decide_eq_false in Hc. destruct Hc as [[H1 H2] H3].
    cbn [app parse_args]. rewrite decide_False by naive_solver. rewrite decide_False by done. unfold is_blank.
    rewrite !bool_decide_eq_false_2 by done. cbn [orb andb replicate app]. rewrite IH by naive_solver.
    rewrite <- app_assoc. by rewrite orb_true_r.
Qed.

Lemma parse_escaped arg : ∀ cur rest,
  bslash ∉ arg → parse_args true true 0 cur (escaped arg ++ quote :: rest) = parse_args false true 0 (cur ++ arg) rest.
Proof.
  induction arg as [|c arg IH]; intros cur rest Hb.
  - cbn. by rewrite !app_nil_r.
  - rewrite not_elem_of_cons in Hb. destruct Hb as [Hc Hb]. unfold escaped in *. cbn [mbind list_bind]. destruct (decide (c = quote)) as [->|Hq].
    + cbn [app]. cbn [parse_args]. rewrite decide_True by done. cbn [parse_args]. rewrite decide_False by done.
      rewrite decide_True by done. cbn [Nat.even]. change (1 / 2)%nat with 0%nat. cbn [replicate]. rewrite app_nil_r.
      rewrite IH by done. by rewrite <- app_assoc.
    + cbn [app]. cbn [parse_args]. rewrite decide_False by done. rewrite decide_False by done. cbn [negb replicate app].
      rewrite andb_false_r. rewrite IH by done. by rewrite <- app_assoc.
Qed.

Lemma parse_quoted arg rest :
  bslash ∉ arg → parse_args false false 0 [] (quote_windows_arg arg ++ rest) = parse_args false true 0 arg rest.
Proof.
  intros Hb. unfold quote_windows_arg. cbv zeta. destruct (bool_decide (arg = []) || existsb is_quotable arg) eqn:Eq; cbn [negb].
  - cbn [app]. rewrite <- app_assoc. cbn [parse_args]. rewrite decide_False by done. rewrite decide_True by done.
    cbn [Nat.even negb]. change (0 / 2)%nat with 0%nat. apply (parse_escaped arg [] rest Hb).
  - apply orb_false_iff in Eq as [En Eq]. rewrite parse_plain by done. by rewrite En.
Qed.

(** Arguments without backslashes, empty ones and ones with blanks and quotes included, are read off the
    command line as they were put on it. *)
Theorem command_line_roundtrip argv0 args :
  Forall (λ a, bslash ∉ a) args →
  ∃ tail, build_windows_command_line argv0 args = quote_windows_arg argv0 ++ tail ∧ parse_args false false 0 [] tail = args.
Proof.
  intros Hargs. unfold build_windows_command_line. eexists. split; [reflexivity|].
  assert (Hgo : ∀ cur, parse_args false true 0 cur (args ≫= λ arg, " "%char :: quote_windows_arg arg) = cur :: args).
  { induction Hargs as [|a args Ha _ IH]; intros cur; cbn [mbind list_bind]; [cbn; by rewrite app_nil_r|].
    cbn [app]. cbn [parse_args]. rewrite decide_False by done. rewrite decide_False by done. cbn [is_blank andb negb].
    change (is_blank " ") with true. cbn [andb replicate]. rewrite app_nil_r. cbn [app]. f_equal. rewrite parse_quoted by done. apply IH. }
  destruct Hargs as [|a args Ha Hargs]; [done|]. cbn [mbind list_bind app]. cbn [parse_args]. rewrite decide_False by done.
  rewrite decide_False by done. change (is_blank " ") with true. cbn [andb negb app]. rewrite parse_quoted by done.
  specialize (Hgo []). cbn [mbind list_bind app] in Hgo. cbn [parse_args] in Hgo. rewrite decide_False in Hgo by done.
  rewrite decide_False in Hgo by done. change (is_blank " ") with true in Hgo. cbn [andb negb app replicate] in Hgo.
  injection Hgo as Hgo. rewrite parse_quoted in Hgo by done. exact Hgo.
Qed.

(** A backslash before the closing quote escapes it: the next argument is swallowed. *)
Lemma trailing_backslash_swallows :
  parse_args false false 0 [] (build_windows_command_line (#"a b\") [ #"c"]) = [ #"a b" ++ quote :: #" c"].
Proof. vm_compute. reflexivity. Qed.
