(* ===== verification/cpu.v ===== *)
(** * The engine as the WinAPI and the loader see it (crates/wie-cpu/src/lib.rs)

    The [CpuEngine] trait beyond the two memory methods of [CpuMem]: [CpuMap] maps
    and protects pages, [CpuRegs] reads and writes the registers the calling
    convention uses.  The interpreter engine implements both, and keeps the laws
    of [CpuMem] and [CpuRegs]. *)

From S2P Require Import Prelude protect pagemap vad arena region mem mem_access mem_ops mem_safe.
From S2P Require Import engine regs insn exec exec_string exec_sse exec_one iced_cpu.

(** ** Interfaces *)

Class CpuMap (E : Type) := {
  mem_map : u64 → usize → u32 → M E unit;
  mem_map_image : u64 → usize → u32 → M E unit;
  virtual_alloc : u64 → usize → u32 → u32 → M E u64;
  virtual_free : u64 → usize → u32 → M E unit;
  virtual_protect : u64 → usize → u32 → M E u32;
}.

(** The registers with an accessor in the trait; RBX and R12 are only read. *)
Inductive Reg := Rip | Rsp | Rax | Rcx | Rdx | R8 | R9.
#[global] Instance Reg_eq_dec : EqDecision Reg.
Proof. solve_decision. Defined.

Class CpuRegs (E : Type) := {
  read_reg : Reg → M E u64;
  write_reg : Reg → u64 → M E unit;
}.
Definition read_rip `{CpuRegs E} : M E u64 := read_reg Rip.
Definition write_rip `{CpuRegs E} : u64 → M E unit := write_reg Rip.
Definition read_rsp `{CpuRegs E} : M E u64 := read_reg Rsp.
Definition write_rsp `{CpuRegs E} : u64 → M E unit := write_reg Rsp.
Definition read_rax `{CpuRegs E} : M E u64 := read_reg Rax.
Definition write_rax `{CpuRegs E} : u64 → M E unit := write_reg Rax.
Definition read_rcx `{CpuRegs E} : M E u64 := read_reg Rcx.
Definition write_rcx `{CpuRegs E} : u64 → M E unit := write_reg Rcx.
Definition read_rdx `{CpuRegs E} : M E u64 := read_reg Rdx.
Definition write_rdx `{CpuRegs E} : u64 → M E unit := write_reg Rdx.
Definition read_r8 `{CpuRegs E} : M E u64 := read_reg R8.
Definition write_r8 `{CpuRegs E} : u64 → M E unit := write_reg R8.
Definition read_r9 `{CpuRegs E} : M E u64 := read_reg R9.
Definition write_r9 `{CpuRegs E} : u64 → M E unit := write_reg R9.

(** Register accesses succeed, keep each other apart, and leave memory alone;
    memory accesses leave the registers alone. *)
Class CpuRegsLaws (E : Type) `{CpuMemLaws E, !CpuRegs E} := {
  reg_of : E → Reg → u64;
  regs_ok : E → Prop;
  read_reg_ok e r : read_reg r e = (e, Ok (reg_of e r));
  write_reg_ok e r v :
    regs_ok e →
    ∃ e', write_reg r v e = (e', Ok tt) ∧ regs_ok e' ∧ reg_of e' r = v ∧
      (∀ q, q ≠ r → reg_of e' q = reg_of e q) ∧
      (mem_inv e → mem_inv e') ∧ mem_get e' = mem_get e ∧ ∀ x, mem_rw e' x ↔ mem_rw e x;
  mem_read_regs e a n : reg_of (mem_read a n e).1 = reg_of e ∧ (regs_ok e → regs_ok (mem_read a n e).1);
  mem_write_regs e a bs : reg_of (mem_write a bs e).1 = reg_of e ∧ (regs_ok e → regs_ok (mem_write a bs e).1);
}.

(** ** The interpreter *)

Definition get_reg (r : Reg) (f : RegFile) : u64 :=
  match r with
  | Rip => rip f | Rsp => rsp f | Rax => rax f | Rcx => rcx f | Rdx => rdx f | R8 => r8 f | R9 => r9 f
  end.
Definition put_reg (r : Reg) (v : u64) (f : RegFile) : RegFile :=
  match r with
  | Rip => set_rip v f | Rsp => set_rsp v f | Rax => set_rax v f | Rcx => set_rcx v f | Rdx => set_rdx v f
  | R8 => set_r8 v f | R9 => set_r9 v f
  end.

#[global] Instance IcedCpu_CpuRegs : CpuRegs (GuestMemory * IcedCpu) := {|
  read_reg r := λ s, (s, Ok (get_reg r (i_regs s.2)));
  write_reg r v := on_engine (λ i, with_regs (put_reg r v (i_regs i)) i);
|}.

(** [WIE_MPROTECT] of the host's environment decides what the arenas do. *)
Section Instances.
Context `{HostOS} (wie_mprotect : option string).

Definition GuestMemory_CpuMap : CpuMap GuestMemory := {|
  mem_map := map wie_mprotect;
  mem_map_image := map_image wie_mprotect;
  virtual_alloc := mem.virtual_alloc;
  virtual_free := mem.virtual_free;
  virtual_protect := mem.virtual_protect wie_mprotect;
|}.
Definition IcedCpu_CpuMap : CpuMap (GuestMemory * IcedCpu) := {|
  mem_map a n p := on_engine_mem (map wie_mprotect a n p);
  mem_map_image a n p := on_engine_mem (map_image wie_mprotect a n p);
  virtual_alloc a n t p := on_engine_mem (mem.virtual_alloc a n t p);
  virtual_free a n t := on_engine_mem (mem.virtual_free a n t);
  virtual_protect a n p := on_engine_mem (mem.virtual_protect wie_mprotect a n p);
|}.
End Instances.

#[global] Program Instance IcedCpu_CpuMemLaws : CpuMemLaws (GuestMemory * IcedCpu) := {|
  mem_inv s := mem_inv s.1;
  mem_get s := mem_get s.1;
  mem_rw s := mem_rw s.1;
|}.
Next Obligation.
  intros [g i] a n Hi Ha Hlim Hrw. cbn [mem_read IcedCpu_CpuMem]. unfold on_engine_mem, zoom.
  destruct (mem_read_ok g a n Hi Ha Hlim Hrw) as (g' & bs & Hr & Hi' & Hg & Hrw' & Hl & Hbs).
  exists (g', i), bs. cbn [fst snd]. rewrite Hr. by auto 10.
Qed.
Next Obligation.
  intros [g i] a bs Hi Ha Hlim Hrw. cbn [mem_write IcedCpu_CpuMem]. unfold on_engine_mem, zoom.
  destruct (mem_write_ok g a bs Hi Ha Hlim Hrw) as (g' & Hr & Hi' & Hrw' & Hg).
  exists (g', i). cbn [fst snd]. rewrite Hr. by auto 10.
Qed.

(** The accessors down to the list of registers. *)
Local Ltac unfold_regs :=
  cbn [get_reg put_reg]; unfold rip, rsp, rax, rcx, rdx, r8, r9, set_rip, set_rsp, set_rax, set_rcx, set_rdx, set_r8, set_r9,
    set_gpr, gpr; cbn [gprs].
Lemma get_put_reg r v f : length (gprs f) = 16%nat → get_reg r (put_reg r v f) = v.
Proof. intros Hl. destruct r; [done|..]; unfold_regs; by rewrite list_lookup_insert_eq by lia. Qed.
Lemma get_put_reg_ne r q v f : q ≠ r → get_reg q (put_reg r v f) = get_reg q f.
Proof. intros Hne. destruct r, q; try done; unfold_regs; by rewrite list_lookup_insert_ne. Qed.
Lemma put_reg_length r v f : length (gprs (put_reg r v f)) = length (gprs f).
Proof. destruct r; unfold_regs; by rewrite ?length_insert. Qed.

Lemma on_engine_mem_snd {A} (m : M GuestMemory A) s : (on_engine_mem m s).1.2 = s.2.
Proof. unfold on_engine_mem, zoom. by destruct (m s.1). Qed.

#[global] Program Instance IcedCpu_CpuRegsLaws : CpuRegsLaws (GuestMemory * IcedCpu) := {|
  reg_of s r := get_reg r (i_regs s.2);
  regs_ok s := length (gprs (i_regs s.2)) = 16%nat;
|}.
Next Obligation. done. Qed.
Next Obligation.
  intros [g i] r v Hl. cbn [write_reg IcedCpu_CpuRegs on_engine modify fst snd] in *.
  eexists (g, _). split; [done|]. cbn [fst snd i_regs with_regs] in *.
  split_and!; [by rewrite put_reg_length|by apply get_put_reg|intros; by apply get_put_reg_ne|done|done|done].
Qed.
Next Obligation. intros s a n. cbn [mem_read IcedCpu_CpuMem]. by rewrite on_engine_mem_snd. Qed.
Next Obligation. intros s a bs. cbn [mem_write IcedCpu_CpuMem]. by rewrite on_engine_mem_snd. Qed.
