(* ===== verification/dll_loader.v ===== *)
(** * The DLL loader (crates/wie-winapi/src/dll_loader.rs)

    Export tables, the search for a DLL, base relocations, and a module brought
    into guest memory.  The engine is the interfaces [CpuMem], [CpuMap] and
    [CpuRegs]; the host file system is what [is_file] and [fs_read] say, the
    import resolver a closure with a state of its own. *)

From S2P Require Import Prelude regs insn path volume utf protect engine cpu guest_string pe.

(** ** Modules *)

Record DllExports := mkExports {
  by_name : gmap str u64;
  by_ordinal : gmap u16 u64;
  ex_ordinal_base : u16;
  ex_export_count : u16;
}.
Definition exports_default : DllExports := mkExports ∅ ∅ 0 0.

Definition REAL_MODULE_HANDLE_BASE : u64 := 0x6f000000.

Record LoadedModule := mkModule {
  lm_handle : u64;
  lm_image_base : u64;
  lm_image_size : usize;
  lm_entry_rva : u64;
  lm_name : str;
  lm_guest_path : str;
  lm_host_path : str;
  lm_ref_count : u64;
  lm_exports_by_name : gmap str u64;
  lm_exports_by_ordinal : gmap u16 u64;
  lm_ordinal_base : u16;
  lm_export_count : u16;
}.

(** RVA 0 is a forwarder or an unused slot. *)
Definition export_at (m : LoadedModule) (rva : u64) : option u64 :=
  if decide (rva = 0) then None else Some (wrapping_add (lm_image_base m) rva).
Definition get_export_va (m : LoadedModule) (name : str) : option u64 :=
  rva ← lm_exports_by_name m !! to_ascii_lowercase name; export_at m rva.
Definition get_export_va_by_ordinal (m : LoadedModule) (ordinal : u16) : option u64 :=
  rva ← lm_exports_by_ordinal m !! ordinal; export_at m rva.

(** Little-endian reads of a slice that is long enough. *)
Definition read_le (n : nat) (buf : list u8) (off : usize) : Z := le_val (take n (drop (Z.to_nat off) buf)).
Definition read_u32_le (buf : list u8) (off : usize) : u32 := read_le 4 buf off.
Definition read_u16_le (buf : list u8) (off : usize) : u16 := read_le 2 buf off.
Definition read_i32_le (buf : list u8) (off : usize) : Z := as_i 32 (read_le 4 buf off).
Definition read_i64_le (buf : list u8) (off : usize) : Z := as_i 64 (read_le 8 buf off).

(** ** Exports *)

Definition res_ok {A} (r : res A) : option A := match r with Ok a => Some a | _ => None end.

Section Exports.
Context (pe : PE) (pe_bytes : list u8).

Definition file_size : usize := Z.of_nat (length pe_bytes).

(** The RVA an address-table entry holds; forwarders are zeroed. *)
Definition address_entry (export_rva : u32) (export_dir_end : u64) (address_table_rva : u32) (i : Z) : u64 :=
  let entry_file_off := res_ok (rva_to_file_offset pe (as_u 32 (address_table_rva + as_u 32 (i * 4)))) in
  let rva := match entry_file_off with
             | Some off => if decide (sat_add off 4 ≤ file_size) then read_u32_le pe_bytes off else 0
             | None => 0
             end in
  if decide (rva ≠ 0 ∧ export_rva ≤ rva < export_dir_end) then 0 else rva.

Definition export_name (name_rva : u32) : option str :=
  match rva_to_file_offset pe name_rva with
  | Ok name_off =>
      let name_slice := default [] (get_from pe_bytes name_off) in
      let end_ := default 0%nat (position (λ b, bool_decide (b = 0)) name_slice) in
      let name_bytes := take end_ name_slice in
      if decide (name_bytes = []) then None
      else match from_utf8 name_bytes with Some _ => Some (str_of name_bytes) | None => None end
  | _ => None
  end.

(** One entry of the name table. *)
Definition name_entry (address_table : list u64) (ordinal_base : u32) (name_pointer_rva ordinal_table_rva : u32)
    (maps : gmap str u64 * gmap u16 u64) (i : Z) : gmap str u64 * gmap u16 u64 :=
  let '(names, ordinals) := maps in
  match res_ok (rva_to_file_offset pe (as_u 32 (ordinal_table_rva + as_u 32 (i * 2)))),
        res_ok (rva_to_file_offset pe (as_u 32 (name_pointer_rva + as_u 32 (i * 4)))) with
  | Some ord_off, Some np_off =>
      if decide (file_size < sat_add ord_off 2 ∨ file_size < sat_add np_off 4) then maps
      else
        let name_rva := read_u32_le pe_bytes np_off in
        let ordinal_idx := read_u16_le pe_bytes ord_off in
        let ordinal := as_u 16 ((if decide (ordinal_base < 2 ^ 16) then ordinal_base else 0) + ordinal_idx) in
        let function_rva := default 0 (address_table !! Z.to_nat ordinal_idx) in
        let names := match export_name name_rva with
                     | Some name => if decide (function_rva ≠ 0) then <[to_ascii_lowercase name := function_rva]> names else names
                     | None => names
                     end in
        (names, if decide (function_rva ≠ 0) then <[ordinal := function_rva]> ordinals else ordinals)
  | _, _ => maps
  end.

Definition parse_dll_exports : res DllExports :=
  header ← ok_ctx "no optional header" (optional_header pe);
  export_dir ← ok_ctx "no export directory" (oh_export_table header);
  if decide (dd_virtual_address export_dir = 0) then Ok exports_default
  else
    let export_rva := dd_virtual_address export_dir in
    export_offset ← ctx "export dir RVA outside file" (rva_to_file_offset pe export_rva);
    let export_slice := default [] (get_from pe_bytes export_offset) in
    if decide (length export_slice < 40)%nat then bail "export directory too short"
    else
      let ordinal_base := read_u32_le export_slice 0x10 in
      let num_functions := read_u32_le export_slice 0x14 in
      let num_names := read_u32_le export_slice 0x18 in
      let address_table_rva := read_u32_le export_slice 0x1c in
      let name_pointer_rva := read_u32_le export_slice 0x20 in
      let ordinal_table_rva := read_u32_le export_slice 0x24 in
      let export_dir_end := sat_add export_rva (dd_size export_dir) in
      let address_table := address_entry export_rva export_dir_end address_table_rva <$> seqZ 0 num_functions in
      let '(names, ordinals) :=
        foldl (name_entry address_table ordinal_base name_pointer_rva ordinal_table_rva) (∅, ∅) (seqZ 0 num_names) in
      Ok (mkExports names ordinals (if decide (ordinal_base < 2 ^ 16) then ordinal_base else 0)
            (if decide (num_functions < 2 ^ 16) then num_functions else 0)).
End Exports.

(** ** The search for a file *)

(** [Path::extension] of a name without separators. *)
Definition path_extension (name : str) : option str :=
  file ← path_file_name name;
  i ← rfind "."%char file;
  if decide (i = 0%nat) then None else Some (drop (S i) file).

(** [Path::parent] on Unix: separators and single dots at the end do not count. *)
Fixpoint strip_end (n : nat) (p : str) : str :=
  match n with
  | O => p
  | S n =>
      match reverse p with
      | c :: q =>
          if decide (c = fslash ∧ q ≠ []) then strip_end n (reverse q)
          else match q with
               | d :: q' => if decide (c = "."%char ∧ d = fslash ∧ q' ≠ []) then strip_end n (reverse q') else p
               | [] => p
               end
      | [] => p
      end
  end.
Definition path_parent (p : str) : option str :=
  let p := strip_end (length p) p in
  if decide (p = [] ∨ p = [fslash]) then None
  else match rfind fslash p with
       | None => Some []
       | Some O => Some [fslash]
       | Some i => let q := take i p in Some (strip_end (length q) q)
       end.

Definition normalize_dll_name (name : str) : str :=
  let clean := trim_matches (λ c, bool_decide (c = quote)) (trim name) in
  let basename := to_ascii_lowercase (after_last is_sep clean clean) in
  let has ext := match path_extension basename with Some e => bool_decide (to_ascii_lowercase e = ext) | None => false end in
  if negb (has #"dll") && negb (has #"ocx") then basename ++ #".dll" else basename.

Section Search.
Context (is_file : str → bool).

Definition push_if_new (dirs : list str) (d : option HostMap) : list str :=
  match d with
  | Some m => if decide (hm_host m ∈ dirs) then dirs else dirs ++ [hm_host m]
  | None => dirs
  end.
Definition search_directories (main_module_path : str) (volumes : VolumeConfig) : list str :=
  let app := parent ← path_parent main_module_path; guest_path_to_host volumes parent in
  let dirs := push_if_new [] app in
  let dirs := push_if_new dirs (guest_path_to_host volumes GUEST_SYSTEM_DIR) in
  let dirs := push_if_new dirs (guest_path_to_host volumes GUEST_WINDOWS_DIR) in
  push_if_new dirs app.

Definition existing (m : option HostMap) : option str :=
  m ← m; if is_file (hm_host m) then Some (hm_host m) else None.
Definition first_file (dirs : list str) (name : str) : option str :=
  snd <$> list_find is_file ((λ d, push d name) <$> dirs).

Definition resolve_dll_path (dll_name main_module_path : str) (volumes : VolumeConfig) (main_module_host_dir : option str)
    : option str :=
  let clean := trim_matches (λ c, bool_decide (c = quote)) (trim dll_name) in
  if decide (clean = []) then None
  else
    let search_name := normalize_dll_name clean in
    if bool_decide (bslash ∈ clean) || bool_decide (fslash ∈ clean) || bool_decide (colon ∈ clean) then
      match existing (guest_path_to_host volumes clean) with
      | Some host => Some host
      | None =>
          if starts_with (reverse search_name) (reverse (to_ascii_lowercase clean)) then None
          else existing (guest_path_to_host volumes (clean ++ #".dll"))
      end
    else
      match first_file (search_directories main_module_path volumes) search_name with
      | Some host => Some host
      | None =>
          host_dir ← main_module_host_dir;
          let candidate := push host_dir search_name in
          if is_file candidate then Some candidate else None
      end.
End Search.

(** ** Relocations *)

(** A [for] loop that may return early. *)
Fixpoint for_each {S A} (f : A → M S unit) (l : list A) : M S unit :=
  match l with
  | [] => mret tt
  | a :: l => _ ← f a; for_each f l
  end.

Definition as_i32_or_0 (delta : Z) : Z := if decide (- 2 ^ 31 ≤ delta < 2 ^ 31) then delta else 0.

Section Relocations.
Context (pe : PE) (pe_bytes : list u8) (delta : Z).

(** The [n]-byte field at [target_rva]: its value in the file, relocated, goes
    to the image; a field outside the file or the image is passed over. *)
Definition reloc_field (n : nat) (read : list u8 → usize → Z) (addend : Z) (target_rva : u32) (image : list u8) : list u8 :=
  match rva_to_file_offset pe target_rva with
  | Ok target_file_off =>
      if decide (file_size pe_bytes < sat_add target_file_off (Z.of_nat n)) then image
      else
        let original := read pe_bytes target_file_off in
        let adjusted := original + addend in
        if decide (Z.of_nat (length image) < sat_add target_rva (Z.of_nat n)) then image
        else splice image target_rva (le_bytes n adjusted)
  | _ => image
  end.

Definition reloc_entry (reloc_data : list u8) (page_rva : u32) (entries_base : usize) (i : usize) : M (list u8) unit :=
  let entry_off := wrapping_add entries_base (wrapping_mul i 2) in
  if decide (Z.of_nat (length reloc_data) < sat_add entry_off 2) then fail (Message "relocation entry exceeds block data")
  else
    let entry := read_u16_le reloc_data entry_off in
    let type_ := Z.shiftr entry 12 in
    let rva_offset := Z.land entry 0x0fff in
    let target_rva := as_u 32 (page_rva + rva_offset) in
    match type_ with
    | 0 => mret tt
    | 3 => modify (reloc_field 4 read_i32_le (as_i32_or_0 delta) target_rva)
    | 10 => modify (reloc_field 8 read_i64_le delta target_rva)
    | _ => fail (Message "unsupported relocation type")
    end.

(** One block: its offset, then the offset of the next. *)
Definition reloc_block (reloc_data : list u8) (offset : usize) : M (list u8) (usize + unit) :=
  if decide (Z.of_nat (length reloc_data) < sat_add offset 8) then mret (inr tt)
  else
    let page_rva := read_u32_le reloc_data offset in
    let block_size := read_u32_le reloc_data (wrapping_add offset 4) in
    if decide (block_size = 0) then mret (inr tt)
    else if decide (block_size < 8) then fail (Message "invalid relocation block size")
    else
      let entry_count := (block_size - 8) / 2 in
      let entries_base := wrapping_add offset 8 in
      _ ← for_each (reloc_entry reloc_data page_rva entries_base) (seqZ 0 entry_count);
      let offset := wrapping_add offset block_size in
      if decide (Z.of_nat (length reloc_data) ≤ offset) then mret (inr tt) else mret (inl offset).

Definition reloc_data : res (list u8) :=
  header ← ok_ctx "no optional header for relocation processing" (optional_header pe);
  reloc_dir ← ok_ctx "no base relocation directory" (oh_base_relocation_table header);
  if decide (dd_virtual_address reloc_dir = 0 ∨ dd_size reloc_dir = 0)
  then bail "DLL has no relocation table; cannot load at a different base"
  else
    reloc_offset ← ctx "relocation table RVA outside file" (rva_to_file_offset pe (dd_virtual_address reloc_dir));
    ok_ctx "relocation data extends beyond file"
      (data ← get_from pe_bytes reloc_offset; get_slice data 0 (dd_size reloc_dir)).

(** A block takes at least eight bytes of the table. *)
Definition apply_relocations : M (list u8) unit :=
  if decide (delta = 0) then mret tt
  else
    data ← lift reloc_data;
    loopM (fuel_of (Z.of_nat (length data))) (reloc_block data) 0.
End Relocations.

(** ** Loading *)

(** What [load_dll] uses of [WinApiState]. *)
Record Loader := mkLoader {
  next_module_handle : u64;
  loaded_modules : gmap str LoadedModule;
}.
Definition with_next_module_handle (h : u64) (l : Loader) : Loader := mkLoader h (loaded_modules l).
Definition with_loaded_modules (m : gmap str LoadedModule) (l : Loader) : Loader := mkLoader (next_module_handle l) m.

Record DllLoadResult := mkDllLoad {
  dl_module : LoadedModule;
  dl_image_base : u64;
  dl_dependencies : list str;
}.

Definition is_ucrt_library (library : str) : bool :=
  let l := to_ascii_lowercase library in
  starts_with (#"api-ms-win-crt-") l || bool_decide (l = #"ucrtbase.dll") || bool_decide (l = #"msvcrt.dll").

Section Load.
Context {E F : Type} `{CpuMem E, CpuMap E}.

(** The engine, the loader's state, and the resolver's. *)
Record LoadState := mkLoadState { ls_engine : E; ls_state : Loader; ls_resolver : F }.

Definition on_cpu {A} (text : string) (m : M E A) : M LoadState A := λ s,
  let '(e, r) := m (ls_engine s) in (mkLoadState e (ls_state s) (ls_resolver s), ctx text r).
Definition on_state (f : Loader → Loader) : M LoadState unit := λ s,
  (mkLoadState (ls_engine s) (f (ls_state s)) (ls_resolver s), Ok tt).

Definition protect_range (text : string) (image_base start end_ : u64) (protect : u32) : M LoadState unit :=
  let len := sat_sub end_ start in
  if decide (len = 0) then mret tt
  else _ ← on_cpu text (virtual_protect (sat_add image_base start) len protect); mret tt.

Definition protect_section (plan : PeMapPlan) (image_base : u64) (sec : PeSectionMap) : M LoadState unit :=
  if decide (sm_virtual_size sec = 0) then mret tt
  else match page_align_image_range (sm_va sec) (sm_virtual_size sec) (mp_size_of_image plan) with
       | Some (start, end_) => protect_range "DLL section protect" image_base start end_ (sm_final_protect sec)
       | None => mret tt
       end.
Definition apply_pe_section_protects (plan : PeMapPlan) (image_base : u64) : M LoadState unit :=
  let image_size := mp_size_of_image plan in
  if decide (image_size = 0) then mret tt
  else
    _ ← on_cpu "DLL gap NOACCESS protect" (virtual_protect image_base image_size PAGE_NOACCESS);
    _ ← match page_align_image_range 0 (mp_header_size plan) image_size with
        | Some (start, end_) => protect_range "DLL headers protect" image_base start end_ PAGE_READONLY
        | None => mret tt
        end;
    for_each (protect_section plan image_base) (mp_sections plan).

(** The preferred base when it can be mapped, else the page of the handle. *)
Definition map_image_at (preferred_base : u64) (size_of_image : usize) (handle : u64) : M LoadState u64 := λ s,
  let '(e, r) := mem_map preferred_base size_of_image perm_ALL (ls_engine s) in
  let s := mkLoadState e (ls_state s) (ls_resolver s) in
  match r with
  | Ok _ => (s, Ok preferred_base)
  | Abort w => (s, Abort w)
  | Err _ =>
      let alt_base := Z.land handle (u64_lim - 1 - 0xfff) in
      (_ ← on_cpu "failed to map DLL image memory at alternative base" (mem_map alt_base size_of_image perm_ALL);
       mret alt_base) s
  end.

Definition load_section (pe_bytes : list u8) (image_base : u64) (section : SectionTable) : M LoadState unit :=
  let raw_offset := st_pointer_to_raw_data section in
  let raw_size := st_size_of_raw_data section in
  let virtual_size := st_virtual_size section in
  let va := wrapping_add image_base (st_virtual_address section) in
  _ ← (if decide (0 < raw_size) then
         let end_ := Z.min (sat_add raw_offset raw_size) (Z.of_nat (length pe_bytes)) in
         let section_data := default [] (get_slice pe_bytes raw_offset end_) in
         on_cpu "failed to write section" (mem_write va section_data)
       else mret tt);
  let raw_size_rounded := Z.max raw_size 1 in
  if decide (raw_size_rounded < virtual_size) then
    let fill_va := wrapping_add va raw_size_rounded in
    let fill_len := sat_sub virtual_size raw_size_rounded in
    on_cpu "failed to zero-fill section" (mem_write fill_va (replicate (Z.to_nat fill_len) 0))
  else mret tt.

Definition relocate_image (pe : PE) (pe_bytes : list u8) (image_base : u64) (size_of_image : usize) (delta : Z)
    : M LoadState unit :=
  if decide (delta = 0) then mret tt
  else
    image_buf ← on_cpu "failed to read back DLL image for relocation" (mem_read image_base (Z.to_nat size_of_image));
    let '(image_buf, r) := apply_relocations pe pe_bytes delta image_buf in
    _ ← lift r;
    on_cpu "failed to write relocated DLL image" (mem_write image_base image_buf).

Section Imports.
Context (resolve_import : str → str → u64 → M F u64).

Definition on_resolver (text : string) (library name : str) (iat_va : u64) : M LoadState u64 := λ s,
  let '(f, r) := resolve_import library name iat_va (ls_resolver s) in
  (mkLoadState (ls_engine s) (ls_state s) f, ctx text r).

(** The libraries seen, and the dependencies, in the order of the imports. *)
Definition add_dependency (import : PeImportSummary) (deps : gset str * list str) : gset str * list str :=
  let '(seen_libs, dependencies) := deps in
  let lib_lower := to_ascii_lowercase (im_library import) in
  ({[lib_lower]} ∪ seen_libs,
   if bool_decide (lib_lower ∉ seen_libs) && negb (is_ucrt_library (im_library import))
   then dependencies ++ [im_library import] else dependencies).
Definition load_import (image_base : u64) (import : PeImportSummary) : M LoadState unit :=
  let iat_va := wrapping_add image_base (im_iat_slot_rva import) in
  target_va ← on_resolver "failed to resolve import" (im_library import) (import_name import) iat_va;
  on_cpu "failed to patch DLL IAT slot" (mem_write iat_va (le_bytes 8 target_va)).

(** Step 7: the name and the exports complete the module. *)
Definition register_module (pe : PE) (pe_bytes : list u8) (m : LoadedModule) : M LoadState LoadedModule :=
  exports ← lift (ctx "failed to parse DLL exports" (parse_dll_exports pe pe_bytes));
  let module_name := to_ascii_lowercase (default (#"unknown.dll") (n ← path_file_name (lm_host_path m); to_str n)) in
  let module := mkModule (lm_handle m) (lm_image_base m) (lm_image_size m) (lm_entry_rva m) module_name (lm_guest_path m)
                  (lm_host_path m) (lm_ref_count m) (by_name exports) (by_ordinal exports) (ex_ordinal_base exports)
                  (ex_export_count exports) in
  _ ← on_state (λ l, with_loaded_modules (<[module_name := module]> (loaded_modules l)) l);
  mret module.

Context (PE_parse : list u8 → res PE) (fs_read : str → res (list u8)).

Definition load_dll (host_path guest_path : str) : M LoadState DllLoadResult :=
  pe_bytes ← lift (ctx "failed to read DLL" (fs_read host_path));
  pe ← lift (ctx "failed to parse PE DLL" (PE_parse pe_bytes));
  if negb (is_64 pe) then lift (bail "expected PE64 DLL, got PE32")
  else
    identity ← lift (ctx "failed to parse PE identity" (pe_identity_from_bytes PE_parse host_path pe_bytes));
    let preferred_base := id_image_base identity in
    let size_of_image := id_size_of_image identity in
    s ← get;
    let handle := next_module_handle (ls_state s) in
    next ← lift (ok_ctx "module handle overflow" (checked_add handle 0x1000));
    _ ← on_state (with_next_module_handle next);
    image_base ← map_image_at preferred_base size_of_image handle;
    let delta := as_i 64 (image_base - preferred_base) in
    map_plan ← lift (ctx "failed to build DLL map plan" (pe_map_plan_from_bytes PE_parse pe_bytes));
    let header_size := Z.min (id_size_of_headers identity) (Z.of_nat (length pe_bytes)) in
    _ ← (if decide (0 < header_size)
         then on_cpu "failed to write DLL headers" (mem_write image_base (take (Z.to_nat header_size) pe_bytes))
         else mret tt);
    _ ← for_each (load_section pe_bytes image_base) (pe_sections pe);
    _ ← relocate_image pe pe_bytes image_base size_of_image delta;
    imports ← lift (ctx "failed to parse DLL imports" (inspect_pe_imports_bytes PE_parse pe_bytes));
    let dependencies := (foldl (λ deps import, add_dependency import deps) (∅, []) imports).2 in
    _ ← for_each (load_import image_base) imports;
    module ← register_module pe pe_bytes (mkModule handle image_base size_of_image (id_entry_rva identity) [] guest_path
                host_path 1 ∅ ∅ 0 0);
    _ ← context "failed to apply DLL section protects" (apply_pe_section_protects map_plan image_base);
    mret (mkDllLoad module image_base dependencies).
End Imports.
End Load.

(** ** DllMain *)

Definition DLL_PROCESS_ATTACH : u32 := 1.
Definition DLL_THREAD_ATTACH : u32 := 2.
Definition DLL_THREAD_DETACH : u32 := 3.
Definition DLL_PROCESS_DETACH : u32 := 0.

Section DllMain.
Context {E : Type} `{CpuMem E, CpuRegs E}.

Definition prepare_dll_main_call (module : LoadedModule) (reason : u32) (reserved fake_return_va : u64) : M E unit :=
  if decide (lm_entry_rva module = 0) then mret tt
  else
    let entry_va := wrapping_add (lm_image_base module) (lm_entry_rva module) in
    rsp ← context "failed to read RSP for DllMain" read_rsp;
    let new_rsp := wrapping_sub rsp 8 in
    _ ← context "failed to push DllMain return address" (mem_write new_rsp (le_bytes 8 fake_return_va));
    _ ← context "failed to write RSP for DllMain" (write_rsp new_rsp);
    _ ← context "failed to write RCX (hinstDLL) for DllMain" (write_rcx (lm_image_base module));
    _ ← context "failed to write RDX (fdwReason) for DllMain" (write_rdx reason);
    _ ← context "failed to write R8 (lpvReserved) for DllMain" (write_r8 reserved);
    context "failed to write RIP for DllMain" (write_rip entry_va).
End DllMain.
