(* ===== verification/dll_spec.v ===== *)
(** * Relocation and loading of DLLs (dll_loader.rs)

    A table of relocation blocks, its encoding, and what relocating does to the
    image: each field named by an entry becomes the file's value moved by the
    distance, and no other byte changes.  Exports, the table of modules, the call of
    an entry point.  At the end a concrete DLL, and runs that lose an export. *)

From S2P Require Import Prelude regs insn exec_wf path utf engine pe dll_loader.

(** ** Tables *)

(** A block: the page's RVA, and an entry (type, offset) per field. *)
Definition RelocBlock : Type := u32 * list (Z * Z).

Definition encode_entries (es : list (Z * Z)) : list u8 := es ≫= λ e, le_bytes 2 (e.1 * 4096 + e.2).
Definition encode_block (b : RelocBlock) : list u8 :=
  le_bytes 4 b.1 ++ le_bytes 4 (8 + 2 * Z.of_nat (length b.2)) ++ encode_entries b.2.
Definition encode_blocks (bs : list RelocBlock) : list u8 := bs ≫= encode_block.

Lemma encode_blocks_app xs b ys : encode_blocks (xs ++ b :: ys) = encode_blocks xs ++ encode_block b ++ encode_blocks ys.
Proof. unfold encode_blocks. by rewrite bind_app. Qed.

Definition entry_ok (e : Z * Z) : Prop := (e.1 = 0 ∨ e.1 = 3 ∨ e.1 = 10) ∧ 0 ≤ e.2 < 4096.
Definition block_ok (b : RelocBlock) : Prop := 0 ≤ b.1 < 2 ^ 32 ∧ Forall entry_ok b.2.

(** The fields a table names: type and RVA.  Entries of type 0 are padding. *)
Definition block_fields (b : RelocBlock) : list (Z * u32) :=
  (λ e, (e.1, as_u 32 (b.1 + e.2))) <$> filter (λ e, e.1 ≠ 0) b.2.
Definition fields (bs : list RelocBlock) : list (Z * u32) := bs ≫= block_fields.

Definition width (f : Z * u32) : Z := if decide (f.1 = 3) then 4 else if decide (f.1 = 10) then 8 else 0.
Definition covers (f : Z * u32) (x : Z) : Prop := f.2 ≤ x < f.2 + width f.

(** The section data of the field is in the file, its place in the image. *)
Definition placed (pe : PE) (bytes : list u8) (size : Z) (f : Z * u32) (off : Z) : Prop :=
  rva_to_file_offset pe f.2 = Ok off ∧ 0 ≤ off ∧ off + width f ≤ Z.of_nat (length bytes) ∧ f.2 + width f ≤ size.
Definition field_at (bytes : list u8) (f : Z * u32) (off : Z) : list u8 := take (Z.to_nat (width f)) (drop (Z.to_nat off) bytes).

(** ** One field *)

Lemma le_bytes_congr n : ∀ v w, v mod 256 ^ Z.of_nat n = w mod 256 ^ Z.of_nat n → le_bytes n v = le_bytes n w.
Proof.
  intros v w Hvw.
  rewrite <- (le_bytes_le_val (le_bytes n v)), <- (le_bytes_le_val (le_bytes n w)) by apply le_bytes_byte.
  by rewrite !length_le_bytes, !le_val_le_bytes, Hvw.
Qed.

Lemma as_i_congr k x m : 0 ≤ k → (as_i k x + m) mod 2 ^ k = (x + m) mod 2 ^ k.
Proof.
  intros Hk. unfold as_i. assert (Hp : 2 ^ k ≠ 0) by lia. case_decide.
  - by rewrite Z.add_mod_idemp_l.
  - replace (x mod 2 ^ k - 2 ^ k + m) with (x mod 2 ^ k + m + (-1) * 2 ^ k) by lia.
    by rewrite Z.mod_add, Z.add_mod_idemp_l.
Qed.

Lemma read_le_split n pre v suf :
  0 ≤ v < 256 ^ Z.of_nat n → read_le n (pre ++ le_bytes n v ++ suf) (Z.of_nat (length pre)) = v.
Proof.
  intros Hv. unfold read_le. rewrite Nat2Z.id, drop_app_length.
  rewrite <- (length_le_bytes n v) at 1. rewrite take_app_length, le_val_le_bytes. by apply Z.mod_small.
Qed.

Section Spec.
Context (pe : PE) (bytes : list u8) (delta : Z).

(** What an entry does, by its type. *)
Definition apply_field (image : list u8) (f : Z * u32) : list u8 :=
  if decide (f.1 = 3) then reloc_field pe bytes 4 read_i32_le (as_i32_or_0 delta) f.2 image
  else if decide (f.1 = 10) then reloc_field pe bytes 8 read_i64_le delta f.2 image else image.

(** How far a field is moved: one of 32 bits not at all by a distance that does not fit. *)
Definition distance_of (f : Z * u32) : Z :=
  if decide (f.1 = 3 ∧ ¬ (- 2 ^ 31 ≤ delta < 2 ^ 31)) then 0 else delta.

Definition relocated (f : Z * u32) (off : Z) : list u8 :=
  le_bytes (Z.to_nat (width f)) (le_val (field_at bytes f off) + distance_of f).

Lemma apply_field_spec image f off :
  placed pe bytes (Z.of_nat (length image)) f off → 0 ≤ f.2 → Z.of_nat (length bytes) < u64_lim - 1 →
  Z.of_nat (length image) < u64_lim - 1 →
  apply_field image f = if decide (width f = 0) then image else splice image f.2 (relocated f off).
Proof.
  intros (Hoff & H0 & Hfile & Himg) Hf Hb Hi. unfold apply_field, relocated, field_at, distance_of in *.
  assert (Hw : width f = 4 ∧ f.1 = 3 ∨ width f = 8 ∧ f.1 = 10 ∨ width f = 0 ∧ f.1 ≠ 3 ∧ f.1 ≠ 10)
    by (unfold width; repeat case_decide; tauto).
  destruct Hw as [[Hw Ht]|[[Hw Ht]|(Hw & Ht3 & Ht10)]]; rewrite Hw in *.
  - rewrite decide_True, decide_False by lia. unfold reloc_field, file_size. rewrite Hoff. cbv zeta.
    rewrite !sat_add_lt by lia. rewrite !decide_False by lia. f_equal.
    change (Z.to_nat 4) with 4%nat. apply le_bytes_congr. unfold as_i32_or_0.
    unfold read_i32_le, read_le. destruct (decide (- 2 ^ 31 ≤ delta < 2 ^ 31)); case_decide; try tauto; by apply (as_i_congr 32).
  - rewrite (decide_False (P := f.1 = 3)), (decide_False (P := f.1 = 3 ∧ _)), decide_True, decide_False by lia. unfold reloc_field, file_size. rewrite Hoff. cbv zeta.
    rewrite !sat_add_lt by lia. rewrite !decide_False by lia. f_equal.
    change (Z.to_nat 8) with 8%nat. apply le_bytes_congr. unfold read_i64_le, read_le. by apply (as_i_congr 64).
  - by rewrite !decide_False, decide_True by done.
Qed.

(** ** All the fields, one after the other *)

Definition apart (f g : Z * u32) : Prop := f.2 + width f ≤ g.2 ∨ g.2 + width g ≤ f.2.
Definition field_ok (size : Z) (f : Z * u32) : Prop := 0 ≤ f.2 ∧ ∃ off, placed pe bytes size f off.

(** The bytes of the field in an image. *)
Definition holds_field (image : list u8) (f : Z * u32) : Prop :=
  ∀ off i, placed pe bytes (Z.of_nat (length image)) f off → (i < Z.to_nat (width f))%nat →
    image !! (Z.to_nat f.2 + i)%nat = relocated f off !! i.

Lemma width_nonneg f : 0 ≤ width f.
Proof. unfold width. repeat case_decide; lia. Qed.

Lemma apply_field_length image f :
  field_ok (Z.of_nat (length image)) f → Z.of_nat (length bytes) < u64_lim - 1 → Z.of_nat (length image) < u64_lim - 1 →
  length (apply_field image f) = length image.
Proof.
  intros (H0 & off & Hp) Hb Hi. rewrite (apply_field_spec image f off) by done. case_decide; [done|].
  destruct Hp as (_ & _ & _ & Himg). pose proof (width_nonneg f). unfold splice.
  apply length_spliced. unfold relocated. rewrite length_le_bytes. lia.
Qed.

Lemma apply_field_lookup image f off x :
  placed pe bytes (Z.of_nat (length image)) f off → 0 ≤ f.2 → Z.of_nat (length bytes) < u64_lim - 1 →
  Z.of_nat (length image) < u64_lim - 1 →
  apply_field image f !! x = if decide (covers f (Z.of_nat x)) then relocated f off !! (x - Z.to_nat f.2)%nat else image !! x.
Proof.
  intros Hp H0 Hb Hi. rewrite (apply_field_spec image f off) by done. unfold covers.
  destruct Hp as (_ & _ & _ & Himg). pose proof (width_nonneg f). case_decide; [by rewrite decide_False by lia|].
  assert (Hl : length (relocated f off) = Z.to_nat (width f)) by apply length_le_bytes.
  unfold splice. rewrite splice_lookup by lia. rewrite Hl. by do 2 case_decide; try lia.
Qed.

Lemma fold_fields fs : ∀ image,
  Z.of_nat (length bytes) < u64_lim - 1 → Z.of_nat (length image) < u64_lim - 1 →
  Forall (field_ok (Z.of_nat (length image))) fs → ForallOrdPairs apart fs →
  length (foldl apply_field image fs) = length image ∧
  Forall (holds_field (foldl apply_field image fs)) fs ∧
  ∀ x, Forall (λ f, ¬ covers f (Z.of_nat x)) fs → foldl apply_field image fs !! x = image !! x.
Proof.
  induction fs as [|f fs IH]; intros image Hb Hi Hok Hap; [done|].
  inversion_clear Hok as [|? ? Hf Hfs]. inversion_clear Hap as [|? ? Hff Hap']. cbn [foldl].
  pose proof (apply_field_length image f Hf Hb Hi) as Hl.
  destruct (IH (apply_field image f)) as (Hlen & Hholds & Hout); rewrite ?Hl; try done. rewrite Hl in Hlen.
  destruct Hf as (H0 & off & Hp).
  split_and!; [done| |].
  - constructor; [|done]. intros off' i Hp' Hlt. rewrite Hlen in Hp'.
    rewrite Hout.
    + rewrite (apply_field_lookup image f off') by done. unfold covers. rewrite decide_True by lia. f_equal. lia.
    + rewrite Forall_forall in Hff |- *. intros g Hg%Hff. unfold apart, covers in *. lia.
  - intros x Hx. inversion_clear Hx as [|? ? Hcf Hcs]. rewrite Hout by done.
    rewrite (apply_field_lookup image f off) by done. by rewrite decide_False.
Qed.

(** ** The loops over the table *)

Lemma decode_entry t off : 0 ≤ off < 4096 → 0 ≤ t →
  Z.shiftr (t * 4096 + off) 12 = t ∧ Z.land (t * 4096 + off) 0x0fff = off.
Proof.
  intros Ho Ht. rewrite Z.shiftr_div_pow2 by lia. change 0x0fff with (Z.ones 12). rewrite Z.land_ones by lia.
  change (2 ^ 12) with 4096. split; [rewrite Z.div_add_l by lia; rewrite Z.div_small by lia; lia|].
  rewrite Z.add_comm, Z.mod_add by lia. by apply Z.mod_small.
Qed.

Lemma length_encode_entries es : Z.of_nat (length (encode_entries es)) = 2 * Z.of_nat (length es).
Proof. induction es as [|e es IH]; [done|]. cbn -[le_bytes]. rewrite length_app, length_le_bytes. unfold encode_entries in IH. lia. Qed.

Lemma reloc_entry_encoded data page base i e image pre suf :
  data = pre ++ le_bytes 2 (e.1 * 4096 + e.2) ++ suf → Z.of_nat (length pre) = base + i * 2 →
  Z.of_nat (length data) < u64_lim - 1 → 0 ≤ base → 0 ≤ i → entry_ok e →
  reloc_entry pe bytes delta data page base i image = (apply_field image (e.1, as_u 32 (page + e.2)), Ok tt).
Proof.
  intros Hd Hpre Hlen Hb Hi [Ht Hoff]. unfold reloc_entry.
  assert (Hl : length data = (length pre + 2 + length suf)%nat) by (rewrite Hd, !length_app, length_le_bytes; lia).
  assert (Hw : wrapping_add base (wrapping_mul i 2) = Z.of_nat (length pre)).
  { unfold wrapping_add, wrapping_mul, wrap64. rewrite (Z.mod_small (i * 2)) by lia. rewrite Z.mod_small by lia. lia. }
  rewrite Hw. rewrite sat_add_lt by lia. rewrite decide_False by lia.
  unfold read_u16_le. rewrite Hd, read_le_split by (change (256 ^ Z.of_nat 2) with 65536; lia).
  cbv zeta. destruct (decode_entry e.1 e.2 Hoff ltac:(lia)) as [-> ->].
  unfold apply_field. cbn [fst snd]. by destruct Ht as [-> | [-> | ->]].
Qed.

Lemma foldl_block_cons page e es image :
  foldl apply_field image (block_fields (page, e :: es)) =
  foldl apply_field (apply_field image (e.1, as_u 32 (page + e.2))) (block_fields (page, es)).
Proof.
  unfold block_fields. cbn [fst snd]. rewrite filter_cons. destruct (decide (e.1 ≠ 0)) as [Hne|He]; [done|].
  apply dec_stable in He. unfold apply_field at 3. cbn [fst]. by rewrite He.
Qed.

Lemma for_entries data page base es suf : ∀ pre k image,
  data = pre ++ encode_entries es ++ suf → Z.of_nat (length pre) = base + k * 2 → 0 ≤ base → 0 ≤ k →
  Z.of_nat (length data) < u64_lim - 1 → Forall entry_ok es →
  for_each (reloc_entry pe bytes delta data page base) (seqZ k (Z.of_nat (length es))) image =
  (foldl apply_field image (block_fields (page, es)), Ok tt).
Proof.
  induction es as [|e es IH]; intros pre k image Hd Hpre Hb Hk Hlen Hok; [done|].
  inversion_clear Hok as [|? ? He Hes]. change (encode_entries (e :: es)) with (le_bytes 2 (e.1 * 4096 + e.2) ++ encode_entries es) in Hd.
  rewrite <- app_assoc in Hd. cbn [length]. rewrite seqZ_cons by lia. cbn [for_each]. unfold mbind, M_bind.
  rewrite (reloc_entry_encoded data page base k e image pre (encode_entries es ++ suf)) by done.
  replace (Z.pred (Z.of_nat (S (length es)))) with (Z.of_nat (length es)) by lia.
  rewrite (foldl_block_cons page e es image).
  rewrite (IH (pre ++ le_bytes 2 (e.1 * 4096 + e.2)) (Z.succ k)); [done| | |done|lia|done|done].
  - by rewrite <- app_assoc.
  - rewrite length_app, length_le_bytes. lia.
Qed.

Lemma length_encode_block b : Z.of_nat (length (encode_block b)) = 8 + 2 * Z.of_nat (length b.2).
Proof. unfold encode_block. rewrite !length_app, !length_le_bytes. pose proof (length_encode_entries b.2). lia. Qed.

(** A block at its offset: its fields are relocated, and the loop goes on after it. *)
Lemma reloc_block_encoded data b pre suf image :
  data = pre ++ encode_block b ++ suf → Z.of_nat (length data) < 2 ^ 32 → block_ok b →
  reloc_block pe bytes delta data (Z.of_nat (length pre)) image =
  (foldl apply_field image (block_fields b),
   Ok (if decide (suf = []) then inr tt else inl (Z.of_nat (length (pre ++ encode_block b))))).
Proof.
  intros Hd Hlen [Hpage Hes]. destruct b as [page es]. cbn [fst snd] in *.
  pose proof (length_encode_block (page, es)) as Hbl. cbn [snd] in Hbl.
  assert (Hl : length data = (length pre + length (encode_block (page, es)) + length suf)%nat) by (rewrite Hd, !length_app; lia).
  unfold reloc_block. rewrite sat_add_lt by lia. rewrite decide_False by lia.
  unfold encode_block in Hd. cbn [fst snd] in Hd. rewrite <- !app_assoc in Hd.
  assert (Hp : read_u32_le data (Z.of_nat (length pre)) = page).
  { rewrite Hd. apply read_le_split. change (256 ^ Z.of_nat 4) with (2 ^ 32). lia. }
  assert (Hs : read_u32_le data (wrapping_add (Z.of_nat (length pre)) 4) = 8 + 2 * Z.of_nat (length es)).
  { unfold wrapping_add, wrap64. rewrite Z.mod_small by lia. rewrite Hd, app_assoc.
    replace (Z.of_nat (length pre) + 4) with (Z.of_nat (length (pre ++ le_bytes 4 page))) by (rewrite length_app, length_le_bytes; lia).
    apply read_le_split. change (256 ^ Z.of_nat 4) with (2 ^ 32). lia. }
  rewrite Hp, Hs. cbv zeta. rewrite !decide_False by lia.
  replace ((8 + 2 * Z.of_nat (length es) - 8) / 2) with (Z.of_nat (length es))
    by (replace (8 + 2 * Z.of_nat (length es) - 8) with (Z.of_nat (length es) * 2) by lia; by rewrite Z.div_mul).
  unfold mbind, M_bind.
  rewrite (for_entries data page _ es suf (pre ++ le_bytes 4 page ++ le_bytes 4 (8 + 2 * Z.of_nat (length es))) 0 image);
    [|by rewrite Hd, <- !app_assoc|rewrite !length_app, !length_le_bytes; unfold wrapping_add, wrap64; rewrite Z.mod_small; lia
     |unfold wrapping_add, wrap64; apply Z.mod_pos_bound; lia|lia|lia|done].
  assert (Hn : wrapping_add (Z.of_nat (length pre)) (8 + 2 * Z.of_nat (length es)) = Z.of_nat (length (pre ++ encode_block (page, es)))).
  { unfold wrapping_add, wrap64. rewrite Z.mod_small by lia. rewrite length_app. lia. }
  rewrite Hn. rewrite length_app. destruct (decide (suf = [])) as [->|Hne].
  - rewrite decide_True by (cbn [length] in Hl; lia). done.
  - rewrite decide_False; [done|]. destruct suf; [done|]. cbn [length] in Hl. lia.
Qed.

Lemma relocate_blocks blocks image :
  Forall block_ok blocks → Z.of_nat (length (encode_blocks blocks)) < 2 ^ 32 →
  let data := encode_blocks blocks in
  loopM (fuel_of (Z.of_nat (length data))) (reloc_block pe bytes delta data) 0 image =
  (foldl apply_field image (fields blocks), Ok tt).
Proof.
  intros Hok Hlen data. fold data in Hlen.
  set (I := λ (offset : Z) (img : list u8), ∃ done rest, blocks = done ++ rest ∧ offset = Z.of_nat (length (encode_blocks done)) ∧
              img = foldl apply_field image (fields done)).
  set (Q := λ (img : list u8) (r : res unit), (img, r) = (foldl apply_field image (fields blocks), Ok tt)).
  pose proof (loopM_rule (reloc_block pe bytes delta data) I Q (λ offset, Z.of_nat (length data) - offset)
                (fuel_of (Z.of_nat (length data))) 0 image) as Hrule.
  destruct (loopM _ _ _ _) as [img r]. apply Hrule; clear Hrule.
  - intros offset im (bs & rest & Hb & -> & ->). destruct rest as [|b rest].
    + unfold reloc_block. rewrite app_nil_r in Hb. rewrite <- Hb. fold data. rewrite sat_add_lt by lia.
      by rewrite decide_True by lia.
    + assert (Hd : data = encode_blocks bs ++ encode_block b ++ encode_blocks rest).
      { unfold data. by rewrite Hb, encode_blocks_app. }
      rewrite Hb, Forall_app, Forall_cons in Hok. destruct Hok as (_ & Hbok & _).
      rewrite (reloc_block_encoded data b _ _ _ Hd) by done. rewrite <- foldl_app.
      assert (Hf : fields (bs ++ [b]) = fields bs ++ block_fields b) by (unfold fields; by rewrite bind_app, bind_singleton).
      rewrite <- Hf. pose proof (length_encode_block b) as Hbl.
      assert (Hl : length data = (length (encode_blocks bs) + length (encode_block b) + length (encode_blocks rest))%nat)
        by (rewrite Hd, !length_app; lia).
      case_decide as Hn.
      * assert (rest = []) as -> by (destruct rest as [|c rest]; [done|]; pose proof (length_encode_block c);
          apply (f_equal length) in Hn; cbn in Hn; rewrite length_app in Hn; lia). by rewrite <- Hb.
      * split; [|rewrite length_app; lia]. exists (bs ++ [b]), rest. rewrite <- app_assoc. split_and!; [done| |done].
        unfold encode_blocks. by rewrite bind_app, bind_singleton.
  - by exists [], blocks.
  - pose proof (fuel_of_spec (Z.of_nat (length data))). lia.
Qed.
End Spec.

(** C16 relocating an image, by a distance other than 0 and a well-formed table of
    blocks, when the fields the
    table names are in the file and in the image and do not overlap, succeeds:
    each 64-bit field (DIR64) holds the file's value moved by the distance, each
    32-bit field (HIGHLOW) holds the file's value moved by the distance where that
    fits a signed 32-bit integer and the file's value itself where it does not (the
    loader takes 0 for it instead of failing), both modulo the width of the field;
    every other byte is the one the image had, and the image keeps its length. *)
Theorem relocations_spec pe bytes delta blocks image :
  delta ≠ 0 →
  reloc_data pe bytes = Ok (encode_blocks blocks) →
  Forall block_ok blocks → Z.of_nat (length (encode_blocks blocks)) < 2 ^ 32 →
  Z.of_nat (length bytes) < u64_lim - 1 → Z.of_nat (length image) < u64_lim - 1 →
  Forall (field_ok pe bytes (Z.of_nat (length image))) (fields blocks) → ForallOrdPairs apart (fields blocks) →
  ∃ image', apply_relocations pe bytes delta image = (image', Ok tt) ∧
    length image' = length image ∧
    (∀ f off i, f ∈ fields blocks → placed pe bytes (Z.of_nat (length image)) f off → (i < Z.to_nat (width f))%nat →
      image' !! (Z.to_nat f.2 + i)%nat = le_bytes (Z.to_nat (width f)) (le_val (field_at bytes f off) + distance_of delta f) !! i) ∧
    (∀ x, (∀ f, f ∈ fields blocks → ¬ covers f (Z.of_nat x)) → image' !! x = image !! x).
Proof.
  intros Hd Hdata Hok Hlen Hb Hi Hfok Hap. exists (foldl (apply_field pe bytes delta) image (fields blocks)).
  unfold apply_relocations. rewrite decide_False by done. unfold mbind, M_bind, lift. rewrite Hdata.
  rewrite relocate_blocks by done.
  destruct (fold_fields pe bytes delta (fields blocks) image Hb Hi Hfok Hap) as (Hl & Hholds & Hout).
  split_and!; [done|done| |].
  - intros f off i Hf Hp Hlt. rewrite Forall_forall in Hholds. apply (Hholds f Hf); [by rewrite Hl|done].
  - intros x Hx. apply Hout. by rewrite Forall_forall.
Qed.

(** * What the DLL loader promises (dll_loader.rs)

    Loading, whatever the engine, keeps the table of modules sound; an export
    that is found is code, never a forwarder; the call of DllMain is prepared as
    the Windows calling convention asks. *)

From S2P Require Import Prelude regs insn utf engine cpu guest_string pe dll_loader.

(** ** The table of modules *)

(** A module is filed under its name, and its handle is its own. *)
Record loader_wf (l : Loader) : Prop := {
  lw_module n m : loaded_modules l !! n = Some m →
    lm_name m = n ∧ REAL_MODULE_HANDLE_BASE ≤ lm_handle m ∧ lm_handle m + 0x1000 ≤ next_module_handle l;
  lw_apart n1 n2 m1 m2 : loaded_modules l !! n1 = Some m1 → loaded_modules l !! n2 = Some m2 →
    n1 ≠ n2 → lm_handle m1 + 0x1000 ≤ lm_handle m2 ∨ lm_handle m2 + 0x1000 ≤ lm_handle m1;
  lw_next : REAL_MODULE_HANDLE_BASE ≤ next_module_handle l;
}.

Lemma loader_wf_next l h :
  loader_wf l → next_module_handle l ≤ h → loader_wf (with_next_module_handle h l).
Proof.
  intros [Hm Ha Hn] Hh. split; cbn [next_module_handle loaded_modules with_next_module_handle].
  - intros n m H. destruct (Hm n m H) as (? & ? & ?). split_and!; [done..|lia].
  - done.
  - lia.
Qed.

Lemma loader_wf_insert l m :
  loader_wf l → REAL_MODULE_HANDLE_BASE ≤ lm_handle m → lm_handle m + 0x1000 ≤ next_module_handle l →
  (∀ n m', loaded_modules l !! n = Some m' → lm_handle m' + 0x1000 ≤ lm_handle m) →
  loader_wf (with_loaded_modules (<[lm_name m := m]> (loaded_modules l)) l).
Proof.
  intros [Hm Ha Hn] Hlo Hhi Hfresh. split; cbn [next_module_handle loaded_modules with_loaded_modules]; [| |done].
  - intros n m' [[<- <-]|[_ H]]%lookup_insert_Some; [done|by apply Hm].
  - intros n1 n2 m1 m2 H1 H2 Hne.
    apply lookup_insert_Some in H1 as [[<- <-]|[_ H1]]; apply lookup_insert_Some in H2 as [[<- <-]|[_ H2]]; [done| | |].
    + right. by eapply Hfresh.
    + left. by eapply Hfresh.
    + by eapply Ha.
Qed.

(** ** Runs of [M] *)

Definition post {S A} (m : M S A) (s : S) (P : S → res A → Prop) : Prop := P (m s).1 (m s).2.

Lemma post_bind {S A B} (m : M S A) (f : A → M S B) s P :
  post m s (λ s' r, match r with Ok a => post (f a) s' P | Err e => P s' (Err e) | Abort w => P s' (Abort w) end) →
  post (m ≫= f) s P.
Proof. unfold post, mbind, M_bind. by destruct (m s) as [s' [a|e|w]]. Qed.

Create HintDb keeps.

Lemma post_lift {S A} (r : res A) (s : S) P : P s r → post (lift r) s P.
Proof. done. Qed.
Lemma post_get {S} (s : S) P : P s (Ok s) → post get s P.
Proof. done. Qed.

Section Loader.
Context {E F : Type} `{CpuMem E, !CpuMap E}.
Abbreviation LS := (@LoadState E F).

Lemma post_on_state f (s : LS) P :
  P (mkLoadState (ls_engine s) (f (ls_state s)) (ls_resolver s)) (Ok tt) → post (on_state f) s P.
Proof. done. Qed.

(** Steps that leave the loader's own state alone. *)
Definition keeps {A} (m : M LS A) : Prop := ∀ s, ls_state (m s).1 = ls_state s.

Lemma keeps_ret {A} (a : A) : keeps (mret a).
Proof. done. Qed.
Lemma keeps_lift {A} (r : res A) : keeps (lift r).
Proof. done. Qed.
Lemma keeps_get : keeps get.
Proof. done. Qed.
Lemma keeps_cpu {A} text (m : M E A) : keeps (on_cpu text m).
Proof. intros s. unfold on_cpu. by destruct (m _). Qed.
Lemma keeps_context {A} text (m : M LS A) : keeps m → keeps (context text m).
Proof. intros Hm s. unfold context. specialize (Hm s). by destruct (m s) as [s' [a|e|w]]. Qed.
Lemma keeps_seq {A B} (m : M LS A) (f : A → M LS B) : keeps m → (∀ a, keeps (f a)) → keeps (m ≫= f).
Proof.
  intros Hm Hf s. unfold mbind, M_bind. specialize (Hm s). destruct (m s) as [s' [a|e|w]]; cbn [fst] in *; [|done..].
  by rewrite Hf.
Qed.
Lemma keeps_for_each {A} (f : A → M LS unit) l : (∀ a, keeps (f a)) → keeps (for_each f l).
Proof. intros Hf. induction l as [|a l IH]; [done|]. by apply keeps_seq. Qed.
Lemma keeps_resolver resolve text library name iat : keeps (on_resolver resolve text library name iat).
Proof. intros s. unfold on_resolver. by destruct (resolve _ _ _ _). Qed.

#[local] Hint Resolve keeps_ret keeps_lift keeps_get keeps_cpu keeps_context keeps_for_each keeps_resolver : keeps.
Ltac keeps := repeat (first [apply keeps_seq; [|intros ?] | progress cbv zeta | case_decide | case_match | solve [auto with keeps]]).

Lemma keeps_section bytes base sec : keeps (load_section bytes base sec).
Proof. unfold load_section. keeps. Qed.
Lemma keeps_relocate pe bytes base size delta : keeps (relocate_image pe bytes base size delta).
Proof. unfold relocate_image. keeps. Qed.
Lemma keeps_import resolve base import : keeps (load_import resolve base import).
Proof. unfold load_import. keeps. Qed.
Lemma keeps_map_at base size handle : keeps (map_image_at base size handle).
Proof.
  intros s. unfold map_image_at. destruct (mem_map base size _ _) as [e [a|er|w]]; [done| |done].
  unfold mbind, M_bind, on_cpu. by destruct (mem_map _ _ _ _) as [e' [a|er'|w]].
Qed.
Lemma keeps_protects plan base : keeps (apply_pe_section_protects plan base).
Proof.
  assert (Hr : ∀ text b s e p, keeps (protect_range text b s e p)) by (intros; unfold protect_range; keeps).
  assert (Hs : ∀ sec, keeps (protect_section plan base sec)) by (intros; unfold protect_section; keeps).
  unfold apply_pe_section_protects. keeps; auto with keeps.
Qed.
#[local] Hint Resolve keeps_section keeps_relocate keeps_import keeps_map_at keeps_protects : keeps.

(** The rest of a run after a step that keeps the loader's state. *)
Lemma post_keeps {A B} (m : M LS A) (f : A → M LS B) s (P : LS → res B → Prop) :
  keeps m → (∀ s' a, ls_state s' = ls_state s → post (f a) s' P) →
  (∀ s', ls_state s' = ls_state s → (∀ e, P s' (Err e)) ∧ ∀ w, P s' (Abort w)) → post (m ≫= f) s P.
Proof.
  intros Hm Hf Hp. apply post_bind. unfold post at 1. specialize (Hm s). destruct (m s) as [s' r]; cbn [fst snd] in *.
  destruct (Hp s' Hm) as [He Hw]. destruct r; auto.
Qed.

Section Outcome.
Context (PE_parse : list u8 → res PE) (fs_read : str → res (list u8)) (host_path guest_path : str).

(** The module a load files from the state [l]: under the lower-cased file name,
    with the handle that was next, and with the exports of the file. *)
Record filed (l : Loader) (m : LoadedModule) : Prop := {
  fi_handle : lm_handle m = next_module_handle l;
  fi_count : lm_ref_count m = 1;
  fi_name : lm_name m = to_ascii_lowercase (default (#"unknown.dll") (n ← path_file_name host_path; to_str n));
  fi_paths : lm_host_path m = host_path ∧ lm_guest_path m = guest_path;
  fi_exports : ∃ bytes pe ex, fs_read host_path = Ok bytes ∧ PE_parse bytes = Ok pe ∧ parse_dll_exports pe bytes = Ok ex ∧
    lm_exports_by_name m = by_name ex ∧ lm_exports_by_ordinal m = by_ordinal ex;
}.

(** The outcome of a load from the state [l]. *)
Definition load_outcome (l : Loader) (s : LS) (r : res DllLoadResult) : Prop :=
  loader_wf (ls_state s) ∧
  match r with
  | Ok d =>
      let m := dl_module d in
      filed l m ∧ dl_image_base d = lm_image_base m ∧
      loaded_modules (ls_state s) = <[lm_name m := m]> (loaded_modules l) ∧
      next_module_handle (ls_state s) = next_module_handle l + 0x1000
  | _ =>
      (loaded_modules (ls_state s) = loaded_modules l ∧
       (next_module_handle (ls_state s) = next_module_handle l ∨ next_module_handle (ls_state s) = next_module_handle l + 0x1000)) ∨
      (∃ m, filed l m ∧ loaded_modules (ls_state s) = <[lm_name m := m]> (loaded_modules l) ∧
        next_module_handle (ls_state s) = next_module_handle l + 0x1000)
  end.

Lemma outcome_same l s r : ls_state s = l → loader_wf l → (∀ d, r ≠ Ok d) → load_outcome l s r.
Proof. intros <- Hwf Hr. split; [done|]. destruct r as [d| |]; [by destruct (Hr d)|left; auto..]. Qed.
Lemma outcome_next l s r :
  ls_state s = with_next_module_handle (next_module_handle l + 0x1000) l → loader_wf l → (∀ d, r ≠ Ok d) → load_outcome l s r.
Proof.
  intros Hs Hwf Hr. unfold load_outcome. rewrite Hs. cbn [next_module_handle loaded_modules with_next_module_handle].
  split; [apply loader_wf_next; [done|lia]|]. destruct r as [d| |]; [by destruct (Hr d)|left; auto..].
Qed.
Lemma to_lower_idem (s : str) : to_ascii_lowercase (to_ascii_lowercase s) = to_ascii_lowercase s.
Proof.
  unfold to_ascii_lowercase. rewrite <- list_fmap_compose. apply list_fmap_ext. intros _ c _. cbn.
  by destruct c as [[] [] [] [] [] [] [] []].
Qed.

Lemma outcome_insert l s m (r : res DllLoadResult) :
  loader_wf l → filed l m →
  ls_state s = with_loaded_modules (<[lm_name m := m]> (loaded_modules l)) (with_next_module_handle (next_module_handle l + 0x1000) l) →
  (∀ d, r = Ok d → dl_module d = m ∧ dl_image_base d = lm_image_base m) → load_outcome l s r.
Proof.
  intros Hwf Hm Hs Hr. unfold load_outcome. rewrite Hs.
  cbn [next_module_handle loaded_modules with_next_module_handle with_loaded_modules].
  assert (Hnext : loader_wf (with_next_module_handle (next_module_handle l + 0x1000) l)) by (apply loader_wf_next; [done|lia]).
  pose proof (fi_handle _ _ Hm) as Hh. split.
  - apply (loader_wf_insert (with_next_module_handle (next_module_handle l + 0x1000) l));
      cbn [next_module_handle loaded_modules with_next_module_handle]; rewrite ?Hh; [done|apply Hwf|lia|].
    intros n m' Hm'. destruct (lw_module _ Hwf n m' Hm') as (_ & _ & ?). lia.
  - destruct r as [d| |]; [|right; by exists m..]. destruct (Hr d eq_refl) as [-> ?]. by split_and!.
Qed.

Lemma register_module_post l s m pe bytes (f : LoadedModule → M LS DllLoadResult) :
  loader_wf l → ls_state s = with_next_module_handle (next_module_handle l + 0x1000) l →
  fs_read host_path = Ok bytes → PE_parse bytes = Ok pe →
  lm_handle m = next_module_handle l → lm_ref_count m = 1 → lm_host_path m = host_path → lm_guest_path m = guest_path →
  (∀ s' m', lm_image_base m' = lm_image_base m → filed l m' →
    ls_state s' = with_loaded_modules (<[lm_name m' := m']> (loaded_modules l)) (ls_state s) →
    post (f m') s' (load_outcome l)) →
  post (register_module pe bytes m ≫= f) s (load_outcome l).
Proof.
  intros Hwf Hs Hread Hparse Hh Hc Hhp Hgp Hf. apply post_bind. unfold register_module.
  apply post_bind, post_lift. destruct (parse_dll_exports pe bytes) as [exports|e|w] eqn:He; cbn [ctx];
    [|by apply outcome_next..].
  apply post_bind. unfold post at 1, on_state. cbn [fst snd].
  unfold post at 1. cbn [mret M_ret fst snd]. rewrite Hhp. apply Hf; [done| |by cbn [lm_name ls_state]; rewrite Hs].
  split; cbn; [done|done|done|done|]. by exists bytes, pe, exports.
Qed.
End Outcome.
End Loader.

(** A step that fails before the module is filed. *)
Local Ltac early :=
  intros; split; intros; first [apply outcome_same; [congruence|assumption|discriminate] | apply outcome_next; [congruence|assumption|discriminate]].

#[export] Hint Resolve keeps_ret keeps_lift keeps_get keeps_cpu keeps_context keeps_for_each keeps_resolver
  keeps_section keeps_relocate keeps_import keeps_map_at keeps_protects : keeps.

(** C17 loading a DLL, on any engine and whatever it answers, keeps the table
    of modules sound (each module under its own name, handles apart by at least
    0x1000 and below the next one).  A load that succeeds has filed the module it
    reports, and nothing else in the table has changed: under the lower-cased file
    name of the host path, in place of a module that had that name, with the handle
    that was next (the next one is 0x1000 further), the base the result names, both
    paths, a count of one and the exports of the file.  A load that fails leaves the
    table alone, or has filed such a module in the same way, when only the
    protection of its sections failed. *)
Theorem load_dll_modules {E F} `{CpuMem E, !CpuMap E} (resolve : str → str → u64 → M F u64)
    (PE_parse : list u8 → res PE) (fs_read : str → res (list u8)) host_path guest_path (s : @LoadState E F) :
  loader_wf (ls_state s) →
  let '(s', r) := load_dll resolve PE_parse fs_read host_path guest_path s in
  load_outcome PE_parse fs_read host_path guest_path (ls_state s) s' r.
Proof.
  intros Hwf. remember (ls_state s) as l eqn:Hl0. set (out := load_outcome PE_parse fs_read host_path guest_path l).
  enough (Hp : post (load_dll resolve PE_parse fs_read host_path guest_path) s out)
    by (unfold post in Hp; by destruct (load_dll _ _ _ _ _ s)).
  unfold load_dll, out. clear out.
  apply post_bind, post_lift. destruct (fs_read host_path) as [bytes|e|w] eqn:Hread; cbn [ctx]; [|by apply outcome_same..].
  apply post_bind, post_lift. destruct (PE_parse bytes) as [pe|e|w] eqn:Hparse; cbn [ctx]; [|by apply outcome_same..].
  destruct (negb (is_64 pe)); [by apply outcome_same|].
  apply post_keeps; [auto with keeps| |early]. intros s3 id Hs3. cbv zeta.
  apply post_bind, post_get, post_bind, post_lift. unfold ok_ctx, ok_or, checked_add.
  assert (Hl : ls_state s3 = l) by congruence. clear Hl0. rewrite Hl.
  case_decide as Hov; [|apply outcome_same; done]. apply post_bind, post_on_state. rewrite Hl.
  set (s4 := mkLoadState _ _ _). assert (Hs4 : ls_state s4 = with_next_module_handle (next_module_handle l + 0x1000) l) by done.
  clearbody s4. clear s3 Hs3 Hl.
  apply post_keeps; [auto with keeps| |early]. intros s5 base Hs5.
  apply post_keeps; [auto with keeps| |early]. intros s6 plan Hs6.
  apply post_keeps; [case_decide; auto with keeps| |early]. intros s7 [] Hs7.
  apply post_keeps; [auto with keeps| |early]. intros s8 [] Hs8.
  apply post_keeps; [auto with keeps| |early]. intros s9 [] Hs9.
  apply post_keeps; [auto with keeps| |early]. intros s10 imports Hs10.
  apply post_keeps; [auto with keeps| |early]. intros s11 [] Hs11.
  apply (register_module_post PE_parse fs_read host_path guest_path); [done|congruence|done..|]. cbn [lm_image_base].
  intros s12 m Hbase Hm Hs12.
  apply post_keeps; [auto with keeps| |].
  - intros s13 [] Hs13. apply (outcome_insert _ _ _ _ l s13 m); [done..|congruence|]. by intros d [= <-].
  - intros s13 Hs13. split; intros; (apply (outcome_insert _ _ _ _ l s13 m); [done..|congruence|done]).
Qed.

(** ** Exports *)

Definition export_rva_ok (export_rva : u32) (export_dir_end : u64) (rva : u64) : Prop :=
  rva ≠ 0 ∧ ¬ (export_rva ≤ rva < export_dir_end).

Section Exports.
Context (pe : PE) (bytes : list u8) (export_rva : u32) (export_dir_end : u64).

Lemma address_entry_ok table_rva i :
  address_entry pe bytes export_rva export_dir_end table_rva i ≠ 0 →
  export_rva_ok export_rva export_dir_end (address_entry pe bytes export_rva export_dir_end table_rva i).
Proof.
  unfold address_entry, export_rva_ok. intros Hne. case_decide as Hf; [done|]. split; [done|]. intros Hin. apply Hf.
  split; [|done]. by destruct (res_ok _).
Qed.

Definition maps_ok (maps : gmap str u64 * gmap u16 u64) : Prop :=
  (∀ n rva, maps.1 !! n = Some rva → to_ascii_lowercase n = n ∧ export_rva_ok export_rva export_dir_end rva) ∧
  ∀ o rva, maps.2 !! o = Some rva → export_rva_ok export_rva export_dir_end rva.

Lemma name_entry_ok table base np ot maps i :
  Forall (λ rva, rva ≠ 0 → export_rva_ok export_rva export_dir_end rva) table →
  maps_ok maps → maps_ok (name_entry pe bytes table base np ot maps i).
Proof.
  intros Ht [Hn Ho]. destruct maps as [names ordinals]. unfold name_entry. do 2 (case_match; [|done]). case_decide; [done|].
  cbv zeta. set (rva := default 0 (table !! _)).
  assert (Hrva : rva ≠ 0 → export_rva_ok export_rva export_dir_end rva).
  { unfold rva. destruct (table !! _) eqn:He; [|done]. intros Hne. eapply (Forall_lookup_1 _ _ _ _ Ht He Hne). }
  clearbody rva. split; cbn [fst snd].
  - intros n r. case_match; [|by apply Hn]. case_decide as Hd; [|by apply Hn].
    intros [[<- <-]|[_ Hm]]%lookup_insert_Some; [|by apply Hn]. split; [apply to_lower_idem|auto].
  - intros o r. case_decide; [|by apply Ho]. intros [[_ <-]|[_ Hm]]%lookup_insert_Some; [auto|by eapply Ho].
Qed.

Lemma fold_names_ok table base np ot idxs maps :
  Forall (λ rva, rva ≠ 0 → export_rva_ok export_rva export_dir_end rva) table →
  maps_ok maps → maps_ok (foldl (name_entry pe bytes table base np ot) maps idxs).
Proof. intros Ht. revert maps. induction idxs as [|i idxs IH]; intros maps Hm; [done|]. by apply IH, name_entry_ok. Qed.
End Exports.

(** An export the table of a DLL offers, by name or by ordinal, has an RVA
    that is not 0 and lies outside the export directory (a forwarder is never
    called as code), and names are filed in lower case; a DLL without an export
    directory offers nothing. *)
Theorem exports_sound pe bytes ex :
  parse_dll_exports pe bytes = Ok ex →
  ∃ dir, (optional_header pe ≫= oh_export_table) = Some dir ∧
    (dd_virtual_address dir = 0 → ex = exports_default) ∧
    maps_ok (dd_virtual_address dir) (sat_add (dd_virtual_address dir) (dd_size dir)) (by_name ex, by_ordinal ex).
Proof.
  unfold parse_dll_exports. destruct (optional_header pe) as [h|]; [|done]. unfold mbind at 1, res_bind at 1. cbn [ok_ctx ok_or].
  destruct (oh_export_table h) as [dir|] eqn:Hd; [|done]. unfold mbind at 1, res_bind at 1. cbn [ok_ctx ok_or].
  intros He. exists dir. split; [done|]. case_decide as Hz.
  - injection He as <-. done.
  - split; [done|]. unfold mbind, res_bind in He. destruct (ctx _ _) as [off|er|w]; [|done..]. case_decide; [done|].
    cbv zeta in He.
    match type of He with (let '(_, _) := ?x in _) = _ =>
      assert (Hm : maps_ok (dd_virtual_address dir) (sat_add (dd_virtual_address dir) (dd_size dir)) x) end.
    { apply fold_names_ok; [|by split; cbn [fst snd]; intros ? ? ?%lookup_empty_Some].
      apply Forall_forall. intros rva (i & -> & _)%list_elem_of_fmap. apply address_entry_ok. }
    destruct (foldl _ _ _) as [names ordinals]. by injection He as <-.
Qed.

(** An export without a name is not filed under its ordinal either. *)
Lemma nameless_exports_lost pe bytes table base np ot : foldl (name_entry pe bytes table base np ot) (∅, ∅) (seqZ 0 0) = (∅, ∅).
Proof. done. Qed.

(** ** DllMain *)

(** Preparing the call of a DLL's entry point, on an engine that keeps the
    laws, leaves RIP at the entry, the module's base, the reason and the reserved
    argument in RCX, RDX and R8, and the return address on top of the stack, which
    grew by one word; no other register and no other byte changes.  A DLL without
    an entry point is not called. *)
Theorem prepare_dll_main_call_spec {E} `{CpuRegsLaws E} (e : E) m reason reserved ret :
  mem_inv e → regs_ok e → let sp := reg_of e Rsp in
  8 ≤ sp < u64_lim → word_rw e (sp - 8) → in_u64 ret →
  if decide (lm_entry_rva m = 0) then prepare_dll_main_call m reason reserved ret e = (e, Ok tt)
  else ∃ e', prepare_dll_main_call m reason reserved ret e = (e', Ok tt) ∧
    reg_of e' Rip = wrapping_add (lm_image_base m) (lm_entry_rva m) ∧ reg_of e' Rsp = sp - 8 ∧
    reg_of e' Rcx = lm_image_base m ∧ reg_of e' Rdx = reason ∧ reg_of e' R8 = reserved ∧
    reg_of e' Rax = reg_of e Rax ∧ reg_of e' R9 = reg_of e R9 ∧
    get64 e' (sp - 8) = ret ∧ ∀ x, ¬ (sp - 8 ≤ x < sp) → mem_get e' x = mem_get e x.
Proof.
  intros Hi Hok sp Hsp Hrw Hret. unfold prepare_dll_main_call. case_decide; [done|].
  unfold mbind, M_bind, context, read_rsp. rewrite read_reg_ok. cbn [ctx]. fold sp.
  replace (wrapping_sub sp 8) with (sp - 8) by (unfold wrapping_sub, wrap64; rewrite Z.mod_small; lia).
  destruct (mem_write_regs e (sp - 8) (le_bytes 8 ret)) as [Hr Hk].
  destruct (mem_write_word e (sp - 8) ret Hi Hrw Hret) as (e1 & He1 & Hi1 & _ & Hget & Hout & _).
  rewrite He1 in *. cbn [fst ctx] in *. specialize (Hk Hok).
  destruct (write_reg_ok e1 Rsp (sp - 8) Hk) as (e2 & He2 & Hk2 & Hv2 & Ho2 & Hi2 & Hg2 & _).
  destruct (write_reg_ok e2 Rcx (lm_image_base m) Hk2) as (e3 & He3 & Hk3 & Hv3 & Ho3 & Hi3 & Hg3 & _).
  destruct (write_reg_ok e3 Rdx reason Hk3) as (e4 & He4 & Hk4 & Hv4 & Ho4 & Hi4 & Hg4 & _).
  destruct (write_reg_ok e4 R8 reserved Hk4) as (e5 & He5 & Hk5 & Hv5 & Ho5 & Hi5 & Hg5 & _).
  destruct (write_reg_ok e5 Rip (wrapping_add (lm_image_base m) (lm_entry_rva m)) Hk5)
    as (e6 & He6 & Hk6 & Hv6 & Ho6 & Hi6 & Hg6 & _).
  unfold write_rsp, write_rcx, write_rdx, write_r8, write_rip. rewrite He2. cbn [ctx]. rewrite He3. cbn [ctx]. rewrite He4.
  cbn [ctx]. rewrite He5. cbn [ctx]. rewrite He6. cbn [ctx]. exists e6.
  assert (Hg : mem_get e6 = mem_get e1) by congruence.
  split_and!; [done|done|rewrite Ho6, Ho5, Ho4, Ho3 by done; done|rewrite Ho6, Ho5, Ho4 by done; done
    |rewrite Ho6, Ho5 by done; done|by rewrite Ho6|by rewrite Ho6, Ho5, Ho4, Ho3, Ho2, Hr by done
    |by rewrite Ho6, Ho5, Ho4, Ho3, Ho2, Hr by done| |].
  - rewrite <- Hget. apply get64_same. intros x _. by rewrite Hg.
  - intros x Hx. rewrite Hg. apply Hout. lia.
Qed.

(** * A concrete DLL

    A one-section DLL with an import, two exports and a relocation, on which the
    theorems about images and the loader are instantiated, and the runs that show
    where the loader loses an export or loads one DLL over another. *)

From S2P Require Import Prelude protect pagemap vad arena region mem mem_access mem_ops mem_safe mem_demo.
From S2P Require Import engine guest_heap heap_coherent regs insn exec volume utf iced_cpu cpu.
From S2P Require Import guest_string guest_string_spec pe pe_spec dll_loader.

#[local] Existing Instance demo_os.
#[local] Existing Instance demo_laws.

(** ** The file *)

Definition pad (n : nat) (bs : list u8) : list u8 := bs ++ replicate (n - length bs) 0.
Definition text (s : str) : list u8 := bytes_of s ++ [0].
Definition words (n : nat) (vs : list Z) : list u8 := vs ≫= le_bytes n.

(** RVA and file offset agree. *)
Definition demo_file : list u8 :=
  replicate 0x40 0                                        (* headers *)
  ++ pad 0x30 (words 4 [0x70; 0; 0; 0x90; 0x80])          (* 0x40: import descriptors *)
  ++ pad 0x10 (words 8 [0xa0])                            (* 0x70: lookup thunks *)
  ++ pad 0x10 (words 8 [0xa0])                            (* 0x80: IAT *)
  ++ pad 0x10 (text (#"k.dll"))                           (* 0x90 *)
  ++ pad 0x08 ([0; 0] ++ text (#"Fun"))                   (* 0xa0: hint and name *)
  ++ pad 0x10 (encode_block (0, [(10, 0xb8); (0, 0)]))    (* 0xa8: relocations *)
  ++ words 8 [0x180000050]                                (* 0xb8: a pointer *)
  ++ words 4 [0; 0; 0; 0; 5; 2; 1; 0xe8; 0xf0; 0xf4]      (* 0xc0: export directory *)
  ++ words 4 [0x50; 0x60; 0xf8] ++ words 2 [0; 0] ++ pad 0x48 (text (#"Go")).

Definition demo_header : OptionalHeader :=
  mkOptional 0x1000 0x40 (Some (mkDir 0x40 0x28)) (Some (mkDir 0xc0 0x28)) (Some (mkDir 0xa8 12)).
Definition demo_section : SectionTable := mkSection (Some (#".text")) 0x40 0x100 0x40 0x100 0x60000020.
Definition demo_pe : PE := mkPE true 0x180000000 0x44 (Some demo_header) 0x8664 [demo_section] 1 1.

Example demo_file_size : length demo_file = 0x140%nat.
Proof. vm_compute. reflexivity. Qed.

Lemma demo_file_bytes : Forall is_byte demo_file.
Proof. apply (bool_decide_unpack _). vm_compute. exact I. Qed.
Lemma demo_pe_ok : pe_ok demo_pe.
Proof.
  split; [vm_compute; intuition congruence..| |].
  - apply Forall_singleton. split; cbn; lia.
  - intros h [= <-]. cbn. split; [lia|]. split; [lia|]. intros d [= <-]. cbn. lia.
Qed.

(** ** Imports *)

Definition fun_import : PeImportSummary := mkImport (#"k.dll") (#"Fun") 0 0x180000080 0x80 (Some 0xa0).
Definition demo_imports : list PeImportSummary := [fun_import].

Lemma imports_end_witness :
  inspect_pe_imports_from_parsed demo_pe demo_file = Ok demo_imports.
Proof.
  destruct (imports_end demo_pe demo_file demo_pe_ok demo_file_bytes) as [[e He]|(l & Hl & _)].
  - exfalso. revert He. clear. vm_compute. discriminate.
  - rewrite Hl. revert Hl. clear. vm_compute. by intros [= <-].
Defined.

(** ** The image *)

(** The resolver counts its calls. *)
Definition demo_target (import : PeImportSummary) : M Z u64 := λ n, (n + 1, Ok (0x70000000 + n)).

Lemma heap_mem0_zero : mirrors heap_mem0 demo_ctrl (replicate 0x1000 0).
Proof.
  destruct heap_mem0_ok as [Hi Hrw]. split.
  - exact Hi.
  - rewrite length_replicate. split_and!; [done|done|]. intros x Hx. apply Hrw. unfold demo_ctrl, demo_end in *. lia.
  - intros i b [-> Hlt]%lookup_replicate. cbn [mem_get GuestMemory_CpuMemLaws].
    assert (Hall : Forall (λ k, gbyte heap_mem0 (demo_ctrl + k) = Some 0) (seqZ 0 0x1000))
      by (clear; apply (bool_decide_unpack _); vm_compute; exact I).
    rewrite Forall_forall in Hall. apply Hall, elem_of_seqZ. lia.
Qed.

Lemma load_direct_is_image_witness :
  let '((e', n), r) := load_pe_direct_from_parsed demo_target mem_write demo_pe demo_file demo_ctrl 0x1000 (heap_mem0, 0) in
  n = 1 ∧ is_ok r = true ∧ gbyte e' (demo_ctrl + 0x83) = Some 0x70.
Proof.
  destruct (build_loaded_image_from_parsed demo_pe demo_file) as [[image summary]| |] eqn:Eb;
    [|exfalso; revert Eb; clear; vm_compute; discriminate..].
  destruct (patch_loaded_image_imports_with demo_target image demo_imports 0) as [f' r] eqn:Ep.
  assert (Hs : li_image_size summary = 0x1000) by (revert Eb; clear; vm_compute; by intros [= <- <-]).
  assert (Hf : f' = 1 ∧ ∃ image' patched, r = Ok (image', patched) ∧ image' !! 0x83%nat = Some 0x70).
  { revert Eb Ep. clear. vm_compute. intros [= <- <-]. vm_compute. intros [= <- <-]. split; [done|]. eauto. }
  destruct Hf as (-> & image' & patched & -> & Hbyte).
  destruct (pe_map_plan_from_parsed demo_pe) as [plan| |] eqn:Epl; [|exfalso; revert Epl; clear; vm_compute; discriminate..].
  assert (Hi : inspect_pe_imports_from_parsed demo_pe demo_file = Ok demo_imports) by (clear; vm_compute; reflexivity).
  pose proof heap_mem0_zero as Hz. rewrite <- (Nat2Z.id 0x1000) in Hz. change (Z.of_nat 0x1000) with 0x1000 in Hz. rewrite <- Hs in Hz.
  destruct (load_direct_is_image demo_target demo_pe demo_file demo_ctrl heap_mem0 0 1 image summary demo_imports image' patched plan
    demo_pe_ok demo_file_bytes Eb Hi Ep Epl Hz) as (e' & He & Hm).
  rewrite Hs in He. rewrite He. split; [reflexivity|]. split; [reflexivity|].
  exact (mi_holds _ _ _ Hm 0x83%nat _ Hbyte).
Defined.

Lemma page_align_image_range_spec_witness :
  match page_align_image_range 0x1010 0x2000 0x2800 with Some (s, e) => s mod 4096 = 0 ∧ e < 0x2800 + 4096 | None => False end.
Proof.
  pose proof (page_align_image_range_spec 0x1010 0x2000 0x2800 ltac:(lia) ltac:(lia) ltac:(lia)) as H.
  destruct (page_align_image_range 0x1010 0x2000 0x2800) as [[s e]|] eqn:E.
  - split; apply H.
  - revert E. clear. vm_compute. discriminate.
Defined.

Lemma command_line_roundtrip_witness :
  ∃ tail, build_windows_command_line (#"app.exe") [ #"a b"; []; #"c"] = quote_windows_arg (#"app.exe") ++ tail ∧
    parse_args false false 0 [] tail = [ #"a b"; []; #"c"].
Proof.
  apply command_line_roundtrip. apply (bool_decide_unpack _). vm_compute. exact I.
Defined.

(** ** Strings in guest memory *)

Lemma demo_accessible a n : demo_ctrl ≤ a → a + n ≤ demo_end → accessible heap_mem0 a n.
Proof.
  intros Ha Hn. destruct heap_mem0_ok as [_ Hrw]. unfold demo_ctrl, demo_end in *.
  split_and!; [lia|lia|]. intros x Hx. apply Hrw. lia.
Qed.

Lemma fixed_ansi_roundtrip_witness :
  ∃ e1 e2, write_fixed_ansi demo_ctrl 4 [65; 66; 67; 68] heap_mem0 = (e1, Ok tt) ∧
    read_ansi_bytes demo_ctrl 10 e1 = (e2, Ok [65; 66; 67]).
Proof.
  destruct (fixed_ansi_roundtrip heap_mem0 demo_ctrl 4 10 [65; 66; 67; 68]) as (e1 & e2 & H1 & H2 & _).
  - apply heap_mem0_ok.
  - reflexivity.
  - apply Nat.ltb_lt. reflexivity.
  - apply demo_accessible; unfold demo_ctrl, demo_end; lia.
  - apply (bool_decide_unpack _). vm_compute. exact I.
  - exists e1, e2. split; [exact H1|exact H2].
Defined.

Lemma wide_string_roundtrip_witness :
  ∃ e1 e2, write_utf16_c_string demo_ctrl 8 [0x1f600; 0xe9] heap_mem0 = (e1, Ok 3%nat) ∧
    read_utf16_lossy demo_ctrl 10 e1 = (e2, Ok [0x1f600; 0xe9]).
Proof.
  destruct (wide_string_roundtrip heap_mem0 demo_ctrl 8 10 [0x1f600; 0xe9]) as (e1 & e2 & H1 & H2 & H3).
  - apply heap_mem0_ok.
  - reflexivity.
  - apply Nat.ltb_lt. reflexivity.
  - apply demo_accessible; unfold demo_ctrl, demo_end; lia.
  - apply (bool_decide_unpack _). vm_compute. exact I.
  - apply (bool_decide_unpack _). vm_compute. exact I.
  - apply Nat.leb_le. reflexivity.
  - exists e1, e2. split; [exact H1|]. rewrite H2. reflexivity.
Defined.

(** ** Relocation *)

Definition demo_blocks : list RelocBlock := [(0, [(10, 0xb8); (0, 0)])].
Definition demo_image : list u8 := pad 0x1000 demo_file.

Lemma relocations_spec_witness :
  ∃ image', apply_relocations demo_pe demo_file (- 0x110fff000) demo_image = (image', Ok tt) ∧
    image' !! (0xb8 + 4)%nat = le_bytes 8 (0x6f001050) !! 4%nat ∧ image' !! 0xc0%nat = Some 0.
Proof.
  destruct (relocations_spec demo_pe demo_file (- 0x110fff000) demo_blocks demo_image) as (image' & He & _ & Hin & Hout).
  - discriminate.
  - vm_compute. reflexivity.
  - apply Forall_singleton. split; [cbn; lia|]. apply Forall_cons. split; [split; cbn; [tauto|lia]|].
    apply Forall_singleton. split; cbn; [tauto|lia].
  - vm_compute. reflexivity.
  - vm_compute. reflexivity.
  - vm_compute. reflexivity.
  - apply Forall_singleton. split; [vm_compute; discriminate|].
    exists 0xb8. split_and!; vm_compute; congruence.
  - constructor; constructor.
  - exists image'. split; [exact He|]. split.
    + refine (eq_trans (Hin (10, 0xb8) 0xb8 4%nat _ _ _) _); [left|split_and!; vm_compute; congruence| |vm_compute; reflexivity].
      apply Nat.ltb_lt. reflexivity.
    + rewrite Hout; [vm_compute; reflexivity|]. intros f Hf. vm_compute in Hf.
      apply list_elem_of_In in Hf. destruct Hf as [<-|[]]; intros [H1 H2]; revert H1 H2; vm_compute; congruence.
Defined.

(** ** Loading *)

#[local] Instance demo_map : CpuMap GuestMemory := GuestMemory_CpuMap None.

Definition demo_resolve (library name : str) (iat_va : u64) : M Z u64 := λ n, (n + 1, Ok (0x70000000 + n)).
Definition demo_loader : Loader := mkLoader REAL_MODULE_HANDLE_BASE ∅.
Definition demo_load (host_path : str) : M (@LoadState GuestMemory Z) DllLoadResult :=
  load_dll demo_resolve (λ _, Ok demo_pe) (λ _, Ok demo_file) host_path (#"C:\App\k.dll").
Definition demo_start : @LoadState GuestMemory Z := mkLoadState (gm_new Host_empty) demo_loader 0.

Definition first_load := demo_load (#"/x/One.dll") demo_start.
Definition second_load := demo_load (#"/x/Two.dll") first_load.1.

Lemma demo_loader_wf : loader_wf demo_loader.
Proof.
  split; [intros n m Hm|intros n1 n2 m1 m2 Hm|vm_compute; discriminate];
    change (loaded_modules demo_loader) with (∅ : gmap str LoadedModule) in Hm; by apply lookup_empty_Some in Hm.
Qed.

Lemma load_dll_modules_witness :
  loader_wf (ls_state first_load.1) ∧ ∃ d, first_load.2 = Ok d ∧ lm_handle (dl_module d) = 0x6f000000 ∧
    loaded_modules (ls_state first_load.1) = {[ lm_name (dl_module d) := dl_module d ]}.
Proof.
  pose proof (load_dll_modules demo_resolve (λ _, Ok demo_pe) (λ _, Ok demo_file) (#"/x/One.dll") (#"C:\App\k.dll")
    demo_start demo_loader_wf) as H.
  change (load_dll _ _ _ _ _ _) with first_load in H.
  assert (Hok : is_ok first_load.2 = true) by (clear; vm_compute; reflexivity).
  destruct first_load as [s r]. cbn [snd fst] in *. destruct r as [d| |]; [|discriminate Hok..].
  destruct H as (Hwf & Hm & _ & Hl & _). split; [exact Hwf|]. exists d. split; [reflexivity|].
  split; [exact (fi_handle _ _ _ _ _ _ Hm)|exact Hl].
Defined.

Lemma exports_sound_witness :
  ∃ ex, parse_dll_exports demo_pe demo_file = Ok ex ∧ by_name ex !! (#"go") = Some 0x50 ∧ export_rva_ok 0xc0 0xe8 0x50.
Proof.
  destruct (parse_dll_exports demo_pe demo_file) as [ex| |] eqn:E; [|exfalso; revert E; clear; vm_compute; discriminate..].
  exists ex. split; [reflexivity|].
  assert (Hn : by_name ex !! (#"go") = Some 0x50) by (revert E; clear; vm_compute; by intros [= <-]).
  split; [exact Hn|]. destruct (exports_sound demo_pe demo_file ex E) as (dir & Hdir & _ & [Hm _]).
  injection Hdir as <-. exact (proj2 (Hm _ _ Hn)).
Defined.

(** What a run returned. *)
Definition returned {S A B} (f : A → B) (run : S * res A) : option B := match run.2 with Ok a => Some (f a) | _ => None end.

(** The second function has an ordinal and no name: it is not found. *)
Lemma nameless_export_lost :
  returned (λ d, (get_export_va_by_ordinal (dl_module d) 5, get_export_va_by_ordinal (dl_module d) 6)) first_load =
  Some (Some 0x180000050, None).
Proof. vm_compute. reflexivity. Qed.

(** The pages of a loaded DLL can be mapped again: a second DLL with the same preferred base is written
    over the first, and both stay in the table. *)
Lemma second_dll_over_first :
  returned dl_image_base first_load = Some 0x180000000 ∧ returned dl_image_base second_load = Some 0x180000000 ∧
  returned (lm_name ∘ dl_module) first_load = Some (#"one.dll") ∧ returned (lm_name ∘ dl_module) second_load = Some (#"two.dll") ∧
  size (loaded_modules (ls_state second_load.1)) = 2%nat.
Proof. split_and!; vm_compute; reflexivity. Qed.

(** ** DllMain *)

Definition demo_engine : GuestMemory * IcedCpu :=
  (heap_mem0, with_regs (set_rsp (demo_ctrl + 0x1000) (i_regs new_engine)) new_engine).
Definition demo_module : LoadedModule :=
  mkModule REAL_MODULE_HANDLE_BASE 0x180000000 0x1000 0x44 (#"one.dll") [] [] 1 ∅ ∅ 5 2.

Lemma prepare_dll_main_call_spec_witness :
  ∃ e', prepare_dll_main_call demo_module DLL_PROCESS_ATTACH 0 0x7fff0000 demo_engine = (e', Ok tt) ∧
    rip (i_regs e'.2) = 0x180000044 ∧ rdx (i_regs e'.2) = 1 ∧ get64 e' (demo_ctrl + 0xff8) = 0x7fff0000.
Proof.
  destruct heap_mem0_ok as [Hi Hrw].
  pose proof (prepare_dll_main_call_spec demo_engine demo_module DLL_PROCESS_ATTACH 0 0x7fff0000 Hi eq_refl) as H.
  cbv zeta in H. change (reg_of demo_engine Rsp) with (demo_ctrl + 0x1000) in H. rewrite decide_False in H by discriminate.
  destruct H as (e' & He & Hrip & _ & _ & Hrdx & _ & _ & _ & Hret & _).
  - unfold demo_ctrl. lia.
  - split_and!; [unfold demo_ctrl; lia..|]. intros x Hx. apply Hrw. unfold demo_ctrl, demo_end in *. lia.
  - exact (in_u64_lit eq_refl).
  - exists e'. split; [exact He|]. split; [exact Hrip|]. split; [exact Hrdx|]. exact Hret.
Defined.
