(* ===== verification/hostfs.v ===== *)
(** * The host file system behind the guest's paths (vfs/backend.rs)

    [HostFs] is what the code calls of [std::fs]; the system behind it is a
    parameter.  [content] of [HostFsLaws] is the bytes of the regular file a path
    names, and the laws are what std promises of them: a call that succeeds has
    its effect, and another path keeps its file.  [stat_path] and [list_dir] look
    a guest path up among the drives, the mounts, the files in memory, the main
    module and the directories that always exist. *)

From S2P Require Import Prelude path volume pe dll_loader.

Definition BUFFER_SIZE_THRESHOLD : u64 := 16 * 1024 * 1024.
Definition FILE_ATTRIBUTE_DIRECTORY : u32 := 0x10.
Definition FILE_ATTRIBUTE_ARCHIVE : u32 := 0x20.
Definition FILE_ATTRIBUTE_NORMAL : u32 := 0x80.

(** ** std::fs *)

Inductive FileKind := RegularFile | Folder | OtherKind.
Record Metadata := mkMeta { md_kind : FileKind; md_len : u64 }.
(** An entry of a directory: its name, and its metadata where that is readable. *)
Record HostEntry := mkEntry { he_name : str; he_metadata : option Metadata }.
Inductive IoErrorKind := DirectoryNotEmpty | OtherError.
(** [File::open], [File::create], and the two [OpenOptions] of the code. *)
Inductive OpenMode := OpenRead | CreateFile | WriteExisting | WriteOrCreate.

Class HostFs := {
  Fs : Type;
  File : Type;
  fs_metadata : Fs → str → option Metadata;
  fs_read : Fs → str → option (list u8);
  fs_write : str → list u8 → Fs → Fs * option unit;
  fs_create_dir_all : str → Fs → Fs * option unit;
  fs_remove_file : str → Fs → Fs * option unit;
  fs_remove_dir : str → Fs → Fs * (unit + IoErrorKind);
  fs_rename : str → str → Fs → Fs * option unit;
  fs_copy : str → str → Fs → Fs * option u64;
  fs_read_dir : Fs → str → option (list HostEntry);
  fs_open : OpenMode → str → Fs → Fs * option File;
  (** Seek from the start, then one [read] of at most so many bytes. *)
  fs_read_from : File → u64 → usize → Fs → option (list u8);
  (** Seek from the start, then [write_all]. *)
  fs_write_from : File → u64 → list u8 → Fs → Fs * option unit;
  fs_set_len : File → u64 → Fs → Fs * option unit;
}.

(** Bytes written at [off]; a gap before them is zeros. *)
Definition overwrite (off : nat) (data bs : list u8) : list u8 :=
  let bs := bs ++ replicate (off + length data - length bs) 0 in
  take off bs ++ data ++ drop (off + length data) bs.
(** [Vec::resize] and [File::set_len]. *)
Definition resize_bytes (n : nat) (bs : list u8) : list u8 := take n bs ++ replicate (n - length bs) 0.

(** What std promises.  [content] is what stat finds; distinct paths name
    distinct files, so the directories hold no links to a file. *)
Class HostFsLaws `{HostFs} := {
  content : Fs → str → option (list u8);
  named : File → str;
  metadata_content s p :
    match content s p with
    | Some bs => fs_metadata s p = Some (mkMeta RegularFile (Z.of_nat (length bs)))
    | None => ∀ m, fs_metadata s p = Some m → md_kind m ≠ RegularFile
    end;
  content_len s p bs : content s p = Some bs → Z.of_nat (length bs) < 2 ^ 63;
  read_content s p bs : fs_read s p = Some bs → content s p = Some bs;
  write_content p bs s s' : fs_write p bs s = (s', Some tt) → content s' p = Some bs;
  write_frame p bs s q : q ≠ p → content (fs_write p bs s).1 q = content s q;
  create_dir_frame p s q : content (fs_create_dir_all p s).1 q = content s q;
  open_named m p s s' f : fs_open m p s = (s', Some f) → named f = p;
  open_content m p s s' f :
    fs_open m p s = (s', Some f) →
    content s' p = match m with
                   | CreateFile => Some []
                   | WriteOrCreate => Some (default [] (content s p))
                   | OpenRead | WriteExisting => content s p
                   end;
  open_failed m p s s' q : fs_open m p s = (s', None) → content s' q = content s q;
  open_exists m p s s' f : fs_open m p s = (s', Some f) → m = WriteExisting → is_Some (content s p);
  open_frame m p s q : q ≠ p → content (fs_open m p s).1 q = content s q;
  (** A read stops short only where it was cut: it returns something of what is left. *)
  read_from_content f off n s bs :
    fs_read_from f off n s = Some bs → ∀ c, content s (named f) = Some c →
    ∃ k, bs = take k (drop (Z.to_nat off) c) ∧ Z.of_nat k ≤ n ∧ (bs = [] → n = 0 ∨ Z.of_nat (length c) ≤ off);
  write_from_content f off data s s' :
    fs_write_from f off data s = (s', Some tt) → ∀ c, content s (named f) = Some c →
    content s' (named f) = Some (if decide (data = []) then c else overwrite (Z.to_nat off) data c);
  write_from_frame f off data s q : q ≠ named f → content (fs_write_from f off data s).1 q = content s q;
  set_len_content f n s s' :
    fs_set_len f n s = (s', Some tt) → ∀ c, content s (named f) = Some c →
    content s' (named f) = Some (resize_bytes (Z.to_nat n) c);
  set_len_frame f n s q : q ≠ named f → content (fs_set_len f n s).1 q = content s q;
  remove_content p s s' : fs_remove_file p s = (s', Some tt) → content s' p = None;
  remove_frame p s q : q ≠ p → content (fs_remove_file p s).1 q = content s q;
  rename_content a b s s' :
    fs_rename a b s = (s', Some tt) → ∀ c, content s a = Some c → content s' b = Some c ∧ (a ≠ b → content s' a = None);
}.

Section Host.
Context `{HostFs}.

Definition is_dir (s : Fs) (p : str) : bool :=
  match fs_metadata s p with Some (mkMeta Folder _) => true | _ => false end.
Definition is_file (s : Fs) (p : str) : bool :=
  match fs_metadata s p with Some (mkMeta RegularFile _) => true | _ => false end.

Definition io (A : Type) : Type := Fs → Fs * option A.
Definition io_bind {A B} (m : io A) (f : A → io B) : io B := λ s,
  match m s with (s, Some a) => f a s | (s, None) => (s, None) end.
Definition create_parents (p : str) : io unit :=
  match path_parent p with Some parent => fs_create_dir_all parent | None => λ s, (s, Some tt) end.

Definition read_all_host (path : str) (s : Fs) : option (list u8) := fs_read s path.
Definition create_host_file (path : str) : io unit :=
  io_bind (create_parents path) (λ _, io_bind (fs_open CreateFile path) (λ _ s, (s, Some tt))).
Definition mkdir_host (path : str) : io unit := fs_create_dir_all path.
Definition remove_file_host (path : str) : io unit := fs_remove_file path.
Definition remove_dir_host (path : str) : Fs → Fs * (unit + IoErrorKind) := fs_remove_dir path.
Definition rename_host (src dst : str) : io unit := io_bind (create_parents dst) (λ _, fs_rename src dst).
Definition copy_host (src dst : str) : io u64 := io_bind (create_parents dst) (λ _, fs_copy src dst).

Definition host_read_at (path : str) (offset : u64) (n : usize) : io (list u8) :=
  io_bind (fs_open OpenRead path) (λ f s, (s, fs_read_from f offset n s)).
Definition host_write_at (path : str) (offset : u64) (data : list u8) : io unit :=
  io_bind (fs_open WriteOrCreate path) (λ f, fs_write_from f offset data).
Definition host_file_len (path : str) (s : Fs) : option u64 := md_len <$> fs_metadata s path.
Definition host_set_len (path : str) (len : u64) : io unit :=
  io_bind (fs_open WriteExisting path) (λ f, fs_set_len f len).
End Host.

(** ** Guest paths *)

Inductive PathKind := NotFound | PathFile | Directory.
Record PathStat := mkStat { st_kind : PathKind; st_size : u64; st_attributes : u32 }.
Record DirEntry := mkDirEntry { de_name : str; de_attributes : u32; de_size : u64 }.
#[global] Instance PathKind_eq_dec : EqDecision PathKind.
Proof. solve_decision. Defined.
#[global] Instance DirEntry_eq_dec : EqDecision DirEntry.
Proof. solve_decision. Defined.

Record ResolveCtx := mkResolve {
  rc_volumes : VolumeConfig;
  rc_main_module_path : str;
  rc_main_module_file_name : str;
  rc_host_file_mounts : list (str * str);
  rc_virtual_files : list (str * usize);
  rc_synthetic_dirs : list str;
}.

Definition DEFAULT_SYNTHETIC_DIRS : list str :=
  [ #"C:\"; #"C:\App"; #"C:\Windows"; #"C:\Windows\System32"; #"C:\Windows\SysWOW64"; #"C:\Users"; #"C:\Users\WIE";
   #"C:\Users\WIE\AppData"; #"C:\Users\WIE\AppData\Local"; #"C:\Users\WIE\AppData\Local\Temp"; #"C:\Temp"; #"C:\ProgramData"].

Definition eq_ignore_case (a b : str) : bool := bool_decide (to_ascii_lowercase a = to_ascii_lowercase b).
Definition path_is_main_module (ctx : ResolveCtx) (path : str) : bool :=
  paths_equal_ci path (rc_main_module_path ctx) || eq_ignore_case (guest_basename path) (rc_main_module_file_name ctx).

Definition not_found : PathStat := mkStat NotFound 0 0.
Definition trim_end_bslash : str → str := trim_end_matches (λ c, bool_decide (c = bslash)).

Definition is_drive_root (path : str) : bool :=
  let p := trim_end_matches is_sep path in
  bool_decide (length p = 2%nat) && bool_decide (p !! 1%nat = Some colon)
  && match p !! 0%nat with Some c => is_ascii_alphabetic c | None => false end.

Definition is_synthetic_dir (ctx : ResolveCtx) (path : str) : bool :=
  let trimmed := trim_end_matches is_sep path in
  existsb (paths_equal_ci trimmed) (rc_synthetic_dirs ctx)
  || let lower := to_ascii_lowercase trimmed in
     existsb (λ d, let dl := to_ascii_lowercase (trim_end_bslash d) in
                   starts_with lower dl
                   && (bool_decide (length dl = length lower) || bool_decide (dl !! length lower = Some bslash)))
       (rc_synthetic_dirs ctx).

Section Lookup.
Context `{HostFs}.

Definition stat_host_path (s : Fs) (host : str) : PathStat :=
  match fs_metadata s host with
  | Some (mkMeta Folder _) => mkStat Directory 0 FILE_ATTRIBUTE_DIRECTORY
  | Some (mkMeta RegularFile len) => mkStat PathFile len (Z.lor FILE_ATTRIBUTE_ARCHIVE FILE_ATTRIBUTE_NORMAL)
  | _ => not_found
  end.

Definition stat_path (s : Fs) (ctx : ResolveCtx) (full_path : str) : PathStat :=
  if decide (full_path = []) then not_found
  else if is_drive_root full_path || is_synthetic_dir ctx full_path then mkStat Directory 0 FILE_ATTRIBUTE_DIRECTORY
  else if path_is_main_module ctx full_path then mkStat PathFile 0 FILE_ATTRIBUTE_ARCHIVE
  else
    match List.find (λ m, paths_equal_ci full_path m.1) (rc_host_file_mounts ctx) with
    | Some m => stat_host_path s m.2
    | None =>
        match List.find (λ v, paths_equal_ci full_path v.1) (rc_virtual_files ctx) with
        | Some v => mkStat PathFile v.2 FILE_ATTRIBUTE_ARCHIVE
        | None =>
            match guest_path_to_host (rc_volumes ctx) full_path with
            | Some map => stat_host_path s (hm_host map)
            | None =>
                if (ends_with_char full_path bslash || ends_with_char full_path fslash)
                   && is_synthetic_dir ctx (trim_end_bslash full_path)
                then mkStat Directory 0 FILE_ATTRIBUTE_DIRECTORY
                else not_found
            end
        end
    end.

(** An entry unless one has its name already. *)
Definition add_if_new (e : DirEntry) (entries : list DirEntry) : list DirEntry :=
  if existsb (λ x, eq_ignore_case (de_name x) (de_name e)) entries then entries else entries ++ [e].

Definition host_entry (e : HostEntry) : DirEntry :=
  mkDirEntry (display (he_name e))
    (match he_metadata e with Some (mkMeta Folder _) => FILE_ATTRIBUTE_DIRECTORY | _ => FILE_ATTRIBUTE_ARCHIVE end)
    (match he_metadata e with Some m => md_len m | None => 0 end).

(** The directory [d] that is a child of [dir], one level below. *)
Definition synthetic_child (dir_lower d : str) : bool :=
  match strip dir_lower (to_ascii_lowercase (trim_end_bslash d)) with
  | Some rest =>
      let rest := trim_start_matches (λ c, bool_decide (c = bslash)) rest in
      negb (bool_decide (rest = [])) && negb (bool_decide (bslash ∈ rest))
  | None => false
  end.

Definition list_dir (s : Fs) (ctx : ResolveCtx) (dir_path : str) : list DirEntry :=
  if decide (st_kind (stat_path s ctx dir_path) ≠ Directory) then []
  else
    let dot name := mkDirEntry name FILE_ATTRIBUTE_DIRECTORY 0 in
    let on_host :=
      match guest_path_to_host (rc_volumes ctx) dir_path with
      | Some map => if is_dir s (hm_host map) then default [] (fs_read_dir s (hm_host map)) else []
      | None => []
      end in
    let dir_norm := trim_end_bslash dir_path in
    let inside guest := let parent := guest_parent guest in paths_equal_ci parent dir_norm || paths_equal_ci parent dir_path in
    let virtuals := List.filter (λ v, inside v.1) (rc_virtual_files ctx) in
    let mounts := List.filter (λ m, inside m.1) (rc_host_file_mounts ctx) in
    let entries :=
      [ dot #"."; dot #".."] ++ (host_entry <$> on_host)
      ++ ((λ v, mkDirEntry (guest_basename v.1) FILE_ATTRIBUTE_ARCHIVE v.2) <$> virtuals)
      ++ ((λ m, mkDirEntry (guest_basename m.1) FILE_ATTRIBUTE_ARCHIVE (default 0 (md_len <$> fs_metadata s m.2))) <$> mounts) in
    let entries :=
      if negb (bool_decide (rc_main_module_path ctx = [])) && inside (rc_main_module_path ctx)
      then add_if_new (mkDirEntry (rc_main_module_file_name ctx) FILE_ATTRIBUTE_ARCHIVE 0) entries
      else entries in
    foldl (λ entries d, add_if_new (dot (guest_basename d)) entries) entries
      (List.filter (synthetic_child (to_ascii_lowercase dir_norm)) (rc_synthetic_dirs ctx)).

Definition list_dir_filtered (s : Fs) (ctx : ResolveCtx) (dir_path mask : str) : list DirEntry :=
  let mask := if decide (mask = [] ∨ mask = #"*.*") then #"*" else mask in
  List.filter (λ e, wildcard_match mask (de_name e)) (list_dir s ctx dir_path).
End Lookup.
