(* ===== verification/files.v ===== *)
(** * The files of a process (crates/wie-winapi/src/lib.rs, kernel32.rs)

    The state the file calls share, and what they do to it and to the host's file
    system before anything reaches guest memory: which file a path names, opening
    and creating by disposition, the two representations of an open file (its
    bytes in memory, or a host file that is streamed), flushing, directories,
    deletion, renaming and enumeration. *)

From S2P Require Import Prelude path volume utf pe dll_loader hostfs.

(** ** State *)

Inductive GuestStdinMode := InjectOnly | LiveHost.
Record GuestIoRuntimeConfig := mkGuestIo { table_va : u64; file_data_base : u64; file_data_size : usize }.
Record HostFileMount := mkMount { hf_guest_path : str; hf_host_path : str }.
Record VirtualGuestFile := mkVirtual { vf_guest_path : str; vf_bytes : list u8 }.
Record FindHandle := mkFind { fh_handle : u64; fh_pattern : str; fh_remaining : list DirEntry }.
Record OpenGuestFile := mkOpen {
  of_handle : u64;
  of_path : str;
  of_bytes : list u8;
  of_cursor : u64;
  of_host_path : option str;
  of_streaming : bool;
  of_guest_data_va : option u64;
  of_guest_slot_index : option u32;
}.
Definition set_cursor (x : u64) (f : OpenGuestFile) : OpenGuestFile :=
  mkOpen (of_handle f) (of_path f) (of_bytes f) x (of_host_path f) (of_streaming f) (of_guest_data_va f) (of_guest_slot_index f).
Definition set_bytes (x : list u8) (f : OpenGuestFile) : OpenGuestFile :=
  mkOpen (of_handle f) (of_path f) x (of_cursor f) (of_host_path f) (of_streaming f) (of_guest_data_va f) (of_guest_slot_index f).
(** The bytes dropped, the file streamed from now on. *)
Definition set_streamed (f : OpenGuestFile) : OpenGuestFile :=
  mkOpen (of_handle f) (of_path f) [] (of_cursor f) (of_host_path f) true (of_guest_data_va f) (of_guest_slot_index f).
Definition set_mirror (va : option u64) (slot : option u32) (f : OpenGuestFile) : OpenGuestFile :=
  mkOpen (of_handle f) (of_path f) (of_bytes f) (of_cursor f) (of_host_path f) (of_streaming f) va slot.

(** The fields of [WinApiState] the file calls use. *)
Record FileState := mkFiles {
  executable_file_bytes : list u8;
  main_module_file_name : str;
  main_module_path : str;
  process_bottle_root : option str;
  volumes : VolumeConfig;
  executable_file_cursor : u64;
  host_file_mounts : list HostFileMount;
  virtual_files : list VirtualGuestFile;
  open_files : gmap u64 OpenGuestFile;
  next_file_handle : u64;
  current_directory_wide : list u16;
  find_handles : list FindHandle;
  next_find_handle : u64;
  tick_count : u64;
  guest_io : option GuestIoRuntimeConfig;
  guest_file_data_next : u64;
  stdin_bytes : list u8;
  stdin_cursor : usize;
  stdin_mode : GuestStdinMode;
}.
Definition set_volumes (x : VolumeConfig) (s : FileState) : FileState :=
  mkFiles (executable_file_bytes s) (main_module_file_name s) (main_module_path s) (process_bottle_root s) x
    (executable_file_cursor s) (host_file_mounts s) (virtual_files s) (open_files s) (next_file_handle s)
    (current_directory_wide s) (find_handles s) (next_find_handle s) (tick_count s) (guest_io s)
    (guest_file_data_next s) (stdin_bytes s) (stdin_cursor s) (stdin_mode s).
Definition set_executable_cursor (x : u64) (s : FileState) : FileState :=
  mkFiles (executable_file_bytes s) (main_module_file_name s) (main_module_path s) (process_bottle_root s)
    (volumes s) x (host_file_mounts s) (virtual_files s) (open_files s) (next_file_handle s)
    (current_directory_wide s) (find_handles s) (next_find_handle s) (tick_count s) (guest_io s)
    (guest_file_data_next s) (stdin_bytes s) (stdin_cursor s) (stdin_mode s).
Definition set_mounts (x : list HostFileMount) (s : FileState) : FileState :=
  mkFiles (executable_file_bytes s) (main_module_file_name s) (main_module_path s) (process_bottle_root s)
    (volumes s) (executable_file_cursor s) x (virtual_files s) (open_files s) (next_file_handle s)
    (current_directory_wide s) (find_handles s) (next_find_handle s) (tick_count s) (guest_io s)
    (guest_file_data_next s) (stdin_bytes s) (stdin_cursor s) (stdin_mode s).
Definition set_virtual_files (x : list VirtualGuestFile) (s : FileState) : FileState :=
  mkFiles (executable_file_bytes s) (main_module_file_name s) (main_module_path s) (process_bottle_root s)
    (volumes s) (executable_file_cursor s) (host_file_mounts s) x (open_files s) (next_file_handle s)
    (current_directory_wide s) (find_handles s) (next_find_handle s) (tick_count s) (guest_io s)
    (guest_file_data_next s) (stdin_bytes s) (stdin_cursor s) (stdin_mode s).
Definition set_open_files (x : gmap u64 OpenGuestFile) (s : FileState) : FileState :=
  mkFiles (executable_file_bytes s) (main_module_file_name s) (main_module_path s) (process_bottle_root s)
    (volumes s) (executable_file_cursor s) (host_file_mounts s) (virtual_files s) x (next_file_handle s)
    (current_directory_wide s) (find_handles s) (next_find_handle s) (tick_count s) (guest_io s)
    (guest_file_data_next s) (stdin_bytes s) (stdin_cursor s) (stdin_mode s).
Definition set_next_file_handle (x : u64) (s : FileState) : FileState :=
  mkFiles (executable_file_bytes s) (main_module_file_name s) (main_module_path s) (process_bottle_root s)
    (volumes s) (executable_file_cursor s) (host_file_mounts s) (virtual_files s) (open_files s) x
    (current_directory_wide s) (find_handles s) (next_find_handle s) (tick_count s) (guest_io s)
    (guest_file_data_next s) (stdin_bytes s) (stdin_cursor s) (stdin_mode s).
Definition set_current_directory (x : list u16) (s : FileState) : FileState :=
  mkFiles (executable_file_bytes s) (main_module_file_name s) (main_module_path s) (process_bottle_root s)
    (volumes s) (executable_file_cursor s) (host_file_mounts s) (virtual_files s) (open_files s)
    (next_file_handle s) x (find_handles s) (next_find_handle s) (tick_count s) (guest_io s)
    (guest_file_data_next s) (stdin_bytes s) (stdin_cursor s) (stdin_mode s).
Definition set_find_handles (x : list FindHandle) (s : FileState) : FileState :=
  mkFiles (executable_file_bytes s) (main_module_file_name s) (main_module_path s) (process_bottle_root s)
    (volumes s) (executable_file_cursor s) (host_file_mounts s) (virtual_files s) (open_files s)
    (next_file_handle s) (current_directory_wide s) x (next_find_handle s) (tick_count s) (guest_io s)
    (guest_file_data_next s) (stdin_bytes s) (stdin_cursor s) (stdin_mode s).
Definition set_next_find_handle (x : u64) (s : FileState) : FileState :=
  mkFiles (executable_file_bytes s) (main_module_file_name s) (main_module_path s) (process_bottle_root s)
    (volumes s) (executable_file_cursor s) (host_file_mounts s) (virtual_files s) (open_files s)
    (next_file_handle s) (current_directory_wide s) (find_handles s) x (tick_count s) (guest_io s)
    (guest_file_data_next s) (stdin_bytes s) (stdin_cursor s) (stdin_mode s).
Definition set_tick_count (x : u64) (s : FileState) : FileState :=
  mkFiles (executable_file_bytes s) (main_module_file_name s) (main_module_path s) (process_bottle_root s)
    (volumes s) (executable_file_cursor s) (host_file_mounts s) (virtual_files s) (open_files s)
    (next_file_handle s) (current_directory_wide s) (find_handles s) (next_find_handle s) x (guest_io s)
    (guest_file_data_next s) (stdin_bytes s) (stdin_cursor s) (stdin_mode s).
Definition set_guest_file_data_next (x : u64) (s : FileState) : FileState :=
  mkFiles (executable_file_bytes s) (main_module_file_name s) (main_module_path s) (process_bottle_root s)
    (volumes s) (executable_file_cursor s) (host_file_mounts s) (virtual_files s) (open_files s)
    (next_file_handle s) (current_directory_wide s) (find_handles s) (next_find_handle s) (tick_count s)
    (guest_io s) x (stdin_bytes s) (stdin_cursor s) (stdin_mode s).
Definition set_stdin (x0 : list u8) (x1 : usize) (s : FileState) : FileState :=
  mkFiles (executable_file_bytes s) (main_module_file_name s) (main_module_path s) (process_bottle_root s)
    (volumes s) (executable_file_cursor s) (host_file_mounts s) (virtual_files s) (open_files s)
    (next_file_handle s) (current_directory_wide s) (find_handles s) (next_find_handle s) (tick_count s)
    (guest_io s) (guest_file_data_next s) x0 x1 (stdin_mode s).

Definition ERROR_PATH_NOT_FOUND : u32 := 3.
Definition ERROR_ACCESS_DENIED : u32 := 5.
Definition ERROR_NO_MORE_FILES : u32 := 18.
Definition ERROR_READ_FAULT : u32 := 30.
Definition ERROR_FILE_EXISTS : u32 := 80.
Definition ERROR_DIR_NOT_EMPTY : u32 := 145.
Definition ERROR_ALREADY_EXISTS : u32 := 183.
Definition FILE_NOT_FOUND : u32 := 2.
Definition INVALID_PARAMETER : u32 := 87.
Definition INVALID_HANDLE_VALUE : u64 := u64_lim - 1.
Definition INVALID_FILE_ATTRIBUTES : u64 := 0xffffffff.

Definition CREATE_NEW : u64 := 1.
Definition CREATE_ALWAYS : u64 := 2.
Definition OPEN_EXISTING : u64 := 3.
Definition OPEN_ALWAYS : u64 := 4.
Definition TRUNCATE_EXISTING : u64 := 5.

(** A [String] of characters and its bytes. *)
Definition text_str (cs : list char) : str := str_of (utf8_encode cs).
Definition str_text (s : str) : list char := from_utf8_lossy (bytes_of s).

Definition len64 (bs : list u8) : u64 := Z.of_nat (length bs).

(** ** Names *)

Definition paths_match_guest (requested candidate : str) : bool := paths_equal_ci requested candidate.
Definition is_main_module_path (s : FileState) (path : str) : bool :=
  paths_match_guest path (main_module_path s) || eq_ignore_case (guest_basename path) (main_module_file_name s).
Definition find_mount (s : FileState) (path : str) : option HostFileMount :=
  List.find (λ m, paths_match_guest path (hf_guest_path m)) (host_file_mounts s).
Definition find_virtual (s : FileState) (path : str) : option VirtualGuestFile :=
  List.find (λ v, paths_match_guest path (vf_guest_path v)) (virtual_files s).
Definition host_of (s : FileState) (path : str) : option str := hm_host <$> guest_path_to_host (volumes s) path.
Definition current_directory (s : FileState) : str := text_str (from_utf16_lossy (current_directory_wide s)).
(** A path against the current directory, with the drives brought up to date. *)
Definition sync_volumes (s : FileState) : FileState :=
  set_volumes (mkVolumes (process_bottle_root s) (drive_d_root (volumes s))) s.
Definition full_path (s : FileState) (path : str) : str := resolve_full_windows_path (current_directory s) path.

Definition resolve_ctx (s : FileState) : ResolveCtx :=
  mkResolve (volumes s) (main_module_path s) (main_module_file_name s)
    ((λ m, (hf_guest_path m, hf_host_path m)) <$> host_file_mounts s)
    ((λ v, (vf_guest_path v, len64 (vf_bytes v))) <$> virtual_files s)
    DEFAULT_SYNTHETIC_DIRS.

Definition find_open_file (s : FileState) (handle : u64) : option OpenGuestFile := open_files s !! handle.
Definition is_open_file_handle (s : FileState) (handle : u64) : bool := bool_decide (is_Some (open_files s !! handle)).
Definition on_open_file (handle : u64) (f : OpenGuestFile → OpenGuestFile) (s : FileState) : FileState :=
  set_open_files (alter f handle (open_files s)) s.

Inductive OpenFileOutcome := Handle (h : u64) | HandleExists (h : u64) | HandleCreated (h : u64).
Definition outcome_handle (o : OpenFileOutcome) : u64 :=
  match o with Handle h | HandleExists h | HandleCreated h => h end.

Section Files.
Context `{HostFs}.

(** The process and the host's file system. *)
Record World := mkWorld { files : FileState; host : Fs }.
Definition on_files (f : FileState → FileState) (w : World) : World := mkWorld (f (files w)) (host w).
Definition on_host_fs {A} (m : io A) (w : World) : World * option A :=
  let '(s, r) := m (host w) in (mkWorld (files w) s, r).
(** A call whose error is dropped. *)
Definition try_host {A} (m : io A) (w : World) : World := (on_host_fs m w).1.

Definition open_size (s : Fs) (f : OpenGuestFile) : u64 :=
  if of_streaming f then default 0 (md_len <$> (p ← of_host_path f; fs_metadata s p)) else len64 (of_bytes f).

Definition guest_path_exists (w : World) (path : str) : bool :=
  let s := files w in
  is_main_module_path s path || bool_decide (is_Some (find_mount s path)) || bool_decide (is_Some (find_virtual s path))
  || match host_of s path with Some host_path => is_file (host w) host_path | None => false end.

Definition file_attributes_for_path (w : World) (path : str) : u64 :=
  let normalized := trim path in
  if decide (normalized = []) then INVALID_FILE_ATTRIBUTES
  else
    let ctx := resolve_ctx (files w) in
    let st := stat_path (host w) ctx normalized in
    match st_kind st with
    | NotFound => INVALID_FILE_ATTRIBUTES
    | Directory => st_attributes st
    | PathFile =>
        if path_is_main_module ctx normalized then FILE_ATTRIBUTE_ARCHIVE else Z.max (st_attributes st) FILE_ATTRIBUTE_ARCHIVE
    end.
Definition guest_dir_exists (w : World) (path : str) : bool :=
  let attrs := file_attributes_for_path w path in
  bool_decide (attrs ≠ INVALID_FILE_ATTRIBUTES) && bool_decide (Z.land attrs FILE_ATTRIBUTE_DIRECTORY ≠ 0).

Definition collect_find_entries (w : World) (full_pattern : str) : list DirEntry :=
  let '(dir, mask) := split_find_pattern full_pattern in
  list_dir_filtered (host w) (resolve_ctx (files w)) dir mask.

(** ** Opening *)

Definition resolve_guest_file_bytes (w : World) (path : str) : option (list u8) :=
  let s := files w in
  if is_main_module_path s path then Some (executable_file_bytes s)
  else
    match find_mount s path with
    | Some mount => fs_read (host w) (hf_host_path mount)
    | None =>
        let virtual :=
          match find_virtual s path with
          | Some v => Some (vf_bytes v)
          | None =>
              if bool_decide (path !! 0%nat = Some fslash) && is_file (host w) path then fs_read (host w) path else None
          end in
        match host_of s path with
        | Some host_path => if is_file (host w) host_path then fs_read (host w) host_path else virtual
        | None => virtual
        end
    end.

Definition allocate_open_file_ex (path : str) (bytes : list u8) (host_path : option str) (force_stream : bool) (w : World)
    : World * option u64 :=
  let s := files w in
  let handle := next_file_handle s in
  match checked_add handle 1 with
  | None => (w, None)
  | Some next =>
      let size := if force_stream then default 0 (md_len <$> (p ← host_path; fs_metadata (host w) p)) else len64 bytes in
      let streaming :=
        force_stream || (bool_decide (is_Some host_path) && bool_decide (BUFFER_SIZE_THRESHOLD < size)
                         && negb (is_main_module_path s path)) in
      let file := mkOpen handle path (if streaming then [] else bytes) 0 host_path streaming None None in
      let s' := set_open_files (<[handle := file]> (open_files s)) (set_next_file_handle next s) in
      (mkWorld (if is_main_module_path s path then set_executable_cursor 0 s' else s') (host w), Some handle)
  end.
Definition allocate_open_file (path : str) (bytes : list u8) (host_path : option str) (w : World) : World * option u64 :=
  allocate_open_file_ex path bytes host_path false w.

(** [map_err]. *)
Definition or_error {A} (e : u32) (r : World * option A) : World * (A + u32) :=
  (r.1, match r.2 with Some a => inl a | None => inr e end).

Definition open_existing_guest_file (path : str) (bottle_host : option str) (truncate : bool) (w : World) : World * (u64 + u32) :=
  let s := files w in
  let host_path := match bottle_host with Some h => Some h | None => hf_host_path <$> find_mount s path end in
  let large :=
    match host_path with
    | Some h =>
        if negb (is_main_module_path s path) then
          match fs_metadata (host w) h with
          | Some (mkMeta RegularFile len) => if decide (BUFFER_SIZE_THRESHOLD < len) then Some h else None
          | _ => None
          end
        else None
    | None => None
    end in
  match large with
  | Some h =>
      let w := if truncate then try_host (host_set_len h 0) w else w in
      or_error FILE_NOT_FOUND (allocate_open_file_ex path [] (Some h) true w)
  | None =>
      match resolve_guest_file_bytes w path with
      | None => (w, inr FILE_NOT_FOUND)
      | Some bytes => or_error FILE_NOT_FOUND (allocate_open_file path (if truncate then [] else bytes) host_path w)
      end
  end.

Definition ensure_virtual_file (path : str) (s : FileState) : FileState :=
  match find_virtual s path with
  | Some _ => s
  | None => set_virtual_files (virtual_files s ++ [mkVirtual path []]) s
  end.

Definition create_new_guest_file (path : str) (bottle_host : option str) (w : World) : World * (u64 + u32) :=
  match bottle_host with
  | Some h =>
      match on_host_fs (create_parents h) w with
      | (w, None) => (w, inr ERROR_PATH_NOT_FOUND)
      | (w, Some _) =>
          match on_host_fs (fs_write h []) w with
          | (w, None) => (w, inr ERROR_PATH_NOT_FOUND)
          | (w, Some _) => or_error ERROR_PATH_NOT_FOUND (allocate_open_file_ex path [] (Some h) true w)
          end
      end
  | None =>
      let w := on_files (ensure_virtual_file path) w in
      or_error ERROR_PATH_NOT_FOUND (allocate_open_file path [] None w)
  end.

Definition outcome (f : u64 → OpenFileOutcome) (r : World * (u64 + u32)) : World * (OpenFileOutcome + u32) :=
  (r.1, match r.2 with inl h => inl (f h) | inr e => inr e end).

Definition open_or_create_guest_path (guest_path : str) (creation_disposition : u64) (w : World)
    : World * (OpenFileOutcome + u32) :=
  if decide (guest_path = []) then (w, inr ERROR_PATH_NOT_FOUND)
  else
    let w := on_files sync_volumes w in
    let full := full_path (files w) guest_path in
    let bottle_host := host_of (files w) full in
    let existed := guest_path_exists w full in
    let existing truncate f := outcome f (open_existing_guest_file full bottle_host truncate w) in
    let create := outcome HandleCreated (create_new_guest_file full bottle_host w) in
    if decide (creation_disposition = CREATE_NEW) then
      if existed then (w, inr ERROR_FILE_EXISTS) else create
    else if decide (creation_disposition = CREATE_ALWAYS) then
      if existed then existing true HandleExists else create
    else if decide (creation_disposition = OPEN_EXISTING) then
      if existed then existing false Handle else (w, inr FILE_NOT_FOUND)
    else if decide (creation_disposition = OPEN_ALWAYS) then
      if existed then existing false HandleExists else create
    else if decide (creation_disposition = TRUNCATE_EXISTING) then
      if existed then existing true Handle else (w, inr FILE_NOT_FOUND)
    else (w, inr INVALID_PARAMETER).

Definition open_guest_path (guest_path : str) (w : World) : World * (u64 + u32) :=
  match open_or_create_guest_path guest_path OPEN_EXISTING w with
  | (w, inl o) => (w, inl (outcome_handle o))
  | (w, inr e) => (w, inr e)
  end.

Definition mount_host_file (guest_path host_path : str) (w : World) : World * option unit :=
  if negb (is_file (host w) host_path) then (w, None)
  else
    (on_files (λ s, set_mounts (List.filter (λ m, negb (paths_match_guest guest_path (hf_guest_path m))) (host_file_mounts s)
                                ++ [mkMount guest_path host_path]) s) w, Some tt).

(** ** Flushing and closing *)

Definition sync_open_bytes_to_virtual (path : str) (handle : u64) (s : FileState) : FileState :=
  match find_open_file s handle with
  | None => s
  | Some f =>
      if bool_decide (is_Some (of_host_path f)) || of_streaming f || is_main_module_path s path
         || bool_decide (is_Some (host_of s path)) || bool_decide (is_Some (find_mount s path)) then s
      else
        match list_find (λ v, paths_match_guest path (vf_guest_path v)) (virtual_files s) with
        | Some (i, v) => set_virtual_files (<[i := mkVirtual (vf_guest_path v) (of_bytes f)]> (virtual_files s)) s
        | None => set_virtual_files (virtual_files s ++ [mkVirtual path (of_bytes f)]) s
        end
  end.

Definition persist_open_file_to_host (handle : u64) (w : World) : World :=
  match find_open_file (files w) handle with
  | Some f =>
      if of_streaming f then w
      else match of_host_path f with
           | Some h => try_host (fs_write h (of_bytes f)) (try_host (create_parents h) w)
           | None => w
           end
  | None => w
  end.

(** The file whose buffer has outgrown memory, and where it goes. *)
Definition promote_target (handle : u64) (s : FileState) : option (str * list u8) :=
  f ← find_open_file s handle;
  if of_streaming f || bool_decide (len64 (of_bytes f) ≤ BUFFER_SIZE_THRESHOLD) then None
  else h ← of_host_path f; Some (h, of_bytes f).

(** ** Directories and names: the value returned and the last error *)

Definition finish_create_directory (path : str) (w : World) : World * (u64 * u32) :=
  if decide (path = []) then (w, (0, ERROR_PATH_NOT_FOUND))
  else
    let w := on_files sync_volumes w in
    let full := full_path (files w) path in
    if guest_dir_exists w full then (w, (0, ERROR_ALREADY_EXISTS))
    else
      match host_of (files w) full with
      | None => (w, (0, ERROR_PATH_NOT_FOUND))
      | Some h =>
          match on_host_fs (mkdir_host h) w with
          | (w, Some _) => (w, (1, 0))
          | (w, None) => (w, (0, ERROR_PATH_NOT_FOUND))
          end
      end.

Definition finish_delete_file (path : str) (w : World) : World * (u64 * u32) :=
  if decide (path = []) then (w, (0, ERROR_PATH_NOT_FOUND))
  else
    let w := on_files sync_volumes w in
    let full := full_path (files w) path in
    let w := on_files (λ s, set_virtual_files
      (List.filter (λ v, negb (paths_match_guest full (vf_guest_path v))) (virtual_files s)) s) w in
    match host_of (files w) full with
    | Some h =>
        match on_host_fs (remove_file_host h) w with
        | (w, Some _) => (w, (1, 0))
        | (w, None) => (w, (0, FILE_NOT_FOUND))
        end
    | None => (w, (0, FILE_NOT_FOUND))
    end.

Definition finish_remove_directory (path : str) (w : World) : World * (u64 * u32) :=
  if decide (path = []) then (w, (0, ERROR_PATH_NOT_FOUND))
  else
    let w := on_files sync_volumes w in
    let full := full_path (files w) path in
    match host_of (files w) full with
    | None => (w, (0, ERROR_PATH_NOT_FOUND))
    | Some h =>
        match remove_dir_host h (host w) with
        | (s, inl _) => (mkWorld (files w) s, (1, 0))
        | (s, inr DirectoryNotEmpty) => (mkWorld (files w) s, (0, ERROR_DIR_NOT_EMPTY))
        | (s, inr OtherError) => (mkWorld (files w) s, (0, ERROR_PATH_NOT_FOUND))
        end
    end.

Definition finish_move_file (src dst : str) (w : World) : World * (u64 * u32) :=
  if decide (src = [] ∨ dst = []) then (w, (0, ERROR_PATH_NOT_FOUND))
  else
    let w := on_files sync_volumes w in
    match host_of (files w) (full_path (files w) src), host_of (files w) (full_path (files w) dst) with
    | None, _ => (w, (0, FILE_NOT_FOUND))
    | Some _, None => (w, (0, ERROR_PATH_NOT_FOUND))
    | Some a, Some b =>
        match on_host_fs (rename_host a b) w with
        | (w, Some _) => (w, (1, 0))
        | (w, None) => (w, (0, ERROR_ACCESS_DENIED))
        end
    end.

Definition finish_create_file_create_only (guest_path : str) (w : World) : World :=
  let full := full_path (files w) guest_path in
  let w := on_files sync_volumes w in
  match host_of (files w) full with
  | Some h => try_host (create_host_file h) w
  | None => on_files (ensure_virtual_file full) w
  end.

(** [SetCurrentDirectory]: the directory and the last error. *)
Definition finish_set_current_directory (directory : str) (w : World) : World * (u64 * u32) :=
  if decide (directory = []) then (w, (0, ERROR_PATH_NOT_FOUND))
  else
    let full := full_path (files w) directory in
    if guest_dir_exists w full
    then (on_files (set_current_directory (encode_utf16 (str_text full))) w, (1, 0))
    else (w, (0, ERROR_PATH_NOT_FOUND)).
End Files.
