(* ===== verification/thread.v ===== *)
(** * Guest threads and thread-local storage (crates/wie-winapi/src/thread.rs)

    The indices of the storage are the process', the values a thread's; the host
    keeps the values of the thread that runs in [active] and those of the others
    in [by_tid].  Specification: one map from thread and index to value. *)

From S2P Require Import Prelude.

Definition PRIMARY_THREAD_ID : u32 := 0x5678.
Definition FIRST_WORKER_TID : u32 := 0x5679.

Record GuestThread := mkGuestThread { gt_tid : u32; tls_values : list u64 }.
Definition GuestThread_primary : GuestThread := mkGuestThread PRIMARY_THREAD_ID [].
Definition with_tid (tid : u32) : GuestThread := mkGuestThread tid [].

Record ThreadState := mkThreads {
  tls_index_count : u32;
  active : GuestThread;
  by_tid : gmap u32 GuestThread;
  next_tid : u32;
}.
Definition primary : ThreadState :=
  mkThreads 0 GuestThread_primary {[ gt_tid GuestThread_primary := GuestThread_primary ]} FIRST_WORKER_TID.

Definition set_index_count (n : u32) (s : ThreadState) : ThreadState := mkThreads n (active s) (by_tid s) (next_tid s).
Definition set_active (t : GuestThread) (s : ThreadState) : ThreadState := mkThreads (tls_index_count s) t (by_tid s) (next_tid s).
Definition set_by_tid (m : gmap u32 GuestThread) (s : ThreadState) : ThreadState := mkThreads (tls_index_count s) (active s) m (next_tid s).
Definition set_next_tid (n : u32) (s : ThreadState) : ThreadState := mkThreads (tls_index_count s) (active s) (by_tid s) n.
Definition set_values (vs : list u64) (t : GuestThread) : GuestThread := mkGuestThread (gt_tid t) vs.

Definition current_tid (s : ThreadState) : u32 := gt_tid (active s).

(** [Vec::resize] with zeros, when the vector is too short. *)
Definition grow (need : usize) (t : GuestThread) : GuestThread :=
  if decide (Z.of_nat (length (tls_values t)) < need)
  then set_values (resize (Z.to_nat need) 0 (tls_values t)) t else t.

Definition alloc_worker (s : ThreadState) : ThreadState * u32 :=
  let tid := next_tid s in
  let next := Z.min (next_tid s + 1) (u32_lim - 1) in
  let next := if decide (next = 0) then FIRST_WORKER_TID else next in
  let s := set_next_tid next s in
  let gt := grow (tls_index_count s) (with_tid tid) in
  (set_by_tid (<[tid := gt]> (by_tid s)) s, tid).

Definition grow_active_tls_to_process_count (s : ThreadState) : ThreadState :=
  set_active (grow (tls_index_count s) (active s)) s.

Definition save_active (s : ThreadState) : ThreadState :=
  set_by_tid (<[gt_tid (active s) := active s]> (by_tid s)) s.

Definition activate (tid : u32) (s : ThreadState) : ThreadState :=
  let s := save_active s in
  let gt := match by_tid s !! tid with
            | Some gt => gt
            | None => set_values (resize (Z.to_nat (tls_index_count s)) 0 []) (with_tid tid)
            end in
  grow_active_tls_to_process_count (set_active gt s).

(** ** The handlers' parts *)

(** The value of an index, of the thread that runs. *)
Definition tls_get (idx : usize) (s : ThreadState) : ThreadState * u64 :=
  let s := grow_active_tls_to_process_count s in
  (s, default 0 (tls_values (active s) !! Z.to_nat idx)).
Definition tls_set (idx : usize) (value : u64) (s : ThreadState) : ThreadState * bool :=
  let s := grow_active_tls_to_process_count s in
  if decide (idx < Z.of_nat (length (tls_values (active s))))
  then (set_active (set_values (<[Z.to_nat idx := value]> (tls_values (active s))) (active s)) s, true)
  else (s, false).
Definition tls_alloc (s : ThreadState) : ThreadState * u32 :=
  let index := tls_index_count s in
  (grow_active_tls_to_process_count (set_index_count (Z.min (tls_index_count s + 1) (u32_lim - 1)) s), index).
Definition tls_free (idx : usize) (s : ThreadState) : ThreadState :=
  if decide (idx < Z.of_nat (length (tls_values (active s))))
  then set_active (set_values (<[Z.to_nat idx := 0]> (tls_values (active s))) (active s)) s else s.

(** ** The specification: a value per thread and index *)

Section Spec.
(** The values of a thread, zero where nothing is stored. *)
Definition thread_of (s : ThreadState) (tid : u32) : option GuestThread :=
  if decide (tid = current_tid s) then Some (active s) else by_tid s !! tid.
Definition value (s : ThreadState) (tid : u32) (idx : Z) : u64 :=
  match thread_of s tid with Some t => default 0 (tls_values t !! Z.to_nat idx) | None => 0 end.

Record threads_wf (s : ThreadState) : Prop := {
  tw_tid tid t : by_tid s !! tid = Some t → gt_tid t = tid;
  tw_next : 0 ≤ current_tid s < next_tid s ∧ ∀ tid, is_Some (by_tid s !! tid) → 0 ≤ tid < next_tid s;
  tw_count : 0 ≤ tls_index_count s < u32_lim;
  tw_next_lim : next_tid s < u32_lim;
  tw_known tid : PRIMARY_THREAD_ID ≤ tid < next_tid s → is_Some (thread_of s tid);
}.

Lemma grow_value need t idx : default 0 (tls_values (grow need t) !! idx) = default 0 (tls_values t !! idx).
Proof.
  unfold grow. case_decide as Hn; [|done]. cbn [set_values tls_values].
  destruct (decide (idx < length (tls_values t))%nat) as [Hl|Hl].
  - by rewrite lookup_resize by lia.
  - rewrite (lookup_ge_None_2 (tls_values t)) by lia. destruct (decide (idx < Z.to_nat need)%nat) as [Hi|Hi].
    + rewrite lookup_resize_new by lia. done.
    + by rewrite lookup_resize_old by lia.
Qed.
Lemma grow_tid need t : gt_tid (grow need t) = gt_tid t.
Proof. unfold grow. by case_decide. Qed.
Lemma grow_length need t : 0 ≤ need → need ≤ Z.of_nat (length (tls_values (grow need t))).
Proof. unfold grow. case_decide; [|lia]. cbn [set_values tls_values]. rewrite length_resize. lia. Qed.

(** Another vector for the thread that runs. *)
Lemma set_active_wf s t : threads_wf s → gt_tid t = current_tid s → threads_wf (set_active t s).
Proof.
  intros [Ht Hn Hc Hl Hk] Heq. split; [done| |done|done|].
  - change (current_tid (set_active t s)) with (gt_tid t). by rewrite Heq.
  - intros tid Htid. specialize (Hk tid Htid). unfold thread_of in *.
    change (current_tid (set_active t s)) with (gt_tid t). rewrite Heq. case_decide; [done|exact Hk].
Qed.
Lemma set_active_value s t tid idx :
  gt_tid t = current_tid s →
  value (set_active t s) tid idx = if decide (tid = current_tid s) then default 0 (tls_values t !! Z.to_nat idx) else value s tid idx.
Proof. intros Heq. unfold value, thread_of, current_tid in *. cbn. rewrite Heq. by case_decide. Qed.
Lemma active_value s idx : value s (current_tid s) idx = default 0 (tls_values (active s) !! Z.to_nat idx).
Proof. unfold value, thread_of. by rewrite decide_True. Qed.

Lemma grow_active_value s tid idx : value (grow_active_tls_to_process_count s) tid idx = value s tid idx.
Proof.
  unfold grow_active_tls_to_process_count. rewrite set_active_value by apply grow_tid.
  case_decide as He; [|done]. by rewrite grow_value, He, active_value.
Qed.
Lemma grow_active_wf s : threads_wf s → threads_wf (grow_active_tls_to_process_count s).
Proof. intros Hwf. apply set_active_wf; [done|apply grow_tid]. Qed.

Lemma tls_get_spec s idx : threads_wf s →
  let '(s', v) := tls_get idx s in
  v = value s (current_tid s) idx ∧ threads_wf s' ∧ current_tid s' = current_tid s ∧ tls_index_count s' = tls_index_count s ∧ next_tid s' = next_tid s ∧
  ∀ tid i, value s' tid i = value s tid i.
Proof.
  intros Hwf. unfold tls_get. split_and!; [|by apply grow_active_wf|apply grow_tid|done|done|intros; apply grow_active_value].
  rewrite <- grow_active_value, <- active_value. unfold current_tid at 1, grow_active_tls_to_process_count at 2. cbn.
  by rewrite grow_tid.
Qed.

Lemma tls_set_spec s idx v : threads_wf s → 0 ≤ idx < tls_index_count s →
  let '(s', ok) := tls_set idx v s in
  ok = true ∧ threads_wf s' ∧ current_tid s' = current_tid s ∧ tls_index_count s' = tls_index_count s ∧ next_tid s' = next_tid s ∧
  ∀ tid i, 0 ≤ i → value s' tid i = if decide (tid = current_tid s ∧ i = idx) then v else value s tid i.
Proof.
  intros Hwf Hi. unfold tls_set. set (s1 := grow_active_tls_to_process_count s).
  assert (Hl : tls_index_count s ≤ Z.of_nat (length (tls_values (active s1)))) by (apply grow_length; lia).
  assert (Ht : current_tid s1 = current_tid s) by apply grow_tid.
  rewrite decide_True by lia. split_and!; [done|apply set_active_wf; [by apply grow_active_wf|done]|done|done|done|].
  assert (Hv : ∀ tid i, value s1 tid i = value s tid i) by apply grow_active_value.
  intros tid i Hi0. rewrite set_active_value by done. rewrite Ht, Hv.
  destruct (decide (tid = current_tid s)) as [->|Hne]; [|by rewrite decide_False by tauto].
  destruct (decide (i = idx)) as [->|Hne].
  - rewrite decide_True by done. cbn [set_values tls_values]. by rewrite list_lookup_insert_eq by lia.
  - rewrite decide_False by tauto. cbn [set_values tls_values]. rewrite list_lookup_insert_ne by lia.
    by rewrite <- active_value, Ht, Hv.
Qed.

Lemma tls_free_spec s idx : threads_wf s → 0 ≤ idx →
  threads_wf (tls_free idx s) ∧ current_tid (tls_free idx s) = current_tid s ∧ tls_index_count (tls_free idx s) = tls_index_count s ∧
  next_tid (tls_free idx s) = next_tid s ∧
  ∀ tid i, 0 ≤ i → value (tls_free idx s) tid i = if decide (tid = current_tid s ∧ i = idx) then 0 else value s tid i.
Proof.
  intros Hwf Hi. unfold tls_free. case_decide as Hl.
  - split_and!; [by apply set_active_wf|done..|]. intros tid i Hi0. rewrite set_active_value by done.
    destruct (decide (tid = current_tid s)) as [->|Hne]; [|by rewrite decide_False by tauto].
    destruct (decide (i = idx)) as [->|Hne].
    + rewrite decide_True by done. cbn [set_values tls_values]. by rewrite list_lookup_insert_eq by lia.
    + rewrite decide_False by tauto. cbn [set_values tls_values]. rewrite list_lookup_insert_ne by lia. by rewrite active_value.
  - split_and!; [done..|]. intros tid i Hi0. case_decide as He; [|done]. destruct He as [-> ->].
    rewrite active_value. by rewrite lookup_ge_None_2 by lia.
Qed.

Lemma tls_alloc_spec s : threads_wf s → tls_index_count s + 1 < u32_lim →
  let '(s', i) := tls_alloc s in
  i = tls_index_count s ∧ tls_index_count s' = i + 1 ∧ threads_wf s' ∧ current_tid s' = current_tid s ∧ next_tid s' = next_tid s ∧
  ∀ tid j, value s' tid j = value s tid j.
Proof.
  intros Hwf Hlim. unfold tls_alloc. rewrite Z.min_l by lia.
  assert (Hwf' : threads_wf (set_index_count (tls_index_count s + 1) s)) by (destruct Hwf as [? ? [? ?] ? ?]; split; [done|done|cbn; lia|done|done]).
  split_and!; [done|done|by apply grow_active_wf|apply grow_tid|done|]. intros. by rewrite grow_active_value.
Qed.

Lemma alloc_worker_spec s : threads_wf s → next_tid s + 1 < u32_lim →
  let '(s', tid) := alloc_worker s in
  tid = next_tid s ∧ next_tid s' = tid + 1 ∧ threads_wf s' ∧ current_tid s' = current_tid s ∧ tls_index_count s' = tls_index_count s ∧
  thread_of s tid = None ∧ ∀ t i, value s' t i = value s t i.
Proof.
  intros [Ht [Hc Hn] Hcount Hl Hk] Hlim. unfold alloc_worker. rewrite Z.min_l by lia. rewrite decide_False by lia.
  assert (Hnew : by_tid s !! next_tid s = None).
  { destruct (by_tid s !! next_tid s) eqn:He; [|done]. specialize (Hn (next_tid s) (mk_is_Some _ _ He)). lia. }
  assert (Hcur : next_tid s ≠ current_tid s) by lia.
  split_and!; [done|done| |done|done| |].
  - split; cbn -[current_tid thread_of]; [|split|done|lia|].
    + intros tid t [[<- <-]|[_ ?]]%lookup_insert_Some; [by rewrite grow_tid|by apply Ht].
    + change (0 ≤ current_tid s < next_tid s + 1). lia.
    + intros tid [t [[<- _]|[_ He]]%lookup_insert_Some]; [lia|]. specialize (Hn tid (mk_is_Some _ _ He)). lia.
    + intros tid Htid. unfold thread_of. change (current_tid (set_by_tid _ _)) with (current_tid s). cbn -[current_tid].
      case_decide as He; [done|]. destruct (decide (tid = next_tid s)) as [->|Hne]; [by rewrite lookup_insert_eq|].
      rewrite lookup_insert_ne by done. specialize (Hk tid ltac:(lia)). unfold thread_of in Hk. by rewrite decide_False in Hk.
  - unfold thread_of. by rewrite decide_False.
  - intros t i. unfold value, thread_of. cbn. change (current_tid (set_by_tid _ _)) with (current_tid s).
    case_decide as He; [done|]. destruct (decide (t = next_tid s)) as [->|Hne].
    + rewrite lookup_insert_eq, Hnew. rewrite grow_value. done.
    + by rewrite lookup_insert_ne by done.
Qed.

(** Another thread to run: no value moves. *)
Lemma save_active_thread s tid : by_tid (save_active s) !! tid = thread_of s tid.
Proof.
  unfold save_active, thread_of. cbn -[decide]. destruct (decide (tid = current_tid s)) as [->|Hne].
  - apply lookup_insert_eq.
  - by rewrite lookup_insert_ne by done.
Qed.
Lemma thread_of_wf s tid t : threads_wf s → thread_of s tid = Some t → gt_tid t = tid ∧ 0 ≤ tid < next_tid s.
Proof.
  intros [Ht [Hc Hn] _ _ _]. unfold thread_of. case_decide as He.
  - intros [= <-]. by subst.
  - intros Hl. split; [by apply Ht|apply Hn; eauto].
Qed.
Lemma activate_spec s tid : threads_wf s → is_Some (thread_of s tid) →
  threads_wf (activate tid s) ∧ current_tid (activate tid s) = tid ∧ tls_index_count (activate tid s) = tls_index_count s ∧
  next_tid (activate tid s) = next_tid s ∧ ∀ t i, value (activate tid s) t i = value s t i.
Proof.
  intros Hwf [t0 Hknown]. pose proof (thread_of_wf s tid t0 Hwf Hknown) as [Htid Hrange].
  unfold activate. rewrite save_active_thread, Hknown.
  assert (Hsame : ∀ t, thread_of (set_active t0 (save_active s)) t = thread_of s t).
  { intros t. unfold thread_of at 1. change (current_tid (set_active _ _)) with (gt_tid t0). cbn [by_tid active set_active].
    rewrite save_active_thread. case_decide as He; [|done]. by rewrite He, Htid, Hknown. }
  split_and!.
  - apply grow_active_wf. split.
    + intros t' t Hl. change (by_tid (save_active s) !! t' = Some t) in Hl. rewrite save_active_thread in Hl.
      by apply (thread_of_wf s).
    + change (current_tid (set_active _ _)) with (gt_tid t0). rewrite Htid. split; [done|].
      intros t' [t Hl]. change (by_tid (save_active s) !! t' = Some t) in Hl. rewrite save_active_thread in Hl.
      by apply (thread_of_wf s t' t).
    + apply Hwf.
    + apply Hwf.
    + intros t' Ht'. rewrite Hsame. by apply (tw_known s).
  - unfold grow_active_tls_to_process_count. unfold current_tid. cbn. by rewrite grow_tid.
  - done.
  - done.
  - intros t i. rewrite grow_active_value. unfold value. by rewrite Hsame.
Qed.
End Spec.

(** ** Sequences of operations against the map *)

(** One operation of the process: another thread is scheduled, an index is
    allocated, set, read or freed by the thread that runs, a thread is made. *)
Inductive thread_op := Op_activate (tid : u32) | Op_alloc | Op_set (idx : Z) (v : u64) | Op_get (idx : Z) | Op_free (idx : Z) | Op_worker.

(** What an operation returns. *)
Definition thread_step (o : thread_op) (s : ThreadState) : ThreadState * u64 :=
  match o with
  | Op_activate tid => (activate tid s, 0)
  | Op_alloc => tls_alloc s
  | Op_set idx v => let '(s, ok) := tls_set idx v s in (s, Z.b2z ok)
  | Op_get idx => tls_get idx s
  | Op_free idx => (tls_free idx s, 1)
  | Op_worker => alloc_worker s
  end.

(** The abstract process: who runs, the next thread and index, the values. *)
Record abs := mkAbs { a_tid : u32; a_next : u32; a_count : u32; a_value : u32 → Z → u64 }.
Definition abs_init : abs := mkAbs PRIMARY_THREAD_ID FIRST_WORKER_TID 0 (λ _ _, 0).
Definition abs_set (a : abs) (idx : Z) (v : u64) : abs :=
  mkAbs (a_tid a) (a_next a) (a_count a) (λ tid i, if decide (tid = a_tid a ∧ i = idx) then v else a_value a tid i).
Definition abs_step (o : thread_op) (a : abs) : abs * u64 :=
  match o with
  | Op_activate tid => (mkAbs tid (a_next a) (a_count a) (a_value a), 0)
  | Op_alloc => (mkAbs (a_tid a) (a_next a) (a_count a + 1) (a_value a), a_count a)
  | Op_set idx v => (abs_set a idx v, 1)
  | Op_get idx => (a, a_value a (a_tid a) idx)
  | Op_free idx => (abs_set a idx 0, 1)
  | Op_worker => (mkAbs (a_tid a) (a_next a + 1) (a_count a) (a_value a), a_next a)
  end.
(** What the callers keep to: threads that exist, indices that are allocated,
    fewer of both than the width of their counter. *)
Definition allowed (o : thread_op) (a : abs) : bool :=
  match o with
  | Op_activate tid => bool_decide (PRIMARY_THREAD_ID ≤ tid < a_next a)
  | Op_alloc => bool_decide (a_count a + 1 < u32_lim)
  | Op_set idx _ | Op_get idx | Op_free idx => bool_decide (0 ≤ idx < a_count a)
  | Op_worker => bool_decide (a_next a + 1 < u32_lim)
  end.

Fixpoint thread_run (os : list thread_op) (s : ThreadState) : ThreadState * list u64 :=
  match os with
  | [] => (s, [])
  | o :: os => let '(s, v) := thread_step o s in let '(s, vs) := thread_run os s in (s, v :: vs)
  end.
Fixpoint abs_run (os : list thread_op) (a : abs) : option (abs * list u64) :=
  match os with
  | [] => Some (a, [])
  | o :: os =>
      if allowed o a then
        let '(a, v) := abs_step o a in
        match abs_run os a with Some (a, vs) => Some (a, v :: vs) | None => None end
      else None
  end.

Section Refinement.
Record represents (s : ThreadState) (a : abs) : Prop := {
  rp_wf : threads_wf s;
  rp_tid : current_tid s = a_tid a;
  rp_next : next_tid s = a_next a;
  rp_count : tls_index_count s = a_count a;
  rp_value : ∀ tid i, 0 ≤ i → value s tid i = a_value a tid i;
}.

Lemma represents_init : represents primary abs_init.
Proof.
  assert (Hm : ∀ tid t, by_tid primary !! tid = Some t → tid = PRIMARY_THREAD_ID ∧ t = GuestThread_primary).
  { intros tid t Hl. change (({[ PRIMARY_THREAD_ID := GuestThread_primary ]} : gmap u32 GuestThread) !! tid = Some t) in Hl.
    apply lookup_singleton_Some in Hl as [<- <-]. done. }
  split; [|done|done|done|].
  - split; [by intros ? ? [-> ->]%Hm| |done|done|].
    + split; [done|]. intros tid [t [-> _]%Hm]. done.
    + intros tid Htid. unfold thread_of. change (current_tid primary) with PRIMARY_THREAD_ID.
      change (next_tid primary) with (PRIMARY_THREAD_ID + 1) in Htid. rewrite decide_True by lia. eauto.
  - intros tid i _. unfold value, thread_of. case_decide; [done|]. destruct (by_tid primary !! tid) eqn:He; [|done].
    apply Hm in He as [_ ->]. done.
Qed.

Lemma step_refines o s a : represents s a → allowed o a = true →
  represents (thread_step o s).1 (abs_step o a).1 ∧ (thread_step o s).2 = (abs_step o a).2.
Proof.
  intros [Hwf Ht Hn Hc Hv] Ha.
  destruct o as [tid| |idx v|idx|idx| ]; cbn [allowed] in Ha; apply bool_decide_eq_true in Ha; cbn [thread_step abs_step].
  - destruct (activate_spec s tid Hwf) as (? & ? & ? & ? & Hv'); [apply tw_known; [done|lia]|].
    split; [|done]. split; cbn; [done|congruence..|]. intros. rewrite Hv'. by apply Hv.
  - pose proof (tls_alloc_spec s Hwf ltac:(lia)) as Hs. destruct (tls_alloc s) as [s' i].
    destruct Hs as (-> & ? & ? & ? & ? & Hv'). cbn. rewrite Hc. split; [|done]. split; cbn; [done|congruence..|].
    intros. rewrite Hv'. by apply Hv.
  - pose proof (tls_set_spec s idx v Hwf ltac:(lia)) as Hs. destruct (tls_set idx v s) as [s' ok].
    destruct Hs as (-> & ? & ? & ? & ? & Hv'). cbn. split; [|done]. split; cbn; [done|congruence..|].
    intros. by rewrite Hv', Ht, Hv by done.
  - pose proof (tls_get_spec s idx Hwf) as Hs. destruct (tls_get idx s) as [s' v].
    destruct Hs as (-> & ? & ? & ? & ? & Hv'). cbn. rewrite Hv, Ht by lia. split; [|done]. split; [done|congruence..|].
    intros. rewrite Hv'. by apply Hv.
  - destruct (tls_free_spec s idx Hwf ltac:(lia)) as (? & ? & ? & ? & Hv').
    split; [|done]. split; cbn; [done|congruence..|]. intros. by rewrite Hv', Ht, Hv by done.
  - pose proof (alloc_worker_spec s Hwf ltac:(lia)) as Hs. destruct (alloc_worker s) as [s' tid].
    destruct Hs as (-> & ? & ? & ? & ? & _ & Hv'). cbn. split; [|done]. split; cbn; [done|congruence..|].
    intros. rewrite Hv'. by apply Hv.
Qed.

Lemma run_refines os : ∀ s a a' vs, represents s a → abs_run os a = Some (a', vs) →
  represents (thread_run os s).1 a' ∧ (thread_run os s).2 = vs.
Proof.
  induction os as [|o os IH]; intros s a a' vs Hr; cbn [abs_run thread_run]; [by intros [= -> <-]|].
  destruct (allowed o a) eqn:Ha; [|done]. destruct (step_refines o s a Hr Ha) as [Hr' Hret].
  destruct (thread_step o s) as [s1 v], (abs_step o a) as [a1 v']. cbn in Hr', Hret. subst v'.
  destruct (abs_run os a1) as [[a2 vs2]|] eqn:Hrun; [|done]. intros [= -> <-].
  destruct (IH s1 a1 a' vs2 Hr' Hrun) as [Hr2 Hvs]. destruct (thread_run os s1) as [s2 vs']. cbn in *. by subst.
Qed.
End Refinement.

(** Thread-local storage as the process sees it: run any
    sequence of scheduling switches, TlsAlloc, TlsSetValue, TlsGetValue, TlsFree
    and thread creations, in which the callers name threads that exist and
    indices that are allocated; what the calls return is what a single map from
    thread and index to value returns, although the host keeps the values in the
    scheduled thread and in a table it swaps them through, and grows the vectors
    only when it has to. *)
Theorem tls_refinement os a vs :
  abs_run os abs_init = Some (a, vs) →
  (thread_run os primary).2 = vs ∧
  ∀ tid i, 0 ≤ i → value (thread_run os primary).1 tid i = a_value a tid i.
Proof.
  intros Hrun. destruct (run_refines os primary abs_init a vs represents_init Hrun) as [Hr Hvs].
  split; [done|]. apply (rp_value _ _ Hr).
Qed.

(** Two threads, one index each of them sets: each reads its own. *)
Definition two_threads : list thread_op :=
  [Op_alloc; Op_set 0 11; Op_worker; Op_activate 0x5679; Op_get 0; Op_set 0 22; Op_alloc; Op_set 1 33;
   Op_activate 0x5678; Op_get 0; Op_get 1; Op_free 0; Op_activate 0x5679; Op_get 0; Op_get 1].
Lemma tls_refinement_witness :
  (thread_run two_threads primary).2 = [0; 1; 0x5679; 0; 0; 1; 1; 1; 0; 11; 0; 1; 0; 22; 33].
Proof.
  destruct (abs_run two_threads abs_init) as [[a vs]|] eqn:Hrun; [|by apply (f_equal is_Some) in Hrun].
  destruct (tls_refinement two_threads a vs Hrun) as [-> _]. vm_compute in Hrun. by injection Hrun as _ <-.
Defined.
