(* ===== verification/win32.v ===== *)
(** * What a WinAPI handler works with (crates/wie-winapi/src/lib.rs, kernel32.rs)

    A handler runs on the engine and on the state of the process; it returns to
    the guest, or hands the thread back to the host with a control signal.
    [CpuApi] is the rest of the engine interface the handlers use, [CpuApiLaws]
    what they rely on: a return pops the frame of the Windows calling convention,
    a host atomic is a read and a write of the word, and nothing else the
    handlers do changes a register. *)

From S2P Require Import Prelude protect pagemap vad arena region mem mem_access mem_ops mem_safe.
From S2P Require Import exception lsda msvc_eh.
From S2P Require Import utf regs engine insn exec exec_string exec_sse exec_one iced_cpu exec_wf cpu guest_string guest_heap sync_obj thread.

(** ** The engine *)

Class CpuApi (E : Type) := {
  return_from_win64_api : u64 → M E u64;
  virtual_query : E → u64 → MemoryBasicInformation;
  flush_instruction_cache : u64 → usize → M E unit;
  snapshot_thread_context : E → ThreadContext;
  (** [host_span] of [n] writable bytes, and one atomic operation on the host
      word there: its old value, when there is a span. *)
  host_rmw : u64 → nat → (Z → Z) → M E (option Z);
  restore_thread_context : ThreadContext → E → E;
}.

Definition context_reg (r : Reg) (c : ThreadContext) : u64 :=
  match r with
  | Rip => tc_rip c
  | Rax => default 0 (tc_gpr c !! 0%nat)
  | Rcx => default 0 (tc_gpr c !! 1%nat)
  | Rdx => default 0 (tc_gpr c !! 2%nat)
  | Rsp => default 0 (tc_gpr c !! 4%nat)
  | R8 => default 0 (tc_gpr c !! 8%nat)
  | R9 => default 0 (tc_gpr c !! 9%nat)
  end.

Definition set_context_reg (r : Reg) (v : u64) (c : ThreadContext) : ThreadContext :=
  let put (i : nat) := mkContext (<[i := v]> (tc_gpr c)) (tc_xmm c) (tc_rip c) (tc_rflags c) in
  match r with
  | Rip => mkContext (tc_gpr c) (tc_xmm c) v (tc_rflags c)
  | Rax => put 0%nat | Rcx => put 1%nat | Rdx => put 2%nat | Rsp => put 4%nat | R8 => put 8%nat | R9 => put 9%nat
  end.

(** The registers after a call that returned [value] to [ra]. *)
Definition returned_context (value ra : u64) (c : ThreadContext) : ThreadContext :=
  mkContext (<[0%nat := value]> (<[4%nat := wrapping_add (context_reg Rsp c) 8]> (tc_gpr c))) (tc_xmm c) ra (tc_rflags c).

(** [m] leaves the registers alone. *)
Definition keeps_regs {E A} `{CpuApi E} (m : M E A) : Prop :=
  ∀ e, snapshot_thread_context (m e).1 = snapshot_thread_context e.

Class CpuApiLaws (E : Type) `{CpuMemLaws E, !CpuMap E, !CpuRegs E, !CpuApi E} := {
  read_reg_context e r : read_reg r e = (e, Ok (context_reg r (snapshot_thread_context e)));
  mem_read_context a n : keeps_regs (mem_read a n);
  mem_write_context a bs : keeps_regs (mem_write a bs);
  mem_map_context a n p : keeps_regs (mem_map a n p);
  virtual_alloc_context a n t p : keeps_regs (virtual_alloc a n t p);
  virtual_free_context a n t : keeps_regs (virtual_free a n t);
  virtual_protect_context a n p : keeps_regs (virtual_protect a n p);
  flush_context a n : keeps_regs (flush_instruction_cache a n);
  host_rmw_context a n f : keeps_regs (host_rmw a n f);
  return_context e value :
    snapshot_thread_context (return_from_win64_api value e).1 =
    match (return_from_win64_api value e).2 with
    | Ok ra => returned_context value ra (snapshot_thread_context e)
    | _ => snapshot_thread_context e
    end;
  return_ok e value ra :
    mem_inv e → accessible e (context_reg Rsp (snapshot_thread_context e)) 8 → in_u64 ra →
    holds e (context_reg Rsp (snapshot_thread_context e)) (le_bytes 8 ra) →
    ∃ e', return_from_win64_api value e = (e', Ok ra) ∧ unchanged e e';
  write_reg_context e r v :
    ∃ e', write_reg r v e = (e', Ok tt) ∧ snapshot_thread_context e' = set_context_reg r v (snapshot_thread_context e) ∧
      (mem_inv e → unchanged e e');
  restore_context e c : snapshot_thread_context (restore_thread_context c e) = c;
  restore_unchanged e c : mem_inv e → unchanged e (restore_thread_context c e);
  host_rmw_ok e a n f :
    mem_inv e → accessible e a (Z.of_nat n) →
    ∃ e' o, host_rmw a n f e = (e', Ok o) ∧ mem_inv e' ∧ (∀ x, mem_rw e' x ↔ mem_rw e x) ∧
      match o with
      | None => mem_get e' = mem_get e
      | Some old =>
          (∀ bs, length bs = n → holds e a bs → old = le_val bs) ∧
          holds e' a (le_bytes n (f old)) ∧
          ∀ x, ¬ (a ≤ x < a + Z.of_nat n) → mem_get e' x = mem_get e x
      end;
}.

(** ** The interpreter *)

Definition store_word (p : Z) (n : nat) (v : Z) : M GuestMemory unit :=
  on_backend (on_host (host_store p (le_bytes n v))).
Definition memory_rmw (a : u64) (n : nat) (f : Z → Z) : M GuestMemory (option Z) := λ g,
  match host_span a (Z.of_nat n) true g with
  | (g, None) => (g, Ok None)
  | (g, Some p) =>
      match host_load p n (os_state (backend g)) with
      | Ok bs =>
          match store_word p n (f (le_val bs)) g with
          | (g', Ok _) => (g', Ok (Some (le_val bs)))
          | (g', Err e) => (g', Err e)
          | (g', Abort w) => (g', Abort w)
          end
      | Err e => (g, Err e)
      | Abort w => (g, Abort w)
      end
  end.

#[global] Instance IcedCpu_CpuApi : CpuApi (GuestMemory * IcedCpu) := {|
  return_from_win64_api := iced_cpu.return_from_win64_api;
  virtual_query s := mem.virtual_query s.1;
  flush_instruction_cache _ _ := mret tt;
  snapshot_thread_context s := iced_cpu.snapshot_thread_context s.2;
  host_rmw a n f := on_engine_mem (memory_rmw a n f);
  restore_thread_context ctx s := (s.1, iced_cpu.restore_thread_context ctx s.2);
|}.

Lemma memory_rmw_ok g a n f :
  gm_wf g → host_grants g → 0 ≤ a → a + Z.of_nat n < u64_lim →
  ∃ g' o, memory_rmw a n f g = (g', Ok o) ∧ gm_wf g' ∧ host_grants g' ∧ gview g' = gview g ∧
    match o with
    | None => gbyte g' = gbyte g
    | Some old =>
        (∃ bs, length bs = n ∧ (∀ i, (i < n)%nat → bs !! i = gbyte g (a + Z.of_nat i)) ∧ old = le_val bs) ∧
        bytes_set g a (le_bytes n (f old)) g'
    end.
Proof.
  intros Hwf Hrw Ha Hlim. unfold memory_rmw.
  assert (Hn : in_u64 (Z.of_nat n)) by (split; lia). assert (Ha' : in_u64 a) by (split; lia).
  destruct (host_span a (Z.of_nat n) true g) as [g1 o] eqn:E.
  destruct (host_span_same g a (Z.of_nat n) true Hwf Ha' Hn) as [Hs Hwf1]. rewrite E in Hs, Hwf1. cbn [fst] in Hs, Hwf1.
  pose proof (same_gview _ _ Hs) as Hview. pose proof (same_gbyte _ _ Hs) as Hbyte.
  assert (Hrw1 : host_grants g1) by (by eapply host_grants_same).
  destruct o as [p|]; [|by exists g1, None].
  destruct (host_span_holds g a (Z.of_nat n) true g1 p Hwf Ha' Hn E) as (_ & _ & _ & Hgr & Hal & _).
  assert (Hgr1 : granted g1 a (Z.of_nat n) Write) by (by eapply granted_same).
  assert (Hal1 : host_alias g1 p a (Z.of_nat n)) by (unfold host_alias in *; by rewrite (sc_backend _ _ Hs)).
  destruct (alias_bytes g1 p a n Hrw1 (granted_read _ _ _ Hgr1) Hal1) as (bs & -> & Hl & Hbs).
  destruct (alias_put g1 p a (le_bytes n (f (le_val bs))) Hwf1 Hrw1) as (g2 & E2 & Hwf2 & Hrw2 & Hsb & Hset);
    [by rewrite length_le_bytes..|].
  unfold store_word. rewrite E2. exists g2, (Some (le_val bs)). split_and!; [done|done|done| | |].
  - by rewrite (sb_view _ _ Hsb).
  - exists bs. split_and!; [done| |done]. intros i Hi. by rewrite Hbs, Hbyte.
  - intros x. rewrite Hset. by rewrite Hbyte.
Qed.

Section Interpreter.
Context `{HostOS} (wie_mprotect : option string).
#[local] Instance iced_map : CpuMap (GuestMemory * IcedCpu) := IcedCpu_CpuMap wie_mprotect.

Lemma engine_mem_context {A} (m : M GuestMemory A) : keeps_regs (on_engine_mem m).
Proof. intros s. cbn [snapshot_thread_context IcedCpu_CpuApi]. by rewrite on_engine_mem_snd. Qed.

Lemma mem_read_n_engine a n g : mem_read_n a n g = engine.mem_read a n g.
Proof. cbn. unfold mem_read_n. by destruct (read a (g, replicate n 0)) as [[g' bs] [[]|e|w]]. Qed.

Lemma get_reg_context r f : get_reg r f = context_reg r (snapshot f).
Proof. by destruct r. Qed.

#[export] Program Instance IcedCpu_CpuApiLaws : CpuApiLaws (GuestMemory * IcedCpu).
Next Obligation. intros [g i] r. cbn. by rewrite get_reg_context. Qed.
Next Obligation. intros. apply engine_mem_context. Qed.
Next Obligation. intros. apply engine_mem_context. Qed.
Next Obligation. intros. apply engine_mem_context. Qed.
Next Obligation. intros. apply engine_mem_context. Qed.
Next Obligation. intros. apply engine_mem_context. Qed.
Next Obligation. intros. apply engine_mem_context. Qed.
Next Obligation. done. Qed.
Next Obligation. intros. apply engine_mem_context. Qed.
Next Obligation.
  intros [g i] value. cbn. unfold iced_cpu.return_from_win64_api. cbn [fst snd].
  destruct (mem_read_n _ 8 g) as [g' [bs|[t]|w]]; [|done..]. cbn. unfold iced_cpu.snapshot_thread_context. done.
Qed.
Next Obligation.
  intros [g i] value ra Hi Hacc Hra Hh. destruct (mem_read_holds (g, i) (context_reg Rsp (snapshot_thread_context (g, i))) (le_bytes 8 ra) Hi) as (e' & E & Hun);
    [by rewrite length_le_bytes|exact Hh|]. rewrite length_le_bytes in E.
  cbn [mem_read IcedCpu_CpuMem] in E. unfold on_engine_mem, zoom in E. cbn [fst snd] in E.
  cbn [return_from_win64_api IcedCpu_CpuApi]. unfold iced_cpu.return_from_win64_api. cbn [fst snd].
  change (rsp (i_regs i)) with (context_reg Rsp (snapshot_thread_context (g, i))). rewrite mem_read_n_engine.
  destruct (engine.mem_read _ 8 g) as [g' r].
  assert (Hr : r = Ok (le_bytes 8 ra)) by (by apply (f_equal snd) in E). apply (f_equal fst) in E. cbn [fst] in E. subst e' r.
  assert (Hval : le_val (le_bytes 8 ra) = ra) by (rewrite le_val_le_bytes; apply Z.mod_small; unfold in_u64 in Hra; lia).
  rewrite Hval. eexists. split; [done|].
  destruct Hun as [? ? ?]. by split.
Qed.
Next Obligation.
  intros [g i] r v. eexists (g, _). split; [reflexivity|]. split; [by destruct r|]. intros Hi. by split.
Qed.
Next Obligation. intros [g i] [gs xs ip fl]. reflexivity. Qed.
Next Obligation. intros [g i] c Hi. by split. Qed.
Next Obligation.
  intros [g i] a n f [Hwf Hrw] (Ha & Hlim & Hacc). cbn [host_rmw IcedCpu_CpuApi]. unfold on_engine_mem, zoom. cbn [fst snd].
  destruct (memory_rmw_ok g a n f Hwf Hrw Ha Hlim) as (g' & o & -> & Hwf' & Hrw' & Hv & Ho).
  exists (g', i), o. split; [done|]. split; [done|]. split; [intros x; by apply page_rw_same|].
  destruct o as [old|]; [|done]. destruct Ho as [(bs & Hl & Hbs & ->) Hset]. split_and!.
  - intros bs' Hl' Hh. f_equal. apply list_eq. intros j. destruct (decide (j < n)%nat) as [Hj|Hj].
    + rewrite Hbs by done. destruct (lookup_lt_is_Some_2 bs' j) as [b Hb]; [lia|]. rewrite Hb. by apply Hh.
    + rewrite !(lookup_ge_None_2 _ j) by lia. done.
  - intros j b Hb. change (gbyte g' (a + Z.of_nat j) = Some b). rewrite Hset. apply lookup_lt_Some in Hb as Hj.
    rewrite length_le_bytes in *. rewrite decide_True by lia. rewrite <- Hb. f_equal. lia.
  - intros x Hx. change (gbyte g' x = gbyte g x). rewrite Hset, length_le_bytes. by rewrite decide_False.
Qed.
End Interpreter.

(** ** The state of the process, and what a handler does *)

(** Exception dispatch in progress: the guest calls and the jump that are left. *)
Inductive SehStep :=
  | Action (target establisher : u64)
  | MsvcCatchCall (handler establisher frame_rsp : u64) (gpr : list u64) (xmm : list u128) (c : MsvcCatch)
      (exception_object image_base throw_info : u64)
  | Jump (jump_rip jump_rsp : u64) (gpr : list u64) (xmm : list u128) (jump_rax jump_rdx : option u64).
Record SehPending := mkPending {
  sp_steps : list SehStep;
  expect_catch_return : bool;
  expect_cleanup_resume : bool;
}.

(** The fields of [WinApiState] the modelled handlers use. *)
Record WinApiState := mkWin {
  w_heap : GuestHeap;
  w_next_fls_index : u32;
  w_fls_slots : list (u32 * u64);
  w_guest_fls_table_va : u64;
  w_last_error : u32;
  w_threads : ThreadState;
  w_sync : SyncState;
  w_next_global_atom : u16;
  w_global_atoms : list (u16 * list char);
  w_seh_pending : option SehPending;
}.
Definition set_heap (h : GuestHeap) (s : WinApiState) : WinApiState :=
  mkWin h (w_next_fls_index s) (w_fls_slots s) (w_guest_fls_table_va s) (w_last_error s) (w_threads s) (w_sync s)
    (w_next_global_atom s) (w_global_atoms s) (w_seh_pending s).
Definition set_fls (next : u32) (slots : list (u32 * u64)) (s : WinApiState) : WinApiState :=
  mkWin (w_heap s) next slots (w_guest_fls_table_va s) (w_last_error s) (w_threads s) (w_sync s)
    (w_next_global_atom s) (w_global_atoms s) (w_seh_pending s).
Definition set_last_error (e : u32) (s : WinApiState) : WinApiState :=
  mkWin (w_heap s) (w_next_fls_index s) (w_fls_slots s) (w_guest_fls_table_va s) e (w_threads s) (w_sync s)
    (w_next_global_atom s) (w_global_atoms s) (w_seh_pending s).
Definition set_threads (t : ThreadState) (s : WinApiState) : WinApiState :=
  mkWin (w_heap s) (w_next_fls_index s) (w_fls_slots s) (w_guest_fls_table_va s) (w_last_error s) t (w_sync s)
    (w_next_global_atom s) (w_global_atoms s) (w_seh_pending s).
Definition set_sync (y : SyncState) (s : WinApiState) : WinApiState :=
  mkWin (w_heap s) (w_next_fls_index s) (w_fls_slots s) (w_guest_fls_table_va s) (w_last_error s) (w_threads s) y
    (w_next_global_atom s) (w_global_atoms s) (w_seh_pending s).
Definition set_atoms (next : u16) (l : list (u16 * list char)) (s : WinApiState) : WinApiState :=
  mkWin (w_heap s) (w_next_fls_index s) (w_fls_slots s) (w_guest_fls_table_va s) (w_last_error s) (w_threads s) (w_sync s)
    next l (w_seh_pending s).
Definition set_seh_pending (p : option SehPending) (s : WinApiState) : WinApiState :=
  mkWin (w_heap s) (w_next_fls_index s) (w_fls_slots s) (w_guest_fls_table_va s) (w_last_error s) (w_threads s) (w_sync s)
    (w_next_global_atom s) (w_global_atoms s) p.

Inductive HostParkReason :=
  | CriticalSection (cs : u64)
  | WaitObject (handle : u64) (timeout_ms : u32)
  | WaitMultiple.
(** A call of a window procedure that a handler asks for. *)
Record GuestCallbackRequest := mkRequest {
  callback_address : u64;
  rq_window_handle : u64;
  rq_message : u32;
  rq_word_parameter : u64;
  rq_long_parameter : u64;
  rq_unicode : bool;
}.
Inductive WinApiControlSignal :=
  | WaitingForMessage
  | GuestCallbackRequested (request : GuestCallbackRequest)
  | HostPark (reason : HostParkReason)
  | ExitThread (code : u32).
(** [Ok(WinApiHandlerResult)], or a control signal in an [anyhow] error. *)
Inductive HandlerOutcome :=
  | Return (return_address return_value : u64)
  | Signal (signal : WinApiControlSignal).
#[global] Instance GuestCallbackRequest_eq_dec : EqDecision GuestCallbackRequest.
Proof. solve_decision. Defined.
#[global] Instance HostParkReason_eq_dec : EqDecision HostParkReason.
Proof. solve_decision. Defined.
#[global] Instance WinApiControlSignal_eq_dec : EqDecision WinApiControlSignal.
Proof. solve_decision. Defined.
#[global] Instance HandlerOutcome_eq_dec : EqDecision HandlerOutcome.
Proof. solve_decision. Defined.

Definition ERROR_FILE_NOT_FOUND : u32 := 2.
Definition ERROR_INVALID_HANDLE : u32 := 6.
Definition ERROR_NOT_ENOUGH_MEMORY : u32 := 8.
Definition ERROR_NOT_SUPPORTED_MT : u32 := 50.
Definition ERROR_INVALID_PARAMETER : u32 := 87.
Definition ERROR_TOO_MANY_POSTS : u32 := 298.

Definition mask32 (v : u64) : u32 := Z.land v 0xffffffff.

Record Api (E : Type) := mkApi { a_cpu : E; a_win : WinApiState }.
Arguments mkApi {E}.
Arguments a_cpu {E}.
Arguments a_win {E}.
Abbreviation H E := (M (Api E)).

Section Handlers.
Context {E : Type} `{CpuMem E, !CpuMap E, !CpuRegs E, !CpuApi E}.
Abbreviation H := (M (Api E)).

Definition cpu {A} (m : M E A) : H A := zoom a_cpu (λ e s, mkApi e (a_win s)) m.
Definition snapshot_cpu : H ThreadContext := λ s, (s, Ok (snapshot_thread_context (a_cpu s))).
Definition win {A} (f : WinApiState → A) : H A := λ s, (s, Ok (f (a_win s))).
Definition on_win (f : WinApiState → WinApiState) : H unit := λ s, (mkApi (a_cpu s) (f (a_win s)), Ok tt).
(** An operation of a component of the state that returns something. *)
Definition on_threads {A} (f : ThreadState → ThreadState * A) : H A := λ s,
  let '(t, a) := f (w_threads (a_win s)) in (mkApi (a_cpu s) (set_threads t (a_win s)), Ok a).
Definition on_sync {A} (f : SyncState → SyncState * A) : H A := λ s,
  let '(y, a) := f (w_sync (a_win s)) in (mkApi (a_cpu s) (set_sync y (a_win s)), Ok a).
Definition on_heap {A} (f : E → GuestHeap → E * GuestHeap * A) : H A := λ s,
  let '(e, h, a) := f (a_cpu s) (w_heap (a_win s)) in (mkApi e (set_heap h (a_win s)), Ok a).

(** A call whose error is dropped, or looked at. *)
Definition attempt {A} (m : H A) : H (A + CpuError) := λ s,
  match m s with
  | (s, Ok a) => (s, Ok (inl a))
  | (s, Err x) => (s, Ok (inr x))
  | (s, Abort w) => (s, Abort w)
  end.
Definition ignore {A} (m : H A) : H unit := _ ← attempt m; mret tt.
(** [Result::unwrap_or]. *)
Definition unwrap_or {A} (d : A) (m : H A) : H A := r ← attempt m; mret (match r with inl a => a | inr _ => d end).

Definition last_error (e : u32) : H unit := on_win (set_last_error e).
Definition arg (r : Reg) : H u64 := cpu (read_reg r).
Definition arg_for (r : Reg) (name api : string) : H u64 :=
  context ("failed to read " +:+ name +:+ " for " +:+ api) (cpu (read_reg r)).
Definition returned (v : u64) : H HandlerOutcome := ra ← cpu (return_from_win64_api v); mret (Return ra v).
Definition ret_u64 (v : u64) (api : string) : H HandlerOutcome :=
  context ("failed to return from " +:+ api) (returned v).
Definition signal (x : WinApiControlSignal) : H HandlerOutcome := mret (Signal x).

(** [low_u32] cannot fail. *)
Definition low_u32 (v : u64) : u32 := mask32 v.

Definition read_stack_u64 (offset : u64) : H u64 :=
  rsp ← arg Rsp;
  address ← some_ctx "stack arg address overflow" (checked_add rsp offset);
  bytes ← cpu (mem_read address 8%nat);
  mret (le_val bytes).
Definition read_create_file_stack_u32 (offset : u64) : H u32 :=
  rsp ← context "failed to read RSP for CreateFile stack arg" (arg Rsp);
  address ← some_ctx "CreateFile stack arg address overflow" (checked_add rsp offset);
  bytes ← context "failed to read CreateFile stack arg" (cpu (mem_read address 4%nat));
  mret (le_val bytes).
End Handlers.

(** ** The calling convention

    Until it returns a handler leaves the registers alone; when it returns it has
    popped the return address, put the value into RAX, and nothing else. *)

Create HintDb conv.
Create HintDb keep_ctx.

Section Convention.
Context {E : Type} `{CpuApiLaws E}.

Definition same_context {A} (m : M (Api E) A) : Prop :=
  ∀ s, snapshot_thread_context (a_cpu (m s).1) = snapshot_thread_context (a_cpu s).
Definition convention (m : M (Api E) HandlerOutcome) : Prop :=
  ∀ s, snapshot_thread_context (a_cpu (m s).1) =
       match (m s).2 with
       | Ok (Return ra v) => returned_context v ra (snapshot_thread_context (a_cpu s))
       | _ => snapshot_thread_context (a_cpu s)
       end.

Lemma same_ret {A} (a : A) : same_context (mret a).
Proof. done. Qed.
Lemma same_lift {A} (r : res A) : same_context (lift r).
Proof. done. Qed.
Lemma same_win {A} (f : WinApiState → A) : same_context (win f).
Proof. done. Qed.
Lemma same_on_win f : same_context (on_win f).
Proof. done. Qed.
Lemma same_snapshot : same_context snapshot_cpu.
Proof. done. Qed.
Lemma same_threads {A} (f : ThreadState → ThreadState * A) : same_context (on_threads f).
Proof. intros s. unfold on_threads. by destruct (f _). Qed.
Lemma same_sync {A} (f : SyncState → SyncState * A) : same_context (on_sync f).
Proof. intros s. unfold on_sync. by destruct (f _). Qed.
Lemma same_cpu {A} (m : M E A) : keeps_regs m → same_context (cpu m).
Proof. intros Hm s. unfold cpu, zoom. specialize (Hm (a_cpu s)). by destruct (m _). Qed.
Lemma same_bind {A B} (m : M (Api E) A) (f : A → M (Api E) B) :
  same_context m → (∀ a, same_context (f a)) → same_context (m ≫= f).
Proof.
  intros Hm Hf s. specialize (Hm s). unfold mbind, M_bind. destruct (m s) as [s' [a|e|w]]; [|done..].
  rewrite (Hf a s'). exact Hm.
Qed.
Lemma same_ctx {A} text (m : M (Api E) A) : same_context m → same_context (context text m).
Proof. intros Hm s. unfold context. specialize (Hm s). by destruct (m s) as [s' [a|e|w]]. Qed.
Lemma same_attempt {A} (m : M (Api E) A) : same_context m → same_context (attempt m).
Proof. intros Hm s. unfold attempt. specialize (Hm s). by destruct (m s) as [s' [a|e|w]]. Qed.

Lemma keeps_read_reg r : keeps_regs (read_reg (E := E) r).
Proof. intros e. by rewrite read_reg_context. Qed.
Lemma keeps_regs_ret {A} (a : A) : keeps_regs (mret a : M E A).
Proof. done. Qed.
Lemma keeps_regs_lift {A} (r : res A) : keeps_regs (lift r : M E A).
Proof. done. Qed.
Lemma keeps_regs_bind {A B} (m : M E A) (f : A → M E B) :
  keeps_regs m → (∀ a, keeps_regs (f a)) → keeps_regs (m ≫= f).
Proof.
  intros Hm Hf s. specialize (Hm s). unfold mbind, M_bind. destruct (m s) as [s' [a|e|w]]; [|done..].
  rewrite (Hf a s'). exact Hm.
Qed.
Lemma keeps_regs_ctx {A} text (m : M E A) : keeps_regs m → keeps_regs (context text m).
Proof. intros Hm s. unfold context. specialize (Hm s). by destruct (m s) as [s' [a|e|w]]. Qed.

Lemma conv_ret v : convention (returned v).
Proof.
  intros s. unfold returned, cpu, zoom, mbind, M_bind. pose proof (return_context (a_cpu s) v) as Hr.
  by destruct (return_from_win64_api v (a_cpu s)) as [e [ra|x|w]].
Qed.
Lemma conv_signal x : convention (signal x).
Proof. done. Qed.
Lemma conv_bind {A} (m : M (Api E) A) f : same_context m → (∀ a, convention (f a)) → convention (m ≫= f).
Proof.
  intros Hm Hf s. specialize (Hm s). unfold mbind, M_bind. destruct (m s) as [s' [a|e|w]]; [|done..].
  rewrite (Hf a s'). cbn [fst] in Hm. by rewrite Hm.
Qed.
Lemma conv_ctx text m : convention m → convention (context text m).
Proof. intros Hm s. unfold context. specialize (Hm s). by destruct (m s) as [s' [[ra v|x]|e|w]]. Qed.
End Convention.

