(* ===== verification/k32_sync.v ===== *)
(** * Critical sections and interlocked operations (crates/wie-winapi/src/kernel32.rs)

    A critical section lives in guest memory; entering a free one, or one's own,
    takes it, entering another thread's parks the host thread.  An interlocked
    operation is one atomic operation on the host word when there is a writable
    span, a load and a store otherwise. *)

From S2P Require Import Prelude utf regs insn engine cpu guest_string sync_obj thread win32.

(** [prev.saturating_add(1)] of a [u32]. *)
Definition sat_inc32 (v : u32) : u32 := Z.min (v + 1) (u32_lim - 1).
Definition u32_max : u32 := u32_lim - 1.

Section Handlers.
Context {E : Type} `{CpuMem E, !CpuMap E, !CpuRegs E, !CpuApi E}.
Abbreviation H := (M (Api E)).

(** ** Critical sections *)

Definition cs_field (cs : u64) (offset : u64) (name : string) : H u64 := cpu (checked_field_address cs offset name).

Definition write_critical_section_unlocked (critical_section_ptr spin_count : u64) : H unit :=
  a ← cs_field critical_section_ptr 0 "DebugInfo"; _ ← cpu (write_u64 a 0);
  a ← cs_field critical_section_ptr 8 "LockCount"; _ ← cpu (write_u32 a u32_max);
  a ← cs_field critical_section_ptr 12 "RecursionCount"; _ ← cpu (write_u32 a 0);
  a ← cs_field critical_section_ptr 16 "OwningThread"; _ ← cpu (write_u64 a 0);
  a ← cs_field critical_section_ptr 24 "LockSemaphore"; _ ← cpu (write_u64 a 0);
  a ← cs_field critical_section_ptr 32 "SpinCount"; cpu (write_u64 a spin_count).

Inductive EnterCsResult := Acquired | NeedPark.

Definition read_guest_u32_cs (va : u64) : M E u32 := b ← mem_read va 4%nat; mret (le_val b).

Definition try_enter_critical_section_guest (cs : u64) (owner_tid : u32) : H EnterCsResult :=
  lock_va ← cs_field cs 8 "LockCount";
  recursion_va ← cs_field cs 12 "RecursionCount";
  owner_va ← cs_field cs 16 "OwningThread";
  owning ← unwrap_or 0 (cpu (read_u64 owner_va));
  if decide (owning = 0 ∨ owning = owner_tid) then
    recursion ← (if decide (owning = 0) then mret 1
                 else prev ← unwrap_or 0 (cpu (read_guest_u32_cs recursion_va)); mret (sat_inc32 prev));
    lock_count ← (if decide (owning = 0) then mret 0
                  else prev ← unwrap_or 0 (cpu (read_guest_u32_cs lock_va)); mret (sat_inc32 prev));
    _ ← cpu (write_u32 lock_va lock_count);
    _ ← cpu (write_u32 recursion_va recursion);
    _ ← cpu (write_u64 owner_va owner_tid);
    mret Acquired
  else mret NeedPark.

Definition leave_critical_section_guest (cs : u64) (owner_tid : u32) : H bool :=
  lock_va ← cs_field cs 8 "LockCount";
  recursion_va ← cs_field cs 12 "RecursionCount";
  owner_va ← cs_field cs 16 "OwningThread";
  owning ← unwrap_or 0 (cpu (read_u64 owner_va));
  if decide (owning ≠ owner_tid) then mret false
  else
    recursion ← unwrap_or 1 (cpu (read_guest_u32_cs recursion_va));
    if decide (recursion ≤ 1) then
      _ ← cpu (write_u32 lock_va u32_max);
      _ ← cpu (write_u32 recursion_va 0);
      _ ← cpu (write_u64 owner_va 0);
      mret true
    else
      lock ← unwrap_or 1 (cpu (read_guest_u32_cs lock_va));
      _ ← cpu (write_u32 lock_va (sat_sub lock 1));
      _ ← cpu (write_u32 recursion_va (sat_sub recursion 1));
      mret false.

Definition handle_initialize_critical_section : H HandlerOutcome :=
  critical_section_ptr ← arg_for Rcx "RCX" "InitializeCriticalSection";
  _ ← (if decide (critical_section_ptr ≠ 0) then write_critical_section_unlocked critical_section_ptr 0 else mret tt);
  ret_u64 0 "InitializeCriticalSection".
Definition handle_enter_critical_section : H HandlerOutcome :=
  cs ← arg_for Rcx "RCX" "EnterCriticalSection";
  r ← (if decide (cs ≠ 0) then
         tid ← win (λ s, current_tid (w_threads s)); try_enter_critical_section_guest cs tid
       else mret Acquired);
  match r with
  | Acquired => ret_u64 0 "EnterCriticalSection"
  | NeedPark => signal (HostPark (CriticalSection cs))
  end.
(** The wake-up of a parked host thread changes no state. *)
Definition handle_leave_critical_section : H HandlerOutcome :=
  cs ← arg_for Rcx "RCX" "LeaveCriticalSection";
  _ ← (if decide (cs ≠ 0) then
         tid ← win (λ s, current_tid (w_threads s)); leave_critical_section_guest cs tid
       else mret false);
  ret_u64 0 "LeaveCriticalSection".
Definition handle_delete_critical_section : H HandlerOutcome :=
  cs ← arg_for Rcx "RCX" "DeleteCriticalSection";
  _ ← (if decide (cs ≠ 0) then write_critical_section_unlocked cs 0 else mret tt);
  ret_u64 0 "DeleteCriticalSection".

(** ** Interlocked operations

    [trunc_i32] reads a LONG from the low half of a register, [i32_to_rax] puts it
    back sign-extended; a 64-bit operand is the register itself. *)

Definition trunc_i32 (reg : u64) : Z := as_i32 (mask32 reg).
Definition i32_to_rax (v : Z) : u64 := v mod u64_lim.
(** [wrapping_add] of the signed integers of [8 * n] bits. *)
Definition wrap_signed (n : nat) (v : Z) : Z := as_i (8 * Z.of_nat n) v.

(** One operation on a word of [n] bytes: [new] of the old value, both signed. *)
Definition interlocked (n : nat) (suffix : string) (addr : u64) (new : Z → Z) : H (Z * Z) :=
  if decide (addr = 0) then fail (Message ("Interlocked*" +:+ suffix +:+ " null destination"))
  else
    let signed (v : Z) : Z := as_i (8 * Z.of_nat n) v in
    fast ← (if is_multiple_of addr (Z.of_nat n) then cpu (host_rmw addr n (λ old, new (signed old))) else mret None);
    match fast with
    | Some old => mret (signed old, new (signed old))
    | None =>
        bytes ← context ("Interlocked*" +:+ suffix +:+ " slow-path read") (cpu (mem_read addr n));
        let old := signed (le_val bytes) in
        _ ← context ("Interlocked*" +:+ suffix +:+ " slow-path write") (cpu (mem_write addr (le_bytes n (new old))));
        mret (old, new old)
    end.
Definition interlocked_i32 (addr : u64) (new : Z → Z) : H Z := r ← interlocked 4 "" addr new; mret r.2.
Definition interlocked_i32_prev (addr : u64) (new : Z → Z) : H Z := r ← interlocked 4 "" addr new; mret r.1.
Definition interlocked_i64 (addr : u64) (new : Z → Z) : H Z := r ← interlocked 8 "64" addr new; mret r.2.
Definition interlocked_i64_prev (addr : u64) (new : Z → Z) : H Z := r ← interlocked 8 "64" addr new; mret r.1.

Definition as_i64 (reg : u64) : Z := as_i 64 reg.
Definition compare_exchange (comparand exchange old : Z) : Z := if decide (old = comparand) then exchange else old.

Definition handle_interlocked_increment : H HandlerOutcome :=
  addr ← context "InterlockedIncrement RCX" (arg Rcx);
  new ← interlocked_i32 addr (λ old, wrap_signed 4 (old + 1)); returned (i32_to_rax new).
Definition handle_interlocked_decrement : H HandlerOutcome :=
  addr ← context "InterlockedDecrement RCX" (arg Rcx);
  new ← interlocked_i32 addr (λ old, wrap_signed 4 (old - 1)); returned (i32_to_rax new).
Definition handle_interlocked_exchange : H HandlerOutcome :=
  addr ← context "InterlockedExchange RCX" (arg Rcx);
  rdx ← arg Rdx;
  prev ← interlocked_i32_prev addr (λ _, trunc_i32 rdx); returned (i32_to_rax prev).
Definition handle_interlocked_compare_exchange : H HandlerOutcome :=
  addr ← arg Rcx; rdx ← arg Rdx; r8 ← arg R8;
  prev ← interlocked_i32_prev addr (compare_exchange (trunc_i32 r8) (trunc_i32 rdx)); returned (i32_to_rax prev).
Definition handle_interlocked_exchange_add : H HandlerOutcome :=
  addr ← arg Rcx; rdx ← arg Rdx;
  prev ← interlocked_i32_prev addr (λ old, wrap_signed 4 (old + trunc_i32 rdx)); returned (i32_to_rax prev).
Definition handle_interlocked_increment64 : H HandlerOutcome :=
  addr ← arg Rcx; new ← interlocked_i64 addr (λ old, wrap_signed 8 (old + 1)); returned (i32_to_rax new).
Definition handle_interlocked_decrement64 : H HandlerOutcome :=
  addr ← arg Rcx; new ← interlocked_i64 addr (λ old, wrap_signed 8 (old - 1)); returned (i32_to_rax new).
Definition handle_interlocked_exchange64 : H HandlerOutcome :=
  addr ← arg Rcx; rdx ← arg Rdx; prev ← interlocked_i64_prev addr (λ _, as_i64 rdx); returned (i32_to_rax prev).
Definition handle_interlocked_compare_exchange64 : H HandlerOutcome :=
  addr ← arg Rcx; rdx ← arg Rdx; r8 ← arg R8;
  prev ← interlocked_i64_prev addr (compare_exchange (as_i64 r8) (as_i64 rdx)); returned (i32_to_rax prev).
Definition handle_interlocked_exchange_add64 : H HandlerOutcome :=
  addr ← arg Rcx; rdx ← arg Rdx;
  prev ← interlocked_i64_prev addr (λ old, wrap_signed 8 (old + as_i64 rdx)); returned (i32_to_rax prev).
End Handlers.
