(* ===== verification/k32_thread.v ===== *)
(** * Threads, waits and thread-local storage (crates/wie-winapi/src/kernel32.rs)

    What the thread and synchronisation calls do to the tables of [sync_obj] and
    [thread].  A wait that cannot be satisfied at once hands the host thread a
    reason to park.  Several objects are polled one section at a time: [env] is
    what other host threads do to them meanwhile; [values] is the order in which
    the table of handles is traversed. *)

From S2P Require Import Prelude utf regs insn engine cpu guest_string sync_obj thread win32.

Definition DEFAULT_WORKER_STACK : usize := 0x100000.
Definition WORKER_STACK_REGION_BASE : u64 := 0x22000000.
Definition WORKER_STACK_STRIDE : u64 := 0x200000.
Definition THREAD_ENTRY_HOME_AND_RET : Z := 0x28.
Definition CREATE_SUSPENDED : u32 := 0x4.
Definition MEM_COMMIT_RESERVE : u32 := Z.lor 0x1000 0x2000.
Definition PAGE_READWRITE : u32 := 0x04.
Definition DEFAULT_MT_MAX_THREADS : u32 := 64.

(** The environment variables, when they are set and valid Unicode. *)
Definition mt_create_thread_enabled (WIE_MT : option string) : bool :=
  match WIE_MT with
  | Some v => negb (bool_decide (v = "0"%string) || eq_ignore_ascii_case v "false" || eq_ignore_ascii_case v "off")
  | None => true
  end.
Definition mt_max_worker_threads (WIE_MT_MAX_THREADS : option string) : u32 :=
  match WIE_MT_MAX_THREADS ≫= parse_u32 with
  | Some n => if decide (0 < n) then n else DEFAULT_MT_MAX_THREADS
  | None => DEFAULT_MT_MAX_THREADS
  end.

(** ** Fields of the table *)

Definition set_arcs (l : list KernelObject) (s : SyncState) : SyncState :=
  mkSync (next_handle s) (objects s) l (thread_cpu s) (cs_waiters s) (next_cs_queue s) (next_stack_slot s)
    (pending_spawns s) (suspended_spawns s) (multi_wait s) (process_dying s) (function_tables s).
Definition set_objects (next : u64) (m : gmap u64 nat) (s : SyncState) : SyncState :=
  mkSync next m (arcs s) (thread_cpu s) (cs_waiters s) (next_cs_queue s) (next_stack_slot s)
    (pending_spawns s) (suspended_spawns s) (multi_wait s) (process_dying s) (function_tables s).
Definition set_stack_slot (n : u32) (s : SyncState) : SyncState :=
  mkSync (next_handle s) (objects s) (arcs s) (thread_cpu s) (cs_waiters s) (next_cs_queue s) n
    (pending_spawns s) (suspended_spawns s) (multi_wait s) (process_dying s) (function_tables s).
Definition set_spawns (pending : list PendingSpawn) (suspended : gmap u64 PendingSpawn) (s : SyncState) : SyncState :=
  mkSync (next_handle s) (objects s) (arcs s) (thread_cpu s) (cs_waiters s) (next_cs_queue s) (next_stack_slot s)
    pending suspended (multi_wait s) (process_dying s) (function_tables s).
Definition set_multi_wait (m : gmap u32 MultiWaitRequest) (s : SyncState) : SyncState :=
  mkSync (next_handle s) (objects s) (arcs s) (thread_cpu s) (cs_waiters s) (next_cs_queue s) (next_stack_slot s)
    (pending_spawns s) (suspended_spawns s) m (process_dying s) (function_tables s).

(** Another handle for the object [arc]. *)
Definition duplicate (arc : nat) (s : SyncState) : SyncState * u64 :=
  let h := next_handle s in
  (set_objects (wrap64 (next_handle s + 4)) (<[h := arc]> (objects s)) s, h).
Definition close_handle (h : u64) (s : SyncState) : SyncState := set_objects (next_handle s) (delete h (objects s)) s.

(** ** The guest thread a spawn starts *)

Definition stack_size_of (stack_size_raw : u64) : usize :=
  let size := if decide (stack_size_raw = 0) then DEFAULT_WORKER_STACK else stack_size_raw in
  Z.max (Z.ldiff (sat_add size 0xfff) 0xfff) 0x1000.
Definition entry_rsp_of (stack_top : u64) : u64 := sat_sub (Z.ldiff stack_top 0xf) THREAD_ENTRY_HOME_AND_RET.
Definition entry_context (start param entry_rsp : u64) : ThreadContext :=
  let c := ThreadContext_new in
  mkContext (<[4%nat := entry_rsp]> (<[1%nat := param]> (tc_gpr c))) (tc_xmm c) start (tc_rflags c).

Definition live_workers (s : WinApiState) : usize :=
  sat_add (sat_add (sat_sub (Z.of_nat (size (by_tid (w_threads s)))) 1) (Z.of_nat (length (pending_spawns (w_sync s)))))
    (Z.of_nat (size (suspended_spawns (w_sync s)))).

Section Handlers.
Context {E : Type} `{CpuMem E, !CpuMap E, !CpuRegs E, !CpuApi E}.
Abbreviation H := (M (Api E)).
Context (WIE_MT WIE_MT_MAX_THREADS : option string).

Definition fails {A} (code : u32) (a : A) : H A := _ ← last_error code; mret a.

(** The stack of a worker: reserved at its slot, or mapped there. *)
Definition worker_stack (stack_base : u64) (stack_size : usize) : H (option u64) :=
  r ← attempt (cpu (virtual_alloc stack_base stack_size MEM_COMMIT_RESERVE PAGE_READWRITE));
  match r with
  | inl va => mret (Some va)
  | inr _ =>
      r ← attempt (cpu (mem_map stack_base stack_size 3));
      mret (match r with inl _ => Some stack_base | inr _ => None end)
  end.

Definition spawn_thread (start param : u64) (flags : u32) (stack_base : u64) (stack_size : usize) (entry_rsp : u64) : H (u32 * u64) :=
  tid ← on_threads alloc_worker;
  handle ← on_sync (λ y, let '(y, (handle, _)) := register_thread tid (entry_context start param entry_rsp) y in (y, handle));
  let spawn := mkSpawn tid handle start param stack_base stack_size in
  _ ← on_sync (λ y, (if decide (Z.land flags CREATE_SUSPENDED ≠ 0)
                     then set_spawns (pending_spawns y) (<[handle := spawn]> (suspended_spawns y)) y
                     else set_spawns (pending_spawns y ++ [spawn]) (suspended_spawns y) y, tt));
  mret (tid, handle).

Definition create_guest_thread (stack_size_raw start param : u64) (flags : u32) (tid_out : u64) : H u64 :=
  if negb (mt_create_thread_enabled WIE_MT) then fails ERROR_NOT_SUPPORTED_MT 0
  else if decide (start = 0) then fails ERROR_INVALID_PARAMETER 0
  else
    workers ← win live_workers;
    if decide (mt_max_worker_threads WIE_MT_MAX_THREADS ≤ workers) then fails ERROR_NOT_ENOUGH_MEMORY 0
    else
      let stack_size := stack_size_of stack_size_raw in
      slot ← on_sync (λ y, (set_stack_slot (Z.min (next_stack_slot y + 1) (u32_lim - 1)) y, next_stack_slot y));
      stack ← worker_stack (sat_add WORKER_STACK_REGION_BASE (sat_mul slot WORKER_STACK_STRIDE)) stack_size;
      match stack with
      | None => fails ERROR_NOT_ENOUGH_MEMORY 0
      | Some stack_base =>
          let entry_rsp := entry_rsp_of (sat_add stack_base stack_size) in
          _ ← ignore (cpu (mem_write entry_rsp (replicate (Z.to_nat THREAD_ENTRY_HOME_AND_RET) 0)));
          r ← spawn_thread start param flags stack_base stack_size entry_rsp;
          _ ← (if decide (tid_out ≠ 0) then ignore (cpu (mem_write tid_out (le_bytes 4 r.1))) else mret tt);
          _ ← last_error 0;
          mret r.2
      end.

Definition handle_create_thread : H HandlerOutcome :=
  _ ← arg Rcx; stack_size_raw ← arg Rdx; start ← arg R8; param ← arg R9;
  flags ← unwrap_or 0 (read_create_file_stack_u32 0x28);
  tid_out ← unwrap_or 0 (read_stack_u64 0x30);
  handle ← create_guest_thread stack_size_raw start param flags tid_out;
  returned handle.

Definition handle_resume_thread : H HandlerOutcome :=
  handle ← arg Rcx;
  y ← win w_sync;
  match suspended_spawns y !! handle with
  | Some spawn =>
      _ ← on_sync (λ y, (set_spawns (pending_spawns y ++ [spawn]) (delete handle (suspended_spawns y)) y, tt));
      _ ← last_error 0; ret_u64 1 "ResumeThread"
  | None =>
      if decide (is_Some (thread_by_handle y handle)) then _ ← last_error 0; ret_u64 0 "ResumeThread"
      else _ ← last_error ERROR_INVALID_HANDLE; ret_u64 (u32_lim - 1) "ResumeThread"
  end.

(** ** Exits *)

Context (values : gmap u64 nat → list nat).

(** The first thread object of [tid], in the order of the table. *)
Definition is_thread (tid : u32) (y : SyncState) (arc : nat) : bool :=
  match arcs y !! arc with Some (Thread t) => bool_decide (th_tid t = tid) | _ => false end.
Definition find_thread (tid : u32) (y : SyncState) : option nat := List.find (is_thread tid y) (values (objects y)).
Definition finish_arc (code : u32) (arc : nat) (y : SyncState) : SyncState :=
  set_arcs (alter (λ o, match o with Thread t => Thread (thread_finish code t) | _ => o end) arc (arcs y)) y.

Definition handle_exit_thread : H HandlerOutcome :=
  code_raw ← arg Rcx;
  let code := mask32 code_raw in
  tid ← win (λ s, current_tid (w_threads s));
  _ ← on_sync (λ y, (match find_thread tid y with Some arc => finish_arc code arc y | None => y end, tt));
  signal (ExitThread code).

Definition thread_exit_code (y : SyncState) (handle : u64) : option u32 :=
  arc ← thread_by_handle y handle;
  match arcs y !! arc with Some (Thread t) => Some (th_exit_code t) | _ => None end.
Definition handle_get_exit_code_thread : H HandlerOutcome :=
  handle ← arg Rcx; out_ptr ← arg Rdx;
  y ← win w_sync;
  match thread_exit_code y handle with
  | None => _ ← last_error ERROR_INVALID_HANDLE; returned 0
  | Some code =>
      _ ← (if decide (out_ptr ≠ 0) then ignore (cpu (mem_write out_ptr (le_bytes 4 code))) else mret tt);
      _ ← last_error 0; returned 1
  end.

(** ** Waits *)

Definition handle_wait_for_single_object : H HandlerOutcome :=
  handle ← arg Rcx; timeout_raw ← arg Rdx;
  let timeout_ms := mask32 timeout_raw in
  y ← win w_sync;
  match objects y !! handle with
  | None => _ ← last_error ERROR_INVALID_HANDLE; returned WAIT_FAILED
  | Some arc =>
      ready ← on_sync (λ y, let '(st, b) := target_try_wait arc (arcs y) in (set_arcs st y, b));
      if (ready : bool) then _ ← last_error 0; returned WAIT_OBJECT_0
      else signal (HostPark (WaitObject handle timeout_ms))
  end.

Context (env : nat → list KernelObject → list KernelObject).

Fixpoint read_handles (ptr : u64) (i : Z) (n : nat) : H (list u64) :=
  match n with
  | O => mret []
  | S n => h ← cpu (read_u64 (wrapping_add ptr (wrap64 (i * 8)))); hs ← read_handles ptr (i + 1) n; mret (h :: hs)
  end.
Definition handle_wait_for_multiple_objects : H HandlerOutcome :=
  rcx ← arg Rcx;
  let count := mask32 rcx in
  handles_ptr ← arg Rdx;
  r8 ← arg R8;
  let wait_all := bool_decide (mask32 r8 ≠ 0) in
  timeout_raw ← arg R9;
  let timeout_ms := mask32 timeout_raw in
  if decide (count = 0 ∨ handles_ptr = 0 ∨ Z.of_nat MAXIMUM_WAIT_OBJECTS < count) then
    _ ← last_error ERROR_INVALID_PARAMETER; ret_u64 WAIT_FAILED "WaitForMultipleObjects"
  else
    handles ← read_handles handles_ptr 0 (Z.to_nat count);
    y ← win w_sync;
    match wait_targets y handles with
    | None => _ ← last_error ERROR_INVALID_HANDLE; ret_u64 WAIT_FAILED "WaitForMultipleObjects"
    | Some targets =>
        result ← on_sync (λ y, let '(st, code) := wait_multiple env targets wait_all 0 [] (arcs y) in
                               (set_arcs st y, default WAIT_TIMEOUT code));
        if decide (result ≠ WAIT_TIMEOUT) then _ ← last_error 0; ret_u64 result "WaitForMultipleObjects"
        else if decide (timeout_ms = 0) then _ ← last_error 0; ret_u64 WAIT_TIMEOUT "WaitForMultipleObjects"
        else
          waiter ← win (λ s, current_tid (w_threads s));
          _ ← on_sync (λ y, (set_multi_wait (<[waiter := mkMultiWait handles wait_all timeout_ms]> (multi_wait y)) y, tt));
          signal (HostPark WaitMultiple)
    end.

(** ** Events and semaphores *)

Definition handle_create_event : H HandlerOutcome :=
  _ ← arg Rcx; rdx ← arg Rdx; r8 ← arg R8; _ ← arg R9;
  handle ← on_sync (λ y, let '(y, (h, _)) := register_event (bool_decide (rdx ≠ 0)) (bool_decide (r8 ≠ 0)) y in (y, h));
  _ ← last_error 0; returned handle.

(** [f] on the event [handle] names, if it is one. *)
Definition on_event (f : EventObject → EventObject) (handle : u64) (y : SyncState) : SyncState * bool :=
  match objects y !! handle with
  | Some arc =>
      match arcs y !! arc with
      | Some (Event e) => (set_arcs (<[arc := Event (f e)]> (arcs y)) y, true)
      | _ => (y, false)
      end
  | None => (y, false)
  end.
Definition event_call (f : EventObject → EventObject) : H HandlerOutcome :=
  handle ← arg Rcx;
  ok ← on_sync (on_event f handle);
  if (ok : bool) then _ ← last_error 0; returned 1 else _ ← last_error ERROR_INVALID_HANDLE; returned 0.
Definition handle_set_event : H HandlerOutcome := event_call event_set.
Definition handle_reset_event : H HandlerOutcome := event_call event_reset.
Definition handle_open_event : H HandlerOutcome :=
  _ ← arg Rcx; _ ← arg Rdx;
  r ← attempt (arg R9);
  _ ← (match r with inl v => mret v | inr _ => arg R8 end);
  _ ← last_error ERROR_FILE_NOT_FOUND; ret_u64 0 "OpenEventW".

Definition handle_create_semaphore : H HandlerOutcome :=
  _ ← arg Rcx; initial_raw ← arg Rdx; maximum_raw ← arg R8; _ ← arg R9;
  let initial := as_i32 (mask32 initial_raw) in
  let maximum := as_i32 (mask32 maximum_raw) in
  if decide (maximum ≤ 0 ∨ initial < 0 ∨ maximum < initial) then
    _ ← last_error ERROR_INVALID_PARAMETER; ret_u64 0 "CreateSemaphore"
  else
    handle ← on_sync (λ y, let '(y, (h, _)) := register_semaphore initial maximum y in (y, h));
    _ ← last_error 0; ret_u64 handle "CreateSemaphore".
Definition release_handle (handle : u64) (n : Z) (y : SyncState) : SyncState * option (option Z) :=
  match objects y !! handle with
  | Some arc =>
      match arcs y !! arc with
      | Some (Semaphore sem) =>
          let '(sem, prev) := sem_release n sem in (set_arcs (<[arc := Semaphore sem]> (arcs y)) y, Some prev)
      | _ => (y, None)
      end
  | None => (y, None)
  end.
Definition handle_release_semaphore : H HandlerOutcome :=
  handle ← arg Rcx; release_raw ← arg Rdx; prev_out ← arg R8;
  r ← on_sync (release_handle handle (as_i32 (mask32 release_raw)));
  match r with
  | None => _ ← last_error ERROR_INVALID_HANDLE; ret_u64 0 "ReleaseSemaphore"
  | Some (Some prev) =>
      _ ← (if decide (prev_out ≠ 0) then cpu (write_u32 prev_out (prev mod u32_lim)) else mret tt);
      _ ← last_error 0; ret_u64 1 "ReleaseSemaphore"
  | Some None => _ ← last_error ERROR_TOO_MANY_POSTS; ret_u64 0 "ReleaseSemaphore"
  end.

(** ** Handles *)

(** A pseudohandle becomes an object of the thread that runs. *)
Definition own_thread_arc (tid : u32) (y : SyncState) : SyncState * nat :=
  match find_thread tid y with
  | Some arc => (y, arc)
  | None => let '(y, (_, arc)) := register_thread tid ThreadContext_new y in (y, arc)
  end.
Definition handle_duplicate_handle : H HandlerOutcome :=
  _ ← arg Rcx; source_handle ← arg Rdx; _ ← arg R8; target_handle_ptr ← arg R9;
  rsp ← arg Rsp;
  opts ← unwrap_or 0 (b ← cpu (mem_read (wrapping_add rsp 0x38) 4%nat); mret (le_val b));
  let close_source := bool_decide (Z.land opts 0x1 ≠ 0) in
  let finish (new_handle : u64) : H HandlerOutcome :=
    _ ← cpu (mem_write target_handle_ptr (le_bytes 8 new_handle)); _ ← last_error 0; returned 1 in
  if decide (source_handle = u64_lim - 1 ∨ source_handle = u64_lim - 2) then
    tid ← win (λ s, current_tid (w_threads s));
    arc ← on_sync (own_thread_arc tid);
    new_handle ← on_sync (duplicate arc);
    finish new_handle
  else
    y ← win w_sync;
    match objects y !! source_handle with
    | Some arc =>
        new_handle ← on_sync (duplicate arc);
        _ ← on_sync (λ y, (if close_source then close_handle source_handle y else y, tt));
        finish new_handle
    | None => _ ← last_error ERROR_INVALID_HANDLE; returned 0
    end.
Definition handle_get_thread_priority : H HandlerOutcome :=
  h_thread ← arg Rcx;
  y ← win w_sync;
  if decide (h_thread = u64_lim - 2 ∨ is_Some (objects y !! h_thread)) then returned 0
  else _ ← last_error ERROR_INVALID_HANDLE; returned 0x7fffffff.
Definition handle_get_current_thread : H HandlerOutcome := returned (u64_lim - 2).

(** ** Thread-local storage *)

Definition handle_tls_get_value : H HandlerOutcome :=
  rcx ← arg Rcx;
  let idx := mask32 rcx in
  allocated ← win (λ s, tls_index_count (w_threads s));
  if decide (allocated ≤ idx) then _ ← last_error ERROR_INVALID_PARAMETER; returned 0
  else value ← on_threads (tls_get idx); _ ← last_error 0; returned value.
Definition handle_tls_set_value : H HandlerOutcome :=
  rcx ← arg Rcx; value ← arg Rdx;
  let idx := mask32 rcx in
  allocated ← win (λ s, tls_index_count (w_threads s));
  if decide (allocated ≤ idx) then _ ← last_error ERROR_INVALID_PARAMETER; returned 0
  else
    ok ← on_threads (tls_set idx value);
    if (ok : bool) then _ ← last_error 0; returned 1 else _ ← last_error ERROR_INVALID_PARAMETER; returned 0.
Definition handle_tls_alloc : H HandlerOutcome :=
  index ← on_threads tls_alloc; _ ← last_error 0; returned index.
Definition handle_tls_free : H HandlerOutcome :=
  index_raw ← arg Rcx;
  _ ← on_threads (λ t, (tls_free index_raw t, tt)); _ ← last_error 0; returned 1.
End Handlers.
