(* ===== verification/k32_memory.v ===== *)
(** * The heap and virtual memory of a process (crates/wie-winapi/src/kernel32.rs)

    HeapAlloc and its relatives over the coherent heap of [guest_heap], the
    Virtual* calls over the memory of the engine. *)

From S2P Require Import Prelude utf regs insn vad mem engine cpu guest_string guest_heap sync_obj thread win32.

Definition HEAP_ZERO_MEMORY : u64 := 0x8.
Definition usize_max : usize := u64_lim - 1.

Section Handlers.
Context {E : Type} `{CpuMem E, !CpuMap E, !CpuRegs E, !CpuApi E}.
Abbreviation H := (M (Api E)).

(** ** The process heap *)

Definition zero_memory (a : u64) (n : Z) : H unit := cpu (mem_write a (replicate (Z.to_nat n) 0)).

Definition handle_heap_alloc : H HandlerOutcome :=
  heap_handle ← arg Rcx; flags ← arg Rdx; size ← arg R8;
  v ← (if decide (heap_handle = 0) then mret 0
       else
         let alloc_size := if decide (size = 0) then 1 else size in
         addr ← on_heap (alloc_coherent alloc_size);
         h ← win w_heap;
         _ ← (if decide (addr ≠ 0 ∧ Z.land flags HEAP_ZERO_MEMORY ≠ 0)
              then zero_memory addr (default alloc_size (size_of h addr)) else mret tt);
         mret addr);
  returned v.

Definition handle_heap_free : H HandlerOutcome :=
  _ ← arg Rcx; _ ← arg Rdx; memory ← arg R8;
  ok ← (if decide (memory = 0) then mret true else on_heap (free_coherent memory));
  if (ok : bool) then returned 1 else _ ← last_error ERROR_INVALID_HANDLE; returned 0.

(** The size of the block, from the table or from its header. *)
Definition old_size_of (memory : u64) : H u64 :=
  h ← win w_heap;
  match size_of h memory with
  | Some n => mret n
  | None => unwrap_or 0 (b ← cpu (mem_read (header_va memory) 8%nat); mret (le_val b))
  end.

Definition move_block (memory new_addr old_size new_size flags : u64) : H unit :=
  let copy_len := Z.min old_size new_size in
  _ ← (if decide (0 < copy_len) then
         bytes ← cpu (mem_read memory (Z.to_nat copy_len)); cpu (mem_write new_addr bytes)
       else mret tt);
  _ ← (if decide (Z.land flags HEAP_ZERO_MEMORY ≠ 0 ∧ old_size < new_size)
       then zero_memory (wrapping_add new_addr old_size) (sat_sub new_size old_size) else mret tt);
  _ ← on_heap (free_coherent memory);
  mret tt.

Definition heap_realloc (flags memory new_size : u64) : H u64 :=
  if decide (new_size = 0) then _ ← on_heap (free_coherent memory); mret 0
  else
    h ← win w_heap;
    match try_realloc_in_place h memory new_size with
    | Some same => mret same
    | None =>
        old_size ← old_size_of memory;
        new_addr ← on_heap (alloc_coherent new_size);
        if decide (new_addr = 0) then mret 0
        else _ ← move_block memory new_addr old_size new_size flags; mret new_addr
    end.
Definition handle_heap_realloc : H HandlerOutcome :=
  heap_handle ← arg Rcx; flags ← arg Rdx; memory ← arg R8; new_size ← arg R9;
  v ← (if decide (heap_handle = 0 ∨ memory = 0) then mret 0 else heap_realloc flags memory new_size);
  returned v.

Definition handle_heap_size : H HandlerOutcome :=
  _ ← arg Rcx; _ ← arg Rdx; memory ← arg R8;
  h ← win w_heap;
  v ← match size_of h memory with
      | Some n => mret n
      | None =>
          if decide (memory = 0) then mret (u64_lim - 1)
          else
            n ← unwrap_or 0 (b ← cpu (mem_read (header_va memory) 8%nat); mret (le_val b));
            mret (if decide (n = 0) then u64_lim - 1 else n)
      end;
  returned v.

Definition handle_heap_create (process_heap_handle : u64) : H HandlerOutcome :=
  _ ← arg_for Rcx "RCX" "HeapCreate"; _ ← arg_for Rdx "RDX" "HeapCreate"; _ ← arg_for R8 "R8" "HeapCreate";
  ret_u64 process_heap_handle "HeapCreate".
Definition handle_heap_set_information : H HandlerOutcome :=
  _ ← arg_for Rcx "RCX" "HeapSetInformation"; _ ← arg_for Rdx "RDX" "HeapSetInformation";
  _ ← arg_for R8 "R8" "HeapSetInformation";
  ret_u64 1 "HeapSetInformation".

(** LocalAlloc and GlobalAlloc, LocalFree and GlobalFree are the same. *)
Definition fixed_alloc (api : string) : H HandlerOutcome :=
  _ ← arg_for Rcx "RCX" api; size ← arg_for Rdx "RDX" api;
  v ← on_heap (alloc_coherent size);
  ret_u64 v api.
Definition fixed_free (api : string) : H HandlerOutcome :=
  memory ← arg_for Rcx "RCX" api;
  if decide (memory = 0) then ret_u64 0 api
  else existed ← on_heap (free_coherent memory); ret_u64 (if (existed : bool) then 0 else memory) api.
Definition handle_local_alloc : H HandlerOutcome := fixed_alloc "LocalAlloc".
Definition handle_local_free : H HandlerOutcome := fixed_free "LocalFree".
Definition handle_global_alloc : H HandlerOutcome := fixed_alloc "GlobalAlloc".
Definition handle_global_free : H HandlerOutcome := fixed_free "GlobalFree".
Definition handle_global_lock : H HandlerOutcome :=
  memory ← arg_for Rcx "RCX" "GlobalLock";
  h ← win w_heap; ret_u64 (if is_live h memory then memory else 0) "GlobalLock".
Definition handle_global_unlock : H HandlerOutcome :=
  memory ← arg_for Rcx "RCX" "GlobalUnlock";
  h ← win w_heap; _ ← last_error (if is_live h memory then 0 else ERROR_INVALID_HANDLE); ret_u64 0 "GlobalUnlock".
Definition handle_global_size : H HandlerOutcome :=
  memory ← arg_for Rcx "RCX" "GlobalSize";
  h ← win w_heap; ret_u64 (default 0 (size_of h memory)) "GlobalSize".

(** ** Virtual memory *)

(** The last error of a call that failed, and zero. *)
Definition failed_with (e : CpuError) : H HandlerOutcome :=
  _ ← last_error (default ERROR_INVALID_PARAMETER (win32_from_cpu_error e)); returned 0.
Definition invalid_parameter : H HandlerOutcome := _ ← last_error ERROR_INVALID_PARAMETER; returned 0.

Definition handle_flush_instruction_cache : H HandlerOutcome :=
  _ ← arg_for Rcx "RCX" "FlushInstructionCache"; base ← arg_for Rdx "RDX" "FlushInstructionCache";
  size ← arg_for R8 "R8" "FlushInstructionCache";
  if decide (size = usize_max ∧ size ≠ 0) then invalid_parameter
  else
    r ← attempt (cpu (flush_instruction_cache base size));
    match r with inl _ => _ ← last_error 0; returned 1 | inr e => failed_with e end.

Definition handle_virtual_alloc : H HandlerOutcome :=
  addr ← arg Rcx; size ← arg Rdx; r8 ← arg R8; r9 ← arg R9;
  if decide (size = usize_max) then invalid_parameter
  else
    r ← attempt (cpu (virtual_alloc addr size (mask32 r8) (mask32 r9)));
    match r with inl base => _ ← last_error 0; returned base | inr e => failed_with e end.
Definition handle_virtual_free : H HandlerOutcome :=
  addr ← arg Rcx; size ← arg Rdx; r8 ← arg R8;
  if decide (size = usize_max) then invalid_parameter
  else
    r ← attempt (cpu (virtual_free addr size (mask32 r8)));
    match r with inl _ => _ ← last_error 0; returned 1 | inr e => failed_with e end.
Definition handle_virtual_protect : H HandlerOutcome :=
  addr ← arg Rcx; size ← arg Rdx; r8 ← arg R8; old_prot ← arg R9;
  if decide (old_prot = 0) then invalid_parameter
  else if decide (size = 0 ∨ size = usize_max) then invalid_parameter
  else
    r ← attempt (cpu (virtual_protect addr size (mask32 r8)));
    match r with
    | inl old => _ ← cpu (guest_string.write_u32 old_prot old); _ ← last_error 0; returned 1
    | inr e => failed_with e
    end.
Definition handle_virtual_query : H HandlerOutcome :=
  address ← arg Rcx; buffer ← arg Rdx; length_ ← arg R8;
  if decide (buffer = 0 ∨ length_ < 48) then invalid_parameter
  else
    mbi ← (λ s, (s, Ok (virtual_query (a_cpu s) address)));
    _ ← cpu (mem_write buffer (to_bytes mbi));
    _ ← last_error 0; returned 48.
End Handlers.
