(* ===== verification/k32_misc.v ===== *)
(** * Small services of KERNEL32 (crates/wie-winapi/src/kernel32.rs)

    Fiber-local storage with its table in guest memory, last errors, atoms,
    arithmetic, identities, and the copy of the registers. *)

From S2P Require Import Prelude utf regs insn vad mem engine cpu guest_heap guest_string sync_obj thread win32 k32_sync.

Definition FLS_OUT_OF_INDEXES : u64 := 0xffffffff.
Definition STD_INPUT_HANDLE_ID : u32 := 0xfffffff6.
Definition STD_OUTPUT_HANDLE_ID : u32 := 0xfffffff5.
Definition STD_ERROR_HANDLE_ID : u32 := 0xfffffff4.
Definition FAKE_STDIN_HANDLE : u64 := 0x60000001.
Definition FAKE_STDOUT_HANDLE : u64 := 0x60000002.
Definition FAKE_STDERR_HANDLE : u64 := 0x60000003.
Definition FAKE_CURRENT_PROCESS_ID : u64 := 0x1234.

(** [Vec::push], [iter_mut().find] and [retain] on the slots. *)
Fixpoint set_slot (index : u32) (value : u64) (slots : list (u32 * u64)) : list (u32 * u64) :=
  match slots with
  | [] => [(index, value)]
  | (i, v) :: slots => if decide (i = index) then (i, value) :: slots else (i, v) :: set_slot index value slots
  end.
Definition slot_value (index : u32) (slots : list (u32 * u64)) : u64 :=
  default 0 (snd <$> List.find (λ s, bool_decide (s.1 = index)) slots).

(** [eq_ignore_ascii_case] of two Rust strings. *)
Definition char_lower (c : char) : char := if decide (65 ≤ c ≤ 90) then c + 32 else c.
Definition same_name (a b : list char) : bool := bool_decide ((char_lower <$> a) = (char_lower <$> b)).

(** [checked_mul] and [checked_div] of the 64-bit products of three LONGs. *)
Definition mul_div (number numerator denominator : Z) : Z :=
  let result := if decide (denominator = 0) then -1 else number * numerator ÷ denominator in
  if decide (-2147483648 ≤ result ≤ 2147483647) then result else -1.

(** [slot.copy_from_slice] at [off]. *)
Definition put_at (off : nat) (bs buf : list u8) : list u8 := take off buf ++ bs ++ drop (off + length bs) buf.

(** The [CONTEXT] a capture writes: flags, RFLAGS, sixteen registers, RIP, XMM. *)
Definition context_bytes (c : ThreadContext) : list u8 :=
  let b := replicate 0x200 0 in
  let b := put_at 0x30 (le_bytes 4 0x10001f) b in
  let b := foldl (λ b i, put_at (0x78 + i * 8) (le_bytes 8 (default 0 (tc_gpr c !! i))) b) b (seq 0 16) in
  let b := put_at 0xf8 (le_bytes 8 (tc_rip c)) b in
  let b := put_at 0x44 (le_bytes 8 (tc_rflags c)) b in
  foldl (λ b i, put_at (0x100 + i * 16) (le_bytes 16 (default 0 (tc_xmm c !! i))) b) b (seq 0 16).

Section Handlers.
Context {E : Type} `{CpuMem E, !CpuMap E, !CpuRegs E, !CpuApi E}.
Abbreviation H := (M (Api E)).

(** ** Fiber-local storage *)

Definition publish_fls_slot (index : u32) (value : u64) : H unit :=
  table ← win w_guest_fls_table_va;
  if decide (table = 0 ∨ 256 ≤ index) then mret tt
  else ignore (cpu (mem_write (sat_add table (sat_mul index 8)) (le_bytes 8 value))).

(** [u32::try_from]. *)
Definition index_of (raw : u64) (api : string) : H u32 :=
  if decide (raw < u32_lim) then mret raw else fail (Message (api +:+ " index does not fit u32")).

Definition handle_fls_alloc : H HandlerOutcome :=
  _ ← arg_for Rcx "RCX" "FlsAlloc";
  index ← win w_next_fls_index;
  v ← (if decide (index = u32_max) then mret FLS_OUT_OF_INDEXES
       else
         _ ← on_win (λ s, set_fls (index + 1) (w_fls_slots s ++ [(index, 0)]) s);
         _ ← publish_fls_slot index 0;
         mret index);
  ret_u64 v "FlsAlloc".
Definition handle_fls_free : H HandlerOutcome :=
  index_raw ← arg_for Rcx "RCX" "FlsFree";
  index ← index_of index_raw "FlsFree";
  _ ← on_win (λ s, set_fls (w_next_fls_index s) (filter (λ x, x.1 ≠ index) (w_fls_slots s)) s);
  _ ← publish_fls_slot index 0;
  ret_u64 1 "FlsFree".
Definition handle_fls_set_value : H HandlerOutcome :=
  index_raw ← arg_for Rcx "RCX" "FlsSetValue"; value ← arg_for Rdx "RDX" "FlsSetValue";
  index ← index_of index_raw "FlsSetValue";
  _ ← on_win (λ s, set_fls (w_next_fls_index s) (set_slot index value (w_fls_slots s)) s);
  _ ← publish_fls_slot index value;
  ret_u64 1 "FlsSetValue".
Definition handle_fls_get_value : H HandlerOutcome :=
  index_raw ← arg_for Rcx "RCX" "FlsGetValue";
  index ← index_of index_raw "FlsGetValue";
  slots ← win w_fls_slots;
  ret_u64 (slot_value index slots) "FlsGetValue".

(** ** Errors, identities, standard handles *)

Definition handle_get_last_error : H HandlerOutcome := v ← win w_last_error; ret_u64 v "GetLastError".
Definition handle_set_last_error : H HandlerOutcome :=
  error_raw ← arg_for Rcx "RCX" "SetLastError"; _ ← last_error (mask32 error_raw); ret_u64 0 "SetLastError".
Definition handle_get_current_process_id : H HandlerOutcome := ret_u64 FAKE_CURRENT_PROCESS_ID "GetCurrentProcessId".
Definition handle_get_current_thread_id : H HandlerOutcome :=
  tid ← win (λ s, current_tid (w_threads s)); ret_u64 tid "GetCurrentThreadId".
Definition handle_get_current_process : H HandlerOutcome := ret_u64 (u64_lim - 1) "GetCurrentProcess".
Definition handle_get_process_heap (process_heap_handle : u64) : H HandlerOutcome :=
  ret_u64 process_heap_handle "GetProcessHeap".
Definition handle_get_std_handle : H HandlerOutcome :=
  raw ← arg_for Rcx "RCX" "GetStdHandle";
  let id := mask32 raw in
  ret_u64 (if decide (id = STD_INPUT_HANDLE_ID) then FAKE_STDIN_HANDLE
           else if decide (id = STD_OUTPUT_HANDLE_ID) then FAKE_STDOUT_HANDLE
           else if decide (id = STD_ERROR_HANDLE_ID) then FAKE_STDERR_HANDLE else u64_lim - 1) "GetStdHandle".
Definition handle_encode_pointer : H HandlerOutcome :=
  pointer ← arg_for Rcx "RCX" "EncodePointer"; ret_u64 pointer "EncodePointer".
Definition handle_decode_pointer : H HandlerOutcome :=
  pointer ← arg_for Rcx "RCX" "DecodePointer"; ret_u64 pointer "DecodePointer".

Definition handle_initialize_critical_section_and_spin_count : H HandlerOutcome :=
  critical_section_ptr ← arg_for Rcx "RCX" "InitializeCriticalSectionAndSpinCount";
  spin_count ← arg_for Rdx "RDX" "InitializeCriticalSectionAndSpinCount";
  _ ← (if decide (critical_section_ptr ≠ 0) then write_critical_section_unlocked critical_section_ptr spin_count else mret tt);
  ret_u64 1 "InitializeCriticalSectionAndSpinCount".

(** ** Arithmetic and times *)

Definition handle_mul_div : H HandlerOutcome :=
  number_raw ← arg_for Rcx "RCX" "MulDiv"; numerator_raw ← arg_for Rdx "RDX" "MulDiv";
  denominator_raw ← arg_for R8 "R8" "MulDiv";
  let signed v := as_i32 (mask32 v) in
  ret_u64 (mul_div (signed number_raw) (signed numerator_raw) (signed denominator_raw) mod u32_lim) "MulDiv".

Definition handle_compare_file_time : H HandlerOutcome :=
  a ← arg Rcx; b ← arg Rdx;
  ta ← (if decide (a = 0) then mret 0 else cpu (guest_string.read_u64 a));
  tb ← (if decide (b = 0) then mret 0 else cpu (guest_string.read_u64 b));
  ret_u64 (match ta ?= tb with Lt => u64_lim - 1 | Eq => 0 | Gt => 1 end) "CompareFileTime".

(** ** Atoms *)

Definition handle_global_add_atom_a : H HandlerOutcome :=
  name_ptr ← arg_for Rcx "RCX" "GlobalAddAtomA";
  v ← (if decide (name_ptr = 0) then _ ← last_error ERROR_INVALID_PARAMETER; mret 0
       else
         name ← context "failed to read GlobalAddAtomA name" (cpu (read_ansi_lossy name_ptr 255));
         if decide (name = []) then _ ← last_error ERROR_INVALID_PARAMETER; mret 0
         else
           atoms ← win w_global_atoms;
           match List.find (λ r, same_name r.2 name) atoms with
           | Some r => _ ← last_error 0; mret r.1
           | None =>
               atom ← win w_next_global_atom;
               if decide (atom + 1 < 65536) then
                 _ ← on_win (λ s, set_atoms (atom + 1) (w_global_atoms s ++ [(atom, name)]) s);
                 _ ← last_error 0; mret atom
               else fail (Message "global atom identifier overflow")
           end);
  ret_u64 v "GlobalAddAtomA".
Definition handle_global_delete_atom : H HandlerOutcome :=
  atom_raw ← arg_for Rcx "RCX" "GlobalDeleteAtom";
  let atom := Z.land atom_raw 0xffff in
  atoms ← win w_global_atoms;
  if existsb (λ r, bool_decide (r.1 = atom)) atoms then
    _ ← on_win (λ s, set_atoms (w_next_global_atom s) (filter (λ r, r.1 ≠ atom) (w_global_atoms s)) s);
    _ ← last_error 0; ret_u64 0 "GlobalDeleteAtom"
  else _ ← last_error ERROR_INVALID_PARAMETER; ret_u64 atom "GlobalDeleteAtom".

(** ** The registers *)

Definition handle_rtl_capture_context : H HandlerOutcome :=
  ctx_ptr ← arg Rcx;
  if decide (ctx_ptr = 0) then context "RtlCaptureContext: return failed" (returned 0)
  else
    tctx ← snapshot_cpu;
    _ ← context "RtlCaptureContext: failed to write context" (cpu (mem_write ctx_ptr (context_bytes tctx)));
    context "RtlCaptureContext: return failed" (returned 0).
End Handlers.
