(* ===== verification/k32_info.v ===== *)
(** * Fixed answers of KERNEL32 (crates/wie-winapi/src/kernel32.rs)

    The deterministic machine a guest sees: versions, times, memory, disks,
    consoles, and the calls that are accepted or refused without doing anything.
    A structure is filled field by field; the addresses are computed first. *)

From S2P Require Import Prelude utf regs insn vad mem engine cpu guest_heap guest_string sync_obj thread win32 k32_misc.

Definition FIXED_SYSTEM_FILETIME : u64 := 133485408000000000.
Definition FIXED_TICK_COUNT : u64 := 12345.
Definition FIXED_PERFORMANCE_COUNTER : u64 := 1000000.
Definition FIXED_PERFORMANCE_FREQUENCY : u64 := 10000000.
Definition ANSI_CODE_PAGE : u64 := 1252.
Definition OEM_CODE_PAGE : u64 := 437.
Definition LANG_EN_US : u64 := 0x0409.
Definition GUEST_OS_MAJOR : u32 := 10.
Definition GUEST_OS_MINOR : u32 := 0.
Definition GUEST_OS_BUILD : u32 := 19045.
Definition GUEST_OS_PLATFORM_NT : u32 := 2.
Definition DEFAULT_CONSOLE_MODE_IN : u32 := Z.lor (Z.lor 1 2) 4.
Definition DEFAULT_CONSOLE_MODE_OUT : u32 := Z.lor 1 2.
Definition FAKE_DISK_GIB : u64 := 1024 * 1024 * 1024.
Definition FAKE_DISK_CLUSTERS : u32 := 26214400.
Definition LOGICAL_DRIVE_TCHARS : u32 := 4.

Definition packed_get_version : u64 :=
  Z.lor (Z.lor (Z.lor GUEST_OS_MAJOR (Z.shiftl GUEST_OS_MINOR 8)) (Z.shiftl GUEST_OS_BUILD 16 mod u32_lim)) 0x80000000.

(** The pointers of the environment handed to the dispatcher. *)
Record WinApiEnvironment := mkEnvironment {
  image_base : u64;
  command_line_a_ptr : u64;
  command_line_w_ptr : u64;
  environment_strings_w_ptr : u64;
  module_file_name_a_ptr : u64;
  module_file_name_w_ptr : u64;
  process_heap_handle : u64;
}.

Section Handlers.
Context {E : Type} `{CpuMem E, !CpuMap E, !CpuRegs E, !CpuApi E}.
Abbreviation H := (M (Api E)).

(** A field: its offset, its name, and how many bytes of which value. *)
Record Field := mkField { f_offset : u64; f_name : string; f_bytes : list u8; f_error : string }.
Definition word_error (n : nat) : string :=
  match n with 2%nat => "failed to write u16 to guest memory" | 4%nat => "failed to write u32 to guest memory"
  | _ => "failed to write u64 to guest memory" end.
Definition word (offset : u64) (name : string) (n : nat) (v : Z) : Field := mkField offset name (le_bytes n v) (word_error n).

Fixpoint field_addresses (base : u64) (fs : list Field) : H (list u64) :=
  match fs with
  | [] => mret []
  | f :: fs => a ← cpu (checked_field_address base (f_offset f) (f_name f)); addrs ← field_addresses base fs; mret (a :: addrs)
  end.
Fixpoint write_at (addrs : list u64) (fs : list Field) : H unit :=
  match addrs, fs with
  | a :: addrs, f :: fs => _ ← context (f_error f) (cpu (mem_write a (f_bytes f))); write_at addrs fs
  | _, _ => mret tt
  end.
Definition fill (base : u64) (fs : list Field) : H unit := addrs ← field_addresses base fs; write_at addrs fs.
(** [if ptr != 0 { write }]. *)
Definition write_opt (p : u64) (n : nat) (v : Z) : H unit :=
  if decide (p ≠ 0) then context (word_error n) (cpu (mem_write p (le_bytes n v))) else mret tt.
Definition args (rs : list Reg) : H unit := foldr (λ r k, _ ← arg r; k) (mret tt) rs.

(** ** Versions and times *)

Definition handle_get_version : H HandlerOutcome := ret_u64 packed_get_version "GetVersion".
Definition handle_get_version_ex_a : H HandlerOutcome :=
  p ← arg_for Rcx "RCX" "GetVersionExA";
  if decide (p = 0) then context "failed to return FALSE from GetVersionExA" (returned 0)
  else
    _ ← fill p [word 4 "dwMajorVersion" 4 GUEST_OS_MAJOR; word 8 "dwMinorVersion" 4 GUEST_OS_MINOR;
                word 12 "dwBuildNumber" 4 GUEST_OS_BUILD; word 16 "dwPlatformId" 4 GUEST_OS_PLATFORM_NT];
    context "failed to return TRUE from GetVersionExA" (returned 1).
Definition handle_get_tick_count : H HandlerOutcome := ret_u64 FIXED_TICK_COUNT "GetTickCount".
Definition handle_query_performance_counter : H HandlerOutcome :=
  p ← arg_for Rcx "RCX" "QueryPerformanceCounter";
  _ ← write_opt p 8 FIXED_PERFORMANCE_COUNTER;
  ret_u64 1 "QueryPerformanceCounter".
Definition handle_query_performance_frequency : H HandlerOutcome :=
  p ← context "QueryPerformanceFrequency RCX" (arg Rcx);
  _ ← write_opt p 8 FIXED_PERFORMANCE_FREQUENCY;
  ret_u64 1 "QueryPerformanceFrequency".
Definition handle_get_system_time_as_file_time : H HandlerOutcome :=
  p ← arg_for Rcx "RCX" "GetSystemTimeAsFileTime";
  _ ← (if decide (p ≠ 0) then
         fill p [word 0 "dwLowDateTime" 4 (mask32 FIXED_SYSTEM_FILETIME); word 4 "dwHighDateTime" 4 (Z.shiftr FIXED_SYSTEM_FILETIME 32)]
       else mret tt);
  ret_u64 0 "GetSystemTimeAsFileTime".
Definition system_time : list Field :=
  [word 0 "wYear" 2 2026; word 2 "wMonth" 2 7; word 4 "wDayOfWeek" 2 4; word 6 "wDay" 2 9;
   word 8 "wHour" 2 12; word 10 "wMinute" 2 0; word 12 "wSecond" 2 0; word 14 "wMilliseconds" 2 0].
Definition handle_get_local_time : H HandlerOutcome :=
  p ← arg_for Rcx "RCX" "GetLocalTime";
  _ ← (if decide (p ≠ 0) then fill p system_time else mret tt);
  ret_u64 0 "GetLocalTime".
Definition handle_file_time_to_local_file_time : H HandlerOutcome :=
  p ← arg_for Rcx "RCX" "FileTimeToLocalFileTime"; q ← arg_for Rdx "RDX" "FileTimeToLocalFileTime";
  if decide (p ≠ 0 ∧ q ≠ 0) then
    bytes ← context "failed to read input FILETIME" (cpu (mem_read p 8%nat));
    _ ← context "failed to write output FILETIME" (cpu (mem_write q bytes));
    _ ← last_error 0; ret_u64 1 "FileTimeToLocalFileTime"
  else _ ← last_error ERROR_INVALID_PARAMETER; ret_u64 0 "FileTimeToLocalFileTime".
Definition handle_file_time_to_system_time : H HandlerOutcome :=
  p ← arg_for Rcx "RCX" "FileTimeToSystemTime"; q ← arg_for Rdx "RDX" "FileTimeToSystemTime";
  if decide (p ≠ 0 ∧ q ≠ 0) then _ ← fill q system_time; _ ← last_error 0; ret_u64 1 "FileTimeToSystemTime"
  else _ ← last_error ERROR_INVALID_PARAMETER; ret_u64 0 "FileTimeToSystemTime".
Definition zeros (offset : u64) (name : string) (n : nat) : Field :=
  mkField offset name (replicate n 0) ("failed to write TIME_ZONE_INFORMATION " +:+ name).
Definition handle_get_time_zone_information : H HandlerOutcome :=
  p ← arg_for Rcx "RCX" "GetTimeZoneInformation";
  if decide (p ≠ 0) then
    _ ← fill p [word 0 "Bias" 4 0; zeros 4 "StandardName" 64; zeros 68 "StandardDate" 16; word 84 "StandardBias" 4 0;
                zeros 88 "DaylightName" 64; zeros 152 "DaylightDate" 16; word 168 "DaylightBias" 4 0];
    _ ← last_error 0; ret_u64 0 "GetTimeZoneInformation"
  else _ ← last_error ERROR_INVALID_PARAMETER; ret_u64 0xffffffff "GetTimeZoneInformation".
Definition handle_local_file_time_to_file_time : H HandlerOutcome :=
  local ← arg Rcx; file ← arg Rdx;
  if decide (local = 0 ∨ file = 0) then ret_u64 0 "LocalFileTimeToFileTime"
  else t ← cpu (read_u64 local); _ ← cpu (write_u64 file t); ret_u64 1 "LocalFileTimeToFileTime".
Definition handle_file_time_to_dos_date_time : H HandlerOutcome :=
  ft ← arg Rcx; date_ptr ← arg Rdx; time_ptr ← arg R8;
  if decide (ft = 0) then ret_u64 0 "FileTimeToDosDateTime"
  else _ ← write_opt date_ptr 2 0x5cf3; _ ← write_opt time_ptr 2 0x6000; ret_u64 1 "FileTimeToDosDateTime".
Definition handle_dos_date_time_to_file_time : H HandlerOutcome :=
  _ ← arg Rcx; _ ← arg Rdx; ft ← arg R8;
  if decide (ft = 0) then ret_u64 0 "DosDateTimeToFileTime"
  else _ ← cpu (write_u64 ft FIXED_SYSTEM_FILETIME); ret_u64 1 "DosDateTimeToFileTime".
Definition handle_get_process_times : H HandlerOutcome :=
  _ ← context "GetProcessTimes RCX" (arg Rcx);
  creation ← context "GetProcessTimes RDX" (arg Rdx);
  exit_t ← context "GetProcessTimes R8" (arg R8);
  kernel ← context "GetProcessTimes R9" (arg R9);
  rsp ← context "GetProcessTimes RSP" (arg Rsp);
  a ← cpu (checked_address rsp 0x28 "GetProcessTimes lpUserTime"); user ← cpu (read_u64 a);
  _ ← write_opt creation 8 FIXED_SYSTEM_FILETIME; _ ← write_opt exit_t 8 0;
  _ ← write_opt kernel 8 10000000; _ ← write_opt user 8 20000000;
  ret_u64 1 "GetProcessTimes".

(** ** The machine *)

Definition handle_get_startup_info_a : H HandlerOutcome :=
  p ← arg_for Rcx "RCX" "GetStartupInfoA";
  _ ← (if decide (p ≠ 0) then fill p [word 0 "cb" 4 104; word 60 "dwFlags" 4 0; word 64 "wShowWindow" 2 1] else mret tt);
  ret_u64 0 "GetStartupInfoA".
Definition gib (n : Z) : u64 := n * 1024 * 1024 * 1024.
Definition handle_global_memory_status : H HandlerOutcome :=
  p ← arg_for Rcx "RCX" "GlobalMemoryStatus";
  _ ← (if decide (p ≠ 0) then
         fill p [word 0 "dwLength" 4 56; word 4 "dwMemoryLoad" 4 25; word 8 "dwTotalPhys" 8 (gib 8);
                 word 16 "dwAvailPhys" 8 (gib 6); word 24 "dwTotalPageFile" 8 (gib 16); word 32 "dwAvailPageFile" 8 (gib 12);
                 word 40 "dwTotalVirtual" 8 (gib 128); word 48 "dwAvailVirtual" 8 (gib 120)]
       else mret tt);
  ret_u64 0 "GlobalMemoryStatus".
Fixpoint write_seq (p : u64) (fs : list (u64 * nat * Z)) : H unit :=
  match fs with
  | [] => mret tt
  | (off, n, v) :: fs => _ ← context (word_error n) (cpu (mem_write (wrapping_add p off) (le_bytes n v))); write_seq p fs
  end.
Definition handle_global_memory_status_ex : H HandlerOutcome :=
  p ← context "GlobalMemoryStatusEx RCX" (arg Rcx);
  if decide (p = 0) then ret_u64 0 "GlobalMemoryStatusEx"
  else
    b ← cpu (mem_read p 4%nat);
    if decide (le_val b < 64) then ret_u64 0 "GlobalMemoryStatusEx"
    else
      _ ← write_seq p [(0, 4%nat, 64); (4, 4%nat, 25); (8, 8%nat, gib 8); (16, 8%nat, gib 6); (24, 8%nat, gib 16);
                       (32, 8%nat, gib 12); (40, 8%nat, gib 128); (48, 8%nat, gib 120); (56, 8%nat, 0)];
      ret_u64 1 "GlobalMemoryStatusEx".
Definition handle_get_system_info : H HandlerOutcome :=
  p ← context "GetSystemInfo RCX" (arg Rcx);
  let buf := replicate 48 0 in
  let buf := put_at 0 (le_bytes 2 9) buf in
  let buf := put_at 4 (le_bytes 4 0x1000) buf in
  let buf := put_at 8 (le_bytes 8 0x10000) buf in
  let buf := put_at 16 (le_bytes 8 0x7fffffffffff) buf in
  let buf := put_at 24 (le_bytes 8 1) buf in
  let buf := put_at 32 (le_bytes 4 1) buf in
  let buf := put_at 36 (le_bytes 4 8664) buf in
  let buf := put_at 40 (le_bytes 4 0x10000) buf in
  let buf := put_at 44 (le_bytes 2 6) buf in
  let buf := put_at 46 (le_bytes 2 0x3c03) buf in
  _ ← (if decide (p ≠ 0) then context "GetSystemInfo write" (cpu (mem_write p buf)) else mret tt);
  ret_u64 0 "GetSystemInfo".
Definition handle_is_processor_feature_present : H HandlerOutcome :=
  rcx ← arg Rcx;
  ret_u64 (Z.b2z (bool_decide (mask32 rcx ∈ [0; 6; 7; 8; 10; 13; 14; 21; 23; 25]))) "IsProcessorFeaturePresent".
Definition handle_get_process_affinity_mask : H HandlerOutcome :=
  _ ← arg Rcx; proc_mask ← arg Rdx; sys_mask ← arg R8;
  _ ← write_opt proc_mask 8 1; _ ← write_opt sys_mask 8 1; ret_u64 1 "GetProcessAffinityMask".

(** ** Code pages and languages *)

Definition handle_get_acp : H HandlerOutcome := ret_u64 ANSI_CODE_PAGE "GetACP".
Definition handle_get_oem_cp : H HandlerOutcome := ret_u64 OEM_CODE_PAGE "GetOEMCP".
Definition handle_is_valid_code_page : H HandlerOutcome :=
  code_page ← arg_for Rcx "RCX" "IsValidCodePage";
  ret_u64 (Z.b2z (bool_decide (code_page ∈ [0; 437; 1252; 1200; 65001]))) "IsValidCodePage".
Definition handle_get_cp_info : H HandlerOutcome :=
  _ ← arg_for Rcx "RCX" "GetCPInfo"; p ← arg_for Rdx "RDX" "GetCPInfo";
  _ ← (if decide (p ≠ 0) then
         fill p [word 0 "MaxCharSize" 4 1; mkField 4 "DefaultChar" [0x3f; 0] "failed to write CPINFO DefaultChar";
                 mkField 6 "LeadByte" (replicate 12 0) "failed to write CPINFO LeadByte"]
       else mret tt);
  ret_u64 1 "GetCPInfo".
Definition handle_get_system_default_lang_id : H HandlerOutcome := ret_u64 LANG_EN_US "GetSystemDefaultLangID".
Definition handle_get_user_default_lang_id : H HandlerOutcome := ret_u64 LANG_EN_US "GetUserDefaultLangID".

(** ** Disks and consoles *)

Definition handle_get_disk_free_space_ex_w : H HandlerOutcome :=
  _ ← arg Rcx; free_caller ← arg Rdx; total ← arg R8; free_total ← arg R9;
  _ ← write_opt free_caller 8 (50 * FAKE_DISK_GIB); _ ← write_opt total 8 (100 * FAKE_DISK_GIB);
  _ ← write_opt free_total 8 (50 * FAKE_DISK_GIB);
  ret_u64 1 "GetDiskFreeSpaceExW".
Definition handle_get_disk_free_space_w : H HandlerOutcome :=
  _ ← arg Rcx; spc ← arg Rdx; bps ← arg R8; free_clusters ← arg R9;
  rsp ← arg Rsp;
  a ← cpu (checked_address rsp 0x28 "GetDiskFreeSpaceW total"); total_clusters ← cpu (read_u64 a);
  _ ← write_opt spc 4 8; _ ← write_opt bps 4 512;
  _ ← write_opt free_clusters 4 (Z.shiftr FAKE_DISK_CLUSTERS 1); _ ← write_opt total_clusters 4 FAKE_DISK_CLUSTERS;
  ret_u64 1 "GetDiskFreeSpaceW".
(** "C:\" with its terminator and the terminator of the list. *)
Definition drive_strings : list u8 := [0x43; 0; 0x3a; 0; 0x5c; 0; 0; 0; 0; 0].
Definition handle_get_logical_drive_strings_w : H HandlerOutcome :=
  rcx ← arg Rcx;
  let n_buffer := mask32 rcx in
  buffer ← arg Rdx;
  if decide (buffer = 0 ∨ n_buffer = 0 ∨ n_buffer < LOGICAL_DRIVE_TCHARS)
  then ret_u64 LOGICAL_DRIVE_TCHARS "GetLogicalDriveStringsW"
  else
    _ ← context "GetLogicalDriveStringsW write" (cpu (mem_write buffer drive_strings));
    ret_u64 LOGICAL_DRIVE_TCHARS "GetLogicalDriveStringsW".
Definition handle_get_console_mode : H HandlerOutcome :=
  handle ← context "GetConsoleMode RCX" (arg Rcx); mode_ptr ← context "GetConsoleMode RDX" (arg Rdx);
  if decide (mode_ptr = 0) then ret_u64 0 "GetConsoleMode"
  else
    _ ← cpu (write_u32 mode_ptr (if decide (handle = FAKE_STDIN_HANDLE) then DEFAULT_CONSOLE_MODE_IN else DEFAULT_CONSOLE_MODE_OUT));
    ret_u64 1 "GetConsoleMode".
Definition console_info : list u8 :=
  let buf := replicate 24 0 in
  let buf := put_at 0 (le_bytes 2 80) buf in
  let buf := put_at 2 (le_bytes 2 25) buf in
  let buf := put_at 8 (le_bytes 2 7) buf in
  let buf := put_at 10 (le_bytes 2 0) buf in
  let buf := put_at 12 (le_bytes 2 0) buf in
  let buf := put_at 14 (le_bytes 2 79) buf in
  let buf := put_at 16 (le_bytes 2 24) buf in
  let buf := put_at 18 (le_bytes 2 80) buf in
  put_at 20 (le_bytes 2 25) buf.
Definition handle_get_console_screen_buffer_info : H HandlerOutcome :=
  _ ← context "GetConsoleScreenBufferInfo RCX" (arg Rcx);
  info_ptr ← context "GetConsoleScreenBufferInfo RDX" (arg Rdx);
  if decide (info_ptr = 0) then ret_u64 0 "GetConsoleScreenBufferInfo"
  else
    _ ← context "GetConsoleScreenBufferInfo write" (cpu (mem_write info_ptr console_info));
    ret_u64 1 "GetConsoleScreenBufferInfo".

(** ** Calls that change nothing *)

(** The arguments are read and the answer is fixed. *)
Definition answers (rs : list Reg) (v : u64) (api : string) : H HandlerOutcome := _ ← args rs; ret_u64 v api.
Definition refuses (rs : list Reg) (error : u32) (v : u64) (api : string) : H HandlerOutcome :=
  _ ← args rs; _ ← last_error error; ret_u64 v api.
Definition handle_get_command_line_a (p : u64) : H HandlerOutcome := ret_u64 p "GetCommandLineA".
Definition handle_get_command_line_w (p : u64) : H HandlerOutcome := ret_u64 p "GetCommandLineW".
Definition handle_get_environment_strings_w (p : u64) : H HandlerOutcome := ret_u64 p "GetEnvironmentStringsW".
Definition handle_free_environment_strings_w : H HandlerOutcome :=
  _ ← arg_for Rcx "RCX" "FreeEnvironmentStringsW"; ret_u64 1 "FreeEnvironmentStringsW".
Definition handle_set_handle_count : H HandlerOutcome :=
  handle_count ← arg_for Rcx "RCX" "SetHandleCount"; ret_u64 handle_count "SetHandleCount".
Definition handle_set_unhandled_exception_filter : H HandlerOutcome :=
  _ ← arg_for Rcx "RCX" "SetUnhandledExceptionFilter"; ret_u64 0 "SetUnhandledExceptionFilter".
Definition handle_set_console_ctrl_handler : H HandlerOutcome :=
  _ ← context "SetConsoleCtrlHandler RCX" (arg Rcx); _ ← context "SetConsoleCtrlHandler RDX" (arg Rdx);
  ret_u64 1 "SetConsoleCtrlHandler".
Definition handle_set_console_mode : H HandlerOutcome :=
  _ ← context "SetConsoleMode RCX" (arg Rcx); _ ← context "SetConsoleMode RDX" (arg Rdx); ret_u64 1 "SetConsoleMode".
Definition handle_set_file_apis_to_oem : H HandlerOutcome := ret_u64 0 "SetFileApisToOEM".
Definition handle_get_large_page_minimum : H HandlerOutcome := ret_u64 0 "GetLargePageMinimum".
Definition handle_set_process_affinity_mask : H HandlerOutcome := answers [Rcx; Rdx] 1 "SetProcessAffinityMask".
Definition handle_set_thread_affinity_mask : H HandlerOutcome := answers [Rcx; Rdx] 1 "SetThreadAffinityMask".
Definition handle_set_file_attributes_w : H HandlerOutcome := answers [Rcx; Rdx] 1 "SetFileAttributesW".
Definition handle_set_file_time : H HandlerOutcome := answers [Rcx; Rdx; R8; R9] 1 "SetFileTime".
Definition handle_format_message_w : H HandlerOutcome := answers [Rcx; Rdx; R8; R9] 0 "FormatMessageW".
Definition handle_create_hard_link_w : H HandlerOutcome := refuses [Rcx; Rdx; R8] 1 0 "CreateHardLinkW".
Definition handle_find_first_stream_w : H HandlerOutcome := refuses [Rcx; Rdx; R8] 38 (u64_lim - 1) "FindFirstStreamW".
Definition handle_find_next_stream_w : H HandlerOutcome := refuses [Rcx; Rdx] 38 0 "FindNextStreamW".
Definition handle_device_io_control : H HandlerOutcome := refuses [Rcx; Rdx; R8; R9] 1 0 "DeviceIoControl".
Definition handle_map_view_of_file : H HandlerOutcome := refuses [Rcx; Rdx; R8; R9] 8 0 "MapViewOfFile".
Definition handle_unmap_view_of_file : H HandlerOutcome := answers [Rcx] 1 "UnmapViewOfFile".
Definition handle_open_file_mapping : H HandlerOutcome := refuses [Rcx; Rdx; R8] 2 0 "OpenFileMapping".
End Handlers.
