(* ===== verification/k32_string.v ===== *)
(** * Wide strings and code pages of KERNEL32 (crates/wie-winapi/src/kernel32.rs)

    lstrlenW, lstrcpyW and lstrcatW scan guest memory a unit at a time and give up
    beyond a million units; the conversions read a counted or terminated string,
    convert it with [encoding], and write it if it fits. *)

From S2P Require Import Prelude utf encoding regs insn vad mem engine cpu guest_heap guest_string sync_obj thread win32.

Definition MAX_SCAN : Z := 2000000.

Section Handlers.
Context {E : Type} `{CpuMem E, !CpuMap E, !CpuRegs E, !CpuApi E}.
Abbreviation H := (M (Api E)).

(** ** Terminated wide strings *)

Definition unit_at (a : u64) : H (list u8) := cpu (mem_read a 2%nat).

Definition lstrlen_body (s : u64) (len : u64) : H (u64 + u64) :=
  buf ← unit_at (wrapping_add s (sat_mul len 2));
  mret (if decide (le_val buf = 0) then inr len
        else if decide (1000000 < len + 1) then inr (len + 1) else inl (len + 1)).
Definition handle_lstrlen_w : H HandlerOutcome :=
  s ← arg_for Rcx "RCX" "lstrlenW";
  v ← (if decide (s = 0) then mret 0 else loopM (fuel_of MAX_SCAN) (lstrlen_body s) 0);
  ret_u64 v "lstrlenW".

(** Copy units up to and with the terminator. *)
Definition copy_body (src dest : u64) (offset : u64) : H (u64 + unit) :=
  buf ← unit_at (wrapping_add src offset);
  _ ← cpu (mem_write (wrapping_add dest offset) buf);
  mret (if decide (le_val buf = 0) then inr tt
        else if decide (MAX_SCAN < offset + 2) then inr tt else inl (offset + 2)).
Definition copy_units (src dest : u64) : H unit := loopM (fuel_of MAX_SCAN) (copy_body src dest) 0.
Definition find_end_body (dest : u64) (dest_end : u64) : H (u64 + u64) :=
  buf ← unit_at (wrapping_add dest dest_end);
  mret (if decide (le_val buf = 0) then inr dest_end
        else if decide (MAX_SCAN < dest_end + 2) then inr (dest_end + 2) else inl (dest_end + 2)).
Definition find_end (dest : u64) : H u64 := loopM (fuel_of MAX_SCAN) (find_end_body dest) 0.

Definition handle_lstrcpy_w : H HandlerOutcome :=
  dest ← arg_for Rcx "RCX" "lstrcpyW"; src ← arg_for Rdx "RDX" "lstrcpyW";
  _ ← (if decide (dest ≠ 0 ∧ src ≠ 0) then copy_units src dest else mret tt);
  ret_u64 dest "lstrcpyW".
Definition handle_lstrcat_w : H HandlerOutcome :=
  dest ← arg_for Rcx "RCX" "lstrcatW"; src ← arg_for Rdx "RDX" "lstrcatW";
  _ ← (if decide (dest ≠ 0 ∧ src ≠ 0) then
         dest_end ← find_end dest; copy_units src (wrapping_add dest dest_end)
       else mret tt);
  ret_u64 dest "lstrcatW".

(** ** Counted or terminated input *)

Definition MAX_UNITS : nat := Z.to_nat 32768.

(** [n] units may be read from [index] on; the terminator counts. *)
Fixpoint wide_scan (p : u64) (n : nat) (index : u64) (units : list u16) : H (list u16) :=
  match n with
  | O => fail (Message "unterminated UTF-16 string")
  | S n =>
      address ← cpu (checked_address p (index * 2) "UTF-16 NUL scan");
      u ← cpu (read_u16 address);
      if decide (u = 0) then mret (units ++ [u]) else wide_scan p n (index + 1) (units ++ [u])
  end.
Fixpoint wide_fixed (p : u64) (n : nat) (index : u64) (units : list u16) : H (list u16) :=
  match n with
  | O => mret units
  | S n =>
      address ← cpu (checked_address p (index * 2) "fixed UTF-16 read");
      u ← cpu (read_u16 address);
      wide_fixed p n (index + 1) (units ++ [u])
  end.
Definition read_utf16_units (wide_ptr wide_len_raw : u64) : H (list u16) :=
  if decide (wide_ptr = 0) then mret []
  else
    let wide_len := as_i32 (mask32 wide_len_raw) in
    if decide (wide_len = -1) then wide_scan wide_ptr MAX_UNITS 0 []
    else if decide (wide_len < 0) then fail (Message "negative UTF-16 length is not supported")
    else wide_fixed wide_ptr (Z.to_nat wide_len) 0 [].

Fixpoint byte_scan (p : u64) (n : nat) (index : u64) (bytes : list u8) : H (list u8) :=
  match n with
  | O => fail (Message "unterminated multibyte string")
  | S n =>
      address ← cpu (checked_address p index "multibyte NUL scan");
      byte ← context "failed to read multibyte byte" (cpu (mem_read address 1%nat));
      let b := le_val byte in
      if decide (b = 0) then mret (bytes ++ [b]) else byte_scan p n (index + 1) (bytes ++ [b])
  end.
Definition read_multibyte_bytes (input_ptr input_len_raw : u64) : H (list u8) :=
  if decide (input_ptr = 0) then mret []
  else
    let input_len := as_i32 (mask32 input_len_raw) in
    if decide (input_len = -1) then byte_scan input_ptr MAX_UNITS 0 []
    else if decide (input_len < 0) then fail (Message "negative multibyte length is not supported")
    else context "failed to read fixed multibyte bytes" (cpu (mem_read input_ptr (Z.to_nat input_len))).

(** ** Conversions: the size that is needed, or the output if it fits *)

Definition emit (out_ptr out_len : u64) (count : nat) (bytes : list u8) (text : string) : H u64 :=
  let required := Z.of_nat count in
  if decide (out_ptr = 0 ∨ out_len = 0) then mret required
  else if decide (out_len < required) then mret 0
  else _ ← context text (cpu (mem_write out_ptr bytes)); mret required.

Definition handle_wide_char_to_multi_byte : H HandlerOutcome :=
  let api := "WideCharToMultiByte"%string in
  code_page ← arg_for Rcx "RCX" api; _ ← arg_for Rdx "RDX" api;
  wide_ptr ← arg_for R8 "R8" api; wide_len_raw ← arg_for R9 "R9" api;
  rsp ← arg_for Rsp "RSP" api;
  out_ptr_address ← cpu (checked_address rsp 0x28 "WideCharToMultiByte lpMultiByteStr");
  out_len_address ← cpu (checked_address rsp 0x30 "WideCharToMultiByte cbMultiByte");
  out_ptr ← cpu (read_u64 out_ptr_address);
  out_len ← cpu (read_u64 out_len_address);
  units ← read_utf16_units wide_ptr wide_len_raw;
  bytes ← some_ctx "WideCharToMultiByte invalid UTF-16" (wide_to_multibyte (mask32 code_page) units);
  v ← emit out_ptr out_len (length bytes) bytes "failed to write WideCharToMultiByte output";
  ret_u64 v api.

Definition handle_multi_byte_to_wide_char : H HandlerOutcome :=
  code_page ← arg Rcx; _ ← arg Rdx; input_ptr ← arg R8; input_len_raw ← arg R9;
  rsp ← arg Rsp;
  a ← cpu (checked_address rsp 0x28 "MultiByteToWideChar lpWideCharStr"); output_ptr ← cpu (read_u64 a);
  a ← cpu (checked_address rsp 0x30 "MultiByteToWideChar cchWideChar"); output_len ← cpu (read_u64 a);
  bytes ← read_multibyte_bytes input_ptr input_len_raw;
  let units := multibyte_to_wide (mask32 code_page) bytes in
  v ← emit output_ptr output_len (length units) (unit_bytes units) "failed to write MultiByteToWideChar output";
  returned v.

Definition handle_lc_map_string_w : H HandlerOutcome :=
  let api := "LCMapStringW"%string in
  _ ← arg_for Rcx "RCX" api; _ ← arg_for Rdx "RDX" api;
  source_ptr ← arg_for R8 "R8" api; source_len_raw ← arg_for R9 "R9" api;
  rsp ← arg_for Rsp "RSP" api;
  dest_ptr_address ← cpu (checked_address rsp 0x28 "LCMapStringW lpDestStr");
  dest_len_address ← cpu (checked_address rsp 0x30 "LCMapStringW cchDest");
  dest_ptr ← cpu (read_u64 dest_ptr_address);
  dest_len ← cpu (read_u64 dest_len_address);
  units ← read_utf16_units source_ptr source_len_raw;
  v ← emit dest_ptr dest_len (length units) (unit_bytes units) "failed to write LCMapStringW output";
  ret_u64 v api.
End Handlers.
