(* ===== verification/k32_dispatch.v ===== *)
(** * Dispatching KERNEL32 calls (crates/wie-winapi/src/dispatch_table.rs, kernel32.rs)

    The rows of [dispatch_winapi_id] (by identifier) and of
    [dispatch_kernel32_extra] (by export name) whose handlers are modelled. *)

From S2P Require Import Prelude utf path regs insn vad mem engine cpu guest_heap guest_string sync_obj thread dispatch_table win32.
From S2P Require Import k32_sync k32_thread k32_memory k32_misc k32_info k32_string.

Definition name (s : string) : str := String.list_ascii_of_string s.

Section Dispatch.
Context {E : Type} `{CpuMem E, !CpuMap E, !CpuRegs E, !CpuApi E}.
Abbreviation H := (M (Api E)).
(** The environment of the host, the order of the handle table, and what other
    host threads do during a poll. *)
Context (WIE_MT WIE_MT_MAX_THREADS : option string).
Context (values : gmap u64 nat → list nat).
Context (env : nat → list KernelObject → list KernelObject).
Context (environment : WinApiEnvironment).

Definition id_rows : list (WinApiId * H HandlerOutcome) :=
  [(Kernel32Getversionexa, handle_get_version_ex_a);
   (Kernel32Getcommandlinea, handle_get_command_line_a (command_line_a_ptr environment));
   (Kernel32Getcommandlinew, handle_get_command_line_w (command_line_w_ptr environment));
   (Kernel32Getstartupinfoa, handle_get_startup_info_a);
   (Kernel32Getprocessheap, handle_get_process_heap (process_heap_handle environment));
   (Kernel32Getsystemtimeasfiletime, handle_get_system_time_as_file_time);
   (Kernel32Getcurrentprocessid, handle_get_current_process_id);
   (Kernel32Getcurrentthreadid, handle_get_current_thread_id);
   (Kernel32Gettickcount, handle_get_tick_count);
   (Kernel32Queryperformancecounter, handle_query_performance_counter);
   (Kernel32Heapalloc, handle_heap_alloc); (Kernel32Heapfree, handle_heap_free);
   (Kernel32Heaprealloc, handle_heap_realloc);
   (Kernel32Heapcreate, handle_heap_create (process_heap_handle environment));
   (Kernel32Heapsetinformation, handle_heap_set_information);
   (Kernel32Initializecriticalsection, handle_initialize_critical_section);
   (Kernel32Entercriticalsection, handle_enter_critical_section);
   (Kernel32Leavecriticalsection, handle_leave_critical_section);
   (Kernel32Deletecriticalsection, handle_delete_critical_section);
   (Kernel32Flsalloc, handle_fls_alloc); (Kernel32Flsfree, handle_fls_free);
   (Kernel32Flssetvalue, handle_fls_set_value); (Kernel32Flsgetvalue, handle_fls_get_value);
   (Kernel32Getstdhandle, handle_get_std_handle); (Kernel32Sethandlecount, handle_set_handle_count);
   (Kernel32Getenvironmentstringsw, handle_get_environment_strings_w (environment_strings_w_ptr environment));
   (Kernel32Freeenvironmentstringsw, handle_free_environment_strings_w);
   (Kernel32Widechartomultibyte, handle_wide_char_to_multi_byte);
   (Kernel32Getlasterror, handle_get_last_error); (Kernel32Setlasterror, handle_set_last_error);
   (Kernel32Getacp, handle_get_acp); (Kernel32Getoemcp, handle_get_oem_cp);
   (Kernel32Getcpinfo, handle_get_cp_info); (Kernel32Isvalidcodepage, handle_is_valid_code_page);
   (Kernel32Multibytetowidechar, handle_multi_byte_to_wide_char);
   (Kernel32Lcmapstringw, handle_lc_map_string_w);
   (Kernel32Setunhandledexceptionfilter, handle_set_unhandled_exception_filter);
   (Kernel32Heapsize, handle_heap_size);
   (Kernel32Getsystemdefaultlangid, handle_get_system_default_lang_id);
   (Kernel32Getuserdefaultlangid, handle_get_user_default_lang_id);
   (Kernel32Globalmemorystatus, handle_global_memory_status); (Kernel32Getlocaltime, handle_get_local_time);
   (Kernel32Filetimetolocalfiletime, handle_file_time_to_local_file_time);
   (Kernel32Filetimetosystemtime, handle_file_time_to_system_time);
   (Kernel32Gettimezoneinformation, handle_get_time_zone_information);
   (Kernel32Encodepointer, handle_encode_pointer); (Kernel32Decodepointer, handle_decode_pointer);
   (Kernel32Initializecriticalsectionandspincount, handle_initialize_critical_section_and_spin_count);
   (Kernel32Getcurrentprocess, handle_get_current_process);
   (Kernel32Localalloc, handle_local_alloc); (Kernel32Localfree, handle_local_free);
   (Kernel32Globalalloc, handle_global_alloc); (Kernel32Globalfree, handle_global_free);
   (Kernel32Globallock, handle_global_lock); (Kernel32Globalunlock, handle_global_unlock);
   (Kernel32Globalsize, handle_global_size); (Kernel32Muldiv, handle_mul_div);
   (Kernel32Globaladdatoma, handle_global_add_atom_a); (Kernel32Globaldeleteatom, handle_global_delete_atom)].

Definition extra_rows : list (str * H HandlerOutcome) :=
  [(name "virtualalloc", handle_virtual_alloc); (name "virtualfree", handle_virtual_free);
   (name "virtualprotect", handle_virtual_protect); (name "virtualquery", handle_virtual_query);
   (name "flushinstructioncache", handle_flush_instruction_cache);
   (name "tlsgetvalue", handle_tls_get_value); (name "tlssetvalue", handle_tls_set_value);
   (name "tlsalloc", handle_tls_alloc); (name "tlsfree", handle_tls_free);
   (name "createthread", handle_create_thread WIE_MT WIE_MT_MAX_THREADS);
   (name "exitthread", handle_exit_thread values);
   (name "getexitcodethread", handle_get_exit_code_thread);
   (name "waitforsingleobject", handle_wait_for_single_object);
   (name "createeventa", handle_create_event); (name "createeventw", handle_create_event);
   (name "setevent", handle_set_event); (name "resetevent", handle_reset_event);
   (name "getcurrentthread", handle_get_current_thread);
   (name "interlockedincrement", handle_interlocked_increment);
   (name "interlockeddecrement", handle_interlocked_decrement);
   (name "interlockedexchange", handle_interlocked_exchange);
   (name "interlockedcompareexchange", handle_interlocked_compare_exchange);
   (name "interlockedexchangeadd", handle_interlocked_exchange_add);
   (name "interlockedincrement64", handle_interlocked_increment64);
   (name "interlockeddecrement64", handle_interlocked_decrement64);
   (name "interlockedexchange64", handle_interlocked_exchange64);
   (name "interlockedcompareexchange64", handle_interlocked_compare_exchange64);
   (name "interlockedexchangeadd64", handle_interlocked_exchange_add64);
   (name "getversion", handle_get_version);
   (name "lstrlenw", handle_lstrlen_w); (name "lstrcpyw", handle_lstrcpy_w); (name "lstrcatw", handle_lstrcat_w);
   (name "setconsolectrlhandler", handle_set_console_ctrl_handler);
   (name "getconsolemode", handle_get_console_mode); (name "setconsolemode", handle_set_console_mode);
   (name "getconsolescreenbufferinfo", handle_get_console_screen_buffer_info);
   (name "setfileapistooem", handle_set_file_apis_to_oem);
   (name "queryperformancefrequency", handle_query_performance_frequency);
   (name "getsysteminfo", handle_get_system_info);
   (name "isprocessorfeaturepresent", handle_is_processor_feature_present);
   (name "globalmemorystatusex", handle_global_memory_status_ex);
   (name "getprocesstimes", handle_get_process_times);
   (name "getlargepageminimum", handle_get_large_page_minimum);
   (name "getprocessaffinitymask", handle_get_process_affinity_mask);
   (name "setprocessaffinitymask", handle_set_process_affinity_mask);
   (name "setthreadaffinitymask", handle_set_thread_affinity_mask);
   (name "comparefiletime", handle_compare_file_time);
   (name "localfiletimetofiletime", handle_local_file_time_to_file_time);
   (name "filetimetodosdatetime", handle_file_time_to_dos_date_time);
   (name "dosdatetimetofiletime", handle_dos_date_time_to_file_time);
   (name "getdiskfreespaceexw", handle_get_disk_free_space_ex_w);
   (name "getdiskfreespacew", handle_get_disk_free_space_w);
   (name "getlogicaldrivestringsw", handle_get_logical_drive_strings_w);
   (name "setfileattributesw", handle_set_file_attributes_w); (name "setfiletime", handle_set_file_time);
   (name "formatmessagew", handle_format_message_w); (name "resumethread", handle_resume_thread);
   (name "createsemaphorew", handle_create_semaphore); (name "createsemaphorea", handle_create_semaphore);
   (name "releasesemaphore", handle_release_semaphore);
   (name "openeventw", handle_open_event); (name "openeventa", handle_open_event);
   (name "waitformultipleobjects", handle_wait_for_multiple_objects env);
   (name "createhardlinkw", handle_create_hard_link_w);
   (name "duplicatehandle", handle_duplicate_handle values);
   (name "getthreadpriority", handle_get_thread_priority);
   (name "rtlcapturecontext", handle_rtl_capture_context);
   (name "findfirststreamw", handle_find_first_stream_w); (name "findnextstreamw", handle_find_next_stream_w);
   (name "deviceiocontrol", handle_device_io_control); (name "mapviewoffile", handle_map_view_of_file);
   (name "unmapviewoffile", handle_unmap_view_of_file);
   (name "openfilemappingw", handle_open_file_mapping); (name "openfilemappinga", handle_open_file_mapping)].

(** The handler of a modelled call. *)
Definition dispatch_winapi_id (id : WinApiId) : option (H HandlerOutcome) :=
  snd <$> List.find (λ r, bool_decide (r.1 = id)) id_rows.
Definition dispatch_kernel32_extra (n : str) : option (H HandlerOutcome) :=
  snd <$> List.find (λ r, bool_decide (r.1 = to_ascii_lowercase n)) extra_rows.
End Dispatch.
