(* ===== verification/win32_spec.v ===== *)
(** * Reasoning about handlers

    Runs of handlers step by step, a buffer of guest memory read and written in
    place, and critical sections and interlocked operations against their
    specifications: a reentrant mutex in guest memory, a word read and replaced. *)

From S2P Require Import Prelude utf regs insn engine cpu guest_string dll_spec sync_obj thread win32 k32_sync.

(** ** Steps *)

Lemma bind_ok {S A B} (m : M S A) (f : A → M S B) s s' a : m s = (s', Ok a) → (m ≫= f) s = f a s'.
Proof. intros E. unfold mbind, M_bind. by rewrite E. Qed.
Lemma bind_map {S A B C} (m : M S A) (g : A → B) (f : B → M S C) s : ((a ← m; mret (g a)) ≫= f) s = (a ← m; f (g a)) s.
Proof. unfold mbind, M_bind. by destruct (m s) as [s' [a|e|w]]. Qed.
Lemma context_ok {S A} text (m : M S A) s s' a : m s = (s', Ok a) → context text m s = (s', Ok a).
Proof. intros E. unfold context. by rewrite E. Qed.
Lemma cpu_ok {E A} (m : M E A) (s : Api E) e' a : m (a_cpu s) = (e', Ok a) → cpu m s = (mkApi e' (a_win s), Ok a).
Proof. intros Hm. unfold cpu, zoom. by rewrite Hm. Qed.
Lemma unwrap_ok {E A} (d : A) (m : M (Api E) A) s s' a : m s = (s', Ok a) → unwrap_or d m s = (s', Ok a).
Proof. intros Hm. unfold unwrap_or, attempt, mbind, M_bind. by rewrite Hm. Qed.

(** ** A buffer in guest memory *)

Section Buffer.
Context {E : Type} `{CpuMemLaws E}.

(** Outside [lo, hi) nothing has changed. *)
Record framed (lo hi : Z) (e e' : E) : Prop := {
  fr_rw : ∀ x, mem_rw e' x ↔ mem_rw e x;
  fr_out : ∀ x, ¬ (lo ≤ x < hi) → mem_get e' x = mem_get e x;
}.
Lemma framed_refl lo hi e : framed lo hi e e.
Proof. done. Qed.
Lemma framed_trans lo hi e1 e2 e3 : framed lo hi e1 e2 → framed lo hi e2 e3 → framed lo hi e1 e3.
Proof. intros [Hr Ho] [Hr' Ho']. split; [intros x; by rewrite Hr', Hr|]. intros x Hx. by rewrite Ho', Ho. Qed.
Lemma framed_unchanged lo hi e e' : unchanged e e' → framed lo hi e e'.
Proof. intros [_ Hg Hr]. split; [done|]. by rewrite Hg. Qed.
Lemma framed_weaken lo hi lo' hi' e e' : framed lo hi e e' → lo' ≤ lo → hi ≤ hi' → framed lo' hi' e e'.
Proof. intros [Hr Ho] ? ?. split; [done|]. intros x Hx. apply Ho. lia. Qed.

Lemma accessible_framed lo hi e e' a n : framed lo hi e e' → accessible e a n → accessible e' a n.
Proof. intros [Hr _] (? & ? & Hx). split_and!; [done|done|]. intros x Hxx. apply Hr. by apply Hx. Qed.
Lemma holds_framed lo hi e e' a bs : framed lo hi e e' → holds e a bs → a + Z.of_nat (length bs) ≤ lo ∨ hi ≤ a → holds e' a bs.
Proof.
  intros [_ Ho] Hh Hd i b Hb. apply lookup_lt_Some in Hb as Hi. rewrite Ho by lia. by apply Hh.
Qed.

(** A write to memory that is accessible. *)
Lemma write_spec e a bs lo hi : mem_inv e → accessible e lo (hi - lo) → lo ≤ a → a + Z.of_nat (length bs) ≤ hi →
  ∃ e', mem_write a bs e = (e', Ok tt) ∧ mem_inv e' ∧ accessible e' lo (hi - lo) ∧ holds e' a bs ∧
    framed a (a + Z.of_nat (length bs)) e e'.
Proof.
  intros Hi Hacc Hlo Hhi.
  destruct (mem_write_holds e a bs Hi) as (e' & Hw & Hi' & Hr & Hh & Ho); [eapply accessible_sub; [exact Hacc|lia..]|].
  assert (Hf : framed a (a + Z.of_nat (length bs)) e e') by (by split).
  exists e'. split_and!; [done|done|by eapply accessible_framed|done|done].
Qed.

Lemma mirrors_unchanged e e' a image : unchanged e e' → mirrors e a image → mirrors e' a image.
Proof.
  intros Hu [Hi Hacc Hh]. split; [apply Hu|by eapply accessible_unchanged|by eapply holds_unchanged].
Qed.

Lemma mirror_read e a x y z : mirrors e a (x ++ y ++ z) →
  ∃ e', mem_read (a + Z.of_nat (length x)) (length y) e = (e', Ok y) ∧ unchanged e e'.
Proof.
  intros [Hi Hacc Hh]. apply mem_read_holds; [done| |].
  - eapply accessible_sub; [exact Hacc|lia|lia|rewrite !length_app; lia].
  - rewrite holds_app in Hh. destruct Hh as [_ Hh]. rewrite holds_app in Hh. apply Hh.
Qed.

Lemma mirror_write e a x y y' z : mirrors e a (x ++ y ++ z) → length y' = length y →
  ∃ e', mem_write (a + Z.of_nat (length x)) y' e = (e', Ok tt) ∧ mirrors e' a (x ++ y' ++ z) ∧
    framed a (a + Z.of_nat (length (x ++ y ++ z))) e e'.
Proof.
  intros Hm Hl. destruct (mem_write_mirrors e a _ (Z.of_nat (length x)) y' Hm) as (e' & Hw & Hm' & Hr & Ho);
    [lia|rewrite !length_app; lia|].
  exists e'. split; [exact Hw|]. split; [|by split]. rewrite Nat2Z.id, take_app_length, Hl in Hm'.
  rewrite (app_assoc x y z), (drop_app_length' (x ++ y)) in Hm' by (by rewrite length_app). exact Hm'.
Qed.
End Buffer.

Lemma le_val_word n v : 0 ≤ v < 256 ^ Z.of_nat n → le_val (le_bytes n v) = v.
Proof. intros Hv. rewrite le_val_le_bytes. by apply Z.mod_small. Qed.

(** ** Critical sections *)

(** A free section, or one its owner has entered so many times. *)
Abbreviation lock := (option (u32 * Z)) (only parsing).
Definition lock_enter (tid : u32) (l : lock) : lock * EnterCsResult :=
  match l with
  | None => (Some (tid, 1), Acquired)
  | Some (owner, depth) => if decide (owner = tid) then (Some (owner, depth + 1), Acquired) else (l, NeedPark)
  end.
(** Whether the section became free. *)
Definition lock_leave (tid : u32) (l : lock) : lock * bool :=
  match l with
  | Some (owner, depth) =>
      if decide (owner ≠ tid) then (l, false)
      else if decide (depth = 1) then (None, true) else (Some (owner, depth - 1), false)
  | None => (l, false)
  end.
Definition lock_wf (l : lock) : Prop :=
  match l with Some (owner, depth) => 0 < owner < u32_lim ∧ 1 ≤ depth < u32_lim - 1 | None => True end.

Definition lock_words (l : lock) : u32 * u32 * u64 :=
  match l with Some (owner, depth) => (depth - 1, depth, owner) | None => (u32_max, 0, 0) end.

Section CriticalSections.
Context {E : Type} `{CpuMemLaws E, !CpuMap E, !CpuRegs E, !CpuApi E}.
Implicit Types (s : Api E).

(** LockCount, RecursionCount and OwningThread of the section at [cs]. *)
Definition cs_words (e : E) (cs : Z) (l r : u32) (o : u64) : Prop :=
  mirrors e (cs + 8) (le_bytes 4 l ++ le_bytes 4 r ++ le_bytes 8 o).
Definition cs_mem (e : E) (cs : Z) (l : lock) : Prop :=
  cs_words e cs (lock_words l).1.1 (lock_words l).1.2 (lock_words l).2.

Lemma cs_field_ok s cs off name : cs + off < u64_lim → cs_field cs off name s = (s, Ok (cs + off)).
Proof.
  intros Hlim. unfold cs_field, checked_field_address, checked_add. rewrite decide_True by done.
  by destruct s.
Qed.

Section Words.
Context (s : Api E) (cs l r o : Z) (Hm : cs_words (a_cpu s) cs l r o).

Lemma cs_read_owner : in_u64 o →
  ∃ e', unwrap_or 0 (cpu (read_u64 (cs + 16))) s = (mkApi e' (a_win s), Ok o) ∧ unchanged (a_cpu s) e'.
Proof.
  intros Ho. destruct (mirror_read (a_cpu s) (cs + 8) (le_bytes 4 l ++ le_bytes 4 r) (le_bytes 8 o) []) as (e' & Hr & Hu);
    [rewrite app_nil_r, <- app_assoc; exact Hm|].
  exists e'. split; [|exact Hu]. apply unwrap_ok, cpu_ok. unfold read_u64. erewrite bind_ok.
  2: { apply context_ok. rewrite length_app, !length_le_bytes in Hr.
       replace (cs + 8 + Z.of_nat (4 + 4)) with (cs + 16) in Hr by lia. exact Hr. }
  unfold mret, M_ret. do 2 f_equal. by apply le_val_word.
Qed.
Lemma cs_read_recursion d : 0 ≤ r < u32_lim →
  ∃ e', unwrap_or d (cpu (read_guest_u32_cs (cs + 12))) s = (mkApi e' (a_win s), Ok r) ∧ unchanged (a_cpu s) e'.
Proof.
  intros Ho. destruct (mirror_read (a_cpu s) (cs + 8) (le_bytes 4 l) (le_bytes 4 r) (le_bytes 8 o) Hm) as (e' & Hr & Hu).
  exists e'. split; [|exact Hu]. apply unwrap_ok, cpu_ok. unfold read_guest_u32_cs. erewrite bind_ok.
  2: { rewrite !length_le_bytes in Hr. replace (cs + 8 + Z.of_nat 4) with (cs + 12) in Hr by lia. exact Hr. }
  unfold mret, M_ret. do 2 f_equal. by apply le_val_word.
Qed.
Lemma cs_read_lock d : 0 ≤ l < u32_lim →
  ∃ e', unwrap_or d (cpu (read_guest_u32_cs (cs + 8))) s = (mkApi e' (a_win s), Ok l) ∧ unchanged (a_cpu s) e'.
Proof.
  intros Ho. destruct (mirror_read (a_cpu s) (cs + 8) [] (le_bytes 4 l) (le_bytes 4 r ++ le_bytes 8 o) Hm) as (e' & Hr & Hu).
  exists e'. split; [|exact Hu]. apply unwrap_ok, cpu_ok. unfold read_guest_u32_cs. erewrite bind_ok.
  2: { rewrite !length_le_bytes in Hr. replace (cs + 8 + Z.of_nat (length [])) with (cs + 8) in Hr by (cbn; lia). exact Hr. }
  unfold mret, M_ret. do 2 f_equal. by apply le_val_word.
Qed.

Lemma cs_write_words bs l' r' o' off x y z :
  le_bytes 4 l ++ le_bytes 4 r ++ le_bytes 8 o = x ++ y ++ z → length bs = length y → off = 8 + Z.of_nat (length x) →
  le_bytes 4 l' ++ le_bytes 4 r' ++ le_bytes 8 o' = x ++ bs ++ z →
  ∃ e', mem_write (cs + off) bs (a_cpu s) = (e', Ok tt) ∧ cs_words e' cs l' r' o' ∧ framed (cs + 8) (cs + 24) (a_cpu s) e'.
Proof.
  intros Hxyz Hlen -> Himg. unfold cs_words in Hm. rewrite Hxyz in Hm.
  destruct (mirror_write (a_cpu s) (cs + 8) x y bs z Hm Hlen) as (e' & Hw & Hm' & Hf).
  exists e'. split; [by rewrite Z.add_assoc|]. split; [unfold cs_words; by rewrite Himg|].
  eapply framed_weaken; [exact Hf|lia|]. rewrite <- Hxyz, !length_app, !length_le_bytes. lia.
Qed.
Lemma cs_write_lock l' :
  ∃ e', cpu (write_u32 (cs + 8) l') s = (mkApi e' (a_win s), Ok tt) ∧ cs_words e' cs l' r o ∧ framed (cs + 8) (cs + 24) (a_cpu s) e'.
Proof.
  destruct (cs_write_words (le_bytes 4 l') l' r o 8 [] (le_bytes 4 l) (le_bytes 4 r ++ le_bytes 8 o)) as (e' & Hw & Hr);
    [done|by rewrite !length_le_bytes|done|done|].
  exists e'. split; [|done]. by apply cpu_ok, context_ok.
Qed.
Lemma cs_write_recursion r' :
  ∃ e', cpu (write_u32 (cs + 12) r') s = (mkApi e' (a_win s), Ok tt) ∧ cs_words e' cs l r' o ∧ framed (cs + 8) (cs + 24) (a_cpu s) e'.
Proof.
  destruct (cs_write_words (le_bytes 4 r') l r' o 12 (le_bytes 4 l) (le_bytes 4 r) (le_bytes 8 o)) as (e' & Hw & Hr);
    [done|by rewrite !length_le_bytes|by rewrite length_le_bytes|done|].
  exists e'. split; [|done]. by apply cpu_ok, context_ok.
Qed.
Lemma cs_write_owner o' :
  ∃ e', cpu (write_u64 (cs + 16) o') s = (mkApi e' (a_win s), Ok tt) ∧ cs_words e' cs l r o' ∧ framed (cs + 8) (cs + 24) (a_cpu s) e'.
Proof.
  destruct (cs_write_words (le_bytes 8 o') l r o' 16 (le_bytes 4 l ++ le_bytes 4 r) (le_bytes 8 o) []) as (e' & Hw & Hr);
    [by rewrite app_nil_r, <- app_assoc|by rewrite !length_le_bytes|by rewrite length_app, !length_le_bytes|by rewrite app_nil_r, <- app_assoc|].
  exists e'. split; [|done]. by apply cpu_ok, context_ok.
Qed.
End Words.

Lemma cs_words_unchanged e e' cs l r o : unchanged e e' → cs_words e cs l r o → cs_words e' cs l r o.
Proof. apply mirrors_unchanged. Qed.
Lemma cs_words_limit e cs l r o : cs_words e cs l r o → cs + 24 < u64_lim.
Proof. intros [_ (_ & Hlim & _) _]. rewrite !length_app, !length_le_bytes in Hlim. lia. Qed.

(** The run so far ends in an engine that still has the section's words. *)
Lemma cs_chain (e e1 e2 : E) cs : framed (cs + 8) (cs + 24) e e1 → framed (cs + 8) (cs + 24) e1 e2 → framed (cs + 8) (cs + 24) e e2.
Proof. apply framed_trans. Qed.

Lemma write_all_words s cs l r o l' r' o' {A} (k : M (Api E) A) :
  cs_words (a_cpu s) cs l r o →
  ∃ e', (_ ← cpu (write_u32 (cs + 8) l'); _ ← cpu (write_u32 (cs + 12) r'); _ ← cpu (write_u64 (cs + 16) o'); k) s = k (mkApi e' (a_win s)) ∧
    cs_words e' cs l' r' o' ∧ framed (cs + 8) (cs + 24) (a_cpu s) e'.
Proof.
  intros Hm. destruct (cs_write_lock s cs l r o Hm l') as (e1 & Hr1 & Hm1 & Hf1).
  destruct (cs_write_recursion (mkApi e1 (a_win s)) cs l' r o Hm1 r') as (e2 & Hr2 & Hm2 & Hf2).
  destruct (cs_write_owner (mkApi e2 (a_win s)) cs l' r' o Hm2 o') as (e3 & Hr3 & Hm3 & Hf3).
  exists e3. erewrite bind_ok by exact Hr1. erewrite bind_ok by exact Hr2. erewrite bind_ok by exact Hr3.
  split; [done|]. split; [done|]. eapply framed_trans; [exact Hf1|]. by eapply framed_trans.
Qed.

Lemma try_enter_spec s cs tid l :
  cs_mem (a_cpu s) cs l → lock_wf l → 0 < tid < u32_lim → lock_wf (lock_enter tid l).1 →
  ∃ e', try_enter_critical_section_guest cs tid s = (mkApi e' (a_win s), Ok (lock_enter tid l).2) ∧
    cs_mem e' cs (lock_enter tid l).1 ∧ framed (cs + 8) (cs + 24) (a_cpu s) e'.
Proof.
  intros Hm Hl Ht Hl'. pose proof (cs_words_limit _ _ _ _ _ Hm) as Hlim.
  unfold try_enter_critical_section_guest. do 3 (erewrite bind_ok by (apply cs_field_ok; lia)).
  destruct (cs_read_owner s cs _ _ _ Hm) as (e1 & Hr1 & Hu1); [destruct l as [[o d]|]; cbn in *; unfold in_u64; lia|].
  erewrite bind_ok by exact Hr1. pose proof (cs_words_unchanged _ _ _ _ _ _ Hu1 Hm) as Hm1.
  pose proof (framed_unchanged (cs + 8) (cs + 24) _ _ Hu1) as Hf1.
  destruct l as [[o d]|]; cbn [lock_words lock_enter fst snd] in *.
  - destruct (decide (o = tid)) as [->|Hne].
    + rewrite decide_True by auto. rewrite !decide_False by lia. cbn [lock_wf fst snd] in *.
      destruct (cs_read_recursion (mkApi e1 (a_win s)) cs _ _ _ Hm1 0) as (e2 & Hr2 & Hu2); [lia|].
      pose proof (cs_words_unchanged _ _ _ _ _ _ Hu2 Hm1) as Hm2.
      destruct (cs_read_lock (mkApi e2 (a_win s)) cs _ _ _ Hm2 0) as (e3 & Hr3 & Hu3); [lia|].
      pose proof (cs_words_unchanged _ _ _ _ _ _ Hu3 Hm2) as Hm3.
      erewrite bind_ok by (erewrite bind_ok by exact Hr2; reflexivity).
      erewrite bind_ok by (erewrite bind_ok by exact Hr3; reflexivity).
      cbn [a_win].
      destruct (write_all_words (mkApi e3 (a_win s)) cs _ _ _ (sat_inc32 (d - 1)) (sat_inc32 d) tid (mret Acquired) Hm3)
        as (e4 & -> & Hm4 & Hf4).
      exists e4. split; [done|]. split.
      * unfold cs_mem. cbn. unfold sat_inc32 in Hm4. rewrite !Z.min_l in Hm4 by lia.
        by replace (d - 1 + 1) with (d + 1 - 1) in Hm4 by lia.
      * eapply framed_trans; [exact Hf1|]. eapply framed_trans; [by apply framed_unchanged|].
        eapply framed_trans; [by apply framed_unchanged|exact Hf4].
    + cbn [lock_wf] in Hl. rewrite decide_False by lia. exists e1. by split_and!.
  - rewrite decide_True by auto. rewrite !decide_True by done.
    erewrite bind_ok by reflexivity. erewrite bind_ok by reflexivity.
    destruct (write_all_words (mkApi e1 (a_win s)) cs _ _ _ 0 1 tid (mret Acquired) Hm1) as (e4 & -> & Hm4 & Hf4).
    exists e4. split; [done|]. split; [exact Hm4|]. by eapply framed_trans.
Qed.

Lemma leave_spec s cs tid l :
  cs_mem (a_cpu s) cs l → lock_wf l → 0 < tid < u32_lim →
  ∃ e', leave_critical_section_guest cs tid s = (mkApi e' (a_win s), Ok (lock_leave tid l).2) ∧
    cs_mem e' cs (lock_leave tid l).1 ∧ framed (cs + 8) (cs + 24) (a_cpu s) e'.
Proof.
  intros Hm Hl Ht. pose proof (cs_words_limit _ _ _ _ _ Hm) as Hlim.
  unfold leave_critical_section_guest. do 3 (erewrite bind_ok by (apply cs_field_ok; lia)).
  destruct (cs_read_owner s cs _ _ _ Hm) as (e1 & Hr1 & Hu1); [destruct l as [[o d]|]; cbn in *; unfold in_u64; lia|].
  erewrite bind_ok by exact Hr1. pose proof (cs_words_unchanged _ _ _ _ _ _ Hu1 Hm) as Hm1.
  pose proof (framed_unchanged (cs + 8) (cs + 24) _ _ Hu1) as Hf1.
  destruct l as [[o d]|]; cbn [lock_words lock_leave lock_wf fst snd] in *.
  2: { rewrite decide_True by lia. exists e1. by split_and!. }
  destruct (decide (o = tid)) as [->|Hne].
  2: { rewrite !decide_True by done. exists e1. by split_and!. }
  rewrite !(decide_False (P := tid ≠ tid)) by (by intros Hnot; apply Hnot).
  destruct (cs_read_recursion (mkApi e1 (a_win s)) cs _ _ _ Hm1 1) as (e2 & Hr2 & Hu2); [lia|].
  pose proof (cs_words_unchanged _ _ _ _ _ _ Hu2 Hm1) as Hm2. erewrite bind_ok by exact Hr2.
  assert (Hf2 : framed (cs + 8) (cs + 24) (a_cpu s) e2) by (eapply framed_trans; [exact Hf1|by apply framed_unchanged]).
  destruct (decide (d = 1)) as [->|Hd].
  - rewrite decide_True by lia. cbn [a_win].
    destruct (write_all_words (mkApi e2 (a_win s)) cs _ _ _ u32_max 0 0 (mret true) Hm2) as (e3 & -> & Hm3 & Hf3).
    exists e3. split; [done|]. split; [exact Hm3|]. by eapply framed_trans.
  - rewrite decide_False by lia. destruct (cs_read_lock (mkApi e2 (a_win s)) cs _ _ _ Hm2 1) as (e3 & Hr3 & Hu3); [lia|].
    pose proof (cs_words_unchanged _ _ _ _ _ _ Hu3 Hm2) as Hm3. erewrite bind_ok by exact Hr3. cbn [a_win].
    rewrite !sat_sub_le by lia.
    destruct (cs_write_lock (mkApi e3 (a_win s)) cs _ _ _ Hm3 (d - 1 - 1)) as (e4 & Hr4 & Hm4 & Hf4). erewrite bind_ok by exact Hr4.
    destruct (cs_write_recursion (mkApi e4 (a_win s)) cs _ _ _ Hm4 (d - 1)) as (e5 & Hr5 & Hm5 & Hf5). erewrite bind_ok by exact Hr5.
    exists e5. split; [done|]. split; [exact Hm5|].
    eapply framed_trans; [exact Hf2|]. eapply framed_trans; [by apply framed_unchanged|]. by eapply framed_trans.
Qed.

(** ** Sequences of calls *)

Inductive cs_op := Enter (tid : u32) | Leave (tid : u32).
(** Whether the call took the section, or freed it. *)
Definition cs_call (cs : u64) (o : cs_op) : M (Api E) bool :=
  match o with
  | Enter tid => r ← try_enter_critical_section_guest cs tid; mret (match r with Acquired => true | NeedPark => false end)
  | Leave tid => leave_critical_section_guest cs tid
  end.
Fixpoint cs_calls (cs : u64) (os : list cs_op) : M (Api E) (list bool) :=
  match os with
  | [] => mret []
  | o :: os => b ← cs_call cs o; bs ← cs_calls cs os; mret (b :: bs)
  end.
End CriticalSections.

Definition lock_call (o : cs_op) (l : lock) : lock * bool :=
  match o with
  | Enter tid => ((lock_enter tid l).1, match (lock_enter tid l).2 with Acquired => true | NeedPark => false end)
  | Leave tid => lock_leave tid l
  end.
Fixpoint lock_calls (os : list cs_op) (l : lock) : lock * list bool :=
  match os with
  | [] => (l, [])
  | o :: os => ((lock_calls os (lock_call o l).1).1, (lock_call o l).2 :: (lock_calls os (lock_call o l).1).2)
  end.
Definition op_tid (o : cs_op) : u32 := match o with Enter tid | Leave tid => tid end.
Definition lock_depth (l : lock) : Z := match l with Some (_, d) => d | None => 0 end.

Lemma lock_call_wf o l : lock_wf l → 0 < op_tid o < u32_lim → lock_depth l + 1 < u32_lim - 1 →
  lock_wf (lock_call o l).1 ∧ lock_depth (lock_call o l).1 ≤ lock_depth l + 1.
Proof.
  intros Hl Ht Hd. destruct o as [tid|tid], l as [[o d]|]; cbn [lock_call lock_enter lock_leave op_tid lock_depth fst snd] in *.
  - case_decide; cbn in *; lia.
  - cbn. lia.
  - case_decide; [cbn in *; lia|]. case_decide; cbn in *; lia.
  - cbn. lia.
Qed.

Section Mutex.
Context {E : Type} `{CpuMemLaws E, !CpuMap E, !CpuRegs E, !CpuApi E}.

Lemma cs_calls_refine cs os : ∀ (s : Api E) l,
  cs_mem (a_cpu s) cs l → lock_wf l → Forall (λ o, 0 < op_tid o < u32_lim) os →
  lock_depth l + Z.of_nat (length os) < u32_lim - 1 →
  ∃ e', cs_calls cs os s = (mkApi e' (a_win s), Ok (lock_calls os l).2) ∧
    cs_mem e' cs (lock_calls os l).1 ∧ framed (cs + 8) (cs + 24) (a_cpu s) e'.
Proof.
  induction os as [|o os IH]; intros s l Hm Hl Hts Hd.
  { exists (a_cpu s). split; [by destruct s|]. by split. }
  cbn [cs_calls lock_calls length fst snd] in *. apply Forall_cons in Hts as [Ht Hts].
  destruct (lock_call_wf o l Hl Ht) as [Hl' Hd']; [lia|].
  assert (Hcall : ∃ e1, cs_call cs o s = (mkApi e1 (a_win s), Ok (lock_call o l).2) ∧
            cs_mem e1 cs (lock_call o l).1 ∧ framed (cs + 8) (cs + 24) (a_cpu s) e1).
  { destruct o as [tid|tid]; cbn [cs_call lock_call fst snd] in *.
    - destruct (try_enter_spec s cs tid l Hm Hl Ht Hl') as (e1 & Hr & Hrest).
      exists e1. split; [|exact Hrest]. by erewrite bind_ok by exact Hr.
    - by apply leave_spec. }
  destruct Hcall as (e1 & Hr & Hm1 & Hf1). erewrite bind_ok by exact Hr.
  destruct (IH (mkApi e1 (a_win s)) _ Hm1 Hl' Hts) as (e2 & Hr2 & Hm2 & Hf2); [lia|].
  exists e2. erewrite bind_ok by exact Hr2. split; [done|]. split; [done|]. by eapply framed_trans.
Qed.

Lemma initialize_spec cs spin (s : Api E) : mem_inv (a_cpu s) → accessible (a_cpu s) cs 40 →
  ∃ e', write_critical_section_unlocked cs spin s = (mkApi e' (a_win s), Ok tt) ∧
    cs_mem e' cs None ∧ framed cs (cs + 40) (a_cpu s) e'.
Proof.
  intros Hi Hacc. assert (Hlim : cs + 40 < u64_lim) by apply Hacc. replace 40 with (cs + 40 - cs) in Hacc by lia.
  unfold write_critical_section_unlocked.
  destruct (write_spec (a_cpu s) (cs + 0) (le_bytes 8 0) cs (cs + 40) Hi Hacc) as (e1 & Hw1 & Hi1 & Hacc1 & _ & Hf1);
    rewrite ?length_le_bytes in *; [lia..|].
  destruct (write_spec e1 (cs + 8) (le_bytes 4 u32_max) cs (cs + 40) Hi1 Hacc1) as (e2 & Hw2 & Hi2 & Hacc2 & Hh2 & Hf2);
    rewrite ?length_le_bytes in *; [lia..|].
  destruct (write_spec e2 (cs + 12) (le_bytes 4 0) cs (cs + 40) Hi2 Hacc2) as (e3 & Hw3 & Hi3 & Hacc3 & Hh3 & Hf3);
    rewrite ?length_le_bytes in *; [lia..|].
  destruct (write_spec e3 (cs + 16) (le_bytes 8 0) cs (cs + 40) Hi3 Hacc3) as (e4 & Hw4 & Hi4 & Hacc4 & Hh4 & Hf4);
    rewrite ?length_le_bytes in *; [lia..|].
  destruct (write_spec e4 (cs + 24) (le_bytes 8 0) cs (cs + 40) Hi4 Hacc4) as (e5 & Hw5 & Hi5 & Hacc5 & _ & Hf5);
    rewrite ?length_le_bytes in *; [lia..|].
  destruct (write_spec e5 (cs + 32) (le_bytes 8 spin) cs (cs + 40) Hi5 Hacc5) as (e6 & Hw6 & Hi6 & Hacc6 & _ & Hf6);
    rewrite ?length_le_bytes in *; [lia..|].
  exists e6. split_and!.
  - do 6 (erewrite bind_ok by (apply cs_field_ok; lia); try (erewrite bind_ok by (by apply cpu_ok, context_ok))).
    cbn [a_win]. apply (cpu_ok _ (mkApi e5 (a_win s))). by apply context_ok.
  - assert (Hout : ∀ a bs, a + Z.of_nat (length bs) ≤ cs + 24 → holds e4 a bs → holds e6 a bs).
    { intros a bs Ha Hh. eapply holds_framed; [exact Hf6| |lia]. eapply holds_framed; [exact Hf5|done|lia]. }
    split; [done|rewrite !length_app, !length_le_bytes; eapply accessible_sub; [exact Hacc6|lia..]|].
    rewrite !holds_app, !length_le_bytes. split_and!.
    + apply Hout; [rewrite length_le_bytes; lia|]. eapply holds_framed; [exact Hf4| |rewrite length_le_bytes; lia].
      eapply holds_framed; [exact Hf3|exact Hh2|rewrite length_le_bytes; lia].
    + replace (cs + 8 + Z.of_nat 4) with (cs + 12) by lia. apply Hout; [rewrite length_le_bytes; lia|].
      eapply holds_framed; [exact Hf4|exact Hh3|rewrite length_le_bytes; lia].
    + replace (cs + 8 + Z.of_nat 4 + Z.of_nat 4) with (cs + 16) by lia. apply Hout; [rewrite length_le_bytes; lia|exact Hh4].
  - assert (Hfs : framed cs (cs + 40) (a_cpu s) e3).
    { eapply framed_trans; [eapply framed_weaken; [exact Hf1|lia|lia]|].
      eapply framed_trans; eapply framed_weaken; [exact Hf2|lia|lia|exact Hf3|lia|lia]. }
    eapply framed_trans; [exact Hfs|]. eapply framed_trans; [eapply framed_weaken; [exact Hf4|lia|lia]|].
    eapply framed_trans; eapply framed_weaken; [exact Hf5|lia|lia|exact Hf6|lia|lia].
Qed.

(** C24 A critical section in guest memory is a reentrant mutex: initialise
    one on writable memory and run any sequence of EnterCriticalSection and
    LeaveCriticalSection by any threads; who gets in, who has to park and when the
    section becomes free are those of a lock that is free or owned so many times
    by one thread, and nothing but the section is written.  (Fewer calls than the
    width of the counter.) *)
Theorem cs_mutex cs spin os (s : Api E) :
  mem_inv (a_cpu s) → accessible (a_cpu s) cs 40 →
  Forall (λ o, 0 < op_tid o < u32_lim) os → Z.of_nat (length os) < u32_lim - 1 →
  ∃ e', (_ ← write_critical_section_unlocked cs spin; cs_calls cs os) s = (mkApi e' (a_win s), Ok (lock_calls os None).2) ∧
    cs_mem e' cs (lock_calls os None).1 ∧ framed cs (cs + 40) (a_cpu s) e'.
Proof.
  intros Hi Hacc Hts Hn. destruct (initialize_spec cs spin s Hi Hacc) as (e1 & Hr1 & Hm1 & Hf1).
  destruct (cs_calls_refine cs os (mkApi e1 (a_win s)) None Hm1) as (e2 & Hr2 & Hm2 & Hf2); [done|done|cbn; lia|].
  exists e2. erewrite bind_ok by exact Hr1. split; [exact Hr2|]. split; [done|].
  eapply framed_trans; [exact Hf1|]. eapply framed_weaken; [exact Hf2|lia|lia].
Qed.
End Mutex.

(** ** Interlocked operations *)

Inductive interlocked_op := Increment | Decrement | Exchange | CompareExchange | ExchangeAdd.
Inductive long := Long | Long64.
Definition bytes_of (w : long) : nat := match w with Long => 4 | Long64 => 8 end.
Definition modulus (w : long) : Z := 2 ^ (8 * Z.of_nat (bytes_of w)).

(** The word an operation leaves, and the one it returns: unsigned arithmetic
    modulo the width. *)
Definition op_new (op : interlocked_op) (w : long) (rdx r8 old : Z) : Z :=
  match op with
  | Increment => (old + 1) mod modulus w
  | Decrement => (old - 1) mod modulus w
  | Exchange => rdx mod modulus w
  | CompareExchange => if decide (old = r8 mod modulus w) then rdx mod modulus w else old
  | ExchangeAdd => (old + rdx) mod modulus w
  end.
Definition op_result (op : interlocked_op) (w : long) (rdx r8 old : Z) : Z :=
  match op with Increment | Decrement => op_new op w rdx r8 old | _ => old end.
Definition sign_extend (w : long) (v : Z) : u64 := as_i (8 * Z.of_nat (bytes_of w)) v mod u64_lim.


Lemma as_i_same k x y : x mod 2 ^ k = y mod 2 ^ k → as_i k x = as_i k y.
Proof. unfold as_i. by intros ->. Qed.
Lemma as_i_mod k x : 0 ≤ k → as_i k x mod 2 ^ k = x mod 2 ^ k.
Proof. intros Hk. rewrite <- (Z.add_0_r (as_i k x)), as_i_congr by done. by rewrite Z.add_0_r. Qed.
Lemma as_i32_mask v : as_i32 (mask32 v) = as_i 32 v.
Proof.
  unfold as_i32, mask32, as_i. change 0xffffffff with (Z.ones 32). rewrite Z.land_ones by lia. done.
Qed.

(** The function each handler applies, on the signed word. *)
Definition signed_new (op : interlocked_op) (w : long) (rdx r8 : Z) : Z → Z :=
  let k := 8 * Z.of_nat (bytes_of w) in
  match op with
  | Increment => λ old, wrap_signed (bytes_of w) (old + 1)
  | Decrement => λ old, wrap_signed (bytes_of w) (old - 1)
  | Exchange => λ _, as_i k rdx
  | CompareExchange => compare_exchange (as_i k r8) (as_i k rdx)
  | ExchangeAdd => λ old, wrap_signed (bytes_of w) (old + as_i k rdx)
  end.
Lemma signed_new_spec op w rdx r8 old : 0 ≤ old < modulus w →
  let k := 8 * Z.of_nat (bytes_of w) in
  signed_new op w rdx r8 (as_i k old) = as_i k (op_new op w rdx r8 old).
Proof.
  intros Hold k. assert (Hk : 0 ≤ k) by (unfold k; lia). unfold modulus in Hold. fold k in Hold.
  assert (Hwrap : ∀ m, as_i k (as_i k old + m) = as_i k ((old + m) mod 2 ^ k)).
  { intros m. apply as_i_same. rewrite as_i_congr by done. by rewrite Z.mod_mod by lia. }
  destruct op; cbn [signed_new op_new]; unfold wrap_signed, modulus; fold k.
  - apply Hwrap.
  - rewrite <- Z.add_opp_r. apply Hwrap.
  - apply as_i_same. by rewrite Z.mod_mod by lia.
  - unfold compare_exchange. destruct (decide (old = r8 mod 2 ^ k)) as [He|He].
    + rewrite decide_True; [apply as_i_same; by rewrite Z.mod_mod by lia|]. apply as_i_same. by rewrite He, Z.mod_mod by lia.
    + rewrite decide_False; [done|]. intros Heq. apply He. apply (f_equal (λ v, v mod 2 ^ k)) in Heq.
      rewrite !as_i_mod in Heq by done. by rewrite Z.mod_small in Heq.
  - rewrite (Z.add_comm (as_i k old)), as_i_same with (y := (rdx + as_i k old)) by (by rewrite as_i_congr).
    rewrite Z.add_comm, (Z.add_comm old). rewrite Hwrap. f_equal. f_equal. lia.
Qed.

Section Interlocked.
Context {E : Type} `{CpuApiLaws E}.

Definition interlocked_handler (op : interlocked_op) (w : long) : M (Api E) HandlerOutcome :=
  match w, op with
  | Long, Increment => handle_interlocked_increment
  | Long, Decrement => handle_interlocked_decrement
  | Long, Exchange => handle_interlocked_exchange
  | Long, CompareExchange => handle_interlocked_compare_exchange
  | Long, ExchangeAdd => handle_interlocked_exchange_add
  | Long64, Increment => handle_interlocked_increment64
  | Long64, Decrement => handle_interlocked_decrement64
  | Long64, Exchange => handle_interlocked_exchange64
  | Long64, CompareExchange => handle_interlocked_compare_exchange64
  | Long64, ExchangeAdd => handle_interlocked_exchange_add64
  end.

(** One operation, whichever path it takes. *)
Lemma interlocked_spec n sfx addr new (s : Api E) bs :
  addr ≠ 0 → mem_inv (a_cpu s) → accessible (a_cpu s) addr (Z.of_nat n) → holds (a_cpu s) addr bs → length bs = n →
  let old := as_i (8 * Z.of_nat n) (le_val bs) in
  ∃ e', interlocked n sfx addr new s = (mkApi e' (a_win s), Ok (old, new old)) ∧ mem_inv e' ∧
    holds e' addr (le_bytes n (new old)) ∧ framed addr (addr + Z.of_nat n) (a_cpu s) e'.
Proof.
  intros Hne Hi Hacc Hh Hl old. unfold interlocked. rewrite decide_False by done.
  set (fast := if is_multiple_of addr (Z.of_nat n) then _ else _).
  assert (Hfast : ∃ e1 o, fast s = (mkApi e1 (a_win s), Ok o) ∧ mem_inv e1 ∧
    match o with
    | None => unchanged (a_cpu s) e1
    | Some v => v = le_val bs ∧ holds e1 addr (le_bytes n (new old)) ∧ framed addr (addr + Z.of_nat n) (a_cpu s) e1
    end).
  { unfold fast. destruct (is_multiple_of addr (Z.of_nat n)).
    - destruct (host_rmw_ok (a_cpu s) addr n (λ v, new (as_i (8 * Z.of_nat n) v)) Hi Hacc) as (e1 & o & Hr & Hi1 & Hrw & Ho).
      exists e1, o. split; [by apply cpu_ok|]. split; [done|]. destruct o as [v|]; [|by split].
      destruct Ho as (Hold & Hnew & Hout). specialize (Hold bs Hl Hh). subst v. by split_and!.
    - exists (a_cpu s), None. split; [by destruct s|]. split; [done|by apply unchanged_refl]. }
  destruct Hfast as (e1 & o & Hr & Hi1 & Ho). erewrite bind_ok by exact Hr. destruct o as [v|].
  - destruct Ho as (-> & Hnew & Hf). by exists e1.
  - pose proof (holds_unchanged _ _ _ _ Ho Hh) as Hh1. pose proof (accessible_unchanged _ _ _ _ Ho Hacc) as Hacc1.
    destruct (mem_read_holds e1 addr bs Hi1) as (e2 & Hrd & Hu2); [by rewrite Hl|done|]. rewrite Hl in Hrd.
    erewrite bind_ok by (apply context_ok, cpu_ok; exact Hrd).
    destruct (write_spec e2 addr (le_bytes n (new old)) addr (addr + Z.of_nat n)) as (e3 & Hw & Hi3 & _ & Hh3 & Hf3);
      [apply Hu2|replace (addr + Z.of_nat n - addr) with (Z.of_nat n) by lia; by eapply accessible_unchanged
      |lia|rewrite length_le_bytes; lia|].
    cbn [a_win]. erewrite bind_ok by (apply context_ok, (cpu_ok _ (mkApi e2 (a_win s))); exact Hw).
    exists e3. split; [done|]. split; [done|]. split; [done|]. rewrite length_le_bytes in Hf3.
    eapply framed_trans; [by apply framed_unchanged|]. eapply framed_trans; [by apply framed_unchanged|exact Hf3].
Qed.

Lemma arg_ok r (s : Api E) : arg r s = (s, Ok (context_reg r (snapshot_thread_context (a_cpu s)))).
Proof. unfold arg. erewrite cpu_ok by apply read_reg_context. by destruct s. Qed.

(** What a call is given: memory at [sp] holds the return address. *)
Record call_frame (e : E) (sp ra : Z) : Prop := {
  cf_inv : mem_inv e;
  cf_rsp : context_reg Rsp (snapshot_thread_context e) = sp;
  cf_acc : accessible e sp 8;
  cf_ra : holds e sp (le_bytes 8 ra);
  cf_u64 : in_u64 ra;
}.
Lemma call_frame_framed e e' sp ra lo hi :
  call_frame e sp ra → mem_inv e' → framed lo hi e e' → snapshot_thread_context e' = snapshot_thread_context e →
  hi ≤ sp ∨ sp + 8 ≤ lo → call_frame e' sp ra.
Proof.
  intros [Hi Hrsp Hacc Hra Hu] Hi' Hf Hs Hd. split; [done|by rewrite Hs|by eapply accessible_framed| |done].
  eapply holds_framed; [exact Hf|done|rewrite length_le_bytes; lia].
Qed.
Lemma returned_ok (s : Api E) v sp ra : call_frame (a_cpu s) sp ra →
  ∃ e', returned v s = (mkApi e' (a_win s), Ok (Return ra v)) ∧ unchanged (a_cpu s) e' ∧
    snapshot_thread_context e' = returned_context v ra (snapshot_thread_context (a_cpu s)).
Proof.
  intros [Hi <- Hacc Hra Hu]. destruct (return_ok (a_cpu s) v ra Hi Hacc Hu Hra) as (e' & Hr & Hun).
  exists e'. split_and!; [|done|].
  - unfold returned. by erewrite bind_ok by (by apply cpu_ok).
  - pose proof (return_context (a_cpu s) v) as Hc. rewrite Hr in Hc. exact Hc.
Qed.

Lemma interlocked_context n sfx addr new : same_context (interlocked (E := E) n sfx addr new).
Proof.
  unfold interlocked. case_decide; [apply same_lift|]. apply same_bind.
  - destruct (is_multiple_of _ _); [apply same_cpu, host_rmw_context|apply same_ret].
  - intros [v|]; [apply same_ret|]. apply same_bind; [apply same_ctx, same_cpu, mem_read_context|].
    intros bs. apply same_bind; [apply same_ctx, same_cpu, mem_write_context|]. intros _. apply same_ret.
Qed.

(** The ten handlers have one shape. *)
Definition suffix_of (w : long) : string := match w with Long => "" | Long64 => "64" end.
Lemma interlocked_handler_shape op w (s : Api E) :
  let c := snapshot_thread_context (a_cpu s) in
  interlocked_handler op w s =
  (r ← interlocked (bytes_of w) (suffix_of w) (context_reg Rcx c) (signed_new op w (context_reg Rdx c) (context_reg R8 c));
   returned (i32_to_rax (match op with Increment | Decrement => r.2 | _ => r.1 end))) s.
Proof.
  intros c. destruct w, op; cbn [interlocked_handler bytes_of suffix_of];
    unfold handle_interlocked_increment, handle_interlocked_decrement, handle_interlocked_exchange,
      handle_interlocked_compare_exchange, handle_interlocked_exchange_add, handle_interlocked_increment64,
      handle_interlocked_decrement64, handle_interlocked_exchange64, handle_interlocked_compare_exchange64,
      handle_interlocked_exchange_add64;
    repeat (erewrite bind_ok by (try apply context_ok; apply arg_ok));
    unfold interlocked_i32, interlocked_i32_prev, interlocked_i64, interlocked_i64_prev, trunc_i32;
    rewrite bind_map, ?as_i32_mask; reflexivity.
Qed.

(** C25 Every Interlocked* call, through the host atomic or
    through a load and a store, replaces the word by the operation on unsigned
    integers modulo its width, leaves the rest of memory alone, and returns to
    its caller with the previous word (the new one for Increment and Decrement)
    sign-extended in RAX; no other register changes. *)
Theorem interlocked_handlers op w (s : Api E) sp ra old :
  let c := snapshot_thread_context (a_cpu s) in
  let addr := context_reg Rcx c in
  let n := Z.of_nat (bytes_of w) in
  let new := op_new op w (context_reg Rdx c) (context_reg R8 c) old in
  let value := sign_extend w (op_result op w (context_reg Rdx c) (context_reg R8 c) old) in
  call_frame (a_cpu s) sp ra → addr ≠ 0 → accessible (a_cpu s) addr n → addr + n ≤ sp ∨ sp + 8 ≤ addr →
  0 ≤ old < modulus w → holds (a_cpu s) addr (le_bytes (bytes_of w) old) →
  ∃ e', interlocked_handler op w s = (mkApi e' (a_win s), Ok (Return ra value)) ∧
    holds e' addr (le_bytes (bytes_of w) new) ∧ framed addr (addr + n) (a_cpu s) e' ∧
    snapshot_thread_context e' = returned_context value ra c.
Proof.
  intros c addr n new value Hframe Hne Hacc Hd Hold Hh. rewrite interlocked_handler_shape. cbn zeta. fold c addr.
  set (f := signed_new op w (context_reg Rdx c) (context_reg R8 c)).
  destruct (interlocked_spec (bytes_of w) (suffix_of w) addr f s _ Hne (cf_inv _ _ _ Hframe) Hacc Hh) as (e1 & Hr & Hi1 & Hnew & Hf1);
    [by rewrite length_le_bytes|].
  assert (Hval : le_val (le_bytes (bytes_of w) old) = old).
  { apply le_val_word. unfold modulus in Hold. by rewrite Z.pow_mul_r in Hold by lia. }
  rewrite Hval in Hr, Hnew. unfold f in Hr at 2, Hnew. rewrite signed_new_spec in Hr, Hnew by done. fold new in Hr, Hnew.
  erewrite bind_ok by exact Hr. cbn [fst snd].
  assert (Hctx : snapshot_thread_context e1 = c).
  { pose proof (interlocked_context (bytes_of w) (suffix_of w) addr f s) as Hsame. rewrite Hr in Hsame. exact Hsame. }
  pose proof (call_frame_framed _ _ _ _ _ _ Hframe Hi1 Hf1 Hctx) as Hframe1. specialize (Hframe1 ltac:(lia)).
  replace (i32_to_rax _) with value.
  2: { unfold value, sign_extend, i32_to_rax, op_result, new, op_result. by destruct op. }
  destruct (returned_ok (mkApi e1 (a_win s)) value sp ra Hframe1) as (e2 & Hr2 & Hu2 & Hc2).
  exists e2. split_and!; [exact Hr2| | |].
  - eapply holds_unchanged; [exact Hu2|]. cbn [a_cpu].
    replace (le_bytes (bytes_of w) new) with (le_bytes (bytes_of w) (as_i (8 * Z.of_nat (bytes_of w)) new)); [exact Hnew|].
    apply le_bytes_congr. change 256 with (2 ^ 8). rewrite <- Z.pow_mul_r by lia. apply as_i_mod. lia.
  - eapply framed_trans; [exact Hf1|by apply framed_unchanged].
  - cbn [a_cpu] in Hc2. by rewrite Hc2, Hctx.
Qed.
End Interlocked.
