(* ===== verification/k32_misc_spec.v ===== *)
(** * Every modelled KERNEL32 call keeps the Windows calling convention *)

From S2P Require Import Prelude utf path regs insn vad mem engine cpu guest_heap guest_string sync_obj thread dispatch_table win32.
From S2P Require Import k32_sync k32_thread k32_memory k32_misc k32_info k32_string k32_dispatch.

Section Convention.
Context {E : Type} `{CpuApiLaws E}.
Implicit Types (e : E).

(** ** The heap leaves the registers alone *)

Abbreviation ctx e := (snapshot_thread_context e).

Lemma heap_read_context va e : ctx (guest_heap.read_u64 va e).1 = ctx e.
Proof. unfold guest_heap.read_u64. pose proof (mem_read_context va 8 e) as Hr. by destruct (mem_read va 8 e) as [e' [b|x|w]]. Qed.
Lemma heap_write_context va v e : ctx (guest_heap.write_u64 va v e) = ctx e.
Proof. apply mem_write_context. Qed.
Lemma sync_from_context e h : ctx (sync_bump_from_guest e h).1 = ctx e.
Proof.
  unfold sync_bump_from_guest. destruct (guest_ctrl_va h) as [c|]; [|done].
  pose proof (heap_read_context c e) as Hr. by destruct (guest_heap.read_u64 c e) as [e' [b|]].
Qed.
Lemma sync_to_context e h : ctx (sync_bump_to_guest e h) = ctx e.
Proof. unfold sync_bump_to_guest. destruct (guest_ctrl_va h); [apply heap_write_context|done]. Qed.
Lemma alloc_context n e h : ctx (alloc_coherent n e h).1.1 = ctx e.
Proof.
  unfold alloc_coherent. destruct (guest_ctrl_va h) as [c|]; [|by destruct (alloc n h)].
  case_decide; [done|]. case_decide; [done|]. case_decide.
  - pose proof (heap_read_context (head_va c (size_class_index (round_up_size n))) e) as Hr.
    destruct (guest_heap.read_u64 _ e) as [e1 head]. cbn [fst] in Hr. destruct (usable_head h head) as [hd|].
    + pose proof (heap_read_context hd e1) as Hr1. destruct (guest_heap.read_u64 hd e1) as [e2 next]. cbn [fst] in *.
      by rewrite !heap_write_context, Hr1.
    + pose proof (sync_from_context e1 h) as Hs. destruct (sync_bump_from_guest e1 h) as [e2 h2]. destruct (bump_alloc _ h2) as [h3 a].
      cbn [fst] in *. case_decide; rewrite ?sync_to_context, ?heap_write_context; congruence.
  - pose proof (sync_from_context e h) as Hs. destruct (sync_bump_from_guest e h) as [e2 h2]. destruct (alloc n h2) as [h3 a].
    cbn [fst] in *. case_decide; [|done]. rewrite sync_to_context. destruct (live h3 !! a); rewrite ?heap_write_context; congruence.
Qed.
Lemma free_known_context c a n e h : ctx (free_known_block c a n e h).1.1 = ctx e.
Proof.
  unfold free_known_block. case_decide; [done|]. case_decide; cbn [fst]; [by rewrite heap_write_context|].
  pose proof (heap_read_context (head_va c (size_class_index n)) e) as Hr.
  destruct (guest_heap.read_u64 _ e) as [e1 hd]. cbn [fst] in *. by rewrite !heap_write_context, Hr.
Qed.
Lemma free_context a e h : ctx (free_coherent a e h).1.1 = ctx e.
Proof.
  unfold free_coherent. case_decide; [done|]. destruct (guest_ctrl_va h) as [c|]; [|by destruct (free a h)].
  destruct (live h !! a) as [n|]; [apply free_known_context|].
  destruct (_ && _); [|done]. pose proof (heap_read_context (header_va a) e) as Hr.
  destruct (guest_heap.read_u64 _ e) as [e1 [n|]]; cbn [fst] in *; [|done].
  case_decide; [|done]. by rewrite free_known_context, Hr.
Qed.
Lemma same_on_heap {A} (f : E → GuestHeap → E * GuestHeap * A) :
  (∀ e h, ctx (f e h).1.1 = ctx e) → same_context (on_heap f).
Proof. intros Hf s. unfold on_heap. specialize (Hf (a_cpu s) (w_heap (a_win s))). by destruct (f _ _) as [[e h] a]. Qed.

Lemma same_loop {A X} p (body : X → M (Api E) (X + A)) : (∀ x, same_context (body x)) → ∀ x, same_context (loopM p body x).
Proof.
  intros Hb x s. unfold loopM. rewrite iter_until_nat. revert x s. generalize (Pos.to_nat p) as n.
  induction n as [|n IH]; intros x s; cbn [iter_nat]; [done|]. unfold loopM_step at 1. cbn [fst snd].
  specialize (Hb x s). destruct (body x s) as [s' [[x'|a]|e|w]]; [|done..]. rewrite IH. exact Hb.
Qed.
Lemma same_pure {A} (f : Api E → A) : same_context (λ s, (s, Ok (f s))).
Proof. done. Qed.
End Convention.

(** ** The proof, by the shape of the handler *)

Create HintDb engine_calls.
#[export] Hint Unfold checked_field_address checked_address some_ctx guest_string.read_u64 read_u32 read_u16
  guest_string.write_u64 write_u32 write_u16 read_guest_u32_cs read_ansi_lossy read_ansi_bytes : engine_calls.
Create HintDb handler_calls.
#[export] Hint Unfold arg arg_for ret_u64 last_error ignore unwrap_or some_ctx read_stack_u64 read_create_file_stack_u32
  cs_field write_critical_section_unlocked try_enter_critical_section_guest leave_critical_section_guest
  interlocked interlocked_i32 interlocked_i32_prev interlocked_i64 interlocked_i64_prev
  fails worker_stack spawn_thread create_guest_thread event_call
  zero_memory old_size_of move_block heap_realloc fixed_alloc fixed_free failed_with invalid_parameter
  publish_fls_slot index_of fill write_opt answers refuses unit_at lstrlen_body copy_body copy_units find_end_body find_end
  read_utf16_units read_multibyte_bytes emit : handler_calls.

Ltac keeps_step :=
  lazymatch goal with
  | |- keeps_regs (context _ _) => apply keeps_regs_ctx
  | |- keeps_regs (lift _) => apply keeps_regs_lift
  | |- keeps_regs (mret _) => apply keeps_regs_ret
  | |- keeps_regs (mem_read _ _) => apply mem_read_context
  | |- keeps_regs (mem_write _ _) => apply mem_write_context
  | |- keeps_regs (read_reg _) => apply keeps_read_reg
  | |- keeps_regs (host_rmw _ _ _) => apply host_rmw_context
  | |- keeps_regs (virtual_alloc _ _ _ _) => apply virtual_alloc_context
  | |- keeps_regs (virtual_free _ _ _) => apply virtual_free_context
  | |- keeps_regs (virtual_protect _ _ _) => apply virtual_protect_context
  | |- keeps_regs (mem_map _ _ _) => apply mem_map_context
  | |- keeps_regs (flush_instruction_cache _ _) => apply flush_context
  | |- keeps_regs (mbind _ _) => apply keeps_regs_bind; [|intros ?]
  | |- keeps_regs (if ?d then _ else _) => destruct d
  | |- keeps_regs (match ?d with _ => _ end) => destruct d
  end.
Ltac same_step :=
  lazymatch goal with
  | |- same_context (context _ _) => apply same_ctx
  | |- same_context (lift _) => apply same_lift
  | |- same_context (mret _) => apply same_ret
  | |- same_context (win _) => apply same_win
  | |- same_context (on_win _) => apply same_on_win
  | |- same_context (on_threads _) => apply same_threads
  | |- same_context (on_sync _) => apply same_sync
  | |- same_context (on_heap (alloc_coherent _)) => apply same_on_heap, alloc_context
  | |- same_context (on_heap (free_coherent _)) => apply same_on_heap, free_context
  | |- same_context snapshot_cpu => apply same_snapshot
  | |- same_context (cpu _) => apply same_cpu
  | |- same_context (attempt _) => apply same_attempt
  | |- same_context (loopM _ _ _) => apply same_loop; intros ?
  | |- same_context (mbind _ _) => apply same_bind; [|intros ?]
  | |- same_context (if ?d then _ else _) => destruct d
  | |- same_context (match ?d with _ => _ end) => destruct d
  | |- same_context (fail _) => apply same_lift
  | |- same_context (λ _, (_, Ok _)) => apply same_pure
  end.
Ltac convention_step :=
  lazymatch goal with
  | |- convention (context _ _) => apply conv_ctx
  | |- convention (returned _) => apply conv_ret
  | |- convention (signal _) => apply conv_signal
  | |- convention (mbind _ _) => apply conv_bind; [|intros ?]
  | |- convention (if ?d then _ else _) => destruct d
  | |- convention (match ?d with _ => _ end) => destruct d
  end.
Ltac keeps := repeat first [keeps_step | progress autounfold with engine_calls].
Ltac same := repeat first [same_step | progress autounfold with handler_calls]; keeps.

Section Loops.
Context {E : Type} `{CpuApiLaws E}.

Lemma same_ansi_loop a n : ∀ i bs, keeps_regs (ansi_loop (E := E) a n i bs).
Proof. induction n as [|n IH]; intros i bs; cbn [ansi_loop]; keeps. apply IH. Qed.
Lemma same_read_handles p n : ∀ i, same_context (read_handles (E := E) p i n).
Proof. induction n as [|n IH]; intros i; cbn [read_handles]; same. apply IH. Qed.
Lemma same_wide_scan p n : ∀ i us, same_context (wide_scan (E := E) p n i us).
Proof. induction n as [|n IH]; intros i us; cbn [wide_scan]; same. apply IH. Qed.
Lemma same_wide_fixed p n : ∀ i us, same_context (wide_fixed (E := E) p n i us).
Proof. induction n as [|n IH]; intros i us; cbn [wide_fixed]; same. apply IH. Qed.
Lemma same_byte_scan p n : ∀ i us, same_context (byte_scan (E := E) p n i us).
Proof. induction n as [|n IH]; intros i us; cbn [byte_scan]; same. apply IH. Qed.
Lemma same_field_addresses b fs : same_context (field_addresses (E := E) b fs).
Proof. induction fs as [|f fs IH]; cbn [field_addresses]; same; done. Qed.
Lemma same_write_at fs : ∀ addrs, same_context (write_at (E := E) addrs fs).
Proof. induction fs as [|f fs IH]; intros [|a addrs]; cbn [write_at]; same; done. Qed.
Lemma same_write_seq p fs : same_context (write_seq (E := E) p fs).
Proof. induction fs as [|[[o n] v] fs IH]; cbn [write_seq]; same; done. Qed.
Lemma same_args rs : same_context (args (E := E) rs).
Proof. induction rs as [|r rs IH]; cbn [args foldr]; same; done. Qed.
End Loops.

Ltac call_step :=
  lazymatch goal with
  | |- keeps_regs (ansi_loop _ _ _ _) => apply same_ansi_loop
  | |- same_context (read_handles _ _ _) => apply same_read_handles
  | |- same_context (wide_scan _ _ _ _) => apply same_wide_scan
  | |- same_context (wide_fixed _ _ _ _) => apply same_wide_fixed
  | |- same_context (byte_scan _ _ _ _) => apply same_byte_scan
  | |- same_context (field_addresses _ _) => apply same_field_addresses
  | |- same_context (write_at _ _) => apply same_write_at
  | |- same_context (write_seq _ _) => apply same_write_seq
  | |- same_context (args _) => apply same_args
  end.
#[export] Hint Unfold
  handle_initialize_critical_section handle_enter_critical_section handle_leave_critical_section
  handle_delete_critical_section handle_interlocked_increment handle_interlocked_decrement handle_interlocked_exchange
  handle_interlocked_compare_exchange handle_interlocked_exchange_add handle_interlocked_increment64
  handle_interlocked_decrement64 handle_interlocked_exchange64 handle_interlocked_compare_exchange64
  handle_interlocked_exchange_add64 handle_create_thread handle_resume_thread handle_exit_thread
  handle_get_exit_code_thread handle_wait_for_single_object handle_wait_for_multiple_objects handle_create_event
  handle_set_event handle_reset_event handle_open_event handle_create_semaphore handle_release_semaphore
  handle_duplicate_handle handle_get_thread_priority handle_get_current_thread handle_tls_get_value
  handle_tls_set_value handle_tls_alloc handle_tls_free handle_heap_alloc handle_heap_free handle_heap_realloc
  handle_heap_size handle_heap_create handle_heap_set_information handle_local_alloc handle_local_free
  handle_global_alloc handle_global_free handle_global_lock handle_global_unlock handle_global_size
  handle_flush_instruction_cache handle_virtual_alloc handle_virtual_free handle_virtual_protect handle_virtual_query
  handle_fls_alloc handle_fls_free handle_fls_set_value handle_fls_get_value handle_get_last_error
  handle_set_last_error handle_get_current_process_id handle_get_current_thread_id handle_get_current_process
  handle_get_process_heap handle_get_std_handle handle_encode_pointer handle_decode_pointer
  handle_initialize_critical_section_and_spin_count handle_mul_div handle_compare_file_time handle_global_add_atom_a
  handle_global_delete_atom handle_rtl_capture_context handle_get_version handle_get_version_ex_a
  handle_get_tick_count handle_query_performance_counter handle_query_performance_frequency
  handle_get_system_time_as_file_time handle_get_local_time handle_file_time_to_local_file_time
  handle_file_time_to_system_time handle_get_time_zone_information handle_local_file_time_to_file_time
  handle_file_time_to_dos_date_time handle_dos_date_time_to_file_time handle_get_process_times
  handle_get_startup_info_a handle_global_memory_status handle_global_memory_status_ex handle_get_system_info
  handle_is_processor_feature_present handle_get_process_affinity_mask handle_get_acp handle_get_oem_cp
  handle_is_valid_code_page handle_get_cp_info handle_get_system_default_lang_id handle_get_user_default_lang_id
  handle_get_disk_free_space_ex_w handle_get_disk_free_space_w handle_get_logical_drive_strings_w
  handle_get_console_mode handle_get_console_screen_buffer_info handle_get_command_line_a handle_get_command_line_w
  handle_get_environment_strings_w handle_free_environment_strings_w handle_set_handle_count
  handle_set_unhandled_exception_filter handle_set_console_ctrl_handler handle_set_console_mode
  handle_set_file_apis_to_oem handle_get_large_page_minimum handle_set_process_affinity_mask
  handle_set_thread_affinity_mask handle_set_file_attributes_w handle_set_file_time handle_format_message_w
  handle_create_hard_link_w handle_find_first_stream_w handle_find_next_stream_w handle_device_io_control
  handle_map_view_of_file handle_unmap_view_of_file handle_open_file_mapping handle_lstrlen_w handle_lstrcpy_w
  handle_lstrcat_w handle_wide_char_to_multi_byte handle_multi_byte_to_wide_char handle_lc_map_string_w : handler_calls.
Ltac conv :=
  repeat first [convention_step | same_step | keeps_step | call_step | progress autounfold with handler_calls | progress autounfold with engine_calls].

Section Rows.
Context {E : Type} `{CpuApiLaws E}.
Context (WIE_MT WIE_MT_MAX_THREADS : option string) (values : gmap u64 nat → list nat).
Context (env : nat → list KernelObject → list KernelObject) (environment : WinApiEnvironment).

Lemma id_rows_convention : Forall (λ r, convention (E := E) r.2) (id_rows environment).
Proof. unfold id_rows. repeat apply Forall_cons_2; [..|apply Forall_nil_2]; cbn [snd]; conv. Qed.
Lemma extra_rows_convention : Forall (λ r, convention (E := E) r.2) (extra_rows WIE_MT WIE_MT_MAX_THREADS values env).
Proof. unfold extra_rows. repeat apply Forall_cons_2; [..|apply Forall_nil_2]; cbn [snd]; conv. Qed.

Lemma find_row {K} `{EqDecision K} (k : K) (rows : list (K * M (Api E) HandlerOutcome)) h :
  Forall (λ r, convention r.2) rows → snd <$> List.find (λ r, bool_decide (r.1 = k)) rows = Some h → convention h.
Proof.
  intros Hrows Hh. destruct (List.find _ rows) as [r|] eqn:Hr; cbn in Hh; [|discriminate].
  injection Hh as <-. apply List.find_some in Hr as [Hr _]. rewrite Forall_forall in Hrows. apply Hrows. by apply list_elem_of_In.
Qed.

End Rows.

(** * Fiber-local storage and its mirror in guest memory (kernel32.rs)

    FlsGetValue is also answered inside the guest, from a table of 256 words the
    host keeps up to date; the table and the host's slots agree. *)

From S2P Require Import Prelude utf regs insn vad mem engine cpu guest_string thread win32.
From S2P Require Import k32_sync k32_misc win32_spec.

Abbreviation slots := (list (u32 * u64)) (only parsing).

(** ** The slots as a map *)

Lemma slot_value_set i v (l : slots) j : slot_value j (set_slot i v l) = if decide (j = i) then v else slot_value j l.
Proof.
  unfold slot_value. induction l as [|[k w] l IH]; cbn [set_slot List.find fst snd].
  - destruct (decide (j = i)) as [->|Hne]; [by rewrite bool_decide_eq_true_2|by rewrite bool_decide_eq_false_2 by congruence].
  - destruct (decide (k = i)) as [->|Hk]; cbn [List.find fst snd].
    + destruct (decide (j = i)) as [->|Hne]; [by rewrite !bool_decide_eq_true_2 by done|by rewrite !bool_decide_eq_false_2 by congruence].
    + destruct (decide (j = k)) as [->|Hjk]; [rewrite !bool_decide_eq_true_2 by done; by rewrite decide_False|].
      rewrite !bool_decide_eq_false_2 by congruence. exact IH.
Qed.
Lemma slot_value_free i (l : slots) j :
  slot_value j (filter (λ x, x.1 ≠ i) l) = if decide (j = i) then 0 else slot_value j l.
Proof.
  unfold slot_value. induction l as [|[k w] l IH]; [by case_decide|].
  rewrite filter_cons. cbn [List.find fst]. destruct (decide (k ≠ i)) as [Hk|Hk]; cbn [List.find fst snd].
  - destruct (decide (j = k)) as [->|Hjk]; [rewrite !bool_decide_eq_true_2 by done; by rewrite decide_False|].
    rewrite !bool_decide_eq_false_2 by congruence. exact IH.
  - assert (k = i) as -> by (destruct (decide (k = i)); [done|tauto]). rewrite IH.
    destruct (decide (j = i)) as [->|Hne]; [done|by rewrite bool_decide_eq_false_2 by congruence].
Qed.
Lemma slot_value_push i v (l : slots) j :
  (∀ x, x ∈ l → x.1 ≠ i) → slot_value j (l ++ [(i, v)]) = if decide (j = i) then v else slot_value j l.
Proof.
  unfold slot_value. induction l as [|[k w] l IH]; intros Hl; cbn [app List.find fst snd].
  - destruct (decide (j = i)) as [->|Hne]; [by rewrite bool_decide_eq_true_2|by rewrite bool_decide_eq_false_2 by congruence].
  - assert (k ≠ i) by (apply (Hl (k, w)); left). destruct (decide (j = k)) as [->|Hjk].
    + rewrite !bool_decide_eq_true_2 by done. by rewrite decide_False.
    + rewrite !bool_decide_eq_false_2 by congruence. apply IH. intros x Hx. apply Hl. by right.
Qed.
Lemma slot_value_in j (l : slots) : slot_value j l = 0 ∨ (j, slot_value j l) ∈ l.
Proof.
  unfold slot_value. induction l as [|[k w] l IH]; cbn [List.find fst snd]; [by left|].
  destruct (decide (j = k)) as [->|Hjk].
  - rewrite bool_decide_eq_true_2 by done. right. left.
  - rewrite bool_decide_eq_false_2 by congruence. destruct IH as [IH|IH]; [by left|right; by right].
Qed.

Section Fls.
Context {E : Type} `{CpuApiLaws E}.
Implicit Types (s : Api E).

(** Indices handed out so far, values of 64 bits, and the table that shows them. *)
Record fls_wf (w : WinApiState) : Prop := {
  fw_slots i v : (i, v) ∈ w_fls_slots w → 0 ≤ i < w_next_fls_index w ∧ in_u64 v;
  fw_next : 0 ≤ w_next_fls_index w < u32_lim;
}.
Record mirrored (s : Api E) (table : Z) : Prop := {
  mr_table : w_guest_fls_table_va (a_win s) = table ∧ 0 < table;
  mr_acc : accessible (a_cpu s) table 2048;
  mr_word i : 0 ≤ i < 256 → holds (a_cpu s) (table + 8 * i) (le_bytes 8 (slot_value i (w_fls_slots (a_win s))));
}.

(** The host changes a slot and publishes it. *)
Lemma publish_spec s table i v l :
  mirrored s table → mem_inv (a_cpu s) → 0 ≤ i → in_u64 v →
  (∀ j, slot_value j l = if decide (j = i) then v else slot_value j (w_fls_slots (a_win s))) →
  ∀ next, ∃ e', publish_fls_slot i v (mkApi (a_cpu s) (set_fls next l (a_win s))) = (mkApi e' (set_fls next l (a_win s)), Ok tt) ∧
    mem_inv e' ∧ mirrored (mkApi e' (set_fls next l (a_win s))) table ∧ framed table (table + 2048) (a_cpu s) e' ∧
    snapshot_thread_context e' = snapshot_thread_context (a_cpu s).
Proof.
  intros [[Ht Hpos] Hacc Hw] Hi Hi0 Hv Hl next. unfold publish_fls_slot. erewrite bind_ok by reflexivity.
  cbn [a_win w_guest_fls_table_va set_fls]. rewrite Ht.
  destruct (decide (256 ≤ i)) as [Hbig|Hsmall].
  - rewrite decide_True by auto. exists (a_cpu s). split_and!; [done|done| |apply framed_refl|done].
    split; [done|done|]. intros j Hj. cbn [a_win w_fls_slots set_fls a_cpu]. rewrite Hl, decide_False by lia. by apply Hw.
  - rewrite decide_False by lia. assert (Hlim : table + 2048 < u64_lim) by apply Hacc.
    rewrite sat_mul_lt, sat_add_lt by lia.
    destruct (write_spec (a_cpu s) (table + i * 8) (le_bytes 8 v) table (table + 2048)) as (e' & Hwr & Hi' & Hacc' & Hh & Hf);
      [done|by replace (table + 2048 - table) with 2048 by lia|lia|rewrite length_le_bytes; lia|].
    rewrite length_le_bytes in Hf. exists e'. split_and!.
    + unfold ignore, attempt. unfold mbind, M_bind. erewrite (cpu_ok _ (mkApi (a_cpu s) _)) by exact Hwr. done.
    + done.
    + split; [done|by replace 2048 with (table + 2048 - table) by lia|].
      intros j Hj. cbn [a_win w_fls_slots set_fls a_cpu]. rewrite Hl. case_decide as Heq.
      * subst j. by replace (table + 8 * i) with (table + i * 8) by lia.
      * eapply holds_framed; [exact Hf|by apply Hw|rewrite length_le_bytes; lia].
    + eapply framed_weaken; [exact Hf|lia|lia].
    + pose proof (mem_write_context (table + i * 8) (le_bytes 8 v) (a_cpu s)) as Hc. by rewrite Hwr in Hc.
Qed.

Inductive fls_op := Fls_alloc | Fls_free | Fls_set | Fls_get.
Definition fls_handler (op : fls_op) : M (Api E) HandlerOutcome :=
  match op with
  | Fls_alloc => handle_fls_alloc | Fls_free => handle_fls_free | Fls_set => handle_fls_set_value | Fls_get => handle_fls_get_value
  end.
(** What a call returns, and the values after it. *)
Definition fls_result (op : fls_op) (next i : Z) (value : Z → Z) : Z :=
  match op with Fls_alloc => next | Fls_get => value i | _ => 1 end.
Definition fls_after (op : fls_op) (i v : Z) (value : Z → Z) (j : Z) : Z :=
  match op with
  | Fls_free => if decide (j = i) then 0 else value j
  | Fls_set => if decide (j = i) then v else value j
  | _ => value j
  end.
(** Free, set and get name an index that has been handed out, alloc finds one. *)
Definition fls_allowed (op : fls_op) (i : Z) (w : WinApiState) : Prop :=
  match op with Fls_alloc => w_next_fls_index w < u32_max | _ => 0 ≤ i < w_next_fls_index w end.

Lemma mirrored_unchanged s s' table :
  mirrored s table → a_win s' = a_win s → unchanged (a_cpu s) (a_cpu s') → mirrored s' table.
Proof.
  intros [Ht Hacc Hw] Hwin Hu. split; rewrite ?Hwin; [done|by eapply accessible_unchanged|].
  intros j Hj. eapply holds_unchanged; [exact Hu|by apply Hw].
Qed.

(** Change the slots, publish one, return. *)
Lemma fls_change s table sp ra i v l next r text :
  mirrored s table → call_frame (a_cpu s) sp ra → sp + 8 ≤ table ∨ table + 2048 ≤ sp → 0 ≤ i → in_u64 v →
  (∀ j, slot_value j l = if decide (j = i) then v else slot_value j (w_fls_slots (a_win s))) →
  ∃ e', (_ ← publish_fls_slot i v; ret_u64 r text) (mkApi (a_cpu s) (set_fls next l (a_win s))) =
          (mkApi e' (set_fls next l (a_win s)), Ok (Return ra r)) ∧
    mirrored (mkApi e' (set_fls next l (a_win s))) table ∧ framed table (table + 2048) (a_cpu s) e'.
Proof.
  intros Hm Hf Hd Hi Hv Hl. destruct (publish_spec s table i v l Hm (cf_inv _ _ _ Hf) Hi Hv Hl next) as (e1 & Hr1 & Hi1 & Hm1 & Hf1 & Hc1).
  erewrite bind_ok by exact Hr1.
  pose proof (call_frame_framed _ _ _ _ _ _ Hf Hi1 Hf1 Hc1 ltac:(lia)) as Hframe1.
  destruct (returned_ok (mkApi e1 (set_fls next l (a_win s))) r sp ra Hframe1) as (e2 & Hr2 & Hu2 & _).
  exists e2. split; [by apply context_ok|]. split; [by eapply mirrored_unchanged|].
  eapply framed_trans; [exact Hf1|exact (framed_unchanged _ _ _ _ Hu2)].
Qed.

Lemma set_slot_in i v (l : slots) x : x ∈ set_slot i v l → x = (i, v) ∨ x ∈ l.
Proof.
  induction l as [|[k w] l IH]; cbn [set_slot]; [intros ?%list_elem_of_singleton; by left|].
  case_decide as Hk; intros [->|Hx]%elem_of_cons.
  - left. by rewrite Hk.
  - right. by right.
  - right. by left.
  - destruct (IH Hx); [by left|right; by right].
Qed.

(** C30 The host's handlers of the FLS calls keep the table guest code reads FLS
    values from in step with the host: when table and host agree, they agree after an
    FlsAlloc, FlsFree, FlsSetValue or FlsGetValue that the host handles, on an index
    that has been handed out: every word of the table is the value of its index, the
    values have changed as the call says (and no other value), what is returned is
    the index handed out, success, or the value, and no other memory is written.
    The stubs planted in the guest for FlsGetValue and FlsSetValue do not come
    to these handlers, and the one of FlsSetValue writes the table alone: after it table and
    host differ, and nothing is claimed. *)
Theorem fls_mirror op s table sp ra :
  let c := snapshot_thread_context (a_cpu s) in
  let w := a_win s in
  let value j := slot_value j (w_fls_slots w) in
  fls_wf w → mirrored s table → call_frame (a_cpu s) sp ra → sp + 8 ≤ table ∨ table + 2048 ≤ sp →
  fls_allowed op (context_reg Rcx c) w → in_u64 (context_reg Rdx c) →
  ∃ e' w', fls_handler op s = (mkApi e' w', Ok (Return ra (fls_result op (w_next_fls_index w) (context_reg Rcx c) value))) ∧
    fls_wf w' ∧ mirrored (mkApi e' w') table ∧ framed table (table + 2048) (a_cpu s) e' ∧
    ∀ j, slot_value j (w_fls_slots w') = fls_after op (context_reg Rcx c) (context_reg Rdx c) value j.
Proof.
  intros c w value Hwf Hm Hf Hd Ha Hv. pose proof (fw_next _ Hwf) as Hnext. fold w in Hnext.
  assert (Hindex : op ≠ Fls_alloc → ∀ api, index_of (context_reg Rcx c) api s = (s, Ok (context_reg Rcx c)) ∧ 0 ≤ context_reg Rcx c).
  { intros Hop api. assert (0 ≤ context_reg Rcx c < w_next_fls_index w) as Hi by (destruct op; [by destruct Hop|exact Ha..]).
    unfold index_of. rewrite decide_True; [split; [reflexivity|lia]|]. lia. }
  destruct op; cbn [fls_handler fls_result fls_after fls_allowed] in *.
  - unfold handle_fls_alloc. erewrite bind_ok by (apply context_ok, arg_ok). erewrite bind_ok by reflexivity.
    rewrite decide_False by (fold w; lia). unfold u32_max in Ha.
    destruct (fls_change s table sp ra (w_next_fls_index w) 0 (w_fls_slots w ++ [(w_next_fls_index w, 0)]) (w_next_fls_index w + 1)
                (w_next_fls_index w) "FlsAlloc" Hm Hf Hd) as (e' & Hr & Hm' & Hf'); [lia|done| |].
    { intros j. apply slot_value_push. intros [i u] Hx Heq. cbn in Heq. subst i. apply (fw_slots _ Hwf) in Hx. lia. }
    exists e', (set_fls (w_next_fls_index w + 1) (w_fls_slots w ++ [(w_next_fls_index w, 0)]) w). split_and!; [| |done|done|].
    + etrans; [|exact Hr]. unfold mbind, M_bind. cbn [a_cpu a_win on_win].
      destruct (publish_fls_slot _ _ _) as [s' [[]|e|x]]; reflexivity.
    + split; [|cbn; lia]. cbn. intros i u [Hx|Hx%list_elem_of_singleton]%elem_of_app.
      * apply (fw_slots _ Hwf) in Hx as [??]. split; [lia|done].
      * injection Hx as -> ->. split; [lia|done].
    + intros j. cbn [w_fls_slots set_fls]. rewrite slot_value_push.
      * case_decide as Hj; [|done]. destruct (slot_value_in j (w_fls_slots w)) as [Hz|Hin]; [exact (eq_sym Hz)|].
        apply (fw_slots _ Hwf) in Hin. lia.
      * intros [i u] Hx Heq. cbn in Heq. subst i. apply (fw_slots _ Hwf) in Hx. lia.
  - unfold handle_fls_free. erewrite bind_ok by (apply context_ok, arg_ok). fold c.
    destruct (Hindex ltac:(done) "FlsFree"%string) as [Hix Hpos]. erewrite bind_ok by exact Hix.
    erewrite bind_ok by reflexivity.
    destruct (fls_change s table sp ra (context_reg Rcx c) 0 (filter (λ x, x.1 ≠ context_reg Rcx c) (w_fls_slots w)) (w_next_fls_index w)
                1 "FlsFree" Hm Hf Hd Hpos) as (e' & Hr & Hm' & Hf'); [done|apply slot_value_free|].
    exists e', (set_fls (w_next_fls_index w) (filter (λ x, x.1 ≠ context_reg Rcx c) (w_fls_slots w)) w).
    split_and!; [exact Hr| |done|done|intros j; apply slot_value_free].
    split; [|done]. cbn. intros i u [_ Hx]%list_elem_of_filter. by apply (fw_slots _ Hwf).
  - unfold handle_fls_set_value. do 2 (erewrite bind_ok by (apply context_ok, arg_ok)). fold c.
    destruct (Hindex ltac:(done) "FlsSetValue"%string) as [Hix Hpos]. erewrite bind_ok by exact Hix.
    erewrite bind_ok by reflexivity.
    destruct (fls_change s table sp ra (context_reg Rcx c) (context_reg Rdx c) (set_slot (context_reg Rcx c) (context_reg Rdx c) (w_fls_slots w))
                (w_next_fls_index w) 1 "FlsSetValue" Hm Hf Hd Hpos Hv) as (e' & Hr & Hm' & Hf'); [apply slot_value_set|].
    exists e', (set_fls (w_next_fls_index w) (set_slot (context_reg Rcx c) (context_reg Rdx c) (w_fls_slots w)) w).
    split_and!; [exact Hr| |done|done|intros j; apply slot_value_set].
    split; [|done]. cbn. intros i u [Hx|Hx]%set_slot_in; [by injection Hx as -> ->|by apply (fw_slots _ Hwf)].
  - unfold handle_fls_get_value. erewrite bind_ok by (apply context_ok, arg_ok). fold c.
    destruct (Hindex ltac:(done) "FlsGetValue"%string) as [Hix Hpos]. erewrite bind_ok by exact Hix.
    erewrite bind_ok by reflexivity.
    destruct (returned_ok s (value (context_reg Rcx c)) sp ra Hf) as (e' & Hr & Hu & _).
    exists e', w. split_and!; [by apply context_ok|done|by eapply mirrored_unchanged|by apply framed_unchanged|done].
Qed.
End Fls.

(** A value stored under an index that has not been handed out survives the
    allocation of that index on the host, while the guest's table shows zero. *)
Lemma fls_set_before_alloc : slot_value 0 (set_slot 0 7 [] ++ [(0, 0)]) = 7.
Proof. reflexivity. Qed.
(** Microsoft: MulDiv rounds to the nearest integer; here 3 * 1 / 2 is 1. *)
Lemma mul_div_truncates : mul_div 3 1 2 = 1.
Proof. reflexivity. Qed.
