(* ===== verification/k32_file.v ===== *)
(** * Open files (crates/wie-winapi/src/guest_io_host.rs, kernel32.rs)

    The calls on an open file, and the table of handles with the copies of their
    bytes that a guest helper reads without leaving the guest.  A handler works on
    the process, its files, the host's file system and its console; what the host
    does with console output is a parameter, and so is the next byte of its input. *)

From S2P Require Import Prelude utf encoding path volume pe dll_loader hostfs files.
From S2P Require Import regs insn engine cpu guest_heap guest_string sync_obj thread win32 k32_thread k32_misc k32_info.

Definition GUEST_IO_MAX_SLOTS : nat := 128.
Definition GUEST_IO_SLOT_SIZE : nat := 40.
Definition GUEST_IO_FLAG_VALID : u64 := 1.
Definition MAX_HOST_STDIN_LINE : nat := Z.to_nat (64 * 1024).
Definition FILE_BEGIN : u64 := 0.
Definition FILE_CURRENT : u64 := 1.
Definition FILE_END : u64 := 2.
Definition INVALID_SET_FILE_POINTER : u64 := 0xffffffff.

Inductive StdinByte := StdinGot (b : u8) | StdinEof | StdinError.
Class HostConsole := {
  Con : Type;
  con_read : Con → Con * StdinByte;
  con_write : u64 → list u8 → Con → Con;
}.

Record FileApi (E : Type) `{HostFs, HostConsole} := mkFileApi { fa_api : Api E; fa_world : World; fa_console : Con }.
Arguments mkFileApi {E _ _}.
Arguments fa_api {E _ _}.
Arguments fa_world {E _ _}.
Arguments fa_console {E _ _}.

Definition slot_va_at (table_va : u64) (index : nat) : option u64 :=
  checked_add table_va (Z.of_nat index * Z.of_nat GUEST_IO_SLOT_SIZE).

(** [FILE_BEGIN], [FILE_CURRENT] or [FILE_END]. *)
Definition valid_method (m : u64) : bool := bool_decide (m = FILE_BEGIN ∨ m = FILE_CURRENT ∨ m = FILE_END).
Definition i64_max : Z := 2 ^ 63 - 1.
(** [i64::saturating_add]. *)
Definition sat_add_i64 (a b : Z) : Z := Z.max (- 2 ^ 63) (Z.min i64_max (a + b)).

Section Handlers.
Context {E : Type} `{HostFs, HostConsole, CpuMem E, !CpuMap E, !CpuRegs E, !CpuApi E}.
Abbreviation FH := (M (FileApi E)).

Definition api {A} (m : M (Api E) A) : FH A :=
  zoom fa_api (λ a s, mkFileApi a (fa_world s) (fa_console s)) m.
Definition world {A} (f : World → World * A) : FH A := λ s,
  let '(w, a) := f (fa_world s) in (mkFileApi (fa_api s) w (fa_console s), Ok a).
Definition get_world {A} (f : World → A) : FH A := λ s, (s, Ok (f (fa_world s))).
Definition get_files {A} (f : FileState → A) : FH A := get_world (λ w, f (files w)).
Definition on_state (f : FileState → FileState) : FH unit := world (λ w, (on_files f w, tt)).
Definition console {A} (f : Con → Con * A) : FH A := λ s,
  let '(c, a) := f (fa_console s) in (mkFileApi (fa_api s) (fa_world s) c, Ok a).
Definition swallow (m : FH unit) : FH unit := λ s,
  match m s with
  | (s, Err _) => (s, Ok tt)
  | r => r
  end.
Definition in_guest {A} (m : M E A) : FH A := api (cpu m).
Definition set_error (e : u32) : FH unit := api (last_error e).
Definition done (v : u64) (name : string) : FH HandlerOutcome := api (ret_u64 v name).
Definition leave (v : u64) : FH HandlerOutcome := api (returned v).
(** The last error, then the value. *)
Definition finish (e : u32) (v : u64) (name : string) : FH HandlerOutcome := _ ← set_error e; done v name.
Definition refuse (e : u32) (v : u64) : FH HandlerOutcome := _ ← set_error e; leave v.
Definition reg (r : Reg) (n name : string) : FH u64 := api (arg_for r n name).
Definition check {A} (o : option A) (text : string) : FH A := api (some_ctx text o).
Definition u32_of (text : string) (v : Z) : FH u32 := check (if decide (v < u32_lim) then Some v else None) text.
Definition store32 (p : u64) (v : u32) : FH unit := if decide (p ≠ 0) then in_guest (write_u32 p v) else mret tt.
Definition store64 (p : u64) (v : u64) : FH unit := if decide (p ≠ 0) then in_guest (write_u64 p v) else mret tt.

(** ** The mirror *)

Definition put_u64 (va : u64) (value : u64) : FH unit :=
  in_guest (context "failed to write guest I/O u64" (mem_write va (le_bytes 8 value))).

(** The first slot of the table, from [index] on, that [use] accepts. *)
Fixpoint find_slot (use : u64 → bool) (table : u64) (index n : nat) : FH (option nat) :=
  match n with
  | O => mret None
  | S n =>
      match slot_va_at table index with
      | None => find_slot use table (S index) n
      | Some slot_va =>
          bytes ← in_guest (mem_read slot_va 8%nat);
          if use (le_val bytes) then mret (Some index) else find_slot use table (S index) n
      end
  end.

Definition register_open_file (handle : u64) : FH unit :=
  config ← get_files guest_io;
  file ← get_files (λ s, find_open_file s handle);
  match config, file with
  | Some cfg, Some f =>
      let size := len64 (of_bytes f) in
      if of_streaming f || bool_decide (size = 0) then mret tt
      else
        let aligned_size := Z.land (wrapping_add size 15) (u64_lim - 16) in
        data_va ← get_files guest_file_data_next;
        file_end ← check (checked_add (file_data_base cfg) (file_data_size cfg)) "guest file arena end overflow";
        match checked_add data_va (Z.max aligned_size 16) with
        | None => mret tt
        | Some new_next =>
            if decide (file_end < new_next) then mret tt
            else
              _ ← in_guest (context "failed to mirror file bytes into guest I/O arena" (mem_write data_va (of_bytes f)));
              found ← find_slot (λ existing, bool_decide (existing = 0 ∨ existing = handle)) (table_va cfg) 0 GUEST_IO_MAX_SLOTS;
              match found with
              | None => mret tt
              | Some i =>
                  match slot_va_at (table_va cfg) i with
                  | None => mret tt
                  | Some slot_va =>
                      _ ← put_u64 slot_va handle;
                      _ ← put_u64 (wrapping_add slot_va 8) data_va;
                      _ ← put_u64 (wrapping_add slot_va 16) size;
                      _ ← put_u64 (wrapping_add slot_va 24) 0;
                      _ ← put_u64 (wrapping_add slot_va 32) GUEST_IO_FLAG_VALID;
                      _ ← on_state (set_guest_file_data_next new_next);
                      on_state (on_open_file handle (set_mirror (Some data_va) (Some (Z.of_nat i))))
                  end
              end
        end
  | _, _ => mret tt
  end.

Definition unregister_open_file (handle : u64) : FH unit :=
  config ← get_files guest_io;
  match config with
  | None => mret tt
  | Some cfg =>
      found ← find_slot (λ existing, bool_decide (existing = handle)) (table_va cfg) 0 GUEST_IO_MAX_SLOTS;
      _ ← match i ← found; slot_va_at (table_va cfg) i with
          | Some slot_va => in_guest (mem_write slot_va (replicate GUEST_IO_SLOT_SIZE 0))
          | None => mret tt
          end;
      on_state (on_open_file handle (set_mirror None None))
  end.

(** The slot of an open file that has one. *)
Definition mirror_slot (handle : u64) (s : FileState) : option (OpenGuestFile * u64) :=
  f ← find_open_file s handle;
  slot_i ← of_guest_slot_index f;
  cfg ← guest_io s;
  slot_va ← slot_va_at (table_va cfg) (Z.to_nat slot_i);
  Some (f, slot_va).

Definition sync_slot_from_host (handle : u64) : FH unit :=
  slot ← get_files (mirror_slot handle);
  match slot with
  | None => mret tt
  | Some (f, slot_va) =>
      _ ← put_u64 (wrapping_add slot_va 16) (len64 (of_bytes f));
      _ ← put_u64 (wrapping_add slot_va 24) (of_cursor f);
      match of_guest_data_va f with
      | Some data_va => if decide (of_bytes f ≠ []) then in_guest (mem_write data_va (of_bytes f)) else mret tt
      | None => mret tt
      end
  end.

Definition sync_host_cursor_from_guest (handle : u64) : FH unit :=
  slot ← get_files (mirror_slot handle);
  match slot with
  | None => mret tt
  | Some (_, slot_va) =>
      bytes ← in_guest (mem_read (wrapping_add slot_va 24) 8%nat);
      on_state (on_open_file handle (set_cursor (le_val bytes)))
  end.

(** ** The console *)

Definition is_console_output_handle (handle : u64) : bool :=
  bool_decide (handle = FAKE_STDOUT_HANDLE ∨ handle = FAKE_STDERR_HANDLE).
Definition write_host_console_handle (handle : u64) (bytes : list u8) : FH unit :=
  console (λ c, (con_write handle bytes c, tt)).

(** At most [n] more bytes, up to a newline or the end; [None] is an error. *)
Fixpoint console_line (n : nat) (line : list u8) (c : Con) : Con * option (list u8) :=
  match n with
  | O => (c, Some line)
  | S n =>
      match con_read c with
      | (c, StdinError) => (c, None)
      | (c, StdinEof) => (c, Some line)
      | (c, StdinGot b) => if decide (b = 10) then (c, Some (line ++ [b])) else console_line n (line ++ [b]) c
      end
  end.
Definition read_host_console_stdin_line (c : Con) : Con * option (list u8) := console_line MAX_HOST_STDIN_LINE [] c.

(** [Ok(true)], [Ok(false)] at the end of the input, [Err(())]. *)
Definition refill_stdin_from_host : FH (option bool) :=
  line ← console read_host_console_stdin_line;
  match line with
  | None => mret None
  | Some [] => mret (Some false)
  | Some line => _ ← on_state (set_stdin line 0); mret (Some true)
  end.

(** ** CreateFile *)

Definition read_wide_string_from_cpu (address : u64) (max_units : nat) : M E (list char) :=
  if decide (address = 0) then mret []
  else
    units ← (fix go (n : nat) (index : u64) (units : list u16) : M E (list u16) :=
      match n with
      | O => mret units
      | S n =>
          offset ← some_ctx "wide string offset overflow" (checked_mul index 2);
          unit_address ← checked_address address offset "wide string read";
          unit ← read_u16 unit_address;
          if decide (unit = 0) then mret units else go n (index + 1) (units ++ [unit])
      end) max_units 0 [];
    some_ctx "wide string is not valid UTF-16" (from_utf16 units).
Definition read_ansi_string_from_cpu (address : u64) (max_len : nat) : M E (list char) := read_ansi_lossy address max_len.

(** A path argument, wide or ANSI; a null pointer is the empty string. *)
Definition path_arg (wide : bool) (ptr : u64) (max : nat) : FH str :=
  if decide (ptr = 0) then mret []
  else text ← in_guest (if wide then read_wide_string_from_cpu ptr max else read_ansi_string_from_cpu ptr max); mret (text_str text).

Definition finish_create_file (file_name : str) (creation_disposition : u64) : FH u64 :=
  opened ← world (open_or_create_guest_path file_name creation_disposition);
  return_value ← match opened with
    | inl (Handle handle) | inl (HandleCreated handle) => _ ← set_error 0; mret handle
    | inl (HandleExists handle) =>
        _ ← set_error (if decide (creation_disposition = CREATE_ALWAYS ∨ creation_disposition = OPEN_ALWAYS)
                       then ERROR_ALREADY_EXISTS else 0);
        mret handle
    | inr win_error => _ ← set_error win_error; mret INVALID_HANDLE_VALUE
    end;
  _ ← (if decide (return_value ≠ INVALID_HANDLE_VALUE) then swallow (register_open_file return_value) else mret tt);
  mret return_value.

Definition create_file (wide : bool) (name : string) : FH HandlerOutcome :=
  file_name_ptr ← reg Rcx "RCX" name; _ ← reg Rdx "RDX" name; _ ← reg R8 "R8" name; _ ← reg R9 "R9" name;
  file_name ← context ("failed to read " +:+ name +:+ " file name") (path_arg wide file_name_ptr (Z.to_nat 32768));
  creation_disposition ← api (unwrap_or OPEN_EXISTING (read_create_file_stack_u32 0x28));
  return_value ← finish_create_file file_name creation_disposition;
  done return_value name.
Definition handle_create_file_w : FH HandlerOutcome := create_file true "CreateFileW".
Definition handle_create_file_a : FH HandlerOutcome := create_file false "CreateFileA".

Definition handle_close_handle : FH HandlerOutcome :=
  handle ← reg Rcx "RCX" "CloseHandle";
  return_value ← (
    if decide (handle = 0 ∨ handle = INVALID_HANDLE_VALUE) then _ ← set_error ERROR_INVALID_HANDLE; mret 0
    else
      file ← get_files (λ s, find_open_file s handle);
      match file with
      | Some f =>
          _ ← on_state (sync_open_bytes_to_virtual (of_path f) handle);
          _ ← world (λ w, (persist_open_file_to_host handle w, tt));
          _ ← swallow (unregister_open_file handle);
          _ ← on_state (λ s, set_open_files (delete handle (open_files s)) s);
          _ ← set_error 0; mret 1
      | None =>
          _ ← api (on_sync (λ y, (close_handle handle y, tt)));
          _ ← set_error 0; mret 1
      end);
  done return_value "CloseHandle".

(** ** What is known of a file *)

Definition handle_get_file_information_by_handle : FH HandlerOutcome :=
  handle ← reg Rcx "RCX" "GetFileInformationByHandle"; info_ptr ← reg Rdx "RDX" "GetFileInformationByHandle";
  file ← get_files (λ s, find_open_file s handle);
  match file with
  | Some f =>
      if decide (info_ptr = 0) then finish ERROR_INVALID_HANDLE 0 "GetFileInformationByHandle"
      else
        file_size ← get_world (λ w, open_size (host w) f);
        _ ← api (fill info_ptr
          [word 0 "dwFileAttributes" 4 FILE_ATTRIBUTE_ARCHIVE; word 4 "ftCreationTime" 8 FIXED_SYSTEM_FILETIME;
           word 12 "ftLastAccessTime" 8 FIXED_SYSTEM_FILETIME; word 20 "ftLastWriteTime" 8 FIXED_SYSTEM_FILETIME;
           word 28 "dwVolumeSerialNumber" 4 0x1234abcd; word 32 "nFileSizeHigh" 4 (Z.shiftr file_size 32);
           word 36 "nFileSizeLow" 4 (mask32 file_size); word 40 "nNumberOfLinks" 4 1; word 44 "nFileIndexHigh" 4 0;
           word 48 "nFileIndexLow" 4 1]);
        finish 0 1 "GetFileInformationByHandle"
  | None => finish ERROR_INVALID_HANDLE 0 "GetFileInformationByHandle"
  end.

Definition handle_get_file_time : FH HandlerOutcome :=
  handle ← reg Rcx "RCX" "GetFileTime"; creation ← reg Rdx "RDX" "GetFileTime";
  last_access ← reg R8 "R8" "GetFileTime"; last_write ← reg R9 "R9" "GetFileTime";
  is_open ← get_files (λ s, is_open_file_handle s handle);
  if (is_open : bool) then
    _ ← store64 creation FIXED_SYSTEM_FILETIME; _ ← store64 last_access FIXED_SYSTEM_FILETIME;
    _ ← store64 last_write FIXED_SYSTEM_FILETIME;
    finish 0 1 "GetFileTime"
  else finish ERROR_INVALID_HANDLE 0 "GetFileTime".

Definition handle_get_file_size : FH HandlerOutcome :=
  handle ← reg Rcx "RCX" "GetFileSize"; high_ptr ← reg Rdx "RDX" "GetFileSize";
  file ← get_files (λ s, find_open_file s handle);
  match file with
  | Some f =>
      file_size ← get_world (λ w, open_size (host w) f);
      _ ← store32 high_ptr (Z.shiftr file_size 32);
      finish 0 (mask32 file_size) "GetFileSize"
  | None => finish ERROR_INVALID_HANDLE 0xffffffff "GetFileSize"
  end.
Definition handle_get_file_size_ex : FH HandlerOutcome :=
  handle ← api (arg Rcx); size_ptr ← api (arg Rdx);
  file ← get_files (λ s, find_open_file s handle);
  match file with
  | Some f =>
      file_size ← get_world (λ w, open_size (host w) f);
      _ ← store64 size_ptr file_size;
      refuse 0 1
  | None => refuse ERROR_INVALID_HANDLE 0
  end.

(** ** The file pointer *)

Definition as_i64 (v : u64) : Z := if decide (v < 2 ^ 63) then v else v - u64_lim.
Definition i64_of (v : u64) : option Z := if decide (v ≤ i64_max) then Some v else None.

Definition handle_set_file_pointer : FH HandlerOutcome :=
  handle ← reg Rcx "RCX" "SetFilePointer"; distance_low ← reg Rdx "RDX" "SetFilePointer";
  distance_high_ptr ← reg R8 "R8" "SetFilePointer"; move_method ← reg R9 "R9" "SetFilePointer";
  file ← get_files (λ s, find_open_file s handle);
  match file with
  | None => finish ERROR_INVALID_HANDLE INVALID_SET_FILE_POINTER "SetFilePointer"
  | Some f =>
      if negb (valid_method move_method) then finish ERROR_INVALID_PARAMETER INVALID_SET_FILE_POINTER "SetFilePointer"
      else
        let signed_low := as_i32 (mask32 distance_low) in
        file_size ← get_world (λ w, open_size (host w) f);
        base ← (if decide (move_method = FILE_BEGIN) then mret 0
                else if decide (move_method = FILE_CURRENT) then check (i64_of (of_cursor f)) "file cursor does not fit i64"
                else check (i64_of file_size) "file size does not fit i64");
        new_position ← check (if decide (- 2 ^ 63 ≤ base + signed_low ≤ i64_max) then Some (base + signed_low) else None)
                         "SetFilePointer result overflow";
        if decide (new_position < 0) then finish ERROR_INVALID_PARAMETER INVALID_SET_FILE_POINTER "SetFilePointer"
        else
          _ ← on_state (on_open_file handle (set_cursor new_position));
          _ ← on_state (λ s, if is_main_module_path s (of_path f) then set_executable_cursor new_position s else s);
          _ ← store32 distance_high_ptr (Z.shiftr new_position 32);
          _ ← set_error 0;
          _ ← swallow (sync_slot_from_host handle);
          done (mask32 new_position) "SetFilePointer"
  end.

Definition handle_set_file_pointer_ex : FH HandlerOutcome :=
  handle ← api (arg Rcx); distance_raw ← api (arg Rdx); move_method ← api (arg R8); new_pos_ptr ← api (arg R9);
  let distance := as_i64 distance_raw in
  file ← get_files (λ s, find_open_file s handle);
  match file with
  | None => refuse ERROR_INVALID_HANDLE 0
  | Some f =>
      if negb (valid_method move_method) then refuse ERROR_INVALID_PARAMETER 0
      else
        file_size ← get_world (λ w, open_size (host w) f);
        let base := if decide (move_method = FILE_BEGIN) then 0
                    else if decide (move_method = FILE_CURRENT) then default 0 (i64_of (of_cursor f))
                    else default 0 (i64_of file_size) in
        let new_position := sat_add_i64 base distance in
        if decide (new_position < 0) then refuse ERROR_INVALID_PARAMETER 0
        else
          _ ← on_state (on_open_file handle (set_cursor new_position));
          _ ← store64 new_pos_ptr new_position;
          refuse 0 1
  end.

(** ** ReadFile *)

Definition read_stdin (buffer_ptr bytes_to_read bytes_read_ptr : u64) : FH HandlerOutcome :=
  let available s := sat_sub (len64 (stdin_bytes s)) (stdin_cursor s) in
  let serve : FH HandlerOutcome :=
    left ← get_files available;
    let read_len := Z.min bytes_to_read left in
    _ ← (if decide (0 < read_len) then
           cursor ← get_files stdin_cursor;
           bytes ← get_files stdin_bytes;
           stop ← check (checked_add cursor read_len) "ReadFile stdin end overflow";
           let data := take (Z.to_nat read_len) (drop (Z.to_nat cursor) bytes) in
           _ ← in_guest (context "failed to write ReadFile stdin bytes" (mem_write buffer_ptr data));
           _ ← on_state (set_stdin bytes stop);
           if decide (bytes_read_ptr ≠ 0) then
             n ← u32_of "ReadFile byte count does not fit u32" read_len; in_guest (write_u32 bytes_read_ptr n)
           else mret tt
         else mret tt);
    refuse 0 1 in
  left ← get_files available;
  mode ← get_files stdin_mode;
  match mode with
  | LiveHost =>
      if decide (left = 0) then
        filled ← refill_stdin_from_host;
        match filled with
        | Some true => serve
        | Some false => refuse 0 1
        | None => refuse ERROR_READ_FAULT 0
        end
      else serve
  | InjectOnly => serve
  end.

Definition read_streaming (handle buffer_ptr requested bytes_read_ptr : u64) (f : OpenGuestFile) (host_path : str) : FH unit :=
  data ← world (on_host_fs (host_read_at host_path (of_cursor f) requested));
  let data := default [] data in
  let n := len64 data in
  _ ← in_guest (context "failed to write ReadFile stream bytes" (mem_write buffer_ptr data));
  let cursor_after := sat_add (of_cursor f) n in
  _ ← on_state (on_open_file handle (set_cursor cursor_after));
  _ ← store32 bytes_read_ptr (if decide (n < u32_lim) then n else 0);
  _ ← on_state (λ s, if is_main_module_path s (of_path f) then set_executable_cursor cursor_after s else s);
  set_error 0.

Definition read_buffered (handle buffer_ptr requested bytes_read_ptr : u64) (f : OpenGuestFile) : FH unit :=
  let available := sat_sub (len64 (of_bytes f)) (of_cursor f) in
  let read_len := Z.min requested available in
  stop ← check (checked_add (of_cursor f) read_len) "ReadFile end offset overflow";
  _ ← on_state (on_open_file handle (set_cursor stop));
  data ← check (if decide (stop ≤ len64 (of_bytes f))
                then Some (take (Z.to_nat read_len) (drop (Z.to_nat (of_cursor f)) (of_bytes f))) else None)
           "ReadFile slice out of range";
  _ ← in_guest (context "failed to write ReadFile bytes" (mem_write buffer_ptr data));
  n ← u32_of "ReadFile byte count does not fit u32" (len64 data);
  _ ← store32 bytes_read_ptr n;
  _ ← on_state (λ s, if is_main_module_path s (of_path f) then set_executable_cursor stop s else s);
  _ ← set_error 0;
  swallow (sync_slot_from_host handle).

Definition handle_read_file : FH HandlerOutcome :=
  handle ← api (arg Rcx); buffer_ptr ← api (arg Rdx); bytes_to_read ← api (arg R8); bytes_read_ptr ← api (arg R9);
  _ ← store32 bytes_read_ptr 0;
  if decide (buffer_ptr = 0) then refuse ERROR_INVALID_PARAMETER 0
  else if decide (handle = FAKE_STDIN_HANDLE) then read_stdin buffer_ptr bytes_to_read bytes_read_ptr
  else if is_console_output_handle handle then refuse ERROR_INVALID_HANDLE 0
  else
    is_open ← get_files (λ s, is_open_file_handle s handle);
    if negb is_open then refuse ERROR_INVALID_HANDLE 0
    else
      _ ← swallow (sync_host_cursor_from_guest handle);
      file ← get_files (λ s, find_open_file s handle);
      f ← check file "open file vanished during ReadFile";
      if of_streaming f then
        match of_host_path f with
        | None => refuse ERROR_INVALID_HANDLE 0
        | Some host_path => _ ← read_streaming handle buffer_ptr bytes_to_read bytes_read_ptr f host_path; leave 1
        end
      else _ ← read_buffered handle buffer_ptr bytes_to_read bytes_read_ptr f; leave 1.

(** ** WriteFile *)

Definition maybe_promote_open_file_to_streaming (handle : u64) : FH unit :=
  target ← get_files (promote_target handle);
  match target with
  | None => mret tt
  | Some (host_path, bytes) =>
      spilled ← world (λ w, on_host_fs (fs_write host_path bytes) (try_host (create_parents host_path) w));
      match spilled with
      | None => mret tt
      | Some _ => _ ← swallow (unregister_open_file handle); on_state (on_open_file handle set_streamed)
      end
  end.

Definition write_streaming (handle : u64) (f : OpenGuestFile) (data : list u8) : FH u64 :=
  host_path ← check (of_host_path f) "streaming file missing host_path";
  written ← world (on_host_fs (host_write_at host_path (of_cursor f) data));
  _ ← check written "host WriteFile";
  cursor_after ← check (checked_add (of_cursor f) (len64 data)) "WriteFile cursor overflow";
  _ ← on_state (on_open_file handle (set_cursor cursor_after));
  mret cursor_after.

(** Growing comes first: an overflow leaves nothing changed. *)
Definition write_buffered (handle : u64) (f : OpenGuestFile) (data : list u8) : FH u64 :=
  stop ← check (checked_add (of_cursor f) (len64 data)) "WriteFile end offset overflow";
  _ ← on_state (on_open_file handle (λ f, set_cursor stop (set_bytes (overwrite (Z.to_nat (of_cursor f)) data (of_bytes f)) f)));
  mret stop.

Definition write_open_file (handle : u64) (f : OpenGuestFile) (data : list u8) (bytes_written_ptr : u64) : FH HandlerOutcome :=
  cursor_after ← (if of_streaming f then write_streaming handle f data else write_buffered handle f data);
  _ ← (if of_streaming f then mret tt else maybe_promote_open_file_to_streaming handle);
  _ ← on_state (λ s, if is_main_module_path s (of_path f) then set_executable_cursor cursor_after s else s);
  n ← u32_of "WriteFile byte count does not fit u32" (len64 data);
  _ ← store32 bytes_written_ptr n;
  finish 0 1 "WriteFile".

Definition source_bytes (ptr n : u64) (text : string) : FH (list u8) :=
  if decide (0 < n) then in_guest (context text (mem_read ptr (Z.to_nat n))) else mret [].

Definition handle_write_file : FH HandlerOutcome :=
  handle ← reg Rcx "RCX" "WriteFile"; buffer_ptr ← reg Rdx "RDX" "WriteFile";
  bytes_to_write ← reg R8 "R8" "WriteFile"; bytes_written_ptr ← reg R9 "R9" "WriteFile";
  _ ← store32 bytes_written_ptr 0;
  if decide (buffer_ptr = 0) then refuse ERROR_INVALID_PARAMETER 0
  else if is_console_output_handle handle then
    data ← source_bytes buffer_ptr bytes_to_write "failed to read WriteFile console buffer";
    _ ← write_host_console_handle handle data;
    _ ← (if decide (bytes_written_ptr ≠ 0) then
           n ← u32_of "WriteFile byte count does not fit u32" bytes_to_write; in_guest (write_u32 bytes_written_ptr n)
         else mret tt);
    refuse 0 1
  else if decide (handle = FAKE_STDIN_HANDLE) then refuse ERROR_INVALID_HANDLE 0
  else
    file ← get_files (λ s, find_open_file s handle);
    match file with
    | None => finish ERROR_INVALID_HANDLE 0 "WriteFile"
    | Some f =>
        data ← source_bytes buffer_ptr bytes_to_write "failed to read WriteFile source buffer";
        write_open_file handle f data bytes_written_ptr
    end.

(** ** SetEndOfFile, FlushFileBuffers *)

Definition handle_set_end_of_file : FH HandlerOutcome :=
  handle ← api (arg Rcx);
  file ← get_files (λ s, find_open_file s handle);
  match file with
  | Some f =>
      _ ← (if of_streaming f then
             match of_host_path f with
             | Some host_path => world (λ w, (try_host (host_set_len host_path (of_cursor f)) w, tt))
             | None => mret tt
             end
           else
             _ ← on_state (on_open_file handle (λ f, set_bytes (resize_bytes (Z.to_nat (of_cursor f)) (of_bytes f)) f));
             _ ← on_state (sync_open_bytes_to_virtual (of_path f) handle);
             world (λ w, (persist_open_file_to_host handle w, tt)));
      refuse 0 1
  | None => refuse ERROR_INVALID_HANDLE 0
  end.
Definition handle_flush_file_buffers : FH HandlerOutcome :=
  handle ← api (arg Rcx);
  is_open ← get_files (λ s, is_open_file_handle s handle);
  if (is_open : bool) then _ ← world (λ w, (persist_open_file_to_host handle w, tt)); refuse 0 1
  else refuse ERROR_INVALID_HANDLE 0.
End Handlers.
