(* ===== verification/k32_path.v ===== *)
(** * Paths, directories and searches (crates/wie-winapi/src/kernel32.rs)

    The calls that take or return a path.  The wide and the ANSI form of a call
    differ in how they read and write text, and in little else. *)

From S2P Require Import Prelude utf encoding path volume pe dll_loader hostfs files.
From S2P Require Import regs insn engine cpu guest_heap guest_string sync_obj thread win32 k32_thread k32_misc k32_info k32_file.

Definition FILE_TYPE_UNKNOWN : u64 := 0.
Definition FILE_TYPE_DISK : u64 := 1.
Definition FILE_TYPE_CHAR : u64 := 2.
Definition MAX_PATH_TEXT : nat := Z.to_nat 32768.

(** [format!("{:04X}")] of a 32-bit number. *)
Definition hex_digit (n : Z) : char := if decide (n < 10) then 48 + n else 55 + n.
Definition nibbles (n : u32) : list char := (λ i, hex_digit (Z.land (Z.shiftr n (4 * i)) 15)) <$> [7; 6; 5; 4; 3; 2; 1; 0].
Fixpoint strip_zeros (extra : nat) (ds : list char) : list char :=
  match extra, ds with
  | S extra, d :: ds' => if decide (d = 48) then strip_zeros extra ds' else ds
  | _, _ => ds
  end.
Definition hex4 (n : u32) : list char := strip_zeros 4 (nibbles n).

Definition temp_name_id_u32 (id : u64) : u32 := mask32 id.

(** What a call writes of a text, and its length in the call's units. *)
Definition encoded (wide : bool) (text : list char) : list Z := if wide then encode_utf16 text else encode_acp text.
Definition encoded_bytes (wide : bool) (units : list Z) : list u8 := if wide then unit_bytes units else units.

(** [rfind('\\')] and the byte after it. *)
Definition file_component (full : str) : nat := match rfind bslash full with Some i => S i | None => 0 end.

Section Handlers.
Context {E : Type} `{HostFs, HostConsole, CpuMem E, !CpuMap E, !CpuRegs E, !CpuApi E}.
Abbreviation FH := (M (FileApi E)).

Definition text_arg (wide : bool) (ptr : u64) (max : nat) : FH (list char) :=
  if decide (ptr = 0) then mret []
  else in_guest (if wide then read_wide_string_from_cpu ptr max else read_ansi_string_from_cpu ptr max).
Definition put_text (wide : bool) (ptr : u64) (units : list Z) : FH unit :=
  if wide then in_guest (write_utf16_units ptr (units ++ [0])) else in_guest (mem_write ptr (units ++ [0])).

(** The length without the NUL, or the size that is needed. *)
Definition fill_buffer (wide : bool) (buffer_len buffer_ptr : u64) (text : list char) : FH u64 :=
  let units := encoded wide text in
  let required := len64 units + 1 in
  if decide (buffer_ptr = 0 ∨ buffer_len < required) then mret required
  else _ ← put_text wide buffer_ptr units; mret (len64 units).

(** ** The current directory *)

Definition handle_get_current_directory_w : FH HandlerOutcome :=
  buffer_length ← reg Rcx "RCX" "GetCurrentDirectoryW"; buffer_ptr ← reg Rdx "RDX" "GetCurrentDirectoryW";
  directory ← get_files current_directory_wide;
  let character_count := len64 directory in
  return_value ← (
    if decide (buffer_ptr = 0 ∨ buffer_length = 0 ∨ buffer_length ≤ character_count) then mret (character_count + 1)
    else
      _ ← in_guest (context "failed to write GetCurrentDirectoryW buffer" (mem_write buffer_ptr (unit_bytes (directory ++ [0]))));
      mret character_count);
  done return_value "GetCurrentDirectoryW".
Definition handle_get_current_directory_a : FH HandlerOutcome :=
  buffer_length ← api (arg Rcx); buffer_ptr ← api (arg Rdx);
  units ← get_files current_directory_wide;
  let bytes := encode_acp (from_utf16_lossy units) in
  let character_count := len64 bytes in
  if decide (buffer_ptr = 0 ∨ buffer_length = 0 ∨ buffer_length ≤ character_count) then leave (character_count + 1)
  else _ ← in_guest (mem_write buffer_ptr (bytes ++ [0])); leave character_count.

Definition set_current_directory_arg (wide : bool) (ptr : u64) : FH u64 :=
  directory ← path_arg wide ptr MAX_PATH_TEXT;
  result ← world (finish_set_current_directory directory);
  _ ← set_error result.2;
  mret result.1.
Definition handle_set_current_directory_w : FH HandlerOutcome :=
  ptr ← reg Rcx "RCX" "SetCurrentDirectoryW";
  v ← context "failed to read SetCurrentDirectoryW path" (set_current_directory_arg true ptr);
  done v "SetCurrentDirectoryW".
Definition handle_set_current_directory_a : FH HandlerOutcome :=
  ptr ← api (arg Rcx); v ← set_current_directory_arg false ptr; leave v.

(** ** Full names *)

Definition handle_get_full_path_name_w : FH HandlerOutcome :=
  input_path_ptr ← reg Rcx "RCX" "GetFullPathNameW"; buffer_characters ← reg Rdx "RDX" "GetFullPathNameW";
  output_buffer_ptr ← reg R8 "R8" "GetFullPathNameW"; file_part_ptr_ptr ← reg R9 "R9" "GetFullPathNameW";
  if decide (input_path_ptr = 0) then finish ERROR_INVALID_PARAMETER 0 "GetFullPathNameW"
  else
    input_path ← in_guest (context "failed to read GetFullPathNameW input path" (read_utf16_lossy input_path_ptr MAX_PATH_TEXT));
    if decide (input_path = []) then finish ERROR_INVALID_PARAMETER 0 "GetFullPathNameW"
    else
      full ← get_files (λ s, full_path s (text_str input_path));
      let units := encode_utf16 (str_text full) in
      let required_with_null := len64 units + 1 in
      if decide (output_buffer_ptr = 0 ∨ buffer_characters < required_with_null) then
        _ ← store64 file_part_ptr_ptr 0;
        finish 0 required_with_null "GetFullPathNameW"
      else
        _ ← in_guest (write_utf16_units output_buffer_ptr (units ++ [0]));
        _ ← (if decide (file_part_ptr_ptr ≠ 0) then
               let prefix_units := len64 (encode_utf16 (str_text (take (file_component full) full))) in
               file_part_ptr ← check (checked_add output_buffer_ptr (prefix_units * 2)) "GetFullPathNameW file-part pointer overflow";
               in_guest (write_u64 file_part_ptr_ptr file_part_ptr)
             else mret tt);
        finish 0 (len64 units) "GetFullPathNameW".
Definition handle_get_full_path_name_a : FH HandlerOutcome :=
  input_path_ptr ← api (arg Rcx); buffer_characters ← api (arg Rdx);
  output_buffer_ptr ← api (arg R8); file_part_ptr_ptr ← api (arg R9);
  if decide (input_path_ptr = 0) then refuse ERROR_INVALID_PARAMETER 0
  else
    input_path ← in_guest (read_ansi_string_from_cpu input_path_ptr MAX_PATH_TEXT);
    if decide (input_path = []) then refuse ERROR_INVALID_PARAMETER 0
    else
      full ← get_files (λ s, full_path s (text_str input_path));
      let bytes := encode_acp (str_text full) in
      let required_with_null := len64 bytes + 1 in
      if decide (output_buffer_ptr = 0 ∨ buffer_characters < required_with_null) then
        _ ← store64 file_part_ptr_ptr 0;
        refuse 0 required_with_null
      else
        _ ← in_guest (mem_write output_buffer_ptr (bytes ++ [0]));
        _ ← store64 file_part_ptr_ptr (sat_add output_buffer_ptr (Z.of_nat (file_component full)));
        refuse 0 (len64 bytes).

(** ** Directories, deletion, renaming *)

(** A call on one path: what it returns, and the last error it leaves. *)
Definition on_path (wide : bool) (f : str → World → World * (u64 * u32)) : FH HandlerOutcome :=
  path_ptr ← api (arg Rcx);
  path ← path_arg wide path_ptr MAX_PATH_TEXT;
  result ← world (f path);
  refuse result.2 result.1.
Definition handle_create_directory_w : FH HandlerOutcome := on_path true finish_create_directory.
Definition handle_create_directory_a : FH HandlerOutcome := on_path false finish_create_directory.
Definition handle_delete_file_w : FH HandlerOutcome := on_path true finish_delete_file.
Definition handle_delete_file_a : FH HandlerOutcome := on_path false finish_delete_file.
Definition handle_remove_directory_w : FH HandlerOutcome := on_path true finish_remove_directory.
Definition handle_remove_directory_a : FH HandlerOutcome := on_path false finish_remove_directory.

Definition move_file (wide : bool) : FH HandlerOutcome :=
  from_ptr ← api (arg Rcx); to_ptr ← api (arg Rdx);
  src ← path_arg wide from_ptr MAX_PATH_TEXT;
  dst ← path_arg wide to_ptr MAX_PATH_TEXT;
  result ← world (finish_move_file src dst);
  refuse result.2 result.1.
Definition handle_move_file_w : FH HandlerOutcome := move_file true.
Definition handle_move_file_a : FH HandlerOutcome := move_file false.
Definition handle_move_file_with_progress_w : FH HandlerOutcome := handle_move_file_w.

(** ** Temporary names *)

Definition temp_path : str := trim_end_bslash GUEST_TEMP_PATH ++ [bslash].
Definition get_temp_path (wide : bool) : FH HandlerOutcome :=
  buffer_len ← api (arg Rcx); buffer_ptr ← api (arg Rdx);
  v ← fill_buffer wide buffer_len buffer_ptr (str_text temp_path);
  refuse 0 v.
Definition handle_get_temp_path_w : FH HandlerOutcome := get_temp_path true.
Definition handle_get_temp_path_a : FH HandlerOutcome := get_temp_path false.

Definition get_temp_file_name (wide : bool) : FH HandlerOutcome :=
  path_ptr ← api (arg Rcx); prefix_ptr ← api (arg Rdx); unique ← api (arg R8); buffer_ptr ← api (arg R9);
  path ← (if decide (path_ptr = 0) then mret GUEST_TEMP_PATH else path_arg wide path_ptr MAX_PATH_TEXT);
  prefix ← (if decide (prefix_ptr = 0) then mret (str_text #"WIE") else text_arg wide prefix_ptr 16);
  id ← (if decide (unique = 0) then
          _ ← on_state (λ s, set_tick_count (wrapping_add (tick_count s) 1) s); get_files tick_count
        else mret unique);
  let id_u32 := temp_name_id_u32 id in
  let name := trim_end_bslash path ++ [bslash] ++ text_str (take 3 prefix ++ hex4 id_u32) ++ #".tmp" in
  _ ← world (λ w, (finish_create_file_create_only name w, tt));
  _ ← (if decide (buffer_ptr ≠ 0) then put_text wide buffer_ptr (encoded wide (str_text name)) else mret tt);
  refuse 0 (Z.max id_u32 1).
Definition handle_get_temp_file_name_w : FH HandlerOutcome := get_temp_file_name true.
Definition handle_get_temp_file_name_a : FH HandlerOutcome := get_temp_file_name false.

(** ** Drives and fixed directories *)

Definition drive_type (wide : bool) : FH HandlerOutcome :=
  path_ptr ← api (arg Rcx);
  path ← path_arg wide path_ptr 16;
  v ← get_files (λ s, get_drive_type (volumes s) path);
  leave v.
Definition handle_get_drive_type_w : FH HandlerOutcome := drive_type true.
Definition handle_get_drive_type_a : FH HandlerOutcome := drive_type false.
Definition handle_get_logical_drives : FH HandlerOutcome := v ← get_files (λ s, logical_drives_mask (volumes s)); leave v.

Definition write_fixed_dir (wide : bool) (dir : str) : FH HandlerOutcome :=
  buffer_len ← api (arg Rcx); buffer_ptr ← api (arg Rdx);
  v ← fill_buffer wide buffer_len buffer_ptr (str_text dir);
  leave v.
Definition handle_get_system_directory_w : FH HandlerOutcome := write_fixed_dir true GUEST_SYSTEM_DIR.
Definition handle_get_system_directory_a : FH HandlerOutcome := write_fixed_dir false GUEST_SYSTEM_DIR.
Definition handle_get_windows_directory_w : FH HandlerOutcome := write_fixed_dir true GUEST_WINDOWS_DIR.
Definition handle_get_windows_directory_a : FH HandlerOutcome := write_fixed_dir false GUEST_WINDOWS_DIR.

Definition handle_get_file_type : FH HandlerOutcome :=
  handle ← reg Rcx "RCX" "GetFileType";
  is_open ← get_files (λ s, is_open_file_handle s handle);
  done (if decide (handle = FAKE_STDIN_HANDLE ∨ handle = FAKE_STDOUT_HANDLE ∨ handle = FAKE_STDERR_HANDLE) then FILE_TYPE_CHAR
        else if (is_open : bool) then FILE_TYPE_DISK else FILE_TYPE_UNKNOWN) "GetFileType".

(** ** Attributes *)

Definition file_attributes (wide : bool) (name : string) : FH HandlerOutcome :=
  path_ptr ← reg Rcx "RCX" name;
  path ← path_arg wide path_ptr 1024;
  attributes ← get_world (λ w, file_attributes_for_path w (full_path (files w) path));
  finish (if decide (attributes = INVALID_FILE_ATTRIBUTES) then ERROR_FILE_NOT_FOUND else 0) attributes name.
Definition handle_get_file_attributes_a : FH HandlerOutcome := file_attributes false "GetFileAttributesA".
Definition handle_get_file_attributes_w : FH HandlerOutcome := file_attributes true "GetFileAttributesW".

(** ** Searches *)

Definition write_find_data_common (p : u64) (attributes : u32) (file_size : u64) : FH unit :=
  if decide (p = 0) then mret tt
  else api (fill p
    [word 0 "WIN32_FIND_DATA.dwFileAttributes" 4 attributes; word 4 "WIN32_FIND_DATA.ftCreationTime" 8 FIXED_SYSTEM_FILETIME;
     word 12 "WIN32_FIND_DATA.ftLastAccessTime" 8 FIXED_SYSTEM_FILETIME;
     word 20 "WIN32_FIND_DATA.ftLastWriteTime" 8 FIXED_SYSTEM_FILETIME;
     word 28 "WIN32_FIND_DATA.nFileSizeHigh" 4 (Z.shiftr file_size 32);
     word 32 "WIN32_FIND_DATA.nFileSizeLow" 4 (mask32 file_size);
     word 36 "WIN32_FIND_DATA.dwReserved0" 4 0; word 40 "WIN32_FIND_DATA.dwReserved1" 4 0]).
Definition write_find_data_w (p : u64) (e : DirEntry) : FH unit :=
  _ ← write_find_data_common p (de_attributes e) (de_size e);
  if decide (p = 0) then mret tt
  else
    name ← in_guest (checked_field_address p 44 "WIN32_FIND_DATAW.cFileName");
    alt ← in_guest (checked_field_address p 564 "WIN32_FIND_DATAW.cAlternateFileName");
    _ ← in_guest (context "failed to write WIN32_FIND_DATAW.cFileName"
          (mem_write name (unit_bytes (encode_utf16 (str_text (de_name e)) ++ [0]))));
    in_guest (write_u16 alt 0).
Definition write_find_data_a (p : u64) (e : DirEntry) : FH unit :=
  _ ← write_find_data_common p (de_attributes e) (de_size e);
  if decide (p = 0) then mret tt
  else
    name ← in_guest (checked_field_address p 44 "WIN32_FIND_DATAA.cFileName");
    alt ← in_guest (checked_field_address p 304 "WIN32_FIND_DATAA.cAlternateFileName");
    _ ← in_guest (context "failed to write WIN32_FIND_DATAA.cFileName"
          (mem_write name (encode_acp (str_text (de_name e)) ++ [0])));
    in_guest (context "failed to write WIN32_FIND_DATAA.cAlternateFileName" (mem_write alt [0])).
Definition write_find_data (unicode : bool) (p : u64) (e : DirEntry) : FH unit :=
  if unicode then write_find_data_w p e else write_find_data_a p e.

Definition finish_find_first (pattern : str) (find_data_ptr : u64) (unicode : bool) : FH u64 :=
  if decide (trim pattern = []) then _ ← set_error ERROR_FILE_NOT_FOUND; mret INVALID_HANDLE_VALUE
  else
    full_pattern ← get_files (λ s, full_path s pattern);
    entries ← get_world (λ w, collect_find_entries w full_pattern);
    match entries with
    | [] => _ ← set_error ERROR_FILE_NOT_FOUND; mret INVALID_HANDLE_VALUE
    | first :: entries =>
        _ ← write_find_data unicode find_data_ptr first;
        handle ← get_files next_find_handle;
        next ← check (checked_add handle 1) "find handle overflow";
        _ ← on_state (λ s, set_find_handles (find_handles s ++ [mkFind handle full_pattern entries]) (set_next_find_handle next s));
        _ ← set_error 0;
        mret handle
    end.
Definition find_first (unicode : bool) (name : string) : FH HandlerOutcome :=
  pattern_ptr ← reg Rcx "RCX" name; find_data_ptr ← reg Rdx "RDX" name;
  pattern ← path_arg unicode pattern_ptr 1024;
  v ← finish_find_first pattern find_data_ptr unicode;
  done v name.
Definition handle_find_first_file_w : FH HandlerOutcome := find_first true "FindFirstFileW".
Definition handle_find_first_file_a : FH HandlerOutcome := find_first false "FindFirstFileA".

(** The search with a handle: its place in the list. *)
Definition find_search (handle : u64) (s : FileState) : option (nat * FindHandle) :=
  list_find (λ h, fh_handle h = handle) (find_handles s).
Definition finish_find_next (find_handle find_data_ptr : u64) (unicode : bool) : FH u64 :=
  slot ← get_files (find_search find_handle);
  match slot with
  | None => _ ← set_error ERROR_INVALID_HANDLE; mret 0
  | Some (i, h) =>
      match fh_remaining h with
      | [] => _ ← set_error ERROR_NO_MORE_FILES; mret 0
      | next :: remaining =>
          _ ← on_state (λ s, set_find_handles (<[i := mkFind (fh_handle h) (fh_pattern h) remaining]> (find_handles s)) s);
          _ ← write_find_data unicode find_data_ptr next;
          _ ← set_error 0;
          mret 1
      end
  end.
Definition find_next (unicode : bool) (name : string) : FH HandlerOutcome :=
  find_handle ← reg Rcx "RCX" name; find_data_ptr ← reg Rdx "RDX" name;
  v ← finish_find_next find_handle find_data_ptr unicode;
  done v name.
Definition handle_find_next_file_w : FH HandlerOutcome := find_next true "FindNextFileW".
Definition handle_find_next_file_a : FH HandlerOutcome := find_next false "FindNextFileA".
Definition handle_find_close : FH HandlerOutcome :=
  find_handle ← reg Rcx "RCX" "FindClose";
  _ ← on_state (λ s, set_find_handles (List.filter (λ h, negb (bool_decide (fh_handle h = find_handle))) (find_handles s)) s);
  done 1 "FindClose".
End Handlers.
