(* ===== verification/file_spec.v ===== *)
(** * Open files against their specification

    An open file is a string of bytes and a position, whichever way the process
    keeps it: in memory, in a host file, or moved from one to the other when it
    grows.  ReadFile and WriteFile are the read and the write of that file; opening
    and closing keep what was written. *)

From S2P Require Import Prelude utf path volume pe dll_loader hostfs files.
From S2P Require Import regs insn engine cpu guest_heap guest_string dll_spec sync_obj thread win32 win32_spec.
From S2P Require Import k32_thread k32_misc k32_info k32_file k32_path.

(** ** Bytes *)

Lemma length_overwrite off data bs : length (overwrite off data bs) = Nat.max (length bs) (off + length data).
Proof. unfold overwrite. rewrite !length_app, length_take, length_drop, !length_app, length_replicate. lia. Qed.
(** What was written reads back, and the rest is as before; a gap reads as zeros. *)
Lemma lookup_overwrite off data bs i : (i < Nat.max (length bs) (off + length data))%nat →
  overwrite off data bs !! i =
  if decide (off ≤ i < off + length data)%nat then data !! (i - off)%nat else Some (default 0 (bs !! i)).
Proof.
  intros Hi. unfold overwrite. set (pad := replicate _ 0).
  assert (Hl : length (bs ++ pad) = Nat.max (length bs) (off + length data)).
  { unfold pad. rewrite length_app, length_replicate. lia. }
  assert (Hb : (bs ++ pad) !! i = Some (default 0 (bs !! i))).
  { destruct (decide (i < length bs)%nat) as [Hlt|Hge].
    - rewrite lookup_app_l by done. destruct (lookup_lt_is_Some_2 bs i Hlt) as [b ->]. done.
    - rewrite lookup_app_r, (lookup_ge_None_2 bs) by lia. unfold pad. apply lookup_replicate_2. lia. }
  destruct (decide (i < off)%nat) as [Hlo|Hlo].
  - rewrite decide_False, lookup_app_l, lookup_take_lt by (rewrite ?length_take; lia). exact Hb.
  - rewrite lookup_app_r by (rewrite length_take; lia). rewrite length_take, Nat.min_l by lia.
    destruct (decide (i < off + length data)%nat) as [Hm|Hm].
    + rewrite decide_True, lookup_app_l by lia. done.
    + rewrite decide_False, lookup_app_r, lookup_drop by lia. rewrite <- Hb. f_equal. lia.
Qed.
Lemma overwrite_nil off bs : (off ≤ length bs)%nat → overwrite off [] bs = bs.
Proof.
  intros Hoff. unfold overwrite. cbn [length]. rewrite Nat.add_0_r, (proj2 (Nat.sub_0_le _ _) Hoff).
  cbn [replicate]. rewrite app_nil_r, app_nil_l. apply take_drop.
Qed.
(** Reading the bytes back from where they were written. *)
Lemma overwrite_readback off data bs : take (length data) (drop off (overwrite off data bs)) = data.
Proof.
  unfold overwrite. rewrite drop_app_length'.
  - by rewrite take_app_length.
  - rewrite length_take, length_app, length_replicate. lia.
Qed.

(** ** Steps of the file calls *)

Lemma bind_assoc {S A B C} (m : M S A) (f : A → M S B) (g : B → M S C) s : ((m ≫= f) ≫= g) s = (m ≫= λ a, f a ≫= g) s.
Proof. unfold mbind, M_bind. by destruct (m s) as [s' [a|e|x]]. Qed.
Lemma bind_ext {S A B} (m : M S A) (f g : A → M S B) s : (∀ a s, f a s = g a s) → (m ≫= f) s = (m ≫= g) s.
Proof. intros Hfg. unfold mbind, M_bind. destruct (m s) as [s' [a|e|x]]; [apply Hfg|done..]. Qed.

Section Steps.
Context {E : Type} `{HostFs, HostConsole, CpuApiLaws E}.
Implicit Types (s : FileApi E).

Definition cpu_of s : E := a_cpu (fa_api s).
Definition with_cpu (e : E) s : FileApi E := mkFileApi (mkApi e (a_win (fa_api s))) (fa_world s) (fa_console s).
Definition with_world (w : World) s : FileApi E := mkFileApi (fa_api s) w (fa_console s).
Definition with_error (e : u32) s : FileApi E :=
  mkFileApi (mkApi (a_cpu (fa_api s)) (set_last_error e (a_win (fa_api s)))) (fa_world s) (fa_console s).

Lemma with_cpu_id s : with_cpu (cpu_of s) s = s.
Proof. by destruct s as [[? ?] ? ?]. Qed.
Lemma with_world_id s : with_world (fa_world s) s = s.
Proof. by destruct s. Qed.

Lemma api_ok {A} (m : M (Api E) A) s a x : m (fa_api s) = (a, Ok x) → api m s = (mkFileApi a (fa_world s) (fa_console s), Ok x).
Proof. intros Hm. unfold api, zoom. by rewrite Hm. Qed.
Lemma in_guest_ok {A} (m : M E A) s e x : m (cpu_of s) = (e, Ok x) → in_guest m s = (with_cpu e s, Ok x).
Proof. intros Hm. unfold in_guest. erewrite api_ok; [reflexivity|]. by apply cpu_ok. Qed.
Lemma reg_ok r n name s : reg r n name s = (s, Ok (context_reg r (snapshot_thread_context (cpu_of s)))).
Proof. unfold reg. erewrite api_ok by (unfold arg_for; apply context_ok, cpu_ok, read_reg_context). by destruct s as [[? ?] ? ?]. Qed.
Lemma arg_step r s : api (arg r) s = (s, Ok (context_reg r (snapshot_thread_context (cpu_of s)))).
Proof. erewrite api_ok by apply arg_ok. by destruct s. Qed.
Lemma set_error_ok e s : set_error e s = (with_error e s, Ok tt).
Proof. by destruct s as [[? ?] ? ?]. Qed.
Lemma get_files_ok {A} (f : FileState → A) s : get_files f s = (s, Ok (f (files (fa_world s)))).
Proof. done. Qed.
Lemma on_state_ok f s : on_state f s = (with_world (on_files f (fa_world s)) s, Ok tt).
Proof. done. Qed.
Lemma check_some {A} (o : option A) text a s : o = Some a → check o text s = (s, Ok a).
Proof. intros ->. by destruct s. Qed.
Lemma swallow_ok m s s' : m s = (s', Ok tt) → swallow m s = (s', Ok tt).
Proof. intros Hm. unfold swallow. by rewrite Hm. Qed.

(** Storing a word the caller may have asked for. *)
Lemma store32_ok p v s : mem_inv (cpu_of s) → 0 ≤ v < u32_lim → p = 0 ∨ accessible (cpu_of s) p 4 →
  ∃ e', store32 p v s = (with_cpu e' s, Ok tt) ∧ mem_inv e' ∧ framed p (p + 4) (cpu_of s) e' ∧
    snapshot_thread_context e' = snapshot_thread_context (cpu_of s) ∧ (p ≠ 0 → holds e' p (le_bytes 4 v)) ∧
    (p = 0 → e' = cpu_of s).
Proof.
  intros Hi Hv Hp. unfold store32. destruct (decide (p ≠ 0)) as [Hne|Hz%dec_stable].
  2: { exists (cpu_of s). rewrite with_cpu_id. by split_and!. }
  destruct Hp as [->|Hacc]; [done|].
  destruct (write_spec (cpu_of s) p (le_bytes 4 v) p (p + 4) Hi) as (e' & Hw & Hi' & _ & Hh & Hf);
    [by replace (p + 4 - p) with 4 by lia|lia|rewrite length_le_bytes; lia|].
  exists e'. rewrite length_le_bytes in Hf. split_and!; [|done|done| |done|done].
  - apply in_guest_ok. unfold write_u32. by apply context_ok.
  - pose proof (mem_write_context p (le_bytes 4 v) (cpu_of s)) as Hc. by rewrite Hw in Hc.
Qed.

Lemma store32_world p v w s : store32 p v (with_world w s) = (with_world w (store32 p v s).1, (store32 p v s).2).
Proof.
  unfold store32. destruct (decide (p ≠ 0)); [|done]. unfold in_guest, api, zoom. cbn [fa_api with_world].
  by destruct (cpu _ (fa_api s)).
Qed.

(** Leaving with a value and a last error. *)
Lemma leave_ok v s sp ra : call_frame (cpu_of s) sp ra →
  ∃ e', leave v s = (with_cpu e' s, Ok (Return ra v)) ∧ unchanged (cpu_of s) e'.
Proof.
  intros Hf. destruct (returned_ok (fa_api s) v sp ra Hf) as (e' & Hr & Hu & _). exists e'. split; [|done].
  unfold leave. by erewrite api_ok by exact Hr.
Qed.
Lemma done_ok v name s sp ra : call_frame (cpu_of s) sp ra →
  ∃ e', done v name s = (with_cpu e' s, Ok (Return ra v)) ∧ unchanged (cpu_of s) e'.
Proof.
  intros Hf. destruct (returned_ok (fa_api s) v sp ra Hf) as (e' & Hr & Hu & _). exists e'. split; [|done].
  unfold done, ret_u64. by erewrite api_ok by (apply context_ok; exact Hr).
Qed.

(** *** Memory kept outside a set of addresses *)

Record kept (P : Z → Prop) (e e' : E) : Prop := {
  kp_inv : mem_inv e';
  kp_ctx : snapshot_thread_context e' = snapshot_thread_context e;
  kp_rw : ∀ x, mem_rw e' x ↔ mem_rw e x;
  kp_out : ∀ x, ¬ P x → mem_get e' x = mem_get e x;
}.
Lemma kept_refl P e : mem_inv e → kept P e e.
Proof. by split. Qed.
Lemma kept_trans P e1 e2 e3 : kept P e1 e2 → kept P e2 e3 → kept P e1 e3.
Proof.
  intros [_ Hc Hr Ho] [Hi' Hc' Hr' Ho']. split; [done|congruence|intros x; by rewrite Hr', Hr|]. intros x Hx. by rewrite Ho', Ho.
Qed.
Lemma kept_weaken (P Q : Z → Prop) e e' : kept P e e' → (∀ x, P x → Q x) → kept Q e e'.
Proof. intros [Hi Hc Hr Ho] Hpq. split; [done..|]. intros x Hx. apply Ho. auto. Qed.
Lemma kept_unchanged P e e' : unchanged e e' → snapshot_thread_context e' = snapshot_thread_context e → kept P e e'.
Proof. intros [Hi Hg Hr] Hc. split; [done..|]. intros x _. by rewrite Hg. Qed.
Lemma accessible_kept P e e' a n : kept P e e' → accessible e a n → accessible e' a n.
Proof. intros [_ _ Hr _] (? & ? & Hx). split_and!; [done|done|]. intros x Hxx. apply Hr. by apply Hx. Qed.
Lemma holds_kept P e e' a bs : kept P e e' → holds e a bs → (∀ x, P x → ¬ (a ≤ x < a + len64 bs)) → holds e' a bs.
Proof.
  intros [_ _ _ Ho] Hh Hd i b Hb. apply lookup_lt_Some in Hb as Hi. rewrite Ho; [by apply Hh|].
  intros HP. apply (Hd _ HP). unfold len64. lia.
Qed.
Lemma call_frame_kept P e e' sp ra : call_frame e sp ra → kept P e e' → (∀ x, P x → ¬ (sp ≤ x < sp + 8)) → call_frame e' sp ra.
Proof.
  intros [Hi Hrsp Hacc Hra Hu] Hk Hd. split; [apply Hk|by rewrite (kp_ctx _ _ _ Hk)|by eapply accessible_kept| |done].
  eapply holds_kept; [exact Hk|done|]. intros x Hx. unfold len64. rewrite length_le_bytes. by apply Hd.
Qed.

(** A write inside the set. *)
Lemma write_kept (P : Z → Prop) s a bs : mem_inv (cpu_of s) → accessible (cpu_of s) a (len64 bs) →
  (∀ x, a ≤ x < a + len64 bs → P x) →
  ∃ e', mem_write a bs (cpu_of s) = (e', Ok tt) ∧ kept P (cpu_of s) e' ∧ holds e' a bs.
Proof.
  intros Hi Hacc HP. destruct (write_spec (cpu_of s) a bs a (a + len64 bs) Hi) as (e' & Hw & Hi' & _ & Hh & Hf);
    [by replace (a + len64 bs - a) with (len64 bs) by lia|lia|unfold len64; lia|].
  exists e'. split; [done|]. split; [|done]. pose proof (mem_write_context a bs (cpu_of s)) as Hc. rewrite Hw in Hc.
  split; [done|done|apply Hf|]. intros x Hx. apply (fr_out _ _ _ _ Hf). unfold len64 in HP. auto.
Qed.
End Steps.

(** ** An open file *)

Section OpenFiles.
Context {E : Type} `{HostFs, HostConsole, CpuApiLaws E, !HostFsLaws}.
Implicit Types (s : FileApi E) (w : World).

(** The bytes of an open file, wherever they are, and its position. *)
Definition file_content w (f : OpenGuestFile) : option (list u8) :=
  if of_streaming f then p ← of_host_path f; content (host w) p else Some (of_bytes f).
Definition file_view w (handle : u64) : option (list u8 * u64) :=
  f ← find_open_file (files w) handle; bs ← file_content w f; Some (bs, of_cursor f).
(** Only the file [handle], and the host file [p] behind it, may have changed. *)
Record others (handle : u64) (p : option str) w w' : Prop := {
  oth_files : ∀ h, h ≠ handle → find_open_file (files w') h = find_open_file (files w) h;
  oth_host : ∀ q, Some q ≠ p → content (host w') q = content (host w) q;
  oth_virtual : virtual_files (files w') = virtual_files (files w);
}.

Lemma others_refl h p w : others h p w w.
Proof. done. Qed.
Lemma others_trans h p w1 w2 w3 : others h p w1 w2 → others h p w2 w3 → others h p w1 w3.
Proof.
  intros [Hf Hh Hv] [Hf' Hh' Hv']. split; [|intros q Hq; by rewrite Hh', Hh|by rewrite Hv'].
  intros h' Hne. by rewrite Hf', Hf.
Qed.
Lemma others_on_open h p f w : others h p w (on_files (on_open_file h f) w).
Proof.
  split; [|done..]. intros h' Hne. unfold find_open_file, on_open_file. cbn. by apply lookup_alter_ne.
Qed.
Lemma find_on_open h f w g : find_open_file (files w) h = Some g →
  find_open_file (files (on_files (on_open_file h f) w)) h = Some (f g).
Proof. intros Hf. unfold find_open_file, on_open_file in *. cbn. by rewrite lookup_alter_eq, Hf. Qed.
Lemma others_executable h p w path x :
  others h p w (on_files (λ y, if is_main_module_path y path then set_executable_cursor x y else y) w).
Proof. split; cbn; by destruct (is_main_module_path (files w) path). Qed.
Lemma find_executable w path x h :
  find_open_file (files (on_files (λ y, if is_main_module_path y path then set_executable_cursor x y else y) w)) h =
  find_open_file (files w) h.
Proof. unfold find_open_file. cbn. by destruct (is_main_module_path _ _). Qed.
Lemma view_executable w path x h :
  file_view (on_files (λ y, if is_main_module_path y path then set_executable_cursor x y else y) w) h = file_view w h.
Proof. unfold file_view. rewrite find_executable. by destruct (find_open_file _ _). Qed.

(** *** The host's side *)

Lemma host_write_spec p off data (s s' : Fs) r : host_write_at p off data s = (s', r) →
  (∀ q, q ≠ p → content s' q = content s q) ∧
  (r = Some tt → ∀ c, content s p = Some c → data ≠ [] → content s' p = Some (overwrite (Z.to_nat off) data c)).
Proof.
  unfold host_write_at, io_bind. destruct (fs_open WriteOrCreate p s) as [s1 [f|]] eqn:Eo.
  2: { intros [= <- <-]. split; [|done]. intros q Hq. pose proof (open_frame WriteOrCreate p s q Hq) as Hf. by rewrite Eo in Hf. }
  intros Hw. pose proof (open_named _ _ _ _ _ Eo) as Hn. pose proof (open_content _ _ _ _ _ Eo) as Hc. cbn in Hc.
  split.
  - intros q Hq. pose proof (write_from_frame f off data s1 q) as Hf. rewrite Hw in Hf. cbn [fst] in Hf. rewrite Hf by congruence.
    pose proof (open_frame WriteOrCreate p s q Hq) as Hf'. by rewrite Eo in Hf'.
  - intros -> c Hcont Hne. rewrite Hcont in Hc. cbn in Hc.
    pose proof (write_from_content f off data s1 s' Hw c) as Hres. rewrite Hn in Hres. specialize (Hres Hc).
    by rewrite decide_False in Hres.
Qed.
Lemma create_parents_content p (s : Fs) q : content (create_parents p s).1 q = content s q.
Proof. unfold create_parents. destruct (path_parent p); [apply create_dir_frame|done]. Qed.

(** *** The mirror *)

Definition table_size : Z := Z.of_nat GUEST_IO_MAX_SLOTS * Z.of_nat GUEST_IO_SLOT_SIZE.
(** The table of handles, and the copy of a file's bytes. *)
Definition in_table (io : option GuestIoRuntimeConfig) (x : Z) : Prop :=
  ∃ cfg, io = Some cfg ∧ table_va cfg ≤ x < table_va cfg + table_size.
Definition in_copy (f : OpenGuestFile) (x : Z) : Prop := ∃ d, of_guest_data_va f = Some d ∧ d ≤ x < d + len64 (of_bytes f).
Definition io_of s : option GuestIoRuntimeConfig := guest_io (files (fa_world s)).

(** The table can be accessed. *)
Definition table_ok s : Prop := ∀ cfg, io_of s = Some cfg → accessible (cpu_of s) (table_va cfg) table_size.
(** And so can the copy of a file that has one; a slot is one of the table, and
    none is a streamed file's. *)
Record mirror_ok s (f : OpenGuestFile) : Prop := {
  mi_table : table_ok s;
  mi_slot : ∀ i, of_guest_slot_index f = Some i → 0 ≤ i < Z.of_nat GUEST_IO_MAX_SLOTS;
  mi_streamed : of_streaming f = true → of_guest_slot_index f = None;
  mi_copy : ∀ d, of_guest_data_va f = Some d → of_bytes f ≠ [] → accessible (cpu_of s) d (len64 (of_bytes f));
  mi_apart : ∀ x, in_table (io_of s) x → ¬ in_copy f x;
}.
Definition in_mirror s f (x : Z) : Prop := in_table (io_of s) x ∨ in_copy f x.

(** Where the next read of the file starts: what its slot says, if it has one. *)
Definition position s (h : u64) (pos : u64) : Prop :=
  match mirror_slot h (files (fa_world s)) with
  | Some (_, slot_va) => holds (cpu_of s) (slot_va + 24) (le_bytes 8 pos)
  | None => of_cursor <$> find_open_file (files (fa_world s)) h = Some pos
  end.

Lemma in_guest_kept (P : Z → Prop) s a bs : mem_inv (cpu_of s) → accessible (cpu_of s) a (len64 bs) → (∀ x, a ≤ x < a + len64 bs → P x) →
  ∃ e', in_guest (mem_write a bs) s = (with_cpu e' s, Ok tt) ∧ kept P (cpu_of s) e' ∧ holds e' a bs.
Proof. intros Hi Ha HP. destruct (write_kept P s a bs Hi Ha HP) as (e' & Hw & Hk & Hh). exists e'. split; [by apply in_guest_ok|done]. Qed.
Lemma put_u64_kept (P : Z → Prop) s a v : mem_inv (cpu_of s) → accessible (cpu_of s) a 8 → (∀ x, a ≤ x < a + 8 → P x) →
  ∃ e', put_u64 a v s = (with_cpu e' s, Ok tt) ∧ kept P (cpu_of s) e' ∧ holds e' a (le_bytes 8 v).
Proof.
  intros Hi Ha HP. assert (Hl : len64 (le_bytes 8 v) = 8) by (unfold len64; by rewrite length_le_bytes).
  destruct (write_kept P s a (le_bytes 8 v) Hi) as (e' & Hw & Hk & Hh); [by rewrite Hl..|].
  exists e'. split; [by apply in_guest_ok, context_ok|done].
Qed.
(** Reading a word of memory that can be accessed. *)
Lemma read_word_kept P s a : mem_inv (cpu_of s) → accessible (cpu_of s) a 8 →
  ∃ e' bs, in_guest (mem_read a 8%nat) s = (with_cpu e' s, Ok bs) ∧ unchanged (cpu_of s) e' ∧ kept P (cpu_of s) e' ∧
    ∀ v, in_u64 v → holds (cpu_of s) a (le_bytes 8 v) → le_val bs = v.
Proof.
  intros Hi Ha. pose proof Ha as (Hz0 & Hlim & Hrw).
  destruct (mem_read_ok (cpu_of s) a 8 Hi Hz0 Hlim Hrw) as (e' & bs & Hr & Hi' & Hg & Hrw' & Hl & Hbs).
  assert (Hu : unchanged (cpu_of s) e') by (by split).
  exists e', bs. split_and!; [by apply in_guest_ok|done| |].
  - apply kept_unchanged; [done|]. pose proof (mem_read_context a 8 (cpu_of s)) as Hc. by rewrite Hr in Hc.
  - intros v Hv Hh. destruct (mem_read_holds (cpu_of s) a (le_bytes 8 v) Hi) as (e2 & Hr2 & _); [by rewrite length_le_bytes|done|].
    rewrite length_le_bytes in Hr2. rewrite Hr in Hr2. assert (bs = le_bytes 8 v) as -> by congruence. rewrite le_val_le_bytes.
    apply Z.mod_small. change (256 ^ Z.of_nat 8) with u64_lim. exact Hv.
Qed.

Lemma slot_in_table s cfg i slot_va : io_of s = Some cfg → (i < GUEST_IO_MAX_SLOTS)%nat → slot_va_at (table_va cfg) i = Some slot_va →
  table_ok s → accessible (cpu_of s) slot_va (Z.of_nat GUEST_IO_SLOT_SIZE) ∧
  (∀ x, slot_va ≤ x < slot_va + Z.of_nat GUEST_IO_SLOT_SIZE → in_table (io_of s) x) ∧ slot_va + Z.of_nat GUEST_IO_SLOT_SIZE < u64_lim.
Proof.
  intros Hio Hi Hslot Ht. specialize (Ht cfg Hio). unfold slot_va_at, checked_add in Hslot. case_decide; [|done]. injection Hslot as <-.
  unfold table_size, GUEST_IO_MAX_SLOTS, GUEST_IO_SLOT_SIZE in *. split; [eapply accessible_sub; [exact Ht|lia..]|].
  split; [|destruct Ht as (? & ? & _); lia]. intros x Hx. exists cfg. split; [done|]. unfold table_size, GUEST_IO_MAX_SLOTS, GUEST_IO_SLOT_SIZE. lia.
Qed.

(** The slot of a file in the table. *)
Lemma mirror_slot_some s h g slot_va f : mirror_slot h (files (fa_world s)) = Some (g, slot_va) →
  find_open_file (files (fa_world s)) h = Some f → mirror_ok s f →
  g = f ∧ accessible (cpu_of s) slot_va (Z.of_nat GUEST_IO_SLOT_SIZE) ∧
  (∀ x, slot_va ≤ x < slot_va + Z.of_nat GUEST_IO_SLOT_SIZE → in_table (io_of s) x) ∧ slot_va + Z.of_nat GUEST_IO_SLOT_SIZE < u64_lim ∧
  0 ≤ slot_va.
Proof.
  intros Hm Hf Hok. unfold mirror_slot in Hm. rewrite Hf in Hm. cbn [mbind option_bind] in Hm.
  destruct (of_guest_slot_index f) as [i|] eqn:Hi; [|done]. cbn [mbind option_bind] in Hm.
  destruct (guest_io (files (fa_world s))) as [cfg|] eqn:Hio; [|done]. cbn [mbind option_bind] in Hm.
  destruct (slot_va_at (table_va cfg) (Z.to_nat i)) as [a|] eqn:Ha; [|done]. cbn [mbind option_bind] in Hm. injection Hm as <- <-.
  pose proof (mi_slot _ _ Hok i Hi). destruct (slot_in_table s cfg (Z.to_nat i) a Hio) as (Hz1 & Hz2 & Hz3); [lia|done|apply Hok|].
  split; [done|]. split; [done|]. split; [done|]. split; [done|apply Hz1].
Qed.

(** Taking the position from the slot. *)
Lemma sync_cursor_ok P s h f pos : mem_inv (cpu_of s) → find_open_file (files (fa_world s)) h = Some f → mirror_ok s f →
  in_u64 pos → position s h pos →
  ∃ e' w', swallow (sync_host_cursor_from_guest h) s = (with_world w' (with_cpu e' s), Ok tt) ∧ unchanged (cpu_of s) e' ∧ kept P (cpu_of s) e' ∧
    find_open_file (files w') h = Some (set_cursor pos f) ∧ others h None (fa_world s) w' ∧ host w' = host (fa_world s) ∧
    guest_io (files w') = io_of s.
Proof.
  intros Hi Hf Hok Hu Hpos. unfold sync_host_cursor_from_guest, position in *.
  destruct (mirror_slot h (files (fa_world s))) as [[g slot_va]|] eqn:Hm.
  2: { exists (cpu_of s), (fa_world s). split; [apply swallow_ok; erewrite bind_ok by apply get_files_ok; rewrite Hm; by destruct s as [[? ?] ? ?]|].
       rewrite Hf in Hpos. injection Hpos as <-. split_and!; [by apply unchanged_refl|by apply kept_refl|rewrite Hf; by destruct f|done..]. }
  destruct (mirror_slot_some s h g slot_va f Hm Hf Hok) as (-> & Hacc & _ & Hlim & Hz0). unfold GUEST_IO_SLOT_SIZE in *.
  assert (Hw : wrapping_add slot_va 24 = slot_va + 24) by (unfold wrapping_add, wrap64; rewrite Z.mod_small; lia).
  destruct (read_word_kept P s (slot_va + 24) Hi) as (e' & bs & Hr & Hun & Hk & Hv); [eapply accessible_sub; [exact Hacc|lia..]|].
  exists e', (on_files (on_open_file h (set_cursor pos)) (fa_world s)). split.
  { apply swallow_ok. erewrite bind_ok by apply get_files_ok. rewrite Hm, Hw. erewrite bind_ok by exact Hr. rewrite (Hv pos Hu Hpos). by rewrite on_state_ok. }
  split_and!; [done|done|by apply find_on_open|apply others_on_open|done|done].
Qed.

(** Bringing the slot and the copy up to date. *)
Lemma sync_slot_ok s h f : mem_inv (cpu_of s) → find_open_file (files (fa_world s)) h = Some f → mirror_ok s f → in_u64 (of_cursor f) →
  ∃ e', swallow (sync_slot_from_host h) s = (with_cpu e' s, Ok tt) ∧ kept (in_mirror s f) (cpu_of s) e' ∧
    position (with_cpu e' s) h (of_cursor f).
Proof.
  intros Hi Hf Hok Hu. unfold sync_slot_from_host, position. cbn [fa_world with_cpu].
  destruct (mirror_slot h (files (fa_world s))) as [[g slot_va]|] eqn:Hm.
  2: { exists (cpu_of s). split; [apply swallow_ok; erewrite bind_ok by apply get_files_ok; by rewrite Hm, with_cpu_id|].
       split; [by apply kept_refl|]. by rewrite Hf. }
  destruct (mirror_slot_some s h g slot_va f Hm Hf Hok) as (-> & Hacc & Htab & Hlim & Hz0). unfold GUEST_IO_SLOT_SIZE in *.
  assert (Hw : ∀ k, 0 ≤ k < 40 → wrapping_add slot_va k = slot_va + k) by (intros k Hk; unfold wrapping_add, wrap64; rewrite Z.mod_small; lia).
  destruct (put_u64_kept (in_table (io_of s)) s (slot_va + 16) (len64 (of_bytes f)) Hi) as (e1 & Hr1 & Hk1 & _);
    [eapply accessible_sub; [exact Hacc|lia..]|intros x Hx; apply Htab; lia|].
  destruct (put_u64_kept (in_table (io_of s)) (with_cpu e1 s) (slot_va + 24) (of_cursor f) (kp_inv _ _ _ Hk1)) as (e2 & Hr2 & Hk2 & Hpos);
    [eapply accessible_kept; [exact Hk1|]; eapply accessible_sub; [exact Hacc|lia..]|intros x Hx; apply Htab; lia|].
  change (with_cpu e2 (with_cpu e1 s)) with (with_cpu e2 s) in Hr2. pose proof (kept_trans _ _ _ _ Hk1 Hk2) as Hk.
  assert (Htail : ∃ e3, (match of_guest_data_va f with
      | Some data_va => if decide (of_bytes f ≠ []) then in_guest (mem_write data_va (of_bytes f)) else mret tt
      | None => mret tt end) (with_cpu e2 s) = (with_cpu e3 s, Ok tt) ∧ kept (in_copy f) e2 e3).
  { destruct (of_guest_data_va f) as [d|] eqn:Hd; [|exists e2; split; [done|apply kept_refl, Hk2]].
    case_decide as Hne; [|exists e2; split; [done|apply kept_refl, Hk2]].
    destruct (in_guest_kept (in_copy f) (with_cpu e2 s) d (of_bytes f) (kp_inv _ _ _ Hk2)) as (e3 & Hr3 & Hk3 & _); [| |by exists e3].
    - eapply accessible_kept; [exact Hk|]. by apply (mi_copy _ _ Hok).
    - intros x Hx. by exists d. }
  destruct Htail as (e3 & Hr3 & Hk3). exists e3. split; [|split].
  - apply swallow_ok. erewrite bind_ok by apply get_files_ok. rewrite Hm, !Hw by lia. erewrite bind_ok by exact Hr1. by erewrite bind_ok by exact Hr2.
  - eapply kept_trans; [eapply kept_weaken; [exact Hk|by left]|eapply kept_weaken; [exact Hk3|by right]].
  - eapply holds_kept; [exact Hk3|exact Hpos|]. intros x Hx Hin. unfold len64 in Hin. rewrite length_le_bytes in Hin.
    eapply mi_apart; [exact Hok| |exact Hx]. apply Htab. lia.
Qed.

Lemma find_slot_ok use s cfg n : io_of s = Some cfg → table_ok s → ∀ i e, (i + n ≤ GUEST_IO_MAX_SLOTS)%nat → unchanged (cpu_of s) e →
  snapshot_thread_context e = snapshot_thread_context (cpu_of s) →
  ∃ e' o, find_slot use (table_va cfg) i n (with_cpu e s) = (with_cpu e' s, Ok o) ∧ unchanged (cpu_of s) e' ∧
    snapshot_thread_context e' = snapshot_thread_context (cpu_of s) ∧ ∀ j, o = Some j → (j < GUEST_IO_MAX_SLOTS)%nat.
Proof.
  intros Hio Ht. induction n as [|n IH]; intros i e Hin Hu Hc; cbn [find_slot]; [by exists e, None|].
  destruct (slot_va_at (table_va cfg) i) as [slot_va|] eqn:Hs; [|apply IH; [lia|done..]].
  destruct (slot_in_table s cfg i slot_va Hio) as (Hacc & _); [lia|done|done|].
  destruct (read_word_kept (λ _, False) (with_cpu e s) slot_va (un_inv _ _ Hu)) as (e1 & bs & Hr & Hu1 & Hk & _).
  { eapply accessible_unchanged; [exact Hu|]. eapply accessible_sub; [exact Hacc|unfold GUEST_IO_SLOT_SIZE; lia..]. }
  erewrite bind_ok by exact Hr. change (with_cpu e1 (with_cpu e s)) with (with_cpu e1 s).
  assert (Hu' : unchanged (cpu_of s) e1) by (by eapply unchanged_trans).
  assert (Hc' : snapshot_thread_context e1 = snapshot_thread_context (cpu_of s)) by (rewrite (kp_ctx _ _ _ Hk); exact Hc).
  destruct (use (le_val bs)); [|apply IH; [lia|done..]]. exists e1, (Some i). split_and!; [done|done|done|]. intros j [= <-]. lia.
Qed.

(** A file that leaves the table. *)
Lemma unregister_ok s h : mem_inv (cpu_of s) → table_ok s →
  ∃ e' w', swallow (unregister_open_file h) s = (with_world w' (with_cpu e' s), Ok tt) ∧ kept (in_table (io_of s)) (cpu_of s) e' ∧
    (w' = fa_world s ∨ w' = on_files (on_open_file h (set_mirror None None)) (fa_world s)).
Proof.
  intros Hi Ht. unfold unregister_open_file. pose proof (get_files_ok guest_io s) as Hget. fold (io_of s) in Hget.
  destruct (io_of s) as [cfg|] eqn:Hio.
  2: { exists (cpu_of s), (fa_world s). split; [apply swallow_ok; erewrite bind_ok by exact Hget; by destruct s as [[? ?] ? ?]|]. split; [by apply kept_refl|by left]. }
  destruct (find_slot_ok (λ existing, bool_decide (existing = h)) s cfg GUEST_IO_MAX_SLOTS Hio Ht 0%nat (cpu_of s)) as (e1 & o & Hr1 & Hu1 & Hc1 & Hj);
    [lia|by apply unchanged_refl|done|]. rewrite with_cpu_id in Hr1.
  assert (Htail : ∃ e2, (match i ← o; slot_va_at (table_va cfg) i with
      | Some slot_va => in_guest (mem_write slot_va (replicate GUEST_IO_SLOT_SIZE 0))
      | None => mret tt end) (with_cpu e1 s) = (with_cpu e2 s, Ok tt) ∧ kept (in_table (Some cfg)) e1 e2).
  { destruct o as [j|]; cbn [mbind option_bind]; [|exists e1; split; [done|apply kept_refl, Hu1]].
    destruct (slot_va_at (table_va cfg) j) as [slot_va|] eqn:Hs; [|exists e1; split; [done|apply kept_refl, Hu1]].
    destruct (slot_in_table s cfg j slot_va Hio (Hj _ eq_refl) Hs Ht) as (Hacc & Htab & _). rewrite Hio in Htab.
    destruct (in_guest_kept (in_table (Some cfg)) (with_cpu e1 s) slot_va (replicate GUEST_IO_SLOT_SIZE 0) (un_inv _ _ Hu1)) as (e2 & Hr2 & Hk2 & _);
      [unfold len64; rewrite length_replicate; by eapply accessible_unchanged|unfold len64; rewrite length_replicate; exact Htab|by exists e2]. }
  destruct Htail as (e2 & Hr2 & Hk2). exists e2, (on_files (on_open_file h (set_mirror None None)) (fa_world s)). split; [|split; [|by right]].
  - apply swallow_ok. erewrite bind_ok by exact Hget. cbv beta iota. erewrite bind_ok by exact Hr1. erewrite bind_ok by exact Hr2. by rewrite on_state_ok.
  - eapply kept_trans; [by apply kept_unchanged|exact Hk2].
Qed.

(** *** Writing *)

Lemma write_streaming_spec h f data p bs s : find_open_file (files (fa_world s)) h = Some f →
  of_streaming f = true → of_host_path f = Some p → content (host (fa_world s)) p = Some bs → data ≠ [] →
  of_cursor f + len64 data < u64_lim →
  ∃ w' r, write_streaming h f data s = (with_world w' s, r) ∧
    (r = Ok (of_cursor f + len64 data) ∧ others h (Some p) (fa_world s) w' ∧ guest_io (files w') = guest_io (files (fa_world s)) ∧
       file_view w' h = Some (overwrite (Z.to_nat (of_cursor f)) data bs, of_cursor f + len64 data)
     ∨ r = Err (Message "host WriteFile") ∧ (host_write_at p (of_cursor f) data (host (fa_world s))).2 = None).
Proof.
  intros Hf Hst Hp Hc Hne Hlim. unfold write_streaming.
  erewrite bind_ok by (apply check_some; exact Hp).
  destruct (host_write_at p (of_cursor f) data (host (fa_world s))) as [fs r] eqn:Ew.
  erewrite bind_ok by (unfold world, on_host_fs; rewrite Ew; reflexivity).
  destruct (host_write_spec _ _ _ _ _ _ Ew) as [Hother Hself]. destruct r as [[]|].
  2: { eexists _, _. split; [reflexivity|]. by right. }
  erewrite bind_ok by (by apply check_some).
  erewrite bind_ok by (apply check_some; unfold checked_add; by rewrite decide_True).
  erewrite bind_ok by apply on_state_ok.
  eexists _, _. split; [reflexivity|]. left. split; [done|]. cbn [fa_world with_world].
  split; [|split; [done|]].
  - eapply others_trans; [|apply others_on_open]. split; [done| |done]. intros q Hq. cbn. apply Hother. congruence.
  - unfold file_view. rewrite find_on_open with (g := f) by done. cbn [mbind option_bind of_cursor set_cursor].
    unfold file_content. cbn [of_streaming of_host_path set_cursor]. rewrite Hst, Hp. cbn. by rewrite (Hself eq_refl bs).
Qed.

Lemma promote_spec h f s : mem_inv (cpu_of s) → table_ok s → find_open_file (files (fa_world s)) h = Some f → of_streaming f = false →
  ∃ w' e', maybe_promote_open_file_to_streaming h s = (with_world w' (with_cpu e' s), Ok tt) ∧ kept (in_table (io_of s)) (cpu_of s) e' ∧
    others h (of_host_path f) (fa_world s) w' ∧ file_view w' h = Some (of_bytes f, of_cursor f).
Proof.
  intros Hi Ht Hf Hst. assert (Hsame : ∀ P, kept P (cpu_of s) (cpu_of s)) by (intros P; by apply kept_refl). unfold maybe_promote_open_file_to_streaming. erewrite bind_ok by apply get_files_ok.
  assert (Hview : file_view (fa_world s) h = Some (of_bytes f, of_cursor f)).
  { unfold file_view. rewrite Hf. cbn. unfold file_content. by rewrite Hst. }
  unfold promote_target. rewrite Hf. cbn [mbind option_bind]. rewrite Hst. cbn [orb].
  case_bool_decide as Hlen; [exists (fa_world s), (cpu_of s); by rewrite with_cpu_id, with_world_id|].
  destruct (of_host_path f) as [p|] eqn:Hp; cbn [mbind option_bind]; [|exists (fa_world s), (cpu_of s); by rewrite with_cpu_id, with_world_id].
  set (w1 := try_host (create_parents p) (fa_world s)).
  assert (Hw1 : others h (Some p) (fa_world s) w1).
  { unfold w1, try_host, on_host_fs. pose proof (create_parents_content p (host (fa_world s))) as Hc.
    destruct (create_parents p _) as [fs r]. split; [done| |done]. intros q _. by apply Hc. }
  assert (Hf1 : files w1 = files (fa_world s)).
  { unfold w1, try_host, on_host_fs. by destruct (create_parents p _). }
  destruct (fs_write p (of_bytes f) (host w1)) as [fs r] eqn:Ew.
  assert (Hw2 : others h (Some p) (fa_world s) (mkWorld (files w1) fs)).
  { eapply others_trans; [exact Hw1|]. split; [done| |done]. intros q Hq. cbn.
    pose proof (write_frame p (of_bytes f) (host w1) q) as Hfr. rewrite Ew in Hfr. apply Hfr. congruence. }
  erewrite bind_ok by (unfold world, on_host_fs; fold w1; rewrite Ew; reflexivity).
  destruct r as [[]|].
  2: { exists (mkWorld (files w1) fs), (cpu_of s). rewrite with_cpu_id. split_and!; [done|done|done|]. rewrite <- Hview. unfold file_view. cbn [files].
       rewrite Hf1, Hf. cbn. unfold file_content. by rewrite Hst. }
  rewrite Hf1 in Hw2. set (s2 := with_world (mkWorld (files w1) fs) s).
  assert (Hio : io_of s2 = io_of s) by (unfold io_of; cbn [fa_world s2 with_world files]; by rewrite Hf1).
  destruct (unregister_ok s2 h Hi) as (e' & w' & Hr & Hk & Hw'); [intros cfg Hcfg; apply Ht; by rewrite <- Hio|]. rewrite Hio in Hk.
  erewrite bind_ok by exact Hr. rewrite on_state_ok.
  assert (Hfile : ∃ g, find_open_file (files w') h = Some g ∧ of_cursor g = of_cursor f ∧ of_host_path g = of_host_path f ∧
                    others h (Some p) (fa_world s2) w' ∧ host w' = fs).
  { assert (Hf2 : find_open_file (files (fa_world s2)) h = Some f) by (cbn [fa_world s2 with_world files]; by rewrite Hf1).
    destruct Hw' as [-> | ->]; [by exists f|]. exists (set_mirror None None f).
    split; [by apply find_on_open|]. split_and!; [done|done|apply others_on_open|done]. }
  destruct Hfile as (g & Hg & Hcur & Hpath & Ho & Hhost).
  eexists _, e'. split; [reflexivity|]. cbn [fa_world with_world with_cpu]. split; [exact Hk|]. split.
  { eapply others_trans; [exact Hw2|]. rewrite <- Hf1. eapply others_trans; [exact Ho|apply others_on_open]. }
  unfold file_view. rewrite find_on_open with (g := g) by done.
  cbn [mbind option_bind of_cursor set_streamed]. rewrite Hcur. unfold file_content. cbn [of_streaming of_host_path set_streamed]. rewrite Hpath, Hp.
  cbn [mbind option_bind on_files host]. by rewrite Hhost, (write_content _ _ _ _ Ew).
Qed.

Lemma write_buffered_spec h f data s : find_open_file (files (fa_world s)) h = Some f → of_streaming f = false →
  of_cursor f + len64 data < u64_lim → mem_inv (cpu_of s) → table_ok s →
  ∃ w' e', (cursor ← write_buffered h f data; _ ← maybe_promote_open_file_to_streaming h; mret cursor) s =
          (with_world w' (with_cpu e' s), Ok (of_cursor f + len64 data)) ∧ kept (in_table (io_of s)) (cpu_of s) e' ∧
    others h (of_host_path f) (fa_world s) w' ∧
    file_view w' h = Some (overwrite (Z.to_nat (of_cursor f)) data (of_bytes f), of_cursor f + len64 data).
Proof.
  intros Hf Hst Hlim Hi Ht. unfold write_buffered.
  set (g := λ f', set_cursor (of_cursor f + len64 data) (set_bytes (overwrite (Z.to_nat (of_cursor f')) data (of_bytes f')) f')).
  set (w1 := on_files (on_open_file h g) (fa_world s)).
  assert (Hg : find_open_file (files w1) h = Some (g f)) by (by apply find_on_open).
  destruct (promote_spec h (g f) (with_world w1 s) Hi Ht Hg Hst) as (w' & e' & Hr & Hk & Ho & Hv).
  erewrite bind_ok.
  2: { erewrite bind_ok by (apply check_some; unfold checked_add; by rewrite decide_True).
       erewrite bind_ok by apply on_state_ok. reflexivity. }
  exists w', e'. split; [|split; [exact Hk|split; [|exact Hv]]].
  - erewrite bind_ok by exact Hr. reflexivity.
  - eapply others_trans; [apply others_on_open|exact Ho].
Qed.
(** Both representations at once: the bytes are written and the position moves,
    or the host refused a streamed write. *)
Definition write_phase (h : u64) (f : OpenGuestFile) (data : list u8) : M (FileApi E) u64 :=
  cursor ← (if of_streaming f then write_streaming h f data else write_buffered h f data);
  _ ← (if of_streaming f then mret tt else maybe_promote_open_file_to_streaming h);
  mret cursor.
Definition host_refuses w (f : OpenGuestFile) (data : list u8) : Prop :=
  of_streaming f = true ∧ ∃ p, of_host_path f = Some p ∧ (host_write_at p (of_cursor f) data (host w)).2 = None.

Lemma write_phase_spec h f data bs s : find_open_file (files (fa_world s)) h = Some f →
  file_content (fa_world s) f = Some bs → mem_inv (cpu_of s) → table_ok s → data ≠ [] →
  of_cursor f + len64 data < u64_lim →
  ∃ w' e' r, write_phase h f data s = (with_world w' (with_cpu e' s), r) ∧ kept (in_table (io_of s)) (cpu_of s) e' ∧
    (r = Ok (of_cursor f + len64 data) ∧ others h (of_host_path f) (fa_world s) w' ∧
       file_view w' h = Some (overwrite (Z.to_nat (of_cursor f)) data bs, of_cursor f + len64 data)
     ∨ r = Err (Message "host WriteFile") ∧ host_refuses (fa_world s) f data).
Proof.
  intros Hf Hc Hi Ht Hne Hlim. unfold write_phase, file_content in *. destruct (of_streaming f) eqn:Hst.
  - destruct (of_host_path f) as [p|] eqn:Hp; [|done]. cbn in Hc.
    destruct (write_streaming_spec h f data p bs s Hf Hst Hp Hc Hne Hlim) as (w' & r & Hr & Hcase).
    exists w', (cpu_of s), r. rewrite with_cpu_id. destruct Hcase as [(-> & Ho & _ & Hv)|[-> Hrefuse]].
    + erewrite bind_ok by exact Hr. split; [done|]. split; [by apply kept_refl|by left].
    + unfold mbind, M_bind. rewrite Hr. split; [done|]. split; [by apply kept_refl|]. right. split; [done|]. split; [done|]. by exists p.
  - injection Hc as <-. destruct (write_buffered_spec h f data s Hf Hst Hlim Hi Ht) as (w' & e' & Hr & Hk & Ho & Hv).
    exists w', e', (Ok (of_cursor f + len64 data)). split; [exact Hr|]. split; [exact Hk|]. by left.
Qed.

Lemma write_open_phase h f data out s : write_open_file h f data out s =
  (write_phase h f data ≫= λ cursor,
    _ ← on_state (λ y, if is_main_module_path y (of_path f) then set_executable_cursor cursor y else y);
    n ← u32_of "WriteFile byte count does not fit u32" (len64 data);
    _ ← store32 out n; finish 0 1 "WriteFile") s.
Proof.
  unfold write_open_file, write_phase. rewrite bind_assoc. apply bind_ext. intros c t.
  rewrite bind_assoc. apply bind_ext. intros [] u. reflexivity.
Qed.

(** Where a call's four arguments lie, and what it may write. *)
Definition reg_of s r : u64 := context_reg r (snapshot_thread_context (cpu_of s)).
Definition count_slot s (out sp : u64) (buffer : u64) (n : Z) : Prop :=
  out = 0 ∨ accessible (cpu_of s) out 4 ∧ (out + 4 ≤ sp ∨ sp + 8 ≤ out) ∧ (out + 4 ≤ buffer ∨ buffer + n ≤ out).

Lemma cpu_of_with_world w s : cpu_of (with_world w s) = cpu_of s.
Proof. done. Qed.
Lemma count_framed s s' out lo hi : framed lo hi (cpu_of s) (cpu_of s') →
  out = 0 ∨ accessible (cpu_of s) out 4 → out = 0 ∨ accessible (cpu_of s') out 4.
Proof. intros Hf [?|Ha]; [by left|right]. by eapply accessible_framed. Qed.
(** Storing the count, in a call. *)
Lemma store_count s out sp ra ptr n v : call_frame (cpu_of s) sp ra → count_slot s out sp ptr n → 0 ≤ v < u32_lim →
  ∃ e', store32 out v s = (with_cpu e' s, Ok tt) ∧ call_frame e' sp ra ∧ count_slot (with_cpu e' s) out sp ptr n ∧
    framed out (out + 4) (cpu_of s) e' ∧ snapshot_thread_context e' = snapshot_thread_context (cpu_of s) ∧
    (∀ bs, len64 bs ≤ n → holds (cpu_of s) ptr bs → holds e' ptr bs) ∧ (out ≠ 0 → holds e' out (le_bytes 4 v)).
Proof.
  intros Hf Hs Hv. destruct (store32_ok out v s (cf_inv _ _ _ Hf) Hv) as (e' & Hr & Hi & Hfr & Hc & Hh & Hz).
  { destruct Hs as [|[]]; auto. }
  exists e'. split; [exact Hr|]. destruct Hs as [Hout|(Hacc & Hsp & Hptr)].
  - rewrite (Hz Hout). split_and!; [done|by left|by apply framed_refl|done|done|done].
  - split_and!; [by eapply call_frame_framed| |done|done| |done].
    + right. split_and!; [|done|done]. by eapply accessible_framed.
    + intros bs Hn Hb. unfold len64 in Hn. eapply holds_framed; [done|done|lia].
Qed.

(** What is read of a buffer in the middle of a call. *)
Lemma source_bytes_ok s ptr data text : mem_inv (cpu_of s) → accessible (cpu_of s) ptr (len64 data) → holds (cpu_of s) ptr data →
  data ≠ [] → ∃ e', source_bytes ptr (len64 data) text s = (with_cpu e' s, Ok data) ∧ unchanged (cpu_of s) e' ∧
    snapshot_thread_context e' = snapshot_thread_context (cpu_of s).
Proof.
  intros Hi Hacc Hh Hne. destruct (mem_read_holds (cpu_of s) ptr data Hi Hacc Hh) as (e' & Hr & Hu).
  exists e'. split_and!; [|done|].
  - unfold source_bytes. rewrite decide_True by (unfold len64; destruct data; [done|cbn; lia]).
    apply in_guest_ok, context_ok. unfold len64. by rewrite Nat2Z.id.
  - pose proof (mem_read_context ptr (length data) (cpu_of s)) as Hc. by rewrite Hr in Hc.
Qed.
Lemma call_frame_unchanged e e' sp ra : call_frame e sp ra → unchanged e e' →
  snapshot_thread_context e' = snapshot_thread_context e → call_frame e' sp ra.
Proof.
  intros Hf Hu Hc. eapply (call_frame_framed e e' sp ra sp sp); [done|apply Hu|by apply framed_unchanged|done|lia].
Qed.
Lemma finish_ok e v name s sp ra : call_frame (cpu_of s) sp ra →
  ∃ e', finish e v name s = (with_cpu e' (with_error e s), Ok (Return ra v)) ∧ unchanged (cpu_of s) e'.
Proof.
  intros Hf. destruct (done_ok v name (with_error e s) sp ra Hf) as (e' & Hr & Hu). exists e'. split; [|exact Hu].
  unfold finish. by erewrite bind_ok by apply set_error_ok.
Qed.
Lemma refuse_ok e v s sp ra : call_frame (cpu_of s) sp ra →
  ∃ e', refuse e v s = (with_cpu e' (with_error e s), Ok (Return ra v)) ∧ unchanged (cpu_of s) e'.
Proof.
  intros Hf. destruct (leave_ok v (with_error e s) sp ra Hf) as (e' & Hr & Hu). exists e'. split; [|exact Hu].
  unfold refuse. by erewrite bind_ok by apply set_error_ok.
Qed.

(** C31 WriteFile on an open file writes the caller's bytes, one or more that end below
    2^64, at the position the host keeps for the file: afterwards the file is its old bytes overwritten there
    (grown, with zeros in a gap, when they end past it), that position is behind
    them, the count is stored, every other open file and every other host file is as
    before, and no other memory is written but the guest's table of open files, a
    slot of which is cleared when the file leaves it - whether the file is kept in
    memory, streamed, or outgrows memory and moves to the host in this very call, and
    whether or not the guest has such a table (the sessions of this program have
    one).  The call can only fail when the host refuses the write to a streamed file.
    The guest table is taken to be accessible memory apart from the stack and
    the count; the position is the host's, which is not that of the slot when the guest
    has read the file by itself: WriteFile does not look at the slot. *)
Theorem write_file_refines s sp ra f bs data :
  let h := reg_of s Rcx in let ptr := reg_of s Rdx in let out := reg_of s R9 in let w := fa_world s in
  call_frame (cpu_of s) sp ra → ptr ≠ 0 → reg_of s R8 = len64 data → data ≠ [] → len64 data < u32_lim →
  accessible (cpu_of s) ptr (len64 data) → holds (cpu_of s) ptr data → count_slot s out sp ptr (len64 data) →
  is_console_output_handle h = false → h ≠ FAKE_STDIN_HANDLE →
  table_ok s → (∀ x, in_table (io_of s) x → ¬ (sp ≤ x < sp + 8) ∧ ¬ (out ≤ x < out + 4)) →
  find_open_file (files w) h = Some f → file_content w f = Some bs → of_cursor f + len64 data < u64_lim →
  ∃ s' r, handle_write_file s = (s', r) ∧
    (r = Ok (Return ra 1) ∧ w_last_error (a_win (fa_api s')) = 0 ∧
       file_view (fa_world s') h = Some (overwrite (Z.to_nat (of_cursor f)) data bs, of_cursor f + len64 data) ∧
       others h (of_host_path f) w (fa_world s') ∧
       (∀ x, ¬ (out ≤ x < out + 4) → ¬ in_table (io_of s) x → mem_get (cpu_of s') x = mem_get (cpu_of s) x) ∧
       (out ≠ 0 → holds (cpu_of s') out (le_bytes 4 (len64 data)))
     ∨ r = Err (Message "host WriteFile") ∧ host_refuses w f data).
Proof.
  intros h ptr out w Hf Hptr Hn Hne Hn32 Hacc Hh Hcount Hcon Hin Htab Hapart Hopen Hc Hlim. unfold handle_write_file.
  do 4 (erewrite bind_ok by apply reg_ok).
  change (context_reg R8 _) with (reg_of s R8). rewrite Hn.
  change (context_reg Rcx _) with h. change (context_reg Rdx _) with ptr. change (context_reg R9 _) with out.
  destruct (store_count s out sp ra ptr (len64 data) 0 Hf Hcount) as (e1 & Hr1 & Hf1 & Hcount1 & Hfr1 & Hx1 & Hb1 & _); [done|].
  erewrite bind_ok by exact Hr1. rewrite decide_False, Hcon, decide_False by done.
  erewrite bind_ok by apply get_files_ok. cbn [fa_world with_cpu]. fold w. rewrite Hopen.
  destruct (source_bytes_ok (with_cpu e1 s) ptr data "failed to read WriteFile source buffer" (cf_inv _ _ _ Hf1))
    as (e2 & Hr2 & Hu2 & Hx2); [by eapply accessible_framed|by apply Hb1|done|].
  erewrite bind_ok by exact Hr2. rewrite write_open_phase. set (s2 := with_cpu e2 (with_cpu e1 s)).
  assert (Htab2 : table_ok s2) by (intros cfg Hcfg; eapply accessible_unchanged; [exact Hu2|]; eapply accessible_framed; [exact Hfr1|by apply Htab]).
  destruct (write_phase_spec h f data bs s2 Hopen Hc (un_inv _ _ Hu2) Htab2 Hne Hlim) as (w' & e3 & r & Hr & Hk3 & Hcase).
  change (io_of s2) with (io_of s) in Hk3.
  destruct Hcase as [(-> & Ho & Hv)|[-> Hrefuse]].
  2: { unfold mbind at 1, M_bind at 1. rewrite Hr. eexists _, _. split; [reflexivity|]. by right. }
  erewrite bind_ok by exact Hr. erewrite bind_ok by apply on_state_ok.
  erewrite bind_ok by (unfold u32_of; apply check_some; by rewrite decide_True).
  set (s3 := with_world _ _).
  assert (Hf3 : call_frame (cpu_of s3) sp ra).
  { eapply (call_frame_kept _ e2 e3); [exact (call_frame_unchanged e1 e2 sp ra Hf1 Hu2 Hx2)|exact Hk3|]. intros x Hx. by apply Hapart. }
  assert (Hcount3 : count_slot s3 out sp ptr (len64 data)).
  { destruct Hcount1 as [?|(Ha & Hd)]; [by left|right]. split; [|done]. eapply accessible_kept; [exact Hk3|]. by eapply accessible_unchanged. }
  destruct (store_count s3 out sp ra ptr (len64 data) (len64 data) Hf3 Hcount3) as (e4 & Hr4 & Hf4 & _ & Hfr4 & _ & _ & Hcnt);
    [unfold len64 in *; lia|].
  erewrite bind_ok by exact Hr4. destruct (finish_ok 0 1 "WriteFile" (with_cpu e4 s3) sp ra Hf4) as (e5 & Hr5 & Hu5).
  eexists _, _. split; [exact Hr5|]. left. split_and!; [done|done| | | |].
  - cbn [fa_world with_cpu with_error s3 with_world]. rewrite view_executable. exact Hv.
  - eapply others_trans; [exact Ho|]. apply others_executable.
  - intros x Hx Ht. change (mem_get e5 x = mem_get (cpu_of s) x).
    rewrite (un_get _ _ Hu5), (fr_out _ _ _ _ Hfr4) by done. change (mem_get e3 x = mem_get (cpu_of s) x).
    rewrite (kp_out _ _ _ Hk3) by done. change (mem_get e2 x = mem_get (cpu_of s) x).
    rewrite (un_get _ _ Hu2). by apply (fr_out _ _ _ _ Hfr1).
  - intros Hout. eapply holds_unchanged; [exact Hu5|]. by apply Hcnt.
Qed.
(** *** Reading *)

Definition host_cannot_read w (f : OpenGuestFile) (n : u64) : Prop :=
  of_streaming f = true ∧ ∃ p, of_host_path f = Some p ∧ (host_read_at p (of_cursor f) n (host w)).2 = None.
(** What a read of [n] bytes may get of [bs] from [cur]. *)
Definition may_read (bs : list u8) (cur n : u64) (got : list u8) : Prop :=
  ∃ k, Z.of_nat k ≤ n ∧ got = take k (drop (Z.to_nat cur) bs).

Lemma host_read_spec p off n (fs fs' : Fs) r bs : host_read_at p off n fs = (fs', r) → content fs p = Some bs → 0 ≤ n →
  (∀ q, content fs' q = content fs q) ∧ may_read bs off n (default [] r) ∧
  (∀ got, r = Some got → got = [] → n = 0 ∨ len64 bs ≤ off).
Proof.
  unfold host_read_at, io_bind. intros Hr Hc Hn. destruct (fs_open OpenRead p fs) as [fs1 [f|]] eqn:Eo.
  - injection Hr as <- <-. pose proof (open_content _ _ _ _ _ Eo) as Hcont. cbn in Hcont. pose proof (open_named _ _ _ _ _ Eo) as Hname.
    split.
    { intros q. destruct (decide (q = p)) as [->|Hq]; [done|]. pose proof (open_frame OpenRead p fs q Hq) as Hf. by rewrite Eo in Hf. }
    destruct (fs_read_from f off n fs1) as [got|] eqn:Er; [|split; [by exists 0%nat|done]].
    destruct (read_from_content f off n fs1 got Er bs) as (k & -> & Hk & Hempty); [by rewrite Hname, Hcont|].
    split; [by exists k|]. by intros got' [= <-].
  - injection Hr as <- <-. split; [intros q; by eapply open_failed|]. split; [by exists 0%nat|done].
Qed.

Lemma may_read_length bs cur n got : may_read bs cur n got → len64 got ≤ n ∧ (0 ≤ cur → len64 got ≤ Z.max 0 (len64 bs - cur)).
Proof. intros (k & Hk & ->). unfold len64. rewrite length_take, length_drop. lia. Qed.

(** Handing bytes to the guest. *)
Lemma buffer_write s ptr n got sp ra text : call_frame (cpu_of s) sp ra → accessible (cpu_of s) ptr n →
  ptr + n ≤ sp ∨ sp + 8 ≤ ptr → len64 got ≤ n →
  ∃ e', in_guest (context text (mem_write ptr got)) s = (with_cpu e' s, Ok tt) ∧ call_frame e' sp ra ∧ holds e' ptr got ∧
    framed ptr (ptr + len64 got) (cpu_of s) e' ∧ snapshot_thread_context e' = snapshot_thread_context (cpu_of s).
Proof.
  intros Hf Hacc Hd Hl. unfold len64 in *.
  destruct (write_spec (cpu_of s) ptr got ptr (ptr + n) (cf_inv _ _ _ Hf)) as (e' & Hw & Hi & _ & Hh & Hfr);
    [by replace (ptr + n - ptr) with n by lia|lia|lia|].
  assert (Hc : snapshot_thread_context e' = snapshot_thread_context (cpu_of s)).
  { pose proof (mem_write_context ptr got (cpu_of s)) as Hx. by rewrite Hw in Hx. }
  exists e'. split_and!; [by apply in_guest_ok, context_ok| |done|done|done].
  eapply call_frame_framed; [done|done|done|done|lia].
Qed.

(** What a read has done when it comes to returning. *)
Definition has_read s h ptr out sp ra (f : OpenGuestFile) (bs got : list u8) s' : Prop :=
  w_last_error (a_win (fa_api s')) = 0 ∧ call_frame (cpu_of s') sp ra ∧
  holds (cpu_of s') ptr got ∧ (out ≠ 0 → holds (cpu_of s') out (le_bytes 4 (len64 got))) ∧
  file_view (fa_world s') h = Some (bs, of_cursor f + len64 got) ∧ others h (of_host_path f) (fa_world s) (fa_world s') ∧
  (∀ x, mem_rw (cpu_of s') x ↔ mem_rw (cpu_of s) x) ∧
  ∀ x, ¬ (out ≤ x < out + 4) → ¬ (ptr ≤ x < ptr + len64 got) → ¬ in_mirror s f x → mem_get (cpu_of s') x = mem_get (cpu_of s) x.
Definition read_apart s (ptr out n sp : Z) (f : OpenGuestFile) : Prop :=
  ∀ x, in_mirror s f x → ¬ (sp ≤ x < sp + 8) ∧ ¬ (ptr ≤ x < ptr + n) ∧ ¬ (out ≤ x < out + 4).

(** Bytes to the guest, then their count: what both paths of ReadFile do. *)
Lemma deliver s (w' : World) h ptr out n sp ra f bs got text : call_frame (cpu_of s) sp ra → accessible (cpu_of s) ptr n →
  ptr + n ≤ sp ∨ sp + 8 ≤ ptr → len64 got ≤ n → n < u32_lim → count_slot s out sp ptr n →
  file_view w' h = Some (bs, of_cursor f + len64 got) → others h (of_host_path f) (fa_world s) w' →
  ∃ e1 e2, in_guest (context text (mem_write ptr got)) s = (with_cpu e1 s, Ok tt) ∧
    (∀ w1, store32 out (len64 got) (with_world w1 (with_cpu e1 s)) = (with_cpu e2 (with_world w1 (with_cpu e1 s)), Ok tt)) ∧
    has_read s h ptr out sp ra f bs got (with_error 0 (with_world w' (with_cpu e2 s))).
Proof.
  intros Hf Hacc Hd Hl Hn Hcount Hv Ho.
  destruct (buffer_write s ptr n got sp ra text Hf Hacc Hd Hl) as (e1 & Hr1 & Hf1 & Hh1 & Hfr1 & Hx1).
  assert (Hcount1 : count_slot (with_cpu e1 s) out sp ptr n).
  { destruct Hcount as [?|(Ha & Hrest)]; [by left|right]. split; [by eapply accessible_framed|done]. }
  destruct (store_count (with_cpu e1 s) out sp ra ptr n (len64 got) Hf1 Hcount1) as (e2 & Hr2 & Hf2 & Hc2 & Hfr2 & Hx2 & Hb2 & Hcnt);
    [unfold len64 in *; lia|].
  exists e1, e2. split; [exact Hr1|]. split.
  { intros w1. by rewrite store32_world, Hr2. }
  split_and!; [done|done|by apply Hb2|exact Hcnt|exact Hv|exact Ho| |].
  - intros x. change (mem_rw e2 x ↔ mem_rw (cpu_of s) x). rewrite (fr_rw _ _ _ _ Hfr2), (fr_rw _ _ _ _ Hfr1). done.
  - intros x Hx Hp _. change (mem_get e2 x = mem_get (cpu_of s) x). by rewrite (fr_out _ _ _ _ Hfr2), (fr_out _ _ _ _ Hfr1).
Qed.
Lemma has_read_world s h ptr out sp ra f bs got s' w1 : others h (of_host_path f) (fa_world s) w1 → guest_io (files w1) = io_of s →
  has_read (with_world w1 s) h ptr out sp ra f bs got s' → has_read s h ptr out sp ra f bs got s'.
Proof.
  intros Ho Hio (? & ? & ? & ? & ? & Ho' & ? & Hout). split_and!; [done..|by eapply others_trans|done|]. intros x Hx Hp Hm.
  apply Hout; [done|done|]. intros [Ht|Hc]; apply Hm; [left|by right]. by rewrite <- Hio.
Qed.
(** Then the mirror is brought up to date. *)
Lemma has_read_synced s h ptr out n sp ra f bs got s' e' : read_apart s ptr out n sp f → len64 got ≤ n →
  has_read s h ptr out sp ra f bs got s' → kept (in_mirror s f) (cpu_of s') e' →
  has_read s h ptr out sp ra f bs got (with_cpu e' s').
Proof.
  intros Hap Hl (? & Hcf & Hb & Hcnt & ? & ? & Hrw & Hout) Hk. split_and!; [done| | | |done|done| |].
  - eapply call_frame_kept; [exact Hcf|exact Hk|]. intros x Hx. apply (Hap x Hx).
  - eapply holds_kept; [exact Hk|exact Hb|]. intros x Hx. destruct (Hap x Hx) as (_ & ? & _). lia.
  - intros Hne. eapply holds_kept; [exact Hk|by apply Hcnt|]. intros x Hx. unfold len64. rewrite length_le_bytes. apply (Hap x Hx).
  - intros x. by rewrite <- Hrw, <- (kp_rw _ _ _ Hk).
  - intros x Hx Hp Hm. etrans; [apply (kp_out _ _ _ Hk); exact Hm|by apply Hout].
Qed.

(** What the mirror keeps when memory it does not lie in is written. *)
Lemma mirror_ok_rw s s' f c : io_of s' = io_of s → (∀ x, mem_rw (cpu_of s') x ↔ mem_rw (cpu_of s) x) → mirror_ok s f →
  mirror_ok s' (set_cursor c f).
Proof.
  intros Hio Hrw [Ht Hs Hst Hcp Ha]. assert (Hacc : ∀ a k, accessible (cpu_of s) a k → accessible (cpu_of s') a k).
  { intros a k (? & ? & Hx). split_and!; [done|done|]. intros x Hxx. apply Hrw. by apply Hx. }
  split; [intros cfg Hcfg; apply Hacc, Ht; by rewrite <- Hio|exact Hs|exact Hst| |rewrite Hio; exact Ha].
  intros d Hd Hne. apply Hacc. by apply Hcp.
Qed.
Lemma position_kept P s e' h f pos : find_open_file (files (fa_world s)) h = Some f → mirror_ok s f → kept P (cpu_of s) e' →
  (∀ x, in_table (io_of s) x → ¬ P x) → position s h pos → position (with_cpu e' s) h pos.
Proof.
  intros Hf Hok Hk Hd. unfold position. cbn [fa_world with_cpu].
  destruct (mirror_slot h (files (fa_world s))) as [[g slot_va]|] eqn:Hm; [|done]. intros Hh.
  destruct (mirror_slot_some s h g slot_va f Hm Hf Hok) as (_ & _ & Htab & _). unfold GUEST_IO_SLOT_SIZE in *.
  eapply holds_kept; [exact Hk|exact Hh|]. intros x Hx Hin. unfold len64 in Hin. rewrite length_le_bytes in Hin.
  apply (Hd x); [apply Htab; lia|exact Hx].
Qed.
(** A file that has no slot is where the host has it. *)
Lemma position_unmirrored s h f : find_open_file (files (fa_world s)) h = Some f → of_guest_slot_index f = None → position s h (of_cursor f).
Proof. intros Hf Hi. unfold position, mirror_slot. rewrite Hf. cbn [mbind option_bind]. rewrite Hi. cbn [mbind option_bind]. done. Qed.

Section Read.
Context (s : FileApi E) (h ptr out n sp ra : Z) (f : OpenGuestFile) (bs : list u8).
Context (Hf : call_frame (cpu_of s) sp ra) (Hacc : accessible (cpu_of s) ptr n) (Hd : ptr + n ≤ sp ∨ sp + 8 ≤ ptr).
Context (Hn : 0 ≤ n < u32_lim) (Hcount : count_slot s out sp ptr n) (Hm : mirror_ok s f) (Hap : read_apart s ptr out n sp f).
Context (Hopen : find_open_file (files (fa_world s)) h = Some f) (Hc : file_content (fa_world s) f = Some bs).
Context (Hcur : 0 ≤ of_cursor f < u64_lim).

(** The file after a read that got [got], in a world where only its position moved. *)
Lemma view_after_read w1 got path x : host w1 = host (fa_world s) ∨ (∀ q, content (host w1) q = content (host (fa_world s)) q) →
  files w1 = files (fa_world s) →
  file_view (on_files (λ y, if is_main_module_path y path then set_executable_cursor x y else y)
               (on_files (on_open_file h (set_cursor (of_cursor f + len64 got))) w1)) h = Some (bs, of_cursor f + len64 got).
Proof.
  intros Hhost Hfiles. rewrite view_executable. unfold file_view. rewrite find_on_open with (g := f) by (by rewrite Hfiles).
  cbn [mbind option_bind of_cursor set_cursor]. unfold file_content in *. cbn [of_streaming of_host_path of_bytes set_cursor on_files host].
  destruct (of_streaming f); [|by injection Hc as <-].
  destruct (of_host_path f) as [p|]; [|done]. cbn in *. destruct Hhost as [-> |Hq]; [by rewrite Hc|]. by rewrite Hq, Hc.
Qed.

(** The mirror after a read. *)
Lemma sync_after_read (got : list u8) s3 : let f' := set_cursor (of_cursor f + len64 got) f in
  mem_inv (cpu_of s3) → find_open_file (files (fa_world s3)) h = Some f' → io_of s3 = io_of s →
  (∀ x, mem_rw (cpu_of s3) x ↔ mem_rw (cpu_of s) x) → of_cursor f + len64 got < u64_lim →
  ∃ e', swallow (sync_slot_from_host h) s3 = (with_cpu e' s3, Ok tt) ∧ kept (in_mirror s f) (cpu_of s3) e' ∧
    position (with_cpu e' s3) h (of_cursor f + len64 got).
Proof.
  intros f' Hi Ho Hio Hrw Hl.
  destruct (sync_slot_ok s3 h f' Hi Ho) as (e' & Hs & Hk & Hp); [by eapply mirror_ok_rw|cbn; unfold in_u64, len64 in *; lia|].
  exists e'. split; [exact Hs|]. split; [|exact Hp]. unfold in_mirror in Hk. rewrite Hio in Hk. exact Hk.
Qed.

Lemma read_buffered_spec : of_streaming f = false → of_cursor f ≤ len64 bs → len64 bs < u64_lim →
  ∃ s' got, read_buffered h ptr n out f s = (s', Ok tt) ∧ has_read s h ptr out sp ra f bs got s' ∧
    position s' h (of_cursor f + len64 got) ∧ got = take (Z.to_nat n) (drop (Z.to_nat (of_cursor f)) bs).
Proof.
  intros Hst Hle Hlim. assert (Hbs : of_bytes f = bs) by (unfold file_content in Hc; rewrite Hst in Hc; congruence).
  set (got := take (Z.to_nat n) (drop (Z.to_nat (of_cursor f)) bs)).
  assert (Hgot : Z.min n (sat_sub (len64 bs) (of_cursor f)) = len64 got).
  { unfold got, len64, sat_sub in *. rewrite length_take, length_drop. lia. }
  assert (Hlen : len64 got ≤ n ∧ of_cursor f + len64 got ≤ len64 bs).
  { unfold got, len64 in *. rewrite length_take, length_drop. lia. }
  assert (Htake : take (Z.to_nat (len64 got)) (drop (Z.to_nat (of_cursor f)) bs) = got).
  { unfold len64. rewrite Nat2Z.id. unfold got. rewrite length_take, <- take_take. by rewrite (take_ge (drop _ _)). }
  unfold read_buffered. rewrite Hbs, Hgot.
  erewrite bind_ok by (apply check_some; unfold checked_add; rewrite decide_True by lia; reflexivity).
  erewrite bind_ok by apply on_state_ok.
  erewrite bind_ok.
  2: { apply check_some. rewrite decide_True by lia. exact (f_equal Some Htake). }
  set (w1 := on_files (on_open_file h (set_cursor (of_cursor f + len64 got))) (fa_world s)).
  set (w2 := on_files (λ y, if is_main_module_path y (of_path f) then set_executable_cursor (of_cursor f + len64 got) y else y) w1).
  destruct (deliver (with_world w1 s) w2 h ptr out n sp ra f bs got "failed to write ReadFile bytes") as (e1 & e2 & Hr1 & Hr2 & Hres);
    [done|done|done|apply Hlen|lia|done| |apply others_executable|].
  { apply view_after_read; [by left|done]. }
  erewrite bind_ok by exact Hr1.
  erewrite bind_ok by (unfold u32_of; apply check_some; rewrite decide_True by lia; reflexivity).
  erewrite bind_ok by exact (Hr2 w1). erewrite bind_ok by apply on_state_ok. erewrite bind_ok by apply set_error_ok.
  apply (has_read_world s) in Hres; [|apply others_on_open|done]. set (s3 := with_error 0 _) in Hres |- *.
  destruct (sync_after_read got s3) as (e3 & Hs & Hk & Hp).
  - exact (cf_inv _ _ _ (proj1 (proj2 Hres))).
  - cbn [s3 fa_world with_error with_world]. unfold w2. rewrite find_executable. by apply find_on_open.
  - unfold io_of. cbn [s3 fa_world with_error with_world w2 on_files files]. by case_match.
  - apply Hres.
  - lia.
  - eexists _, got. split; [exact Hs|]. split; [eapply has_read_synced; [done|lia|done..]|]. by split.
Qed.

Lemma read_streaming_spec p : of_streaming f = true → of_host_path f = Some p →
  ∃ s' got, read_streaming h ptr n out f p s = (s', Ok tt) ∧ has_read s h ptr out sp ra f bs got s' ∧
    position s' h (of_cursor f + len64 got) ∧ may_read bs (of_cursor f) n got ∧ (got = [] → n = 0 ∨ len64 bs ≤ of_cursor f ∨ host_cannot_read (fa_world s) f n).
Proof.
  intros Hst Hp. unfold read_streaming.
  assert (Hcont : content (host (fa_world s)) p = Some bs) by (unfold file_content in Hc; by rewrite Hst, Hp in Hc).
  destruct (host_read_at p (of_cursor f) n (host (fa_world s))) as [fs r] eqn:Er.
  destruct (host_read_spec p _ n _ _ _ bs Er Hcont) as (Hsame & Hmay & Hempty); [lia|].
  erewrite bind_ok by (unfold world, on_host_fs; rewrite Er; reflexivity).
  set (got := default [] r) in *. destruct (may_read_length _ _ _ _ Hmay) as [Hl1 Hl2].
  pose proof (content_len _ _ _ Hcont) as Hlim.
  assert (Hsat : sat_add (of_cursor f) (len64 got) = of_cursor f + len64 got).
  { unfold sat_add, len64 in *. specialize (Hl2 ltac:(lia)). lia. }
  rewrite Hsat.
  set (w1 := mkWorld (files (fa_world s)) fs).
  set (w2 := on_files (on_open_file h (set_cursor (of_cursor f + len64 got))) w1).
  set (w3 := on_files (λ y, if is_main_module_path y (of_path f) then set_executable_cursor (of_cursor f + len64 got) y else y) w2).
  assert (Ho1 : others h (of_host_path f) (fa_world s) w1) by (by split).
  assert (Ho3 : others h (of_host_path f) w1 w3).
  { eapply others_trans; [apply others_on_open|]. apply others_executable. }
  destruct (deliver (with_world w1 s) w3 h ptr out n sp ra f bs got "failed to write ReadFile stream bytes") as (e1 & e2 & Hr1 & Hr2 & Hres);
    [done|done|done|done|lia|done| |exact Ho3|].
  { apply view_after_read; [by right|done]. }
  erewrite bind_ok by exact Hr1. erewrite bind_ok by apply on_state_ok.
  rewrite decide_True by lia. erewrite bind_ok by exact (Hr2 w2). erewrite bind_ok by apply on_state_ok.
  eexists _, got. split; [apply set_error_ok|]. split; [by eapply has_read_world|]. split.
  { eapply (position_unmirrored _ _ (set_cursor (of_cursor f + len64 got) f)); [|apply (mi_streamed _ _ Hm Hst)].
    cbn [fa_world with_error with_world]. unfold w3. rewrite find_executable. by apply find_on_open. }
  split; [done|]. intros Hnil. destruct r as [g|] eqn:Hrr.
  - destruct (Hempty g eq_refl) as [?|?]; [done|by left|right; by left].
  - right; right. split; [done|]. exists p. split; [done|]. by rewrite Er.
Qed.

(** The two cases of ReadFile. *)
Lemma read_case : len64 bs < u64_lim → (of_streaming f = false → of_cursor f ≤ len64 bs) →
  ∃ s' got, (if of_streaming f then match of_host_path f with
      | None => refuse ERROR_INVALID_HANDLE 0
      | Some p => _ ← read_streaming h ptr n out f p; leave 1 end
      else _ ← read_buffered h ptr n out f; leave 1) s = leave 1 s' ∧ has_read s h ptr out sp ra f bs got s' ∧
    position s' h (of_cursor f + len64 got) ∧ may_read bs (of_cursor f) n got ∧
    (of_streaming f = false → got = take (Z.to_nat n) (drop (Z.to_nat (of_cursor f)) bs)) ∧
    (got = [] → n = 0 ∨ len64 bs ≤ of_cursor f ∨ host_cannot_read (fa_world s) f n).
Proof.
  intros Hlim Hle. destruct (of_streaming f) eqn:Hst.
  - destruct (of_host_path f) as [p|] eqn:Hp; [|unfold file_content in Hc; by rewrite Hst, Hp in Hc].
    destruct (read_streaming_spec p Hst Hp) as (s' & got & Hr & Hres & Hpos & Hmay & Hempty).
    exists s', got. split_and!; [by erewrite bind_ok by exact Hr|done|done|done|done|exact Hempty].
  - destruct (read_buffered_spec Hst (Hle eq_refl) Hlim) as (s' & got & Hr & Hres & Hpos & Hgot).
    exists s', got. split_and!; [by erewrite bind_ok by exact Hr|done|done|exists (Z.to_nat n); split; [lia|done]|done|].
    intros Hnil. rewrite Hgot in Hnil. apply (f_equal length) in Hnil. rewrite length_take, length_drop in Hnil.
    unfold len64 in *. cbn [length] in Hnil. destruct (decide (n = 0)); [by left|right; left; lia].
Qed.
End Read.

(** What ReadFile goes through before it reads: the count is cleared and the position
    taken from the slot. *)
Lemma before_read s h ptr out n sp ra f pos : call_frame (cpu_of s) sp ra → count_slot s out sp ptr n →
  find_open_file (files (fa_world s)) h = Some f → mirror_ok s f → (∀ x, in_table (io_of s) x → ¬ (out ≤ x < out + 4)) →
  position s h pos → in_u64 pos →
  ∃ e1 e2 w2, store32 out 0 s = (with_cpu e1 s, Ok tt) ∧
    swallow (sync_host_cursor_from_guest h) (with_cpu e1 s) = (with_world w2 (with_cpu e2 s), Ok tt) ∧
    kept (λ x, out ≤ x < out + 4) (cpu_of s) e2 ∧ call_frame e2 sp ra ∧ count_slot (with_world w2 (with_cpu e2 s)) out sp ptr n ∧
    find_open_file (files w2) h = Some (set_cursor pos f) ∧ others h None (fa_world s) w2 ∧ host w2 = host (fa_world s) ∧
    guest_io (files w2) = io_of s.
Proof.
  intros Hf Hcount Ho Hm Hap Hpos Hu.
  destruct (store_count s out sp ra ptr n 0 Hf Hcount) as (e1 & Hr1 & Hf1 & Hcount1 & Hfr1 & Hx1 & _ & _); [done|].
  assert (Hk1 : kept (λ x, out ≤ x < out + 4) (cpu_of s) e1) by (split; [apply Hf1|done|apply Hfr1|apply Hfr1]).
  destruct (sync_cursor_ok (λ x, out ≤ x < out + 4) (with_cpu e1 s) h f pos) as (e2 & w2 & Hr2 & Hu2 & Hk2 & Ho2 & Hoth & Hhost & Hio2).
  - apply Hf1.
  - exact Ho.
  - replace f with (set_cursor (of_cursor f) f) by (by destruct f). apply (mirror_ok_rw s); [done|apply Hk1|done].
  - exact Hu.
  - by eapply position_kept.
  - exists e1, e2, w2. split; [exact Hr1|]. split; [exact Hr2|]. split; [by eapply kept_trans|]. split.
    { eapply call_frame_unchanged; [exact Hf1|exact Hu2|exact (kp_ctx _ _ _ Hk2)]. }
    split; [|done]. destruct Hcount1 as [?|(Ha & Hrest)]; [by left|right]. split; [by eapply accessible_unchanged|done].
Qed.

(** C32 ReadFile on an open file reads at the file's position - the one in the file's
    slot of the guest's table, where the guest moves it too, or the host's when the file
    has no slot: the caller's buffer receives the bytes that lie there (of a file in
    memory as many as were asked for or are left; of a streamed file what the host
    delivers, and nothing only at the end or when the host cannot read), their count
    is stored, the position moves behind them, with the host and in the slot, the bytes
    of the file, the other files and the rest of memory stay as they are, and the call
    succeeds.  The position is taken not to lie past the end of a file in memory;
    what is written besides the buffer and the count is the guest's table, where the
    file's slot is, and the guest's copy of the file; they are taken to be accessible memory
    apart from the stack, the buffer, the count and each other, and a streamed file
    to have no slot. *)
Theorem read_file_refines s sp ra f bs pos :
  let h := reg_of s Rcx in let ptr := reg_of s Rdx in let n := reg_of s R8 in let out := reg_of s R9 in let w := fa_world s in
  call_frame (cpu_of s) sp ra → ptr ≠ 0 → 0 ≤ n < u32_lim → accessible (cpu_of s) ptr n → ptr + n ≤ sp ∨ sp + 8 ≤ ptr →
  count_slot s out sp ptr n → is_console_output_handle h = false → h ≠ FAKE_STDIN_HANDLE →
  find_open_file (files w) h = Some f → file_content w f = Some bs → len64 bs < u64_lim →
  mirror_ok s f → read_apart s ptr out n sp f →
  position s h pos → in_u64 pos → (of_streaming f = false → pos ≤ len64 bs) →
  ∃ s' got, handle_read_file s = (s', Ok (Return ra 1)) ∧
    may_read bs pos n got ∧
    (of_streaming f = false → got = take (Z.to_nat n) (drop (Z.to_nat pos) bs)) ∧
    (got = [] → n = 0 ∨ len64 bs ≤ pos ∨ host_cannot_read w (set_cursor pos f) n) ∧
    w_last_error (a_win (fa_api s')) = 0 ∧
    file_view (fa_world s') h = Some (bs, pos + len64 got) ∧ position s' h (pos + len64 got) ∧
    others h (of_host_path f) w (fa_world s') ∧
    holds (cpu_of s') ptr got ∧ (out ≠ 0 → holds (cpu_of s') out (le_bytes 4 (len64 got))) ∧
    ∀ x, ¬ (out ≤ x < out + 4) → ¬ (ptr ≤ x < ptr + len64 got) → ¬ in_mirror s f x → mem_get (cpu_of s') x = mem_get (cpu_of s) x.
Proof.
  intros h ptr n out w Hf Hptr Hn Hacc Hd Hcount Hcon Hin Hopen Hc Hlim Hm Hap Hpos Hu Hle. unfold handle_read_file.
  do 4 (erewrite bind_ok by apply arg_step).
  change (context_reg R8 _) with n. change (context_reg Rcx _) with h. change (context_reg Rdx _) with ptr.
  change (context_reg R9 _) with out.
  destruct (before_read s h ptr out n sp ra f pos Hf Hcount Hopen Hm) as (e1 & e2 & w2 & Hr1 & Hr2 & Hk & Hf2 & Hcount2 & Hopen2 & Ho2 & Hhost & Hio2);
    [intros x Hx; apply (Hap x); by left|done|done|].
  erewrite bind_ok by exact Hr1. rewrite decide_False, decide_False, Hcon by done. erewrite bind_ok by apply get_files_ok.
  assert (His : is_open_file_handle (files w) h = true) by (apply bool_decide_eq_true_2; by exists f).
  cbn [fa_world with_cpu]. fold w. rewrite His. cbn [negb]. erewrite bind_ok by exact Hr2. erewrite bind_ok by apply get_files_ok.
  erewrite bind_ok by (apply check_some; exact Hopen2). set (s2 := with_world w2 (with_cpu e2 s)). set (f2 := set_cursor pos f).
  assert (Hacc2 : accessible (cpu_of s2) ptr n) by (by eapply accessible_kept).
  assert (Hm2 : mirror_ok s2 f2) by (apply (mirror_ok_rw s); [exact Hio2|apply Hk|done]).
  assert (Hap2 : read_apart s2 ptr out n sp f2).
  { intros x [Hx|Hx]; apply (Hap x); [left; by rewrite <- Hio2|by right]. }
  assert (Hc2 : file_content (fa_world s2) f2 = Some bs).
  { rewrite <- Hc. unfold file_content. cbn [s2 fa_world with_world f2 set_cursor of_streaming of_host_path of_bytes]. by rewrite Hhost. }
  destruct (read_case s2 h ptr out n sp ra f2 bs Hf2 Hacc2 Hd Hn Hcount2 Hm2 Hap2 Hopen2 Hc2 Hu Hlim Hle)
    as (s' & got & Hr & Hres & Hpos' & Hmay & Hbuf & Hempty).
  destruct Hres as (Herr & Hf' & Hbuffer & Hcnt & Hview & Ho & Hrw & Hout).
  destruct (leave_ok 1 s' sp ra Hf') as (e3 & Hl & Hu3). exists (with_cpu e3 s'), got.
  split; [etrans; [exact Hr|exact Hl]|]. split_and!; [done|done| |exact Herr|exact Hview| | | | |].
  - intros Hg. destruct (Hempty Hg) as [?|[?|(? & p & ? & ?)]]; [by left|right; by left|right; right]. split; [done|]. exists p. split; [done|].
    unfold w; by rewrite <- Hhost.
  - unfold position in Hpos' |- *. cbn [fa_world with_cpu]. destruct (mirror_slot _ _) as [[? ?]|]; [by eapply holds_unchanged|done].
  - eapply others_trans; [|exact Ho]. destruct Ho2 as [Hx Hy Hz]. split; [exact Hx|intros q _; by apply Hy|exact Hz].
  - by eapply holds_unchanged.
  - intros Hne. eapply holds_unchanged; [exact Hu3|]. by apply Hcnt.
  - intros x Hx Hp Hmx. change (mem_get e3 x = mem_get (cpu_of s) x). rewrite (un_get _ _ Hu3), Hout; [by apply (kp_out _ _ _ Hk)|done|done|].
    intros [Ht|Ht]; apply Hmx; [left; by rewrite <- Hio2|by right].
Qed.

(** C33 A position past the end of a file in memory, where SetFilePointer and the guest
    may set it, is not the end of the file to ReadFile: whatever is asked for, the handler
    fails, and the position stays.  (The guest's table is accessible and apart from
    the count, as for [read_file_refines].) *)
Theorem read_past_end_fails s sp ra f pos :
  let h := reg_of s Rcx in let out := reg_of s R9 in let w := fa_world s in
  call_frame (cpu_of s) sp ra → reg_of s Rdx ≠ 0 → 0 ≤ reg_of s R8 → count_slot s out sp (reg_of s Rdx) (reg_of s R8) →
  is_console_output_handle h = false → h ≠ FAKE_STDIN_HANDLE →
  find_open_file (files w) h = Some f → of_streaming f = false →
  mirror_ok s f → (∀ x, in_table (io_of s) x → ¬ (out ≤ x < out + 4)) →
  position s h pos → in_u64 pos → len64 (of_bytes f) < pos →
  ∃ s', handle_read_file s = (s', Err (Message "ReadFile slice out of range")) ∧ file_view (fa_world s') h = Some (of_bytes f, pos).
Proof.
  intros h out w Hf Hptr Hn Hcount Hcon Hin Hopen Hst Hm Hap Hpos Hu Hcur. unfold handle_read_file.
  do 4 (erewrite bind_ok by apply arg_step).
  change (context_reg Rcx _) with h. change (context_reg Rdx _) with (reg_of s Rdx). change (context_reg R9 _) with out.
  destruct (before_read s h _ out _ sp ra f pos Hf Hcount Hopen Hm Hap Hpos Hu) as (e1 & e2 & w2 & Hr1 & Hr2 & _ & _ & _ & Hopen2 & _).
  erewrite bind_ok by exact Hr1. rewrite decide_False, decide_False, Hcon by done. erewrite bind_ok by apply get_files_ok.
  assert (His : is_open_file_handle (files w) h = true) by (apply bool_decide_eq_true_2; by exists f).
  cbn [fa_world with_cpu]. fold w. rewrite His. cbn [negb]. erewrite bind_ok by exact Hr2. erewrite bind_ok by apply get_files_ok.
  erewrite bind_ok by (apply check_some; exact Hopen2). cbn [of_streaming set_cursor]. rewrite Hst. unfold read_buffered. cbn [of_bytes of_cursor set_cursor].
  assert (Hz : sat_sub (len64 (of_bytes f)) pos = 0) by (unfold sat_sub; lia). rewrite Hz.
  change (context_reg R8 _) with (reg_of s R8). rewrite Z.min_r by lia. rewrite bind_assoc.
  erewrite bind_ok by (apply check_some; unfold checked_add; rewrite decide_True by (unfold in_u64 in Hu; lia); reflexivity).
  rewrite bind_assoc. erewrite bind_ok by apply on_state_ok. rewrite bind_assoc.
  unfold mbind at 1, M_bind at 1. unfold check at 1. rewrite decide_False by lia. eexists. split; [reflexivity|].
  unfold file_view. cbn [fa_world with_world]. rewrite find_on_open with (g := set_cursor pos f) by exact Hopen2.
  cbn [mbind option_bind of_cursor set_cursor]. unfold file_content. cbn [of_streaming of_bytes set_cursor]. rewrite Hst. cbn. by rewrite Z.add_0_r.
Qed.
End OpenFiles.

(** ** Opening and closing *)

(** What a creation disposition asks for, given whether the file exists: the
    table of CreateFile's documentation. *)
Inductive Plan := Refuse (e : u32) | Open | Truncate | Create.
Definition disposition_plan (d : u64) (existed : bool) : Plan :=
  if decide (d = CREATE_NEW) then if existed then Refuse ERROR_FILE_EXISTS else Create
  else if decide (d = CREATE_ALWAYS) then if existed then Truncate else Create
  else if decide (d = OPEN_EXISTING) then if existed then Open else Refuse FILE_NOT_FOUND
  else if decide (d = OPEN_ALWAYS) then if existed then Open else Create
  else if decide (d = TRUNCATE_EXISTING) then if existed then Truncate else Refuse FILE_NOT_FOUND
  else Refuse INVALID_PARAMETER.

Lemma paths_match_refl path : paths_match_guest path path = true.
Proof. unfold paths_match_guest, paths_equal_ci. by apply bool_decide_eq_true_2. Qed.
Lemma find_app_None {A} (f : A → bool) l l' : List.find f l = None → List.find f (l ++ l') = List.find f l'.
Proof. induction l as [|x l IH]; cbn; [done|]. destruct (f x); [done|]. apply IH. Qed.
(** Replacing the first match by another match. *)
Lemma find_insert_first {A} (f : A → bool) l i x y : list_find f l = Some (i, x) → f y = true → List.find f (<[i := y]> l) = Some y.
Proof.
  intros Hf Hy. apply list_find_Some in Hf as (Hi & _ & Hbefore). apply lookup_lt_Some in Hi as Hlt.
  rewrite insert_take_drop by done. rewrite find_app_None; [cbn; by rewrite Hy|].
  apply find_none_iff. intros z Hz. apply list_elem_of_lookup in Hz as [j Hj]. apply lookup_take_Some in Hj as [Hj Hji].
  specialize (Hbefore j z Hj Hji). by destruct (f z).
Qed.

Section Opening.
Context `{HostFs, !HostFsLaws}.
Implicit Types (w : World).

(** The bytes of the file a path names: the host's where a drive maps it, the
    process's own otherwise. *)
Definition guest_file w (path : str) : option (list u8) :=
  match host_of (files w) path with
  | Some p => content (host w) p
  | None => vf_bytes <$> find_virtual (files w) path
  end.
(** No mount, not the main module, and not both on a drive and in memory. *)
Definition plain_path (y : FileState) (path : str) : Prop :=
  is_main_module_path y path = false ∧ find_mount y path = None ∧ (host_of y path = None ∨ find_virtual y path = None).

Lemma is_file_content (fs : Fs) p : is_file fs p = bool_decide (is_Some (content fs p)).
Proof.
  unfold is_file. pose proof (metadata_content fs p) as Hm. destruct (content fs p) as [bs|].
  - rewrite Hm. symmetry. apply bool_decide_eq_true_2. by eexists.
  - rewrite bool_decide_eq_false_2 by (by intros [? ?]). destruct (fs_metadata fs p) as [[[] len]|]; [|done..].
    by destruct (Hm _ eq_refl).
Qed.
Lemma exists_guest_file w path : plain_path (files w) path → guest_path_exists w path = bool_decide (is_Some (guest_file w path)).
Proof.
  intros (Hm & Hmount & Hboth). unfold guest_path_exists, guest_file. rewrite Hm, Hmount. cbn [orb].
  destruct (host_of (files w) path) as [p|].
  - destruct Hboth as [?|Hv]; [done|]. rewrite Hv. cbn. apply is_file_content.
  - by destruct (find_virtual (files w) path).
Qed.

(** What an allocation did: the next handle names a file at its start. *)
Record opened w w' (h : u64) (path : str) (hp : option str) (bs : list u8) : Prop := {
  op_handle : h = next_file_handle (files w);
  op_view : file_view w' h = Some (bs, 0);
  op_path : ∃ f, find_open_file (files w') h = Some f ∧ of_path f = path ∧ of_host_path f = hp;
  op_others : ∀ k, k ≠ h → find_open_file (files w') k = find_open_file (files w) k;
  op_host : ∀ q, Some q ≠ hp → content (host w') q = content (host w) q;
  op_next : next_file_handle (files w') = h + 1;
}.

Lemma allocate_spec path bytes hp (force : bool) w w' r : allocate_open_file_ex path bytes hp force w = (w', r) →
  host w' = host w ∧ virtual_files (files w') = virtual_files (files w) ∧ volumes (files w') = volumes (files w) ∧
  match r with
  | None => w' = w
  | Some h =>
      h = next_file_handle (files w) ∧ next_file_handle (files w') = h + 1 ∧
      (∀ k, k ≠ h → find_open_file (files w') k = find_open_file (files w) k) ∧
      ∃ streaming : bool, find_open_file (files w') h = Some (mkOpen h path (if streaming then [] else bytes) 0 hp streaming None None) ∧
        (force = true → streaming = true) ∧
        (streaming = true → force = true ∨ is_Some hp ∧ BUFFER_SIZE_THRESHOLD < len64 bytes)
  end.
Proof.
  unfold allocate_open_file_ex. destruct (checked_add _ _) as [next|] eqn:Ea; [|by intros [= <- <-]].
  intros [= <- <-]. unfold checked_add in Ea. case_decide; [|done]. injection Ea as <-.
  set (streaming := _ || _).
  split; [done|]. split; [by destruct (is_main_module_path _ _)|]. split; [by destruct (is_main_module_path _ _)|].
  split; [done|]. split; [by destruct (is_main_module_path _ _)|]. split.
  { intros k Hk. unfold find_open_file. destruct (is_main_module_path _ _); cbn; by rewrite lookup_insert_ne. }
  exists streaming. split_and!.
  - unfold find_open_file. destruct (is_main_module_path _ _); cbn; by rewrite lookup_insert_eq.
  - intros ->. done.
  - unfold streaming. destruct force; [by left|]. cbn. rewrite !andb_true_iff. intros [[?%bool_decide_eq_true ?%bool_decide_eq_true] _].
    by right.
Qed.

Lemma host_set_len_spec p n (fs fs' : Fs) r : host_set_len p n fs = (fs', r) →
  (∀ q, q ≠ p → content fs' q = content fs q) ∧
  (r = Some tt → ∀ c, content fs p = Some c → content fs' p = Some (resize_bytes (Z.to_nat n) c)).
Proof.
  unfold host_set_len, io_bind. destruct (fs_open WriteExisting p fs) as [fs1 [f|]] eqn:Eo; intros Hr.
  - pose proof (open_named _ _ _ _ _ Eo) as Hn. pose proof (open_content _ _ _ _ _ Eo) as Hc. cbn in Hc. split.
    + intros q Hq. pose proof (set_len_frame f n fs1 q) as Hf. rewrite Hr in Hf. cbn [fst] in Hf. rewrite Hf by congruence.
      pose proof (open_frame WriteExisting p fs q Hq) as Hf'. by rewrite Eo in Hf'.
    + intros -> c Hcont. pose proof (set_len_content f n fs1 fs' Hr c) as Hres. rewrite Hn in Hres. apply Hres. by rewrite Hc.
  - injection Hr as <- <-. split; [|done]. intros q _. by eapply open_failed.
Qed.

(** What an allocation gives for a path the drives map to [hp]. *)
Lemma allocate_opened path bytes hp force w w' h bs : allocate_open_file_ex path bytes hp force w = (w', Some h) →
  (if force then p ← hp; content (host w) p else Some bytes) = Some bs →
  (∀ p, hp = Some p → BUFFER_SIZE_THRESHOLD < len64 bytes → force = false → content (host w) p = Some bytes) →
  opened w w' h path hp bs.
Proof.
  intros Ha Hbs Hlarge. destruct (allocate_spec _ _ _ _ _ _ _ Ha) as (Hh & Hv & _ & Hh1 & Hnext & Hother & st & Hf & Hforce & Hst).
  split; [done| |by eexists|done|by rewrite Hh|done].
  unfold file_view. rewrite Hf. cbn [mbind option_bind of_cursor]. unfold file_content. cbn [of_streaming of_host_path of_bytes].
  rewrite Hh. destruct st.
  - destruct force; [by rewrite Hbs|]. destruct (Hst eq_refl) as [?|[[p ->] Hlen]]; [done|]. cbn.
    rewrite (Hlarge p eq_refl Hlen eq_refl). cbn. by injection Hbs as ->.
  - destruct force; [by specialize (Hforce eq_refl)|]. cbn. by injection Hbs as ->.
Qed.
Lemma allocate_failed path bytes hp force w w' : allocate_open_file_ex path bytes hp force w = (w', None) → w' = w.
Proof. intros Ha. by destruct (allocate_spec _ _ _ _ _ _ _ Ha) as (_ & _ & _ & ->). Qed.

(** The bytes the code reads of a plain path are the file's. *)
Lemma resolve_guest_file w path bs : plain_path (files w) path → guest_file w path = Some bs →
  resolve_guest_file_bytes w path = match host_of (files w) path with Some p => fs_read (host w) p | None => Some bs end.
Proof.
  intros (Hm & Hmount & _) Hg. unfold resolve_guest_file_bytes, guest_file in *. rewrite Hm, Hmount.
  destruct (host_of (files w) path) as [p|].
  - rewrite is_file_content, Hg, bool_decide_eq_true_2 by (by eexists). done.
  - destruct (find_virtual (files w) path) as [v|]; [|done]. by injection Hg as <-.
Qed.

Definition truncation_refused w (hp : option str) (truncate : bool) : Prop :=
  truncate = true ∧ ∃ p, hp = Some p ∧ (host_set_len p 0 (host w)).2 = None.

Lemma opened_trans w w1 w' h path hp bs : files w1 = files w → (∀ q, Some q ≠ hp → content (host w1) q = content (host w) q) →
  opened w1 w' h path hp bs → opened w w' h path hp bs.
Proof.
  intros Hf Hh [? ? ? Ho Hq Hn]. rewrite Hf in *. split; try done. intros q Hne. by rewrite Hq, Hh.
Qed.

Lemma open_existing_spec w path (truncate : bool) bs w' r : plain_path (files w) path → guest_file w path = Some bs →
  open_existing_guest_file path (host_of (files w) path) truncate w = (w', r) →
  match r with
  | inl h => opened w w' h path (host_of (files w) path) (if truncate then [] else bs) ∨
             truncation_refused w (host_of (files w) path) truncate
  | inr e => open_files (files w') = open_files (files w)
  end.
Proof.
  intros Hplain Hg. pose proof Hplain as (Hm & Hmount & _). unfold open_existing_guest_file. rewrite Hm, Hmount. cbn [negb].
  set (hp := host_of (files w) path) in *. set (host_path := match hp with Some h => Some h | None => _ end).
  assert (Hhp : host_path = hp) by (unfold host_path; by destruct hp). rewrite Hhp. clear host_path Hhp.
  set (large := match hp with Some h => _ | None => _ end).
  assert (Hlarge : match large with
                   | Some p => hp = Some p
                   | None => ∀ p, hp = Some p → len64 bs ≤ BUFFER_SIZE_THRESHOLD
                   end).
  { unfold large, guest_file in *. fold hp in Hg. destruct hp as [p|]; [|done]. pose proof (metadata_content (host w) p) as Hmeta.
    rewrite Hg in Hmeta. rewrite Hmeta. case_decide as Hlen; [done|]. intros q _. unfold len64 in *. lia. }
  destruct large as [p|].
  - intros Hr. set (w1 := if truncate then _ else w) in Hr.
    assert (Hw1 : files w1 = files w ∧ (∀ q, Some q ≠ hp → content (host w1) q = content (host w) q) ∧
      (content (host w1) p = Some (if truncate then [] else bs) ∨ truncation_refused w hp truncate)).
    { unfold guest_file in Hg. fold hp in Hg. rewrite Hlarge in Hg. unfold w1. destruct truncate; [|split_and!; [done..|by left]].
      unfold try_host, on_host_fs. destruct (host_set_len p 0 (host w)) as [fs rr] eqn:Es.
      destruct (host_set_len_spec _ _ _ _ _ Es) as [Hother Hself]. split_and!; [done| |].
      - intros q Hq. apply Hother. congruence.
      - destruct rr as [[]|]; [left; by apply (Hself eq_refl bs)|right; split; [done|]]. exists p. by rewrite Es. }
    destruct Hw1 as (Hf1 & Hq1 & Hc1). unfold or_error in Hr.
    destruct (allocate_open_file_ex path [] (Some p) true w1) as [w2 [h|]] eqn:Ea; cbn in Hr; injection Hr as <- <-.
    + destruct Hc1 as [Hc1|?]; [left|by right]. eapply opened_trans; [exact Hf1|exact Hq1|]. rewrite Hlarge.
      eapply allocate_opened; [exact Ea|exact Hc1|done].
    + by rewrite (allocate_failed _ _ _ _ _ _ Ea), Hf1.
  - rewrite (resolve_guest_file w path bs Hplain Hg). fold hp.
    assert (Hread : match hp with Some p => fs_read (host w) p | None => Some bs end = None ∨
                    match hp with Some p => fs_read (host w) p | None => Some bs end = Some bs).
    { unfold guest_file in Hg. fold hp in Hg. destruct hp as [p|]; [|by right]. destruct (fs_read (host w) p) as [c|] eqn:Er; [|by left].
      right. apply read_content in Er. congruence. }
    destruct Hread as [-> | ->]; [by intros [= <- <-]|]. unfold or_error, allocate_open_file. intros Hr.
    destruct (allocate_open_file_ex path _ hp false w) as [w2 [h|]] eqn:Ea; cbn in Hr; injection Hr as <- <-.
    + left. eapply allocate_opened; [exact Ea|done|]. intros p Hp Hlen _. specialize (Hlarge p Hp). destruct truncate; unfold BUFFER_SIZE_THRESHOLD, len64 in *; cbn in *; lia.
    + by rewrite (allocate_failed _ _ _ _ _ _ Ea).
Qed.

Lemma create_new_spec w path w' r :
  create_new_guest_file path (host_of (files w) path) w = (w', r) →
  match r with
  | inl h => opened w w' h path (host_of (files w) path) []
  | inr e => open_files (files w') = open_files (files w)
  end.
Proof.
  unfold create_new_guest_file. destruct (host_of (files w) path) as [p|].
  - unfold on_host_fs. destruct (create_parents p (host w)) as [fs1 r1] eqn:E1.
    assert (H1c : ∀ q, content fs1 q = content (host w) q).
    { intros q. pose proof (create_parents_content p (host w) q) as Hc. by rewrite E1 in Hc. }
    destruct r1 as [[]|]; [|by intros [= <- <-]]. cbn [host files].
    destruct (fs_write p [] fs1) as [fs2 r2] eqn:E2. destruct r2 as [[]|]; [|by intros [= <- <-]].
    unfold or_error. destruct (allocate_open_file_ex path [] (Some p) true _) as [w2 [h|]] eqn:Ea; cbn; intros [= <- <-].
    + eapply opened_trans with (w1 := mkWorld (files w) fs2); [done| |].
      { intros q Hq. cbn. pose proof (write_frame p [] fs1 q) as Hf. rewrite E2 in Hf. cbn [fst] in Hf. rewrite Hf by congruence. apply H1c. }
      eapply allocate_opened; [exact Ea| |done]. cbn. by apply (write_content _ _ _ _ E2).
    + by rewrite (allocate_failed _ _ _ _ _ _ Ea).
  - unfold or_error, allocate_open_file. set (w1 := on_files _ w).
    assert (Hw1 : open_files (files w1) = open_files (files w) ∧ next_file_handle (files w1) = next_file_handle (files w)).
    { unfold w1, on_files, ensure_virtual_file. cbn. by destruct (find_virtual _ _). }
    destruct (allocate_open_file_ex path [] None false w1) as [w2 [h|]] eqn:Ea; cbn; intros [= <- <-].
    + pose proof (allocate_opened _ _ _ _ _ _ _ [] Ea eq_refl ltac:(done)) as [Hh Hv Hp Ho Hq Hn]. destruct Hw1 as [Hof Hnf].
      split; [by rewrite Hh, Hnf|done|done| |done|done]. intros k Hk. rewrite Ho by done. unfold find_open_file. by rewrite Hof.
    + by rewrite (allocate_failed _ _ _ _ _ _ Ea), (proj1 Hw1).
Qed.

(** How the outcome is reported; only [HandleExists] sets ERROR_ALREADY_EXISTS. *)
Definition reported (d : u64) (existed : bool) : u64 → OpenFileOutcome :=
  if existed then if decide (d = CREATE_ALWAYS ∨ d = OPEN_ALWAYS) then HandleExists else Handle else HandleCreated.

Lemma outcome_inv f (m : World * (u64 + u32)) w' r : outcome f m = (w', r) →
  ∃ r', m = (w', r') ∧ r = match r' with inl h => inl (f h) | inr e => inr e end.
Proof. unfold outcome. destruct m as [w1 [h|e]]; intros [= <- <-]; by eexists. Qed.

(** The dispatch on the disposition, apart from the path it is for. *)
Definition by_disposition w0 path (hp : option str) (existed : bool) (d : u64) : World * (OpenFileOutcome + u32) :=
  let existing truncate f := outcome f (open_existing_guest_file path hp truncate w0) in
  let create := outcome HandleCreated (create_new_guest_file path hp w0) in
  if decide (d = CREATE_NEW) then if existed then (w0, inr ERROR_FILE_EXISTS) else create
  else if decide (d = CREATE_ALWAYS) then if existed then existing true HandleExists else create
  else if decide (d = OPEN_EXISTING) then if existed then existing false Handle else (w0, inr FILE_NOT_FOUND)
  else if decide (d = OPEN_ALWAYS) then if existed then existing false HandleExists else create
  else if decide (d = TRUNCATE_EXISTING) then if existed then existing true Handle else (w0, inr FILE_NOT_FOUND)
  else (w0, inr INVALID_PARAMETER).
Lemma open_by_disposition guest_path d w : guest_path ≠ [] →
  open_or_create_guest_path guest_path d w =
  let w0 := on_files sync_volumes w in
  let path := full_path (files w0) guest_path in
  by_disposition w0 path (host_of (files w0) path) (guest_path_exists w0 path) d.
Proof. intros Hne. unfold open_or_create_guest_path. by rewrite decide_False by done. Qed.

(** What the theorem says of one plan. *)
Definition follows w0 path hp (old : option (list u8)) (d : u64) (existed : bool) w' (r : OpenFileOutcome + u32) (plan : Plan) : Prop :=
  match plan with
  | Refuse e => w' = w0 ∧ r = inr e
  | plan =>
      match r with
      | inr _ => open_files (files w') = open_files (files w0)
      | inl o =>
          o = reported d existed (outcome_handle o) ∧
          (opened w0 w' (outcome_handle o) path hp (match plan with Open => default [] old | _ => [] end) ∨
           plan = Truncate ∧ truncation_refused w0 hp true)
      end
  end.

Lemma existing_follows w0 path hp old d (truncate : bool) f w' r : hp = host_of (files w0) path → old = guest_file w0 path →
  plain_path (files w0) path → is_Some old → (∀ h, outcome_handle (f h) = h) → reported d true = f →
  outcome f (open_existing_guest_file path hp truncate w0) = (w', r) →
  follows w0 path hp old d true w' r (if truncate then Truncate else Open).
Proof.
  intros -> -> Hplain [bs Hbs] Hfh Hrep (r' & Hr' & ->)%outcome_inv.
  pose proof (open_existing_spec w0 path truncate bs w' r' Hplain Hbs Hr') as Hspec. unfold follows. rewrite Hrep, Hbs.
  destruct truncate, r' as [h|e]; try exact Hspec; rewrite Hfh.
  - split; [done|]. destruct Hspec as [?|?]; [by left|by right].
  - split; [done|]. destruct Hspec as [?|[? _]]; [by left|done].
Qed.
Lemma created_follows w0 path hp old d w' r : hp = host_of (files w0) path →
  outcome HandleCreated (create_new_guest_file path hp w0) = (w', r) → follows w0 path hp old d false w' r Create.
Proof.
  intros -> (r' & Hr' & ->)%outcome_inv. pose proof (create_new_spec w0 path w' r' Hr') as Hspec. unfold follows.
  destruct r'; [|exact Hspec]. split; [done|by left].
Qed.

Lemma by_disposition_follows w0 path hp old (existed : bool) d w' r : hp = host_of (files w0) path → old = guest_file w0 path →
  plain_path (files w0) path → (if existed then is_Some old else True) → by_disposition w0 path hp existed d = (w', r) →
  follows w0 path hp old d existed w' r (disposition_plan d existed).
Proof.
  intros Hhp Hold Hplain Hex. unfold by_disposition, disposition_plan.
  assert (Hopen : ∀ (truncate : bool) f, existed = true → (∀ h, outcome_handle (f h) = h) → reported d true = f →
    outcome f (open_existing_guest_file path hp truncate w0) = (w', r) →
    follows w0 path hp old d existed w' r (if truncate then Truncate else Open)).
  { intros truncate f He Hfh Hrep Ho. rewrite He in *. by eapply existing_follows. }
  assert (Hnew : existed = false → outcome HandleCreated (create_new_guest_file path hp w0) = (w', r) →
    follows w0 path hp old d existed w' r Create).
  { intros He Ho. rewrite He. by apply created_follows. }
  unfold reported in Hopen.
  destruct (decide (d = CREATE_NEW)) as [D1|D1]; [|destruct (decide (d = CREATE_ALWAYS)) as [D2|D2];
    [|destruct (decide (d = OPEN_EXISTING)) as [D3|D3]; [|destruct (decide (d = OPEN_ALWAYS)) as [D4|D4];
    [|destruct (decide (d = TRUNCATE_EXISTING)) as [D5|D5]]]]]; destruct existed; intros Hr.
  all: try (by injection Hr as <- <-).
  all: try (by apply Hnew).
  - apply (Hopen true HandleExists); [done|done|by rewrite decide_True by (by left)|done].
  - apply (Hopen false Handle); [done|done|rewrite decide_False; [done|intros [?|?]; subst; discriminate]|done].
  - apply (Hopen false HandleExists); [done|done|by rewrite decide_True by (by right)|done].
  - apply (Hopen true Handle); [done|done|by rewrite decide_False by tauto|done].
Qed.

(** CreateFile follows the table of dispositions: for a path that no mount
    and no loaded module claims, what happens depends on the disposition and on
    whether the file exists.  A refusal changes nothing and reports the
    documented error; otherwise success is the next handle on the file, at its
    start, holding the file's bytes when it was opened and none when it was
    created or truncated (unless the host refused to truncate), no other handle and
    no other host file changes, and a failure opens nothing. *)
Theorem open_follows_plan guest_path d w w' r :
  let w0 := on_files sync_volumes w in
  let path := full_path (files w0) guest_path in
  let old := guest_file w0 path in
  let existed := bool_decide (is_Some old) in
  guest_path ≠ [] → plain_path (files w0) path → open_or_create_guest_path guest_path d w = (w', r) →
  follows w0 path (host_of (files w0) path) old d existed w' r (disposition_plan d existed).
Proof.
  intros w0 path old existed Hne Hplain. rewrite open_by_disposition by done. cbv zeta. fold w0 path.
  rewrite (exists_guest_file w0 path Hplain). apply by_disposition_follows; [done|done|done|].
  unfold existed. case_bool_decide; done.
Qed.
End Opening.

(** *** Closing *)

Section Closing.
Context {E : Type} `{HostFs, HostConsole, CpuApiLaws E, !HostFsLaws}.
Implicit Types (s : FileApi E) (w : World).

(** The host refused to store the bytes of a closing file. *)
Definition store_refused w (f : OpenGuestFile) : Prop :=
  of_streaming f = false ∧ ∃ p, of_host_path f = Some p ∧
    (fs_write p (of_bytes f) (create_parents p (host w)).1).2 = None.

Lemma sync_spec path h y f : find_open_file y h = Some f →
  let y' := sync_open_bytes_to_virtual path h y in
  (∃ l, y' = set_virtual_files l y) ∧
  (of_host_path f = None → of_streaming f = false → is_main_module_path y path = false → host_of y path = None →
   find_mount y path = None → vf_bytes <$> find_virtual y' path = Some (of_bytes f)) ∧
  (of_host_path f ≠ None → virtual_files y' = virtual_files y).
Proof.
  intros Hf. unfold sync_open_bytes_to_virtual. rewrite Hf.
  assert (Hid : y = set_virtual_files (virtual_files y) y) by (by destruct y).
  destruct (_ || _) eqn:Eb.
  { split; [by exists (virtual_files y)|]. split; [|done]. intros Hh Hst Hm Hho Hmo. by rewrite Hh, Hst, Hm, Hho, Hmo in Eb. }
  destruct (list_find _ (virtual_files y)) as [[i v]|] eqn:El.
  - split; [by eexists|]. split; [|intros Hh; rewrite bool_decide_eq_true_2 in Eb by (destruct (of_host_path f); [by eexists|done]); done].
    intros _ _ _ _ _. unfold find_virtual. cbn. apply list_find_Some in El as (Hi & Hmatch & Hbefore).
    erewrite find_insert_first; [done| |]; [|cbn; by apply Is_true_eq_true].
    apply list_find_Some. split; [exact Hi|]. split; [exact Hmatch|]. intros j z Hj Hlt. exact (Hbefore j z Hj Hlt).
  - split; [by eexists|]. split; [|intros Hh; rewrite bool_decide_eq_true_2 in Eb by (destruct (of_host_path f); [by eexists|done]); done].
    intros _ _ _ _ _. unfold find_virtual. cbn. rewrite find_app_None; [cbn [List.find vf_guest_path]; by rewrite paths_match_refl|].
    apply list_find_None in El. apply find_none_iff. intros z Hz. rewrite Forall_forall in El. specialize (El z Hz).
    by destruct (paths_match_guest path (vf_guest_path z)).
Qed.

Lemma persist_spec h w f : find_open_file (files w) h = Some f → ∃ fs, persist_open_file_to_host h w = mkWorld (files w) fs ∧
  (∀ q, Some q ≠ of_host_path f → content fs q = content (host w) q) ∧
  (of_streaming f = true → fs = host w) ∧
  (∀ p, of_streaming f = false → of_host_path f = Some p → content fs p = Some (of_bytes f) ∨ store_refused w f).
Proof.
  intros Hf. unfold persist_open_file_to_host. rewrite Hf. destruct (of_streaming f) eqn:Hst; [by exists (host w); destruct w|].
  destruct (of_host_path f) as [p|] eqn:Hp; [|by exists (host w); destruct w].
  unfold try_host, on_host_fs. destruct (create_parents p (host w)) as [fs1 r1] eqn:E1. cbn [fst host files].
  destruct (fs_write p (of_bytes f) fs1) as [fs2 r2] eqn:E2. exists fs2. split_and!; [done| |done|].
  - intros q Hq. pose proof (write_frame p (of_bytes f) fs1 q) as Hfr. rewrite E2 in Hfr. cbn [fst] in Hfr. rewrite Hfr by congruence.
    pose proof (create_parents_content p (host w) q) as Hc. by rewrite E1 in Hc.
  - intros p' _ [= <-]. destruct r2 as [[]|]; [left; by apply (write_content _ _ _ _ E2)|right]. split; [done|]. exists p.
    split; [done|]. rewrite E1. cbn [fst]. by rewrite E2.
Qed.

(** CloseHandle keeps what was written: closing a handle on a file that no
    mount and no loaded module claims succeeds, forgets that handle and no other,
    and leaves the path naming a file with exactly the bytes the handle had -
    in the process's memory or on the host, whichever holds the path - and every
    other host file as it was, unless the host refuses to store them. *)
Theorem close_keeps_bytes s sp ra f bs :
  let h := reg_of s Rcx in let w := fa_world s in let path := of_path f in
  call_frame (cpu_of s) sp ra → h ≠ 0 → h ≠ INVALID_HANDLE_VALUE → guest_io (files w) = None →
  find_open_file (files w) h = Some f → file_content w f = Some bs → plain_path (files w) path →
  of_host_path f = host_of (files w) path →
  ∃ s', handle_close_handle s = (s', Ok (Return ra 1)) ∧
    (guest_file (fa_world s') path = Some bs ∨ store_refused w f) ∧
    find_open_file (files (fa_world s')) h = None ∧
    (∀ k, k ≠ h → find_open_file (files (fa_world s')) k = find_open_file (files w) k) ∧
    (∀ q, Some q ≠ of_host_path f → content (host (fa_world s')) q = content (host w) q) ∧
    w_last_error (a_win (fa_api s')) = 0 ∧ unchanged (cpu_of s) (cpu_of s').
Proof.
  intros h w path Hf Hnz Hinv Hio Hopen Hc (Hm & Hmount & _) Hhost. unfold handle_close_handle.
  erewrite bind_ok by apply reg_ok. change (context_reg Rcx _) with h.
  rewrite decide_False by tauto. rewrite !bind_assoc. erewrite bind_ok by apply get_files_ok. fold w. rewrite Hopen.
  rewrite !bind_assoc. erewrite bind_ok by apply on_state_ok. fold w path.
  destruct (sync_spec path h (files w) f Hopen) as ([l Hl] & Hvirt & Hkeep). fold path in Hl, Hvirt, Hkeep.
  set (w1 := on_files (sync_open_bytes_to_virtual path h) w).
  assert (Hw1 : files w1 = set_virtual_files l (files w)) by (unfold w1; cbn; exact Hl).
  assert (Hopen1 : find_open_file (files w1) h = Some f) by (rewrite Hw1; exact Hopen).
  destruct (persist_spec h w1 f Hopen1) as (fs & Hp & Hframe & Hstream & Hstore).
  rewrite !bind_assoc. erewrite bind_ok by (unfold world; cbn [fa_world with_world]; fold w1; rewrite Hp; reflexivity).
  set (s2 := mkFileApi _ _ _). rewrite !bind_assoc.
  erewrite bind_ok.
  2: { instantiate (1 := tt). instantiate (1 := s2). apply swallow_ok. unfold unregister_open_file. erewrite bind_ok by apply get_files_ok.
       cbn [fa_world s2 files]. rewrite Hw1. change (guest_io (set_virtual_files l (files w))) with (guest_io (files w)). by rewrite Hio. }
  rewrite !bind_assoc. erewrite bind_ok by apply on_state_ok. rewrite !bind_assoc. erewrite bind_ok by apply set_error_ok.
  set (s3 := with_error 0 _). destruct (done_ok 1 "CloseHandle" s3 sp ra) as (e' & Hr & Hu); [exact Hf|].
  exists (with_cpu e' s3). split; [exact Hr|].
  assert (Hfiles : files (fa_world s3) = set_open_files (delete h (open_files (files w1))) (files w1)) by reflexivity.
  assert (Hfs : host (fa_world s3) = fs) by reflexivity. change (fa_world (with_cpu e' s3)) with (fa_world s3).
  split_and!; [| | | |done|exact Hu].
  - unfold guest_file. rewrite Hfs, Hfiles. change (host_of (set_open_files _ (files w1)) path) with (host_of (files w1) path).
    assert (Hho : host_of (files w1) path = of_host_path f) by (rewrite Hw1; exact (eq_sym Hhost)). rewrite Hho.
    change (find_virtual (set_open_files _ (files w1)) path) with (find_virtual (files w1) path).
    unfold file_content in Hc. destruct (of_streaming f) eqn:Hst.
    + destruct (of_host_path f) as [p|]; [|done]. cbn in Hc. left. by rewrite (Hstream eq_refl).
    + injection Hc as <-. destruct (of_host_path f) as [p|] eqn:Hpp.
      * destruct (Hstore p eq_refl eq_refl) as [?|?]; [by left|by right].
      * left. apply Hvirt; [done|done|exact Hm|by rewrite <- Hhost|exact Hmount].
  - rewrite Hfiles. unfold find_open_file. cbn. apply lookup_delete_eq.
  - intros k Hk. rewrite Hfiles, Hw1. unfold find_open_file. cbn. by rewrite lookup_delete_ne.
  - intros q Hq. rewrite Hfs. by apply Hframe.
Qed.
End Closing.
