(* ===== verification/seh.v ===== *)
(** * Exception dispatch (crates/wie-winapi/src/seh.rs)

    The search walks the stack for a frame that handles the exception and plans
    the guest calls of the second pass: destructors and cleanup pads of the
    frames in between, then the catch funclet or landing pad.  The plan is kept
    in the process state and run one guest call at a time. *)

From S2P Require Import Prelude utf regs insn vad mem engine cpu sync_obj guest_heap guest_string fake_va thread win32.
From S2P Require Import exception lsda msvc_eh.

Definition MAX_FRAMES : nat := 64.
Definition GCC_EXCEPTION_CODE : u32 := 0x20474343.
Definition MSVC_EXCEPTION_CODE : u32 := 0xe06d7363.
Definition GCC_TYPEINFO_FROM_UNWIND_HDR : u64 := 0x50.
Definition GCC_ADJUSTED_PTR_FROM_UNWIND_HDR : u64 := 8.
Definition GCC_OBJECT_FROM_UNWIND_HDR : u64 := 0x40.

Record ThrowPayload := mkPayload { exception_object : u64; throw_info : u64; gcc_throw : bool }.
Definition no_payload : ThrowPayload := mkPayload 0 0 false.

(** ** One frame *)

Record Unwound := mkUnwoundFrame {
  uw_ctx : UnwindContext;
  uw_image_base : u64;
  uw_entry : RuntimeFunction;
  uw_unwind_va : u64;
  uw_exception_data_va : option u64;
}.
Record ResolvedPad := mkPad { rp_landing_pad : u64; rp_msvc : option MsvcCatch; rp_switch_value : option u64 }.
Record HandlerFound := mkFound {
  hf_landing_pad : u64;
  catch_ctx : UnwindContext;
  hf_exception_object : option u64;
  hf_msvc : option MsvcCatch;
  hf_image_base : u64;
  hf_switch_value : option u64;
}.

Definition dummy_entry : RuntimeFunction := mkRuntimeFunction 0 0 0.
Definition new_ctx (rip rsp : u64) (tctx : ThreadContext) : UnwindContext :=
  mkUnwind rip rsp (<[4%nat := rsp]> (tc_gpr tctx)) (tc_xmm tctx).
Definition candidates (u : Unwound) (hdata : u32) : list u64 :=
  language_data_candidates (uw_image_base u) (uw_unwind_va u) hdata (uw_exception_data_va u).

(** [map_err] to a text. *)
Definition relabel {A} (text : string) (r : res A) : res A := match r with Err _ => Err (Message text) | r => r end.

(** The first candidate with an answer. *)
Fixpoint first_some {A} (f : u64 → res (option A)) (l : list u64) : res (option A) :=
  match l with
  | [] => Ok None
  | x :: l => o ← f x; match (o : option A) with Some a => Ok (Some a) | None => first_some f l end
  end.

Section Frames.
(** Guest memory, the order in which the host lists the function tables, and the
    native stack a chain of unwind infos may use. *)
Context (read_mem : u64 → nat → res (list u8)).
Context (order : gmap u64 (list RuntimeFunction) → list (u64 * list RuntimeFunction)) (depth : nat).
Context (y : SyncState).

Definition unwind_one (current : UnwindContext) : res (Unwound * option u32) :=
  entry ← lookup_function_entry order y (uc_rip current);
  match entry with
  | None =>
      buf ← relabel "leaf unwind: stack unreadable" (read_mem (uc_rsp current) 8%nat);
      let caller := mkUnwind (le_val buf) (sat_add (uc_rsp current) 8) (uc_gpr current) (uc_xmm current) in
      Ok (mkUnwoundFrame caller 0 dummy_entry 0 None, None)
  | Some e =>
      let unwind_va := sat_add (fe_image_base e) (unwind_data (fe_entry e)) in
      r ← relabel "virtual_unwind failed" (virtual_unwind read_mem depth (fe_image_base e) (fe_entry e) current);
      Ok (mkUnwoundFrame (ur_ctx r) (fe_image_base e) (fe_entry e) unwind_va (exception_data_va r), handler_data r)
  end.

Definition gcc_thrown_typeinfo_from_mem (unwind_exception : u64) : res (option u64) :=
  if decide (unwind_exception = 0) then Ok None
  else
    buf ← attempt (read_mem (sat_sub unwind_exception GCC_TYPEINFO_FROM_UNWIND_HDR) 8%nat);
    Ok (match buf with
        | Some buf => if decide (le_val buf = 0) then None else Some (le_val buf)
        | None => None
        end).

(** ** The landing pad of a frame *)

Definition in_image (u : Unwound) (va : u64) : bool :=
  bool_decide (uw_image_base u ≠ 0) && bool_decide (uw_image_base u ≤ va) &&
  bool_decide (va < sat_add (uw_image_base u) (64 * 1024 * 1024)) &&
  bool_decide (sat_sub (begin_va (uw_entry u) (uw_image_base u)) 0x100000 ≤ va).

Definition msvc_pad (u : Unwound) (control_pc throw_info : u64) (fi_va : u64) : res (option ResolvedPad) :=
  c ← find_msvc_catch read_mem (uw_image_base u) fi_va control_pc throw_info;
  Ok (match (c : option MsvcCatch) with
      | Some c => if in_image u (mc_landing_pad c) then Some (mkPad (mc_landing_pad c) (Some c) None) else None
      | None => None
      end).
(** A typed match, and when that fails a match without types that is a catch-all. *)
Definition itanium_pad (u : Unwound) (control_pc : u64) (thrown_typeinfo : option u64) (lsda_va : u64) : res (option ResolvedPad) :=
  let search (thrown : option u64) : res (option LandingPadMatch) :=
    m ← find_landing_pad_ex read_mem (uw_image_base u) (begin_va (uw_entry u) (uw_image_base u)) control_pc thrown lsda_va;
    Ok (match (m : option LandingPadMatch) with
        | Some m => if decide (landing_pad m ≠ 0 ∧ in_image u (landing_pad m) = true) then Some m else None
        | None => None
        end) in
  m ← search thrown_typeinfo;
  match (m : option LandingPadMatch) with
  | Some m => Ok (Some (mkPad (landing_pad m) None (Some (as_u 64 (switch_value m)))))
  | None =>
      match thrown_typeinfo with
      | None => Ok None
      | Some _ =>
          m ← search None;
          Ok (match (m : option LandingPadMatch) with
              | Some m => if decide (switch_value m = 0) then Some (mkPad (landing_pad m) None (Some 0)) else None
              | None => None
              end)
      end
  end.

Definition resolve_landing_pad (control_pc : u64) (u : Unwound) (language_data : u32) (payload : ThrowPayload)
    (thrown_typeinfo : option u64) : res (option ResolvedPad) :=
  if decide (uw_image_base u = 0 ∨ uw_unwind_va u = 0) then Ok None
  else
    let cs := candidates u language_data in
    if negb (gcc_throw payload) && bool_decide (throw_info payload ≠ 0)
    then first_some (msvc_pad u control_pc (throw_info payload)) cs
    else
      m ← first_some (itanium_pad u control_pc thrown_typeinfo) cs;
      match (m : option ResolvedPad) with
      | Some m => Ok (Some m)
      | None => if gcc_throw payload then Ok None else first_some (msvc_pad u control_pc 0) cs
      end.

(** ** The guest calls of a frame the exception passes *)

Definition action_steps (image_base establisher : u64) (rvas : list u32) : list SehStep :=
  (λ a, Action (sat_add image_base a) establisher) <$> rvas.

(** The actions of the first candidate that is a FuncInfo. *)
Definition msvc_frame_actions (u : Unwound) (frame : UnwindContext) (fi_va : u64) : res (option (list SehStep)) :=
  info ← attempt (parse_func_info read_mem fi_va);
  match (info : option FuncInfoHeader) with
  | None => Ok None
  | Some info =>
      st ← attempt (state_for_ip read_mem (uw_image_base u) info (uc_rip frame));
      match (st : option Z) with
      | None => Ok (Some [])
      | Some st =>
          acts ← collect_unwind_actions read_mem (uw_image_base u) (unwind_map_rva info) (max_state info) st (-1);
          Ok (Some (action_steps (uw_image_base u) (uc_rsp frame) acts))
      end
  end.
Definition exception_pointer (payload : ThrowPayload) : option u64 :=
  if decide (exception_object payload ≠ 0) then Some (exception_object payload) else None.
Definition cleanup_pad (u : Unwound) (frame : UnwindContext) (payload : ThrowPayload) (lsda_va : u64) : res (option SehStep) :=
  c ← find_cleanup_landing_pad read_mem (uw_image_base u) (begin_va (uw_entry u) (uw_image_base u)) (uc_rip frame) lsda_va;
  Ok ((λ c, Jump (landing_pad c) (uc_rsp frame) (uc_gpr frame) (uc_xmm frame) (exception_pointer payload) (Some 0))
        <$> (c : option LandingPadMatch)).
Definition intermediate_steps (u : Unwound) (frame : UnwindContext) (payload : ThrowPayload) (hdata : option u32) : res (list SehStep) :=
  match hdata with
  | None => Ok []
  | Some hdata =>
      let cs := candidates u hdata in
      acts ← first_some (msvc_frame_actions u frame) cs;
      match (acts : option (list SehStep)) with
      | Some acts => Ok acts
      | None => c ← first_some (cleanup_pad u frame payload) cs; Ok (option_list c)
      end
  end.
(** The frame that catches: the locals inside its try block. *)
Definition catch_actions (u : Unwound) (frame : UnwindContext) (msvc : option MsvcCatch) : res (list SehStep) :=
  match msvc with
  | None => Ok []
  | Some c =>
      acts ← collect_unwind_actions read_mem (uw_image_base u) (unwind_map_rva (func_info c)) (max_state (func_info c))
               (mc_state c) (try_low c);
      Ok (action_steps (uw_image_base u) (uc_rsp frame) acts)
  end.

(** ** The search *)

Definition search_frame (payload : ThrowPayload) (thrown_typeinfo : option u64) (_ : Z) (s : UnwindContext * list SehStep)
    : res (UnwindContext * list SehStep + option (HandlerFound * list SehStep)) :=
  let '(frame, steps) := s in
  '(u, hdata) ← unwind_one frame;
  pad ← match hdata with
        | Some h => resolve_landing_pad (uc_rip frame) u h payload thrown_typeinfo
        | None => Ok None
        end;
  match (pad : option ResolvedPad) with
  | Some pad =>
      acts ← catch_actions u frame (rp_msvc pad);
      Ok (inr (Some (mkFound (rp_landing_pad pad) frame (exception_pointer payload) (rp_msvc pad) (uw_image_base u)
                       (rp_switch_value pad), steps ++ acts)))
  | None =>
      acts ← intermediate_steps u frame payload hdata;
      Ok (if decide (uc_rip (uw_ctx u) = 0 ∨ uc_rsp (uw_ctx u) = 0) then inr None else inl (uw_ctx u, steps ++ acts))
  end.
Definition search_and_plan (tctx : ThreadContext) (throw_rip throw_rsp : u64) (payload : ThrowPayload)
    : res (HandlerFound * list SehStep) :=
  thrown_typeinfo ← (if gcc_throw payload then gcc_thrown_typeinfo_from_mem (exception_object payload) else Ok None);
  r ← for_range MAX_FRAMES 0 (search_frame payload thrown_typeinfo) (new_ctx throw_rip throw_rsp tctx, []);
  match r with
  | inr (Some found) => Ok found
  | _ => Err (Message "RaiseException: no handler found")
  end.

(** A forced unwind stops at a frame or at an address. *)
Definition unwind_to (target_ip : u64) (target_frame_rsp : option u64) (_ : Z) (frame : UnwindContext)
    : res (UnwindContext + UnwindContext) :=
  let at_target (f : UnwindContext) := bool_decide (target_frame_rsp = Some (uc_rsp f)) in
  if at_target frame then Ok (inr frame)
  else
    '(u, _) ← unwind_one frame;
    Ok (if decide (uc_rip (uw_ctx u) = 0) then inr frame
        else if at_target (uw_ctx u) then inr (uw_ctx u)
        else if decide (target_ip ≠ 0 ∧ uc_rip (uw_ctx u) = target_ip) then inr (uw_ctx u)
        else inl (uw_ctx u)).
End Frames.

Section Dispatch.
Context {E : Type} `{CpuMem E, !CpuMap E, !CpuRegs E, !CpuApi E}.
Abbreviation H := (M (Api E)).
Context (order : gmap u64 (list RuntimeFunction) → list (u64 * list RuntimeFunction)) (depth : nat).

(** The callback over the engine as it is: what its reads return, with their
    errors dropped. *)
Definition reader (e : E) (va : u64) (n : nat) : res (list u8) :=
  match (mem_read va n e).2 with Err _ => failed | r => r end.
Definition reading {A} (f : (u64 → nat → res (list u8)) → SyncState → res A) : H A :=
  λ s, (s, f (reader (a_cpu s)) (w_sync (a_win s))).
Definition try {A} (m : H A) : H (option A) := r ← win32.attempt m; mret (match r with inl a => Some a | inr _ => None end).

(** ** The exception a call raises *)

Definition read_arg_slot (args_base index : u64) : H (option u64) :=
  if decide (args_base = 0) then mret None
  else b ← try (cpu (mem_read (sat_add args_base (sat_mul index 8)) 8%nat)); mret (le_val <$> b).

Definition record_payload (rcx : u64) : H ThrowPayload :=
  code_buf ← try (cpu (mem_read rcx 4%nat));
  match code_buf with
  | None => mret no_payload
  | Some code_buf =>
      let code := le_val code_buf in
      if decide (code = GCC_EXCEPTION_CODE) then
        info0 ← try (cpu (mem_read (sat_add rcx 32) 8%nat));
        mret (match info0 with Some b => mkPayload (le_val b) 0 true | None => no_payload end)
      else if decide (code = MSVC_EXCEPTION_CODE) then
        info1 ← try (cpu (mem_read (sat_add rcx 40) 8%nat));
        match info1 with
        | None => mret no_payload
        | Some b1 =>
            info2 ← try (cpu (mem_read (sat_add rcx 48) 8%nat));
            mret (match info2 with Some b2 => mkPayload (le_val b1) (le_val b2) false | None => no_payload end)
        end
      else mret no_payload
  end.
Definition read_raise_exception_payload : H ThrowPayload :=
  rcx ← arg Rcx; _ ← arg R8; r9 ← arg R9;
  if decide (rcx = GCC_EXCEPTION_CODE) then
    exc ← read_arg_slot r9 0; mret (mkPayload (default 0 exc) 0 true)
  else if decide (rcx = MSVC_EXCEPTION_CODE) then
    obj ← read_arg_slot r9 1; ti ← read_arg_slot r9 2;
    if decide (default 0 ti ≠ 0) then mret (mkPayload (default 0 obj) (default 0 ti) false)
    else
      obj ← read_arg_slot r9 0; ti ← read_arg_slot r9 1;
      mret (mkPayload (default 0 obj) (default 0 ti) false)
  else if decide (0x10000 ≤ rcx) then record_payload rcx
  else mret no_payload.

(** ** One planned step *)

Definition restore (c : ThreadContext) : H unit := λ s, (mkApi (restore_thread_context c (a_cpu s)) (a_win s), Ok tt).
Definition set_reg (r : Reg) (v : u64) : H unit := cpu (write_reg r v).
Definition set_pending (p : option SehPending) : H unit := on_win (set_seh_pending p).
Definition with_frame (rip rsp : u64) (gpr : list u64) (xmm : list u128) (c : ThreadContext) : ThreadContext :=
  mkContext (<[4%nat := rsp]> gpr) xmm rip (tc_rflags c).

Definition call_rsp (rsp : u64) : u64 :=
  let rsp := sat_sub rsp 8 in
  if decide (Z.land rsp 0xf ≠ 8) then sat_sub rsp 8 else rsp.
Definition setup_guest_call (target establisher : u64) : H unit :=
  rsp ← arg Rsp;
  let rsp := call_rsp rsp in
  _ ← guest_string.context "SEH call RA write" (cpu (mem_write rsp (le_bytes 8 seh_continue_trampoline_va)));
  _ ← set_reg Rsp rsp; _ ← set_reg Rdx establisher; set_reg Rip target.

Definition place_msvc_catch_object (establisher image_base : u64) (c : MsvcCatch) (exception_object throw_info : u64) : H unit :=
  match catch_object_address establisher c with
  | None => mret tt
  | Some slot =>
      if decide (catch_is_reference (adjectives c) = true ∨ type_rva c = 0) then
        guest_string.context "MSVC catch object (ref) write" (cpu (mem_write slot (le_bytes 8 exception_object)))
      else
        size ← reading (λ rd _, exception.attempt (throw_object_size rd image_base throw_info));
        let copy_len := default 0 (size : option u32) in
        if decide (0 < copy_len ≤ 256) then
          buf ← guest_string.context "MSVC catch object read" (cpu (mem_read exception_object (Z.to_nat copy_len)));
          guest_string.context "MSVC catch object (value) write" (cpu (mem_write slot buf))
        else guest_string.context "MSVC catch object (ptr fallback)" (cpu (mem_write slot (le_bytes 8 exception_object)))
  end.

(** The exception, with the pointer the personality leaves in front of it, and
    the selector of the landing pad. *)
Definition landing_rax (rax : option u64) : H unit :=
  match rax with
  | Some exc =>
      _ ← ignore (cpu (mem_write (sat_sub exc GCC_ADJUSTED_PTR_FROM_UNWIND_HDR)
                         (le_bytes 8 (sat_add exc GCC_OBJECT_FROM_UNWIND_HDR))));
      set_reg Rax exc
  | None => mret tt
  end.
Definition landing_rdx (rdx : option u64) : H unit := match rdx with Some sv => set_reg Rdx sv | None => mret tt end.

Definition run_step (step : SehStep) (pending : SehPending) : H HandlerOutcome :=
  match step with
  | Action target establisher =>
      _ ← setup_guest_call target establisher; mret (Return target 0)
  | MsvcCatchCall handler establisher frame_rsp gpr xmm c exception_object image_base throw_info =>
      tctx ← snapshot_cpu;
      _ ← restore (with_frame handler frame_rsp gpr xmm tctx);
      _ ← set_reg Rsp frame_rsp; _ ← set_reg Rdx establisher;
      _ ← (if decide (exception_object ≠ 0) then place_msvc_catch_object establisher image_base c exception_object throw_info
           else mret tt);
      _ ← set_pending (Some (mkPending (sp_steps pending) true (expect_cleanup_resume pending)));
      _ ← setup_guest_call handler establisher; mret (Return handler exception_object)
  | Jump rip rsp gpr xmm rax rdx =>
      _ ← set_pending (match sp_steps pending with
                       | [] => None
                       | steps => Some (mkPending steps (expect_catch_return pending) true)
                       end);
      tctx ← snapshot_cpu;
      _ ← restore (with_frame rip rsp gpr xmm tctx);
      _ ← set_reg Rip rip; _ ← set_reg Rsp rsp;
      _ ← landing_rax rax; _ ← landing_rdx rdx;
      mret (Return rip (default 0 rax))
  end.
Definition run_next_step : H HandlerOutcome :=
  p ← win w_seh_pending;
  match p with
  | None => fail (Message "SEH run_next_step with empty pending")
  | Some pending =>
      match sp_steps pending with
      | [] => _ ← set_pending None; fail (Message "SEH pending queue empty")
      | step :: steps =>
          let pending := mkPending steps (expect_catch_return pending) (expect_cleanup_resume pending) in
          _ ← set_pending (Some pending); run_step step pending
      end
  end.

(** ** Entry points *)

Definition terminal_step (handler : HandlerFound) (payload : ThrowPayload) : SehStep :=
  let c := catch_ctx handler in
  match hf_msvc handler with
  | Some m => MsvcCatchCall (hf_landing_pad handler) (uc_rsp c) (uc_rsp c) (uc_gpr c) (uc_xmm c) m
                (default 0 (hf_exception_object handler)) (hf_image_base handler) (throw_info payload)
  | None => Jump (hf_landing_pad handler) (uc_rsp c) (uc_gpr c) (uc_xmm c) (hf_exception_object handler) (hf_switch_value handler)
  end.
Definition begin_or_finish (handler : HandlerFound) (steps : list SehStep) (payload : ThrowPayload) : H HandlerOutcome :=
  _ ← set_pending (Some (mkPending (steps ++ [terminal_step handler payload]) false false));
  run_next_step.

Definition dispatch_exception_with_payload (payload : ThrowPayload) : H HandlerOutcome :=
  tctx ← snapshot_cpu;
  rsp ← arg Rsp;
  ra_buf ← guest_string.context "RaiseException: failed to read return address" (cpu (mem_read rsp 8%nat));
  found ← reading (λ rd y, search_and_plan rd order depth y tctx (le_val ra_buf) (sat_add rsp 8) payload);
  begin_or_finish found.1 found.2 payload.
Definition dispatch_exception : H HandlerOutcome :=
  payload ← unwrap_or no_payload read_raise_exception_payload;
  dispatch_exception_with_payload payload.

Definition continue_pending : H HandlerOutcome :=
  p ← win w_seh_pending;
  _ ← set_pending None;
  match p with
  | None => fail (Message "SEH continue trampoline with no pending work")
  | Some pending =>
      if expect_catch_return pending then
        cont ← arg Rax;
        let pending := mkPending (sp_steps pending) false (expect_cleanup_resume pending) in
        if decide (cont = 0 ∨ 0x800000000000 ≤ cont) then
          _ ← set_pending (Some pending); fail (Message "MSVC catch funclet returned invalid continuation")
        else
          _ ← set_reg Rip cont;
          match sp_steps pending with
          | [] => mret (Return cont 0)
          | _ => _ ← set_pending (Some pending); run_next_step
          end
      else
        _ ← set_pending (Some (mkPending (sp_steps pending) (expect_catch_return pending) false));
        run_next_step
  end.

Definition has_cleanup_resume (w : WinApiState) : bool :=
  match w_seh_pending w with
  | Some p => expect_cleanup_resume p && match sp_steps p with [] => false | _ => true end
  | None => false
  end.
Definition unwind_start (rsp : u64) : H UnwindContext :=
  tctx ← snapshot_cpu;
  ra_buf ← guest_string.context "RtlUnwindEx: failed to read return address" (cpu (mem_read rsp 8%nat));
  mret (new_ctx (le_val ra_buf) (sat_add rsp 8) tctx).
Definition forced_unwind_to (target_ip : u64) (target_frame_rsp : option u64) (return_value : u64) : H HandlerOutcome :=
  cleanup ← win has_cleanup_resume;
  if (cleanup : bool) then continue_pending
  else if decide (target_ip = 0 ∧ target_frame_rsp = None) then returned return_value
  else
    tctx ← snapshot_cpu;
    rsp ← arg Rsp;
    start ← unwind_start rsp;
    r ← reading (λ rd y, for_range MAX_FRAMES 0 (unwind_to rd order depth y target_ip target_frame_rsp) start);
    let frame := match r with inl f | inr f => f end in
    let rip := if decide (target_ip ≠ 0) then target_ip else uc_rip frame in
    _ ← restore (with_frame rip (uc_rsp frame) (uc_gpr frame) (uc_xmm frame) tctx);
    _ ← set_reg Rip rip; _ ← set_reg Rsp (uc_rsp frame); _ ← set_reg Rax return_value;
    mret (Return rip return_value).

Definition handle_raise_exception : H HandlerOutcome := dispatch_exception.
Definition handle_rtl_unwind_ex : H HandlerOutcome :=
  target_frame ← arg Rcx; target_ip ← arg Rdx; return_value ← arg R9;
  forced_unwind_to target_ip (if decide (target_frame = 0) then None else Some target_frame) return_value.

(** [_CxxThrowException] of the C runtime (ucrt.rs). *)
Definition exception_record_words (rip object info : u64) : list (u64 * list u8) :=
  [(0, le_bytes 4 MSVC_EXCEPTION_CODE); (4, le_bytes 4 1); (8, le_bytes 8 0); (16, le_bytes 8 rip); (24, le_bytes 4 4);
   (32, le_bytes 8 0x19930520); (40, le_bytes 8 object); (48, le_bytes 8 info); (56, le_bytes 8 0)].
Fixpoint write_record (rec : u64) (words : list (u64 * list u8)) : H unit :=
  match words with
  | [] => mret tt
  | (off, bs) :: words => _ ← cpu (mem_write (sat_add rec off) bs); write_record rec words
  end.
Definition handle_cxx_throw_exception : H HandlerOutcome :=
  object ← arg Rcx; info ← arg Rdx;
  rsp ← arg Rsp; rip ← arg Rip;
  let rec := sat_sub rsp 0x100 in
  _ ← write_record rec (exception_record_words rip object info);
  _ ← set_reg Rcx rec;
  guest_string.context "msvcrt!_CxxThrowException" (dispatch_exception_with_payload (mkPayload object info false)).
End Dispatch.
