(* ===== verification/seh_spec.v ===== *)
(** * Running a planned exception (seh.rs)

    The search leaves a list of guest calls; whatever the guest does in between,
    each resumption performs the next one, and the last hands control to the
    catch block. *)

From S2P Require Import Prelude utf regs insn vad mem engine cpu guest_heap guest_string sync_obj fake_va thread win32.
From S2P Require Import exception lsda msvc_eh msvc_spec seh win32_spec.

(** ** Stacks of calls *)

Lemma land_15 x : Z.land x 0xf = x mod 16.
Proof. change 0xf with (Z.ones 4). by rewrite Z.land_ones by lia. Qed.

(** A call lands on a stack of the alignment a callee expects, at most 16 bytes
    down; on an aligned stack the return leaves the pointer where it was. *)
Lemma call_rsp_spec rsp : 16 ≤ rsp → rsp mod 8 = 0 →
  call_rsp rsp mod 16 = 8 ∧ rsp - 16 ≤ call_rsp rsp ≤ rsp - 8 ∧ (rsp mod 16 = 0 → call_rsp rsp = rsp - 8).
Proof.
  intros Hrsp H8. unfold call_rsp. rewrite land_15, sat_sub_le by lia.
  assert (Hcases : rsp mod 16 = 0 ∨ rsp mod 16 = 8).
  { pose proof (Z.mod_pos_bound rsp 16). pose proof (Z.div_mod rsp 16). pose proof (Z.div_mod rsp 8). lia. }
  assert (Hm : (rsp - 8) mod 16 = (rsp mod 16 + 8) mod 16).
  { replace (rsp - 8) with (rsp + 8 + -1 * 16) by lia. by rewrite Z_mod_plus_full, Zplus_mod. }
  destruct Hcases as [Hz|Hz]; rewrite Hm, Hz.
  - change ((0 + 8) mod 16) with 8. rewrite decide_False by lia. rewrite Hm, Hz. split; [done|]. split; lia.
  - change ((8 + 8) mod 16) with 0. rewrite decide_True by lia. rewrite sat_sub_le by lia.
    replace (rsp - 8 - 8) with (rsp + -1 * 16) by lia. rewrite Z_mod_plus_full, Hz. split; [done|]. split; lia.
Qed.

(** ** The search *)

Section Search.
Context (rd : u64 → nat → res (list u8)).
Context (order : gmap u64 (list RuntimeFunction) → list (u64 * list RuntimeFunction)) (depth : nat) (y : SyncState).

Definition is_call (step : SehStep) : bool := match step with MsvcCatchCall _ _ _ _ _ _ _ _ _ => false | _ => true end.

Lemma first_some_post {A} (f : u64 → res (option A)) (P : A → Prop) l :
  (∀ x, match f x with Ok (Some a) => P a | _ => True end) → match first_some f l with Ok (Some a) => P a | _ => True end.
Proof.
  intros Hf. induction l as [|x l IH]; cbn [first_some]; [done|].
  specialize (Hf x). by destruct (f x) as [[a|]|e|w]; cbn [mbind res_bind].
Qed.
Lemma action_steps_calls image_base establisher rvas : Forall (λ x, is_call x = true) (action_steps image_base establisher rvas).
Proof. apply Forall_fmap, Forall_forall. done. Qed.
Lemma intermediate_calls u frame payload hd :
  match intermediate_steps rd u frame payload hd with Ok steps => Forall (λ x, is_call x = true) steps | _ => True end.
Proof.
  destruct hd as [hd|]; cbn [intermediate_steps]; [|constructor].
  pose proof (first_some_post (msvc_frame_actions rd u frame) (Forall (λ x, is_call x = true)) (candidates u hd)) as Hm.
  destruct (first_some (msvc_frame_actions rd u frame) (candidates u hd)) as [[acts|]|e|w]; cbn [mbind res_bind]; [| |done|done].
  - apply Hm. intros fi. unfold msvc_frame_actions.
    destruct (exception.attempt (parse_func_info rd fi)) as [[info|]|e|w]; cbn [mbind res_bind]; [|done..].
    destruct (exception.attempt _) as [[st|]|e|w]; cbn [mbind res_bind]; [|constructor|done..].
    destruct (collect_unwind_actions _ _ _ _ _ _); cbn [mbind res_bind]; [apply action_steps_calls|done..].
  - pose proof (first_some_post (cleanup_pad rd u frame payload) (λ x, is_call x = true) (candidates u hd)) as Hc.
    destruct (first_some (cleanup_pad rd u frame payload) _) as [[c|]|e|w]; cbn [mbind res_bind option_list]; [|constructor|done..].
    repeat constructor. apply Hc. intros lsda. unfold cleanup_pad.
    destruct (find_cleanup_landing_pad _ _ _ _ _) as [[m|]|e|w]; done.
Qed.
Lemma catch_calls u frame m :
  match catch_actions rd u frame m with Ok steps => Forall (λ x, is_call x = true) steps | _ => True end.
Proof.
  destruct m as [m|]; cbn [catch_actions]; [|constructor].
  destruct (collect_unwind_actions _ _ _ _ _ _); cbn [mbind res_bind]; [apply action_steps_calls|done..].
Qed.

(** The landing pad of a frame for the exception. *)
Definition frame_pad (payload : ThrowPayload) (ti : option u64) (frame : UnwindContext) (u : Unwound) (hd : option u32)
    : res (option ResolvedPad) :=
  match hd with Some h => resolve_landing_pad rd (uc_rip frame) u h payload ti | None => Ok None end.
(** From a frame to one of its callers through frames that do not catch, with
    the guest calls these frames need. *)
Inductive passes (payload : ThrowPayload) (ti : option u64) : UnwindContext → list SehStep → UnwindContext → nat → Prop :=
  | passes_here frame : passes payload ti frame [] frame 0
  | passes_caller frame u hd acts steps frame' k :
      unwind_one rd order depth y frame = Ok (u, hd) → frame_pad payload ti frame u hd = Ok None →
      intermediate_steps rd u frame payload hd = Ok acts → uc_rip (uw_ctx u) ≠ 0 → uc_rsp (uw_ctx u) ≠ 0 →
      passes payload ti (uw_ctx u) steps frame' k → passes payload ti frame (acts ++ steps) frame' (S k).
(** A frame that catches, and the plan for it. *)
Definition catches (payload : ThrowPayload) (ti : option u64) (frame : UnwindContext) (h : HandlerFound) (acts : list SehStep) : Prop :=
  ∃ u hd pad, unwind_one rd order depth y frame = Ok (u, hd) ∧ frame_pad payload ti frame u hd = Ok (Some pad) ∧
    catch_actions rd u frame (rp_msvc pad) = Ok acts ∧
    h = mkFound (rp_landing_pad pad) frame (exception_pointer payload) (rp_msvc pad) (uw_image_base u) (rp_switch_value pad).

Lemma search_frame_cases payload ti i frame steps :
  search_frame rd order depth y payload ti i (frame, steps) =
  ('(u, hd) ← unwind_one rd order depth y frame;
   pad ← frame_pad payload ti frame u hd;
   match (pad : option ResolvedPad) with
   | Some pad =>
       acts ← catch_actions rd u frame (rp_msvc pad);
       Ok (inr (Some (mkFound (rp_landing_pad pad) frame (exception_pointer payload) (rp_msvc pad) (uw_image_base u)
                        (rp_switch_value pad), steps ++ acts)))
   | None =>
       acts ← intermediate_steps rd u frame payload hd;
       Ok (if decide (uc_rip (uw_ctx u) = 0 ∨ uc_rsp (uw_ctx u) = 0) then inr None else inl (uw_ctx u, steps ++ acts))
   end).
Proof. reflexivity. Qed.

Lemma search_seh_loop payload ti h plan : ∀ n i frame steps,
  for_range n i (search_frame rd order depth y payload ti) (frame, steps) = Ok (inr (Some (h, plan))) ↔
  ∃ mid frame' acts k, passes payload ti frame mid frame' k ∧ (k < n)%nat ∧ catches payload ti frame' h acts ∧ plan = steps ++ mid ++ acts.
Proof.
  induction n as [|n IH]; intros i frame steps; cbn [for_range].
  { split; [done|]. intros (mid & f & acts & k & _ & Hk & _). lia. }
  rewrite search_frame_cases. split.
  - intros Hrun. destruct (unwind_one _ _ _ _ frame) as [[u hd]|e|w] eqn:Hu; [|discriminate Hrun..]. cbn [mbind res_bind] in Hrun.
    destruct (frame_pad payload ti frame u hd) as [[pad|]|e|w] eqn:Hpad; [| |discriminate Hrun..]; cbn [mbind res_bind] in Hrun.
    + destruct (catch_actions _ _ _ _) as [acts|e|w] eqn:Hacts; [|discriminate Hrun..]. cbn [mbind res_bind] in Hrun.
      injection Hrun as Hh <-. exists [], frame, acts, 0%nat. split; [constructor|]. split; [lia|]. split; [|done]. by exists u, hd, pad.
    + destruct (intermediate_steps _ _ _ _ _) as [acts|e|w] eqn:Hacts; [|discriminate Hrun..]. cbn [mbind res_bind] in Hrun.
      destruct (decide _) as [|Hne]; [discriminate Hrun|].
      apply IH in Hrun as (mid & f' & acts' & k & Hp & Hk & Hc & ->).
      exists (acts ++ mid), f', acts', (S k). split; [|split; [lia|split; [done|by rewrite !app_assoc]]].
      eapply passes_caller; [exact Hu|exact Hpad|exact Hacts|tauto|tauto|done].
  - intros (mid & f' & acts & k & Hp & Hk & Hc & ->). destruct Hp as [f|f u hd acts1 steps1 f' k Hu Hpad Hacts Hrip Hrsp Hp].
    + destruct Hc as (u & hd & pad & Hu & Hpad & Hacts & ->). rewrite Hu. cbn [mbind res_bind]. rewrite Hpad. cbn [mbind res_bind].
      rewrite Hacts. done.
    + rewrite Hu. cbn [mbind res_bind]. rewrite Hpad. cbn [mbind res_bind]. rewrite Hacts. cbn [mbind res_bind].
      rewrite decide_False by tauto. apply IH.
      exists steps1, f', acts, k. split; [done|]. split; [lia|]. split; [done|by rewrite !app_assoc].
Qed.

(** C28 The search answers with the innermost frame that
    catches the exception, among the first 64: every frame inside it has no
    landing pad for the exception, and the plan is the guest calls of these
    frames, innermost first, and then those of the frame that catches; when it
    answers nothing, no frame catches. *)
Theorem search_innermost tctx rip rsp payload ti h plan :
  (if gcc_throw payload then gcc_thrown_typeinfo_from_mem rd (exception_object payload) else Ok None) = Ok ti →
  search_and_plan rd order depth y tctx rip rsp payload = Ok (h, plan) ↔
  ∃ mid frame acts k, passes payload ti (new_ctx rip rsp tctx) mid frame k ∧ (k < 64)%nat ∧
    catches payload ti frame h acts ∧ plan = mid ++ acts.
Proof.
  intros Hti. unfold search_and_plan. rewrite Hti. cbn [mbind res_bind].
  rewrite <- (search_seh_loop payload ti h plan 64 0 (new_ctx rip rsp tctx) []).
  change MAX_FRAMES with 64%nat. destruct (for_range 64 0 _ _) as [[s|[[h' plan']|]]|e|w]; cbn [mbind res_bind]; split; intros [=]; by subst.
Qed.

Lemma passes_calls payload ti frame mid frame' k : passes payload ti frame mid frame' k → Forall (λ x, is_call x = true) mid.
Proof.
  induction 1 as [|f u hd acts steps f' k _ _ Hi _ _ _ IH]; [constructor|]. apply Forall_app. split; [|done].
  pose proof (intermediate_calls u f payload hd) as Hc. by rewrite Hi in Hc.
Qed.
Lemma plan_calls tctx rip rsp payload h plan :
  search_and_plan rd order depth y tctx rip rsp payload = Ok (h, plan) → Forall (λ x, is_call x = true) plan.
Proof.
  intros Hs. pose proof Hs as Hs'. unfold search_and_plan in Hs'.
  destruct (if gcc_throw payload then gcc_thrown_typeinfo_from_mem rd (exception_object payload) else Ok None) as [ti|e|w] eqn:Hti;
    [clear Hs'|discriminate Hs'..].
  destruct (proj1 (search_innermost tctx rip rsp payload ti h plan Hti) Hs)
    as (mid & f & acts & k & Hp & _ & (u & hd & pad & _ & _ & Hacts & _) & ->).
  apply Forall_app. split.
  - by eapply passes_calls.
  - pose proof (catch_calls u f (rp_msvc pad)) as Hc. by rewrite Hacts in Hc.
Qed.
End Search.

Section Steps.
Context {E : Type} `{CpuApiLaws E}.
Context (order : gmap u64 (list RuntimeFunction) → list (u64 * list RuntimeFunction)) (depth : nat).
Implicit Types (s : Api E) (c : ThreadContext).

Lemma set_reg_ok r v s : mem_inv (a_cpu s) →
  ∃ e', set_reg r v s = (mkApi e' (a_win s), Ok tt) ∧ unchanged (a_cpu s) e' ∧
    snapshot_thread_context e' = set_context_reg r v (snapshot_thread_context (a_cpu s)).
Proof.
  intros Hi. destruct (write_reg_context (a_cpu s) r v) as (e' & Hw & Hc & Hu). exists e'.
  split; [by apply cpu_ok|]. split; [by apply Hu|done].
Qed.

Lemma ignore_ok {A} (m : M (Api E) A) s s' a : m s = (s', Ok a) → ignore m s = (s', Ok tt).
Proof. intros Hm. unfold ignore. erewrite bind_ok; [done|]. unfold win32.attempt. by rewrite Hm. Qed.

(** A stack on which a guest call can be set up. *)
Record stack_ok (e : E) (rsp : Z) : Prop := {
  so_inv : mem_inv e;
  so_aligned : rsp mod 8 = 0;
  so_room : 16 ≤ rsp;
  so_acc : accessible e (rsp - 16) 16;
}.

(** The registers with a call of [target] set up. *)
Definition calling (target establisher : u64) (c : ThreadContext) : ThreadContext :=
  set_context_reg Rip target (set_context_reg Rdx establisher (set_context_reg Rsp (call_rsp (context_reg Rsp c)) c)).

Lemma setup_spec target establisher s :
  stack_ok (a_cpu s) (context_reg Rsp (snapshot_thread_context (a_cpu s))) →
  let c := snapshot_thread_context (a_cpu s) in
  ∃ e', setup_guest_call target establisher s = (mkApi e' (a_win s), Ok tt) ∧
    snapshot_thread_context e' = calling target establisher c ∧ mem_inv e' ∧
    holds e' (call_rsp (context_reg Rsp c)) (le_bytes 8 seh_continue_trampoline_va).
Proof.
  intros [Hi H8 Hroom Hacc] c. fold c in H8, Hroom, Hacc. set (sp := context_reg Rsp c) in *.
  destruct (call_rsp_spec sp Hroom H8) as (_ & Hr & _).
  unfold setup_guest_call. erewrite bind_ok by apply arg_ok. fold c sp.
  assert (Hacc' : accessible (a_cpu s) (sp - 16) (sp - (sp - 16))) by (by replace (sp - (sp - 16)) with 16 by lia).
  destruct (write_spec (a_cpu s) (call_rsp sp) (le_bytes 8 seh_continue_trampoline_va) (sp - 16) sp Hi Hacc')
    as (e1 & Hw & Hi1 & _ & Hh & _); [lia|rewrite length_le_bytes; lia|].
  erewrite bind_ok by (by apply context_ok, cpu_ok).
  pose proof (mem_write_context (call_rsp sp) (le_bytes 8 seh_continue_trampoline_va) (a_cpu s)) as Hc1. rewrite Hw in Hc1. cbn [fst] in Hc1.
  destruct (set_reg_ok Rsp (call_rsp sp) (mkApi e1 (a_win s)) Hi1) as (e2 & Hr2 & Hu2 & Hc2).
  erewrite bind_ok by exact Hr2.
  destruct (set_reg_ok Rdx establisher (mkApi e2 (a_win s)) (un_inv _ _ Hu2)) as (e3 & Hr3 & Hu3 & Hc3).
  erewrite bind_ok by exact Hr3.
  destruct (set_reg_ok Rip target (mkApi e3 (a_win s)) (un_inv _ _ Hu3)) as (e4 & Hr4 & Hu4 & Hc4).
  exists e4. split; [exact Hr4|]. cbn [a_cpu] in *. rewrite Hc4, Hc3, Hc2, Hc1. split; [done|]. split; [apply Hu4|].
  eapply holds_unchanged; [exact Hu4|]. eapply holds_unchanged; [exact Hu3|]. eapply holds_unchanged; [exact Hu2|exact Hh].
Qed.

(** ** One step *)

(** What a step needs of the memory; the object of a catch goes into its slot
    as a pointer (a catch by reference, or of everything). *)
Definition place_ok (e : E) (establisher : u64) (c : MsvcCatch) (object : u64) : Prop :=
  object = 0 ∨
  match catch_object_address establisher c with
  | None => True
  | Some slot => (catch_is_reference (adjectives c) = true ∨ type_rva c = 0) ∧ accessible e slot 8
  end.
Definition step_ok (step : SehStep) (e : E) : Prop :=
  match step with
  | Action _ _ => stack_ok e (context_reg Rsp (snapshot_thread_context e))
  | MsvcCatchCall _ establisher frame_rsp gpr _ c object _ _ =>
      stack_ok e frame_rsp ∧ length gpr = 16%nat ∧ place_ok e establisher c object
  | Jump _ _ gpr _ rax _ =>
      mem_inv e ∧ length gpr = 16%nat ∧
      match rax with Some exc => accessible e (sat_sub exc GCC_ADJUSTED_PTR_FROM_UNWIND_HDR) 8 | None => True end
  end.
Definition set_opt (r : Reg) (o : option u64) (c : ThreadContext) : ThreadContext :=
  match o with Some v => set_context_reg r v c | None => c end.
(** The registers after it. *)
Definition performed (step : SehStep) (c : ThreadContext) : ThreadContext :=
  match step with
  | Action target establisher => calling target establisher c
  | MsvcCatchCall handler establisher frame_rsp gpr xmm _ _ _ _ =>
      calling handler establisher
        (set_context_reg Rdx establisher (set_context_reg Rsp frame_rsp (with_frame handler frame_rsp gpr xmm c)))
  | Jump rip rsp gpr xmm rax rdx =>
      set_opt Rdx rdx (set_opt Rax rax (set_context_reg Rsp rsp (set_context_reg Rip rip (with_frame rip rsp gpr xmm c))))
  end.
(** Where a step that calls the guest puts the return address. *)
Definition return_slot (step : SehStep) (c : ThreadContext) : option Z :=
  match step with
  | Action _ _ => Some (call_rsp (context_reg Rsp c))
  | MsvcCatchCall _ _ frame_rsp _ _ _ _ _ _ => Some (call_rsp frame_rsp)
  | Jump _ _ _ _ _ _ => None
  end.
(** The stack of a call: misaligned by the return address alone, which is the trampoline. *)
Definition call_stack (step : SehStep) (c : ThreadContext) (e : E) : Prop :=
  ∀ sp, return_slot step c = Some sp → sp mod 16 = 8 ∧ holds e sp (le_bytes 8 seh_continue_trampoline_va).
Definition step_target (step : SehStep) : u64 :=
  match step with Action target _ => target | MsvcCatchCall handler _ _ _ _ _ _ _ _ => handler | Jump rip _ _ _ _ _ => rip end.
Definition step_value (step : SehStep) : u64 :=
  match step with Action _ _ => 0 | MsvcCatchCall _ _ _ _ _ _ object _ _ => object | Jump _ _ _ _ rax _ => default 0 rax end.
Definition pending_after (step : SehStep) (rest : list SehStep) : option SehPending :=
  match step, rest with
  | Action _ _, _ => Some (mkPending rest false false)
  | MsvcCatchCall _ _ _ _ _ _ _ _ _, _ => Some (mkPending rest true false)
  | Jump _ _ _ _ _ _, [] => None
  | Jump _ _ _ _ _ _, _ => Some (mkPending rest false true)
  end.

Lemma stack_ok_unchanged e e' rsp : unchanged e e' → stack_ok e rsp → stack_ok e' rsp.
Proof. intros Hu [Hi H8 Hr Hacc]. split; [apply Hu|done|done|by eapply accessible_unchanged]. Qed.

Lemma restore_ok c s : mem_inv (a_cpu s) →
  ∃ e', restore c s = (mkApi e' (a_win s), Ok tt) ∧ unchanged (a_cpu s) e' ∧ snapshot_thread_context e' = c.
Proof. intros Hi. eexists. split; [done|]. split; [by apply restore_unchanged|apply restore_context]. Qed.

Lemma context_rsp_set r v c : length (tc_gpr c) = 16%nat → context_reg r (set_context_reg r v c) = v.
Proof. intros Hl. destruct r; cbn [context_reg set_context_reg tc_gpr tc_rip]; [done|..]; by rewrite list_lookup_insert_eq by lia. Qed.

(** The object in its slot: the registers stay, and so does the stack. *)
Lemma place_spec establisher image_base m object info s rsp :
  place_ok (a_cpu s) establisher m object → mem_inv (a_cpu s) → stack_ok (a_cpu s) rsp →
  ∃ e', (if decide (object ≠ 0) then place_msvc_catch_object establisher image_base m object info else mret tt) s =
          (mkApi e' (a_win s), Ok tt) ∧ stack_ok e' rsp ∧
    snapshot_thread_context e' = snapshot_thread_context (a_cpu s).
Proof.
  intros Hplace Hi Hst. case_decide as Hobj; [|exists (a_cpu s); by destruct s].
  destruct Hplace as [?|Hplace]; [done|]. unfold place_msvc_catch_object.
  destruct (catch_object_address establisher m) as [slot|]; [|exists (a_cpu s); by destruct s].
  destruct Hplace as [Href Hacc]. rewrite decide_True by done.
  assert (Hacc' : accessible (a_cpu s) slot (slot + 8 - slot)) by (by replace (slot + 8 - slot) with 8 by lia).
  destruct (write_spec (a_cpu s) slot (le_bytes 8 object) slot (slot + 8) Hi Hacc') as (e' & Hw & Hi' & _ & _ & Hf);
    [lia|rewrite length_le_bytes; lia|].
  exists e'. split; [by apply context_ok, cpu_ok|]. split.
  - destruct Hst as [_ H8 Hr Hst]. split; [done|done|done|]. by eapply accessible_framed.
  - pose proof (mem_write_context slot (le_bytes 8 object) (a_cpu s)) as Hc. by rewrite Hw in Hc.
Qed.

(** What a landing pad finds in RAX and RDX. *)
Lemma landing_registers rax rdx s :
  mem_inv (a_cpu s) → match rax with Some exc => accessible (a_cpu s) (sat_sub exc GCC_ADJUSTED_PTR_FROM_UNWIND_HDR) 8 | None => True end →
  ∃ e1 e2, landing_rax rax s = (mkApi e1 (a_win s), Ok tt) ∧ landing_rdx rdx (mkApi e1 (a_win s)) = (mkApi e2 (a_win s), Ok tt) ∧
    mem_inv e2 ∧ snapshot_thread_context e2 = set_opt Rdx rdx (set_opt Rax rax (snapshot_thread_context (a_cpu s))).
Proof.
  intros Hi Hacc.
  assert (Hfirst : ∃ e1, landing_rax rax s = (mkApi e1 (a_win s), Ok tt) ∧ mem_inv e1 ∧
                     snapshot_thread_context e1 = set_opt Rax rax (snapshot_thread_context (a_cpu s))).
  { destruct rax as [exc|]; [|exists (a_cpu s); by destruct s]. set (slot := sat_sub exc _) in *.
    assert (Hacc' : accessible (a_cpu s) slot (slot + 8 - slot)) by (by replace (slot + 8 - slot) with 8 by lia).
    destruct (write_spec (a_cpu s) slot (le_bytes 8 (sat_add exc GCC_OBJECT_FROM_UNWIND_HDR)) slot (slot + 8) Hi Hacc') as (e' & Hw & Hi' & _);
      [lia|rewrite length_le_bytes; lia|].
    pose proof (mem_write_context slot (le_bytes 8 (sat_add exc GCC_OBJECT_FROM_UNWIND_HDR)) (a_cpu s)) as Hc. rewrite Hw in Hc. cbn [fst] in Hc.
    destruct (set_reg_ok Rax exc (mkApi e' (a_win s)) Hi') as (e2 & Hr & Hu & Hc2). exists e2. split; [|split; [apply Hu|]].
    - unfold landing_rax. fold slot. erewrite bind_ok by (eapply ignore_ok, cpu_ok; exact Hw). exact Hr.
    - rewrite Hc2. cbn [a_cpu]. by rewrite Hc. }
  destruct Hfirst as (e1 & Hr1 & Hi1 & Hc1). exists e1. destruct rdx as [sv|].
  - destruct (set_reg_ok Rdx sv (mkApi e1 (a_win s)) Hi1) as (e2 & Hr & Hu & Hc2). exists e2. split; [exact Hr1|]. split; [exact Hr|].
    split; [apply Hu|]. rewrite Hc2. cbn [a_cpu]. by rewrite Hc1.
  - exists e1. done.
Qed.

Lemma run_step_spec step rest s :
  step_ok step (a_cpu s) →
  let c := snapshot_thread_context (a_cpu s) in
  ∃ e', run_step step (mkPending rest false false) (mkApi (a_cpu s) (set_seh_pending (Some (mkPending rest false false)) (a_win s))) =
          (mkApi e' (set_seh_pending (pending_after step rest) (a_win s)), Ok (Return (step_target step) (step_value step))) ∧
    snapshot_thread_context e' = performed step c ∧ mem_inv e' ∧ call_stack step c e'.
Proof.
  set (w := set_seh_pending _ _). intros Hok c. destruct step as [target establisher|handler establisher fr gpr xmm m object ib ti|rip rsp gpr xmm rax rdx];
    cbn [step_ok run_step performed pending_after step_target step_value] in *.
  - destruct (setup_spec target establisher (mkApi (a_cpu s) w)) as (e' & Hr & Hc & Hi & Hret); [exact Hok|].
    exists e'. erewrite bind_ok by exact Hr. split; [done|]. split; [done|]. split; [done|]. intros sp [= <-]. split; [|exact Hret].
    apply call_rsp_spec; apply Hok.
  - destruct Hok as (Hst & Hl & Hplace). erewrite bind_ok by reflexivity. cbn [a_cpu]. fold c.
    destruct (restore_ok (with_frame handler fr gpr xmm c) (mkApi (a_cpu s) w) (so_inv _ _ Hst)) as (e1 & Hr1 & Hu1 & Hc1).
    erewrite bind_ok by exact Hr1. cbn [a_win].
    destruct (set_reg_ok Rsp fr (mkApi e1 w) (un_inv _ _ Hu1)) as (e2 & Hr2 & Hu2 & Hc2). erewrite bind_ok by exact Hr2.
    destruct (set_reg_ok Rdx establisher (mkApi e2 w) (un_inv _ _ Hu2)) as (e3 & Hr3 & Hu3 & Hc3). erewrite bind_ok by exact Hr3.
    cbn [a_cpu a_win] in *.
    assert (Hu : unchanged (a_cpu s) e3) by (eapply unchanged_trans; [exact Hu1|eapply unchanged_trans; [exact Hu2|exact Hu3]]).
    destruct (place_spec establisher ib m object ti (mkApi e3 w) fr) as (e4 & Hr4 & Hst4 & Hc4); cbn [a_cpu a_win] in *.
    { destruct Hplace as [?|Hplace]; [by left|right]. destruct (catch_object_address _ _); [|done].
      destruct Hplace as [? Hacc]. split; [done|]. by eapply accessible_unchanged. }
    { apply Hu. }
    { by eapply stack_ok_unchanged. }
    erewrite bind_ok by exact Hr4. erewrite bind_ok by reflexivity. cbn [a_cpu a_win sp_steps expect_cleanup_resume].
    assert (Hrsp : context_reg Rsp (snapshot_thread_context e4) = fr).
    { rewrite Hc4, Hc3, Hc2, Hc1. cbn [context_reg set_context_reg with_frame tc_gpr].
      rewrite list_lookup_insert_ne by done. by rewrite list_lookup_insert_eq by (rewrite length_insert; lia). }
    destruct (setup_spec handler establisher (mkApi e4 (set_seh_pending (Some (mkPending rest true false)) w))) as (e5 & Hr5 & Hc5 & Hi5 & Hret);
      [cbn [a_cpu]; by rewrite Hrsp|].
    exists e5. erewrite bind_ok by exact Hr5. split; [done|]. cbn [a_cpu] in *. rewrite Hrsp in Hret.
    split; [rewrite Hc5; by rewrite Hc4, Hc3, Hc2, Hc1|]. split; [done|]. intros sp [= <-]. split; [|exact Hret].
    apply call_rsp_spec; apply Hst.
  - destruct Hok as (Hi & Hl & Hexc).
    assert (Hp : match rest with [] => None | _ => Some (mkPending rest false true) end = pending_after (Jump rip rsp gpr xmm rax rdx) rest)
      by (by destruct rest).
    cbn [sp_steps expect_catch_return]. replace (match rest with [] => None | _ => _ end) with (pending_after (Jump rip rsp gpr xmm rax rdx) rest)
      by (by destruct rest).
    erewrite bind_ok by reflexivity. erewrite bind_ok by reflexivity. cbn [a_cpu a_win]. fold c.
    change (set_seh_pending ?p w) with (set_seh_pending p (a_win s)). set (w' := set_seh_pending _ (a_win s)).
    destruct (restore_ok (with_frame rip rsp gpr xmm c) (mkApi (a_cpu s) w') Hi) as (e1 & Hr1 & Hu1 & Hc1).
    erewrite bind_ok by exact Hr1. cbn [a_win].
    destruct (set_reg_ok Rip rip (mkApi e1 w') (un_inv _ _ Hu1)) as (e2 & Hr2 & Hu2 & Hc2). erewrite bind_ok by exact Hr2.
    destruct (set_reg_ok Rsp rsp (mkApi e2 w') (un_inv _ _ Hu2)) as (e3 & Hr3 & Hu3 & Hc3). erewrite bind_ok by exact Hr3.
    cbn [a_cpu a_win] in *.
    assert (Hu : unchanged (a_cpu s) e3) by (eapply unchanged_trans; [exact Hu1|eapply unchanged_trans; [exact Hu2|exact Hu3]]).
    destruct (landing_registers rax rdx (mkApi e3 w')) as (e4 & e5 & Hr4 & Hr5 & Hi5 & Hc5); [apply Hu| |].
    { destruct rax; [|done]. by eapply accessible_unchanged. }
    exists e5. erewrite bind_ok by exact Hr4. erewrite bind_ok by exact Hr5. split; [done|]. split; [|by split].
    rewrite Hc5. cbn [a_cpu]. by rewrite Hc3, Hc2, Hc1.
Qed.

(** ** The whole plan *)

Definition started (step : SehStep) (rest : list SehStep) (s s' : Api E) (r : res HandlerOutcome) : Prop :=
  r = Ok (Return (step_target step) (step_value step)) ∧
  snapshot_thread_context (a_cpu s') = performed step (snapshot_thread_context (a_cpu s)) ∧
  a_win s' = set_seh_pending (pending_after step rest) (a_win s) ∧ mem_inv (a_cpu s') ∧
  call_stack step (snapshot_thread_context (a_cpu s)) (a_cpu s').

Lemma run_next_spec step rest s :
  w_seh_pending (a_win s) = Some (mkPending (step :: rest) false false) → step_ok step (a_cpu s) →
  started step rest s (run_next_step s).1 (run_next_step s).2.
Proof.
  intros Hp Hok. unfold run_next_step. erewrite bind_ok by reflexivity. cbn [a_win]. rewrite Hp.
  cbn [sp_steps expect_catch_return expect_cleanup_resume]. erewrite bind_ok by reflexivity.
  destruct (run_step_spec step rest s Hok) as (e' & Hr & Hc & Hi & Hst). rewrite Hr. by split_and!.
Qed.

(** The call with which the guest comes back: an action returns to the
    trampoline, a cleanup pad calls RtlUnwindEx. *)
Definition resume (step : SehStep) : M (Api E) HandlerOutcome :=
  match step with Jump _ _ _ _ _ _ => handle_rtl_unwind_ex order depth | _ => continue_pending end.

Lemma continue_next step rest flag s :
  w_seh_pending (a_win s) = Some (mkPending (step :: rest) false flag) → step_ok step (a_cpu s) →
  started step rest s (continue_pending s).1 (continue_pending s).2.
Proof.
  intros Hp Hok. unfold continue_pending. erewrite bind_ok by reflexivity. erewrite bind_ok by reflexivity.
  rewrite Hp. cbn [sp_steps expect_catch_return a_cpu a_win]. erewrite bind_ok by reflexivity. cbn [a_cpu a_win].
  change (set_seh_pending ?p (set_seh_pending None ?w)) with (set_seh_pending p w).
  apply (run_next_spec step rest (mkApi (a_cpu s) (set_seh_pending (Some (mkPending (step :: rest) false false)) (a_win s)))); done.
Qed.
Lemma resume_next step next rest s :
  is_call step = true → w_seh_pending (a_win s) = pending_after step (next :: rest) → step_ok next (a_cpu s) →
  started next rest s (resume step s).1 (resume step s).2.
Proof.
  intros Hcall Hp Hok. destruct step as [t est| |rip rsp gpr xmm rax rdx]; [|done|]; cbn [resume pending_after] in *.
  - by eapply continue_next.
  - unfold handle_rtl_unwind_ex. do 3 erewrite bind_ok by apply arg_ok. unfold forced_unwind_to. erewrite bind_ok by reflexivity.
    replace (has_cleanup_resume (a_win s)) with true by (unfold has_cleanup_resume; by rewrite Hp). by eapply continue_next.
Qed.

(** Whatever the guest does in between: it has to leave the plan and the memory
    the next step needs. *)
Fixpoint runs_plan (step : SehStep) (rest : list SehStep) (m : M (Api E) HandlerOutcome) (s : Api E) : Prop :=
  started step rest s (m s).1 (m s).2 ∧
  match rest with
  | [] => True
  | next :: rest' =>
      ∀ s', w_seh_pending (a_win s') = pending_after step rest → step_ok next (a_cpu s') →
        runs_plan next rest' (resume step) s'
  end.

Lemma runs_rest rest : ∀ step m s,
  Forall (λ x, is_call x = true) (removelast (step :: rest)) → started step rest s (m s).1 (m s).2 → runs_plan step rest m s.
Proof.
  induction rest as [|next rest IH]; intros step m s Hcalls Hs; [done|].
  cbn [removelast] in Hcalls. apply Forall_cons in Hcalls as [Hcall Hcalls].
  split; [done|]. intros s' Hp Hok. apply IH; [done|]. by apply resume_next.
Qed.

(** C27 A dispatched exception runs the plan of the search, as long as nothing
    else starts one: the first step starts at once, and each time the guest comes
    back with the plan untouched, a destructor through the trampoline or a cleanup pad
    through RtlUnwindEx, the next step starts, in the order of the plan and each
    exactly once; the last step enters the catch block.  What a step sets: a
    destructor is called with the registers the guest came back with but for RDX (its
    establisher frame), RSP and RIP; a catch funclet with the registers of its frame,
    RDX and RSP set likewise; both on a stack that is 8 below a multiple of 16 and holds the
    trampoline as return address.  A landing pad is jumped to with the registers of its
    frame, RAX and RDX set as the personality routine does; nothing is said of the
    alignment of its stack.  Each step needs its stack or slot accessible, and a catch
    by value of a typed object ([place_ok]) is left out.  A step of the plan that throws and
    is caught replaces the plan, and the rest of it is not run (see
    [nested_exception_forgets_outer]). *)
Theorem exception_runs_plan rd y tctx rip rsp payload handler steps first rest s :
  search_and_plan rd order depth y tctx rip rsp payload = Ok (handler, steps) →
  steps ++ [terminal_step handler payload] = first :: rest → step_ok first (a_cpu s) →
  runs_plan first rest (begin_or_finish handler steps payload) s.
Proof.
  intros Hsearch Hplan Hok. apply runs_rest.
  - rewrite <- Hplan, removelast_last. by eapply plan_calls.
  - unfold begin_or_finish. erewrite bind_ok by reflexivity. rewrite Hplan.
    apply (run_next_spec first rest (mkApi (a_cpu s) (set_seh_pending (Some (mkPending (first :: rest) false false)) (a_win s)))); done.
Qed.

(** The catch funclet returns: the guest goes on where it says, nothing is
    pending, and no register but RIP has changed. *)
Lemma catch_returns s cont :
  w_seh_pending (a_win s) = Some (mkPending [] true false) → mem_inv (a_cpu s) →
  context_reg Rax (snapshot_thread_context (a_cpu s)) = cont → 0 < cont < 0x800000000000 →
  ∃ e', continue_pending s = (mkApi e' (set_seh_pending None (a_win s)), Ok (Return cont 0)) ∧
    snapshot_thread_context e' = set_context_reg Rip cont (snapshot_thread_context (a_cpu s)).
Proof.
  intros Hp Hi Hrax Hc. unfold continue_pending. erewrite bind_ok by reflexivity. erewrite bind_ok by reflexivity.
  rewrite Hp. cbn [sp_steps expect_catch_return expect_cleanup_resume].
  erewrite bind_ok by apply arg_ok. cbn [a_cpu a_win]. rewrite Hrax, decide_False by lia.
  destruct (set_reg_ok Rip cont (mkApi (a_cpu s) (set_seh_pending None (a_win s))) Hi) as (e' & Hr & _ & Hctx).
  erewrite bind_ok by exact Hr. exists e'. split; [done|exact Hctx].
Qed.

(** An exception inside the catch block, caught there, replaces the plan: when
    the outer funclet returns there is nothing left to continue. *)
Lemma nested_exception_forgets_outer handler payload s :
  hf_msvc handler = None → step_ok (terminal_step handler payload) (a_cpu s) →
  w_seh_pending (a_win s) = Some (mkPending [] true false) →
  let s' := (begin_or_finish handler [] payload s).1 in
  w_seh_pending (a_win s') = None ∧ (continue_pending s').2 = Err (Message "SEH continue trampoline with no pending work").
Proof.
  intros Hm Hok _. unfold begin_or_finish. erewrite bind_ok by reflexivity. cbn [app].
  set (s1 := mkApi _ _). destruct (run_next_spec (terminal_step handler payload) [] s1 eq_refl Hok) as (_ & _ & Hw & _).
  cbv zeta. assert (Hnone : w_seh_pending (a_win (run_next_step s1).1) = None).
  { rewrite Hw. unfold terminal_step. by rewrite Hm. }
  split; [exact Hnone|]. unfold continue_pending. erewrite bind_ok by reflexivity. erewrite bind_ok by reflexivity. by rewrite Hnone.
Qed.
End Steps.
