(* ===== verification/user32.v ===== *)
(** * Windows, messages and timers (crates/wie-winapi/src/user32.rs)

    The window calls of a process without a display: the queue of messages and
    the calls that post, peek, get and dispatch them; window classes and windows;
    the one main window whose place, title and focus the remaining calls keep;
    timers, hooks, menus, and the calls with a fixed answer.  A handler runs on the
    engine and the process as the KERNEL32 handlers do, and on the state below. *)

From stdpp Require Import pretty.
From S2P Require Import Prelude utf regs insn engine cpu guest_heap guest_string sync_obj thread win32 dispatch_table.
From S2P Require Import k32_thread k32_misc k32_info.

Definition FAKE_ICON_HANDLE : u64 := 0x66000001.
Definition FAKE_CURSOR_HANDLE : u64 := 0x66000002.
Definition IDOK : u64 := 1.
Definition WM_MDICREATE : u32 := 0x220.
Definition FAKE_MONITOR_HANDLE : u64 := 0x66000010.
Definition DISPLAY_DEVICE_ATTACHED_TO_DESKTOP : u32 := 1.
Definition DISPLAY_DEVICE_PRIMARY_DEVICE : u32 := 4.
Definition FAKE_WINDOW_HANDLE : u64 := 0x66000100.
Definition FAKE_DEVICE_CONTEXT_HANDLE : u64 := 0x66000200.
Definition FAKE_IMAGE_HANDLE : u64 := 0x66000300.
Definition FAKE_DESKTOP_WINDOW_HANDLE : u64 := 0x66000110.
Definition FAKE_SYSTEM_COLOR_BRUSH_BASE : u64 := 0x66010000.
Definition FAKE_PROCESS_ID : u32 := 1.
Definition FAKE_THREAD_ID : u64 := 1.
Definition DIALOG_BASE_UNIT_X : u32 := 8.
Definition DIALOG_BASE_UNIT_Y : u32 := 16.
Definition WM_QUIT : u32 := 0x12.
Definition WM_KEYDOWN : u32 := 0x100.
Definition WM_KEYUP : u32 := 0x101.
Definition WM_CHAR : u32 := 0x102.
Definition WM_DEADCHAR : u32 := 0x103.
Definition WM_SYSKEYDOWN : u32 := 0x104.
Definition WM_SYSKEYUP : u32 := 0x105.
Definition WM_SYSCHAR : u32 := 0x106.
Definition WM_SYSDEADCHAR : u32 := 0x107.

(** ** State *)

Record WindowClassRecord := mkClass {
  wc_atom : u16;
  wc_class_name : list char;
  wc_window_proc : u64;
  wc_style : u32;
  wc_instance_handle : u64;
  wc_icon_handle : u64;
  wc_cursor_handle : u64;
  wc_background_brush : u64;
  wc_small_icon_handle : u64;
  wc_unicode : bool;
}.
Record WindowRecord := mkWindow {
  wn_handle : u64;
  wn_class_atom : u16;
  wn_class_name : list char;
  wn_window_proc : u64;
  wn_unicode : bool;
  wn_title : list char;
  wn_style : u32;
  wn_extended_style : u32;
  wn_parent_handle : u64;
  wn_menu_handle : u64;
  wn_instance_handle : u64;
  wn_x : Z;
  wn_y : Z;
  wn_width : Z;
  wn_height : Z;
  wn_visible : bool;
  wn_enabled : bool;
}.
Record QueuedWindowMessage := mkMessage {
  qm_window_handle : u64;
  qm_message : u32;
  qm_word_parameter : u64;
  qm_long_parameter : u64;
  qm_time : u32;
  qm_point_x : Z;
  qm_point_y : Z;
}.
Record WindowsHookRecord := mkHook {
  hk_handle : u64;
  hk_hook_type : Z;
  hk_callback_address : u64;
  hk_module_handle : u64;
  hk_thread_id : u32;
}.
Record TimerRecord := mkTimer { tm_window_handle : u64; tm_timer_id : u64; tm_interval_ms : u32; tm_callback_address : u64 }.
Inductive MessageQueueIdlePolicy := ExitOnIdle | YieldOnIdle.
#[global] Instance QueuedWindowMessage_eq_dec : EqDecision QueuedWindowMessage.
Proof. solve_decision. Defined.

(** The fields of [WinApiState] these calls use, by what they describe: the main
    window, the message queue, the classes and windows, and the rest. *)
Record MainWindow := mkMain {
  window_visible : bool;
  window_enabled : bool;
  active_window_handle : u64;
  foreground_window_handle : u64;
  focus_window_handle : u64;
  capture_window_handle : u64;
  cursor_handle : u64;
  window_title : list char;
  window_x : Z;
  window_y : Z;
  window_width : Z;
  window_height : Z;
  window_invalidated : bool;
}.
Record Messages := mkMessages { message_queue : list QueuedWindowMessage; next_message_time : u32; idle_policy : MessageQueueIdlePolicy }.
Record Windows := mkWindows {
  next_window_class_atom : u16;
  window_classes : list WindowClassRecord;
  next_window_handle : u64;
  windows : list WindowRecord;
}.
Record UserState := mkUserState {
  main_window : MainWindow;
  messages : Messages;
  window_tables : Windows;
  window_long_ptr_values : list (u64 * Z * u64);
  keyboard_state : list u8;
  next_timer_id : u64;
  timers : list TimerRecord;
  next_windows_hook_handle : u64;
  windows_hooks : list WindowsHookRecord;
  menu_item_states : list (u64 * u32 * u32);
  menu_item_check_states : list (u64 * u32 * u32);
  next_menu_handle : u64;
}.

Definition set_visible (v : bool) (m : MainWindow) : MainWindow :=
  mkMain v (window_enabled m) (active_window_handle m) (foreground_window_handle m) (focus_window_handle m)
    (capture_window_handle m) (cursor_handle m) (window_title m) (window_x m) (window_y m) (window_width m)
    (window_height m) (window_invalidated m).
Definition set_enabled (v : bool) (m : MainWindow) : MainWindow :=
  mkMain (window_visible m) v (active_window_handle m) (foreground_window_handle m) (focus_window_handle m)
    (capture_window_handle m) (cursor_handle m) (window_title m) (window_x m) (window_y m) (window_width m)
    (window_height m) (window_invalidated m).
Definition set_active (v : u64) (m : MainWindow) : MainWindow :=
  mkMain (window_visible m) (window_enabled m) v (foreground_window_handle m) (focus_window_handle m)
    (capture_window_handle m) (cursor_handle m) (window_title m) (window_x m) (window_y m) (window_width m)
    (window_height m) (window_invalidated m).
Definition set_foreground (v : u64) (m : MainWindow) : MainWindow :=
  mkMain (window_visible m) (window_enabled m) (active_window_handle m) v (focus_window_handle m)
    (capture_window_handle m) (cursor_handle m) (window_title m) (window_x m) (window_y m) (window_width m)
    (window_height m) (window_invalidated m).
Definition set_focus (v : u64) (m : MainWindow) : MainWindow :=
  mkMain (window_visible m) (window_enabled m) (active_window_handle m) (foreground_window_handle m) v
    (capture_window_handle m) (cursor_handle m) (window_title m) (window_x m) (window_y m) (window_width m)
    (window_height m) (window_invalidated m).
Definition set_capture (v : u64) (m : MainWindow) : MainWindow :=
  mkMain (window_visible m) (window_enabled m) (active_window_handle m) (foreground_window_handle m)
    (focus_window_handle m) v (cursor_handle m) (window_title m) (window_x m) (window_y m) (window_width m)
    (window_height m) (window_invalidated m).
Definition set_cursor_handle (v : u64) (m : MainWindow) : MainWindow :=
  mkMain (window_visible m) (window_enabled m) (active_window_handle m) (foreground_window_handle m)
    (focus_window_handle m) (capture_window_handle m) v (window_title m) (window_x m) (window_y m) (window_width m)
    (window_height m) (window_invalidated m).
Definition set_title (v : list char) (m : MainWindow) : MainWindow :=
  mkMain (window_visible m) (window_enabled m) (active_window_handle m) (foreground_window_handle m)
    (focus_window_handle m) (capture_window_handle m) (cursor_handle m) v (window_x m) (window_y m) (window_width m)
    (window_height m) (window_invalidated m).
Definition set_place (new_x : Z) (new_y : Z) (new_width : Z) (new_height : Z) (m : MainWindow) : MainWindow :=
  mkMain (window_visible m) (window_enabled m) (active_window_handle m) (foreground_window_handle m)
    (focus_window_handle m) (capture_window_handle m) (cursor_handle m) (window_title m) new_x new_y new_width
    new_height (window_invalidated m).
Definition set_invalidated (v : bool) (m : MainWindow) : MainWindow :=
  mkMain (window_visible m) (window_enabled m) (active_window_handle m) (foreground_window_handle m)
    (focus_window_handle m) (capture_window_handle m) (cursor_handle m) (window_title m) (window_x m) (window_y m)
    (window_width m) (window_height m) v.
Definition set_main (v : MainWindow) (s : UserState) : UserState :=
  mkUserState v (messages s) (window_tables s) (window_long_ptr_values s) (keyboard_state s) (next_timer_id s)
    (timers s) (next_windows_hook_handle s) (windows_hooks s) (menu_item_states s) (menu_item_check_states s)
    (next_menu_handle s).
Definition set_messages (v : Messages) (s : UserState) : UserState :=
  mkUserState (main_window s) v (window_tables s) (window_long_ptr_values s) (keyboard_state s) (next_timer_id s)
    (timers s) (next_windows_hook_handle s) (windows_hooks s) (menu_item_states s) (menu_item_check_states s)
    (next_menu_handle s).
Definition set_window_tables (v : Windows) (s : UserState) : UserState :=
  mkUserState (main_window s) (messages s) v (window_long_ptr_values s) (keyboard_state s) (next_timer_id s)
    (timers s) (next_windows_hook_handle s) (windows_hooks s) (menu_item_states s) (menu_item_check_states s)
    (next_menu_handle s).
Definition set_long_ptrs (v : list (u64 * Z * u64)) (s : UserState) : UserState :=
  mkUserState (main_window s) (messages s) (window_tables s) v (keyboard_state s) (next_timer_id s) (timers s)
    (next_windows_hook_handle s) (windows_hooks s) (menu_item_states s) (menu_item_check_states s) (next_menu_handle
    s).
Definition set_keyboard (v : list u8) (s : UserState) : UserState :=
  mkUserState (main_window s) (messages s) (window_tables s) (window_long_ptr_values s) v (next_timer_id s)
    (timers s) (next_windows_hook_handle s) (windows_hooks s) (menu_item_states s) (menu_item_check_states s)
    (next_menu_handle s).
Definition set_timers (n : u64) (l : list TimerRecord) (s : UserState) : UserState :=
  mkUserState (main_window s) (messages s) (window_tables s) (window_long_ptr_values s) (keyboard_state s) n l
    (next_windows_hook_handle s) (windows_hooks s) (menu_item_states s) (menu_item_check_states s) (next_menu_handle
    s).
Definition set_hooks (n : u64) (l : list WindowsHookRecord) (s : UserState) : UserState :=
  mkUserState (main_window s) (messages s) (window_tables s) (window_long_ptr_values s) (keyboard_state s)
    (next_timer_id s) (timers s) n l (menu_item_states s) (menu_item_check_states s) (next_menu_handle s).
Definition set_menu_items (v : list (u64 * u32 * u32)) (s : UserState) : UserState :=
  mkUserState (main_window s) (messages s) (window_tables s) (window_long_ptr_values s) (keyboard_state s)
    (next_timer_id s) (timers s) (next_windows_hook_handle s) (windows_hooks s) v (menu_item_check_states s)
    (next_menu_handle s).
Definition set_menu_checks (v : list (u64 * u32 * u32)) (s : UserState) : UserState :=
  mkUserState (main_window s) (messages s) (window_tables s) (window_long_ptr_values s) (keyboard_state s)
    (next_timer_id s) (timers s) (next_windows_hook_handle s) (windows_hooks s) (menu_item_states s) v
    (next_menu_handle s).
Definition set_next_menu (v : u64) (s : UserState) : UserState :=
  mkUserState (main_window s) (messages s) (window_tables s) (window_long_ptr_values s) (keyboard_state s)
    (next_timer_id s) (timers s) (next_windows_hook_handle s) (windows_hooks s) (menu_item_states s)
    (menu_item_check_states s) v.

(** ** Operations on the state *)

Definition checked_i32 (v : Z) : option Z := if decide (- 2 ^ 31 ≤ v < 2 ^ 31) then Some v else None.
(** [checked_add(1)] of an unsigned integer below [lim]. *)
Definition checked_succ (lim v : Z) : option Z := if decide (v + 1 < lim) then Some (v + 1) else None.
(** The first entry that satisfies [P] changed in place, or a new one behind. *)
Definition upsert {A} (P : A → bool) (f : A → A) (new : A) (l : list A) : list A :=
  match list_find P l with Some (i, _) => alter f i l | None => l ++ [new] end.

(** The filter of GetMessage and PeekMessage. *)
Definition matches_filter (window_filter : u64) (minimum maximum : u32) (q : QueuedWindowMessage) : bool :=
  bool_decide (window_filter = 0 ∨ qm_window_handle q = window_filter)
  && (if decide (minimum = 0 ∧ maximum = 0) then true else bool_decide (minimum ≤ qm_message q ≤ maximum)).
Definition find_message (filter : QueuedWindowMessage → bool) (m : Messages) : option (nat * QueuedWindowMessage) :=
  list_find filter (message_queue m).
Definition remove_message (i : nat) (m : Messages) : Messages :=
  mkMessages (delete i (message_queue m)) (next_message_time m) (idle_policy m).
(** A message behind the others, with the next time stamp; nothing when there is none. *)
Definition push_message (window_handle : u64) (message : u32) (word_parameter long_parameter : u64) (m : Messages) : option Messages :=
  time ← checked_succ u32_lim (next_message_time m);
  Some (mkMessages (message_queue m ++ [mkMessage window_handle message word_parameter long_parameter (next_message_time m) 0 0])
          time (idle_policy m)).

Definition register_window_class (record : WindowClassRecord) (w : Windows) : Windows * option u64 :=
  if decide (wc_class_name record = [] ∨ wc_window_proc record = 0) then (w, Some 0)
  else
    match List.find (λ c, same_name (wc_class_name c) (wc_class_name record) && bool_decide (wc_unicode c = wc_unicode record))
            (window_classes w) with
    | Some existing => (w, Some (wc_atom existing))
    | None =>
        let atom := next_window_class_atom w in
        if decide (atom = 0) then (w, Some 0)
        else
          match checked_succ (2 ^ 16) atom with
          | None => (w, None)
          | Some next =>
              let record := mkClass atom (wc_class_name record) (wc_window_proc record) (wc_style record) (wc_instance_handle record)
                (wc_icon_handle record) (wc_cursor_handle record) (wc_background_brush record) (wc_small_icon_handle record)
                (wc_unicode record) in
              (mkWindows next (window_classes w ++ [record]) (next_window_handle w) (windows w), Some atom)
          end
    end.

Inductive WindowClassIdentifier := Atom (atom : u16) | Name (name : list char).
Record CreateWindowRequest := mkCreate {
  cr_class_identifier : WindowClassIdentifier;
  cr_title : list char;
  cr_style : u32;
  cr_extended_style : u32;
  cr_parent_handle : u64;
  cr_menu_handle : u64;
  cr_instance_handle : u64;
  cr_x : Z;
  cr_y : Z;
  cr_width : Z;
  cr_height : Z;
}.
Definition window_class_identifier_matches (identifier : WindowClassIdentifier) (record : WindowClassRecord) : bool :=
  match identifier with
  | Atom atom => bool_decide (wc_atom record = atom)
  | Name name => same_name (wc_class_name record) name
  end.
Definition find_window_class (w : Windows) (identifier : WindowClassIdentifier) (unicode : bool) : option WindowClassRecord :=
  match List.find (λ c, bool_decide (wc_unicode c = unicode) && window_class_identifier_matches identifier c) (window_classes w) with
  | Some c => Some c
  | None => List.find (window_class_identifier_matches identifier) (window_classes w)
  end.
(** [format!("#{atom}")]. *)
Definition atom_name (atom : u16) : list char :=
  35 :: ((λ c, Z.of_N (Ascii.N_of_ascii c)) <$> String.list_ascii_of_string (pretty (Z.to_N atom))).
(** The handle, the procedure and whether it takes UTF-16; [None] when handles run out. *)
Definition create_window_record (request : CreateWindowRequest) (unicode : bool) (w : Windows)
    : Windows * option (u64 * u64 * bool) :=
  let registered := find_window_class w (cr_class_identifier request) unicode in
  let handle := next_window_handle w in
  if decide (handle = 0) then (w, Some (0, 0, unicode))
  else
    match checked_add handle 1 with
    | None => (w, None)
    | Some next =>
        let '(atom, name, proc, class_unicode) :=
          match registered with
          | Some c => (wc_atom c, wc_class_name c, wc_window_proc c, wc_unicode c)
          | None => (0, match cr_class_identifier request with Atom a => atom_name a | Name n => n end, 0, unicode)
          end in
        let window := mkWindow handle atom name proc class_unicode (cr_title request) (cr_style request) (cr_extended_style request)
          (cr_parent_handle request) (cr_menu_handle request) (cr_instance_handle request) (cr_x request) (cr_y request)
          (cr_width request) (cr_height request) false true in
        (mkWindows (next_window_class_atom w) (window_classes w) next (windows w ++ [window]), Some (handle, proc, class_unicode))
    end.

Definition find_window (s : UserState) (handle : u64) : option WindowRecord :=
  List.find (λ w, bool_decide (wn_handle w = handle)) (windows (window_tables s)).
Definition is_known_window (s : UserState) (handle : u64) : bool :=
  if decide (handle = 0) then false
  else bool_decide (handle = FAKE_WINDOW_HANDLE ∨ handle = FAKE_DESKTOP_WINDOW_HANDLE) || bool_decide (is_Some (find_window s handle))
       || bool_decide (active_window_handle (main_window s) = handle ∨ foreground_window_handle (main_window s) = handle).
Definition window_client_size (s : UserState) (handle : u64) : Z * Z :=
  let main := main_window s in
  match find_window s handle with
  | Some w =>
      (Z.max (if decide (0 < wn_width w) then wn_width w else window_width main) 1,
       Z.max (if decide (0 < wn_height w) then wn_height w else window_height main) 1)
  | None => (Z.max (window_width main) 1, Z.max (window_height main) 1)
  end.

Definition long_ptr_at (window : u64) (index : Z) (e : u64 * Z * u64) : bool := bool_decide (e.1 = (window, index)).
Definition long_ptr_value (window : u64) (index : Z) (l : list (u64 * Z * u64)) : u64 :=
  default 0 (snd <$> List.find (long_ptr_at window index) l).
Definition put_long_ptr (window : u64) (index : Z) (v : u64) (l : list (u64 * Z * u64)) : list (u64 * Z * u64) :=
  upsert (long_ptr_at window index) (λ e, (e.1, v)) (window, index, v) l.

Definition menu_item_at (menu : u64) (item : u32) (e : u64 * u32 * u32) : bool := bool_decide (e.1 = (menu, item)).
Definition menu_flags (menu : u64) (item : u32) (l : list (u64 * u32 * u32)) : u32 :=
  default (u32_lim - 1) (snd <$> List.find (menu_item_at menu item) l).
Definition put_menu_flags (menu : u64) (item flags : u32) (l : list (u64 * u32 * u32)) : list (u64 * u32 * u32) :=
  upsert (menu_item_at menu item) (λ e, (e.1, flags)) (menu, item, flags) l.

Definition timer_at (window timer_id : u64) (t : TimerRecord) : bool :=
  bool_decide (tm_window_handle t = window ∧ tm_timer_id t = timer_id).

Definition fake_system_metric (metric_index : u64) : u64 :=
  let among l := bool_decide (metric_index ∈ l) in
  if among [0; 16] then 1024 else if among [1] then 768 else if among [2; 3] then 17 else if among [4] then 23
  else if among [5; 6; 19; 80] then 1 else if among [7; 8; 32; 33; 36; 37] then 4
  else if decide (11 ≤ metric_index ≤ 14) then 32 else if among [15] then 20 else if among [17] then 728
  else if among [28; 34] then 112 else if among [29; 35] then 27 else if among [30; 31] then 18
  else if among [38; 39] then 75 else 0.
(** [base * dpi / 96]; [None] when the product does not fit. *)
Definition scale_system_metric_for_dpi (base_value dpi : u64) : option u64 :=
  if decide (dpi = 0) then Some base_value else product ← checked_mul base_value dpi; Some (product `div` 96).
Definition sys_color (color_index : u64) : u64 :=
  let among l := bool_decide (color_index ∈ l) in
  if among [1; 6; 7; 8; 9; 18] then 0 else if among [2; 13] then 0xd77830 else if among [3] then 0xbfbfbf
  else if among [5; 14] then 0xffffff else if among [10; 11] then 0xb4b4b4 else if among [12] then 0xababab
  else if among [16] then 0xa0a0a0 else if among [17] then 0x6d6d6d else if among [0] then 0xc8c8c8 else 0xf0f0f0.
Definition virtual_key_map (code map_type : u64) : u64 :=
  let low := mask32 code in
  if decide (map_type = 0 ∨ map_type = 1 ∨ map_type = 3 ∨ map_type = 4) then low
  else if decide (map_type = 2 ∧ 0x20 ≤ low ≤ 0x7e) then low else 0.

(** ** Handlers *)

Record UserApi (E : Type) := mkUser { u_api : Api E; u_state : UserState }.
Arguments mkUser {E}.
Arguments u_api {E}.
Arguments u_state {E}.

Section Handlers.
Context {E : Type} `{CpuMem E, !CpuMap E, !CpuRegs E, !CpuApi E}.
Abbreviation UH := (M (UserApi E)).

Definition process {A} (m : M (Api E) A) : UH A := zoom u_api (λ a s, mkUser a (u_state s)) m.
Definition user {A} (f : UserState → A) : UH A := λ s, (s, Ok (f (u_state s))).
Definition on_user (f : UserState → UserState) : UH unit := λ s, (mkUser (u_api s) (f (u_state s)), Ok tt).
Definition on_main (f : MainWindow → MainWindow) : UH unit := on_user (λ s, set_main (f (main_window s)) s).
Definition on_guest {A} (m : M E A) : UH A := process (cpu m).
(** An operation on the windows, [None] of which is an error. *)
Definition on_windows {A} (text : string) (f : Windows → Windows * option A) : UH A := λ s,
  let '(w, r) := f (window_tables (u_state s)) in
  (mkUser (u_api s) (set_window_tables w (u_state s)), ok_or r (Message text)).

Definition reg_name (r : Reg) : string :=
  match r with Rip => "RIP" | Rax => "RAX" | Rcx => "RCX" | Rdx => "RDX" | Rsp => "RSP" | R8 => "R8" | R9 => "R9" end.
Definition reg_for (r : Reg) (api : string) : UH u64 := process (arg_for r (reg_name r) api).
(** Arguments that are read and not used. *)
Definition ignored (rs : list Reg) (api : string) : UH unit := foldr (λ r k, _ ← reg_for r api; k) (mret tt) rs.
Definition return_of (v : u64) (api : string) : UH HandlerOutcome := process (ret_u64 v api).
Definition truth (b : bool) (api : string) : UH HandlerOutcome := return_of (if b then 1 else 0) api.
(** A call with a fixed answer. *)
Definition answer (rs : list Reg) (v : u64) (api : string) : UH HandlerOutcome := _ ← ignored rs api; return_of v api.
Definition checked_for {A} (o : option A) (text : string) : UH A := process (some_ctx text o).
Definition field (base offset : u64) (name : string) : UH u64 := on_guest (checked_field_address base offset name).
(** The fields of a structure one after the other, each written when its address is known. *)
Fixpoint put_fields (base : u64) (fs : list Field) : UH unit :=
  match fs with
  | [] => mret tt
  | f :: fs => a ← field base (f_offset f) (f_name f); _ ← on_guest (context (f_error f) (mem_write a (f_bytes f))); put_fields base fs
  end.
Definition int_field (offset : u64) (name : string) (v : Z) : Field :=
  mkField offset name (le_bytes 4 v) "failed to write i32 to guest memory".
Definition rect_fields (offset : u64) (prefix : string) (left top right bottom : Z) : list Field :=
  [int_field offset (prefix +:+ ".left") left; int_field (offset + 4) (prefix +:+ ".top") top;
   int_field (offset + 8) (prefix +:+ ".right") right; int_field (offset + 12) (prefix +:+ ".bottom") bottom].
Definition write_window_rect (rect_ptr : u64) (left top right bottom : Z) : UH unit :=
  put_fields rect_ptr (rect_fields 0 "RECT" left top right bottom).
Definition low_i32 (v : u64) : Z := as_i32 (mask32 v).

(** *** Messages *)

Definition message_fields (m : QueuedWindowMessage) : list Field :=
  [mkField 0 "MSG.hwnd" (le_bytes 8 (qm_window_handle m)) "failed to write MSG.hwnd";
   mkField 8 "MSG.message" (le_bytes 4 (qm_message m)) "failed to write MSG.message";
   mkField 12 "MSG alignment padding" (le_bytes 4 0) "failed to clear MSG alignment padding";
   mkField 16 "MSG.wParam" (le_bytes 8 (qm_word_parameter m)) "failed to write MSG.wParam";
   mkField 24 "MSG.lParam" (le_bytes 8 (qm_long_parameter m)) "failed to write MSG.lParam";
   mkField 32 "MSG.time" (le_bytes 4 (qm_time m)) "failed to write MSG.time";
   mkField 36 "MSG.pt.x" (le_bytes 4 (qm_point_x m)) "failed to write MSG.pt.x";
   mkField 40 "MSG.pt.y" (le_bytes 4 (qm_point_y m)) "failed to write MSG.pt.y";
   mkField 44 "MSG.lPrivate" (le_bytes 4 0) "failed to clear MSG.lPrivate"].
Definition write_message_structure (message_address : u64) (m : QueuedWindowMessage) : UH unit :=
  put_fields message_address (message_fields m).

Definition on_messages (f : Messages → Messages) : UH unit := on_user (λ s, set_messages (f (messages s)) s).

Definition handle_post_message_a : UH HandlerOutcome :=
  window_handle ← reg_for Rcx "PostMessageA"; message_raw ← reg_for Rdx "PostMessageA";
  word_parameter ← reg_for R8 "PostMessageA"; long_parameter ← reg_for R9 "PostMessageA";
  let valid_window := bool_decide (window_handle = 0 ∨ window_handle = FAKE_WINDOW_HANDLE) in
  _ ← (if valid_window then
         m ← user messages;
         m ← checked_for (push_message window_handle (mask32 message_raw) word_parameter long_parameter m) "PostMessageA timestamp overflow";
         on_messages (λ _, m)
       else mret tt);
  truth valid_window "PostMessageA".

Definition handle_peek_message_a : UH HandlerOutcome :=
  message_address ← reg_for Rcx "PeekMessageA"; window_filter ← reg_for Rdx "PeekMessageA";
  minimum_raw ← reg_for R8 "PeekMessageA"; maximum_raw ← reg_for R9 "PeekMessageA";
  w_remove_msg ← process (unwrap_or 0 (rsp ← arg Rsp; cpu (read_u32 (wrapping_add rsp 0x28))));
  found ← user (λ s, find_message (matches_filter window_filter (mask32 minimum_raw) (mask32 maximum_raw)) (messages s));
  match found with
  | Some (i, queued) =>
      _ ← (if decide (w_remove_msg ≠ 0) then on_messages (remove_message i) else mret tt);
      _ ← write_message_structure message_address queued;
      return_of 1 "PeekMessageA"
  | None => return_of 0 "PeekMessageA"
  end.

Definition handle_get_message_a : UH HandlerOutcome :=
  message_address ← reg_for Rcx "GetMessageA"; window_filter ← reg_for Rdx "GetMessageA";
  minimum_raw ← reg_for R8 "GetMessageA"; maximum_raw ← reg_for R9 "GetMessageA";
  found ← user (λ s, find_message (matches_filter window_filter (mask32 minimum_raw) (mask32 maximum_raw)) (messages s));
  if decide (message_address = 0) then return_of (u32_lim - 1) "GetMessageA"
  else
    match found with
    | Some (i, queued) =>
        _ ← on_messages (remove_message i);
        _ ← write_message_structure message_address queued;
        truth (bool_decide (qm_message queued ≠ WM_QUIT)) "GetMessageA"
    | None =>
        m ← user messages;
        match idle_policy m with
        | ExitOnIdle =>
            let quit_message := mkMessage 0 WM_QUIT 0 0 (next_message_time m) 0 0 in
            time ← checked_for (checked_succ u32_lim (next_message_time m)) "GetMessageA timestamp overflow";
            _ ← on_messages (λ m, mkMessages (message_queue m) time (idle_policy m));
            _ ← write_message_structure message_address quit_message;
            return_of 0 "GetMessageA"
        | YieldOnIdle => mret (Signal WaitingForMessage)
        end
    end.

Definition handle_translate_message : UH HandlerOutcome :=
  message_address ← reg_for Rcx "TranslateMessage";
  translated ← (if decide (message_address = 0) then mret false
                else
                  a ← field message_address 8 "MSG.message";
                  message ← on_guest (context "failed to read MSG.message for TranslateMessage" (read_u32 a));
                  mret (bool_decide (message ∈ [WM_KEYDOWN; WM_KEYUP; WM_CHAR; WM_DEADCHAR; WM_SYSKEYDOWN; WM_SYSKEYUP; WM_SYSCHAR;
                                                WM_SYSDEADCHAR])));
  truth translated "TranslateMessage".

Definition handle_dispatch_message_a : UH HandlerOutcome :=
  message_address ← reg_for Rcx "DispatchMessageA";
  if decide (message_address = 0) then return_of 0 "DispatchMessageA"
  else
    window_handle ← on_guest (context "failed to read MSG.hwnd for DispatchMessageA" (read_u64 message_address));
    a ← field message_address 8 "MSG.message";
    message ← on_guest (context "failed to read MSG.message for DispatchMessageA" (read_u32 a));
    a ← field message_address 16 "MSG.wParam";
    word_parameter ← on_guest (context "failed to read MSG.wParam for DispatchMessageA" (read_u64 a));
    a ← field message_address 24 "MSG.lParam";
    long_parameter ← on_guest (context "failed to read MSG.lParam for DispatchMessageA" (read_u64 a));
    target ← user (λ s, find_window s window_handle);
    match target with
    | None => return_of 0 "DispatchMessageA"
    | Some w =>
        if decide (wn_window_proc w = 0) then return_of 0 "DispatchMessageA"
        else mret (Signal (GuestCallbackRequested
               (mkRequest (wn_window_proc w) window_handle message word_parameter long_parameter (wn_unicode w))))
    end.

Definition read_window_class_identifier (wide : bool) (v : u64) : UH WindowClassIdentifier :=
  if decide (v = 0) then mret (Name [])
  else if decide (v < 2 ^ 16) then mret (Atom v)
  else
    name ← on_guest (if wide then context "failed to read Unicode window class name" (read_utf16_lossy v 256)
                     else context "failed to read ANSI window class name" (read_ansi_lossy v 256));
    mret (Name name).
Definition read_window_class_identifier_a : u64 → UH WindowClassIdentifier := read_window_class_identifier false.
Definition read_window_class_identifier_w : u64 → UH WindowClassIdentifier := read_window_class_identifier true.

Definition create_mdi_child_from_struct (p : u64) (unicode : bool) : UH u64 :=
  if decide (p = 0) then mret 0
  else
    class_ptr ← on_guest (context "failed to read MDICREATESTRUCT.szClass" (read_u64 p));
    a ← field p 8 "MDICREATESTRUCT.szTitle"; title_ptr ← on_guest (read_u64 a);
    a ← field p 16 "MDICREATESTRUCT.hOwner"; owner ← on_guest (read_u64 a);
    a ← field p 24 "MDICREATESTRUCT.x"; x ← on_guest (read_i32 a);
    a ← field p 28 "MDICREATESTRUCT.y"; y ← on_guest (read_i32 a);
    a ← field p 32 "MDICREATESTRUCT.cx"; cx ← on_guest (read_i32 a);
    a ← field p 36 "MDICREATESTRUCT.cy"; cy ← on_guest (read_i32 a);
    a ← field p 40 "MDICREATESTRUCT.style"; style ← on_guest (read_u32 a);
    class_identifier ← (if unicode then read_window_class_identifier_w class_ptr else read_window_class_identifier_a class_ptr);
    title ← (if decide (title_ptr = 0) then mret []
             else on_guest (if unicode then read_utf16_lossy title_ptr 512 else read_ansi_lossy title_ptr 512));
    created ← on_windows "fake window handle overflow"
      (create_window_record (mkCreate class_identifier title style 0 0 0 owner x y cx cy) unicode);
    mret created.1.1.

(** [with_context]: the error's outermost text. *)
Definition user_ctx {A} (text : string) (m : UH A) : UH A := context text m.

Definition handle_send_message (prefer_unicode : bool) (api : string) : UH HandlerOutcome :=
  window_handle ← reg_for Rcx api; message_raw ← reg_for Rdx api; word_parameter ← reg_for R8 api; long_parameter ← reg_for R9 api;
  let message := mask32 message_raw in
  if decide (message = WM_MDICREATE) then
    child ← user_ctx ("failed to handle WM_MDICREATE in " +:+ api) (create_mdi_child_from_struct long_parameter prefer_unicode);
    return_of child (api +:+ " WM_MDICREATE")
  else
    target ← user (λ s, find_window s window_handle);
    match target with
    | Some w =>
        if decide (wn_window_proc w ≠ 0) then
          mret (Signal (GuestCallbackRequested (mkRequest (wn_window_proc w) window_handle message word_parameter long_parameter
                                                  (if prefer_unicode then true else wn_unicode w))))
        else return_of 0 api
    | None => return_of 0 api
    end.
Definition handle_send_message_a : UH HandlerOutcome := handle_send_message false "SendMessageA".
Definition handle_send_message_w : UH HandlerOutcome := handle_send_message true "SendMessageW".

(** *** Classes *)

Definition register_class_ex (wide : bool) (api struct_name : string) : UH HandlerOutcome :=
  p ← reg_for Rcx api;
  let read_field {A} (rd : u64 → M E A) offset name : UH A :=
    a ← field p offset (struct_name +:+ "." +:+ name);
    on_guest (context ("failed to read " +:+ struct_name +:+ "." +:+ name) (rd a)) in
  v ← (if decide (p = 0) then mret 0
       else
         style ← read_field read_u32 4 "style"; window_proc ← read_field read_u64 8 "lpfnWndProc";
         instance_handle ← read_field read_u64 24 "hInstance"; icon_handle ← read_field read_u64 32 "hIcon";
         cursor_handle ← read_field read_u64 40 "hCursor"; background_brush ← read_field read_u64 48 "hbrBackground";
         class_name_ptr ← read_field read_u64 64 "lpszClassName"; small_icon_handle ← read_field read_u64 72 "hIconSm";
         class_name ← on_guest (context ("failed to read " +:+ api +:+ " class name")
           (if wide then read_utf16_lossy class_name_ptr 256 else read_ansi_lossy class_name_ptr 256));
         on_windows "window class atom overflow"
           (register_window_class (mkClass 0 class_name window_proc style instance_handle icon_handle cursor_handle background_brush
                                     small_icon_handle wide)));
  return_of v api.
Definition handle_register_class_ex_w : UH HandlerOutcome := register_class_ex true "RegisterClassExW" "WNDCLASSEXW".
Definition handle_register_class_ex_a : UH HandlerOutcome := register_class_ex false "RegisterClassExA" "WNDCLASSEXA".

(** *** The main window *)

Definition handle_get_async_key_state : UH HandlerOutcome :=
  virtual_key_raw ← reg_for Rcx "GetAsyncKeyState";
  key_state ← user (λ s, default 0 (keyboard_state s !! Z.to_nat (Z.land virtual_key_raw 0xff)));
  let result := Z.land key_state 0x80 in
  return_of (if decide (result ≠ 0) then Z.lor result 1 else result) "GetAsyncKeyState".
Definition handle_get_key_state : UH HandlerOutcome :=
  virtual_key_raw ← reg_for Rcx "GetKeyState";
  key_state ← user (λ s, default 0 (keyboard_state s !! Z.to_nat (Z.land virtual_key_raw 0xff)));
  return_of (if decide (Z.land key_state 0x80 ≠ 0) then 0x8000 else 0) "GetKeyState".
Definition handle_set_keyboard_state : UH HandlerOutcome :=
  p ← reg_for Rcx "SetKeyboardState";
  _ ← (if decide (p ≠ 0) then
         bytes ← on_guest (context "failed to read SetKeyboardState buffer" (read_bytes p 256%nat)); on_user (set_keyboard bytes)
       else mret tt);
  truth (bool_decide (p ≠ 0)) "SetKeyboardState".
Definition handle_get_keyboard_state : UH HandlerOutcome :=
  p ← reg_for Rcx "GetKeyboardState";
  _ ← (if decide (p ≠ 0) then
         bytes ← user keyboard_state; on_guest (context "failed to write GetKeyboardState buffer" (write_bytes p bytes))
       else mret tt);
  truth (bool_decide (p ≠ 0)) "GetKeyboardState".
Definition handle_map_virtual_key_a : UH HandlerOutcome :=
  code ← reg_for Rcx "MapVirtualKeyA"; map_type ← reg_for Rdx "MapVirtualKeyA";
  return_of (virtual_key_map code map_type) "MapVirtualKeyA".

Definition handle_get_window_rect : UH HandlerOutcome :=
  window_handle ← reg_for Rcx "GetWindowRect"; rect_ptr ← reg_for Rdx "GetWindowRect";
  window ← user (λ s, find_window s window_handle);
  _ ← match window with
      | Some w =>
          if decide (rect_ptr ≠ 0) then
            right ← checked_for (checked_i32 (wn_x w + wn_width w)) "GetWindowRect right coordinate overflow";
            bottom ← checked_for (checked_i32 (wn_y w + wn_height w)) "GetWindowRect bottom coordinate overflow";
            user_ctx "failed to write GetWindowRect RECT" (write_window_rect rect_ptr (wn_x w) (wn_y w) right bottom)
          else mret tt
      | None => mret tt
      end;
  truth (bool_decide (is_Some window) && bool_decide (rect_ptr ≠ 0)) "GetWindowRect".
Definition handle_get_client_rect : UH HandlerOutcome :=
  window_handle ← reg_for Rcx "GetClientRect"; rect_ptr ← reg_for Rdx "GetClientRect";
  known ← user (λ s, is_known_window s window_handle);
  let success := (known : bool) && bool_decide (rect_ptr ≠ 0) in
  _ ← (if success then size ← user (λ s, window_client_size s window_handle); write_window_rect rect_ptr 0 0 size.1 size.2
       else mret tt);
  truth success "GetClientRect".

Definition handle_show_window : UH HandlerOutcome :=
  window_handle ← reg_for Rcx "ShowWindow"; show_command ← reg_for Rdx "ShowWindow";
  previously_visible ← user (window_visible ∘ main_window);
  _ ← (if decide (window_handle = FAKE_WINDOW_HANDLE) then on_main (set_visible (bool_decide (show_command ≠ 0))) else mret tt);
  truth previously_visible "ShowWindow".
Definition handle_enable_window : UH HandlerOutcome :=
  window_handle ← reg_for Rcx "EnableWindow"; enable_raw ← reg_for Rdx "EnableWindow";
  previously_enabled ← user (window_enabled ∘ main_window);
  _ ← (if decide (window_handle = FAKE_WINDOW_HANDLE) then on_main (set_enabled (bool_decide (enable_raw ≠ 0))) else mret tt);
  truth (negb previously_enabled) "EnableWindow".
Definition handle_get_active_window : UH HandlerOutcome := v ← user (active_window_handle ∘ main_window); return_of v "GetActiveWindow".
Definition handle_get_foreground_window : UH HandlerOutcome :=
  v ← user (foreground_window_handle ∘ main_window); return_of v "GetForegroundWindow".
Definition handle_set_foreground_window : UH HandlerOutcome :=
  window_handle ← reg_for Rcx "SetForegroundWindow";
  let success := bool_decide (window_handle = FAKE_WINDOW_HANDLE) in
  _ ← (if success then on_main (set_active window_handle ∘ set_foreground window_handle) else mret tt);
  truth success "SetForegroundWindow".
(** SetActiveWindow, SetFocus: the previous one, and another if it is known. *)
Definition exchange_window (api : string) (get : MainWindow → u64) (set : u64 → MainWindow → MainWindow) (allowed : u64 → bool)
    : UH HandlerOutcome :=
  window_handle ← reg_for Rcx api;
  previous ← user (get ∘ main_window);
  _ ← (if allowed window_handle then on_main (set window_handle) else mret tt);
  return_of previous api.
Definition null_or_main (h : u64) : bool := bool_decide (h = 0 ∨ h = FAKE_WINDOW_HANDLE).
Definition handle_set_active_window : UH HandlerOutcome := exchange_window "SetActiveWindow" active_window_handle set_active null_or_main.
Definition handle_set_focus : UH HandlerOutcome := exchange_window "SetFocus" focus_window_handle set_focus null_or_main.
Definition handle_get_focus : UH HandlerOutcome := v ← user (focus_window_handle ∘ main_window); return_of v "GetFocus".
Definition handle_set_capture : UH HandlerOutcome :=
  exchange_window "SetCapture" capture_window_handle set_capture (λ h, bool_decide (h = FAKE_WINDOW_HANDLE)).
Definition handle_get_capture : UH HandlerOutcome := v ← user (capture_window_handle ∘ main_window); return_of v "GetCapture".
Definition handle_release_capture : UH HandlerOutcome := _ ← on_main (set_capture 0); return_of 1 "ReleaseCapture".
Definition handle_set_cursor : UH HandlerOutcome := exchange_window "SetCursor" cursor_handle set_cursor_handle (λ _, true).
Definition handle_get_cursor : UH HandlerOutcome := v ← user (cursor_handle ∘ main_window); return_of v "GetCursor".

(** UpdateWindow, InvalidateRect, EndPaint, RedrawWindow: the pending repaint. *)
Definition repaint (api : string) (rest : list Reg) (pending : bool) (allowed : UserState → u64 → bool) : UH HandlerOutcome :=
  window_handle ← reg_for Rcx api; _ ← ignored rest api;
  success ← user (λ s, allowed s window_handle);
  _ ← (if (success : bool) then on_main (set_invalidated pending) else mret tt);
  truth success api.
Definition handle_update_window : UH HandlerOutcome := repaint "UpdateWindow" [] false is_known_window.
Definition handle_invalidate_rect : UH HandlerOutcome :=
  repaint "InvalidateRect" [Rdx; R8] true (λ s h, bool_decide (h = 0) || is_known_window s h).
Definition handle_end_paint : UH HandlerOutcome := repaint "EndPaint" [Rdx] false is_known_window.
Definition handle_redraw_window : UH HandlerOutcome := repaint "RedrawWindow" [Rdx; R8; R9] false (λ _, null_or_main).
Definition handle_begin_paint : UH HandlerOutcome :=
  window_handle ← reg_for Rcx "BeginPaint"; paint_ptr ← reg_for Rdx "BeginPaint";
  known ← user (λ s, is_known_window s window_handle);
  if (known : bool) && bool_decide (paint_ptr ≠ 0) then
    size ← user (λ s, window_client_size s window_handle);
    _ ← put_fields paint_ptr
      ([word 0 "hdc" 8 FAKE_DEVICE_CONTEXT_HANDLE; word 8 "fErase" 4 1] ++ rect_fields 12 "rcPaint" 0 0 size.1 size.2
       ++ [word 28 "fRestore" 4 0; word 32 "fIncUpdate" 4 0]);
    return_of FAKE_DEVICE_CONTEXT_HANDLE "BeginPaint"
  else return_of 0 "BeginPaint".

Definition MAX_TITLE : nat := Z.to_nat 32768.
Definition set_window_text (wide : bool) (api : string) : UH HandlerOutcome :=
  window_handle ← reg_for Rcx api; text_ptr ← reg_for Rdx api;
  let success := bool_decide (window_handle = FAKE_WINDOW_HANDLE) && bool_decide (text_ptr ≠ 0) in
  _ ← (if success then
         title ← on_guest (context ("failed to read " +:+ api +:+ " text")
           (if wide then read_utf16_lossy text_ptr MAX_TITLE else read_ansi_lossy text_ptr MAX_TITLE));
         on_main (set_title title)
       else mret tt);
  truth success api.
Definition handle_set_window_text_a : UH HandlerOutcome := set_window_text false "SetWindowTextA".
Definition handle_set_window_text_w : UH HandlerOutcome := set_window_text true "SetWindowTextW".
Definition write_ansi_window_text (buffer_ptr max_characters : u64) (text : list char) : UH u64 :=
  n ← on_guest (context "failed to write ANSI window text" (write_ansi_c_string buffer_ptr (Z.to_nat max_characters) text));
  mret (Z.of_nat n).
Definition write_wide_window_text (buffer_ptr max_characters : u64) (text : list char) : UH u64 :=
  n ← on_guest (context "failed to write wide window text" (write_utf16_c_string buffer_ptr (Z.to_nat max_characters) text));
  mret (Z.of_nat n).
Definition get_window_text (write : u64 → u64 → list char → UH u64) (api : string) : UH HandlerOutcome :=
  window_handle ← reg_for Rcx api; buffer_ptr ← reg_for Rdx api; max_characters ← reg_for R8 api;
  v ← (if decide (window_handle = FAKE_WINDOW_HANDLE) then
         title ← user (window_title ∘ main_window); write buffer_ptr max_characters title
       else mret 0);
  return_of v api.
Definition handle_get_window_text_a : UH HandlerOutcome := get_window_text write_ansi_window_text "GetWindowTextA".
Definition handle_get_window_text_w : UH HandlerOutcome := get_window_text write_wide_window_text "GetWindowTextW".

(** An argument on the stack. *)
Definition stack_u64 (offset : u64) (api text : string) : UH u64 :=
  rsp ← reg_for Rsp api; a ← checked_for (checked_add rsp offset) text; on_guest (read_u64 a).
Definition handle_move_window : UH HandlerOutcome :=
  window_handle ← reg_for Rcx "MoveWindow"; x_raw ← reg_for Rdx "MoveWindow"; y_raw ← reg_for R8 "MoveWindow";
  width_raw ← reg_for R9 "MoveWindow"; rsp ← reg_for Rsp "MoveWindow";
  height_at ← checked_for (checked_add rsp 0x28) "MoveWindow height argument address overflow";
  repaint_at ← checked_for (checked_add rsp 0x30) "MoveWindow repaint argument address overflow";
  height_raw ← on_guest (read_u64 height_at); repaint_raw ← on_guest (read_u64 repaint_at);
  let success := bool_decide (window_handle = FAKE_WINDOW_HANDLE) in
  _ ← (if success then
         _ ← on_main (set_place (low_i32 x_raw) (low_i32 y_raw) (low_i32 width_raw) (low_i32 height_raw));
         if decide (repaint_raw ≠ 0) then on_main (set_invalidated false) else mret tt
       else mret tt);
  truth success "MoveWindow".
(** ScreenToClient and ClientToScreen. *)
Definition map_point (api : string) (shift : Z → Z → Z) : UH HandlerOutcome :=
  window_handle ← reg_for Rcx api; point_ptr ← reg_for Rdx api;
  let success := bool_decide (window_handle = FAKE_WINDOW_HANDLE) && bool_decide (point_ptr ≠ 0) in
  _ ← (if success then
         x ← on_guest (read_i32 point_ptr);
         y_address ← field point_ptr 4 "POINT.y";
         y ← on_guest (read_i32 y_address);
         main ← user main_window;
         x ← checked_for (checked_i32 (shift x (window_x main))) (api +:+ " x coordinate overflow");
         y ← checked_for (checked_i32 (shift y (window_y main))) (api +:+ " y coordinate overflow");
         _ ← on_guest (write_i32 point_ptr x); on_guest (write_i32 y_address y)
       else mret tt);
  truth success api.
Definition handle_screen_to_client : UH HandlerOutcome := map_point "ScreenToClient" Z.sub.
Definition handle_client_to_screen : UH HandlerOutcome := map_point "ClientToScreen" Z.add.

(** *** Rectangles *)

Definition handle_set_rect : UH HandlerOutcome :=
  rect_ptr ← reg_for Rcx "SetRect"; left_raw ← reg_for Rdx "SetRect"; top_raw ← reg_for R8 "SetRect"; right_raw ← reg_for R9 "SetRect";
  bottom_raw ← stack_u64 0x28 "SetRect" "SetRect bottom argument address overflow";
  _ ← (if decide (rect_ptr ≠ 0) then
         write_window_rect rect_ptr (low_i32 left_raw) (low_i32 top_raw) (low_i32 right_raw) (low_i32 bottom_raw)
       else mret tt);
  truth (bool_decide (rect_ptr ≠ 0)) "SetRect".
Definition handle_adjust_window_rect_ex : UH HandlerOutcome :=
  rect_ptr ← reg_for Rcx "AdjustWindowRectEx"; _ ← ignored [Rdx] "AdjustWindowRectEx";
  has_menu ← reg_for R8 "AdjustWindowRectEx"; _ ← ignored [R9] "AdjustWindowRectEx";
  _ ← (if decide (rect_ptr ≠ 0) then
         left ← on_guest (read_i32 rect_ptr);
         top_address ← field rect_ptr 4 "RECT.top"; right_address ← field rect_ptr 8 "RECT.right";
         bottom_address ← field rect_ptr 12 "RECT.bottom";
         top ← on_guest (read_i32 top_address); right ← on_guest (read_i32 right_address); bottom ← on_guest (read_i32 bottom_address);
         let menu_height := if decide (has_menu ≠ 0) then 20 else 0 in
         left ← checked_for (checked_i32 (left - 8)) "AdjustWindowRectEx left overflow";
         top ← checked_for (top ← checked_i32 (top - 31); checked_i32 (top - menu_height)) "AdjustWindowRectEx top overflow";
         right ← checked_for (checked_i32 (right + 8)) "AdjustWindowRectEx right overflow";
         bottom ← checked_for (checked_i32 (bottom + 8)) "AdjustWindowRectEx bottom overflow";
         write_window_rect rect_ptr left top right bottom
       else mret tt);
  truth (bool_decide (rect_ptr ≠ 0)) "AdjustWindowRectEx".
Definition handle_get_clip_cursor : UH HandlerOutcome :=
  rect_ptr ← reg_for Rcx "GetClipCursor";
  _ ← (if decide (rect_ptr ≠ 0) then write_window_rect rect_ptr 0 0 1920 1080 else mret tt);
  truth (bool_decide (rect_ptr ≠ 0)) "GetClipCursor".
Definition handle_get_cursor_pos : UH HandlerOutcome :=
  point_ptr ← reg_for Rcx "GetCursorPos";
  _ ← (if decide (point_ptr ≠ 0) then put_fields point_ptr [int_field 0 "POINT.x" 0; int_field 4 "POINT.y" 0] else mret tt);
  return_of 1 "GetCursorPos".

(** *** Window words, timers, hooks, menus *)

Definition window_long_ptr_index (index_raw : u64) (api : string) : UH Z :=
  low ← checked_for (if decide (index_raw < u32_lim) then Some index_raw else None) (api +:+ " index does not fit in u32");
  mret (as_i32 low).
Definition get_window_long_ptr (api : string) : UH HandlerOutcome :=
  window_handle ← reg_for Rcx api; index_raw ← reg_for Rdx api;
  index ← window_long_ptr_index index_raw api;
  v ← user (λ s, long_ptr_value window_handle index (window_long_ptr_values s));
  return_of v api.
Definition handle_get_window_long_ptr_a : UH HandlerOutcome := get_window_long_ptr "GetWindowLongPtrA".
Definition handle_get_window_long_ptr_w : UH HandlerOutcome := get_window_long_ptr "GetWindowLongPtrW".
Definition set_window_long_ptr (api : string) : UH HandlerOutcome :=
  window_handle ← reg_for Rcx api; index_raw ← reg_for Rdx api; new_value ← reg_for R8 api;
  index ← window_long_ptr_index index_raw api;
  previous ← user (λ s, long_ptr_value window_handle index (window_long_ptr_values s));
  _ ← on_user (λ s, set_long_ptrs (put_long_ptr window_handle index new_value (window_long_ptr_values s)) s);
  return_of previous api.
Definition handle_set_window_long_ptr_a : UH HandlerOutcome := set_window_long_ptr "SetWindowLongPtrA".
Definition handle_set_window_long_ptr_w : UH HandlerOutcome := set_window_long_ptr "SetWindowLongPtrW".

Definition handle_set_timer : UH HandlerOutcome :=
  window_handle ← reg_for Rcx "SetTimer"; requested_timer_id ← reg_for Rdx "SetTimer";
  interval_raw ← reg_for R8 "SetTimer"; callback_address ← reg_for R9 "SetTimer";
  if null_or_main window_handle then
    next ← user next_timer_id;
    timer_id ← (if decide (requested_timer_id = 0) then
                  succ ← checked_for (checked_succ u64_lim next) "SetTimer identifier overflow";
                  _ ← on_user (λ s, set_timers succ (timers s) s); mret next
                else mret requested_timer_id);
    let timer := mkTimer window_handle timer_id (mask32 interval_raw) callback_address in
    _ ← on_user (λ s, set_timers (next_timer_id s) (upsert (timer_at window_handle timer_id) (λ _, timer) timer (timers s)) s);
    return_of timer_id "SetTimer"
  else return_of 0 "SetTimer".
Definition handle_kill_timer : UH HandlerOutcome :=
  window_handle ← reg_for Rcx "KillTimer"; timer_id ← reg_for Rdx "KillTimer";
  existed ← user (λ s, existsb (timer_at window_handle timer_id) (timers s));
  _ ← (if (existed : bool) then
         on_user (λ s, set_timers (next_timer_id s) (List.filter (λ t, negb (timer_at window_handle timer_id t)) (timers s)) s)
       else mret tt);
  truth existed "KillTimer".

Definition handle_set_windows_hook_ex_w : UH HandlerOutcome :=
  hook_type_raw ← reg_for Rcx "SetWindowsHookExW"; callback_address ← reg_for Rdx "SetWindowsHookExW";
  module_handle ← reg_for R8 "SetWindowsHookExW"; thread_id_raw ← reg_for R9 "SetWindowsHookExW";
  if decide (callback_address = 0) then return_of 0 "SetWindowsHookExW"
  else
    handle ← user next_windows_hook_handle;
    next ← checked_for (checked_succ u64_lim handle) "SetWindowsHookExW handle overflow";
    _ ← on_user (λ s, set_hooks next
          (windows_hooks s ++ [mkHook handle (low_i32 hook_type_raw) callback_address module_handle (mask32 thread_id_raw)]) s);
    return_of handle "SetWindowsHookExW".
Definition handle_unhook_windows_hook_ex : UH HandlerOutcome :=
  hook_handle ← reg_for Rcx "UnhookWindowsHookEx";
  let is_it h := bool_decide (hk_handle h = hook_handle) in
  existed ← user (λ s, existsb is_it (windows_hooks s));
  _ ← (if (existed : bool) then on_user (λ s, set_hooks (next_windows_hook_handle s) (List.filter (negb ∘ is_it) (windows_hooks s)) s)
       else mret tt);
  truth existed "UnhookWindowsHookEx".

(** EnableMenuItem and CheckMenuItem: the flags before, all ones if there were none. *)
Definition menu_item_flags (api : string) (get : UserState → list (u64 * u32 * u32))
    (set : list (u64 * u32 * u32) → UserState → UserState) : UH HandlerOutcome :=
  menu_handle ← reg_for Rcx api; item_raw ← reg_for Rdx api; flags_raw ← reg_for R8 api;
  previous ← user (λ s, menu_flags menu_handle (mask32 item_raw) (get s));
  _ ← on_user (λ s, set (put_menu_flags menu_handle (mask32 item_raw) (mask32 flags_raw) (get s)) s);
  return_of previous api.
Definition handle_enable_menu_item : UH HandlerOutcome := menu_item_flags "EnableMenuItem" menu_item_states set_menu_items.
Definition handle_check_menu_item : UH HandlerOutcome := menu_item_flags "CheckMenuItem" menu_item_check_states set_menu_checks.

Definition allocate_menu_handle : UH u64 :=
  handle ← user next_menu_handle;
  next ← checked_for (checked_succ u64_lim handle) "menu handle allocator overflow";
  _ ← on_user (set_next_menu next);
  mret handle.
Definition new_menu (api : string) : UH HandlerOutcome := handle ← allocate_menu_handle; return_of handle api.
Definition handle_create_menu : UH HandlerOutcome := new_menu "CreateMenu".
Definition handle_create_popup_menu : UH HandlerOutcome := new_menu "CreatePopupMenu".
Definition handle_get_system_menu : UH HandlerOutcome := new_menu "GetSystemMenu".
Definition handle_menu_success (api : string) : UH HandlerOutcome := return_of 1 api.
Definition handle_append_menu_a : UH HandlerOutcome := handle_menu_success "AppendMenuA".
Definition handle_append_menu_w : UH HandlerOutcome := handle_menu_success "AppendMenuW".
Definition handle_set_menu : UH HandlerOutcome := handle_menu_success "SetMenu".
Definition handle_destroy_menu : UH HandlerOutcome := handle_menu_success "DestroyMenu".
Definition handle_remove_menu : UH HandlerOutcome := handle_menu_success "RemoveMenu".
Definition handle_delete_menu : UH HandlerOutcome := handle_menu_success "DeleteMenu".
Definition handle_modify_menu_a : UH HandlerOutcome := handle_menu_success "ModifyMenuA".
Definition handle_modify_menu_w : UH HandlerOutcome := handle_menu_success "ModifyMenuW".
Definition handle_get_menu_item_info_a : UH HandlerOutcome := handle_menu_success "GetMenuItemInfoA".
Definition handle_get_menu_item_info_w : UH HandlerOutcome := handle_menu_success "GetMenuItemInfoW".
Definition handle_set_menu_item_info_a : UH HandlerOutcome := handle_menu_success "SetMenuItemInfoA".
Definition handle_set_menu_item_info_w : UH HandlerOutcome := handle_menu_success "SetMenuItemInfoW".
Definition handle_check_menu_radio_item : UH HandlerOutcome := handle_menu_success "CheckMenuRadioItem".
Definition handle_track_popup_menu : UH HandlerOutcome := return_of 0 "TrackPopupMenu".

(** *** Metrics and displays *)

Definition handle_get_system_metrics : UH HandlerOutcome :=
  metric_index ← reg_for Rcx "GetSystemMetrics"; return_of (fake_system_metric metric_index) "GetSystemMetrics".
Definition handle_get_system_metrics_for_dpi : UH HandlerOutcome :=
  metric_index ← reg_for Rcx "GetSystemMetricsForDpi"; dpi ← reg_for Rdx "GetSystemMetricsForDpi";
  v ← checked_for (scale_system_metric_for_dpi (fake_system_metric metric_index) dpi) "GetSystemMetricsForDpi multiplication overflow";
  return_of v "GetSystemMetricsForDpi".
Definition handle_adjust_window_rect_ex_for_dpi : UH HandlerOutcome :=
  rect_ptr ← reg_for Rcx "AdjustWindowRectExForDpi"; _ ← ignored [Rdx; R8; R9] "AdjustWindowRectExForDpi";
  truth (bool_decide (rect_ptr ≠ 0)) "AdjustWindowRectExForDpi".
Definition handle_get_sys_color : UH HandlerOutcome := i ← reg_for Rcx "GetSysColor"; return_of (sys_color i) "GetSysColor".
Definition handle_get_sys_color_brush : UH HandlerOutcome :=
  i ← reg_for Rcx "GetSysColorBrush";
  v ← checked_for (checked_add FAKE_SYSTEM_COLOR_BRUSH_BASE i) "GetSysColorBrush handle overflow";
  return_of v "GetSysColorBrush".
Definition handle_get_dialog_base_units : UH HandlerOutcome :=
  return_of (Z.lor DIALOG_BASE_UNIT_X (Z.shiftl DIALOG_BASE_UNIT_Y 16)) "GetDialogBaseUnits".
Definition handle_get_window_thread_process_id : UH HandlerOutcome :=
  window_handle ← reg_for Rcx "GetWindowThreadProcessId"; process_id_ptr ← reg_for Rdx "GetWindowThreadProcessId";
  let valid_window := bool_decide (window_handle = FAKE_WINDOW_HANDLE ∨ window_handle = FAKE_DESKTOP_WINDOW_HANDLE) in
  _ ← (if valid_window && bool_decide (process_id_ptr ≠ 0) then on_guest (write_u32 process_id_ptr FAKE_PROCESS_ID) else mret tt);
  return_of (if valid_window then FAKE_THREAD_ID else 0) "GetWindowThreadProcessId".
Definition handle_get_dlg_ctrl_id : UH HandlerOutcome :=
  window_handle ← reg_for Rcx "GetDlgCtrlID";
  return_of (if decide (window_handle = FAKE_WINDOW_HANDLE) then 0 else u32_lim - 1) "GetDlgCtrlID".

Definition monitor_fields : list Field :=
  [word 0 "cbSize" 4 40] ++ rect_fields 4 "rcMonitor" 0 0 1024 768 ++ rect_fields 20 "rcWork" 0 0 1024 728
  ++ [word 36 "dwFlags" 4 1].
Definition write_fake_monitor_info (p : u64) : UH unit := if decide (p = 0) then mret tt else put_fields p monitor_fields.
Definition get_monitor_info (api : string) : UH HandlerOutcome :=
  monitor_handle ← reg_for Rcx api; p ← reg_for Rdx api;
  let success := bool_decide (monitor_handle = FAKE_MONITOR_HANDLE) && bool_decide (p ≠ 0) in
  _ ← (if success then write_fake_monitor_info p else mret tt);
  truth success api.
Definition handle_get_monitor_info_a : UH HandlerOutcome := get_monitor_info "GetMonitorInfoA".
Definition handle_get_monitor_info_w : UH HandlerOutcome := get_monitor_info "GetMonitorInfoW".

Definition ascii_text (s : string) : list char := (λ c, Z.of_N (Ascii.N_of_ascii c)) <$> String.list_ascii_of_string s.
Definition DISPLAY_NAME : string := "\\.\DISPLAY1".
Definition DISPLAY_STRING : string := "Generic Display".
Definition DISPLAY_ID : string := "MONITOR\WIE\DISPLAY1".
Definition DISPLAY_KEY : string := "\Registry\Machine\System\CurrentControlSet\Enum\DISPLAY\WIE".
(** DISPLAY_DEVICE: the size, four strings in fixed fields and the flags before the last two. *)
Definition enum_display_devices (api : string) (size : u32) (put : u64 → nat → string → M E unit)
    (name_at string_at flags_at id_at key_at : u64) : UH HandlerOutcome :=
  _ ← ignored [Rcx] api; device_index ← reg_for Rdx api; p ← reg_for R8 api; _ ← ignored [R9] api;
  let success := bool_decide (device_index = 0) && bool_decide (p ≠ 0) in
  _ ← (if success then
         _ ← on_guest (write_u32 p size);
         a ← field p name_at "DeviceName"; _ ← on_guest (put a 32%nat DISPLAY_NAME);
         a ← field p string_at "DeviceString"; _ ← on_guest (put a 128%nat DISPLAY_STRING);
         a ← field p flags_at "StateFlags";
         _ ← on_guest (write_u32 a (Z.lor DISPLAY_DEVICE_ATTACHED_TO_DESKTOP DISPLAY_DEVICE_PRIMARY_DEVICE));
         a ← field p id_at "DeviceID"; _ ← on_guest (put a 128%nat DISPLAY_ID);
         a ← field p key_at "DeviceKey"; on_guest (put a 128%nat DISPLAY_KEY)
       else mret tt);
  truth success api.
Definition handle_enum_display_devices_a : UH HandlerOutcome :=
  enum_display_devices "EnumDisplayDevicesA" 424 (λ a n s, write_fixed_ansi a n (ascii_text s)) 4 36 164 168 296.
Definition handle_enum_display_devices_w : UH HandlerOutcome :=
  enum_display_devices "EnumDisplayDevicesW" 840 (λ a n s, write_fixed_utf16 a n (ascii_text s)) 4 68 324 328 584.

(** *** Fixed answers *)

Definition message_box (wide : bool) (api : string) : UH HandlerOutcome :=
  _ ← ignored [Rcx] api; text_ptr ← reg_for Rdx api; caption_ptr ← reg_for R8 api; _ ← ignored [R9] api;
  let read p n what := on_guest (context ("failed to read " +:+ api +:+ " " +:+ what)
                                   (if wide then read_utf16_lossy p n else read_ansi_lossy p n)) in
  _ ← read text_ptr (Z.to_nat 1024) "text"; _ ← read caption_ptr (Z.to_nat 256) "caption";
  return_of IDOK api.
(** The text goes to the host's error output, which is not modelled. *)
Definition handle_message_box_w : UH HandlerOutcome := message_box true "MessageBoxW".
Definition handle_message_box_a : UH HandlerOutcome := message_box false "MessageBoxA".
Definition handle_load_icon_a : UH HandlerOutcome := answer [Rcx; Rdx] FAKE_ICON_HANDLE "LoadIconA".
Definition handle_load_cursor_a : UH HandlerOutcome := answer [Rcx; Rdx] FAKE_CURSOR_HANDLE "LoadCursorA".
Definition handle_set_process_dpi_aware : UH HandlerOutcome := answer [] 1 "SetProcessDPIAware".
Definition handle_track_mouse_event : UH HandlerOutcome := answer [Rcx] 1 "TrackMouseEvent".
Definition handle_clip_cursor : UH HandlerOutcome := answer [Rcx] 1 "ClipCursor".
Definition handle_call_msg_filter (api : string) : UH HandlerOutcome := answer [Rcx; Rdx] 0 api.
Definition handle_monitor_from_window : UH HandlerOutcome := answer [Rcx; Rdx] FAKE_MONITOR_HANDLE "MonitorFromWindow".
Definition handle_monitor_from_rect : UH HandlerOutcome := answer [Rcx; Rdx] FAKE_MONITOR_HANDLE "MonitorFromRect".
Definition handle_monitor_from_point : UH HandlerOutcome := answer [Rcx; Rdx] FAKE_MONITOR_HANDLE "MonitorFromPoint".
Definition handle_enum_display_monitors : UH HandlerOutcome := answer [Rcx; Rdx; R8; R9] 1 "EnumDisplayMonitors".
Definition handle_get_dpi_for_window : UH HandlerOutcome := answer [Rcx] 96 "GetDpiForWindow".
Definition handle_set_window_pos : UH HandlerOutcome := answer [Rcx; Rdx; R8; R9] 1 "SetWindowPos".
Definition handle_get_dc : UH HandlerOutcome := answer [Rcx] FAKE_DEVICE_CONTEXT_HANDLE "GetDC".
Definition handle_release_dc : UH HandlerOutcome := answer [Rcx; Rdx] 1 "ReleaseDC".
Definition handle_load_image (api : string) : UH HandlerOutcome := answer [Rcx; Rdx; R8; R9] FAKE_IMAGE_HANDLE api.
Definition handle_load_image_a : UH HandlerOutcome := handle_load_image "LoadImageA".
Definition handle_load_image_w : UH HandlerOutcome := handle_load_image "LoadImageW".
Definition handle_destroy_icon : UH HandlerOutcome := h ← reg_for Rcx "DestroyIcon"; truth (bool_decide (h ≠ 0)) "DestroyIcon".
Definition is_main_window (api : string) : UH HandlerOutcome := h ← reg_for Rcx api; truth (bool_decide (h = FAKE_WINDOW_HANDLE)) api.
Definition handle_is_window : UH HandlerOutcome := is_main_window "IsWindow".
Definition handle_is_window_visible : UH HandlerOutcome := is_main_window "IsWindowVisible".
Definition handle_is_window_enabled : UH HandlerOutcome := is_main_window "IsWindowEnabled".
Definition handle_get_parent : UH HandlerOutcome := answer [Rcx] 0 "GetParent".
Definition handle_get_desktop_window : UH HandlerOutcome := answer [] FAKE_DESKTOP_WINDOW_HANDLE "GetDesktopWindow".
Definition handle_is_iconic : UH HandlerOutcome := answer [Rcx] 0 "IsIconic".
Definition handle_is_zoomed : UH HandlerOutcome := answer [Rcx] 0 "IsZoomed".
Definition handle_is_child : UH HandlerOutcome := answer [Rcx; Rdx] 0 "IsChild".
Definition handle_get_window : UH HandlerOutcome := answer [Rcx; Rdx] 0 "GetWindow".
Definition handle_call_next_hook_ex : UH HandlerOutcome := answer [Rcx; Rdx; R8; R9] 0 "CallNextHookEx".
Definition handle_default_window_procedure (api : string) : UH HandlerOutcome := answer [] 0 api.
Definition handle_def_window_proc_a : UH HandlerOutcome := handle_default_window_procedure "DefWindowProcA".
Definition handle_def_window_proc_w : UH HandlerOutcome := handle_default_window_procedure "DefWindowProcW".
Definition handle_def_frame_proc_a : UH HandlerOutcome := handle_default_window_procedure "DefFrameProcA".
Definition handle_def_frame_proc_w : UH HandlerOutcome := handle_default_window_procedure "DefFrameProcW".
Definition handle_def_mdi_child_proc_a : UH HandlerOutcome := handle_default_window_procedure "DefMDIChildProcA".
Definition handle_def_mdi_child_proc_w : UH HandlerOutcome := handle_default_window_procedure "DefMDIChildProcW".
Definition handle_set_scroll_info : UH HandlerOutcome :=
  _ ← ignored [Rcx; Rdx] "SetScrollInfo"; p ← reg_for R8 "SetScrollInfo"; _ ← ignored [R9] "SetScrollInfo";
  v ← (if decide (p ≠ 0) then
         a ← field p 20 "SCROLLINFO.nPos";
         pos ← process (unwrap_or 0 (cpu (read_i32 a)));
         mret (pos mod u32_lim)
       else mret 0);
  return_of v "SetScrollInfo".
Definition handle_scroll_window_ex : UH HandlerOutcome := answer [Rcx] 1 "ScrollWindowEx".
Definition handle_scroll_dc : UH HandlerOutcome := answer [Rcx] 1 "ScrollDC".

(** The rows of [dispatch_winapi_id] for USER32. *)
Definition user32_rows : list (WinApiId * UH HandlerOutcome) :=
  [(User32Getasynckeystate, handle_get_async_key_state); (User32Peekmessagea, handle_peek_message_a);
   (User32Loadicona, handle_load_icon_a); (User32Loadcursora, handle_load_cursor_a);
   (User32Registerclassexw, handle_register_class_ex_w); (User32Registerclassexa, handle_register_class_ex_a);
   (User32Messageboxw, handle_message_box_w); (User32Messageboxa, handle_message_box_a);
   (User32Setprocessdpiaware, handle_set_process_dpi_aware); (User32Trackmouseevent, handle_track_mouse_event);
   (User32Getcursorpos, handle_get_cursor_pos); (User32Getsystemmetrics, handle_get_system_metrics);
   (User32Monitorfromwindow, handle_monitor_from_window); (User32Getmonitorinfoa, handle_get_monitor_info_a);
   (User32Getmonitorinfow, handle_get_monitor_info_w); (User32Enumdisplaymonitors, handle_enum_display_monitors);
   (User32Enumdisplaydevicesa, handle_enum_display_devices_a);
   (User32Enumdisplaydevicesw, handle_enum_display_devices_w); (User32Monitorfrompoint, handle_monitor_from_point);
   (User32Getwindowrect, handle_get_window_rect); (User32Getdpiforwindow, handle_get_dpi_for_window);
   (User32Postmessagea, handle_post_message_a); (User32Getsystemmetricsfordpi, handle_get_system_metrics_for_dpi);
   (User32Adjustwindowrectexfordpi, handle_adjust_window_rect_ex_for_dpi);
   (User32Setwindowpos, handle_set_window_pos); (User32Setscrollinfo, handle_set_scroll_info);
   (User32Scrollwindowex, handle_scroll_window_ex); (User32Scrolldc, handle_scroll_dc);
   (User32Beginpaint, handle_begin_paint); (User32Endpaint, handle_end_paint); (User32Clipcursor, handle_clip_cursor);
   (User32Getclipcursor, handle_get_clip_cursor); (User32Callmsgfiltera, handle_call_msg_filter "CallMsgFilterA");
   (User32Callmsgfilterw, handle_call_msg_filter "CallMsgFilterW"); (User32Getdc, handle_get_dc);
   (User32Sendmessagea, handle_send_message_a); (User32Sendmessagew, handle_send_message_w);
   (User32Releasedc, handle_release_dc); (User32Loadimagea, handle_load_image_a);
   (User32Loadimagew, handle_load_image_w); (User32Setwindowlongptrw, handle_set_window_long_ptr_w);
   (User32Getwindowlongptra, handle_get_window_long_ptr_a); (User32Getwindowlongptrw, handle_get_window_long_ptr_w);
   (User32Destroyicon, handle_destroy_icon); (User32Iswindow, handle_is_window);
   (User32Iswindowvisible, handle_is_window_visible); (User32Iswindowenabled, handle_is_window_enabled);
   (User32Getparent, handle_get_parent); (User32Getactivewindow, handle_get_active_window);
   (User32Getforegroundwindow, handle_get_foreground_window); (User32Showwindow, handle_show_window);
   (User32Enablewindow, handle_enable_window); (User32Setforegroundwindow, handle_set_foreground_window);
   (User32Setactivewindow, handle_set_active_window); (User32Setfocus, handle_set_focus);
   (User32Getfocus, handle_get_focus); (User32Setcapture, handle_set_capture); (User32Getcapture, handle_get_capture);
   (User32Releasecapture, handle_release_capture); (User32Setcursor, handle_set_cursor);
   (User32Updatewindow, handle_update_window); (User32Invalidaterect, handle_invalidate_rect);
   (User32Redrawwindow, handle_redraw_window); (User32Setwindowtexta, handle_set_window_text_a);
   (User32Setwindowtextw, handle_set_window_text_w); (User32Getwindowtexta, handle_get_window_text_a);
   (User32Getwindowtextw, handle_get_window_text_w); (User32Getclientrect, handle_get_client_rect);
   (User32Movewindow, handle_move_window); (User32Screentoclient, handle_screen_to_client);
   (User32Clienttoscreen, handle_client_to_screen); (User32Getdesktopwindow, handle_get_desktop_window);
   (User32Getsyscolor, handle_get_sys_color); (User32Getsyscolorbrush, handle_get_sys_color_brush);
   (User32Getdialogbaseunits, handle_get_dialog_base_units); (User32Setrect, handle_set_rect);
   (User32Isiconic, handle_is_iconic); (User32Iszoomed, handle_is_zoomed);
   (User32Getwindowthreadprocessid, handle_get_window_thread_process_id);
   (User32Getdlgctrlid, handle_get_dlg_ctrl_id); (User32Getcursor, handle_get_cursor);
   (User32Ischild, handle_is_child); (User32Getwindow, handle_get_window);
   (User32Setkeyboardstate, handle_set_keyboard_state); (User32Getkeyboardstate, handle_get_keyboard_state);
   (User32Getkeystate, handle_get_key_state); (User32Mapvirtualkeya, handle_map_virtual_key_a);
   (User32Setwindowlongptra, handle_set_window_long_ptr_a); (User32Settimer, handle_set_timer);
   (User32Killtimer, handle_kill_timer); (User32Adjustwindowrectex, handle_adjust_window_rect_ex);
   (User32Setwindowshookexw, handle_set_windows_hook_ex_w);
   (User32Unhookwindowshookex, handle_unhook_windows_hook_ex); (User32Callnexthookex, handle_call_next_hook_ex);
   (User32Enablemenuitem, handle_enable_menu_item); (User32Checkmenuitem, handle_check_menu_item);
   (User32Getmessagea, handle_get_message_a); (User32Translatemessage, handle_translate_message);
   (User32Defwindowproca, handle_def_window_proc_a); (User32Defwindowprocw, handle_def_window_proc_w);
   (User32Defframeproca, handle_def_frame_proc_a); (User32Defframeprocw, handle_def_frame_proc_w);
   (User32Defmdichildproca, handle_def_mdi_child_proc_a); (User32Defmdichildprocw, handle_def_mdi_child_proc_w);
   (User32Createmenu, handle_create_menu); (User32Createpopupmenu, handle_create_popup_menu);
   (User32Appendmenua, handle_append_menu_a); (User32Appendmenuw, handle_append_menu_w);
   (User32Setmenu, handle_set_menu); (User32Destroymenu, handle_destroy_menu); (User32Removemenu, handle_remove_menu);
   (User32Deletemenu, handle_delete_menu); (User32Modifymenua, handle_modify_menu_a);
   (User32Modifymenuw, handle_modify_menu_w); (User32Getsystemmenu, handle_get_system_menu);
   (User32Trackpopupmenu, handle_track_popup_menu); (User32Getmenuiteminfoa, handle_get_menu_item_info_a);
   (User32Getmenuiteminfow, handle_get_menu_item_info_w); (User32Setmenuiteminfoa, handle_set_menu_item_info_a);
   (User32Setmenuiteminfow, handle_set_menu_item_info_w); (User32Checkmenuradioitem, handle_check_menu_radio_item);
   (User32Dispatchmessagea, handle_dispatch_message_a)].
End Handlers.
