(* ===== verification/user32_spec.v ===== *)
(** * The window calls against their specification

    The queue of messages is a first-in first-out queue for every set of messages
    the filters do not split; the tables of classes and windows stay consistent, so
    that a window procedure that is called is one a program registered; a message
    that is taken and dispatched reaches its window as it was queued. *)

From stdpp Require Import pretty.
From S2P Require Import Prelude utf regs insn engine cpu guest_heap guest_string dll_spec sync_obj thread win32 win32_spec dispatch_table.
From S2P Require Import k32_thread k32_misc k32_info k32_misc_spec user32.

(** ** Calls that leave the queue and the tables alone *)

Section Quiet.
Context {E : Type} `{CpuApiLaws E}.
Implicit Types (s : UserApi E).

Abbreviation ctx s := (snapshot_thread_context (a_cpu (u_api s))).
Definition same_tables (u u' : UserState) : Prop := messages u' = messages u ∧ window_tables u' = window_tables u.
Definition still {A} (m : M (UserApi E) A) : Prop := ∀ s, ctx (m s).1 = ctx s ∧ same_tables (u_state s) (u_state (m s).1).
(** What the calling convention says of a call's end. *)
Definition ends s s' (r : res HandlerOutcome) : Prop :=
  ctx s' = match r with Ok (Return ra v) => returned_context v ra (ctx s) | _ => ctx s end.
Definition quiet (m : M (UserApi E) HandlerOutcome) : Prop :=
  ∀ s, ends s (m s).1 (m s).2 ∧ same_tables (u_state s) (u_state (m s).1) ∧ ∀ x, (m s).2 ≠ Ok (Signal x).

Lemma same_tables_trans u1 u2 u3 : same_tables u1 u2 → same_tables u2 u3 → same_tables u1 u3.
Proof. intros [? ?] [? ?]. split; congruence. Qed.

Lemma still_ret {A} (a : A) : still (mret a).
Proof. done. Qed.
Lemma still_user {A} (f : UserState → A) : still (user f).
Proof. done. Qed.
Lemma still_process {A} (m : M (Api E) A) : same_context m → still (process m).
Proof. intros Hm s. specialize (Hm (u_api s)). unfold process, zoom. by destruct (m (u_api s)) as [a r]. Qed.
Lemma still_on_user f : (∀ u, same_tables u (f u)) → still (on_user f).
Proof. intros Hf s. split; [done|apply Hf]. Qed.
Lemma still_on_main f : still (on_main f).
Proof. done. Qed.
Lemma still_bind {A B} (m : M (UserApi E) A) (f : A → M (UserApi E) B) : still m → (∀ a, still (f a)) → still (m ≫= f).
Proof.
  intros Hm Hf s. specialize (Hm s). unfold mbind, M_bind. destruct (m s) as [s' [a|e|w]]; [|done..].
  destruct (Hf a s') as [Hc Ht], Hm as [Hc' Ht']. split; [by rewrite Hc|by eapply same_tables_trans].
Qed.
Lemma still_context {A} text (m : M (UserApi E) A) : still m → still (context text m).
Proof. intros Hm s. specialize (Hm s). unfold context. by destruct (m s) as [s' [a|e|w]]. Qed.

Lemma quiet_return v api : quiet (return_of v api).
Proof.
  intros s. assert (Hc : convention (ret_u64 (E := E) v api)) by (apply conv_ctx, conv_ret).
  specialize (Hc (u_api s)). unfold return_of, process, zoom.
  assert (Hr : ∀ x, (ret_u64 v api (u_api s)).2 ≠ Ok (Signal x)).
  { intros x. unfold ret_u64, context, returned, mbind, M_bind. destruct (cpu _ (u_api s)) as [a [b|e|w]]; done. }
  destruct (ret_u64 v api (u_api s)) as [a r]. done.
Qed.
Lemma quiet_bind {A} (m : M (UserApi E) A) f : still m → (∀ a, quiet (f a)) → quiet (m ≫= f).
Proof.
  intros Hm Hf s. specialize (Hm s). unfold mbind, M_bind.
  destruct (m s) as [s' [a|e|w]]; [|destruct Hm; by split_and!..].
  destruct (Hf a s') as (Hc & Ht & Hx), Hm as [Hc' Ht']. cbn [fst] in *.
  split; [unfold ends in *; by rewrite <- Hc'|split; [by eapply same_tables_trans|done]].
Qed.

(** *** The loops of the handlers *)

Lemma same_utf16_loop a n : ∀ i us, keeps_regs (utf16_loop (E := E) a n i us).
Proof. induction n as [|n IH]; intros i us; cbn [utf16_loop]; keeps. apply IH. Qed.
Lemma still_ignored rs api : still (ignored (E := E) rs api).
Proof.
  induction rs as [|r rs IH]; cbn [ignored foldr]; [apply still_ret|].
  apply still_bind; [apply still_process; same|intros _; exact IH].
Qed.
Lemma still_put_fields base fs : still (put_fields (E := E) base fs).
Proof.
  induction fs as [|f fs IH]; cbn [put_fields]; [apply still_ret|].
  apply still_bind; [apply still_process; same|]. intros a.
  apply still_bind; [apply still_process; same|]. intros _. exact IH.
Qed.
End Quiet.

Create HintDb user_calls.
#[export] Hint Unfold truth answer repaint exchange_window set_window_text get_window_text stack_u64 map_point window_long_ptr_index
  get_window_long_ptr set_window_long_ptr menu_item_flags allocate_menu_handle new_menu handle_menu_success
  write_fake_monitor_info get_monitor_info enum_display_devices message_box handle_call_msg_filter handle_load_image
  is_main_window handle_default_window_procedure user_ctx on_guest reg_for checked_for field write_window_rect
  write_ansi_window_text write_wide_window_text write_message_structure read_window_class_identifier
  read_window_class_identifier_a read_window_class_identifier_w : user_calls.
#[export] Hint Unfold read_utf16_lossy read_bytes write_bytes read_i32 write_i32 write_fixed_ansi write_fixed_utf16
  write_ansi_c_string write_utf16_c_string write_utf16_units : engine_calls.

Ltac quiet_step :=
  lazymatch goal with
  | |- keeps_regs (utf16_loop _ _ _ _) => apply same_utf16_loop
  | |- still (context _ _) => apply still_context
  | |- still (mret _) => apply still_ret
  | |- still (user _) => apply still_user
  | |- still (on_main _) => apply still_on_main
  | |- still (on_user _) => apply still_on_user; intros ?; done
  | |- still (ignored _ _) => apply still_ignored
  | |- still (put_fields _ _) => apply still_put_fields
  | |- still (process _) => apply still_process
  | |- still (mbind _ _) => apply still_bind; [|intros ?]
  | |- still (if ?d then _ else _) => destruct d
  | |- still (match ?d with _ => _ end) => destruct d
  | |- quiet (return_of _ _) => apply quiet_return
  | |- quiet (mbind _ _) => apply quiet_bind; [|intros ?]
  | |- quiet (if ?d then _ else _) => destruct d
  | |- quiet (match ?d with _ => _ end) => destruct d
  end.
Ltac hush :=
  repeat first [quiet_step | same_step | keeps_step | call_step | progress autounfold with user_calls
               | progress autounfold with handler_calls | progress autounfold with engine_calls].

(** ** The queue of messages *)

(** What a filter lets through, as GetMessage and PeekMessage are given it. *)
Record message_filter := mkFilter { fl_window : u64; fl_minimum : u32; fl_maximum : u32 }.
Definition admits (f : message_filter) : QueuedWindowMessage → bool := matches_filter (fl_window f) (fl_minimum f) (fl_maximum f).
(** What happens to the queue; an idle queue spends a time stamp on the WM_QUIT it makes up. *)
Inductive queue_event := Posted (x : QueuedWindowMessage) | Taken (f : message_filter) (x : QueuedWindowMessage) | Idled.
(** A message is put behind the others with the next stamp; the one taken is the first that
    the filter admits. *)
Inductive queue_run : Messages → list queue_event → Messages → Prop :=
| run_none m : queue_run m [] m
| run_idle m es m' : next_message_time m + 1 < u32_lim →
    queue_run (mkMessages (message_queue m) (next_message_time m + 1) (idle_policy m)) es m' → queue_run m (Idled :: es) m'
| run_post x m es m' : qm_time x = next_message_time m → next_message_time m + 1 < u32_lim →
    queue_run (mkMessages (message_queue m ++ [x]) (next_message_time m + 1) (idle_policy m)) es m' → queue_run m (Posted x :: es) m'
| run_take f x l l' m es m' : message_queue m = l ++ x :: l' → Forall (λ y, admits f y = false) l → admits f x = true →
    queue_run (mkMessages (l ++ l') (next_message_time m) (idle_policy m)) es m' → queue_run m (Taken f x :: es) m'.

Fixpoint posted (es : list queue_event) : list QueuedWindowMessage :=
  match es with [] => [] | Posted x :: es => x :: posted es | _ :: es => posted es end.
Fixpoint taken (es : list queue_event) : list QueuedWindowMessage :=
  match es with [] => [] | Taken _ x :: es => x :: taken es | _ :: es => taken es end.
Fixpoint filters (es : list queue_event) : list message_filter :=
  match es with [] => [] | Taken f _ :: es => f :: filters es | _ :: es => filters es end.

Lemma queue_run_app m1 es m2 es' m3 : queue_run m1 es m2 → queue_run m2 es' m3 → queue_run m1 (es ++ es') m3.
Proof.
  induction 1 as [m|m es m' Ht Hr IH|x m es m' Hx Ht Hr IH|f x l l' m es m' Hm Hl Hx Hr IH]; intros Hrest; cbn [app]; [done|..].
  - apply run_idle; auto.
  - apply run_post; auto.
  - eapply run_take; eauto.
Qed.

(** Messages of a kind no filter splits leave in the order they came. *)
Definition whole (P : QueuedWindowMessage → Prop) (f : message_filter) : Prop :=
  ∀ x y, P x → P y → admits f x = admits f y.
Lemma take_in_order P `{∀ x, Decision (P x)} (f : message_filter) l x l' :
  whole P f → Forall (λ y, admits f y = false) l → admits f x = true → filter P (l ++ x :: l') = filter P [x] ++ filter P (l ++ l').
Proof.
  intros Hw Hl Hx. rewrite !filter_app. destruct (decide (P x)) as [Px|Px].
  - assert (filter P l = []) as ->; [|rewrite !filter_cons_True by done; done].
    induction Hl as [|y l Hy Hl IH]; [done|]. rewrite filter_cons_False; [done|]. intros Py. rewrite (Hw y x Py Px) in Hy. congruence.
  - rewrite !filter_cons_False by done. done.
Qed.
Lemma queue_run_in_order P `{∀ x, Decision (P x)} m es m' : queue_run m es m' → Forall (whole P) (filters es) →
  filter P (taken es) ++ filter P (message_queue m') = filter P (message_queue m) ++ filter P (posted es).
Proof.
  induction 1 as [m|m es m' Ht Hr IH|x m es m' Hx Ht Hr IH|f x l l' m es m' Hm Hl Hx Hr IH]; cbn [taken posted filters]; intros Hw.
  - by rewrite app_nil_r.
  - by apply IH.
  - rewrite IH by done. cbn [message_queue]. rewrite filter_app, <- app_assoc. f_equal.
    rewrite (filter_cons P x []), (filter_cons P x (posted es)). by case_decide.
  - apply Forall_cons in Hw as [Hwf Hw]. specialize (IH Hw). cbn [message_queue] in IH.
    rewrite Hm, (take_in_order P f _ _ _ Hwf Hl Hx), <- app_assoc, <- IH.
    rewrite (filter_cons P x []), (filter_cons P x (taken es)). by case_decide.
Qed.
Lemma queue_run_conserves m es m' : queue_run m es m' → taken es ++ message_queue m' ≡ₚ message_queue m ++ posted es.
Proof.
  induction 1 as [m|m es m' Ht Hr IH|x m es m' Hx Ht Hr IH|f x l l' m es m' Hm Hl Hx Hr IH]; cbn [taken posted]; [by rewrite app_nil_r|exact IH|..].
  - etransitivity; [exact IH|]. cbn [message_queue]. by rewrite <- app_assoc.
  - etransitivity; [apply perm_skip, IH|]. cbn [message_queue]. rewrite Hm, app_comm_cons. apply Permutation_app; [|done].
    apply Permutation_middle.
Qed.

(** Time stamps grow along the queue. *)
Definition queue_ok (m : Messages) : Prop :=
  StronglySorted (λ x y, qm_time x < qm_time y) (message_queue m) ∧
  Forall (λ x, qm_time x < next_message_time m) (message_queue m) ∧ next_message_time m < u32_lim.
Lemma queue_run_ok m es m' : queue_run m es m' → queue_ok m → queue_ok m'.
Proof.
  induction 1 as [m|m es m' Ht Hr IH|x m es m' Hx Ht Hr IH|f x l l' m es m' Hm Hl Hx Hr IH]; intros (Hs & Hb & Hn); [done|..]; apply IH.
  - split_and!; [done| |done]. eapply Forall_impl; [exact Hb|]. cbn. lia.
  - split_and!; cbn [message_queue next_message_time]; [| |done].
    + apply StronglySorted_app_2; [|done|by repeat constructor]. intros y z Hy ->%list_elem_of_singleton.
      rewrite Forall_forall in Hb. rewrite Hx. by apply Hb.
    + apply Forall_app. split; [eapply Forall_impl; [exact Hb|]; cbn; lia|]. repeat constructor. lia.
  - rewrite Hm in Hs, Hb. split_and!; cbn [message_queue next_message_time]; [| |done].
    + apply StronglySorted_app in Hs as (Hlr & Hsl & Hsr). apply StronglySorted_app_2; [|done|by inversion Hsr].
      intros y z Hy Hz. apply Hlr; [done|by right].
    + rewrite Forall_app, Forall_cons in Hb. rewrite Forall_app. tauto.
Qed.

(** ** Classes and windows *)

(** Atoms and handles are not given twice, a name is registered once for each of
    the two character sets, and a window has the procedure of its class. *)
Record windows_ok (w : Windows) : Prop := {
  wk_atoms : NoDup (wc_atom <$> window_classes w);
  wk_atom_range : Forall (λ c, 0 < wc_atom c < next_window_class_atom w) (window_classes w);
  wk_names : ∀ i j c d, window_classes w !! i = Some c → window_classes w !! j = Some d →
    wc_unicode c = wc_unicode d → same_name (wc_class_name c) (wc_class_name d) = true → i = j;
  wk_procs : Forall (λ c, wc_window_proc c ≠ 0 ∧ wc_class_name c ≠ []) (window_classes w);
  wk_handles : NoDup (wn_handle <$> windows w);
  wk_handle_range : Forall (λ x, 0 < wn_handle x < next_window_handle w) (windows w);
  wk_classes : Forall (λ x, wn_window_proc x ≠ 0 →
    ∃ c, c ∈ window_classes w ∧ wc_atom c = wn_class_atom x ∧ wc_window_proc c = wn_window_proc x) (windows w);
  wk_next : 0 ≤ next_window_class_atom w ∧ 0 ≤ next_window_handle w;
}.
(** Classes and windows are only added. *)
Definition tables_grow (w w' : Windows) : Prop :=
  window_classes w `prefix_of` window_classes w' ∧ windows w `prefix_of` windows w'.

Lemma same_name_iff a b : same_name a b = true ↔ (char_lower <$> a) = (char_lower <$> b).
Proof. unfold same_name. apply bool_decide_eq_true. Qed.
Lemma fresh_below {A} (f : A → Z) n (l : list A) x : Forall (λ y, 0 < f y < n) l → n ≤ f x → NoDup (f <$> l) → NoDup (f <$> l ++ [x]).
Proof.
  intros Hl Hx Hn. rewrite fmap_app. apply NoDup_app. split_and!; [done| |apply NoDup_singleton].
  intros y (z & -> & Hz)%list_elem_of_fmap Heq%list_elem_of_singleton. rewrite Forall_forall in Hl. specialize (Hl z Hz). lia.
Qed.
Lemma range_grows {A} (f : A → Z) n n' (l : list A) x : Forall (λ y, 0 < f y < n) l → 0 < f x < n' → n ≤ n' →
  Forall (λ y, 0 < f y < n') (l ++ [x]).
Proof. intros Hl Hx Hn. apply Forall_app. split; [eapply Forall_impl; [exact Hl|]; cbn; lia|by apply Forall_singleton]. Qed.

Lemma register_class_ok record w w' r : register_window_class record w = (w', r) →
  tables_grow w w' ∧ (windows_ok w → windows_ok w').
Proof.
  unfold register_window_class. destruct (decide _) as [|Hvalid]; [by intros [= <- <-]|].
  destruct (List.find _ _) as [c|] eqn:Hf; [by intros [= <- <-]|].
  destruct (decide (next_window_class_atom w = 0)) as [|Hz]; [by intros [= <- <-]|].
  unfold checked_succ. destruct (decide _) as [Hlim|]; [|by intros [= <- <-]]. intros [= <- <-].
  split; [split; cbn; [by eexists|done]|]. intros [Ha Hr Hn Hp Hh Hhr Hc [Hna Hnh]].
  split; cbn [window_classes windows next_window_class_atom next_window_handle]; [| | | |done|done| |lia].
  - by eapply fresh_below; [exact Hr| |].
  - apply (range_grows wc_atom (next_window_class_atom w)); [done|cbn; lia|lia].
  - intros i j c d Hi Hj Hu Hsame.
    assert (Hfresh : ∀ k y, window_classes w !! k = Some y → wc_unicode y = wc_unicode record →
              same_name (wc_class_name y) (wc_class_name record) = true → False).
    { intros k y Hk Hyu Hyn. apply list_elem_of_lookup_2, list_elem_of_In in Hk.
      pose proof (List.find_none _ _ Hf y Hk) as Hno. cbn beta in Hno. rewrite Hyn, bool_decide_eq_true_2 in Hno by done. done. }
    apply lookup_app_Some in Hi as [Hi|[Hi' Hi]]; apply lookup_app_Some in Hj as [Hj|[Hj' Hj]].
    + by eapply Hn.
    + apply list_lookup_singleton_Some in Hj as [_ <-]. cbn in *. exfalso. eauto.
    + apply list_lookup_singleton_Some in Hi as [_ <-]. cbn in *. exfalso. eapply Hfresh; [exact Hj|done|].
      apply same_name_iff. symmetry. by apply same_name_iff.
    + apply list_lookup_singleton_Some in Hi as [? <-]. apply list_lookup_singleton_Some in Hj as [? <-]. lia.
  - apply Forall_app. split; [done|]. apply Forall_singleton. cbn. tauto.
  - eapply Forall_impl; [exact Hc|]. cbn. intros x Hx Hne. destruct (Hx Hne) as (c & Hin & Hrest). exists c.
    split; [|done]. apply elem_of_app. by left.
Qed.
Lemma find_class_in w id unicode c : find_window_class w id unicode = Some c → c ∈ window_classes w.
Proof.
  unfold find_window_class. destruct (List.find _ _) as [d|] eqn:Hf.
  - intros [= <-]. apply List.find_some in Hf as [Hf _]. by apply list_elem_of_In.
  - intros Hg. apply List.find_some in Hg as [Hg _]. by apply list_elem_of_In.
Qed.
Lemma create_window_ok request unicode w w' r : create_window_record request unicode w = (w', r) →
  tables_grow w w' ∧ (windows_ok w → windows_ok w').
Proof.
  unfold create_window_record. destruct (decide (next_window_handle w = 0)) as [|Hz]; [by intros [= <- <-]|].
  unfold checked_add. destruct (decide _) as [Hlim|]; [|by intros [= <- <-]].
  set (class := find_window_class w (cr_class_identifier request) unicode).
  destruct (match class with Some c => _ | None => _ end) as [[[atom name] proc] cu] eqn:Hclass. intros [= <- <-].
  split; [split; cbn; [done|by eexists]|]. intros [Ha Hr Hn Hp Hh Hhr Hc [Hna Hnh]].
  split; cbn [window_classes windows next_window_class_atom next_window_handle]; [done|done|done|done| | | |lia].
  - by eapply fresh_below; [exact Hhr| |].
  - apply (range_grows wn_handle (next_window_handle w)); [done|cbn; lia|lia].
  - apply Forall_app. split; [done|]. apply Forall_singleton. cbn. intros Hne.
    destruct class as [c|] eqn:Hfc; [|by injection Hclass as <- <- <- <-].
    injection Hclass as <- <- <- <-. exists c. split; [by eapply find_class_in|done].
Qed.

(** ** One call *)

(** What a call may do to the state: run the queue, and add classes and windows. *)
Record steps (es : list queue_event) (u u' : UserState) : Prop := {
  st_queue : queue_run (messages u) es (messages u');
  st_grow : tables_grow (window_tables u) (window_tables u');
  st_ok : windows_ok (window_tables u) → windows_ok (window_tables u');
}.
Lemma steps_same u u' : same_tables u u' → steps [] u u'.
Proof. intros [Hm Hw]. split; [rewrite Hm; constructor|by rewrite Hw|by rewrite Hw]. Qed.
Lemma steps_trans es es' u1 u2 u3 : steps es u1 u2 → steps es' u2 u3 → steps (es ++ es') u1 u3.
Proof.
  intros [Hq1 [Hc1 Hg1] Ho1] [Hq2 [Hc2 Hg2] Ho2]. split; [by eapply queue_run_app|split; by etransitivity|auto].
Qed.
(** The procedure a callback names is that of a window of a registered class. *)
Definition registered (q : GuestCallbackRequest) (w : Windows) : Prop :=
  callback_address q ≠ 0 ∧ ∃ x c, x ∈ windows w ∧ wn_handle x = rq_window_handle q ∧
    c ∈ window_classes w ∧ wc_atom c = wn_class_atom x ∧ wc_window_proc c = callback_address q.

Section Calls.
Context {E : Type} `{CpuApiLaws E}.
Implicit Types (s : UserApi E).
Abbreviation UH := (M (UserApi E)).
Abbreviation ctx s := (snapshot_thread_context (a_cpu (u_api s))).

Record call_ok (es : list queue_event) s s' (r : res HandlerOutcome) : Prop := {
  co_ends : ends s s' r;
  co_steps : steps es (u_state s) (u_state s');
  co_callback q : r = Ok (Signal (GuestCallbackRequested q)) → windows_ok (window_tables (u_state s)) → registered q (window_tables (u_state s'));
}.
Definition good es s (h : UH HandlerOutcome) : Prop := call_ok es s (h s).1 (h s).2.

Lemma call_ok_before es es' s1 s2 s3 r : ctx s2 = ctx s1 → steps es (u_state s1) (u_state s2) → call_ok es' s2 s3 r → call_ok (es ++ es') s1 s3 r.
Proof.
  intros Hc Hs [He Hs' Hq]. split; [unfold ends in *; by rewrite <- Hc|by eapply steps_trans|].
  intros q Hr Hok. apply Hq; [done|]. by apply Hs.
Qed.
Lemma good_ext es s h h' : h s = h' s → good es s h' → good es s h.
Proof. unfold good. by intros ->. Qed.
Lemma good_quiet h s : quiet h → good [] s h.
Proof. intros Hh. destruct (Hh s) as (He & Ht & Hx). split; [done|by apply steps_same|]. intros q Hr. by destruct (Hx _ Hr). Qed.
Lemma good_fail es s s' r : ctx s' = ctx s → steps es (u_state s) (u_state s') → (∀ o, r ≠ Ok o) → call_ok es s s' r.
Proof. intros Hc Hs Hr. split; [|done|by intros q Hq; destruct (Hr _ Hq)]. unfold ends. destruct r as [o|e|w]; [by destruct (Hr o)|done..]. Qed.
Lemma good_still {A} (m : UH A) f s : still m →
  (∀ a s', same_tables (u_state s) (u_state s') → good [] s' (f a)) → good [] s (m ≫= f).
Proof.
  intros Hm Hf. destruct (Hm s) as [Hc Ht]. unfold good, mbind, M_bind. destruct (m s) as [s' [a|e|w]]; cbn [fst snd] in *.
  - eapply (call_ok_before []); [exact Hc|by apply steps_same|]. by apply Hf.
  - apply good_fail; [done|by apply steps_same|done].
  - apply good_fail; [done|by apply steps_same|done].
Qed.
Lemma good_user {A} es (g : UserState → A) f s : good es s (f (g (u_state s))) → good es s (user g ≫= f).
Proof. done. Qed.
Lemma user_reg_ok r api s : reg_for r api s = (s, Ok (context_reg r (ctx s))).
Proof.
  unfold reg_for, process, zoom. unfold arg_for. erewrite context_ok by (apply cpu_ok, read_reg_context).
  by destruct s as [[? ?] ?].
Qed.
Lemma good_reg es r api f s : good es s (f (context_reg r (ctx s))) → good es s (reg_for r api ≫= f).
Proof. intros Hg. eapply good_ext; [|exact Hg]. by erewrite bind_ok by apply user_reg_ok. Qed.
(** A change of the state, then nothing but the return. *)
Lemma good_on_user es g f s : steps es (u_state s) (g (u_state s)) → (∀ a, quiet (f a)) → good es s (on_user g ≫= f).
Proof.
  intros Hs Hf. rewrite <- (app_nil_r es). eapply call_ok_before; [| |by apply (good_quiet (f tt) (mkUser (u_api s) (g (u_state s))))]; done.
Qed.
Lemma good_signal s q : (windows_ok (window_tables (u_state s)) → registered q (window_tables (u_state s))) →
  good [] s (mret (Signal (GuestCallbackRequested q))).
Proof. intros Hq. split; [done|by apply steps_same|]. intros q' [= <-] Hok. by apply Hq. Qed.
Lemma good_waiting s : good [] s (mret (Signal WaitingForMessage)).
Proof. split; [done|by apply steps_same|done]. Qed.

(** *** The queue *)

(** The message a call takes: the first in the queue that its arguments admit, the
    handle of a window or zero for all, and a range of messages. *)
Definition asked s : message_filter :=
  mkFilter (context_reg Rdx (ctx s)) (mask32 (context_reg R8 (ctx s))) (mask32 (context_reg R9 (ctx s))).
Definition first_message s : option QueuedWindowMessage := snd <$> find_message (admits (asked s)) (messages (u_state s)).
(** PeekMessage's flags, its argument on the stack, zero when that cannot be read. *)
Definition flags_of : UH u32 := process (unwrap_or 0 (rsp ← arg Rsp; cpu (read_u32 (wrapping_add rsp 0x28)))).
Definition peek_flags s : u32 := match (flags_of s).2 with Ok v => v | _ => 0 end.
Definition can_post s : bool :=
  bool_decide ((context_reg Rcx (ctx s) = 0 ∨ context_reg Rcx (ctx s) = FAKE_WINDOW_HANDLE) ∧ next_message_time (messages (u_state s)) + 1 < u32_lim).
Definition peeked s (flags : u32) : list queue_event :=
  match first_message s with Some x => if decide (flags ≠ 0) then [Taken (asked s) x] else [] | None => [] end.
(** What a call of a function does to the queue: its arguments and the queue say it. *)
Definition call_events (id : WinApiId) s : list queue_event :=
  match id with
  | User32Postmessagea =>
      if can_post s then [Posted (mkMessage (context_reg Rcx (ctx s)) (mask32 (context_reg Rdx (ctx s))) (context_reg R8 (ctx s))
                                    (context_reg R9 (ctx s)) (next_message_time (messages (u_state s))) 0 0)] else []
  | User32Peekmessagea =>
      peeked s (peek_flags s)
  | User32Getmessagea =>
      if decide (context_reg Rcx (ctx s) = 0) then []
      else
        match first_message s with
        | Some x => [Taken (asked s) x]
        | None =>
            match idle_policy (messages (u_state s)) with
            | ExitOnIdle => if decide (next_message_time (messages (u_state s)) + 1 < u32_lim) then [Idled] else []
            | YieldOnIdle => []
            end
        end
  | _ => []
  end.

Lemma steps_messages u m es : queue_run (messages u) es m → steps es u (set_messages m u).
Proof. by split. Qed.
Lemma steps_remove u f i x : find_message (admits f) (messages u) = Some (i, x) →
  steps [Taken f x] u (set_messages (remove_message i (messages u)) u).
Proof.
  intros (Hi & Hx & Hl)%list_find_Some. apply steps_messages. unfold remove_message. rewrite delete_take_drop.
  eapply run_take; [symmetry; by apply take_drop_middle| |by destruct (admits f x)|constructor].
  apply Forall_forall. intros y (j & Hj)%list_elem_of_lookup. apply lookup_take_Some in Hj as [Hj Hlt].
  specialize (Hl j y Hj Hlt). by destruct (admits f y).
Qed.

Lemma post_good s : good (call_events User32Postmessagea s) s handle_post_message_a.
Proof.
  unfold handle_post_message_a. do 4 apply good_reg. cbn [call_events]. unfold can_post.
  destruct (decide (context_reg Rcx (ctx s) = 0 ∨ context_reg Rcx (ctx s) = FAKE_WINDOW_HANDLE)) as [Hw|Hw].
  2: { rewrite !bool_decide_eq_false_2 by tauto. apply good_quiet; hush. }
  rewrite (bool_decide_eq_true_2 _ Hw).
  destruct (decide (next_message_time (messages (u_state s)) + 1 < u32_lim)) as [Ht|Ht].
  - rewrite bool_decide_eq_true_2 by done.
    eapply (good_ext _ _ _ (on_messages (λ m, mkMessages (message_queue m ++ [_]) (next_message_time m + 1) (idle_policy m)) ≫= λ _, truth true "PostMessageA")).
    { unfold mbind, M_bind, user, checked_for, process, zoom, push_message, checked_succ. rewrite decide_True by exact Ht. by destruct s. }
    apply good_on_user; [|intros _; hush]. by apply steps_messages, run_post; [..|constructor].
  - rewrite bool_decide_eq_false_2 by tauto.
    eapply (good_ext _ _ _ (process (some_ctx "PostMessageA timestamp overflow" None) ≫= λ _ : Messages, truth true "PostMessageA")).
    { unfold mbind, M_bind, user, checked_for, push_message, checked_succ. by rewrite decide_False by exact Ht. }
    apply good_quiet; hush.
Qed.
Lemma good_flags (es : u32 → list queue_event) (f : u32 → UH HandlerOutcome) s : es 0 = [] →
  (∀ v s', same_tables (u_state s) (u_state s') → good (es v) s' (f v)) → good (es (peek_flags s)) s (flags_of ≫= f).
Proof.
  intros H0' Hf. assert (Hs : still flags_of) by (unfold flags_of; hush). destruct (Hs s) as [Hc Ht].
  unfold peek_flags, good, mbind, M_bind. destruct (flags_of s) as [s' [v|e|w]]; cbn [fst snd] in *.
  - eapply (call_ok_before []); [exact Hc|by apply steps_same|]. by apply Hf.
  - rewrite H0'. apply good_fail; [done|by apply steps_same|done].
  - rewrite H0'. apply good_fail; [done|by apply steps_same|done].
Qed.
Lemma peek_good s : good (call_events User32Peekmessagea s) s handle_peek_message_a.
Proof.
  unfold handle_peek_message_a. do 4 apply good_reg. fold flags_of. cbn [call_events].
  apply (good_flags (peeked s)).
  { unfold peeked. by destruct (first_message s). }
  intros v s' [Hm Hw]. apply good_user. unfold peeked, first_message. change (matches_filter _ _ _) with (admits (asked s)). rewrite <- Hm.
  destruct (find_message (admits (asked s)) (messages (u_state s'))) as [[i x]|] eqn:Hf; cbn [fmap option_fmap option_map snd].
  2: apply good_quiet; hush.
  destruct (decide _); [apply good_on_user; [by apply (steps_remove _ (asked s))|]; intros _; hush|apply good_quiet; hush].
Qed.
Lemma get_good s : good (call_events User32Getmessagea s) s handle_get_message_a.
Proof.
  unfold handle_get_message_a. do 4 apply good_reg. apply good_user. cbn [call_events]. unfold first_message.
  change (matches_filter _ _ _) with (admits (asked s)). destruct (decide _); [apply good_quiet; hush|].
  destruct (find_message (admits (asked s)) (messages (u_state s))) as [[i x]|] eqn:Hf; cbn [fmap option_fmap option_map snd].
  - apply good_on_user; [by apply (steps_remove _ (asked s))|]. intros _. hush.
  - apply good_user. destruct (idle_policy _); [|apply good_waiting].
    unfold checked_succ. destruct (decide _) as [Hlim|].
    2: { eapply (good_ext _ _ _ (process (some_ctx _ None) ≫= λ _ : Z, return_of 0 "GetMessageA")); [reflexivity|].
         apply good_quiet; hush. }
    eapply (good_ext _ s _ (on_messages _ ≫= _)); [destruct s; reflexivity|].
    apply good_on_user; [|intros _; hush]. apply steps_messages, run_idle; [exact Hlim|constructor].
Qed.

(** *** Windows *)

Lemma find_window_ok s h w : find_window (u_state s) h = Some w → wn_window_proc w ≠ 0 → ∀ msg wp lp u,
  good [] s (mret (Signal (GuestCallbackRequested (mkRequest (wn_window_proc w) h msg wp lp u)))).
Proof.
  intros Hf Hp msg wp lp u. apply good_signal. intros Hok. unfold find_window in Hf.
  apply List.find_some in Hf as [Hin Hh%bool_decide_eq_true]. apply list_elem_of_In in Hin.
  pose proof (wk_classes _ Hok) as Hc. rewrite Forall_forall in Hc. destruct (Hc w Hin Hp) as (c & Hcin & Ha & Hcp).
  split; [done|]. by exists w, c.
Qed.

Lemma dispatch_good s : good [] s handle_dispatch_message_a.
Proof.
  unfold handle_dispatch_message_a. apply good_still; [hush|]. intros p s1 _. destruct (decide _); [apply good_quiet; hush|].
  do 7 (apply good_still; [hush|]; intros ? ? _). apply good_user.
  destruct (find_window _ _) as [w|] eqn:Hw; [|apply good_quiet; hush].
  destruct (decide _); [apply good_quiet; hush|]. by eapply find_window_ok.
Qed.

Lemma still_class_identifier wide v : still (E := E) (read_window_class_identifier wide v).
Proof. unfold read_window_class_identifier. hush. Qed.

(** The parts of a call that may add a class or a window. *)
Definition fine {A} (m : UH A) : Prop := ∀ s, ctx (m s).1 = ctx s ∧ steps [] (u_state s) (u_state (m s).1).
Lemma fine_still {A} (m : UH A) : still m → fine m.
Proof. intros Hm s. destruct (Hm s) as [Hc Ht]. split; [done|by apply steps_same]. Qed.
Lemma fine_bind {A B} (m : UH A) (f : A → UH B) : fine m → (∀ a, fine (f a)) → fine (m ≫= f).
Proof.
  intros Hm Hf s. specialize (Hm s). unfold mbind, M_bind. destruct (m s) as [s' [a|e|w]]; [|done..].
  destruct (Hf a s') as [Hc Ht], Hm as [Hc' Ht']. split; [by rewrite Hc|by eapply (steps_trans [] [])].
Qed.
Lemma fine_context {A} text (m : UH A) : fine m → fine (context text m).
Proof. intros Hm s. specialize (Hm s). unfold context. by destruct (m s) as [s' [a|e|w]]. Qed.
Lemma fine_windows {A} text (g : Windows → Windows * option A) :
  (∀ w w' r, g w = (w', r) → tables_grow w w' ∧ (windows_ok w → windows_ok w')) → fine (on_windows text g).
Proof.
  intros Hg s. unfold on_windows. destruct (g _) as [w' r] eqn:Hgw. destruct (Hg _ _ _ Hgw) as [Hgrow Hok].
  split; [done|]. split; [constructor|done|done].
Qed.
Lemma good_fine {A} (m : UH A) f s : fine m → (∀ a s', good [] s' (f a)) → good [] s (m ≫= f).
Proof.
  intros Hm Hf. destruct (Hm s) as [Hc Ht]. unfold good, mbind, M_bind. destruct (m s) as [s' [a|e|w]]; cbn [fst snd] in *.
  - eapply (call_ok_before []); [exact Hc|exact Ht|]. by apply Hf.
  - by apply good_fail.
  - by apply good_fail.
Qed.
Ltac fine_step :=
  lazymatch goal with
  | |- fine (on_windows _ (register_window_class _)) => apply fine_windows; intros *; apply register_class_ok
  | |- fine (on_windows _ (create_window_record _ _)) => apply fine_windows; intros *; apply create_window_ok
  | |- fine (context _ _) => apply fine_context
  | |- fine (if ?d then _ else _) => destruct d
  | |- fine (mbind _ _) => apply fine_bind; [|intros ?]
  end.

Lemma fine_mdi_child p unicode : fine (create_mdi_child_from_struct p unicode).
Proof. unfold create_mdi_child_from_struct. repeat fine_step. all: apply fine_still; hush. Qed.
Lemma send_good prefer api s : good [] s (handle_send_message prefer api).
Proof.
  unfold handle_send_message. do 4 (apply good_still; [hush|]; intros ? ? _). destruct (decide _).
  - apply good_fine; [apply fine_context, fine_mdi_child|]. intros; apply good_quiet; hush.
  - apply good_user. destruct (find_window _ _) as [w|] eqn:Hw; [|apply good_quiet; hush].
    destruct (decide _); [by eapply find_window_ok|apply good_quiet; hush].
Qed.
Lemma register_good wide api struct_name s : good [] s (register_class_ex wide api struct_name).
Proof.
  unfold register_class_ex. apply good_still; [hush|]. intros p s1 _.
  apply good_fine; [|intros; apply good_quiet; hush]. repeat fine_step. all: apply fine_still; hush.
Qed.

Lemma rows_good : Forall (λ r, ∀ s, good (call_events r.1 s) s r.2) (user32_rows (E := E)).
Proof.
  unfold user32_rows. repeat apply Forall_cons_2; [..|apply Forall_nil_2]; cbn [snd fst]; intros s.
  all: first [apply peek_good|apply post_good|apply get_good|apply dispatch_good|apply send_good|apply register_good|apply good_quiet].
  all: match goal with |- quiet ?h => let h' := eval red in h in change (quiet h') end.
  all: hush.
Qed.
Lemma row_good id h s : (id, h) ∈ user32_rows → good (call_events id s) s h.
Proof. intros Hin. pose proof rows_good as Hrows. rewrite Forall_forall in Hrows. exact (Hrows _ Hin s). Qed.

(** ** Sequences of calls *)

(** Calls of any functions, one after the other, from whatever engine and process
    state the program has reached when it makes them. *)
Inductive user_calls : UserState → UserState → Prop :=
| calls_none u : user_calls u u
| calls_one id h a u u' : (id, h) ∈ user32_rows → user_calls (u_state (h (mkUser a u)).1) u' → user_calls u u'.
(** The same with what the calls do to the queue. *)
Inductive user_trace : UserState → list queue_event → UserState → Prop :=
| trace_none u : user_trace u [] u
| trace_call id h a u es u' : (id, h) ∈ user32_rows → user_trace (u_state (h (mkUser a u)).1) es u' →
    user_trace u (call_events id (mkUser a u) ++ es) u'.
Lemma user_trace_steps u es u' : user_trace u es u' → steps es u u'.
Proof.
  induction 1 as [u|id h a u es u' Hin Hc IH]; [by apply steps_same|].
  eapply steps_trans; [|exact IH]. exact (co_steps _ _ _ _ (row_good id h (mkUser a u) Hin)).
Qed.
Lemma user_calls_trace u u' : user_calls u u' → ∃ es, user_trace u es u'.
Proof. induction 1 as [u|id h a u u' Hin Hc [es IH]]; eexists; [apply trace_none|by eapply trace_call]. Qed.

(** Every modelled USER32 call keeps the calling
    convention: when it returns, RIP, RSP and RAX are as a return of that value
    makes them and every other register is as it was; when it asks for a window
    procedure to be called, waits for a message or fails, no register has changed. *)
Theorem user_calls_keep_convention id h s : (id, h) ∈ user32_rows →
  snapshot_thread_context (a_cpu (u_api (h s).1)) =
  match (h s).2 with
  | Ok (Return ra v) => returned_context v ra (ctx s)
  | _ => ctx s
  end.
Proof. intros Hin. exact (co_ends _ _ _ _ (row_good id h s Hin)). Qed.

(** C35 Classes and windows stay consistent under any
    sequence of USER32 calls (atoms and handles unique, a class name registered at
    most once for each character set, a window with the procedure of its class), none
    disappears, and a window procedure that SendMessage or DispatchMessage then asks
    the runtime to call is that of a window of a class the program registered. *)
Theorem window_procedures_registered u u' id h a q :
  windows_ok (window_tables u) → user_calls u u' → (id, h) ∈ user32_rows →
  (h (mkUser a u')).2 = Ok (Signal (GuestCallbackRequested q)) →
  windows_ok (window_tables u') ∧ tables_grow (window_tables u) (window_tables u') ∧
  registered q (window_tables (u_state (h (mkUser a u')).1)).
Proof.
  intros Hok Hc Hin Hq. destruct (user_calls_trace u u' Hc) as [es Ht]. destruct (user_trace_steps _ _ _ Ht) as [_ Hg Ho]. specialize (Ho Hok).
  split; [done|]. split; [done|]. exact (co_callback _ _ _ _ (row_good id h (mkUser a u') Hin) q Hq Ho).
Qed.
End Calls.

(** ** Structures in guest memory *)

Section Structures.
Context {E : Type} `{CpuApiLaws E}.
Implicit Types (s : UserApi E) (e : E).
Abbreviation ctx s := (snapshot_thread_context (a_cpu (u_api s))).

Definition cpu_of s : E := a_cpu (u_api s).
Definition with_cpu e s : UserApi E := mkUser (mkApi e (a_win (u_api s))) (u_state s).
Lemma user_with_cpu_id s : with_cpu (cpu_of s) s = s.
Proof. by destruct s as [[? ?] ?]. Qed.

Lemma guest_ok {A} (m : M E A) s e x : m (cpu_of s) = (e, Ok x) → on_guest m s = (with_cpu e s, Ok x).
Proof. intros Hm. unfold on_guest, process, zoom. by erewrite cpu_ok by exact Hm. Qed.
Lemma return_ok' v api s sp ra : call_frame (cpu_of s) sp ra →
  ∃ e', return_of v api s = (with_cpu e' s, Ok (Return ra v)) ∧ unchanged (cpu_of s) e'.
Proof.
  intros Hf. destruct (returned_ok (u_api s) v sp ra Hf) as (e' & Hr & Hu & _). exists e'. split; [|exact Hu].
  unfold return_of, process, zoom, ret_u64. by erewrite context_ok by exact Hr.
Qed.
Lemma field_ok base off name s : base + off < u64_lim → field base off name s = (s, Ok (base + off)).
Proof.
  intros Hl. unfold field. erewrite guest_ok.
  - by rewrite user_with_cpu_id.
  - unfold checked_field_address, checked_add. rewrite decide_True by done. reflexivity.
Qed.

(** Fields that follow each other, and the bytes they make. *)
Fixpoint contiguous (off : Z) (fs : list Field) : Prop :=
  match fs with [] => True | f :: fs => f_offset f = off ∧ contiguous (off + Z.of_nat (length (f_bytes f))) fs end.
Definition image (fs : list Field) : list u8 := concat (f_bytes <$> fs).

Lemma put_fields_ok base fs : ∀ s pre old post,
  mirrors (cpu_of s) base (pre ++ old ++ post) → length old = length (image fs) → contiguous (Z.of_nat (length pre)) fs →
  ∃ e', put_fields base fs s = (with_cpu e' s, Ok tt) ∧ mirrors e' base (pre ++ image fs ++ post) ∧
    framed base (base + Z.of_nat (length (pre ++ old ++ post))) (cpu_of s) e' ∧
    snapshot_thread_context e' = ctx s.
Proof.
  induction fs as [|f fs IH]; intros s pre old post Hm Hl Hc; cbn [put_fields].
  - apply nil_length_inv in Hl as ->. exists (cpu_of s). rewrite user_with_cpu_id. by split_and!; [| |apply framed_refl|].
  - destruct Hc as [Hoff Hc]. unfold image in Hl. cbn [fmap list_fmap concat] in Hl. rewrite length_app in Hl.
    rewrite <- (take_drop (length (f_bytes f)) old), <- app_assoc in Hm.
    assert (Ht : length (take (length (f_bytes f)) old) = length (f_bytes f)) by (rewrite length_take; lia).
    assert (Hlim : base + f_offset f < u64_lim).
    { destruct (mi_acc _ _ _ Hm) as (_ & Hlim & _). rewrite Hoff. rewrite !length_app in Hlim. lia. }
    erewrite bind_ok by (by apply field_ok).
    destruct (mirror_write _ _ _ _ (f_bytes f) _ Hm) as (e1 & Hw & Hm1 & Hf1); [done|].
    pose proof (mem_write_context (base + Z.of_nat (length pre)) (f_bytes f) (cpu_of s)) as Hc1. rewrite Hw in Hc1. cbn [fst] in Hc1.
    erewrite bind_ok by (apply guest_ok, context_ok; rewrite Hoff; exact Hw).
    rewrite app_assoc in Hm1.
    destruct (IH (with_cpu e1 s) (pre ++ f_bytes f) (drop (length (f_bytes f)) old) post) as (e2 & Hr & Hm2 & Hf2 & Hc2).
    { exact Hm1. }
    { rewrite length_drop. unfold image. lia. }
    { by rewrite length_app, Nat2Z.inj_add. }
    exists e2. split; [exact Hr|]. split; [|split; [|by rewrite Hc2]].
    + unfold image. cbn [fmap list_fmap concat]. by rewrite <- !app_assoc in *.
    + eapply framed_trans.
      * eapply framed_weaken; [exact Hf1|lia|]. rewrite !length_app, length_drop. lia.
      * eapply framed_weaken; [exact Hf2|lia|]. rewrite !length_app, length_drop. lia.
Qed.
Lemma mirrors_any e a n : mem_inv e → accessible e a (Z.of_nat n) → ∃ old, length old = n ∧ mirrors e a old.
Proof.
  intros Hi (Ha & Hlim & Hrw). destruct (mem_read_ok e a n Hi Ha Hlim Hrw) as (e' & bs & _ & _ & _ & _ & Hl & Hbs).
  exists bs. split; [done|]. split; [done|by rewrite Hl|]. intros i b Hb. rewrite <- Hb. symmetry. apply Hbs.
  apply lookup_lt_Some in Hb. lia.
Qed.
(** A structure written to memory that is accessible. *)
Lemma put_structure base fs s : mem_inv (cpu_of s) → accessible (cpu_of s) base (Z.of_nat (length (image fs))) → contiguous 0 fs →
  ∃ e', put_fields base fs s = (with_cpu e' s, Ok tt) ∧ mirrors e' base (image fs) ∧
    framed base (base + Z.of_nat (length (image fs))) (cpu_of s) e' ∧ snapshot_thread_context e' = ctx s.
Proof.
  intros Hi Hacc Hc. destruct (mirrors_any _ _ _ Hi Hacc) as (old & Hl & Hm).
  destruct (put_fields_ok base fs s [] old []) as (e' & Hr & Hm' & Hf & Hctx); [by rewrite app_nil_r|done|done|].
  exists e'. rewrite app_nil_r in Hm', Hf. by rewrite app_nil_l, Hl in Hf.
Qed.
Lemma read_word n text inner s a base x v z : mirrors (cpu_of s) base (x ++ le_bytes n v ++ z) →
  a = base + Z.of_nat (length x) → 0 ≤ v < 256 ^ Z.of_nat n →
  ∃ e', on_guest (context text (bytes ← context inner (mem_read a n); mret (le_val bytes))) s = (with_cpu e' s, Ok v) ∧
    mirrors e' base (x ++ le_bytes n v ++ z) ∧ unchanged (cpu_of s) e'.
Proof.
  intros Hm -> Hv. destruct (mirror_read _ _ _ _ _ Hm) as (e' & Hr & Hu). rewrite length_le_bytes in Hr.
  exists e'. split; [|split; [by eapply mirrors_unchanged|done]]. apply guest_ok, context_ok.
  erewrite bind_ok by (apply context_ok; exact Hr). unfold mret, M_ret. do 2 f_equal. by apply le_val_word.
Qed.

(** ** A message through guest memory *)

(** The MSG structure. *)
Definition message_image (x : QueuedWindowMessage) : list u8 := image (message_fields x).
Definition message_wf (x : QueuedWindowMessage) : Prop :=
  in_u64 (qm_window_handle x) ∧ 0 ≤ qm_message x < u32_lim ∧ in_u64 (qm_word_parameter x) ∧ in_u64 (qm_long_parameter x).
Lemma message_image_words x : message_image x =
  le_bytes 8 (qm_window_handle x) ++ le_bytes 4 (qm_message x) ++ le_bytes 4 0 ++ le_bytes 8 (qm_word_parameter x) ++
  le_bytes 8 (qm_long_parameter x) ++ le_bytes 4 (qm_time x) ++ le_bytes 4 (qm_point_x x) ++ le_bytes 4 (qm_point_y x) ++ le_bytes 4 0.
Proof. unfold message_image, image, message_fields. cbn [fmap list_fmap concat f_bytes]. by rewrite app_nil_r. Qed.
Lemma message_image_length x : length (message_image x) = 48%nat.
Proof. rewrite message_image_words, !length_app, !length_le_bytes. done. Qed.
Lemma message_fields_contiguous x : contiguous 0 (message_fields x).
Proof. cbn [message_fields contiguous f_offset f_bytes]. rewrite !length_le_bytes. by split_and!. Qed.

Lemma get_message_ok s p sp ra i x : call_frame (cpu_of s) sp ra → context_reg Rcx (ctx s) = p → p ≠ 0 →
  accessible (cpu_of s) p 48 → p + 48 ≤ sp ∨ sp + 8 ≤ p →
  find_message (matches_filter (context_reg Rdx (ctx s)) (mask32 (context_reg R8 (ctx s))) (mask32 (context_reg R9 (ctx s))))
    (messages (u_state s)) = Some (i, x) →
  ∃ e', handle_get_message_a s =
      (mkUser (mkApi e' (a_win (u_api s))) (set_messages (remove_message i (messages (u_state s))) (u_state s)),
       Ok (Return ra (if decide (qm_message x = WM_QUIT) then 0 else 1))) ∧
    mirrors e' p (message_image x) ∧ framed p (p + 48) (cpu_of s) e'.
Proof.
  intros Hf Hp Hnz Hacc Hd Hfind. unfold handle_get_message_a.
  do 4 (erewrite bind_ok by apply user_reg_ok). erewrite bind_ok by reflexivity. rewrite Hp, decide_False, Hfind by done.
  erewrite bind_ok by reflexivity. set (s1 := mkUser (u_api s) _).
  destruct (put_structure p (message_fields x) s1) as (e1 & Hr1 & Hm1 & Hf1 & Hc1).
  { exact (cf_inv _ _ _ Hf). }
  { fold (message_image x). rewrite message_image_length. exact Hacc. }
  { apply message_fields_contiguous. }
  fold (message_image x) in *. rewrite message_image_length in Hf1.
  unfold write_message_structure. erewrite bind_ok by exact Hr1.
  destruct (return_ok' (if decide (qm_message x = WM_QUIT) then 0 else 1) "GetMessageA" (with_cpu e1 s1) sp ra) as (e2 & Hr2 & Hu2).
  { eapply call_frame_framed; [exact Hf|exact (mi_inv _ _ _ Hm1)|exact Hf1|exact Hc1|lia]. }
  exists e2. split; [|split].
  - unfold truth. destruct (decide (qm_message x = WM_QUIT)) as [Hq|Hq];
      [rewrite bool_decide_eq_false_2 by (by intros Hn; apply Hn)|rewrite bool_decide_eq_true_2 by done]; exact Hr2.
  - by eapply mirrors_unchanged.
  - eapply framed_trans; [exact Hf1|by apply framed_unchanged].
Qed.

(** PeekMessage's flags, when they can be read. *)
Lemma flags_ok s sp ra : call_frame (cpu_of s) sp ra → accessible (cpu_of s) (wrapping_add sp 0x28) 4 →
  ∃ e' v, flags_of s = (with_cpu e' s, Ok v) ∧ call_frame e' sp ra ∧ unchanged (cpu_of s) e'.
Proof.
  intros Hf (Ha & Hl & Hrw). destruct (mem_read_ok (cpu_of s) _ 4 (cf_inv _ _ _ Hf) Ha Hl Hrw) as (e' & bs & Hr & Hi & Hg & Hrw' & _).
  assert (Hu : unchanged (cpu_of s) e') by (by split).
  pose proof (mem_read_context (wrapping_add sp 0x28) 4 (cpu_of s)) as Hc. rewrite Hr in Hc. cbn [fst] in Hc.
  exists e', (le_val bs). split; [|split; [|exact Hu]].
  - unfold flags_of, process, zoom. erewrite unwrap_ok; [reflexivity|].
    erewrite bind_ok by (unfold arg; apply cpu_ok, read_reg_context).
    pose proof (cf_rsp _ _ _ Hf) as Hsp. unfold cpu_of in Hsp. rewrite Hsp. erewrite cpu_ok by (unfold read_u32; erewrite bind_ok by (apply context_ok; exact Hr); reflexivity). reflexivity.
  - eapply (call_frame_framed (cpu_of s) e' sp ra sp sp); [done|exact Hi|by apply framed_unchanged|exact Hc|lia].
Qed.
Lemma peek_message_ok s p sp ra x : call_frame (cpu_of s) sp ra → context_reg Rcx (ctx s) = p →
  accessible (cpu_of s) p 48 → p + 48 ≤ sp ∨ sp + 8 ≤ p → accessible (cpu_of s) (wrapping_add sp 0x28) 4 →
  first_message s = Some x →
  ∃ s', handle_peek_message_a s = (s', Ok (Return ra 1)) ∧ mirrors (cpu_of s') p (message_image x).
Proof.
  intros Hf Hp Hacc Hd Hflags Hfirst. unfold handle_peek_message_a. do 4 (erewrite bind_ok by apply user_reg_ok). fold flags_of.
  destruct (flags_ok s sp ra Hf Hflags) as (e1 & v & Hr1 & Hf1 & Hu1). erewrite bind_ok by exact Hr1.
  erewrite bind_ok by reflexivity. unfold first_message in Hfirst. change (matches_filter _ _ _) with (admits (asked s)). cbn [u_state with_cpu].
  destruct (find_message _ _) as [[i y]|]; [|done]. injection Hfirst as ->. rewrite Hp.
  assert (Hs2 : ∃ u, (if decide (v ≠ 0) then on_messages (remove_message i) else mret tt) (with_cpu e1 s) = (mkUser (mkApi e1 (a_win (u_api s))) u, Ok tt)).
  { destruct (decide _); eexists; reflexivity. }
  destruct Hs2 as [u Hr2]. erewrite bind_ok by exact Hr2. set (s2 := mkUser _ u).
  destruct (put_structure p (message_fields x) s2) as (e3 & Hr3 & Hm3 & Hf3 & Hc3).
  { exact (un_inv _ _ Hu1). }
  { fold (message_image x). rewrite message_image_length. by eapply accessible_unchanged. }
  { apply message_fields_contiguous. }
  fold (message_image x) in *. rewrite message_image_length in Hf3. unfold write_message_structure. erewrite bind_ok by exact Hr3.
  destruct (return_ok' 1 "PeekMessageA" (with_cpu e3 s2) sp ra) as (e4 & Hr4 & Hu4).
  { eapply call_frame_framed; [exact Hf1|exact (mi_inv _ _ _ Hm3)|exact Hf3|exact Hc3|lia]. }
  eexists. split; [exact Hr4|]. by eapply mirrors_unchanged.
Qed.

(** C34 The message queue is first-in first-out, and every call of a USER32 function does
    with it what the call's arguments say, in whatever states the rest of the
    machine is when a program makes the calls: PostMessage, for a window handle it takes
    ([can_post]), puts the message of its arguments behind the others, with the next time stamp; GetMessage, and PeekMessage
    with flags that are not zero, take the first message that their own window and
    range admit, and leave the others in their order; GetMessage on a queue with none
    spends a stamp where it makes up a WM_QUIT; no other call touches the queue.
    Hence the messages taken with those still queued are those queued before with
    those posted; the order is first-in first-out for every set of messages that each
    filter used lets through or holds back as a whole, as all the messages of one
    window are when no range is given; and the time stamps keep increasing.  The
    message that is first for a call is the one its caller gets: with a stack and a
    MSG that can be accessed, GetMessage returns with it written there (zero exactly for
    WM_QUIT), and so does PeekMessage.  (The queue loses it before it is written: where
    the MSG cannot be accessed the message is taken and the call fails.) *)
Theorem message_queue_fifo u es u' : user_trace (E := E) u es u' →
  queue_run (messages u) es (messages u') ∧
  taken es ++ message_queue (messages u') ≡ₚ message_queue (messages u) ++ posted es ∧
  (∀ P (D : ∀ x, Decision (P x)), Forall (whole P) (filters es) →
     filter P (taken es) ++ filter P (message_queue (messages u')) = filter P (message_queue (messages u)) ++ filter P (posted es)) ∧
  (queue_ok (messages u) → queue_ok (messages u')) ∧
  ∀ s p sp ra x, first_message s = Some x →
    call_frame (cpu_of s) sp ra → context_reg Rcx (ctx s) = p → accessible (cpu_of s) p 48 → p + 48 ≤ sp ∨ sp + 8 ≤ p →
    (p ≠ 0 → ∃ s', handle_get_message_a s = (s', Ok (Return ra (if decide (qm_message x = WM_QUIT) then 0 else 1))) ∧
       mirrors (cpu_of s') p (message_image x)) ∧
    (accessible (cpu_of s) (wrapping_add sp 0x28) 4 →
       ∃ s', handle_peek_message_a s = (s', Ok (Return ra 1)) ∧ mirrors (cpu_of s') p (message_image x)).
Proof.
  intros Ht. pose proof (st_queue _ _ _ (user_trace_steps u es u' Ht)) as Hr. split_and!; [done|by apply queue_run_conserves| |by eapply queue_run_ok|].
  { intros P ? Hw. by apply queue_run_in_order. }
  intros s p sp ra x Hfirst Hf Hp Hacc Hd. split; [|intros Hflags; by eapply peek_message_ok].
  intros Hnz. unfold first_message in Hfirst. destruct (find_message _ _) as [[i y]|] eqn:Hfind; [|done]. injection Hfirst as ->.
  destruct (get_message_ok s p sp ra i x Hf Hp Hnz Hacc Hd Hfind) as (e' & Hg & Hm & _). eexists. split; [exact Hg|exact Hm].
Qed.

Lemma dispatch_message_ok s p x w : context_reg Rcx (ctx s) = p → p ≠ 0 → mirrors (cpu_of s) p (message_image x) → message_wf x →
  find_window (u_state s) (qm_window_handle x) = Some w → wn_window_proc w ≠ 0 →
  ∃ e', handle_dispatch_message_a s =
      (with_cpu e' s, Ok (Signal (GuestCallbackRequested (mkRequest (wn_window_proc w) (qm_window_handle x) (qm_message x)
         (qm_word_parameter x) (qm_long_parameter x) (wn_unicode w))))) ∧ unchanged (cpu_of s) e'.
Proof.
  intros Hp Hnz Hm (Hh & Hmsg & Hw & Hl) Hfind Hproc. unfold handle_dispatch_message_a.
  erewrite bind_ok by apply user_reg_ok. rewrite Hp, decide_False by done.
  rewrite message_image_words in Hm. pose proof (mi_acc _ _ _ Hm) as (_ & Hlim & _).
  rewrite !length_app, !length_le_bytes in Hlim. unfold in_u64 in *.
  unfold read_u64, read_u32.
  destruct (read_word 8 "failed to read MSG.hwnd for DispatchMessageA" "failed to read u64 from guest memory" s p p [] _ _ Hm)
    as (e1 & Hr1 & Hm1 & Hu1); [cbn; lia|lia|]. erewrite bind_ok by exact Hr1.
  erewrite bind_ok by (apply field_ok; lia).
  destruct (read_word 4 "failed to read MSG.message for DispatchMessageA" "failed to read u32 from guest memory" (with_cpu e1 s)
    (p + 8) p (le_bytes 8 (qm_window_handle x)) _ _ Hm1) as (e2 & Hr2 & Hm2 & Hu2); [by rewrite length_le_bytes|lia|].
  erewrite bind_ok by exact Hr2. erewrite bind_ok by (apply field_ok; lia).
  rewrite (app_assoc (le_bytes 4 (qm_message x))), (app_assoc (le_bytes 8 (qm_window_handle x))) in Hm2.
  destruct (read_word 8 "failed to read MSG.wParam for DispatchMessageA" "failed to read u64 from guest memory" (with_cpu e2 s)
    (p + 16) p _ _ _ Hm2) as (e3 & Hr3 & Hm3 & Hu3); [by rewrite !length_app, !length_le_bytes|lia|].
  erewrite bind_ok by exact Hr3. erewrite bind_ok by (apply field_ok; lia).
  rewrite (app_assoc _ (le_bytes 8 (qm_word_parameter x))) in Hm3.
  destruct (read_word 8 "failed to read MSG.lParam for DispatchMessageA" "failed to read u64 from guest memory" (with_cpu e3 s)
    (p + 24) p _ _ _ Hm3) as (e4 & Hr4 & Hm4 & Hu4); [by rewrite !length_app, !length_le_bytes|lia|].
  erewrite bind_ok by exact Hr4.
  assert (Hw4 : user (λ u, find_window u (qm_window_handle x)) (with_cpu e4 s) = (with_cpu e4 s, Ok (Some w)))
    by (unfold user; cbn [u_state with_cpu]; by rewrite Hfind).
  erewrite bind_ok by exact Hw4. cbv beta iota. rewrite decide_False by done. exists e4. split; [done|].
  do 3 (eapply unchanged_trans; [eassumption|]). done.
Qed.

(** GetMessage takes the first queued message its filter
    admits, writes it as a MSG structure and nothing else, and returns zero exactly
    for WM_QUIT; and while the structure is as it was written, DispatchMessage asks
    for the procedure of the message's window to be called with the window, message
    and parameters that were queued. *)
Theorem message_reaches_window s p sp ra i x : call_frame (cpu_of s) sp ra → context_reg Rcx (ctx s) = p → p ≠ 0 →
  accessible (cpu_of s) p 48 → p + 48 ≤ sp ∨ sp + 8 ≤ p → message_wf x →
  find_message (matches_filter (context_reg Rdx (ctx s)) (mask32 (context_reg R8 (ctx s))) (mask32 (context_reg R9 (ctx s))))
    (messages (u_state s)) = Some (i, x) →
  (∃ e', handle_get_message_a s =
      (mkUser (mkApi e' (a_win (u_api s))) (set_messages (remove_message i (messages (u_state s))) (u_state s)),
       Ok (Return ra (if decide (qm_message x = WM_QUIT) then 0 else 1))) ∧
    mirrors e' p (message_image x) ∧ framed p (p + 48) (cpu_of s) e') ∧
  ∀ s2 w, context_reg Rcx (ctx s2) = p → mirrors (cpu_of s2) p (message_image x) →
    find_window (u_state s2) (qm_window_handle x) = Some w → wn_window_proc w ≠ 0 →
    ∃ e', handle_dispatch_message_a s2 =
        (with_cpu e' s2, Ok (Signal (GuestCallbackRequested (mkRequest (wn_window_proc w) (qm_window_handle x) (qm_message x)
           (qm_word_parameter x) (qm_long_parameter x) (wn_unicode w))))) ∧ unchanged (cpu_of s2) e'.
Proof.
  intros Hf Hp Hnz Hacc Hd Hwf Hfind. split; [by eapply get_message_ok|]. intros s2 w Hp2 Hm Hw Hproc. by eapply dispatch_message_ok.
Qed.
End Structures.
