(* ===== verification/guest_stubs.v ===== *)
(** * Code planted in the guest (crates/wie-runtime/src/guest_stubs.rs, hooks.rs)

    Some calls are answered by machine code in the guest itself: which ones, the
    bytes of their bodies, the data page they read, and the bitmap that tells the
    engine at which addresses of the fake-API window the host takes over.  The
    tables that give every import its address, and every stop its meaning. *)

From stdpp Require Import pretty.
From S2P Require Import Prelude path utf regs insn engine exec_one dispatch_table fake_va dll_loader guest_string thread user32.

Record GuestStubConfig := mkStubConfig {
  fls_table_va : u64;
  metrics_table_va : u64;
  colors_table_va : u64;
  cwd_blob_va : u64;
  command_line_a_va : u64;
  command_line_w_va : u64;
}.
Definition CLASSIFY_ONLY : GuestStubConfig := mkStubConfig 0 0 0 0 0 0.

Definition METRICS_COUNT : nat := 256.
Definition COLOR_COUNT : nat := 32.
Definition CWD_MAX_CHARS : nat := 260.
Definition OFFSET_COLORS : u64 := 0x400.
Definition OFFSET_CWD : u64 := 0x500.
Definition CWD_BLOB_SIZE : nat := 4 + (CWD_MAX_CHARS + 1) * 2.
Definition LANG_EN_US : u32 := 0x0409.
Definition FAKE_DESKTOP_WINDOW : u64 := 0x66000110.
Definition FAKE_SYSCOLOR_BRUSH_BASE : u64 := 0x66010000.
Definition TEB_LAST_ERROR_VA : u64 := 0x68.
Definition GUEST_FLS_SLOT_COUNT : u32 := 256.

(** [from_layout], of the three addresses of the layout it uses. *)
Definition from_layout (guest_fls_table_base guest_stub_data_base env_data_base : u64) : GuestStubConfig :=
  mkStubConfig guest_fls_table_base guest_stub_data_base (guest_stub_data_base + OFFSET_COLORS)
    (guest_stub_data_base + OFFSET_CWD) (env_data_base + 0x100) (env_data_base + 0x200).

Inductive GuestStubKind :=
  | VoidRet
  | IdentityRcxToRax
  | ReturnZero
  | ReturnImm32 (imm : u32)
  | ReturnImm64 (imm : u64)
  | LoadZx32FromVa (va : u64)
  | StoreEcxToVa (va : u64)
  | FlsGetValue (table_va : u64) (max_slots : u32)
  | FlsSetValue (table_va : u64) (max_slots : u32)
  | AcrtIobFunc
  | LoadU32FromTable (table_va : u64) (max_index : u32)
  | SysColorBrush (base : u64)
  | GetCurrentDirectoryW (blob_va : u64)
  | Initterm
  | InittermE.
#[global] Instance GuestStubKind_eq_dec : EqDecision GuestStubKind.
Proof. solve_decision. Defined.

(** ** The bodies *)

(** A jump of one byte of distance, filled in when its target is known. *)
Definition patch_rel8 (imm_at target : nat) (buf : list u8) : list u8 :=
  <[imm_at := as_u 8 (Z.of_nat target - (Z.of_nat imm_at + 1))]> buf.

Definition encode_initterm (check_status : bool) : list u8 :=
  let buf := [0x53; 0x56; 0x48; 0x89; 0xcb; 0x48; 0x89; 0xd6] in
  let loop_at := length buf in
  let buf := buf ++ [0x48; 0x39; 0xf3] in
  let jae_imm := (length buf + 1)%nat in
  let buf := buf ++ [0x73; 0x00; 0x48; 0x8b; 0x03; 0x48; 0x83; 0xc3; 0x08; 0x48; 0x85; 0xc0] in
  let jz_imm := (length buf + 1)%nat in
  let buf := buf ++ [0x74; 0x00; 0x48; 0x83; 0xec; 0x28; 0xff; 0xd0; 0x48; 0x83; 0xc4; 0x28] in
  if check_status then
    let buf := buf ++ [0x85; 0xc0] in
    let jnz_imm := (length buf + 1)%nat in
    let buf := buf ++ [0x75; 0x00] in
    let jmp_imm := (length buf + 1)%nat in
    let buf := buf ++ [0xeb; 0x00] in
    let done_at := length buf in
    let buf := buf ++ [0x31; 0xc0; 0x5e; 0x5b; 0xc3] in
    let fail_at := length buf in
    let buf := buf ++ [0x5e; 0x5b; 0xc3] in
    patch_rel8 jmp_imm loop_at (patch_rel8 jnz_imm fail_at (patch_rel8 jz_imm loop_at (patch_rel8 jae_imm done_at buf)))
  else
    let jmp_imm := (length buf + 1)%nat in
    let buf := buf ++ [0xeb; 0x00] in
    let done_at := length buf in
    let buf := buf ++ [0x31; 0xc0; 0x5e; 0x5b; 0xc3] in
    patch_rel8 jmp_imm loop_at (patch_rel8 jz_imm loop_at (patch_rel8 jae_imm done_at buf)).

(** The three bodies that look a word up in a table: compare, jump to the answer
    zero, load the table's address, [access], the answer zero. *)
Definition encode_table (max : u32) (table_va : u64) (access : list u8) : list u8 :=
  let buf := [0x48; 0x81; 0xf9] ++ le_bytes 4 max in
  let jae_imm := (length buf + 1)%nat in
  let buf := buf ++ [0x73; 0x00; 0x48; 0xb8] ++ le_bytes 8 table_va ++ access ++ [0xc3] in
  let zero_at := length buf in
  patch_rel8 jae_imm zero_at (buf ++ [0x31; 0xc0; 0xc3]).
Definition encode_fls_get (table_va : u64) (max_slots : u32) : list u8 := encode_table max_slots table_va [0x48; 0x8b; 0x04; 0xc8].
Definition encode_fls_set (table_va : u64) (max_slots : u32) : list u8 :=
  encode_table max_slots table_va [0x48; 0x89; 0x14; 0xc8; 0xb8; 0x01; 0x00; 0x00; 0x00].
Definition encode_load_u32_table (table_va : u64) (max_index : u32) : list u8 := encode_table max_index table_va [0x8b; 0x04; 0x88].

Definition encode_get_current_directory_w (blob_va : u64) : list u8 :=
  let buf := [0x49; 0xb8] ++ le_bytes 8 blob_va ++ [0x41; 0x8b; 0x00; 0x44; 0x8d; 0x48; 0x01; 0x48; 0x85; 0xd2] in
  let jz1 := (length buf + 1)%nat in
  let buf := buf ++ [0x74; 0x00; 0x48; 0x85; 0xc9] in
  let jz2 := (length buf + 1)%nat in
  let buf := buf ++ [0x74; 0x00; 0x48; 0x39; 0xc1] in
  let jbe := (length buf + 1)%nat in
  let buf := buf ++ [0x76; 0x00; 0x56; 0x57; 0x49; 0x8d; 0x70; 0x04; 0x48; 0x89; 0xd7; 0x8d; 0x48; 0x01; 0xf3; 0xa5; 0x5f; 0x5e; 0xc3] in
  let need_size := length buf in
  patch_rel8 jbe need_size (patch_rel8 jz2 need_size (patch_rel8 jz1 need_size (buf ++ [0x44; 0x89; 0xc8; 0xc3]))).

Definition encode_stub (k : GuestStubKind) : list u8 :=
  match k with
  | VoidRet => [0xc3]
  | IdentityRcxToRax => [0x48; 0x89; 0xc8; 0xc3]
  | ReturnZero => [0x31; 0xc0; 0xc3]
  | ReturnImm32 imm => [0xb8] ++ le_bytes 4 imm ++ [0xc3]
  | ReturnImm64 imm => [0x48; 0xb8] ++ le_bytes 8 imm ++ [0xc3]
  | LoadZx32FromVa va => [0x48; 0xb8] ++ le_bytes 8 va ++ [0x8b; 0x00; 0xc3]
  | StoreEcxToVa va => [0x48; 0xb8] ++ le_bytes 8 va ++ [0x89; 0x08; 0xc3]
  | FlsGetValue table max => encode_fls_get table max
  | FlsSetValue table max => encode_fls_set table max
  | AcrtIobFunc => [0xb8; 0x00; 0x00; 0x00; 0x68; 0xc1; 0xe1; 0x08; 0x01; 0xc8; 0xc3]
  | LoadU32FromTable table max => encode_load_u32_table table max
  | SysColorBrush base => [0x48; 0xb8] ++ le_bytes 8 base ++ [0x48; 0x01; 0xc8; 0xc3]
  | GetCurrentDirectoryW blob => encode_get_current_directory_w blob
  | Initterm => encode_initterm false
  | InittermE => encode_initterm true
  end.
Definition needs_out_of_line_helper (k : GuestStubKind) : bool :=
  match k with
  | FlsGetValue _ _ | FlsSetValue _ _ | LoadU32FromTable _ _ | GetCurrentDirectoryW _ | Initterm | InittermE => true
  | _ => false
  end.
Definition needs_real_guest_addresses (k : GuestStubKind) : bool :=
  match k with
  | ReturnImm64 _ | LoadZx32FromVa _ | StoreEcxToVa _ | FlsGetValue _ _ | FlsSetValue _ _ | LoadU32FromTable _ _ | SysColorBrush _
  | GetCurrentDirectoryW _ => true
  | _ => false
  end.

(** ** Which calls have one *)

Definition CRT : u64 := 0x68000000.
Definition one_of (names : list str) (n : str) : bool := existsb (eq_ignore_ascii_case n) names.
(** The first row whose names contain [n]. *)
Definition first_row {A} (rows : list (list str * A)) (n : str) : option A := snd <$> List.find (λ r, one_of r.1 n) rows.

Definition crt_stubs : list (list str * GuestStubKind) :=
  [([ #"__acrt_iob_func"], AcrtIobFunc);
   ([ #"_initterm"], Initterm);
   ([ #"_initterm_e"], InittermE);
   ([ #"fflush"; #"setvbuf"; #"_crt_atexit"; #"_set_invalid_parameter_handler"; #"_set_app_type"; #"_set_new_mode";
      #"_configure_narrow_argv"; #"_initialize_narrow_environment"; #"__setusermatherr"; #"_configthreadlocale"; #"_cexit";
      #"signal"], ReturnZero);
   ([ #"__p__environ"], ReturnImm64 (CRT + 0x300));
   ([ #"__p___argv"], ReturnImm64 (CRT + 0x308));
   ([ #"__p___argc"], ReturnImm64 (CRT + 0x310));
   ([ #"__p__commode"], ReturnImm64 (CRT + 0x318));
   ([ #"__p__fmode"], ReturnImm64 (CRT + 0x320));
   ([ #"__p__acmdln"], ReturnImm64 (CRT + 0x328))].
Definition user32_stubs (cfg : GuestStubConfig) : list (list str * GuestStubKind) :=
  [([ #"GetSystemMetrics"], LoadU32FromTable (metrics_table_va cfg) (Z.of_nat METRICS_COUNT));
   ([ #"GetSysColor"], LoadU32FromTable (colors_table_va cfg) (Z.of_nat COLOR_COUNT));
   ([ #"GetSysColorBrush"], SysColorBrush FAKE_SYSCOLOR_BRUSH_BASE);
   ([ #"GetDesktopWindow"], ReturnImm64 FAKE_DESKTOP_WINDOW)].
Definition kernel32_stubs (cfg : GuestStubConfig) : list (list str * GuestStubKind) :=
  [([ #"EncodePointer"; #"DecodePointer"], IdentityRcxToRax);
   ([ #"GetLastError"], LoadZx32FromVa TEB_LAST_ERROR_VA);
   ([ #"SetLastError"], StoreEcxToVa TEB_LAST_ERROR_VA);
   ([ #"FlsGetValue"], FlsGetValue (fls_table_va cfg) GUEST_FLS_SLOT_COUNT);
   ([ #"FlsSetValue"], FlsSetValue (fls_table_va cfg) GUEST_FLS_SLOT_COUNT);
   ([ #"SetHandleCount"; #"OutputDebugStringA"; #"OutputDebugStringW"], VoidRet);
   ([ #"GetTickCount"], ReturnImm32 12345);
   ([ #"GetCurrentProcessId"], ReturnImm32 0x1234);
   ([ #"GetCurrentThreadId"], ReturnImm32 PRIMARY_THREAD_ID);
   ([ #"IsDebuggerPresent"], ReturnZero);
   ([ #"GetACP"], ReturnImm32 1252);
   ([ #"GetOEMCP"], ReturnImm32 437);
   ([ #"GetSystemDefaultLangID"; #"GetUserDefaultLangID"], ReturnImm32 LANG_EN_US);
   ([ #"GetCurrentProcess"], ReturnImm64 (u64_lim - 1));
   ([ #"GetProcessHeap"], ReturnImm64 0x50000000);
   ([ #"GetCommandLineA"], ReturnImm64 (command_line_a_va cfg));
   ([ #"GetCommandLineW"], ReturnImm64 (command_line_w_va cfg));
   ([ #"GetCurrentDirectoryW"], GetCurrentDirectoryW (cwd_blob_va cfg))].
Definition classify_guest_stub (library name : str) (cfg : GuestStubConfig) : option GuestStubKind :=
  if is_ucrt_library library then first_row crt_stubs name
  else if eq_ignore_ascii_case library (#"USER32.dll") then first_row (user32_stubs cfg) name
  else if eq_ignore_ascii_case library (#"KERNEL32.dll") || eq_ignore_ascii_case library (#"ntdll.dll")
  then first_row (kernel32_stubs cfg) name
  else None.

(** ** The data page *)

(** The copies of the tables of user32.rs. *)
Definition stub_system_metric (metric_index : u64) : u64 :=
  let among l := bool_decide (metric_index ∈ l) in
  if among [0; 16] then 1024 else if among [1] then 768 else if among [2; 3] then 17 else if among [4] then 23
  else if among [5; 6; 19; 80] then 1 else if among [7; 8; 32; 33; 36; 37] then 4
  else if decide (11 ≤ metric_index ≤ 14) then 32 else if among [15] then 20 else if among [17] then 728
  else if among [28; 34] then 112 else if among [29; 35] then 27 else if among [30; 31] then 18
  else if among [38; 39] then 75 else 0.
Definition fake_sys_color (color_index : u64) : u64 :=
  let among l := bool_decide (color_index ∈ l) in
  if among [1; 6; 7; 8; 9; 18] then 0 else if among [2; 13] then 0xd77830 else if among [3] then 0xbfbfbf
  else if among [5; 14] then 0xffffff else if among [10; 11] then 0xb4b4b4 else if among [12] then 0xababab
  else if among [16] then 0xa0a0a0 else if among [17] then 0x6d6d6d else if among [0] then 0xc8c8c8 else 0xf0f0f0.

(** The first [n] words of a table of 32-bit words. *)
Definition word_table (n : nat) (f : u64 → u64) : list u8 := concat ((λ i, le_bytes 4 (f (Z.of_nat i))) <$> seq 0 n).
Definition put_at (off : nat) (bs page : list u8) : list u8 := take off page ++ bs ++ drop (off + length bs) page.
Definition build_stub_data_page : list u8 :=
  put_at (Z.to_nat OFFSET_COLORS) (word_table COLOR_COUNT fake_sys_color)
    (put_at 0 (word_table METRICS_COUNT stub_system_metric) (replicate (Z.to_nat 0x500 + CWD_BLOB_SIZE) 0)).

Definition cwd_blob (directory : list char) : list u8 :=
  let units := take CWD_MAX_CHARS (encode_utf16 directory) in
  let bytes := le_bytes 4 (Z.of_nat (length units)) ++ unit_bytes (units ++ [0]) in
  bytes ++ replicate (CWD_BLOB_SIZE - length bytes) 0.

(** ** Import entries *)

Record RuntimeFakeApiEntry := mkFakeEntry {
  fe_target_va : u64;
  fe_library : str;
  fe_name : str;
  fe_iat_slot_va : u64;
  fe_winapi_id : option WinApiId;
  fe_traits : WinApiTraits;
  fe_stub_kind : option GuestStubKind;
}.
(** [entries] of a [SoftApiTable]. *)
Abbreviation SoftApiTable := (list RuntimeFakeApiEntry).

Definition exits_process (library name : str) : bool :=
  eq_ignore_ascii_case library (#"KERNEL32.dll") && eq_ignore_ascii_case name (#"ExitProcess")
  || is_ucrt_library library && one_of [ #"exit"; #"_exit"; #"abort"] name.
Definition make_entry (fake_target_va : u64) (library name : str) (iat_slot_va : u64) : RuntimeFakeApiEntry :=
  let winapi_id := resolve_winapi_id library name in
  let t := default EMPTY (traits <$> winapi_id) in
  let t := if exits_process library name then with_exit_process EMPTY else t in
  let stub_kind := classify_guest_stub library name CLASSIFY_ONLY in
  let t := if decide (is_Some stub_kind) then set_noisy true (set_guest_stub true t) else t in
  mkFakeEntry fake_target_va library name iat_slot_va winapi_id t stub_kind.

Definition same_import (library name : str) (e : RuntimeFakeApiEntry) : bool :=
  eq_ignore_ascii_case (fe_library e) library && eq_ignore_ascii_case (fe_name e) name.
(** [None]: the table is full. *)
Definition intern (library name : str) (iat_slot_va : u64) (soft : SoftApiTable) : SoftApiTable * option (u64 * RuntimeFakeApiEntry) :=
  match List.find (same_import library name) soft with
  | Some existing => (soft, Some (fe_target_va existing, existing))
  | None =>
      let idx := Z.of_nat (length soft) in
      if decide (0x8000 ≤ idx) then (soft, None)
      else
        let va := encode_unresolved idx in
        let entry := make_entry va library name iat_slot_va in
        (soft ++ [entry], Some (va, entry))
  end.
Definition resolve_import_fake_va (library name : str) (iat_slot_va : u64) (soft : SoftApiTable)
    : SoftApiTable * option (u64 * RuntimeFakeApiEntry) :=
  match resolve_winapi_id library name with
  | Some id => let va := encode_export id in (soft, Some (va, make_entry va library name iat_slot_va))
  | None => intern library name iat_slot_va soft
  end.

Record ResolvedFakeApi := mkResolved {
  rs_library : str;
  rs_name : str;
  rs_winapi_id : option WinApiId;
  rs_traits : WinApiTraits;
}.
Definition IDIRECT3D9_METHOD_NAMES : list str :=
  [ #"IDirect3D9::QueryInterface"; #"IDirect3D9::AddRef"; #"IDirect3D9::Release"; #"IDirect3D9::RegisterSoftwareDevice";
    #"IDirect3D9::GetAdapterCount"; #"IDirect3D9::GetAdapterIdentifier"; #"IDirect3D9::GetAdapterModeCount";
    #"IDirect3D9::EnumAdapterModes"; #"IDirect3D9::GetAdapterDisplayMode"; #"IDirect3D9::CheckDeviceType";
    #"IDirect3D9::CheckDeviceFormat"; #"IDirect3D9::CheckDeviceMultiSampleType"; #"IDirect3D9::CheckDepthStencilMatch";
    #"IDirect3D9::CheckDeviceFormatConversion"; #"IDirect3D9::GetDeviceCaps"; #"IDirect3D9::GetAdapterMonitor";
    #"IDirect3D9::CreateDevice"].
Definition decimal (n : Z) : str := String.list_ascii_of_string (pretty (Z.to_N n)).
Definition decimal3 (n : Z) : str := let d := decimal n in replicate (3 - length d) "0"%char ++ d.
Definition idirect3ddevice9_method_name (slot : Z) : str :=
  match List.find (λ r, bool_decide (r.1 = slot))
          [(2, #"Release"); (57, #"SetRenderState"); (67, #"SetTextureStageState"); (69, #"SetSamplerState"); (89, #"SetFVF");
           (92, #"SetVertexShader")] with
  | Some r => #"IDirect3DDevice9::" ++ r.2
  | None => #"IDirect3DDevice9::Slot" ++ decimal3 slot
  end.
Definition resolve_com (iface method : u8) : ResolvedFakeApi :=
  let name :=
    if decide (iface = COM_IFACE_IDIRECT3D9) then
      default (#"IDirect3D9::Slot" ++ decimal3 method) (IDIRECT3D9_METHOD_NAMES !! Z.to_nat method)
    else if decide (iface = COM_IFACE_IDIRECT3DDEVICE9) then idirect3ddevice9_method_name method
    else #"Com" ++ decimal iface ++ #"::Method" ++ decimal method in
  let library := #"D3D9.dll" in
  let winapi_id := resolve_winapi_id library name in
  mkResolved library name winapi_id (default EMPTY (traits <$> winapi_id)).
Definition resolve_fake_api_at (address : u64) (soft : SoftApiTable) : res (option ResolvedFakeApi) :=
  decoded ← fake_va.decode address;
  Ok (match decoded with
      | Some (Export id) | Some (Alias id) =>
          let '(lib, name) := default (#"unknown.dll", #"unknown") (winapi_id_export id) in
          Some (mkResolved lib name (Some id) (traits id))
      | Some (Unresolved index) =>
          e ← soft !! Z.to_nat index; Some (mkResolved (fe_library e) (fe_name e) (fe_winapi_id e) (fe_traits e))
      | Some (Com iface method) => Some (resolve_com iface method)
      | Some (Special _) | None => None
      end).
(** [seen.insert] of the set of addresses so far. *)
Fixpoint add_new (seen : list u64) (es : list RuntimeFakeApiEntry) : list RuntimeFakeApiEntry :=
  match es with
  | [] => []
  | e :: es => if bool_decide (fe_target_va e ∈ seen) then add_new seen es else e :: add_new (fe_target_va e :: seen) es
  end.
Definition collect_stub_entries (iat_entries : list RuntimeFakeApiEntry) (soft : SoftApiTable) : list RuntimeFakeApiEntry :=
  iat_entries ++ add_new (fe_target_va <$> iat_entries) soft.

(** ** Planting *)

Definition clear_bit (bit_index : Z) (bitmap : list u8) : list u8 :=
  alter (λ b, Z.land b (not_u 8 (Z.shiftl 1 (bit_index mod 8)))) (Z.to_nat (bit_index / 8)) bitmap.
Definition clear_bits (offset : Z) (n : nat) (bitmap : list u8) : list u8 :=
  foldl (λ b i, clear_bit (offset + Z.of_nat i) b) bitmap (seq 0 n).
Definition jmp_to (target : u64) : list u8 := [0x48; 0xb8] ++ le_bytes 8 target ++ [0xff; 0xe0].

Section Plant.
Context {E : Type} `{CpuMem E}.
Context (fake_api_base : u64) (fake_api_size : usize) (cfg : GuestStubConfig) (helper_code_base : u64) (helper_code_size : usize).

Definition publish_cwd_wide (directory : list char) : M E unit :=
  context "failed to publish guest cwd blob" (mem_write (cwd_blob_va cfg) (cwd_blob directory)).

(** The kind to plant: the cached one, or the one with the real addresses. *)
Definition real_kind (e : RuntimeFakeApiEntry) : option GuestStubKind :=
  kind ← fe_stub_kind e;
  if needs_real_guest_addresses kind then classify_guest_stub (fe_library e) (fe_name e) cfg else Some kind.

(** The bitmap and where the next body goes. *)
Definition plant_one (e : RuntimeFakeApiEntry) (state : list u8 * u64) : M E (list u8 * u64) :=
  let '(bitmap, helper_cursor) := state in
  match real_kind e with
  | None => mret state
  | Some kind =>
      let body := encode_stub kind in
      let va := fe_target_va e in
      if decide (va < fake_api_base) then mret state
      else
        let offset := va - fake_api_base in
        if needs_out_of_line_helper kind then
          let body_len := Z.of_nat (length body) in
          let helper_end := sat_add helper_code_base helper_code_size in
          match checked_add helper_cursor body_len with
          | Some stop =>
              if decide (helper_end < stop) then mret state
              else
                _ ← context "failed to write out-of-line guest stub body" (mem_write helper_cursor body);
                match checked_add offset 12 with
                | Some stop =>
                    if decide (fake_api_size < stop) then mret state
                    else
                      _ ← context "failed to write guest stub entry jmp" (mem_write va (jmp_to helper_cursor));
                      mret (clear_bits offset 12 bitmap, sat_add helper_cursor (Z.ldiff (sat_add body_len 15) 15))
                | None => mret state
                end
          | None => mret state
          end
        else
          match checked_add offset (Z.of_nat (length body)) with
          | Some stop =>
              if decide (fake_api_size < stop) then mret state
              else
                _ ← context "failed to write guest API stub bytes" (mem_write va body);
                mret (clear_bits offset (length body) bitmap, helper_cursor)
          | None => mret state
          end
  end.
Fixpoint plant_all (es : list RuntimeFakeApiEntry) (state : list u8 * u64) : M E (list u8 * u64) :=
  match es with [] => mret state | e :: es => state ← plant_one e state; plant_all es state end.
Definition plant_guest_stubs (entries : list RuntimeFakeApiEntry) : M E (list u8) :=
  let bitmap := replicate (Z.to_nat ((fake_api_size + 7) / 8)) 0xff in
  state ← plant_all entries (bitmap, helper_code_base);
  mret state.1.
End Plant.
