(* ===== verification/session.v ===== *)
(** * The session (crates/wie-runtime/src/session.rs, guest_callback.rs, mt_runtime.rs)

    The loop that runs a guest program: run the engine to the next host stop, find
    out what the stop means, answer it, and go on; the window procedures it calls on
    behalf of a handler; the last error it keeps in step with guest memory; and the
    same for a worker thread. *)

From S2P Require Import Prelude path utf regs insn engine exec_one iced_cpu cpu guest_heap guest_string sync_obj thread win32.
From S2P Require Import dispatch_table fake_va k32_thread k32_memory k32_string k32_dispatch seh user32 guest_stubs.

(** ** What the loop runs on *)

(** The engine's own loop, from an address to the next stop. *)
Class GuestRun (E : Type) := { run_guest : u64 → usize → M E RunUntilHook }.
(** The handlers, by identifier and by name. *)
Class Dispatch (E : Type) := {
  dispatch_id : WinApiId → M (UserApi E) HandlerOutcome;
  dispatch_name : str → str → M (UserApi E) HandlerOutcome;
}.

(** [Result] as a value: [None] for an error. *)
Definition tried {S A} (m : M S A) : M S (option A) := λ s,
  match m s with (s', Ok a) => (s', Ok (Some a)) | (s', Err _) => (s', Ok None) | (s', Abort w) => (s', Abort w) end.

(** ** Window procedures (guest_callback.rs) *)

Section Callback.
Context {E : Type} `{CpuMem E, !CpuMap E, !CpuRegs E, !CpuApi E}.

Definition install_guest_callback_frame (request : GuestCallbackRequest) (trampoline : u64) : M E u64 :=
  dispatch_rsp ← context "failed to read RSP before guest callback" (read_reg Rsp);
  frame_rsp ← some_ctx "guest callback stack frame underflow" (checked_sub dispatch_rsp 0x30);
  _ ← context "failed to write guest callback trampoline return address" (mem_write frame_rsp (le_bytes 8 trampoline));
  shadow_address ← some_ctx "guest callback shadow space address overflow" (checked_add frame_rsp 8);
  _ ← context "failed to clear guest callback shadow space" (mem_write shadow_address (replicate (Z.to_nat 0x20) 0));
  _ ← context "failed to set RSP for guest callback" (write_reg Rsp frame_rsp);
  _ ← context "failed to set RCX (hwnd) for guest callback" (write_reg Rcx (rq_window_handle request));
  _ ← context "failed to set RDX (message) for guest callback" (write_reg Rdx (rq_message request));
  _ ← context "failed to set R8 (wParam) for guest callback" (write_reg R8 (rq_word_parameter request));
  _ ← context "failed to set R9 (lParam) for guest callback" (write_reg R9 (rq_long_parameter request));
  _ ← context "failed to set RIP for guest callback" (write_reg Rip (callback_address request));
  mret dispatch_rsp.

Definition create_window_return_value (lresult : u64) (create_window_hwnd : option u64) : u64 :=
  match create_window_hwnd with
  | Some hwnd => if decide (as_i32 (mask32 lresult) = -1) then 0 else hwnd
  | None => lresult
  end.
(** The value and the address the outer call returns with. *)
Definition finish_guest_callback (dispatch_rsp : u64) (create_window_hwnd : option u64) : M E (u64 * u64) :=
  lresult ← context "failed to read LRESULT from guest callback" (read_reg Rax);
  let return_value := create_window_return_value lresult create_window_hwnd in
  _ ← context "failed to restore RSP for outer API completion" (write_reg Rsp dispatch_rsp);
  return_address ← context "failed to return from outer API after guest callback" (return_from_win64_api return_value);
  mret (return_value, return_address).
Definition create_window_hwnd_for_outer (outer_name : str) (window_handle : u64) : option u64 :=
  if one_of [ #"CreateWindowExA"; #"CreateWindowExW"] outer_name then Some window_handle else None.
End Callback.

(** ** The state of a session *)

Record RuntimeMemoryLayout := mkLayout {
  fake_api_base : u64;
  fake_api_size : usize;
  callback_return_trampoline : u64;
  instruction_budget : usize;
  no_hook_slice_limit : usize;
}.
Record PendingGuestCallback := mkCallback {
  pc_dispatch_rsp : u64;
  pc_request : GuestCallbackRequest;
  pc_outer_library : str;
  pc_outer_name : str;
  pc_outer_fake_va : u64;
  pc_create_window_hwnd : option u64;
}.
Record EntryTraceEvent := mkEvent {
  ev_index : usize;
  ev_library : str;
  ev_name : str;
  ev_fake_target_va : u64;
  ev_handled : bool;
  ev_return_value : option u64;
  ev_return_address : option u64;
}.
Inductive EntryTraceTermination :=
  | ExitProcess (code : u32)
  | UnsupportedApi (api : string)
  | RuntimeStop (text : string)
  | ApiLimit
  | WaitingForMessage.

(** The session, and the counters and events of the run in progress. *)
Record RuntimeSession (E : Type) := mkSession {
  process_state : UserApi E;
  next_api_index : usize;
  no_hook_slices : usize;
  pending_callbacks : list PendingGuestCallback;
  last_published_last_error : option u32;
  charged_api : usize;
  noisy_api : usize;
  events : list EntryTraceEvent;
  worker_joins : list u32;
}.
Arguments mkSession {E}.
Arguments process_state {E}.
Arguments next_api_index {E}.
Arguments no_hook_slices {E}.
Arguments pending_callbacks {E}.
Arguments last_published_last_error {E}.
Arguments charged_api {E}.
Arguments noisy_api {E}.
Arguments events {E}.
Arguments worker_joins {E}.

(** How one turn of the loop ends: [Waiting] when a wait without a timeout has
    not been answered in the slices looked at. *)
Inductive Quantum := GoOn | Parked | Waiting | Break (termination : EntryTraceTermination).

(** What ends a wait without a timeout, made in slices of 50 ms: of one object
    that it is signaled, of several any answer but a timeout. *)
Definition WAIT_SLICE_MS : u32 := 50.
Definition single_answer (r : u32) : bool := bool_decide (r = WAIT_OBJECT_0).
Definition multiple_answer (r : u32) : bool := bool_decide (r ≠ WAIT_TIMEOUT).

Section Session.
Context {E : Type} `{CpuMem E, !CpuMap E, !CpuRegs E, !CpuApi E, !GuestRun E, !Dispatch E}.
(** What is fixed for the process, and what the host does: whether a thread starts,
    what the other threads do while this one holds no lock, and how one wait of this
    thread with a timeout on the bodies of kernel objects ends, after what the
    others did meanwhile; [slices] bounds the slices of a wait without a timeout. *)
Context (layout : RuntimeMemoryLayout) (soft_apis : SoftApiTable) (entry_point_va : u64) (primary_tid : u32).
Context (thread_starts : PendingSpawn → bool).
Context (meanwhile : UserApi E → UserApi E).
Context (wait_for : list nat → bool → u32 → UserApi E → UserApi E * u32) (slices : nat).
Context (values : gmap u64 nat → list nat).
Implicit Types (s : RuntimeSession E).
Abbreviation SH := (M (RuntimeSession E)).

Definition set_process (p : UserApi E) s : RuntimeSession E :=
  mkSession p (next_api_index s) (no_hook_slices s) (pending_callbacks s) (last_published_last_error s) (charged_api s)
    (noisy_api s) (events s) (worker_joins s).
Definition set_index (n : usize) s : RuntimeSession E :=
  mkSession (process_state s) n (no_hook_slices s) (pending_callbacks s) (last_published_last_error s) (charged_api s)
    (noisy_api s) (events s) (worker_joins s).
Definition set_slices (n : usize) s : RuntimeSession E :=
  mkSession (process_state s) (next_api_index s) n (pending_callbacks s) (last_published_last_error s) (charged_api s)
    (noisy_api s) (events s) (worker_joins s).
Definition set_callbacks (l : list PendingGuestCallback) s : RuntimeSession E :=
  mkSession (process_state s) (next_api_index s) (no_hook_slices s) l (last_published_last_error s) (charged_api s)
    (noisy_api s) (events s) (worker_joins s).
Definition set_published (e : option u32) s : RuntimeSession E :=
  mkSession (process_state s) (next_api_index s) (no_hook_slices s) (pending_callbacks s) e (charged_api s) (noisy_api s)
    (events s) (worker_joins s).
Definition set_counts (charged noisy : usize) s : RuntimeSession E :=
  mkSession (process_state s) (next_api_index s) (no_hook_slices s) (pending_callbacks s) (last_published_last_error s)
    charged noisy (events s) (worker_joins s).
Definition set_events (l : list EntryTraceEvent) s : RuntimeSession E :=
  mkSession (process_state s) (next_api_index s) (no_hook_slices s) (pending_callbacks s) (last_published_last_error s)
    (charged_api s) (noisy_api s) l (worker_joins s).
Definition set_joins (l : list u32) s : RuntimeSession E :=
  mkSession (process_state s) (next_api_index s) (no_hook_slices s) (pending_callbacks s) (last_published_last_error s)
    (charged_api s) (noisy_api s) (events s) l.

Definition on_process {A} (m : M (UserApi E) A) : SH A := zoom process_state set_process m.
Definition on_api {A} (m : M (Api E) A) : SH A := on_process (process m).
Definition on_cpu {A} (m : M E A) : SH A := on_api (cpu m).
Definition get {A} (f : RuntimeSession E → A) : SH A := λ s, (s, Ok (f s)).
Definition change (f : RuntimeSession E → RuntimeSession E) : SH unit := λ s, (f s, Ok tt).
Definition win_of s : WinApiState := a_win (u_api (process_state s)).
Definition on_winapi (f : WinApiState → WinApiState) : SH unit := on_api (on_win f).
Definition charge : SH unit := change (λ s, set_counts (sat_add (charged_api s) 1) (noisy_api s) s).
Definition count_noisy : SH unit := change (λ s, set_counts (charged_api s) (sat_add (noisy_api s) 1) s).
Definition record (e : EntryTraceEvent) : SH unit := change (λ s, set_events (events s ++ [e]) s).
Definition stop (text : string) : SH Quantum := mret (Break (RuntimeStop text)).

(** The primary thread is the active one again. *)
Definition reclaim_primary : SH unit :=
  on_winapi (λ w, if decide (current_tid (w_threads w) ≠ primary_tid) then set_threads (activate primary_tid (w_threads w)) w else w).
Definition resume_primary : SH unit := on_winapi (λ w, set_threads (activate primary_tid (w_threads w)) w).

(** *** The last error *)

Definition publish_last_error_to_guest : SH unit :=
  err ← get (w_last_error ∘ win_of); published ← get last_published_last_error;
  if decide (published = Some err) then mret tt
  else
    ok ← tried (on_cpu (mem_write TEB_LAST_ERROR_VA (le_bytes 4 err)));
    match ok with Some _ => change (set_published (Some err)) | None => mret tt end.
Definition fetch_last_error : SH unit :=
  bytes ← tried (on_cpu (mem_read TEB_LAST_ERROR_VA 4%nat));
  match bytes with Some bs => on_winapi (set_last_error (le_val bs)) | None => mret tt end.

(** *** Threads *)

(** Every pending thread is started, up to the first that cannot be. *)
Fixpoint start_threads (spawns : list PendingSpawn) : SH unit :=
  match spawns with
  | [] => mret tt
  | p :: ps =>
      if thread_starts p then _ ← change (λ s, set_joins (worker_joins s ++ [ps_tid p]) s); start_threads ps
      else fail (Message "failed to spawn guest worker")
  end.
Definition drain_spawns : SH unit :=
  spawns ← get (pending_spawns ∘ w_sync ∘ win_of);
  _ ← on_winapi (λ w, set_sync (set_spawns [] (suspended_spawns (w_sync w)) (w_sync w)) w);
  start_threads spawns.

Definition set_dying (y : SyncState) : SyncState :=
  mkSync (next_handle y) (objects y) (arcs y) (thread_cpu y) (cs_waiters y) (next_cs_queue y) (next_stack_slot y)
    (pending_spawns y) (suspended_spawns y) (multi_wait y) true (function_tables y).
(** What a dying process does to each object a handle names. *)
Definition release_waiters (o : KernelObject) : KernelObject :=
  match o with
  | Event e => Event (event_set e)
  | Semaphore x => Semaphore x
  | Thread t => if is_finished t then Thread t else Thread (thread_finish 1 t)
  end.
Definition join_workers : SH unit :=
  _ ← on_winapi (λ w, let y := set_dying (w_sync w) in
         set_sync (set_arcs (foldr (alter release_waiters) (arcs y) (values (objects y))) y) w);
  _ ← on_process (λ u, (meanwhile u, Ok tt));
  change (set_joins []).

(** *** Callbacks *)

Definition begin_guest_callback (request : GuestCallbackRequest) (outer_library outer_name : str) (outer_fake_va : u64) : SH unit :=
  dispatch_rsp ← on_cpu (install_guest_callback_frame request (callback_return_trampoline layout));
  change (λ s, set_callbacks
    (mkCallback dispatch_rsp request outer_library outer_name outer_fake_va
       (create_window_hwnd_for_outer outer_name (rq_window_handle request)) :: pending_callbacks s) s).
(** The most recent one. *)
Definition complete_guest_callback : SH (PendingGuestCallback * u64 * u64) :=
  pending ← get pending_callbacks;
  match pending with
  | [] => fail (Message "callback trampoline hit without a pending guest callback")
  | p :: rest =>
      _ ← change (set_callbacks rest);
      r ← on_cpu (finish_guest_callback (pc_dispatch_rsp p) (pc_create_window_hwnd p));
      mret (p, r.1, r.2)
  end.

(** *** What a stop means *)

Definition event_of (index : usize) (r : ResolvedFakeApi) (va : u64) (handled : bool) (ret : option (u64 * u64)) : EntryTraceEvent :=
  mkEvent index (rs_library r) (rs_name r) va handled (fst <$> ret) (snd <$> ret).

Definition callback_returns (index : usize) : SH Quantum :=
  done ← tried complete_guest_callback;
  match done with
  | None => stop "failed to complete guest callback"
  | Some (p, v, ra) =>
      _ ← charge;
      _ ← record (mkEvent index (pc_outer_library p) (pc_outer_name p) (pc_outer_fake_va p) true (Some v) (Some ra));
      _ ← publish_last_error_to_guest;
      mret GoOn
  end.
Definition seh_continues (index : usize) (va : u64) : SH Quantum :=
  done ← tried (on_api continue_pending);
  match done with
  | Some (Return ra v) =>
      _ ← charge;
      _ ← record (mkEvent index (#"ntdll.dll") (#"SehContinue") va true (Some v) (Some ra));
      _ ← publish_last_error_to_guest;
      mret GoOn
  | _ => stop "failed to continue SEH sequence"
  end.

(** The wait of a parked call ends, and the call returns its result. *)
Definition end_wait (result : u32) : SH Quantum :=
  _ ← resume_primary;
  _ ← tried (on_cpu (return_from_win64_api result));
  _ ← charge;
  mret GoOn.
(** Slice after slice, with the threads created meanwhile started in between,
    until one answers or the process dies. *)
Fixpoint wait_slices (answers : u32 → bool) (targets : list nat) (wait_all : bool) (n : nat) : SH (option u32) :=
  match n with
  | O => mret None
  | S n =>
      r ← on_process (λ u, let '(u, r) := wait_for targets wait_all WAIT_SLICE_MS u in (u, Ok r));
      if answers r then mret (Some r)
      else
        _ ← tried drain_spawns;
        dying ← get (process_dying ∘ w_sync ∘ win_of);
        if (dying : bool) then mret (Some WAIT_FAILED) else wait_slices answers targets wait_all n
  end.
Definition wait_on (answers : u32 → bool) (targets : option (list nat)) (wait_all : bool) (timeout_ms : u32) : SH Quantum :=
  match targets with
  | None => end_wait WAIT_FAILED
  | Some ts =>
      if decide (timeout_ms = INFINITE) then
        result ← wait_slices answers ts wait_all slices;
        match result with Some r => end_wait r | None => mret Waiting end
      else
        result ← on_process (λ u, let '(u, r) := wait_for ts wait_all timeout_ms u in (u, Ok r));
        end_wait result
  end.
Definition park (reason : HostParkReason) : SH Quantum :=
  match reason with
  | CriticalSection cs =>
      _ ← on_winapi (λ w, set_sync (cs_queue cs (w_sync w)).1 w);
      _ ← on_process (λ u, (meanwhile u, Ok tt));
      _ ← resume_primary;
      _ ← change (λ s, set_index (sat_sub (next_api_index s) 1) s);
      mret Parked
  | WaitObject handle timeout_ms =>
      _ ← tried drain_spawns;
      y ← get (w_sync ∘ win_of);
      wait_on single_answer ((λ t, [t]) <$> wait_target y handle) true timeout_ms
  | WaitMultiple =>
      _ ← tried drain_spawns;
      y ← get (w_sync ∘ win_of);
      let req := multi_wait y !! primary_tid in
      _ ← on_winapi (λ w, set_sync (set_multi_wait (delete primary_tid (multi_wait (w_sync w))) (w_sync w)) w);
      wait_on multiple_answer (r ← req; wait_targets y (mw_handles r)) (default true (mw_wait_all <$> req)) (default 0 (mw_timeout_ms <$> req))
  end.

(** A call that is not answered in the loop itself. *)
Definition dispatched (index : usize) (va : u64) (r : ResolvedFakeApi) : SH Quantum :=
  outcome ← tried (on_process (match rs_winapi_id r with
                               | Some id => dispatch_id id
                               | None => dispatch_name (rs_library r) (rs_name r)
                               end));
  match outcome with
  | Some (Return ra v) =>
      _ ← (if noisy (rs_traits r) then count_noisy
           else _ ← charge; record (event_of index r va true (Some (v, ra))));
      _ ← publish_last_error_to_guest;
      mret GoOn
  | Some (Signal win32.WaitingForMessage) =>
      n ← get next_api_index;
      n ← lift (ok_or (checked_sub n 1) (Message "runtime API index underflow after message yield"));
      _ ← change (set_index n);
      mret (Break WaitingForMessage)
  | Some (Signal (GuestCallbackRequested request)) =>
      _ ← charge;
      _ ← record (event_of index r va true None);
      begun ← tried (begin_guest_callback request (rs_library r) (rs_name r) va);
      match begun with Some _ => mret GoOn | None => stop "failed to begin guest callback" end
  | Some (Signal (HostPark reason)) =>
      _ ← on_winapi (λ w, set_threads (save_active (w_threads w)) w);
      park reason
  | Some (Signal (ExitThread code)) => mret (Break (ExitProcess code))
  | None =>
      _ ← record (event_of index r va false None);
      mret (Break (UnsupportedApi "unsupported"))
  end.

(** A call answered by one handler, without an event; its error ends the run. *)
Definition quick (h : M (Api E) HandlerOutcome) (publish : bool) : SH Quantum :=
  _ ← on_api h;
  _ ← count_noisy;
  _ ← (if publish then publish_last_error_to_guest else mret tt);
  mret GoOn.
Definition resolved_call (index : usize) (va : u64) (r : ResolvedFakeApi) : SH Quantum :=
  _ ← fetch_last_error;
  if exit_process (rs_traits r) then
    exit_code_raw ← on_cpu (context "failed to read RCX for ExitProcess" (read_reg Rcx));
    _ ← record (event_of index r va true None);
    _ ← on_winapi (λ w, set_sync (set_dying (w_sync w)) w);
    mret (Break (ExitProcess (mask32 exit_code_raw)))
  else if fast_void_sync (rs_traits r) then
    quick (context "failed to return from fast synchronization API" (returned 0)) true
  else if decide (rs_winapi_id r = Some Kernel32Heapalloc) then quick handle_heap_alloc true
  else if decide (rs_winapi_id r = Some Kernel32Heapfree) then quick handle_heap_free true
  else if decide (rs_winapi_id r = Some Kernel32Multibytetowidechar) then quick handle_multi_byte_to_wide_char false
  else dispatched index va r.

Definition stopped_at (index : usize) (va : u64) : SH Quantum :=
  _ ← change (set_slices 0);
  if decide (va = callback_return_trampoline layout) then callback_returns index
  else if decide (va = seh_continue_trampoline_va) then seh_continues index va
  else
    r ← lift (resolve_fake_api_at va soft_apis);
    match r with
    | Some r => resolved_call index va r
    | None => stop "unresolved fake API"
    end.
Definition no_stop : SH Quantum :=
  n ← get no_hook_slices;
  n ← lift (ok_or (checked_add n 1) (Message "no-hook slice count overflow"));
  _ ← change (set_slices n);
  if decide (no_hook_slice_limit layout ≤ n) then stop "emulation stopped without hitting fake API hook" else mret GoOn.

(** *** One turn of the loop *)

Definition run_engine : SH (option RunUntilHook) :=
  current_rip ← on_cpu (context "failed to read RIP before runtime step" (read_reg Rip));
  let begin := if decide (current_rip = 0) then entry_point_va else current_rip in
  tried (on_cpu (run_guest begin (instruction_budget layout))).
Definition quantum : SH Quantum :=
  _ ← drain_spawns;
  index ← get next_api_index;
  next ← lift (ok_or (checked_add index 1) (Message "runtime API index overflow"));
  _ ← change (set_index next);
  _ ← reclaim_primary;
  hook_result ← run_engine;
  _ ← on_process (λ u, (meanwhile u, Ok tt));
  _ ← reclaim_primary;
  match hook_result with
  | None => stop "emulation error"
  | Some r =>
      if ia_hit (invalid_memory r) then stop "invalid memory"
      else if ch_hit (code r) then stopped_at index (ch_address (code r))
      else no_stop
  end.

(** The loop: [turns] bounds the turns, [parks] those in which the primary thread
    waits for a critical section.  The code has no such bounds: [StillParked] and
    [StillWaiting] are runs that have not left the waits of the loop yet. *)
Inductive RunEnd := Finished (termination : EntryTraceTermination) | OutOfTurns | StillParked | StillWaiting.
Fixpoint run_loop (max_api max_noisy_api : usize) (turns parks : nat) : SH RunEnd :=
  charged ← get charged_api; noisy ← get noisy_api;
  if decide (max_api ≤ charged) then mret (Finished ApiLimit)
  else if decide (max_noisy_api ≤ noisy) then mret (Finished ApiLimit)
  else
    match turns with
    | O => mret OutOfTurns
    | S turns =>
        q ← quantum;
        match q with
        | GoOn => run_loop max_api max_noisy_api turns parks
        | Waiting => mret StillWaiting
        | Parked => match parks with O => mret StillParked | S parks => run_loop max_api max_noisy_api turns parks end
        | Break t => mret (Finished t)
        end
    end.
Definition max_noisy (max_api : usize) : usize := Z.max (sat_mul max_api 50) (sat_add max_api 50000).
(** The termination, the events, and where the guest stopped. *)
Definition run_until_stop (max_api : usize) (turns parks : nat) : SH (RunEnd * u64 * u64) :=
  _ ← change (set_counts 0 0);
  _ ← change (set_events []);
  ended ← run_loop max_api (max_noisy max_api) turns parks;
  _ ← match ended with Finished (ExitProcess _) => join_workers | _ => mret tt end;
  final_rip ← on_cpu (context "failed to read final runtime RIP" (read_reg Rip));
  final_rsp ← on_cpu (context "failed to read final runtime RSP" (read_reg Rsp));
  mret (ended, final_rip, final_rsp).

Definition post_window_message (window_handle : u64) (message : u32) (word_parameter long_parameter : u64) : SH unit :=
  m ← get (messages ∘ u_state ∘ process_state);
  m ← lift (ok_or (push_message window_handle message word_parameter long_parameter m) (Message "runtime message timestamp overflow"));
  on_process (on_messages (λ _, m)).
End Session.

(** ** A worker thread (mt_runtime.rs)

    Its engine is its own; the rest of the process is shared with the other threads. *)

(** After a turn the thread is over, or runs on, or a wait without a timeout has
    not been answered in the slices looked at. *)
Inductive WorkerTurn := Over | Runs | Waits.

Section Worker.
Context {E : Type} `{CpuMem E, !CpuMap E, !CpuRegs E, !CpuApi E, !GuestRun E, !Dispatch E}.
Context (layout : RuntimeMemoryLayout) (soft_apis : SoftApiTable) (tid : u32).
Context (meanwhile : UserApi E → UserApi E).
Context (wait_for : list nat → bool → u32 → UserApi E → UserApi E * u32) (slices : nat).
Context (values : gmap u64 nat → list nat).
Abbreviation UH := (M (UserApi E)).

Definition others_run : UH unit := λ u, (meanwhile u, Ok tt).
Definition shared (f : WinApiState → WinApiState) : UH unit := process (on_win f).
Definition finish_tid (code : u32) : UH unit :=
  shared (λ w, match find_thread values tid (w_sync w) with
               | Some arc => set_sync (finish_arc code arc (w_sync w)) w
               | None => w
               end).
Definition ends_with (code : u32) : UH WorkerTurn := _ ← finish_tid code; mret Over.
Definition register_or_zero (r : Reg) : UH u64 := process (unwrap_or 0 (cpu (read_reg r))).
Definition activate_worker : UH unit := shared (λ w, set_threads (activate tid (w_threads w)) w).
Definition dying : UH bool := process (win (process_dying ∘ w_sync)).

Fixpoint worker_slices (answers : u32 → bool) (targets : list nat) (wait_all : bool) (n : nat) : UH (option u32) :=
  match n with
  | O => mret None
  | S n =>
      r ← ((λ u, let '(u, r) := wait_for targets wait_all WAIT_SLICE_MS u in (u, Ok r)) : UH u32);
      if answers r then mret (Some r)
      else
        over ← dying;
        if (over : bool) then _ ← finish_tid 1; mret (Some WAIT_FAILED) else worker_slices answers targets wait_all n
  end.
Definition worker_wait (answers : u32 → bool) (targets : option (list nat)) (wait_all : bool) (timeout_ms : u32) : UH WorkerTurn :=
  result ← (match targets with
            | None => mret (Some WAIT_FAILED)
            | Some ts =>
                if decide (timeout_ms = INFINITE) then worker_slices answers ts wait_all slices
                else λ u, let '(u, r) := wait_for ts wait_all timeout_ms u in (u, Ok (Some r))
            end : UH (option u32));
  match result with
  | None => mret Waits
  | Some r =>
      over ← dying;
      _ ← (if (over : bool) then finish_tid 1 else _ ← tried (on_guest (return_from_win64_api r)); mret tt);
      mret Runs
  end.
Definition handle_park (reason : HostParkReason) : UH WorkerTurn :=
  match reason with
  | CriticalSection cs => _ ← shared (λ w, set_sync (cs_queue cs (w_sync w)).1 w); _ ← others_run; mret Runs
  | WaitObject handle timeout_ms =>
      y ← process (win w_sync); worker_wait single_answer ((λ t, [t]) <$> wait_target y handle) true timeout_ms
  | WaitMultiple =>
      y ← process (win w_sync);
      let req := multi_wait y !! tid in
      _ ← shared (λ w, set_sync (set_multi_wait (delete tid (multi_wait (w_sync w))) (w_sync w)) w);
      worker_wait multiple_answer (r ← req; wait_targets y (mw_handles r)) (default true (mw_wait_all <$> req)) (default 0 (mw_timeout_ms <$> req))
  end.

Definition worker_call (r : ResolvedFakeApi) : UH WorkerTurn :=
  _ ← activate_worker;
  over ← dying;
  if (over : bool) then ends_with 1
  else if exit_process (rs_traits r) then
    _ ← shared (λ w, set_sync (set_dying (w_sync w)) w);
    rcx ← register_or_zero Rcx;
    ends_with (mask32 rcx)
  else
    outcome ← tried (match rs_winapi_id r with
                     | Some id => dispatch_id id
                     | None => dispatch_name (rs_library r) (rs_name r)
                     end);
    match outcome with
    | Some (Return _ _) => mret Runs
    | Some (Signal (ExitThread code)) => ends_with code
    | Some (Signal (HostPark reason)) => handle_park reason
    | _ => ends_with 1
    end.

(** The hooks of the layout go in, the context CreateThread recorded is loaded. *)
Definition worker_start (install_hooks : M E unit) : UH WorkerTurn :=
  installed ← tried (on_guest install_hooks);
  match installed with
  | None => ends_with 1
  | Some _ =>
      y ← process (win w_sync);
      _ ← match thread_cpu y !! tid with
          | Some ctx => on_guest (λ e, (restore_thread_context ctx e, Ok tt))
          | None => mret tt
          end;
      mret Runs
  end.
(** One turn of the worker's loop. *)
Definition worker_turn : UH WorkerTurn :=
  _ ← activate_worker;
  over ← dying;
  if (over : bool) then ends_with 1
  else
    begin ← register_or_zero Rip;
    if decide (begin = 0) then rax ← register_or_zero Rax; ends_with (mask32 rax)
    else
      run ← tried (on_guest (run_guest begin (instruction_budget layout)));
      _ ← others_run;
      match run with
      | None => ends_with 1
      | Some r =>
          rip_now ← register_or_zero Rip;
          if decide (rip_now = 0 ∨ ia_hit (invalid_memory r) = true ∧ ia_address (invalid_memory r) = 0) then
            rax ← register_or_zero Rax; ends_with (mask32 rax)
          else if ia_hit (invalid_memory r) then ends_with 1
          else if negb (ch_hit (code r)) then mret Runs
          else
            let va := ch_address (code r) in
            if decide (va = callback_return_trampoline layout) then mret Runs
            else if decide (va = seh_continue_trampoline_va) then
              _ ← activate_worker;
              done ← tried (process continue_pending);
              match done with Some (Return _ _) => mret Runs | _ => ends_with 1 end
            else
              resolved ← lift (resolve_fake_api_at va soft_apis);
              match resolved with Some r => worker_call r | None => ends_with 1 end
      end.
(** Turn after turn, at most [turns], until the thread is over or waits on. *)
Fixpoint worker_loop (turns : nat) : UH WorkerTurn :=
  match turns with
  | O => mret Runs
  | S turns => r ← worker_turn; match r with Runs => worker_loop turns | r => mret r end
  end.
Definition worker_main (install_hooks : M E unit) (turns : nat) : UH WorkerTurn :=
  r ← worker_start install_hooks;
  match r with Runs => worker_loop turns | r => mret r end.
End Worker.
