(* ===== verification/session_spec.v ===== *)
(** * The session against its specification

    A window procedure is entered as a Windows function is and its result becomes
    that of the call that asked for it; the loop comes to its end; the last error
    the guest reads is the host's while only the host writes it; an import's address
    leads back to its handler; the host takes over exactly where no code is planted. *)

From S2P Require Import Prelude path utf regs insn engine exec_one iced_cpu cpu guest_heap guest_string dll_spec sync_obj thread win32 win32_spec.
From S2P Require Import dispatch_table fake_va engine_safe k32_thread k32_memory k32_string k32_dispatch seh user32 guest_stubs session.

(** ** Registers *)

Lemma context_reg_set r v c : length (tc_gpr c) = 16%nat → context_reg r (set_context_reg r v c) = v.
Proof. intros Hl. destruct r; cbn [context_reg set_context_reg tc_gpr tc_rip]; [done|..]; by rewrite list_lookup_insert_eq by lia. Qed.
Lemma context_reg_set_ne r q v c : r ≠ q → context_reg r (set_context_reg q v c) = context_reg r c.
Proof. intros Hne. destruct r, q; try done; cbn [context_reg set_context_reg tc_gpr tc_rip]; by rewrite list_lookup_insert_ne. Qed.
Lemma set_context_reg_length r v c : length (tc_gpr (set_context_reg r v c)) = length (tc_gpr c).
Proof. destruct r; cbn [set_context_reg tc_gpr]; by rewrite ?length_insert. Qed.

Section Callbacks.
Context {E : Type} `{CpuApiLaws E, !GuestRun E, !Dispatch E}.
Context (layout : RuntimeMemoryLayout).
Implicit Types (e : E) (s : RuntimeSession E) (q : GuestCallbackRequest).

Abbreviation ctx e := (snapshot_thread_context e).
Lemma write_reg_step {B} r v text e (k : unit → M E B) : mem_inv e →
  ∃ e', (context text (write_reg r v) ≫= k) e = k tt e' ∧ ctx e' = set_context_reg r v (ctx e) ∧ unchanged e e'.
Proof.
  intros Hi. destruct (write_reg_context e r v) as (e' & Hw & Hc & Hu). exists e'. specialize (Hu Hi).
  split; [|done]. by erewrite bind_ok by (apply context_ok; exact Hw).
Qed.

(** The registers at the entry of a window procedure. *)
Definition entered q (sp : Z) (c : ThreadContext) : ThreadContext :=
  set_context_reg Rip (callback_address q) (set_context_reg R9 (rq_long_parameter q) (set_context_reg R8 (rq_word_parameter q)
    (set_context_reg Rdx (rq_message q) (set_context_reg Rcx (rq_window_handle q) (set_context_reg Rsp (sp - 0x30) c))))).

Lemma write_regs_ok (l : list (Reg * u64 * string)) (A : Type) (a : A) : ∀ e, mem_inv e →
  ∃ e', (foldr (λ r k, _ ← context r.2 (write_reg r.1.1 r.1.2); k) (mret a) l : M E A) e = (e', Ok a) ∧
    ctx e' = foldl (λ c r, set_context_reg r.1.1 r.1.2 c) (ctx e) l ∧ unchanged e e'.
Proof.
  induction l as [|[[r v] t] l IH]; intros e Hi; cbn [foldr foldl fst snd].
  - exists e. split; [done|]. split; [done|by apply unchanged_refl].
  - destruct (write_reg_step r v t e (λ _, foldr (λ r k, _ ← context r.2 (write_reg r.1.1 r.1.2); k) (mret a) l) Hi)
      as (e1 & Hr & Hc & Hu). destruct (IH e1 (un_inv _ _ Hu)) as (e2 & Hr2 & Hc2 & Hu2).
    exists e2. rewrite Hr, Hr2, Hc2, Hc. split; [done|]. split; [done|by eapply unchanged_trans].
Qed.

Lemma install_ok q trampoline e sp : mem_inv e → context_reg Rsp (ctx e) = sp → 0x30 ≤ sp → in_u64 sp →
  accessible e (sp - 0x30) 0x30 → length (tc_gpr (ctx e)) = 16%nat → in_u64 trampoline →
  ∃ e', install_guest_callback_frame q trampoline e = (e', Ok sp) ∧ ctx e' = entered q sp (ctx e) ∧
    call_frame e' (sp - 0x30) trampoline ∧ holds e' (sp - 0x28) (replicate 32 0) ∧ framed (sp - 0x30) (sp - 8) e e'.
Proof.
  intros Hi Hsp Hlow Hu Hacc Hl Ht. unfold install_guest_callback_frame, in_u64 in *.
  erewrite bind_ok by (apply context_ok, read_reg_context). rewrite Hsp.
  erewrite bind_ok by (unfold checked_sub; rewrite decide_True by lia; reflexivity).
  destruct (write_spec e (sp - 0x30) (le_bytes 8 trampoline) (sp - 0x30) sp Hi) as (e1 & Hw1 & Hi1 & Hacc1 & Hh1 & Hf1);
    [by replace (sp - (sp - 0x30)) with 0x30 by lia|lia|rewrite length_le_bytes; lia|].
  pose proof (mem_write_context (sp - 0x30) (le_bytes 8 trampoline) e) as Hc1. rewrite Hw1 in Hc1. cbn [fst] in Hc1.
  erewrite bind_ok by (apply context_ok; exact Hw1).
  erewrite bind_ok by (unfold checked_add; rewrite decide_True by lia; reflexivity).
  replace (sp - 0x30 + 8) with (sp - 0x28) by lia.
  destruct (write_spec e1 (sp - 0x28) (replicate 32 0) (sp - 0x30) sp Hi1 Hacc1) as (e2 & Hw2 & Hi2 & Hacc2 & Hh2 & Hf2);
    [lia|rewrite length_replicate; lia|].
  pose proof (mem_write_context (sp - 0x28) (replicate 32 0) e1) as Hc2. rewrite Hw2 in Hc2. cbn [fst] in Hc2.
  erewrite bind_ok by (apply context_ok; exact Hw2).
  destruct (write_regs_ok [(Rsp, sp - 0x30, "failed to set RSP for guest callback");
    (Rcx, rq_window_handle q, "failed to set RCX (hwnd) for guest callback"); (Rdx, rq_message q, "failed to set RDX (message) for guest callback");
    (R8, rq_word_parameter q, "failed to set R8 (wParam) for guest callback"); (R9, rq_long_parameter q, "failed to set R9 (lParam) for guest callback");
    (Rip, callback_address q, "failed to set RIP for guest callback")] Z sp e2 Hi2) as (e3 & Hr3 & Hc3 & Hu3).
  rewrite length_le_bytes, length_replicate in *.
  assert (Hctx : ctx e3 = entered q sp (ctx e)) by (rewrite Hc3, Hc2, Hc1; done).
  assert (Hf : framed (sp - 0x30) (sp - 8) e e3).
  { eapply framed_trans; [eapply framed_weaken; [exact Hf1|lia|lia]|].
    eapply framed_trans; [eapply framed_weaken; [exact Hf2|lia|lia]|by apply framed_unchanged]. }
  exists e3. split; [exact Hr3|]. split; [exact Hctx|]. split; [split|split; [by eapply holds_unchanged|done]].
  - apply Hu3.
  - rewrite Hctx. unfold entered. rewrite !context_reg_set_ne by done. by rewrite context_reg_set.
  - eapply accessible_unchanged; [exact Hu3|]. eapply accessible_sub; [exact Hacc2|lia..].
  - eapply holds_unchanged; [exact Hu3|]. eapply holds_framed; [exact Hf2|done|rewrite length_le_bytes; lia].
  - done.
Qed.

Lemma callback_finish_ok e sp ra hwnd : mem_inv e → accessible e sp 8 → in_u64 ra → holds e sp (le_bytes 8 ra) →
  length (tc_gpr (ctx e)) = 16%nat →
  let v := create_window_return_value (context_reg Rax (ctx e)) hwnd in
  ∃ e', finish_guest_callback sp hwnd e = (e', Ok (v, ra)) ∧
    ctx e' = returned_context v ra (set_context_reg Rsp sp (ctx e)) ∧ unchanged e e'.
Proof.
  intros Hi Hacc Hu Hra Hl v. unfold finish_guest_callback. erewrite bind_ok by (apply context_ok, read_reg_context). fold v.
  destruct (write_reg_step Rsp sp "failed to restore RSP for outer API completion" e
    (λ _, return_address ← context "failed to return from outer API after guest callback" (return_from_win64_api v); mret (v, return_address)) Hi)
    as (e1 & Hr & Hc & Hu1). cbv zeta. rewrite Hr.
  assert (Hsp : context_reg Rsp (ctx e1) = sp) by (by rewrite Hc, context_reg_set).
  destruct (return_ok e1 v ra (un_inv _ _ Hu1)) as (e2 & Hr2 & Hu2).
  { rewrite Hsp. by eapply accessible_unchanged. }
  { done. }
  { rewrite Hsp. by eapply holds_unchanged. }
  erewrite bind_ok by (apply context_ok; exact Hr2). exists e2. split; [done|].
  pose proof (return_context e1 v) as Hc2. rewrite Hr2 in Hc2. cbn [fst snd] in Hc2. rewrite Hc2, Hc.
  split; [done|by eapply unchanged_trans].
Qed.

(** *** In the session *)

Definition engine_of s : E := a_cpu (u_api (process_state s)).
Definition with_engine e s : RuntimeSession E :=
  set_process (mkUser (mkApi e (a_win (u_api (process_state s)))) (u_state (process_state s))) s.
Lemma with_engine_id s : with_engine (engine_of s) s = s.
Proof. by destruct s as [[[? ?] ?] ? ? ? ? ? ? ? ?]. Qed.
Lemma on_cpu_ok {A} (m : M E A) s e a : m (engine_of s) = (e, Ok a) → on_cpu m s = (with_engine e s, Ok a).
Proof. intros Hm. unfold on_cpu, on_api, on_process, process, zoom. by erewrite cpu_ok by exact Hm. Qed.

(** What the outer call returns for the procedure's result: CreateWindowEx the
    handle of the window, or 0 when WM_CREATE was answered with -1 (in its low 32
    bits); any other call the result itself. *)
Definition outer_result (name : str) (window result : u64) : u64 :=
  if one_of [ #"CreateWindowExA"; #"CreateWindowExW"] name
  then if decide (result mod 2 ^ 32 = 2 ^ 32 - 1) then 0 else window else result.
Lemma outer_result_ok name window result : in_u64 result →
  create_window_return_value result (create_window_hwnd_for_outer name window) = outer_result name window result.
Proof.
  intros Hu. unfold create_window_hwnd_for_outer, outer_result. destruct (one_of _ name); [|done]. cbn [create_window_return_value].
  assert (Hm : mask32 result = result mod 2 ^ 32) by (unfold mask32; change 0xffffffff with (Z.ones 32); by rewrite Z.land_ones).
  rewrite Hm. pose proof (Z.mod_pos_bound result (2 ^ 32) ltac:(lia)).
  unfold as_i32. repeat case_decide; try done; lia.
Qed.

(** C20 A window procedure called for a handler is called as
    Windows would: at its address, with the window, the message and its two
    parameters in RCX, RDX, R8 and R9, on a frame with 32 bytes of home space below
    the frame of the outer call, which stays as it is, and with a return address
    that stops the host; when it stops the host there, and the outer call's frame is
    still in memory, the outer call returns to its caller.  What it returns is the
    procedure's result, but for CreateWindowExA and CreateWindowExW: these return the
    handle of the window, or 0 when the low half of the result is -1.  Calls nest:
    the session remembers them as a stack. *)
Theorem window_procedure_called s q library name va sp ra :
  call_frame (engine_of s) sp ra → 0x30 ≤ sp → in_u64 sp → accessible (engine_of s) (sp - 0x30) 0x30 →
  length (tc_gpr (ctx (engine_of s))) = 16%nat → in_u64 (callback_return_trampoline layout) →
  let p := mkCallback sp q library name va (create_window_hwnd_for_outer name (rq_window_handle q)) in
  ∃ e', begin_guest_callback layout q library name va s =
          (set_callbacks (p :: pending_callbacks s) (with_engine e' s), Ok tt) ∧
    ctx e' = entered q sp (ctx (engine_of s)) ∧ call_frame e' (sp - 0x30) (callback_return_trampoline layout) ∧
    holds e' (sp - 0x28) (replicate 32 0) ∧ framed (sp - 0x30) (sp - 8) (engine_of s) e' ∧ holds e' sp (le_bytes 8 ra) ∧
    ∀ s2, pending_callbacks s2 = p :: pending_callbacks s →
      mem_inv (engine_of s2) → accessible (engine_of s2) sp 8 → holds (engine_of s2) sp (le_bytes 8 ra) →
      length (tc_gpr (ctx (engine_of s2))) = 16%nat → in_u64 (context_reg Rax (ctx (engine_of s2))) →
      let v := outer_result name (rq_window_handle q) (context_reg Rax (ctx (engine_of s2))) in
      ∃ e2, complete_guest_callback s2 = (with_engine e2 (set_callbacks (pending_callbacks s) s2), Ok (p, v, ra)) ∧
        ctx e2 = returned_context v ra (set_context_reg Rsp sp (ctx (engine_of s2))) ∧ unchanged (engine_of s2) e2.
Proof.
  intros [Hi Hsp Hacc Hra Hu] Hlow Husp Hframe Hl Ht p.
  destruct (install_ok q (callback_return_trampoline layout) (engine_of s) sp Hi Hsp Hlow Husp Hframe Hl Ht)
    as (e' & Hr & Hc & Hcf & Hhome & Hf).
  exists e'. split.
  { unfold begin_guest_callback. erewrite bind_ok by (apply on_cpu_ok; exact Hr). reflexivity. }
  split; [done|]. split; [done|]. split; [done|]. split; [done|].
  split; [eapply holds_framed; [exact Hf|done|right; lia]|].
  intros s2 Hp Hi2 Hacc2 Hra2 Hl2 Hax v.
  destruct (callback_finish_ok (engine_of s2) sp ra (pc_create_window_hwnd p) Hi2 Hacc2 Hu Hra2 Hl2) as (e2 & Hr2 & Hc2 & Hu2).
  cbn [pc_create_window_hwnd p] in Hr2, Hc2. rewrite outer_result_ok in Hr2, Hc2 by done. fold v in Hr2, Hc2.
  exists e2. split; [|done]. unfold complete_guest_callback.
  erewrite bind_ok by reflexivity. rewrite Hp. erewrite bind_ok by reflexivity.
  erewrite bind_ok by (apply on_cpu_ok; exact Hr2). reflexivity.
Qed.
End Callbacks.

(** ** The last error *)

Section LastError.
Context {E : Type} `{CpuApiLaws E, !GuestRun E, !Dispatch E}.
Implicit Types (e : E) (s : RuntimeSession E).

(** What the session believes it published is in guest memory. *)
Definition published_ok s : Prop :=
  ∀ err, last_published_last_error s = Some err → holds (engine_of s) TEB_LAST_ERROR_VA (le_bytes 4 err).
Lemma tried_ok {X A} (m : M X A) (x x' : X) a : m x = (x', Ok a) → tried m x = (x', Ok (Some a)).
Proof. intros Hm. unfold tried. by rewrite Hm. Qed.

(** As long as guest memory holds the last error the session
    published last, publishing makes the word GetLastError reads in the guest that
    of the host, whether it writes it or not, keeps the belief true, and changes
    nothing else; and when the host takes it back at the next call it is the same. *)
Theorem last_error_published s : mem_inv (engine_of s) → accessible (engine_of s) TEB_LAST_ERROR_VA 4 → published_ok s →
  0 ≤ w_last_error (win_of s) < u32_lim →
  ∃ e' p, publish_last_error_to_guest s = (set_published p (with_engine e' s), Ok tt) ∧
    holds e' TEB_LAST_ERROR_VA (le_bytes 4 (w_last_error (win_of s))) ∧
    framed TEB_LAST_ERROR_VA (TEB_LAST_ERROR_VA + 4) (engine_of s) e' ∧ published_ok (set_published p (with_engine e' s)) ∧
    ∃ e2, fetch_last_error (set_published p (with_engine e' s)) = (set_published p (with_engine e2 s), Ok tt) ∧ unchanged e' e2.
Proof.
  intros Hi Hacc Hok Hrange. unfold publish_last_error_to_guest. erewrite bind_ok by reflexivity. erewrite bind_ok by reflexivity.
  cbn [compose]. set (err := w_last_error (win_of s)) in *.
  assert (Hgo : ∀ e' p, mem_inv e' → framed TEB_LAST_ERROR_VA (TEB_LAST_ERROR_VA + 4) (engine_of s) e' →
            holds e' TEB_LAST_ERROR_VA (le_bytes 4 err) →
            ∃ e2, fetch_last_error (set_published p (with_engine e' s)) = (set_published p (with_engine e2 s), Ok tt) ∧ unchanged e' e2).
  { intros e' p Hi' Hf Hh. destruct (mem_read_holds e' TEB_LAST_ERROR_VA (le_bytes 4 err) Hi') as (e2 & Hr & Hu);
      [rewrite length_le_bytes; by eapply accessible_framed|done|]. rewrite length_le_bytes in Hr.
    exists e2. split; [|done]. unfold fetch_last_error.
    erewrite bind_ok by (apply tried_ok, on_cpu_ok; exact Hr). cbv beta iota. rewrite le_val_word by lia.
    unfold err, win_of. destruct s as [[[? []] ?] ? ? ? ? ? ? ? ?]. reflexivity. }
  destruct (decide _) as [Hp|Hp].
  - exists (engine_of s), (last_published_last_error s).
    assert (Hid : set_published (last_published_last_error s) (with_engine (engine_of s) s) = s) by (rewrite with_engine_id; by destruct s).
    rewrite Hid. split; [done|]. split; [by apply Hok|]. split; [apply framed_refl|]. split; [done|].
    destruct (Hgo (engine_of s) (last_published_last_error s) Hi (framed_refl _ _ _) (Hok _ Hp)) as (e2 & Hr & Hu).
    rewrite Hid in Hr. by exists e2.
  - destruct (write_spec (engine_of s) TEB_LAST_ERROR_VA (le_bytes 4 err) TEB_LAST_ERROR_VA (TEB_LAST_ERROR_VA + 4) Hi)
      as (e' & Hw & Hi' & _ & Hh & Hf); [by replace (TEB_LAST_ERROR_VA + 4 - TEB_LAST_ERROR_VA) with 4 by lia|lia|rewrite length_le_bytes; lia|].
    rewrite length_le_bytes in Hf. exists e', (Some err).
    split; [by erewrite bind_ok by (apply tried_ok, on_cpu_ok; exact Hw)|]. split; [done|]. split; [done|].
    split; [by intros err' [= <-]|]. by apply Hgo.
Qed.

(** The belief is not checked: when the guest has stored another value since, as the
    planted SetLastError does, an error the host has published before is not
    published again, and GetLastError goes on reading the guest's. *)
Lemma stale_last_error s : last_published_last_error s = Some (w_last_error (win_of s)) →
  publish_last_error_to_guest s = (s, Ok tt).
Proof.
  intros Hp. unfold publish_last_error_to_guest. erewrite bind_ok by reflexivity. erewrite bind_ok by reflexivity.
  cbn [compose]. by rewrite decide_True.
Qed.
End LastError.

(** ** The loop comes to its end *)

Section Loop.
Context {E : Type} `{CpuMem E, !CpuMap E, !CpuRegs E, !CpuApi E, !GuestRun E, !Dispatch E}.
Context (layout : RuntimeMemoryLayout) (soft_apis : SoftApiTable) (entry_point_va : u64) (primary_tid : u32).
Context (thread_starts : PendingSpawn → bool) (meanwhile : UserApi E → UserApi E).
Context (wait_for : list nat → bool → u32 → UserApi E → UserApi E * u32) (slices : nat) (values : gmap u64 nat → list nat).
Implicit Types (s : RuntimeSession E).
Abbreviation SH := (M (RuntimeSession E)).

Definition counts s : usize * usize * usize := (charged_api s, noisy_api s, no_hook_slices s).
Definition calm {A} (m : SH A) : Prop := ∀ s, counts (m s).1 = counts s.
Definition after {A} (m : SH A) s (P : RuntimeSession E → A → Prop) : Prop := match m s with (s', Ok a) => P s' a | _ => True end.

Lemma calm_ret {A} (a : A) : calm (mret a).
Proof. done. Qed.
Lemma calm_lift {A} (r : res A) : calm (lift r).
Proof. done. Qed.
Lemma calm_get {A} (f : RuntimeSession E → A) : calm (get f).
Proof. done. Qed.
Lemma calm_process {A} (m : M (UserApi E) A) : calm (on_process m).
Proof. intros s. unfold on_process, zoom. by destruct (m _). Qed.
Lemma calm_bind {A B} (m : SH A) (f : A → SH B) : calm m → (∀ a, calm (f a)) → calm (m ≫= f).
Proof.
  intros Hm Hf s. specialize (Hm s). unfold mbind, M_bind. destruct (m s) as [s' [a|e|w]]; [|done..]. by rewrite Hf.
Qed.
Lemma calm_tried {A} (m : SH A) : calm m → calm (tried m).
Proof. intros Hm s. specialize (Hm s). unfold tried. by destruct (m s) as [s' [a|e|w]]. Qed.
Lemma calm_change f : (∀ s, counts (f s) = counts s) → calm (change f).
Proof. intros Hf s. apply Hf. Qed.
Lemma calm_spawns l : calm (start_threads thread_starts l).
Proof.
  induction l as [|p l IH]; cbn [start_threads]; [apply calm_ret|]. destruct (thread_starts p); [|apply calm_lift].
  apply calm_bind; [by apply calm_change|intros _; exact IH].
Qed.

Lemma after_bind {A B} (m : SH A) (f : A → SH B) s P : after m s (λ s' a, after (f a) s' P) → after (m ≫= f) s P.
Proof. unfold after, mbind, M_bind. by destruct (m s) as [s' [a|e|w]]. Qed.
Lemma after_keeps {A} (m : SH A) s (P : RuntimeSession E → A → Prop) : calm m → (∀ s' a, counts s' = counts s → P s' a) → after m s P.
Proof. intros Hm HP. specialize (Hm s). unfold after. destruct (m s) as [s' [a|e|w]]; [by apply HP|done..]. Qed.
Lemma after_then {A B} (m : SH A) (f : A → SH B) s P : calm m → (∀ s' a, counts s' = counts s → after (f a) s' P) → after (m ≫= f) s P.
Proof. intros Hm Hf. by apply after_bind, after_keeps. Qed.
Lemma after_ret {A} (a : A) s (P : RuntimeSession E → A → Prop) : P s a → after (mret a) s P.
Proof. done. Qed.

(** What a turn may do to the counters. *)
Definition counted s s' : Prop :=
  no_hook_slices s' = no_hook_slices s ∧
  (charged_api s' = charged_api s + 1 ∧ noisy_api s' = noisy_api s ∨ charged_api s' = charged_api s ∧ noisy_api s' = noisy_api s + 1).
Definition turned s s' (q : Quantum) : Prop :=
  match q with GoOn => counted s s' | Parked => counts s' = counts s | Waiting | Break _ => True end.
Definition small s : Prop := charged_api s < u64_lim - 1 ∧ noisy_api s < u64_lim - 1.
Lemma small_counts s s' : counts s' = counts s → small s → small s'.
Proof. unfold counts, small. intros [= -> -> _]. done. Qed.
Lemma counted_counts s0 s s1 : counts s = counts s0 → counted s s1 → counted s0 s1.
Proof. unfold counts, counted. intros [= -> -> ->]. done. Qed.
Lemma turned_counts s0 s s1 q : counts s = counts s0 → turned s s1 q → turned s0 s1 q.
Proof. intros Hc. destruct q; [by apply counted_counts|cbn; congruence|done..]. Qed.
(** Nothing more is counted. *)
Definition settled s s' (q : Quantum) : Prop := match q with GoOn => counts s' = counts s | Parked => False | Waiting | Break _ => True end.
Lemma after_count {A} (m : SH A) (f : A → SH Quantum) s :
  after m s (λ s' _, counted s s') → (∀ s' a, after (f a) s' (settled s')) → after (m ≫= f) s (turned s).
Proof.
  intros Hm Hf. apply after_bind. unfold after in *. destruct (m s) as [s' [a|e|w]]; [|done..]. specialize (Hf s' a).
  destruct (f a s') as [s1 [[| | |t]|e|w]]; [|done..]. unfold settled, turned, counted, counts in *.
  injection Hf as -> -> ->. exact Hm.
Qed.
Lemma charge_counts s : small s → after charge s (λ s' _, counted s s').
Proof. intros [Hc Hn]. split; [done|]. left. split; [|done]. cbn. unfold sat_add. lia. Qed.
Lemma noisy_counts s : small s → after count_noisy s (λ s' _, counted s s').
Proof. intros [Hc Hn]. split; [done|]. right. split; [done|]. cbn. unfold sat_add. lia. Qed.
Lemma after_settled {A} (m : SH A) (f : A → SH Quantum) s : calm m → (∀ s' a, after (f a) s' (settled s')) → after (m ≫= f) s (settled s).
Proof.
  intros Hm Hf. apply after_then; [done|]. intros s' a Hc. specialize (Hf s' a). unfold after in *.
  destruct (f a s') as [s1 [[| | |t]|e|w]]; [|done..]. cbn in *. congruence.
Qed.
Lemma after_turned {A} (m : SH A) (f : A → SH Quantum) s : small s → calm m →
  (∀ s' a, small s' → after (f a) s' (turned s')) → after (m ≫= f) s (turned s).
Proof.
  intros Hs Hm Hf. apply after_then; [done|]. intros s' a Hc. specialize (Hf s' a (small_counts _ _ Hc Hs)). unfold after in *.
  destruct (f a s') as [s1 [q|e|w]]; [|done..]. by eapply turned_counts.
Qed.
End Loop.

Ltac keep :=
  repeat first [
    lazymatch goal with
    | |- calm (mret _) => apply calm_ret
    | |- calm (lift _) => apply calm_lift
    | |- calm (fail _) => apply calm_lift
    | |- calm (get _) => apply calm_get
    | |- calm (on_process _) => apply calm_process
    | |- calm (change _) => apply calm_change; intros ?; done
    | |- calm (tried _) => apply calm_tried
    | |- calm (start_threads _ _) => apply calm_spawns
    | |- calm (mbind _ _) => apply calm_bind; [|intros ?]
    | |- calm (if ?d then _ else _) => destruct d
    | |- calm (match ?d with _ => _ end) => destruct d
    end
  | progress unfold on_cpu, on_api, on_winapi, record, publish_last_error_to_guest, fetch_last_error, drain_spawns, resume_primary,
      reclaim_primary, begin_guest_callback, complete_guest_callback, run_engine ].
Ltac settle :=
  repeat lazymatch goal with
  | |- after (mret _) _ _ => first [exact I|reflexivity]
  | |- after (stop _) _ _ => exact I
  | |- after (mbind _ _) _ (settled _) => apply after_settled; [keep|intros ? ?]
  | |- after (match ?d with _ => _ end) _ _ => destruct d
  | |- after (if ?d then _ else _) _ _ => destruct d
  end.

Section Turns.
Context {E : Type} `{CpuMem E, !CpuMap E, !CpuRegs E, !CpuApi E, !GuestRun E, !Dispatch E}.
Context (layout : RuntimeMemoryLayout) (soft_apis : SoftApiTable) (entry_point_va : u64) (primary_tid : u32).
Context (thread_starts : PendingSpawn → bool) (meanwhile : UserApi E → UserApi E).
Context (wait_for : list nat → bool → u32 → UserApi E → UserApi E * u32) (slices : nat) (values : gmap u64 nat → list nat).
Implicit Types (s : RuntimeSession E).

Lemma callback_turned index s : small s → after (callback_returns index) s (turned s).
Proof.
  intros Hs. unfold callback_returns. apply after_turned; [done|keep|]. intros s1 [[[p v] ra]|] Hs1; [|done].
  apply after_count; [by apply charge_counts|]. intros s2 []. settle.
Qed.
Lemma seh_turned index va s : small s → after (seh_continues index va) s (turned s).
Proof.
  intros Hs. unfold seh_continues. apply after_turned; [done|keep|]. intros s1 [[ra v|x]|] Hs1; [|done..].
  apply after_count; [by apply charge_counts|]. intros s2 []. settle.
Qed.
Lemma end_wait_turned result s : small s → after (end_wait primary_tid result) s (turned s).
Proof.
  intros Hs. unfold end_wait. do 2 (apply after_turned; [done|keep|]; clear s Hs; intros s ? Hs).
  apply after_count; [by apply charge_counts|]. intros s2 []. settle.
Qed.
Lemma calm_drain : calm (E := E) (drain_spawns thread_starts).
Proof. unfold drain_spawns. keep. Qed.
Lemma calm_slices answers targets wait_all n : calm (wait_slices thread_starts wait_for answers targets wait_all n).
Proof.
  induction n as [|n IH]; cbn [wait_slices]; [apply calm_ret|]. apply calm_bind; [apply calm_process|]. intros r.
  destruct (answers r); [apply calm_ret|]. apply calm_bind; [apply calm_tried, calm_drain|intros _].
  apply calm_bind; [apply calm_get|]. intros []; [apply calm_ret|exact IH].
Qed.
Lemma wait_on_turned answers targets wait_all timeout s : small s →
  after (wait_on primary_tid thread_starts wait_for slices answers targets wait_all timeout) s (turned s).
Proof.
  intros Hs. unfold wait_on. destruct targets as [ts|]; [|by apply end_wait_turned]. destruct (decide _).
  - apply after_turned; [done|apply calm_slices|]. intros s1 [r|] Hs1; [by apply end_wait_turned|done].
  - apply after_turned; [done|keep|]. intros s1 r Hs1. by apply end_wait_turned.
Qed.
Lemma park_turned reason s : small s → after (park primary_tid thread_starts meanwhile wait_for slices reason) s (turned s).
Proof.
  intros Hs. destruct reason as [cs|h t|]; cbn [park].
  - do 4 (apply after_turned; [done|keep|]; clear s Hs; intros s ? Hs). done.
  - do 2 (apply after_turned; [done|keep|]; clear s Hs; intros s ? Hs). by apply wait_on_turned.
  - do 2 (apply after_turned; [done|keep|]; clear s Hs; intros s ? Hs). cbv zeta.
    apply after_turned; [done|keep|]. clear s Hs. intros s ? Hs. by apply wait_on_turned.
Qed.
Lemma dispatched_turned index va r s : small s →
  after (dispatched layout primary_tid thread_starts meanwhile wait_for slices index va r) s (turned s).
Proof.
  intros Hs. unfold dispatched. apply after_turned; [done|keep|]. clear s Hs. intros s [[ra v|[|q|reason|code]]|] Hs.
  - apply after_count; [|intros ? ?; settle]. destruct (noisy _); [by apply noisy_counts|].
    apply after_bind. pose proof (charge_counts s Hs) as Hc. unfold after in *. by destruct (charge s) as [s1 [[]|e|w]].
  - do 3 (apply after_turned; [done|keep|]; clear s Hs; intros s ? Hs). done.
  - apply after_count; [by apply charge_counts|]. intros s2 []. settle.
  - apply after_turned; [done|keep|]. clear s Hs. intros s ? Hs. by apply park_turned.
  - done.
  - apply after_turned; [done|keep|]. done.
Qed.
Lemma quick_turned h publish s : small s → after (quick h publish) s (turned s).
Proof.
  intros Hs. unfold quick. apply after_turned; [done|keep|]. clear s Hs. intros s ? Hs.
  apply after_count; [by apply noisy_counts|]. intros s2 []. settle.
Qed.
Lemma resolved_turned index va r s : small s →
  after (resolved_call layout primary_tid thread_starts meanwhile wait_for slices index va r) s (turned s).
Proof.
  intros Hs. unfold resolved_call. apply after_turned; [done|keep|]. clear s Hs. intros s ? Hs.
  destruct (exit_process _); [do 3 (apply after_turned; [done|keep|]; clear s Hs; intros s ? Hs); done|].
  destruct (fast_void_sync _); [by apply quick_turned|]. do 3 (destruct (decide _); [by apply quick_turned|]).
  by apply dispatched_turned.
Qed.

(** A turn either counts a call, with the slices without one back at zero, or is
    one more slice without a call, below the limit, or parks, or is the last. *)
Definition progress s s' (q : Quantum) : Prop :=
  match q with
  | GoOn =>
      no_hook_slices s' = 0 ∧ (charged_api s' = charged_api s + 1 ∧ noisy_api s' = noisy_api s ∨
                               charged_api s' = charged_api s ∧ noisy_api s' = noisy_api s + 1) ∨
      charged_api s' = charged_api s ∧ noisy_api s' = noisy_api s ∧ no_hook_slices s' = no_hook_slices s + 1 ∧
      no_hook_slices s' < no_hook_slice_limit layout
  | Parked => charged_api s' = charged_api s ∧ noisy_api s' = noisy_api s ∧ no_hook_slices s' = 0
  | Waiting | Break _ => True
  end.
Lemma progress_counts s0 s s1 q : counts s = counts s0 → progress s s1 q → progress s0 s1 q.
Proof. unfold counts, progress. intros [= -> -> ->]. done. Qed.
Lemma stopped_progress index va s : small s →
  after (stopped_at layout soft_apis primary_tid thread_starts meanwhile wait_for slices index va) s (progress s).
Proof.
  intros Hs. unfold stopped_at. apply after_bind. unfold after at 1, change. set (s1 := set_slices 0 s).
  assert (Hs1 : small s1) by exact Hs.
  assert (Hfrom : ∀ m, after m s1 (turned s1) → after m s1 (progress s)).
  { intros m. unfold after. destruct (m s1) as [s2 [[| | |t]|e|w]]; [|..|done|done|done|done]; cbn.
    - intros [Hsl Hc]. left. split; [exact Hsl|exact Hc].
    - unfold counts. intros [= -> -> ->]. done. }
  apply Hfrom. destruct (decide _); [by apply callback_turned|]. destruct (decide _); [by apply seh_turned|].
  apply after_turned; [done|keep|]. intros s2 [r|] Hs2; [by apply resolved_turned|done].
Qed.
Lemma no_stop_progress s : after (no_stop layout) s (progress s).
Proof.
  unfold no_stop. apply after_bind. unfold after at 1, get. apply after_bind. unfold checked_add.
  destruct (decide (no_hook_slices s + 1 < u64_lim)); [|done]. cbn [ok_or lift after]. apply after_bind. unfold after at 1, change.
  destruct (decide _) as [|Hlim]; [done|]. cbn. right. lia.
Qed.
Lemma quantum_progress s : small s →
  after (quantum layout soft_apis entry_point_va primary_tid thread_starts meanwhile wait_for slices) s (progress s).
Proof.
  intros Hs. unfold quantum.
  assert (Hkeep : ∀ {A} (m : M (RuntimeSession E) A) f s, small s → calm m → (∀ s' a, small s' → after (f a) s' (progress s')) →
            after (m ≫= f) s (progress s)).
  { clear s Hs. intros A m f s Hs Hm Hf. apply after_then; [done|]. intros s' a Hc. specialize (Hf s' a (small_counts _ _ Hc Hs)).
    unfold after in *. destruct (f a s') as [s1 [q|e|w]]; [|done..]. by eapply progress_counts. }
  do 8 (apply Hkeep; [done|keep|]; clear s Hs; intros s ? Hs).
  match goal with |- after (match ?r with _ => _ end) _ _ => destruct r as [r|]; [|done] end.
  destruct (ia_hit _); [done|]. destruct (ch_hit _); [by apply stopped_progress|apply no_stop_progress].
Qed.

(** How many turns there can be before the run ends or parks. *)
Definition weight (max_api noisy_limit : usize) s : Z :=
  (max_api - charged_api s + (noisy_limit - noisy_api s)) * (no_hook_slice_limit layout + 1) +
  (no_hook_slice_limit layout - no_hook_slices s).
Lemma loop_ends max_api noisy_limit turns : max_api < u64_lim → noisy_limit < u64_lim → ∀ parks s,
  charged_api s ≤ max_api → noisy_api s ≤ noisy_limit → 0 ≤ no_hook_slices s ≤ no_hook_slice_limit layout →
  weight max_api noisy_limit s + Z.of_nat parks * (no_hook_slice_limit layout + 1) < Z.of_nat turns →
  (run_loop layout soft_apis entry_point_va primary_tid thread_starts meanwhile wait_for slices max_api noisy_limit turns parks s).2 ≠ Ok OutOfTurns.
Proof.
  intros Hmax Hnoisy. set (L := no_hook_slice_limit layout).
  induction turns as [|turns IH]; intros parks s Hc Hn Hsl Hw; cbn [run_loop].
  - exfalso. unfold weight in Hw. fold L in Hw. nia.
  - unfold mbind at 1, M_bind at 1, get at 1. unfold mbind at 1, M_bind at 1, get at 1.
    destruct (decide (max_api ≤ charged_api s)); [done|]. destruct (decide (noisy_limit ≤ noisy_api s)); [done|].
    pose proof (quantum_progress s ltac:(split; lia)) as Hq. unfold after in Hq. unfold mbind, M_bind.
    destruct (quantum _ _ _ _ _ _ _ _ s) as [s' [[| | |t]|e|w]]; [| |done..]; unfold progress in Hq; fold L in Hq.
    + apply IH; [lia|lia|lia|]. unfold weight in *. fold L in Hw |- *. destruct Hq as [[Hz [[-> ->]|[-> ->]]]|(-> & -> & -> & _)]; nia.
    + destruct Hq as (Hc' & Hn' & Hz). destruct parks as [|parks]; [done|].
      apply IH; [lia|lia|lia|]. unfold weight in *. fold L in Hw |- *. rewrite Hc', Hn', Hz. nia.
Qed.

Lemma bind_never {S A B} (m : M S A) (f : A → M S B) (x : S) z : (∀ a y, (f a y).2 ≠ Ok z) → ((m ≫= f) x).2 ≠ Ok z.
Proof. intros Hf. unfold mbind, M_bind. destruct (m x) as [y [a|e|w]]; [apply Hf|done..]. Qed.

(** *** The waits without a timeout *)

(** Every such wait is answered within the slices looked at, or the process dies. *)
Definition waits_end : Prop :=
  ∀ answers targets wait_all s, answers = single_answer ∨ answers = multiple_answer →
    (wait_slices thread_starts wait_for answers targets wait_all slices s).2 ≠ Ok None.

Definition answered (m : M (RuntimeSession E) Quantum) : Prop := ∀ s, (m s).2 ≠ Ok Waiting.
Lemma answered_ret q : q ≠ Waiting → answered (mret q).
Proof. intros Hq s. cbn. congruence. Qed.
Lemma answered_bind {A} (m : M (RuntimeSession E) A) f : (∀ a, answered (f a)) → answered (m ≫= f).
Proof. intros Hf s. unfold mbind, M_bind. destruct (m s) as [s' [a|? |?]]; [apply Hf|done..]. Qed.
Ltac answered :=
  repeat first [apply answered_ret; discriminate | apply answered_bind; intros ?
               | lazymatch goal with |- answered (match ?d with _ => _ end) => destruct d end].
Lemma wait_on_answered answers targets wait_all timeout :
  waits_end → answers = single_answer ∨ answers = multiple_answer →
  answered (wait_on primary_tid thread_starts wait_for slices answers targets wait_all timeout).
Proof.
  intros Hw Ha. assert (He : ∀ r, answered (end_wait primary_tid r)) by (intros r; unfold end_wait; answered).
  unfold wait_on. destruct targets as [ts|]; [|apply He]. destruct (decide _); [|apply answered_bind; intros r; apply He].
  intros s. specialize (Hw answers ts wait_all s Ha). unfold mbind, M_bind.
  destruct (wait_slices _ _ _ _ _ _ s) as [s' [[r|]|? |?]]; [apply He|done..].
Qed.
Lemma quantum_answered : waits_end →
  answered (quantum layout soft_apis entry_point_va primary_tid thread_starts meanwhile wait_for slices).
Proof.
  intros Hw. unfold quantum, stopped_at, resolved_call, dispatched, park, callback_returns, seh_continues, no_stop, quick, stop. cbv zeta.
  answered; apply wait_on_answered; auto.
Qed.
Lemma loop_answered max_api noisy_limit turns : waits_end → ∀ parks s,
  (run_loop layout soft_apis entry_point_va primary_tid thread_starts meanwhile wait_for slices max_api noisy_limit turns parks s).2 ≠ Ok StillWaiting.
Proof.
  intros Hw. induction turns as [|turns IH]; intros parks s; cbn [run_loop]; (unfold mbind at 1, M_bind at 1, get at 1);
    (unfold mbind at 1, M_bind at 1, get at 1); (destruct (decide _); [done|]); (destruct (decide _); [done|]); [done|].
  pose proof (quantum_answered Hw s) as Hq. unfold mbind, M_bind.
  destruct (quantum _ _ _ _ _ _ _ _ s) as [s' [[| | |t]|? |?]]; [apply IH|destruct parks; [done|apply IH]|done..].
Qed.
End Turns.

(** *** More turns, parks and slices change nothing of a run that has finished *)

Section More.
Context {E : Type} `{CpuMem E, !CpuMap E, !CpuRegs E, !CpuApi E, !GuestRun E, !Dispatch E}.
Context (layout : RuntimeMemoryLayout) (soft_apis : SoftApiTable) (entry_point_va : u64) (primary_tid : u32).
Context (thread_starts : PendingSpawn → bool) (meanwhile : UserApi E → UserApi E).
Context (wait_for : list nat → bool → u32 → UserApi E → UserApi E * u32) (few many : nat) (Hmore : (few ≤ many)%nat).
Implicit Types (s : RuntimeSession E).

Lemma slices_more answers targets wait_all n n' s : (n ≤ n')%nat →
  (wait_slices thread_starts wait_for answers targets wait_all n s).2 = Ok None ∨
  wait_slices thread_starts wait_for answers targets wait_all n' s = wait_slices thread_starts wait_for answers targets wait_all n s.
Proof.
  revert n' s. induction n as [|n IH]; intros n' s Hn; [by left|]. destruct n' as [|n']; [lia|]. cbn [wait_slices].
  unfold mbind, M_bind, get. destruct (on_process _ s) as [s1 [r|? |?]]; [|by right..].
  destruct (answers r); [by right|]. destruct (tried _ s1) as [s2 [o|? |?]]; [|by right..].
  destruct ((process_dying ∘ w_sync ∘ win_of) s2); [by right|]. apply IH. lia.
Qed.

Definition outlives (m m' : M (RuntimeSession E) Quantum) : Prop := ∀ s, (m s).2 = Ok Waiting ∨ m' s = m s.
Lemma outlives_refl m : outlives m m.
Proof. by right. Qed.
Lemma outlives_bind {A} (m : M (RuntimeSession E) A) f f' : (∀ a, outlives (f a) (f' a)) → outlives (m ≫= f) (m ≫= f').
Proof. intros Hf s. unfold mbind, M_bind. destruct (m s) as [s' [a|? |?]]; [apply Hf|by right..]. Qed.
Lemma wait_on_outlives answers targets wait_all timeout :
  outlives (wait_on primary_tid thread_starts wait_for few answers targets wait_all timeout)
           (wait_on primary_tid thread_starts wait_for many answers targets wait_all timeout).
Proof.
  unfold wait_on. destruct targets as [ts|]; [|apply outlives_refl]. destruct (decide _); [|apply outlives_refl].
  intros s. unfold mbind, M_bind. destruct (slices_more answers ts wait_all few many s Hmore) as [Hn| -> ]; [|by right].
  left. by destruct (wait_slices _ _ _ _ _ few s) as [s' [[r|]|? |?]].
Qed.
Ltac outlives :=
  repeat first [apply wait_on_outlives | apply outlives_bind; intros ?
               | lazymatch goal with |- outlives (match ?d with _ => _ end) (match ?d with _ => _ end) => destruct d end
               | apply outlives_refl].
Lemma quantum_outlives :
  outlives (quantum layout soft_apis entry_point_va primary_tid thread_starts meanwhile wait_for few)
           (quantum layout soft_apis entry_point_va primary_tid thread_starts meanwhile wait_for many).
Proof. unfold quantum, stopped_at, resolved_call, dispatched, park. cbv zeta. outlives. Qed.

Lemma loop_finished max_api noisy_limit turns : ∀ turns' parks parks' s s' t, (turns ≤ turns')%nat → (parks ≤ parks')%nat →
  run_loop layout soft_apis entry_point_va primary_tid thread_starts meanwhile wait_for few max_api noisy_limit turns parks s = (s', Ok (Finished t)) →
  run_loop layout soft_apis entry_point_va primary_tid thread_starts meanwhile wait_for many max_api noisy_limit turns' parks' s = (s', Ok (Finished t)).
Proof.
  assert (Hloop : ∀ k turns parks s, run_loop layout soft_apis entry_point_va primary_tid thread_starts meanwhile wait_for k max_api noisy_limit turns parks s =
    if decide (max_api ≤ charged_api s) then (s, Ok (Finished ApiLimit))
    else if decide (noisy_limit ≤ noisy_api s) then (s, Ok (Finished ApiLimit))
    else match turns with
         | O => (s, Ok OutOfTurns)
         | S turns =>
             match quantum layout soft_apis entry_point_va primary_tid thread_starts meanwhile wait_for k s with
             | (s', Ok GoOn) => run_loop layout soft_apis entry_point_va primary_tid thread_starts meanwhile wait_for k max_api noisy_limit turns parks s'
             | (s', Ok Parked) => match parks with
                                  | O => (s', Ok StillParked)
                                  | S parks => run_loop layout soft_apis entry_point_va primary_tid thread_starts meanwhile wait_for k max_api noisy_limit turns parks s'
                                  end
             | (s', Ok Waiting) => (s', Ok StillWaiting)
             | (s', Ok (Break t)) => (s', Ok (Finished t))
             | (s', Err e) => (s', Err e)
             | (s', Abort w) => (s', Abort w)
             end
         end).
  { intros k n parks s. destruct n; cbn [run_loop]; unfold mbind, M_bind, get; (destruct (decide _); [done|]); (destruct (decide _); [done|]); [done|].
    destruct (quantum _ _ _ _ _ _ _ _ s) as [s' [[| | |t]|? |?]]; [done|by destruct parks|done..]. }
  induction turns as [|turns IH]; intros turns' parks parks' s s' t Ht Hp; rewrite !Hloop; (destruct (decide _); [done|]); (destruct (decide _); [done|]); [done|].
  destruct turns' as [|turns']; [lia|]. pose proof (quantum_outlives s) as Hq.
  set (q := quantum layout soft_apis entry_point_va primary_tid thread_starts meanwhile wait_for few s) in *. clearbody q.
  destruct Hq as [Hw| ->].
  - destruct q as [s1 r]. cbn in Hw. by subst r.
  - destruct q as [s1 [[| | |t1]|? |?]]; [apply IH; lia| |done..].
    destruct parks as [|parks]; [done|]. destruct parks' as [|parks']; [lia|]. apply IH; lia.
Qed.
End More.

Section Run.
Context {E : Type} `{CpuMem E, !CpuMap E, !CpuRegs E, !CpuApi E, !GuestRun E, !Dispatch E}.
Context (layout : RuntimeMemoryLayout) (soft_apis : SoftApiTable) (entry_point_va : u64) (primary_tid : u32).
Context (thread_starts : PendingSpawn → bool) (meanwhile : UserApi E → UserApi E).
Context (wait_for : list nat → bool → u32 → UserApi E → UserApi E * u32) (values : gmap u64 nat → list nat).
Implicit Types (s : RuntimeSession E).
Abbreviation run slices := (run_until_stop layout soft_apis entry_point_va primary_tid thread_starts meanwhile wait_for slices values).

(** How a run ended. *)
Definition ended (r : res (RunEnd * u64 * u64)) (e : RunEnd) : Prop := ∃ rip rsp, r = Ok (e, rip, rsp).
Lemma run_ended slices max_api turns parks s e :
  ended (run slices max_api turns parks s).2 e →
  (run_loop layout soft_apis entry_point_va primary_tid thread_starts meanwhile wait_for slices max_api (max_noisy max_api) turns parks
     (set_events [] (set_counts 0 0 s))).2 = Ok e.
Proof.
  intros (rip & rsp & Hr). unfold run_until_stop in Hr. unfold mbind at 1, M_bind at 1, change at 1 in Hr.
  unfold mbind at 1, M_bind at 1, change at 1 in Hr. unfold mbind at 1, M_bind at 1 in Hr.
  destruct (run_loop _ _ _ _ _ _ _ _ _ _ _ _ _) as [s1 [e1|er|w]]; [|done..]. revert Hr. cbn [snd].
  enough (He : ∀ m : M (RuntimeSession E) unit, ((_ ← m; final_rip ← on_cpu (context "failed to read final runtime RIP" (read_reg Rip));
    final_rsp ← on_cpu (context "failed to read final runtime RSP" (read_reg Rsp)); mret (e1, final_rip, final_rsp)) s1).2 = Ok (e, rip, rsp) →
    Ok e1 = Ok (A := RunEnd) e) by apply He.
  intros m. unfold mbind, M_bind. destruct (m s1) as [s2 [[]|? |?]]; [|done..].
  destruct (on_cpu _ s2) as [s3 [?|?|?]]; [|done..]. destruct (on_cpu _ s3) as [s4 [?|?|?]]; [|done..]. cbn. congruence.
Qed.

(** C19 Where a run of a session can go on for ever, whatever the program does
    and whatever its threads and the host do meanwhile: only in a wait.  With more turns than
    the calls it may make, each with the allowed number of slices without a call,
    and as many again for each time the primary thread is sent to wait for a critical
    section, the loop is never stopped for want of turns: it ends at an exit, an
    error, the limit of calls or a message wait, or it has been sent to wait for a
    critical section more often than [parks] times, or a wait without a timeout has gone
    unanswered for [slices] slices of 50 ms with the process not dying.  When every
    wait without a timeout is answered within that many slices (or the process dies)
    the last does not happen.  The three bounds are the model's, the code has none:
    a run that has ended within some bounds ends the same, in the same state, within any
    larger ones. *)
Theorem session_comes_to_an_end s max_api turns parks slices :
  0 ≤ max_api < u64_lim → 0 ≤ no_hook_slices s ≤ no_hook_slice_limit layout →
  (max_api + max_noisy max_api + Z.of_nat parks + 1) * (no_hook_slice_limit layout + 1) < Z.of_nat turns →
  ¬ ended (run slices max_api turns parks s).2 OutOfTurns ∧
  (waits_end thread_starts wait_for slices → ¬ ended (run slices max_api turns parks s).2 StillWaiting) ∧
  ∀ t, ended (run slices max_api turns parks s).2 (Finished t) →
    ∀ turns' parks' slices', (turns ≤ turns')%nat → (parks ≤ parks')%nat → (slices ≤ slices')%nat →
      run slices' max_api turns' parks' s = run slices max_api turns parks s.
Proof.
  intros Hmax Hsl Hw. set (s0 := set_events [] (set_counts 0 0 s)).
  assert (Hnoisy : 0 ≤ max_noisy max_api < u64_lim) by (unfold max_noisy, sat_mul, sat_add; lia).
  split_and!.
  - intros Hr%run_ended. revert Hr. fold s0. apply loop_ends; [lia|lia|cbn; lia|cbn; lia|done|].
    unfold weight. cbn [charged_api noisy_api no_hook_slices s0 set_events set_counts]. nia.
  - intros Hwait Hr%run_ended. revert Hr. by apply loop_answered.
  - intros t Hr turns' parks' slices' Ht Hp Hs. apply run_ended in Hr. fold s0 in Hr.
    destruct (run_loop _ _ _ _ _ _ _ slices _ _ _ _ s0) as [s1 r] eqn:Hl. cbn [snd] in Hr. subst r.
    pose proof (loop_finished layout soft_apis entry_point_va primary_tid thread_starts meanwhile wait_for slices slices' Hs
      _ _ _ _ _ _ _ _ _ Ht Hp Hl) as Hl'.
    unfold run_until_stop. unfold mbind, M_bind, change. fold s0. by rewrite Hl, Hl'.
Qed.
End Run.

(** ** Imports *)

(** Every entry of the table is the one made for its name, at the address of its place. *)
Definition soft_ok (soft : SoftApiTable) : Prop :=
  Z.of_nat (length soft) ≤ SOFT_UNRESOLVED_BASE ∧
  ∀ i e, soft !! i = Some e →
    e = make_entry (encode_unresolved (Z.of_nat i)) (fe_library e) (fe_name e) (fe_iat_slot_va e) ∧
    resolve_winapi_id (fe_library e) (fe_name e) = None.

Lemma same_ci a b : eq_ignore_ascii_case a b = true ↔ to_ascii_lowercase a = to_ascii_lowercase b.
Proof. unfold eq_ignore_ascii_case. apply bool_decide_eq_true. Qed.
Lemma eq_ci a b c : to_ascii_lowercase a = to_ascii_lowercase b → eq_ignore_ascii_case a c = eq_ignore_ascii_case b c.
Proof. unfold eq_ignore_ascii_case. by intros ->. Qed.
Lemma one_of_ci l a b : to_ascii_lowercase a = to_ascii_lowercase b → guest_stubs.one_of l a = guest_stubs.one_of l b.
Proof.
  intros Hab. unfold guest_stubs.one_of. induction l as [|n l IH]; [done|]. cbn [existsb]. by rewrite IH, (eq_ci a b n Hab).
Qed.
Lemma ucrt_ci a b : to_ascii_lowercase a = to_ascii_lowercase b → dll_loader.is_ucrt_library a = dll_loader.is_ucrt_library b.
Proof. unfold dll_loader.is_ucrt_library. by intros ->. Qed.
Lemma exits_process_ci l n l' n' :
  to_ascii_lowercase l = to_ascii_lowercase l' → to_ascii_lowercase n = to_ascii_lowercase n' → exits_process l n = exits_process l' n'.
Proof. intros Hl Hn. unfold exits_process. by rewrite !(eq_ci l l' _ Hl), !(eq_ci n n' _ Hn), (ucrt_ci l l' Hl), (one_of_ci _ n n' Hn). Qed.
Lemma make_entry_exits va l n slot : exit_process (fe_traits (make_entry va l n slot)) =
  if exits_process l n then true else match resolve_winapi_id l n with Some id => exit_process (traits id) | None => false end.
Proof.
  assert (Hset : ∀ id, exit_process (set_noisy true (set_guest_stub true (traits id))) = exit_process (traits id)) by (by intros []).
  unfold make_entry. cbn [fe_traits]. destruct (exits_process l n); [by destruct (decide _)|].
  destruct (resolve_winapi_id l n) as [id|]; destruct (decide _); cbn [fmap option_fmap option_map default from_option]; [apply Hset|done..].
Qed.

(** A call with an id is exported under the names it was asked for, and ends no process. *)
Lemma ids_once : NoDup (to_u16 <$> WINAPI_NAME_ROWS.*2).
Proof. apply (bool_decide_unpack _). vm_compute. exact I. Qed.
Lemma rows_exit : Forall (λ r, exits_process r.1.1 r.1.2 = exit_process (traits r.2)) WINAPI_NAME_ROWS.
Proof. apply (bool_decide_unpack _). vm_compute. exact I. Qed.
Lemma resolve_export l n id : resolve_winapi_id l n = Some id →
  ∃ l' n', winapi_id_export id = Some (l', n') ∧ to_ascii_lowercase l' = to_ascii_lowercase l ∧
    to_ascii_lowercase n' = to_ascii_lowercase n ∧ exit_process (traits id) = exits_process l n.
Proof.
  unfold resolve_winapi_id. intros Hf. apply fmap_Some in Hf as ([i row] & Hf & Hid). cbn in Hid.
  apply list_find_Some in Hf as (Hi & Hm & _). apply Is_true_true, andb_true_iff in Hm as [Hl%same_ci Hn%same_ci].
  destruct (rows_ids_complete id) as (j & row' & He & Hj & Hid').
  assert (j = i) as ->.
  { apply (NoDup_lookup _ j i (to_u16 id) ids_once); rewrite !list_lookup_fmap; [by rewrite Hj; cbn; rewrite Hid'|by rewrite Hi; cbn; rewrite Hid]. }
  assert (row' = row) as -> by congruence. exists row.1.1, row.1.2. split; [rewrite He; by destruct row as [[? ?] ?]|].
  split; [done|]. split; [done|]. pose proof rows_exit as Hall. rewrite Forall_lookup in Hall. rewrite Hid, <- (Hall i row Hi).
  by apply exits_process_ci.
Qed.

Definition found_as (l n : str) (r : ResolvedFakeApi) : Prop :=
  rs_winapi_id r = resolve_winapi_id l n ∧ to_ascii_lowercase (rs_library r) = to_ascii_lowercase l ∧
  to_ascii_lowercase (rs_name r) = to_ascii_lowercase n ∧ exit_process (rs_traits r) = exits_process l n.
Lemma soft_found soft i e l n : soft_ok soft → soft !! i = Some e → to_ascii_lowercase (fe_library e) = to_ascii_lowercase l →
  to_ascii_lowercase (fe_name e) = to_ascii_lowercase n →
  ∃ r, resolve_fake_api_at (fe_target_va e) soft = Ok (Some r) ∧ found_as l n r.
Proof.
  intros [Hlen Hok] Hi Hl Hn. destruct (Hok i e Hi) as [He Hnone]. pose proof (lookup_lt_Some _ _ _ Hi) as Hlt.
  assert (Hva : fe_target_va e = encode_fake (Unresolved (Z.of_nat i))) by (by rewrite He).
  unfold resolve_fake_api_at. rewrite Hva. rewrite (proj1 (proj1 fake_va_roundtrip (Unresolved (Z.of_nat i)) ltac:(cbn; lia))).
  cbn [mbind res_bind]. rewrite Nat2Z.id, Hi. eexists. split; [reflexivity|]. unfold found_as. cbn [rs_winapi_id rs_library rs_name rs_traits].
  split; [|split; [done|split; [done|]]].
  - rewrite <- (resolve_ci (fe_library e) (fe_name e) l n Hl Hn). by rewrite He.
  - rewrite He, make_entry_exits, Hnone, (exits_process_ci _ _ _ _ Hl Hn). by destruct (exits_process l n).
Qed.

(** C22 The address an import gets leads back to the call it names: when
    the guest calls it, the session finds the same API (by id, or by its names up to
    the case of letters), knows whether it ends the process, and goes on finding it
    whatever imports come later; the table stays well formed and only grows.  An
    import gets no address only when the table of calls without a handler is full. *)
Theorem import_resolves l n slot soft soft' o :
  soft_ok soft → resolve_import_fake_va l n slot soft = (soft', o) →
  soft_ok soft' ∧ soft `prefix_of` soft' ∧
  match o with
  | Some (va, e) => ∀ later, soft' `prefix_of` later → soft_ok later → ∃ r, resolve_fake_api_at va later = Ok (Some r) ∧ found_as l n r
  | None => resolve_winapi_id l n = None ∧ Z.of_nat (length soft) = SOFT_UNRESOLVED_BASE
  end.
Proof.
  intros Hok Hr. unfold resolve_import_fake_va in Hr. destruct (resolve_winapi_id l n) as [id|] eqn:Hid.
  { injection Hr as <- <-. split; [done|]. split; [done|]. intros later _ _. unfold resolve_fake_api_at.
    change (encode_export id) with (encode_fake (Export id)). rewrite (proj1 (proj1 fake_va_roundtrip (Export id) I)).
    destruct (resolve_export l n id Hid) as (l' & n' & He & Hl & Hn & Hx).
    eexists. split; [cbn [mbind res_bind]; rewrite He; reflexivity|]. done. }
  unfold intern in Hr. destruct (List.find (same_import l n) soft) as [x|] eqn:Hf.
  { injection Hr as <- <-. split; [done|]. split; [done|]. apply find_some in Hf as [Hin Hs].
    unfold same_import in Hs. apply andb_true_iff in Hs as [Hl%same_ci Hn%same_ci].
    intros later [tl ->] Hlater. apply list_elem_of_In, list_elem_of_lookup in Hin as [i Hi].
    eapply (soft_found _ i); [done|by apply lookup_app_l_Some|done|done]. }
  destruct Hok as [Hlen Hok]. destruct (decide _) as [Hfull|Hroom]; injection Hr as <- <-.
  { split; [done|]. split; [done|]. split; [done|]. unfold SOFT_UNRESOLVED_BASE in *. lia. }
  set (e := make_entry _ _ _ _).
  assert (Hok' : soft_ok (soft ++ [e])).
  { split; [rewrite length_app; cbn [length]; unfold SOFT_UNRESOLVED_BASE in *; lia|].
    intros i x [Hi|[Hge Hi]]%lookup_app_Some; [by apply Hok|]. apply list_lookup_singleton_Some in Hi as [Hz <-].
    split; [|done]. unfold e at 1. cbn [fe_library fe_name fe_iat_slot_va e make_entry]. do 2 f_equal. lia. }
  split; [done|]. split; [by apply prefix_app_r|]. intros later [tl ->] Hlater.
  apply (soft_found _ (length soft) e l n Hlater); [|done..]. rewrite lookup_app_l by (rewrite length_app; cbn; lia).
  rewrite lookup_app_r by lia. by rewrite Nat.sub_diag.
Qed.

(** ** The end of a worker *)

Section Ends.
Context {E : Type} `{CpuMem E, !CpuMap E, !CpuRegs E, !CpuApi E, !GuestRun E, !Dispatch E}.
Context (layout : RuntimeMemoryLayout) (soft_apis : SoftApiTable) (tid : u32) (meanwhile : UserApi E → UserApi E).
Context (wait_for : list nat → bool → u32 → UserApi E → UserApi E * u32) (slices : nat) (values : gmap u64 nat → list nat).

(** The object of the thread is finished. *)
Definition over_in (y : SyncState) : Prop :=
  ∀ arc, find_thread values tid y = Some arc → ∃ t, arcs y !! arc = Some (Thread t) ∧ th_tid t = tid ∧ is_finished t = true.
Definition ends (m : M (UserApi E) WorkerTurn) : Prop := ∀ u u', m u = (u', Ok Over) → over_in (w_sync (a_win (u_api u'))).

Lemma is_thread_finished code arc y a : is_thread tid (finish_arc code arc y) a = is_thread tid y a.
Proof.
  unfold is_thread, finish_arc, set_arcs. cbn [arcs]. destruct (decide (a = arc)) as [->|Hne].
  - rewrite list_lookup_alter_eq. by destruct (arcs y !! arc) as [[]|].
  - by rewrite list_lookup_alter_ne.
Qed.
Lemma finish_over code y : over_in (match find_thread values tid y with Some arc => finish_arc code arc y | None => y end).
Proof.
  intros arc. destruct (find_thread values tid y) as [a|] eqn:Hf; [|congruence].
  assert (Hsame : find_thread values tid (finish_arc code a y) = Some a).
  { rewrite <- Hf. unfold find_thread. change (objects (finish_arc code a y)) with (objects y).
    clear Hf. induction (values (objects y)) as [|x l IH]; [done|]. cbn [List.find]. by rewrite is_thread_finished, IH. }
  rewrite Hsame. intros [= <-]. apply find_some in Hf as [_ Ht]. unfold is_thread in Ht.
  cbn [finish_arc set_arcs arcs]. rewrite list_lookup_alter_eq. destruct (arcs y !! a) as [[t| |]|]; try discriminate Ht.
  cbn [fmap option_fmap option_map]. eexists. split; [reflexivity|]. apply bool_decide_eq_true in Ht. by split.
Qed.
Lemma finish_nothing code (u : UserApi E) : find_thread values tid (w_sync (a_win (u_api u))) = None → finish_tid tid values code u = (u, Ok tt).
Proof.
  intros Hn. unfold finish_tid, shared, process, on_win, zoom. cbn. rewrite Hn. by destruct u as [[e w] v].
Qed.
Lemma ends_with_over code : ends (ends_with tid values code).
Proof.
  intros u u'. unfold ends_with, finish_tid, shared, process, on_win. cbn.
  intros [= <-]. cbn. pose proof (finish_over code (w_sync (a_win (u_api u)))) as Hf. by destruct (find_thread _ _ _).
Qed.
Lemma ends_bind {A} (m : M (UserApi E) A) f : (∀ a, ends (f a)) → ends (m ≫= f).
Proof. intros Hf u u'. unfold mbind, M_bind. destruct (m u) as [u1 [a|e|w]]; [apply Hf|done..]. Qed.
Lemma ends_runs : ends (mret Runs).
Proof. by intros u u'. Qed.
Lemma ends_waits : ends (mret Waits).
Proof. by intros u u'. Qed.

Ltac ending :=
  repeat first [apply ends_with_over | apply ends_runs | apply ends_waits | apply ends_bind; intros ?
               | lazymatch goal with |- ends (match ?d with _ => _ end) => destruct d end].
Lemma turn_ends : ends (worker_turn layout soft_apis tid meanwhile wait_for slices values).
Proof. unfold worker_turn, worker_call, handle_park, worker_wait. cbv zeta. ending. Qed.
Lemma start_ends install : ends (worker_start tid values install).
Proof. unfold worker_start. ending. Qed.

(** C23 When a worker thread is over, however it came to its end (its function
    returned, it called ExitThread or ExitProcess, it ran into an error, the process
    is dying, or it could not start), and a handle of the thread is still in the
    table of objects, its thread object is finished, so that those who wait for it
    go on.  When no handle is left (CloseHandle has removed it), nothing is finished:
    the end of the thread then changes no object at all, and a wait that had already begun
    on the object goes on. *)
Theorem worker_end_is_seen install turns u u' :
  worker_main layout soft_apis tid meanwhile wait_for slices values install turns u = (u', Ok Over) →
  (∀ arc, find_thread values tid (w_sync (a_win (u_api u'))) = Some arc →
    ∃ t, arcs (w_sync (a_win (u_api u'))) !! arc = Some (Thread t) ∧ th_tid t = tid ∧ is_finished t = true ∧
      ∀ timeout_ms, thread_wait_begin timeout_ms t = Returned true) ∧
  (∀ code (v : UserApi E), find_thread values tid (w_sync (a_win (u_api v))) = None → finish_tid tid values code v = (v, Ok tt)).
Proof.
  assert (Hloop : ends (worker_loop layout soft_apis tid meanwhile wait_for slices values turns)).
  { induction turns as [|n IH]; cbn [worker_loop]; [apply ends_runs|]. intros x x'. unfold mbind, M_bind.
    destruct (worker_turn _ _ _ _ _ _ _ x) as [x1 [[]|e|w]] eqn:Ht; [|apply IH|done..]. intros [= <-]. by apply turn_ends in Ht. }
  intros Hm. split; [|apply finish_nothing]. unfold worker_main, mbind, M_bind in Hm. intros arc Hf.
  assert (Hover : over_in (w_sync (a_win (u_api u')))).
  { destruct (worker_start _ _ _ u) as [x [[]|e|w]] eqn:Hs; [|by apply Hloop in Hm|done..].
    injection Hm as <-. by apply start_ends in Hs. }
  destruct (Hover arc Hf) as (t & Ha & Ht & Hfin). exists t. split; [done|]. split; [done|]. split; [done|].
  intros timeout. unfold thread_wait_begin. unfold is_finished in Hfin. by rewrite Hfin.
Qed.
End Ends.

(** ** Planted code *)

Definition cleared (off : Z) (n : nat) (i : Z) : bool := bool_decide (off ≤ i < off + Z.of_nat n).
Lemma clear_bit_spec k bm i : 0 ≤ k → 0 ≤ i → bitmap_bit (clear_bit k bm) i = bitmap_bit bm i && negb (bool_decide (i = k)).
Proof.
  intros Hk Hi. unfold bitmap_bit, clear_bit. pose proof (Z.mod_pos_bound i 8 ltac:(lia)). pose proof (Z.mod_pos_bound k 8 ltac:(lia)).
  pose proof (Z.div_mod i 8 ltac:(lia)). pose proof (Z.div_mod k 8 ltac:(lia)).
  pose proof (Z.div_pos i 8 Hi ltac:(lia)). pose proof (Z.div_pos k 8 Hk ltac:(lia)).
  destruct (decide (i / 8 = k / 8)) as [Hd|Hd].
  - rewrite Hd, list_lookup_alter_eq. destruct (bm !! Z.to_nat (k / 8)) as [b|]; [|done]. cbn [fmap option_fmap option_map].
    rewrite Z.land_spec. f_equal.
    assert (Hall : Forall (λ p, Z.testbit (not_u 8 (Z.shiftl 1 p.2)) p.1 = negb (bool_decide (p.1 = p.2)))
              (x ← seqZ 0 8; y ← seqZ 0 8; [(x, y)])) by (apply (bool_decide_unpack _); vm_compute; exact I).
    rewrite Forall_forall in Hall. specialize (Hall (i mod 8, k mod 8)). cbn [fst snd] in Hall. rewrite Hall.
    + f_equal. apply bool_decide_ext. lia.
    + apply list_elem_of_bind. exists (i mod 8). split; [|apply elem_of_seqZ; lia].
      apply list_elem_of_bind. exists (k mod 8). split; [by apply list_elem_of_singleton|apply elem_of_seqZ; lia].
  - rewrite list_lookup_alter_ne by lia. rewrite bool_decide_eq_false_2 by (intros ->; lia). by rewrite andb_true_r.
Qed.
Lemma clear_bits_spec off n : ∀ bm i, 0 ≤ off → 0 ≤ i → bitmap_bit (clear_bits off n bm) i = bitmap_bit bm i && negb (cleared off n i).
Proof.
  unfold clear_bits, cleared. induction n as [|n IH]; intros bm i Hoff Hi.
  - cbn. rewrite bool_decide_eq_false_2 by lia. by rewrite andb_true_r.
  - rewrite seq_S, foldl_app. cbn [foldl]. rewrite clear_bit_spec, IH by lia. rewrite <- andb_assoc. f_equal.
    rewrite <- negb_orb. f_equal. destruct (decide (i = off + Z.of_nat (0 + n))) as [->|].
    + rewrite (bool_decide_eq_true_2 (_ = _)) by done. rewrite orb_true_r. by rewrite bool_decide_eq_true_2 by lia.
    + rewrite (bool_decide_eq_false_2 (_ = _)) by done. rewrite orb_false_r. apply bool_decide_ext. lia.
Qed.
Lemma length_clear_bits off n bm : length (clear_bits off n bm) = length bm.
Proof.
  unfold clear_bits. induction n as [|n IH]; [done|]. rewrite seq_S, foldl_app. cbn [foldl]. unfold clear_bit at 1. by rewrite length_alter, IH.
Qed.

Lemma inline_length k : needs_out_of_line_helper k = false → (1 ≤ length (encode_stub k) ≤ 16)%nat.
Proof. destruct k; cbn [needs_out_of_line_helper encode_stub]; intros Hk; try discriminate Hk; rewrite ?length_app, ?length_le_bytes; cbn [length]; lia. Qed.
Lemma encode_table_length m va access : length (encode_table m va access) = (23 + length access)%nat.
Proof. unfold encode_table, patch_rel8. rewrite length_insert, !length_app, !length_le_bytes. cbn [length]. lia. Qed.
Lemma stub_length k : (length (encode_stub k) ≤ 64)%nat.
Proof.
  destruct k; cbn [encode_stub]; unfold encode_fls_get, encode_fls_set, encode_load_u32_table;
    rewrite ?encode_table_length; try (vm_compute; lia).
Qed.
Lemma length_jmp_to h : length (jmp_to h) = 12%nat.
Proof. unfold jmp_to. by rewrite !length_app, length_le_bytes. Qed.

Section Plant.
Context {E : Type} `{CpuMemLaws E}.
Context (base : u64) (size : usize) (cfg : GuestStubConfig) (hbase : u64) (hsize : usize).
Implicit Types (e : E) (en : RuntimeFakeApiEntry).

(** What is at the address of a call: its body, or a jump to its body at [h]. *)
Definition entry_code (k : GuestStubKind) (h : Z) : list u8 := if needs_out_of_line_helper k then jmp_to h else encode_stub k.
Lemma entry_length k h : (1 ≤ length (entry_code k h) ≤ 16)%nat.
Proof. unfold entry_code. destruct (needs_out_of_line_helper k) eqn:Hk; [rewrite length_jmp_to; lia|by apply inline_length]. Qed.
Definition body_at e (k : GuestStubKind) (h top : Z) : Prop :=
  hbase ≤ h ∧ h + Z.of_nat (length (encode_stub k)) ≤ top ∧ h + Z.of_nat (length (encode_stub k)) ≤ hbase + hsize ∧ holds e h (encode_stub k).
Definition code_at e (va : Z) (k : GuestStubKind) (top : Z) : Prop :=
  ∃ h, holds e va (entry_code k h) ∧ va + Z.of_nat (length (entry_code k h)) ≤ base + size ∧
    (needs_out_of_line_helper k = true → body_at e k h top).

Record layout_ok : Prop := {
  lo_base : 0 ≤ base;
  lo_size : 0 ≤ size ∧ base + size < u64_lim;
  lo_helpers : 0 ≤ hbase ∧ 0 ≤ hsize ∧ hbase + hsize < u64_lim;
  lo_apart : base + size ≤ hbase ∨ hbase + hsize ≤ base;
}.
Definition aligned en : Prop := base ≤ fe_target_va en → (fe_target_va en - base) mod 16 = 0.

Context (e0 : E).
(** After the entries [es]. *)
Record planted (es : list RuntimeFakeApiEntry) e (bitmap : list u8) (cursor : u64) : Prop := {
  pl_inv : mem_inv e;
  pl_window : accessible e base size;
  pl_helpers : accessible e hbase hsize;
  pl_rest : ∀ x, ¬ (base ≤ x < base + size) → ¬ (hbase ≤ x < hbase + hsize) → mem_get e x = mem_get e0 x;
  pl_length : length bitmap = Z.to_nat ((size + 7) / 8);
  pl_cursor : hbase ≤ cursor;
  pl_code : ∀ off, 0 ≤ off < size → off mod 16 = 0 → bitmap_bit bitmap off = false →
    ∃ en k, en ∈ es ∧ fe_target_va en = base + off ∧ real_kind cfg en = Some k ∧ code_at e (base + off) k cursor;
  pl_inline : ∀ en k, en ∈ es → real_kind cfg en = Some k → needs_out_of_line_helper k = false → base ≤ fe_target_va en →
    fe_target_va en - base + Z.of_nat (length (encode_stub k)) ≤ size → bitmap_bit bitmap (fe_target_va en - base) = false;
}.

Lemma planted_skip es en e bm cur : planted es e bm cur →
  (∀ k, real_kind cfg en = Some k → needs_out_of_line_helper k = true ∨ fe_target_va en < base ∨
        size < fe_target_va en - base + Z.of_nat (length (encode_stub k))) →
  planted (es ++ [en]) e bm cur.
Proof.
  intros [H1' H2' H3' H4' H5' H6' H7' H8'] Hskip. split; [done..| |].
  - intros off Ho Hm Hb. destruct (H7' off Ho Hm Hb) as (x & k & Hx & Hrest). exists x, k. split; [|done]. apply elem_of_app. by left.
  - intros x k [Hx|Hx%list_elem_of_singleton]%elem_of_app Hk Hin Hva Hfit; [by eapply H8'|]. subst x.
    destruct (Hskip k Hk) as [?|[?|?]]; [congruence|lia|lia].
Qed.

(** A write in another slot of the window, or in free helper space. *)
Lemma code_at_framed e e' va k top top' lo hi : layout_ok → framed lo hi e e' → base ≤ va → code_at e va k top → top ≤ top' →
  base ≤ lo ∧ hi ≤ base + size ∧ (hi ≤ va ∨ va + 16 ≤ lo) ∨ top ≤ lo ∧ hbase ≤ lo ∧ hi ≤ hbase + hsize →
  code_at e' va k top'.
Proof.
  intros [? ? ? Hap] Hf Hva (h & Hh & Hfit & Hbody) Htop Hd. pose proof (entry_length k h). exists h. split; [|split; [done|]].
  - eapply holds_framed; [exact Hf|done|lia].
  - intros Hk. destruct (Hbody Hk) as (? & ? & ? & Hb). split; [done|]. split; [lia|]. split; [done|].
    eapply holds_framed; [exact Hf|done|lia].
Qed.

(** The body of a call goes to free helper space. *)
Lemma planted_helper es e bm cur bs : layout_ok → planted es e bm cur → cur + Z.of_nat (length bs) ≤ hbase + hsize →
  ∃ e', mem_write cur bs e = (e', Ok tt) ∧ planted es e' bm cur ∧ holds e' cur bs.
Proof.
  intros Hlo [H1' H2' H3' H4' H5' H6' H7' H8'] Hfit.
  destruct (write_spec e cur bs hbase (hbase + hsize) H1') as (e' & Hw & Hi & Hacc & Hh & Hf);
    [by replace (hbase + hsize - hbase) with hsize by lia|lia|lia|].
  exists e'. split; [done|]. split; [|done]. split; [done|by eapply accessible_framed|by eapply accessible_framed| |done|done| |done].
  - intros x Hx Hy. rewrite <- H4' by done. apply (fr_out _ _ _ _ Hf). lia.
  - intros off Ho Hm Hb. destruct (H7' off Ho Hm Hb) as (x & k & Hx & Hva & Hk & Hc). exists x, k. split; [done|]. split; [done|].
    split; [done|]. eapply code_at_framed; [done|exact Hf|lia|done|done|]. right. lia.
Qed.
(** The code of a call goes to its slot, its bits are cleared. *)
Lemma planted_slot es e bm cur en k h top : layout_ok → planted es e bm cur → real_kind cfg en = Some k →
  base ≤ fe_target_va en → aligned en → fe_target_va en - base + Z.of_nat (length (entry_code k h)) ≤ size →
  (needs_out_of_line_helper k = true → body_at e k h top) → cur ≤ top →
  ∃ e', mem_write (fe_target_va en) (entry_code k h) e = (e', Ok tt) ∧
    planted (es ++ [en]) e' (clear_bits (fe_target_va en - base) (length (entry_code k h)) bm) top.
Proof.
  intros Hlo [H1' H2' H3' H4' H5' H6' H7' H8'] Hk Hva Hal Hfit Hbody Htop. set (va := fe_target_va en) in *.
  destruct (write_spec e va (entry_code k h) base (base + size) H1') as (e' & Hw & Hi & Hacc & Hh & Hf);
    [by replace (base + size - base) with size by lia|lia|lia|]. pose proof (entry_length k h) as Hl. pose proof Hlo as [? ? ? ?].
  exists e'. split; [done|]. split; [done|by eapply accessible_framed|by eapply accessible_framed| |by rewrite length_clear_bits|lia| |].
  - intros x Hx Hy. rewrite <- H4' by done. apply (fr_out _ _ _ _ Hf). lia.
  - intros off Ho Hm Hb. rewrite clear_bits_spec in Hb by lia. destruct (decide (off = va - base)) as [->|Hne].
    + exists en, k. split; [apply elem_of_app; right; by apply list_elem_of_singleton|]. split; [lia|]. split; [done|].
      replace (base + (va - base)) with va by lia. exists h. split; [done|]. split; [lia|]. intros Hk'.
      destruct (Hbody Hk') as (? & ? & ? & Hb'). split; [done|]. split; [done|]. split; [done|].
      eapply holds_framed; [exact Hf|done|lia].
    + assert (Hmod : (va - base) mod 16 = 0) by (by apply Hal). assert (Hapart : off + 16 ≤ va - base ∨ va - base + 16 ≤ off).
      { pose proof (Z.div_mod off 16 ltac:(lia)). pose proof (Z.div_mod (va - base) 16 ltac:(lia)). nia. }
      unfold cleared in Hb. rewrite bool_decide_eq_false_2 in Hb by lia. rewrite andb_true_r in Hb.
      destruct (H7' off Ho Hm Hb) as (x & k' & Hx & Hxa & Hxk & Hc). exists x, k'. split; [apply elem_of_app; by left|]. split; [done|].
      split; [done|]. eapply code_at_framed; [done|exact Hf|lia|done|done|]. left. lia.
  - intros x k' Hx Hxk Hin Hxa Hxf. rewrite clear_bits_spec by lia. apply elem_of_app in Hx as [Hx|Hx%list_elem_of_singleton].
    + by rewrite (H8' x k' Hx Hxk Hin Hxa Hxf).
    + subst x. unfold cleared. fold va. rewrite (bool_decide_eq_true_2 (va - base ≤ va - base < _)) by lia. by rewrite andb_false_r.
Qed.

Lemma round_up (len : Z) : 0 ≤ len → len + 15 < u64_lim → len ≤ Z.ldiff (sat_add len 15) 15.
Proof.
  intros Hpos Hlim. rewrite sat_add_lt by done. change 15 with (Z.ones 4) at 2. rewrite Z.ldiff_ones_r by lia.
  rewrite Z.shiftl_mul_pow2, Z.shiftr_div_pow2 by lia. pose proof (Z.div_mod (len + 15) (2 ^ 4) ltac:(lia)).
  pose proof (Z.mod_pos_bound (len + 15) (2 ^ 4) ltac:(lia)). lia.
Qed.

Lemma plant_one_ok es e bm cur en : layout_ok → aligned en → planted es e bm cur →
  ∃ e' state, plant_one base size cfg hbase hsize en (bm, cur) e = (e', Ok state) ∧ planted (es ++ [en]) e' state.1 state.2.
Proof.
  intros Hlo Hal Hp. pose proof Hlo as [? ? (? & ? & Hlim) ?]. pose proof (pl_cursor _ _ _ _ Hp) as Hcur. unfold plant_one.
  destruct (real_kind cfg en) as [k|] eqn:Hk; [|by exists e, (bm, cur); split; [|apply planted_skip; [|intros k Hk'; congruence]]].
  cbv zeta. destruct (decide (fe_target_va en < base)) as [Hlow|Hva].
  { exists e, (bm, cur). split; [done|]. apply planted_skip; [done|]. auto. }
  destruct (needs_out_of_line_helper k) eqn:Hn.
  - assert (Hskip : ∀ e', planted es e' bm cur → planted (es ++ [en]) e' bm cur).
    { intros e' He. apply planted_skip; [done|]. intros k' Hk'. assert (k' = k) as -> by congruence. by left. }
    rewrite sat_add_lt by lia. destruct (checked_add cur _) as [stop|] eqn:Hs; [|by exists e, (bm, cur); split; [|apply Hskip]].
    apply checked_add_Some in Hs as [-> _]. destruct (decide _) as [Hfull|Hroom]; [by exists e, (bm, cur); split; [|apply Hskip]|].
    destruct (planted_helper es e bm cur (encode_stub k) Hlo Hp ltac:(lia)) as (e1 & Hw & Hp1 & Hh).
    erewrite bind_ok by (apply context_ok; exact Hw). destruct (checked_add _ 12) as [stop|] eqn:Hs; [|by exists e1, (bm, cur); split; [|apply Hskip]].
    apply checked_add_Some in Hs as [-> _]. destruct (decide _) as [Hlast|Hfit]; [by exists e1, (bm, cur); split; [|apply Hskip]|].
    assert (Hcode : entry_code k cur = jmp_to cur) by (unfold entry_code; by rewrite Hn).
    pose proof (stub_length k) as Hshort.
    pose proof (round_up (Z.of_nat (length (encode_stub k))) ltac:(lia) ltac:(lia)) as Hround.
    destruct (planted_slot es e1 bm cur en k cur (sat_add cur (Z.ldiff (sat_add (Z.of_nat (length (encode_stub k))) 15) 15)) Hlo Hp1 Hk)
      as (e2 & Hw2 & Hp2); [lia|done|rewrite Hcode, length_jmp_to; lia| | |].
    + intros _. unfold body_at, sat_add in *. split_and!; [lia|lia|lia|done].
    + unfold sat_add in *. lia.
    + rewrite Hcode in Hw2, Hp2. rewrite length_jmp_to in Hp2. erewrite bind_ok by (apply context_ok; exact Hw2). by eexists _, (_, _).
  - assert (Hskip : size < fe_target_va en - base + Z.of_nat (length (encode_stub k)) → planted (es ++ [en]) e bm cur).
    { intros Hbig. apply planted_skip; [done|]. intros k' Hk'. assert (k' = k) as -> by congruence. auto. }
    destruct (checked_add _ _) as [stop|] eqn:Hs.
    2: { apply checked_add_None in Hs. exists e, (bm, cur). split; [done|]. apply Hskip. lia. }
    apply checked_add_Some in Hs as [-> _]. destruct (decide _) as [Hbig|Hfit]; [by exists e, (bm, cur); split; [|apply Hskip]|].
    assert (Hcode : entry_code k cur = encode_stub k) by (unfold entry_code; by rewrite Hn).
    destruct (planted_slot es e bm cur en k cur cur Hlo Hp Hk) as (e1 & Hw & Hp1); [lia|done|rewrite Hcode; lia|congruence|lia|].
    rewrite Hcode in Hw, Hp1. erewrite bind_ok by (apply context_ok; exact Hw). by eexists _, (_, _).
Qed.

Lemma fresh_bit n i : 0 ≤ i < Z.of_nat n * 8 → bitmap_bit (replicate n 0xff) i = true.
Proof.
  intros Hi. unfold bitmap_bit. rewrite lookup_replicate_2.
  2: { apply Nat2Z.inj_lt. rewrite Z2Nat.id by (apply Z.div_pos; lia). apply Z.div_lt_upper_bound; lia. }
  change 0xff with (Z.ones 8). apply Z.ones_spec_low. apply Z.mod_pos_bound. lia.
Qed.
Lemma plant_all_ok es : ∀ done_es e bm cur, layout_ok → Forall aligned es → planted done_es e bm cur →
  ∃ e' state, plant_all base size cfg hbase hsize es (bm, cur) e = (e', Ok state) ∧ planted (done_es ++ es) e' state.1 state.2.
Proof.
  induction es as [|en es IH]; intros done_es e bm cur Hlo Hal Hp; cbn [plant_all].
  - exists e, (bm, cur). by rewrite app_nil_r.
  - apply Forall_cons in Hal as [Ha Hal]. destruct (plant_one_ok done_es e bm cur en Hlo Ha Hp) as (e1 & [bm1 cur1] & Hr & Hp1).
    erewrite bind_ok by exact Hr. destruct (IH _ e1 bm1 cur1 Hlo Hal Hp1) as (e2 & st & Hr2 & Hp2). exists e2, st.
    by rewrite <- app_assoc in Hp2.
Qed.
End Plant.

(** C21 Planting succeeds, and the host takes over exactly where no code is
    planted: an address of the window at which the bitmap does not stop the engine is
    that of a call with a planted answer, and there is its code, or a jump to its code
    in the helper region; the address of any other call stops the engine; a call
    whose answer fits its slot always gets it; other memory stays as it is. *)
Theorem stubs_planted {E} `{CpuMemLaws E} base size cfg hbase hsize es (e : E) :
  layout_ok base size hbase hsize → Forall (aligned base) es → mem_inv e → accessible e base size → accessible e hbase hsize →
  ∃ e' bitmap, plant_guest_stubs base size cfg hbase hsize es e = (e', Ok bitmap) ∧ length bitmap = Z.to_nat ((size + 7) / 8) ∧
    mem_inv e' ∧
    (∀ off, 0 ≤ off < size → off mod 16 = 0 →
       bitmap_bit bitmap off = true ∨
       ∃ en k, en ∈ es ∧ fe_target_va en = base + off ∧ real_kind cfg en = Some k ∧
         code_at base size hbase hsize e' (base + off) k u64_lim) ∧
    (∀ off, 0 ≤ off < size → off mod 16 = 0 → (∀ en, en ∈ es → fe_target_va en = base + off → real_kind cfg en = None) →
       bitmap_bit bitmap off = true) ∧
    (∀ en k, en ∈ es → real_kind cfg en = Some k → needs_out_of_line_helper k = false → base ≤ fe_target_va en →
       fe_target_va en - base + Z.of_nat (length (encode_stub k)) ≤ size → bitmap_bit bitmap (fe_target_va en - base) = false) ∧
    ∀ x, ¬ (base ≤ x < base + size) → ¬ (hbase ≤ x < hbase + hsize) → mem_get e' x = mem_get e x.
Proof.
  intros Hlo Hal Hi Hwin Hhelp. pose proof Hlo as [? [? ?] (? & ? & ?) ?]. set (bm := replicate (Z.to_nat ((size + 7) / 8)) 0xff).
  assert (Hfresh : ∀ off, 0 ≤ off < size → bitmap_bit bm off = true).
  { intros off Hoff. apply fresh_bit. rewrite Z2Nat.id by (apply Z.div_pos; lia). pose proof (Z.div_mod (size + 7) 8 ltac:(lia)).
    pose proof (Z.mod_pos_bound (size + 7) 8 ltac:(lia)). lia. }
  destruct (plant_all_ok base size cfg hbase hsize e es [] e bm hbase Hlo Hal) as (e' & [bm' cur] & Hr & [P1 P2 P3 P4 P5 P6 P7 P8]).
  { split; [done..|by unfold bm; rewrite length_replicate|lia| |by intros ? ? ?%elem_of_nil]. intros off Hoff _. by rewrite Hfresh. }
  cbn [fst snd app] in *. exists e', bm'. split; [unfold plant_guest_stubs; by erewrite bind_ok by exact Hr|]. split; [done|]. split; [done|].
  assert (Hcode : ∀ off, 0 ≤ off < size → off mod 16 = 0 → bitmap_bit bm' off = true ∨
    ∃ en k, en ∈ es ∧ fe_target_va en = base + off ∧ real_kind cfg en = Some k ∧ code_at base size hbase hsize e' (base + off) k u64_lim).
  { intros off Hoff Hm. destruct (bitmap_bit bm' off) eqn:Hb; [by left|right]. destruct (P7 off Hoff Hm Hb) as (en & k & Hen & Hva & Hk & h & Hh & Hf & Hbody).
    exists en, k. split; [done|]. split; [done|]. split; [done|]. exists h. split; [done|]. split; [done|]. intros Hn.
    destruct (Hbody Hn) as (? & ? & ? & ?). split_and!; [done|lia|done|done]. }
  split; [done|]. split; [|done]. intros off Hoff Hm Hnone. destruct (Hcode off Hoff Hm) as [?|(en & k & Hen & Hva & Hk & _)]; [done|].
  by rewrite (Hnone en Hen Hva) in Hk.
Qed.
