(* ===== verification/win32_demo.v ===== *)
(** * The WinAPI handlers on a concrete machine

    The interpreter with one megabyte of writable memory and a call frame, and
    the theorems about the handlers applied to it. *)

From S2P Require Import Prelude utf protect pagemap vad arena region mem mem_access mem_ops mem_safe mem_demo.
From S2P Require Import regs insn engine iced_cpu exec_wf guest_heap heap_coherent cpu.
From S2P Require Import guest_string sync_obj thread dispatch_table win32.
From S2P Require Import k32_sync k32_thread k32_memory k32_misc k32_info k32_string k32_dispatch.
From S2P Require Import win32_spec k32_misc_spec.

#[local] Existing Instance demo_os.
#[local] Existing Instance demo_laws.
#[local] Instance demo_map : CpuMap (GuestMemory * IcedCpu) := IcedCpu_CpuMap None.
#[local] Instance demo_api : CpuApiLaws (GuestMemory * IcedCpu) := IcedCpu_CpuApiLaws None.

Definition demo_sp : Z := demo_ctrl + 0xff8.
Definition demo_ra : Z := 0x140001000.
(** The caller has pushed its return address. *)
Definition call_mem : GuestMemory := guest_heap.write_u64 demo_sp demo_ra heap_mem0.
Definition call_regs (rcx rdx r8 : u64) : RegFile :=
  set_gpr 8 r8 (set_rdx rdx (set_rcx rcx (set_rsp demo_sp (i_regs new_engine)))).
Definition call_cpu (rcx rdx r8 : u64) : GuestMemory * IcedCpu := (call_mem, with_regs (call_regs rcx rdx r8) new_engine).
(** FLS index 0 handed out, the guest table at the start of the memory. *)
Definition demo_win : WinApiState :=
  mkWin host_heap 1 [(0, 0)] demo_ctrl 0 primary sync_new 0xc000 [] None.
Definition call_at (rcx rdx r8 : u64) : Api (GuestMemory * IcedCpu) := mkApi (call_cpu rcx rdx r8) demo_win.

Lemma call_mem_ok : mem_inv call_mem ∧ ∀ x, demo_ctrl ≤ x < demo_end → mem_rw call_mem x.
Proof.
  destruct heap_mem0_ok as [Hi Hrw].
  destruct (write_u64_spec heap_mem0 demo_sp demo_ra Hi) as (Hi' & Hrw' & _);
    [split_and!; [done..|]; intros x Hx; apply Hrw; unfold demo_sp, demo_ctrl, demo_end in *; lia|by vm_compute|].
  split; [done|]. intros x Hx. by apply Hrw', Hrw.
Qed.
Lemma call_mem_zero a n : demo_ctrl ≤ a → a + Z.of_nat n ≤ demo_sp → holds call_mem a (replicate n 0).
Proof.
  intros Ha Hn i b [-> Hlt]%lookup_replicate.
  assert (Hall : Forall (λ k, gbyte call_mem (demo_ctrl + k) = Some 0) (seqZ 0 0xff8))
    by (clear; apply (bool_decide_unpack _); vm_compute; exact I).
  rewrite Forall_forall in Hall. replace (a + Z.of_nat i) with (demo_ctrl + (a + Z.of_nat i - demo_ctrl)) by lia.
  apply Hall, elem_of_seqZ. unfold demo_sp in Hn. lia.
Qed.
Lemma call_accessible rcx rdx r8 a n : demo_ctrl ≤ a → a + n ≤ demo_end → accessible (call_cpu rcx rdx r8) a n.
Proof.
  intros Ha Hn. destruct call_mem_ok as [_ Hrw]. unfold demo_ctrl, demo_end in *.
  split_and!; [lia|lia|]. intros x Hx. apply Hrw. unfold demo_ctrl, demo_end. lia.
Qed.
Lemma call_frame_ok rcx rdx r8 : call_frame (call_cpu rcx rdx r8) demo_sp demo_ra.
Proof.
  split.
  - exact (proj1 call_mem_ok).
  - reflexivity.
  - apply call_accessible; unfold demo_sp, demo_ctrl, demo_end; lia.
  - intros i b Hb. change (gbyte call_mem (demo_sp + Z.of_nat i) = Some b).
    assert (Hall : imap (λ i _, gbyte call_mem (demo_sp + Z.of_nat i)) (le_bytes 8 demo_ra) = Some <$> le_bytes 8 demo_ra)
      by (clear; vm_compute; reflexivity).
    apply (f_equal (.!! i)) in Hall. rewrite list_lookup_imap, list_lookup_fmap, Hb in Hall. cbn [fmap option_fmap option_map] in Hall. exact (inj Some _ _ Hall).
  - exact (in_u64_lit eq_refl).
Qed.
Lemma call_cpu_zero rcx rdx r8 a n : demo_ctrl ≤ a → a + Z.of_nat n ≤ demo_sp → holds (call_cpu rcx rdx r8) a (replicate n 0).
Proof. exact (call_mem_zero a n). Qed.

(** ** Critical sections: two threads, the second parks *)

Definition demo_cs : Z := demo_ctrl + 0x800.
Definition contended : list cs_op := [Enter 7; Enter 7; Enter 9; Leave 9; Leave 7; Leave 7; Enter 9].
Lemma cs_mutex_witness :
  ∃ e', (_ ← write_critical_section_unlocked demo_cs 0; cs_calls demo_cs contended) (call_at 0 0 0) =
          (mkApi e' demo_win, Ok [true; true; false; false; false; true; true]) ∧
    cs_mem e' demo_cs (Some (9, 1)).
Proof.
  destruct (cs_mutex demo_cs 0 contended (call_at 0 0 0)) as (e' & Hr & Hm & _).
  - exact (proj1 call_mem_ok).
  - apply call_accessible; unfold demo_cs, demo_ctrl, demo_end; lia.
  - repeat constructor; cbn; lia.
  - cbn. lia.
  - exists e'. split; [exact Hr|exact Hm].
Defined.

(** ** InterlockedDecrement of zero: all ones in memory, minus one in RAX *)

Lemma interlocked_handlers_witness :
  ∃ e', interlocked_handler Decrement Long (call_at demo_cs 0 0) = (mkApi e' demo_win, Ok (Return demo_ra 0xffffffffffffffff)) ∧
    holds e' demo_cs (replicate 4 255) ∧ context_reg Rsp (snapshot_thread_context e') = demo_sp + 8.
Proof.
  destruct (interlocked_handlers Decrement Long (call_at demo_cs 0 0) demo_sp demo_ra 0) as (e' & Hr & Hh & _ & Hc).
  - apply call_frame_ok.
  - discriminate.
  - apply (call_accessible _ _ _ demo_cs 4); discriminate.
  - left. discriminate.
  - split; [discriminate|reflexivity].
  - apply (call_cpu_zero _ _ _ demo_cs 4); [discriminate|discriminate].
  - exists e'. split; [exact Hr|]. split; [exact Hh|]. rewrite Hc. reflexivity.
Defined.

(** ** FlsSetValue(0, 0x1234) *)

Lemma demo_mirrored rcx rdx r8 : mirrored (call_at rcx rdx r8) demo_ctrl.
Proof.
  split.
  - split; reflexivity.
  - apply call_accessible; unfold demo_ctrl, demo_end; lia.
  - intros i Hi. replace (slot_value i (w_fls_slots (a_win (call_at rcx rdx r8)))) with 0 by (unfold slot_value; cbn; by case_bool_decide).
    apply (call_cpu_zero _ _ _ _ 8); unfold demo_sp, demo_ctrl; lia.
Qed.
Lemma fls_mirror_witness :
  ∃ e' w', fls_handler Fls_set (call_at 0 0x1234 0) = (mkApi e' w', Ok (Return demo_ra 1)) ∧
    mirrored (mkApi e' w') demo_ctrl ∧ slot_value 0 (w_fls_slots w') = 0x1234.
Proof.
  destruct (fls_mirror Fls_set (call_at 0 0x1234 0) demo_ctrl demo_sp demo_ra) as (e' & w' & Hr & _ & Hm & _ & Hv).
  - split; [|split; [discriminate|reflexivity]].
    intros i v [= -> ->]%list_elem_of_singleton. split; [split; [discriminate|reflexivity]|exact (in_u64_lit eq_refl)].
  - apply demo_mirrored.
  - apply call_frame_ok.
  - right. discriminate.
  - split; [discriminate|reflexivity].
  - exact (in_u64_lit eq_refl).
  - exists e', w'. split; [exact Hr|]. split; [exact Hm|]. exact (Hv 0).
Defined.

(** ** GetLastError, found by its identifier *)

Definition demo_environment : WinApiEnvironment := mkEnvironment 0x140000000 0x10000 0x20000 0x30000 0x50000 0x60000 0x40000.

(** * An exception at work

    A module of two functions: the inner one throws past a destructor, the outer
    one catches.  The tables are read by the search, and the plan is run on the
    interpreter. *)

From S2P Require Import Prelude utf protect pagemap vad arena region mem mem_access mem_ops mem_safe mem_demo.
From S2P Require Import regs insn engine iced_cpu exec_wf heap_coherent cpu.
From S2P Require Import guest_string thread fake_va win32 win32_spec.
From S2P Require Import exception lsda msvc_eh msvc_spec lsda_spec seh seh_spec.

#[local] Existing Instance demo_os.
#[local] Existing Instance demo_laws.
#[local] Existing Instance demo_map.
#[local] Existing Instance demo_api.

(** ** The module *)

Definition image : Z := 0x140000000.
Definition words (ws : list Z) : list u8 := mjoin (le_bytes 4 <$> ws).
(** 40 bytes of locals, a handler, and the RVA of the FuncInfo as its data. *)
Definition frame_info (func_info : Z) : list u8 := [0x09; 4; 1; 0; 4; 0x42; 0; 0] ++ words [0x1f00; func_info].
Definition thrower : RuntimeFunction := mkRuntimeFunction 0x1000 0x1100 0x2000.
Definition catcher : RuntimeFunction := mkRuntimeFunction 0x1800 0x1900 0x2020.
Definition module_tables : segments :=
  [(image + 0x2000, frame_info 0x2100); (image + 0x2020, frame_info 0x2180);
   (* the inner function: one state with a destructor *)
   (image + 0x2100, words [FUNCINFO_MAGIC_V3; 1; 0x2140; 0; 0; 1; 0x2150]);
   (image + 0x2140, words [0xffffffff; 0x1300]); (image + 0x2150, words [0x1000; 0]);
   (* the outer one: states 0 and 1 in the try block, its handlers, its addresses *)
   (image + 0x2180, words [FUNCINFO_MAGIC_V3; 2; 0x21c0; 1; 0x21e0; 2; 0x2200]);
   (image + 0x21c0, words [0xffffffff; 0; 0; 0x1310]);
   (image + 0x21e0, words [0; 1; 2; 2; 0x2220]);
   (image + 0x2200, words [0x1800; 0xffffffff; 0x1810; 1]);
   (image + 0x2220, words [0; 0x2600; 0x20; 0x1c00; 0] ++ words [HT_IS_REFERENCE; 0x2640; 0x20; 0x1c80; 0]);
   (* what is thrown *)
   (image + 0x2700, words [0; 0; 0; 0x2720]); (image + 0x2720, words [1; 0x2740]); (image + 0x2740, words [0; 0x2640; 0; 0; 0; 4])].
Definition throw_rsp : Z := demo_sp + 8.
(** The return address of the inner function, in the outer one. *)
Definition throw_memory : segments := (throw_rsp + 40, le_bytes 8 (image + 0x1850)) :: module_tables.
Definition demo_reader : u64 → nat → res (list u8) := seg_reader 0x150000000 throw_memory.
Definition module_sync : SyncState :=
  mkSync 0 ∅ [] ∅ ∅ 0%nat 0 [] ∅ ∅ false {[ image := [thrower; catcher] ]}.
Definition demo_payload : ThrowPayload := mkPayload 0x110000000 (image + 0x2700) false.
Definition throw_context : ThreadContext := snapshot (call_regs 0 0 0).
Definition demo_search : res (HandlerFound * list SehStep) :=
  search_and_plan demo_reader map_to_list 2 module_sync throw_context (image + 0x1050) throw_rsp demo_payload.
Definition demo_steps : list SehStep := [Action (image + 0x1300) throw_rsp; Action (image + 0x1310) (throw_rsp + 48)].

Lemma demo_search_plan : ∃ h, demo_search = Ok (h, demo_steps) ∧ hf_landing_pad h = image + 0x1c80.
Proof.
  destruct demo_search as [[h steps]|e|w] eqn:Hs; [|exfalso; revert Hs; clear; vm_compute; discriminate..].
  assert (Hv : match demo_search with Ok (h, steps) => (hf_landing_pad h, steps) | _ => (0, []) end = (image + 0x1c80, demo_steps))
    by (clear; vm_compute; reflexivity).
  rewrite Hs in Hv. pose proof (f_equal fst Hv) as Hpad. pose proof (f_equal snd Hv) as Hsteps. cbn [fst snd] in Hpad, Hsteps.
  exists h. split; [by rewrite Hsteps|exact Hpad].
Qed.

Lemma search_innermost_witness :
  ∃ h mid frame acts k,
    passes demo_reader map_to_list 2 module_sync demo_payload None (new_ctx (image + 0x1050) throw_rsp throw_context) mid frame k ∧
    (k < 64)%nat ∧ catches demo_reader map_to_list 2 module_sync demo_payload None frame h acts ∧ demo_steps = mid ++ acts.
Proof.
  destruct demo_search_plan as (h & Hs & _). exists h.
  exact (proj1 (search_innermost demo_reader map_to_list 2 module_sync throw_context (image + 0x1050) throw_rsp demo_payload None h
    demo_steps eq_refl) Hs).
Defined.

Lemma exception_runs_plan_witness :
  ∃ h, hf_landing_pad h = image + 0x1c80 ∧
    runs_plan map_to_list 2 (Action (image + 0x1300) throw_rsp) [Action (image + 0x1310) (throw_rsp + 48); terminal_step h demo_payload]
      (begin_or_finish h demo_steps demo_payload) (call_at 0 0 0).
Proof.
  destruct demo_search_plan as (h & Hs & Hpad). exists h. split; [exact Hpad|].
  apply (exception_runs_plan map_to_list 2 demo_reader module_sync throw_context (image + 0x1050) throw_rsp demo_payload h demo_steps).
  - exact Hs.
  - reflexivity.
  - change (stack_ok (call_cpu 0 0 0) demo_sp). split.
    + exact (proj1 call_mem_ok).
    + reflexivity.
    + discriminate.
    + apply call_accessible; unfold demo_sp, demo_ctrl, demo_end; lia.
Defined.

(** ** The tables of the outer function *)

Definition demo_info : FuncInfoHeader := mkFuncInfo FUNCINFO_MAGIC_V3 2 0x21c0 1 0x21e0 2 0x2200.
Definition demo_try : TryBlockMapEntry := mkTry 0 1 2 2 0x2220.
Definition demo_handlers : list HandlerType := [mkHandler 0 0x2600 0x20 0x1c00 0; mkHandler HT_IS_REFERENCE 0x2640 0x20 0x1c80 0].

Lemma find_msvc_catch_spec_witness :
  ∃ c, find_msvc_catch demo_reader image (image + 0x2180) (image + 0x1850) (image + 0x2700) = Ok (Some c) ∧
    mc_landing_pad c = image + 0x1c80.
Proof.
  assert (Hreads : reads_tries demo_reader image demo_info [(demo_try, demo_handlers)]).
  { split; [reflexivity|discriminate|]. intros i tb hs Hi. destruct i as [|i]; [|by destruct i]. injection Hi as <- <-.
    split; [vm_compute; reflexivity|]. split; [reflexivity|]. split; [discriminate|].
    intros j ht Hj. destruct j as [|[|j]]; [injection Hj as <-..|by destruct j]; (split; [vm_compute; reflexivity|discriminate]). }
  rewrite (find_msvc_catch_spec demo_reader image demo_info [(demo_try, demo_handlers)] Hreads (image + 0x2180) (image + 0x1850)
    (image + 0x2700) 1 (Some [0x2640])); [|vm_compute; reflexivity..].
  eexists. split; reflexivity.
Defined.

Lemma unwind_actions_spec_witness : collect_unwind_actions demo_reader image 0x21c0 2 1 (-1) = Ok [0x1310].
Proof.
  apply (unwind_actions_spec demo_reader image 0x21c0 2 1 (-1) [0x1310] 2).
  - discriminate.
  - apply (unwinds_next demo_reader image 0x21c0 (-1) 1 (mkUnwindEntry 0 0x1310) [] 1); [done|done|vm_compute; reflexivity|done|].
    apply (unwinds_next demo_reader image 0x21c0 (-1) 0 (mkUnwindEntry (-1) 0) [] 0); [done|done|vm_compute; reflexivity|done|].
    apply unwinds_end. by right.
  - lia.
  - done.
Defined.

(** ** Where C++ says otherwise *)

(** A catch-all around the throw, a handler of the type further out: C++ enters
    the catch-all. *)
Lemma inner_catch_all_loses :
  let inner := (mkTry 1 1 2 1 0x2220, mkHandler HT_IS_STD_DOT_DOT 0 0 0x1c00 0) in
  let outer := (mkTry 0 2 3 1 0x2240, mkHandler 0 0x2640 0 0x1c80 0) in
  msvc_spec.chosen (Some [0x2640]) [inner; outer] = Some outer.
Proof. reflexivity. Qed.

(** A chain of 65 states: the destructor of the last one is not run. *)
Definition long_map : segments := [(image + 0x3000, mjoin ((λ i, words [(i - 1) mod 2 ^ 32; 0x1000 + i]) <$> seqZ 0 65))].
Lemma sixty_fifth_destructor_skipped :
  collect_unwind_actions (seg_reader 0x150000000 long_map) image 0x3000 65 64 (-1) = Ok ((λ i, 0x1000 + 64 - i) <$> seqZ 0 64).
Proof. vm_compute. reflexivity. Qed.

(** ** A program with one window and two messages for it *)

From S2P Require Import user32 user32_spec.

Definition demo_proc : u64 := 0x140002000.
Definition demo_class : WindowClassRecord := mkClass 0xc000 [77; 97; 105; 110] demo_proc 0 0 0 0 0 0 false.
Definition demo_window : WindowRecord :=
  mkWindow 0x10000 0xc000 [77; 97; 105; 110] demo_proc false [] 0 0 0 0 0 10 20 300 200 false true.
Definition demo_message (h : u64) (msg : u32) (t : u32) : QueuedWindowMessage := mkMessage h msg 7 9 t 0 0.
Definition demo_queue : Messages := mkMessages [demo_message 0x10000 0x400 1; demo_message 0x10000 0x401 2] 3 ExitOnIdle.
Definition demo_tables : Windows := mkWindows 0xc001 [demo_class] 0x10001 [demo_window].
Definition demo_user : UserState :=
  mkUserState (mkMain false true 0 0 0 0 0 [] 0 0 640 480 false) demo_queue demo_tables [] (replicate 256 0) 1 [] 1 [] [] [] 1.
Definition user_at (rcx rdx r8 : u64) : UserApi (GuestMemory * IcedCpu) := mkUser (call_at rcx rdx r8) demo_user.
Definition demo_msg_at : Z := demo_ctrl + 0x100.

Lemma demo_tables_ok : windows_ok demo_tables.
Proof.
  split; cbn.
  - apply NoDup_singleton.
  - by repeat constructor.
  - intros i j c d [-> <-]%list_lookup_singleton_Some [-> <-]%list_lookup_singleton_Some. done.
  - by repeat constructor.
  - apply NoDup_singleton.
  - by repeat constructor.
  - repeat constructor. intros _. exists demo_class. split; [by left|done].
  - done.
Qed.
Lemma user_row (k : nat) r : user32_rows (E := GuestMemory * IcedCpu) !! k = Some r → (r.1, r.2) ∈ user32_rows (E := GuestMemory * IcedCpu).
Proof. intros Hk. apply list_elem_of_lookup_2 in Hk. by destruct r. Qed.

(** GetSystemMetrics(SM_CXSCREEN) *)
Lemma user_calls_keep_convention_witness :
  (handle_get_system_metrics (user_at 0 0 0)).2 = Ok (Return demo_ra 1024) ∧
  snapshot_thread_context (a_cpu (u_api (handle_get_system_metrics (user_at 0 0 0)).1)) =
    returned_context 1024 demo_ra (snapshot_thread_context (call_cpu 0 0 0)).
Proof.
  assert (Hr : (handle_get_system_metrics (user_at 0 0 0)).2 = Ok (Return demo_ra 1024)) by (clear; vm_compute; reflexivity).
  split; [exact Hr|].
  pose proof (user_calls_keep_convention User32Getsystemmetrics handle_get_system_metrics (user_at 0 0 0)
    (user_row 11 (User32Getsystemmetrics, handle_get_system_metrics) eq_refl)) as H.
  rewrite Hr in H. exact H.
Defined.

(** GetMessage for the window, then one for any: the messages come in their order. *)
Definition after_get : UserState := u_state (handle_get_message_a (user_at demo_msg_at 0x10000 0)).1.
Definition get_event : queue_event := Taken (mkFilter 0x10000 0 0) (demo_message 0x10000 0x400 1).
Lemma message_queue_fifo_witness :
  message_queue (messages after_get) = [demo_message 0x10000 0x401 2] ∧
  queue_run (messages demo_user) [get_event] (messages after_get) ∧
  ∃ s', handle_get_message_a (user_at demo_msg_at 0x10000 0) = (s', Ok (Return demo_ra 1)) ∧
    mirrors (a_cpu (u_api s')) demo_msg_at (message_image (demo_message 0x10000 0x400 1)).
Proof.
  split; [clear; vm_compute; reflexivity|].
  assert (He : call_events User32Getmessagea (user_at demo_msg_at 0x10000 0) ++ [] = [get_event]) by (clear; vm_compute; reflexivity).
  assert (Ht : user_trace (E := GuestMemory * IcedCpu) demo_user [get_event] after_get).
  { rewrite <- He. unfold after_get, user_at. apply (trace_call User32Getmessagea handle_get_message_a (call_at demo_msg_at 0x10000 0)).
    - exact (user_row 96 (User32Getmessagea, handle_get_message_a) eq_refl).
    - apply trace_none. }
  destruct (message_queue_fifo demo_user [get_event] after_get Ht) as (Hr & _ & _ & _ & Hgot). split; [exact Hr|].
  refine (proj1 (Hgot (user_at demo_msg_at 0x10000 0) demo_msg_at demo_sp demo_ra (demo_message 0x10000 0x400 1) _ _ _ _ _) _).
  - reflexivity.
  - exact (call_frame_ok demo_msg_at 0x10000 0).
  - reflexivity.
  - apply (call_accessible _ _ _ demo_msg_at 48); unfold demo_msg_at, demo_ctrl, demo_end; lia.
  - left. discriminate.
  - discriminate.
Defined.

(** SendMessage(window, 0x402) asks for the class's procedure. *)
Definition demo_request (msg : u32) (wp lp : u64) : GuestCallbackRequest := mkRequest demo_proc 0x10000 msg wp lp false.
Lemma window_procedures_registered_witness :
  (handle_send_message_a (user_at 0x10000 0x402 5)).2 = Ok (Signal (GuestCallbackRequested (demo_request 0x402 5 0))) ∧
  registered (demo_request 0x402 5 0) (window_tables (u_state (handle_send_message_a (user_at 0x10000 0x402 5)).1)).
Proof.
  assert (Hr : (handle_send_message_a (user_at 0x10000 0x402 5)).2 = Ok (Signal (GuestCallbackRequested (demo_request 0x402 5 0))))
    by (clear; vm_compute; reflexivity).
  split; [exact Hr|]. unfold user_at in *.
  exact (proj2 (proj2 (window_procedures_registered demo_user demo_user User32Sendmessagea handle_send_message_a
    (call_at 0x10000 0x402 5) _ demo_tables_ok (calls_none _)
    (user_row 35 (User32Sendmessagea, handle_send_message_a) eq_refl) Hr))).
Defined.

(** GetMessage for the window and DispatchMessage of what it wrote. *)
Lemma demo_window_found : find_window demo_user 0x10000 = Some demo_window.
Proof. reflexivity. Qed.
Lemma message_reaches_window_witness :
  ∃ e', handle_get_message_a (user_at demo_msg_at 0x10000 0) = (mkUser (mkApi e' demo_win)
      (set_messages (mkMessages [demo_message 0x10000 0x401 2] 3 ExitOnIdle) demo_user), Ok (Return demo_ra 1)) ∧
    mirrors e' demo_msg_at (message_image (demo_message 0x10000 0x400 1)).
Proof.
  destruct (message_reaches_window (user_at demo_msg_at 0x10000 0) demo_msg_at demo_sp demo_ra 0 (demo_message 0x10000 0x400 1))
    as [(e' & Hr & Hm & _) _].
  - exact (call_frame_ok demo_msg_at 0x10000 0).
  - reflexivity.
  - discriminate.
  - apply (call_accessible _ _ _ demo_msg_at 48); unfold demo_msg_at, demo_ctrl, demo_end; lia.
  - left. discriminate.
  - by repeat split.
  - reflexivity.
  - exists e'. split; [exact Hr|exact Hm].
Defined.

(** PostMessage takes messages for the one fixed handle, which no created window
    has: a message for a window that exists is refused. *)
Lemma post_to_window_refused :
  (handle_post_message_a (user_at 0x10000 0x400 0)).2 = Ok (Return demo_ra 0) ∧
  (handle_post_message_a (user_at 0x66000100 0x400 0)).2 = Ok (Return demo_ra 1) ∧
  find_window demo_user 0x66000100 = None.
Proof. split_and!; [clear; vm_compute; reflexivity..]. Qed.

(** ** A session of this machine *)

From S2P Require Import path exec_one exec_demo fake_va engine_safe seh guest_stubs session session_spec.

#[local] Instance demo_run : GuestRun (GuestMemory * IcedCpu) := {| run_guest begin count := iced_cpu.run_until_stop None (λ x, x) begin 0 count |}.
#[local] Instance demo_dispatch : Dispatch (GuestMemory * IcedCpu) := {|
  dispatch_id id := match List.find (λ r, bool_decide (r.1 = id)) user32_rows with Some (_, h) => h | None => fail (Message "no handler") end;
  dispatch_name _ _ := fail (Message "no handler");
|}.
Definition demo_layout : RuntimeMemoryLayout := mkLayout 0x6fff0000 0x10000 0x6ffffff0 1000 3.
Definition demo_session (u : UserApi (GuestMemory * IcedCpu)) : RuntimeSession (GuestMemory * IcedCpu) :=
  mkSession u 0 0 [] None 0 0 [] [].

(** SendMessage's procedure, below the frame of the call. *)
Lemma window_procedure_called_witness :
  ∃ e', begin_guest_callback demo_layout (demo_request 0x402 5 0) (#"user32.dll") (#"SendMessageA") 0x6fff0100
          (demo_session (user_at 0x10000 0x402 5)) =
        (set_callbacks [mkCallback demo_sp (demo_request 0x402 5 0) (#"user32.dll") (#"SendMessageA") 0x6fff0100 None]
           (with_engine e' (demo_session (user_at 0x10000 0x402 5))), Ok tt) ∧
    call_frame e' (demo_sp - 0x30) 0x6ffffff0 ∧ context_reg Rip (snapshot_thread_context e') = demo_proc.
Proof.
  destruct (window_procedure_called demo_layout (demo_session (user_at 0x10000 0x402 5)) (demo_request 0x402 5 0)
    (#"user32.dll") (#"SendMessageA") 0x6fff0100 demo_sp demo_ra) as (e' & Hb & Hc & Hf & _).
  - exact (call_frame_ok 0x10000 0x402 5).
  - discriminate.
  - exact (in_u64_lit eq_refl).
  - apply (call_accessible 0x10000 0x402 5); unfold demo_sp, demo_ctrl, demo_end; lia.
  - reflexivity.
  - exact (in_u64_lit eq_refl).
  - exists e'. split; [exact Hb|]. split; [exact Hf|]. rewrite Hc. reflexivity.
Defined.

(** The page of the thread block; the host's error is 5, the guest's still 0. *)
Definition teb_mem : GuestMemory := (map_with_type (Some "0") 0 0x1000 3 Private (gm_new Host_empty)).1.
Lemma teb_mem_ok : mem_inv teb_mem ∧ ∀ x, 0 ≤ x < 0x1000 → mem_rw teb_mem x.
Proof.
  destruct (gm_new_ok Host_empty) as [Hw Hr].
  pose proof (safe_map (Some "0") 0 0x1000 3 Private _ Hw Hr eq_refl) as Hs.
  pose proof (map_with_type_holds (Some "0") (gm_new Host_empty) 0 0x1000 3 Private Hw) as Hm.
  assert (Hb : (map_with_type (Some "0") 0 0x1000 3 Private (gm_new Host_empty)).2 = Ok tt) by (clear; by vm_compute).
  unfold teb_mem. destruct (map_with_type _ _ _ _ _ _) as [g r]. cbn [fst snd] in *. subst r.
  destruct Hm as (_ & Hv & _); [by split|by split|done|]. destruct Hs as (Hi & Hrw & _); [by split..|].
  split; [split; [exact Hi|exact (host_rw_grants _ Hrw)]|]. intros x Hx. exists PAGE_READWRITE. rewrite Hv. split; [|by vm_compute].
  unfold retagged, PageMap.requested. rewrite decide_True; [reflexivity|]. assert (x / 4096 = 0) as -> by (apply Z.div_small; lia).
  by vm_compute.
Qed.
Definition teb_session : RuntimeSession (GuestMemory * IcedCpu) :=
  demo_session (mkUser (mkApi (teb_mem, new_engine) (set_last_error 5 demo_win)) demo_user).
Lemma last_error_published_witness :
  ∃ e', publish_last_error_to_guest teb_session = (set_published (Some 5) (with_engine e' teb_session), Ok tt) ∧
    holds e' TEB_LAST_ERROR_VA [5; 0; 0; 0].
Proof.
  destruct teb_mem_ok as [Hi Hrw].
  destruct (last_error_published teb_session) as (e' & p & Hr & Hh & _).
  - exact Hi.
  - split; [discriminate|]. split; [reflexivity|]. intros x Hx. apply Hrw. unfold TEB_LAST_ERROR_VA in Hx. lia.
  - intros err Herr. discriminate Herr.
  - split; [discriminate|reflexivity].
  - exists e'. assert (p = Some 5) as -> by (apply (f_equal (λ x, last_published_last_error x.1)) in Hr; symmetry; exact Hr).
    split; [exact Hr|exact Hh].
Defined.

(** One call allowed, and waits that are answered at once. *)
Definition answering : list nat → bool → u32 → UserApi (GuestMemory * IcedCpu) → UserApi (GuestMemory * IcedCpu) * u32 := λ _ _ _ u, (u, WAIT_OBJECT_0).
Definition demo_session_run := run_until_stop demo_layout [] 0x140001000 1 (λ _, true) (λ u, u) answering 1 (λ _, []) 1
  (Z.to_nat 300000) 0 (demo_session (user_at 0 0 0)).
Lemma session_comes_to_an_end_witness : ¬ ended demo_session_run.2 OutOfTurns ∧ ¬ ended demo_session_run.2 StillWaiting.
Proof.
  destruct (session_comes_to_an_end demo_layout [] 0x140001000 1 (λ _, true) (λ u, u) answering (λ _, [])
    (demo_session (user_at 0 0 0)) 1 (Z.to_nat 300000) 0 1) as (Hturns & Hwait & _).
  - split; [discriminate|reflexivity].
  - split; discriminate.
  - rewrite Z2Nat.id by discriminate. reflexivity.
  - split; [exact Hturns|]. apply Hwait. intros answers ts wait_all s [-> | ->]; clear; cbn; discriminate.
Defined.

(** The import of [exit] has no handler by number: it is found by name, and ends the process. *)
Lemma import_resolves_witness :
  ∃ va r soft, resolve_import_fake_va (#"msvcrt.dll") (#"EXIT") 0 [] = (soft, Some (va, make_entry va (#"msvcrt.dll") (#"EXIT") 0)) ∧
    resolve_fake_api_at va soft = Ok (Some r) ∧ exit_process (rs_traits r) = true.
Proof.
  assert (Hr : resolve_import_fake_va (#"msvcrt.dll") (#"EXIT") 0 [] =
    ([make_entry (encode_unresolved 0) (#"msvcrt.dll") (#"EXIT") 0],
     Some (encode_unresolved 0, make_entry (encode_unresolved 0) (#"msvcrt.dll") (#"EXIT") 0))) by (clear; vm_compute; reflexivity).
  edestruct import_resolves as (Hok & _ & Hl); [|exact Hr|].
  { split; [discriminate|]. intros i e Hi. rewrite lookup_nil in Hi. discriminate Hi. }
  cbv beta iota in Hl.
  destruct (Hl _ (reflexivity _) Hok) as (r & Hres & _ & _ & _ & Hx).
  exists (encode_unresolved 0), r, [make_entry (encode_unresolved 0) (#"msvcrt.dll") (#"EXIT") 0].
  split; [exact Hr|]. split; [exact Hres|]. rewrite Hx. reflexivity.
Defined.

(** A worker whose function has returned: its registers are zero. *)
Definition worker_sync : SyncState := (register_thread 2 ThreadContext_new sync_new).1.
Definition worker_state : UserApi (GuestMemory * IcedCpu) := mkUser (mkApi (call_mem, new_engine) (set_sync worker_sync demo_win)) demo_user.
Definition handle_order (m : gmap u64 nat) : list nat := (map_to_list m).*2.
Definition worker_run := worker_main demo_layout [] 2 (λ u, u) (λ _ _ _ u, (u, 0)) 1 handle_order (mret tt) 1 worker_state.
Lemma worker_end_is_seen_witness :
  ∃ t, arcs (w_sync (a_win (u_api worker_run.1))) !! 0%nat = Some (Thread t) ∧ thread_wait_begin INFINITE t = Returned true.
Proof.
  assert (Hr : worker_run = (worker_run.1, Ok Over)) by (apply injective_projections; [reflexivity|clear; vm_compute; reflexivity]).
  destruct (worker_end_is_seen demo_layout [] 2 (λ u, u) (λ _ _ _ u, (u, 0)) 1 handle_order (mret tt) 1 worker_state _ Hr) as [Hend _].
  destruct (Hend 0%nat) as (t & Ha & _ & _ & Hw).
  - clear. vm_compute. reflexivity.
  - exists t. split; [exact Ha|apply Hw].
Defined.

(** GetLastError in its slot, FlsGetValue in the helper region, ExitProcess with the host. *)
Definition demo_stubs : list RuntimeFakeApiEntry :=
  [make_entry demo_ctrl (#"KERNEL32.dll") (#"GetLastError") 0; make_entry (demo_ctrl + 16) (#"KERNEL32.dll") (#"FlsGetValue") 0;
   make_entry (demo_ctrl + 32) (#"KERNEL32.dll") (#"ExitProcess") 0].
Lemma stubs_planted_witness :
  ∃ e' bitmap, plant_guest_stubs demo_ctrl 0x1000 (from_layout 0x1000 0x2000 0x3000) (demo_ctrl + 0x1000) 0x1000 demo_stubs heap_mem0 =
      (e', Ok bitmap) ∧ bitmap_bit bitmap 0 = false ∧ bitmap_bit bitmap 32 = true.
Proof.
  destruct heap_mem0_ok as [Hi Hrw].
  destruct (stubs_planted demo_ctrl 0x1000 (from_layout 0x1000 0x2000 0x3000) (demo_ctrl + 0x1000) 0x1000 demo_stubs heap_mem0)
    as (e' & bm & Hr & _ & _ & _ & Hstop & Hgo & _).
  - unfold demo_ctrl. split; [discriminate|split; [discriminate|reflexivity]|split; [discriminate|split; [discriminate|reflexivity]]|left; discriminate].
  - repeat constructor.
  - exact Hi.
  - split; [discriminate|]. split; [reflexivity|]. intros x Hx. apply Hrw. unfold demo_ctrl, demo_end in *. lia.
  - split; [discriminate|]. split; [reflexivity|]. intros x Hx. apply Hrw. unfold demo_ctrl, demo_end in *. lia.
  - exists e', bm. split; [exact Hr|]. split.
    + apply (Hgo (make_entry demo_ctrl (#"KERNEL32.dll") (#"GetLastError") 0) (LoadZx32FromVa 0x68));
        [apply elem_of_cons; left; reflexivity|vm_compute; reflexivity|reflexivity|discriminate|discriminate].
    + apply Hstop; [lia|reflexivity|]. clear. intros en Hen Hva. unfold demo_stubs in Hen. rewrite !elem_of_cons, elem_of_nil in Hen.
      destruct Hen as [->|[->|[->|[]]]].
      * discriminate Hva.
      * discriminate Hva.
      * clear. vm_compute. reflexivity.
Defined.
