(* ===== verification/file_demo.v ===== *)
(** * Files on a concrete machine

    A host file system that is a table of paths, a console, and the theorems about
    open files applied to them; then sequences of calls whose outcome is a loss. *)

From S2P Require Import Prelude utf path volume protect pagemap vad arena region mem mem_access mem_ops mem_safe mem_demo.
From S2P Require Import regs insn engine iced_cpu exec_wf guest_heap heap_coherent cpu pe dll_loader hostfs files.
From S2P Require Import guest_string sync_obj thread win32 win32_spec win32_demo.
From S2P Require Import k32_thread k32_misc k32_info k32_file k32_path file_spec.

#[local] Existing Instance demo_os.
#[local] Existing Instance demo_laws.
#[local] Existing Instance demo_map.
#[local] Existing Instance demo_api.

(** ** A host *)

(** A file's bytes, or a folder. *)
Abbreviation node := (option (list u8)) (only parsing).
Abbreviation tree := (gmap str node) (only parsing).
Definition small (bs : list u8) : bool := bool_decide (Z.of_nat (length bs) < 2 ^ 63).
(** The file at [p]; a file that could not exist is none. *)
Definition tree_file (t : tree) (p : str) : option (list u8) :=
  match t !! p with Some (Some bs) => if small bs then Some bs else None | _ => None end.
Definition tree_folder (t : tree) (p : str) : bool := match t !! p with Some None => true | _ => false end.
Definition tree_put (p : str) (bs : list u8) (t : tree) : tree * option unit :=
  if tree_folder t p || negb (small bs) then (t, None) else (<[p := Some bs]> t, Some tt).
Definition tree_open (m : OpenMode) (p : str) (t : tree) : tree * option str :=
  match m, tree_file t p with
  | OpenRead, Some _ | WriteExisting, Some _ | WriteOrCreate, Some _ => (t, Some p)
  | CreateFile, _ | WriteOrCreate, None => ((tree_put p [] t).1, (λ _, p) <$> (tree_put p [] t).2)
  | _, None => (t, None)
  end.

#[local] Instance demo_host : HostFs := {|
  Fs := tree; File := str;
  fs_metadata t p :=
    match tree_file t p with
    | Some bs => Some (mkMeta RegularFile (Z.of_nat (length bs)))
    | None => if tree_folder t p then Some (mkMeta Folder 0) else None
    end;
  fs_read := tree_file;
  fs_write := tree_put;
  fs_create_dir_all p t := match t !! p with Some None => (t, Some tt) | Some (Some _) => (t, None) | None => (<[p := None]> t, Some tt) end;
  fs_remove_file p t := match tree_file t p with Some _ => (delete p t, Some tt) | None => (t, None) end;
  fs_remove_dir p t := if tree_folder t p then (delete p t, inl tt) else (t, inr OtherError);
  fs_rename a b t :=
    match tree_file t a with
    | Some bs => if tree_folder t b then (t, None) else (<[b := Some bs]> (delete a t), Some tt)
    | None => (t, None)
    end;
  fs_copy a b t :=
    match tree_file t a with
    | Some bs => let '(t, r) := tree_put b bs t in (t, match r with Some _ => Some (Z.of_nat (length bs)) | None => None end)
    | None => (t, None)
    end;
  fs_read_dir t p := None;
  fs_open := tree_open;
  fs_read_from f off n t := if decide (off < 0 ∨ n < 0) then None else (λ bs, take (Z.to_nat n) (drop (Z.to_nat off) bs)) <$> tree_file t f;
  fs_write_from f off data t :=
    match tree_file t f with
    | Some bs => if decide (data = []) then (t, Some tt) else tree_put f (overwrite (Z.to_nat off) data bs) t
    | None => (t, None)
    end;
  fs_set_len f n t :=
    match tree_file t f with Some bs => tree_put f (resize_bytes (Z.to_nat n) bs) t | None => (t, None) end;
|}.

Lemma tree_file_small t p bs : tree_file t p = Some bs → Z.of_nat (length bs) < 2 ^ 63.
Proof.
  unfold tree_file, small. destruct (t !! p) as [[c|]|]; [|done..]. case_bool_decide; [|done]. by intros [= <-].
Qed.
Lemma tree_put_file p bs t t' : tree_put p bs t = (t', Some tt) → tree_file t' p = Some bs.
Proof.
  unfold tree_put. destruct (_ || _) eqn:Hb; intros [= <-]. apply orb_false_iff in Hb as [_ Hs]. apply negb_false_iff in Hs.
  unfold tree_file. by rewrite lookup_insert_eq, Hs.
Qed.
Lemma tree_put_other p bs t q : q ≠ p → tree_file (tree_put p bs t).1 q = tree_file t q.
Proof. intros Hq. unfold tree_put, tree_file. destruct (_ || _); [done|]. cbn. by rewrite lookup_insert_ne. Qed.
Lemma tree_put_None p bs t t' : tree_put p bs t = (t', None) → t' = t.
Proof. unfold tree_put. destruct (_ || _); by intros [= <-]. Qed.

#[local] Program Instance demo_host_laws : HostFsLaws := {| content := tree_file; named := λ f, f |}.
Next Obligation.
  intros t p. cbn. destruct (tree_file t p); [done|]. destruct (tree_folder t p); by intros m [= <-].
Qed.
Next Obligation.
  exact tree_file_small.
Qed.
Next Obligation. done. Qed.
Next Obligation. intros p bs t t'. apply tree_put_file. Qed.
Next Obligation. intros p bs t q. apply tree_put_other. Qed.
Next Obligation.
  intros p t q. change Fs with tree in t. cbn. destruct (t !! p) as [[c|]|] eqn:Hp; [done..|]. unfold tree_file. cbn.
  destruct (decide (p = q)) as [->|Hq]; [by rewrite lookup_insert_eq, Hp|by rewrite lookup_insert_ne].
Qed.
Next Obligation.
  intros m p t t' f. cbn. unfold tree_open. destruct m, (tree_file t p); try (destruct (tree_put p [] t) as [t1 [[]|]]); by intros [= <- <-].
Qed.
Next Obligation.
  assert (Hnew : ∀ t t' p f, ((tree_put p [] t).1, (λ _, p) <$> (tree_put p [] t).2) = (t', Some f) → tree_file t' p = Some []).
  { intros t t' p f. destruct (tree_put p [] t) as [t1 [[]|]] eqn:Hput; cbn; intros [= <- <-]. by apply tree_put_file in Hput. }
  intros m p t t' f. cbn. unfold tree_open. destruct m, (tree_file t p) as [bs|] eqn:Hp; intros Ho;
    first [by apply Hnew in Ho|injection Ho as <- <-; by rewrite Hp|discriminate].
Qed.
Next Obligation.
  intros m p t t' q. cbn. unfold tree_open. destruct m, (tree_file t p) as [bs|] eqn:Hp; cbn;
    try (destruct (tree_put p [] t) as [t1 [[]|]] eqn:Hput; cbn); intros [= <-]; first [done|by apply tree_put_None in Hput as ->].
Qed.
Next Obligation.
  intros m p t t' f Ho ->. cbn in *. unfold tree_open in Ho. destruct (tree_file t p) as [bs|] eqn:Hp; [by eexists|done].
Qed.
Next Obligation.
  intros m p t q Hq. cbn. unfold tree_open. destruct m, (tree_file t p); try done; cbn; by apply tree_put_other.
Qed.
Next Obligation.
  intros f off n t bs. cbn. case_decide as Hn; [done|]. destruct (tree_file t f) as [c|] eqn:Hf; [|done]. intros [= <-] c' [= <-].
  exists (Z.to_nat n). split; [done|split; [lia|]]. intros Hnil. apply (f_equal length) in Hnil.
  rewrite length_take, length_drop in Hnil. cbn [length] in Hnil. lia.
Qed.
Next Obligation.
  intros f off data t t'. cbn. intros Hw c Hc. rewrite Hc in Hw. destruct (decide (data = [])) as [->|Hd].
  - by injection Hw as <-.
  - by apply tree_put_file in Hw.
Qed.
Next Obligation.
  intros f off data t q Hq. cbn. destruct (tree_file t f) as [c|]; [|done]. case_decide; [done|]. by apply tree_put_other.
Qed.
Next Obligation. intros f n t t'. cbn. intros Hw c Hc. rewrite Hc in Hw. by apply tree_put_file in Hw. Qed.
Next Obligation. intros f n t q Hq. cbn. destruct (tree_file t f) as [c|]; [|done]. by apply tree_put_other. Qed.
Next Obligation.
  intros p t t'. change Fs with tree in t, t'. cbn. destruct (tree_file t p) as [c|] eqn:Hp; [|done]. intros [= <-]. unfold tree_file. by rewrite lookup_delete_eq.
Qed.
Next Obligation.
  intros p t q Hq. change Fs with tree in t. cbn. destruct (tree_file t p) as [c|] eqn:Hp; [|done]. unfold tree_file. cbn. by rewrite lookup_delete_ne.
Qed.
Next Obligation.
  intros a b t t'. change Fs with tree in t, t'. cbn. intros Hr c Hc. rewrite Hc in Hr. destruct (tree_folder t b); [done|]. injection Hr as <-.
  unfold tree_file in *. destruct (t !! a) as [[bs|]|]; try done. destruct (small bs) eqn:Hs; [|done]. injection Hc as ->.
  rewrite lookup_insert_eq, Hs. split; [done|]. intros Hab. by rewrite lookup_insert_ne, lookup_delete_eq.
Qed.

(** ** A process and its console *)

#[local] Instance demo_console : HostConsole := {|
  Con := list u8 * list (u64 * list u8);
  con_read c := match c with ([], out) => (([], out), StdinEof) | (b :: l, out) => ((l, out), StdinGot b) end;
  con_write h bs c := (c.1, c.2 ++ [(h, bs)]);
|}.

(** A bottle at [/b], no mount, an empty memory file table. *)
Definition files_with (io : option GuestIoRuntimeConfig) : FileState :=
  mkFiles [] #"app.exe" #"C:\App\app.exe" (Some #"/b") (mkVolumes (Some #"/b") None) 0 [] [] ∅ 0x1000
    (encode_utf16 (str_text #"C:\App")) [] 0x2000 0 io 0 [] 0 InjectOnly.
Definition demo_files : FileState := files_with None.
Definition with_file (f : OpenGuestFile) (w : World) : World :=
  on_files (λ s, set_open_files (<[of_handle f := f]> (open_files s)) s) w.
Definition demo_tree : tree := {[ #"/b/drive_c/a.txt" := Some [1; 2; 3] ]}.
Definition demo_world : World := mkWorld demo_files demo_tree.
(** Open on [C:\a.txt]: streamed, or with the host's bytes in memory. *)
Definition streamed_file (h pos : u64) : OpenGuestFile := mkOpen h #"C:\a.txt" [] pos (Some #"/b/drive_c/a.txt") true None None.
Definition buffered_file (h pos : u64) : OpenGuestFile :=
  mkOpen h #"C:\a.txt" [1; 2; 3] pos (Some #"/b/drive_c/a.txt") false None None.

Definition fcall_cpu (rcx rdx r8 r9 : u64) : GuestMemory * IcedCpu :=
  (call_mem, with_regs (set_gpr 9 r9 (call_regs rcx rdx r8)) new_engine).
Definition fcall (w : World) (rcx rdx r8 r9 : u64) : FileApi (GuestMemory * IcedCpu) :=
  mkFileApi (mkApi (fcall_cpu rcx rdx r8 r9) demo_win) w ([], []).

Lemma fcall_frame_ok rcx rdx r8 r9 : call_frame (fcall_cpu rcx rdx r8 r9) demo_sp demo_ra.
Proof. destruct (call_frame_ok rcx rdx r8) as [Hi Hs Ha Hh Hra]. split; [exact Hi|exact Hs|exact Ha|exact Hh|exact Hra]. Qed.
Lemma fcall_accessible rcx rdx r8 r9 a n : demo_ctrl ≤ a → a + n ≤ demo_end → accessible (fcall_cpu rcx rdx r8 r9) a n.
Proof. exact (call_accessible rcx rdx r8 a n). Qed.
Lemma fcall_count w rcx rdx r8 ptr n : demo_ctrl ≤ ptr → ptr + n ≤ demo_ctrl + 0x800 →
  count_slot (fcall w rcx rdx r8 (demo_ctrl + 0x800)) (demo_ctrl + 0x800) demo_sp ptr n.
Proof.
  intros Hp Hn. right. split; [apply fcall_accessible; unfold demo_ctrl, demo_end; lia|].
  split; [left; unfold demo_sp; lia|right; lia].
Qed.

(** A session's world: the guest has a table of its open files.  The file with a copy is
    in the first slot, which says that it is at its start, wherever the host has it. *)
Definition demo_table : u64 := demo_ctrl + 0x2000.
Definition demo_copy : u64 := demo_ctrl + 0x4000.
Definition mirrored_world : World := mkWorld (files_with (Some (mkGuestIo demo_table demo_copy 0x10000))) demo_tree.
Definition mirrored_file (h pos : u64) : OpenGuestFile :=
  mkOpen h #"C:\a.txt" [1; 2; 3] pos (Some #"/b/drive_c/a.txt") false (Some demo_copy) (Some 0).

Lemma demo_in_table x : in_table (Some (mkGuestIo demo_table demo_copy 0x10000)) x → demo_table ≤ x < demo_table + 0x1400.
Proof. intros (cfg & [= <-] & Hx). exact Hx. Qed.
Lemma demo_table_ok f rcx rdx r8 r9 : table_ok (fcall (with_file f mirrored_world) rcx rdx r8 r9).
Proof. intros cfg [= <-]. apply fcall_accessible; unfold table_va, demo_table, table_size, GUEST_IO_MAX_SLOTS, GUEST_IO_SLOT_SIZE; cbn; unfold demo_ctrl, demo_end; lia. Qed.
Lemma demo_mirror_ok h pos rcx rdx r8 r9 f : f = buffered_file h pos ∨ f = mirrored_file h pos →
  mirror_ok (fcall (with_file f mirrored_world) rcx rdx r8 r9) f.
Proof.
  intros Hf. split; [apply demo_table_ok|by destruct Hf as [-> | ->]; [|intros i [= <-]]|by destruct Hf as [-> | ->]| |].
  - intros d Hd _. destruct Hf as [-> | ->]; [done|]. injection Hd as <-. apply fcall_accessible; unfold demo_copy, len64, demo_ctrl, demo_end; cbn; lia.
  - intros x Hx%demo_in_table (d & Hd & Hxx). destruct Hf as [-> | ->]; [done|]. injection Hd as <-.
    unfold demo_table, demo_copy in *. lia.
Qed.
Lemma demo_first_slot : holds call_mem (demo_table + 24) (le_bytes 8 0).
Proof.
  intros i b Hb. change (gbyte call_mem (demo_table + 24 + Z.of_nat i) = Some b).
  assert (Hall : imap (λ i _, gbyte call_mem (demo_table + 24 + Z.of_nat i)) (le_bytes 8 0) = Some <$> le_bytes 8 0)
    by (clear; vm_compute; reflexivity).
  apply (f_equal (.!! i)) in Hall. rewrite list_lookup_imap, list_lookup_fmap, Hb in Hall. exact (inj Some _ _ Hall).
Qed.

(** ** WriteFile: two bytes to a streamed file of three, two past its end *)

Lemma write_file_refines_witness :
  ∃ s', handle_write_file (fcall (with_file (streamed_file 0x1000 5) mirrored_world) 0x1000 demo_ctrl 2 (demo_ctrl + 0x800)) =
          (s', Ok (Return demo_ra 1)) ∧
    file_view (fa_world s') 0x1000 = Some ([1; 2; 3; 0; 0; 0; 0], 7) ∧
    holds (cpu_of s') (demo_ctrl + 0x800) (le_bytes 4 2).
Proof.
  destruct (write_file_refines (fcall (with_file (streamed_file 0x1000 5) mirrored_world) 0x1000 demo_ctrl 2 (demo_ctrl + 0x800))
    demo_sp demo_ra (streamed_file 0x1000 5) [1; 2; 3] [0; 0])
    as (s' & r & Hr & [(-> & _ & Hv & _ & _ & Hn)|(_ & _ & p & [= <-] & Hno)]).
  - apply fcall_frame_ok.
  - discriminate.
  - reflexivity.
  - discriminate.
  - reflexivity.
  - apply fcall_accessible; discriminate.
  - apply (call_mem_zero demo_ctrl 2); discriminate.
  - apply (fcall_count _ _ _ _ demo_ctrl 2); discriminate.
  - reflexivity.
  - discriminate.
  - apply demo_table_ok.
  - intros x Hx%demo_in_table. unfold demo_table, demo_sp in *. split; [lia|].
    change (reg_of _ R9) with (demo_ctrl + 0x800). lia.
  - reflexivity.
  - vm_compute. reflexivity.
  - reflexivity.
  - exists s'. split; [exact Hr|]. split; [exact Hv|]. apply Hn. discriminate.
  - exfalso. vm_compute in Hno. discriminate Hno.
Defined.

(** ** ReadFile: two bytes wanted of a file of three that the guest has set to its start
    while the host has it at the second *)

Lemma read_file_refines_witness :
  ∃ s', handle_read_file (fcall (with_file (mirrored_file 0x1000 1) mirrored_world) 0x1000 demo_ctrl 2 (demo_ctrl + 0x800)) =
          (s', Ok (Return demo_ra 1)) ∧
    holds (cpu_of s') demo_ctrl [1; 2] ∧ holds (cpu_of s') (demo_ctrl + 0x800) (le_bytes 4 2) ∧
    file_view (fa_world s') 0x1000 = Some ([1; 2; 3], 2) ∧ position s' 0x1000 2.
Proof.
  destruct (read_file_refines (fcall (with_file (mirrored_file 0x1000 1) mirrored_world) 0x1000 demo_ctrl 2 (demo_ctrl + 0x800))
    demo_sp demo_ra (mirrored_file 0x1000 1) [1; 2; 3] 0)
    as (s' & got & Hr & _ & Hgot & _ & _ & Hv & Hp & _ & Hb & Hn & _).
  - apply fcall_frame_ok.
  - discriminate.
  - split; [discriminate|reflexivity].
  - apply fcall_accessible; discriminate.
  - left. discriminate.
  - apply (fcall_count _ _ _ _ demo_ctrl 2); discriminate.
  - reflexivity.
  - discriminate.
  - reflexivity.
  - reflexivity.
  - reflexivity.
  - apply (demo_mirror_ok 0x1000 1). right. reflexivity.
  - change (reg_of _ R9) with (demo_ctrl + 0x800). change (reg_of _ Rdx) with demo_ctrl. change (reg_of _ R8) with 2. unfold demo_sp.
    intros x [Hx%demo_in_table|(d & [= <-] & Hx)]; [unfold demo_table in Hx|unfold demo_copy, len64 in Hx; cbn [length of_bytes mirrored_file] in Hx]; lia.
  - exact demo_first_slot.
  - split; [discriminate|reflexivity].
  - discriminate.
  - rewrite (Hgot eq_refl) in *. exists s'. split; [exact Hr|]. split; [exact Hb|]. split; [apply Hn; discriminate|].
    split; [exact Hv|exact Hp].
Defined.

(** A file of three at its fifth byte: the handler fails. *)
Lemma read_past_end_fails_witness :
  ∃ s', handle_read_file (fcall (with_file (buffered_file 0x1000 4) mirrored_world) 0x1000 demo_ctrl 8 (demo_ctrl + 0x800)) =
    (s', Err (Message "ReadFile slice out of range")).
Proof.
  destruct (read_past_end_fails (fcall (with_file (buffered_file 0x1000 4) mirrored_world) 0x1000 demo_ctrl 8 (demo_ctrl + 0x800))
    demo_sp demo_ra (buffered_file 0x1000 4) 4) as (s' & Hr & _).
  - apply fcall_frame_ok.
  - discriminate.
  - discriminate.
  - apply (fcall_count _ _ _ _ demo_ctrl 8); discriminate.
  - reflexivity.
  - discriminate.
  - reflexivity.
  - reflexivity.
  - apply (demo_mirror_ok 0x1000 4). left. reflexivity.
  - change (reg_of _ R9) with (demo_ctrl + 0x800). intros x Hx%demo_in_table. unfold demo_table in Hx. lia.
  - reflexivity.
  - split; [discriminate|reflexivity].
  - reflexivity.
  - exists s'. exact Hr.
Defined.

(** ** CREATE_ALWAYS over the file on the bottle *)

Lemma open_follows_plan_witness :
  ∃ w', open_or_create_guest_path #"C:\a.txt" CREATE_ALWAYS demo_world = (w', inl (HandleExists 0x1000)) ∧
    file_view w' 0x1000 = Some ([], 0).
Proof.
  destruct (open_or_create_guest_path #"C:\a.txt" CREATE_ALWAYS demo_world) as [w' r] eqn:Hr.
  assert (Hok : r = inl (HandleExists 0x1000)).
  { change r with (w', r).2. rewrite <- Hr. vm_compute. reflexivity. }
  subst r. exists w'. split; [reflexivity|].
  assert (Hplain : plain_path (files (on_files sync_volumes demo_world)) (full_path (files (on_files sync_volumes demo_world)) #"C:\a.txt")).
  { split; [vm_compute; reflexivity|]. split; [vm_compute; reflexivity|]. right. vm_compute. reflexivity. }
  pose proof (open_follows_plan #"C:\a.txt" CREATE_ALWAYS demo_world w' _ ltac:(discriminate) Hplain Hr) as Ho.
  assert (He : bool_decide (is_Some (guest_file (on_files sync_volumes demo_world)
    (full_path (files (on_files sync_volumes demo_world)) #"C:\a.txt"))) = true) by (vm_compute; reflexivity).
  rewrite He in Ho. change (disposition_plan CREATE_ALWAYS true) with Truncate in Ho. destruct Ho as [_ [Ho|[_ Hno]]].
  - exact (op_view _ _ _ _ _ _ Ho).
  - destruct Hno as (_ & p & Hp & Hno). exfalso. vm_compute in Hp. injection Hp as <-. vm_compute in Hno. discriminate Hno.
Defined.

(** ** CloseHandle stores the bytes the handle has *)

Definition dirty_file (h : u64) : OpenGuestFile := set_bytes [9; 9] (buffered_file h 2).
Lemma close_keeps_bytes_witness :
  ∃ s', handle_close_handle (fcall (with_file (dirty_file 0x1000) demo_world) 0x1000 0 0 0) = (s', Ok (Return demo_ra 1)) ∧
    guest_file (fa_world s') #"C:\a.txt" = Some [9; 9].
Proof.
  destruct (close_keeps_bytes (fcall (with_file (dirty_file 0x1000) demo_world) 0x1000 0 0 0) demo_sp demo_ra
    (dirty_file 0x1000) [9; 9]) as (s' & Hr & Hg & _).
  - apply fcall_frame_ok.
  - discriminate.
  - discriminate.
  - reflexivity.
  - reflexivity.
  - reflexivity.
  - split; [vm_compute; reflexivity|]. split; [vm_compute; reflexivity|]. right. vm_compute. reflexivity.
  - vm_compute. reflexivity.
  - exists s'. split; [exact Hr|]. destruct Hg as [Hg|(_ & p & [= <-] & Hno)]; [exact Hg|].
    exfalso. vm_compute in Hno. discriminate Hno.
Defined.

(** ** What is lost *)

(** Two handles on a file that fits memory hold copies of it.  The second changes
    it and is closed; closing the first, which changed nothing, restores the old
    bytes. *)
Lemma close_loses_update :
  let w := with_file (buffered_file 0x1000 0) (with_file (dirty_file 0x1001) demo_world) in
  let w1 := fa_world (handle_close_handle (fcall w 0x1001 0 0 0)).1 in
  let w2 := fa_world (handle_close_handle (fcall w1 0x1000 0 0 0)).1 in
  guest_file w1 #"C:\a.txt" = Some [9; 9] ∧ guest_file w2 #"C:\a.txt" = Some [1; 2; 3].
Proof. split; vm_compute; reflexivity. Qed.

(** A path that is mounted and on a drive is read from the mount and stored on the
    drive: what is written to it is not what is read. *)
Lemma mounted_write_lost :
  let w := on_files (set_mounts [mkMount #"C:\a.txt" #"/m/a.txt"])
             (mkWorld demo_files (<[ #"/m/a.txt" := Some [7] ]> demo_tree)) in
  match open_or_create_guest_path #"C:\a.txt" OPEN_EXISTING w with
  | (w, inl (Handle h)) =>
      let w := on_files (on_open_file h (set_bytes [9; 9])) w in
      let w := fa_world (handle_close_handle (fcall w h 0 0 0)).1 in
      content (host w) #"/b/drive_c/a.txt" = Some [9; 9] ∧ content (host w) #"/m/a.txt" = Some [7] ∧
      resolve_guest_file_bytes w #"C:\a.txt" = Some [7]
  | _ => False
  end.
Proof. vm_compute. repeat split. Qed.

(** DeleteFile on a file in memory removes it and reports that there was none. *)
Lemma delete_in_memory_reports_failure :
  let w := on_files (ensure_virtual_file #"E:\x") demo_world in
  is_Some (find_virtual (files w) #"E:\x") ∧ (finish_delete_file #"E:\x" w).2 = (0, FILE_NOT_FOUND) ∧
  find_virtual (files (finish_delete_file #"E:\x" w).1) #"E:\x" = None.
Proof. split; [eexists; vm_compute; reflexivity|]. split; vm_compute; reflexivity. Qed.
